(* ===== verification/_CoqProject ===== *)
-Q . S2P
Prelude.v
Sha256.v
Crypto.v
Format.v
Pattern.v
Budget.v
Sequence.v
Keys.v
TokenTable.v
Revocation.v
Capability.v
CapWire.v
AuditLog.v
AuditDisk.v
Ring.v
Recovery.v
Json.v
Policy.v
PolicyDoc.v
PolicyText.v
Dispatch.v
JsonText.v
JsonPatch.v
PtrTable.v
Heap.v
HeapRun.v
HeapTxn.v
HeapSnapshot.v
Lz4.v
WasmParse.v
WasmExec.v
WasmSem.v
WasmValid.v
WasmRun.v
WasmTools.v
PathGlob.v
PolicyV2.v
CanonPath.v
FdTable.v
Record.v
Context.v
Effects.v
PosixRoute.v
PolicyV2Doc.v
PolicyV2Text.v
Sanitize.v
Ipc.v
Process.v
MsgQueue.v
Mailbox.v
HashTable.v
Approval.v
Secrets.v
Field25519.v
Sha512.v
Ed25519.v
WasmSigned.v
NetEnforce.v
