(* ===== verification/Prelude.v ===== *)
(** * Authority kernel: a verification development

    The program is a unikernel that runs agents under mandatory mediation.
    Every request of an agent is checked against its identity, its sequence
    number, a capability token, a policy and a budget, and is recorded in a
    hash-chained audit log, before and after it is executed.  The sources are
    under [src/src/agentic] (files [ak_*.c]), on top of [src/src/runtime].

    ** Parts of the program and the files that model them

    - [Prelude]: machine integers as [Z] with their wrap-around, byte strings,
      little-endian fields, C strings ([cstr] is the text up to the first NUL),
      bounds-checked reads ([rd], [rdn]: an access outside the object is the
      outcome [Oob]), the step-relation closure [steps], tactics and hints.
    - [Sha256] ([runtime/sha256.c]): the streaming hash as written, and its
      equality with padding followed by block compression.
    - [Crypto] ([ak_capability.c], [ak_audit.c]): the class [Hash], an
      interface of a 32-byte hash with SHA-256 as its instance; HMAC; the
      constant-time comparison; token identifiers.  Clients are proved against
      [Hash], so security statements read "or the hash has a collision".
    - [Format] ([runtime/format.c], [runtime_init.c]): [vbprintf] with the
      conversions the canonical texts use, and their injectivity.
    - [Pattern] ([ak_pattern.c]): the glob matcher, equivalent to the relation
      [Glob]; it terminates.
    - [Budget] ([ak_budget.c]): trackers, admission, commit, reserve and
      release, breakdown and snapshot ring.
    - [Sequence] ([ak_ipc.c]): the anti-replay window and the hex codec.
    - [Keys] ([ak_capability.c]): the signing-key table: rotation, retirement,
      export and import.
    - [TokenTable], [Revocation] ([ak_capability.c]): hash-chained tables keyed
      by token identifier (class [HasTid]), and on them the revocation set and
      the rate counters.
    - [Capability], [CapWire] ([ak_capability.c]): tokens: creation,
      delegation, verification, scope, validation, canonical text; the binary
      wire format.
    - [AuditLog] ([ak_audit.c]): the in-memory log: segments, hash chain, anchors,
      query, verification.  [AuditDisk]: its persistence, synchronisation and
      crash recovery.  [Ring]: the data-plane ring.
    - [Recovery] ([ak_capability.c]): revocation together with the log, and the
      replay of revocations after a reboot.
    - [Json] ([ak_syscall.c], [ak_policy.c]): the scanners that take fields out
      of request arguments.
    - [Policy] ([ak_policy.c]): rules, tool, domain, URL and taint decisions
      and request evaluation.  [PolicyDoc]: the document parser, canonical
      text, authentication, loading, and versions.
      [PolicyText]: a printer of documents, the specification of the format,
      and what loading, upgrade and rollback mean in terms of it.
    - [Dispatch] ([ak_syscall.c]): agent contexts and the dispatcher, which
      composes the components above: validation, replay, capability, policy,
      execution, audit.

    - [JsonText], [JsonPatch] ([ak_heap.c]): the in-place JSON scanner with the
      grammar it recognises, and the RFC 6902 patch engine on texts with its
      meaning on trees.
    - [PtrTable], [Heap] ([ak_heap.c]): bucket tables keyed by pointer (class
      [HasPtr]) and on them the typed heap: objects, compare-and-swap
      writes through patches, version history, taint, schemas, queries and
      garbage collection.  [HeapRun]: runs of heap operations as an inductive
      relation, their invariants and the theorems about them.  [HeapTxn]:
      buffered transactions.  [HeapSnapshot]: snapshot and restore.
    - [Lz4] ([ak_lz4.c]): the compressor with its hash table of positions, the
      decompressor and the size bound.
    - [WasmParse], [WasmExec] ([ak_wasm_interp.c]): the integer WASM
      interpreter: the bounded cursor and its LEB128 readers, the section
      parsers, the validation of the entry body with its table of jumps, and
      the execution loop.  [WasmSem] is the specification: structured code and
      its evaluation with the arithmetic of the WASM standard, and the
      simulation of it by the loop.  [WasmValid] shows that a body that passes
      validation decodes to structured code.  [WasmRun] joins them.
    - [WasmTools] ([ak_wasm.c], [ak_handle_call] of [ak_syscall.c]): module,
      tool and host-function registries, execution contexts, the execution of
      a tool under its capability, the call handler with its budget.

    The second authorization path decides effects (what a system call, a tool
    call or an inference does to the world) instead of requests:

    - [PathGlob], [PolicyV2] ([ak_policy_v2.c]): the matchers for paths, network
      targets and domains; the rules for each kind of effect, the budgets and
      the decision with its explanation.
    - [PolicyV2Doc] ([ak_policy_v2.c]): the JSON parser, the integrity check,
      the built-in profiles, loading and bootstrap.  [PolicyV2Text]: a printer
      of documents and what loading means in terms of it.
    - [CanonPath] ([ak_effects.c]): canonical paths and socket addresses, with
      step-by-step resolution as their specification.
    - [FdTable] ([ak_fd_table.c]): the table of descriptors, a refinement of a
      finite map.  [Record] ([ak_record.c]): the recorder of refused effects, a
      refinement of a set.  [Context] ([ak_context.c]): contexts, modes, the
      boot capsule and trace identifiers.
    - [Effects] ([ak_effects.c]): the builders of requests and the authority
      gate.  [PosixRoute] ([ak_posix_route.c]): the system-call hooks in front
      of it, and runs of them.

    At the edges of the kernel:

    - [Sanitize] ([ak_sanitize.c]): the sanitizers that lower taint and the
      redaction of secrets, with readers of the contexts as specification.
    - [Ipc] ([ak_ipc.c]): frames with their CRC-32C, channels, and the texts of
      requests and responses.
    - [Process] ([ak_process.c]): the registry of processes with their policies
      and delegated capabilities, the subset test of policies, spawning.
    - [MsgQueue], [Mailbox] ([ak_agent_ipc.c]): the linked queues of messages over
      an allocator (class [Allocator]); the registry of agents with their
      mailboxes, hierarchy and capabilities, with a map of queues as its
      specification.
    - [HashTable] ([runtime/table.c]): the hash tables of the runtime, with a
      finite map as specification.  [Approval] ([ak_approval.c]) and [Secrets]
      ([ak_secrets.c]) keep their requests and values in them.
    - [NetEnforce] ([ak_net_enforce.c]): the rules and checks in front of the
      socket calls, over [HashTable], [Budget], [Sanitize] and [Ring].
    - [Field25519], [Sha512], [Ed25519] ([ak_ed25519.c]): the field arithmetic on
      limbs, the hash, the curve, the scalars and the verifier, with arithmetic
      modulo the prime as specification; the trusted keys.  [WasmSigned]: the
      registry of modules over this verifier.

    ** Modelling conventions

    State is passed explicitly; a C struct is a record with the source's field
    names.  Time ([now_ms]), random bytes and the outcome of each allocation
    are arguments, so that a theorem quantifies over every schedule of
    failures.  NULL is [None] (or [Null]).  Locks are not modelled: every
    modelled operation is one step.  That is what the locks of the source ensure
    except in a few places that the findings name: [ipc_send_internal] and
    [make_decision] are steps of the model although the source leaves gaps in
    them; the commit of a heap transaction is not one step, and what
    other threads do between its steps is an argument of it.  Arrays of the WASM
    interpreter and of the module keep the sizes the source gives them, and a
    store behind their end is a fault.  Loops whose recursion
    is not structural take fuel: [match_fuel] (string length times pattern
    length), [load_fuel] (file size over entry size) and, in the scanners and the
    restore loop, the length of the text; in each case a lemma shows that the
    fuel is enough, so the results are total.  The WASM loops take the number of
    bytes of the module: every jump goes forward.  Host functions are arguments
    that transform an abstract world.  A heap run is bounded by fewer
    than [2^64 - 2] calls and by values that fit the address space, so that the
    64-bit counters do not wrap.

    ** What the theorems show

    - Mediation: [executed_request_mediated] (a handler runs only after every
      check; introspection calls need no capability and taint refusals do not
      stop it), [every_request_audited] (unless the log is full), [executed_at_most_once] and
      [new_agent_confined], for every behaviour of the handlers that keeps the
      audit log and the identity of the context.
    - Effects: [gate_is_reference_monitor] (the gate allows what the policy in
      force grants, and explains a refusal), [every_call_mediated] (over every
      run of hooks), [open_confined] (an open that passes stays in the scopes of
      the policy, after resolution from the root), [v2_check_correct], [path_match_sound],
      [canonical_path_resolves], [socket_target_unambiguous]; for documents
      [v2_load_fails_closed] and [signed_document_means_its_rules];
      [fd_table_refines_map] and [recorder_is_a_set] for the state.
    - Authorization: [validate_correct] characterises when a token admits a
      request; [mac_binds_authority], [delegation_attenuates],
      [created_token_verifies] give soundness and
      liveness of tokens; [revoked_stays_revoked], [rate_limit_holds],
      [revocation_survives_reboot] (for any crash of any boot) the behaviour over
      time.  The text that [%s] prints for a method, which the code passes as a
      raw pointer, is a parameter.
    - Audit: [log_refines_history] (refinement of an append-only history),
      [log_tamper_evident]; [synced_entries_survive_crash] and
      [clean_reboot_exact] for the disk.
    - Policy and budget: [deny_always_wins], [evaluate_correct],
      [load_fails_closed], [document_means_its_rules],
      [upgrade_then_rollback],
      [budget_never_exceeded].
    - Sequencing and keys: [replay_never_accepted],
      [rotation_keeps_keys_unambiguous], export/import round trips.
    - Heap: [patch_apply_correct] (the patch engine is correct on texts),
      [write_is_compare_and_swap], [no_lost_update], [version_history_faithful],
      [taint_falls_only_by_sanitizer], [heap_accounting],
      [purge_is_memory_safe] over every run without restores, commits included
      ([commit_is_run]); [commit_all_or_nothing], with other threads at work on
      other objects; [snapshot_round_trip] and [restore_terminates].
    - Edges: [sanitizers_neutralise] (a sanitized text means its input and
      nothing else in its context), [redaction_leaves_no_secret];
      [channel_frames_sound] (checksums, validation and numbering of the frames of
      a session), [messages_read_back].
    - Processes: [privileges_only_shrink] (over every run of the registry),
      [exit_revokes_delegations], [spawn_authorisation_correct],
      [descendant_correct].
    - Mailboxes: [mailboxes_refine_queues] (over every interleaving of calls and
      polls), [delivery_authorised], [messages_arrive_in_order],
      [receive_returns].
    - Tables: [table_refines_map]; [decision_is_final] and
      [granted_only_by_reviewer] for approvals, [secret_released_by_capability].
    - Network: [network_policy_enforced] (over every run), [endpoint_determined],
      [ipv4_determined].
    - Signatures: [verify_decides_equation] (the verifier accepts what the
      verification equation admits), [verified_point_on_curve],
      [trusted_keys_refine_set], [verified_module_signed].
    - Compression: [lz4_round_trip], [compressed_fits_bound] and
      [decompress_in_bounds].
    - WASM: [wasm_run_safe] (no access outside any array), [wasm_run_refines_semantics], [wasm_gas_bounded],
      [wasm_typed_code_completes] and [wasm_confined] for the interpreter, on
      arbitrary bytes; [tool_execution_gated] and [module_registry_sound] for
      the tools built on it.
    - Substrate: SHA-256, glob matching, wire formats, scanners, rings.

    Statements that fail are kept as examples beside the component (for
    instance [Recovery.revoked_run_still_valid], [Capability.pattern_escalates],
    [Policy.userinfo_hides_host], [HeapSnapshot.snapshot_forges_trust],
    [HeapSnapshot.restore_reopens_version], [HeapTxn.commit_loses_race],
    [HeapTxn.commit_drops_inapplicable_patch], [JsonPatch.escaped_key_not_found],
    [Recovery.foreign_tail_hides_revocation], [Dispatch.full_log_response_unaudited],
    [WasmTools.unloaded_module_dangles], [PolicyV2Text.truncated_document_loads],
    [PosixRoute.rename_source_unchecked], [PosixRoute.hard_mode_flag_sticks],
    [Sanitize.path_traversal], [Ipc.error_response_malformed],
    [Process.delegated_token_rejected], [Process.subsumption_ignores_denials],
    [Mailbox.adoption_bypasses_capability], [Mailbox.response_forged],
    [Approval.expired_request_granted], [Secrets.long_reference_truncated]).

    ** Not modelled

    The built-in WASM host functions, the request handlers behind the
    dispatcher other than the tool call, the exports of the recorder, the TOML front end of policies,
    inference, and the unikernel below.  They come next, in that order.  Remote
    anchoring is a stub in the source; device input and output enter only as
    the success or failure of each transfer. *)

From Stdlib Require Export ZArith Lia.
From stdpp Require Export base list numbers sets gmap.
From Stdlib Require String Ascii.
Export String.StringSyntax.
Delimit Scope string_scope with string.

#[global] Open Scope Z_scope.

(** ** Machine integers

    A [w]-bit unsigned C integer is a [Z]; the conversions below write out
    the wrap-around of C's unsigned arithmetic and casts. *)

Abbreviation M8 := 256 (only parsing).
Abbreviation M16 := 65536 (only parsing).
Abbreviation M32 := 4294967296 (only parsing).
Abbreviation M64 := 18446744073709551616 (only parsing).

Definition u8 (z : Z) : Z := z mod M8.
Definition u16 (z : Z) : Z := z mod M16.
Definition u32 (z : Z) : Z := z mod M32.
Definition u64 (z : Z) : Z := z mod M64.

(** Conversion of a 32-bit (64-bit) pattern to a signed integer. *)
Definition s32 (z : Z) : Z :=
  let m := z mod M32 in if m <? 2147483648 then m else m - M32.
Definition s64 (z : Z) : Z :=
  let m := z mod M64 in if m <? 9223372036854775808 then m else m - M64.

Definition is_u8 (z : Z) : Prop := 0 <= z < M8.
Definition is_u16 (z : Z) : Prop := 0 <= z < M16.
Definition is_u32 (z : Z) : Prop := 0 <= z < M32.
Definition is_u64 (z : Z) : Prop := 0 <= z < M64.

#[global] Instance is_u8_dec z : Decision (is_u8 z).
Proof. unfold is_u8; apply _. Defined.
#[global] Instance is_u16_dec z : Decision (is_u16 z).
Proof. unfold is_u16; apply _. Defined.
#[global] Instance is_u32_dec z : Decision (is_u32 z).
Proof. unfold is_u32; apply _. Defined.
#[global] Instance is_u64_dec z : Decision (is_u64 z).
Proof. unfold is_u64; apply _. Defined.

(** A byte string: every element is meant to satisfy [is_u8]. *)
Abbreviation bytes := (list Z) (only parsing).
Definition wf_bytes (l : bytes) : Prop := Forall is_u8 l.

(** [errno] values of the runtime the modelled code returns. *)
Definition EPERM : Z := 1.
Definition EIO : Z := 5.
Definition EAGAIN : Z := 11.
Definition ENOMEM : Z := 12.
Definition EINVAL : Z := 22.
Definition ENOSYS : Z := 38.

(** ** Automation *)

(** Splits every comparison of integers the goal branches on. *)
Ltac zsplit :=
  repeat match goal with
  | |- context [Z.ltb ?a ?b] => destruct (Z.ltb_spec a b)
  | |- context [Z.leb ?a ?b] => destruct (Z.leb_spec a b)
  | |- context [Z.eqb ?a ?b] => destruct (Z.eqb_spec a b)
  end.

(** Same, for a hypothesis. *)
Ltac zsplit_in H :=
  repeat match type of H with
  | context [Z.ltb ?a ?b] => destruct (Z.ltb_spec a b)
  | context [Z.leb ?a ?b] => destruct (Z.leb_spec a b)
  | context [Z.eqb ?a ?b] => destruct (Z.eqb_spec a b)
  end.

(** Turns boolean hypotheses into propositions. *)
Ltac bprop :=
  repeat match goal with
  | H : _ && _ = true |- _ => apply andb_true_iff in H as [? ?]
  | H : _ || _ = false |- _ => apply orb_false_iff in H as [? ?]
  | H : negb _ = true |- _ => apply negb_true_iff in H
  | H : negb _ = false |- _ => apply negb_false_iff in H
  | H : (_ <? _) = true |- _ => apply Z.ltb_lt in H
  | H : (_ <? _) = false |- _ => apply Z.ltb_ge in H
  | H : (_ <=? _) = true |- _ => apply Z.leb_le in H
  | H : (_ <=? _) = false |- _ => apply Z.leb_gt in H
  | H : (_ =? _) = true |- _ => apply Z.eqb_eq in H
  | H : (_ =? _) = false |- _ => apply Z.eqb_neq in H
  end.

(** Destructs the scrutinee of the outermost [if]/[match] of a hypothesis. *)
Ltac cases_in H :=
  repeat match type of H with
  | context [match ?x with _ => _ end] => destruct x eqn:?; simplify_eq
  end.

(** Equality of texts up to the association of appends. *)
Ltac asc := cbn [app]; repeat first [rewrite <-app_assoc | rewrite <-app_comm_cons | progress cbn [app]]; reflexivity.

(** Lengths of texts. *)
Ltac lens := repeat first [rewrite length_app | progress cbn [length app]]; lia.

Create HintDb ak discriminated.

(** ** Outcomes of code that returns a pointer or NULL

    [Oob] is an access outside the object: an outcome no execution of
    correct code has, kept apart so that its absence can be proved. *)

Inductive outcome (A : Type) : Type :=
| Ret (a : A)
| Null
| Oob.
Arguments Ret {A} _.
Arguments Null {A}.
Arguments Oob {A}.

Definition obind {A B} (m : outcome A) (f : A -> outcome B) : outcome B :=
  match m with Ret a => f a | Null => Null | Oob => Oob end.

Declare Scope ak_scope.
Delimit Scope ak_scope with ak.
Notation "'let*' x ':=' m 'in' k" := (obind m (fun x => k))
  (at level 10, x name, m at level 100, k at level 200) : ak_scope.
Notation "'guard' b 'in' k" := (if b then k else Null)
  (at level 10, b at level 100, k at level 200) : ak_scope.
#[global] Open Scope ak_scope.

(** ** Byte order

    The blobs of the code are written with [runtime_memcpy] from integers, so
    they are in host order; every supported target is little-endian. *)

Fixpoint le_enc (n : nat) (z : Z) : bytes :=
  match n with
  | O => []
  | S n' => z mod 256 :: le_enc n' (z / 256)
  end.

Fixpoint le_dec (l : bytes) : Z :=
  match l with
  | [] => 0
  | b :: l' => b + 256 * le_dec l'
  end.

Lemma length_le_enc n z : length (le_enc n z) = n.
Proof. revert z; induction n; intros; simpl; auto. Qed.

Lemma wf_le_enc n z : wf_bytes (le_enc n z).
Proof.
  revert z; induction n; intros z; simpl; constructor; auto.
  - unfold is_u8. apply Z.mod_pos_bound. lia.
  - apply IHn.
Qed.

Lemma le_dec_enc n z : 0 <= z < 256 ^ Z.of_nat n -> le_dec (le_enc n z) = z.
Proof.
  revert z; induction n as [|n IH]; intros z Hz.
  - change (256 ^ Z.of_nat 0) with 1 in Hz. simpl. lia.
  - rewrite Nat2Z.inj_succ, Z.pow_succ_r in Hz by lia.
    cbn [le_enc le_dec]. rewrite IH.
    + pose proof (Z.div_mod z 256 ltac:(lia)). lia.
    + split; [apply Z.div_pos; lia | apply Z.div_lt_upper_bound; lia].
Qed.

Lemma le_dec_bound l : wf_bytes l -> 0 <= le_dec l < 256 ^ Z.of_nat (length l).
Proof.
  induction l as [|b l IH]; intros Hl.
  - simpl. lia.
  - inversion Hl as [|? ? Hb Hl']; subst. specialize (IH Hl').
    unfold is_u8 in Hb. cbn [le_dec length].
    rewrite Nat2Z.inj_succ, Z.pow_succ_r by lia. lia.
Qed.

Lemma le_enc_dec l : wf_bytes l -> le_enc (length l) (le_dec l) = l.
Proof.
  induction l as [|b l IH]; intros Hl; [done|].
  inversion Hl as [|? ? Hb Hl']; subst. unfold is_u8 in Hb.
  cbn [le_enc le_dec length].
  replace (b + 256 * le_dec l) with (b + le_dec l * 256) by lia.
  rewrite Z.mod_add, Z.mod_small, Z.div_add, Z.div_small, Z.add_0_l by lia.
  by rewrite IH.
Qed.

Lemma le_enc_inj n x y :
  0 <= x < 256 ^ Z.of_nat n -> 0 <= y < 256 ^ Z.of_nat n ->
  le_enc n x = le_enc n y -> x = y.
Proof. intros Hx Hy H. rewrite <-(le_dec_enc n x), H; auto using le_dec_enc. Qed.

(** ** Arrays *)

(** Byte [i] of an object, [Oob] past its end. *)
Definition rd (l : bytes) (i : Z) : outcome Z :=
  if i <? 0 then Oob
  else match l !! Z.to_nat i with Some b => Ret b | None => Oob end.

(** [n] bytes from offset [i], [Oob] when they do not all lie in the object. *)
Definition rdn (l : bytes) (i n : Z) : outcome bytes :=
  if (0 <=? i) && (0 <=? n) && (i + n <=? Z.of_nat (length l))
  then Ret (take (Z.to_nat n) (drop (Z.to_nat i) l)) else Oob.

Definition slice (i n : nat) (l : bytes) : bytes := take n (drop i l).

(** [runtime_memcpy] of [src] over a [dst] array, at offset [i]. *)
Definition splice (i : nat) (src dst : bytes) : bytes :=
  take i dst ++ src ++ drop (i + length src) dst.

Lemma length_splice i src dst :
  (i + length src <= length dst)%nat -> length (splice i src dst) = length dst.
Proof.
  intros H. unfold splice. rewrite !length_app, length_take, length_drop. lia.
Qed.

Definition zeros (n : nat) : bytes := replicate n 0.

Lemma wf_zeros n : wf_bytes (zeros n).
Proof. apply Forall_replicate. unfold is_u8; lia. Qed.

(** ** C strings *)

(** The string stored in a buffer: its bytes up to the first NUL
    ([runtime_strlen] is its length). *)
Fixpoint cstr (l : bytes) : bytes :=
  match l with
  | [] => []
  | b :: l' => if b =? 0 then [] else b :: cstr l'
  end.

Definition nonul (l : bytes) : Prop := Forall (fun b => b <> 0) l.

Lemma cstr_nonul l : nonul (cstr l).
Proof. induction l as [|b l IH]; simpl; [constructor|]. zsplit; constructor; auto. Qed.

Lemma cstr_app_nul s t : nonul s -> cstr (s ++ 0 :: t) = s.
Proof.
  induction s as [|b s IH]; intros H; [done|].
  inversion H; subst. simpl. zsplit; [lia|]. by rewrite IH.
Qed.

Lemma cstr_app_zeros s n : nonul s -> cstr (s ++ zeros n) = s.
Proof.
  destruct n; intros H; [|by apply cstr_app_nul].
  unfold zeros; simpl. rewrite app_nil_r. induction s as [|b s IH]; [done|].
  inversion H; subst. simpl. zsplit; [lia|]. by rewrite IH.
Qed.

Lemma cstr_nonul_id s : nonul s -> cstr s = s.
Proof. intros Hs. rewrite <-(app_nil_r s) at 1. by apply (cstr_app_zeros s 0). Qed.

Lemma length_cstr l : (length (cstr l) <= length l)%nat.
Proof. induction l; simpl; [lia|]. zsplit; simpl; lia. Qed.

(** [ak_strcmp] / [runtime_memcmp] of whole strings, as an equality test. *)
Definition bytes_eqb (a b : bytes) : bool := bool_decide (a = b).

Lemma bytes_eqb_eq a b : bytes_eqb a b = true <-> a = b.
Proof. apply bool_decide_eq_true. Qed.

Lemma bytes_eqb_refl a : bytes_eqb a a = true.
Proof. by apply bytes_eqb_eq. Qed.

(** ASCII literals, for string constants of the source. *)
Fixpoint ascii_bytes (s : String.string) : bytes :=
  match s with
  | String.EmptyString => []
  | String.String c s' => Z.of_N (Ascii.N_of_ascii c) :: ascii_bytes s'
  end.
Notation "'B' s" := (ascii_bytes s%string) (at level 9, s at level 0) : ak_scope.

(** The same for JSON texts, with ['] standing for the double quote. *)
Definition jq (s : String.string) : bytes :=
  (fun c => if c =? 39 then 34 else c) <$> ascii_bytes s.
Notation "'JQ' s" := (jq s%string) (at level 9, s at level 0) : ak_scope.

(** Texts separated by commas. *)
Fixpoint join (l : list bytes) : bytes :=
  match l with
  | [] => []
  | x :: l' => match l' with [] => x | _ => x ++ 44 :: join l' end
  end.

Lemma join_cons x y l : join (x :: y :: l) = x ++ 44 :: join (y :: l).
Proof. done. Qed.

Lemma length_join l : Forall (fun x => (0 < length x)%nat) l -> (length l <= length (join l))%nat.
Proof.
  induction 1 as [|x l Hx Hl IH]; [done|]. destruct l as [|y l]; [cbn in *; lia|].
  change (join (x :: y :: l)) with (x ++ 44 :: join (y :: l)). rewrite length_app. cbn [length] in *. lia.
Qed.

(** ** Reachability of a step relation *)

Inductive steps {S : Type} (R : S -> S -> Prop) : S -> S -> Prop :=
| steps_refl s : steps R s s
| steps_snoc s t u : steps R s t -> R t u -> steps R s u.

Lemma steps_invariant {S : Type} (R : S -> S -> Prop) (I : S -> Prop) s t :
  (forall x y, I x -> R x y -> I y) -> I s -> steps R s t -> I t.
Proof. intros Hpres Hs Hst. induction Hst; eauto. Qed.

(** ** Generic list lemmas *)

Lemma app_inj_len {A} (a1 a2 b1 b2 : list A) :
  length a1 = length a2 -> a1 ++ b1 = a2 ++ b2 -> a1 = a2 /\ b1 = b2.
Proof. intros Hl H. by apply app_inj_1 in H. Qed.

(** Two texts that agree, cut at the first byte outside a class, agree on
    the prefix and on the rest. *)
Lemma app_cut {A} (P : A -> Prop) (a1 a2 b1 b2 : list A) (x1 x2 : A) :
  Forall P a1 -> Forall P a2 -> ~ P x1 -> ~ P x2 ->
  a1 ++ x1 :: b1 = a2 ++ x2 :: b2 -> a1 = a2 /\ x1 = x2 /\ b1 = b2.
Proof.
  revert a2; induction a1 as [|c a1 IH]; intros [|d a2] H1 H2 N1 N2 E;
    simplify_eq/=; try done.
  - inversion H2; subst; done.
  - inversion H1; subst; done.
  - inversion H1; inversion H2; subst.
    destruct (IH a2) as (-> & -> & ->); auto.
Qed.

Lemma elem_of_take_in {A} (x : A) n l : x ∈ take n l -> x ∈ l.
Proof. intros (i & Hi & _)%elem_of_take. by eapply list_elem_of_lookup_2. Qed.

Lemma filter_ext_in {A} (P Q : A -> Prop) `{!forall x, Decision (P x)} `{!forall x, Decision (Q x)} (l : list A) :
  (forall x, x ∈ l -> P x <-> Q x) -> filter P l = filter Q l.
Proof.
  induction l as [|x l IH]; intros HPQ; [done|]. rewrite !filter_cons.
  rewrite IH by (intros; apply HPQ; by right).
  assert (P x <-> Q x) by (apply HPQ; left). repeat case_decide; tauto.
Qed.

Lemma filter_none {A} (P : A -> Prop) `{!forall x, Decision (P x)} (l : list A) :
  (forall x, x ∈ l -> ~ P x) -> filter P l = [].
Proof.
  induction l as [|x l IH]; intros HP; [done|].
  rewrite filter_cons, decide_False by (apply HP; left). apply IH. intros. apply HP. by right.
Qed.

(** ** Reads inside an object *)

Lemma rd_in_bounds l i : 0 <= i < Z.of_nat (length l) -> exists b, rd l i = Ret b.
Proof.
  intros Hi. unfold rd. destruct (Z.ltb_spec i 0); [lia|].
  destruct (lookup_lt_is_Some_2 l (Z.to_nat i)) as [b ->]; [lia|eauto].
Qed.

Lemma rdn_in_bounds l i n :
  0 <= i -> 0 <= n -> i + n <= Z.of_nat (length l) ->
  exists b, rdn l i n = Ret b /\ length b = Z.to_nat n.
Proof.
  intros Hi Hn Hl. unfold rdn.
  rewrite (proj2 (Z.leb_le 0 i)), (proj2 (Z.leb_le 0 n)), (proj2 (Z.leb_le _ _) Hl) by lia.
  eexists; split; [done|]. rewrite length_take, length_drop. lia.
Qed.

Lemma rdn_app a b c i n :
  i = Z.of_nat (length a) -> n = Z.of_nat (length b) -> rdn (a ++ b ++ c) i n = Ret b.
Proof.
  intros -> ->. unfold rdn. rewrite !length_app.
  rewrite !(proj2 (Z.leb_le _ _)) by lia. simpl. rewrite !Nat2Z.id.
  by rewrite drop_app_length, take_app_length.
Qed.

Lemma rd_app a x c i : i = Z.of_nat (length a) -> rd (a ++ x :: c) i = Ret x.
Proof.
  intros ->. unfold rd. destruct (Z.ltb_spec (Z.of_nat (length a)) 0); [lia|].
  rewrite Nat2Z.id, list_lookup_middle; done.
Qed.

(** A byte of a block that was read. *)
Lemma rd_of_rdn l i n s j :
  rdn l i n = Ret s -> 0 <= j < n -> rd l (i + j) = Ret (s !!! Z.to_nat j).
Proof.
  unfold rdn, rd. intros H Hj. destruct (_ && _) eqn:E; simplify_eq. bprop.
  destruct (Z.ltb_spec (i + j) 0); [lia|].
  rewrite (list_lookup_lookup_total_lt l) by lia. f_equal.
  rewrite !list_lookup_total_alt, lookup_take_lt, lookup_drop by lia.
  f_equal. f_equal. lia.
Qed.

Lemma rd_wf l i b : wf_bytes l -> rd l i = Ret b -> is_u8 b.
Proof.
  intros Hl. unfold rd. destruct (i <? 0); [done|].
  destruct (l !! Z.to_nat i) as [x|] eqn:E; [|done]. intros [= <-].
  exact (Forall_lookup_1 _ _ _ _ Hl E).
Qed.

(** Reads of a concatenation: skip what lies before the field. *)
Lemma rdn_skip (k : nat) a r off n :
  length a = k -> Z.of_nat k <= off -> rdn (a ++ r) off n = rdn r (off - Z.of_nat k) n.
Proof.
  intros <- Ho. unfold rdn. rewrite length_app.
  replace (off + n <=? _) with (off - Z.of_nat (length a) + n <=? Z.of_nat (length r))
    by (destruct (Z.leb_spec (off + n) (Z.of_nat (length a + length r)));
        [apply Z.leb_le|apply Z.leb_gt]; lia).
  replace (0 <=? off) with (0 <=? off - Z.of_nat (length a))
    by (rewrite !(proj2 (Z.leb_le 0 _)) by lia; done).
  destruct (_ && _); [|done]. f_equal. f_equal. rewrite drop_app_ge by lia. f_equal. lia.
Qed.

Lemma rd_skip (k : nat) a r off :
  length a = k -> Z.of_nat k <= off -> rd (a ++ r) off = rd r (off - Z.of_nat k).
Proof.
  intros <- Ho. unfold rd. rewrite lookup_app_r by lia.
  replace (Z.to_nat off - length a)%nat with (Z.to_nat (off - Z.of_nat (length a))) by lia.
  destruct (Z.ltb_spec off 0), (Z.ltb_spec (off - Z.of_nat (length a)) 0); (lia || done).
Qed.

Lemma rd_skip1 x r off : 1 <= off -> rd (x :: r) off = rd r (off - 1).
Proof. intros Ho. apply (rd_skip 1 [x]); [done|lia]. Qed.
Lemma rdn_skip1 x r off n : 1 <= off -> rdn (x :: r) off n = rdn r (off - 1) n.
Proof. intros Ho. apply (rdn_skip 1 [x]); [done|lia]. Qed.

Lemma rdn_here x r n : n = Z.of_nat (length x) -> rdn (x ++ r) 0 n = Ret x.
Proof. intros ->. by apply (rdn_app []). Qed.

(** Solves [rd]/[rdn] of a field of a concatenation whose parts have literal
    lengths (given by [length_le_enc] and hypotheses). *)
Ltac skip_len := first [apply length_le_enc | eassumption].
Ltac read_field :=
  repeat first
    [ rewrite rd_skip1 by lia | rewrite rdn_skip1 by lia
    | erewrite rd_skip; [|skip_len|lia]
    | erewrite rdn_skip; [|skip_len|lia] ];
  first [reflexivity | apply rdn_here; first
    [ rewrite length_le_enc; reflexivity
    | match goal with E : length _ = _ |- _ => rewrite E; reflexivity end ] ].

(** Reads inside a well-formed object, with what they return. *)
Lemma rd_ok l i : wf_bytes l -> 0 <= i < Z.of_nat (length l) -> exists b, rd l i = Ret b /\ is_u8 b.
Proof. intros Hl Hi. destruct (rd_in_bounds l i Hi) as [b Hb]. eauto using rd_wf. Qed.

Lemma rdn_ok l i n :
  wf_bytes l -> 0 <= i -> 0 <= n -> i + n <= Z.of_nat (length l) ->
  exists b, rdn l i n = Ret b /\ length b = Z.to_nat n /\ wf_bytes b.
Proof.
  intros Hl Hi Hn Hb. destruct (rdn_in_bounds l i n Hi Hn Hb) as (b & E & Hlen).
  exists b. split; [done|]. split; [done|]. unfold rdn in E. destruct (_ && _); [|done].
  injection E as <-. by apply Forall_take, Forall_drop.
Qed.

Lemma le_dec_wf l n : wf_bytes l -> length l = n -> 0 <= le_dec l < 256 ^ Z.of_nat n.
Proof. intros Hl <-. by apply le_dec_bound. Qed.

(** A shifted byte in its place. *)
Lemma land_shift_zero a b k : 0 <= k -> 0 <= a < 2 ^ k -> Z.land a (b * 2 ^ k) = 0.
Proof.
  intros Hk Ha. destruct (Z.eq_dec a 0) as [->|Ha0]; [apply Z.land_0_l|]. apply Z.bits_inj'. intros n Hn. rewrite Z.land_spec, Z.bits_0. destruct (Z.lt_ge_cases n k).
  - rewrite Z.mul_pow2_bits_low by lia. apply andb_false_r.
  - rewrite (Z.bits_above_log2 a n); [done|lia|]. apply Z.lt_le_trans with k; [|lia]. apply Z.log2_lt_pow2; lia.
Qed.

Lemma lor_shift_add a b k : 0 <= k -> 0 <= a < 2 ^ k -> Z.lor a (Z.shiftl b k) = a + b * 2 ^ k.
Proof.
  intros Hk Ha. rewrite Z.shiftl_mul_pow2 by lia. pose proof (land_shift_zero a b k Hk Ha) as Hz.
  by rewrite <-Z.lxor_lor, <-Z.add_nocarry_lxor.
Qed.
