(* ===== verification/Sha256.v ===== *)
(** * SHA-256 ([src/src/runtime/sha256.c])

    The streaming implementation the audit chain, the HMAC and the key
    derivation are built on: a 64-byte buffer, the block transform, and the
    padding of [sha256_final].  The main result is that the streaming code
    computes the textbook function: pad the message to a multiple of 64 bytes
    and fold the compression function over the blocks. *)

From S2P Require Import Prelude.

Record sha256_ctx := mk_sha256_ctx {
  data : bytes;       (* u8 data[64] *)
  datalen : nat;      (* u32 datalen, always < 64 between calls *)
  bitlen : Z;         (* unsigned long long bitlen *)
  state : list Z      (* u32 state[8] *)
}.

Definition ROTRIGHT (a b : Z) : Z := Z.lor (Z.shiftr a b) (u32 (Z.shiftl a (32 - b))).
Definition CH (x y z : Z) : Z := Z.lxor (Z.land x y) (Z.land (4294967295 - x) z).
Definition MAJ (x y z : Z) : Z := Z.lxor (Z.lxor (Z.land x y) (Z.land x z)) (Z.land y z).
Definition EP0 (x : Z) : Z := Z.lxor (Z.lxor (ROTRIGHT x 2) (ROTRIGHT x 13)) (ROTRIGHT x 22).
Definition EP1 (x : Z) : Z := Z.lxor (Z.lxor (ROTRIGHT x 6) (ROTRIGHT x 11)) (ROTRIGHT x 25).
Definition SIG0 (x : Z) : Z := Z.lxor (Z.lxor (ROTRIGHT x 7) (ROTRIGHT x 18)) (Z.shiftr x 3).
Definition SIG1 (x : Z) : Z := Z.lxor (Z.lxor (ROTRIGHT x 17) (ROTRIGHT x 19)) (Z.shiftr x 10).

(** The round constants, in decimal. *)
Definition k : list Z :=
  [
   1116352408; 1899447441; 3049323471; 3921009573;
   961987163; 1508970993; 2453635748; 2870763221;
   3624381080; 310598401; 607225278; 1426881987;
   1925078388; 2162078206; 2614888103; 3248222580;
   3835390401; 4022224774; 264347078; 604807628;
   770255983; 1249150122; 1555081692; 1996064986;
   2554220882; 2821834349; 2952996808; 3210313671;
   3336571891; 3584528711; 113926993; 338241895;
   666307205; 773529912; 1294757372; 1396182291;
   1695183700; 1986661051; 2177026350; 2456956037;
   2730485921; 2820302411; 3259730800; 3345764771;
   3516065817; 3600352804; 4094571909; 275423344;
   430227734; 506948616; 659060556; 883997877;
   958139571; 1322822218; 1537002063; 1747873779;
   1955562222; 2024104815; 2227730452; 2361852424;
   2428436474; 2756734187; 3204031479; 3329325298].

(** The first loop of [sha256_transform]: big-endian words of the block. *)
Fixpoint words (n : nat) (d : bytes) : list Z :=
  match n with
  | O => []
  | S n' =>
      Z.lor (Z.lor (Z.lor (Z.shiftl (d !!! 0%nat) 24) (Z.shiftl (d !!! 1%nat) 16))
                   (Z.shiftl (d !!! 2%nat) 8)) (d !!! 3%nat)
      :: words n' (drop 4 d)
  end.

(** The second loop: [n] more words [m[i]], appended. *)
Fixpoint extend (n i : nat) (m : list Z) : list Z :=
  match n with
  | O => m
  | S n' =>
      extend n' (S i)
        (m ++ [u32 (SIG1 (m !!! (i - 2)%nat) + m !!! (i - 7)%nat +
                    SIG0 (m !!! (i - 15)%nat) + m !!! (i - 16)%nat)])
  end.

(** The 64 rounds, on the working variables [a..h] kept as a list. *)
Definition round (v : list Z) (km : Z * Z) : list Z :=
  match v with
  | [a; b; c; d; e; f; g; h] =>
      let t1 := u32 (h + EP1 e + CH e f g + fst km + snd km) in
      let t2 := u32 (EP0 a + MAJ a b c) in
      [u32 (t1 + t2); a; b; c; u32 (d + t1); e; f; g]
  | _ => v
  end.

Definition sha256_transform (st : list Z) (block : bytes) : list Z :=
  let m := extend 48 16 (words 16 block) in
  let v := foldl round st (zip k m) in
  zip_with (fun s x => u32 (s + x)) st v.

Definition sha256_init : sha256_ctx :=
  mk_sha256_ctx (zeros 64) 0 0
    [0x6a09e667; 0xbb67ae85; 0x3c6ef372; 0xa54ff53a;
     0x510e527f; 0x9b05688c; 0x1f83d9ab; 0x5be0cd19].

(** One iteration of the loop of [sha256_update]. *)
Definition update_byte (c : sha256_ctx) (b : Z) : sha256_ctx :=
  let d := <[datalen c := b]> (data c) in
  let n := S (datalen c) in
  if (n =? 64)%nat
  then mk_sha256_ctx d 0 (u64 (bitlen c + 512)) (sha256_transform (state c) d)
  else mk_sha256_ctx d n (bitlen c) (state c).

Definition sha256_update (c : sha256_ctx) (msg : bytes) : sha256_ctx :=
  foldl update_byte c msg.

(** [bitlen] written big-endian into [data[56..63]]. *)
Definition be64 (z : Z) : bytes := rev (le_enc 8 z).

(** Big-endian bytes of one 32-bit word of the final state. *)
Definition be32 (z : Z) : bytes := rev (le_enc 4 z).

Definition sha256_final (c : sha256_ctx) : bytes :=
  let i := datalen c in
  let '(d, st) :=
    if (i <? 56)%nat
    then (take i (data c) ++ 0x80 :: zeros (56 - (i + 1)) ++ drop 56 (data c), state c)
    else
      let d := take i (data c) ++ 0x80 :: zeros (64 - (i + 1)) in
      (zeros 56 ++ drop 56 d, sha256_transform (state c) d) in
  let bl := u64 (bitlen c + Z.of_nat i * 8) in
  let d := take 56 d ++ be64 bl in
  concat (be32 <$> sha256_transform st d).

Definition sha256 (msg : bytes) : bytes := sha256_final (sha256_update sha256_init msg).

(** FIPS 180-2 test vectors. *)
Example sha256_abc : sha256 B"abc" =
  [0xba;0x78;0x16;0xbf;0x8f;0x01;0xcf;0xea;0x41;0x41;0x40;0xde;0x5d;0xae;0x22;0x23;
   0xb0;0x03;0x61;0xa3;0x96;0x17;0x7a;0x9c;0xb4;0x10;0xff;0x61;0xf2;0x00;0x15;0xad].
Proof. vm_compute. reflexivity. Qed.
Example sha256_two_blocks :
  sha256 B"abcdbcdecdefdefgefghfghighijhijkijkljklmklmnlmnomnopnopq" =
  [0x24;0x8d;0x6a;0x61;0xd2;0x06;0x38;0xb8;0xe5;0xc0;0x26;0x93;0x0c;0x3e;0x60;0x39;
   0xa3;0x3c;0xe4;0x59;0x64;0xff;0x21;0x67;0xf6;0xec;0xed;0xd4;0x19;0xdb;0x06;0xc1].
Proof. vm_compute. reflexivity. Qed.

(** ** Reference definition: pad, then fold over the blocks *)

Fixpoint compress (n : nat) (st : list Z) (l : bytes) : list Z :=
  match n with
  | O => st
  | S n' => compress n' (sha256_transform st (take 64 l)) (drop 64 l)
  end.

Definition padding (len : nat) : bytes :=
  0x80 :: zeros (Z.to_nat ((55 - Z.of_nat len) mod 64)) ++ be64 (u64 (8 * Z.of_nat len)).

Definition padded (msg : bytes) : bytes := msg ++ padding (length msg).

Definition sha256_spec (msg : bytes) : bytes :=
  concat (be32 <$> compress (length (padded msg) / 64) (state sha256_init) (padded msg)).

(** ** The streaming code computes it *)

#[local] Opaque sha256_transform.

Lemma compress_S n st l :
  compress (S n) st l = sha256_transform (compress n st l) (take 64 (drop (64 * n) l)).
Proof.
  revert st l; induction n as [|n IH]; intros st l; [done|].
  change (compress (S (S n)) st l)
    with (compress (S n) (sha256_transform st (take 64 l)) (drop 64 l)).
  rewrite IH, drop_drop. by replace (64 + 64 * n)%nat with (64 * S n)%nat by lia.
Qed.

Lemma compress_app n st l r :
  (64 * n <= length l)%nat -> compress n st (l ++ r) = compress n st l.
Proof.
  revert st l; induction n as [|n IH]; intros st l H; [done|].
  cbn [compress]. rewrite take_app_le, drop_app_le by lia.
  apply IH. rewrite length_drop. lia.
Qed.

(** State of the context after [msg]: the whole blocks are compressed and the
    rest is at the start of the buffer. *)
Definition ctx_of (msg : bytes) (c : sha256_ctx) : Prop :=
  let q := (length msg / 64)%nat in
  datalen c = (length msg mod 64)%nat /\
  length (data c) = 64%nat /\
  take (datalen c) (data c) = drop (64 * q) msg /\
  bitlen c = u64 (512 * Z.of_nat q) /\
  state c = compress q (state sha256_init) msg.

Lemma ctx_of_step msg c b : ctx_of msg c -> ctx_of (msg ++ [b]) (update_byte c b).
Proof.
  intros (Hn & Hl & Hd & Hb & Hs). unfold ctx_of, update_byte.
  rewrite length_app. cbn [length].
  pose proof (Nat.div_mod_eq (length msg) 64) as Hdm.
  pose proof (Nat.mod_upper_bound (length msg) 64 ltac:(lia)) as Hub.
  set (q := (length msg / 64)%nat) in *. rewrite <-Hn in Hdm, Hub.
  assert (Hdrop : drop (64 * q) (msg ++ [b]) = take (datalen c) (data c) ++ [b]).
  { rewrite drop_app_le, Hd by lia. done. }
  assert (Htake : take (S (datalen c)) (<[datalen c := b]> (data c)) =
                  take (datalen c) (data c) ++ [b]).
  { rewrite (take_S_r _ _ b) by (apply list_lookup_insert_eq; lia).
    by rewrite take_insert_ge by lia. }
  destruct (Nat.eqb_spec (S (datalen c)) 64) as [E|E]; cbn [datalen data bitlen state].
  - assert (Hq : ((length msg + 1) / 64 = S q)%nat)
      by (symmetry; apply (Nat.div_unique _ _ _ 0); lia).
    assert (Hm : ((length msg + 1) mod 64 = 0)%nat)
      by (symmetry; apply (Nat.mod_unique _ _ (S q)); lia).
    rewrite Hq, Hm, length_insert. repeat split; [done| | |].
    + rewrite drop_ge; [done|]. rewrite length_app. simpl. lia.
    + unfold u64 in *. rewrite Hb, Zplus_mod_idemp_l. f_equal. lia.
    + rewrite compress_S, compress_app, Hs by lia. f_equal.
      rewrite Hdrop, <-Htake, E, take_take, take_ge; [done|rewrite length_insert; lia].
  - assert (Hq : ((length msg + 1) / 64 = q)%nat)
      by (symmetry; apply (Nat.div_unique _ _ _ (S (datalen c))); lia).
    assert (Hm : ((length msg + 1) mod 64 = S (datalen c))%nat)
      by (symmetry; apply (Nat.mod_unique _ _ q); lia).
    rewrite Hq, Hm, length_insert. repeat split; [done| |done|].
    + by rewrite Hdrop, Htake.
    + rewrite compress_app by lia. done.
Qed.

Lemma ctx_of_update msg : ctx_of msg (sha256_update sha256_init msg).
Proof.
  unfold sha256_update. induction msg as [|b msg IH] using rev_ind.
  - repeat split.
  - rewrite foldl_snoc. by apply ctx_of_step.
Qed.

Lemma bitlen_final q i n :
  (n = 64 * q + i)%nat -> u64 (u64 (512 * Z.of_nat q) + Z.of_nat i * 8) = u64 (8 * Z.of_nat n).
Proof. intros ->. unfold u64. rewrite Zplus_mod_idemp_l. f_equal. lia. Qed.

Lemma padding_short len q i :
  (len = 64 * q + i)%nat -> (i < 56)%nat ->
  padding len = 0x80 :: zeros (55 - i) ++ be64 (u64 (8 * Z.of_nat len)).
Proof.
  intros -> Hi. unfold padding. do 3 f_equal.
  replace (55 - Z.of_nat (64 * q + i)) with (Z.of_nat (55 - i) + (- Z.of_nat q) * 64) by lia.
  rewrite Z.mod_add, Z.mod_small by lia. lia.
Qed.

Lemma padding_long len q i :
  (len = 64 * q + i)%nat -> (56 <= i < 64)%nat ->
  padding len = 0x80 :: zeros (63 - i) ++ zeros 56 ++ be64 (u64 (8 * Z.of_nat len)).
Proof.
  intros -> Hi. unfold padding.
  replace (55 - Z.of_nat (64 * q + i)) with (Z.of_nat (119 - i) + (- Z.of_nat (q + 1)) * 64) by lia.
  rewrite Z.mod_add, Z.mod_small, Nat2Z.id by lia.
  rewrite app_assoc. unfold zeros. rewrite <-replicate_add.
  do 3 f_equal. lia.
Qed.

Lemma length_be64 z : length (be64 z) = 8%nat.
Proof. unfold be64. by rewrite length_rev, length_le_enc. Qed.

(** The padded block, with the length field over whatever the buffer held. *)
Lemma last_block (x y z : bytes) :
  length x = 56%nat -> length z = 8%nat ->
  take 56 (x ++ y) ++ z = take 64 (x ++ z).
Proof.
  intros Hx Hz. rewrite take_app_le, take_ge by lia.
  by rewrite take_ge by (rewrite length_app; lia).
Qed.

Lemma sha256_spec_eq msg : sha256 msg = sha256_spec msg.
Proof.
  unfold sha256, sha256_spec, sha256_final.
  destruct (ctx_of_update msg) as (Hn & Hl & Hd & Hb & Hs).
  set (c := sha256_update sha256_init msg) in *.
  pose proof (Nat.div_mod_eq (length msg) 64) as Hdm.
  pose proof (Nat.mod_upper_bound (length msg) 64 ltac:(lia)) as Hub.
  set (q := (length msg / 64)%nat) in *. rewrite <-Hn in Hdm, Hub.
  rewrite Hb, (bitlen_final q _ (length msg)) by lia.
  assert (Hlt : length (take (datalen c) (data c)) = datalen c)
    by (rewrite length_take; lia).
  unfold padded. destruct (Nat.ltb_spec (datalen c) 56) as [Hi|Hi].
  - rewrite (padding_short _ q (datalen c)) by lia.
    replace (length _ / 64)%nat with (S q).
    2: { apply (Nat.div_unique _ _ _ 0); [lia|].
         rewrite length_app. cbn [length]. rewrite length_app, length_be64.
         unfold zeros. rewrite length_replicate. lia. }
    rewrite compress_S, compress_app, drop_app_le, <-Hd, <-Hs by lia.
    do 3 f_equal.
    replace (56 - (datalen c + 1))%nat with (55 - datalen c)%nat by lia.
    rewrite !app_comm_cons, !app_assoc. apply last_block; [|apply length_be64].
    rewrite length_app. simpl. unfold zeros. rewrite length_replicate. lia.
  - rewrite (padding_long _ q (datalen c)) by lia.
    replace (length _ / 64)%nat with (S (S q)).
    2: { apply (Nat.div_unique _ _ _ 0); [lia|].
         rewrite length_app. cbn [length]. rewrite !length_app, length_be64.
         unfold zeros. rewrite !length_replicate. lia. }
    assert (Hfull : length (take (datalen c) (data c) ++ 0x80 :: zeros (63 - datalen c)) = 64%nat).
    { rewrite length_app. simpl. unfold zeros. rewrite length_replicate. lia. }
    rewrite app_comm_cons, app_assoc.
    rewrite (compress_S (S q)), compress_app, compress_S, compress_app by
      (rewrite ?length_app; simpl; unfold zeros; rewrite ?length_replicate; lia).
    do 3 f_equal.
    + rewrite drop_app_le, <-Hd, <-Hs by lia. f_equal.
      replace (64 - (datalen c + 1))%nat with (63 - datalen c)%nat by lia.
      symmetry. apply take_ge. lia.
    + rewrite (drop_app_length' (msg ++ _)) by
        (rewrite length_app; simpl; unfold zeros; rewrite length_replicate; lia).
      apply last_block; [done|apply length_be64].
Qed.

(** the streaming SHA-256 is the textbook function.  Feeding a message
    byte by byte through the 64-byte buffer of [sha256_update] and finishing
    with the two-case padding of [sha256_final] gives, for every message, the
    digest obtained by padding the message and folding the compression function
    over its 64-byte blocks. *)
Theorem sha256_streaming_correct msg : sha256 msg = sha256_spec msg.
Proof. apply sha256_spec_eq. Qed.

Lemma length_transform st b : length st = 8%nat -> length (sha256_transform st b) = 8%nat.
Proof.
  #[local] Transparent sha256_transform.
  intros H. unfold sha256_transform. rewrite length_zip_with, H.
  enough (length (foldl round st (zip k (extend 48 16 (words 16 b)))) = 8%nat) by lia.
  generalize (zip k (extend 48 16 (words 16 b))) as l. intros l. revert st H.
  induction l as [|x l IH]; intros st H; [done|]. simpl. apply IH.
  do 9 (destruct st as [|? st]; try done).
Qed.

Lemma length_compress n st l : length st = 8%nat -> length (compress n st l) = 8%nat.
Proof. revert st l. induction n; intros; simpl; auto using length_transform. Qed.

Lemma concat_be32 l : length (concat (be32 <$> l)) = (4 * length l)%nat /\
  wf_bytes (concat (be32 <$> l)).
Proof.
  induction l as [|z l [IH1 IH2]]; cbn [fmap list_fmap concat length]; [split; [done|constructor]|].
  split.
  - rewrite length_app, IH1. unfold be32. rewrite length_rev, length_le_enc. lia.
  - apply Forall_app; split; [|done]. apply Forall_rev, wf_le_enc.
Qed.

(** The digest is 32 bytes, whatever the message. *)
Lemma length_sha256 msg : length (sha256 msg) = 32%nat.
Proof.
  rewrite sha256_spec_eq. unfold sha256_spec. rewrite (proj1 (concat_be32 _)).
  by rewrite length_compress.
Qed.

Lemma wf_sha256 msg : wf_bytes (sha256 msg).
Proof. rewrite sha256_spec_eq. apply concat_be32. Qed.
