(* ===== verification/Crypto.v ===== *)
(** * Hashing, MACs and token identifiers
    ([src/src/agentic/ak_capability.c], [ak_audit.c])

    The hash function is an interface, [Hash], so that the theorems about
    capabilities and about the audit chain are proved for any 32-byte hash; the
    instance is the SHA-256 of [Sha256.v].  Allocation failures of the code are
    boolean arguments. *)

From S2P Require Import Prelude Sha256.

Class Hash := {
  hash : bytes -> bytes;
  length_hash : forall m, length (hash m) = 32%nat;
  wf_hash : forall m, wf_bytes (hash m)
}.

#[global] Instance sha256_hash : Hash := {|
  hash := sha256;
  length_hash := length_sha256;
  wf_hash := wf_sha256
|}.

Definition AK_TOKEN_ID_SIZE : nat := 16.
Definition AK_HASH_SIZE : nat := 32.
Definition AK_MAC_SIZE : nat := 32.
Definition AK_KEY_SIZE : nat := 32.
Definition AK_GENESIS_HASH : bytes := zeros 32.

Section Hmac.
Context `{Hash}.

Definition HMAC_BLOCK_SIZE : nat := 64.

(** [ak_hmac_sha256]; [alloc] is the outcome of the allocation of the inner
    input.  When it fails the code writes an all-zero MAC. *)
Definition ak_hmac_sha256 (alloc : bool) (key dat : bytes) : bytes :=
  let k_prime :=
    if (HMAC_BLOCK_SIZE <? length key)%nat
    then hash key ++ zeros (HMAC_BLOCK_SIZE - 32)
    else key ++ zeros (HMAC_BLOCK_SIZE - length key) in
  let inner_pad := (fun b => Z.lxor b 0x36) <$> k_prime in
  let outer_pad := (fun b => Z.lxor b 0x5c) <$> k_prime in
  if alloc then hash (outer_pad ++ hash (inner_pad ++ dat)) else zeros 32.

Lemma length_hmac alloc key dat : length (ak_hmac_sha256 alloc key dat) = 32%nat.
Proof. unfold ak_hmac_sha256. destruct alloc; [apply length_hash|done]. Qed.

Lemma wf_hmac alloc key dat : wf_bytes (ak_hmac_sha256 alloc key dat).
Proof. unfold ak_hmac_sha256. destruct alloc; [apply wf_hash|apply wf_zeros]. Qed.

(** A collision of the MAC yields a collision of the hash. *)
Definition hash_collision : Prop := exists x y, x <> y /\ hash x = hash y.

Lemma hmac_collision key m1 m2 :
  ak_hmac_sha256 true key m1 = ak_hmac_sha256 true key m2 -> m1 = m2 \/ hash_collision.
Proof.
  unfold ak_hmac_sha256. cbv zeta iota. set (op := _ <$> _). set (ip := _ <$> _). intros E.
  destruct (decide (m1 = m2)) as [|Hne]; [by left|right].
  destruct (decide (hash (ip ++ m1) = hash (ip ++ m2))) as [Ei|Hi].
  - exists (ip ++ m1), (ip ++ m2). split; [|done]. intros E1%app_inv_head; congruence.
  - exists (op ++ hash (ip ++ m1)), (op ++ hash (ip ++ m2)). split; [|done]. intros E1%app_inv_head; congruence.
Qed.
End Hmac.

(** RFC 4231, test case 2. *)
Example hmac_rfc4231_2 :
  ak_hmac_sha256 true B"Jefe" B"what do ya want for nothing?" =
  [0x5b;0xdc;0xc1;0x46;0xbf;0x60;0x75;0x4e;0x6a;0x04;0x24;0x26;0x08;0x95;0x75;0xc7;
   0x5a;0x00;0x3f;0x08;0x9d;0x27;0x39;0x83;0x9d;0xec;0x58;0xb9;0x64;0xec;0x38;0x43].
Proof. vm_compute. reflexivity. Qed.

(** ** Constant-time comparison *)

Definition constant_time_compare (a b : bytes) (len : nat) : bool :=
  foldl (fun diff p => Z.lor diff (Z.lxor (fst p) (snd p))) 0 (zip (take len a) (take len b)) =? 0.

Definition ak_token_id_equal (a b : bytes) : bool := constant_time_compare a b AK_TOKEN_ID_SIZE.

Lemma foldl_lor_zero (l : list (Z * Z)) d :
  foldl (fun diff p => Z.lor diff (Z.lxor (fst p) (snd p))) d l = 0 <->
  d = 0 /\ Forall (fun p => fst p = snd p) l.
Proof.
  revert d; induction l as [|[x y] l IH]; intros d; simpl.
  - split; [by auto|tauto].
  - rewrite IH, Z.lor_eq_0_iff, Z.lxor_eq_0_iff. split.
    + intros [[? ?] ?]. split; [done|]. by constructor.
    + intros [? Hf]. inversion Hf; subst. done.
Qed.

(** It is equality of the compared prefixes. *)
Lemma constant_time_compareP a b len :
  (len <= length a)%nat -> (len <= length b)%nat ->
  constant_time_compare a b len = true <-> take len a = take len b.
Proof.
  intros Ha Hb. unfold constant_time_compare. rewrite Z.eqb_eq, foldl_lor_zero.
  assert (Hl : length (take len a) = length (take len b)) by (rewrite !length_take; lia).
  split.
  - intros [_ Hf]. revert Hl Hf. generalize (take len a), (take len b). clear.
    intros a b. revert b; induction a as [|x a IH]; intros [|y b] Hl Hf; simplify_eq/=; [done|].
    inversion Hf; subst. simpl in *. f_equal; auto.
  - intros ->. split; [done|]. generalize (take len b). clear.
    intros l. induction l; simpl; constructor; auto.
Qed.

Lemma mac_compareP a b :
  length a = 32%nat -> length b = 32%nat ->
  constant_time_compare a b AK_MAC_SIZE = true <-> a = b.
Proof.
  intros Ha Hb. rewrite constant_time_compareP by (unfold AK_MAC_SIZE; lia).
  unfold AK_MAC_SIZE. by rewrite !take_ge by lia.
Qed.

Lemma token_id_equalP a b :
  length a = 16%nat -> length b = 16%nat -> ak_token_id_equal a b = true <-> a = b.
Proof.
  intros Ha Hb. unfold ak_token_id_equal. rewrite constant_time_compareP by (unfold AK_TOKEN_ID_SIZE; lia).
  unfold AK_TOKEN_ID_SIZE. by rewrite !take_ge by lia.
Qed.

Lemma token_id_equal_refl a : ak_token_id_equal a a = true.
Proof.
  unfold ak_token_id_equal, constant_time_compare. rewrite Z.eqb_eq, foldl_lor_zero.
  split; [done|]. generalize (take AK_TOKEN_ID_SIZE a). intros l. induction l; simpl; constructor; auto.
Qed.

(** FNV-1a over the whole token identifier; never 0. *)
Definition ak_tid_hash (tid : bytes) : Z :=
  let h := foldl (fun h b => u64 (Z.lxor h b * 0x100000001b3)) 0xcbf29ce484222325
             (take AK_TOKEN_ID_SIZE tid) in
  if h =? 0 then 1 else h.
