(* ===== verification/Format.v ===== *)
(** * Formatted output ([src/src/runtime/format.c], [runtime_init.c])

    The canonical texts the capability MAC and the audit chain hash are built
    with [bprintf].  This file translates [vbprintf], the number formatter and
    the string formatter, and proves what the clients need: the text of a
    number determines the number, and it contains no byte outside its digit
    class.

    An argument of the variable argument list is an integer, an [sstring], or
    a raw [char] pointer.  [format_sstring] reads an [sstring] (pointer and
    length) from the list; handing it a raw pointer, as several callers do, is
    undefined in C, so what is printed then is the parameter [raw_s].  The
    formatter table is the one [init_runtime] registers. *)

From S2P Require Import Prelude.

Inductive varg :=
| VInt (z : Z)
| VSstr (s : bytes)
| VPtr (obj : bytes).

Record formatter_state := mk_fst {
  fs_state : bool;          (* state == 1: inside a conversion *)
  fs_format : Z;
  fs_modifier : Z;
  fs_width : Z;
  fs_align : Z;
  fs_fill : Z;
  fs_precision : Z
}.

Definition reset_formatter_state : formatter_state := mk_fst false 0 0 0 0 0 (-1).

Definition set_state b s := mk_fst b (fs_format s) (fs_modifier s) (fs_width s)
  (fs_align s) (fs_fill s) (fs_precision s).
Definition set_format c s := mk_fst (fs_state s) c (fs_modifier s) (fs_width s)
  (fs_align s) (fs_fill s) (fs_precision s).
Definition set_modifier c s := mk_fst (fs_state s) (fs_format s) c (fs_width s)
  (fs_align s) (fs_fill s) (fs_precision s).
Definition set_width w s := mk_fst (fs_state s) (fs_format s) (fs_modifier s) w
  (fs_align s) (fs_fill s) (fs_precision s).
Definition set_align c s := mk_fst (fs_state s) (fs_format s) (fs_modifier s) (fs_width s)
  c (fs_fill s) (fs_precision s).
Definition set_fill c s := mk_fst (fs_state s) (fs_format s) (fs_modifier s) (fs_width s)
  (fs_align s) c (fs_precision s).
Definition set_precision p s := mk_fst (fs_state s) (fs_format s) (fs_modifier s) (fs_width s)
  (fs_align s) (fs_fill s) p.

(** [hex_digits] and [hex_digits_upper]. *)
Definition digit (upper : bool) (r : Z) : Z :=
  if r <? 10 then 48 + r else (if upper then 55 else 87) + r.

(** [print_number]; 64 digits are enough for any 64-bit number in base 10 or
    16 and any padding up to 64. *)
Fixpoint print_number_fuel (fuel : nat) (x base pad : Z) (upper : bool) : bytes :=
  match fuel with
  | O => []
  | S fuel' =>
      let q := x / base in
      let r := x mod base in
      (if (0 <? q) || (1 <? pad) then print_number_fuel fuel' q base (pad - 1) upper else [])
      ++ [digit upper r]
  end.
Definition print_number (x base pad : Z) (upper : bool) : bytes :=
  print_number_fuel 64 x base pad upper.

Definition fill (len c : Z) : bytes := replicate (Z.to_nat len) c.

(** [format_number], applied to the argument popped from the list. *)
Definition format_number (s : formatter_state) (arg : Z) : bytes :=
  let base := if (fs_format s =? 120) || (fs_format s =? 88) then 16 else 10 in
  let x := if fs_modifier s =? 108 then s64 arg
           else if fs_format s =? 100 then s32 arg else u32 arg in
  let sign := (fs_format s =? 100) && (x <? 0) in
  let x := if sign then - x else x in
  let tmp := print_number (u64 x) base (fs_precision s) (fs_format s =? 88) in
  let none := (fs_precision s =? 0) && (x =? 0) in
  let len := if none then 0 else Z.of_nat (length tmp) + (if sign then 1 else 0) in
  (if sign && (fs_fill s =? 48) then [45] else []) ++
  (if (len <? fs_width s) && (fs_align s =? 0) then fill (fs_width s - len) (fs_fill s) else []) ++
  (if sign && negb (fs_fill s =? 48) then [45] else []) ++
  (if none then [] else tmp) ++
  (if (len <? fs_width s) && (fs_align s =? 45) then fill (fs_width s - len) 32 else []).

Section Vbprintf.
(** What [%s] prints when it is handed a raw pointer instead of an [sstring]. *)
Context (raw_s : bytes -> bytes).

Definition format_sstring (s : formatter_state) (str : bytes) : bytes :=
  let len := Z.of_nat (length str) in
  let len := if (0 <? fs_precision s) && (fs_precision s <? len) then fs_precision s else len in
  (if (len <? fs_width s) && (fs_align s =? 0) then fill (fs_width s - len) 32 else []) ++
  take (Z.to_nat len) str ++
  (if (len <? fs_width s) && (fs_align s =? 45) then fill (fs_width s - len) 32 else []).

(** A conversion: the registered formatter, whether it accepts [l], applied
    to the next argument.  [None]: the argument list does not fit. *)
Definition convert (s : formatter_state) (ap : list varg) : option (bytes * list varg) :=
  let c := fs_format s in
  if (c =? 120) || (c =? 88) || (c =? 100) || (c =? 117) then
    match ap with
    | VInt z :: ap' => Some (format_number s z, ap')
    | _ => None
    end
  else
    match ap with
    | VSstr str :: ap' => Some (format_sstring s str, ap')
    | VPtr obj :: ap' => Some (raw_s obj, ap')
    | _ => None
    end.

(** Conversions the code below uses: [x X d u] (accepting [l]) and [s]. *)
Definition known (c : Z) (long : bool) : bool :=
  (c =? 120) || (c =? 88) || (c =? 100) || (c =? 117) || ((c =? 115) && negb long).

Definition invalid_format (fmt : bytes) (start idx : nat) : bytes :=
  B"[invalid format " ++ slice start (idx - start + 1) fmt ++ [93].

(** The loop of [vbprintf] over the format string from [idx] on. *)
Fixpoint vb_loop (fmt : bytes) (rest : bytes) (idx start : nat)
    (s : formatter_state) (ap : list varg) (d : bytes) : option bytes :=
  match rest with
  | [] => Some d
  | c :: rest' =>
    let next := vb_loop fmt rest' (S idx) in
    if fs_state s then
      if (idx - start =? 1)%nat && ((c =? 48) || (c =? 45)) then
        next start (if c =? 48 then set_fill 48 s else set_align 45 s) ap d
      else if (48 <=? c) && (c <=? 57) then
        if fs_precision s =? -1 then
          let s := if fs_fill s =? 0 then set_fill 32 s else s in
          next start (set_width (fs_width s * 10 + (c - 48)) s) ap d
        else next start (set_precision (fs_precision s * 10 + (c - 48)) s) ap d
      else if c =? 108 then
        if negb (fs_modifier s =? 0) then next start s ap (d ++ invalid_format fmt start idx)
        else next start (set_modifier c s) ap d
      else if c =? 37 then next start (set_state false s) ap (d ++ [c])
      else if c =? 46 then
        if negb (fs_precision s =? -1) then next start s ap (d ++ invalid_format fmt start idx)
        else next start (set_precision 0 s) ap d
      else if known c (fs_modifier s =? 108) then
        match convert (set_format c s) ap with
        | Some (out, ap') => next start reset_formatter_state ap' (d ++ out)
        | None => None
        end
      else next start reset_formatter_state ap (d ++ invalid_format fmt start idx)
    else if c =? 37 then next idx (set_state true s) ap d
    else next start s ap (d ++ [c])
  end.

Definition vbprintf (fmt : bytes) (ap : list varg) : option bytes :=
  vb_loop fmt fmt 0 0 reset_formatter_state ap [].

(** [bprintf]: the text appended to the buffer. *)
Definition bprintf (fmt : bytes) (ap : list varg) : bytes :=
  match vbprintf fmt ap with Some d => d | None => [] end.
End Vbprintf.

(** Only what is printed of the raw pointers among the arguments matters. *)
Lemma convert_raw raw raw' s ap :
  (forall obj, VPtr obj ∈ ap -> raw obj = raw' obj) -> convert raw s ap = convert raw' s ap.
Proof.
  intros Hr. unfold convert. destruct (_ || _); [done|]. destruct ap as [|[z|str|obj] ap]; try done.
  by rewrite Hr by left.
Qed.

Lemma convert_rest raw s ap out ap' : convert raw s ap = Some (out, ap') -> exists x, ap = x :: ap'.
Proof.
  unfold convert. destruct (_ || _); destruct ap as [|[z|str|obj] ap]; intros [=]; subst; eauto.
Qed.

Lemma vb_loop_raw raw raw' fmt rest idx start s ap d :
  (forall obj, VPtr obj ∈ ap -> raw obj = raw' obj) ->
  vb_loop raw fmt rest idx start s ap d = vb_loop raw' fmt rest idx start s ap d.
Proof.
  revert idx start s ap d. induction rest as [|c rest IH]; intros idx start s ap d Hr; [done|]. cbn [vb_loop].
  rewrite (convert_raw raw raw') by done.
  repeat match goal with
  | |- (if ?b then _ else _) = _ => destruct b
  | |- match convert ?r ?s ?a with _ => _ end = _ => destruct (convert r s a) as [[? ?]|] eqn:E; [|done]
  | |- _ => apply IH; try done
  end.
  apply convert_rest in E as [x ->]. intros obj Hobj. apply Hr. by right.
Qed.

Lemma bprintf_raw raw raw' fmt ap :
  (forall obj, VPtr obj ∈ ap -> raw obj = raw' obj) -> bprintf raw fmt ap = bprintf raw' fmt ap.
Proof. intros Hr. unfold bprintf, vbprintf. by rewrite (vb_loop_raw raw raw'). Qed.

Example bprintf_ex :
  bprintf cstr B"{%d,%02x,%ld,%s}" [VInt 4294967295; VInt 10; VInt 77; VSstr B"ok"]
  = B"{-1,0a,77,ok}".
Proof. vm_compute. reflexivity. Qed.

(** ** Numbers are printed injectively *)

Definition is_digit (b : Z) : Prop := 48 <= b <= 57 \/ 97 <= b <= 102 \/ 65 <= b <= 70 \/ b = 45.

Fixpoint digits_value (base : Z) (l : bytes) (acc : Z) : Z :=
  match l with
  | [] => acc
  | b :: l' => digits_value base l' (acc * base + (if b <? 58 then b - 48 else b - 87))
  end.

Lemma digits_value_app base a b acc :
  digits_value base (a ++ b) acc = digits_value base b (digits_value base a acc).
Proof. revert acc; induction a; intros acc; simpl; auto. Qed.

Lemma print_number_value fuel x base pad :
  2 <= base <= 16 -> 0 <= x < base ^ Z.of_nat fuel ->
  digits_value base (print_number_fuel fuel x base pad false) 0 = x.
Proof.
  intros Hb. revert x pad; induction fuel as [|fuel IH]; intros x pad Hx.
  - change (base ^ Z.of_nat 0) with 1 in Hx. simpl. lia.
  - rewrite Nat2Z.inj_succ, Z.pow_succ_r in Hx by lia. simpl.
    pose proof (Z.div_mod x base ltac:(lia)) as Hdm.
    pose proof (Z.mod_pos_bound x base ltac:(lia)) as Hr.
    assert (0 <= x / base) by (apply Z.div_pos; lia).
    rewrite digits_value_app. cbn [digits_value].
    replace (if digit false (x mod base) <? 58 then _ else _) with (x mod base)
      by (unfold digit; zsplit; lia).
    destruct (_ || _) eqn:E.
    + rewrite IH; [lia|]. split; [lia|]. apply Z.div_lt_upper_bound; lia.
    + bprop. simpl. lia.
Qed.

Lemma print_number_digits fuel x base pad :
  2 <= base <= 16 -> Forall is_digit (print_number_fuel fuel x base pad false).
Proof.
  intros Hb. revert x pad; induction fuel as [|fuel IH]; intros x pad; simpl; [constructor|].
  pose proof (Z.mod_pos_bound x base ltac:(lia)).
  apply Forall_app; split; [destruct (_ || _); [apply IH|constructor]|].
  constructor; [|constructor]. unfold digit, is_digit. zsplit; lia.
Qed.

(** The conversions the canonical texts use. *)
Definition fmt_d : formatter_state := set_format 100 (set_state true reset_formatter_state).
Definition fmt_ld : formatter_state := set_modifier 108 fmt_d.
Definition fmt_02x : formatter_state :=
  set_format 120 (set_width 2 (set_fill 48 (set_state true reset_formatter_state))).

(** Value of a signed decimal text. *)
Definition signed_value (l : bytes) : Z :=
  match l with
  | 45 :: l' => - digits_value 10 l' 0
  | _ => digits_value 10 l 0
  end.

Lemma print_number_head fuel x base pad :
  2 <= base <= 16 -> match print_number_fuel fuel x base pad false with 45 :: _ => False | _ => True end.
Proof.
  intros Hb. assert (H : Forall (fun b => b <> 45) (print_number_fuel fuel x base pad false)).
  { revert x pad; induction fuel as [|fuel IH]; intros x pad; simpl; [constructor|].
    pose proof (Z.mod_pos_bound x base ltac:(lia)).
    apply Forall_app; split; [destruct (_ || _); [apply IH|constructor]|].
    constructor; [|constructor]. unfold digit. zsplit; lia. }
  destruct H as [|b l Hb']; [done|]. repeat case_match; done.
Qed.

Lemma signed_text x :
  - M64 < x < M64 ->
  let t := (if x <? 0 then [45] else []) ++ print_number (Z.abs x) 10 (-1) false in
  signed_value t = x /\ Forall is_digit t.
Proof.
  intros Hx. cbv zeta. unfold print_number.
  assert (Hv := print_number_value 64 (Z.abs x) 10 (-1) ltac:(lia)).
  assert (Hd := print_number_digits 64 (Z.abs x) 10 (-1) ltac:(lia)).
  assert (Hh := print_number_head 64 (Z.abs x) 10 (-1) ltac:(lia)).
  specialize (Hv ltac:(split; [lia|]; change (10 ^ Z.of_nat 64) with
    10000000000000000000000000000000000000000000000000000000000000000; lia)).
  set (p := print_number_fuel 64 (Z.abs x) 10 (-1) false) in *. clearbody p.
  destruct (Z.ltb_spec x 0); simpl.
  - rewrite Hv. split; [lia|]. constructor; [unfold is_digit; lia|done].
  - split; [|done]. rewrite <-(Z.abs_eq x), <-Hv by lia.
    destruct p as [|b p]; [done|]. unfold signed_value. repeat case_match; done.
Qed.

Lemma s64_range z : - 9223372036854775808 <= s64 z < 9223372036854775808.
Proof. unfold s64. pose proof (Z.mod_pos_bound z M64 ltac:(lia)). zsplit; lia. Qed.

Lemma s32_range z : - 2147483648 <= s32 z < 2147483648.
Proof. unfold s32. pose proof (Z.mod_pos_bound z M32 ltac:(lia)). zsplit; lia. Qed.

Lemma format_signed s z x :
  fs_format s = 100 -> fs_precision s = -1 -> fs_width s = 0 -> fs_fill s = 0 ->
  x = (if fs_modifier s =? 108 then s64 z else s32 z) ->
  format_number s z = (if x <? 0 then [45] else []) ++ print_number (Z.abs x) 10 (-1) false.
Proof.
  intros Hf Hp Hw Hl ->. unfold format_number. rewrite Hf, Hp, Hw, Hl. simpl.
  set (x := if fs_modifier s =? 108 then s64 z else s32 z).
  assert (Hr : - 9223372036854775808 <= x < 9223372036854775808).
  { subst x. pose proof (s64_range z). pose proof (s32_range z). case_match; lia. }
  clearbody x.
  replace (if x <? 0 then - x else x) with (Z.abs x) by (zsplit; lia).
  replace (u64 (Z.abs x)) with (Z.abs x) by (unfold u64; rewrite Z.mod_small; lia).
  replace (Z.of_nat _ + _ <? 0) with false by (symmetry; apply Z.ltb_ge; zsplit; lia).
  simpl. destruct (x <? 0); simpl; by rewrite app_nil_r.
Qed.

Lemma signed_format s z :
  fs_format s = 100 -> fs_precision s = -1 -> fs_width s = 0 -> fs_fill s = 0 ->
  signed_value (format_number s z) = (if fs_modifier s =? 108 then s64 z else s32 z) /\
  Forall is_digit (format_number s z).
Proof.
  intros Hf Hp Hw Hl. rewrite (format_signed s z _ Hf Hp Hw Hl eq_refl).
  apply signed_text. pose proof (s64_range z). pose proof (s32_range z). case_match; lia.
Qed.

Lemma s32_inj x y : is_u32 x -> is_u32 y -> s32 x = s32 y -> x = y.
Proof. unfold is_u32, s32. intros ??. rewrite !Z.mod_small by lia. zsplit; lia. Qed.

Lemma s64_inj x y : is_u64 x -> is_u64 y -> s64 x = s64 y -> x = y.
Proof. unfold is_u64, s64. intros ??. rewrite !Z.mod_small by lia. zsplit; lia. Qed.

(** [%d] determines a 32-bit argument, [%ld] a 64-bit one. *)
Lemma fmt_d_inj x y :
  is_u32 x -> is_u32 y -> format_number fmt_d x = format_number fmt_d y -> x = y.
Proof.
  intros Hx Hy E. apply s32_inj; [done..|].
  pose proof (signed_format fmt_d x eq_refl eq_refl eq_refl eq_refl) as [Ex _].
  pose proof (signed_format fmt_d y eq_refl eq_refl eq_refl eq_refl) as [Ey _].
  simpl in Ex, Ey. by rewrite <-Ex, <-Ey, E.
Qed.

Lemma fmt_ld_inj x y :
  is_u64 x -> is_u64 y -> format_number fmt_ld x = format_number fmt_ld y -> x = y.
Proof.
  intros Hx Hy E. apply s64_inj; [done..|].
  pose proof (signed_format fmt_ld x eq_refl eq_refl eq_refl eq_refl) as [Ex _].
  pose proof (signed_format fmt_ld y eq_refl eq_refl eq_refl eq_refl) as [Ey _].
  simpl in Ex, Ey. by rewrite <-Ex, <-Ey, E.
Qed.

Lemma fmt_d_digits x : Forall is_digit (format_number fmt_d x).
Proof. by apply signed_format. Qed.
Lemma fmt_ld_digits x : Forall is_digit (format_number fmt_ld x).
Proof. by apply signed_format. Qed.

(** [%02x] of a byte: two digits that determine the byte (checked on the 256
    values). *)
Definition hex_byte (b : Z) : bytes := format_number fmt_02x b.

Definition all_bytes : list Z := Z.of_nat <$> seq 0 256.

Lemma all_bytes_spec b : is_u8 b -> b ∈ all_bytes.
Proof.
  intros Hb. apply list_elem_of_fmap. exists (Z.to_nat b). unfold is_u8 in Hb.
  split; [lia|]. apply elem_of_seq. lia.
Qed.

Definition hex_value (l : bytes) : Z := digits_value 16 l 0.

Lemma hex_byte_table :
  forallb (fun b => (length (hex_byte b) =? 2)%nat && (hex_value (hex_byte b) =? b)) all_bytes = true.
Proof. vm_compute. reflexivity. Qed.

Lemma hex_byte_spec b : is_u8 b -> length (hex_byte b) = 2%nat /\ hex_value (hex_byte b) = b.
Proof.
  intros Hb. pose proof hex_byte_table as H. rewrite forallb_forall in H.
  specialize (H b (proj1 (list_elem_of_In _ _) (all_bytes_spec b Hb))).
  apply andb_true_iff in H as [H1 H2]. apply Nat.eqb_eq in H1. bprop. done.
Qed.

(** Lower-case hexadecimal of a byte string, as the loops of the
    canonicalizers print it. *)
Definition hex_bytes (l : bytes) : bytes := concat (hex_byte <$> l).

Lemma length_hex_bytes l : wf_bytes l -> length (hex_bytes l) = (2 * length l)%nat.
Proof.
  induction 1 as [|b l Hb Hl IH]; [done|]. unfold hex_bytes in *.
  cbn [fmap list_fmap concat length]. rewrite length_app, IH, (proj1 (hex_byte_spec b Hb)). lia.
Qed.

Lemma hex_bytes_inj a b :
  wf_bytes a -> wf_bytes b -> length a = length b -> hex_bytes a = hex_bytes b -> a = b.
Proof.
  intros Ha. revert b; induction Ha as [|x a Hx Ha IH]; intros [|y b] Hb Hl E; try done.
  inversion Hb as [|? ? Hy Hb']; subst. simpl in Hl. unfold hex_bytes in *.
  cbn [fmap list_fmap concat] in E.
  destruct (hex_byte_spec x Hx) as [Lx Vx], (hex_byte_spec y Hy) as [Ly Vy].
  apply app_inj_len in E as [E1 E2]; [|lia].
  f_equal; [by rewrite <-Vx, <-Vy, E1|]. apply IH; auto.
Qed.

(** ** Texts of formats *)

(** Evaluates [bprintf] on a literal format: both sides become the same
    concatenation of literals and printed arguments. *)
Ltac fmt_text :=
  rewrite ?app_assoc; cbv -[format_number app hex_bytes]; rewrite <-?app_assoc; reflexivity.

(** Whether a literal starts with a byte that ends a number. *)
Definition ends_number (lit : bytes) : bool :=
  match lit with
  | c :: _ => negb ((48 <=? c) && (c <=? 57) || (97 <=? c) && (c <=? 102) || (65 <=? c) && (c <=? 70) || (c =? 45))
  | [] => false
  end.

Lemma ends_number_spec lit :
  ends_number lit = true -> exists c r, lit = c :: r /\ ~ is_digit c.
Proof.
  destruct lit as [|c r]; [done|]. unfold ends_number, is_digit. intros Hc. exists c, r. split; [done|].
  zsplit_in Hc; simpl in Hc; try done; lia.
Qed.

(** A number and the literal after it determine the number and the rest. *)
Lemma fmt_d_cut x y lit r1 r2 :
  is_u32 x -> is_u32 y -> ends_number lit = true ->
  format_number fmt_d x ++ lit ++ r1 = format_number fmt_d y ++ lit ++ r2 -> x = y /\ r1 = r2.
Proof.
  intros Hx Hy (c & l & -> & Hc)%ends_number_spec E. cbn [app] in E.
  destruct (app_cut is_digit _ _ _ _ _ _ (fmt_d_digits x) (fmt_d_digits y) Hc Hc E) as (E1 & _ & E2).
  apply app_inv_head in E2. split; [by apply fmt_d_inj|done].
Qed.

Lemma fmt_ld_cut x y lit r1 r2 :
  is_u64 x -> is_u64 y -> ends_number lit = true ->
  format_number fmt_ld x ++ lit ++ r1 = format_number fmt_ld y ++ lit ++ r2 -> x = y /\ r1 = r2.
Proof.
  intros Hx Hy (c & l & -> & Hc)%ends_number_spec E. cbn [app] in E.
  destruct (app_cut is_digit _ _ _ _ _ _ (fmt_ld_digits x) (fmt_ld_digits y) Hc Hc E) as (E1 & _ & E2).
  apply app_inv_head in E2. split; [by apply fmt_ld_inj|done].
Qed.

Lemma hex_bytes_cut a b r1 r2 :
  wf_bytes a -> wf_bytes b -> length a = length b ->
  hex_bytes a ++ r1 = hex_bytes b ++ r2 -> a = b /\ r1 = r2.
Proof.
  intros Ha Hb Hl E. apply app_inj_len in E as [E ->]; [|by rewrite !length_hex_bytes, Hl].
  split; [by apply hex_bytes_inj|done].
Qed.
