(* ===== verification/Pattern.v ===== *)
(** * Glob patterns ([src/src/agentic/ak_pattern.c])

    Capability resources, policy tool rules and policy domain rules are all
    decided by [ak_pattern_match].  This file translates the iterative matcher
    with its single backtracking point and proves it equivalent to the
    declarative glob relation [Glob]; the proof also shows that the loop
    always terminates.

    Lengths and indices are [nat]: they are bounded by the length of the
    pattern and of the string, so the [u64] counters never wrap.  The sentinel
    [(u64)-1] of [star_pi]/[star_si] is [None]. *)

From S2P Require Import Prelude.

Abbreviation STAR := 42 (only parsing).
Abbreviation QM := 63 (only parsing).

(** ** The code *)

(** [while (pi < plen && pattern[pi] == '*') pi++], on the rest of the
    pattern. *)
Fixpoint skip_stars (p : bytes) : bytes :=
  match p with
  | c :: p' => if c =? STAR then skip_stars p' else p
  | [] => []
  end.

Section Matcher.
Context (pattern string : bytes).

Abbreviation plen := (length pattern).
Abbreviation slen := (length string).

(** The main [while (si < slen)] loop; [None] is "out of fuel". *)
Fixpoint match_loop (fuel pi si : nat) (star : option (nat * nat)) : option bool :=
  if negb (si <? slen)%nat then
    (* trailing stars match the empty string; the pattern must be consumed *)
    Some (match skip_stars (drop pi pattern) with [] => true | _ => false end)
  else
  match fuel with
  | O => None
  | S fuel =>
    if (pi <? plen)%nat && (pattern !!! pi =? STAR) then
      match_loop fuel (S pi) si (Some (S pi, si))
    else if (pi <? plen)%nat &&
            ((pattern !!! pi =? QM) || (pattern !!! pi =? string !!! si)) then
      match_loop fuel (S pi) (S si) star
    else
      match star with
      | Some (star_pi, star_si) =>
          match_loop fuel star_pi (S star_si) (Some (star_pi, S star_si))
      | None => Some false
      end
  end.

(** Enough iterations for every pattern and string: the star position never
    decreases, and between two backtracks the pattern index grows. *)
Definition match_fuel : nat := ((slen + 1) * (plen + 2))%nat.

Definition pattern_match_internal : option bool := match_loop match_fuel 0 0 None.
End Matcher.

(** [ak_pattern_match_n]; the strings carry their explicit lengths, and
    [None] is a NULL argument. *)
Definition ak_pattern_match_n (pattern string : option bytes) : option bool :=
  match pattern, string with
  | Some p, Some s =>
      if (length p =? 0)%nat then Some (length s =? 0)%nat
      else if (length p =? 1)%nat && (p !!! 0%nat =? STAR) then Some true
      else pattern_match_internal p s
  | _, _ => Some false
  end.

(** [ak_pattern_match] on NUL-terminated strings: the arguments are the
    objects the pointers designate, [local_strlen] stops at the first NUL. *)
Definition ak_pattern_match (pattern string : bytes) : bool :=
  match ak_pattern_match_n (Some (cstr pattern)) (Some (cstr string)) with
  | Some b => b
  | None => false
  end.

(** ** Specification: the glob language *)

Inductive Glob : bytes -> bytes -> Prop :=
| Glob_nil : Glob [] []
| Glob_star_end p s : Glob p s -> Glob (STAR :: p) s
| Glob_star_eat p c s : Glob (STAR :: p) s -> Glob (STAR :: p) (c :: s)
| Glob_any p c s : Glob p s -> Glob (QM :: p) (c :: s)
| Glob_chr p c s : c <> STAR -> Glob p s -> Glob (c :: p) (c :: s).
#[export] Hint Constructors Glob : ak.

Lemma Glob_star_suffix p s :
  Glob (STAR :: p) s <-> exists k, (k <= length s)%nat /\ Glob p (drop k s).
Proof.
  split.
  - intros H. remember (STAR :: p) as q eqn:Eq.
    induction H; simplify_eq.
    + exists 0%nat. split; [lia|]. by rewrite drop_0.
    + destruct (IHGlob eq_refl) as (k & Hk & Hg).
      exists (S k). simpl. split; [lia|done].
  - intros (k & Hk & Hg). revert k Hk Hg.
    induction s as [|c s IH]; intros [|k] Hk Hg; simpl in *;
      try (by rewrite ?drop_0 in Hg; auto with ak); try lia.
    apply Glob_star_eat, (IH k); [lia|done].
Qed.

Lemma Glob_star_mono p s j k :
  (j <= k <= length s)%nat -> Glob (STAR :: p) (drop k s) -> Glob (STAR :: p) (drop j s).
Proof.
  rewrite !Glob_star_suffix. setoid_rewrite drop_drop. setoid_rewrite length_drop.
  intros Hjk (i & Hi & Hg). exists (k + i - j)%nat. split; [lia|].
  by replace (j + (k + i - j))%nat with (k + i)%nat by lia.
Qed.

Lemma Glob_cons_inv c p s :
  c <> STAR -> Glob (c :: p) s ->
  exists d s', s = d :: s' /\ (c = QM \/ c = d) /\ Glob p s'.
Proof. intros Hc H. inversion H; subst; try done; naive_solver. Qed.

Lemma Glob_prefix w p s :
  Forall (fun c => c <> STAR) w -> Glob (w ++ p) s ->
  (length w <= length s)%nat /\ Glob p (drop (length w) s).
Proof.
  revert s; induction w as [|c w IH]; intros s Hw H; simpl in *.
  - rewrite drop_0. split; [lia|done].
  - inversion Hw; subst.
    apply Glob_cons_inv in H as (d & s' & -> & _ & H); [|done].
    apply IH in H as [Hl Hg]; [|done]. simpl. split; [lia|done].
Qed.

Lemma Glob_end p : Glob p [] <-> skip_stars p = [].
Proof.
  induction p as [|c p IH]; simpl; [split; auto with ak|].
  zsplit; subst.
  - rewrite <-IH. split; [inversion 1; subst; done|auto with ak].
  - split; [inversion 1; subst; done|done].
Qed.

(** ** Correctness of the loop *)

Section Correct.
Context (pattern string : bytes).
Abbreviation plen := (length pattern).
Abbreviation slen := (length string).

(** What the backtracking state stands for: the current attempt, or a
    restart of the last star at a later string position. *)
Definition pending (pi si : nat) (star : option (nat * nat)) : Prop :=
  Glob (drop pi pattern) (drop si string) \/
  match star with
  | Some (sp, ss) =>
      exists k, (ss < k <= slen)%nat /\ Glob (drop sp pattern) (drop k string)
  | None => False
  end.

Definition loop_inv (pi si : nat) (star : option (nat * nat)) : Prop :=
  (pi <= plen)%nat /\ (si <= slen)%nat /\
  match star with
  | Some (sp, ss) =>
      (sp <= pi)%nat /\ (ss <= si)%nat /\ (si - ss = pi - sp)%nat /\
      Forall (fun c => c <> STAR) (take (pi - sp) (drop sp pattern))
  | None => True
  end.

Definition star_si (star : option (nat * nat)) : nat :=
  match star with Some (_, ss) => ss | None => 0%nat end.

Definition loop_measure (pi : nat) (star : option (nat * nat)) : nat :=
  ((slen - star_si star) * (plen + 2) + (plen - pi))%nat.

Lemma drop_cons (l : bytes) i : (i < length l)%nat -> drop i l = l !!! i :: drop (S i) l.
Proof. intros H. apply drop_S. by apply list_lookup_lookup_total_lt. Qed.

Lemma pending_star pi si star :
  loop_inv pi si star -> (pi < plen)%nat -> pattern !!! pi = STAR ->
  pending pi si star <-> pending (S pi) si (Some (S pi, si)).
Proof.
  intros (Hpi & Hsi & Hstar) Hlt Hc. unfold pending.
  rewrite (drop_cons pattern pi), Hc, Glob_star_suffix by done.
  setoid_rewrite drop_drop. setoid_rewrite length_drop. split.
  - assert (Hcur : (exists k, (k <= slen - si)%nat /\
        Glob (drop (S pi) pattern) (drop (si + k) string)) ->
      Glob (drop (S pi) pattern) (drop si string) \/
      exists k, (si < k <= slen)%nat /\ Glob (drop (S pi) pattern) (drop k string)).
    { intros ([|k] & Hk & Hg).
      - left. by rewrite Nat.add_0_r in Hg.
      - right. exists (si + S k)%nat. split; [lia|done]. }
    intros [H|H]; [auto|]. destruct star as [[sp ss]|]; [|done].
    destruct Hstar as (Hsp & Hss & Hd & Hfree), H as (k & Hk & Hg).
    apply Hcur.
    rewrite <-(take_drop (pi - sp) (drop sp pattern)) in Hg.
    apply Glob_prefix in Hg as [Hl Hg]; [|done].
    rewrite !drop_drop in Hg.
    rewrite length_take, !length_drop in *.
    rewrite Nat.min_l in Hg, Hl by lia.
    replace (sp + (pi - sp))%nat with pi in Hg by lia.
    rewrite (drop_cons pattern pi), Hc in Hg by done.
    apply (Glob_star_mono _ string si) in Hg; [|lia].
    apply Glob_star_suffix in Hg as (i & Hi & Hg).
    rewrite length_drop in Hi. rewrite drop_drop in Hg. eauto.
  - intros [H|(k & Hk & H)]; left.
    + exists 0%nat. rewrite Nat.add_0_r. split; [lia|done].
    + exists (k - si)%nat. split; [lia|].
      by replace (si + (k - si))%nat with k by lia.
Qed.

Lemma pending_step pi si star :
  (pi < plen)%nat -> (si < slen)%nat -> pattern !!! pi <> STAR ->
  (pattern !!! pi = QM \/ pattern !!! pi = string !!! si) ->
  pending pi si star <-> pending (S pi) (S si) star.
Proof.
  intros Hp Hs Hn Hm. unfold pending.
  rewrite (drop_cons pattern pi), (drop_cons string si) by done.
  enough (Glob (pattern !!! pi :: drop (S pi) pattern) (string !!! si :: drop (S si) string)
    <-> Glob (drop (S pi) pattern) (drop (S si) string)) by tauto.
  split.
  - intros H. apply Glob_cons_inv in H as (d & s' & E & _ & H); [|done]. by simplify_eq.
  - intros H. destruct Hm as [->| <-]; auto with ak.
Qed.


Lemma no_match_here pi si :
  (si < slen)%nat ->
  (pi <? plen)%nat && (pattern !!! pi =? STAR) = false ->
  (pi <? plen)%nat && ((pattern !!! pi =? QM) || (pattern !!! pi =? string !!! si)) = false ->
  ~ Glob (drop pi pattern) (drop si string).
Proof.
  intros Hs Hstar Hchr. rewrite (drop_cons string si) by done.
  destruct (Nat.ltb_spec pi plen) as [Hp|Hp]; simpl in *.
  - bprop. rewrite (drop_cons pattern pi) by done. intros Hgl.
    apply Glob_cons_inv in Hgl as (d & s' & E & ? & _); [|done].
    simplify_eq. tauto.
  - rewrite drop_ge by done. inversion 1.
Qed.

(** At the end of the string a later restart cannot succeed: it would have to
    match a longer text than what is left. *)
Lemma pending_end pi si star :
  loop_inv pi si star -> (slen <= si)%nat ->
  pending pi si star <-> skip_stars (drop pi pattern) = [].
Proof.
  intros (Hpi & Hsi & Hst) Hs. unfold pending.
  rewrite (drop_ge string si), Glob_end by done.
  split; [|auto]. intros [?|Hk]; [done|].
  destruct star as [[sp ss]|]; [|done].
  destruct Hk as (k & Hk & Hg), Hst as (Hsp & Hss & Hd & Hfree).
  rewrite <-(take_drop (pi - sp) (drop sp pattern)) in Hg.
  apply Glob_prefix in Hg as [Hl _]; [|done].
  rewrite length_take, !length_drop in Hl. lia.
Qed.

Lemma loop_inv_step pi si star :
  loop_inv pi si star -> (pi < plen)%nat -> (si < slen)%nat ->
  pattern !!! pi <> STAR -> loop_inv (S pi) (S si) star.
Proof.
  intros (Hpi & Hsi & Hst) Hp Hs Hn. split; [lia|]. split; [lia|].
  destruct star as [[sp ss]|]; [|done]. destruct Hst as (Hsp & Hss & Hd & Hfree).
  repeat split; [lia..|].
  replace (S pi - sp)%nat with (S (pi - sp)) by lia.
  rewrite (take_S_r _ _ (pattern !!! pi)).
  - apply Forall_app_2; [done|by constructor].
  - rewrite lookup_drop. replace (sp + (pi - sp))%nat with pi by lia.
    by apply list_lookup_lookup_total_lt.
Qed.

Lemma match_loop_correct fuel pi si star :
  loop_inv pi si star -> (loop_measure pi star < fuel)%nat ->
  exists b, match_loop pattern string fuel pi si star = Some b /\
            (b = true <-> pending pi si star).
Proof.
  revert pi si star. induction fuel as [|fuel IH]; intros pi si star Hinv Hfuel; [lia|].
  simpl. destruct (Nat.ltb_spec si slen) as [Hs|Hs]; simpl.
  2: { eexists; split; [done|]. rewrite (pending_end pi si star) by done.
       by destruct (skip_stars _). }
  destruct (_ && (_ =? STAR)) eqn:Estar.
  { apply andb_true_iff in Estar as [Hp Hc]. apply Nat.ltb_lt in Hp. bprop.
    setoid_rewrite (pending_star pi si star); [|done..].
    apply IH.
    - destruct Hinv as (? & ? & _). split; [lia|]. split; [lia|].
      rewrite !Nat.sub_diag. repeat split; [lia..|constructor].
    - unfold loop_measure in *. simpl. destruct Hinv as (_ & _ & Hst).
      destruct star as [[sp ss]|]; simpl in *; nia. }
  destruct (_ && (_ || _)) eqn:Echr.
  { apply andb_true_iff in Echr as [Hp Hm]. rewrite Hp in Estar. simpl in Estar.
    apply Nat.ltb_lt in Hp. apply orb_true_iff in Hm.
    rewrite !Z.eqb_eq in Hm. bprop.
    setoid_rewrite (pending_step pi si star); [|done..].
    apply IH; [by apply loop_inv_step|]. unfold loop_measure in *. lia. }
  assert (Hno := no_match_here pi si Hs Estar Echr).
  destruct star as [[sp ss]|].
  - destruct Hinv as (Hpi & Hsi & Hsp & Hss & Hd & Hfree).
    destruct (IH sp (S ss) (Some (sp, S ss))) as (b & -> & Hb).
    + split; [lia|]. split; [lia|]. rewrite !Nat.sub_diag.
      repeat split; [lia..|constructor].
    + unfold loop_measure in *; simpl in *. nia.
    + exists b. split; [done|]. rewrite Hb. unfold pending. split.
      * intros [H|(k & Hk & H)]; right; eexists; (split; [|done]); lia.
      * intros [H|(k & Hk & H)]; [done|].
        destruct (decide (k = S ss)) as [->|]; [by left|].
        right. exists k. split; [lia|done].
  - exists false. split; [done|]. unfold pending. naive_solver.
Qed.

End Correct.

Lemma pattern_match_internal_correct p s :
  exists b, pattern_match_internal p s = Some b /\ (b = true <-> Glob p s).
Proof.
  unfold pattern_match_internal.
  destruct (match_loop_correct p s (match_fuel p s) 0 0 None) as (b & -> & Hb).
  - repeat split; lia.
  - unfold loop_measure, match_fuel. simpl. nia.
  - exists b. split; [done|]. rewrite Hb. unfold pending. rewrite !drop_0. tauto.
Qed.

(** Reflection of [ak_pattern_match]; used by every client of the matcher. *)
Lemma ak_pattern_matchP p s : ak_pattern_match p s = true <-> Glob (cstr p) (cstr s).
Proof.
  unfold ak_pattern_match, ak_pattern_match_n.
  destruct (Nat.eqb_spec (length (cstr p)) 0) as [Hp|Hp].
  { apply nil_length_inv in Hp as ->. destruct (cstr s); simpl; [naive_solver auto with ak|].
    split; [done|inversion 1]. }
  destruct (_ && _) eqn:E.
  { apply andb_true_iff in E as [Hl Hc]. apply Nat.eqb_eq in Hl. bprop.
    destruct (cstr p) as [|c [|]]; simplify_eq/=.
    split; [|done]. intros _. apply Glob_star_suffix.
    exists (length (cstr s)). rewrite drop_all. auto with ak. }
  destruct (pattern_match_internal_correct (cstr p) (cstr s)) as (b & -> & Hb). done.
Qed.

(** the glob matcher decides exactly the glob language: with explicit
    lengths, for every pattern and string, the loop returns (its fuel, which
    bounds the iterations of the C loop, is never exhausted) and the answer is
    true iff the string is in the language of the pattern, where a star stands
    for any text and a question mark for one character. *)
Theorem pattern_match_correct p s :
  exists b, ak_pattern_match_n (Some p) (Some s) = Some b /\ (b = true <-> Glob p s).
Proof.
  unfold ak_pattern_match_n.
  destruct (Nat.eqb_spec (length p) 0) as [Hp|Hp].
  { apply nil_length_inv in Hp as ->. eexists; split; [done|].
    destruct s; simpl; [naive_solver auto with ak|]. split; [done|inversion 1]. }
  destruct (_ && _) eqn:E; [|apply pattern_match_internal_correct].
  apply andb_true_iff in E as [Hl Hc]. apply Nat.eqb_eq in Hl. bprop.
  destruct p as [|c [|]]; simplify_eq/=.
  eexists; split; [done|]. split; [|done]. intros _. apply Glob_star_suffix.
  exists (length s). rewrite drop_all. auto with ak.
Qed.

(** Sanity of the translation on concrete inputs. *)
Example glob_ex1 : ak_pattern_match B"https://*.example.com/*" B"https://api.example.com/v1" = true.
Proof. vm_compute. reflexivity. Qed.
Example glob_ex2 : ak_pattern_match B"a*b*c" B"aXbYbZ" = false.
Proof. vm_compute. reflexivity. Qed.
