(* ===== verification/Budget.v ===== *)
(** * Budget control ([src/src/agentic/ak_budget.c])

    The per-run tracker: limits and usage per resource, the ring of historical
    snapshots, and the per-tool breakdown.  Every operation of the C file takes
    [tracker->lock] for its whole critical section, so an interleaving of
    callers is a sequence of these operations.  The clock ([now / MILLION]) is
    the argument [now_ms].

    Theorems: admission never lets usage pass a limit, under every interleaving
    of admissions and releases, with no wrap-around; the snapshot ring is a
    window over the chronological history; the advisory check does not have
    that guarantee. *)

From S2P Require Import Prelude.

Definition AK_BUDGET_HISTORY_SIZE : nat := 60.
Definition AK_BUDGET_MAX_TOOL_TYPES : nat := 32.
Definition AK_BUDGET_TOOL_NAME_LEN : nat := 64.
Definition AK_BUDGET_UNLIMITED : Z := 18446744073709551615.
Definition AK_E_BUDGET_EXCEEDED : Z := -4300.

Inductive ak_resource_type :=
| AK_RESOURCE_TOKENS
| AK_RESOURCE_CALLS
| AK_RESOURCE_INFERENCE_MS
| AK_RESOURCE_FILE_BYTES
| AK_RESOURCE_NETWORK_BYTES
| AK_RESOURCE_HEAP_BYTES
| AK_RESOURCE_HEAP_OBJECTS
| AK_RESOURCE_BLOB_BYTES
| AK_RESOURCE_WALL_TIME_MS
| AK_RESOURCE_NET_BYTES_OUT
| AK_RESOURCE_LLM_TOKENS_IN
| AK_RESOURCE_LLM_TOKENS_OUT
| AK_RESOURCE_TOOL_CALLS.

#[global] Instance ak_resource_type_eq_dec : EqDecision ak_resource_type.
Proof. solve_decision. Defined.

(** The value of the enumeration constant. *)
Definition rt (r : ak_resource_type) : nat :=
  match r with
  | AK_RESOURCE_TOKENS => 0 | AK_RESOURCE_CALLS => 1 | AK_RESOURCE_INFERENCE_MS => 2
  | AK_RESOURCE_FILE_BYTES => 3 | AK_RESOURCE_NETWORK_BYTES => 4 | AK_RESOURCE_HEAP_BYTES => 5
  | AK_RESOURCE_HEAP_OBJECTS => 6 | AK_RESOURCE_BLOB_BYTES => 7 | AK_RESOURCE_WALL_TIME_MS => 8
  | AK_RESOURCE_NET_BYTES_OUT => 9 | AK_RESOURCE_LLM_TOKENS_IN => 10
  | AK_RESOURCE_LLM_TOKENS_OUT => 11 | AK_RESOURCE_TOOL_CALLS => 12
  end%nat.
Definition AK_RESOURCE_COUNT : nat := 13.

Record ak_budget_snapshot := mk_snapshot {
  timestamp_ms : Z;
  tokens : Z;
  tool_calls : Z;
  wall_time_ms : Z;
  snap_bytes : Z
}.
Definition zero_snapshot : ak_budget_snapshot := mk_snapshot 0 0 0 0 0.
#[global] Instance ak_budget_snapshot_inhabited : Inhabited ak_budget_snapshot :=
  populate zero_snapshot.

Record ak_budget_breakdown := mk_breakdown {
  tokens_inference : Z;
  tokens_tool_responses : Z;
  tool_calls_by_type : list Z;      (* u32 [32] *)
  tool_names : list bytes;          (* char [32][64] *)
  tool_type_count : nat
}.

Record ak_budget_tracker := mk_tracker {
  limits : list Z;                  (* budget.limits, u64 [13] *)
  used : list Z;                    (* budget.used, u64 [13] *)
  start_timestamp_ms : Z;
  last_update_ms : Z;
  last_snapshot_ms : Z;
  snapshots : list ak_budget_snapshot;   (* [60] *)
  snapshot_head : nat;
  snapshot_count : nat;
  breakdown : ak_budget_breakdown
}.

(** ** Field updates *)

Definition set_used (u : list Z) (now_ms : Z) (t : ak_budget_tracker) : ak_budget_tracker :=
  mk_tracker (limits t) u (start_timestamp_ms t) now_ms (last_snapshot_ms t)
    (snapshots t) (snapshot_head t) (snapshot_count t) (breakdown t).
Definition set_limits (l : list Z) (now_ms : Z) (t : ak_budget_tracker) : ak_budget_tracker :=
  mk_tracker l (used t) (start_timestamp_ms t) now_ms (last_snapshot_ms t)
    (snapshots t) (snapshot_head t) (snapshot_count t) (breakdown t).
Definition set_breakdown (b : ak_budget_breakdown) (now_ms : Z) (t : ak_budget_tracker) :=
  mk_tracker (limits t) (used t) (start_timestamp_ms t) now_ms (last_snapshot_ms t)
    (snapshots t) (snapshot_head t) (snapshot_count t) b.

(** ** Operations *)

Definition ak_budget_fits (used limit amount : Z) : bool :=
  if limit <? used then false else amount <=? u64 (limit - used).

Definition ak_budget_set_limit (t : ak_budget_tracker) (resource : ak_resource_type)
    (limit now_ms : Z) : ak_budget_tracker :=
  set_limits (<[rt resource := limit]> (limits t)) now_ms t.

Definition ak_budget_consume (t : ak_budget_tracker) (resource : ak_resource_type)
    (amount now_ms : Z) : Z * ak_budget_tracker :=
  let r := rt resource in
  if negb (ak_budget_fits (used t !!! r) (limits t !!! r) amount)
  then (AK_E_BUDGET_EXCEEDED, t)
  else (0, set_used (<[r := u64 (used t !!! r + amount)]> (used t)) now_ms t).

(** The functions below test their resource argument, so it is any index;
    [None] is a NULL tracker. *)
Definition ak_budget_check (t : option ak_budget_tracker) (type : nat) (amount : Z) : bool :=
  match t with
  | None => false
  | Some t =>
      if (AK_RESOURCE_COUNT <=? type)%nat then false
      else ak_budget_fits (used t !!! type) (limits t !!! type) amount
  end.

Definition ak_budget_commit (t : ak_budget_tracker) (type : nat) (amount now_ms : Z)
    : ak_budget_tracker :=
  if (AK_RESOURCE_COUNT <=? type)%nat then t
  else
    let u := used t !!! type in
    set_used (<[type := if u64 (AK_BUDGET_UNLIMITED - u) <? amount
                        then AK_BUDGET_UNLIMITED else u64 (u + amount)]> (used t)) now_ms t.

Definition ak_budget_reserve (t : ak_budget_tracker) (type : nat) (amount now_ms : Z)
    : Z * ak_budget_tracker :=
  if (AK_RESOURCE_COUNT <=? type)%nat then (AK_E_BUDGET_EXCEEDED, t)
  else if negb (ak_budget_fits (used t !!! type) (limits t !!! type) amount)
  then (AK_E_BUDGET_EXCEEDED, t)
  else (0, set_used (<[type := u64 (used t !!! type + amount)]> (used t)) now_ms t).

Definition ak_budget_release (t : ak_budget_tracker) (type : nat) (amount now_ms : Z)
    : ak_budget_tracker :=
  if (AK_RESOURCE_COUNT <=? type)%nat then t
  else
    let u := used t !!! type in
    set_used (<[type := if u <? amount then 0 else u64 (u - amount)]> (used t)) now_ms t.

(** [ak_budget_find_tool]: index of the tool, [None] for -1.  [name] is the
    C string [tool_name]. *)
Fixpoint find_tool_from (names : list bytes) (i n : nat) (name : bytes) : option nat :=
  match n with
  | O => None
  | S n' =>
      if bytes_eqb (cstr (names !!! i)) name then Some i
      else find_tool_from names (S i) n' name
  end.
Definition ak_budget_find_tool (b : ak_budget_breakdown) (name : bytes) : option nat :=
  find_tool_from (tool_names b) 0 (tool_type_count b) name.

Definition ak_budget_add_tool (b : ak_budget_breakdown) (name : bytes)
    : option nat * ak_budget_breakdown :=
  if (AK_BUDGET_MAX_TOOL_TYPES <=? tool_type_count b)%nat then (None, b)
  else
    let idx := tool_type_count b in
    let n := Nat.min (length name + 1) AK_BUDGET_TOOL_NAME_LEN in
    let copied := splice 0 (take n (name ++ [0])) (tool_names b !!! idx) in
    let stored := <[(AK_BUDGET_TOOL_NAME_LEN - 1)%nat := 0]> copied in
    (Some idx,
     mk_breakdown (tokens_inference b) (tokens_tool_responses b)
       (<[idx := 0]> (tool_calls_by_type b)) (<[idx := stored]> (tool_names b))
       (S (tool_type_count b))).

(** [detail = None] is a NULL pointer. *)
Definition ak_budget_record_operation (t : ak_budget_tracker) (operation : bytes)
    (detail : option bytes) (amount now_ms : Z) : ak_budget_tracker :=
  let b := breakdown t in
  let b' :=
    if bytes_eqb operation B"inference" then
      mk_breakdown (u64 (tokens_inference b + amount)) (tokens_tool_responses b)
        (tool_calls_by_type b) (tool_names b) (tool_type_count b)
    else if bytes_eqb operation B"tool_response" then
      mk_breakdown (tokens_inference b) (u64 (tokens_tool_responses b + amount))
        (tool_calls_by_type b) (tool_names b) (tool_type_count b)
    else
      match bytes_eqb operation B"tool_call", detail with
      | true, Some name =>
          let '(idx, b1) :=
            match ak_budget_find_tool b name with
            | Some i => (Some i, b)
            | None => ak_budget_add_tool b name
            end in
          match idx with
          | Some i =>
              mk_breakdown (tokens_inference b1) (tokens_tool_responses b1)
                (<[i := u32 (tool_calls_by_type b1 !!! i + 1)]> (tool_calls_by_type b1))
                (tool_names b1) (tool_type_count b1)
          | None => b1
          end
      | _, _ => b
      end in
  set_breakdown b' now_ms t.

(** The snapshot [ak_budget_snapshot] records at [now_ms]. *)
Definition take_snapshot (t : ak_budget_tracker) (now_ms : Z) : ak_budget_snapshot :=
  mk_snapshot now_ms
    (u64 (used t !!! rt AK_RESOURCE_LLM_TOKENS_IN + used t !!! rt AK_RESOURCE_LLM_TOKENS_OUT))
    (used t !!! rt AK_RESOURCE_TOOL_CALLS)
    (u64 (now_ms - start_timestamp_ms t))
    (u64 (used t !!! rt AK_RESOURCE_BLOB_BYTES + used t !!! rt AK_RESOURCE_NET_BYTES_OUT)).

Definition ak_budget_snapshot_op (t : ak_budget_tracker) (now_ms : Z) : ak_budget_tracker :=
  mk_tracker (limits t) (used t) (start_timestamp_ms t) (last_update_ms t) now_ms
    (<[snapshot_head t := take_snapshot t now_ms]> (snapshots t))
    ((snapshot_head t + 1) mod AK_BUDGET_HISTORY_SIZE)%nat
    (if (snapshot_count t <? AK_BUDGET_HISTORY_SIZE)%nat then S (snapshot_count t)
     else snapshot_count t)
    (breakdown t).

Definition default_limits : list Z :=
  [0; 0; 0; 0; 0; 0; 10000; 104857600; 300000; 10485760; 1000000; 100000; 100].

(** [ak_budget_tracker_init]; [None] when the allocation fails. *)
Definition ak_budget_tracker_init (alloc : bool) (now_ms : Z) : option ak_budget_tracker :=
  if alloc then
    Some (ak_budget_snapshot_op
      (mk_tracker default_limits (replicate AK_RESOURCE_COUNT 0) now_ms now_ms now_ms
         (replicate AK_BUDGET_HISTORY_SIZE zero_snapshot) 0 0
         (mk_breakdown 0 0 (replicate AK_BUDGET_MAX_TOOL_TYPES 0)
            (replicate AK_BUDGET_MAX_TOOL_TYPES (zeros AK_BUDGET_TOOL_NAME_LEN)) 0))
      now_ms)
  else None.

(** [policy->budgets]. *)
Record ak_budget_limits := mk_limits {
  bl_tokens : Z; bl_calls : Z; bl_inference_ms : Z; bl_file_bytes : Z;
  bl_network_bytes : Z; bl_spawn_count : Z; bl_heap_objects : Z; bl_heap_bytes : Z
}.

Definition apply_policy (l : list Z) (p : ak_budget_limits) : list Z :=
  <[rt AK_RESOURCE_HEAP_BYTES := bl_heap_bytes p]>
  (<[rt AK_RESOURCE_HEAP_OBJECTS := bl_heap_objects p]>
  (<[rt AK_RESOURCE_NETWORK_BYTES := bl_network_bytes p]>
  (<[rt AK_RESOURCE_FILE_BYTES := bl_file_bytes p]>
  (<[rt AK_RESOURCE_INFERENCE_MS := bl_inference_ms p]>
  (<[rt AK_RESOURCE_CALLS := bl_calls p]>
  (<[rt AK_RESOURCE_TOKENS := bl_tokens p]> l)))))).

Definition ak_budget_create (alloc : bool) (policy : option ak_budget_limits) (now_ms : Z)
    : option ak_budget_tracker :=
  match ak_budget_tracker_init alloc now_ms with
  | None => None
  | Some t =>
      Some (match policy with
            | Some p => set_limits (apply_policy (limits t) p) (last_update_ms t) t
            | None => t
            end)
  end.

Record ak_budget_status := mk_status {
  tokens_used : Z; tokens_limit : Z;
  tool_calls_used : Z; tool_calls_limit : Z;
  wall_time_ms_used : Z; wall_time_ms_limit : Z;
  bytes_used : Z; bytes_limit : Z;
  st_last_update_ms : Z
}.

Definition ak_budget_get_status (t : ak_budget_tracker) (now_ms : Z) : ak_budget_status :=
  let u r := used t !!! rt r in
  let l r := limits t !!! rt r in
  mk_status
    (u64 (u AK_RESOURCE_LLM_TOKENS_IN + u AK_RESOURCE_LLM_TOKENS_OUT))
    (u64 (l AK_RESOURCE_LLM_TOKENS_IN + l AK_RESOURCE_LLM_TOKENS_OUT))
    (u AK_RESOURCE_TOOL_CALLS) (l AK_RESOURCE_TOOL_CALLS)
    (u64 (now_ms - start_timestamp_ms t)) (l AK_RESOURCE_WALL_TIME_MS)
    (u64 (u AK_RESOURCE_BLOB_BYTES + u AK_RESOURCE_NET_BYTES_OUT))
    (u64 (l AK_RESOURCE_BLOB_BYTES + l AK_RESOURCE_NET_BYTES_OUT))
    (last_update_ms t).

(** [ak_budget_get_history]: the entries copied to the caller's array; their
    number is the return value. *)
Definition ak_budget_get_history (t : ak_budget_tracker) (max_count : nat)
    : list ak_budget_snapshot :=
  let count := Nat.min (snapshot_count t) max_count in
  if (count =? 0)%nat then []
  else
    let start_idx :=
      if (snapshot_count t <? AK_BUDGET_HISTORY_SIZE)%nat then 0%nat else snapshot_head t in
    (fun i => snapshots t !!! ((start_idx + i) mod AK_BUDGET_HISTORY_SIZE)%nat) <$> seq 0 count.

Definition ak_budget_get_breakdown (t : ak_budget_tracker) : ak_budget_breakdown := breakdown t.

Definition ak_budget_is_critical (t : ak_budget_tracker) (resource : ak_resource_type) : bool :=
  let limit := limits t !!! rt resource in
  let used := used t !!! rt resource in
  if limit =? 0 then true
  else if limit <=? used then true
  else u64 (limit - used) <? limit / 10.

Definition ak_budget_calc_rate (t : ak_budget_tracker) (resource : ak_resource_type) : Z :=
  if (snapshot_count t <? 2)%nat then 0
  else
    let '(oldest_idx, newest_idx) :=
      if (snapshot_count t <? AK_BUDGET_HISTORY_SIZE)%nat
      then (0%nat, (snapshot_count t - 1)%nat)
      else (snapshot_head t,
            ((snapshot_head t + AK_BUDGET_HISTORY_SIZE - 1) mod AK_BUDGET_HISTORY_SIZE)%nat) in
    let oldest := snapshots t !!! oldest_idx in
    let newest := snapshots t !!! newest_idx in
    let time_span_ms := u64 (timestamp_ms newest - timestamp_ms oldest) in
    if time_span_ms =? 0 then 0
    else
      let delta :=
        match resource with
        | AK_RESOURCE_TOKENS | AK_RESOURCE_LLM_TOKENS_IN | AK_RESOURCE_LLM_TOKENS_OUT =>
            u64 (tokens newest - tokens oldest)
        | AK_RESOURCE_TOOL_CALLS => u64 (tool_calls newest - tool_calls oldest)
        | AK_RESOURCE_WALL_TIME_MS => u64 (wall_time_ms newest - wall_time_ms oldest)
        | _ => u64 (snap_bytes newest - snap_bytes oldest)
        end in
      if AK_BUDGET_UNLIMITED / 1000 <? delta
      then u64 (delta / time_span_ms * 1000)
      else u64 (delta * 1000) / time_span_ms.

(** ** Well-formed trackers *)

Record wf_tracker (t : ak_budget_tracker) : Prop := {
  wf_limits_len : length (limits t) = AK_RESOURCE_COUNT;
  wf_used_len : length (used t) = AK_RESOURCE_COUNT;
  wf_limits_u64 : Forall is_u64 (limits t);
  wf_used_u64 : Forall is_u64 (used t);
  wf_snaps_len : length (snapshots t) = AK_BUDGET_HISTORY_SIZE;
  wf_head : (snapshot_head t < AK_BUDGET_HISTORY_SIZE)%nat;
  wf_count : (snapshot_count t <= AK_BUDGET_HISTORY_SIZE)%nat;
  wf_ring : (snapshot_count t < AK_BUDGET_HISTORY_SIZE)%nat -> snapshot_head t = snapshot_count t
}.

(** INV-3: usage is within the limit, for every resource. *)
Definition within_limits (t : ak_budget_tracker) : Prop :=
  forall r, (r < AK_RESOURCE_COUNT)%nat -> used t !!! r <= limits t !!! r.

Lemma rt_bound r : (rt r < AK_RESOURCE_COUNT)%nat.
Proof. destruct r; unfold AK_RESOURCE_COUNT; simpl; lia. Qed.

Lemma lookup_total_u64 l r n :
  Forall is_u64 l -> length l = n -> (r < n)%nat -> is_u64 (l !!! r).
Proof.
  intros Hf Hl Hr. eapply Forall_lookup_1; [exact Hf|].
  apply list_lookup_lookup_total_lt. lia.
Qed.

(** The overflow-safe test is the mathematical one. *)
Lemma ak_budget_fits_spec used limit amount :
  is_u64 used -> is_u64 limit -> is_u64 amount ->
  ak_budget_fits used limit amount = true <-> used + amount <= limit.
Proof.
  unfold is_u64, ak_budget_fits, u64. intros.
  destruct (Z.ltb_spec limit used); [lia|].
  rewrite Z.leb_le, Z.mod_small; lia.
Qed.

(** ** Sequences of operations *)

Inductive budget_op :=
| OpConsume (r : ak_resource_type) (amount : Z)
| OpReserve (type : nat) (amount : Z)
| OpRelease (type : nat) (amount : Z)
| OpSnapshot
| OpRecord (operation : bytes) (detail : option bytes) (amount : Z).

Definition op_amount (o : budget_op) : Z :=
  match o with
  | OpConsume _ a | OpReserve _ a | OpRelease _ a | OpRecord _ _ a => a
  | OpSnapshot => 0
  end.

Definition apply_op (t : ak_budget_tracker) (o : budget_op) (now_ms : Z) : ak_budget_tracker :=
  match o with
  | OpConsume r a => snd (ak_budget_consume t r a now_ms)
  | OpReserve ty a => snd (ak_budget_reserve t ty a now_ms)
  | OpRelease ty a => ak_budget_release t ty a now_ms
  | OpSnapshot => ak_budget_snapshot_op t now_ms
  | OpRecord o d a => ak_budget_record_operation t o d a now_ms
  end.

Inductive budget_step : ak_budget_tracker -> ak_budget_tracker -> Prop :=
| BStep t o now_ms : is_u64 (op_amount o) -> budget_step t (apply_op t o now_ms).

(** Updating one usage entry to a value within its limit keeps the invariant. *)
Lemma set_used_inv t r v now_ms :
  wf_tracker t -> within_limits t -> (r < AK_RESOURCE_COUNT)%nat ->
  0 <= v <= limits t !!! r ->
  wf_tracker (set_used (<[r := v]> (used t)) now_ms t) /\
  within_limits (set_used (<[r := v]> (used t)) now_ms t).
Proof.
  intros [HlL HlU HL HU ? ? ? ?] Hin Hr Hv.
  pose proof (lookup_total_u64 _ r _ HL HlL Hr) as Hu.
  unfold is_u64 in Hu. split.
  - constructor; simpl; auto; [by rewrite length_insert|].
    apply Forall_insert; [done|]. unfold is_u64; lia.
  - intros i Hi. simpl. destruct (decide (i = r)) as [->|Hne].
    + rewrite list_lookup_total_insert_eq by (rewrite HlU; done). lia.
    + rewrite list_lookup_total_insert_ne by done. by apply Hin.
Qed.

Lemma snapshot_wf t now_ms : wf_tracker t -> wf_tracker (ak_budget_snapshot_op t now_ms).
Proof.
  intros [? ? ? ? ? ? ? Hring]. unfold AK_BUDGET_HISTORY_SIZE in *.
  pose proof (Nat.mod_upper_bound (snapshot_head t + 1) 60 ltac:(lia)).
  constructor; unfold ak_budget_snapshot_op, AK_BUDGET_HISTORY_SIZE;
    cbn [limits used snapshots snapshot_head snapshot_count]; auto.
  - by rewrite length_insert.
  - destruct (Nat.ltb_spec (snapshot_count t) 60); lia.
  - destruct (Nat.ltb_spec (snapshot_count t) 60) as [Hc|Hc]; intros; [|lia].
    rewrite Hring, Nat.mod_small by lia. lia.
Qed.

Lemma apply_op_inv t o now_ms :
  wf_tracker t -> within_limits t -> is_u64 (op_amount o) ->
  wf_tracker (apply_op t o now_ms) /\ within_limits (apply_op t o now_ms) /\
  limits (apply_op t o now_ms) = limits t.
Proof.
  intros Hwf Hin Ha.
  assert (Hu : forall r, (r < AK_RESOURCE_COUNT)%nat ->
    is_u64 (used t !!! r) /\ is_u64 (limits t !!! r)).
  { intros r Hr. destruct Hwf. split; eapply lookup_total_u64; eauto. }
  assert (Hadmit : forall r, (r < AK_RESOURCE_COUNT)%nat ->
    ak_budget_fits (used t !!! r) (limits t !!! r) (op_amount o) = true ->
    0 <= u64 (used t !!! r + op_amount o) <= limits t !!! r).
  { intros r Hr Hf. destruct (Hu r Hr) as [H1 H2].
    apply ak_budget_fits_spec in Hf; [|done..].
    unfold is_u64, u64 in *. rewrite Z.mod_small; lia. }
  destruct o as [r a|ty a|ty a| |op d a]; simpl in *.
  - unfold ak_budget_consume. destruct (ak_budget_fits _ _ _) eqn:E; simpl; [|done].
    destruct (set_used_inv t (rt r) (u64 (used t !!! rt r + a)) now_ms) as [? ?];
      auto using rt_bound.
  - unfold ak_budget_reserve. destruct (Nat.leb_spec AK_RESOURCE_COUNT ty); simpl; [done|].
    destruct (ak_budget_fits _ _ _) eqn:E; simpl; [|done].
    destruct (set_used_inv t ty (u64 (used t !!! ty + a)) now_ms) as [? ?]; auto.
  - unfold ak_budget_release. destruct (Nat.leb_spec AK_RESOURCE_COUNT ty) as [|Hr]; simpl; [done|].
    destruct (Hu ty Hr) as [H1 H2]. pose proof (Hin ty Hr).
    assert (0 <= (if used t !!! ty <? a then 0 else u64 (used t !!! ty - a)) <= limits t !!! ty).
    { unfold is_u64, u64 in *. destruct (Z.ltb_spec (used t !!! ty) a); [lia|].
      rewrite Z.mod_small; lia. }
    destruct (set_used_inv t ty _ now_ms Hwf Hin Hr H0) as [? ?]. done.
  - split; [by apply snapshot_wf|]. split; [|done]. exact Hin.
  - split; [|split; [exact Hin|done]]. destruct Hwf; constructor; done.
Qed.

(** C39: INV-3.  From any tracker whose usage is within its limits, every
    interleaving of the locked operations (consume, reserve, release, snapshot,
    record) by any number of callers leaves every resource within its limit,
    with the limits unchanged; in particular no admission ever wraps the 64-bit
    counter. *)
Theorem budget_never_exceeded t t' :
  wf_tracker t -> within_limits t -> steps budget_step t t' ->
  wf_tracker t' /\ within_limits t' /\ limits t' = limits t.
Proof.
  intros Hwf Hin Hst.
  apply (steps_invariant budget_step
    (fun x => wf_tracker x /\ within_limits x /\ limits x = limits t)) with (s := t); [|done..].
  intros x y (Hx1 & Hx2 & Hx3) Hxy. destruct Hxy as [x o now_ms Ha].
  destruct (apply_op_inv x o now_ms Hx1 Hx2 Ha) as (? & ? & E). by rewrite E.
Qed.

(** ** Joint admissions *)

(** [ak_budget_reserve] by a series of callers on one resource: total of the
    admitted amounts, and the final tracker. *)
Fixpoint reserve_all (t : ak_budget_tracker) (type : nat) (amounts : list (Z * Z))
    : Z * ak_budget_tracker :=
  match amounts with
  | [] => (0, t)
  | (a, now_ms) :: rest =>
      let '(rv, t1) := ak_budget_reserve t type a now_ms in
      let '(total, t2) := reserve_all t1 type rest in
      ((if rv =? 0 then a else 0) + total, t2)
  end.

Lemma reserve_accounts t ty a now_ms :
  wf_tracker t -> within_limits t -> (ty < AK_RESOURCE_COUNT)%nat -> is_u64 a ->
  used (snd (ak_budget_reserve t ty a now_ms)) !!! ty =
    used t !!! ty + (if fst (ak_budget_reserve t ty a now_ms) =? 0 then a else 0).
Proof.
  intros Hwf Hin Hr Ha. unfold ak_budget_reserve.
  destruct (Nat.leb_spec AK_RESOURCE_COUNT ty); [lia|].
  destruct Hwf as [HlL HlU HL HU ? ? ? ?].
  pose proof (lookup_total_u64 _ ty _ HL HlL Hr).
  pose proof (lookup_total_u64 _ ty _ HU HlU Hr).
  destruct (ak_budget_fits _ _ _) eqn:E; simpl; [|lia].
  apply ak_budget_fits_spec in E; [|done..].
  rewrite list_lookup_total_insert_eq by lia. unfold u64, is_u64 in *.
  rewrite Z.mod_small; lia.
Qed.

Lemma reserve_all_account ty amounts t :
  wf_tracker t -> within_limits t -> (ty < AK_RESOURCE_COUNT)%nat ->
  Forall (fun p => is_u64 (fst p)) amounts ->
  used (snd (reserve_all t ty amounts)) !!! ty = used t !!! ty + fst (reserve_all t ty amounts) /\
  used (snd (reserve_all t ty amounts)) !!! ty <= limits t !!! ty.
Proof.
  intros Hwf Hin Hr Ha. revert t Hwf Hin.
  induction Ha as [|[a now_ms] rest Ha Hrest IH]; intros t Hwf Hin; simpl.
  - pose proof (Hin ty Hr). lia.
  - pose proof (reserve_accounts t ty a now_ms Hwf Hin Hr Ha) as Hacc.
    destruct (apply_op_inv t (OpReserve ty a) now_ms Hwf Hin Ha) as (Hwf1 & Hin1 & Hl1).
    simpl in *. destruct (ak_budget_reserve t ty a now_ms) as [rv t1]. simpl in *.
    destruct (IH t1 Hwf1 Hin1) as [IH1 IH2].
    destruct (reserve_all t1 ty rest) as [total t2]. simpl in *. rewrite Hl1 in IH2. lia.
Qed.

(** atomic reservation has no check/commit window.  Whatever amounts any
    sequence of callers asks to reserve of a resource, usage grows by exactly
    the sum of the admitted amounts, and that sum fits in what the limit left. *)
Theorem reserve_joint_admission t ty amounts :
  wf_tracker t -> within_limits t -> (ty < AK_RESOURCE_COUNT)%nat ->
  Forall (fun p => is_u64 (fst p)) amounts ->
  let '(total, t') := reserve_all t ty amounts in
  used t' !!! ty = used t !!! ty + total /\ total <= limits t !!! ty - used t !!! ty.
Proof.
  intros Hwf Hin Hr Ha. pose proof (reserve_all_account ty amounts t Hwf Hin Hr Ha).
  destruct (reserve_all t ty amounts) as [total t']. simpl in *. lia.
Qed.

(** ** The snapshot ring refines a bounded history *)

Module History.
(** Specification: a chronological list, of which the last
    [AK_BUDGET_HISTORY_SIZE] entries are kept. *)
Definition push (h : list ak_budget_snapshot) (s : ak_budget_snapshot) :=
  drop (S (length h) - AK_BUDGET_HISTORY_SIZE) (h ++ [s]).
End History.

Definition ring_start (t : ak_budget_tracker) : nat :=
  if (snapshot_count t <? AK_BUDGET_HISTORY_SIZE)%nat then 0%nat else snapshot_head t.

(** Abstraction function: the ring read from its oldest entry. *)
Definition history (t : ak_budget_tracker) : list ak_budget_snapshot :=
  (fun i => snapshots t !!! ((ring_start t + i) mod AK_BUDGET_HISTORY_SIZE)%nat)
    <$> seq 0 (snapshot_count t).

Lemma length_history t : length (history t) = snapshot_count t.
Proof. unfold history. by rewrite length_fmap, length_seq. Qed.

Lemma lookup_history t i :
  (i < snapshot_count t)%nat ->
  history t !! i = Some (snapshots t !!! ((ring_start t + i) mod AK_BUDGET_HISTORY_SIZE)%nat).
Proof.
  intros Hi. unfold history. rewrite list_lookup_fmap, lookup_seq_lt by done. done.
Qed.

Lemma push_history t s i :
  (i < length (History.push (history t) s))%nat -> (snapshot_count t <= 60)%nat ->
  History.push (history t) s !! i =
    (if (snapshot_count t <? 60)%nat
     then if (i =? snapshot_count t)%nat then Some s else history t !! i
     else if (i =? 59)%nat then Some s else history t !! (S i)).
Proof.
  unfold History.push, AK_BUDGET_HISTORY_SIZE.
  rewrite length_drop, length_app, length_history. simpl length. intros Hi Hc.
  rewrite lookup_drop. destruct (Nat.ltb_spec (snapshot_count t) 60) as [H|H].
  - replace (S (snapshot_count t) - 60 + i)%nat with i by lia.
    destruct (Nat.eqb_spec i (snapshot_count t)) as [->|Hne].
    + rewrite lookup_app_r; rewrite length_history; [|lia]. by rewrite Nat.sub_diag.
    + rewrite lookup_app_l by (rewrite length_history; lia). done.
  - replace (S (snapshot_count t) - 60 + i)%nat with (S i) by lia.
    destruct (Nat.eqb_spec i 59) as [->|Hne].
    + rewrite lookup_app_r; rewrite length_history; [|lia].
      by replace (60 - snapshot_count t)%nat with 0%nat by lia.
    + rewrite lookup_app_l by (rewrite length_history; lia). done.
Qed.

(** ** Slots of the ring *)

Ltac natb :=
  repeat match goal with
  | |- context [(?a <? ?b)%nat] => destruct (Nat.ltb_spec a b)
  | |- context [(?a =? ?b)%nat] => destruct (Nat.eqb_spec a b)
  end.

(** Array slot of the [i]-th oldest entry of a ring of [c] entries whose head
    is [h]. *)
Definition slot (c h i : nat) : nat := (((if c <? 60 then 0 else h) + i) mod 60)%nat.
Definition next_head (h : nat) : nat := ((h + 1) mod 60)%nat.
Definition next_count (c : nat) : nat := if (c <? 60)%nat then S c else c.

Definition ring_ok (c h : nat) : Prop := (c <= 60 /\ h < 60 /\ (c < 60 -> h = c))%nat.

Lemma mod60 x : (x < 120)%nat -> (x mod 60 = if x <? 60 then x else x - 60)%nat.
Proof.
  intros Hx. natb; [by apply Nat.mod_small|]. symmetry. apply (Nat.mod_unique _ _ 1); lia.
Qed.

Lemma slot_last c h :
  ring_ok c h -> slot (next_count c) (next_head h) (next_count c - 1) = h.
Proof.
  intros (Hc & Hh & Hr). unfold slot, next_count, next_head. rewrite (mod60 (h + 1)) by lia.
  rewrite mod60 by (natb; lia). natb; lia.
Qed.

Lemma slot_shift c h i :
  ring_ok c h -> (S i < next_count c)%nat ->
  slot (next_count c) (next_head h) i = slot c h (if (c <? 60)%nat then i else S i) /\
  slot (next_count c) (next_head h) i <> h.
Proof.
  intros (Hc & Hh & Hr) Hi. revert Hi. unfold slot, next_count, next_head.
  rewrite (mod60 (h + 1)) by lia. intros Hi.
  revert Hi. destruct (Nat.ltb_spec c 60); intros Hi.
  - rewrite !mod60 by (natb; lia). natb; lia.
  - rewrite !mod60 by (natb; lia). natb; lia.
Qed.

Lemma ring_ok_wf t : wf_tracker t -> ring_ok (snapshot_count t) (snapshot_head t).
Proof. intros [_ _ _ _ _ Hh Hc Hr]. done. Qed.

Lemma history_slot t i :
  (i < snapshot_count t)%nat ->
  history t !! i = Some (snapshots t !!! slot (snapshot_count t) (snapshot_head t) i).
Proof. intros Hi. by rewrite lookup_history. Qed.

Lemma snapshot_push t now_ms :
  wf_tracker t ->
  history (ak_budget_snapshot_op t now_ms) = History.push (history t) (take_snapshot t now_ms).
Proof.
  intros Hwf. pose proof (ring_ok_wf t Hwf) as Hok. pose proof Hok as (Hc & Hh & _).
  pose proof (wf_snaps_len t Hwf) as Hlen. unfold AK_BUDGET_HISTORY_SIZE in Hlen.
  set (t' := ak_budget_snapshot_op t now_ms).
  assert (Hcount : snapshot_count t' = next_count (snapshot_count t)) by done.
  assert (Hhead : snapshot_head t' = next_head (snapshot_head t)) by done.
  assert (Hsnap : snapshots t' = <[snapshot_head t := take_snapshot t now_ms]> (snapshots t)) by done.
  assert (Hl : length (history t') = length (History.push (history t) (take_snapshot t now_ms))).
  { rewrite length_history, Hcount. unfold History.push, next_count, AK_BUDGET_HISTORY_SIZE.
    rewrite length_drop, length_app, length_history. simpl length. natb; lia. }
  apply list_eq_same_length with (length (history t')); [done..|].
  intros i x y Hi. rewrite push_history by lia. rewrite length_history in Hi.
  rewrite history_slot, Hsnap, Hcount, Hhead by done. rewrite Hcount in Hi. intros [= <-].
  destruct (decide (S i = next_count (snapshot_count t))) as [Hi'|Hi'].
  - assert (i = (next_count (snapshot_count t) - 1)%nat) as -> by lia.
    rewrite (slot_last _ _ Hok), list_lookup_total_insert_eq by lia.
    clear Hi Hi'. unfold next_count. natb; intros; simplify_eq; lia || done.
  - destruct (slot_shift _ _ i Hok ltac:(lia)) as [-> Hne].
    rewrite list_lookup_total_insert_ne by done.
    revert Hi Hi'. unfold next_count. natb; intros; try lia.
    all: match goal with E : history _ !! _ = _ |- _ => rewrite history_slot in E by lia end.
    all: congruence.
Qed.

Lemma get_history_spec t max_count : ak_budget_get_history t max_count = take max_count (history t).
Proof.
  unfold ak_budget_get_history, history. fold (ring_start t).
  destruct (Nat.eqb_spec (Nat.min (snapshot_count t) max_count) 0) as [E|E].
  - destruct (decide (max_count = 0%nat)) as [->|]; [done|].
    replace (snapshot_count t) with 0%nat by lia. simpl. by rewrite take_nil.
  - rewrite <-fmap_take. f_equal. rewrite take_seq. f_equal. lia.
Qed.

(** the snapshot ring refines the bounded chronological history.  Taking a
    snapshot appends it to the history and forgets the oldest entry exactly when
    60 are kept, for every state of the ring, wrapped or not; and
    [ak_budget_get_history] returns the history from its oldest entry, cut to
    the caller's array. *)
Theorem snapshot_ring_refines_history t now_ms max_count :
  wf_tracker t ->
  history (ak_budget_snapshot_op t now_ms) = History.push (history t) (take_snapshot t now_ms) /\
  wf_tracker (ak_budget_snapshot_op t now_ms) /\
  ak_budget_get_history t max_count = take max_count (history t).
Proof. auto using snapshot_push, snapshot_wf, get_history_spec. Qed.

(** ** Advisory check *)

(** Two callers that each check and then commit can jointly pass the limit:
    the reason [ak_budget_reserve] exists. *)
Definition small_tracker (limit : Z) : ak_budget_tracker :=
  mk_tracker (<[1%nat := limit]> default_limits) (replicate AK_RESOURCE_COUNT 0) 0 0 0
    (replicate AK_BUDGET_HISTORY_SIZE zero_snapshot) 0 0
    (mk_breakdown 0 0 (replicate AK_BUDGET_MAX_TOOL_TYPES 0)
       (replicate AK_BUDGET_MAX_TOOL_TYPES (zeros AK_BUDGET_TOOL_NAME_LEN)) 0).

Lemma small_tracker_wf : wf_tracker (small_tracker 10).
Proof.
  constructor; [reflexivity..| | |reflexivity| | |reflexivity].
  - apply (bool_decide_unpack _). vm_compute. exact I.
  - apply (bool_decide_unpack _). vm_compute. exact I.
  - unfold AK_BUDGET_HISTORY_SIZE. simpl. lia.
  - unfold AK_BUDGET_HISTORY_SIZE. simpl. lia.
Qed.

Lemma small_tracker_within : within_limits (small_tracker 10).
Proof.
  intros r Hr. unfold AK_RESOURCE_COUNT in Hr.
  do 13 (destruct r as [|r]; [vm_compute; discriminate|]). lia.
Qed.

Lemma budget_never_exceeded_witness :
  exists t', steps budget_step (small_tracker 10) t' /\ within_limits t' /\ used t' !!! 1%nat = 7.
Proof.
  exists (apply_op (small_tracker 10) (OpReserve 1 7) 5).
  assert (Hst : steps budget_step (small_tracker 10) (apply_op (small_tracker 10) (OpReserve 1 7) 5)).
  { eapply steps_snoc; [apply steps_refl|]. constructor. vm_compute. split; congruence. }
  split; [exact Hst|]. split; [|reflexivity].
  exact (proj1 (proj2 (budget_never_exceeded _ _ small_tracker_wf small_tracker_within Hst))).
Defined.

Lemma reserve_joint_admission_witness :
  reserve_all (small_tracker 10) 1 [(6, 1); (6, 2); (4, 3)] =
    (10, snd (reserve_all (small_tracker 10) 1 [(6, 1); (6, 2); (4, 3)])) /\
  10 <= limits (small_tracker 10) !!! 1%nat - used (small_tracker 10) !!! 1%nat.
Proof.
  split; [reflexivity|].
  pose proof (reserve_joint_admission (small_tracker 10) 1 [(6, 1); (6, 2); (4, 3)]
    small_tracker_wf small_tracker_within
    ltac:(unfold AK_RESOURCE_COUNT; lia)
    ltac:(apply (bool_decide_unpack _); vm_compute; exact I)) as H.
  vm_compute in H. exact (proj2 H).
Defined.

Lemma snapshot_ring_refines_history_witness :
  history (ak_budget_snapshot_op (small_tracker 10) 9) =
    History.push (history (small_tracker 10)) (take_snapshot (small_tracker 10) 9).
Proof. exact (proj1 (snapshot_ring_refines_history (small_tracker 10) 9 4 small_tracker_wf)). Defined.

Example check_commit_overshoots :
  let t := small_tracker 10 in
  ak_budget_check (Some t) 1 6 = true /\
  used (ak_budget_commit (ak_budget_commit t 1 6 1) 1 6 2) !!! 1%nat = 12.
Proof. vm_compute. split; reflexivity. Qed.

(** ** Long tool names *)

Definition wf_breakdown (b : ak_budget_breakdown) : Prop :=
  length (tool_names b) = AK_BUDGET_MAX_TOOL_TYPES /\
  Forall (fun n => length n = AK_BUDGET_TOOL_NAME_LEN /\ n !! 63%nat = Some 0) (tool_names b).

Lemma cstr_stops l i : l !! i = Some 0 -> (length (cstr l) <= i)%nat.
Proof.
  revert i; induction l as [|b l IH]; intros [|i] H; simplify_eq/=; zsplit; simpl; try lia.
  apply IH in H. lia.
Qed.

Lemma find_tool_long names n i name :
  Forall (fun n => n !! 63%nat = Some 0) names -> (i + n <= length names)%nat ->
  (64 <= length name)%nat -> find_tool_from names i n name = None.
Proof.
  intros Hn. revert i; induction n as [|n IH]; intros i Hi Hl; simpl; [done|].
  destruct (bytes_eqb _ _) eqn:E; [|apply IH; lia].
  apply bytes_eqb_eq in E.
  assert (Hs : (names !!! i) !! 63%nat = Some 0).
  { apply (Forall_lookup_1 _ _ i _ Hn). apply list_lookup_lookup_total_lt. lia. }
  apply cstr_stops in Hs. rewrite E in Hs. lia.
Qed.

Definition is_tool_call : bytes := B"tool_call".

(** A tool name of 64 or more characters is stored truncated and never
    found again, so every call of that tool takes a fresh breakdown slot until
    all 32 are used: the per-tool count is not accumulated. *)
Theorem long_tool_name_takes_new_slot t name amount now_ms :
  wf_breakdown (breakdown t) -> (64 <= length name)%nat ->
  (tool_type_count (breakdown t) < AK_BUDGET_MAX_TOOL_TYPES)%nat ->
  let t' := ak_budget_record_operation t is_tool_call (Some name) amount now_ms in
  tool_type_count (breakdown t') = S (tool_type_count (breakdown t)).
Proof.
  intros [Hlen Hnames] Hl Hc. unfold ak_budget_record_operation.
  replace (bytes_eqb is_tool_call B"inference") with false by (symmetry; vm_compute; done).
  replace (bytes_eqb is_tool_call B"tool_response") with false by (symmetry; vm_compute; done).
  replace (bytes_eqb is_tool_call B"tool_call") with true by (symmetry; vm_compute; done).
  unfold ak_budget_find_tool. rewrite find_tool_long; [|by eapply Forall_impl; [exact Hnames|]; intros ? [_ ?]|lia|done].
  unfold ak_budget_add_tool.
  destruct (Nat.leb_spec AK_BUDGET_MAX_TOOL_TYPES (tool_type_count (breakdown t))); [lia|done].
Qed.

Lemma long_tool_name_takes_new_slot_witness :
  let name := replicate 64 97 in
  let t1 := ak_budget_record_operation (small_tracker 10) is_tool_call (Some name) 1 1 in
  tool_type_count (breakdown t1) = 1%nat.
Proof.
  apply (long_tool_name_takes_new_slot (small_tracker 10) (replicate 64 97) 1 1).
  - split; [reflexivity|]. apply (bool_decide_unpack _). vm_compute. exact I.
  - simpl. lia.
  - unfold AK_BUDGET_MAX_TOOL_TYPES. simpl. lia.
Defined.
