(* ===== verification/Sequence.v ===== *)
(** * Anti-replay sequence tracking and hex codec ([src/src/agentic/ak_ipc.c])

    [ak_seq_tracker_check] decides whether a request's sequence number is
    fresh.  All arithmetic is on [u64] and written with its wrap-around; an
    access to [seen_bitmap] outside its 128 bytes is the outcome [Oob].

    Theorems: the check never leaves the bitmap, accepted numbers strictly
    increase along every history of calls (so none is accepted twice), and a
    number above the highest seen is always accepted. *)

From S2P Require Import Prelude.

Definition AK_E_REPLAY : Z := -4200.
Definition AK_E_SEQ_GAP : Z := -4501.
Definition SEQ_WINDOW_SIZE : Z := 1024.

Record ak_seq_tracker := mk_seq_tracker {
  sq_pid : bytes;
  sq_run_id : bytes;
  highest_seen : Z;
  expected_next : Z;
  seen_bitmap : bytes;      (* u8 [SEQ_WINDOW_SIZE / 8] *)
  window_base : Z
}.

(** [ak_seq_tracker_create]; a NULL identifier is stored as zeros. *)
Definition ak_seq_tracker_create (alloc : bool) (pid run_id : option bytes) : option ak_seq_tracker :=
  if alloc then
    Some (mk_seq_tracker (default (zeros 16) pid) (default (zeros 16) run_id) 0 1 (zeros 128) 0)
  else None.

Definition test_bit (bitmap : bytes) (offset : Z) : outcome bool :=
  let* b := rd bitmap (offset / 8) in
  Ret (negb (Z.land b (u8 (Z.shiftl 1 (offset mod 8))) =? 0)).

Definition set_bit (bitmap : bytes) (offset : Z) : outcome bytes :=
  let* b := rd bitmap (offset / 8) in
  Ret (<[Z.to_nat (offset / 8) := Z.lor b (u8 (Z.shiftl 1 (offset mod 8)))]> bitmap).

(** The window slide: [shift < SEQ_WINDOW_SIZE] moves whole bytes only. *)
Definition slide_bitmap (bitmap : bytes) (shift : Z) : bytes :=
  if SEQ_WINDOW_SIZE <=? shift then zeros 128
  else
    let k := Z.to_nat (shift / 8) in
    if (0 <? k)%nat then drop k bitmap ++ zeros k else bitmap.

Definition in_window (t : ak_seq_tracker) (seq : Z) : bool :=
  (window_base t <=? seq) && (seq <? u64 (window_base t + SEQ_WINDOW_SIZE)).

Definition with_bitmap (t : ak_seq_tracker) (bm : bytes) : ak_seq_tracker :=
  mk_seq_tracker (sq_pid t) (sq_run_id t) (highest_seen t) (expected_next t) bm (window_base t).

Definition ak_seq_tracker_check (t : ak_seq_tracker) (seq : Z) : outcome (Z * ak_seq_tracker) :=
  if seq <=? highest_seen t then
    if in_window t seq then
      let* seen := test_bit (seen_bitmap t) (u64 (seq - window_base t)) in
      if seen then Ret (AK_E_REPLAY, t)
      else
        let* bm := set_bit (seen_bitmap t) (u64 (seq - window_base t)) in
        Ret (AK_E_REPLAY, with_bitmap t bm)
    else Ret (AK_E_REPLAY, t)
  else
    let result := if expected_next t <? seq then AK_E_SEQ_GAP else 0 in
    let t1 := mk_seq_tracker (sq_pid t) (sq_run_id t) seq (u64 (seq + 1))
                (seen_bitmap t) (window_base t) in
    let t2 :=
      if u64 (window_base t1 + SEQ_WINDOW_SIZE) <=? seq then
        let new_base := u64 (seq - SEQ_WINDOW_SIZE / 2) in
        let shift := u64 (new_base - window_base t1) in
        mk_seq_tracker (sq_pid t1) (sq_run_id t1) (highest_seen t1) (expected_next t1)
          (slide_bitmap (seen_bitmap t1) shift) new_base
      else t1 in
    if in_window t2 seq then
      let* bm := set_bit (seen_bitmap t2) (u64 (seq - window_base t2)) in
      Ret (result, with_bitmap t2 bm)
    else Ret (result, t2).

Definition ak_seq_tracker_expected (t : option ak_seq_tracker) : Z :=
  match t with Some t => expected_next t | None => 0 end.
Definition ak_seq_tracker_highest (t : option ak_seq_tracker) : Z :=
  match t with Some t => highest_seen t | None => 0 end.

(** ** Invariant *)

Definition wf_seq (t : ak_seq_tracker) : Prop :=
  length (seen_bitmap t) = 128%nat /\ is_u64 (highest_seen t) /\ is_u64 (window_base t).

Lemma window_offset t seq :
  wf_seq t -> is_u64 seq -> in_window t seq = true ->
  0 <= u64 (seq - window_base t) / 8 < Z.of_nat (length (seen_bitmap t)).
Proof.
  intros (Hl & _ & Hb) Hs H. rewrite Hl. unfold in_window in H. bprop.
  unfold is_u64, SEQ_WINDOW_SIZE, u64 in *.
  pose proof (Z.mod_le (window_base t + 1024) M64 ltac:(lia) ltac:(lia)).
  rewrite Z.mod_small by lia.
  split; [apply Z.div_pos; lia|apply Z.div_lt_upper_bound; lia].
Qed.

Lemma set_bit_ok t seq :
  wf_seq t -> is_u64 seq -> in_window t seq = true ->
  exists bm, set_bit (seen_bitmap t) (u64 (seq - window_base t)) = Ret bm /\
             length bm = 128%nat.
Proof.
  intros Hwf Hs Hin. pose proof (window_offset t seq Hwf Hs Hin) as Ho.
  unfold set_bit. destruct (rd_in_bounds _ _ Ho) as [b ->]. simpl.
  eexists; split; [done|]. rewrite length_insert. apply Hwf.
Qed.

Lemma length_slide bm shift : length bm = 128%nat -> 0 <= shift -> length (slide_bitmap bm shift) = 128%nat.
Proof.
  intros Hl Hs. unfold slide_bitmap, SEQ_WINDOW_SIZE.
  destruct (Z.leb_spec 1024 shift); [done|].
  destruct (Nat.ltb_spec 0 (Z.to_nat (shift / 8))); [|done].
  assert (shift / 8 < 128) by (apply Z.div_lt_upper_bound; lia).
  rewrite length_app, length_drop, Hl. unfold zeros. rewrite length_replicate. lia.
Qed.

Lemma is_u64_u64 z : is_u64 (u64 z).
Proof. apply Z.mod_pos_bound. lia. Qed.

(** What every call does, on every branch. *)
Lemma check_cases t seq :
  wf_seq t -> is_u64 seq ->
  exists rv t', ak_seq_tracker_check t seq = Ret (rv, t') /\ wf_seq t' /\
    (if seq <=? highest_seen t
     then rv = AK_E_REPLAY /\ highest_seen t' = highest_seen t /\ expected_next t' = expected_next t
     else rv = (if expected_next t <? seq then AK_E_SEQ_GAP else 0) /\
          highest_seen t' = seq /\ expected_next t' = u64 (seq + 1)).
Proof.
  intros Hwf Hs. pose proof Hwf as (Hl & Hh & Hb). unfold ak_seq_tracker_check.
  destruct (Z.leb_spec seq (highest_seen t)) as [Hle|Hgt].
  - destruct (in_window t seq) eqn:Hin; [|eauto 8].
    pose proof (window_offset t seq Hwf Hs Hin) as Ho.
    destruct (set_bit_ok t seq Hwf Hs Hin) as (bm & Hbm & Hlen).
    unfold test_bit. destruct (rd_in_bounds _ _ Ho) as [b ->]. simpl.
    destruct (negb _); [eauto 8|]. rewrite Hbm. simpl.
    do 2 eexists; split; [done|]. split; [|done]. unfold wf_seq; simpl; tauto.
  - cbv zeta.
    set (t2 := if u64 _ <=? seq then _ else _).
    assert (Ht2 : wf_seq t2 /\ highest_seen t2 = seq /\ expected_next t2 = u64 (seq + 1)).
    { subst t2. cbn [window_base]. destruct (_ <=? seq); simpl; (split; [|done]); unfold wf_seq; simpl.
      - split; [|split; [done|apply is_u64_u64]]. apply length_slide; [done|]. apply is_u64_u64.
      - tauto. }
    destruct Ht2 as (Hwf2 & Hh2 & He2).
    destruct (in_window t2 seq) eqn:Hin; [|eauto 8].
    destruct (set_bit_ok t2 seq Hwf2 Hs Hin) as (bm & -> & Hlen). simpl.
    do 2 eexists; split; [done|]. split; [|done]. unfold wf_seq in *; simpl; tauto.
Qed.

(** ** Histories of calls *)

(** The calls of a session, in order: sequence numbers that were accepted
    (the dispatcher rejects only [AK_E_REPLAY]). *)
Fixpoint accepted (t : ak_seq_tracker) (seqs : list Z) : list Z :=
  match seqs with
  | [] => []
  | s :: rest =>
      match ak_seq_tracker_check t s with
      | Ret (rv, t') => (if rv =? AK_E_REPLAY then [] else [s]) ++ accepted t' rest
      | _ => []
      end
  end.

Inductive increasing_from : Z -> list Z -> Prop :=
| Inc_nil lo : increasing_from lo []
| Inc_cons lo s l : lo < s -> increasing_from s l -> increasing_from lo (s :: l).

Lemma accepted_increasing seqs t :
  wf_seq t -> Forall is_u64 seqs -> increasing_from (highest_seen t) (accepted t seqs).
Proof.
  intros Hwf Hs. revert t Hwf. induction Hs as [|s seqs Hs _ IH]; intros t Hwf; simpl; [constructor|].
  destruct (check_cases t s Hwf Hs) as (rv & t' & -> & Hwf' & Hc).
  destruct (Z.leb_spec s (highest_seen t)); destruct Hc as (-> & Hh & _).
  - simpl. rewrite <-Hh. by apply IH.
  - replace (_ =? AK_E_REPLAY) with false by (destruct (_ <? _); done).
    simpl. constructor; [lia|]. rewrite <-Hh. by apply IH.
Qed.

Lemma increasing_weaken lo lo' l : increasing_from lo l -> lo' <= lo -> increasing_from lo' l.
Proof. destruct 1; constructor; (lia || done). Qed.

Lemma increasing_lower lo l x : increasing_from lo l -> x ∈ l -> lo < x.
Proof.
  induction 1 as [|lo s l Hlt H IH]; intros Hx; [by apply not_elem_of_nil in Hx|].
  apply elem_of_cons in Hx as [->|Hx]; [done|]. apply IH in Hx. lia.
Qed.

Lemma increasing_nodup lo l : increasing_from lo l -> NoDup l.
Proof.
  induction 1 as [|lo s l Hlt H IH]; constructor; [|done].
  intros Hin. apply (increasing_lower _ _ _ H) in Hin. lia.
Qed.

(** anti-replay.  Along every history of requests with any sequence
    numbers, the tracker never reads or writes outside its bitmap, the accepted
    numbers are all above what was seen before, and no number is accepted
    twice. *)
Theorem replay_never_accepted t seqs :
  wf_seq t -> Forall is_u64 seqs ->
  NoDup (accepted t seqs) /\
  (forall s, s ∈ accepted t seqs -> highest_seen t < s) /\
  (forall s, is_u64 s -> ak_seq_tracker_check t s <> Oob).
Proof.
  intros Hwf Hs. pose proof (accepted_increasing seqs t Hwf Hs) as Hinc.
  split; [by eapply increasing_nodup|]. split; [intros s; by apply increasing_lower|].
  intros s Hu. by destruct (check_cases t s Hwf Hu) as (? & ? & -> & _).
Qed.

Definition fresh_tracker : ak_seq_tracker := mk_seq_tracker (zeros 16) (zeros 16) 0 1 (zeros 128) 0.

Lemma replay_never_accepted_witness :
  accepted fresh_tracker [1; 2; 2; 5; 3; 2000; 5; 2001] = [1; 2; 5; 2000; 2001] /\
  NoDup [1; 2; 5; 2000; 2001].
Proof.
  split; [vm_compute; reflexivity|].
  apply (replay_never_accepted fresh_tracker [1; 2; 2; 5; 3; 2000; 5; 2001]).
  - repeat split; vm_compute; congruence.
  - apply (bool_decide_unpack _). vm_compute. exact I.
Defined.

(** a fresh request is never mistaken for a replay: any number above the
    highest one seen is accepted, with result 0 when it is the expected one,
    and becomes the highest. *)
Theorem fresh_sequence_accepted t seq :
  wf_seq t -> is_u64 seq -> highest_seen t < seq ->
  exists rv t', ak_seq_tracker_check t seq = Ret (rv, t') /\ rv <> AK_E_REPLAY /\
    (seq <= expected_next t -> rv = 0) /\ highest_seen t' = seq.
Proof.
  intros Hwf Hs Hlt. destruct (check_cases t seq Hwf Hs) as (rv & t' & E & _ & Hc).
  destruct (Z.leb_spec seq (highest_seen t)); [lia|]. destruct Hc as (-> & Hh & _).
  do 2 eexists; split; [exact E|]. split; [by destruct (_ <? _)|]. split; [|done].
  intros Hle. by destruct (Z.ltb_spec (expected_next t) seq); [lia|].
Qed.

Lemma fresh_sequence_accepted_witness :
  exists rv t', ak_seq_tracker_check fresh_tracker 1 = Ret (rv, t') /\ rv <> AK_E_REPLAY /\
    (1 <= expected_next fresh_tracker -> rv = 0) /\ highest_seen t' = 1.
Proof.
  apply (fresh_sequence_accepted fresh_tracker 1); [repeat split; vm_compute; congruence| |];
    vm_compute; first [split; congruence | congruence].
Defined.

(** The slide by a number of sequence numbers that is not a multiple of 8
    moves the bits by less than the base: bits no longer belong to the numbers
    they were set for.  (Harmless for [ak_seq_tracker_check], which rejects
    every number not above [highest_seen] whatever its bit.) *)
Example slide_misaligned :
  (let* r1 := ak_seq_tracker_check fresh_tracker 1023 in
   let* r2 := ak_seq_tracker_check (snd r1) 1025 in
   let* seen := test_bit (seen_bitmap (snd r2)) (1023 - window_base (snd r2)) in
   Ret (in_window (snd r2) 1023, seen)) = Ret (true, false).
Proof. vm_compute. reflexivity. Qed.

(** ** Hex codec *)

Definition hex_chars : bytes := B"0123456789abcdef".

(** [ak_hex_encode], without the final NUL. *)
Definition ak_hex_encode (data : bytes) : bytes :=
  data ≫= (fun b => [hex_chars !!! Z.to_nat (Z.land (Z.shiftr b 4) 15);
                     hex_chars !!! Z.to_nat (Z.land b 15)]).

Definition hex_digit (c : Z) : Z :=
  if (48 <=? c) && (c <=? 57) then c - 48
  else if (97 <=? c) && (c <=? 102) then c - 97 + 10
  else if (65 <=? c) && (c <=? 70) then c - 65 + 10
  else -1.

Fixpoint hex_decode_loop (hex : bytes) : option bytes :=
  match hex with
  | h :: l :: rest =>
      let hi := hex_digit h in
      let lo := hex_digit l in
      if (hi <? 0) || (lo <? 0) then None
      else match hex_decode_loop rest with
           | Some out => Some (Z.lor (Z.shiftl hi 4) lo :: out)
           | None => None
           end
  | _ => Some []
  end.

(** [ak_hex_decode] on the C string [hex]: the bytes written to [out], or
    [None] when it returns false. *)
Definition ak_hex_decode (hex : bytes) (max_len : nat) : option bytes :=
  let len := length hex in
  if negb (len mod 2 =? 0)%nat || (max_len <? len / 2)%nat then None
  else hex_decode_loop hex.

Lemma hex_pair_table :
  forallb (fun n =>
    let b := Z.of_nat n in
    match ak_hex_encode [b] with
    | [h; l] => (0 <=? hex_digit h) && (0 <=? hex_digit l) &&
                (Z.lor (Z.shiftl (hex_digit h) 4) (hex_digit l) =? b)
    | _ => false
    end) (seq 0 256) = true.
Proof. vm_compute. reflexivity. Qed.

Lemma hex_pair b : is_u8 b ->
  let h := hex_chars !!! Z.to_nat (Z.land (Z.shiftr b 4) 15) in
  let l := hex_chars !!! Z.to_nat (Z.land b 15) in
  0 <= hex_digit h /\ 0 <= hex_digit l /\ Z.lor (Z.shiftl (hex_digit h) 4) (hex_digit l) = b.
Proof.
  intros Hb. pose proof hex_pair_table as H. rewrite forallb_forall in H.
  unfold is_u8 in Hb. specialize (H (Z.to_nat b)). rewrite Z2Nat.id in H by lia.
  specialize (H ltac:(apply in_seq; lia)). cbv zeta in *. cbn [ak_hex_encode mbind list_bind app] in H.
  bprop. done.
Qed.

Lemma hex_loop_encode data : wf_bytes data -> hex_decode_loop (ak_hex_encode data) = Some data.
Proof.
  induction 1 as [|b data Hb _ IH]; [done|].
  destruct (hex_pair b Hb) as (H1 & H2 & H3). cbv zeta in *.
  unfold ak_hex_encode in *. cbn [mbind list_bind app hex_decode_loop].
  destruct (Z.ltb_spec (hex_digit (hex_chars !!! Z.to_nat (Z.land (Z.shiftr b 4) 15))) 0); [lia|].
  destruct (Z.ltb_spec (hex_digit (hex_chars !!! Z.to_nat (Z.land b 15))) 0); [lia|].
  simpl orb. cbv iota. rewrite IH, H3. done.
Qed.

Lemma length_hex_encode data : length (ak_hex_encode data) = (2 * length data)%nat.
Proof.
  unfold ak_hex_encode. induction data as [|b data IH]; [done|].
  cbn [mbind list_bind app length]. lia.
Qed.

(** Hex round trip.  Decoding the hex text of any byte string, with room
    for its bytes, gives the byte string back. *)
Theorem hex_round_trip data max_len :
  wf_bytes data -> (length data <= max_len)%nat ->
  ak_hex_decode (ak_hex_encode data) max_len = Some data.
Proof.
  intros Hd Hl. unfold ak_hex_decode. rewrite length_hex_encode.
  replace (2 * length data)%nat with (length data * 2)%nat by lia.
  rewrite Nat.Div0.mod_mul, Nat.div_mul by lia.
  destruct (Nat.ltb_spec max_len (length data)); [lia|]. by apply hex_loop_encode.
Qed.

Lemma hex_round_trip_witness : ak_hex_decode (ak_hex_encode [0; 10; 255]) 16 = Some [0; 10; 255].
Proof.
  apply (hex_round_trip [0; 10; 255] 16).
  - apply (bool_decide_unpack _). vm_compute. exact I.
  - simpl. lia.
Defined.
