(* ===== verification/Keys.v ===== *)
(** * Signing keys ([src/src/agentic/ak_capability.c], key management and
    key persistence)

    The four key slots, rotation, and the exported key blob.  The clock
    ([now / MILLION]) and the random bytes drawn are arguments.

    Theorems: along every history of rotations the live keys have pairwise
    distinct key ids and the active slot is live, so [ak_key_get] is
    unambiguous; importing an exported key set restores every key; the parser
    of the blob never reads outside it. *)

From S2P Require Import Prelude Crypto.

Definition AK_MAX_KEYS : nat := 4.
Definition AK_KEY_ROTATION_MS : Z := 86400000.
Definition AK_KEY_GRACE_MS : Z := 345600000.
Definition UINT64_MAX : Z := 18446744073709551615.

Record ak_key := mk_key {
  kid : Z;
  secret : bytes;
  created_ms : Z;
  expires_ms : Z;
  active : bool;
  retired : bool
}.
Definition zero_key : ak_key := mk_key 0 (zeros 32) 0 0 false false.
#[global] Instance ak_key_inhabited : Inhabited ak_key := populate zero_key.

(** The key-management fields of [ak_cap_state]. *)
Record key_state := mk_key_state {
  keys : list ak_key;           (* [AK_MAX_KEYS] *)
  active_kid : nat;             (* slot index of the active key *)
  last_rotation_ms : Z;
  key_counter : Z
}.

Definition retire (k : ak_key) : ak_key :=
  mk_key (kid k) (zeros AK_KEY_SIZE) (created_ms k) (expires_ms k) (active k) true.
Definition deactivate (k : ak_key) : ak_key :=
  mk_key (kid k) (secret k) (created_ms k) (expires_ms k) false (retired k).

(** [ak_keys_set_seed]: the staged seed ([None] when none is set). *)
Definition ak_keys_set_seed `{Hash} (seed : option bytes) : option bytes :=
  match seed with
  | None => None
  | Some s =>
      if (length s =? 0)%nat then None
      else if (length s =? AK_KEY_SIZE)%nat then Some s
      else Some (hash s)
  end.

(** [ak_keys_init], on the static array [ks]; [rnd] is what
    [ak_random_bytes] returns. *)
Definition ak_keys_init (ks : list ak_key) (seed : option bytes) (rnd : bytes) (now_ms : Z)
    : key_state :=
  let unused k := mk_key (kid k) (secret k) (created_ms k) (expires_ms k) false true in
  let key0 := mk_key 0 (default rnd seed) now_ms
                (u64 (now_ms + AK_KEY_ROTATION_MS + AK_KEY_GRACE_MS)) true false in
  mk_key_state (key0 :: (unused <$> drop 1 ks)) 0 now_ms 1.

Definition ak_key_get_active (st : key_state) : ak_key := keys st !!! active_kid st.

Definition ak_key_get (st : key_state) (id : Z) : option ak_key :=
  list_find (fun k => kid k = id /\ retired k = false) (keys st) ≫= (fun p => Some (snd p)).

(** The expiry loop of [ak_key_rotate]. *)
Definition expire_keys (now_ms : Z) (ks : list ak_key) : list ak_key :=
  (fun k => if (expires_ms k <? now_ms) && negb (retired k) then retire k else k) <$> ks.

(** First retired slot. *)
Definition find_retired (ks : list ak_key) : option nat :=
  fst <$> list_find (fun k => retired k = true) ks.

(** The oldest slot: first with the least [created_ms]. *)
Fixpoint find_oldest (ks : list ak_key) (i : nat) (oldest : Z) (slot : nat) : nat :=
  match ks with
  | [] => slot
  | k :: ks' =>
      if created_ms k <? oldest then find_oldest ks' (S i) (created_ms k) i
      else find_oldest ks' (S i) oldest slot
  end.

(** The slot for the new key: a retired one, or the oldest, force-retired. *)
Definition pick_slot (ks : list ak_key) : nat * list ak_key :=
  match find_retired ks with
  | Some s => (s, ks)
  | None => let s := find_oldest ks 0 UINT64_MAX 0 in (s, alter retire s ks)
  end.

Definition ak_key_rotate (st : key_state) (rnd : bytes) (now_ms : Z) : key_state :=
  if u64 (now_ms - last_rotation_ms st) <? AK_KEY_ROTATION_MS then st
  else
    let ks := expire_keys now_ms (keys st) in
    let '(slot, ks) := pick_slot ks in
    let new_key := mk_key (Z.land (key_counter st) 0xff) rnd now_ms
                     (u64 (now_ms + AK_KEY_ROTATION_MS + AK_KEY_GRACE_MS)) true false in
    let ks := <[slot := new_key]> ks in
    let ks := alter deactivate (active_kid st) ks in
    mk_key_state ks slot now_ms (u64 (key_counter st + 1)).

(** ** Persistence *)

Definition AK_KEYS_BLOB_MAGIC : Z := 0x534B4B41.
Definition AK_KEYS_BLOB_VERSION : Z := 1.
Definition AK_KEYS_SLOT_SIZE : Z := 56.
Definition AK_KEYS_BLOB_SIZE : Z := 240.

Definition key_slot (k : ak_key) : bytes :=
  [kid k; (if active k then 1 else 0); (if retired k then 1 else 0); 0; 0; 0; 0; 0] ++
  le_enc 8 (created_ms k) ++ le_enc 8 (expires_ms k) ++
  (if retired k then zeros 32 else secret k).

Definition ak_keys_export (st : key_state) : bytes :=
  le_enc 4 AK_KEYS_BLOB_MAGIC ++
  [AK_KEYS_BLOB_VERSION; Z.of_nat (active_kid st); 0; 0] ++
  le_enc 8 (key_counter st) ++ concat (key_slot <$> keys st).

(** The [i]-th slot of the blob. *)
Definition blob_slot (p : bytes) (i : nat) : outcome bytes :=
  rdn p (16 + Z.of_nat i * AK_KEYS_SLOT_SIZE) AK_KEYS_SLOT_SIZE.

(** Non-retired slots must carry distinct kids. *)
Fixpoint kids_distinct (slots : list bytes) : bool :=
  match slots with
  | [] => true
  | si :: rest =>
      (negb (si !!! 2%nat =? 0) ||
       forallb (fun sj : bytes => negb ((sj !!! 2%nat =? 0) && (sj !!! 0%nat =? si !!! 0%nat))) rest)
      && kids_distinct rest
  end.

Definition import_slot (active_slot : nat) (now_ms : Z) (i : nat) (slot : bytes) : ak_key :=
  let ret := negb (slot !!! 2%nat =? 0) in
  if ret then mk_key (slot !!! 0%nat) (zeros 32) 0 0 (i =? active_slot)%nat true
  else
    mk_key (slot !!! 0%nat) (slice 24 32 slot)
      (if (i =? active_slot)%nat then now_ms else if now_ms =? 0 then 0 else now_ms - 1)
      (if (i =? active_slot)%nat then u64 (now_ms + AK_KEY_ROTATION_MS + AK_KEY_GRACE_MS)
       else u64 (now_ms + AK_KEY_GRACE_MS))
      (i =? active_slot)%nat false.

(** [ak_keys_import] of an initialized subsystem; [Null] is [false], which
    leaves the key state as it was. *)
Definition ak_keys_import (p : bytes) (now_ms : Z) : outcome key_state :=
  guard (AK_KEYS_BLOB_SIZE <=? Z.of_nat (length p)) in
  let* m := rdn p 0 4 in
  guard (le_dec m =? AK_KEYS_BLOB_MAGIC) in
  let* v := rd p 4 in
  guard (v =? AK_KEYS_BLOB_VERSION) in
  let* a := rd p 5 in
  let active_slot := Z.to_nat a in
  guard (active_slot <? AK_MAX_KEYS)%nat in
  let* r := rd p (16 + a * AK_KEYS_SLOT_SIZE + 2) in
  guard (r =? 0) in
  let* s0 := blob_slot p 0 in
  let* s1 := blob_slot p 1 in
  let* s2 := blob_slot p 2 in
  let* s3 := blob_slot p 3 in
  guard (kids_distinct [s0; s1; s2; s3]) in
  let* c := rdn p 8 8 in
  let counter := if le_dec c =? 0 then 1 else le_dec c in
  Ret (mk_key_state (imap (import_slot active_slot now_ms) [s0; s1; s2; s3])
         active_slot now_ms counter).

(** ** Rotation invariant *)

Definition KEY_LIFETIME_MS : Z := AK_KEY_ROTATION_MS + AK_KEY_GRACE_MS.

Definition live (ks : list ak_key) (i : nat) (k : ak_key) : Prop :=
  ks !! i = Some k /\ retired k = false.

(** Ghost state: [birth i] is the value of the key counter when the key in
    slot [i] was made.  The live keys are the most recent ones. *)
Record births (ks : list ak_key) (counter last : Z) (birth : nat -> Z) : Prop := {
  b_range i k : live ks i k -> counter - 4 <= birth i < counter;
  b_kid i k : live ks i k -> kid k = birth i mod 256;
  b_expires i k : live ks i k -> expires_ms k = created_ms k + KEY_LIFETIME_MS;
  b_created i k : live ks i k -> 0 <= created_ms k <= last;
  b_order i j ki kj : live ks i ki -> live ks j kj -> birth i < birth j -> created_ms ki < created_ms kj;
  b_inj i j ki kj : live ks i ki -> live ks j kj -> birth i = birth j -> i = j;
  b_closed i k b : live ks i k -> birth i < b < counter -> exists j kj, live ks j kj /\ birth j = b
}.

Definition key_inv (st : key_state) : Prop :=
  length (keys st) = AK_MAX_KEYS /\ 0 <= key_counter st < M64 /\
  exists birth, births (keys st) (key_counter st) (last_rotation_ms st) birth /\
    (exists k, live (keys st) (active_kid st) k) /\ birth (active_kid st) = key_counter st - 1.

(** Two arrays with the same live metadata. *)
Definition same_meta (k k' : ak_key) : Prop :=
  kid k = kid k' /\ created_ms k = created_ms k' /\ expires_ms k = expires_ms k' /\
  retired k = retired k'.

Lemma live_expire now_ms ks i k :
  live (expire_keys now_ms ks) i k <-> live ks i k /\ now_ms <= expires_ms k.
Proof.
  unfold live, expire_keys. rewrite list_lookup_fmap.
  destruct (ks !! i) as [x|] eqn:E; simpl; [|naive_solver].
  destruct (_ && _) eqn:Ex; split.
  - intros [[= <-] Hr]. simpl in Hr. done.
  - intros [[[= ->] Hr] Hle]. rewrite Hr in Ex. bprop. lia.
  - intros [[= <-] Hr]. rewrite Hr in Ex. rewrite andb_true_r in Ex. bprop. auto.
  - intros [[[= ->] Hr] Hle]. done.
Qed.

(** Expiry retires the oldest keys first. *)
Lemma births_expire now_ms ks counter last birth :
  births ks counter last birth -> births (expire_keys now_ms ks) counter last birth.
Proof.
  intros [Hr Hk He Hc Ho Hi Hcl].
  constructor; intros *; rewrite ?live_expire; intros; destruct_and?; eauto.
  destruct (Hcl i k b) as (j & kj & Hj & Hb); [done|lia|].
  exists j, kj. split; [|done]. rewrite live_expire. split; [done|].
  assert (created_ms k < created_ms kj) by (apply (Ho i j); [done..|lia]).
  rewrite (He j kj) by done. rewrite (He i k) in * by done. lia.
Qed.

Lemma find_retired_Some ks s :
  find_retired ks = Some s -> (s < length ks)%nat /\ forall k, ~ live ks s k.
Proof.
  unfold find_retired. destruct (list_find _ ks) as [[i k]|] eqn:E; simpl; [|done].
  intros [= <-]. apply list_find_Some in E as (Hl & Hr & _).
  split; [by eapply lookup_lt_Some|]. intros k' [Hk Hr']. congruence.
Qed.

Lemma find_retired_None ks i k :
  find_retired ks = None -> ks !! i = Some k -> live ks i k.
Proof.
  unfold find_retired. destruct (list_find _ ks) as [[j x]|] eqn:E; simpl; [done|].
  intros _ Hi. apply list_find_None in E. split; [done|].
  apply (Forall_lookup_1 _ _ _ _ E) in Hi. by destruct (retired k).
Qed.

Lemma find_oldest_spec ks i oldest slot :
  let s := find_oldest ks i oldest slot in
  (s = slot /\ forall k, k ∈ ks -> oldest <= created_ms k) \/
  (exists j ko, s = (i + j)%nat /\ ks !! j = Some ko /\ created_ms ko < oldest /\
     forall k, k ∈ ks -> created_ms ko <= created_ms k).
Proof.
  revert i oldest slot; induction ks as [|k0 ks IH]; intros i oldest slot; simpl.
  - left. split; [done|]. intros k Hk. by apply not_elem_of_nil in Hk.
  - destruct (Z.ltb_spec (created_ms k0) oldest) as [Hlt|Hge].
    + right. destruct (IH (S i) (created_ms k0) i) as [[-> Hmin]|(j & ko & -> & Hj & Ho & Hmin)].
      * exists 0%nat, k0. rewrite Nat.add_0_r. repeat split; [done..|].
        intros k [->|Hk]%elem_of_cons; [lia|auto].
      * exists (S j), ko. repeat split; [lia|done|lia|].
        intros k [->|Hk]%elem_of_cons; [lia|auto].
    + destruct (IH (S i) oldest slot) as [[-> Hmin]|(j & ko & -> & Hj & Ho & Hmin)].
      * left. split; [done|]. intros k [->|Hk]%elem_of_cons; [lia|auto].
      * right. exists (S j), ko. repeat split; [lia|done..|].
        intros k [->|Hk]%elem_of_cons; [lia|auto].
Qed.

(** A slot freed for the new key: not live, and the live keys left are the
    three most recent at most. *)
Lemma free_slot now_ms ks counter last birth :
  births ks counter last birth -> length ks = AK_MAX_KEYS -> last < UINT64_MAX ->
  let ks1 := expire_keys now_ms ks in
  let '(slot, ks2) := pick_slot ks1 in
  births ks2 counter last birth /\ length ks2 = AK_MAX_KEYS /\ (slot < AK_MAX_KEYS)%nat /\
  (forall k, ~ live ks2 slot k) /\ (forall i k, live ks2 i k -> counter - 3 <= birth i).
Proof.
  intros Hb Hlen Hlast. apply (births_expire now_ms) in Hb. cbv zeta.
  assert (Hlen1 : length (expire_keys now_ms ks) = AK_MAX_KEYS)
    by (unfold expire_keys; by rewrite length_fmap).
  set (ks1 := expire_keys now_ms ks) in *. clearbody ks1. clear Hlen ks.
  pose proof Hb as [Hr Hk He Hc Ho Hi Hcl].
  unfold AK_MAX_KEYS, pick_slot in *. destruct (find_retired ks1) as [s|] eqn:Es.
  - apply find_retired_Some in Es as [Hs Hdead].
    split; [done|]. split; [done|]. split; [lia|]. split; [done|].
    intros i k Hl. destruct (decide (counter - 3 <= birth i)) as [|Hlt]; [done|exfalso].
    pose proof (Hr i k Hl).
    destruct (Hcl i k (counter - 3)) as (j1 & k1 & L1 & B1); [done|lia|].
    destruct (Hcl i k (counter - 2)) as (j2 & k2 & L2 & B2); [done|lia|].
    destruct (Hcl i k (counter - 1)) as (j3 & k3 & L3 & B3); [done|lia|].
    assert (forall j k, live ks1 j k -> (j < 4)%nat /\ j <> s) as Hlt4.
    { intros j kj Hj. split; [|intros ->; by apply (Hdead kj)].
      rewrite <-Hlen1. apply lookup_lt_is_Some. destruct Hj as [-> _]. eauto. }
    pose proof (Hlt4 _ _ Hl). pose proof (Hlt4 _ _ L1). pose proof (Hlt4 _ _ L2).
    pose proof (Hlt4 _ _ L3).
    assert (i <> j1 /\ i <> j2 /\ i <> j3 /\ j1 <> j2 /\ j1 <> j3 /\ j2 <> j3) by
      (repeat split; intros ->; lia).
    lia.
  - destruct (find_oldest_spec ks1 0 UINT64_MAX 0) as [[_ Hmin]|(j & ko & -> & Hj & _ & Hmin)].
    { exfalso. destruct ks1 as [|k0 ks1]; [done|].
      assert (H0 : live (k0 :: ks1) 0 k0) by (by apply (find_retired_None _ _ _ Es)).
      pose proof (Hmin k0 ltac:(left)). pose proof (Hc 0%nat k0 H0). lia. }
    simpl Nat.add. assert (Lj : live ks1 j ko) by (by apply (find_retired_None _ _ _ Es)).
    assert (Hsub : forall i k, live (alter retire j ks1) i k <-> i <> j /\ live ks1 i k).
    { intros i k. unfold live. destruct (decide (i = j)) as [->|Hne].
      - rewrite list_lookup_alter_eq, Hj. simpl. split; [intros [[= <-] Hf]; done|naive_solver].
      - rewrite list_lookup_alter_ne by done. naive_solver. }
    assert (Hyoung : forall i k, i <> j -> live ks1 i k -> birth j < birth i).
    { intros i k Hne Hl. destruct (Z.lt_trichotomy (birth i) (birth j)) as [H|[H|H]]; [| |done].
      - pose proof (Ho i j k ko Hl Lj H).
        pose proof (Hmin k ltac:(eapply list_elem_of_lookup_2, Hl)). lia.
      - by apply (Hi i j k ko) in H. }
    pose proof (Hr j ko Lj). split; [constructor|].
    + intros i k Hl%Hsub. destruct_and?. eauto.
    + intros i k Hl%Hsub. destruct_and?. eauto.
    + intros i k Hl%Hsub. destruct_and?. eauto.
    + intros i k Hl%Hsub. destruct_and?. eauto.
    + intros i i' k k' Hl%Hsub Hl'%Hsub. destruct_and?. eauto.
    + intros i i' k k' Hl%Hsub Hl'%Hsub. destruct_and?. eauto.
    + intros i k b Hl%Hsub Hbb. destruct_and?.
      destruct (Hcl i k b) as (i' & k' & Hl' & Hb'); [done..|].
      exists i', k'. split; [|done]. apply Hsub. split; [|done].
      intros ->. pose proof (Hyoung i k ltac:(done) ltac:(done)). lia.
    + repeat split.
      * by rewrite length_alter.
      * rewrite <-Hlen1. by eapply lookup_lt_Some.
      * intros k Hl%Hsub. naive_solver.
      * intros i k Hl%Hsub. destruct_and?.
        pose proof (Hyoung i k ltac:(done) ltac:(done)). lia.
Qed.

Lemma births_meta ks ks' counter last birth :
  (forall i k', live ks' i k' -> exists k, live ks i k /\ same_meta k k') ->
  (forall i k, live ks i k -> exists k', live ks' i k' /\ same_meta k k') ->
  births ks counter last birth -> births ks' counter last birth.
Proof.
  intros Hto Hfrom [Hr Hk He Hc Ho Hi Hcl]. constructor.
  - intros i k' (k & Hl & _)%Hto. eauto.
  - intros i k' (k & Hl & E & _)%Hto. rewrite <-E. eauto.
  - intros i k' (k & Hl & _ & <- & <- & _)%Hto. eauto.
  - intros i k' (k & Hl & _ & <- & _)%Hto. eauto.
  - intros i j k1 k2 (k & Hl & _ & <- & _)%Hto (k3 & Hl3 & _ & <- & _)%Hto. eauto.
  - intros i j k1 k2 (k & Hl & _)%Hto (k3 & Hl3 & _)%Hto. eauto.
  - intros i k' b (k & Hl & _)%Hto Hb. destruct (Hcl i k b Hl Hb) as (j & kj & Hj & <-).
    apply Hfrom in Hj as (kj' & Hj' & _). eauto.
Qed.

Lemma births_deactivate ks counter last birth a :
  births ks counter last birth -> births (alter deactivate a ks) counter last birth.
Proof.
  assert (Hd : forall i k, live ks i k -> exists k', live (alter deactivate a ks) i k' /\ same_meta k k').
  { intros i k [Hi Hr]. unfold live. destruct (decide (i = a)) as [->|Hne].
    - rewrite list_lookup_alter_eq, Hi. simpl. exists (deactivate k). repeat split; done.
    - rewrite list_lookup_alter_ne by done. exists k. repeat split; done. }
  apply births_meta; [|done].
  intros i k' [Hi Hr]. destruct (decide (i = a)) as [->|Hne].
  - rewrite list_lookup_alter_eq in Hi. destruct (ks !! a) as [k|] eqn:E; simplify_eq/=.
    exists k. repeat split; done.
  - rewrite list_lookup_alter_ne in Hi by done. exists k'. repeat split; done.
Qed.

Lemma land_255 z : Z.land z 0xff = z mod 256.
Proof. change 0xff with (Z.ones 8). by rewrite Z.land_ones by lia. Qed.

(** Putting a new key in a free slot. *)
Lemma births_insert ks counter last birth slot k now_ms :
  births ks counter last birth -> (slot < length ks)%nat ->
  (forall x, ~ live ks slot x) -> (forall i x, live ks i x -> counter - 3 <= birth i) ->
  retired k = false -> kid k = counter mod 256 -> created_ms k = now_ms ->
  expires_ms k = now_ms + KEY_LIFETIME_MS -> 0 <= last < now_ms ->
  births (<[slot := k]> ks) (counter + 1) now_ms
    (fun i => if decide (i = slot) then counter else birth i).
Proof.
  intros [Hr Hk He Hc Ho Hi Hcl] Hs Hdead Hyoung Rk Kk Ck Ek Hn.
  assert (Hl : forall i x, live (<[slot := k]> ks) i x <-> (i = slot /\ x = k) \/ (i <> slot /\ live ks i x)).
  { intros i x. unfold live. destruct (decide (i = slot)) as [->|Hne].
    - rewrite list_lookup_insert_eq by done. naive_solver.
    - rewrite list_lookup_insert_ne by done. naive_solver. }
  constructor.
  - intros i x [[-> ->]|[Hne Hx]]%Hl; case_decide; try done; [lia|].
    pose proof (Hr i x Hx). pose proof (Hyoung i x Hx). lia.
  - intros i x [[-> ->]|[Hne Hx]]%Hl; case_decide; try done. eauto.
  - intros i x [[-> ->]|[Hne Hx]]%Hl; [lia|eauto].
  - intros i x [[-> ->]|[Hne Hx]]%Hl; [lia|]. pose proof (Hc i x Hx). lia.
  - intros i j x y [[-> ->]|[Hne Hx]]%Hl [[-> ->]|[Hne' Hy]]%Hl; repeat case_decide; try done; try lia.
    + intros Hlt. pose proof (Hr j y Hy). lia.
    + intros _. pose proof (Hc i x Hx). lia.
    + eauto.
  - intros i j x y [[-> ->]|[Hne Hx]]%Hl [[-> ->]|[Hne' Hy]]%Hl; repeat case_decide; try done.
    + intros Heq. pose proof (Hr j y Hy). lia.
    + intros Heq. pose proof (Hr i x Hx). lia.
    + eauto.
  - intros i x b Hlive Hb. destruct (decide (b = counter)) as [->|Hbc].
    { exists slot, k. split; [apply Hl; by left|]. by rewrite decide_True. }
    apply Hl in Hlive as [[-> ->]|[Hne Hx]]; repeat case_decide; try done; [lia|].
    destruct (Hcl i x b Hx ltac:(lia)) as (j & y & Hy & <-).
    exists j, y. assert (j <> slot) by (intros ->; by apply (Hdead y)).
    split; [apply Hl; by right|]. by rewrite decide_False.
Qed.

Lemma rotate_inv st rnd now_ms :
  key_inv st -> 0 <= last_rotation_ms st <= now_ms -> now_ms + KEY_LIFETIME_MS < M64 ->
  key_counter st + 1 < M64 -> key_inv (ak_key_rotate st rnd now_ms).
Proof.
  intros Hinv Hnow Hmax Hcnt. pose proof Hinv as (Hlen & Hc & birth & Hb & _ & Hact).
  unfold ak_key_rotate, KEY_LIFETIME_MS, AK_KEY_ROTATION_MS, AK_KEY_GRACE_MS in *.
  destruct (Z.ltb_spec (u64 (now_ms - last_rotation_ms st)) 86400000) as [|Hrot]; [done|].
  unfold u64 in Hrot. rewrite Z.mod_small in Hrot by lia.
  assert (Hlast : last_rotation_ms st < UINT64_MAX) by (unfold UINT64_MAX; lia).
  pose proof (free_slot now_ms _ _ _ birth Hb Hlen Hlast) as Hfree. cbv zeta in Hfree.
  destruct (pick_slot _) as [slot ks2].
  destruct Hfree as (Hb2 & Hlen2 & Hslot & Hdead & Hyoung).
  set (nk := mk_key _ rnd now_ms _ true false).
  assert (Hb3 : births (<[slot := nk]> ks2) (key_counter st + 1) now_ms
    (fun i => if decide (i = slot) then key_counter st else birth i)).
  { apply (births_insert _ _ (last_rotation_ms st)); auto; try done.
    - lia.
    - apply land_255.
    - subst nk. simpl. unfold u64, KEY_LIFETIME_MS, AK_KEY_ROTATION_MS, AK_KEY_GRACE_MS.
      rewrite Z.mod_small; lia.
    - lia. }
  split; [|split].
  - simpl. by rewrite length_alter, length_insert.
  - simpl. unfold u64. rewrite Z.mod_small; lia.
  - exists (fun i => if decide (i = slot) then key_counter st else birth i).
    cbn [keys key_counter last_rotation_ms active_kid].
    replace (u64 (key_counter st + 1)) with (key_counter st + 1)
      by (unfold u64; rewrite Z.mod_small; lia).
    split; [by apply births_deactivate|]. split; [|rewrite decide_True; lia || done].
    unfold live. destruct (decide (slot = active_kid st)) as [->|Hne].
    + rewrite list_lookup_alter_eq, list_lookup_insert_eq by lia. simpl. eauto.
    + rewrite list_lookup_alter_ne, list_lookup_insert_eq by (done || lia). eauto.
Qed.

Lemma init_inv ks seed rnd now_ms :
  length ks = AK_MAX_KEYS -> 0 <= now_ms -> now_ms + KEY_LIFETIME_MS < M64 ->
  key_inv (ak_keys_init ks seed rnd now_ms).
Proof.
  intros Hlen Hn Hmax. unfold ak_keys_init. split; [|split].
  - simpl. rewrite length_fmap, length_drop, Hlen. done.
  - simpl. lia.
  - exists (fun _ => 0). simpl.
    assert (Hl : forall i k, live (mk_key 0 (default rnd seed) now_ms
        (u64 (now_ms + AK_KEY_ROTATION_MS + AK_KEY_GRACE_MS)) true false
        :: ((fun k => mk_key (kid k) (secret k) (created_ms k) (expires_ms k) false true) <$> drop 1 ks)) i k ->
      i = 0%nat /\ k = mk_key 0 (default rnd seed) now_ms (now_ms + KEY_LIFETIME_MS) true false).
    { intros [|i] k [Hi Hr]; simpl in Hi.
      - split; [done|]. simplify_eq. unfold u64, KEY_LIFETIME_MS, AK_KEY_ROTATION_MS, AK_KEY_GRACE_MS in *.
        rewrite Z.mod_small by lia. f_equal. lia.
      - rewrite list_lookup_fmap in Hi. destruct (drop 1 ks !! i); simplify_eq/=. }
    split; [constructor|].
    + intros i k Hk. lia.
    + intros i k [-> ->]%Hl. done.
    + intros i k [-> ->]%Hl. done.
    + intros i k [-> ->]%Hl. simpl. lia.
    + intros i j k k' [-> ->]%Hl [-> ->]%Hl. lia.
    + intros i j k k' [-> ->]%Hl [-> ->]%Hl. done.
    + intros i k b _ Hb. lia.
    + split; [|lia]. eexists. split; [simpl; done|done].
Qed.

(** ** Histories of rotations *)

Inductive rotation_step : key_state -> key_state -> Prop :=
| RStep st rnd now_ms :
    last_rotation_ms st <= now_ms -> now_ms + KEY_LIFETIME_MS < M64 ->
    key_counter st + 1 < M64 -> rotation_step st (ak_key_rotate st rnd now_ms).

Lemma last_rotation_nonneg st st' :
  rotation_step st st' -> 0 <= last_rotation_ms st -> 0 <= last_rotation_ms st'.
Proof.
  destruct 1 as [st rnd now_ms H1 H2 H3]. unfold ak_key_rotate.
  destruct (_ <? _); [done|]. destruct (pick_slot _). simpl. lia.
Qed.

Lemma key_get_live st k :
  ak_key_get st (kid k) = Some k -> exists i, live (keys st) i k.
Proof.
  unfold ak_key_get. destruct (list_find _ (keys st)) as [[i x]|] eqn:E; simpl; [|done].
  intros [= ->]. apply list_find_Some in E as (Hi & [_ Hr] & _). exists i. done.
Qed.

Lemma key_get_unique st i k :
  key_inv st -> live (keys st) i k -> ak_key_get st (kid k) = Some k.
Proof.
  intros (_ & _ & birth & [Hr Hk _ _ _ Hi _] & _) Hl. unfold ak_key_get.
  destruct (list_find _ (keys st)) as [[j x]|] eqn:E; simpl.
  - apply list_find_Some in E as (Hj & [Hkid Hret] & _).
    assert (Lx : live (keys st) j x) by done.
    assert (birth j = birth i).
    { pose proof (Hr i k Hl). pose proof (Hr j x Lx).
      rewrite (Hk i k Hl), (Hk j x Lx) in Hkid.
      pose proof (Z.div_mod (birth i) 256 ltac:(lia)). pose proof (Z.div_mod (birth j) 256 ltac:(lia)).
      lia. }
    assert (j = i) as -> by eauto. destruct Hl as [Hl _]. congruence.
  - apply list_find_None in E. destruct Hl as [Hl Hret].
    apply (Forall_lookup_1 _ _ _ _ E) in Hl. naive_solver.
Qed.

Lemma active_key_found st :
  key_inv st -> ak_key_get st (kid (ak_key_get_active st)) = Some (ak_key_get_active st).
Proof.
  intros Hinv. pose proof Hinv as (_ & _ & birth & _ & [k Hk] & _).
  assert (ak_key_get_active st = k) as ->
    by (unfold ak_key_get_active; by apply list_lookup_total_correct, Hk).
  by eapply key_get_unique.
Qed.

(** key rotation.  After initialization and any history of rotations with
    a monotonic clock, the active slot holds a live key, and looking a live
    key's id up returns that key: no two live keys share an id, however slots
    are reused and whichever keys expired. *)
Theorem rotation_keeps_keys_unambiguous ks seed rnd now_ms st :
  length ks = AK_MAX_KEYS -> 0 <= now_ms -> now_ms + KEY_LIFETIME_MS < M64 ->
  steps rotation_step (ak_keys_init ks seed rnd now_ms) st ->
  retired (ak_key_get_active st) = false /\
  ak_key_get st (kid (ak_key_get_active st)) = Some (ak_key_get_active st) /\
  forall i k, live (keys st) i k -> ak_key_get st (kid k) = Some k.
Proof.
  intros Hlen Hn Hmax Hst.
  assert (Hinv : key_inv st /\ 0 <= last_rotation_ms st).
  { eapply (steps_invariant rotation_step (fun s => key_inv s /\ 0 <= last_rotation_ms s));
      [| |exact Hst].
    - intros x y [Hx Hl] Hxy. split; [|by eapply last_rotation_nonneg].
      destruct Hxy. apply rotate_inv; [done|lia|done..].
    - split; [by apply init_inv|done]. }
  destruct Hinv as [Hinv _]. pose proof (active_key_found st Hinv) as Ha.
  split; [by destruct (key_get_live st _ Ha) as (i & _ & ?)|]. split; [done|].
  intros i k' Hl. by eapply key_get_unique.
Qed.

Lemma rotation_keeps_keys_unambiguous_witness :
  let st0 := ak_keys_init (replicate 4 zero_key) None (replicate 32 7) 1000 in
  let st1 := ak_key_rotate st0 (replicate 32 8) 86401000 in
  retired (ak_key_get_active st1) = false /\
  ak_key_get st1 (kid (ak_key_get_active st1)) = Some (ak_key_get_active st1).
Proof.
  intros st0 st1.
  destruct (rotation_keeps_keys_unambiguous (replicate 4 zero_key) None (replicate 32 7) 1000 st1)
    as (H1 & H2 & _).
  - reflexivity.
  - lia.
  - vm_compute. reflexivity.
  - eapply steps_snoc; [apply steps_refl|].
    apply (RStep st0 (replicate 32 8) 86401000); vm_compute; congruence.
  - split; [exact H1|exact H2].
Defined.

(** ** Persistence round trip *)

(** Membership in an explicit list. *)
Ltac elem_list := rewrite ?elem_of_cons; tauto.

Record wf_keys (st : key_state) : Prop := {
  wk_len : length (keys st) = AK_MAX_KEYS;
  wk_active : exists k, live (keys st) (active_kid st) k;
  wk_counter : 0 < key_counter st < M64;
  wk_kid : Forall (fun k => is_u8 (kid k)) (keys st);
  wk_secret : Forall (fun k => length (secret k) = 32%nat) (keys st);
  wk_distinct i j ki kj : live (keys st) i ki -> live (keys st) j kj -> kid ki = kid kj -> i = j
}.

(** What a restored key keeps. *)
Definition restored (k k' : ak_key) : Prop :=
  kid k' = kid k /\ retired k' = retired k /\ (retired k = false -> secret k' = secret k).

Lemma length_key_slot k : length (secret k) = 32%nat -> length (key_slot k) = 56%nat.
Proof.
  intros Hs. unfold key_slot. rewrite !length_app, !length_le_enc. destruct (retired k); simpl; lia.
Qed.

Lemma key_slot_flags k :
  key_slot k !!! 0%nat = kid k /\ key_slot k !!! 2%nat = (if retired k then 1 else 0).
Proof. done. Qed.

Lemma key_slot_secret k :
  length (secret k) = 32%nat -> retired k = false -> slice 24 32 (key_slot k) = secret k.
Proof.
  intros Hs Hr. unfold key_slot, slice. rewrite Hr, !app_assoc.
  rewrite drop_app_length' by (rewrite !length_app, !length_le_enc; done).
  by rewrite take_ge by lia.
Qed.

Lemma import_slot_restored a now_ms i k :
  length (secret k) = 32%nat -> restored k (import_slot a now_ms i (key_slot k)).
Proof.
  intros Hs. destruct (key_slot_flags k) as [E0 E2]. unfold import_slot, restored.
  rewrite E0, E2. destruct (retired k) eqn:Hr; simpl; [done|].
  rewrite key_slot_secret by done. done.
Qed.

Lemma kids_distinct_slots ks :
  (forall i j ki kj, live ks i ki -> live ks j kj -> kid ki = kid kj -> i = j) ->
  kids_distinct (key_slot <$> ks) = true.
Proof.
  induction ks as [|k ks IH]; intros Hd; [done|]. cbn [fmap list_fmap kids_distinct].
  rewrite IH.
  2: { intros i j ki kj Hi Hj E. apply (Hd (S i) (S j) ki kj) in E; [lia|done..]. }
  rewrite andb_true_r. destruct (key_slot_flags k) as [-> ->].
  destruct (retired k) eqn:Hr; [done|]. simpl. apply forallb_forall.
  intros sj Hin. apply list_elem_of_In, list_elem_of_fmap in Hin as (kj & -> & Hj).
  destruct (key_slot_flags kj) as [-> ->]. destruct (retired kj) eqn:Hrj; [done|]. simpl.
  apply negb_true_iff, Z.eqb_neq. intros E.
  apply list_elem_of_lookup in Hj as [j Hj].
  by apply (Hd (S j) 0%nat kj k) in E.
Qed.

Lemma blob_slots (hd tl s0 s1 s2 s3 : bytes) :
  length hd = 16%nat -> length s0 = 56%nat -> length s1 = 56%nat ->
  length s2 = 56%nat -> length s3 = 56%nat ->
  let p := hd ++ s0 ++ s1 ++ s2 ++ s3 ++ tl in
  blob_slot p 0 = Ret s0 /\ blob_slot p 1 = Ret s1 /\ blob_slot p 2 = Ret s2 /\
  blob_slot p 3 = Ret s3.
Proof.
  intros Hh H0 H1 H2 H3 p. subst p. unfold blob_slot, AK_KEYS_SLOT_SIZE.
  split; [apply rdn_app; lia|].
  split; [rewrite (app_assoc hd); apply rdn_app; rewrite ?length_app; lia|].
  split; [rewrite (app_assoc hd), (app_assoc (hd ++ s0)); apply rdn_app; rewrite ?length_app; lia|].
  rewrite (app_assoc hd), (app_assoc (hd ++ s0)), (app_assoc ((hd ++ s0) ++ s1)).
  apply rdn_app; rewrite ?length_app; lia.
Qed.

(** The 16-byte header of the blob. *)
Definition blob_header (a : nat) (counter : Z) : bytes :=
  le_enc 4 AK_KEYS_BLOB_MAGIC ++ [AK_KEYS_BLOB_VERSION; Z.of_nat a; 0; 0] ++ le_enc 8 counter.

Lemma import_blob a counter s0 s1 s2 s3 tl now_ms :
  (a < 4)%nat -> 0 < counter < M64 ->
  length s0 = 56%nat -> length s1 = 56%nat -> length s2 = 56%nat -> length s3 = 56%nat ->
  ([s0; s1; s2; s3] !!! a) !!! 2%nat = 0 -> kids_distinct [s0; s1; s2; s3] = true ->
  ak_keys_import (blob_header a counter ++ s0 ++ s1 ++ s2 ++ s3 ++ tl) now_ms =
  Ret (mk_key_state (imap (import_slot a now_ms) [s0; s1; s2; s3]) a now_ms counter).
Proof.
  intros Ha Hc H0 H1 H2 H3 Hact Hkd. unfold ak_keys_import.
  destruct (blob_slots (blob_header a counter) tl s0 s1 s2 s3) as (B0 & B1 & B2 & B3); [done..|].
  cbv zeta in *. set (p := blob_header a counter ++ s0 ++ s1 ++ s2 ++ s3 ++ tl) in *.
  assert (Hlen : (AK_KEYS_BLOB_SIZE <=? Z.of_nat (length p)) = true).
  { apply Z.leb_le. subst p. rewrite !length_app, H0, H1, H2, H3.
    unfold AK_KEYS_BLOB_SIZE. simpl. lia. }
  assert (E0 : rdn p 0 4 = Ret (le_enc 4 AK_KEYS_BLOB_MAGIC)).
  { subst p. unfold blob_header. rewrite <-!app_assoc. apply (rdn_app []); done. }
  assert (E4 : rd p 4 = Ret AK_KEYS_BLOB_VERSION).
  { subst p. unfold blob_header. rewrite <-!app_assoc. apply (rd_app (le_enc 4 _)); done. }
  assert (E5 : rd p 5 = Ret (Z.of_nat a)).
  { subst p. unfold blob_header. rewrite <-!app_assoc.
    apply (rd_app (le_enc 4 AK_KEYS_BLOB_MAGIC ++ [AK_KEYS_BLOB_VERSION])); done. }
  assert (E8 : rdn p 8 8 = Ret (le_enc 8 counter)).
  { subst p. unfold blob_header. rewrite <-!app_assoc, app_assoc. apply rdn_app; done. }
  assert (Er : rd p (16 + Z.of_nat a * AK_KEYS_SLOT_SIZE + 2) = Ret 0).
  { assert (Hs : blob_slot p a = Ret ([s0; s1; s2; s3] !!! a)).
    { do 4 (destruct a as [|a]; [done|]). lia. }
    rewrite (rd_of_rdn _ _ _ _ 2 Hs) by (unfold AK_KEYS_SLOT_SIZE; lia).
    change (Z.to_nat 2) with 2%nat. by rewrite Hact. }
  rewrite Hlen, E0. cbn [obind].
  rewrite le_dec_enc by (vm_compute; split; congruence).
  rewrite Z.eqb_refl, E4. cbn [obind]. rewrite Z.eqb_refl, E5. cbn [obind].
  rewrite Nat2Z.id, (proj2 (Nat.ltb_lt a AK_MAX_KEYS)), Er by (unfold AK_MAX_KEYS; lia).
  cbn [obind]. rewrite Z.eqb_refl, B0. cbn [obind]. rewrite B1. cbn [obind].
  rewrite B2. cbn [obind]. rewrite B3. cbn [obind]. rewrite Hkd, E8. cbn [obind].
  rewrite le_dec_enc by lia. by destruct (Z.eqb_spec counter 0); [lia|].
Qed.

(** a key set survives a reboot.  Importing the blob exported from a
    well-formed key state succeeds (at any later boot time, with trailing bytes
    after the blob ignored) and restores the active slot, the key counter, and
    every key's id, retirement flag and (for a live key) secret. *)
Theorem keys_export_import st tl now_ms :
  wf_keys st ->
  exists st', ak_keys_import (ak_keys_export st ++ tl) now_ms = Ret st' /\
    active_kid st' = active_kid st /\ key_counter st' = key_counter st /\
    Forall2 restored (keys st) (keys st').
Proof.
  intros [Hlen [ka Hact] Hcnt Hkid Hsec Hdist]. unfold AK_MAX_KEYS in Hlen.
  destruct st as [ks a last cnt]. cbn [keys active_kid last_rotation_ms key_counter] in *.
  assert (Ha : (a < 4)%nat) by (rewrite <-Hlen; eapply lookup_lt_Some, Hact).
  pose proof (kids_distinct_slots ks Hdist) as Hkd.
  assert (Hflag : ((key_slot <$> ks) !!! a) !!! 2%nat = 0).
  { destruct Hact as [Hk Hr].
    rewrite (list_lookup_total_correct _ a (key_slot ka)) by (by rewrite list_lookup_fmap, Hk).
    by rewrite (proj2 (key_slot_flags _)), Hr. }
  assert (Hl : forall k, k ∈ ks -> length (key_slot k) = 56%nat).
  { intros k Hk. apply length_key_slot. by apply (proj1 (list.Forall_forall _ _) Hsec). }
  assert (Hres : forall i k, k ∈ ks -> restored k (import_slot a now_ms i (key_slot k))).
  { intros i k Hk. apply import_slot_restored. by apply (proj1 (list.Forall_forall _ _) Hsec). }
  destruct ks as [|k0 [|k1 [|k2 [|k3 [|]]]]]; try (simpl in Hlen; lia).
  eexists. split; [|split; [|split]].
  - assert (E : ak_keys_export (mk_key_state [k0; k1; k2; k3] a last cnt) ++ tl =
      blob_header a cnt ++ key_slot k0 ++ key_slot k1 ++ key_slot k2 ++ key_slot k3 ++ tl).
    { unfold ak_keys_export, blob_header. cbn [keys active_kid key_counter fmap list_fmap concat].
      by rewrite app_nil_r, <-!app_assoc. }
    rewrite E.
    apply import_blob; [done|done|apply Hl; elem_list..|done|done].
  - done.
  - done.
  - cbn [keys imap Datatypes.length]. repeat constructor; apply Hres; elem_list.
Qed.

(** importing an arbitrary blob never reads outside it, and what is
    accepted has four slots of which the active one is live: malformed blobs
    are rejected before any key is touched. *)
Theorem keys_import_safe p now_ms :
  wf_bytes p ->
  match ak_keys_import p now_ms with
  | Ret st => length (keys st) = AK_MAX_KEYS /\ exists k, live (keys st) (active_kid st) k
  | Null => True
  | Oob => False
  end.
Proof.
  intros Hwf. unfold ak_keys_import, AK_KEYS_BLOB_SIZE.
  destruct (Z.leb_spec 240 (Z.of_nat (length p))) as [Hlen|]; [|done].
  destruct (rdn_in_bounds p 0 4) as (m & -> & _); [lia..|]. cbn [obind].
  destruct (le_dec m =? _); [|done].
  destruct (rd_in_bounds p 4) as (v & ->); [lia|]. cbn [obind].
  destruct (v =? _); [|done].
  destruct (rd_in_bounds p 5) as (a & Ea); [lia|]. rewrite Ea. cbn [obind].
  assert (Ha : 0 <= a) by (apply (rd_wf p 5 a Hwf Ea)).
  destruct (Nat.ltb_spec (Z.to_nat a) AK_MAX_KEYS) as [Hs|]; [|done]. unfold AK_MAX_KEYS in Hs.
  assert (Hslot : forall i, (i < 4)%nat -> exists s, blob_slot p i = Ret s).
  { intros i Hi. unfold blob_slot, AK_KEYS_SLOT_SIZE.
    destruct (rdn_in_bounds p (16 + Z.of_nat i * 56) 56) as (s & -> & _); [lia..|eauto]. }
  destruct (Hslot (Z.to_nat a) Hs) as [sa Hsa].
  replace (16 + a * AK_KEYS_SLOT_SIZE) with (16 + Z.of_nat (Z.to_nat a) * AK_KEYS_SLOT_SIZE)
    by (rewrite Z2Nat.id; lia).
  rewrite (rd_of_rdn _ _ _ _ 2 Hsa) by (unfold AK_KEYS_SLOT_SIZE; lia). cbn [obind].
  destruct (Z.eqb_spec (sa !!! Z.to_nat 2) 0) as [Hlive|]; [|done].
  destruct (Hslot 0%nat) as [s0 E0]; [lia|]. destruct (Hslot 1%nat) as [s1 E1]; [lia|].
  destruct (Hslot 2%nat) as [s2 E2]; [lia|]. destruct (Hslot 3%nat) as [s3 E3]; [lia|].
  rewrite E0. cbn [obind]. rewrite E1. cbn [obind]. rewrite E2. cbn [obind]. rewrite E3.
  cbn [obind]. destruct (kids_distinct _); [|done].
  destruct (rdn_in_bounds p 8 8) as (c & -> & _); [lia..|]. cbn [obind].
  split; [done|]. cbn [keys active_kid].
  exists (import_slot (Z.to_nat a) now_ms (Z.to_nat a) sa).
  set (a' := Z.to_nat a) in *. clearbody a'. unfold live. rewrite list_lookup_imap.
  assert (Hsa' : [s0; s1; s2; s3] !! a' = Some sa).
  { do 4 (destruct a' as [|a']; [simpl; congruence|]). lia. }
  rewrite Hsa'. split; [done|]. unfold import_slot.
  change (Z.to_nat 2) with 2%nat in Hlive. by rewrite Hlive.
Qed.

Definition demo_keys : key_state :=
  ak_keys_init (replicate 4 zero_key) None (replicate 32 7) 1000.

Lemma demo_keys_wf : wf_keys demo_keys.
Proof.
  constructor.
  - reflexivity.
  - eexists. split; vm_compute; reflexivity.
  - vm_compute. split; reflexivity.
  - apply (bool_decide_unpack _). vm_compute. exact I.
  - apply (bool_decide_unpack _). vm_compute. exact I.
  - intros [|[|[|[|i]]]] [|[|[|[|j]]]] ki kj [Hi Hri] [Hj Hrj] _; simpl in *; simplify_eq/=; done.
Qed.

Lemma keys_export_import_witness :
  exists st', ak_keys_import (ak_keys_export demo_keys ++ [1; 2]) 5 = Ret st' /\
    active_kid st' = active_kid demo_keys /\ key_counter st' = key_counter demo_keys /\
    Forall2 restored (keys demo_keys) (keys st').
Proof. exact (keys_export_import demo_keys [1; 2] 5 demo_keys_wf). Defined.

Lemma keys_import_safe_witness :
  wf_bytes (zeros 240) /\
  match ak_keys_import (zeros 240) 5 with
  | Ret st => length (keys st) = AK_MAX_KEYS /\ exists k, live (keys st) (active_kid st) k
  | Null => True
  | Oob => False
  end.
Proof. split; [apply wf_zeros|exact (keys_import_safe (zeros 240) 5 (wf_zeros 240))]. Defined.

(** ** The [active] flag

    When the active key itself has expired, its slot is the first retired one,
    and the new key is written there: the final "deactivate the old active key"
    then clears the flag of the new key.  [ak_key_get_active] does not look at
    the flag, so signing still works, but no key of the array is marked
    active. *)
Example rotation_clears_new_active_flag :
  let st := ak_key_rotate demo_keys (replicate 32 8) 500000000 in
  active_kid st = 0%nat /\ retired (ak_key_get_active st) = false /\
  forallb (fun k => negb (active k)) (keys st) = true.
Proof. vm_compute. repeat split. Qed.
