(* ===== verification/TokenTable.v ===== *)
(** * Tables keyed by token id ([src/src/agentic/ak_capability.c])

    The revocation table and the rate-limit table have the same shape: a
    runtime [table] from the 64-bit hash of a token id to a chain of entries,
    told apart by the full 16-byte id.  This file models that shape once, as a
    finite map from hashes to chains, for any entry type with a token id, and
    proves that it behaves as a map keyed by the id itself, hash collisions
    included. *)

From S2P Require Import Prelude Crypto.

Class HasTid (E : Type) := tid_of : E -> bytes.

Section Table.
Context {E : Type} `{HasTid E}.

(** Search of one chain ([ak_revocation_find_locked], [ak_rate_find_locked]). *)
Fixpoint chain_find (c : list E) (tid : bytes) : option E :=
  match c with
  | [] => None
  | e :: c' => if ak_token_id_equal (tid_of e) tid then Some e else chain_find c' tid
  end.

Definition table_find_tid (t : gmap Z (list E)) (tid : bytes) : option E :=
  match t !! ak_tid_hash tid with
  | Some c => chain_find c tid
  | None => None
  end.

(** Chaining a new entry in front of the colliding ones. *)
Definition table_chain (t : gmap Z (list E)) (tid : bytes) (e : E) : gmap Z (list E) :=
  <[ak_tid_hash tid := e :: default [] (t !! ak_tid_hash tid)]> t.

(** In-place update of the entry found. *)
Fixpoint chain_update (f : E -> E) (c : list E) (tid : bytes) : list E :=
  match c with
  | [] => []
  | e :: c' => if ak_token_id_equal (tid_of e) tid then f e :: c' else e :: chain_update f c' tid
  end.
Definition table_update (f : E -> E) (t : gmap Z (list E)) (tid : bytes) : gmap Z (list E) :=
  alter (fun c => chain_update f c tid) (ak_tid_hash tid) t.

(** The sweep: every chain keeps the entries satisfying [keep]; an emptied
    chain is removed from the table. *)
Definition table_sweep (keep : E -> bool) (t : gmap Z (list E)) : gmap Z (list E) :=
  omap (fun c => match filter (fun e => keep e = true) c with [] => None | c' => Some c' end) t.

(** Number of entries. *)
Definition table_count (t : gmap Z (list E)) : nat :=
  map_fold (fun _ c n => (length c + n)%nat) 0%nat t.

(** ** Well-formed tables *)

Definition wf_chain (h : Z) (c : list E) : Prop :=
  c <> [] /\ Forall (fun e => ak_tid_hash (tid_of e) = h /\ length (tid_of e) = 16%nat) c /\
  NoDup (tid_of <$> c).

Definition wf_table (t : gmap Z (list E)) : Prop :=
  forall h c, t !! h = Some c -> wf_chain h c.

Lemma wf_table_empty : wf_table ∅.
Proof. intros h c Ec. by rewrite lookup_empty in Ec. Qed.

Lemma chain_find_None c tid :
  length tid = 16%nat -> Forall (fun e => length (tid_of e) = 16%nat) c ->
  chain_find c tid = None <-> tid ∉ (tid_of <$> c).
Proof.
  intros Ht Hc. induction Hc as [|e c He Hc IH]; simpl; [split; [intros _; apply not_elem_of_nil|done]|].
  rewrite not_elem_of_cons. destruct (ak_token_id_equal _ _) eqn:Eq.
  - apply token_id_equalP in Eq; [|done..]. subst. split; [done|naive_solver].
  - rewrite IH. assert (tid <> tid_of e).
    { intros ->. by rewrite token_id_equal_refl in Eq. }
    naive_solver.
Qed.

Lemma chain_find_Some c tid e :
  length tid = 16%nat -> Forall (fun e => length (tid_of e) = 16%nat) c ->
  chain_find c tid = Some e -> e ∈ c /\ tid_of e = tid.
Proof.
  intros Ht Hc. induction Hc as [|x c Hx Hc IH]; simpl; [done|].
  destruct (ak_token_id_equal _ _) eqn:Eq.
  - apply token_id_equalP in Eq; [|done..]. intros [= <-]. split; [left|done].
  - intros Hf. destruct (IH Hf). split; [by right|done].
Qed.

Lemma wf_chain_len h c : wf_chain h c -> Forall (fun e => length (tid_of e) = 16%nat) c.
Proof. intros (_ & Hf & _). eapply Forall_impl; [exact Hf|]. naive_solver. Qed.

Lemma table_find_tid_of t tid e :
  wf_table t -> length tid = 16%nat -> table_find_tid t tid = Some e -> tid_of e = tid.
Proof.
  intros Hwf Ht. unfold table_find_tid. destruct (t !! _) as [c|] eqn:Ec; [|done].
  intros Hf. apply chain_find_Some in Hf; [tauto|done|]. by eapply wf_chain_len, Hwf.
Qed.

(** *** Insertion *)

Lemma find_chain_same t tid e : tid_of e = tid -> table_find_tid (table_chain t tid e) tid = Some e.
Proof.
  intros <-. unfold table_find_tid, table_chain. rewrite lookup_insert_eq. simpl.
  by rewrite token_id_equal_refl.
Qed.

Lemma find_chain_other t tid tid' e :
  tid_of e = tid -> length tid = 16%nat -> length tid' = 16%nat -> tid <> tid' ->
  table_find_tid (table_chain t tid e) tid' = table_find_tid t tid'.
Proof.
  intros <- Ht Ht' Hne. unfold table_find_tid, table_chain.
  destruct (decide (ak_tid_hash (tid_of e) = ak_tid_hash tid')) as [Eh|Eh].
  - rewrite Eh, lookup_insert_eq. simpl. destruct (ak_token_id_equal _ _) eqn:Eq.
    + apply token_id_equalP in Eq; done.
    + by destruct (t !! _).
  - by rewrite lookup_insert_ne.
Qed.

Lemma wf_table_chain t tid e :
  wf_table t -> tid_of e = tid -> length tid = 16%nat -> table_find_tid t tid = None ->
  wf_table (table_chain t tid e).
Proof.
  intros Hwf <- Ht Hnone h c. unfold table_chain.
  rewrite lookup_insert. case_decide as Eh; [|apply Hwf].
  intros [= <-]. subst h. unfold table_find_tid in Hnone.
  destruct (t !! ak_tid_hash (tid_of e)) as [c|] eqn:Ec; simpl.
  - destruct (Hwf _ _ Ec) as (_ & Hf & Hnd). split; [done|]. split; [by constructor|].
    simpl. constructor; [|done]. apply chain_find_None; [done| |done]. by eapply wf_chain_len, Hwf.
  - split; [done|]. split; [by repeat constructor|]. simpl. repeat constructor. apply not_elem_of_nil.
Qed.

(** *** Sweep *)

Lemma chain_find_filter keep h c tid :
  wf_chain h c -> length tid = 16%nat ->
  chain_find (filter (fun e => keep e = true) c) tid =
    match chain_find c tid with Some e => if keep e then Some e else None | None => None end.
Proof.
  intros (_ & Hf & Hnd) Ht. revert Hnd. induction Hf as [|e c [_ He] Hc IH]; intros Hnd; [done|].
  apply NoDup_cons in Hnd as [Hni Hnd]. specialize (IH Hnd). simpl.
  rewrite filter_cons. destruct (ak_token_id_equal (tid_of e) tid) eqn:Eq.
  - destruct (keep e) eqn:Ek.
    + rewrite decide_True by done. simpl. by rewrite Eq.
    + rewrite decide_False by done. rewrite IH.
      apply token_id_equalP in Eq as Et; [|done..].
      rewrite (proj2 (chain_find_None c tid Ht ltac:(eapply Forall_impl; [exact Hc|naive_solver]))); [done|].
      by rewrite <-Et.
  - case_decide; simpl; [by rewrite Eq|done].
Qed.

Lemma find_sweep keep t tid :
  wf_table t -> length tid = 16%nat ->
  table_find_tid (table_sweep keep t) tid =
    match table_find_tid t tid with Some e => if keep e then Some e else None | None => None end.
Proof.
  intros Hwf Ht. unfold table_find_tid, table_sweep. rewrite lookup_omap.
  destruct (t !! ak_tid_hash tid) as [c|] eqn:Ec; simpl; [|done].
  rewrite <-(chain_find_filter keep _ c tid (Hwf _ _ Ec) Ht).
  by destruct (filter _ c).
Qed.

Lemma wf_table_sweep keep t : wf_table t -> wf_table (table_sweep keep t).
Proof.
  intros Hwf h c. unfold table_sweep. rewrite lookup_omap.
  destruct (t !! h) as [c0|] eqn:Ec; simpl; [|done].
  destruct (filter _ c0) as [|x c1] eqn:Ef; [done|]. intros [= <-].
  destruct (Hwf _ _ Ec) as (_ & Hf & Hnd). rewrite <-Ef. split; [by rewrite Ef|]. split.
  - apply list.Forall_forall. intros e [_ He]%list_elem_of_filter.
    by apply (proj1 (list.Forall_forall _ _) Hf).
  - eapply sublist_NoDup; [exact Hnd|]. apply fmap_sublist, sublist_filter.
Qed.

(** *** In-place update *)

Section Update.
Context (f : E -> E) (Hf : forall e, tid_of (f e) = tid_of e).

Lemma chain_update_tids c tid : tid_of <$> chain_update f c tid = tid_of <$> c.
Proof.
  induction c as [|e c IH]; simpl; [done|].
  destruct (ak_token_id_equal _ _); cbn [fmap list_fmap]; [by rewrite Hf|by f_equal].
Qed.

Lemma chain_find_update_same c tid :
  chain_find (chain_update f c tid) tid = f <$> chain_find c tid.
Proof.
  induction c as [|e c IH]; simpl; [done|].
  destruct (ak_token_id_equal _ _) eqn:Eq; simpl; [by rewrite Hf, Eq|by rewrite Eq].
Qed.

Lemma chain_find_update_other c tid tid' :
  length tid = 16%nat -> length tid' = 16%nat -> tid <> tid' ->
  Forall (fun e => length (tid_of e) = 16%nat) c ->
  chain_find (chain_update f c tid) tid' = chain_find c tid'.
Proof.
  intros Ht Ht' Hne Hc. induction Hc as [|e c He Hc IH]; simpl; [done|].
  destruct (ak_token_id_equal (tid_of e) tid) eqn:Eq; simpl.
  - apply token_id_equalP in Eq; [|done..]. rewrite Hf. rewrite <-Eq in Hne.
    destruct (ak_token_id_equal (tid_of e) tid') eqn:Eq'; [|done].
    apply token_id_equalP in Eq'; done.
  - destruct (ak_token_id_equal (tid_of e) tid'); done.
Qed.

Lemma find_update_same t tid : table_find_tid (table_update f t tid) tid = f <$> table_find_tid t tid.
Proof.
  unfold table_find_tid, table_update. rewrite lookup_alter_eq.
  destruct (t !! _); simpl; [apply chain_find_update_same|done].
Qed.

Lemma find_update_other t tid tid' :
  wf_table t -> length tid = 16%nat -> length tid' = 16%nat -> tid <> tid' ->
  table_find_tid (table_update f t tid) tid' = table_find_tid t tid'.
Proof.
  intros Hwf Ht Ht' Hne. unfold table_find_tid, table_update.
  destruct (decide (ak_tid_hash tid = ak_tid_hash tid')) as [->|Eh].
  - rewrite lookup_alter_eq. destruct (t !! _) as [c|] eqn:Ec; simpl; [|done].
    apply chain_find_update_other; [done..|]. by eapply wf_chain_len, Hwf.
  - by rewrite lookup_alter_ne.
Qed.

Lemma chain_update_len c tid : length (chain_update f c tid) = length c.
Proof. rewrite <-(length_fmap tid_of), chain_update_tids. apply length_fmap. Qed.

Lemma wf_table_update t tid : wf_table t -> wf_table (table_update f t tid).
Proof.
  intros Hwf h c. unfold table_update. rewrite lookup_alter.
  case_decide as Eh; [|apply Hwf]. subst h. destruct (t !! _) as [c0|] eqn:Ec; simpl; [|done].
  intros [= <-]. destruct (Hwf _ _ Ec) as (Hne & Hfa & Hnd).
  split; [|split].
  - intros E0. apply (f_equal length) in E0. rewrite chain_update_len in E0.
    destruct c0; simplify_eq/=.
  - assert (Hx : Forall (fun x => ak_tid_hash x = ak_tid_hash tid /\ length x = 16%nat) (tid_of <$> c0))
      by (apply Forall_fmap; exact Hfa).
    rewrite <-(chain_update_tids c0 tid) in Hx. by apply Forall_fmap in Hx.
  - by rewrite chain_update_tids.
Qed.
End Update.

(** *** Counting *)

Lemma table_count_insert t h c :
  t !! h = None -> table_count (<[h := c]> t) = (length c + table_count t)%nat.
Proof.
  intros Hn. unfold table_count.
  rewrite (map_fold_insert_L (fun _ (c : list E) n => (length c + n)%nat)); [done| |done].
  intros. lia.
Qed.

Lemma table_count_chain t tid e : table_count (table_chain t tid e) = S (table_count t).
Proof.
  unfold table_chain. destruct (t !! ak_tid_hash tid) as [c|] eqn:Ec; simpl.
  - rewrite <-(insert_delete_id t _ c Ec) at 2. rewrite <-insert_delete_eq.
    rewrite !table_count_insert by apply lookup_delete_eq. simpl. lia.
  - rewrite table_count_insert by done. done.
Qed.

Lemma table_count_sweep keep t : (table_count (table_sweep keep t) <= table_count t)%nat.
Proof.
  induction t as [|h c t Hn IH] using map_ind; [done|].
  rewrite table_count_insert by done. unfold table_sweep in *.
  destruct (filter (fun e => keep e = true) c) as [|x c'] eqn:Ef.
  - rewrite omap_insert_None by (by rewrite Ef).
    rewrite delete_id by (by rewrite lookup_omap, Hn). lia.
  - rewrite (omap_insert_Some _ _ _ _ (x :: c')) by (by rewrite Ef).
    rewrite table_count_insert by (by rewrite lookup_omap, Hn).
    pose proof (length_filter (fun e => keep e = true) c) as Hl. rewrite Ef in Hl. lia.
Qed.

Lemma table_count_update f t tid :
  (forall e, tid_of (f e) = tid_of e) -> table_count (table_update f t tid) = table_count t.
Proof.
  intros Hf. unfold table_update. destruct (t !! ak_tid_hash tid) as [c|] eqn:Ec.
  - rewrite <-(insert_delete_id t _ c Ec), alter_insert_eq.
    rewrite !table_count_insert by apply lookup_delete_eq. by rewrite chain_update_len.
  - rewrite alter_id; [done|]. intros c Hc. congruence.
Qed.

End Table.
