(* ===== verification/Revocation.v ===== *)
(** * Revocation and rate limiting ([src/src/agentic/ak_capability.c])

    The two tables of the capability subsystem, on top of [TokenTable].  Every
    operation runs under [ak_cap_state.lock]; the clock and the outcome of
    allocations are arguments.

    Theorems: a revoked token stays revoked for as long as it could verify,
    through every later insertion and expiry sweep; the rate limiter admits at
    most the limit per window, whatever other tokens do; its table is bounded. *)

From S2P Require Import Prelude Crypto Keys TokenTable.

Definition AK_MAX_CAP_TTL_MS : Z := 604800000.
Definition AK_RATE_MAX_ENTRIES : Z := 4096.
Definition AK_REVOCATION_SWEEP_THRESHOLD : Z := 1024.
Definition AK_REVOCATION_RETAIN_MS : Z := AK_MAX_CAP_TTL_MS + AK_KEY_ROTATION_MS.

(** ** Revocation *)

Record ak_revocation_entry := mk_rev {
  rev_tid : bytes;
  revoked_ms : Z;
  reason : option bytes
}.
#[global] Instance rev_has_tid : HasTid ak_revocation_entry := rev_tid.

(** [ak_cap_state.revocations] and [revocation_count]. *)
Record rev_state := mk_rev_state {
  revocations : gmap Z (list ak_revocation_entry);
  revocation_count : Z
}.

Definition ak_revocation_find_locked (st : rev_state) (tid : bytes) : option ak_revocation_entry :=
  table_find_tid (revocations st) tid.

Definition ak_revocation_check (st : rev_state) (tid : bytes) : bool :=
  match ak_revocation_find_locked st tid with Some _ => true | None => false end.

Definition ak_revocation_sweep_locked (st : rev_state) (now_ms : Z) : rev_state :=
  if now_ms <? AK_REVOCATION_RETAIN_MS then st
  else
    let cutoff := u64 (now_ms - AK_REVOCATION_RETAIN_MS) in
    let t' := table_sweep (fun e => negb (revoked_ms e <? cutoff)) (revocations st) in
    mk_rev_state t'
      (u64 (revocation_count st - Z.of_nat (table_count (revocations st) - table_count t'))).

(** Insertion, with the opportunistic sweep; [alloc] is the allocation of the
    entry. *)
Definition ak_revocation_insert_locked (st : rev_state) (tid : bytes) (rev_ms : Z)
    (why : option bytes) (now_ms : Z) (alloc : bool) : bool * rev_state :=
  match ak_revocation_find_locked st tid with
  | Some _ => (false, st)
  | None =>
      let st := if AK_REVOCATION_SWEEP_THRESHOLD <=? revocation_count st
                then ak_revocation_sweep_locked st now_ms else st in
      if alloc then
        (true, mk_rev_state (table_chain (revocations st) tid (mk_rev tid rev_ms why))
                 (u64 (revocation_count st + 1)))
      else (false, st)
  end.

(** Replay of the audit log's revocation entries
    ([ak_revocation_load_from_log]): [entries] are the (token id, timestamp)
    pairs the log query returns, each with the outcome of its allocations; the
    count of replayed entries is the first result. *)
Definition recovered_reason : bytes := B"(recovered from log)".

Fixpoint replay_entries (st : rev_state) (entries : list (bytes * Z * bool * bool)) (now_ms : Z)
    : Z * rev_state :=
  match entries with
  | [] => (0, st)
  | (tid, ts, alloc_reason, alloc) :: rest =>
      let why := if alloc_reason : bool then Some recovered_reason else None in
      let '(ins, st1) := ak_revocation_insert_locked st tid ts why now_ms alloc in
      let '(n, st2) := replay_entries st1 rest now_ms in
      ((if ins : bool then 1 else 0) + n, st2)
  end.

(** ** Rate limiting *)

Record rate_counter := mk_counter {
  rc_tid : bytes;
  rc_count : Z;
  rc_window_ms : Z;
  rc_window_start_ms : Z
}.
#[global] Instance rate_has_tid : HasTid rate_counter := rc_tid.

Record rate_state := mk_rate_state {
  rate_counters : gmap Z (list rate_counter);
  rate_entry_count : Z
}.

Definition ak_rate_find_locked (st : rate_state) (tid : bytes) : option rate_counter :=
  table_find_tid (rate_counters st) tid.

Definition window_expired (now_ms : Z) (c : rate_counter) : bool :=
  rc_window_ms c <? u64 (now_ms - rc_window_start_ms c).

Definition ak_rate_sweep_locked (st : rate_state) (now_ms : Z) : rate_state :=
  let t' := table_sweep (fun c => negb (window_expired now_ms c)) (rate_counters st) in
  mk_rate_state t'
    (u64 (rate_entry_count st - Z.of_nat (table_count (rate_counters st) - table_count t'))).

(** The counter of the token, made when it is missing; [None] denies. *)
Definition rate_get_counter (st : rate_state) (tid : bytes) (window_ms now_ms : Z) (alloc : bool)
    : option (rate_counter * rate_state) :=
  match ak_rate_find_locked st tid with
  | Some c => Some (c, st)
  | None =>
      let st := if AK_RATE_MAX_ENTRIES <=? rate_entry_count st
                then ak_rate_sweep_locked st now_ms else st in
      if AK_RATE_MAX_ENTRIES <=? rate_entry_count st then None
      else if alloc then
        let c := mk_counter tid 0 window_ms now_ms in
        Some (c, mk_rate_state (table_chain (rate_counters st) tid c) (u64 (rate_entry_count st + 1)))
      else None
  end.

(** Window bookkeeping of one call on the counter. *)
Definition rate_refresh (window_ms now_ms : Z) (c : rate_counter) : rate_counter :=
  if window_ms <? u64 (now_ms - rc_window_start_ms c)
  then mk_counter (rc_tid c) 0 window_ms now_ms
  else mk_counter (rc_tid c) (rc_count c) window_ms (rc_window_start_ms c).

Definition rate_bump (c : rate_counter) : rate_counter :=
  mk_counter (rc_tid c) (u32 (rc_count c + 1)) (rc_window_ms c) (rc_window_start_ms c).

(** The state left behind by a denial: a failed call on a missing counter may
    have swept the table. *)
Definition rate_denied_state (st : rate_state) (tid : bytes) (now_ms : Z) : rate_state :=
  match ak_rate_find_locked st tid with
  | Some _ => st
  | None => if AK_RATE_MAX_ENTRIES <=? rate_entry_count st
            then ak_rate_sweep_locked st now_ms else st
  end.

Definition ak_rate_limit_check (st : rate_state) (tid : bytes) (limit window_ms now_ms : Z)
    (alloc : bool) : bool * rate_state :=
  match rate_get_counter st tid window_ms now_ms alloc with
  | None => (false, rate_denied_state st tid now_ms)
  | Some (c, st1) =>
      let c1 := rate_refresh window_ms now_ms c in
      let st2 := mk_rate_state (table_update (rate_refresh window_ms now_ms) (rate_counters st1) tid)
                   (rate_entry_count st1) in
      if limit <=? rc_count c1 then (false, st2)
      else (true, mk_rate_state (table_update rate_bump (rate_counters st2) tid)
                    (rate_entry_count st2))
  end.

Definition ak_rate_limit_reset (st : rate_state) (tid : bytes) : rate_state :=
  match ak_rate_find_locked st tid with
  | Some _ =>
      mk_rate_state
        (table_update (fun c => mk_counter (rc_tid c) 0 (rc_window_ms c) (rc_window_start_ms c))
           (rate_counters st) tid) (rate_entry_count st)
  | None => st
  end.

(** ** Revocation is final *)

Definition wf_rev (st : rev_state) : Prop :=
  wf_table (revocations st) /\ revocation_count st = Z.of_nat (table_count (revocations st)).

Lemma wf_rev_sweep st now_ms :
  wf_rev st -> Z.of_nat (table_count (revocations st)) < M64 -> wf_rev (ak_revocation_sweep_locked st now_ms).
Proof.
  intros [Hwf Hc] Hb. unfold ak_revocation_sweep_locked. destruct (_ <? _); [done|].
  split; simpl; [by apply wf_table_sweep|].
  pose proof (table_count_sweep (fun e => negb (revoked_ms e <? u64 (now_ms - AK_REVOCATION_RETAIN_MS)))
    (revocations st)). unfold u64 at 1. rewrite Hc, Z.mod_small; lia.
Qed.

(** A recorded revocation is retained by a sweep unless it is older than the
    retention period. *)
Lemma sweep_retains st now_ms tid e :
  wf_table (revocations st) -> length tid = 16%nat -> 0 <= now_ms < M64 ->
  ak_revocation_find_locked st tid = Some e -> now_ms <= revoked_ms e + AK_REVOCATION_RETAIN_MS ->
  ak_revocation_find_locked (ak_revocation_sweep_locked st now_ms) tid = Some e.
Proof.
  intros Hwf Ht Hn Hf Hr. unfold ak_revocation_find_locked, ak_revocation_sweep_locked in *.
  destruct (Z.ltb_spec now_ms AK_REVOCATION_RETAIN_MS) as [|Hge]; [done|].
  cbn [revocations]. rewrite find_sweep, Hf by done.
  assert (AK_REVOCATION_RETAIN_MS = 691200000) as Hc by done. unfold u64.
  rewrite Z.mod_small by lia. destruct (Z.ltb_spec (revoked_ms e) (now_ms - AK_REVOCATION_RETAIN_MS)); [lia|done].
Qed.

(** The operations that run after a revocation. *)
Inductive rev_op :=
| OpInsert (tid : bytes) (rev_ms : Z) (why : option bytes) (alloc : bool)
| OpSweep.

Definition rev_apply (st : rev_state) (o : rev_op) (now_ms : Z) : rev_state :=
  match o with
  | OpInsert tid ms why alloc => snd (ak_revocation_insert_locked st tid ms why now_ms alloc)
  | OpSweep => ak_revocation_sweep_locked st now_ms
  end.

Definition op_wf (o : rev_op) : Prop :=
  match o with OpInsert tid _ _ _ => length tid = 16%nat | OpSweep => True end.

Fixpoint rev_run (st : rev_state) (ops : list (rev_op * Z)) : rev_state :=
  match ops with
  | [] => st
  | (o, now_ms) :: rest => rev_run (rev_apply st o now_ms) rest
  end.

Lemma wf_table_rev_sweep st now_ms :
  wf_table (revocations st) -> wf_table (revocations (ak_revocation_sweep_locked st now_ms)).
Proof.
  intros Hwf. unfold ak_revocation_sweep_locked. destruct (_ <? _); [done|]. by apply wf_table_sweep.
Qed.

Lemma insert_sweep_cases st now_ms :
  (if AK_REVOCATION_SWEEP_THRESHOLD <=? revocation_count st
   then ak_revocation_sweep_locked st now_ms else st) = st \/
  (if AK_REVOCATION_SWEEP_THRESHOLD <=? revocation_count st
   then ak_revocation_sweep_locked st now_ms else st) = ak_revocation_sweep_locked st now_ms.
Proof. destruct (_ <=? _); auto. Qed.

Lemma find_sweep_None st now_ms tid :
  wf_table (revocations st) -> length tid = 16%nat -> ak_revocation_find_locked st tid = None ->
  ak_revocation_find_locked (ak_revocation_sweep_locked st now_ms) tid = None.
Proof.
  unfold ak_revocation_find_locked, ak_revocation_sweep_locked. intros Hwf Ht Hf.
  destruct (_ <? _); [done|]. cbn [revocations]. by rewrite find_sweep, Hf.
Qed.

Lemma rev_apply_wf st o now_ms :
  wf_table (revocations st) -> op_wf o -> wf_table (revocations (rev_apply st o now_ms)).
Proof.
  intros Hwf Ho. destruct o as [tid ms why alloc|]; simpl in *; [|by apply wf_table_rev_sweep].
  unfold ak_revocation_insert_locked.
  destruct (ak_revocation_find_locked st tid) eqn:Hf; [done|].
  destruct (insert_sweep_cases st now_ms) as [-> | ->]; destruct alloc; simpl; try done.
  - by apply wf_table_chain.
  - apply wf_table_chain; [by apply wf_table_rev_sweep|done..|]. by apply find_sweep_None.
  - by apply wf_table_rev_sweep.
Qed.

Lemma rev_apply_keeps st o now_ms tid e :
  wf_table (revocations st) -> op_wf o -> length tid = 16%nat -> 0 <= now_ms < M64 ->
  now_ms <= revoked_ms e + AK_REVOCATION_RETAIN_MS ->
  ak_revocation_find_locked st tid = Some e ->
  ak_revocation_find_locked (rev_apply st o now_ms) tid = Some e.
Proof.
  intros Hwf Ho Ht Hn Hr Hf. destruct o as [tid' ms why alloc|]; simpl in *; [|by apply sweep_retains].
  unfold ak_revocation_insert_locked.
  destruct (ak_revocation_find_locked st tid') eqn:Hf'; [done|].
  assert (Hne : tid' <> tid) by congruence.
  assert (Hs : ak_revocation_find_locked (ak_revocation_sweep_locked st now_ms) tid = Some e)
    by (by apply sweep_retains).
  destruct (insert_sweep_cases st now_ms) as [-> | ->]; destruct alloc; simpl; try done;
    unfold ak_revocation_find_locked in *; cbn [revocations]; by rewrite find_chain_other.
Qed.

(** C14: revocation is final.  Once a token id is in the revocation table with
    revocation time [revoked_ms], no later sequence of insertions (of any
    tokens, hash collisions included) and expiry sweeps makes
    [ak_revocation_check] forget it while a capability issued at or before the
    revocation, whose lifetime is at most the maximum, could still pass its
    expiry check. *)
Theorem revoked_stays_revoked st ops tid e issued ttl now_ms :
  wf_table (revocations st) -> length tid = 16%nat ->
  ak_revocation_find_locked st tid = Some e -> issued <= revoked_ms e ->
  0 <= ttl <= AK_MAX_CAP_TTL_MS -> now_ms <= issued + ttl ->
  Forall (fun p => op_wf (fst p) /\ 0 <= snd p < M64 /\ snd p <= now_ms) ops ->
  ak_revocation_check (rev_run st ops) tid = true.
Proof.
  intros Hwf Ht Hf Hi Httl Hnow Hops. unfold ak_revocation_check.
  enough (ak_revocation_find_locked (rev_run st ops) tid = Some e) as -> by done.
  revert st Hwf Hf. induction Hops as [|[o n] ops (Ho & Hn & Hle) _ IH]; intros st Hwf Hf; [done|].
  simpl in *. apply IH; [by apply rev_apply_wf|].
  apply rev_apply_keeps; try done.
  unfold AK_REVOCATION_RETAIN_MS, AK_KEY_ROTATION_MS in *. lia.
Qed.

(** Insertion records the token (or finds it already there), unless the
    allocation of the entry fails. *)
Lemma insert_revokes st tid ms why now_ms :
  ak_revocation_check (snd (ak_revocation_insert_locked st tid ms why now_ms true)) tid = true.
Proof.
  unfold ak_revocation_insert_locked. destruct (ak_revocation_find_locked st tid) as [e|] eqn:Hf.
  - simpl. unfold ak_revocation_check. by rewrite Hf.
  - simpl. unfold ak_revocation_check, ak_revocation_find_locked. cbn [revocations].
    by rewrite find_chain_same.
Qed.

(** ** The rate limiter *)

Record rate_call := mk_call {
  rl_tid : bytes; rl_limit : Z; rl_window_ms : Z; rl_now_ms : Z; rl_alloc : bool
}.

Definition rate_step (st : rate_state) (c : rate_call) : bool * rate_state :=
  ak_rate_limit_check st (rl_tid c) (rl_limit c) (rl_window_ms c) (rl_now_ms c) (rl_alloc c).

(** Admissions of one token along a history of calls by any tokens. *)
Fixpoint admissions (st : rate_state) (tid : bytes) (calls : list rate_call) : Z :=
  match calls with
  | [] => 0
  | c :: rest =>
      let '(ok, st') := rate_step st c in
      (if ok && bytes_eqb (rl_tid c) tid then 1 else 0) + admissions st' tid rest
  end.

Lemma refresh_tid w n c : tid_of (rate_refresh w n c) = tid_of c.
Proof. unfold rate_refresh. by destruct (_ <? _). Qed.
Lemma bump_tid c : tid_of (rate_bump c) = tid_of c.
Proof. done. Qed.

Lemma rate_sweep_wf st n :
  wf_table (rate_counters st) -> wf_table (rate_counters (ak_rate_sweep_locked st n)).
Proof. apply wf_table_sweep. Qed.

(** The table after the call found or made the counter of [tid]: every other
    token keeps its counter, unless it was swept because it had expired. *)
Definition kept (now_ms : Z) (before after : option rate_counter) : Prop :=
  after = before \/
  exists c, before = Some c /\ window_expired now_ms c = true /\ after = None.

Lemma sweep_kept st n tid :
  wf_table (rate_counters st) -> length tid = 16%nat ->
  kept n (ak_rate_find_locked st tid) (ak_rate_find_locked (ak_rate_sweep_locked st n) tid).
Proof.
  intros Hwf Ht. unfold kept, ak_rate_find_locked, ak_rate_sweep_locked. cbn [rate_counters].
  rewrite find_sweep by done. destruct (table_find_tid _ tid) as [c|]; [|by left].
  destruct (window_expired n c) eqn:E; simpl; [right; eauto|by left].
Qed.

Lemma sweep_none st n tid :
  wf_table (rate_counters st) -> length tid = 16%nat -> ak_rate_find_locked st tid = None ->
  ak_rate_find_locked (ak_rate_sweep_locked st n) tid = None.
Proof.
  intros Hwf Ht Hf. unfold ak_rate_find_locked, ak_rate_sweep_locked in *. cbn [rate_counters].
  by rewrite find_sweep, Hf.
Qed.

Lemma get_counter_spec st tid w n alloc :
  wf_table (rate_counters st) -> length tid = 16%nat ->
  match rate_get_counter st tid w n alloc with
  | Some (c, st1) =>
      wf_table (rate_counters st1) /\ ak_rate_find_locked st1 tid = Some c /\
      (ak_rate_find_locked st tid = Some c \/
       ak_rate_find_locked st tid = None /\ c = mk_counter tid 0 w n) /\
      forall tid', length tid' = 16%nat -> tid' <> tid ->
        kept n (ak_rate_find_locked st tid') (ak_rate_find_locked st1 tid')
  | None =>
      ak_rate_find_locked st tid = None
  end.
Proof.
  intros Hwf Ht. unfold rate_get_counter.
  destruct (ak_rate_find_locked st tid) as [c|] eqn:Hf.
  { split; [done|]. split; [done|]. split; [by left|]. intros. by left. }
  assert (Hcase : let st' := if AK_RATE_MAX_ENTRIES <=? rate_entry_count st
                             then ak_rate_sweep_locked st n else st in
    wf_table (rate_counters st') /\ ak_rate_find_locked st' tid = None /\
    forall tid', length tid' = 16%nat ->
      kept n (ak_rate_find_locked st tid') (ak_rate_find_locked st' tid')).
  { cbv zeta. destruct (_ <=? _).
    - split; [by apply rate_sweep_wf|]. split; [by apply sweep_none|]. intros. by apply sweep_kept.
    - split; [done|]. split; [done|]. intros. by left. }
  cbv zeta in Hcase. set (st' := if _ <=? _ then _ else st) in *. clearbody st'.
  destruct Hcase as (Hwf' & Hf' & Hk). destruct (_ <=? _); [done|]. destruct alloc; [|done].
  unfold ak_rate_find_locked in *. cbn [rate_counters]. split; [|split; [|split]].
  - by apply wf_table_chain.
  - by apply find_chain_same.
  - by right.
  - intros tid' Ht' Hne. rewrite find_chain_other by done. by apply Hk.
Qed.

Lemma denied_spec st tid n tid' :
  wf_table (rate_counters st) -> length tid = 16%nat -> length tid' = 16%nat ->
  wf_table (rate_counters (rate_denied_state st tid n)) /\
  kept n (ak_rate_find_locked st tid') (ak_rate_find_locked (rate_denied_state st tid n) tid').
Proof.
  intros Hwf Ht Ht'. unfold rate_denied_state.
  destruct (ak_rate_find_locked st tid); [split; [done|by left]|].
  destruct (_ <=? _); [|split; [done|by left]].
  split; [by apply rate_sweep_wf|by apply sweep_kept].
Qed.

(** One call, seen by its own token and by another one. *)
Lemma rate_step_spec st c :
  wf_table (rate_counters st) -> length (rl_tid c) = 16%nat ->
  let '(ok, st') := rate_step st c in
  wf_table (rate_counters st') /\
  (forall tid', length tid' = 16%nat -> tid' <> rl_tid c ->
     kept (rl_now_ms c) (ak_rate_find_locked st tid') (ak_rate_find_locked st' tid')) /\
  ((ok = false /\ ak_rate_find_locked st (rl_tid c) = None /\
    ak_rate_find_locked st' (rl_tid c) = None) \/
   exists x, (ak_rate_find_locked st (rl_tid c) = Some x \/
              ak_rate_find_locked st (rl_tid c) = None /\
              x = mk_counter (rl_tid c) 0 (rl_window_ms c) (rl_now_ms c)) /\
     let y := rate_refresh (rl_window_ms c) (rl_now_ms c) x in
     ok = negb (rl_limit c <=? rc_count y) /\
     ak_rate_find_locked st' (rl_tid c) = Some (if ok then rate_bump y else y)).
Proof.
  intros Hwf Ht. unfold rate_step, ak_rate_limit_check.
  pose proof (get_counter_spec st (rl_tid c) (rl_window_ms c) (rl_now_ms c) (rl_alloc c) Hwf Ht) as Hg.
  destruct (rate_get_counter _ _ _ _ _) as [[x st1]|].
  - destruct Hg as (Hwf1 & Hf1 & Hx & Hk). cbv zeta. unfold ak_rate_find_locked in *.
    destruct (_ <=? _) eqn:El; cbn [rate_counters].
    + split; [apply wf_table_update; [apply refresh_tid|done]|]. split.
      * intros tid' Ht' Hne. rewrite find_update_other; auto using refresh_tid.
      * right. exists x. split; [done|]. split; [by rewrite El|].
        rewrite find_update_same, Hf1; [done|apply refresh_tid].
    + split; [apply wf_table_update; [apply bump_tid|apply wf_table_update; [apply refresh_tid|done]]|].
      split.
      * intros tid' Ht' Hne.
        rewrite !find_update_other; auto using refresh_tid, bump_tid, wf_table_update.
      * right. exists x. split; [done|]. split; [by rewrite El|].
        rewrite !find_update_same, Hf1; [done|apply refresh_tid|apply bump_tid].
  - pose proof (denied_spec st (rl_tid c) (rl_now_ms c)) as Hd. split; [exact (proj1 (Hd _ Hwf Ht Ht))|].
    split; [intros tid' Ht' Hne; exact (proj2 (Hd _ Hwf Ht Ht'))|]. left. split; [done|]. split; [done|].
    destruct (Hd (rl_tid c) Hwf Ht Ht) as [_ [->|(e & E & _)]]; congruence.
Qed.

Section Window.
Context (tid : bytes) (L W t0 : Z).
Context (Ht : length tid = 16%nat) (HL : is_u32 L) (HW : 0 <= W) (Ht0 : 0 <= t0) (Hend : t0 + W < M64).

(** State of the token's counter after [adm] admissions since [t0], the last
    call being at [last]. *)
Definition window_inv (o : option rate_counter) (adm last : Z) : Prop :=
  match o with
  | None => adm = 0
  | Some c =>
      (adm = 0 /\ 0 <= rc_window_start_ms c /\ rc_window_start_ms c + W < t0) \/
      (t0 <= rc_window_start_ms c <= last /\ rc_window_ms c = W /\ rc_count c = adm)
  end.

Definition call_ok (last : Z) (c : rate_call) : Prop :=
  length (rl_tid c) = 16%nat /\ t0 <= rl_now_ms c <= t0 + W /\ last <= rl_now_ms c /\
  (rl_tid c = tid -> rl_limit c = L /\ rl_window_ms c = W).

Fixpoint calls_ok (last : Z) (calls : list rate_call) : Prop :=
  match calls with
  | [] => True
  | c :: rest => call_ok last c /\ calls_ok (rl_now_ms c) rest
  end.

Lemma window_inv_kept before after adm last now_ms :
  window_inv before adm last -> kept now_ms before after -> last <= now_ms <= t0 + W -> t0 <= now_ms ->
  window_inv after adm now_ms.
Proof.
  intros Hi Hk Hn Hn0. destruct Hk as [->|(c & -> & He & ->)].
  - destruct before as [c|]; simpl in *; [|done]. destruct Hi as [|]; [by left|right; lia].
  - simpl in *. destruct Hi as [(-> & _)|(H1 & H2 & H3)]; [done|].
    exfalso. unfold window_expired in He. rewrite H2 in He. bprop. unfold u64 in He.
    rewrite Z.mod_small in He; lia.
Qed.

Lemma window_inv_call x adm last now_ms :
  (window_inv (Some x) adm last \/ adm = 0 /\ x = mk_counter tid 0 W now_ms) ->
  0 <= adm <= L -> t0 <= now_ms <= t0 + W -> last <= now_ms ->
  let y := rate_refresh W now_ms x in
  rc_count y = adm /\ t0 <= rc_window_start_ms y <= now_ms /\ rc_window_ms y = W.
Proof.
  intros Hx Ha Hn Hl. cbv zeta. unfold rate_refresh, u64.
  destruct Hx as [[(-> & H1 & H2)|(H1 & H2 & H3)]|(-> & ->)].
  - rewrite Z.mod_small by lia. destruct (Z.ltb_spec W (now_ms - rc_window_start_ms x)); simpl; lia.
  - rewrite Z.mod_small by lia. destruct (Z.ltb_spec W (now_ms - rc_window_start_ms x)); simpl; lia.
  - simpl. rewrite Z.sub_diag, Z.mod_0_l by lia. destruct (Z.ltb_spec W 0); simpl; lia.
Qed.

Lemma window_bound calls st adm last :
  wf_table (rate_counters st) -> 0 <= adm <= L -> window_inv (ak_rate_find_locked st tid) adm last ->
  calls_ok last calls -> adm + admissions st tid calls <= L.
Proof.
  revert st adm last. induction calls as [|c calls IH]; intros st adm last Hwf Ha Hi Hc; simpl; [lia|].
  destruct Hc as [(Hlen & Hn & Hl & Hpar) Hrest].
  pose proof (rate_step_spec st c Hwf Hlen) as Hs. destruct (rate_step st c) as [ok st'].
  destruct Hs as (Hwf' & Hother & Hsame).
  destruct (bytes_eqb (rl_tid c) tid) eqn:Et.
  - apply bytes_eqb_eq in Et. rewrite Et in *. destruct (Hpar eq_refl) as [EL EW].
    rewrite EL, EW in *. destruct Hsame as [(-> & Hf & Hf')|(x & Hx & Hok & Hf')].
    + simpl. apply (IH _ _ (rl_now_ms c)); auto. rewrite Hf'. rewrite Hf in Hi. done.
    + destruct (window_inv_call x adm last (rl_now_ms c)) as (Hcnt & Hst & Hw); [|done..|].
      { destruct Hx as [Hx|[Hx ->]]; rewrite Hx in Hi; [by left|by right]. }
      set (y := rate_refresh W (rl_now_ms c) x) in *. clearbody y.
      rewrite Hcnt in Hok. destruct (Z.leb_spec L adm); subst ok; simpl in *.
      * apply (IH _ _ (rl_now_ms c)); auto. rewrite Hf'. right. lia.
      * enough (adm + 1 + admissions st' tid calls <= L) by lia.
        apply (IH _ _ (rl_now_ms c)); auto; [lia|]. rewrite Hf'. right. simpl.
        unfold is_u32, u32 in *. rewrite Hcnt, Z.mod_small; lia.
  - rewrite andb_false_r. simpl. apply (IH _ _ (rl_now_ms c)); auto.
    eapply window_inv_kept; [exact Hi|apply Hother; [done|]|lia|lia].
    intros ->. by rewrite bytes_eqb_refl in Et.
Qed.
End Window.

(** C40: the rate limit holds.  Take a token with no counter, or whose counter's
    window ended before [t0].  Along every history of calls in
    [t0, t0 + window], by this token (with its limit and window) and by any
    other tokens (whose insertions, collisions and sweeps share the table), at
    most [limit] calls of the token are admitted. *)
Theorem rate_limit_holds st tid limit window t0 calls :
  wf_table (rate_counters st) -> length tid = 16%nat -> is_u32 limit -> 0 <= window -> 0 <= t0 ->
  t0 + window < M64 ->
  match ak_rate_find_locked st tid with
  | None => True
  | Some c => 0 <= rc_window_start_ms c /\ rc_window_start_ms c + window < t0
  end ->
  calls_ok tid limit window t0 t0 calls -> admissions st tid calls <= limit.
Proof.
  intros Hwf Ht HL HW H0 He Hfind Hc.
  apply (window_bound tid limit window t0) with (adm := 0) (last := t0); try done.
  - unfold is_u32 in HL. lia.
  - destruct (ak_rate_find_locked st tid); simpl; [left|done]. lia.
Qed.


(** ** The counters of both tables *)

Definition wf_rate (st : rate_state) : Prop :=
  wf_table (rate_counters st) /\ rate_entry_count st = Z.of_nat (table_count (rate_counters st)) /\
  rate_entry_count st <= AK_RATE_MAX_ENTRIES.

Lemma wf_rate_sweep st n : wf_rate st -> wf_rate (ak_rate_sweep_locked st n).
Proof.
  intros (Hwf & Hc & Hb). unfold wf_rate, ak_rate_sweep_locked, AK_RATE_MAX_ENTRIES in *. cbn.
  split; [by apply wf_table_sweep|].
  pose proof (table_count_sweep (fun c => negb (window_expired n c)) (rate_counters st)).
  unfold u64. rewrite Z.mod_small; lia.
Qed.

Lemma wf_rate_update f st tid :
  (forall c, tid_of (f c) = tid_of c) -> wf_rate st ->
  wf_rate (mk_rate_state (table_update f (rate_counters st) tid) (rate_entry_count st)).
Proof.
  intros Hf (Hwf & Hc & Hb). split; [by apply wf_table_update|]. cbn. by rewrite table_count_update.
Qed.

Lemma wf_rate_get_counter st tid w n alloc c st1 :
  wf_rate st -> length tid = 16%nat -> rate_get_counter st tid w n alloc = Some (c, st1) -> wf_rate st1.
Proof.
  intros Hst Ht. unfold rate_get_counter. destruct (ak_rate_find_locked st tid) eqn:Hf; [by intros [= _ <-]|].
  set (st' := if _ <=? _ then _ else st).
  assert (H' : wf_rate st' /\ ak_rate_find_locked st' tid = None).
  { subst st'. destruct (_ <=? _); [|done]. split; [by apply wf_rate_sweep|]. by apply sweep_none, Hf; [apply Hst|]. }
  clearbody st'. destruct H' as [(Hwf & Hc & Hb) Hf'].
  destruct (Z.leb_spec AK_RATE_MAX_ENTRIES (rate_entry_count st')); [done|]. destruct alloc; [|done].
  intros [= _ <-]. split; [by apply wf_table_chain|]. cbn. rewrite table_count_chain.
  unfold u64, AK_RATE_MAX_ENTRIES in *. rewrite Z.mod_small; lia.
Qed.

Fixpoint rate_run (st : rate_state) (calls : list rate_call) : rate_state :=
  match calls with
  | [] => st
  | c :: rest => rate_run (snd (rate_step st c)) rest
  end.

Lemma wf_rate_step st c : wf_rate st -> length (rl_tid c) = 16%nat -> wf_rate (snd (rate_step st c)).
Proof.
  intros Hst Ht. unfold rate_step, ak_rate_limit_check.
  destruct (rate_get_counter _ _ _ _ _) as [[x st1]|] eqn:Hg.
  - apply wf_rate_get_counter in Hg; [|done..]. cbv zeta.
    assert (H2 := wf_rate_update _ _ (rl_tid c) (refresh_tid (rl_window_ms c) (rl_now_ms c)) Hg).
    destruct (_ <=? _); [done|]. exact (wf_rate_update _ _ (rl_tid c) bump_tid H2).
  - cbn. unfold rate_denied_state. destruct (ak_rate_find_locked _ _); [done|].
    destruct (_ <=? _); [by apply wf_rate_sweep|done].
Qed.

(** the rate-limit table is bounded and its counter exact.  From the empty
    table, every sequence of calls leaves at most [AK_RATE_MAX_ENTRIES]
    counters in the table, [rate_entry_count] is their number, and no two of
    them belong to the same token. *)
Theorem rate_table_bounded calls :
  Forall (fun c => length (rl_tid c) = 16%nat) calls ->
  let st := rate_run (mk_rate_state ∅ 0) calls in
  wf_table (rate_counters st) /\
  rate_entry_count st = Z.of_nat (table_count (rate_counters st)) /\
  Z.of_nat (table_count (rate_counters st)) <= AK_RATE_MAX_ENTRIES.
Proof.
  intros Hc. cbv zeta.
  assert (H0 : wf_rate (mk_rate_state ∅ 0)) by (split; [apply wf_table_empty|done]).
  revert H0. generalize (mk_rate_state ∅ 0). induction Hc as [|c calls Ht Hc IH]; intros st Hst; cbn.
  - destruct Hst as (? & ? & ?). split; [done|]. lia.
  - apply IH. by apply wf_rate_step.
Qed.

Definition demo_tid : bytes := replicate 16 7.
Definition demo_call (now_ms : Z) : rate_call := mk_call demo_tid 2 1000 now_ms true.

Lemma revoked_stays_revoked_witness :
  ak_revocation_check
    (rev_run (snd (ak_revocation_insert_locked (mk_rev_state ∅ 0) demo_tid 5000 None 5000 true))
       [(OpInsert (replicate 16 9) 6000 None true, 6000); (OpSweep, 7000)]) demo_tid = true.
Proof.
  apply (revoked_stays_revoked _ _ demo_tid (mk_rev demo_tid 5000 None) 4000 10000 8000).
  - apply (rev_apply_wf (mk_rev_state ∅ 0) (OpInsert demo_tid 5000 None true) 5000); [|done].
    apply wf_table_empty.
  - reflexivity.
  - vm_compute. reflexivity.
  - simpl. lia.
  - unfold AK_MAX_CAP_TTL_MS. lia.
  - lia.
  - repeat constructor; simpl; lia.
Defined.

Lemma rate_limit_holds_witness :
  admissions (mk_rate_state ∅ 0) demo_tid (demo_call <$> [100; 200; 300]) = 2 /\
  admissions (mk_rate_state ∅ 0) demo_tid (demo_call <$> [100; 200; 300]) <= 2.
Proof.
  split; [vm_compute; reflexivity|].
  apply (rate_limit_holds _ demo_tid 2 1000 100).
  - apply wf_table_empty.
  - reflexivity.
  - unfold is_u32. lia.
  - lia.
  - lia.
  - lia.
  - exact I.
  - simpl. unfold call_ok. simpl. repeat split; lia.
Defined.

Lemma rate_table_bounded_witness :
  Z.of_nat (table_count (rate_counters (rate_run (mk_rate_state ∅ 0) (demo_call <$> [1; 2])))) <=
  AK_RATE_MAX_ENTRIES.
Proof. apply rate_table_bounded. repeat constructor. Defined.
