(* ===== verification/Capability.v ===== *)
(** * Capability tokens ([src/src/agentic/ak_capability.c])

    The token record, its canonical text (what the MAC covers), creation,
    verification, scope check, validation, delegation and subsumption.  The
    state is the one [ak_cap_state] holds: keys, revocations, rate counters.
    Clock readings, random bytes and the outcomes of allocations are arguments,
    one per call site.

    The canonical text prints method names with [%s] from a raw [u8] pointer;
    [raw_s] is what the formatter prints then (see [Format.v]).  Theorems that
    depend on the text read it as the C string, [cstr]. *)

From S2P Require Import Prelude Crypto Format Pattern Keys TokenTable Revocation.

(** Error codes ([ak_types.h]). *)
Definition AK_E_CAP_MISSING : Z := -4100.
Definition AK_E_CAP_INVALID : Z := -4101.
Definition AK_E_CAP_EXPIRED : Z := -4102.
Definition AK_E_CAP_SCOPE : Z := -4103.
Definition AK_E_CAP_REVOKED : Z := -4104.
Definition AK_E_CAP_RATE : Z := -4105.
Definition AK_E_CAP_RUN_MISMATCH : Z := -4106.

(** Capability types ([ak_cap_type_t]). *)
Definition AK_CAP_NONE : Z := 0.
Definition AK_CAP_NET : Z := 1.
Definition AK_CAP_FS : Z := 2.
Definition AK_CAP_TOOL : Z := 3.
Definition AK_CAP_HEAP : Z := 6.
Definition AK_CAP_INFERENCE : Z := 7.
Definition AK_CAP_ANY : Z := 254.
Definition AK_CAP_ADMIN : Z := 255.

Record ak_capability := mk_cap {
  cap_type : Z;
  resource : bytes;        (* u8[256] *)
  resource_len : Z;        (* u16 *)
  methods : list bytes;    (* u8[8][32] *)
  method_count : Z;        (* u8 *)
  issued_ms : Z;
  ttl_ms : Z;
  rate_limit : Z;
  rate_window_ms : Z;
  run_id : bytes;
  tid : bytes;
  cap_kid : Z;
  mac : bytes
}.

(** [ak_cap_state]. *)
Record cap_state := mk_cap_state {
  cs_keys : key_state;
  cs_rev : rev_state;
  cs_rate : rate_state
}.

(** The methods a capability uses: [methods[0 .. method_count-1]], as C strings. *)
Definition used_methods (c : ak_capability) : list bytes :=
  cstr <$> take (Z.to_nat (method_count c)) (methods c).

Section Capability.
Context `{Hash} (raw_s : bytes -> bytes).

(** ** The canonical text *)

Fixpoint canon_methods (i : nat) (ms : list bytes) : bytes :=
  match ms with
  | [] => []
  | m :: ms' =>
      (if (0 <? i)%nat then bprintf raw_s (JQ ",") [] else []) ++
      bprintf raw_s (JQ "'%s'") [VPtr m] ++ canon_methods (S i) ms'
  end.

(** A quote and a backslash are escaped. *)
Definition escape_byte (c : Z) : bytes := if (c =? 34) || (c =? 92) then [92; c] else [c].

Definition canon_hex (l : bytes) : bytes := concat ((fun b => bprintf raw_s (JQ "%02x") [VInt b]) <$> l).

Definition ak_capability_canonicalize (c : ak_capability) : bytes :=
  bprintf raw_s (JQ "{'issued_ms':%ld,'kid':%d,'methods':[") [VInt (issued_ms c); VInt (cap_kid c)] ++
  canon_methods 0 (take (Z.to_nat (method_count c)) (methods c)) ++
  bprintf raw_s (JQ "],'rate_limit':%d,'rate_window_ms':%d,'resource':'")
    [VInt (rate_limit c); VInt (rate_window_ms c)] ++
  concat (escape_byte <$> take (Z.to_nat (resource_len c)) (resource c)) ++
  bprintf raw_s (JQ "','run_id':'") [] ++ canon_hex (take AK_TOKEN_ID_SIZE (run_id c)) ++
  bprintf raw_s (JQ "','tid':'") [] ++ canon_hex (take AK_TOKEN_ID_SIZE (tid c)) ++
  bprintf raw_s (JQ "','ttl_ms':%d,'type':%d}") [VInt (ttl_ms c); VInt (cap_type c)].

Definition cap_mac (alloc : bool) (k : ak_key) (c : ak_capability) : bytes :=
  ak_hmac_sha256 alloc (secret k) (ak_capability_canonicalize c).

(** ** Creation *)

(** The copy of one method name into its 32-byte slot. *)
Definition method_slot (m : bytes) : bytes := m ++ zeros (32 - length m).

(** The loop over the NULL-terminated [methods] array: at most 8 names, [None]
    when one is too long. *)
Fixpoint copy_methods (room : nat) (ms : list bytes) : option (list bytes) :=
  match room, ms with
  | O, _ => Some []
  | _, [] => Some []
  | S room', m :: ms' =>
      if (32 <=? length m)%nat then None
      else match copy_methods room' ms' with
           | Some r => Some (method_slot m :: r)
           | None => None
           end
  end.

Definition with_mac (c : ak_capability) (m : bytes) : ak_capability :=
  mk_cap (cap_type c) (resource c) (resource_len c) (methods c) (method_count c) (issued_ms c)
    (ttl_ms c) (rate_limit c) (rate_window_ms c) (run_id c) (tid c) (cap_kid c) m.

(** [now_ms]: the clock; [rnd]: the 16 random bytes of the token id; [alloc]:
    the allocation of the token, [alloc_mac]: the one inside the MAC. *)
Definition ak_capability_create (st : cap_state) (type : Z) (res : option bytes)
    (meths : option (list bytes)) (ttl limit window : Z) (run : option bytes)
    (now_ms : Z) (rnd : bytes) (alloc alloc_mac : bool) : option ak_capability :=
  match res with
  | None => None
  | Some res =>
    if (type <? AK_CAP_NONE) || (AK_CAP_ADMIN <? type) then None
    else if ttl =? 0 then None
    else
      let ttl := if AK_MAX_CAP_TTL_MS <? ttl then AK_MAX_CAP_TTL_MS else ttl in
      if negb alloc then None
      else if (256 <=? length res)%nat then None
      else if (255 <=? length res)%nat then None
      else
        match copy_methods 8 (default [] meths) with
        | None => None
        | Some ms =>
            let key := ak_key_get_active (cs_keys st) in
            let c := mk_cap type (res ++ zeros (256 - length res)) (Z.of_nat (length res))
                       (ms ++ replicate (8 - length ms) (zeros 32)) (Z.of_nat (length ms))
                       now_ms ttl limit window
                       (match run with Some r => take AK_TOKEN_ID_SIZE r | None => zeros 16 end)
                       (take AK_TOKEN_ID_SIZE rnd) (kid key) (zeros 32) in
            Some (with_mac c (cap_mac alloc_mac key c))
        end
  end.

(** ** Verification *)

Definition ak_capability_verify (st : cap_state) (cap : option ak_capability)
    (now_ms : Z) (alloc_mac : bool) : Z :=
  match cap with
  | None => AK_E_CAP_MISSING
  | Some c =>
      match ak_key_get (cs_keys st) (cap_kid c) with
      | None => AK_E_CAP_INVALID
      | Some key =>
          if negb (constant_time_compare (mac c) (cap_mac alloc_mac key c) AK_MAC_SIZE)
          then AK_E_CAP_INVALID
          else if u64 (issued_ms c + ttl_ms c) <? now_ms then AK_E_CAP_EXPIRED
          else 0
      end
  end.

(** ** Scope *)

(** Membership of a method among the capability's methods. *)
Definition method_found (m : bytes) (c : ak_capability) : bool :=
  existsb (fun x => bytes_eqb (cstr m) x) (used_methods c).

Definition with_rate (st : cap_state) (r : rate_state) : cap_state :=
  mk_cap_state (cs_keys st) (cs_rev st) r.

(** [now_ms] and [alloc_rate]: the clock and the allocation of the rate check. *)
Definition ak_capability_check_scope (st : cap_state) (c : ak_capability) (required_type : Z)
    (res : bytes) (method run : option bytes) (now_ms : Z) (alloc_rate : bool) : Z * cap_state :=
  if negb (cap_type c =? required_type) && negb (cap_type c =? AK_CAP_ADMIN) &&
     negb (cap_type c =? AK_CAP_ANY)
  then (AK_E_CAP_SCOPE, st)
  else if negb (ak_pattern_match (resource c) res) then (AK_E_CAP_SCOPE, st)
  else if match method with
          | Some m => (0 <? method_count c) && negb (method_found m c)
          | None => false
          end then (AK_E_CAP_SCOPE, st)
  else if match run with
          | Some r => negb (ak_token_id_equal (run_id c) AK_GENESIS_HASH) &&
                      negb (ak_token_id_equal (run_id c) r)
          | None => false
          end then (AK_E_CAP_RUN_MISMATCH, st)
  else if 0 <? rate_limit c then
    let '(ok, rate) := ak_rate_limit_check (cs_rate st) (tid c) (rate_limit c) (rate_window_ms c)
                         now_ms alloc_rate in
    (if ok then 0 else AK_E_CAP_RATE, with_rate st rate)
  else (0, st).

(** ** Validation *)

Definition ak_capability_validate (st : cap_state) (cap : option ak_capability) (required_type : Z)
    (res method run : option bytes) (now_verify now_rate : Z) (alloc_mac alloc_rate : bool)
    : Z * cap_state :=
  match res with
  | None => (AK_E_CAP_SCOPE, st)
  | Some res =>
      let rv := ak_capability_verify st cap now_verify alloc_mac in
      if rv <? 0 then (rv, st)
      else match cap with
           | None => (rv, st)
           | Some c =>
               if ak_revocation_check (cs_rev st) (tid c) then (AK_E_CAP_REVOKED, st)
               else
                 let '(rv, st') := ak_capability_check_scope st c required_type res method run
                                     now_rate alloc_rate in
                 if rv <? 0 then (rv, st') else (0, st')
           end
  end.

(** ** Delegation and subsumption *)

Definition ak_capability_remaining_ttl (c : ak_capability) (now_ms : Z) : Z :=
  let expires := u64 (issued_ms c + ttl_ms c) in
  if expires <=? now_ms then 0 else u32 (expires - now_ms).

Definition ak_capability_delegate (st : cap_state) (parent : ak_capability) (type : Z) (res : bytes)
    (meths : option (list bytes)) (ttl limit window : Z)
    (now_verify now_ttl now_create : Z) (rnd : bytes) (alloc alloc_mac1 alloc_mac2 : bool)
    : option ak_capability :=
  if ak_capability_verify st (Some parent) now_verify alloc_mac1 <? 0 then None
  else if negb (type =? cap_type parent) then None
  else if ak_capability_remaining_ttl parent now_ttl <? ttl then None
  else if rate_limit parent <? limit then None
  else if negb (ak_pattern_match (resource parent) res) then None
  else if negb (forallb (fun m => method_found m parent) (default [] meths)) then None
  else ak_capability_create st type (Some res) meths ttl limit window (Some (run_id parent))
         now_create rnd alloc alloc_mac2.

Definition ak_capability_subsumed (parent child : ak_capability) (now_ms : Z) : bool :=
  if negb (cap_type child =? cap_type parent) then false
  else if ak_capability_remaining_ttl parent now_ms <? ttl_ms child then false
  else if rate_limit parent <? rate_limit child then false
  else if negb (ak_pattern_match (resource parent) (resource child)) then false
  else forallb (fun m => method_found m parent) (used_methods child).
End Capability.

(** ** Well-formed tokens *)

Record wf_cap (c : ak_capability) : Prop := {
  wf_type : is_u8 (cap_type c);
  wf_resource : length (resource c) = 256%nat;
  wf_resource_bytes : wf_bytes (resource c);
  wf_resource_len : 0 <= resource_len c < 256;
  wf_resource_nul : resource c !!! Z.to_nat (resource_len c) = 0;
  wf_methods : length (methods c) = 8%nat;
  wf_method_slots : Forall (fun m => length m = 32%nat /\ wf_bytes m /\ (length (cstr m) < 32)%nat) (methods c);
  wf_method_count : 0 <= method_count c <= 8;
  wf_issued : is_u64 (issued_ms c);
  wf_ttl : is_u32 (ttl_ms c);
  wf_rate : is_u32 (rate_limit c);
  wf_window : is_u32 (rate_window_ms c);
  wf_run : length (run_id c) = 16%nat /\ wf_bytes (run_id c);
  wf_tid : length (tid c) = 16%nat /\ wf_bytes (tid c);
  wf_kid : is_u8 (cap_kid c);
  wf_mac : length (mac c) = 32%nat /\ wf_bytes (mac c)
}.

(** ** What the canonical text determines *)

Fixpoint quoted (i : nat) (ms : list bytes) : bytes :=
  match ms with
  | [] => []
  | m :: ms' => (if (0 <? i)%nat then [44] else []) ++ 34 :: m ++ 34 :: quoted (S i) ms'
  end.

Lemma canon_methods_text i ms : canon_methods cstr i ms = quoted i (cstr <$> ms).
Proof.
  revert i; induction ms as [|m ms IH]; intros i; [done|]. cbn [canon_methods quoted fmap list_fmap].
  rewrite IH. change (bprintf cstr JQ"'%s'" [VPtr m]) with (([34] ++ cstr m) ++ [34]).
  rewrite <-!app_assoc. by destruct i.
Qed.

(** The method slots the canonical text prints. *)
Definition printed_methods (c : ak_capability) : list bytes := take (Z.to_nat (method_count c)) (methods c).

(** What [%s] makes of the method slots is all the text depends on. *)
Lemma canon_methods_ext raw raw' i ms :
  (forall m, m ∈ ms -> raw m = raw' m) -> canon_methods raw i ms = canon_methods raw' i ms.
Proof.
  revert i; induction ms as [|m ms IH]; intros i Hm; cbn [canon_methods]; [reflexivity|].
  rewrite IH by (intros x Hx; apply Hm; by right).
  rewrite (bprintf_raw raw raw' JQ",") by (by intros obj ?%not_elem_of_nil).
  rewrite (bprintf_raw raw raw' _ [VPtr m]); [reflexivity|].
  intros obj [[= ->]|?%not_elem_of_nil]%elem_of_cons; [|done]. apply Hm. by left.
Qed.

Ltac numbers_only :=
  let obj := fresh in let H := fresh in
  intros obj H; repeat (apply elem_of_cons in H as [H|H]; [discriminate H|]); by apply not_elem_of_nil in H.

Lemma canonicalize_ext raw raw' c :
  (forall m, m ∈ printed_methods c -> raw m = raw' m) -> ak_capability_canonicalize raw c = ak_capability_canonicalize raw' c.
Proof.
  intros Hm. unfold ak_capability_canonicalize. rewrite (canon_methods_ext raw raw' _ _ Hm).
  assert (Hx : forall l, canon_hex raw l = canon_hex raw' l).
  { intros l. unfold canon_hex. apply (f_equal (@concat Z)), list_fmap_ext. intros _ b _. apply bprintf_raw. numbers_only. }
  rewrite !Hx. rewrite !(bprintf_raw raw raw') by numbers_only. reflexivity.
Qed.

Lemma canon_hex_text raw l : canon_hex raw l = hex_bytes l.
Proof.
  unfold canon_hex, hex_bytes. apply (f_equal (@concat Z)), list_fmap_ext. intros _ b _. unfold hex_byte. fmt_text.
Qed.

Definition escaped (l : bytes) : bytes := concat (escape_byte <$> l).

Definition text_of (issued kid : Z) (ms : list bytes) (limit window : Z) (res run tok : bytes)
    (ttl type : Z) : bytes :=
  JQ"{'issued_ms':" ++ format_number fmt_ld issued ++ JQ",'kid':" ++ format_number fmt_d kid ++
  JQ",'methods':[" ++ quoted 0 ms ++ JQ"],'rate_limit':" ++ format_number fmt_d limit ++
  JQ",'rate_window_ms':" ++ format_number fmt_d window ++ JQ",'resource':'" ++ escaped res ++
  JQ"','run_id':'" ++ hex_bytes run ++ JQ"','tid':'" ++ hex_bytes tok ++
  JQ"','ttl_ms':" ++ format_number fmt_d ttl ++ JQ",'type':" ++ format_number fmt_d type ++ JQ"}".

Definition resource_text (c : ak_capability) : bytes := take (Z.to_nat (resource_len c)) (resource c).

Lemma canonical_text c :
  length (run_id c) = 16%nat -> length (tid c) = 16%nat ->
  ak_capability_canonicalize cstr c =
  text_of (issued_ms c) (cap_kid c) (used_methods c) (rate_limit c) (rate_window_ms c)
    (resource_text c) (run_id c) (tid c) (ttl_ms c) (cap_type c).
Proof.
  intros Hr Ht. unfold ak_capability_canonicalize, text_of.
  rewrite canon_methods_text, !canon_hex_text, (take_ge (run_id c)), (take_ge (tid c))
    by (unfold AK_TOKEN_ID_SIZE; lia).
  fold (used_methods c) (resource_text c) (escaped (resource_text c)).
  generalize (quoted 0 (used_methods c)) as q, (escaped (resource_text c)) as e. intros q e.
  fmt_text.
Qed.

Lemma quoted_cut i ms1 ms2 r1 r2 :
  Forall (Forall (fun b => b <> 34)) ms1 -> Forall (Forall (fun b => b <> 34)) ms2 ->
  quoted i ms1 ++ 93 :: r1 = quoted i ms2 ++ 93 :: r2 -> ms1 = ms2 /\ r1 = r2.
Proof.
  intros H1. revert i ms2. induction H1 as [|m1 ms1 Hm1 H1 IH]; intros i [|m2 ms2] H2; cbn [quoted app].
  - intros [= ->]. done.
  - destruct i; discriminate.
  - destruct i; discriminate.
  - inversion H2 as [|? ? Hm2 H2']; subst. rewrite <-!app_assoc. intros E.
    apply app_inv_head in E. cbn [app] in E. injection E as E. rewrite <-!app_assoc in E.
    destruct (app_cut (fun b => b <> 34) _ _ _ _ _ _ Hm1 Hm2 ltac:(auto) ltac:(auto) E) as (-> & _ & E').
    destruct (IH (S i) ms2 H2' E') as [-> ->]. done.
Qed.

Lemma escaped_cut l1 l2 r1 r2 :
  escaped l1 ++ 34 :: r1 = escaped l2 ++ 34 :: r2 -> l1 = l2 /\ r1 = r2.
Proof.
  unfold escaped, escape_byte. revert l2; induction l1 as [|c1 l1 IH]; intros [|c2 l2]; simpl.
  - by intros [= ->].
  - zsplit; subst; simpl; intros [= ?]; congruence.
  - zsplit; subst; simpl; intros [= ?]; congruence.
  - zsplit; subst; simpl; intros [= E]; subst; try congruence;
      repeat match goal with
      | E : _ ++ 34 :: _ = _ ++ 34 :: _ |- _ => apply IH in E as [-> ->]; done
      | E : _ |- _ => injection E as E; subst
      end.
Qed.

Lemma text_of_inj i1 k1 ms1 l1 w1 re1 ru1 t1 tt1 ty1 i2 k2 ms2 l2 w2 re2 ru2 t2 tt2 ty2 :
  is_u64 i1 -> is_u64 i2 -> is_u32 k1 -> is_u32 k2 -> is_u32 l1 -> is_u32 l2 -> is_u32 w1 -> is_u32 w2 ->
  is_u32 tt1 -> is_u32 tt2 -> is_u32 ty1 -> is_u32 ty2 ->
  wf_bytes ru1 -> wf_bytes ru2 -> length ru1 = length ru2 ->
  wf_bytes t1 -> wf_bytes t2 -> length t1 = length t2 ->
  Forall (Forall (fun b => b <> 34)) ms1 -> Forall (Forall (fun b => b <> 34)) ms2 ->
  text_of i1 k1 ms1 l1 w1 re1 ru1 t1 tt1 ty1 = text_of i2 k2 ms2 l2 w2 re2 ru2 t2 tt2 ty2 ->
  i1 = i2 /\ k1 = k2 /\ ms1 = ms2 /\ l1 = l2 /\ w1 = w2 /\ re1 = re2 /\ ru1 = ru2 /\ t1 = t2 /\
  tt1 = tt2 /\ ty1 = ty2.
Proof.
  intros. match goal with E : text_of _ _ _ _ _ _ _ _ _ _ = _ |- _ => rename E into Et end.
  unfold text_of in Et. apply app_inv_head in Et.
  apply fmt_ld_cut in Et as [-> Et]; [|done..].
  apply fmt_d_cut in Et as [-> Et]; [|done..].
  apply (quoted_cut 0) in Et as [-> Et]; [|done..].
  apply (app_inv_head (tail JQ"],'rate_limit':")) in Et.
  apply fmt_d_cut in Et as [-> Et]; [|done..].
  apply fmt_d_cut in Et as [-> Et]; [|done..].
  apply escaped_cut in Et as [-> Et].
  apply (app_inv_head (tail JQ"','run_id':'")) in Et.
  apply hex_bytes_cut in Et as [-> Et]; [|done..]. apply app_inv_head in Et.
  apply hex_bytes_cut in Et as [-> Et]; [|done..]. apply app_inv_head in Et.
  apply fmt_d_cut in Et as [-> Et]; [|done..].
  rewrite <-(app_nil_r JQ"}") in Et. apply fmt_d_cut in Et as [-> _]; [|done..]. done.
Qed.

(** Two tokens that grant the same thing: they agree on every field but the
    MAC and the unused bytes of the fixed-size arrays. *)
Definition same_authority (c1 c2 : ak_capability) : Prop :=
  issued_ms c1 = issued_ms c2 /\ cap_kid c1 = cap_kid c2 /\ used_methods c1 = used_methods c2 /\
  rate_limit c1 = rate_limit c2 /\ rate_window_ms c1 = rate_window_ms c2 /\
  resource_text c1 = resource_text c2 /\ run_id c1 = run_id c2 /\ tid c1 = tid c2 /\
  ttl_ms c1 = ttl_ms c2 /\ cap_type c1 = cap_type c2.

(** Method names without a double quote, which the canonical text does not escape. *)
Definition plain_methods (c : ak_capability) : Prop :=
  Forall (Forall (fun b => b <> 34)) (used_methods c).

#[global] Instance plain_methods_dec c : Decision (plain_methods c).
Proof. unfold plain_methods. apply _. Defined.

Lemma u8_u32 z : is_u8 z -> is_u32 z.
Proof. unfold is_u8, is_u32. lia. Qed.

Lemma canonical_inj c1 c2 :
  wf_cap c1 -> wf_cap c2 -> plain_methods c1 -> plain_methods c2 ->
  ak_capability_canonicalize cstr c1 = ak_capability_canonicalize cstr c2 -> same_authority c1 c2.
Proof.
  intros W1 W2 P1 P2.
  destruct (wf_run _ W1) as [R1 RB1], (wf_run _ W2) as [R2 RB2].
  destruct (wf_tid _ W1) as [T1 TB1], (wf_tid _ W2) as [T2 TB2].
  rewrite !canonical_text by done. destruct W1, W2. intros E.
  apply text_of_inj in E; try (done || by apply u8_u32 || congruence).
Qed.

Section Theorems.
Context `{Hash} (raw_s : bytes -> bytes).

(** ** Verification *)

Lemma verify_spec st c now_ms alloc :
  length (mac c) = 32%nat ->
  ak_capability_verify raw_s st (Some c) now_ms alloc = 0 <->
  exists key, ak_key_get (cs_keys st) (cap_kid c) = Some key /\ mac c = cap_mac raw_s alloc key c /\
    now_ms <= u64 (issued_ms c + ttl_ms c).
Proof.
  intros Hm. unfold ak_capability_verify.
  destruct (ak_key_get _ _) as [key|]; [|split; [done|naive_solver]].
  pose proof (mac_compareP (mac c) (cap_mac raw_s alloc key c) Hm (length_hmac _ _ _)) as Hc.
  destruct (constant_time_compare _ _ _); simpl.
  - destruct (Z.ltb_spec (u64 (issued_ms c + ttl_ms c)) now_ms); split; try done.
    + intros (k & [= <-] & _ & ?). lia.
    + intros _. exists key. repeat split; [by apply Hc|lia].
  - split; [done|]. intros (k & [= <-] & Hk & _). apply Hc in Hk. done.
Qed.

Lemma verify_codes st cap now_ms alloc :
  ak_capability_verify raw_s st cap now_ms alloc ∈
    [0; AK_E_CAP_MISSING; AK_E_CAP_INVALID; AK_E_CAP_EXPIRED].
Proof.
  unfold ak_capability_verify. destruct cap; [|repeat constructor].
  destruct (ak_key_get _ _); [|repeat constructor].
  destruct (constant_time_compare _ _ _); [|repeat constructor].
  destruct (_ <? _); repeat constructor.
Qed.

(** ** Scope *)

(** What a capability has to satisfy to authorize an access. *)
Record in_scope (st : cap_state) (c : ak_capability) (required_type : Z) (res : bytes)
    (method run : option bytes) : Prop := {
  sc_type : cap_type c = required_type \/ cap_type c = AK_CAP_ADMIN \/ cap_type c = AK_CAP_ANY;
  sc_resource : Glob (cstr (resource c)) (cstr res);
  sc_method m : method = Some m -> method_count c <= 0 \/ cstr m ∈ used_methods c;
  sc_run r : run = Some r -> run_id c = zeros 16 \/ run_id c = r
}.

Definition rate_ok (st : cap_state) (c : ak_capability) (now_ms : Z) (alloc : bool) : Prop :=
  rate_limit c <= 0 \/
  fst (ak_rate_limit_check (cs_rate st) (tid c) (rate_limit c) (rate_window_ms c) now_ms alloc) = true.

Lemma method_foundP m c : method_found m c = true <-> cstr m ∈ used_methods c.
Proof.
  unfold method_found. rewrite existsb_exists. split.
  - intros (x & Hx & E). apply bytes_eqb_eq in E as ->. by apply list_elem_of_In.
  - intros Hx. exists (cstr m). split; [by apply list_elem_of_In|apply bytes_eqb_refl].
Qed.

Lemma method_denied c method :
  match method with Some m => (0 <? method_count c) && negb (method_found m c) | None => false end = false <->
  (forall m, method = Some m -> method_count c <= 0 \/ cstr m ∈ used_methods c).
Proof.
  destruct method as [m|]; [|naive_solver]. rewrite andb_false_iff, negb_false_iff, method_foundP, Z.ltb_ge.
  naive_solver.
Qed.

Lemma genesis_equal r : length r = 16%nat -> ak_token_id_equal r AK_GENESIS_HASH = true <-> r = zeros 16.
Proof.
  intros Hr. unfold ak_token_id_equal. rewrite constant_time_compareP by (unfold AK_TOKEN_ID_SIZE; simpl; lia).
  unfold AK_TOKEN_ID_SIZE. by rewrite take_ge by lia.
Qed.

Lemma run_denied c run :
  length (run_id c) = 16%nat -> (forall r, run = Some r -> length r = 16%nat) ->
  match run with
  | Some r => negb (ak_token_id_equal (run_id c) AK_GENESIS_HASH) && negb (ak_token_id_equal (run_id c) r)
  | None => false
  end = false <-> (forall r, run = Some r -> run_id c = zeros 16 \/ run_id c = r).
Proof.
  intros Hc Hr. destruct run as [r|]; [|naive_solver].
  rewrite andb_false_iff, !negb_false_iff, genesis_equal, token_id_equalP by auto. naive_solver.
Qed.

Lemma scope_spec st c rt res method run now_ms alloc :
  length (run_id c) = 16%nat -> (forall r, run = Some r -> length r = 16%nat) ->
  fst (ak_capability_check_scope st c rt res method run now_ms alloc) = 0 <->
  in_scope st c rt res method run /\ rate_ok st c now_ms alloc.
Proof.
  intros Hc Hr. unfold ak_capability_check_scope.
  pose proof (ak_pattern_matchP (resource c) res) as Hp.
  pose proof (method_denied c method) as Hm. pose proof (run_denied c run Hc Hr) as Hrun.
  destruct (negb (cap_type c =? rt) && _ && _) eqn:Et.
  { split; [done|]. intros [[Ht _ _ _] _]. bprop. naive_solver. }
  assert (Ht : cap_type c = rt \/ cap_type c = AK_CAP_ADMIN \/ cap_type c = AK_CAP_ANY).
  { rewrite !andb_false_iff, !negb_false_iff, !Z.eqb_eq in Et. tauto. }
  destruct (ak_pattern_match _ _); cbn [negb]; [|split; [done|]; intros [[_ Hx _ _] _]; by apply Hp in Hx].
  destruct (match method with Some _ => _ | None => _ end);
    [split; [done|]; intros [[_ _ Hx _] _]; by apply Hm in Hx|].
  destruct (match run with Some _ => _ | None => _ end);
    [split; [done|]; intros [[_ _ _ Hx] _]; by apply Hrun in Hx|].
  assert (Hs : in_scope st c rt res method run) by (constructor; [done|by apply Hp|by apply Hm|by apply Hrun]).
  unfold rate_ok. destruct (Z.ltb_spec 0 (rate_limit c)).
  - destruct (ak_rate_limit_check _ _ _ _ _ _) as [[] r]; simpl; split; try done; [auto|].
    intros [_ [?|?]]; [lia|done].
  - simpl. split; [auto|done].
Qed.

Lemma scope_codes st c rt res method run now_ms alloc :
  let '(rv, st') := ak_capability_check_scope st c rt res method run now_ms alloc in
  rv ∈ [0; AK_E_CAP_SCOPE; AK_E_CAP_RUN_MISMATCH; AK_E_CAP_RATE] /\
  (rv = AK_E_CAP_SCOPE \/ rv = AK_E_CAP_RUN_MISMATCH -> st' = st) /\
  exists r, st' = with_rate st r.
Proof.
  unfold ak_capability_check_scope.
  assert (exists r, st = with_rate st r) by (exists (cs_rate st); by destruct st).
  destruct (negb (cap_type c =? rt) && _ && _); [split; [repeat constructor|done]|].
  destruct (negb (ak_pattern_match _ _)); [split; [repeat constructor|done]|].
  destruct (match method with Some _ => _ | None => _ end); [split; [repeat constructor|done]|].
  destruct (match run with Some _ => _ | None => _ end); [split; [repeat constructor|done]|].
  destruct (0 <? rate_limit c); [|split; [repeat constructor|done]].
  destruct (ak_rate_limit_check _ _ _ _ _ _) as [[] r]; (split; [repeat constructor|]); split; eauto; done || intros [|]; done.
Qed.

(** ** Validation *)

Lemma verify_sign st cap now_ms alloc :
  (ak_capability_verify raw_s st cap now_ms alloc <? 0) = false <->
  ak_capability_verify raw_s st cap now_ms alloc = 0.
Proof.
  pose proof (verify_codes st cap now_ms alloc) as Hv.
  set (v := ak_capability_verify _ _ _ _ _) in *. clearbody v.
  repeat (apply elem_of_cons in Hv as [->|Hv]; [done|]). by apply elem_of_nil in Hv.
Qed.

Lemma validate_spec st c rt res method run now_v now_r am ar :
  wf_cap c -> (forall r, run = Some r -> length r = 16%nat) ->
  fst (ak_capability_validate raw_s st (Some c) rt (Some res) method run now_v now_r am ar) = 0 <->
  (exists key, ak_key_get (cs_keys st) (cap_kid c) = Some key /\ mac c = cap_mac raw_s am key c /\
     now_v <= u64 (issued_ms c + ttl_ms c)) /\
  ak_revocation_find_locked (cs_rev st) (tid c) = None /\
  in_scope st c rt res method run /\ rate_ok st c now_r ar.
Proof.
  intros Hc Hr. rewrite <-(verify_spec st c now_v am) by apply Hc.
  rewrite <-(scope_spec st c rt res method run now_r ar) by (done || apply Hc).
  unfold ak_capability_validate. pose proof (verify_sign st (Some c) now_v am) as Hs.
  destruct (_ <? 0) eqn:Ev in |- *.
  { split; [|intros [Hv _]; apply Hs in Hv; congruence]. simpl. intros Hv. apply Hs in Hv. congruence. }
  apply Hs in Ev as Hv. unfold ak_revocation_check.
  destruct (ak_revocation_find_locked _ _); [split; [done|naive_solver]|].
  pose proof (scope_codes st c rt res method run now_r ar) as Hsc.
  destruct (ak_capability_check_scope _ _ _ _ _ _ _ _) as [rv st']. destruct Hsc as (Hrv & _).
  cbn [fst]. repeat (apply elem_of_cons in Hrv as [->|Hrv]; [simpl; naive_solver|]).
  by apply elem_of_nil in Hrv.
Qed.

(** C11: complete mediation.  [ak_capability_validate] answers 0 exactly when
    the token's key is live, its MAC is the one of its canonical text under
    that key, it has not expired, it is not revoked, its type covers the
    required type, its resource pattern matches the resource as a glob, the
    method and the run are the ones it names, and its rate limit admits the
    call. *)
Theorem validate_correct st c rt res method run now_v now_r am ar :
  wf_cap c -> (forall r, run = Some r -> length r = 16%nat) ->
  fst (ak_capability_validate raw_s st (Some c) rt (Some res) method run now_v now_r am ar) = 0 <->
  (exists key, ak_key_get (cs_keys st) (cap_kid c) = Some key /\ mac c = cap_mac raw_s am key c /\
     now_v <= u64 (issued_ms c + ttl_ms c)) /\
  ak_revocation_find_locked (cs_rev st) (tid c) = None /\
  in_scope st c rt res method run /\ rate_ok st c now_r ar.
Proof. apply validate_spec. Qed.

(** validation fails closed and leaves no trace.  Its answer is 0 or one of
    the seven capability errors; it never changes keys or revocations; and
    only an answer of 0 or [AK_E_CAP_RATE] may have touched the rate counters:
    a token that is forged, expired, revoked or out of scope consumes nothing. *)
Theorem validate_fail_closed st cap rt res method run now_v now_r am ar :
  let '(rv, st') := ak_capability_validate raw_s st cap rt res method run now_v now_r am ar in
  rv ∈ [0; AK_E_CAP_MISSING; AK_E_CAP_INVALID; AK_E_CAP_EXPIRED; AK_E_CAP_SCOPE; AK_E_CAP_REVOKED;
        AK_E_CAP_RATE; AK_E_CAP_RUN_MISMATCH] /\
  cs_keys st' = cs_keys st /\ cs_rev st' = cs_rev st /\
  (rv <> 0 -> rv <> AK_E_CAP_RATE -> st' = st) /\
  (cap = None -> rv <> 0).
Proof.
  unfold ak_capability_validate. destruct res as [res|]; [|split; [repeat constructor|done]].
  pose proof (verify_sign st cap now_v am) as Hs. pose proof (verify_codes st cap now_v am) as Hv.
  destruct (_ <? 0) eqn:Ev in |- *.
  { split; [|split; [done|split; [done|split; [done|]]]].
    - rewrite !elem_of_cons in *. tauto.
    - intros _ Hz. apply Hs in Hz. congruence. }
  apply Hs in Ev. destruct cap as [c|]; [|discriminate].
  destruct (ak_revocation_check _ _); [split; [repeat constructor|done]|].
  pose proof (scope_codes st c rt res method run now_r ar) as Hsc.
  destruct (ak_capability_check_scope _ _ _ _ _ _ _ _) as [rv st'].
  destruct Hsc as (Hrv & Hsame & r & ->). clear Hs Hv.
  repeat (apply elem_of_cons in Hrv as [->|Hrv];
    [simpl; split; [repeat constructor|split; [done|split; [done|split; [|done]]]]; intros; naive_solver|]).
  by apply elem_of_nil in Hrv.
Qed.

(** ** Creation *)

(** The arguments of a creation as C passes them: strings without NUL,
    integers of their width, a key id that is a byte. *)
Record wf_request (st : cap_state) (res : bytes) (meths : list bytes) (ttl limit window : Z)
    (run : option bytes) (now_ms : Z) (rnd : bytes) : Prop := {
  rq_res : nonul res /\ wf_bytes res;
  rq_meths : Forall (fun m => nonul m /\ wf_bytes m) meths;
  rq_ttl : is_u32 ttl;
  rq_limit : is_u32 limit;
  rq_window : is_u32 window;
  rq_run r : run = Some r -> length r = 16%nat /\ wf_bytes r;
  rq_now : is_u64 now_ms;
  rq_rnd : length rnd = 16%nat /\ wf_bytes rnd;
  rq_kid : is_u8 (kid (ak_key_get_active (cs_keys st)))
}.

Lemma copy_methods_spec room ms r :
  copy_methods room ms = Some r ->
  r = method_slot <$> take room ms /\ Forall (fun m => (length m < 32)%nat) (take room ms) /\
  (length r <= room)%nat.
Proof.
  revert ms r; induction room as [|room IH]; intros ms r; cbn [copy_methods].
  { intros [= <-]. split; [done|]. split; [constructor|done]. }
  destruct ms as [|m ms]; [intros [= <-]; split; [done|split; [constructor|simpl; lia]]|].
  destruct (Nat.leb_spec 32 (length m)); [done|].
  destruct (copy_methods room ms) as [r'|] eqn:E; [|done]. intros [= <-].
  destruct (IH _ _ E) as (-> & Hf & Hl). split; [done|]. cbn. split; [by constructor|lia].
Qed.

Lemma cstr_slot m : nonul m -> cstr (method_slot m) = m.
Proof. apply cstr_app_zeros. Qed.

Lemma cstr_slots ms : Forall nonul ms -> cstr <$> (method_slot <$> ms) = ms.
Proof. induction 1 as [|m ms Hm Hms IH]; [done|]. cbn. rewrite cstr_slot by done. by f_equal. Qed.

Lemma wf_method_slot m :
  nonul m -> wf_bytes m -> (length m < 32)%nat ->
  length (method_slot m) = 32%nat /\ wf_bytes (method_slot m) /\ (length (cstr (method_slot m)) < 32)%nat.
Proof.
  intros Hn Hw Hl. rewrite cstr_slot by done. unfold method_slot, zeros.
  rewrite length_app, length_replicate. repeat split; [lia| |lia].
  apply Forall_app. split; [done|apply wf_zeros].
Qed.

Lemma wf_empty_slot : length (zeros 32) = 32%nat /\ wf_bytes (zeros 32) /\ (length (cstr (zeros 32)) < 32)%nat.
Proof. split; [done|]. split; [apply wf_zeros|]. simpl. lia. Qed.

(** The fields of a created token. *)
Record created (st : cap_state) (type : Z) (res : bytes) (meths : list bytes) (ttl limit window : Z)
    (run : option bytes) (now_ms : Z) (rnd : bytes) (alloc_mac : bool) (c : ak_capability) : Prop := {
  cr_type : cap_type c = type /\ AK_CAP_NONE <= type <= AK_CAP_ADMIN;
  cr_res : resource c = res ++ zeros (256 - length res) /\ (length res < 255)%nat /\
           resource_len c = Z.of_nat (length res);
  cr_meths : methods c = (method_slot <$> take 8 meths) ++
               replicate (8 - length (take 8 meths)) (zeros 32) /\
             method_count c = Z.of_nat (length (take 8 meths)) /\
             Forall (fun m => (length m < 32)%nat) (take 8 meths);
  cr_time : issued_ms c = now_ms /\ ttl_ms c = Z.min ttl AK_MAX_CAP_TTL_MS /\ ttl <> 0;
  cr_rate : rate_limit c = limit /\ rate_window_ms c = window;
  cr_run : run_id c = match run with Some r => take AK_TOKEN_ID_SIZE r | None => zeros 16 end;
  cr_tid : tid c = take AK_TOKEN_ID_SIZE rnd;
  cr_kid : cap_kid c = kid (ak_key_get_active (cs_keys st));
  cr_mac : mac c = cap_mac raw_s alloc_mac (ak_key_get_active (cs_keys st)) c
}.

Lemma canonicalize_with_mac c m :
  ak_capability_canonicalize raw_s (with_mac c m) = ak_capability_canonicalize raw_s c.
Proof. done. Qed.

Lemma create_spec st type res meths ttl limit window run now_ms rnd alloc am c :
  ak_capability_create raw_s st type res meths ttl limit window run now_ms rnd alloc am = Some c ->
  exists r, res = Some r /\
    created st type r (default [] meths) ttl limit window run now_ms rnd am c.
Proof.
  unfold ak_capability_create. destruct res as [r|]; [|done]. intros Hc. exists r. split; [done|].
  destruct (_ || _) eqn:Et; [done|]. bprop. destruct (Z.eqb_spec ttl 0); [done|]. cbv zeta in Hc.
  destruct alloc; [|done]. cbn [negb] in Hc.
  destruct (Nat.leb_spec 256 (length r)); [done|]. destruct (Nat.leb_spec 255 (length r)); [done|].
  destruct (copy_methods _ _) as [ms|] eqn:Em; [|done].
  apply copy_methods_spec in Em as (-> & Hf & Hl). injection Hc as <-.
  rewrite length_fmap in *. constructor; cbn; try done; repeat split; try done; try lia.
  destruct (Z.ltb_spec AK_MAX_CAP_TTL_MS ttl); lia.
Qed.

Lemma created_wf st type res meths ttl limit window run now_ms rnd am c :
  wf_request st res meths ttl limit window run now_ms rnd ->
  created st type res meths ttl limit window run now_ms rnd am c -> wf_cap c.
Proof.
  intros [[Hrn Hrw] Hm Httlw Hlim Hwin Hrun Hnow [Hrnd Hrndw] Hkid]
    [[Ht Htr] (Hr & Hrl & Hrlen) (Hms & Hmc & Hml) (Hi & Httl & Htn) [Hl Hw] Hru Hti Hk Hmac].
  unfold AK_TOKEN_ID_SIZE in *.
  assert (Hlen : (length (take 8 meths) <= 8)%nat) by (rewrite length_take; lia).
  constructor.
  - rewrite Ht. unfold is_u8, AK_CAP_NONE, AK_CAP_ADMIN in *. lia.
  - rewrite Hr, length_app. unfold zeros. rewrite length_replicate. lia.
  - rewrite Hr. apply Forall_app. split; [done|apply wf_zeros].
  - lia.
  - rewrite Hr, Hrlen, Nat2Z.id, list_lookup_total_alt, lookup_app_r by lia.
    unfold zeros. rewrite lookup_replicate_2 by lia. done.
  - rewrite Hms, length_app, length_fmap, length_replicate. lia.
  - rewrite Hms. apply Forall_app. split; [|apply Forall_replicate, wf_empty_slot].
    apply Forall_fmap. apply (Forall_take _ 8) in Hm.
    eapply Forall_impl; [exact (proj2 (Forall_and _ _) (conj Hm Hml))|].
    intros m [[? ?] ?]. by apply wf_method_slot.
  - lia.
  - by rewrite Hi.
  - rewrite Httl. unfold is_u32, AK_MAX_CAP_TTL_MS in *. lia.
  - by rewrite Hl.
  - by rewrite Hw.
  - rewrite Hru. destruct run as [r|]; [|split; [done|apply wf_zeros]].
    destruct (Hrun r eq_refl). by rewrite take_ge by lia.
  - rewrite Hti, take_ge by lia. done.
  - by rewrite Hk.
  - rewrite Hmac. split; [apply length_hmac|apply wf_hmac].
Qed.

Lemma created_resource st type res meths ttl limit window run now_ms rnd am c :
  created st type res meths ttl limit window run now_ms rnd am c -> nonul res ->
  cstr (resource c) = res.
Proof. intros [_ (-> & _) _ _ _ _ _ _ _] Hn. by apply cstr_app_zeros. Qed.

Lemma created_methods st type res meths ttl limit window run now_ms rnd am c :
  created st type res meths ttl limit window run now_ms rnd am c ->
  Forall (fun m => nonul m /\ wf_bytes m) meths -> used_methods c = take 8 meths.
Proof.
  intros [_ _ (Hms & Hmc & _) _ _ _ _ _ _] Hn. unfold used_methods. rewrite Hms, Hmc, Nat2Z.id.
  rewrite take_app_le, take_ge by (rewrite length_fmap; lia).
  apply cstr_slots, Forall_take. eapply Forall_impl; [exact Hn|]. simpl. tauto.
Qed.

Lemma created_verify raw' st st' type res meths ttl limit window run now_ms rnd c now' :
  created st type res meths ttl limit window run now_ms rnd true c ->
  secret <$> ak_key_get (cs_keys st') (cap_kid c) = Some (secret (ak_key_get_active (cs_keys st))) ->
  (forall m, m ∈ printed_methods c -> raw' m = raw_s m) ->
  0 <= now_ms -> now_ms + AK_MAX_CAP_TTL_MS < M64 -> 0 <= ttl ->
  ak_capability_verify raw' st' (Some c) now' true =
    if now_ms + ttl_ms c <? now' then AK_E_CAP_EXPIRED else 0.
Proof.
  intros [_ _ _ (Hi & Ht & Htn) _ _ _ Hk Hm] Hkey Hraw Hn0 Hn1 Htl. unfold ak_capability_verify.
  destruct (ak_key_get (cs_keys st') (cap_kid c)) as [key|]; [|discriminate Hkey]. injection Hkey as Hkey.
  assert (Hcm : cap_mac raw' true key c = cap_mac raw_s true (ak_key_get_active (cs_keys st)) c)
    by (unfold cap_mac; by rewrite Hkey, (canonicalize_ext raw' raw_s c Hraw)).
  rewrite Hcm.
  rewrite (proj2 (mac_compareP (mac c) (cap_mac raw_s true (ak_key_get_active (cs_keys st)) c)
    ltac:(rewrite Hm; apply length_hmac) (length_hmac _ _ _)) Hm).
  cbn [negb]. rewrite Hi. unfold u64, AK_MAX_CAP_TTL_MS in *. rewrite Z.mod_small by lia. done.
Qed.

(** C13: Tokens the kernel mints are accepted until they expire.  A token made
    by [ak_capability_create] is well-formed and lives at most
    [AK_MAX_CAP_TTL_MS] units of the clock; and in every later state that still
    has the secret of the key it was made with under its key identifier
    (rotations keep it until the key is retired), it verifies up to
    the reading [issued + ttl] of the clock and is reported expired from the
    next one on.  Both MAC buffers are allocated, and [%s] prints the method
    slots alike at both calls.  One unit is [MILLION] counts of [now], which
    are parts of 2^-32 of a second. *)
Theorem created_token_verifies raw' st st' type res meths ttl limit window run now_ms rnd alloc c now' :
  wf_request st res (default [] meths) ttl limit window run now_ms rnd ->
  now_ms + AK_MAX_CAP_TTL_MS < M64 ->
  ak_capability_create raw_s st type (Some res) meths ttl limit window run now_ms rnd alloc true = Some c ->
  secret <$> ak_key_get (cs_keys st') (cap_kid c) = Some (secret (ak_key_get_active (cs_keys st))) ->
  (forall m, m ∈ printed_methods c -> raw' m = raw_s m) ->
  wf_cap c /\ 0 < ttl_ms c <= AK_MAX_CAP_TTL_MS /\
  ak_capability_verify raw' st' (Some c) now' true =
    if now_ms + ttl_ms c <? now' then AK_E_CAP_EXPIRED else 0.
Proof.
  intros Hrq Hn Hc Hkey Hraw. apply create_spec in Hc as (r & [= <-] & Hc).
  split; [by eapply created_wf|]. pose proof (rq_ttl _ _ _ _ _ _ _ _ _ Hrq) as Ht.
  pose proof (rq_now _ _ _ _ _ _ _ _ _ Hrq) as Hnow. unfold is_u32, is_u64 in *.
  split; [|eapply created_verify; [exact Hc|exact Hkey|exact Hraw|lia|done|lia]].
  destruct Hc as [_ _ _ (_ & -> & ?) _ _ _ _ _]. unfold AK_MAX_CAP_TTL_MS. lia.
Qed.

(** honest use is admitted.  A minted token without a rate limit, used
    before it expires and not revoked, authorizes every access to a resource
    its pattern matches, with one of its methods (or any, when it names none),
    from its own run: validation returns 0. *)
Theorem honest_use_admitted st type res meths ttl window run now_ms rnd alloc c r m now_v now_r ar :
  key_inv (cs_keys st) -> wf_request st res (default [] meths) ttl 0 window (Some run) now_ms rnd ->
  now_ms + AK_MAX_CAP_TTL_MS < M64 ->
  ak_capability_create raw_s st type (Some res) meths ttl 0 window (Some run) now_ms rnd alloc true = Some c ->
  now_v <= now_ms + ttl_ms c -> ak_revocation_find_locked (cs_rev st) (tid c) = None ->
  Glob res r -> nonul r -> nonul m -> default [] meths = [] \/ m ∈ take 8 (default [] meths) ->
  fst (ak_capability_validate raw_s st (Some c) type (Some r) (Some m) (Some run) now_v now_r true ar) = 0.
Proof.
  intros Hinv Hrq Hn Hc Hv Hrev Hg Hr Hm Hms. apply create_spec in Hc as (x & [= <-] & Hc).
  pose proof (created_wf _ _ _ _ _ _ _ _ _ _ _ _ Hrq Hc) as Hwf.
  destruct (rq_run _ _ _ _ _ _ _ _ _ Hrq run eq_refl) as [Hrl _].
  pose proof (rq_ttl _ _ _ _ _ _ _ _ _ Hrq) as Ht. pose proof (rq_now _ _ _ _ _ _ _ _ _ Hrq) as Hnow.
  unfold is_u32, is_u64 in *.
  assert (Hkey : secret <$> ak_key_get (cs_keys st) (cap_kid c) = Some (secret (ak_key_get_active (cs_keys st))))
    by (rewrite (cr_kid _ _ _ _ _ _ _ _ _ _ _ _ Hc), active_key_found; done).
  assert (Hver := created_verify raw_s _ _ _ _ _ _ _ _ _ _ _ _ now_v Hc Hkey ltac:(done) ltac:(lia) Hn ltac:(lia)).
  destruct (Z.ltb_spec (now_ms + ttl_ms c) now_v); [lia|].
  unfold ak_capability_validate. rewrite Hver. cbn [Z.ltb Z.compare].
  unfold ak_revocation_check. rewrite Hrev.
  assert (Hs : fst (ak_capability_check_scope st c type r (Some m) (Some run) now_r ar) = 0).
  { apply scope_spec; [apply Hwf|by intros ? [= <-]|]. split.
    - constructor.
      + left. apply Hc.
      + rewrite (created_resource _ _ _ _ _ _ _ _ _ _ _ _ Hc), (cstr_nonul_id r) by (done || apply Hrq). done.
      + intros ? [= <-]. rewrite (cstr_nonul_id m) by done.
        rewrite (created_methods _ _ _ _ _ _ _ _ _ _ _ _ Hc) by apply Hrq.
        destruct Hms as [He|?]; [left|by right]. destruct (cr_meths _ _ _ _ _ _ _ _ _ _ _ _ Hc) as (_ & -> & _).
        by rewrite He.
      + intros ? [= <-]. right. rewrite (cr_run _ _ _ _ _ _ _ _ _ _ _ _ Hc). apply take_ge.
        unfold AK_TOKEN_ID_SIZE. lia.
    - left. destruct (cr_rate _ _ _ _ _ _ _ _ _ _ _ _ Hc) as [-> _]. lia. }
  destruct (ak_capability_check_scope _ _ _ _ _ _ _ _) as [rv st']. simpl in Hs. by subst rv.
Qed.

(** ** Delegation *)

(** delegation attenuates.  A token that [ak_capability_delegate] returns
    is derived from a parent that verifies; it has the parent's type and run,
    at most its rate limit, a resource the parent's pattern covers, and, when
    it names methods, only methods of the parent; it expires no later than the
    parent, up to the time that passed between the two clock readings; and
    [ak_capability_subsumed] agrees. *)
Theorem delegation_attenuates st parent type res meths ttl limit window nv nt nc rnd alloc am1 am2 child :
  wf_cap parent -> issued_ms parent + ttl_ms parent < M64 -> 0 <= nt ->
  wf_request st res (default [] meths) ttl limit window (Some (run_id parent)) nc rnd ->
  ak_capability_delegate raw_s st parent type res meths ttl limit window nv nt nc rnd alloc am1 am2
    = Some child ->
  ak_capability_verify raw_s st (Some parent) nv am1 = 0 /\
  cap_type child = cap_type parent /\ run_id child = run_id parent /\
  rate_limit child <= rate_limit parent /\ Glob (cstr (resource parent)) (cstr (resource child)) /\
  Forall (fun m => m ∈ used_methods parent) (used_methods child) /\
  issued_ms child + ttl_ms child <= issued_ms parent + ttl_ms parent + (nc - nt) /\
  ak_capability_subsumed parent child nt = true.
Proof.
  intros Hp Hov Hnt Hrq. unfold ak_capability_delegate.
  destruct (_ <? 0) eqn:Ev; [done|]. apply verify_sign in Ev.
  destruct (Z.eqb_spec type (cap_type parent)) as [->|]; [|done]. cbn [negb].
  destruct (Z.ltb_spec (ak_capability_remaining_ttl parent nt) ttl) as [|Hrem]; [done|].
  destruct (Z.ltb_spec (rate_limit parent) limit) as [|Hlim]; [done|].
  destruct (ak_pattern_match _ _) eqn:Epat; [|done]. apply ak_pattern_matchP in Epat as Hg. cbn [negb].
  destruct (forallb _ _) eqn:Em; [|done]. cbn [negb].
  intros Hc. apply create_spec in Hc as (r & [= <-] & Hc).
  assert (Hres := created_resource _ _ _ _ _ _ _ _ _ _ _ _ Hc (proj1 (rq_res _ _ _ _ _ _ _ _ _ Hrq))).
  assert (Hmeth := created_methods _ _ _ _ _ _ _ _ _ _ _ _ Hc (rq_meths _ _ _ _ _ _ _ _ _ Hrq)).
  rewrite (cstr_nonul_id res) in Hg by apply Hrq.
  destruct Hc as [[Ht _] _ _ (Hi & Httl & Htn) [Hl _] Hru _ _ _].
  assert (Hin : forallb (fun m => method_found m parent) (used_methods child) = true).
  { rewrite Hmeth. apply forallb_forall. intros m Hm. rewrite forallb_forall in Em. apply Em.
    apply list_elem_of_In. apply list_elem_of_In in Hm. by eapply elem_of_take_in. }
  split; [done|]. split; [done|]. split; [|split; [lia|split; [by rewrite Hres|split]]].
  - rewrite Hru. apply take_ge. unfold AK_TOKEN_ID_SIZE. destruct (wf_run _ Hp) as [-> _]. lia.
  - apply list.Forall_forall. intros m Hm. rewrite forallb_forall in Hin.
    specialize (Hin m (proj1 (list_elem_of_In _ _) Hm)). apply method_foundP in Hin.
    rewrite cstr_nonul_id in Hin; [done|]. rewrite Hmeth in Hm.
    apply elem_of_take_in in Hm. pose proof (rq_meths _ _ _ _ _ _ _ _ _ Hrq) as Hf.
    rewrite list.Forall_forall in Hf. by apply Hf.
  - pose proof (wf_issued _ Hp) as Hpi. pose proof (wf_ttl _ Hp) as Hpt. unfold is_u64, is_u32 in *.
    assert (Hr : 0 < ttl -> nt + ttl <= issued_ms parent + ttl_ms parent).
    { intros Hpos. unfold ak_capability_remaining_ttl, u64, u32 in Hrem.
      rewrite (Z.mod_small (issued_ms parent + _)) in Hrem by lia.
      destruct (Z.leb_spec (issued_ms parent + ttl_ms parent) nt); [lia|].
      pose proof (Z.mod_le (issued_ms parent + ttl_ms parent - nt) M32 ltac:(lia) ltac:(lia)). lia. }
    pose proof (rq_ttl _ _ _ _ _ _ _ _ _ Hrq) as Htu. unfold is_u32 in Htu. split; [lia|].
    unfold ak_capability_subsumed. rewrite Ht, Z.eqb_refl. cbn [negb].
    rewrite (proj2 (Z.ltb_ge _ _)), (proj2 (Z.ltb_ge _ _)) by lia.
    assert (ak_pattern_match (resource parent) (resource child) = true) as ->
      by (apply ak_pattern_matchP; by rewrite Hres). done.
Qed.
End Theorems.


(** ** A concrete token *)

Definition demo_cs : cap_state :=
  mk_cap_state (ak_keys_init (replicate 4 zero_key) None (replicate 32 7) 1000)
    (mk_rev_state ∅ 0) (mk_rate_state ∅ 0).
Definition demo_run : bytes := replicate 16 3.
Definition demo_rnd : bytes := replicate 16 5.

Definition or_dummy (o : option ak_capability) : ak_capability :=
  default (mk_cap 0 [] 0 [] 0 0 0 0 0 [] [] 0 []) o.

Definition demo_cap : ak_capability :=
  or_dummy (ak_capability_create cstr demo_cs AK_CAP_NET (Some B"api.*") (Some [B"GET"]) 60000 0 0
    (Some demo_run) 2000 demo_rnd true true).

Lemma demo_cap_created :
  ak_capability_create cstr demo_cs AK_CAP_NET (Some B"api.*") (Some [B"GET"]) 60000 0 0
    (Some demo_run) 2000 demo_rnd true true = Some demo_cap.
Proof. vm_compute. reflexivity. Qed.

Lemma demo_key_inv : key_inv (cs_keys demo_cs).
Proof. apply init_inv; [done|lia|vm_compute; reflexivity]. Qed.

Lemma demo_request : wf_request demo_cs B"api.*" [B"GET"] 60000 0 0 (Some demo_run) 2000 demo_rnd.
Proof.
  constructor; try (unfold is_u32, is_u64, is_u8; simpl; lia); try (intros ? [= <-]);
    repeat split; try done;
    apply (bool_decide_unpack _); vm_compute; exact I.
Qed.

Lemma demo_cap_wf : wf_cap demo_cap.
Proof.
  destruct (create_spec _ _ _ _ _ _ _ _ _ _ _ _ _ _ demo_cap_created) as (r & [= <-] & Hc).
  exact (created_wf _ _ _ _ _ _ _ _ _ _ _ _ _ demo_request Hc).
Qed.

Lemma validate_correct_witness :
  ak_revocation_find_locked (cs_rev demo_cs) (tid demo_cap) = None /\
  in_scope demo_cs demo_cap AK_CAP_NET B"api.example" (Some B"GET") (Some demo_run).
Proof.
  destruct (proj1 (validate_correct cstr demo_cs demo_cap AK_CAP_NET B"api.example" (Some B"GET")
    (Some demo_run) 3000 3000 true true demo_cap_wf ltac:(intros r [= <-]; reflexivity)))
    as (_ & H1 & H2 & _).
  - vm_compute. reflexivity.
  - split; [exact H1|exact H2].
Defined.

(** A state after one rotation of the keys. *)
Definition rotated_cs : cap_state := mk_cap_state (ak_key_rotate (cs_keys demo_cs) (replicate 32 9) (AK_KEY_ROTATION_MS + 5000)) (cs_rev demo_cs) (cs_rate demo_cs).

Lemma created_token_verifies_witness :
  wf_cap demo_cap /\ 0 < ttl_ms demo_cap <= AK_MAX_CAP_TTL_MS /\
  ak_capability_verify cstr rotated_cs (Some demo_cap) 62001 true =
    if 2000 + ttl_ms demo_cap <? 62001 then AK_E_CAP_EXPIRED else 0.
Proof.
  apply (created_token_verifies cstr cstr demo_cs rotated_cs AK_CAP_NET B"api.*" (Some [B"GET"]) 60000 0 0
    (Some demo_run) 2000 demo_rnd true demo_cap 62001).
  - exact demo_request.
  - vm_compute. reflexivity.
  - exact demo_cap_created.
  - vm_compute. reflexivity.
  - intros m _. reflexivity.
Defined.

Lemma honest_use_admitted_witness :
  fst (ak_capability_validate cstr demo_cs (Some demo_cap) AK_CAP_NET (Some B"api.example")
    (Some B"GET") (Some demo_run) 3000 3000 true true) = 0.
Proof.
  apply (honest_use_admitted cstr demo_cs AK_CAP_NET B"api.*" (Some [B"GET"]) 60000 0
    demo_run 2000 demo_rnd true demo_cap).
  - exact demo_key_inv.
  - exact demo_request.
  - vm_compute. reflexivity.
  - exact demo_cap_created.
  - vm_compute. congruence.
  - vm_compute. reflexivity.
  - apply (ak_pattern_matchP B"api.*" B"api.example"). vm_compute. reflexivity.
  - apply (bool_decide_unpack _). vm_compute. exact I.
  - apply (bool_decide_unpack _). vm_compute. exact I.
  - right. apply (bool_decide_unpack _). vm_compute. exact I.
Defined.

Definition demo_child : ak_capability :=
  or_dummy (ak_capability_delegate cstr demo_cs demo_cap AK_CAP_NET B"api.v1" (Some [B"GET"]) 1000 0 0
    3000 3001 3002 (replicate 16 6) true true true).

Lemma delegation_attenuates_witness :
  cap_type demo_child = AK_CAP_NET /\ ak_capability_subsumed demo_cap demo_child 3001 = true.
Proof.
  destruct (delegation_attenuates cstr demo_cs demo_cap AK_CAP_NET B"api.v1" (Some [B"GET"]) 1000 0 0
    3000 3001 3002 (replicate 16 6) true true true demo_child) as (_ & H1 & _ & _ & _ & _ & _ & H2).
  - exact demo_cap_wf.
  - vm_compute. reflexivity.
  - lia.
  - constructor; try (unfold is_u32, is_u64, is_u8; simpl; lia); try (intros ? [= <-]);
      repeat split; try done; apply (bool_decide_unpack _); vm_compute; exact I.
  - vm_compute. reflexivity.
  - split; [exact H1|exact H2].
Defined.


(** ** Limits of the scheme, on concrete tokens *)

(** A double quote in a method name is not escaped: a token with the single
    method [a","b] and one with the methods [a] and [b] have the same
    canonical text, hence the same MAC. *)
Definition with_methods (c : ak_capability) (ms : list bytes) : ak_capability :=
  mk_cap (cap_type c) (resource c) (resource_len c)
    ((method_slot <$> ms) ++ replicate (8 - length ms) (zeros 32)) (Z.of_nat (length ms)) (issued_ms c)
    (ttl_ms c) (rate_limit c) (rate_window_ms c) (run_id c) (tid c) (cap_kid c) (mac c).

Example quote_in_method_collides :
  let c1 := with_methods demo_cap [JQ"a','b"] in
  let c2 := with_methods demo_cap [B"a"; B"b"] in
  used_methods c1 <> used_methods c2 /\
  ak_capability_canonicalize cstr c1 = ak_capability_canonicalize cstr c2.
Proof. vm_compute. split; [discriminate|reflexivity]. Qed.

(** When the allocation inside the MAC fails during verification, the
    computed MAC is all zeros: any unexpired token with a live key id and a
    zero MAC passes, whatever it grants. *)
Lemma zero_mac_accepted `{Hash} raw_s st c key now_ms :
  ak_key_get (cs_keys st) (cap_kid c) = Some key -> mac c = zeros 32 ->
  now_ms <= u64 (issued_ms c + ttl_ms c) ->
  ak_capability_verify raw_s st (Some c) now_ms false = 0.
Proof.
  intros Hk Hm Hn. apply verify_spec; [by rewrite Hm|]. exists key. split; [done|]. split; [|done].
  by rewrite Hm.
Qed.

(** Delegation without a method list drops the parent's method restriction. *)
Example null_methods_escalate :
  let child := or_dummy (ak_capability_delegate cstr demo_cs demo_cap AK_CAP_NET B"api.v1" None 1000 0 0
                 3000 3001 3002 (replicate 16 6) true true true) in
  fst (ak_capability_validate cstr demo_cs (Some demo_cap) AK_CAP_NET (Some B"api.v1")
         (Some B"DELETE") (Some demo_run) 3003 3003 true true) = AK_E_CAP_SCOPE /\
  fst (ak_capability_validate cstr demo_cs (Some child) AK_CAP_NET (Some B"api.v1")
         (Some B"DELETE") (Some demo_run) 3003 3003 true true) = 0.
Proof. vm_compute. split; reflexivity. Qed.

(** Matching the child's pattern as a string against the parent's pattern is
    not subsumption: [a?c] covers the text [a*c], which matches more. *)
Example pattern_escalates :
  let parent := or_dummy (ak_capability_create cstr demo_cs AK_CAP_FS (Some B"/a?c") None 60000 0 0
                  (Some demo_run) 2000 demo_rnd true true) in
  let child := or_dummy (ak_capability_delegate cstr demo_cs parent AK_CAP_FS B"/a*c" None 1000 0 0
                  3000 3001 3002 (replicate 16 6) true true true) in
  fst (ak_capability_validate cstr demo_cs (Some parent) AK_CAP_FS (Some B"/a/etc/c")
         None (Some demo_run) 3003 3003 true true) = AK_E_CAP_SCOPE /\
  fst (ak_capability_validate cstr demo_cs (Some child) AK_CAP_FS (Some B"/a/etc/c")
         None (Some demo_run) 3003 3003 true true) = 0.
Proof. vm_compute. split; reflexivity. Qed.

(** A rate limit of 0 is unlimited, and passes the test against the parent's. *)
Example zero_rate_escalates :
  let parent := or_dummy (ak_capability_create cstr demo_cs AK_CAP_NET (Some B"*") None 60000 5 1000
                  (Some demo_run) 2000 demo_rnd true true) in
  let child := or_dummy (ak_capability_delegate cstr demo_cs parent AK_CAP_NET B"x" None 1000 0 0
                  3000 3001 3002 (replicate 16 6) true true true) in
  rate_limit parent = 5 /\ rate_limit child = 0 /\ ak_capability_subsumed parent child 3002 = true.
Proof. vm_compute. repeat split; reflexivity. Qed.
