(* ===== verification/CapWire.v ===== *)
(** * The wire format of capabilities ([src/src/agentic/ak_capability.c])

    [ak_capability_serialize] and [ak_capability_parse], the binary layout of
    [ak_capability.h] (version 1, 96-byte header).  Every read of the parser
    goes through [rd]/[rdn], so a read outside the buffer is the outcome
    [Oob], which the theorems exclude. *)

From S2P Require Import Prelude Crypto Format Pattern Keys TokenTable Revocation Capability.

Definition AK_CAP_WIRE_MAGIC : Z := 0x31504143.
Definition AK_CAP_WIRE_VERSION : Z := 1.
Definition AK_CAP_WIRE_HDR_SIZE : Z := 96.

Definition CAP_WIRE_OFF_MAGIC : Z := 0.
Definition CAP_WIRE_OFF_VERSION : Z := 4.
Definition CAP_WIRE_OFF_KID : Z := 5.
Definition CAP_WIRE_OFF_TYPE : Z := 6.
Definition CAP_WIRE_OFF_METHOD_COUNT : Z := 7.
Definition CAP_WIRE_OFF_TOTAL_LEN : Z := 8.
Definition CAP_WIRE_OFF_RESOURCE_LEN : Z := 10.
Definition CAP_WIRE_OFF_ISSUED_MS : Z := 12.
Definition CAP_WIRE_OFF_TTL_MS : Z := 20.
Definition CAP_WIRE_OFF_RATE_LIMIT : Z := 24.
Definition CAP_WIRE_OFF_RATE_WINDOW_MS : Z := 28.
Definition CAP_WIRE_OFF_RUN_ID : Z := 32.
Definition CAP_WIRE_OFF_TID : Z := 48.
Definition CAP_WIRE_OFF_MAC : Z := 64.

(** ** Serialization *)

Definition wire_total (c : ak_capability) : Z :=
  foldl (fun total m => u32 (total + (1 + Z.of_nat (length m))))
    (u32 (AK_CAP_WIRE_HDR_SIZE + resource_len c)) (used_methods c).

(** The header, in the order of the field offsets, which leave no gap. *)
Definition wire_header (c : ak_capability) (total : Z) : bytes :=
  le_enc 4 AK_CAP_WIRE_MAGIC ++
  AK_CAP_WIRE_VERSION :: cap_kid c :: u8 (cap_type c) :: method_count c ::
  le_enc 2 (u16 total) ++ le_enc 2 (resource_len c) ++ le_enc 8 (issued_ms c) ++
  le_enc 4 (ttl_ms c) ++ le_enc 4 (rate_limit c) ++ le_enc 4 (rate_window_ms c) ++
  run_id c ++ tid c ++ mac c.

(** One length-prefixed method: [mlen] is truncated to a byte. *)
Definition wire_method (m : bytes) : bytes :=
  let mlen := u8 (Z.of_nat (length m)) in mlen :: take (Z.to_nat mlen) m.

(** [alloc]: the allocation of the buffer. *)
Definition ak_capability_serialize (cap : option ak_capability) (alloc : bool) : option bytes :=
  match cap with
  | None => None
  | Some c =>
      if alloc then
        Some (wire_header c (wire_total c) ++ take (Z.to_nat (resource_len c)) (resource c) ++
              concat (wire_method <$> used_methods c))
      else None
  end.

(** ** Parsing *)

(** The loop over the methods; the final offset and the slots filled. *)
Fixpoint parse_methods (p : bytes) (n : nat) (off total_len : Z) : outcome (list bytes * Z) :=
  match n with
  | O => Ret ([], off)
  | S n' =>
      guard (negb (total_len <? off + 1)) in
      let* mlen := rd p off in
      let off := off + 1 in
      guard (negb (32 <=? mlen)) in
      guard (negb (total_len <? off + mlen)) in
      let* m := rdn p off mlen in
      let* r := parse_methods p n' (off + mlen) total_len in
      Ret (method_slot m :: fst r, snd r)
  end.

Definition ak_capability_parse (p : bytes) (alloc : bool) : outcome ak_capability :=
  let avail := Z.of_nat (length p) in
  guard (negb (avail <? AK_CAP_WIRE_HDR_SIZE)) in
  let* magic := rdn p CAP_WIRE_OFF_MAGIC 4 in
  guard (le_dec magic =? AK_CAP_WIRE_MAGIC) in
  let* version := rd p CAP_WIRE_OFF_VERSION in
  guard (version =? AK_CAP_WIRE_VERSION) in
  let* mcount := rd p CAP_WIRE_OFF_METHOD_COUNT in
  guard (negb (8 <? mcount)) in
  let* tl := rdn p CAP_WIRE_OFF_TOTAL_LEN 2 in
  let total_len := le_dec tl in
  guard (negb ((total_len <? AK_CAP_WIRE_HDR_SIZE) || (avail <? total_len))) in
  let* rl := rdn p CAP_WIRE_OFF_RESOURCE_LEN 2 in
  let rlen := le_dec rl in
  guard alloc in
  guard (negb (256 <=? rlen)) in
  guard (negb (total_len <? AK_CAP_WIRE_HDR_SIZE + rlen)) in
  let* k := rd p CAP_WIRE_OFF_KID in
  let* ty := rd p CAP_WIRE_OFF_TYPE in
  let* issued := rdn p CAP_WIRE_OFF_ISSUED_MS 8 in
  let* ttl := rdn p CAP_WIRE_OFF_TTL_MS 4 in
  let* limit := rdn p CAP_WIRE_OFF_RATE_LIMIT 4 in
  let* window := rdn p CAP_WIRE_OFF_RATE_WINDOW_MS 4 in
  let* run := rdn p CAP_WIRE_OFF_RUN_ID 16 in
  let* tok := rdn p CAP_WIRE_OFF_TID 16 in
  let* m := rdn p CAP_WIRE_OFF_MAC 32 in
  let* res := rdn p AK_CAP_WIRE_HDR_SIZE rlen in
  let* ms := parse_methods p (Z.to_nat mcount) (AK_CAP_WIRE_HDR_SIZE + rlen) total_len in
  guard (snd ms =? total_len) in
  Ret (mk_cap ty (res ++ zeros (256 - length res)) rlen
         (fst ms ++ replicate (8 - length (fst ms)) (zeros 32)) mcount
         (le_dec issued) (le_dec ttl) (le_dec limit) (le_dec window) run tok k m).

(** ** Lengths *)

Definition methods_size (ms : list bytes) : Z :=
  foldr (fun m n => 1 + Z.of_nat (length m) + n) 0 ms.

Lemma methods_size_bound ms :
  Forall (fun m => (length m < 32)%nat) ms -> 0 <= methods_size ms <= 32 * Z.of_nat (length ms).
Proof. induction 1; simpl; lia. Qed.

Lemma wire_total_fold ms acc :
  Forall (fun m => (length m < 32)%nat) ms -> 0 <= acc -> acc + methods_size ms < M32 ->
  foldl (fun total m => u32 (total + (1 + Z.of_nat (length m)))) acc ms = acc + methods_size ms.
Proof.
  intros Hms. revert acc. induction Hms as [|m ms Hm Hms IH]; intros acc Ha Hb; simpl in *; [lia|].
  pose proof (methods_size_bound ms Hms). unfold u32 at 2. rewrite Z.mod_small by lia.
  rewrite IH by lia. lia.
Qed.

Lemma wire_method_text m : (length m < 32)%nat -> wire_method m = Z.of_nat (length m) :: m.
Proof.
  intros Hm. unfold wire_method, u8. rewrite Z.mod_small by lia. by rewrite Nat2Z.id, take_ge.
Qed.

Lemma used_methods_short c : wf_cap c -> Forall (fun m => (length m < 32)%nat) (used_methods c).
Proof.
  intros Hc. unfold used_methods. apply Forall_fmap, Forall_take.
  eapply Forall_impl; [exact (wf_method_slots _ Hc)|]. simpl. tauto.
Qed.

Lemma length_used_methods c : wf_cap c -> Z.of_nat (length (used_methods c)) = method_count c.
Proof.
  intros Hc. unfold used_methods. rewrite length_fmap, length_take, (wf_methods _ Hc).
  pose proof (wf_method_count _ Hc). lia.
Qed.

Lemma wire_total_spec c :
  wf_cap c -> wire_total c = 96 + resource_len c + methods_size (used_methods c) /\ wire_total c < 1024.
Proof.
  intros Hc. pose proof (used_methods_short c Hc) as Hs. pose proof (methods_size_bound _ Hs).
  pose proof (length_used_methods c Hc). pose proof (wf_method_count _ Hc).
  pose proof (wf_resource_len _ Hc). unfold wire_total, AK_CAP_WIRE_HDR_SIZE.
  unfold u32 at 2 4. rewrite (Z.mod_small (96 + resource_len c)) by lia.
  rewrite wire_total_fold by (done || lia). lia.
Qed.

(** ** Round trip *)

Lemma parse_methods_wire ms pre tl total :
  Forall (fun m => (length m < 32)%nat) ms ->
  Z.of_nat (length pre) + methods_size ms <= total ->
  parse_methods (pre ++ concat (wire_method <$> ms) ++ tl) (length ms) (Z.of_nat (length pre)) total =
  Ret (method_slot <$> ms, Z.of_nat (length pre) + methods_size ms).
Proof.
  intros Hms. revert pre. induction Hms as [|m ms Hm Hms IH]; intros pre Ht;
    cbn [fmap list_fmap concat parse_methods length] in *.
  { cbn. by rewrite Z.add_0_r. }
  change (methods_size (m :: ms)) with (1 + Z.of_nat (length m) + methods_size ms) in *.
  pose proof (methods_size_bound ms Hms). rewrite wire_method_text by done.
  destruct (Z.ltb_spec total (Z.of_nat (length pre) + 1)); [lia|]. cbn [negb].
  rewrite <-!app_assoc. cbn [app]. rewrite rd_app by done. cbn [obind].
  destruct (Z.leb_spec 32 (Z.of_nat (length m))); [lia|]. cbn [negb].
  destruct (Z.ltb_spec total (Z.of_nat (length pre) + 1 + Z.of_nat (length m))); [lia|]. cbn [negb].
  rewrite (cons_middle (Z.of_nat (length m)) pre), (app_assoc pre).
  rewrite rdn_app by (rewrite ?length_app; simpl; lia). cbn [obind].
  specialize (IH ((pre ++ [Z.of_nat (length m)]) ++ m)).
  rewrite !length_app in IH. cbn [length] in IH. rewrite <-!app_assoc in *.
  replace (Z.of_nat (length pre) + 1 + Z.of_nat (length m))
    with (Z.of_nat (length pre + 1 + length m)) by lia.
  rewrite IH by lia. cbn [obind fst snd]. do 2 f_equal. lia.
Qed.

(** What the receiver reconstructs: the token with its unused bytes cleared. *)
Definition clean (c : ak_capability) : ak_capability :=
  mk_cap (cap_type c) (resource_text c ++ zeros (256 - length (resource_text c))) (resource_len c)
    ((method_slot <$> used_methods c) ++ replicate (8 - length (used_methods c)) (zeros 32))
    (method_count c) (issued_ms c) (ttl_ms c) (rate_limit c) (rate_window_ms c)
    (run_id c) (tid c) (cap_kid c) (mac c).

Lemma length_resource_text c : wf_cap c -> Z.of_nat (length (resource_text c)) = resource_len c.
Proof.
  intros Hc. unfold resource_text. rewrite length_take, (wf_resource _ Hc).
  pose proof (wf_resource_len _ Hc). lia.
Qed.

Lemma used_methods_clean c : wf_cap c -> used_methods (clean c) = used_methods c.
Proof.
  intros Hc. pose proof (length_used_methods c Hc) as Hl. unfold used_methods at 1, clean.
  cbn [method_count methods]. rewrite <-Hl, Nat2Z.id.
  rewrite take_app_le, take_ge by (rewrite length_fmap; lia).
  apply cstr_slots, Forall_fmap, Forall_true. intros m. apply cstr_nonul.
Qed.

Lemma resource_text_clean c : wf_cap c -> resource_text (clean c) = resource_text c.
Proof.
  intros Hc. pose proof (length_resource_text c Hc) as Hl. unfold resource_text at 1, clean.
  cbn [resource resource_len]. rewrite <-Hl, Nat2Z.id. by rewrite take_app_length.
Qed.

Lemma canonicalize_clean c :
  wf_cap c -> ak_capability_canonicalize cstr (clean c) = ak_capability_canonicalize cstr c.
Proof.
  intros Hc. destruct (wf_run _ Hc) as [Hr _], (wf_tid _ Hc) as [Ht _].
  rewrite !canonical_text by done. by rewrite used_methods_clean, resource_text_clean.
Qed.

Section Header.
Context (c : ak_capability) (Hc : wf_cap c) (total : Z) (Ht : 0 <= total < 1024) (r : bytes).
Let p := wire_header c total ++ r.

(** The header fields, read back. *)
Lemma wire_reads :
  rdn p CAP_WIRE_OFF_MAGIC 4 = Ret (le_enc 4 AK_CAP_WIRE_MAGIC) /\
  rd p CAP_WIRE_OFF_VERSION = Ret AK_CAP_WIRE_VERSION /\
  rd p CAP_WIRE_OFF_KID = Ret (cap_kid c) /\ rd p CAP_WIRE_OFF_TYPE = Ret (u8 (cap_type c)) /\
  rd p CAP_WIRE_OFF_METHOD_COUNT = Ret (method_count c) /\
  rdn p CAP_WIRE_OFF_TOTAL_LEN 2 = Ret (le_enc 2 (u16 total)) /\
  rdn p CAP_WIRE_OFF_RESOURCE_LEN 2 = Ret (le_enc 2 (resource_len c)) /\
  rdn p CAP_WIRE_OFF_ISSUED_MS 8 = Ret (le_enc 8 (issued_ms c)) /\
  rdn p CAP_WIRE_OFF_TTL_MS 4 = Ret (le_enc 4 (ttl_ms c)) /\
  rdn p CAP_WIRE_OFF_RATE_LIMIT 4 = Ret (le_enc 4 (rate_limit c)) /\
  rdn p CAP_WIRE_OFF_RATE_WINDOW_MS 4 = Ret (le_enc 4 (rate_window_ms c)) /\
  rdn p CAP_WIRE_OFF_RUN_ID 16 = Ret (run_id c) /\ rdn p CAP_WIRE_OFF_TID 16 = Ret (tid c) /\
  rdn p CAP_WIRE_OFF_MAC 32 = Ret (mac c).
Proof.
  destruct (wf_run _ Hc) as [Hr _], (wf_tid _ Hc) as [Hti _], (wf_mac _ Hc) as [Hm _].
  subst p. unfold wire_header. repeat progress (rewrite <-?app_assoc; cbn [app]).
  unfold CAP_WIRE_OFF_TOTAL_LEN, CAP_WIRE_OFF_RESOURCE_LEN, CAP_WIRE_OFF_ISSUED_MS, CAP_WIRE_OFF_TTL_MS,
    CAP_WIRE_OFF_RATE_LIMIT, CAP_WIRE_OFF_RATE_WINDOW_MS, CAP_WIRE_OFF_RUN_ID, CAP_WIRE_OFF_TID, CAP_WIRE_OFF_MAC.
  repeat split; read_field.
Qed.
End Header.

Lemma length_wire_header c total : wf_cap c -> length (wire_header c total) = 96%nat.
Proof.
  intros Hc. destruct (wf_run _ Hc) as [Hr _], (wf_tid _ Hc) as [Ht _], (wf_mac _ Hc) as [Hm _].
  unfold wire_header. rewrite !length_app. cbn [length]. rewrite !length_app, !length_le_enc, Hr, Ht, Hm. done.
Qed.

Lemma length_concat_wire ms :
  Forall (fun m => (length m < 32)%nat) ms ->
  Z.of_nat (length (concat (wire_method <$> ms))) = methods_size ms.
Proof.
  induction 1 as [|m ms Hm Hms IH]; [done|]. cbn [fmap list_fmap concat].
  rewrite length_app, wire_method_text by done. cbn. unfold methods_size in IH. lia.
Qed.

Lemma parse_wire c pad :
  wf_cap c ->
  ak_capability_parse ((wire_header c (wire_total c) ++ take (Z.to_nat (resource_len c)) (resource c) ++
    concat (wire_method <$> used_methods c)) ++ pad) true = Ret (clean c).
Proof.
  intros Hc. fold (resource_text c). rewrite <-!app_assoc. set (tl := resource_text c ++ _).
  destruct (wire_total_spec c Hc) as [Htot Hlt]. pose proof (wf_resource_len _ Hc) as Hrl.
  pose proof (methods_size_bound _ (used_methods_short c Hc)) as Hms.
  pose proof (length_resource_text c Hc) as Hlen. pose proof (length_wire_header c (wire_total c) Hc) as Hh.
  assert (Hcat : Z.of_nat (length tl) >= resource_len c + methods_size (used_methods c)).
  { subst tl. pose proof (length_concat_wire _ (used_methods_short c Hc)). rewrite !length_app. lia. }
  destruct (wire_reads c Hc (wire_total c) tl)
    as (E0 & E1 & E2 & E3 & E4 & E5 & E6 & E7 & E8 & E9 & E10 & E11 & E12 & E13).
  assert (Eres : rdn (wire_header c (wire_total c) ++ tl) AK_CAP_WIRE_HDR_SIZE (resource_len c) = Ret (resource_text c)).
  { subst tl. apply rdn_app; [by rewrite Hh|done]. }
  assert (Ems : parse_methods (wire_header c (wire_total c) ++ tl) (Z.to_nat (method_count c))
      (AK_CAP_WIRE_HDR_SIZE + resource_len c) (wire_total c) =
      Ret (method_slot <$> used_methods c, wire_total c)).
  { subst tl. rewrite (app_assoc (wire_header _ _)).
    rewrite <-(length_used_methods c Hc), Nat2Z.id.
    replace (AK_CAP_WIRE_HDR_SIZE + resource_len c)
      with (Z.of_nat (length (wire_header c (wire_total c) ++ resource_text c)))
      by (rewrite length_app, Hh; unfold AK_CAP_WIRE_HDR_SIZE; lia).
    rewrite parse_methods_wire; [|by apply used_methods_short|rewrite length_app, Hh; lia].
    do 2 f_equal. rewrite length_app, Hh. lia. }
  set (p := wire_header c (wire_total c) ++ tl) in *.
  assert (Hp : 96 <= wire_total c <= Z.of_nat (length p)) by (subst p; rewrite length_app, Hh; lia).
  clearbody p tl. unfold ak_capability_parse. cbv zeta.
  destruct (Z.ltb_spec (Z.of_nat (length p)) AK_CAP_WIRE_HDR_SIZE); [unfold AK_CAP_WIRE_HDR_SIZE in *; lia|].
  cbn [negb]. rewrite E0. cbn [obind]. rewrite le_dec_enc by (vm_compute; split; congruence).
  rewrite Z.eqb_refl, E1. cbn [obind]. rewrite Z.eqb_refl, E4. cbn [obind].
  pose proof (wf_method_count _ Hc). destruct (Z.ltb_spec 8 (method_count c)); [lia|].
  rewrite E5. cbn [negb obind]. unfold u16. rewrite Z.mod_small, le_dec_enc by lia.
  destruct (Z.ltb_spec (wire_total c) AK_CAP_WIRE_HDR_SIZE); [unfold AK_CAP_WIRE_HDR_SIZE in *; lia|].
  destruct (Z.ltb_spec (Z.of_nat (length p)) (wire_total c)); [lia|]. cbn [orb negb].
  rewrite E6. cbn [obind]. rewrite le_dec_enc by lia.
  destruct (Z.leb_spec 256 (resource_len c)); [lia|]. cbn [negb].
  destruct (Z.ltb_spec (wire_total c) (AK_CAP_WIRE_HDR_SIZE + resource_len c));
    [unfold AK_CAP_WIRE_HDR_SIZE in *; lia|]. cbn [negb].
  rewrite E2, E3, E7, E8, E9, E10, E11, E12, E13, Eres, Ems. cbn [obind fst snd].
  rewrite Z.eqb_refl. pose proof (wf_issued _ Hc). pose proof (wf_ttl _ Hc). pose proof (wf_rate _ Hc).
  pose proof (wf_window _ Hc). pose proof (wf_type _ Hc). unfold is_u64, is_u32, is_u8 in *.
  rewrite !le_dec_enc by lia. unfold clean, u8. rewrite Z.mod_small by lia.
  by rewrite length_fmap.
Qed.

(** tokens survive transport.  Parsing the serialization of a well-formed
    token, with any bytes after it, returns the token with its unused bytes
    cleared: same authority, same MAC, and the same answer from verification
    at any time. *)
Theorem wire_round_trip c pad w :
  wf_cap c -> ak_capability_serialize (Some c) true = Some w ->
  ak_capability_parse (w ++ pad) true = Ret (clean c) /\
  same_authority c (clean c) /\ mac (clean c) = mac c /\
  forall `{Hash} st now_ms alloc,
    ak_capability_verify cstr st (Some (clean c)) now_ms alloc =
    ak_capability_verify cstr st (Some c) now_ms alloc.
Proof.
  intros Hc [= <-]. split; [|split; [|split; [done|]]].
  - by apply parse_wire.
  - unfold same_authority. by rewrite used_methods_clean, resource_text_clean.
  - intros HH st now_ms alloc. unfold ak_capability_verify, cap_mac. by rewrite canonicalize_clean.
Qed.

(** ** Arbitrary input *)

Definition slot_ok (m : bytes) : Prop :=
  length m = 32%nat /\ wf_bytes m /\ (length (cstr m) < 32)%nat.

Lemma length_cstr_pad m n : (length (cstr (m ++ zeros (S n))) <= length m)%nat.
Proof. induction m as [|b m IH]; simpl; [done|]. destruct (b =? 0); simpl; lia. Qed.

Lemma slot_ok_slot m : wf_bytes m -> (length m < 32)%nat -> slot_ok (method_slot m).
Proof.
  intros Hw Hl. unfold slot_ok, method_slot. split; [|split].
  - rewrite length_app. unfold zeros. rewrite length_replicate. lia.
  - apply Forall_app. split; [done|apply wf_zeros].
  - replace (32 - length m)%nat with (S (31 - length m)) by lia.
    pose proof (length_cstr_pad m (31 - length m)). lia.
Qed.

Lemma parse_methods_safe p n off total :
  wf_bytes p -> 0 <= off -> total <= Z.of_nat (length p) ->
  match parse_methods p n off total with
  | Ret (ms, _) => length ms = n /\ Forall slot_ok ms
  | Null => True
  | Oob => False
  end.
Proof.
  intros Hp. revert off. induction n as [|n IH]; intros off Ho Ht; cbn [parse_methods]; [by repeat constructor|].
  destruct (Z.ltb_spec total (off + 1)); cbn [negb]; [done|].
  destruct (rd_ok p off Hp) as (mlen & -> & Hm); [lia|]. cbn [obind]. unfold is_u8 in Hm.
  destruct (Z.leb_spec 32 mlen); cbn [negb]; [done|].
  destruct (Z.ltb_spec total (off + 1 + mlen)); cbn [negb]; [done|].
  destruct (rdn_ok p (off + 1) mlen Hp) as (m & -> & Hl & Hw); [lia..|]. cbn [obind].
  specialize (IH (off + 1 + mlen) ltac:(lia) Ht).
  destruct (parse_methods p n _ _) as [[ms o]| |]; [|done..]. cbn [obind fst snd].
  destruct IH as [<- Hf]. split; [done|]. constructor; [|done]. apply slot_ok_slot; [done|lia].
Qed.

Lemma parsed_wf ty res rlen ms mc isd tt li wi ru ti k ma :
  is_u8 ty -> length res = Z.to_nat rlen -> wf_bytes res -> 0 <= rlen < 256 ->
  length ms = Z.to_nat mc -> Forall slot_ok ms -> 0 <= mc <= 8 ->
  wf_bytes isd -> length isd = Z.to_nat 8 -> wf_bytes tt -> length tt = Z.to_nat 4 ->
  wf_bytes li -> length li = Z.to_nat 4 -> wf_bytes wi -> length wi = Z.to_nat 4 ->
  length ru = Z.to_nat 16 /\ wf_bytes ru -> length ti = Z.to_nat 16 /\ wf_bytes ti -> is_u8 k ->
  length ma = Z.to_nat 32 /\ wf_bytes ma ->
  wf_cap (mk_cap ty (res ++ zeros (256 - length res)) rlen (ms ++ replicate (8 - length ms) (zeros 32)) mc
    (le_dec isd) (le_dec tt) (le_dec li) (le_dec wi) ru ti k ma).
Proof.
  intros Hty Hr Wr Hrl Hm Hmf Hmc Wi Li Wt Lt Wl Ll Ww Lw Hru Hti Hk Hma.
  constructor; cbn [cap_type resource resource_len methods method_count issued_ms ttl_ms rate_limit
    rate_window_ms run_id tid cap_kid mac]; try done.
  - rewrite length_app. unfold zeros. rewrite length_replicate. lia.
  - apply Forall_app. split; [done|apply wf_zeros].
  - rewrite list_lookup_total_alt, lookup_app_r by lia. unfold zeros. by rewrite lookup_replicate_2 by lia.
  - rewrite length_app, length_replicate. lia.
  - apply Forall_app. split; [done|apply Forall_replicate, wf_empty_slot].
  - apply (le_dec_wf isd 8); [done|lia].
  - apply (le_dec_wf tt 4); [done|lia].
  - apply (le_dec_wf li 4); [done|lia].
  - apply (le_dec_wf wi 4); [done|lia].
Qed.

(** the parser is memory safe and fails closed.  On any byte string
    whatever, [ak_capability_parse] reads only inside it, and either rejects it
    or returns a well-formed token: resource and methods NUL-terminated inside
    their arrays, counts in range. *)
Theorem parse_safe p alloc :
  wf_bytes p ->
  match ak_capability_parse p alloc with
  | Ret c => wf_cap c
  | Null => True
  | Oob => False
  end.
Proof.
  intros Hp. unfold ak_capability_parse. cbv zeta.
  unfold AK_CAP_WIRE_HDR_SIZE, CAP_WIRE_OFF_MAGIC, CAP_WIRE_OFF_VERSION, CAP_WIRE_OFF_KID,
    CAP_WIRE_OFF_TYPE, CAP_WIRE_OFF_METHOD_COUNT, CAP_WIRE_OFF_TOTAL_LEN, CAP_WIRE_OFF_RESOURCE_LEN,
    CAP_WIRE_OFF_ISSUED_MS, CAP_WIRE_OFF_TTL_MS, CAP_WIRE_OFF_RATE_LIMIT,
    CAP_WIRE_OFF_RATE_WINDOW_MS, CAP_WIRE_OFF_RUN_ID, CAP_WIRE_OFF_TID, CAP_WIRE_OFF_MAC.
  destruct (Z.ltb_spec (Z.of_nat (length p)) 96); cbn [negb]; [done|].
  destruct (rdn_ok p 0 4 Hp) as (mg & -> & _); [lia..|]. cbn [obind]. destruct (_ =? _); [|done].
  destruct (rd_ok p 4 Hp) as (v & -> & _); [lia|]. cbn [obind]. destruct (v =? _); [|done].
  destruct (rd_ok p 7 Hp) as (mc & -> & Hmc); [lia|]. cbn [obind].
  destruct (Z.ltb_spec 8 mc); cbn [negb]; [done|].
  destruct (rdn_ok p 8 2 Hp) as (tl & -> & Ltl & Wtl); [lia..|]. cbn [obind].
  pose proof (le_dec_wf tl 2 Wtl Ltl) as Htl. set (total := le_dec tl) in *. clearbody total.
  destruct (_ || _) eqn:Eb; cbn [negb]; [done|]. bprop.
  destruct (rdn_ok p 10 2 Hp) as (rl & -> & Lrl & Wrl); [lia..|]. cbn [obind].
  pose proof (le_dec_wf rl 2 Wrl Lrl) as Hrl. set (rlen := le_dec rl) in *. clearbody rlen.
  destruct alloc; [|done].
  destruct (Z.leb_spec 256 rlen); cbn [negb]; [done|].
  destruct (Z.ltb_spec total (96 + rlen)); cbn [negb]; [done|].
  destruct (rd_ok p 5 Hp) as (k & -> & Hk); [lia|]. destruct (rd_ok p 6 Hp) as (ty & -> & Hty); [lia|].
  destruct (rdn_ok p 12 8 Hp) as (isd & -> & Lis & Wis); [lia..|].
  destruct (rdn_ok p 20 4 Hp) as (tt & -> & Ltt & Wtt); [lia..|].
  destruct (rdn_ok p 24 4 Hp) as (li & -> & Lli & Wli); [lia..|].
  destruct (rdn_ok p 28 4 Hp) as (wi & -> & Lwi & Wwi); [lia..|].
  destruct (rdn_ok p 32 16 Hp) as (ru & -> & Hru); [lia..|].
  destruct (rdn_ok p 48 16 Hp) as (ti & -> & Hti); [lia..|].
  destruct (rdn_ok p 64 32 Hp) as (ma & -> & Hma); [lia..|].
  destruct (rdn_ok p 96 rlen Hp) as (re & -> & Lre & Wre); [lia..|]. cbn [obind].
  pose proof (parse_methods_safe p (Z.to_nat mc) (96 + rlen) total Hp ltac:(lia) ltac:(lia)) as Hms.
  destruct (parse_methods p _ _ _) as [[ms o]| |]; [|done..]. cbn [obind fst snd].
  destruct (o =? total); [|done]. destruct Hms as [Hml Hmf]. unfold is_u8 in Hmc.
  apply parsed_wf; try done; lia.
Qed.

Definition demo_wire : bytes := default [] (ak_capability_serialize (Some demo_cap) true).

Lemma wire_round_trip_witness :
  ak_capability_parse (demo_wire ++ [1; 2; 3]) true = Ret (clean demo_cap).
Proof.
  apply (wire_round_trip demo_cap [1; 2; 3] demo_wire).
  - exact demo_cap_wf.
  - vm_compute. reflexivity.
Defined.

Lemma parse_safe_witness :
  match ak_capability_parse (take 100 demo_wire) true with Oob => False | _ => True end.
Proof.
  pose proof (parse_safe (take 100 demo_wire) true ltac:(apply (bool_decide_unpack _); vm_compute; exact I)) as H.
  destruct (ak_capability_parse _ _); [exact I|exact I|exact H].
Defined.

(** A method name with an embedded NUL is accepted by the parser but is cut at
    the NUL when serialized again: on such inputs the two functions are not
    inverses. *)
Example nul_in_method_not_inverse :
  let w := wire_header (with_methods demo_cap [[65; 66; 67]]) 105 ++ B"api.*" ++ [3; 65; 0; 67] in
  match ak_capability_parse w true with
  | Ret c => ak_capability_serialize (Some c) true <> Some w
  | _ => False
  end.
Proof. vm_compute. discriminate. Qed.
