(* ===== verification/AuditLog.v ===== *)
(** * The hash-chained audit log ([src/src/agentic/ak_audit.c])

    Entries, their canonical text and chained hash, append, lookup, query,
    verification and anchors.  Storage (sync, recovery) is in [AuditDisk.v], the
    data-plane ring in [Ring.v].  Every operation runs under [ak_log.lock].

    A segment's array is modelled by the list of the entries in use, so its
    [count] is the list's length.  Clock readings and allocation outcomes are
    arguments.  The hash function is the interface [Hash]. *)

From S2P Require Import Prelude Crypto Format.

Definition AK_E_LOG_FULL : Z := -4404.
Definition AK_E_LOG_CORRUPT : Z := -4405.
Definition AK_LOG_SEGMENT_SIZE : Z := 1000.
Definition AK_LOG_MAX_SEGMENTS : Z := 1000.
Definition AK_ANCHOR_INTERVAL : Z := 1000.

Record ak_log_entry := mk_entry {
  e_seq : Z;
  ts_ms : Z;
  pid : bytes;
  e_run_id : bytes;
  op : Z;
  req_hash : bytes;
  res_hash : bytes;
  prev_hash : bytes;
  this_hash : bytes;
  policy_hash : bytes
}.

#[global] Instance ak_log_entry_eq_dec : EqDecision ak_log_entry.
Proof. solve_decision. Defined.

Record ak_log_segment := mk_seg {
  entries : list ak_log_entry;
  flushed : Z;
  start_seq : Z
}.

Record ak_anchor := mk_anchor {
  a_ts_ms : Z;
  log_seq : Z;
  log_hash : bytes;
  a_policy_hash : bytes;
  signature : bytes
}.

(** [ak_log], without its storage state. *)
Record log_state := mk_log {
  segments : list ak_log_segment;
  head_seq : Z;
  head_hash : bytes;
  anchors : list ak_anchor;
  anchor_capacity : Z
}.

Definition seg_count (s : ak_log_segment) : Z := Z.of_nat (length (entries s)).

(** [ak_audit_init], when its allocations succeed. *)
Definition ak_audit_init : log_state :=
  mk_log [mk_seg [] 0 1] 0 AK_GENESIS_HASH [] 100.

Section Log.
Context `{Hash}.

(** ** The hash of an entry *)

Definition hex_field (l : bytes) : bytes :=
  concat ((fun b => bprintf cstr JQ"%02x" [VInt b]) <$> l).

Definition ak_log_entry_canonicalize (e : ak_log_entry) : bytes :=
  bprintf cstr JQ"{'op':%d,'pid':'" [VInt (op e)] ++ hex_field (pid e) ++
  bprintf cstr JQ"','policy_hash':'" [] ++ hex_field (policy_hash e) ++
  bprintf cstr JQ"','req_hash':'" [] ++ hex_field (req_hash e) ++
  bprintf cstr JQ"','res_hash':'" [] ++ hex_field (res_hash e) ++
  bprintf cstr JQ"','run_id':'" [] ++ hex_field (e_run_id e) ++
  bprintf cstr JQ"','seq':%ld,'ts_ms':%ld}" [VInt (e_seq e); VInt (ts_ms e)].

(** [alloc]: both allocations of the computation; a failure leaves an all-zero
    hash. *)
Definition ak_audit_compute_entry_hash (alloc : bool) (e : ak_log_entry) (prev : bytes) : bytes :=
  if alloc then hash (prev ++ ak_log_entry_canonicalize e) else zeros 32.

Definition ak_audit_hash_request (args : option bytes) : bytes :=
  match args with Some a => hash a | None => zeros 32 end.
Definition ak_audit_hash_response (result : option bytes) : bytes :=
  match result with Some r => hash r | None => zeros 32 end.

(** ** Append *)

(** [get_current_segment]: the segments with the current one last; [None] when
    the log is full or the allocation fails. *)
Definition get_current_segment (st : log_state) (alloc : bool) : option (list ak_log_segment) :=
  match last (segments st) with
  | None => None
  | Some seg =>
      if AK_LOG_SEGMENT_SIZE <=? seg_count seg then
        if AK_LOG_MAX_SEGMENTS <=? Z.of_nat (length (segments st)) then None
        else if alloc then Some (segments st ++ [mk_seg [] 0 (u64 (head_seq st + 1))]) else None
      else Some (segments st)
  end.

Definition push_entry (e : ak_log_entry) (s : ak_log_segment) : ak_log_segment :=
  mk_seg (entries s ++ [e]) (flushed s) (start_seq s).

(** The entry is written into the last segment. *)
Definition add_to_last (segs : list ak_log_segment) (e : ak_log_entry) : list ak_log_segment :=
  alter (push_entry e) (length segs - 1)%nat segs.

Definition with_this_hash (e : ak_log_entry) (h : bytes) : ak_log_entry :=
  mk_entry (e_seq e) (ts_ms e) (pid e) (e_run_id e) (op e) (req_hash e) (res_hash e) (prev_hash e) h
    (policy_hash e).

(** What an append is told to record. *)
Record log_event := mk_event {
  ev_pid : bytes; ev_run : bytes; ev_op : Z; ev_req : bytes; ev_res : bytes; ev_policy : bytes;
  ev_now_ms : Z
}.

Definition new_entry (alloc_hash : bool) (seq : Z) (prev : bytes) (ev : log_event) : ak_log_entry :=
  let e := mk_entry seq (ev_now_ms ev) (ev_pid ev) (ev_run ev) (ev_op ev)
             (ev_req ev) (ev_res ev) prev (zeros 32) (ev_policy ev) in
  with_this_hash e (ak_audit_compute_entry_hash alloc_hash e prev).

(** The part of [ak_audit_append] under the lock: the new sequence number, or
    [AK_E_LOG_FULL]. *)
Definition ak_audit_append_locked (st : log_state) (ev : log_event) (alloc_seg alloc_hash : bool)
    : Z * log_state :=
  match get_current_segment st alloc_seg with
  | None => (AK_E_LOG_FULL, st)
  | Some segs =>
      let e := new_entry alloc_hash (u64 (head_seq st + 1)) (head_hash st) ev in
      (e_seq e, mk_log (add_to_last segs e) (e_seq e) (this_hash e) (anchors st) (anchor_capacity st))
  end.

(** ** Anchors *)

(** [alloc]: the allocation of the grown array. *)
Definition ak_audit_emit_anchor (st : log_state) (now_ms : Z) (alloc : bool) : Z * log_state :=
  let full := anchor_capacity st <=? Z.of_nat (length (anchors st)) in
  if full && (2147483647 <? anchor_capacity st) then (AK_E_LOG_FULL, st)
  else if full && negb alloc then (AK_E_LOG_FULL, st)
  else
    let cap := if full then u32 (anchor_capacity st * 2) else anchor_capacity st in
    let a := mk_anchor now_ms (head_seq st) (head_hash st) (zeros 32) (zeros 64) in
    (log_seq a, mk_log (segments st) (head_seq st) (head_hash st) (anchors st ++ [a]) cap).

Definition ak_audit_get_latest_anchor (st : log_state) : option ak_anchor := last (anchors st).

(** ** Lookup and query *)

Fixpoint find_in_segments (segs : list ak_log_segment) (seq : Z) : option ak_log_entry :=
  match segs with
  | [] => None
  | s :: segs' =>
      if (start_seq s <=? seq) && (seq <? u64 (start_seq s + seg_count s))
      then entries s !! Z.to_nat (seq - start_seq s)
      else find_in_segments segs' seq
  end.

Definition get_entry_by_seq (st : log_state) (seq : Z) : option ak_log_entry :=
  find_in_segments (segments st) seq.

Record ak_log_query_filter := mk_filter {
  f_pid : option bytes; f_run_id : option bytes; f_op : Z
}.

Definition filter_match (f : option ak_log_query_filter) (e : ak_log_entry) : bool :=
  match f with
  | None => true
  | Some f =>
      match f_pid f with Some p => bytes_eqb (pid e) p | None => true end &&
      match f_run_id f with Some r => bytes_eqb (e_run_id e) r | None => true end &&
      ((f_op f =? 0) || (op e =? f_op f))
  end.

(** The sequence numbers the loop [for (seq = a; seq <= b; seq++)] visits. *)
Definition seqs (a b : Z) : list Z := (fun i => a + Z.of_nat i) <$> seq 0 (Z.to_nat (b - a + 1)).

Definition matching (st : log_state) (f : option ak_log_query_filter) (a b : Z) : list ak_log_entry :=
  omap (fun s => match get_entry_by_seq st s with
                 | Some e => if filter_match f e then Some e else None
                 | None => None
                 end) (seqs a (Z.min b (head_seq st))).

(** [None]: no match, or the allocation failed; [count_out] is the length. *)
Definition ak_audit_query (st : log_state) (f : option ak_log_query_filter) (a b : Z) (alloc : bool)
    : option (list ak_log_entry) :=
  match matching st f a b with
  | [] => None
  | r => if alloc then Some r else None
  end.

(** ** Verification *)

Fixpoint verify_loop (st : log_state) (alloc : Z -> bool) (l : list Z) (expected : bytes) : Z :=
  match l with
  | [] => 0
  | s :: l' =>
      match get_entry_by_seq st s with
      | None => s
      | Some e =>
          if negb (bytes_eqb (prev_hash e) expected) then s
          else if negb (bytes_eqb (this_hash e) (ak_audit_compute_entry_hash (alloc s) e (prev_hash e))) then s
          else verify_loop st alloc l' (this_hash e)
      end
  end.

Definition ak_audit_verify_range (st : log_state) (alloc : Z -> bool) (a b : Z) : Z :=
  if a =? 1 then verify_loop st alloc (seqs a b) AK_GENESIS_HASH
  else match get_entry_by_seq st (u64 (a - 1)) with
       | None => AK_E_LOG_CORRUPT
       | Some prev => verify_loop st alloc (seqs a b) (this_hash prev)
       end.

Definition ak_audit_verify (st : log_state) (alloc : Z -> bool) : Z :=
  ak_audit_verify_range st alloc 1 (head_seq st).

Definition ak_audit_verify_entry (alloc : bool) (e : ak_log_entry) (expected_prev : bytes) : bool :=
  bytes_eqb (prev_hash e) expected_prev &&
  bytes_eqb (this_hash e) (ak_audit_compute_entry_hash alloc e (prev_hash e)).

Definition ak_audit_verify_anchor (st : log_state) (a : ak_anchor) : bool :=
  match get_entry_by_seq st (log_seq a) with
  | None => false
  | Some e => bytes_eqb (this_hash e) (log_hash a)
  end.

(** ** Special entries *)

Definition OP_REVOCATION : Z := 0xFFFF.
Definition OP_POLICY_CHANGE : Z := 0xFFFE.
Definition OP_LIFECYCLE : Z := 0xFFFD.

Definition revocation_event (tid reason : bytes) (now_ms : Z) : log_event :=
  mk_event tid tid OP_REVOCATION (hash reason) (zeros 32) (zeros 32) now_ms.
Definition policy_change_event (old_hash new_hash : bytes) (now_ms : Z) : log_event :=
  mk_event (zeros 16) (zeros 16) OP_POLICY_CHANGE old_hash new_hash new_hash now_ms.
Definition lifecycle_event (agent_id run : bytes) (event : Z) (now_ms : Z) : log_event :=
  mk_event agent_id run OP_LIFECYCLE (hash [u8 event]) (zeros 32) (zeros 32) now_ms.

(** ** Replay bundles *)

Record ak_replay_bundle := mk_bundle {
  b_run_id : bytes; b_start : Z; b_end : Z; b_entries : list ak_log_entry; b_policy : bytes
}.

Definition ak_audit_create_bundle (st : log_state) (run : bytes) (a b : Z) (alloc alloc_query : bool)
    : option ak_replay_bundle :=
  if alloc then
    let es := default [] (ak_audit_query st (Some (mk_filter None (Some run) 0)) a b alloc_query) in
    Some (mk_bundle run a b es (match es with e :: _ => policy_hash e | [] => zeros 32 end))
  else None.
End Log.

(** ** The log as a list *)

Definition all_entries (st : log_state) : list ak_log_entry := concat (entries <$> segments st).

(** [segs] are full segments numbered from [start], then a last one. *)
Definition full_from (start : Z) (segs : list ak_log_segment) : Prop :=
  forall i x, segs !! i = Some x ->
    start_seq x = start + AK_LOG_SEGMENT_SIZE * Z.of_nat i /\ seg_count x = AK_LOG_SEGMENT_SIZE.

Definition segs_ok (start : Z) (segs : list ak_log_segment) : Prop :=
  exists pre s, segs = pre ++ [s] /\ full_from start pre /\
    start_seq s = start + AK_LOG_SEGMENT_SIZE * Z.of_nat (length pre) /\
    seg_count s <= AK_LOG_SEGMENT_SIZE.

Lemma full_from_cons start x segs :
  full_from start (x :: segs) <->
  start_seq x = start /\ seg_count x = AK_LOG_SEGMENT_SIZE /\ full_from (start + AK_LOG_SEGMENT_SIZE) segs.
Proof.
  unfold full_from, AK_LOG_SEGMENT_SIZE. split.
  - intros Hf. destruct (Hf 0%nat x eq_refl) as [H1 H2]. split; [lia|]. split; [done|].
    intros i y Hy. destruct (Hf (S i) y Hy) as [H3 H4]. split; [lia|done].
  - intros (H1 & H2 & H3) [|i] y Hy; [injection Hy as <-; split; [lia|done]|].
    destruct (H3 i y Hy). split; [lia|done].
Qed.

Lemma full_from_snoc start segs x :
  full_from start segs -> start_seq x = start + AK_LOG_SEGMENT_SIZE * Z.of_nat (length segs) ->
  seg_count x = AK_LOG_SEGMENT_SIZE -> full_from start (segs ++ [x]).
Proof.
  intros Hf Hs Hc i y. rewrite lookup_app_Some. intros [Hy|[Hl Hy]]; [by apply Hf|].
  destruct (i - length segs)%nat eqn:E; [|done]. injection Hy as <-. split; [|done].
  rewrite Hs. by replace i with (length segs) by lia.
Qed.

Lemma length_full start pre :
  full_from start pre ->
  Z.of_nat (length (concat (entries <$> pre))) = AK_LOG_SEGMENT_SIZE * Z.of_nat (length pre).
Proof.
  revert start. induction pre as [|x pre IH]; intros start Hf; [done|].
  apply full_from_cons in Hf as (_ & Hc & Hf). apply IH in Hf.
  cbn [fmap list_fmap concat length]. rewrite length_app.
  unfold seg_count, AK_LOG_SEGMENT_SIZE in *. lia.
Qed.

(** Looking a sequence number up is indexing the list. *)
Lemma find_in_segments_spec start segs n :
  segs_ok start segs -> 0 <= start ->
  start + Z.of_nat (length (concat (entries <$> segs))) < M64 ->
  find_in_segments segs n =
    if n <? start then None else concat (entries <$> segs) !! Z.to_nat (n - start).
Proof.
  intros (pre & s & -> & Hf & Hs & Hc) H0. revert start H0 Hf Hs.
  induction pre as [|x pre IH]; intros start H0 Hf Hs Hb.
  - cbn [app fmap list_fmap concat find_in_segments length] in *. rewrite app_nil_r in *.
    rewrite Z.mul_0_r, Z.add_0_r in Hs. rewrite Hs in *. unfold u64, seg_count in *.
    rewrite Z.mod_small by lia.
    destruct (Z.leb_spec start n), (Z.ltb_spec n start); try lia; cbn [andb]; [|done].
    destruct (Z.ltb_spec n (start + Z.of_nat (length (entries s)))); [done|].
    symmetry. apply lookup_ge_None_2. lia.
  - apply full_from_cons in Hf as (Hx & Hcx & Hf). cbn [app fmap list_fmap concat find_in_segments length] in *.
    rewrite length_app in Hb. unfold AK_LOG_SEGMENT_SIZE in *. rewrite Hx.
    rewrite (IH (start + 1000)) by (done || unfold seg_count in *; lia). unfold u64. rewrite Z.mod_small by (unfold seg_count in *; lia). rewrite Hcx.
    destruct (Z.leb_spec start n), (Z.ltb_spec n start); try lia; cbn [andb].
    + destruct (Z.ltb_spec n (start + 1000)).
      * rewrite lookup_app_l by (unfold seg_count in Hcx; lia). done.
      * destruct (Z.ltb_spec n (start + 1000)); [lia|].
        rewrite lookup_app_r by (unfold seg_count in Hcx; lia). f_equal. unfold seg_count in Hcx. lia.
    + destruct (Z.ltb_spec n (start + 1000)); [done|lia].
Qed.

Lemma last_Some_snoc {A} (l : list A) x : last l = Some x -> exists pre, l = pre ++ [x].
Proof. intros Hl. apply last_Some in Hl. done. Qed.

Lemma add_to_last_snoc pre s e : add_to_last (pre ++ [s]) e = pre ++ [push_entry e s].
Proof.
  unfold add_to_last. rewrite length_app. cbn [length].
  replace (length pre + 1 - 1)%nat with (length pre + 0)%nat by lia. by rewrite alter_app_r.
Qed.

(** Room for one more entry, after [get_current_segment]. *)
Lemma get_current_segment_spec st alloc segs :
  segs_ok 1 (segments st) -> head_seq st = Z.of_nat (length (all_entries st)) -> head_seq st + 1 < M64 ->
  Z.of_nat (length (segments st)) <= AK_LOG_MAX_SEGMENTS ->
  get_current_segment st alloc = Some segs ->
  exists pre s, segs = pre ++ [s] /\ full_from 1 pre /\
    start_seq s = 1 + AK_LOG_SEGMENT_SIZE * Z.of_nat (length pre) /\ seg_count s < AK_LOG_SEGMENT_SIZE /\
    concat (entries <$> segs) = all_entries st /\ Z.of_nat (length segs) <= AK_LOG_MAX_SEGMENTS.
Proof.
  intros (pre & s & Hsegs & Hf & Hs & Hc) Hh Hb Hmax. unfold get_current_segment, all_entries in *.
  rewrite Hsegs, last_snoc. unfold seg_count in *.
  destruct (Z.leb_spec AK_LOG_SEGMENT_SIZE (Z.of_nat (length (entries s)))) as [Hfull|Hroom].
  - destruct (Z.leb_spec AK_LOG_MAX_SEGMENTS (Z.of_nat (length (pre ++ [s])))) as [|Hm]; [done|].
    destruct alloc; [|done]. intros [= <-].
    assert (Hf' : full_from 1 (pre ++ [s])) by (apply full_from_snoc; [done|done|unfold seg_count; lia]).
    exists (pre ++ [s]), (mk_seg [] 0 (u64 (head_seq st + 1))). split; [done|]. split; [done|].
    cbn [start_seq entries length]. split; [|split; [done|split]].
    + unfold u64. rewrite Z.mod_small by lia. rewrite Hh, Hsegs, (length_full 1) by done. lia.
    + rewrite !fmap_app, !concat_app. cbn. by rewrite !app_nil_r.
    + rewrite (length_app (pre ++ [s])). cbn [length]. lia.
  - intros [= <-]. exists pre, s. rewrite Hsegs in Hmax. auto 10.
Qed.

Section Chain.
Context `{Hash}.

(** ** The chain *)

Fixpoint chained (prev : bytes) (es : list ak_log_entry) : Prop :=
  match es with
  | [] => True
  | e :: es' =>
      prev_hash e = prev /\ this_hash e = hash (prev ++ ak_log_entry_canonicalize e) /\
      chained (this_hash e) es'
  end.

Definition chain_head (prev : bytes) (es : list ak_log_entry) : bytes :=
  foldl (fun _ e => this_hash e) prev es.

Lemma chained_app prev es es' :
  chained prev (es ++ es') <-> chained prev es /\ chained (chain_head prev es) es'.
Proof.
  revert prev; induction es as [|e es IH]; intros prev; simpl; [tauto|]. rewrite IH. tauto.
Qed.

Lemma chain_head_snoc prev es e : chain_head prev (es ++ [e]) = this_hash e.
Proof. unfold chain_head. by rewrite foldl_snoc. Qed.

Definition event_of (e : ak_log_entry) : log_event :=
  mk_event (pid e) (e_run_id e) (op e) (req_hash e) (res_hash e) (policy_hash e) (ts_ms e).

(** An anchor that commits to a prefix of the log. *)
Definition anchored (es : list ak_log_entry) (a : ak_anchor) : Prop :=
  log_seq a = 0 \/
  1 <= log_seq a /\ exists e, es !! Z.to_nat (log_seq a - 1) = Some e /\ this_hash e = log_hash a.

Record log_inv (st : log_state) : Prop := {
  li_segs : segs_ok 1 (segments st);
  li_max : Z.of_nat (length (segments st)) <= AK_LOG_MAX_SEGMENTS;
  li_head : head_seq st = Z.of_nat (length (all_entries st));
  li_seq i e : all_entries st !! i = Some e -> e_seq e = Z.of_nat i + 1;
  li_chain : chained AK_GENESIS_HASH (all_entries st);
  li_hash : head_hash st = chain_head AK_GENESIS_HASH (all_entries st);
  li_anchors : Forall (anchored (all_entries st)) (anchors st)
}.

Definition LOG_CAPACITY : Z := 1000000.

Lemma segs_capacity segs :
  segs_ok 1 segs -> Z.of_nat (length segs) <= AK_LOG_MAX_SEGMENTS ->
  Z.of_nat (length (concat (entries <$> segs))) <= LOG_CAPACITY.
Proof.
  intros (pre & s & -> & Hf & _ & Hc) Hm. apply length_full in Hf. rewrite length_app in Hm.
  rewrite fmap_app, concat_app, length_app. cbn in *. rewrite app_nil_r.
  unfold seg_count, AK_LOG_SEGMENT_SIZE, AK_LOG_MAX_SEGMENTS, LOG_CAPACITY in *. lia.
Qed.

Lemma log_capacity st : log_inv st -> head_seq st <= LOG_CAPACITY.
Proof. intros [Hs Hm -> _ _ _ _]. by apply segs_capacity. Qed.

Lemma init_log_inv : log_inv ak_audit_init.
Proof.
  constructor; try done.
  - exists [], (mk_seg [] 0 1). split; [done|]. split; [intros i x Hx; by destruct i|]. done.
Qed.

Lemma anchored_app es es' a : anchored es a -> anchored (es ++ es') a.
Proof.
  intros [?|(H1 & e & He & Hh)]; [by left|right]. split; [done|]. exists e. split; [|done].
  rewrite lookup_app_l; [done|]. by eapply lookup_lt_Some.
Qed.

(** The full log is the only reason to refuse an entry, when allocations succeed. *)
Lemma get_current_segment_None st :
  log_inv st -> get_current_segment st true = None -> head_seq st = LOG_CAPACITY.
Proof.
  intros [(pre & s & Hsegs & Hf & Hs & Hc) Hm Hh _ _ _ _]. unfold get_current_segment.
  rewrite Hsegs, last_snoc. destruct (Z.leb_spec AK_LOG_SEGMENT_SIZE (seg_count s)); [|done].
  destruct (Z.leb_spec AK_LOG_MAX_SEGMENTS (Z.of_nat (length (pre ++ [s])))) as [Hge|]; [|done]. intros _.
  rewrite Hh. unfold all_entries. rewrite Hsegs, fmap_app, concat_app, length_app.
  apply length_full in Hf. rewrite Hsegs, length_app in Hm. rewrite length_app in Hge.
  cbn in *. rewrite app_nil_r.
  unfold seg_count, AK_LOG_SEGMENT_SIZE, AK_LOG_MAX_SEGMENTS, LOG_CAPACITY in *. lia.
Qed.

(** Adding the entry that continues the chain. *)
Lemma push_inv st alloc segs e :
  log_inv st -> get_current_segment st alloc = Some segs ->
  e_seq e = head_seq st + 1 -> prev_hash e = head_hash st ->
  this_hash e = hash (head_hash st ++ ak_log_entry_canonicalize e) ->
  let st' := mk_log (add_to_last segs e) (e_seq e) (this_hash e) (anchors st) (anchor_capacity st) in
  log_inv st' /\ all_entries st' = all_entries st ++ [e].
Proof.
  intros Hinv Eg Es Ep Et. pose proof (log_capacity st Hinv) as Hcap. unfold LOG_CAPACITY in Hcap.
  pose proof Hinv as [Hsegs Hm Hh Hseq Hch Hhash Ha]. cbv zeta.
  destruct (get_current_segment_spec st alloc segs Hsegs Hh ltac:(lia) Hm Eg)
    as (pre & s & -> & Hf & Hs & Hc & Hall & Hlen).
  rewrite add_to_last_snoc.
  assert (Hall' : concat (entries <$> (pre ++ [push_entry e s])) = all_entries st ++ [e]).
  { rewrite <-Hall, !fmap_app, !concat_app. cbn. by rewrite !app_nil_r, app_assoc. }
  split; [|done].
  constructor; unfold all_entries; cbn [segments head_seq head_hash anchors]; rewrite ?Hall'.
  - exists pre, (push_entry e s). split; [done|]. split; [done|]. split; [done|].
    unfold seg_count in *. cbn [push_entry entries]. rewrite length_app. cbn [length]. lia.
  - rewrite length_app in *. done.
  - rewrite length_app. cbn. lia.
  - intros i x. rewrite lookup_app_Some. intros [Hx|[Hl Hx]]; [by apply Hseq|].
    destruct (i - length (all_entries st))%nat eqn:Ei; [|done]. injection Hx as <-. lia.
  - apply chained_app. split; [done|]. rewrite <-Hhash. cbn. done.
  - by rewrite chain_head_snoc.
  - eapply Forall_impl; [exact Ha|]. intros a. apply anchored_app.
Qed.

Lemma append_spec st ev alloc_seg :
  log_inv st ->
  let '(rv, st') := ak_audit_append_locked st ev alloc_seg true in
  (rv = AK_E_LOG_FULL /\ st' = st /\ (alloc_seg = true -> head_seq st = LOG_CAPACITY)) \/
  (rv = head_seq st + 1 /\ log_inv st' /\ exists e, event_of e = ev /\
     all_entries st' = all_entries st ++ [e]).
Proof.
  intros Hinv. pose proof (log_capacity st Hinv) as Hcap. unfold LOG_CAPACITY in Hcap.
  pose proof (li_head _ Hinv) as Hh. unfold ak_audit_append_locked.
  destruct (get_current_segment st alloc_seg) as [segs|] eqn:Eg.
  2:{ left. split; [done|]. split; [done|]. intros ->. by apply get_current_segment_None. }
  right. assert (u64 (head_seq st + 1) = head_seq st + 1) as -> by (unfold u64; rewrite Z.mod_small; lia).
  destruct (push_inv st alloc_seg segs (new_entry true (head_seq st + 1) (head_hash st) ev))
    as [H1 H2]; [done..|].
  split; [done|]. split; [done|]. eexists. split; [|done]. by destruct ev.
Qed.

Lemma chain_head_last prev es e : last es = Some e -> chain_head prev es = this_hash e.
Proof. intros [pre ->]%last_Some_snoc. apply chain_head_snoc. Qed.

Lemma emit_anchor_inv st now_ms alloc :
  log_inv st -> log_inv (snd (ak_audit_emit_anchor st now_ms alloc)) /\
  all_entries (snd (ak_audit_emit_anchor st now_ms alloc)) = all_entries st.
Proof.
  intros Hinv. unfold ak_audit_emit_anchor. cbv zeta.
  destruct (_ && _); [done|]. destruct (_ && _); [done|]. cbn [snd].
  split; [|done]. destruct Hinv as [Hsegs Hm Hh Hseq Hch Hhash Ha]. constructor; try done.
  cbn [anchors]. apply Forall_app. split; [done|]. constructor; [|constructor].
  unfold anchored, all_entries in *. cbn [log_seq log_hash segments].
  destruct (last (concat (entries <$> segments st))) as [e|] eqn:El.
  - right. rewrite Hhash, (chain_head_last _ _ e El).
    pose proof El as El'. rewrite last_lookup in El'.
    assert (length (concat (entries <$> segments st)) <> 0%nat)
      by (intros E0; apply nil_length_inv in E0; by rewrite E0 in El).
    split; [lia|]. exists e. split; [|done]. rewrite <-El'. f_equal. lia.
  - left. apply last_None in El. by rewrite Hh, El.
Qed.
End Chain.

(** ** The canonical text determines the entry *)

Record wf_entry (e : ak_log_entry) : Prop := {
  we_seq : is_u64 (e_seq e);
  we_ts : is_u64 (ts_ms e);
  we_op : is_u16 (op e);
  we_pid : length (pid e) = 16%nat /\ wf_bytes (pid e);
  we_run : length (e_run_id e) = 16%nat /\ wf_bytes (e_run_id e);
  we_req : length (req_hash e) = 32%nat /\ wf_bytes (req_hash e);
  we_res : length (res_hash e) = 32%nat /\ wf_bytes (res_hash e);
  we_policy : length (policy_hash e) = 32%nat /\ wf_bytes (policy_hash e)
}.

Definition field_ok (n : nat) (l : bytes) : Prop := length l = n /\ wf_bytes l.

Record wf_event (ev : log_event) : Prop := {
  wv_ts : is_u64 (ev_now_ms ev);
  wv_op : is_u16 (ev_op ev);
  wv_pid : field_ok 16 (ev_pid ev);
  wv_run : field_ok 16 (ev_run ev);
  wv_req : field_ok 32 (ev_req ev);
  wv_res : field_ok 32 (ev_res ev);
  wv_policy : field_ok 32 (ev_policy ev)
}.

Lemma wf_entry_event e : wf_event (event_of e) -> is_u64 (e_seq e) -> wf_entry e.
Proof. intros [] ?. by constructor. Qed.

Lemma hex_field_text l : hex_field l = hex_bytes l.
Proof.
  unfold hex_field, hex_bytes. apply (f_equal (@concat Z)), list_fmap_ext. intros _ b _.
  unfold hex_byte. fmt_text.
Qed.

Lemma entry_text e :
  ak_log_entry_canonicalize e =
  JQ"{'op':" ++ format_number fmt_d (op e) ++ JQ",'pid':'" ++ hex_bytes (pid e) ++
  JQ"','policy_hash':'" ++ hex_bytes (policy_hash e) ++ JQ"','req_hash':'" ++ hex_bytes (req_hash e) ++
  JQ"','res_hash':'" ++ hex_bytes (res_hash e) ++ JQ"','run_id':'" ++ hex_bytes (e_run_id e) ++
  JQ"','seq':" ++ format_number fmt_ld (e_seq e) ++ JQ",'ts_ms':" ++ format_number fmt_ld (ts_ms e) ++ JQ"}".
Proof.
  unfold ak_log_entry_canonicalize.
  rewrite (hex_field_text (pid e)), (hex_field_text (policy_hash e)), (hex_field_text (req_hash e)),
    (hex_field_text (res_hash e)), (hex_field_text (e_run_id e)).
  fmt_text.
Qed.

Lemma entry_text_inj e1 e2 :
  wf_entry e1 -> wf_entry e2 -> ak_log_entry_canonicalize e1 = ak_log_entry_canonicalize e2 ->
  event_of e1 = event_of e2 /\ e_seq e1 = e_seq e2.
Proof.
  intros [S1 T1 O1 [P1 P1'] [R1 R1'] [Q1 Q1'] [Z1 Z1'] [Y1 Y1']]
         [S2 T2 O2 [P2 P2'] [R2 R2'] [Q2 Q2'] [Z2 Z2'] [Y2 Y2']].
  rewrite !entry_text. intros E. apply app_inv_head in E.
  apply fmt_d_cut in E as [E1 E]; [|unfold is_u16, is_u32 in *; lia..|done].
  apply hex_bytes_cut in E as [E2 E]; [|done|done|congruence]. apply app_inv_head in E.
  apply hex_bytes_cut in E as [E3 E]; [|done|done|congruence]. apply app_inv_head in E.
  apply hex_bytes_cut in E as [E4 E]; [|done|done|congruence]. apply app_inv_head in E.
  apply hex_bytes_cut in E as [E5 E]; [|done|done|congruence]. apply app_inv_head in E.
  apply hex_bytes_cut in E as [E6 E]; [|done|done|congruence]. apply app_inv_head in E.
  apply fmt_ld_cut in E as [E7 E]; [|done..].
  rewrite <-(app_nil_r JQ"}") in E. apply fmt_ld_cut in E as [E8 _]; [|done..].
  unfold event_of. by rewrite E1, E2, E3, E4, E5, E6, E7, E8.
Qed.

Section Theorems.
Context `{Hash}.

(** ** Verification *)

Lemma seqs_cons a b : a <= b -> seqs a b = a :: seqs (a + 1) b.
Proof.
  intros Hab. unfold seqs. replace (Z.to_nat (b - a + 1)) with (S (Z.to_nat (b - (a + 1) + 1))) by lia.
  cbn [seq fmap list_fmap]. f_equal; [lia|]. rewrite <-fmap_S_seq, <-list_fmap_compose.
  apply list_fmap_ext. intros _ i _. cbn. lia.
Qed.

Lemma seqs_nil a b : b < a -> seqs a b = [].
Proof. intros Hab. unfold seqs. by replace (Z.to_nat (b - a + 1)) with 0%nat by lia. Qed.

Lemma elem_of_seqs a b n : n ∈ seqs a b <-> a <= n <= b.
Proof.
  unfold seqs. rewrite list_elem_of_fmap. split.
  - intros (i & -> & Hi%elem_of_seq). lia.
  - intros Hn. exists (Z.to_nat (n - a)). split; [lia|]. apply elem_of_seq. lia.
Qed.

Lemma verify_loop_chained st alloc es a expected :
  (forall s, alloc s = true) -> (forall i, get_entry_by_seq st (a + Z.of_nat i) = es !! i) ->
  chained expected es -> verify_loop st alloc (seqs a (a + Z.of_nat (length es) - 1)) expected = 0.
Proof.
  intros Hal. revert a expected. induction es as [|e es IH]; intros a expected Hg Hc.
  - rewrite seqs_nil; [done|]. cbn. lia.
  - destruct Hc as (Hp & Ht & Hc). rewrite seqs_cons by (cbn; lia). cbn [verify_loop].
    specialize (Hg 0%nat) as Hg0. rewrite Z.add_0_r in Hg0. rewrite Hg0. cbn [lookup list_lookup].
    rewrite Hp, bytes_eqb_refl. cbn [negb]. rewrite Hal. unfold ak_audit_compute_entry_hash.
    rewrite <-Ht, bytes_eqb_refl. cbn [negb].
    replace (a + Z.of_nat (length (e :: es)) - 1) with (a + 1 + Z.of_nat (length es) - 1) by (cbn; lia).
    apply IH; [|done]. intros i. change (es !! i) with ((e :: es) !! S i). rewrite <-Hg. f_equal. lia.
Qed.

(** Conversely, a range that verifies is a chain. *)
Lemma verify_loop_sound st alloc a b expected :
  (forall s, alloc s = true) -> 1 <= a -> verify_loop st alloc (seqs a b) expected = 0 ->
  exists es, Z.of_nat (length es) = Z.max 0 (b - a + 1) /\ chained expected es /\
    forall n, a <= n <= b -> get_entry_by_seq st n = es !! Z.to_nat (n - a).
Proof.
  intros Hal. remember (Z.to_nat (b - a + 1)) as k eqn:Ek. revert a expected Ek.
  induction k as [|k IH]; intros a expected Ek Ha.
  - intros _. exists []. split; [cbn; lia|]. split; [done|]. lia.
  - rewrite seqs_cons by lia. cbn [verify_loop].
    destruct (get_entry_by_seq st a) as [e|] eqn:Eg; [|lia].
    destruct (bytes_eqb (prev_hash e) expected) eqn:E1; cbn [negb]; [|lia].
    rewrite Hal. unfold ak_audit_compute_entry_hash.
    destruct (bytes_eqb (this_hash e) _) eqn:E2; cbn [negb]; [|lia].
    apply bytes_eqb_eq in E1 as <-. apply bytes_eqb_eq in E2. intros Hv.
    destruct (IH (a + 1) (this_hash e) ltac:(lia) ltac:(lia) Hv) as (es & Hl & Hc & Hg).
    exists (e :: es). split; [cbn; lia|]. split; [done|]. intros n Hn.
    destruct (decide (n = a)) as [->|Hne]; [by rewrite Z.sub_diag|].
    rewrite Hg by lia. replace (Z.to_nat (n - a)) with (S (Z.to_nat (n - (a + 1)))) by lia. done.
Qed.

Lemma get_entry_spec st n :
  log_inv st ->
  get_entry_by_seq st n = if n <? 1 then None else all_entries st !! Z.to_nat (n - 1).
Proof.
  intros Hinv. pose proof (log_capacity st Hinv) as Hcap. destruct Hinv as [Hs Hm Hh _ _ _ _].
  unfold LOG_CAPACITY in Hcap. apply find_in_segments_spec; [done|lia|]. unfold all_entries in Hh. lia.
Qed.

Lemma inv_verifies st : log_inv st -> ak_audit_verify st (fun _ => true) = 0.
Proof.
  intros Hinv. unfold ak_audit_verify, ak_audit_verify_range. rewrite Z.eqb_refl.
  rewrite (li_head _ Hinv).
  replace (Z.of_nat (length (all_entries st))) with (1 + Z.of_nat (length (all_entries st)) - 1) by lia.
  apply verify_loop_chained; [done| |apply Hinv]. intros i. rewrite get_entry_spec by done.
  destruct (Z.ltb_spec (1 + Z.of_nat i) 1); [lia|]. f_equal. lia.
Qed.

(** ** Tamper evidence *)

Lemma chained_hashes es prev :
  length prev = 32%nat -> chained prev es -> length (chain_head prev es) = 32%nat.
Proof.
  revert prev; induction es as [|e es IH]; intros prev Hp; simpl; [done|].
  intros (_ & Ht & Hc). apply IH; [|done]. rewrite Ht. apply length_hash.
Qed.

Lemma chained_unique es1 es2 :
  length es1 = length es2 -> chained AK_GENESIS_HASH es1 -> chained AK_GENESIS_HASH es2 ->
  Forall wf_entry es1 -> Forall wf_entry es2 ->
  chain_head AK_GENESIS_HASH es1 = chain_head AK_GENESIS_HASH es2 -> es1 = es2 \/ hash_collision.
Proof.
  revert es2. induction es1 as [|e1 es1 IH] using rev_ind; intros es2 Hl C1 C2 W1 W2 Hh.
  { left. by destruct es2. }
  destruct es2 as [|e2 es2 _] using rev_ind; [rewrite length_app in Hl; cbn in Hl; lia|].
  rewrite !length_app in Hl. cbn in Hl. rewrite !chain_head_snoc in Hh.
  apply chained_app in C1 as [C1 (P1 & T1 & _)]. apply chained_app in C2 as [C2 (P2 & T2 & _)].
  apply Forall_app in W1 as [W1 W1']. apply Forall_app in W2 as [W2 W2'].
  inversion W1' as [|? ? V1 _]; inversion W2' as [|? ? V2 _]; subst.
  pose proof (chained_hashes es1 AK_GENESIS_HASH eq_refl C1) as L1.
  pose proof (chained_hashes es2 AK_GENESIS_HASH eq_refl C2) as L2.
  rewrite T1, T2 in Hh. set (h1 := chain_head AK_GENESIS_HASH es1) in *.
  set (h2 := chain_head AK_GENESIS_HASH es2) in *.
  destruct (decide (h1 ++ ak_log_entry_canonicalize e1 = h2 ++ ak_log_entry_canonicalize e2)) as [E|Hne].
  2:{ right. by exists (h1 ++ ak_log_entry_canonicalize e1), (h2 ++ ak_log_entry_canonicalize e2). }
  apply app_inj_len in E as [Eh Et]; [|congruence].
  apply entry_text_inj in Et as [Ev Es]; [|done..].
  destruct (IH es2 ltac:(lia) C1 C2 W1 W2 Eh) as [->|?]; [left|by right]. f_equal. f_equal.
  destruct e1, e2. unfold event_of in Ev. cbn in *. simplify_eq. congruence.
Qed.

(** C16: the log is tamper-evident.  Take any two states of the log's memory
    with well-formed entries, whatever was done to them.  If the range
    [1..n] verifies in both and their [n]-th entries carry the same hash (the
    value a client or an anchor remembers), then the two logs agree on all [n]
    entries, unless they exhibit a collision of the hash function: no entry
    can be edited, dropped, inserted or reordered without detection. *)
Theorem log_tamper_evident st1 st2 n e1 e2 :
  (forall k e, get_entry_by_seq st1 k = Some e -> wf_entry e) ->
  (forall k e, get_entry_by_seq st2 k = Some e -> wf_entry e) ->
  1 <= n ->
  ak_audit_verify_range st1 (fun _ => true) 1 n = 0 ->
  ak_audit_verify_range st2 (fun _ => true) 1 n = 0 ->
  get_entry_by_seq st1 n = Some e1 -> get_entry_by_seq st2 n = Some e2 -> this_hash e1 = this_hash e2 ->
  (forall k, 1 <= k <= n -> get_entry_by_seq st1 k = get_entry_by_seq st2 k) \/ hash_collision.
Proof.
  intros W1 W2 Hn V1 V2 G1 G2 Hh. unfold ak_audit_verify_range in V1, V2. rewrite Z.eqb_refl in V1, V2.
  apply verify_loop_sound in V1 as (es1 & L1 & C1 & E1); [|done|lia].
  apply verify_loop_sound in V2 as (es2 & L2 & C2 & E2); [|done|lia].
  assert (Hwf : forall st es, (forall k e, get_entry_by_seq st k = Some e -> wf_entry e) ->
    Z.of_nat (length es) = Z.max 0 (n - 1 + 1) ->
    (forall k, 1 <= k <= n -> get_entry_by_seq st k = es !! Z.to_nat (k - 1)) -> Forall wf_entry es).
  { intros st es W L E. apply Forall_lookup. intros i e Hi. apply (W (Z.of_nat i + 1)).
    pose proof (lookup_lt_Some _ _ _ Hi). rewrite E by lia. rewrite <-Hi. f_equal. lia. }
  assert (Hlast : forall es e, Z.of_nat (length es) = Z.max 0 (n - 1 + 1) ->
    es !! Z.to_nat (n - 1) = Some e -> chain_head AK_GENESIS_HASH es = this_hash e).
  { intros es e L He. apply chain_head_last. rewrite last_lookup, <-He. f_equal. lia. }
  rewrite E1 in G1 by lia. rewrite E2 in G2 by lia.
  destruct (chained_unique es1 es2) as [->|?]; [lia|done|done| | | |left|by right].
  - by apply (Hwf st1).
  - by apply (Hwf st2).
  - by rewrite (Hlast es1 e1), (Hlast es2 e2).
  - intros k Hk. by rewrite E1, E2.
Qed.

(** ** Histories *)

Inductive log_op :=
| LAppend (ev : log_event) (alloc_seg : bool)
| LAnchor (now_ms : Z) (alloc : bool).

(** The events accepted, and the final state. *)
Fixpoint log_run (st : log_state) (ops : list log_op) : list log_event * log_state :=
  match ops with
  | [] => ([], st)
  | LAppend ev alloc :: rest =>
      let '(rv, st') := ak_audit_append_locked st ev alloc true in
      let '(evs, st'') := log_run st' rest in
      (if rv =? AK_E_LOG_FULL then evs else ev :: evs, st'')
  | LAnchor now_ms alloc :: rest => log_run (snd (ak_audit_emit_anchor st now_ms alloc)) rest
  end.

Definition appended (ops : list log_op) : list log_event :=
  omap (fun o => match o with LAppend ev _ => Some ev | LAnchor _ _ => None end) ops.

Definition allocs_ok (ops : list log_op) : Prop :=
  Forall (fun o => match o with LAppend _ alloc => alloc = true | LAnchor _ _ => True end) ops.

Lemma log_run_spec ops st :
  log_inv st ->
  let '(evs, st') := log_run st ops in
  log_inv st' /\ event_of <$> all_entries st' = (event_of <$> all_entries st) ++ evs /\
  (allocs_ok ops -> head_seq st + Z.of_nat (length (appended ops)) <= LOG_CAPACITY -> evs = appended ops).
Proof.
  revert st. induction ops as [|[ev alloc|now_ms alloc] ops IH]; intros st Hinv; cbn [log_run].
  - split; [done|]. by rewrite app_nil_r.
  - pose proof (append_spec st ev alloc Hinv) as Hs.
    destruct (ak_audit_append_locked st ev alloc true) as [rv st1].
    destruct Hs as [(-> & -> & Hfull)|(-> & Hinv1 & e & He & Hall)].
    + specialize (IH st Hinv). destruct (log_run st ops) as [evs st2].
      destruct IH as (H1 & H2 & H3). split; [done|]. split; [done|].
      intros Ha Hcap. inversion Ha; subst. cbn in Hcap. specialize (Hfull eq_refl). lia.
    + specialize (IH st1 Hinv1). destruct (log_run st1 ops) as [evs st2].
      destruct IH as (H1 & H2 & H3). rewrite Hall, fmap_app, <-app_assoc in H2. cbn in H2. rewrite He in H2.
      pose proof (li_head _ Hinv) as Hh. pose proof (li_head _ Hinv1) as Hh1.
      rewrite Hall, length_app in Hh1. cbn in Hh1.
      destruct (Z.eqb_spec (head_seq st + 1) AK_E_LOG_FULL) as [E|_]; [unfold AK_E_LOG_FULL in E; lia|].
      split; [done|]. split; [done|]. intros Ha Hcap. inversion Ha; subst. cbn in *. f_equal.
      apply H3; [done|]. unfold appended. lia.
  - destruct (emit_anchor_inv st now_ms alloc Hinv) as [H1 H2]. specialize (IH _ H1).
    destruct (log_run _ ops) as [evs st2]. rewrite H2 in IH. destruct IH as (H3 & H4 & H5).
    split; [done|]. split; [done|]. intros Ha Hcap. inversion Ha; subst. apply H5; [done|].
    pose proof (li_head _ Hinv). pose proof (li_head _ H1). rewrite H2 in *. cbn in Hcap. unfold appended. lia.
Qed.

(** C17: the log refines the history of appends.  After any sequence of appends
    and anchors from initialization (segment allocations may fail), the log is
    the list of the accepted events, in order and numbered from 1 without
    gaps; looking a number up returns that event's entry; the whole chain
    verifies; and every anchor taken on a non-empty log still verifies.  When
    allocations succeed, no event is refused up to the capacity of 10^6
    entries. *)
Theorem log_refines_history ops :
  let '(evs, st) := log_run ak_audit_init ops in
  event_of <$> all_entries st = evs /\ head_seq st = Z.of_nat (length evs) /\
  ak_audit_verify st (fun _ => true) = 0 /\
  (forall k, 1 <= k <= head_seq st -> exists e,
     get_entry_by_seq st k = Some e /\ e_seq e = k /\ evs !! Z.to_nat (k - 1) = Some (event_of e)) /\
  (forall a, a ∈ anchors st -> log_seq a = 0 \/ ak_audit_verify_anchor st a = true) /\
  (allocs_ok ops -> Z.of_nat (length (appended ops)) <= LOG_CAPACITY -> evs = appended ops).
Proof.
  pose proof (log_run_spec ops ak_audit_init init_log_inv) as Hs.
  destruct (log_run ak_audit_init ops) as [evs st]. destruct Hs as (Hinv & Hev & Hall).
  cbn [all_entries ak_audit_init segments fmap list_fmap concat entries app] in Hev.
  split; [done|]. split; [by rewrite <-Hev, length_fmap, (li_head _ Hinv)|].
  split; [by apply inv_verifies|]. split; [|split; [|done]].
  - intros k Hk. rewrite get_entry_spec by done. destruct (Z.ltb_spec k 1); [lia|].
    rewrite (li_head _ Hinv) in Hk.
    destruct (lookup_lt_is_Some_2 (all_entries st) (Z.to_nat (k - 1))) as [e He]; [lia|].
    exists e. split; [done|]. split; [rewrite (li_seq _ Hinv _ _ He); lia|].
    by rewrite <-Hev, list_lookup_fmap, He.
  - intros a Ha. pose proof (li_anchors _ Hinv) as Hf. rewrite list.Forall_forall in Hf.
    destruct (Hf a Ha) as [?|(H1 & e & He & Hh)]; [by left|right].
    unfold ak_audit_verify_anchor. rewrite get_entry_spec by done.
    destruct (Z.ltb_spec (log_seq a) 1); [lia|]. rewrite He, Hh. apply bytes_eqb_refl.
Qed.

Lemma inv_wf_entries st :
  log_inv st -> Forall wf_event (event_of <$> all_entries st) -> Forall wf_entry (all_entries st).
Proof.
  intros Hinv Hw. pose proof (log_capacity st Hinv) as Hcap. rewrite (li_head _ Hinv) in Hcap.
  unfold LOG_CAPACITY in Hcap. apply Forall_lookup. intros i e Hi.
  apply wf_entry_event; [apply (Forall_lookup_1 _ _ i _ Hw); by rewrite list_lookup_fmap, Hi|].
  rewrite (li_seq _ Hinv _ _ Hi). pose proof (lookup_lt_Some _ _ _ Hi). unfold is_u64. lia.
Qed.

(** ** Queries *)

Lemma seqs_snoc a b : a <= b + 1 -> seqs a (b + 1) = seqs a b ++ [b + 1].
Proof.
  intros Hab. unfold seqs. replace (Z.to_nat (b + 1 - a + 1)) with (Z.to_nat (b - a + 1) + 1)%nat by lia.
  rewrite seq_app, fmap_app. cbn [seq fmap list_fmap]. do 2 f_equal. lia.
Qed.

Definition in_range (f : option ak_log_query_filter) (a b : Z) (e : ak_log_entry) : Prop :=
  filter_match f e = true /\ a <= e_seq e <= b.
#[global] Instance in_range_dec f a b e : Decision (in_range f a b e).
Proof. unfold in_range. apply _. Defined.

Definition select (st : log_state) (f : option ak_log_query_filter) (s : Z) : option ak_log_entry :=
  match get_entry_by_seq st s with
  | Some e => if filter_match f e then Some e else None
  | None => None
  end.

Lemma select_prefix st f a k :
  log_inv st -> 0 <= a -> (k <= length (all_entries st))%nat ->
  omap (select st f) (seqs a (Z.of_nat k)) = filter (in_range f a (Z.of_nat k)) (take k (all_entries st)).
Proof.
  intros Hinv Ha. induction k as [|k IH]; intros Hk.
  - destruct (decide (a = 0)) as [->|]; [|rewrite seqs_nil; [done|lia]].
    change (Z.of_nat 0) with 0. rewrite seqs_cons, seqs_nil by lia. cbn. unfold select.
    by rewrite get_entry_spec.
  - destruct (lookup_lt_is_Some_2 (all_entries st) k) as [e He]; [lia|].
    pose proof (li_seq _ Hinv _ _ He) as Hseq. rewrite (take_S_r _ _ _ He), filter_app.
    replace (filter (in_range f a (Z.of_nat (S k))) (take k (all_entries st)))
      with (filter (in_range f a (Z.of_nat k)) (take k (all_entries st))).
    2:{ apply filter_ext_in. intros x (i & Hx & Hi)%elem_of_take. unfold in_range.
        pose proof (li_seq _ Hinv _ _ Hx). split; intros [? ?]; (split; [done|lia]). }
    rewrite <-IH by lia. replace (Z.of_nat (S k)) with (Z.of_nat k + 1) by lia.
    destruct (decide (a <= Z.of_nat k + 1)) as [Hle|Hgt].
    + assert (Hsel : select st f (Z.of_nat k + 1) = if filter_match f e then Some e else None).
      { unfold select. rewrite get_entry_spec by done.
        destruct (Z.ltb_spec (Z.of_nat k + 1) 1); [lia|].
        replace (Z.to_nat (Z.of_nat k + 1 - 1)) with k by lia. by rewrite He. }
      rewrite seqs_snoc, omap_app by done. f_equal. cbn [omap list_omap]. rewrite Hsel, filter_cons.
      destruct (filter_match f e) eqn:Ef.
      * rewrite decide_True by (split; [done|lia]). done.
      * rewrite decide_False by (intros [? _]; congruence). done.
    + rewrite !seqs_nil by lia. rewrite filter_cons, decide_False by (unfold in_range; lia). done.
Qed.

(** queries are exact.  On a log any history produced, a query for
    [a..b] returns precisely the entries in that range that pass the filter,
    in log order, each once; it returns nothing exactly when there is none or
    when the result array cannot be allocated. *)
Theorem query_exact ops f a b alloc :
  0 <= a ->
  let st := snd (log_run ak_audit_init ops) in
  default [] (ak_audit_query st f a b alloc) =
    if alloc then filter (in_range f a b) (all_entries st) else [].
Proof.
  intros Ha. cbv zeta. pose proof (log_run_spec ops ak_audit_init init_log_inv) as Hs.
  destruct (log_run ak_audit_init ops) as [evs st]. destruct Hs as (Hinv & _ & _). cbn [snd].
  enough (Hm : matching st f a b = filter (in_range f a b) (all_entries st)).
  { unfold ak_audit_query. rewrite Hm. destruct (filter _ _), alloc; done. }
  unfold matching. fold (select st f). pose proof (li_head _ Hinv) as Hh.
  destruct (decide (b < 0)) as [Hb|Hb].
  { rewrite seqs_nil by lia. cbn. symmetry. apply filter_none. intros e He [_ Hr]. lia. }
  set (k := Z.to_nat (Z.min b (head_seq st))). replace (Z.min b (head_seq st)) with (Z.of_nat k) by lia.
  rewrite select_prefix by (done || lia). rewrite <-(take_drop k (all_entries st)) at 2.
  rewrite filter_app. rewrite (filter_none _ (drop k _)), app_nil_r.
  - apply filter_ext_in. intros x (i & Hx & Hi)%elem_of_take. unfold in_range.
    pose proof (li_seq _ Hinv _ _ Hx). split; intros [? ?]; (split; [done|lia]).
  - intros x Hx [_ Hr]. apply list_elem_of_lookup in Hx as [i Hi]. rewrite lookup_drop in Hi.
    pose proof (li_seq _ Hinv _ _ Hi). pose proof (lookup_lt_Some _ _ _ Hi). lia.
Qed.
End Theorems.

(** ** Concrete logs *)

Definition demo_event (o : Z) : log_event :=
  mk_event (replicate 16 1) (replicate 16 2) o (zeros 32) (zeros 32) (zeros 32) 1000.
Definition demo_log : log_state :=
  snd (log_run ak_audit_init [LAppend (demo_event 7) true; LAppend (demo_event 8) true]).

Lemma demo_event_wf o : is_u16 o -> wf_event (demo_event o).
Proof.
  intros Ho. constructor; cbn [demo_event ev_now_ms ev_op ev_pid ev_run ev_req ev_res ev_policy];
    try (unfold is_u64, is_u16 in *; lia); (split; [done|]);
    apply Forall_replicate; unfold is_u8; lia.
Qed.

Lemma demo_log_wf k e : get_entry_by_seq demo_log k = Some e -> wf_entry e.
Proof.
  pose proof (log_run_spec [LAppend (demo_event 7) true; LAppend (demo_event 8) true] ak_audit_init
    init_log_inv) as Hs.
  unfold demo_log. destruct (log_run ak_audit_init _) as [evs st]. destruct Hs as (Hinv & Hev & Happ).
  rewrite Happ in Hev by (repeat constructor || done). cbn [snd].
  rewrite get_entry_spec by done. destruct (k <? 1); [done|]. intros He.
  assert (Hw : Forall wf_entry (all_entries st)).
  { apply inv_wf_entries; [done|]. rewrite Hev.
    repeat constructor; apply demo_event_wf; unfold is_u16; lia. }
  exact (Forall_lookup_1 _ _ _ _ Hw He).
Qed.

Lemma log_tamper_evident_witness :
  (forall k, 1 <= k <= 2 -> get_entry_by_seq demo_log k = get_entry_by_seq demo_log k) \/ hash_collision.
Proof.
  destruct (bool_decide_unpack (is_Some (get_entry_by_seq demo_log 2))) as [e E2];
    [vm_compute; exact I|].
  apply (log_tamper_evident demo_log demo_log 2 e e).
  - exact demo_log_wf.
  - exact demo_log_wf.
  - lia.
  - vm_compute. reflexivity.
  - vm_compute. reflexivity.
  - exact E2.
  - exact E2.
  - reflexivity.
Defined.

Lemma query_exact_witness :
  default [] (ak_audit_query demo_log (Some (mk_filter None None 8)) 1 2 true) =
  filter (in_range (Some (mk_filter None None 8)) 1 2) (all_entries demo_log).
Proof.
  apply (query_exact [LAppend (demo_event 7) true; LAppend (demo_event 8) true]
    (Some (mk_filter None None 8)) 1 2 true).
  lia.
Defined.

(** When an allocation inside the hash computation fails, the entry is logged
    with an all-zero hash and the log no longer verifies. *)
Example hash_allocation_failure_breaks_chain :
  let st := snd (ak_audit_append_locked ak_audit_init (demo_event 7) true false) in
  ak_audit_verify st (fun _ => true) = 1.
Proof. vm_compute. reflexivity. Qed.
