(* ===== verification/AuditDisk.v ===== *)
(** * Storage of the audit log ([src/src/agentic/ak_audit.c])

    The on-disk format, [ak_audit_sync], [ak_audit_append] with its sync and
    anchor, [ak_audit_open_storage] and the recovery [ak_audit_load].

    The file system is outside this code: a file is a byte string, and the
    outcomes of the calls into it are the arguments [sync_io] and [load_io].  A
    batch of writes and its flush either all succeed, and the bytes are in the
    file, or the batch fails, and the file past the batch's start holds
    arbitrary bytes. *)

From S2P Require Import Prelude Crypto Format AuditLog.

Definition AK_AUDIT_MAGIC : Z := 0x414B4C47.
Definition AK_AUDIT_VERSION : Z := 1.
Definition AK_AUDIT_ENTRY_MAGIC : Z := 0x414B4C45.

(** [sizeof] of the on-disk structures; [ak_log_entry_t] ends with 6 bytes of
    padding (alignment 8). *)
Definition FILE_HEADER_SIZE : Z := 72.
Definition ENTRY_HEADER_SIZE : Z := 24.
Definition ENTRY_SIZE : Z := 216.
Definition AK_AUDIT_ENTRY_DISK_SIZE : Z := ENTRY_HEADER_SIZE + ENTRY_SIZE.

Record disk_state := mk_disk {
  dlog : log_state;
  storage_enabled : bool;
  file_offset : Z;
  file : bytes
}.

(** ** CRC-32 *)

Fixpoint crc_bits (n : nat) (crc : Z) : Z :=
  match n with
  | O => crc
  | S n' => crc_bits n' (Z.lxor (Z.shiftr crc 1) (Z.land 0xEDB88320 (u32 (- Z.land crc 1))))
  end.

Definition ak_audit_crc32 (data : bytes) : Z :=
  u32 (Z.lnot (foldl (fun crc b => crc_bits 8 (Z.lxor crc b)) 0xFFFFFFFF data)).

Example crc32_check : ak_audit_crc32 B"123456789" = 0xCBF43926.
Proof. vm_compute. reflexivity. Qed.

(** ** The on-disk format *)

(** The bytes of [ak_log_entry_t]. *)
Definition entry_image (e : ak_log_entry) : bytes :=
  le_enc 8 (e_seq e) ++ le_enc 8 (ts_ms e) ++ pid e ++ e_run_id e ++ le_enc 2 (op e) ++
  req_hash e ++ res_hash e ++ prev_hash e ++ this_hash e ++ policy_hash e ++ zeros 6.

Definition ak_audit_serialize_entry (e : ak_log_entry) : bytes :=
  le_enc 4 AK_AUDIT_ENTRY_MAGIC ++ le_enc 4 AK_AUDIT_ENTRY_DISK_SIZE ++ le_enc 8 (e_seq e) ++
  le_enc 4 (ak_audit_crc32 (entry_image e)) ++ le_enc 4 0 ++ entry_image e.

Definition file_header_fields : bytes :=
  le_enc 4 AK_AUDIT_MAGIC ++ le_enc 4 AK_AUDIT_VERSION ++ le_enc 8 0 ++ le_enc 8 0 ++
  AK_GENESIS_HASH ++ le_enc 8 FILE_HEADER_SIZE.

Definition file_header : bytes :=
  file_header_fields ++ le_enc 4 (ak_audit_crc32 file_header_fields) ++ le_enc 4 0.

(** ** Sync *)

Record sync_io := mk_sio {
  io_header : bool;          (* the header write could be set up *)
  io_entry : nat -> bool;    (* the i-th entry write could be set up *)
  io_writes : bool;          (* every issued write completed *)
  io_flush_alloc : bool;
  io_flush : bool;           (* the flush completed *)
  io_tail : bytes            (* the file from the batch's start on, after a failure *)
}.

Definition unflushed (s : ak_log_segment) : list ak_log_entry :=
  drop (Z.to_nat (flushed s)) (entries s).

(** The two nested loops that issue the writes: the entries written, and
    whether none was refused. *)
Fixpoint issue (io : sync_io) (i : nat) (l : list ak_log_entry) : list ak_log_entry * bool :=
  match l with
  | [] => ([], true)
  | e :: l' =>
      if io_entry io i then let '(w, ok) := issue io (S i) l' in (e :: w, ok) else ([], false)
  end.

Definition mark_flushed (s : ak_log_segment) : ak_log_segment :=
  mk_seg (entries s) (seg_count s) (start_seq s).

Definition with_segments (st : log_state) (segs : list ak_log_segment) : log_state :=
  mk_log segs (head_seq st) (head_hash st) (anchors st) (anchor_capacity st).

Definition ak_audit_sync (d : disk_state) (io : sync_io) : disk_state :=
  let segs := segments (dlog d) in
  let all_flushed := with_segments (dlog d) (mark_flushed <$> segs) in
  if negb (storage_enabled d) then mk_disk all_flushed (storage_enabled d) (file_offset d) (file d)
  else
    let batch_start := file_offset d in
    let hdr := (file_offset d =? 0) && existsb (fun s => flushed s <? seg_count s) segs in
    if hdr && negb (io_header io) then d
    else
      let '(ws, ok) := issue io 0 (concat (unflushed <$> segs)) in
      if negb (hdr || negb (length ws =? 0)%nat) then d
      else
        let written := (if hdr then file_header else []) ++ concat (ak_audit_serialize_entry <$> ws) in
        if ok && io_writes io && io_flush_alloc io && io_flush io then
          mk_disk all_flushed (storage_enabled d)
            (u64 ((if hdr then FILE_HEADER_SIZE else batch_start) +
                  AK_AUDIT_ENTRY_DISK_SIZE * Z.of_nat (length ws)))
            (splice (Z.to_nat batch_start) written (file d))
        else
          mk_disk (dlog d) (storage_enabled d) batch_start
            (take (Z.to_nat batch_start) (file d) ++ io_tail io).

(** ** Append *)

(** Allocation outcomes and the second clock reading of one append. *)
Record append_env := mk_env {
  ae_alloc_seg : bool; ae_alloc_hash : bool; ae_io : sync_io; ae_now_anchor : Z; ae_alloc_anchor : bool
}.

Section Storage.
Context `{Hash}.

Definition ak_audit_append (d : disk_state) (ev : log_event) (env : append_env) : Z * disk_state :=
  let '(s, log1) := ak_audit_append_locked (dlog d) ev (ae_alloc_seg env) (ae_alloc_hash env) in
  if s =? AK_E_LOG_FULL then (s, d)
  else
    let d2 := ak_audit_sync (mk_disk log1 (storage_enabled d) (file_offset d) (file d)) (ae_io env) in
    if s mod AK_ANCHOR_INTERVAL =? 0
    then (s, mk_disk (snd (ak_audit_emit_anchor (dlog d2) (ae_now_anchor env) (ae_alloc_anchor env)))
               (storage_enabled d2) (file_offset d2) (file d2))
    else (s, d2).

(** ** Opening and loading *)

(** [f]: the file, [None] when it cannot be opened. *)
Definition ak_audit_open_storage (d : disk_state) (f : option bytes) : Z * disk_state :=
  match f with
  | None => (- EIO, mk_disk (dlog d) false (file_offset d) (file d))
  | Some f =>
      let len := Z.of_nat (length f) in
      (0, mk_disk (dlog d) true (if len <? FILE_HEADER_SIZE then 0 else len) f)
  end.

(** Outcomes of the reads and allocations of recovery, by file offset. *)
Record load_io := mk_lio {
  l_read : Z -> bool; l_alloc_entry : Z -> bool; l_alloc_seg : Z -> bool; l_alloc_hash : Z -> bool
}.

(** A read of [n] bytes at [off]: [None] on an I/O error.  Bytes past the end
    of the file leave the zeroed buffer as it is. *)
Definition read_from_disk (io : load_io) (f : bytes) (off n : Z) : option bytes :=
  if l_read io off then
    let b := take (Z.to_nat n) (drop (Z.to_nat off) f) in
    Some (b ++ zeros (Z.to_nat n - length b))
  else None.

(** The fields of an [ak_log_entry_t] image. *)
Definition entry_of_image (b : bytes) : ak_log_entry :=
  mk_entry (le_dec (slice 0 8 b)) (le_dec (slice 8 8 b)) (slice 16 16 b) (slice 32 16 b)
    (le_dec (slice 48 2 b)) (slice 50 32 b) (slice 82 32 b) (slice 114 32 b) (slice 146 32 b)
    (slice 178 32 b).

(** Adding a recovered entry to the in-memory segments; [None] stops recovery. *)
Definition load_push (segs : list ak_log_segment) (e : ak_log_entry) (alloc : bool)
    : option (list ak_log_segment) :=
  match last segs with
  | None => None
  | Some seg =>
      if AK_LOG_SEGMENT_SIZE <=? seg_count seg then
        if AK_LOG_MAX_SEGMENTS <=? Z.of_nat (length segs) then None
        else if alloc then Some (add_to_last (segs ++ [mk_seg [] 0 (e_seq e)]) e) else None
      else Some (add_to_last segs e)
  end.

Definition mark_last (segs : list ak_log_segment) : list ak_log_segment :=
  alter mark_flushed (length segs - 1)%nat segs.

(** What one turn of the recovery loop does at an offset. *)
Inductive load_turn :=
| TStop                                        (* break *)
| TFail                                        (* return AK_E_LOG_CORRUPT *)
| TNext (e : ak_log_entry) (segs : list ak_log_segment) (off : Z).

Definition load_step (io : load_io) (f : bytes) (file_size off : Z) (prev : bytes)
    (segs : list ak_log_segment) : load_turn :=
  match read_from_disk io f off ENTRY_HEADER_SIZE with
  | None => TStop
  | Some h =>
      let magic := le_dec (slice 0 4 h) in
      let len := le_dec (slice 4 4 h) in
      let crc := le_dec (slice 16 4 h) in
      if negb (magic =? AK_AUDIT_ENTRY_MAGIC) then TStop
      else if len <? ENTRY_HEADER_SIZE + ENTRY_SIZE then TStop
      else if file_size <? off + len then TStop
      else if negb (len - ENTRY_HEADER_SIZE =? ENTRY_SIZE) then TStop
      else if negb (l_alloc_entry io off) then TFail
      else
        match read_from_disk io f (off + ENTRY_HEADER_SIZE) ENTRY_SIZE with
        | None => TStop
        | Some b =>
            let e := entry_of_image b in
            if negb (ak_audit_crc32 b =? crc) then TStop
            else if negb (bytes_eqb (prev_hash e) prev) then TStop
            else if negb (bytes_eqb (this_hash e)
                            (ak_audit_compute_entry_hash (l_alloc_hash io off) e (prev_hash e))) then TStop
            else match load_push segs e (l_alloc_seg io off) with
                 | None => TStop
                 | Some segs' => TNext e (mark_last segs') (off + len)
                 end
        end
  end.

Record loaded := mk_loaded {
  ld_ok : bool;             (* false: allocation failure *)
  ld_segs : list ak_log_segment;
  ld_seq : Z;
  ld_hash : bytes;
  ld_off : Z
}.

(** The loop; [None] when the fuel runs out. *)
Fixpoint load_loop (fuel : nat) (io : load_io) (f : bytes) (file_size off : Z)
    (segs : list ak_log_segment) (last_seq : Z) (prev : bytes) : option loaded :=
  if negb (off + ENTRY_HEADER_SIZE <=? file_size) then Some (mk_loaded true segs last_seq prev off)
  else match fuel with
       | O => None
       | S fuel' =>
           match load_step io f file_size off prev segs with
           | TStop => Some (mk_loaded true segs last_seq prev off)
           | TFail => Some (mk_loaded false segs last_seq prev off)
           | TNext e segs' off' => load_loop fuel' io f file_size off' segs' (e_seq e) (this_hash e)
           end
       end.

(** Every turn consumes one entry: this much fuel is enough. *)
Definition load_fuel (file_size : Z) : nat := Z.to_nat (file_size / AK_AUDIT_ENTRY_DISK_SIZE + 1).

Definition reset_first (segs : list ak_log_segment) : list ak_log_segment :=
  match segs with [] => [] | _ :: rest => mk_seg [] 0 1 :: rest end.

(** [ak_audit_load] once the storage is open. *)
Definition ak_audit_load (d : disk_state) (io : load_io) : option (Z * disk_state) :=
  if file_offset d =? 0 then Some (0, d)
  else
    match read_from_disk io (file d) 0 FILE_HEADER_SIZE with
    | None => Some (AK_E_LOG_CORRUPT, d)
    | Some h =>
        if negb (le_dec (slice 0 4 h) =? AK_AUDIT_MAGIC) then
          Some (0, mk_disk (dlog d) (storage_enabled d) 0 (file d))
        else if negb (le_dec (slice 4 4 h) =? AK_AUDIT_VERSION) then Some (AK_E_LOG_CORRUPT, d)
        else if negb (ak_audit_crc32 (slice 0 64 h) =? le_dec (slice 64 4 h)) then
          Some (AK_E_LOG_CORRUPT, d)
        else
          let segs := reset_first (segments (dlog d)) in
          match load_loop (load_fuel (file_offset d)) io (file d) (file_offset d) FILE_HEADER_SIZE
                  segs 0 AK_GENESIS_HASH with
          | None => None
          | Some r =>
              if ld_ok r then
                Some (0, mk_disk (mk_log (ld_segs r) (ld_seq r) (ld_hash r) (anchors (dlog d))
                                    (anchor_capacity (dlog d)))
                           (storage_enabled d) (ld_off r) (file d))
              else
                Some (AK_E_LOG_CORRUPT,
                      mk_disk (with_segments (dlog d) (ld_segs r)) (storage_enabled d)
                        (file_offset d) (file d))
          end
    end.
End Storage.

(** ** Watermarks *)

(** The first [n] entries are flushed, the others are not. *)
Fixpoint marks (n : Z) (segs : list ak_log_segment) : Prop :=
  match segs with
  | [] => True
  | s :: segs' => flushed s = Z.min n (seg_count s) /\ marks (Z.max 0 (n - seg_count s)) segs'
  end.

Definition segs_entries (segs : list ak_log_segment) : list ak_log_entry := concat (entries <$> segs).

Lemma marks_unflushed n segs :
  0 <= n -> marks n segs -> concat (unflushed <$> segs) = drop (Z.to_nat n) (segs_entries segs).
Proof.
  revert n. induction segs as [|s segs IH]; intros n Hn; [intros _; symmetry; apply drop_nil|].
  cbn [marks fmap list_fmap concat]. intros [Hf Hm]. rewrite (IH _ (Z.le_max_l 0 _) Hm).
  unfold unflushed, segs_entries in *. cbn [fmap list_fmap concat].
  rewrite drop_app. rewrite Hf. unfold seg_count in *.
  replace (Z.to_nat (Z.max 0 (n - Z.of_nat (length (entries s)))))
    with (Z.to_nat n - length (entries s))%nat by lia. f_equal.
  destruct (Z.le_gt_cases n (Z.of_nat (length (entries s)))).
  - by rewrite Z.min_l by lia.
  - rewrite Z.min_r by lia. by rewrite !drop_ge by lia.
Qed.

Lemma marks_existsb n segs :
  0 <= n -> marks n segs -> n <= Z.of_nat (length (segs_entries segs)) ->
  existsb (fun s => flushed s <? seg_count s) segs = (n <? Z.of_nat (length (segs_entries segs))).
Proof.
  revert n. induction segs as [|s segs IH]; intros n Hn Hm Hl.
  - symmetry. apply Z.ltb_ge. cbn. lia.
  - destruct Hm as [Hf Hm]. unfold segs_entries in *. cbn [existsb fmap list_fmap concat] in *.
    rewrite length_app in *. rewrite Hf. unfold seg_count in *.
    destruct (Z.ltb_spec (Z.min n (Z.of_nat (length (entries s)))) (Z.of_nat (length (entries s)))).
    + cbn [orb]. symmetry. apply Z.ltb_lt. lia.
    + cbn [orb]. rewrite (IH _ (Z.le_max_l 0 _) Hm) by lia.
      apply eq_true_iff_eq. rewrite !Z.ltb_lt. lia.
Qed.

Lemma marks_all segs : marks (Z.of_nat (length (segs_entries segs))) (mark_flushed <$> segs).
Proof.
  assert (Hg : forall k, 0 <= k -> marks (Z.of_nat (length (segs_entries segs)) + k) (mark_flushed <$> segs)).
  { induction segs as [|s segs IH]; intros k Hk; [done|].
    cbn [fmap list_fmap marks mark_flushed flushed]. unfold segs_entries in *. cbn [fmap list_fmap concat].
    rewrite length_app. unfold seg_count. cbn [mark_flushed entries]. split; [lia|].
    replace (Z.max 0 _) with (Z.of_nat (length (concat (entries <$> segs))) + k) by lia. by apply IH. }
  specialize (Hg 0 ltac:(lia)). by rewrite Z.add_0_r in Hg.
Qed.

Lemma marks_push n pre s e :
  0 <= n <= Z.of_nat (length (segs_entries (pre ++ [s]))) -> marks n (pre ++ [s]) ->
  marks n (pre ++ [push_entry e s]).
Proof.
  unfold segs_entries. revert n. induction pre as [|x pre IH]; intros n Hn;
    cbn [app marks fmap list_fmap concat] in *; unfold seg_count in *.
  - intros [Hf _]. rewrite app_nil_r in Hn. unfold push_entry, seg_count in *. cbn [entries flushed] in *.
    rewrite length_app. cbn [length]. split; [lia|done].
  - intros [Hf Hm]. split; [done|]. apply IH; [|done]. rewrite length_app in Hn. lia.
Qed.

Lemma marks_new_seg n segs start : marks n segs -> 0 <= n -> marks n (segs ++ [mk_seg [] 0 start]).
Proof.
  revert n. induction segs as [|s segs IH]; intros n Hm Hn; cbn [app marks] in *.
  - unfold seg_count. cbn [entries length flushed]. split; [lia|done].
  - destruct Hm as [Hf Hm]. split; [done|]. apply IH; [done|lia].
Qed.

(** ** The invariant does not depend on watermarks *)

Definition shape (s : ak_log_segment) : list ak_log_entry * Z := (entries s, start_seq s).

Lemma shape_entries (segs segs' : list ak_log_segment) :
  shape <$> segs' = shape <$> segs -> entries <$> segs' = entries <$> segs.
Proof.
  revert segs; induction segs' as [|x segs' IH]; intros [|y segs] E; try done.
  cbn in *. injection E as E1 _ E2. rewrite (IH segs E2). congruence.
Qed.

Lemma shape_segs_ok start (segs segs' : list ak_log_segment) :
  shape <$> segs' = shape <$> segs -> segs_ok start segs -> segs_ok start segs'.
Proof.
  intros E (pre & s & -> & Hf & Hs & Hc). rewrite fmap_app in E.
  apply fmap_app_inv in E as (pre' & l' & E1 & E2 & ->).
  destruct l' as [|s' [|]]; try done. cbn in E2. injection E2 as E2 E3.
  assert (Hl : length pre' = length pre) by (apply (f_equal length) in E1; by rewrite !length_fmap in E1).
  exists pre', s'. split; [done|]. unfold seg_count in *. split; [|split; congruence].
  intros i x Hx. assert (Hx' : (shape <$> pre') !! i = Some (shape x)) by (by rewrite list_lookup_fmap, Hx).
  rewrite <-E1, list_lookup_fmap in Hx'. destruct (pre !! i) as [y|] eqn:Ey; [|done].
  cbn in Hx'. injection Hx' as E4 E5. destruct (Hf i y Ey) as [H1 H2]. unfold seg_count in *. split; congruence.
Qed.

Section DiskInv.
Context `{Hash}.

Lemma shape_inv st segs' :
  log_inv st -> shape <$> segs' = shape <$> segments st ->
  log_inv (with_segments st segs') /\ all_entries (with_segments st segs') = all_entries st.
Proof.
  intros [Hs Hm Hh Hq Hc Hx Ha] E.
  assert (Hall : all_entries (with_segments st segs') = all_entries st)
    by (unfold all_entries, with_segments; cbn [segments]; by rewrite (shape_entries _ _ E)).
  assert (Hl : length segs' = length (segments st)) by (apply (f_equal length) in E; by rewrite !length_fmap in E).
  split; [|done]. constructor; rewrite ?Hall; cbn [with_segments segments head_seq head_hash anchors]; try done.
  - by eapply shape_segs_ok.
  - by rewrite Hl.
Qed.

(** An entry whose fields have their C widths. *)
Definition wf_disk_entry (e : ak_log_entry) : Prop :=
  wf_entry e /\ field_ok 32 (prev_hash e) /\ field_ok 32 (this_hash e).

Definition durable_file (es : list ak_log_entry) : bytes :=
  file_header ++ concat (ak_audit_serialize_entry <$> es).

Definition file_size_of (n : Z) : Z := FILE_HEADER_SIZE + AK_AUDIT_ENTRY_DISK_SIZE * n.

(** [n] entries are durable: the watermarks say so, and the file starts with
    exactly these entries. *)
Record disk_inv (d : disk_state) (n : Z) : Prop := {
  di_log : log_inv (dlog d);
  di_on : storage_enabled d = true;
  di_marks : marks n (segments (dlog d));
  di_n : 0 <= n <= head_seq (dlog d);
  di_wf : Forall wf_disk_entry (all_entries (dlog d));
  di_file : (n = 0 /\ file_offset d = 0) \/
    (file_offset d = file_size_of n /\ file_offset d <= Z.of_nat (length (file d)) /\
     take (Z.to_nat (file_offset d)) (file d) = durable_file (take (Z.to_nat n) (all_entries (dlog d))))
}.

Lemma length_image e : wf_disk_entry e -> length (entry_image e) = 216%nat.
Proof.
  intros ([_ _ _ [P _] [R _] [Q _] [S _] [Y _]] & [V _] & [T _]). unfold entry_image, zeros.
  rewrite !length_app, !length_le_enc, length_replicate, P, R, Q, S, Y, V, T. done.
Qed.

Lemma length_serialize e : wf_disk_entry e -> length (ak_audit_serialize_entry e) = 240%nat.
Proof.
  intros He. unfold ak_audit_serialize_entry. by rewrite !length_app, !length_le_enc, length_image.
Qed.

Lemma length_serialized es :
  Forall wf_disk_entry es ->
  Z.of_nat (length (concat (ak_audit_serialize_entry <$> es))) = AK_AUDIT_ENTRY_DISK_SIZE * Z.of_nat (length es).
Proof.
  unfold AK_AUDIT_ENTRY_DISK_SIZE, ENTRY_HEADER_SIZE, ENTRY_SIZE.
  induction 1 as [|e es He Hes IH]; [done|]. cbn [fmap list_fmap concat length].
  rewrite length_app, length_serialize by done. lia.
Qed.

Lemma length_file_header : length file_header = 72%nat.
Proof. unfold file_header, file_header_fields. by rewrite !length_app, !length_le_enc. Qed.

Lemma length_durable es :
  Forall wf_disk_entry es -> Z.of_nat (length (durable_file es)) = file_size_of (Z.of_nat (length es)).
Proof.
  intros Hes. unfold durable_file, file_size_of, FILE_HEADER_SIZE.
  rewrite length_app, length_file_header. pose proof (length_serialized es Hes). lia.
Qed.

Lemma issue_all io i l w : issue io i l = (w, true) -> w = l.
Proof.
  revert i w; induction l as [|e l IH]; intros i w; cbn; [by intros [= <-]|].
  destruct (io_entry io i); [|done]. destruct (issue io (S i) l) as [w' ok] eqn:E.
  intros [= <- ->]. by rewrite (IH _ _ E).
Qed.

Lemma mark_shape (segs : list ak_log_segment) : shape <$> (mark_flushed <$> segs) = shape <$> segs.
Proof. induction segs as [|s segs IH]; [done|]. cbn. by rewrite IH. Qed.

Lemma take_splice i src dst k :
  (i <= length dst)%nat -> k = (i + length src)%nat -> take k (splice i src dst) = take i dst ++ src.
Proof.
  intros Hi ->. unfold splice. rewrite app_assoc. apply take_app_length'.
  rewrite length_app, length_take. lia.
Qed.

Lemma length_splice_ge i src dst : (i <= length dst)%nat -> (i + length src <= length (splice i src dst))%nat.
Proof. intros Hi. unfold splice. rewrite !length_app, length_take. lia. Qed.

(** Whether the input/output of a sync of [d] all succeeds. *)
Definition sync_ok (io : sync_io) : Prop :=
  io_header io = true /\ (forall i, io_entry io i = true) /\ io_writes io = true /\
  io_flush_alloc io = true /\ io_flush io = true.

Lemma issue_ok io i l : sync_ok io -> issue io i l = (l, true).
Proof.
  intros (_ & He & _). revert i. induction l as [|e l IH]; intros i; cbn; [done|]. by rewrite He, IH.
Qed.

(** A batch written in full. *)
Lemma sync_file d n :
  disk_inv d n ->
  let all := all_entries (dlog d) in
  let pending := drop (Z.to_nat n) all in
  let hdr := file_offset d =? 0 in
  let written := (if hdr then file_header else []) ++ concat (ak_audit_serialize_entry <$> pending) in
  let off := u64 ((if hdr then FILE_HEADER_SIZE else file_offset d) +
                  AK_AUDIT_ENTRY_DISK_SIZE * Z.of_nat (length pending)) in
  off = file_size_of (head_seq (dlog d)) /\
  off <= Z.of_nat (length (splice (Z.to_nat (file_offset d)) written (file d))) /\
  take (Z.to_nat off) (splice (Z.to_nat (file_offset d)) written (file d)) = durable_file all.
Proof.
  intros Hinv. cbv zeta. pose proof (log_capacity _ (di_log _ _ Hinv)) as Hcap.
  destruct Hinv as [Hlog _ _ Hn Hwf Hfile]. rewrite (li_head _ Hlog) in *.
  set (all := all_entries (dlog d)) in *. unfold LOG_CAPACITY in Hcap.
  assert (Hp : Forall wf_disk_entry (drop (Z.to_nat n) all)) by (by apply Forall_drop).
  pose proof (length_serialized _ Hp) as Hser. rewrite length_drop in *.
  unfold file_size_of, FILE_HEADER_SIZE, AK_AUDIT_ENTRY_DISK_SIZE, ENTRY_HEADER_SIZE, ENTRY_SIZE in *.
  set (w := concat _) in *.
  assert (Hoff : u64 ((if file_offset d =? 0 then 72 else file_offset d) +
      (24 + 216) * Z.of_nat (length all - Z.to_nat n)) = 72 + (24 + 216) * Z.of_nat (length all)).
  { unfold u64. destruct Hfile as [[-> ->]|(Ho & _)]; [cbn [Z.eqb]|
      destruct (Z.eqb_spec (file_offset d) 0); [lia|]]; rewrite Z.mod_small; lia. }
  rewrite Hoff. split; [done|].
  destruct Hfile as [[-> Ho]|(Ho & Hle & Htk)].
  - rewrite Ho. cbn [Z.eqb]. change (Z.to_nat 0) with 0%nat in *.
    pose proof (length_splice_ge 0 (file_header ++ w) (file d) ltac:(lia)) as Hl.
    rewrite length_app, length_file_header in Hl. split; [lia|].
    rewrite take_splice by (rewrite ?length_app, ?length_file_header; lia). unfold durable_file.
    rewrite take_0. subst w. by rewrite drop_0.
  - destruct (Z.eqb_spec (file_offset d) 0); [lia|]. cbn [app].
    pose proof (length_splice_ge (Z.to_nat (file_offset d)) w (file d) ltac:(lia)) as Hl. split; [lia|].
    rewrite take_splice by lia. rewrite Htk. unfold durable_file. rewrite <-app_assoc. f_equal. subst w.
    by rewrite <-concat_app, <-fmap_app, take_drop.
Qed.

(** A failed batch leaves the durable prefix alone. *)
Lemma failed_batch d n tail :
  disk_inv d n ->
  disk_inv (mk_disk (dlog d) true (file_offset d) (take (Z.to_nat (file_offset d)) (file d) ++ tail)) n.
Proof.
  intros [Hlog Hon Hmk Hn Hwf Hfile]. constructor; cbn [dlog storage_enabled file_offset file]; try done.
  destruct Hfile as [?|(Ho & Hle & Htk)]; [by left|right]. split; [done|].
  assert (Hlen : length (take (Z.to_nat (file_offset d)) (file d)) = Z.to_nat (file_offset d))
    by (rewrite length_take; unfold file_size_of, FILE_HEADER_SIZE, AK_AUDIT_ENTRY_DISK_SIZE in Ho; lia).
  split; [rewrite length_app; lia|]. by rewrite take_app_length' by lia.
Qed.

Lemma synced_inv d n f :
  disk_inv d n -> file_size_of (head_seq (dlog d)) <= Z.of_nat (length f) ->
  take (Z.to_nat (file_size_of (head_seq (dlog d)))) f = durable_file (all_entries (dlog d)) ->
  disk_inv (mk_disk (with_segments (dlog d) (mark_flushed <$> segments (dlog d))) true
    (file_size_of (head_seq (dlog d))) f) (head_seq (dlog d)).
Proof.
  intros [Hlog Hon Hmk Hn Hwf Hfile] Hl Ht.
  destruct (shape_inv (dlog d) (mark_flushed <$> segments (dlog d)) Hlog (mark_shape _)) as [Hlog' Hall].
  constructor; cbn [dlog storage_enabled file_offset file]; rewrite ?Hall; try done.
  - cbn [with_segments segments]. rewrite (li_head _ Hlog). apply marks_all.
  - cbn [with_segments head_seq]. lia.
  - right. split; [done|]. split; [done|]. rewrite Ht, (li_head _ Hlog), Nat2Z.id. by rewrite take_ge.
Qed.

Definition same_log (d d' : disk_state) : Prop :=
  all_entries (dlog d') = all_entries (dlog d) /\ head_seq (dlog d') = head_seq (dlog d) /\
  head_hash (dlog d') = head_hash (dlog d).

(** One sync: nothing durable is lost, and a successful one makes everything durable. *)
Lemma sync_inv d n io :
  disk_inv d n ->
  exists n', disk_inv (ak_audit_sync d io) n' /\ n <= n' /\ (sync_ok io -> n' = head_seq (dlog d)) /\
    same_log d (ak_audit_sync d io).
Proof.
  intros Hinv. pose proof (sync_file d n Hinv) as Hsf. cbv zeta in Hsf.
  pose proof Hinv as [Hlog Hon Hmk Hn Hwf Hfile]. unfold ak_audit_sync. rewrite Hon. cbn [negb].
  pose proof (li_head _ Hlog) as Hh. change (all_entries (dlog d)) with (segs_entries (segments (dlog d))) in Hh.
  rewrite (marks_existsb n), (marks_unflushed n) by (done || lia). rewrite <-Hh.
  change (segs_entries (segments (dlog d))) with (all_entries (dlog d)) in *.
  assert (Hkeep : (sync_ok io -> n = head_seq (dlog d)) -> exists n', disk_inv d n' /\ n <= n' /\
    (sync_ok io -> n' = head_seq (dlog d)) /\ same_log d d) by (intros; exists n; split; [done|]; split; [lia|]; done).
  destruct (Z.ltb_spec n (head_seq (dlog d))) as [Hlt|Hge].
  2:{ rewrite andb_false_r. rewrite (drop_ge (all_entries (dlog d))) by lia. cbn. apply Hkeep. intros _. lia. }
  rewrite andb_true_r.
  destruct ((file_offset d =? 0) && negb (io_header io)) eqn:Eh.
  { apply Hkeep. intros (Hio & _). rewrite Hio, andb_false_r in Eh. done. }
  destruct (issue io 0 (drop (Z.to_nat n) (all_entries (dlog d)))) as [ws ok] eqn:Ei.
  destruct (negb (_ || _)) eqn:En.
  { apply Hkeep. intros Hio. rewrite issue_ok in Ei by done. injection Ei as <- _.
    apply negb_true_iff, orb_false_iff in En as [_ En]. apply negb_false_iff, Nat.eqb_eq in En.
    rewrite length_drop in En. lia. }
  destruct (ok && io_writes io && io_flush_alloc io && io_flush io) eqn:Es.
  - bprop. subst ok. apply issue_all in Ei as ->. destruct Hsf as (-> & Hsl & Hst).
    exists (head_seq (dlog d)). split; [by apply (synced_inv d n)|]. split; [lia|]. split; [done|].
    destruct (shape_inv (dlog d) (mark_flushed <$> segments (dlog d)) Hlog (mark_shape _)) as [_ Hall].
    split; [exact Hall|done].
  - exists n. split; [by apply failed_batch|]. split; [lia|]. split; [|done].
    intros Hio. exfalso. rewrite issue_ok in Ei by done. injection Ei as _ <-.
    destruct Hio as (_ & _ & W & A & F). by rewrite W, A, F in Es.
Qed.

(** ** Appending *)

Lemma marks_append st n alloc segs e :
  log_inv st -> 0 <= n <= head_seq st -> marks n (segments st) ->
  get_current_segment st alloc = Some segs -> marks n (add_to_last segs e).
Proof.
  intros Hinv Hn Hm. unfold get_current_segment. destruct (last (segments st)) as [s|] eqn:El; [|done].
  apply last_Some_snoc in El as [pre Hs]. pose proof (li_head _ Hinv) as Hh. unfold all_entries in Hh.
  assert (Hpush : forall segs', marks n segs' -> segs_entries segs' = segs_entries (segments st) ->
    (exists p x, segs' = p ++ [x]) -> marks n (add_to_last segs' e)).
  { intros segs' Hm' He (p & x & ->). rewrite add_to_last_snoc. apply marks_push; [|done].
    rewrite He. unfold segs_entries. lia. }
  destruct (AK_LOG_SEGMENT_SIZE <=? seg_count s).
  - destruct (AK_LOG_MAX_SEGMENTS <=? Z.of_nat (length (segments st))); [done|].
    destruct alloc; [|done]. intros [= <-]. apply Hpush; [by apply marks_new_seg; [|lia]| |eauto].
    unfold segs_entries. rewrite fmap_app, concat_app. cbn. by rewrite !app_nil_r.
  - intros [= <-]. apply Hpush; [done|done|]. rewrite Hs. eauto.
Qed.

Lemma emit_anchor_disk d n now_ms alloc :
  disk_inv d n ->
  disk_inv (mk_disk (snd (ak_audit_emit_anchor (dlog d) now_ms alloc)) (storage_enabled d) (file_offset d) (file d)) n.
Proof.
  intros [Hlog Hon Hmk Hn Hwf Hfile].
  destruct (emit_anchor_inv (dlog d) now_ms alloc Hlog) as [Hlog' Hall].
  assert (Hsg : segments (snd (ak_audit_emit_anchor (dlog d) now_ms alloc)) = segments (dlog d) /\
                head_seq (snd (ak_audit_emit_anchor (dlog d) now_ms alloc)) = head_seq (dlog d)).
  { unfold ak_audit_emit_anchor. cbv zeta. by repeat case_match. }
  destruct Hsg as [Hsg Hhd].
  constructor; cbn [dlog storage_enabled file_offset file]; rewrite ?Hall, ?Hsg, ?Hhd; done.
Qed.

Lemma new_entry_wf s prev ev :
  wf_event ev -> is_u64 s -> field_ok 32 prev -> wf_disk_entry (new_entry true s prev ev).
Proof.
  intros Hev Hs Hp. split; [|split; [done|]].
  - apply wf_entry_event; [by destruct ev|done].
  - split; [apply length_hash|apply wf_hash].
Qed.

Lemma chain_head_ok es : chained AK_GENESIS_HASH es -> field_ok 32 (chain_head AK_GENESIS_HASH es).
Proof.
  destruct es as [|e es _] using rev_ind; intros Hc; [split; [done|apply wf_zeros]|].
  rewrite chain_head_snoc. apply chained_app in Hc as [_ (_ & -> & _)].
  split; [apply length_hash|apply wf_hash].
Qed.

(** One append on a log with storage. *)
Lemma append_disk d n ev env :
  disk_inv d n -> wf_event ev -> ae_alloc_hash env = true ->
  let '(rv, d') := ak_audit_append d ev env in
  exists n', disk_inv d' n' /\ n <= n' /\
    ((rv = AK_E_LOG_FULL /\ d' = d) \/
     (rv = head_seq (dlog d) + 1 /\ head_seq (dlog d') = rv /\
      (exists e, event_of e = ev /\ all_entries (dlog d') = all_entries (dlog d) ++ [e]) /\
      (sync_ok (ae_io env) -> n' = rv))).
Proof.
  intros Hinv Hev Hal. pose proof Hinv as [Hlog Hon Hmk Hn Hwf Hfile].
  pose proof (log_capacity _ Hlog) as Hcap. unfold LOG_CAPACITY in Hcap.
  unfold ak_audit_append, ak_audit_append_locked. rewrite Hal.
  destruct (get_current_segment (dlog d) (ae_alloc_seg env)) as [segs|] eqn:Eg.
  2:{ cbn. exists n. split; [done|]. split; [lia|]. by left. }
  assert (u64 (head_seq (dlog d) + 1) = head_seq (dlog d) + 1) as -> by (unfold u64; rewrite Z.mod_small; lia).
  set (e := new_entry true _ _ ev).
  destruct (push_inv (dlog d) (ae_alloc_seg env) segs e Hlog Eg eq_refl eq_refl eq_refl) as [Hlog1 Hall1].
  cbv zeta in *. set (log1 := mk_log _ _ _ _ _) in *.
  destruct (Z.eqb_spec (e_seq e) AK_E_LOG_FULL) as [E|_]; [unfold AK_E_LOG_FULL in E; cbn in E; lia|].
  assert (Hd1 : disk_inv (mk_disk log1 (storage_enabled d) (file_offset d) (file d)) n).
  { constructor; cbn [dlog storage_enabled file_offset file]; rewrite ?Hall1; try done.
    - by apply (marks_append (dlog d) n (ae_alloc_seg env)).
    - cbn. lia.
    - apply Forall_app. split; [done|]. constructor; [|constructor].
      apply new_entry_wf; [done|unfold is_u64; lia|]. rewrite (li_hash _ Hlog).
      apply chain_head_ok, Hlog.
    - destruct Hfile as [?|(Ho & Hle & Htk)]; [by left|right]. split; [done|]. split; [done|].
      rewrite take_app_le by (pose proof (li_head _ Hlog); lia). done. }
  destruct (sync_inv _ n (ae_io env) Hd1) as (n' & Hd2 & Hnn & Hok & Hall2 & Hhd2 & _).
  set (d2 := ak_audit_sync _ _) in *. cbn [dlog head_seq] in *.
  destruct (e_seq e mod AK_ANCHOR_INTERVAL =? 0).
  - exists n'. split; [by apply emit_anchor_disk|]. split; [done|]. right.
    split; [done|]. cbn [dlog]. split; [|split].
    + transitivity (head_seq (dlog d2)); [|done]. unfold ak_audit_emit_anchor. cbv zeta. by repeat case_match.
    + exists e. split; [by destruct ev|].
      destruct (emit_anchor_inv (dlog d2) (ae_now_anchor env) (ae_alloc_anchor env) (di_log _ _ Hd2)) as [_ ->].
      by rewrite Hall2.
    + by intros Hio; rewrite Hok.
  - exists n'. split; [done|]. split; [done|]. right. split; [done|]. split; [done|]. split.
    + exists e. split; [by destruct ev|]. by rewrite Hall2.
    + by intros Hio; rewrite Hok.
Qed.

(** An append is refused only on a full log or without memory for a segment. *)
Lemma append_accepted d n ev env :
  disk_inv d n -> ae_alloc_hash env = true -> ae_alloc_seg env = true ->
  head_seq (dlog d) < LOG_CAPACITY -> fst (ak_audit_append d ev env) <> AK_E_LOG_FULL.
Proof.
  intros Hinv Hal Hsg Hcap. pose proof (append_spec (dlog d) ev true (di_log _ _ Hinv)) as Hs.
  pose proof (li_head _ (di_log _ _ Hinv)) as Hh.
  unfold ak_audit_append. rewrite Hal, Hsg.
  destruct (ak_audit_append_locked (dlog d) ev true true) as [s log1].
  destruct Hs as [(_ & _ & Hf)|(-> & _)]; [specialize (Hf eq_refl); lia|].
  destruct (Z.eqb_spec (head_seq (dlog d) + 1) AK_E_LOG_FULL); [unfold AK_E_LOG_FULL in *; lia|].
  destruct (_ =? 0); cbn; unfold AK_E_LOG_FULL; lia.
Qed.
End DiskInv.

(** ** Reading back *)

Definition load_ok (io : load_io) : Prop :=
  forall off, l_read io off = true /\ l_alloc_entry io off = true /\ l_alloc_seg io off = true /\
    l_alloc_hash io off = true.

Lemma read_back io pre b post off n :
  load_ok io -> off = Z.of_nat (length pre) -> n = Z.of_nat (length b) ->
  read_from_disk io (pre ++ b ++ post) off n = Some b.
Proof.
  intros Hio -> ->. unfold read_from_disk. destruct (Hio (Z.of_nat (length pre))) as (-> & _).
  rewrite !Nat2Z.id, drop_app_length, take_app_length, Nat.sub_diag. cbn. by rewrite app_nil_r.
Qed.

Lemma slice_app (pre b post : bytes) i n :
  i = length pre -> n = length b -> slice i n (pre ++ b ++ post) = b.
Proof. intros -> ->. unfold slice. by rewrite drop_app_length, take_app_length. Qed.

(** Slices of a concatenation of parts of known length. *)
Lemma slice_skip k (a r : bytes) i n : length a = k -> (k <= i)%nat -> slice i n (a ++ r) = slice (i - k) n r.
Proof. intros <- Hi. unfold slice. rewrite drop_app_ge; [done|lia]. Qed.
Lemma slice_here (b r : bytes) n : n = length b -> slice 0 n (b ++ r) = b.
Proof. intros ->. unfold slice. by rewrite drop_0, take_app_length. Qed.

Ltac slice_field :=
  repeat (erewrite slice_skip; [|skip_len|lia]);
  apply slice_here; first [by rewrite length_le_enc | by (symmetry; assumption) | done].

Section Recovery.
Context `{Hash}.

Lemma image_round_trip e : wf_disk_entry e -> entry_of_image (entry_image e) = e.
Proof.
  intros ([S T O [P _] [R _] [Q _] [X _] [Y _]] & [V _] & [W _]). unfold entry_of_image.
  unfold is_u64, is_u16 in *.
  assert (slice 0 8 (entry_image e) = le_enc 8 (e_seq e)) as -> by (unfold entry_image; slice_field).
  assert (slice 8 8 (entry_image e) = le_enc 8 (ts_ms e)) as -> by (unfold entry_image; slice_field).
  assert (slice 48 2 (entry_image e) = le_enc 2 (op e)) as -> by (unfold entry_image; slice_field).
  assert (slice 16 16 (entry_image e) = pid e) as -> by (unfold entry_image; slice_field).
  assert (slice 32 16 (entry_image e) = e_run_id e) as -> by (unfold entry_image; slice_field).
  assert (slice 50 32 (entry_image e) = req_hash e) as -> by (unfold entry_image; slice_field).
  assert (slice 82 32 (entry_image e) = res_hash e) as -> by (unfold entry_image; slice_field).
  assert (slice 114 32 (entry_image e) = prev_hash e) as -> by (unfold entry_image; slice_field).
  assert (slice 146 32 (entry_image e) = this_hash e) as -> by (unfold entry_image; slice_field).
  assert (slice 178 32 (entry_image e) = policy_hash e) as -> by (unfold entry_image; slice_field).
  rewrite !le_dec_enc by lia. by destruct e.
Qed.

Lemma crc_u32 b : 0 <= ak_audit_crc32 b < M32.
Proof. unfold ak_audit_crc32, u32. apply Z.mod_pos_bound. lia. Qed.

Definition entry_header (e : ak_log_entry) : bytes :=
  le_enc 4 AK_AUDIT_ENTRY_MAGIC ++ le_enc 4 AK_AUDIT_ENTRY_DISK_SIZE ++ le_enc 8 (e_seq e) ++
  le_enc 4 (ak_audit_crc32 (entry_image e)) ++ le_enc 4 0.

Lemma entry_header_fields e :
  le_dec (slice 0 4 (entry_header e)) = AK_AUDIT_ENTRY_MAGIC /\
  le_dec (slice 4 4 (entry_header e)) = AK_AUDIT_ENTRY_DISK_SIZE /\
  le_dec (slice 16 4 (entry_header e)) = ak_audit_crc32 (entry_image e).
Proof.
  pose proof (crc_u32 (entry_image e)) as Hcrc.
  assert (slice 0 4 (entry_header e) = le_enc 4 AK_AUDIT_ENTRY_MAGIC) as -> by (unfold entry_header; slice_field).
  assert (slice 4 4 (entry_header e) = le_enc 4 AK_AUDIT_ENTRY_DISK_SIZE) as -> by (unfold entry_header; slice_field).
  assert (slice 16 4 (entry_header e) = le_enc 4 (ak_audit_crc32 (entry_image e))) as ->
    by (unfold entry_header; slice_field).
  rewrite !le_dec_enc; [done|lia| |]; vm_compute; split; congruence.
Qed.

(** A turn of the loop at an honest entry that continues the chain. *)
Lemma load_step_entry io pre e post file_size prev segs segs' :
  load_ok io -> wf_disk_entry e -> prev_hash e = prev ->
  this_hash e = hash (prev ++ ak_log_entry_canonicalize e) ->
  load_push segs e true = Some segs' -> Z.of_nat (length pre) + AK_AUDIT_ENTRY_DISK_SIZE <= file_size ->
  load_step io (pre ++ ak_audit_serialize_entry e ++ post) file_size (Z.of_nat (length pre)) prev segs =
  TNext e (mark_last segs') (Z.of_nat (length pre) + AK_AUDIT_ENTRY_DISK_SIZE).
Proof.
  intros Hio He Hp Ht Hpush Hsz. unfold load_step.
  assert (Hser : ak_audit_serialize_entry e ++ post = entry_header e ++ entry_image e ++ post)
    by (unfold ak_audit_serialize_entry, entry_header; by rewrite <-!app_assoc).
  assert (Hhl : length (entry_header e) = 24%nat)
    by (unfold entry_header; by rewrite !length_app, !length_le_enc).
  rewrite Hser. unfold ENTRY_HEADER_SIZE, ENTRY_SIZE.
  rewrite read_back by (done || rewrite ?Hhl; lia).
  destruct (entry_header_fields e) as (-> & -> & ->). rewrite Z.eqb_refl. cbn [negb].
  unfold AK_AUDIT_ENTRY_DISK_SIZE, ENTRY_HEADER_SIZE, ENTRY_SIZE in *.
  change (24 + 216 <? 24 + 216) with false. cbn iota.
  destruct (Z.ltb_spec file_size (Z.of_nat (length pre) + (24 + 216))); [lia|].
  change (24 + 216 - 24 =? 216) with true. cbn [negb].
  destruct (Hio (Z.of_nat (length pre))) as (_ & -> & -> & ->). cbn [negb].
  rewrite (app_assoc pre). rewrite read_back by (done || rewrite ?length_app, ?Hhl, ?length_image by done; lia).
  rewrite image_round_trip, Z.eqb_refl by done. cbn [negb].
  rewrite Hp, bytes_eqb_refl. cbn [negb]. unfold ak_audit_compute_entry_hash. rewrite <-Ht, bytes_eqb_refl.
  cbn [negb]. by rewrite Hpush.
Qed.

(** [load_push] is the append of the same entry. *)
Lemma load_push_spec st e :
  is_u64 (e_seq e) -> e_seq e = head_seq st + 1 ->
  load_push (segments st) e true =
    match get_current_segment st true with Some segs => Some (add_to_last segs e) | None => None end.
Proof.
  intros He Es. unfold load_push, get_current_segment. destruct (last (segments st)) as [s|]; [|done].
  destruct (_ <=? _); [|done]. destruct (_ <=? _); [done|]. rewrite <-Es. unfold u64, is_u64 in *.
  by rewrite Z.mod_small by lia.
Qed.

Lemma mark_last_snoc pre s : mark_last (pre ++ [s]) = pre ++ [mark_flushed s].
Proof.
  unfold mark_last. rewrite length_app. cbn [length].
  replace (length pre + 1 - 1)%nat with (length pre + 0)%nat by lia. by rewrite alter_app_r.
Qed.

Definition all_flushed (segs : list ak_log_segment) : Prop :=
  Forall (fun s => flushed s = seg_count s) segs.

Lemma all_flushed_marks segs :
  all_flushed segs -> marks (Z.of_nat (length (segs_entries segs))) segs.
Proof.
  intros Hf. pose proof (marks_all segs) as Hm.
  replace (mark_flushed <$> segs) with segs in Hm; [done|]. clear Hm.
  induction Hf as [|[es fl start] segs Hs Hf IH]; [done|]. cbn [fmap list_fmap].
  f_equal; [|exact IH]. unfold mark_flushed. by rewrite <-Hs.
Qed.

Lemma load_push_flushed segs e alloc segs' :
  all_flushed segs -> load_push segs e alloc = Some segs' -> all_flushed (mark_last segs').
Proof.
  intros Hf. unfold load_push. destruct (last segs) as [s|] eqn:El; [|done].
  apply last_Some_snoc in El as [pre ->]. apply Forall_app in Hf as [Hpre Hs].
  destruct (_ <=? _).
  - destruct (_ <=? _); [done|]. destruct alloc; [|done]. intros [= <-].
    rewrite add_to_last_snoc, mark_last_snoc. apply Forall_app. split; [by apply Forall_app|]. by repeat constructor.
  - intros [= <-]. rewrite add_to_last_snoc, mark_last_snoc. apply Forall_app. split; [done|]. by repeat constructor.
Qed.

Lemma mark_last_shape segs : segs <> [] -> shape <$> mark_last segs = shape <$> segs.
Proof.
  intros Hne. destruct segs as [|s pre _] using rev_ind; [done|].
  by rewrite mark_last_snoc, !fmap_app.
Qed.

Lemma add_to_last_ne segs e : segs <> [] -> add_to_last segs e <> [].
Proof.
  intros Hne. destruct segs as [|s pre _] using rev_ind; [done|]. rewrite add_to_last_snoc. by destruct pre.
Qed.

(** One honest entry, seen by the in-memory log. *)
Lemma load_one st e :
  log_inv st -> all_flushed (segments st) -> wf_disk_entry e -> e_seq e = head_seq st + 1 ->
  prev_hash e = head_hash st -> this_hash e = hash (head_hash st ++ ak_log_entry_canonicalize e) ->
  head_seq st < LOG_CAPACITY ->
  exists segs st', load_push (segments st) e true = Some segs /\ segments st' = mark_last segs /\
    head_seq st' = e_seq e /\ head_hash st' = this_hash e /\ log_inv st' /\ all_flushed (segments st') /\
    all_entries st' = all_entries st ++ [e] /\ anchors st' = anchors st.
Proof.
  intros Hinv Hf [He _] Es Ep Et Hcap. pose proof (load_push_spec st e (we_seq _ He) Es) as Hp.
  destruct (get_current_segment st true) as [segs|] eqn:Eg; [|apply get_current_segment_None in Eg; [lia|done]].
  destruct (push_inv st true segs e Hinv Eg Es Ep Et) as [Hinv1 Hall1]. cbv zeta in *.
  set (st1 := mk_log _ _ _ _ _) in *.
  assert (Hne : add_to_last segs e <> []).
  { apply add_to_last_ne. unfold get_current_segment in Eg. destruct (last (segments st)) as [x|] eqn:El; [|done].
    apply last_Some_snoc in El as [pre Hs]. rewrite Hs in Eg. repeat case_match; simplify_eq; by destruct pre. }
  destruct (shape_inv st1 (mark_last (add_to_last segs e)) Hinv1 (mark_last_shape _ Hne)) as [Hinv2 Hall2].
  exists (add_to_last segs e), (with_segments st1 (mark_last (add_to_last segs e))).
  split; [done|]. split; [done|]. split; [done|]. split; [done|]. split; [done|].
  split; [by eapply load_push_flushed|]. split; [by rewrite Hall2|done].
Qed.

Lemma load_entries io es st pre post fuel file_size :
  load_ok io -> log_inv st -> all_flushed (segments st) -> Forall wf_disk_entry es ->
  chained (head_hash st) es ->
  (forall i e, es !! i = Some e -> e_seq e = head_seq st + 1 + Z.of_nat i) ->
  head_seq st + Z.of_nat (length es) <= LOG_CAPACITY ->
  Z.of_nat (length pre) + AK_AUDIT_ENTRY_DISK_SIZE * Z.of_nat (length es) <= file_size ->
  let f := pre ++ concat (ak_audit_serialize_entry <$> es) ++ post in
  exists st', log_inv st' /\ all_flushed (segments st') /\ all_entries st' = all_entries st ++ es /\
    anchors st' = anchors st /\
    load_loop (length es + fuel) io f file_size (Z.of_nat (length pre)) (segments st) (head_seq st) (head_hash st) =
    load_loop fuel io f file_size (Z.of_nat (length pre) + AK_AUDIT_ENTRY_DISK_SIZE * Z.of_nat (length es))
      (segments st') (head_seq st') (head_hash st').
Proof.
  intros Hio. revert st pre. induction es as [|e es IH]; intros st pre Hinv Hf Hwf Hc Hq Hcap Hsz f; subst f.
  { exists st. rewrite app_nil_r. cbn [length Nat.add]. rewrite Z.mul_0_r, Z.add_0_r. done. }
  inversion Hwf as [|? ? He Hwf']; subst. destruct Hc as (Hp & Ht & Hc).
  pose proof (Hq 0%nat e eq_refl) as Es. rewrite Z.add_0_r in Es. cbn [length] in *.
  destruct (load_one st e Hinv Hf He Es Hp Ht ltac:(lia))
    as (segs & st1 & Hpush & Hsegs & Hhd & Hhh & Hinv1 & Hf1 & Hall1 & Hanc).
  assert (Hlen : Z.of_nat (length (pre ++ ak_audit_serialize_entry e)) = Z.of_nat (length pre) + AK_AUDIT_ENTRY_DISK_SIZE)
    by (rewrite length_app, length_serialize by done; unfold AK_AUDIT_ENTRY_DISK_SIZE, ENTRY_HEADER_SIZE, ENTRY_SIZE; lia).
  destruct (IH st1 (pre ++ ak_audit_serialize_entry e)) as (st' & H1 & H2 & H3 & H4 & H5); try done.
  { by rewrite Hhh. }
  { intros i x Hx. rewrite Hhd, Es, (Hq (S i) x Hx). lia. }
  { lia. }
  { rewrite Hlen. unfold AK_AUDIT_ENTRY_DISK_SIZE, ENTRY_HEADER_SIZE, ENTRY_SIZE in *. lia. }
  exists st'. split; [done|]. split; [done|]. split; [by rewrite H3, Hall1, <-app_assoc|].
  split; [congruence|]. cbn [fmap list_fmap concat Nat.add]. rewrite <-!app_assoc in *. cbn [load_loop].
  unfold AK_AUDIT_ENTRY_DISK_SIZE, ENTRY_HEADER_SIZE, ENTRY_SIZE in *.
  destruct (Z.leb_spec (Z.of_nat (length pre) + 24) file_size); [|lia]. cbn [negb].
  rewrite (load_step_entry io pre e _ file_size (head_hash st) (segments st) segs) by (done || unfold AK_AUDIT_ENTRY_DISK_SIZE, ENTRY_HEADER_SIZE, ENTRY_SIZE; lia).
  unfold AK_AUDIT_ENTRY_DISK_SIZE, ENTRY_HEADER_SIZE, ENTRY_SIZE in *.
  rewrite <-Hlen, <-Hsegs, <-Hhd, <-Hhh, H5. f_equal. lia.
Qed.

(** ** Arbitrary bytes *)

Lemma load_push_entries segs e alloc segs' :
  load_push segs e alloc = Some segs' ->
  segs_entries (mark_last segs') = segs_entries segs ++ [e] /\ segs' <> [].
Proof.
  unfold load_push, segs_entries. destruct (last segs) as [s|] eqn:El; [|done].
  apply last_Some_snoc in El as [pre ->].
  destruct (_ <=? _); [destruct (_ <=? _); [done|]; destruct alloc; [|done]|]; intros [= <-];
    rewrite add_to_last_snoc, mark_last_snoc, !fmap_app, !concat_app; cbn;
    rewrite ?app_nil_r, <-?app_assoc; split; try done; by destruct pre.
Qed.

Lemma load_step_next io f file_size off prev segs e segs' off' :
  load_ok io -> load_step io f file_size off prev segs = TNext e segs' off' ->
  off' = off + AK_AUDIT_ENTRY_DISK_SIZE /\ off' <= file_size /\ prev_hash e = prev /\
  this_hash e = hash (prev ++ ak_log_entry_canonicalize e) /\
  segs_entries segs' = segs_entries segs ++ [e].
Proof.
  intros Hio. unfold load_step. destruct (Hio off) as (_ & -> & -> & ->). cbn [negb].
  destruct (read_from_disk io f off _) as [h|]; [|done].
  set (len := le_dec (slice 4 4 h)). set (crc := le_dec (slice 16 4 h)). clearbody len crc.
  destruct (negb (_ =? _)); [done|]. destruct (len <? _); [done|].
  destruct (Z.ltb_spec file_size (off + len)); [done|].
  destruct (Z.eqb_spec (len - ENTRY_HEADER_SIZE) ENTRY_SIZE) as [El|]; cbn [negb]; [|done].
  destruct (read_from_disk io f (off + _) _) as [b|]; [|done].
  destruct (negb (_ =? crc)); [done|].
  destruct (bytes_eqb (prev_hash _) prev) eqn:Ep; cbn [negb]; [|done]. apply bytes_eqb_eq in Ep.
  unfold ak_audit_compute_entry_hash.
  destruct (bytes_eqb (this_hash _) _) eqn:Et; cbn [negb]; [|done]. apply bytes_eqb_eq in Et.
  destruct (load_push segs _ true) as [segs1|] eqn:Epush; [|done]. intros [= <- <- <-].
  apply load_push_entries in Epush as [Epush _]. unfold AK_AUDIT_ENTRY_DISK_SIZE. rewrite Ep in Et.
  repeat split; try done; lia.
Qed.

(** Whatever the file holds, recovery terminates, and what it loads is a valid
    chain that extends what was loaded before. *)
Lemma load_loop_total io f file_size fuel off segs s prev :
  load_ok io -> file_size - off < AK_AUDIT_ENTRY_DISK_SIZE * Z.of_nat fuel ->
  exists r extra, load_loop fuel io f file_size off segs s prev = Some r /\ ld_ok r = true /\
    segs_entries (ld_segs r) = segs_entries segs ++ extra /\ chained prev extra /\
    ld_hash r = chain_head prev extra.
Proof.
  intros Hio. revert off segs s prev. induction fuel as [|fuel IH]; intros off segs s prev Hfuel; cbn [load_loop].
  - destruct (Z.leb_spec (off + ENTRY_HEADER_SIZE) file_size); cbn [negb].
    { unfold ENTRY_HEADER_SIZE in *. lia. }
    eexists _, []. split; [done|]. rewrite app_nil_r. done.
  - destruct (negb _); [eexists _, []; split; [done|]; rewrite app_nil_r; done|].
    destruct (load_step io f file_size off prev segs) as [| |e segs' off'] eqn:Es.
    + eexists _, []. split; [done|]. rewrite app_nil_r. done.
    + exfalso. revert Es. unfold load_step. destruct (Hio off) as (_ & -> & _). cbn [negb].
      repeat case_match; done.
    + apply load_step_next in Es as (-> & Hsz & Hp & Ht & Hent); [|done].
      destruct (IH (off + AK_AUDIT_ENTRY_DISK_SIZE) segs' (e_seq e) (this_hash e)) as (r & extra & E & Hok & H1 & H2 & H3).
      { unfold AK_AUDIT_ENTRY_DISK_SIZE, ENTRY_HEADER_SIZE, ENTRY_SIZE in *. lia. }
      exists r, (e :: extra). split; [done|]. split; [done|]. rewrite H1, Hent, <-app_assoc. done.
Qed.

(** What is left is shorter than an entry. *)
Lemma load_loop_end fuel io f file_size off segs s prev :
  file_size < off + AK_AUDIT_ENTRY_DISK_SIZE -> (0 < fuel)%nat ->
  load_loop fuel io f file_size off segs s prev = Some (mk_loaded true segs s prev off).
Proof.
  intros Hlt Hfuel. destruct fuel as [|fuel]; [lia|]. cbn [load_loop]. destruct (negb _); [done|].
  replace (load_step io f file_size off prev segs) with TStop; [done|]. symmetry. unfold load_step.
  destruct (read_from_disk io f off _) as [h|]; [|done]. destruct (negb (_ =? _)); [done|].
  destruct (Z.ltb_spec (le_dec (slice 4 4 h)) (ENTRY_HEADER_SIZE + ENTRY_SIZE)); [done|].
  unfold AK_AUDIT_ENTRY_DISK_SIZE in Hlt. destruct (Z.ltb_spec file_size (off + le_dec (slice 4 4 h))); [done|lia].
Qed.

(** ** Recovery of a durable prefix *)

Definition boot (f : bytes) : disk_state :=
  snd (ak_audit_open_storage (mk_disk ak_audit_init false 0 []) (Some f)).

Lemma file_header_valid :
  le_dec (slice 0 4 file_header) = AK_AUDIT_MAGIC /\ le_dec (slice 4 4 file_header) = AK_AUDIT_VERSION /\
  ak_audit_crc32 (slice 0 64 file_header) = le_dec (slice 64 4 file_header).
Proof. vm_compute. done. Qed.

Lemma load_durable io es tail :
  load_ok io -> Forall wf_disk_entry es -> chained AK_GENESIS_HASH es ->
  (forall i e, es !! i = Some e -> e_seq e = Z.of_nat i + 1) ->
  Z.of_nat (length es) <= LOG_CAPACITY ->
  exists d, ak_audit_load (boot (durable_file es ++ tail)) io = Some (0, d) /\
    (exists extra, all_entries (dlog d) = es ++ extra /\ chained AK_GENESIS_HASH (es ++ extra)) /\
    (Z.of_nat (length tail) < AK_AUDIT_ENTRY_DISK_SIZE ->
       log_inv (dlog d) /\ all_entries (dlog d) = es /\ file d = durable_file es ++ tail /\
       all_flushed (segments (dlog d)) /\
       file_offset d = file_size_of (Z.of_nat (length es)) /\ storage_enabled d = true).
Proof.
  intros Hio Hwf Hc Hq Hcap. unfold boot, ak_audit_open_storage. cbv zeta. cbn [snd dlog].
  pose proof (length_durable es Hwf) as Hlen.
  unfold file_size_of, FILE_HEADER_SIZE, AK_AUDIT_ENTRY_DISK_SIZE, ENTRY_HEADER_SIZE, ENTRY_SIZE in Hlen.
  set (f := durable_file es ++ tail).
  assert (Hfl : Z.of_nat (length f) = 72 + (24 + 216) * Z.of_nat (length es) + Z.of_nat (length tail))
    by (subst f; rewrite length_app; lia).
  unfold FILE_HEADER_SIZE. destruct (Z.ltb_spec (Z.of_nat (length f)) 72); [lia|].
  unfold ak_audit_load, FILE_HEADER_SIZE. cbn [file_offset file dlog storage_enabled].
  destruct (Z.eqb_spec (Z.of_nat (length f)) 0); [lia|].
  assert (Hf : f = [] ++ file_header ++ (concat (ak_audit_serialize_entry <$> es) ++ tail))
    by (subst f; unfold durable_file; by rewrite <-app_assoc).
  assert (Hread : read_from_disk io f 0 72 = Some file_header)
    by (rewrite Hf; apply read_back; [done|done|by rewrite length_file_header]).
  clearbody f. rewrite Hread. destruct file_header_valid as (-> & -> & ->). rewrite !Z.eqb_refl. cbn [negb].
  assert (Hfuel : exists fuel, load_fuel (Z.of_nat (length f)) = (length es + fuel)%nat /\
    Z.of_nat (length tail) < 240 * Z.of_nat fuel).
  { exists (load_fuel (Z.of_nat (length f)) - length es)%nat. unfold load_fuel, AK_AUDIT_ENTRY_DISK_SIZE.
    change (ENTRY_HEADER_SIZE + ENTRY_SIZE) with 240.
    pose proof (Z.div_mod (Z.of_nat (length f)) 240 ltac:(lia)).
    pose proof (Z.mod_pos_bound (Z.of_nat (length f)) 240 ltac:(lia)). lia. }
  destruct Hfuel as (fuel & -> & Hfuel).
  destruct (load_entries io es ak_audit_init file_header tail fuel (Z.of_nat (length f)))
    as (st & Hinv & Hfl' & Hall & _ & Heq); try done.
  { apply init_log_inv. }
  { by repeat constructor. }
  { intros i e He. cbn. rewrite (Hq i e He). lia. }
  { rewrite length_file_header. unfold AK_AUDIT_ENTRY_DISK_SIZE, ENTRY_HEADER_SIZE, ENTRY_SIZE. lia. }
  cbv zeta in Heq. cbn [app] in Hf. rewrite <-Hf, length_file_header in Heq.
  change (Z.of_nat 72) with 72 in Heq. change (segments ak_audit_init) with [mk_seg [] 0 1] in *.
  cbn [reset_first]. change (head_seq ak_audit_init) with 0 in Heq.
  change (head_hash ak_audit_init) with AK_GENESIS_HASH in Heq. rewrite Heq.
  change (all_entries ak_audit_init) with (@nil ak_log_entry) in Hall. cbn [app] in Hall.
  unfold AK_AUDIT_ENTRY_DISK_SIZE, ENTRY_HEADER_SIZE, ENTRY_SIZE in *.
  destruct (load_loop_total io f (Z.of_nat (length f)) fuel (72 + (24 + 216) * Z.of_nat (length es))
    (segments st) (head_seq st) (head_hash st) Hio) as (r & extra & Er & Hok & Hent & Hch & Hhd).
  { unfold AK_AUDIT_ENTRY_DISK_SIZE, ENTRY_HEADER_SIZE, ENTRY_SIZE. lia. }
  rewrite Er, Hok. eexists. split; [done|]. cbn [dlog file file_offset storage_enabled]. split.
  - exists extra. unfold all_entries at 1. cbn [segments]. unfold segs_entries in Hent. rewrite Hent.
    unfold all_entries in Hall. rewrite Hall. split; [done|]. apply chained_app. split; [done|].
    by rewrite (li_hash _ Hinv) in Hch; unfold all_entries in Hch; rewrite Hall in Hch.
  - intros Htail. rewrite Hfl in Er. rewrite load_loop_end in Er by (unfold AK_AUDIT_ENTRY_DISK_SIZE, ENTRY_HEADER_SIZE, ENTRY_SIZE in *; lia).
    injection Er as <-. cbn [ld_segs ld_seq ld_hash ld_off].
    pose proof (shape_inv st (segments st) Hinv eq_refl) as [Hinv' _]. split.
    + destruct Hinv'. by constructor.
    + split; [done|]. split; [rewrite Hf; unfold durable_file; by rewrite ?app_assoc|]. done.
Qed.
End Recovery.

Section Crash.
Context `{Hash}.

Fixpoint disk_run (d : disk_state) (ops : list (log_event * append_env)) : disk_state :=
  match ops with
  | [] => d
  | (ev, env) :: rest => disk_run (snd (ak_audit_append d ev env)) rest
  end.

(** Well-typed appends whose hash computations do not run out of memory; every
    other failure is allowed. *)
Definition ops_ok (ops : list (log_event * append_env)) : Prop :=
  Forall (fun p => wf_event (fst p) /\ ae_alloc_hash (snd p) = true) ops.

Lemma disk_run_inv d n ops :
  disk_inv d n -> ops_ok ops ->
  exists n', disk_inv (disk_run d ops) n' /\ n <= n' /\
    exists es, all_entries (dlog (disk_run d ops)) = all_entries (dlog d) ++ es.
Proof.
  intros Hd Hops. revert d n Hd. induction Hops as [|[ev env] ops [Hev Hal] Hops IH]; intros d n Hd; cbn [disk_run].
  - exists n. split; [done|]. split; [lia|]. exists []. by rewrite app_nil_r.
  - pose proof (append_disk d n ev env Hd Hev Hal) as Ha. destruct (ak_audit_append d ev env) as [rv d1].
    destruct Ha as (n1 & Hd1 & Hn1 & Hcase). cbn [snd].
    destruct (IH d1 n1 Hd1) as (n' & Hd' & Hn' & es & Hes).
    exists n'. split; [done|]. split; [lia|].
    destruct Hcase as [[_ ->]|(_ & _ & (e & _ & He) & _)]; [by exists es|].
    exists (e :: es). rewrite Hes, He, <-app_assoc. done.
Qed.

(** A freshly created log: the file is new or too short to hold a header. *)
Lemma boot_fresh f : (length f < 72)%nat -> disk_inv (boot f) 0.
Proof.
  intros Hf. unfold boot, ak_audit_open_storage, FILE_HEADER_SIZE. cbv zeta. cbn [snd].
  destruct (Z.ltb_spec (Z.of_nat (length f)) 72); [|lia].
  constructor; cbn [dlog storage_enabled file_offset file]; try done.
  - apply init_log_inv.
  - by left.
Qed.

(** The first [n] entries of a well-formed log, followed by less than an entry. *)
Lemma prefix_recovered st n tail io :
  log_inv st -> Forall wf_disk_entry (all_entries st) -> 0 <= n <= head_seq st -> load_ok io ->
  let es := take (Z.to_nat n) (all_entries st) in
  exists d', ak_audit_load (boot (durable_file es ++ tail)) io = Some (0, d') /\
    (exists extra, all_entries (dlog d') = es ++ extra /\ chained AK_GENESIS_HASH (all_entries (dlog d'))) /\
    (Z.of_nat (length tail) < AK_AUDIT_ENTRY_DISK_SIZE -> disk_inv d' n /\ all_entries (dlog d') = es).
Proof.
  intros Hlog Hwf Hn Hio es. pose proof (log_capacity _ Hlog) as Hcap. pose proof (li_head _ Hlog) as Hh.
  assert (Hlen : Z.of_nat (length es) = n) by (subst es; rewrite length_take; lia).
  assert (Hes : Forall wf_disk_entry es) by (by apply Forall_take).
  destruct (load_durable io es tail Hio Hes) as (d' & Hload & (extra & Hall & Hch) & Hexact).
  - pose proof (li_chain _ Hlog) as Hc. rewrite <-(take_drop (Z.to_nat n) (all_entries st)) in Hc.
    apply chained_app in Hc. apply Hc.
  - intros i e He. apply lookup_take_Some in He as [He _]. by apply (li_seq _ Hlog).
  - lia.
  - exists d'. split; [done|]. split; [exists extra; by rewrite Hall|].
    intros Et. destruct (Hexact Et) as (Hinv' & Hall' & Hf' & Hfl' & Ho' & Hon').
    split; [|done]. pose proof (li_head _ Hinv') as Hh'. rewrite Hall', Hlen in Hh'.
    constructor; rewrite ?Hall'; try done.
    + pose proof (all_flushed_marks _ Hfl') as Hm. unfold segs_entries in Hm. unfold all_entries in Hall'.
      by rewrite Hall', Hlen in Hm.
    + lia.
    + right. rewrite Ho', Hf', Hlen. pose proof (length_durable es Hes) as Hld. rewrite Hlen in Hld.
      split; [done|]. split; [rewrite length_app; lia|]. rewrite <-Hld, Nat2Z.id, take_app_length.
      f_equal. symmetry. apply take_ge. lia.
Qed.

Lemma durable_prefix_recovered d n tail io :
  disk_inv d n -> 0 < n -> load_ok io ->
  exists d', ak_audit_load (boot (take (Z.to_nat (file_offset d)) (file d) ++ tail)) io = Some (0, d') /\
    (exists extra, all_entries (dlog d') = take (Z.to_nat n) (all_entries (dlog d)) ++ extra /\
       chained AK_GENESIS_HASH (all_entries (dlog d'))) /\
    (Z.of_nat (length tail) < AK_AUDIT_ENTRY_DISK_SIZE -> disk_inv d' n /\ all_entries (dlog d') = take (Z.to_nat n) (all_entries (dlog d))).
Proof.
  intros Hd Hpos Hio. destruct Hd as [Hlog Hon Hmk Hn Hwf [[? _]|(Ho & Hle & Htk)]]; [lia|]. rewrite Htk.
  by apply prefix_recovered.
Qed.

(** What a crash may leave of a log of which [n] entries are durable: these and
    any part of the bytes of the entries behind them. *)
Definition crash_image (d : disk_state) (n : Z) (f : bytes) : Prop :=
  exists m, file_size_of n <= Z.of_nat m /\ f = take m (durable_file (all_entries (dlog d))).

Lemma durable_file_app es es' : durable_file (es ++ es') = durable_file es ++ concat (ak_audit_serialize_entry <$> es').
Proof. unfold durable_file. by rewrite fmap_app, concat_app, app_assoc. Qed.

(** Such a file holds some more entries and less than one behind them. *)
Lemma crash_image_split d n f :
  disk_inv d n -> crash_image d n f ->
  exists k tail, n <= k <= head_seq (dlog d) /\ Z.of_nat (length tail) < AK_AUDIT_ENTRY_DISK_SIZE /\
    f = durable_file (take (Z.to_nat k) (all_entries (dlog d))) ++ tail.
Proof.
  intros Hd (m & Hm & ->). pose proof (di_wf _ _ Hd) as Hwf. pose proof (di_n _ _ Hd) as Hn.
  pose proof (li_head _ (di_log _ _ Hd)) as Hh. set (es := all_entries (dlog d)) in *.
  pose proof (length_durable es Hwf) as Hlen. unfold file_size_of in *.
  assert (H240 : AK_AUDIT_ENTRY_DISK_SIZE = 240) by done. assert (H72 : FILE_HEADER_SIZE = 72) by done. rewrite H240, H72 in *.
  destruct (decide (Z.of_nat (length (durable_file es)) <= Z.of_nat m)) as [Hall|Hpart].
  { exists (head_seq (dlog d)), []. split; [lia|]. split; [cbn; lia|]. rewrite app_nil_r, (take_ge es) by lia. apply take_ge. lia. }
  set (k := (Z.of_nat m - 72) / 240). pose proof (Z.div_mod (Z.of_nat m - 72) 240 ltac:(lia)) as Hdm. fold k in Hdm.
  pose proof (Z.mod_pos_bound (Z.of_nat m - 72) 240 ltac:(lia)) as Hb.
  assert (Hk : n <= k <= head_seq (dlog d)) by lia. exists k.
  pose proof (length_durable (take (Z.to_nat k) es) ltac:(by apply Forall_take)) as Hlk. rewrite length_take in Hlk. unfold file_size_of in Hlk. rewrite H240, H72 in Hlk.
  pose proof (durable_file_app (take (Z.to_nat k) es) (drop (Z.to_nat k) es)) as Es. rewrite take_drop in Es.
  rewrite Es, take_app_ge by lia.
  eexists. split; [done|]. split; [|reflexivity]. rewrite length_take. lia.
Qed.

(** C18: an acknowledged entry survives any crash.  Take any history of appends
    on a fresh log, with any input/output failures; then an append that was
    accepted and whose sync succeeded; then any further history, again with
    any failures; then a crash that leaves arbitrary bytes after the durable
    part of the file.  Recovery terminates and returns 0, and the recovered
    log starts with every entry up to and including the acknowledged one, in
    order, as part of a valid hash chain. *)
Theorem synced_entries_survive_crash f0 ops1 ev env ops2 tail io :
  (length f0 < 72)%nat -> ops_ok ops1 -> wf_event ev -> ae_alloc_hash env = true -> ops_ok ops2 ->
  sync_ok (ae_io env) -> load_ok io ->
  let '(rv, d2) := ak_audit_append (disk_run (boot f0) ops1) ev env in
  let d3 := disk_run d2 ops2 in
  rv = AK_E_LOG_FULL \/
  exists d', ak_audit_load (boot (take (Z.to_nat (file_offset d3)) (file d3) ++ tail)) io = Some (0, d') /\
    exists rest, all_entries (dlog d') = all_entries (dlog d2) ++ rest /\
      chained AK_GENESIS_HASH (all_entries (dlog d')).
Proof.
  intros Hf0 Ho1 Hev Hal Ho2 Hsync Hio.
  destruct (disk_run_inv (boot f0) 0 ops1 (boot_fresh f0 Hf0) Ho1) as (n1 & Hd1 & Hn1 & _).
  pose proof (append_disk _ n1 ev env Hd1 Hev Hal) as Ha.
  destruct (ak_audit_append (disk_run (boot f0) ops1) ev env) as [rv d2]. cbv zeta.
  destruct Ha as (n2 & Hd2 & Hn2 & [[-> _]|(-> & Hhd & _ & Hs)]); [by left|right].
  specialize (Hs Hsync). destruct (disk_run_inv d2 n2 ops2 Hd2 Ho2) as (n3 & Hd3 & Hn3 & es & Hes).
  pose proof (di_n _ _ Hd1). pose proof (li_head _ (di_log _ _ Hd2)) as Hl2.
  destruct (durable_prefix_recovered (disk_run d2 ops2) n3 tail io Hd3 ltac:(lia) Hio)
    as (d' & Hload & (extra & Hall & Hch) & _).
  exists d'. split; [done|]. rewrite Hes, take_app_ge, <-app_assoc in Hall by lia.
  eexists. split; [exact Hall|done].
Qed.

(** a clean reboot is exact.  When nothing follows the durable part of the
    file (the last sync succeeded), recovery rebuilds the log as it was: same
    entries, same head, a chain that verifies, and a state from which appends
    and syncs continue correctly. *)
Theorem clean_reboot_exact f0 ops ev env io :
  (length f0 < 72)%nat -> ops_ok ops -> wf_event ev -> ae_alloc_hash env = true ->
  sync_ok (ae_io env) -> load_ok io ->
  let '(rv, d) := ak_audit_append (disk_run (boot f0) ops) ev env in
  rv = AK_E_LOG_FULL \/
  exists d', ak_audit_load (boot (take (Z.to_nat (file_offset d)) (file d))) io = Some (0, d') /\
    all_entries (dlog d') = all_entries (dlog d) /\ head_seq (dlog d') = head_seq (dlog d) /\
    head_hash (dlog d') = head_hash (dlog d) /\ ak_audit_verify (dlog d') (fun _ => true) = 0 /\
    disk_inv d' (head_seq (dlog d)).
Proof.
  intros Hf0 Ho1 Hev Hal Hsync Hio.
  destruct (disk_run_inv (boot f0) 0 ops (boot_fresh f0 Hf0) Ho1) as (n1 & Hd1 & Hn1 & _).
  pose proof (append_disk _ n1 ev env Hd1 Hev Hal) as Ha.
  destruct (ak_audit_append (disk_run (boot f0) ops) ev env) as [rv d].
  destruct Ha as (n2 & Hd2 & Hn2 & [[-> _]|(-> & Hhd & _ & Hs)]); [by left|right].
  specialize (Hs Hsync). pose proof (di_n _ _ Hd1). pose proof (li_head _ (di_log _ _ Hd2)) as Hl2.
  destruct (durable_prefix_recovered d n2 [] io Hd2 ltac:(lia) Hio) as (d' & Hload & _ & Hexact).
  rewrite app_nil_r in Hload. destruct (Hexact ltac:(done)) as [Hd' Hall']. rewrite take_ge in Hall' by lia.
  exists d'. split; [done|]. split; [done|].
  pose proof (di_log _ _ Hd') as Hinv'. pose proof (di_log _ _ Hd2) as Hinv.
  split; [by rewrite (li_head _ Hinv'), (li_head _ Hinv), Hall'|].
  split; [by rewrite (li_hash _ Hinv'), (li_hash _ Hinv), Hall'|].
  split; [by apply inv_verifies|]. by rewrite Hhd, <-Hs.
Qed.
End Crash.

Definition good_io : sync_io := mk_sio true (fun _ => true) true true true [].
Definition bad_io : sync_io := mk_sio true (fun _ => true) false true true [1; 2; 3].
Definition env_of (io : sync_io) : append_env := mk_env true true io 0 true.
Definition good_load : load_io := mk_lio (fun _ => true) (fun _ => true) (fun _ => true) (fun _ => true).

Lemma demo_ops_ok io : ops_ok [(demo_event 7, env_of io)].
Proof. constructor; [|constructor]. split; [apply demo_event_wf; unfold is_u16; lia|done]. Qed.

(** A failed sync first, then a good one, then another failure and torn bytes. *)
Lemma synced_entries_survive_crash_witness :
  let '(rv, d2) := ak_audit_append (disk_run (boot []) [(demo_event 7, env_of bad_io)]) (demo_event 8) (env_of good_io) in
  let d3 := disk_run d2 [(demo_event 7, env_of bad_io)] in
  rv = AK_E_LOG_FULL \/
  exists d', ak_audit_load (boot (take (Z.to_nat (file_offset d3)) (file d3) ++ [9; 9])) good_load = Some (0, d') /\
    exists rest, all_entries (dlog d') = all_entries (dlog d2) ++ rest /\
      chained AK_GENESIS_HASH (all_entries (dlog d')).
Proof.
  apply (synced_entries_survive_crash [] [(demo_event 7, env_of bad_io)] (demo_event 8) (env_of good_io)
    [(demo_event 7, env_of bad_io)] [9; 9] good_load).
  - cbn. lia.
  - apply demo_ops_ok.
  - apply demo_event_wf. unfold is_u16. lia.
  - reflexivity.
  - apply demo_ops_ok.
  - repeat split.
  - repeat split.
Defined.

Lemma clean_reboot_exact_witness :
  let '(rv, d) := ak_audit_append (disk_run (boot []) [(demo_event 7, env_of bad_io)]) (demo_event 8) (env_of good_io) in
  rv = AK_E_LOG_FULL \/
  exists d', ak_audit_load (boot (take (Z.to_nat (file_offset d)) (file d))) good_load = Some (0, d') /\
    all_entries (dlog d') = all_entries (dlog d) /\ head_seq (dlog d') = head_seq (dlog d) /\
    head_hash (dlog d') = head_hash (dlog d) /\ ak_audit_verify (dlog d') (fun _ => true) = 0 /\
    disk_inv d' (head_seq (dlog d)).
Proof.
  apply (clean_reboot_exact [] [(demo_event 7, env_of bad_io)] (demo_event 8) (env_of good_io) good_load).
  - cbn. lia.
  - apply demo_ops_ok.
  - apply demo_event_wf. unfold is_u16. lia.
  - reflexivity.
  - repeat split.
  - repeat split.
Defined.

(** The same on concrete bytes: after the good sync both entries are recovered,
    although the first one's own sync had failed. *)
Example recovery_computed :
  let d := snd (ak_audit_append (disk_run (boot []) [(demo_event 7, env_of bad_io)]) (demo_event 8) (env_of good_io)) in
  match ak_audit_load (boot (file d)) good_load with
  | Some (rv, d') => rv = 0 /\ head_seq (dlog d') = 2 /\ head_hash (dlog d') = head_hash (dlog d)
  | None => False
  end.
Proof. vm_compute. done. Qed.
