(* ===== verification/Ring.v ===== *)
(** * The data-plane audit ring ([src/src/agentic/ak_audit.c])

    [ak_ring_push], [ak_ring_pop], [ak_ring_peek], [ak_ring_drain] and the
    statistics.  Each operation is one atomic step: the compare-and-swap of an
    operation succeeds when no other operation runs inside it.  The 4096-slot
    array is a finite map from slot numbers; a slot never written is the zeroed
    entry of [ak_ring_init]. *)

From S2P Require Import Prelude.

Definition AK_RING_BUFFER_SIZE : Z := 4096.
Definition AK_RING_BUFFER_MASK : Z := 4095.
Definition AK_RING_FLAG_OVERFLOW : Z := 0x80.

Record ak_ring_entry := mk_ring_entry {
  r_seq : Z; r_ts_ns : Z; r_pid : bytes; r_run_id : bytes; r_op : Z; r_req_hash : bytes;
  r_res_hash : bytes; r_result_code : Z; r_latency_us : Z; r_flags : Z
}.

Definition zero_ring_entry : ak_ring_entry :=
  mk_ring_entry 0 0 (zeros 16) (zeros 16) 0 (zeros 32) (zeros 32) 0 0 0.

Record ring_state := mk_ring {
  ring_entries : gmap Z ak_ring_entry;
  ring_head : Z; ring_tail : Z;
  total_pushed : Z; total_popped : Z; overflow_count : Z;
  ring_initialized : bool
}.

Definition ak_ring_init : ring_state := mk_ring ∅ 0 0 0 0 0 true.

Definition slot_entry (r : ring_state) (idx : Z) : ak_ring_entry :=
  default zero_ring_entry (ring_entries r !! idx).

(** The arguments of a push; a NULL pointer stores zeros. *)
Record ring_event := mk_ring_event {
  v_pid : option bytes; v_run : option bytes; v_op : Z; v_req : option bytes; v_res : option bytes;
  v_code : Z; v_latency : Z; v_flags : Z; v_ts_ns : Z
}.

Definition fill_entry (seq : Z) (flags : Z) (v : ring_event) : ak_ring_entry :=
  mk_ring_entry seq (v_ts_ns v) (default (zeros 16) (v_pid v)) (default (zeros 16) (v_run v)) (v_op v)
    (default (zeros 32) (v_req v)) (default (zeros 32) (v_res v)) (v_code v) (v_latency v) flags.

Definition ak_ring_push (r : ring_state) (v : ring_event) : Z * ring_state :=
  if negb (ring_initialized r) then (0, r) else
  let slot := ring_head r in
  let head := u64 (slot + 1) in
  let seq := u64 (slot + 1) in
  let idx := Z.land slot AK_RING_BUFFER_MASK in
  let over := AK_RING_BUFFER_SIZE <=? u64 (slot - ring_tail r) in
  let tail := if over then u64 (slot - AK_RING_BUFFER_SIZE + 1) else ring_tail r in
  let flags := if over then Z.lor (v_flags v) AK_RING_FLAG_OVERFLOW else v_flags v in
  (seq, mk_ring (<[idx := fill_entry seq flags v]> (ring_entries r)) head tail
          (u64 (total_pushed r + 1)) (total_popped r)
          (if over then u64 (overflow_count r + 1) else overflow_count r) true).

Definition ak_ring_pop (r : ring_state) : option (ak_ring_entry * ring_state) :=
  if negb (ring_initialized r) then None
  else if ring_head r <=? ring_tail r then None
  else Some (slot_entry r (Z.land (ring_tail r) AK_RING_BUFFER_MASK),
             mk_ring (ring_entries r) (ring_head r) (u64 (ring_tail r + 1)) (total_pushed r)
               (u64 (total_popped r + 1)) (overflow_count r) true).

Definition ak_ring_peek (r : ring_state) (offset : Z) : option ak_ring_entry :=
  let pos := u64 (ring_tail r + offset) in
  if negb (ring_initialized r) then None
  else if ring_head r <=? pos then None
  else Some (slot_entry r (Z.land pos AK_RING_BUFFER_MASK)).

Definition ring_current_count (r : ring_state) : Z :=
  if ring_tail r <? ring_head r then ring_head r - ring_tail r else 0.

(** [ak_ring_drain]; [cb] is the callback.  Each turn pops one entry, so
    [max_entries] turns are enough; an entry whose callback answers false is
    consumed but not counted.  Nothing is popped from an uninitialised ring.  The result is the count, the entries handed to
    the callback and the final state. *)
Fixpoint ak_ring_drain (r : ring_state) (cb : ak_ring_entry -> bool) (max_entries : nat)
    : Z * list ak_ring_entry * ring_state :=
  match max_entries with
  | O => (0, [], r)
  | S n =>
      match ak_ring_pop r with
      | None => (0, [], r)
      | Some (e, r') =>
          if cb e then
            let '(k, l, r'') := ak_ring_drain r' cb n in (1 + k, e :: l, r'')
          else (0, [e], r')
      end
  end.

(** ** The ring as a bounded queue *)

(** The entries at positions [tail .. head-1], oldest first. *)
Definition contents (r : ring_state) : list ak_ring_entry :=
  (fun i => slot_entry r (i mod AK_RING_BUFFER_SIZE)) <$> seqZ (ring_tail r) (ring_head r - ring_tail r).

Record ring_inv (r : ring_state) : Prop := {
  ri_tail : 0 <= ring_tail r <= ring_head r;
  ri_size : ring_head r - ring_tail r <= AK_RING_BUFFER_SIZE;
  ri_init : ring_initialized r = true
}.

Lemma land_mask n : 0 <= n -> Z.land n AK_RING_BUFFER_MASK = n mod AK_RING_BUFFER_SIZE.
Proof. intros Hn. exact (Z.land_ones n 12 ltac:(lia)). Qed.

Lemma slot_entry_insert m h t a b c d idx e i :
  slot_entry (mk_ring (<[idx := e]> m) h t a b c d) i =
    if decide (idx = i) then e else default zero_ring_entry (m !! i).
Proof. unfold slot_entry. cbn [ring_entries]. rewrite lookup_insert. by case_decide. Qed.

(** Specification: a queue of at most 4096 entries that drops its oldest one. *)
Definition queue_push (q : list ak_ring_entry) (seq : Z) (v : ring_event) : list ak_ring_entry :=
  if AK_RING_BUFFER_SIZE <=? Z.of_nat (length q)
  then drop 1 q ++ [fill_entry seq (Z.lor (v_flags v) AK_RING_FLAG_OVERFLOW) v]
  else q ++ [fill_entry seq (v_flags v) v].

Lemma length_contents r : ring_inv r -> Z.of_nat (length (contents r)) = ring_head r - ring_tail r.
Proof. intros [Ht Hs _]. unfold contents. rewrite length_fmap, length_seqZ. lia. Qed.

Lemma push_spec r v :
  ring_inv r -> ring_head r + 1 < M64 ->
  let '(seq, r') := ak_ring_push r v in
  ring_inv r' /\ seq = ring_head r + 1 /\ ring_head r' = seq /\
  contents r' = queue_push (contents r) seq v.
Proof.
  intros Hinv Hb. pose proof (length_contents r Hinv) as Hlen. destruct Hinv as [Ht Hs Hi].
  unfold ak_ring_push, queue_push. rewrite Hlen, Hi. cbn [negb]. cbv zeta. rewrite land_mask by lia.
  unfold AK_RING_BUFFER_SIZE in *. unfold u64. rewrite !(Z.mod_small (ring_head r + 1)) by lia.
  rewrite (Z.mod_small (ring_head r - ring_tail r)) by lia.
  set (hd := ring_head r) in *. set (tl := ring_tail r) in *.
  (* the positions kept by the push are not overwritten *)
  assert (Hkeep : forall i e h t a b c d, hd - 4096 < i < hd -> 0 <= i ->
    slot_entry (mk_ring (<[hd mod 4096 := e]> (ring_entries r)) h t a b c d) (i mod 4096) =
    slot_entry r (i mod 4096)).
  { intros i e h t a b c d Hip H0. rewrite slot_entry_insert. case_decide as E; [|done].
    exfalso. pose proof (Z.div_mod hd 4096 ltac:(lia)). pose proof (Z.div_mod i 4096 ltac:(lia)). lia. }
  assert (Hgen : forall e t a b c d, tl <= t -> hd - 4096 < t <= hd ->
    contents (mk_ring (<[hd mod 4096 := e]> (ring_entries r)) (hd + 1) t a b c d) =
    drop (Z.to_nat (t - tl)) (contents r) ++ [e]).
  { intros e t a b c d Ht1 Ht2. unfold contents. cbn [ring_tail ring_head]. fold hd tl.
    unfold AK_RING_BUFFER_SIZE.
    replace (hd + 1 - t) with ((hd - t) + 1) by lia. rewrite seqZ_app by lia. rewrite fmap_app. f_equal.
    - rewrite <-fmap_drop. replace (hd - tl) with ((t - tl) + (hd - t)) by lia.
      rewrite seqZ_app, drop_app_length' by (lia || rewrite length_seqZ; lia).
      replace (tl + (t - tl)) with t by lia.
      apply list_fmap_ext. intros k i Hk. apply lookup_seqZ in Hk as [-> Hk]. apply Hkeep; lia.
    - replace (t + (hd - t)) with hd by lia. rewrite seqZ_cons, seqZ_nil by lia. cbn [fmap list_fmap].
      by rewrite slot_entry_insert, decide_True. }
  destruct (Z.leb_spec 4096 (hd - tl)).
  - rewrite (Z.mod_small (hd - 4096 + 1)) by lia. split; [constructor; cbn [ring_tail ring_head]; unfold AK_RING_BUFFER_SIZE; lia || done|].
    split; [done|]. split; [done|]. rewrite Hgen by lia. by replace (Z.to_nat (hd - 4096 + 1 - tl)) with 1%nat by lia.
  - split; [constructor; cbn [ring_tail ring_head]; unfold AK_RING_BUFFER_SIZE; lia || done|].
    split; [done|]. split; [done|]. rewrite Hgen by lia. by replace (Z.to_nat (tl - tl)) with 0%nat by lia.
Qed.

Lemma push_initialized r v : ring_initialized (ak_ring_push r v).2 = ring_initialized r.
Proof. unfold ak_ring_push. by destruct (ring_initialized r) eqn:E. Qed.

(** An initialised ring takes the entry. *)
Lemma push_takes r v : ring_initialized r = true -> ring_head (ak_ring_push r v).2 = u64 (ring_head r + 1).
Proof. unfold ak_ring_push. by intros ->. Qed.

Lemma pop_spec r :
  ring_inv r -> ring_head r < M64 ->
  match ak_ring_pop r with
  | None => contents r = []
  | Some (e, r') => ring_inv r' /\ contents r = e :: contents r' /\ ring_head r' = ring_head r
  end.
Proof.
  intros [Ht Hs Hi] Hb. unfold ak_ring_pop, contents. rewrite Hi. cbn [negb]. destruct (Z.leb_spec (ring_head r) (ring_tail r)).
  - rewrite seqZ_nil by lia. done.
  - unfold u64. rewrite Z.mod_small by lia. split; [constructor; cbn; lia || done|]. split; [|done].
    cbn [ring_tail ring_head]. rewrite (seqZ_cons (ring_tail r)) by lia. cbn [fmap list_fmap].
    rewrite land_mask by lia. f_equal.
    replace (Z.pred (ring_head r - ring_tail r)) with (ring_head r - (ring_tail r + 1)) by lia. done.
Qed.

(** ** Histories *)

Inductive ring_op := RPush (v : ring_event) | RPop.

Fixpoint ring_run (r : ring_state) (ops : list ring_op) : list ak_ring_entry * ring_state :=
  match ops with
  | [] => ([], r)
  | RPush v :: rest => ring_run (snd (ak_ring_push r v)) rest
  | RPop :: rest =>
      match ak_ring_pop r with
      | None => ring_run r rest
      | Some (e, r') => let '(out, r'') := ring_run r' rest in (e :: out, r'')
      end
  end.

Fixpoint queue_run (q : list ak_ring_entry) (pushed : Z) (ops : list ring_op) : list ak_ring_entry * list ak_ring_entry :=
  match ops with
  | [] => ([], q)
  | RPush v :: rest => queue_run (queue_push q (pushed + 1) v) (pushed + 1) rest
  | RPop :: rest =>
      match q with
      | [] => queue_run q pushed rest
      | e :: q' => let '(out, q'') := queue_run q' pushed rest in (e :: out, q'')
      end
  end.

Lemma ring_run_spec ops r :
  ring_inv r -> ring_head r + Z.of_nat (length ops) < M64 ->
  let '(out, r') := ring_run r ops in
  queue_run (contents r) (ring_head r) ops = (out, contents r') /\ ring_inv r'.
Proof.
  revert r. induction ops as [|[v|] ops IH]; intros r Hinv Hb; cbn [ring_run queue_run length] in *.
  - done.
  - pose proof (push_spec r v Hinv ltac:(lia)) as Hp. destruct (ak_ring_push r v) as [s r1]. cbn [snd].
    destruct Hp as (Hi & -> & Hh & Hc). specialize (IH r1 Hi ltac:(lia)). by rewrite Hc, Hh in IH.
  - pose proof (pop_spec r Hinv ltac:(lia)) as Hp. destruct (ak_ring_pop r) as [[e r1]|].
    + destruct Hp as (Hi & -> & Hh). specialize (IH r1 Hi ltac:(lia)). rewrite Hh in IH.
      destruct (ring_run r1 ops) as [out r2]. destruct IH as [-> Hi2]. done.
    + rewrite Hp in *. specialize (IH r Hinv ltac:(lia)). by rewrite Hp in IH.
Qed.

(** the ring is a bounded FIFO.  From [ak_ring_init], under any sequence of
    pushes and pops (fewer than 2^64), the ring behaves exactly as a queue of
    at most 4096 entries: pops return entries in push order, a push on a full
    ring drops only the oldest entry and flags the overflow, and peeking at
    offset [k] shows the [k]-th oldest entry. *)
Theorem ring_refines_queue ops :
  Z.of_nat (length ops) < M64 ->
  let '(out, r) := ring_run ak_ring_init ops in
  queue_run [] 0 ops = (out, contents r) /\
  Z.of_nat (length (contents r)) <= AK_RING_BUFFER_SIZE /\
  ring_current_count r = Z.of_nat (length (contents r)) /\
  forall k, 0 <= k -> ring_head r + k < M64 -> ak_ring_peek r k = contents r !! Z.to_nat k.
Proof.
  intros Hb. assert (Hi0 : ring_inv ak_ring_init) by (constructor; cbn; unfold AK_RING_BUFFER_SIZE; lia || done).
  pose proof (ring_run_spec ops ak_ring_init Hi0 Hb) as Hr.
  destruct (ring_run ak_ring_init ops) as [out r]. destruct Hr as [Hq Hinv].
  pose proof (length_contents r Hinv) as Hlen. destruct Hinv as [Ht Hs Hi].
  split; [exact Hq|]. split; [lia|]. split.
  { unfold ring_current_count. destruct (Z.ltb_spec (ring_tail r) (ring_head r)); lia. }
  intros k Hk Hkb. unfold ak_ring_peek, u64. rewrite Hi. cbn [negb]. rewrite Z.mod_small by lia.
  destruct (Z.leb_spec (ring_head r) (ring_tail r + k)).
  - symmetry. apply lookup_ge_None_2. lia.
  - rewrite land_mask by lia. unfold contents. rewrite list_lookup_fmap.
    rewrite (proj2 (lookup_seqZ (ring_tail r) (ring_head r - ring_tail r) (Z.to_nat k) (ring_tail r + k))) by lia.
    done.
Qed.

Definition demo_ring_event (o : Z) : ring_event := mk_ring_event None None o None None 0 0 0 0.

Lemma ring_refines_queue_witness :
  let '(out, r) := ring_run ak_ring_init [RPush (demo_ring_event 1); RPush (demo_ring_event 2); RPop] in
  queue_run [] 0 [RPush (demo_ring_event 1); RPush (demo_ring_event 2); RPop] = (out, contents r) /\
  Z.of_nat (length (contents r)) <= AK_RING_BUFFER_SIZE /\
  ring_current_count r = Z.of_nat (length (contents r)) /\
  forall k, 0 <= k -> ring_head r + k < M64 -> ak_ring_peek r k = contents r !! Z.to_nat k.
Proof. apply ring_refines_queue. cbn. lia. Defined.
