(* ===== verification/Recovery.v ===== *)
(** * Revocation across a reboot ([src/src/agentic/ak_capability.c])

    The operations of the capability subsystem that go through the audit log:
    [ak_revocation_add], [ak_revocation_revoke_run] and the replay of the log at
    startup, [ak_revocation_load_from_log].

    Theorem: a revocation that reached the disk is in force again after the
    reboot.  Two examples show behaviour the comments of the code do not
    promise. *)

From S2P Require Import Prelude Crypto Format Pattern Keys TokenTable Revocation Capability AuditLog AuditDisk.

Section Revoke.
Context `{Hash}.

(** [now_ms], [now_log]: the two clock readings; [alloc_reason], [alloc]: the
    allocations of the reason buffer and of the entry; [env]: the append. *)
Definition ak_revocation_add (st : rev_state) (d : disk_state) (tid reason : bytes)
    (now_ms now_log : Z) (alloc_reason alloc : bool) (env : append_env) : rev_state * disk_state :=
  let why := if alloc_reason then Some reason else None in
  let st' := snd (ak_revocation_insert_locked st tid now_ms why now_ms alloc) in
  (st', snd (ak_audit_append d (revocation_event tid reason now_log) env)).

Definition ak_revocation_revoke_run (st : rev_state) (d : disk_state) (run reason : bytes)
    (now_ms now_log : Z) (alloc_reason alloc : bool) (env : append_env) : rev_state * disk_state :=
  ak_revocation_add st d run reason now_ms now_log alloc_reason alloc env.

(** The replay at startup; [alloc_query]: the result array, [allocs]: the
    allocations for each entry, by its sequence number. *)
Definition ak_revocation_load_from_log (st : rev_state) (log : log_state) (now_ms : Z)
    (alloc_query : bool) (alloc_reason alloc : Z -> bool) : rev_state :=
  if head_seq log =? 0 then st
  else
    match ak_audit_query log (Some (mk_filter None None OP_REVOCATION)) 1 (head_seq log) alloc_query with
    | None => st
    | Some es =>
        let st' := snd (replay_entries st
          ((fun e => (pid e, ts_ms e, alloc_reason (e_seq e), alloc (e_seq e))) <$> es) now_ms) in
        ak_revocation_sweep_locked st' now_ms
    end.
End Revoke.

(** ** Replay *)

Lemma early_sweep st now_ms : now_ms < AK_REVOCATION_RETAIN_MS -> ak_revocation_sweep_locked st now_ms = st.
Proof. intros Hn. unfold ak_revocation_sweep_locked. destruct (Z.ltb_spec now_ms AK_REVOCATION_RETAIN_MS); [done|lia]. Qed.

Lemma insert_keeps st t ms why now_ms alloc tid :
  now_ms < AK_REVOCATION_RETAIN_MS -> length t = 16%nat -> length tid = 16%nat ->
  ak_revocation_check st tid = true ->
  ak_revocation_check (snd (ak_revocation_insert_locked st t ms why now_ms alloc)) tid = true.
Proof.
  intros Hn Ht Htid Hc. unfold ak_revocation_insert_locked.
  destruct (ak_revocation_find_locked st t) eqn:Hf; [done|]. rewrite early_sweep by done.
  assert (He : (if AK_REVOCATION_SWEEP_THRESHOLD <=? revocation_count st then st else st) = st) by (by case_match).
  rewrite He. destruct alloc; [|done]. unfold ak_revocation_check, ak_revocation_find_locked in *. cbn [snd revocations].
  destruct (decide (t = tid)) as [->|Hne]; [by rewrite Hf in Hc|]. by rewrite find_chain_other.
Qed.

Lemma replay_revokes entries now_ms st tid :
  now_ms < AK_REVOCATION_RETAIN_MS -> length tid = 16%nat ->
  Forall (fun p => length (fst (fst (fst p))) = 16%nat /\ snd p = true) entries ->
  ak_revocation_check st tid = true \/ tid ∈ (fun p => fst (fst (fst p))) <$> entries ->
  ak_revocation_check (snd (replay_entries st entries now_ms)) tid = true.
Proof.
  intros Hn Htid Hes. revert st. induction Hes as [|[[[t ms] ar] al] entries [Ht Hal] Hes IH]; intros st Hc.
  - destruct Hc as [Hc|Hin]; [done|]. by apply elem_of_nil in Hin.
  - cbn in Ht, Hal. subst al. cbn [replay_entries].
    set (why := if ar then Some recovered_reason else None).
    pose proof (insert_revokes st t ms why now_ms) as Hins.
    pose proof (insert_keeps st t ms why now_ms true tid Hn Ht Htid) as Hkeep.
    destruct (ak_revocation_insert_locked st t ms why now_ms true) as [ins st1]. cbn [snd] in *.
    specialize (IH st1). destruct (replay_entries st1 entries now_ms) as [k st2]. cbn [snd] in *.
    apply IH. cbn in Hc. rewrite elem_of_cons in Hc. destruct Hc as [Hc|[->|Hin]]; auto.
Qed.

Section Durable.
Context `{Hash}.

Lemma load_from_log_revokes log now_ms tid e :
  log_inv log -> Forall wf_entry (all_entries log) -> now_ms < AK_REVOCATION_RETAIN_MS ->
  e ∈ all_entries log -> op e = OP_REVOCATION -> pid e = tid ->
  ak_revocation_check (ak_revocation_load_from_log (mk_rev_state ∅ 0) log now_ms true
    (fun _ => true) (fun _ => true)) tid = true.
Proof.
  intros Hinv Hwf Hn He Hop Hpid. unfold ak_revocation_load_from_log.
  apply list_elem_of_lookup in He as Hidx. destruct Hidx as [i Hi].
  pose proof (li_head _ Hinv) as Hh. pose proof (lookup_lt_Some _ _ _ Hi) as Hlt.
  pose proof (li_seq _ Hinv _ _ Hi) as Hseq.
  destruct (Z.eqb_spec (head_seq log) 0); [lia|].
  set (f := Some (mk_filter None None OP_REVOCATION)).
  assert (Hmatch : matching log f 1 (head_seq log) = filter (in_range f 1 (head_seq log)) (all_entries log)).
  { unfold matching. rewrite Z.min_id.
    pose proof (select_prefix log f 1 (length (all_entries log)) Hinv ltac:(lia) ltac:(lia)) as Hsp.
    rewrite take_ge in Hsp by lia. rewrite <-Hh in Hsp. exact Hsp. }
  assert (Hin : e ∈ filter (in_range f 1 (head_seq log)) (all_entries log)).
  { apply list_elem_of_filter. split; [|done]. split; [|lia]. unfold f, filter_match. cbn. by rewrite Hop. }
  unfold ak_audit_query. rewrite Hmatch.
  destruct (filter _ _) as [|x es] eqn:Ef; [by apply elem_of_nil in Hin|].
  rewrite early_sweep by done. rewrite list.Forall_forall in Hwf.
  apply replay_revokes; [done| | |right].
  - rewrite <-Hpid. apply (Hwf e He).
  - apply Forall_fmap, list.Forall_forall. intros y Hy. rewrite <-Ef in Hy.
    apply list_elem_of_filter in Hy as [_ Hy]. split; [|done]. apply (Hwf y Hy).
  - rewrite <-list_fmap_compose. apply list_elem_of_fmap. exists e. split; [done|exact Hin].
Qed.

Lemma revocation_event_wf tid reason nl :
  length tid = 16%nat -> wf_bytes tid -> is_u64 nl -> wf_event (revocation_event tid reason nl).
Proof.
  intros Htid Hwt Hnl. constructor; cbn [revocation_event ev_now_ms ev_op ev_pid ev_run ev_req ev_res ev_policy];
    [done|unfold is_u16, OP_REVOCATION; lia|done|done|split; [apply length_hash|apply wf_hash]|split; [done|apply wf_zeros]..].
Qed.

(** C15: revocation survives a reboot.  Start from any log whose durable part is
    intact (a fresh one, or one recovered at an earlier boot), with room for an
    entry, and revoke a token, the entry being synced; let any history of
    appends and failures follow, and the machine stop, leaving of the file the
    durable entries and any part of the bytes of the ones written behind them.
    Recovery then loads the file, the durable part of the recovered log is intact
    again, and replaying it, within the retention time and with enough memory,
    into an empty revocation table makes the token revoked.  (Entries that
    nobody appended may not stand behind the durable ones: the loader does not
    look at the sequence number of an entry, [foreign_tail_hides_revocation].) *)
Theorem revocation_survives_reboot d0 n0 st tid reason nm nl ar al env ops io now_ms :
  disk_inv d0 n0 -> head_seq (dlog d0) < LOG_CAPACITY -> ae_alloc_seg env = true -> ae_alloc_hash env = true ->
  sync_ok (ae_io env) -> ops_ok ops -> load_ok io -> length tid = 16%nat -> wf_bytes tid -> is_u64 nl ->
  0 <= now_ms < AK_REVOCATION_RETAIN_MS ->
  let '(st', d1) := ak_revocation_add st d0 tid reason nm nl ar al env in
  let d2 := disk_run d1 ops in
  exists n, disk_inv d2 n /\ forall f, crash_image d2 n f ->
    exists d' n', ak_audit_load (boot f) io = Some (0, d') /\ disk_inv d' n' /\
      ak_revocation_check (ak_revocation_load_from_log (mk_rev_state ∅ 0) (dlog d') now_ms true
        (fun _ => true) (fun _ => true)) tid = true.
Proof.
  intros Hd0 Hcap Hseg Hal Hsync Hops Hio Htid Hwt Hnl Hnow. unfold ak_revocation_add. cbv zeta.
  pose proof (revocation_event_wf tid reason nl Htid Hwt Hnl) as Hev.
  pose proof (append_disk _ n0 _ env Hd0 Hev Hal) as Ha.
  assert (Hroom : fst (ak_audit_append d0 (revocation_event tid reason nl) env) <> AK_E_LOG_FULL)
    by (by apply (append_accepted d0 n0)).
  destruct (ak_audit_append d0 (revocation_event tid reason nl) env) as [rv d1]. cbn [fst snd] in *.
  destruct Ha as (n1 & Hd1 & Hn1 & [[? _]|(-> & Hhd & (e & He & Hall1) & Hs)]); [done|].
  specialize (Hs Hsync). destruct (disk_run_inv d1 n1 ops Hd1 Hops) as (n2 & Hd2 & Hn2 & es & Hes).
  exists n2. split; [done|]. intros f Hf.
  destruct (crash_image_split _ n2 f Hd2 Hf) as (k & tail & Hk & Htail & ->).
  pose proof (di_n _ _ Hd0). pose proof (li_head _ (di_log _ _ Hd1)) as Hl1.
  destruct (prefix_recovered (dlog (disk_run d1 ops)) k tail io (di_log _ _ Hd2) (di_wf _ _ Hd2) ltac:(lia) Hio)
    as (d' & Hload & _ & Hexact).
  destruct (Hexact Htail) as [Hd' Hall']. exists d', k. split; [done|]. split; [done|].
  apply (load_from_log_revokes _ _ _ e).
  - apply Hd'.
  - eapply Forall_impl; [exact (di_wf _ _ Hd')|]. intros x [Hx _]. exact Hx.
  - lia.
  - rewrite Hall', Hes, take_app_ge by lia. apply elem_of_app. left. rewrite Hall1. apply elem_of_app. right.
    by apply list_elem_of_singleton.
  - by apply (f_equal ev_op) in He.
  - by apply (f_equal ev_pid) in He.
Qed.
End Durable.

(** The second boot of a machine: the log of the first one is recovered, a token is
    revoked, and the next entry reaches the disk before the crash. *)
Lemma revocation_survives_reboot_witness :
  exists d0, head_seq (dlog d0) = 1 /\
  let d1 := (ak_revocation_add (mk_rev_state ∅ 0) d0 demo_tid B"leaked" 5 5 true true (env_of good_io)).2 in
  let d2 := disk_run d1 [(demo_event 7, env_of bad_io)] in
  exists d' n', ak_audit_load (boot (durable_file (all_entries (dlog d2)))) good_load = Some (0, d') /\
    disk_inv d' n' /\
    ak_revocation_check (ak_revocation_load_from_log (mk_rev_state ∅ 0) (dlog d') 10 true
      (fun _ => true) (fun _ => true)) demo_tid = true.
Proof.
  destruct (clean_reboot_exact [] [] (demo_event 7) (env_of good_io) good_load) as [E|(d0 & _ & _ & Hh & _ & _ & Hd)];
    [cbn; lia|constructor|apply demo_event_wf; unfold is_u16; lia|reflexivity|repeat split|repeat split|vm_compute in E; discriminate E|].
  change (head_seq (dlog d0) = 1) in Hh. exists d0. split; [exact Hh|]. intros d1 d2. subst d1 d2.
  pose proof (revocation_survives_reboot d0 _ (mk_rev_state ∅ 0) demo_tid B"leaked" 5 5
    true true (env_of good_io) [(demo_event 7, env_of bad_io)] good_load 10 Hd) as H.
  destruct (ak_revocation_add (mk_rev_state ∅ 0) d0 demo_tid B"leaked" 5 5 true true (env_of good_io)) as [st' d1] eqn:E.
  destruct H as (n & Hn & Hall).
  - unfold LOG_CAPACITY. lia.
  - reflexivity.
  - reflexivity.
  - repeat split.
  - apply demo_ops_ok.
  - repeat split.
  - reflexivity.
  - apply (bool_decide_unpack _). vm_compute. exact I.
  - unfold is_u64. lia.
  - unfold AK_REVOCATION_RETAIN_MS, AK_MAX_CAP_TTL_MS, AK_KEY_ROTATION_MS. lia.
  - apply Hall. eexists. split; [|symmetry; apply firstn_all]. cbv beta iota delta [snd].
    rewrite (length_durable _ (di_wf _ _ Hn)), <-(li_head _ (di_log _ _ Hn)). pose proof (di_n _ _ Hn).
    unfold file_size_of, AK_AUDIT_ENTRY_DISK_SIZE, ENTRY_HEADER_SIZE, ENTRY_SIZE. lia.
Defined.

(** An entry that nobody appended, but whose checksum and hashes are right and
    which is numbered 0: the loader takes its number for that of the head, the
    replay finds an empty log, and the synced revocation is not in force. *)
Example foreign_tail_hides_revocation :
  let d := snd (ak_revocation_add (mk_rev_state ∅ 0) (boot []) demo_tid B"leaked" 5 5 true true (env_of good_io)) in
  let prev := head_hash (dlog d) in
  let e := mk_entry 0 6 (zeros 16) (zeros 16) 1 (zeros 32) (zeros 32) prev (zeros 32) (zeros 32) in
  let foreign := with_this_hash e (ak_audit_compute_entry_hash true e prev) in
  let revoked f :=
    match ak_audit_load (boot f) good_load with
    | Some (_, d') => ak_revocation_check (ak_revocation_load_from_log (mk_rev_state ∅ 0) (dlog d') 10 true
                        (fun _ => true) (fun _ => true)) demo_tid
    | None => true
    end in
  revoked (file d) = true /\ revoked (file d ++ ak_audit_serialize_entry foreign) = false.
Proof. vm_compute. split; reflexivity. Qed.

(** ** What the scheme does not do *)

(** Revoking a run records the run's id; validation looks up the token's id
    only, so the run's tokens stay valid. *)
Example revoked_run_still_valid :
  let '(rev, _) := ak_revocation_revoke_run (cs_rev demo_cs) (boot []) demo_run B"stop" 2500 2500 true true
                     (env_of good_io) in
  let st := mk_cap_state (cs_keys demo_cs) rev (cs_rate demo_cs) in
  ak_revocation_check rev demo_run = true /\
  fst (ak_capability_validate cstr st (Some demo_cap) AK_CAP_NET (Some B"api.example") (Some B"GET")
         (Some demo_run) 3000 3000 true true) = 0.
Proof. vm_compute. split; reflexivity. Qed.

(** Issue times are readings of a monotonic clock that restarts at boot, while
    keys survive: a one-minute token minted after 30 days of uptime expires
    before a key import only if the clock does not restart. *)
Example reboot_revives_expired_token :
  let up := 2592000000 in
  let ks := mk_key_state (keys (cs_keys demo_cs)) 0 up 1 in
  let st := mk_cap_state ks (cs_rev demo_cs) (cs_rate demo_cs) in
  let cap := or_dummy (ak_capability_create cstr st AK_CAP_NET (Some B"*") None 60000 0 0 (Some demo_run) up
               demo_rnd true true) in
  ak_capability_verify cstr st (Some cap) (up + 60001) true = AK_E_CAP_EXPIRED /\
  match ak_keys_import (ak_keys_export ks) 1000 with
  | Ret ks' => ak_capability_verify cstr (mk_cap_state ks' (cs_rev demo_cs) (cs_rate demo_cs)) (Some cap)
                 86400000 true = 0
  | _ => False
  end.
Proof. vm_compute. split; reflexivity. Qed.
