(* ===== verification/Json.v ===== *)
(** * JSON field extraction and decimal formatting
    ([src/src/agentic/ak_syscall.c], [ak_policy.c])

    The scanners that take fields out of a request's argument buffer, and the
    formatter of heap pointers.  Every read goes through [rd]/[rdn]; a loop
    that ran out of fuel would also be [Oob], so that a theorem excluding
    [Oob] shows termination and memory safety at once. *)

From S2P Require Import Prelude.

Definition QUOTE : Z := 34.
Definition BACKSLASH : Z := 92.

(** [data[i] == '"' && memcmp(&data[i+1], key) == 0 && data[i+1+key_len] == '"'] *)
Definition key_at (data key : bytes) (i : Z) : outcome bool :=
  let kl := Z.of_nat (length key) in
  let* c := rd data i in
  if c =? QUOTE then
    let* k := rdn data (i + 1) kl in
    if bytes_eqb k key then
      let* q := rd data (i + 1 + kl) in Ret (q =? QUOTE)
    else Ret false
  else Ret false.

(** The outer [for] loop, up to the first occurrence of the key. *)
Fixpoint find_key (fuel : nat) (data key : bytes) (i : Z) : outcome (option Z) :=
  if negb (i + Z.of_nat (length key) + 4 <? Z.of_nat (length data)) then Ret None
  else match fuel with
       | O => Oob
       | S fuel' =>
           let* m := key_at data key i in
           if m then Ret (Some i) else find_key fuel' data key (i + 1)
       end.

Definition is_sep (c : Z) : bool := (c =? 58) || (c =? 32) || (c =? 9).

Fixpoint skip_sep (fuel : nat) (data : bytes) (j : Z) : outcome Z :=
  if negb (j <? Z.of_nat (length data)) then Ret j
  else match fuel with
       | O => Oob
       | S fuel' =>
           let* c := rd data j in
           if is_sep c then skip_sep fuel' data (j + 1) else Ret j
       end.

(** To the closing quote, or the end of the buffer. *)
Fixpoint scan_string (fuel : nat) (data : bytes) (j : Z) : outcome Z :=
  if negb (j <? Z.of_nat (length data)) then Ret j
  else match fuel with
       | O => Oob
       | S fuel' =>
           let* c := rd data j in
           if c =? QUOTE then Ret j
           else if (c =? BACKSLASH) && (j + 1 <? Z.of_nat (length data))
                then scan_string fuel' data (j + 1 + 1)
                else scan_string fuel' data (j + 1)
       end.

(** [Ret None] is the answer -1; [Ret (Some v)] the string written to [out]. *)
Definition ak_json_extract_string (json : option bytes) (key : bytes) (out_len : Z) : outcome (option bytes) :=
  match json with
  | None => Ret None
  | Some data =>
      if out_len =? 0 then Ret None
      else
        let len := Z.of_nat (length data) in
        let* k := find_key (length data) data key 0 in
        match k with
        | None => Ret None
        | Some i =>
            let* j := skip_sep (length data) data (i + 1 + Z.of_nat (length key) + 1) in
            if len <=? j then Ret None
            else
              let* c := rd data j in
              if negb (c =? QUOTE) then Ret None
              else
                let start := j + 1 in
                let* e := scan_string (length data) data start in
                let value_len := e - start in
                let value_len := if out_len <=? value_len then out_len - 1 else value_len in
                let* v := rdn data start value_len in
                Ret (Some v)
        end
  end.

(** [ak_policy.c] has its own copy of the same scanner. *)
Definition json_get_string_field (json : option bytes) (key : bytes) (out_len : Z) : outcome (option bytes) :=
  ak_json_extract_string json key out_len.

Definition UINT64_MAX : Z := 18446744073709551615.
Definition is_dec (c : Z) : bool := (48 <=? c) && (c <=? 57).

(** The digit loop, saturating instead of wrapping. *)
Fixpoint scan_u64 (fuel : nat) (data : bytes) (j value : Z) : outcome Z :=
  if negb (j <? Z.of_nat (length data)) then Ret value
  else match fuel with
       | O => Oob
       | S fuel' =>
           let* c := rd data j in
           if is_dec c then
             let digit := c - 48 in
             if (UINT64_MAX - digit) / 10 <? value then Ret UINT64_MAX
             else scan_u64 fuel' data (j + 1) (value * 10 + digit)
           else Ret value
       end.

Definition ak_json_extract_u64 (json : option bytes) (key : bytes) : outcome Z :=
  match json with
  | None => Ret 0
  | Some data =>
      let* k := find_key (length data) data key 0 in
      match k with
      | None => Ret 0
      | Some i =>
          let* j := skip_sep (length data) data (i + 1 + Z.of_nat (length key) + 1) in
          if Z.of_nat (length data) <=? j then Ret 0 else scan_u64 (length data) data j 0
      end
  end.

(** [ak_u64_to_dec]: the digits, most significant first; 20 are enough. *)
Fixpoint dec_digits (fuel : nat) (v : Z) (acc : bytes) : bytes :=
  match fuel with
  | O => acc
  | S fuel' => if 0 <? v then dec_digits fuel' (v / 10) (48 + v mod 10 :: acc) else acc
  end.
Definition ak_u64_to_dec (v : Z) : bytes := if v =? 0 then [48] else dec_digits 20 v [].

(** ** Safety of the scanners *)

Section Scan.
Context (data : bytes) (Hd : wf_bytes data).
Abbreviation len := (Z.of_nat (length data)).

Lemma key_at_safe key i :
  0 <= i -> i + Z.of_nat (length key) + 4 < len ->
  exists b, key_at data key i = Ret b /\
    (b = true -> exists pre rest, data = pre ++ QUOTE :: key ++ QUOTE :: rest /\ Z.of_nat (length pre) = i).
Proof.
  intros H0 Hi. unfold key_at.
  destruct (rd_ok data i Hd ltac:(lia)) as (c & Ec & _). rewrite Ec. cbn [obind].
  destruct (Z.eqb_spec c QUOTE) as [->|]; [|eexists; split; [done|done]].
  destruct (rdn_ok data (i + 1) (Z.of_nat (length key)) Hd ltac:(lia) ltac:(lia) ltac:(lia)) as (k & Ek & _).
  rewrite Ek. cbn [obind]. destruct (bytes_eqb k key) eqn:Eq; [|eexists; split; [done|done]].
  apply bytes_eqb_eq in Eq as ->.
  destruct (rd_ok data (i + 1 + Z.of_nat (length key)) Hd ltac:(lia)) as (q & Eqq & _). rewrite Eqq. cbn [obind].
  eexists. split; [done|]. intros Hq. apply Z.eqb_eq in Hq as ->.
  exists (take (Z.to_nat i) data), (drop (Z.to_nat (i + 2 + Z.of_nat (length key))) data).
  split; [|rewrite length_take; lia].
  unfold rd, rdn in *. destruct (Z.ltb_spec i 0); [lia|].
  destruct (data !! Z.to_nat i) as [x|] eqn:E1; [|done]. injection Ec as ->.
  destruct (_ && _); [|done]. injection Ek as Ek.
  destruct (Z.ltb_spec (i + 1 + Z.of_nat (length key)) 0); [lia|].
  destruct (data !! Z.to_nat (i + 1 + Z.of_nat (length key))) as [y|] eqn:E2; [|done]. injection Eqq as ->.
  rewrite <-(take_drop (Z.to_nat i) data) at 1. f_equal. rewrite (drop_S _ _ _ E1). f_equal.
  replace (S (Z.to_nat i)) with (Z.to_nat (i + 1)) by lia.
  rewrite <-(take_drop (length key) (drop (Z.to_nat (i + 1)) data)).
  rewrite Nat2Z.id in Ek. rewrite Ek. f_equal. rewrite drop_drop.
  replace (Z.to_nat (i + 1) + length key)%nat with (Z.to_nat (i + 1 + Z.of_nat (length key))) by lia.
  rewrite (drop_S _ _ _ E2). do 2 f_equal. lia.
Qed.

Lemma find_key_safe fuel key i :
  0 <= i -> len - i <= Z.of_nat fuel ->
  match find_key fuel data key i with
  | Ret None => True
  | Ret (Some k) => i <= k /\ k + Z.of_nat (length key) + 4 < len /\
      exists pre rest, data = pre ++ QUOTE :: key ++ QUOTE :: rest /\ Z.of_nat (length pre) = k
  | _ => False
  end.
Proof.
  revert i. induction fuel as [|fuel IH]; intros i H0 Hf; cbn [find_key];
    destruct (Z.ltb_spec (i + Z.of_nat (length key) + 4) len); cbn [negb]; try done; [lia|].
  destruct (key_at_safe key i) as (b & -> & Hb); [lia..|]. cbn [obind].
  destruct b; [split; [lia|]; split; [lia|]; by apply Hb|].
  specialize (IH (i + 1) ltac:(lia) ltac:(lia)). destruct (find_key fuel data key (i + 1)) as [[k|]| |]; try done.
  destruct IH as (? & ?). split; [lia|done].
Qed.

Lemma skip_sep_safe fuel j :
  0 <= j -> j <= len -> len - j <= Z.of_nat fuel ->
  exists j', skip_sep fuel data j = Ret j' /\ j <= j' <= len /\
    Forall (fun c => is_sep c = true) (take (Z.to_nat (j' - j)) (drop (Z.to_nat j) data)).
Proof.
  revert j. induction fuel as [|fuel IH]; intros j H0 Hj Hf; cbn [skip_sep];
    destruct (Z.ltb_spec j len); cbn [negb];
    try (exists j; rewrite Z.sub_diag; split; [done|split; [lia|constructor]]); [lia|].
  destruct (rd_ok data j Hd ltac:(lia)) as (c & Ec & _). rewrite Ec. cbn [obind].
  destruct (is_sep c) eqn:Es; [|exists j; rewrite Z.sub_diag; split; [done|split; [lia|constructor]]].
  destruct (IH (j + 1)) as (j' & -> & Hj' & Hs); [lia..|]. exists j'. split; [done|]. split; [lia|].
  unfold rd in Ec. destruct (Z.ltb_spec j 0); [lia|].
  destruct (data !! Z.to_nat j) as [x|] eqn:E1; [|done]. injection Ec as ->.
  rewrite (drop_S _ _ _ E1). replace (Z.to_nat (j' - j)) with (S (Z.to_nat (j' - (j + 1)))) by lia.
  cbn [take]. constructor; [done|]. by replace (S (Z.to_nat j)) with (Z.to_nat (j + 1)) by lia.
Qed.

Lemma scan_string_safe fuel j :
  0 <= j -> j <= len -> len - j <= Z.of_nat fuel ->
  exists e, scan_string fuel data j = Ret e /\ j <= e <= len.
Proof.
  revert j. induction fuel as [|fuel IH]; intros j H0 Hj Hf; cbn [scan_string];
    destruct (Z.ltb_spec j len); cbn [negb]; try (exists j; split; [done|lia]); [lia|].
  destruct (rd_ok data j Hd ltac:(lia)) as (c & -> & _). cbn [obind].
  destruct (c =? QUOTE); [exists j; split; [done|lia]|].
  destruct (c =? BACKSLASH); cbn [andb]; [destruct (Z.ltb_spec (j + 1) len)|].
  - destruct (IH (j + 1 + 1)) as (e & -> & He); [lia..|]. exists e. split; [done|lia].
  - destruct (IH (j + 1)) as (e & -> & He); [lia..|]. exists e. split; [done|lia].
  - destruct (IH (j + 1)) as (e & -> & He); [lia..|]. exists e. split; [done|lia].
Qed.

Lemma scan_u64_safe fuel j value :
  0 <= j -> j <= len -> len - j <= Z.of_nat fuel -> 0 <= value <= UINT64_MAX ->
  exists v, scan_u64 fuel data j value = Ret v /\ 0 <= v <= UINT64_MAX.
Proof.
  revert j value. induction fuel as [|fuel IH]; intros j value H0 Hj Hf Hv; cbn [scan_u64];
    destruct (Z.ltb_spec j len); cbn [negb]; try (exists value; split; [done|lia]); [lia|].
  destruct (rd_ok data j Hd ltac:(lia)) as (c & -> & _). cbn [obind].
  destruct (is_dec c) eqn:Ec; [|eauto]. unfold is_dec in Ec. bprop. cbv zeta.
  destruct (Z.ltb_spec ((UINT64_MAX - (c - 48)) / 10) value); [exists UINT64_MAX; unfold UINT64_MAX; split; [done|lia]|].
  apply IH; try lia. pose proof (Z.mul_div_le (UINT64_MAX - (c - 48)) 10 ltac:(lia)).
  unfold UINT64_MAX in *. lia.
Qed.
End Scan.

Lemma extract_string_sound data key out_len :
  wf_bytes data -> 0 < out_len ->
  match ak_json_extract_string (Some data) key out_len with
  | Ret None => True
  | Ret (Some v) =>
      Z.of_nat (length v) < out_len /\
      exists pre sep rest,
        data = pre ++ QUOTE :: key ++ QUOTE :: sep ++ QUOTE :: v ++ rest /\
        Forall (fun c => is_sep c = true) sep
  | _ => False
  end.
Proof.
  intros Hd Ho. unfold ak_json_extract_string. destruct (Z.eqb_spec out_len 0); [lia|].
  pose proof (find_key_safe data Hd (length data) key 0 ltac:(lia) ltac:(lia)) as Hk.
  destruct (find_key (length data) data key 0) as [[i|]| |]; try done. cbn [obind].
  destruct Hk as (Hi & Hlen & pre & r1 & Hdata & Hpre).
  set (j0 := i + 1 + Z.of_nat (length key) + 1).
  assert (Hdrop : drop (Z.to_nat j0) data = r1).
  { assert (Hr : data = (pre ++ QUOTE :: key ++ [QUOTE]) ++ r1).
    { rewrite Hdata, <-app_assoc. cbn [app]. by rewrite <-app_assoc. }
    rewrite Hr. apply drop_app_length'. rewrite length_app. cbn [length]. rewrite length_app. cbn [length]. lia. }
  destruct (skip_sep_safe data Hd (length data) j0) as (j & -> & Hj & Hs); [lia..|]. cbn [obind].
  destruct (Z.leb_spec (Z.of_nat (length data)) j); [done|].
  destruct (rd_ok data j Hd ltac:(lia)) as (c & Ec & _). rewrite Ec. cbn [obind].
  destruct (Z.eqb_spec c QUOTE) as [->|]; cbn [negb]; [|done].
  destruct (scan_string_safe data Hd (length data) (j + 1)) as (e & -> & He); [lia..|]. cbn [obind].
  set (vl := if out_len <=? e - (j + 1) then out_len - 1 else e - (j + 1)).
  assert (Hvl : 0 <= vl <= e - (j + 1) /\ vl < out_len)
    by (subst vl; destruct (Z.leb_spec out_len (e - (j + 1))); lia).
  destruct (rdn_ok data (j + 1) vl Hd ltac:(lia) ltac:(lia) ltac:(lia)) as (v & Ev & Lv & _).
  rewrite Ev. cbn [obind]. split; [lia|].
  exists pre, (take (Z.to_nat (j - j0)) r1), (drop (Z.to_nat (j + 1 + vl)) data).
  rewrite Hdrop in Hs. split; [|done]. rewrite Hdata at 1. do 4 f_equal.
  rewrite <-(take_drop (Z.to_nat (j - j0)) r1) at 1. f_equal.
  rewrite <-Hdrop, drop_drop. replace (Z.to_nat j0 + Z.to_nat (j - j0))%nat with (Z.to_nat j) by lia.
  unfold rd in Ec. destruct (Z.ltb_spec j 0); [lia|].
  destruct (data !! Z.to_nat j) as [x|] eqn:E1; [|done]. injection Ec as ->.
  rewrite (drop_S _ _ _ E1). f_equal. unfold rdn in Ev. destruct (_ && _); [|done]. injection Ev as <-.
  replace (S (Z.to_nat j)) with (Z.to_nat (j + 1)) by lia.
  rewrite <-(take_drop (Z.to_nat vl) (drop (Z.to_nat (j + 1)) data)) at 1. f_equal.
  rewrite drop_drop. f_equal. lia.
Qed.

(** string extraction is safe and sound.  On any argument buffer and key,
    [ak_json_extract_string] terminates, reads only inside the buffer, writes
    fewer than [out_len] bytes, and what it returns is text that stands in the
    buffer between quotes after the quoted key and separators. *)
Theorem json_string_sound data key out_len :
  wf_bytes data -> 0 < out_len ->
  match ak_json_extract_string (Some data) key out_len with
  | Ret None => True
  | Ret (Some v) =>
      Z.of_nat (length v) < out_len /\
      exists pre sep rest,
        data = pre ++ QUOTE :: key ++ QUOTE :: sep ++ QUOTE :: v ++ rest /\
        Forall (fun c => is_sep c = true) sep
  | _ => False
  end.
Proof. apply extract_string_sound. Qed.

Lemma json_string_sound_witness :
  match ak_json_extract_string (Some JQ"{'tool':'read'}") B"tool" 64 with
  | Ret (Some v) => Z.of_nat (length v) < 64
  | Ret None => True
  | _ => False
  end.
Proof.
  pose proof (json_string_sound JQ"{'tool':'read'}" B"tool" 64
    ltac:(apply (bool_decide_unpack _); vm_compute; exact I) ltac:(lia)) as H.
  destruct (ak_json_extract_string _ _ _) as [[v|]| |]; try exact H. exact (proj1 H).
Defined.

(** The value of the extraction, once it is known not to be [Oob]. *)
Definition json_string (json : option bytes) (key : bytes) (out_len : Z) : option bytes :=
  match ak_json_extract_string json key out_len with Ret v => v | _ => None end.
Definition json_u64 (json : option bytes) (key : bytes) : Z :=
  match ak_json_extract_u64 json key with Ret v => v | _ => 0 end.

(** ** Numbers *)

Definition dec_value (acc : Z) (l : bytes) : Z := foldl (fun v c => v * 10 + (c - 48)) acc l.

Lemma dec_value_app acc a b : dec_value acc (a ++ b) = dec_value (dec_value acc a) b.
Proof. apply foldl_app. Qed.

Lemma dec_value_mono acc l : 0 <= acc -> Forall (fun c => is_dec c = true) l -> acc <= dec_value acc l.
Proof.
  intros H0 Hl. revert acc H0. induction Hl as [|c l Hc Hl IH]; intros acc H0; [done|].
  unfold is_dec in Hc. bprop. cbn. specialize (IH (acc * 10 + (c - 48)) ltac:(lia)).
  unfold dec_value in IH. lia.
Qed.

(** The digit loop computes the decimal value, saturated. *)
Lemma scan_u64_value ds rest pre fuel value :
  Forall (fun c => is_dec c = true) ds ->
  match rest with c :: _ => is_dec c = false | [] => True end ->
  (length ds <= fuel)%nat -> (rest <> [] -> (length ds < fuel)%nat) -> 0 <= value <= UINT64_MAX ->
  scan_u64 fuel (pre ++ ds ++ rest) (Z.of_nat (length pre)) value = Ret (Z.min UINT64_MAX (dec_value value ds)).
Proof.
  intros Hds Hrest. revert pre fuel value. induction Hds as [|c ds Hc Hds IH]; intros pre fuel value Hf Hf' Hv.
  - cbn [app dec_value foldl]. rewrite Z.min_r by lia. destruct rest as [|c rest].
    + rewrite app_nil_r. destruct fuel; cbn [scan_u64]; by rewrite Z.ltb_irrefl.
    + destruct fuel as [|fuel]; [specialize (Hf' ltac:(done)); cbn in Hf'; lia|]. cbn [scan_u64].
      rewrite length_app. cbn [length]. destruct (Z.ltb_spec (Z.of_nat (length pre)) (Z.of_nat (length pre + S (length rest)))); [|lia].
      cbn [negb]. rewrite rd_app by done. cbn [obind]. by rewrite Hrest.
  - destruct fuel as [|fuel]; [cbn in Hf; lia|]. cbn [scan_u64 app].
    rewrite length_app. cbn [length].
    destruct (Z.ltb_spec (Z.of_nat (length pre)) (Z.of_nat (length pre + S (length (ds ++ rest))))); [|lia].
    cbn [negb]. rewrite rd_app by done. cbn [obind]. rewrite Hc. unfold is_dec in Hc. bprop. cbv zeta.
    pose proof (Z.mul_div_le (UINT64_MAX - (c - 48)) 10 ltac:(lia)) as Hdiv.
    pose proof (Z.mul_succ_div_gt (UINT64_MAX - (c - 48)) 10 ltac:(lia)) as Hdiv'.
    change (dec_value value (c :: ds)) with (dec_value (value * 10 + (c - 48)) ds).
    destruct (Z.ltb_spec ((UINT64_MAX - (c - 48)) / 10) value).
    + rewrite Z.min_l; [done|]. pose proof (dec_value_mono (value * 10 + (c - 48)) ds ltac:(lia) Hds). lia.
    + specialize (IH (pre ++ [c]) fuel (value * 10 + (c - 48))).
      rewrite <-app_assoc, length_app in IH. cbn [app length] in IH.
      replace (Z.of_nat (length pre) + 1) with (Z.of_nat (length pre + 1)) by lia.
      apply IH; cbn in *; try lia. intros Hr. specialize (Hf' Hr). lia.
Qed.

Lemma dec_digits_spec fuel v acc :
  0 <= v < 10 ^ Z.of_nat fuel -> Forall (fun c => is_dec c = true) acc ->
  Forall (fun c => is_dec c = true) (dec_digits fuel v acc) /\
  forall a, dec_value 0 (dec_digits fuel v acc) = a -> a = dec_value v acc.
Proof.
  revert v acc. induction fuel as [|fuel IH]; intros v acc Hv Hacc; cbn [dec_digits].
  - change (10 ^ Z.of_nat 0) with 1 in Hv. split; [done|]. intros a <-. f_equal. lia.
  - rewrite Nat2Z.inj_succ, Z.pow_succ_r in Hv by lia.
    destruct (Z.ltb_spec 0 v); [|split; [done|]; intros a <-; f_equal; lia].
    pose proof (Z.mod_pos_bound v 10 ltac:(lia)). pose proof (Z.div_mod v 10 ltac:(lia)).
    destruct (IH (v / 10) (48 + v mod 10 :: acc)) as [Hd1 Hd2].
    + split; [apply Z.div_pos; lia|apply Z.div_lt_upper_bound; lia].
    + constructor; [|done]. unfold is_dec. rewrite !(proj2 (Z.leb_le _ _)) by lia. done.
    + split; [done|]. intros a Ha. rewrite (Hd2 a Ha). cbn. f_equal. lia.
Qed.

Lemma u64_to_dec_spec v :
  0 <= v <= UINT64_MAX ->
  Forall (fun c => is_dec c = true) (ak_u64_to_dec v) /\ dec_value 0 (ak_u64_to_dec v) = v /\
  ak_u64_to_dec v <> [].
Proof.
  intros Hv. unfold ak_u64_to_dec. destruct (Z.eqb_spec v 0) as [->|Hne]; [repeat constructor; done|].
  destruct (dec_digits_spec 20 v []) as [H1 H2].
  - unfold UINT64_MAX in Hv. change (10 ^ Z.of_nat 20) with 100000000000000000000. lia.
  - constructor.
  - split; [done|]. specialize (H2 _ eq_refl). cbn [dec_value foldl] in H2. split; [done|].
    intros E. rewrite E in H2. cbn in H2. lia.
Qed.

Lemma length_dec_digits fuel v acc : (length (dec_digits fuel v acc) <= fuel + length acc)%nat.
Proof.
  revert v acc; induction fuel as [|fuel IH]; intros v acc; cbn [dec_digits]; [lia|].
  destruct (0 <? v); [|lia]. specialize (IH (v / 10) (48 + v mod 10 :: acc)). cbn [length] in IH. lia.
Qed.

(** pointers round trip.  The object pointer of a heap request is read back
    exactly: extracting the field from a document whose first member it is
    returns the number that was printed, and the decimal resource string the
    capability is matched against determines the pointer (and fits the
    buffer). *)
Theorem ptr_round_trip key v c rest :
  0 <= v <= UINT64_MAX -> is_dec c = false ->
  ak_json_extract_u64 (Some (123 :: QUOTE :: key ++ QUOTE :: 58 :: ak_u64_to_dec v ++ c :: rest)) key = Ret v /\
  (length (ak_u64_to_dec v) < 21)%nat /\
  forall v', 0 <= v' <= UINT64_MAX -> ak_u64_to_dec v' = ak_u64_to_dec v -> v' = v.
Proof.
  intros Hv Hc. destruct (u64_to_dec_spec v Hv) as (Hds & Hval & Hne).
  split; [|split].
  2:{ unfold ak_u64_to_dec. destruct (v =? 0); [cbn; lia|]. pose proof (length_dec_digits 20 v []). cbn in *. lia. }
  2:{ intros v' Hv' E. destruct (u64_to_dec_spec v' Hv') as (_ & Hval' & _). congruence. }
  set (ds := ak_u64_to_dec v) in *. clearbody ds.
  assert (Hlen : (0 < length ds)%nat) by (destruct ds; [done|cbn; lia]).
  set (data := 123 :: QUOTE :: key ++ QUOTE :: 58 :: ds ++ c :: rest).
  assert (Hl : Z.of_nat (length data) = Z.of_nat (length key) + Z.of_nat (length ds) + 5 + Z.of_nat (length rest)).
  { subst data. cbn [length]. rewrite length_app. cbn [length]. rewrite length_app. cbn [length]. lia. }
  unfold ak_json_extract_u64.
  assert (Hfk : find_key (length data) data key 0 = Ret (Some 1)).
  { assert (Hk0 : key_at data key 0 = Ret false) by done.
    assert (Hk1 : key_at data key 1 = Ret true).
    { unfold key_at, data. rewrite rd_skip1 by lia. change (rd (QUOTE :: _) (1 - 1)) with (Ret QUOTE). cbn [obind].
      rewrite Z.eqb_refl. rewrite !rdn_skip1 by lia. rewrite rdn_here by done. cbn [obind].
      rewrite bytes_eqb_refl. rewrite !rd_skip1 by lia. rewrite rd_app by lia. done. }
    destruct (length data) as [|[|n]] eqn:En; [lia|lia|]. cbn [find_key]. rewrite !En.
    destruct (Z.ltb_spec (0 + Z.of_nat (length key) + 4) (Z.of_nat (S (S n)))); [|lia]. cbn [negb].
    rewrite Hk0. cbn [obind].
    destruct (Z.ltb_spec (0 + 1 + Z.of_nat (length key) + 4) (Z.of_nat (S (S n)))); [|lia]. cbn [negb].
    change (0 + 1) with 1. rewrite Hk1. done. }
  rewrite Hfk. cbn [obind].
  set (hd := 123 :: QUOTE :: key ++ [QUOTE; 58]).
  assert (Hdata : data = hd ++ ds ++ c :: rest)
    by (subst data hd; cbn [app]; do 2 f_equal; by rewrite <-app_assoc).
  assert (Hhd : Z.of_nat (length hd) = Z.of_nat (length key) + 4) by (subst hd; cbn [length]; rewrite length_app; cbn; lia).
  assert (Hskip : skip_sep (length data) data (1 + 1 + Z.of_nat (length key) + 1) = Ret (Z.of_nat (length hd))).
  { destruct (length data) as [|[|n]] eqn:En; [lia|lia|]. cbn [skip_sep]. rewrite !En.
    destruct (Z.ltb_spec (1 + 1 + Z.of_nat (length key) + 1) (Z.of_nat (S (S n)))); [|lia]. cbn [negb].
    assert (rd data (1 + 1 + Z.of_nat (length key) + 1) = Ret 58) as ->.
    { unfold data. rewrite !rd_skip1 by lia. rewrite (rd_skip (length key)) by (done || lia).
      rewrite rd_skip1 by lia.
      replace (1 + 1 + Z.of_nat (length key) + 1 - 1 - 1 - Z.of_nat (length key) - 1) with 0 by lia. done. }
    cbn [obind]. change (is_sep 58) with true. cbn iota.
    replace (1 + 1 + Z.of_nat (length key) + 1 + 1) with (Z.of_nat (length hd)) by lia.
    destruct (Z.ltb_spec (Z.of_nat (length hd)) (Z.of_nat (S (S n)))); [|lia]. cbn [negb].
    rewrite Hdata. destruct ds as [|d ds']; [done|]. rewrite <-app_comm_cons, rd_app by done. cbn [obind].
    inversion Hds as [|? ? Hd _]; subst. unfold is_dec in Hd. bprop. unfold is_sep.
    destruct (Z.eqb_spec d 58), (Z.eqb_spec d 32), (Z.eqb_spec d 9); try lia. done. }
  rewrite Hskip. cbn [obind]. destruct (Z.leb_spec (Z.of_nat (length data)) (Z.of_nat (length hd))); [lia|].
  assert (Hf : (length ds < length data)%nat) by lia.
  rewrite Hdata at 2. rewrite scan_u64_value; [|done|done|lia|lia|unfold UINT64_MAX; lia].
  rewrite Hval, Z.min_r by lia. done.
Qed.

Lemma ptr_round_trip_witness :
  ak_json_extract_u64 (Some (123 :: QUOTE :: B"ptr" ++ QUOTE :: 58 :: ak_u64_to_dec 4242 ++ [125])) B"ptr" = Ret 4242.
Proof.
  apply (ptr_round_trip B"ptr" 4242 125 []).
  - unfold UINT64_MAX. lia.
  - reflexivity.
Defined.
