(* ===== verification/Policy.v ===== *)
(** * Policy rules and their evaluation ([src/src/agentic/ak_policy.c])

    The rule lists of a policy, their insertion, the tool, domain and URL
    checks, the taint-flow rules and [ak_policy_evaluate], which a request
    must pass before it is executed.  The linked lists are lists in link
    order; a string field is an object ([cstr] is its text) and [None] a NULL
    pointer; allocation outcomes are boolean arguments. *)

From S2P Require Import Prelude Pattern Budget Json.

Definition AK_E_TAINT : Z := -4203.
Definition AK_E_POLICY_DENIED : Z := -4502.

Definition AK_TAINT_TRUSTED : Z := 0.
Definition AK_TAINT_SANITIZED_URL : Z := 10.
Definition AK_TAINT_SANITIZED_HTML : Z := 14.
Definition AK_TAINT_UNTRUSTED : Z := 100.

Definition AK_SYS_READ : Z := 1024.
Definition AK_SYS_ALLOC : Z := 1025.
Definition AK_SYS_WRITE : Z := 1026.
Definition AK_SYS_DELETE : Z := 1027.
Definition AK_SYS_QUERY : Z := 1028.
Definition AK_SYS_BATCH : Z := 1029.
Definition AK_SYS_COMMIT : Z := 1030.
Definition AK_SYS_CALL : Z := 1031.
Definition AK_SYS_SPAWN : Z := 1032.
Definition AK_SYS_SEND : Z := 1033.
Definition AK_SYS_RECV : Z := 1034.
Definition AK_SYS_RESPOND : Z := 1035.
Definition AK_SYS_ASSERT : Z := 1036.
Definition AK_SYS_INFERENCE : Z := 1037.
Definition AK_SYS_BUDGET_STATUS : Z := 1038.
Definition AK_SYS_BUDGET_HISTORY : Z := 1039.
Definition AK_SYS_BUDGET_BREAKDOWN : Z := 1040.
Definition AK_SYS_INFER_ISSUE : Z := 1041.
Definition AK_SYS_INFER_POLL : Z := 1042.

(** ** Data *)

Record ak_tool_rule := mk_tool_rule { tr_name : option bytes; tr_allow : bool }.
Record ak_domain_rule := mk_domain_rule { dr_pattern : option bytes; dr_allow : bool }.

Inductive taint_rule_type := AK_TAINT_RULE_SOURCE | AK_TAINT_RULE_SINK | AK_TAINT_RULE_SANITIZER.
#[global] Instance taint_rule_type_eq_dec : EqDecision taint_rule_type.
Proof. solve_decision. Defined.
Record ak_taint_rule := mk_taint_rule { ta_name : option bytes; ta_type : taint_rule_type }.

(** One node of the version chain. *)
Record ak_policy_version := mk_version {
  version_number : Z; activated_ms : Z; ver_hash : bytes; rules_json : option bytes
}.

(** [current_version] and its [prev] links are the list [versions], current
    version first. *)
Record ak_policy := mk_policy {
  version : bytes;
  signature : bytes;
  policy_hash : bytes;
  signature_verified : bool;
  created_ms : Z;
  expires_ms : Z;
  budgets : ak_budget_limits;
  tool_rules : list ak_tool_rule;
  domain_rules : list ak_domain_rule;
  taint_rules : list ak_taint_rule;
  default_tool_allow : bool;
  default_domain_allow : bool;
  versions : list ak_policy_version;
  version_count : Z
}.

Definition set_tool_rules (l : list ak_tool_rule) (p : ak_policy) : ak_policy :=
  mk_policy (version p) (signature p) (policy_hash p) (signature_verified p) (created_ms p)
    (expires_ms p) (budgets p) l (domain_rules p) (taint_rules p) (default_tool_allow p)
    (default_domain_allow p) (versions p) (version_count p).
Definition set_domain_rules (l : list ak_domain_rule) (p : ak_policy) : ak_policy :=
  mk_policy (version p) (signature p) (policy_hash p) (signature_verified p) (created_ms p)
    (expires_ms p) (budgets p) (tool_rules p) l (taint_rules p) (default_tool_allow p)
    (default_domain_allow p) (versions p) (version_count p).
Definition set_taint_rules (l : list ak_taint_rule) (p : ak_policy) : ak_policy :=
  mk_policy (version p) (signature p) (policy_hash p) (signature_verified p) (created_ms p)
    (expires_ms p) (budgets p) (tool_rules p) (domain_rules p) l (default_tool_allow p)
    (default_domain_allow p) (versions p) (version_count p).

(** ** Rule insertion *)

(** [policy_strdup]: the copy stops at the first NUL. *)
Definition policy_strdup (alloc : bool) (s : bytes) : option bytes :=
  if alloc then Some (cstr s) else None.

(** A deny rule, or the first rule, is linked in front; an allow rule is
    linked after the last one. *)
Definition link_rule {R} (allow : bool) (rule : R) (rules : list R) : list R :=
  match rules with
  | [] => [rule]
  | _ => if negb allow then rule :: rules else rules ++ [rule]
  end.

(** The outcomes of the two allocations of an insertion. *)
Record rule_allocs := mk_allocs { ra_rule : bool; ra_name : bool }.

(** [None] is the result [false], with the policy unchanged. *)
Definition policy_add_tool_rule (al : rule_allocs) (p : ak_policy) (name : bytes) (allow : Z)
    : option ak_policy :=
  if negb (ra_rule al) then None
  else match policy_strdup (ra_name al) name with
       | None => None
       | Some n =>
           let allow := negb (allow =? 0) in
           Some (set_tool_rules (link_rule allow (mk_tool_rule (Some n) allow) (tool_rules p)) p)
       end.

Definition policy_add_domain_rule (al : rule_allocs) (p : ak_policy) (pattern : bytes) (allow : Z)
    : option ak_policy :=
  if negb (ra_rule al) then None
  else match policy_strdup (ra_name al) pattern with
       | None => None
       | Some n =>
           let allow := negb (allow =? 0) in
           Some (set_domain_rules (link_rule allow (mk_domain_rule (Some n) allow) (domain_rules p)) p)
       end.

Definition policy_add_taint_rule (al : rule_allocs) (p : ak_policy) (name : bytes) (type : taint_rule_type)
    : option ak_policy :=
  if negb (ra_rule al) then None
  else match policy_strdup (ra_name al) name with
       | None => None
       | Some n => Some (set_taint_rules (mk_taint_rule (Some n) type :: taint_rules p) p)
       end.

(** ** Checks *)

(** [ak_strcmp (a, b) == 0]. *)
Definition ak_streq (a b : bytes) : bool := bytes_eqb (cstr a) (cstr b).

Definition tool_matches (rule : ak_tool_rule) (tool_name : bytes) : bool :=
  match tr_name rule with
  | None => false
  | Some n => ak_streq n tool_name || ak_pattern_match n tool_name
  end.

Fixpoint check_tool_rules (rules : list ak_tool_rule) (tool_name : bytes) (default : bool) : bool :=
  match rules with
  | [] => default
  | rule :: next => if tool_matches rule tool_name then tr_allow rule
                    else check_tool_rules next tool_name default
  end.

Definition ak_policy_check_tool (policy : option ak_policy) (tool_name : option bytes) : bool :=
  match policy, tool_name with
  | Some p, Some t => check_tool_rules (tool_rules p) t (default_tool_allow p)
  | _, _ => false
  end.

(** [None] is NULL, with [*count_out] 0; the names are in link order. *)
Definition ak_policy_list_allowed_tools (policy : option ak_policy) (alloc : bool)
    : option (list (option bytes)) :=
  match policy with
  | None => None
  | Some p =>
      let allowed := filter (fun r => tr_allow r = true) (tool_rules p) in
      if (length allowed =? 0)%nat then None
      else if alloc then Some (tr_name <$> allowed) else None
  end.

Definition domain_matches (rule : ak_domain_rule) (domain : bytes) : bool :=
  match dr_pattern rule with
  | None => false
  | Some n => ak_pattern_match n domain
  end.

Fixpoint check_domain_rules (rules : list ak_domain_rule) (domain : bytes) (default : bool) : bool :=
  match rules with
  | [] => default
  | rule :: next => if domain_matches rule domain then dr_allow rule
                    else check_domain_rules next domain default
  end.

Definition ak_policy_check_domain (policy : option ak_policy) (domain : option bytes) : bool :=
  match policy, domain with
  | Some p, Some d => check_domain_rules (domain_rules p) d (default_domain_allow p)
  | _, _ => false
  end.

(** [runtime_strncmp (s, lit, strlen (lit)) == 0]. *)
Definition has_prefix (lit s : bytes) : bool := bytes_eqb (take (length lit) s) lit.

(** [while ( *end && *end != '/' && *end != ':')]: the host is what it skips. *)
Fixpoint url_host (s : bytes) : bytes :=
  match s with
  | [] => []
  | c :: s' => if (c =? 0) || (c =? 47) || (c =? 58) then [] else c :: url_host s'
  end.

Definition ak_policy_check_url (policy : option ak_policy) (url : option bytes) : bool :=
  match policy, url with
  | Some p, Some url =>
      let url := cstr url in
      let start := if has_prefix B"http://" url then drop 7 url
                   else if has_prefix B"https://" url then drop 8 url else url in
      let domain := url_host start in
      let len := Z.of_nat (length domain) in
      if (len =? 0) || (256 <? len) then false
      else ak_policy_check_domain policy (Some domain)
  | _, _ => false
  end.

(** The three list searches differ by the rule type only. *)
Fixpoint find_taint_rule (rules : list ak_taint_rule) (type : taint_rule_type) (name : bytes) : bool :=
  match rules with
  | [] => false
  | rule :: next =>
      if bool_decide (ta_type rule = type) &&
         match ta_name rule with Some n => ak_streq n name | None => false end
      then true else find_taint_rule next type name
  end.

Definition ak_policy_is_source (policy : option ak_policy) (name : option bytes) : bool :=
  match policy, name with
  | Some p, Some n => find_taint_rule (taint_rules p) AK_TAINT_RULE_SOURCE n
  | _, _ => false
  end.
Definition ak_policy_is_sink (policy : option ak_policy) (name : option bytes) : bool :=
  match policy, name with
  | Some p, Some n => find_taint_rule (taint_rules p) AK_TAINT_RULE_SINK n
  | _, _ => false
  end.
Definition ak_policy_is_sanitizer (policy : option ak_policy) (name : option bytes) : bool :=
  match policy, name with
  | Some p, Some n => find_taint_rule (taint_rules p) AK_TAINT_RULE_SANITIZER n
  | _, _ => false
  end.

Definition ak_policy_check_flow (policy : option ak_policy) (source_taint : Z)
    (sink_name : option bytes) (sanitized : bool) : bool :=
  match policy with
  | None => false
  | Some _ =>
      if source_taint =? AK_TAINT_TRUSTED then true
      else if negb (ak_policy_is_sink policy sink_name) then true
      else if (source_taint =? AK_TAINT_UNTRUSTED) && negb sanitized then false
      else if sanitized then true
      else false
  end.

Definition ak_policy_expired (policy : option ak_policy) (now_ms : Z) : bool :=
  match policy with
  | None => true
  | Some p => if expires_ms p =? 0 then false else expires_ms p <? now_ms
  end.

(** ** Request evaluation *)

(** The fields of [ak_request_t] the policy reads. *)
Record policy_request := mk_preq { pr_op : Z; pr_args : option bytes; pr_taint : Z }.

Definition op_cost (op : Z) : nat * Z :=
  if (op =? AK_SYS_INFERENCE) || (op =? AK_SYS_INFER_ISSUE) then (rt AK_RESOURCE_TOKENS, 1000)
  else if op =? AK_SYS_CALL then (rt AK_RESOURCE_CALLS, 1)
  else if op =? AK_SYS_ALLOC then (rt AK_RESOURCE_HEAP_OBJECTS, 1)
  else (rt AK_RESOURCE_CALLS, 0).

(** A field that was found and is not empty ([json_get_string_field (..) > 0]). *)
Definition nonempty_field (json : option bytes) (key : bytes) (out_len : Z) : option bytes :=
  match json_get_string_field json key out_len with
  | Ret (Some v) => if (length v =? 0)%nat then None else Some v
  | _ => None
  end.

Definition evaluate_budget (budget : option ak_budget_tracker) (op : Z) : bool :=
  match budget with
  | None => true
  | Some _ => let '(resource, cost) := op_cost op in
              negb ((0 <? cost) && negb (ak_budget_check budget resource cost))
  end.

Definition evaluate_target (policy : option ak_policy) (args : option bytes) : bool :=
  match nonempty_field args B"url" 257 with
  | Some url => ak_policy_check_url policy (Some url)
  | None =>
      match nonempty_field args B"domain" 257 with
      | Some domain => ak_policy_check_domain policy (Some domain)
      | None => true
      end
  end.

Definition ak_policy_evaluate (policy : option ak_policy) (budget : option ak_budget_tracker)
    (req : option policy_request) : Z :=
  match policy, req with
  | Some p, Some req =>
      if negb (evaluate_budget budget (pr_op req)) then AK_E_BUDGET_EXCEEDED
      else
        let sanitized := (AK_TAINT_TRUSTED <? pr_taint req) && (pr_taint req <? AK_TAINT_UNTRUSTED) in
        let call :=
          if pr_op req =? AK_SYS_CALL then
            match nonempty_field (pr_args req) B"tool" 64 with
            | None => AK_E_POLICY_DENIED
            | Some tool_name =>
                if negb (ak_policy_check_tool policy (Some tool_name)) then AK_E_POLICY_DENIED
                else if negb (evaluate_target policy (pr_args req)) then AK_E_POLICY_DENIED
                else if negb (ak_policy_check_flow policy (pr_taint req) (Some tool_name) sanitized)
                then AK_E_TAINT
                else 0
            end
          else 0 in
        if negb (call =? 0) then call
        else if (pr_op req =? AK_SYS_INFERENCE) &&
                negb (ak_policy_check_flow policy (pr_taint req) (Some B"inference") sanitized)
        then AK_E_TAINT
        else if (pr_op req =? AK_SYS_RESPOND) &&
                negb (ak_policy_check_flow policy (pr_taint req) (Some B"respond") sanitized)
        then AK_E_TAINT
        else 0
  | _, _ => - EINVAL
  end.

(** ** First match over an ordered rule list *)

Lemma link_rule_elem {R} b (r : R) (rules : list R) x : x ∈ link_rule b r rules <-> x = r \/ x ∈ rules.
Proof. unfold link_rule. destruct rules as [|y l]; [|destruct b; cbn [negb]].
  - apply elem_of_cons.
  - rewrite elem_of_app, list_elem_of_singleton. tauto.
  - apply elem_of_cons.
Qed.

Section FirstMatch.
Context {R : Type} (m : R -> bool) (allow : R -> bool).

(** Every deny rule is in front of every allow rule. *)
Definition denies_first (rules : list R) : Prop :=
  exists D A, rules = D ++ A /\ Forall (fun r => allow r = false) D /\ Forall (fun r => allow r = true) A.

Lemma link_rule_ordered r rules :
  denies_first rules -> denies_first (link_rule (allow r) r rules).
Proof.
  intros (D & A & -> & HD & HA). unfold link_rule.
  destruct (allow r) eqn:Er; cbn [negb].
  - destruct (D ++ A) eqn:E; [exists [], [r]|exists D, (A ++ [r])].
    + split; [done|]. split; [constructor|]. by repeat constructor.
    + rewrite <-E, <-app_assoc. split; [done|]. split; [done|]. apply Forall_app. by repeat constructor.
  - exists (r :: D), A. split; [by destruct (D ++ A) eqn:E; rewrite <-?app_comm_cons, ?E|].
    split; [by constructor|done].
Qed.

Fixpoint first_match (rules : list R) (default : bool) : bool :=
  match rules with
  | [] => default
  | r :: next => if m r then allow r else first_match next default
  end.

Lemma first_match_allows A d :
  Forall (fun r => allow r = true) A -> first_match A d = true <-> (exists r, r ∈ A /\ m r = true) \/ d = true.
Proof.
  induction 1 as [|r A Hr HA IH]; cbn [first_match].
  - split; [by right|]. intros [(r & Hr & _)|]; [by apply elem_of_nil in Hr|done].
  - destruct (m r) eqn:Em; [rewrite Hr|rewrite IH].
    + split; [|done]. intros _. left. exists r. split; [left|done].
    + split; (intros [(x & Hx & Hm)|]; [left; exists x|by right]); (split; [|done]); [by right|].
      apply elem_of_cons in Hx as [->|]; [congruence|done].
Qed.

Lemma first_match_denies_first rules d :
  denies_first rules ->
  first_match rules d = true <->
  (forall r, r ∈ rules -> m r = true -> allow r = true) /\ ((exists r, r ∈ rules /\ m r = true) \/ d = true).
Proof.
  intros (D & A & -> & HD & HA). rewrite list.Forall_forall in HA.
  induction HD as [|r D Hr HD IH]; cbn [app first_match].
  - rewrite first_match_allows by (by apply list.Forall_forall). naive_solver.
  - destruct (m r) eqn:Em.
    + rewrite Hr. split; [done|]. intros [Hall _]. specialize (Hall r ltac:(left) Em). congruence.
    + rewrite IH. split; intros [Hall Hex]; (split; [intros x Hx|]).
      * apply elem_of_cons in Hx as [->|Hx]; [congruence|by apply Hall].
      * destruct Hex as [(x & Hx & Hm)|]; [left; exists x; split; [by right|done]|by right].
      * apply Hall. by right.
      * destruct Hex as [(x & Hx & Hm)|]; [|by right]. apply elem_of_cons in Hx as [->|]; [congruence|eauto].
Qed.
End FirstMatch.

Lemma check_tool_rules_first_match rules t d :
  check_tool_rules rules t d = first_match (fun r => tool_matches r t) tr_allow rules d.
Proof. induction rules as [|r l IH]; cbn; [done|]. by rewrite IH. Qed.

Lemma check_domain_rules_first_match rules t d :
  check_domain_rules rules t d = first_match (fun r => domain_matches r t) dr_allow rules d.
Proof. induction rules as [|r l IH]; cbn; [done|]. by rewrite IH. Qed.

Lemma Glob_refl s : Glob s s.
Proof.
  induction s as [|c s IH]; [constructor|]. destruct (decide (c = STAR)) as [->|]; auto with ak.
Qed.

(** A NUL-terminated copy is its own text. *)
Lemma cstr_idem s : cstr (cstr s) = cstr s.
Proof. apply cstr_nonul_id, cstr_nonul. Qed.

(** The test "equal, else glob" is the glob test. *)
Lemma tool_matchesP n a t : tool_matches (mk_tool_rule (Some (cstr n)) a) t = true <-> Glob (cstr n) (cstr t).
Proof.
  unfold tool_matches, ak_streq. cbn [tr_name]. rewrite orb_true_iff, bytes_eqb_eq, ak_pattern_matchP, !cstr_idem.
  split; [intros [->|?]; auto using Glob_refl|tauto].
Qed.

Lemma domain_matchesP n a t : domain_matches (mk_domain_rule (Some (cstr n)) a) t = true <-> Glob (cstr n) (cstr t).
Proof. unfold domain_matches. cbn [dr_pattern]. by rewrite ak_pattern_matchP, cstr_idem. Qed.

(** ** Policies built by rule insertions *)

Inductive rule_op :=
| AddTool (name : bytes) (allow : Z)
| AddDomain (pattern : bytes) (allow : Z)
| AddTaint (name : bytes) (type : taint_rule_type).
#[global] Instance rule_op_eq_dec : EqDecision rule_op.
Proof. solve_decision. Defined.

Definition apply_rule_op (p : ak_policy) (o : rule_allocs * rule_op) : option ak_policy :=
  match o.2 with
  | AddTool n a => policy_add_tool_rule o.1 p n a
  | AddDomain n a => policy_add_domain_rule o.1 p n a
  | AddTaint n ty => policy_add_taint_rule o.1 p n ty
  end.

(** A load that fails on one insertion fails as a whole. *)
Fixpoint run_rule_ops (p : ak_policy) (ops : list (rule_allocs * rule_op)) : option ak_policy :=
  match ops with
  | [] => Some p
  | o :: ops' => match apply_rule_op p o with None => None | Some p' => run_rule_ops p' ops' end
  end.

Definition no_rules (p : ak_policy) : Prop := tool_rules p = [] /\ domain_rules p = [] /\ taint_rules p = [].

(** What the lists hold after the insertions [done] (in any order). *)
Record built (done : list rule_op) (p0 p : ak_policy) : Prop := {
  bt_tool_order : denies_first tr_allow (tool_rules p);
  bt_dom_order : denies_first dr_allow (domain_rules p);
  bt_tools : forall r, r ∈ tool_rules p <->
    exists n a, AddTool n a ∈ done /\ r = mk_tool_rule (Some (cstr n)) (negb (a =? 0));
  bt_doms : forall r, r ∈ domain_rules p <->
    exists n a, AddDomain n a ∈ done /\ r = mk_domain_rule (Some (cstr n)) (negb (a =? 0));
  bt_taints : forall r, r ∈ taint_rules p <->
    exists n ty, AddTaint n ty ∈ done /\ r = mk_taint_rule (Some (cstr n)) ty;
  bt_tool_default : default_tool_allow p = default_tool_allow p0;
  bt_dom_default : default_domain_allow p = default_domain_allow p0
}.

Lemma built_empty p0 : no_rules p0 -> built [] p0 p0.
Proof.
  intros (H1 & H2 & H3). split; rewrite ?H1, ?H2, ?H3; try done; try set_solver; exists [], []; by repeat constructor.
Qed.

(** Membership after one more insertion, of this kind and of another one. *)
Lemma ex2_snoc_new {X Y R} (f : X -> Y -> rule_op) (g : X -> Y -> R) done x y r :
  (forall x' y', f x' y' = f x y -> x' = x /\ y' = y) ->
  r = g x y \/ (exists x' y', f x' y' ∈ done /\ r = g x' y') <->
  exists x' y', f x' y' ∈ done ++ [f x y] /\ r = g x' y'.
Proof.
  intros Hinj. split.
  - intros [->|(x' & y' & Hin & ->)]; eexists _, _; (split; [|done]); apply elem_of_app; [right; left|by left].
  - intros (x' & y' & [Hin|Hin%list_elem_of_singleton]%elem_of_app & ->); [right; eauto|left].
    by destruct (Hinj _ _ Hin) as [-> ->].
Qed.

Lemma ex2_snoc_old {X Y R} (f : X -> Y -> rule_op) (g : X -> Y -> R) done o r :
  (forall x' y', f x' y' <> o) ->
  (exists x' y', f x' y' ∈ done /\ r = g x' y') <->
  exists x' y', f x' y' ∈ done ++ [o] /\ r = g x' y'.
Proof.
  intros Hne. split; intros (x' & y' & Hin & ->); exists x', y'; (split; [|done]).
  - apply elem_of_app. by left.
  - apply elem_of_app in Hin as [|Hin%list_elem_of_singleton]; [done|by apply Hne in Hin].
Qed.

Lemma apply_rule_op_built done p0 p o p' :
  built done p0 p -> apply_rule_op p o = Some p' -> built (done ++ [o.2]) p0 p'.
Proof.
  intros [] Ho. destruct o as [[ar an] [n a|n a|n ty]]; cbn in Ho |- *;
    unfold policy_add_tool_rule, policy_add_domain_rule, policy_add_taint_rule, policy_strdup in Ho;
    cbn [ra_rule ra_name] in Ho; destruct ar, an; cbn [negb] in Ho; try done; injection Ho as <-;
    split; cbn [set_tool_rules set_domain_rules set_taint_rules tool_rules domain_rules taint_rules
                default_tool_allow default_domain_allow]; try done.
  all: try by apply (link_rule_ordered tr_allow (mk_tool_rule (Some (cstr n)) (negb (a =? 0)))).
  all: try by apply (link_rule_ordered dr_allow (mk_domain_rule (Some (cstr n)) (negb (a =? 0)))).
  all: intros r; rewrite ?link_rule_elem, ?elem_of_cons, ?bt_tools0, ?bt_doms0, ?bt_taints0;
    first
      [ apply (ex2_snoc_new AddTool (fun n a => mk_tool_rule (Some (cstr n)) (negb (a =? 0))))
      | apply (ex2_snoc_old AddTool (fun n a => mk_tool_rule (Some (cstr n)) (negb (a =? 0))))
      | apply (ex2_snoc_new AddDomain (fun n a => mk_domain_rule (Some (cstr n)) (negb (a =? 0))))
      | apply (ex2_snoc_old AddDomain (fun n a => mk_domain_rule (Some (cstr n)) (negb (a =? 0))))
      | apply (ex2_snoc_new AddTaint (fun n ty => mk_taint_rule (Some (cstr n)) ty))
      | apply (ex2_snoc_old AddTaint (fun n ty => mk_taint_rule (Some (cstr n)) ty)) ];
    try done; intros ? ? [= -> ->]; done.
Qed.

Lemma run_rule_ops_built done p0 p ops p' :
  built done p0 p -> run_rule_ops p ops = Some p' -> built (done ++ ops.*2) p0 p'.
Proof.
  revert done p. induction ops as [|o ops IH]; intros done p Hb Hr; cbn in Hr |- *.
  - injection Hr as <-. by rewrite app_nil_r.
  - destruct (apply_rule_op p o) as [p1|] eqn:E; [|done].
    replace (done ++ o.2 :: ops.*2) with ((done ++ [o.2]) ++ ops.*2) by (by rewrite <-app_assoc).
    eapply IH; [|exact Hr]. by eapply apply_rule_op_built.
Qed.

Lemma built_check_tool ops p0 p t :
  built ops p0 p ->
  ak_policy_check_tool (Some p) (Some t) = true <->
  (forall n a, AddTool n a ∈ ops -> Glob (cstr n) (cstr t) -> a <> 0) /\
  ((exists n a, AddTool n a ∈ ops /\ Glob (cstr n) (cstr t)) \/ default_tool_allow p0 = true).
Proof.
  intros []. unfold ak_policy_check_tool.
  rewrite check_tool_rules_first_match, first_match_denies_first, bt_tool_default0 by done.
  setoid_rewrite bt_tools0. split; intros [Hd Ha]; split.
  - intros n a Hin Hg ->. specialize (Hd _ ltac:(eauto) (proj2 (tool_matchesP n _ t) Hg)). done.
  - destruct Ha as [(r & (n & a & Hin & ->) & Hm%tool_matchesP)|]; eauto.
  - intros r (n & a & Hin & ->) Hm%tool_matchesP. specialize (Hd _ _ Hin Hm). cbn. by zsplit.
  - destruct Ha as [(n & a & Hin & Hm)|]; [left|by right].
    eexists. split; [eauto|]. by apply tool_matchesP.
Qed.

Lemma built_check_domain ops p0 p t :
  built ops p0 p ->
  ak_policy_check_domain (Some p) (Some t) = true <->
  (forall n a, AddDomain n a ∈ ops -> Glob (cstr n) (cstr t) -> a <> 0) /\
  ((exists n a, AddDomain n a ∈ ops /\ Glob (cstr n) (cstr t)) \/ default_domain_allow p0 = true).
Proof.
  intros []. unfold ak_policy_check_domain.
  rewrite check_domain_rules_first_match, first_match_denies_first, bt_dom_default0 by done.
  setoid_rewrite bt_doms0. split; intros [Hd Ha]; split.
  - intros n a Hin Hg ->. specialize (Hd _ ltac:(eauto) (proj2 (domain_matchesP n _ t) Hg)). done.
  - destruct Ha as [(r & (n & a & Hin & ->) & Hm%domain_matchesP)|]; eauto.
  - intros r (n & a & Hin & ->) Hm%domain_matchesP. specialize (Hd _ _ Hin Hm). cbn. by zsplit.
  - destruct Ha as [(n & a & Hin & Hm)|]; [left|by right].
    eexists. split; [eauto|]. by apply domain_matchesP.
Qed.

(** deny always wins.  Whatever the order in which the rules of a document
    are inserted, a tool (a domain) is allowed exactly when no deny rule's
    pattern matches it and some allow rule's pattern does or the default is to
    allow. *)
Theorem deny_always_wins p0 ops p :
  no_rules p0 -> run_rule_ops p0 ops = Some p ->
  (forall t, ak_policy_check_tool (Some p) (Some t) = true <->
    (forall n a, AddTool n a ∈ ops.*2 -> Glob (cstr n) (cstr t) -> a <> 0) /\
    ((exists n a, AddTool n a ∈ ops.*2 /\ Glob (cstr n) (cstr t)) \/ default_tool_allow p0 = true)) /\
  (forall d, ak_policy_check_domain (Some p) (Some d) = true <->
    (forall n a, AddDomain n a ∈ ops.*2 -> Glob (cstr n) (cstr d) -> a <> 0) /\
    ((exists n a, AddDomain n a ∈ ops.*2 /\ Glob (cstr n) (cstr d)) \/ default_domain_allow p0 = true)).
Proof.
  intros Hp Hr. pose proof (run_rule_ops_built [] p0 p0 ops p (built_empty p0 Hp) Hr) as Hb.
  split; intros t; [by apply built_check_tool|by apply built_check_domain].
Qed.

(** ** Taint rules and request evaluation *)

Lemma find_taint_ruleP rules ty name :
  find_taint_rule rules ty name = true <->
  exists r n, r ∈ rules /\ ta_type r = ty /\ ta_name r = Some n /\ cstr n = cstr name.
Proof.
  induction rules as [|r rules IH]; cbn [find_taint_rule].
  - split; [done|]. intros (r & n & Hr & _). by apply elem_of_nil in Hr.
  - destruct (_ && _) eqn:E.
    + apply andb_true_iff in E as [Ht%bool_decide_eq_true Hn]. split; [intros _|done].
      destruct (ta_name r) as [n|] eqn:En; [|done]. apply bytes_eqb_eq in Hn.
      exists r, n. split; [left|done].
    + rewrite IH. split; intros (x & n & Hx & Ht & Hn & Hc).
      * exists x, n. split; [by right|done].
      * apply elem_of_cons in Hx as [->|Hx]; [|eauto 6]. exfalso.
        rewrite (bool_decide_eq_true_2 _ Ht), Hn in E. cbn [andb] in E.
        unfold ak_streq in E. rewrite (proj2 (bytes_eqb_eq _ _) Hc) in E. done.
Qed.

(** Data that is neither trusted nor sanitized. *)
Definition tainted (taint : Z) : Prop :=
  taint <> AK_TAINT_TRUSTED /\ ~ (AK_TAINT_TRUSTED < taint < AK_TAINT_UNTRUSTED).
Definition sanitized_level (taint : Z) : bool := (AK_TAINT_TRUSTED <? taint) && (taint <? AK_TAINT_UNTRUSTED).

Lemma built_is_sink ops p0 p sink :
  built ops p0 p ->
  ak_policy_is_sink (Some p) (Some sink) = true <->
  exists n, AddTaint n AK_TAINT_RULE_SINK ∈ ops /\ cstr n = cstr sink.
Proof.
  intros []. unfold ak_policy_is_sink. rewrite find_taint_ruleP. setoid_rewrite bt_taints0. split.
  - intros (r & n & (n' & ty & Hin & ->) & Ht & [= <-] & Hc). cbn in Ht. subst ty.
    exists n'. split; [done|]. by rewrite <-Hc, cstr_idem.
  - intros (n & Hin & Hc). eexists _, _. split; [eauto|]. cbn. split; [done|]. split; [done|]. by rewrite cstr_idem.
Qed.

(** The flow check blocks exactly the tainted flows into a declared sink. *)
Lemma built_check_flow ops p0 p taint sink :
  built ops p0 p ->
  ak_policy_check_flow (Some p) taint (Some sink) (sanitized_level taint) = true <->
  (tainted taint -> forall n, AddTaint n AK_TAINT_RULE_SINK ∈ ops -> cstr n <> cstr sink).
Proof.
  intros Hb. unfold ak_policy_check_flow, sanitized_level, tainted.
  destruct (Z.eqb_spec taint AK_TAINT_TRUSTED) as [|Hne]; [naive_solver|].
  pose proof (built_is_sink ops p0 p sink Hb) as Hsink.
  destruct (ak_policy_is_sink _ _); cbn [negb].
  - destruct (proj1 Hsink eq_refl) as (n & Hin & Hc).
    unfold AK_TAINT_TRUSTED, AK_TAINT_UNTRUSTED in *.
    destruct (Z.ltb_spec 0 taint), (Z.ltb_spec taint 100), (Z.eqb_spec taint 100); cbn [andb negb];
      try lia; (split; [try done; try (intros; lia)|]); try done; intros Hn; exfalso; (eapply Hn; [lia|exact Hin|done]).
  - split; [|done]. intros _ _ n Hin Hc. assert (false = true) by (apply Hsink; eauto). done.
Qed.

Definition tool_permitted (p0 : ak_policy) (ops : list rule_op) (tool : bytes) : Prop :=
  (forall n a, AddTool n a ∈ ops -> Glob (cstr n) (cstr tool) -> a <> 0) /\
  ((exists n a, AddTool n a ∈ ops /\ Glob (cstr n) (cstr tool)) \/ default_tool_allow p0 = true).

Definition flow_permitted (ops : list rule_op) (taint : Z) (sink : bytes) : Prop :=
  tainted taint -> forall n, AddTaint n AK_TAINT_RULE_SINK ∈ ops -> cstr n <> cstr sink.

(** what the policy admits.  A request passes the evaluation exactly when
    its cost fits the budget and, for a tool call, the call names a tool that
    an allow rule matches and no deny rule matches, its URL or domain is
    allowed, and no tainted data would reach the tool when a rule declares it
    a sink; inference and respond requests are subject to the flow rules of
    those sinks. *)
Theorem evaluate_correct p0 ops p b req :
  no_rules p0 -> run_rule_ops p0 ops = Some p ->
  ak_policy_evaluate (Some p) b (Some req) = 0 <->
  evaluate_budget b (pr_op req) = true /\
  (pr_op req = AK_SYS_CALL ->
     exists tool, nonempty_field (pr_args req) B"tool" 64 = Some tool /\
       tool_permitted p0 (ops.*2) tool /\ evaluate_target (Some p) (pr_args req) = true /\
       flow_permitted (ops.*2) (pr_taint req) tool) /\
  (pr_op req = AK_SYS_INFERENCE -> flow_permitted (ops.*2) (pr_taint req) B"inference") /\
  (pr_op req = AK_SYS_RESPOND -> flow_permitted (ops.*2) (pr_taint req) B"respond").
Proof.
  intros Hp Hr. pose proof (run_rule_ops_built [] p0 p0 ops p (built_empty p0 Hp) Hr) as Hb. cbn [app] in Hb.
  pose proof (fun s => built_check_flow _ _ _ (pr_taint req) s Hb) as Hflow.
  fold (flow_permitted ops.*2 (pr_taint req)) in Hflow.
  unfold ak_policy_evaluate. fold (sanitized_level (pr_taint req)).
  destruct (evaluate_budget b (pr_op req)); cbn [negb]; [|split; [done|intros [[=] _]]].
  destruct (Z.eqb_spec (pr_op req) AK_SYS_CALL) as [->|Hc].
  - change (AK_SYS_CALL =? AK_SYS_INFERENCE) with false. change (AK_SYS_CALL =? AK_SYS_RESPOND) with false.
    cbn [andb]. destruct (nonempty_field _ _ _) as [tool|]; [|split; [done|]].
    2:{ intros (_ & H1 & _). destruct (H1 eq_refl) as (t & [=] & _). }
    pose proof (built_check_tool _ _ _ tool Hb) as Htool. fold (tool_permitted p0 ops.*2 tool) in Htool.
    specialize (Hflow tool). split.
    + destruct (ak_policy_check_tool _ _); cbn [negb]; [|done].
      destruct (evaluate_target _ _); cbn [negb]; [|done].
      destruct (ak_policy_check_flow _ _ _ _); cbn [negb]; [|done]. intros _.
      split; [done|]. split; [|done]. intros _. exists tool. rewrite <-Htool. by rewrite <-Hflow.
    + intros (_ & H1 & _). destruct (H1 eq_refl) as (t & [= <-] & Ht & -> & Hf).
      rewrite (proj2 Htool Ht), (proj2 Hflow Hf). done.
  - cbn [negb Z.eqb].
    destruct (Z.eqb_spec (pr_op req) AK_SYS_INFERENCE) as [Hi|Hi],
      (Z.eqb_spec (pr_op req) AK_SYS_RESPOND) as [Hs|Hs]; cbn [andb]; [by rewrite Hi in Hs|..].
    + rewrite Hi. specialize (Hflow B"inference"). destruct (ak_policy_check_flow _ _ _ _); cbn [negb].
      * split; [|done]. intros _. split; [done|]. split; [done|]. split; [|done]. intros _. exact (proj1 Hflow eq_refl).
      * split; [done|]. intros (_ & _ & H2 & _). discriminate (proj2 Hflow (H2 eq_refl)).
    + rewrite Hs. specialize (Hflow B"respond"). destruct (ak_policy_check_flow _ _ _ _); cbn [negb].
      * split; [|done]. intros _. split; [done|]. split; [done|]. split; [done|]. intros _. exact (proj1 Hflow eq_refl).
      * split; [done|]. intros (_ & _ & _ & H2). discriminate (proj2 Hflow (H2 eq_refl)).
    + split; [intros _|done]. by repeat split.
Qed.

(** ** URLs *)

Definition host_char (c : Z) : Prop := c <> 0 /\ c <> 47 /\ c <> 58.

Lemma url_host_spec host rest :
  Forall host_char host -> match rest with c :: _ => ~ host_char c | [] => True end ->
  url_host (host ++ rest) = host.
Proof.
  intros Hh Hr. induction Hh as [|c host (H1 & H2 & H3) Hh IH]; cbn [app url_host].
  - destruct rest as [|c rest]; [done|]. cbn [url_host].
    destruct (Z.eqb_spec c 0), (Z.eqb_spec c 47), (Z.eqb_spec c 58); try done. by destruct Hr.
  - destruct (Z.eqb_spec c 0), (Z.eqb_spec c 47), (Z.eqb_spec c 58); try done. cbn [orb]. by rewrite IH.
Qed.

Lemma cstr_app s t : nonul s -> cstr (s ++ t) = s ++ cstr t.
Proof.
  induction 1 as [|c s Hc Hs IH]; [done|]. cbn [app cstr]. destruct (Z.eqb_spec c 0); [done|]. by rewrite IH.
Qed.

(** the domain of a URL.  The decision on an [http] or [https] URL is the
    decision on its host: the text between the scheme and the first slash or
    colon. *)
Theorem url_checked_on_host p scheme host rest :
  scheme = B"http://" \/ scheme = B"https://" ->
  Forall host_char host -> 0 < Z.of_nat (length host) <= 256 ->
  match rest with c :: _ => ~ host_char c | [] => True end ->
  ak_policy_check_url (Some p) (Some (scheme ++ host ++ rest)) = ak_policy_check_domain (Some p) (Some host).
Proof.
  intros Hs Hh Hl Hr. unfold ak_policy_check_url.
  assert (Hn : nonul host) by (eapply Forall_impl; [exact Hh|]; by intros c (? & _)).
  assert (Hns : nonul scheme) by (destruct Hs as [-> | ->]; apply (bool_decide_unpack _); vm_compute; exact I).
  rewrite !cstr_app by done.
  assert (Hhost : url_host (host ++ cstr rest) = host).
  { apply url_host_spec; [done|]. destruct rest as [|c rest]; [done|]. cbn [cstr].
    destruct (Z.eqb_spec c 0) as [->|]; [|done]. done. }
  assert (Hstart : (if has_prefix B"http://" (scheme ++ host ++ cstr rest) then drop 7 (scheme ++ host ++ cstr rest)
    else if has_prefix B"https://" (scheme ++ host ++ cstr rest) then drop 8 (scheme ++ host ++ cstr rest)
    else scheme ++ host ++ cstr rest) = host ++ cstr rest) by (by destruct Hs as [-> | ->]).
  cbv zeta. rewrite Hstart, Hhost.
  destruct (Z.eqb_spec (Z.of_nat (length host)) 0), (Z.ltb_spec 256 (Z.of_nat (length host))); try lia. done.
Qed.

(** ** Witnesses and concrete policies *)

Definition empty_policy : ak_policy :=
  mk_policy B"1.0" (zeros 64) (zeros 32) false 0 0 (mk_limits 10000 10 30000 1048576 1048576 0 100 10485760)
    [] [] [] false false [] 0.

Definition ok_allocs : rule_allocs := mk_allocs true true.
Definition demo_ops : list (rule_allocs * rule_op) :=
  (ok_allocs,.) <$>
  [AddTool B"file_*" 1; AddTool B"file_delete" 0; AddDomain B"*.example.org" 1; AddDomain B"*.internal" 0;
   AddTaint B"file_write" AK_TAINT_RULE_SINK].

Definition demo_policy : ak_policy := default empty_policy (run_rule_ops empty_policy demo_ops).

Lemma deny_always_wins_witness :
  ak_policy_check_tool (Some demo_policy) (Some B"file_delete") <> true.
Proof.
  intros E.
  apply (proj1 (deny_always_wins empty_policy demo_ops demo_policy
    ltac:(repeat split) ltac:(vm_compute; reflexivity)) B"file_delete") in E as [Hd _].
  refine (Hd B"file_delete" 0 _ _ eq_refl).
  - apply (bool_decide_unpack _). vm_compute. exact I.
  - apply Glob_refl.
Defined.

Lemma evaluate_correct_witness :
  ak_policy_evaluate (Some demo_policy) None
    (Some (mk_preq AK_SYS_CALL (Some JQ"{'tool':'file_write'}") AK_TAINT_UNTRUSTED)) <> 0.
Proof.
  intros E.
  apply (evaluate_correct empty_policy demo_ops demo_policy None _
    ltac:(repeat split) ltac:(vm_compute; reflexivity)) in E as (_ & Hc & _).
  destruct (Hc eq_refl) as (tool & Ht & _ & _ & Hf).
  assert (Some B"file_write" = Some tool) as [= <-] by (rewrite <-Ht; vm_compute; reflexivity).
  refine (Hf _ B"file_write" _ eq_refl).
  - cbn [pr_taint]. unfold tainted, AK_TAINT_TRUSTED, AK_TAINT_UNTRUSTED. lia.
  - apply (bool_decide_unpack _). vm_compute. exact I.
Defined.

Lemma url_checked_on_host_witness :
  ak_policy_check_url (Some demo_policy) (Some B"https://a.example.org:8443/x") = true.
Proof.
  change (B"https://a.example.org:8443/x") with (B"https://" ++ B"a.example.org" ++ B":8443/x").
  rewrite (url_checked_on_host demo_policy B"https://" B"a.example.org" B":8443/x").
  - vm_compute. reflexivity.
  - right. reflexivity.
  - unfold host_char. apply (bool_decide_unpack _). vm_compute. exact I.
  - vm_compute. split; [reflexivity|discriminate].
  - vm_compute. intros (_ & _ & H). apply H. reflexivity.
Defined.

(** The userinfo of a URL is not skipped: the client would connect to
    [db.internal], the decision is about [a.example.org]. *)
Example userinfo_hides_host :
  ak_policy_check_url (Some demo_policy) (Some B"http://a.example.org:x@db.internal/") = true /\
  ak_policy_check_domain (Some demo_policy) (Some B"db.internal") = false.
Proof. vm_compute. done. Qed.
