(* ===== verification/PolicyDoc.v ===== *)
(** * Policy documents: parsing, canonical text, authentication and versions
    ([src/src/agentic/ak_policy.c])

    A pointer [p] into the document, with its [end], is the rest of the
    document: every read of the code stands under a [p < end] test, so it is
    the head of a non-empty list here.  Loops that are not structural carry
    fuel; running out of it is [Oob], which the theorems exclude.  [Null] is
    the NULL or [false] result. *)

From S2P Require Import Prelude Crypto Pattern Budget Json Policy.

Definition AK_POLICY_MAX_STR : nat := 256.
Definition AK_POLICY_MAX_JSON_DEPTH : Z := 32.
Definition AK_SIG_SIZE : nat := 64.
Definition AK_POLICY_VERSION : bytes := B"1.0".

Definition set_version (v : bytes) (p : ak_policy) : ak_policy :=
  mk_policy v (signature p) (policy_hash p) (signature_verified p) (created_ms p)
    (expires_ms p) (budgets p) (tool_rules p) (domain_rules p) (taint_rules p) (default_tool_allow p)
    (default_domain_allow p) (versions p) (version_count p).
Definition set_signature (s : bytes) (p : ak_policy) : ak_policy :=
  mk_policy (version p) s (policy_hash p) (signature_verified p) (created_ms p)
    (expires_ms p) (budgets p) (tool_rules p) (domain_rules p) (taint_rules p) (default_tool_allow p)
    (default_domain_allow p) (versions p) (version_count p).
Definition set_hash (h : bytes) (p : ak_policy) : ak_policy :=
  mk_policy (version p) (signature p) h (signature_verified p) (created_ms p)
    (expires_ms p) (budgets p) (tool_rules p) (domain_rules p) (taint_rules p) (default_tool_allow p)
    (default_domain_allow p) (versions p) (version_count p).
Definition set_verified (b : bool) (p : ak_policy) : ak_policy :=
  mk_policy (version p) (signature p) (policy_hash p) b (created_ms p)
    (expires_ms p) (budgets p) (tool_rules p) (domain_rules p) (taint_rules p) (default_tool_allow p)
    (default_domain_allow p) (versions p) (version_count p).
Definition set_budgets (b : ak_budget_limits) (p : ak_policy) : ak_policy :=
  mk_policy (version p) (signature p) (policy_hash p) (signature_verified p) (created_ms p)
    (expires_ms p) b (tool_rules p) (domain_rules p) (taint_rules p) (default_tool_allow p)
    (default_domain_allow p) (versions p) (version_count p).
Definition set_defaults (t d : bool) (p : ak_policy) : ak_policy :=
  mk_policy (version p) (signature p) (policy_hash p) (signature_verified p) (created_ms p)
    (expires_ms p) (budgets p) (tool_rules p) (domain_rules p) (taint_rules p) t d
    (versions p) (version_count p).
Definition set_versions (l : list ak_policy_version) (n : Z) (p : ak_policy) : ak_policy :=
  mk_policy (version p) (signature p) (policy_hash p) (signature_verified p) (created_ms p)
    (expires_ms p) (budgets p) (tool_rules p) (domain_rules p) (taint_rules p) (default_tool_allow p)
    (default_domain_allow p) l n.

(** [policy_set_default_budgets]. *)
Definition default_budgets : ak_budget_limits :=
  mk_limits 10000 10 30000 (1024 * 1024) (1024 * 1024) 0 100 (10 * 1024 * 1024).

(** ** Scanning primitives *)

Definition is_ws (c : Z) : bool := (c =? 32) || (c =? 9) || (c =? 10) || (c =? 13).

Fixpoint pj_skip_ws (p : bytes) : bytes :=
  match p with
  | c :: p' => if is_ws c then pj_skip_ws p' else p
  | [] => []
  end.

(** The [switch] on the byte after a backslash. *)
Definition unescape (c : Z) : option Z :=
  if c =? 34 then Some 34
  else if c =? 92 then Some 92
  else if c =? 47 then Some 47
  else if c =? 110 then Some 10
  else if c =? 114 then Some 13
  else if c =? 116 then Some 9
  else None.

(** [room] is [max_len - 1 - i]; a full buffer drops the rest. *)
Definition put (c : Z) (room : nat) (r : outcome (bytes * bytes)) : outcome (bytes * bytes) :=
  let* r := r in
  Ret (match room with O => r.1 | S _ => c :: r.1 end, r.2).

Fixpoint pj_string_loop (p : bytes) (room : nat) : outcome (bytes * bytes) :=
  match p with
  | [] => Null
  | c :: p1 =>
      if c =? QUOTE then Ret ([], p1)
      else if c =? BACKSLASH then
        match p1 with
        | [] => Null
        | e :: p2 => match unescape e with
                     | None => Null
                     | Some c => put c room (pj_string_loop p2 (pred room))
                     end
        end
      else put c room (pj_string_loop p1 (pred room))
  end.

(** The text written to [out] and the rest of the document. *)
Definition pj_parse_string (p : bytes) (max_len : nat) : outcome (bytes * bytes) :=
  match p with
  | c :: p' => if c =? QUOTE then pj_string_loop p' (max_len - 1) else Null
  | [] => Null
  end.

Fixpoint skip_digits (p : bytes) : bytes :=
  match p with
  | c :: p' => if is_dec c then skip_digits p' else p
  | [] => []
  end.

Fixpoint pj_u64_loop (p : bytes) (out : Z) : Z * bytes :=
  match p with
  | c :: p' =>
      if is_dec c then
        let digit := c - 48 in
        if (UINT64_MAX - digit) / 10 <? out then (UINT64_MAX, skip_digits p)
        else pj_u64_loop p' (out * 10 + digit)
      else (out, p)
  | [] => (out, [])
  end.

Definition pj_parse_u64 (p : bytes) : outcome (Z * bytes) :=
  match p with
  | c :: _ => if is_dec c then Ret (pj_u64_loop p 0) else Null
  | [] => Null
  end.

(** After an opening quote: past the closing one. *)
Fixpoint skip_string (p : bytes) : outcome bytes :=
  match p with
  | [] => Null
  | c :: p1 =>
      if c =? QUOTE then Ret p1
      else if c =? BACKSLASH then match p1 with [] => Null | _ :: p2 => skip_string p2 end
      else skip_string p1
  end.

Definition is_open (c : Z) : bool := (c =? 123) || (c =? 91).
Definition is_close (c : Z) : bool := (c =? 125) || (c =? 93).

Fixpoint skip_nested (fuel : nat) (p : bytes) (depth : Z) : outcome bytes :=
  match p with
  | [] => Null
  | c :: p1 =>
      match fuel with
      | O => Oob
      | S fuel' =>
          if is_open c then
            if AK_POLICY_MAX_JSON_DEPTH <? depth + 1 then Null else skip_nested fuel' p1 (depth + 1)
          else if is_close c then
            if depth - 1 =? 0 then Ret p1 else skip_nested fuel' p1 (depth - 1)
          else if c =? QUOTE then let* p2 := skip_string p1 in skip_nested fuel' p2 depth
          else skip_nested fuel' p1 depth
      end
  end.

Fixpoint skip_number (p : bytes) : bytes :=
  match p with
  | c :: p' => if is_dec c || (c =? 46) then skip_number p' else p
  | [] => []
  end.

Definition pj_skip_value (p : bytes) : outcome bytes :=
  let p := pj_skip_ws p in
  match p with
  | [] => Null
  | c :: p1 =>
      if c =? QUOTE then skip_string p1
      else if is_open c then skip_nested (length p) p 0
      else if (c =? 45) || is_dec c then Ret (skip_number (if c =? 45 then p1 else p))
      else if has_prefix B"true" p then Ret (drop 4 p)
      else if has_prefix B"false" p then Ret (drop 5 p)
      else if has_prefix B"null" p then Ret (drop 4 p)
      else Null
  end.

(** ** Parsing into a policy *)

(** The policy being filled, and the number of rule insertions so far: the
    outcomes of the allocations of insertion [n] are [al n]. *)
Record pstate := mk_pstate { ps_policy : ak_policy; ps_count : nat }.

Section Parser.
Context (al : nat -> rule_allocs).

(** A callback of the parser: [Null] is its result [false]. *)
Definition run_op (o : rule_op) (st : pstate) : outcome pstate :=
  match apply_rule_op (ps_policy st) (al (ps_count st), o) with
  | None => Null
  | Some p => Ret (mk_pstate p (S (ps_count st)))
  end.

Definition on_policy (f : ak_policy -> ak_policy) (st : pstate) : pstate :=
  mk_pstate (f (ps_policy st)) (ps_count st).

Fixpoint string_array_loop (fuel : nat) (p : bytes) (st : pstate) (cb : bytes -> rule_op)
    : outcome (bytes * pstate) :=
  match pj_skip_ws p with
  | [] => Null
  | c :: p1 =>
      if c =? 93 then Ret (p1, st)
      else match fuel with
      | O => Oob
      | S fuel' =>
          let* r := pj_parse_string (c :: p1) AK_POLICY_MAX_STR in
          let* st := run_op (cb r.1) st in
          match pj_skip_ws r.2 with
          | [] => Null
          | d :: p2 =>
              if d =? 44 then string_array_loop fuel' p2 st cb
              else if d =? 93 then string_array_loop fuel' (d :: p2) st cb
              else Null
          end
      end
  end.

Definition pj_parse_string_array (p : bytes) (st : pstate) (cb : bytes -> rule_op)
    : outcome (bytes * pstate) :=
  match pj_skip_ws p with
  | c :: p1 => if c =? 91 then string_array_loop (length p1) p1 st cb else Null
  | [] => Null
  end.

(** The [fields] table: the first entry whose key matches. *)
Fixpoint find_field (fields : list (bytes * (bytes -> rule_op))) (key : bytes) : option (bytes -> rule_op) :=
  match fields with
  | [] => None
  | (k, cb) :: rest => if ak_streq key k then Some cb else find_field rest key
  end.

(** [if (p < end && *p == ',') p++]. *)
Definition skip_comma (p : bytes) : bytes :=
  match pj_skip_ws p with
  | c :: p' => if c =? 44 then p' else c :: p'
  | [] => []
  end.

(** ["key" :], then the rest. *)
Definition parse_key (p : bytes) (max_len : nat) : outcome (bytes * bytes) :=
  let* r := pj_parse_string p max_len in
  match pj_skip_ws r.2 with
  | c :: p' => if c =? 58 then Ret (r.1, p') else Null
  | [] => Null
  end.

Fixpoint array_object_loop (fuel : nat) (p : bytes) (st : pstate)
    (fields : list (bytes * (bytes -> rule_op))) : outcome (bytes * pstate) :=
  match pj_skip_ws p with
  | [] => Null
  | c :: p1 =>
      if c =? 125 then Ret (p1, st)
      else match fuel with
      | O => Oob
      | S fuel' =>
          let* k := parse_key (c :: p1) 64 in
          let* r := match find_field fields k.1 with
                    | Some cb => pj_parse_string_array k.2 st cb
                    | None => let* p2 := pj_skip_value k.2 in Ret (p2, st)
                    end in
          array_object_loop fuel' (skip_comma r.1) r.2 fields
      end
  end.

Definition pj_parse_array_object (p : bytes) (st : pstate) (fields : list (bytes * (bytes -> rule_op)))
    : outcome (bytes * pstate) :=
  match pj_skip_ws p with
  | c :: p1 => if c =? 123 then array_object_loop (length p1) p1 st fields else Null
  | [] => Null
  end.

(** The [else if] chain on the key of a numeric budget. *)
Definition set_budget (key : bytes) (v : Z) (b : ak_budget_limits) : ak_budget_limits :=
  let '(mk_limits t c i f n s o h) := b in
  if ak_streq key B"tokens" then mk_limits v c i f n s o h
  else if ak_streq key B"calls" || ak_streq key B"tool_calls" then mk_limits t v i f n s o h
  else if ak_streq key B"inference_ms" then mk_limits t c v f n s o h
  else if ak_streq key B"file_bytes" then mk_limits t c i v n s o h
  else if ak_streq key B"network_bytes" then mk_limits t c i f v s o h
  else if ak_streq key B"spawn_count" then mk_limits t c i f n v o h
  else if ak_streq key B"heap_objects" then mk_limits t c i f n s v h
  else if ak_streq key B"heap_bytes" then mk_limits t c i f n s o v
  else b.

Fixpoint budgets_loop (fuel : nat) (p : bytes) (st : pstate) : outcome (bytes * pstate) :=
  match pj_skip_ws p with
  | [] => Null
  | c :: p1 =>
      if c =? 125 then Ret (p1, st)
      else match fuel with
      | O => Oob
      | S fuel' =>
          let* k := parse_key (c :: p1) 32 in
          match pj_skip_ws k.2 with
          | [] => Null
          | d :: p2 =>
              if is_dec d then
                let* v := pj_parse_u64 (d :: p2) in
                budgets_loop fuel' (skip_comma v.2)
                  (on_policy (fun q => set_budgets (set_budget k.1 v.1 (budgets q)) q) st)
              else
                let* p3 := pj_skip_value (d :: p2) in budgets_loop fuel' (skip_comma p3) st
          end
      end
  end.

Definition pj_parse_budgets (p : bytes) (st : pstate) : outcome (bytes * pstate) :=
  match pj_skip_ws p with
  | c :: p1 => if c =? 123 then budgets_loop (length p1) p1 st else Null
  | [] => Null
  end.

Definition hex_nibble (c : Z) : Z :=
  if (48 <=? c) && (c <=? 57) then c - 48
  else if (97 <=? c) && (c <=? 102) then c - 97 + 10
  else if (65 <=? c) && (c <=? 70) then c - 65 + 10
  else -1.

(** [out_len] bytes of [hex], which holds at least [2 * out_len] characters
    where the code calls it. *)
Fixpoint parse_hex_bytes (hex : bytes) (out_len : nat) : option bytes :=
  match out_len with
  | O => Some []
  | S n =>
      match hex with
      | h :: l :: hex' =>
          let hi := hex_nibble h in
          let lo := hex_nibble l in
          if (hi <? 0) || (lo <? 0) then None
          else match parse_hex_bytes hex' n with
               | None => None
               | Some r => Some (u8 (Z.lor (Z.shiftl hi 4) lo) :: r)
               end
      | _ => None
      end
  end.

(** The value of a ["signature"] member, written over the signature field. *)
Definition parse_signature (text sig : bytes) : option bytes :=
  let sighex := cstr text in
  if (length sighex =? 2 * AK_MAC_SIZE)%nat then
    match parse_hex_bytes sighex AK_MAC_SIZE with
    | Some b => Some (splice 0 b sig) | None => None
    end
  else if (length sighex =? 2 * AK_SIG_SIZE)%nat then
    match parse_hex_bytes sighex AK_SIG_SIZE with
    | Some b => Some (splice 0 b sig) | None => None
    end
  else if negb (length sighex =? 0)%nat then None
  else Some sig.

Definition tool_fields : list (bytes * (bytes -> rule_op)) :=
  [(B"allow", fun s => AddTool s 1); (B"deny", fun s => AddTool s 0)].
Definition domain_fields : list (bytes * (bytes -> rule_op)) :=
  [(B"allow", fun s => AddDomain s 1); (B"deny", fun s => AddDomain s 0)].
Definition taint_fields : list (bytes * (bytes -> rule_op)) :=
  [(B"sources", fun s => AddTaint s AK_TAINT_RULE_SOURCE);
   (B"sinks", fun s => AddTaint s AK_TAINT_RULE_SINK);
   (B"sanitizers", fun s => AddTaint s AK_TAINT_RULE_SANITIZER)].

(** The [else if] chain on a top-level key. *)
Definition parse_member (key : bytes) (p : bytes) (st : pstate) : outcome (bytes * pstate) :=
  if ak_streq key B"version" then
    let* r := pj_parse_string p 16 in
    Ret (r.2, on_policy (fun q => set_version (splice 0 (r.1 ++ [0]) (version q)) q) st)
  else if ak_streq key B"signature" then
    let* r := pj_parse_string p (2 * AK_SIG_SIZE + 1) in
    match parse_signature r.1 (signature (ps_policy st)) with
    | None => Null
    | Some s => Ret (r.2, on_policy (set_signature s) st)
    end
  else if ak_streq key B"budgets" then pj_parse_budgets p st
  else if ak_streq key B"tools" then pj_parse_array_object p st tool_fields
  else if ak_streq key B"domains" then pj_parse_array_object p st domain_fields
  else if ak_streq key B"taint" then pj_parse_array_object p st taint_fields
  else let* p' := pj_skip_value p in Ret (p', st).

Fixpoint document_loop (fuel : nat) (p : bytes) (st : pstate) : outcome pstate :=
  match pj_skip_ws p with
  | [] => Null
  | c :: p1 =>
      if c =? 125 then match pj_skip_ws p1 with [] => Ret st | _ => Null end
      else match fuel with
      | O => Oob
      | S fuel' =>
          let* k := parse_key (c :: p1) 64 in
          let* r := parse_member k.1 (pj_skip_ws k.2) st in
          document_loop fuel' (skip_comma r.1) r.2
      end
  end.

Definition ak_policy_parse_json (st : pstate) (data : bytes) : outcome pstate :=
  match pj_skip_ws data with
  | c :: p1 => if c =? 123 then document_loop (length p1) p1 st else Null
  | [] => Null
  end.
End Parser.

(** ** The parser consumes its input

    Every scanner that succeeds returns a shorter rest, so the fuel of the
    loops (the length of the document) is never used up; and a property of
    the parser's state that the insertions and the field updates preserve
    holds of the result. *)

Lemma length_skip_ws p : (length (pj_skip_ws p) <= length p)%nat.
Proof. induction p as [|c p IH]; cbn; [lia|]. destruct (is_ws c); cbn; lia. Qed.
Lemma length_skip_comma p : (length (skip_comma p) <= length p)%nat.
Proof.
  unfold skip_comma. pose proof (length_skip_ws p). destruct (pj_skip_ws p) as [|c q]; [lia|].
  destruct (c =? 44); cbn in *; lia.
Qed.
Lemma length_skip_digits p : (length (skip_digits p) <= length p)%nat.
Proof. induction p as [|c p IH]; cbn; [lia|]. destruct (is_dec c); cbn; lia. Qed.
Lemma length_skip_number p : (length (skip_number p) <= length p)%nat.
Proof. induction p as [|c p IH]; cbn; [lia|]. destruct (_ || _); cbn; lia. Qed.

(** A result whose rest is shorter than [n]. *)
Definition shorter {A} (len : A -> nat) (n : nat) (r : outcome A) : Prop :=
  match r with Ret a => (len a < n)%nat | Null => True | Oob => False end.

Lemma shorter_weaken {A} (len : A -> nat) n m r : shorter len n r -> (n <= m)%nat -> shorter len m r.
Proof. destruct r; cbn; lia || done. Qed.

Lemma string_loop_shorter n p room :
  (length p <= n)%nat -> shorter (fun r => length r.2) (length p + 1) (pj_string_loop p room).
Proof.
  revert p room. induction n as [|n IH]; intros [|c p1] room Hn; cbn [length] in Hn; try done; [lia|].
  cbn [pj_string_loop length]. destruct (c =? QUOTE); [cbn; lia|].
  assert (Hput : forall c q m, shorter (fun r => length r.2) m (pj_string_loop q (pred room)) ->
    shorter (fun r => length r.2) m (put c room (pj_string_loop q (pred room)))).
  { intros d q m. by destruct (pj_string_loop q (pred room)) as [[x y]| |]. }
  destruct (c =? BACKSLASH).
  - destruct p1 as [|e p2]; [done|]. destruct (unescape e); [|done]. apply Hput.
    cbn [length] in *. eapply shorter_weaken; [apply IH; lia|lia].
  - apply Hput. eapply shorter_weaken; [apply IH; lia|lia].
Qed.

Lemma parse_string_shorter p m : shorter (fun r => length r.2) (length p) (pj_parse_string p m).
Proof.
  destruct p as [|c p]; [done|]. cbn. destruct (c =? QUOTE); [|done].
  eapply shorter_weaken; [by eapply string_loop_shorter|lia].
Qed.

Lemma u64_loop_shorter p v : (length (pj_u64_loop p v).2 <= length p)%nat.
Proof.
  revert v. induction p as [|c p IH]; intros v; cbn [pj_u64_loop]; [cbn; lia|].
  destruct (is_dec c) eqn:Ec; [|done]. cbv zeta. destruct (_ <? v).
  - cbn [snd]. apply length_skip_digits.
  - specialize (IH (v * 10 + (c - 48))). cbn [length]. lia.
Qed.

Lemma skip_string_shorter n p : (length p <= n)%nat -> shorter length (length p + 1) (skip_string p).
Proof.
  revert p. induction n as [|n IH]; intros [|c p1] Hn; cbn [length] in Hn; try done; [lia|].
  cbn [skip_string length]. destruct (c =? QUOTE); [cbn; lia|]. destruct (c =? BACKSLASH).
  - destruct p1 as [|e p2]; [done|]. cbn [length] in *. eapply shorter_weaken; [apply IH; lia|lia].
  - eapply shorter_weaken; [apply IH; lia|lia].
Qed.

Lemma skip_nested_shorter fuel p depth :
  (length p <= fuel)%nat -> shorter length (length p + 1) (skip_nested fuel p depth).
Proof.
  revert p depth. induction fuel as [|fuel IH]; intros [|c p1] depth Hf; cbn [length] in Hf; try done; [lia|].
  cbn [skip_nested length].
  assert (Hrec : forall q d, (length q <= length p1)%nat -> shorter length (S (length p1) + 1) (skip_nested fuel q d)).
  { intros q d Hq. eapply shorter_weaken; [apply IH; lia|lia]. }
  destruct (is_open c); [destruct (_ <? _); [done|by apply Hrec]|].
  destruct (is_close c); [destruct (_ =? 0); [cbn; lia|by apply Hrec]|].
  destruct (c =? QUOTE); [|by apply Hrec].
  pose proof (skip_string_shorter (length p1) p1 ltac:(lia)) as Hs.
  destruct (skip_string p1) as [p2| |]; cbn in Hs |- *; try done. apply Hrec. lia.
Qed.

Lemma skip_value_shorter p : shorter length (length p + 1) (pj_skip_value p).
Proof.
  unfold pj_skip_value. pose proof (length_skip_ws p) as Hw. destruct (pj_skip_ws p) as [|c p1] eqn:E; [done|].
  cbn [length] in Hw. destruct (c =? QUOTE).
  { eapply shorter_weaken; [by eapply (skip_string_shorter (length p1))|lia]. }
  destruct (is_open c).
  { eapply shorter_weaken; [by apply skip_nested_shorter|cbn [length]; lia]. }
  destruct (_ || _).
  { cbn. pose proof (length_skip_number (if c =? 45 then p1 else c :: p1)) as Hn.
    destruct (c =? 45); cbn [length] in Hn; lia. }
  repeat (destruct (has_prefix _ _); [cbn [shorter]; rewrite length_drop; cbn [length]; lia|]). done.
Qed.

Lemma parse_key_shorter p m : shorter (fun r => length r.2) (length p) (parse_key p m).
Proof.
  unfold parse_key. pose proof (parse_string_shorter p m) as Hs.
  destruct (pj_parse_string p m) as [[k q]| |]; cbn in Hs |- *; try done.
  pose proof (length_skip_ws q). destruct (pj_skip_ws q) as [|c q']; [done|].
  destruct (c =? 58); [|done]. cbn in *. lia.
Qed.

Section Consumes.
Context (al : nat -> rule_allocs) (P : pstate -> Prop).
Context (Pop : forall o st st', P st -> run_op al o st = Ret st' -> P st').
Context (Pver : forall v st, P st -> P (on_policy (fun q => set_version (splice 0 v (version q)) q) st)).
Context (Psig : forall text s st, P st -> parse_signature text (signature (ps_policy st)) = Some s ->
  P (on_policy (set_signature s) st)).
Context (Pbud : forall k v st, P st -> P (on_policy (fun q => set_budgets (set_budget k v (budgets q)) q) st)).

Definition good (n : nat) (r : outcome (bytes * pstate)) : Prop :=
  match r with Ret a => (length a.1 < n)%nat /\ P a.2 | Null => True | Oob => False end.

Lemma good_weaken n m r : good n r -> (n <= m)%nat -> good m r.
Proof. destruct r as [[a b]| |]; cbn; [|done..]. intros [? ?] ?. split; [lia|done]. Qed.

Lemma string_array_good fuel p st cb :
  (length p <= fuel)%nat -> P st -> good (length p + 1) (string_array_loop al fuel p st cb).
Proof.
  revert p st. induction fuel as [|fuel IH]; intros p st Hf HP; cbn [string_array_loop];
    pose proof (length_skip_ws p) as Hw; destruct (pj_skip_ws p) as [|c p1]; try done;
    cbn [length] in Hw; destruct (c =? 93); try (split; [cbn; lia|done]); [lia|].
  pose proof (parse_string_shorter (c :: p1) AK_POLICY_MAX_STR) as Hs.
  destruct (pj_parse_string (c :: p1) AK_POLICY_MAX_STR) as [[s q]| |]; cbn [obind]; try done.
  cbn [shorter snd length fst] in *. destruct (run_op al (cb s) st) as [st'| |] eqn:Er; cbn [obind]; try done.
  - pose proof (Pop _ _ _ HP Er) as HP'. pose proof (length_skip_ws q) as Hq.
    destruct (pj_skip_ws q) as [|d p2]; [done|]. cbn [length] in Hq.
    destruct (d =? 44); [|destruct (d =? 93); [|done]]; (eapply good_weaken; [apply IH; [cbn [length]; lia|done]|cbn [length]; lia]).
  - unfold run_op in Er. by destruct (apply_rule_op _ _).
Qed.

Lemma parse_string_array_good p st cb : P st -> good (length p + 1) (pj_parse_string_array al p st cb).
Proof.
  intros HP. unfold pj_parse_string_array. pose proof (length_skip_ws p) as Hw.
  destruct (pj_skip_ws p) as [|c p1]; [done|]. cbn [length] in Hw. destruct (c =? 91); [|done].
  eapply good_weaken; [by apply string_array_good|lia].
Qed.

Lemma skip_value_good p st : P st -> good (length p + 1) (let* p2 := pj_skip_value p in Ret (p2, st)).
Proof.
  intros HP. pose proof (skip_value_shorter p) as Hs. destruct (pj_skip_value p); cbn in *; done.
Qed.

Lemma array_object_good fuel p st fields :
  (length p <= fuel)%nat -> P st -> good (length p + 1) (array_object_loop al fuel p st fields).
Proof.
  revert p st. induction fuel as [|fuel IH]; intros p st Hf HP; cbn [array_object_loop];
    pose proof (length_skip_ws p) as Hw; destruct (pj_skip_ws p) as [|c p1]; try done;
    cbn [length] in Hw; destruct (c =? 125); try (split; [cbn; lia|done]); [lia|].
  pose proof (parse_key_shorter (c :: p1) 64) as Hk.
  destruct (parse_key (c :: p1) 64) as [[k q]| |]; cbn [obind shorter snd fst length] in *; try done.
  assert (Hg : good (length q + 1) (match find_field fields k with
    | Some cb => pj_parse_string_array al q st cb | None => let* p2 := pj_skip_value q in Ret (p2, st) end)).
  { destruct (find_field fields k); [by apply parse_string_array_good|by apply skip_value_good]. }
  destruct (match find_field fields k with Some _ => _ | None => _ end) as [[q2 st2]| |]; cbn [obind]; try done.
  destruct Hg as [Hl HP2]. cbn [fst snd] in *. pose proof (length_skip_comma q2).
  eapply good_weaken; [apply IH; [lia|done]|lia].
Qed.

Lemma parse_array_object_good p st fields : P st -> good (length p + 1) (pj_parse_array_object al p st fields).
Proof.
  intros HP. unfold pj_parse_array_object. pose proof (length_skip_ws p) as Hw.
  destruct (pj_skip_ws p) as [|c p1]; [done|]. cbn [length] in Hw. destruct (c =? 123); [|done].
  eapply good_weaken; [by apply array_object_good|lia].
Qed.

Lemma budgets_good fuel p st :
  (length p <= fuel)%nat -> P st -> good (length p + 1) (budgets_loop fuel p st).
Proof.
  revert p st. induction fuel as [|fuel IH]; intros p st Hf HP; cbn [budgets_loop];
    pose proof (length_skip_ws p) as Hw; destruct (pj_skip_ws p) as [|c p1]; try done;
    cbn [length] in Hw; destruct (c =? 125); try (split; [cbn; lia|done]); [lia|].
  pose proof (parse_key_shorter (c :: p1) 32) as Hk.
  destruct (parse_key (c :: p1) 32) as [[k q]| |]; cbn [obind shorter snd fst length] in *; try done.
  pose proof (length_skip_ws q) as Hq. destruct (pj_skip_ws q) as [|d p2]; [done|]. cbn [length] in Hq.
  destruct (is_dec d) eqn:Ed.
  - unfold pj_parse_u64. rewrite Ed. cbn [obind].
    pose proof (u64_loop_shorter (d :: p2) 0) as Hu. cbn [length] in Hu.
    pose proof (length_skip_comma (pj_u64_loop (d :: p2) 0).2).
    eapply good_weaken; [apply IH; [lia|by apply Pbud]|lia].
  - pose proof (skip_value_shorter (d :: p2)) as Hv.
    destruct (pj_skip_value (d :: p2)) as [p3| |]; cbn [obind shorter length] in *; try done.
    pose proof (length_skip_comma p3). eapply good_weaken; [apply IH; [lia|done]|lia].
Qed.

Lemma parse_member_good key p st : P st -> good (length p + 1) (parse_member al key p st).
Proof.
  intros HP. unfold parse_member. destruct (ak_streq key B"version").
  { pose proof (parse_string_shorter p 16) as Hs. destruct (pj_parse_string p 16) as [[s q]| |]; cbn in *; try done.
    split; [lia|by apply Pver]. }
  destruct (ak_streq key B"signature").
  { pose proof (parse_string_shorter p (2 * AK_SIG_SIZE + 1)) as Hs.
    destruct (pj_parse_string p (2 * AK_SIG_SIZE + 1)) as [[s q]| |]; cbn [obind shorter fst snd] in *; try done.
    destruct (parse_signature s _) eqn:E; [|done]. cbn. split; [lia|by eapply Psig]. }
  destruct (ak_streq key B"budgets").
  { unfold pj_parse_budgets. pose proof (length_skip_ws p) as Hw. destruct (pj_skip_ws p) as [|c p1]; [done|].
    cbn [length] in Hw. destruct (c =? 123); [|done]. eapply good_weaken; [by apply budgets_good|lia]. }
  repeat (destruct (ak_streq key _); [by apply parse_array_object_good|]). by apply skip_value_good.
Qed.

Lemma document_good fuel p st :
  (length p <= fuel)%nat -> P st ->
  match document_loop al fuel p st with Ret st' => P st' | Null => True | Oob => False end.
Proof.
  revert p st. induction fuel as [|fuel IH]; intros p st Hf HP; cbn [document_loop];
    pose proof (length_skip_ws p) as Hw; destruct (pj_skip_ws p) as [|c p1]; try done;
    cbn [length] in Hw; destruct (c =? 125); try (by destruct (pj_skip_ws p1)); [lia|].
  pose proof (parse_key_shorter (c :: p1) 64) as Hk.
  destruct (parse_key (c :: p1) 64) as [[k q]| |]; cbn [obind shorter snd fst length] in *; try done.
  pose proof (parse_member_good k (pj_skip_ws q) st HP) as Hg. pose proof (length_skip_ws q).
  destruct (parse_member al k (pj_skip_ws q) st) as [[q2 st2]| |]; cbn [obind good fst snd] in *; try done.
  destruct Hg as [Hl HP2]. pose proof (length_skip_comma q2). apply IH; [lia|done].
Qed.

Lemma parse_json_good st data :
  P st -> match ak_policy_parse_json al st data with Ret st' => P st' | Null => True | Oob => False end.
Proof.
  intros HP. unfold ak_policy_parse_json. destruct (pj_skip_ws data) as [|c p1]; [done|].
  destruct (c =? 123); [|done]. by apply document_good.
Qed.
End Consumes.

(** A signature member keeps the length of the signature field. *)
Lemma length_parse_hex_bytes n hex b : parse_hex_bytes hex n = Some b -> length b = n.
Proof.
  revert hex b. induction n as [|n IH]; intros [|h [|l hex]] b; cbn [parse_hex_bytes]; try by intros [= <-].
  destruct (_ || _); [done|].
  destruct (parse_hex_bytes hex n) as [r|] eqn:E; [|done]. intros [= <-]. cbn. f_equal. exact (IH _ _ E).
Qed.

Lemma length_parse_signature text sig s :
  length sig = AK_SIG_SIZE -> parse_signature text sig = Some s -> length s = AK_SIG_SIZE.
Proof.
  intros Hl. unfold parse_signature. repeat (destruct (_ =? _)%nat);
    try (destruct (parse_hex_bytes _ _) as [b|] eqn:E; [|done]; apply length_parse_hex_bytes in E; intros [= <-];
         rewrite length_splice; [done|]; rewrite Hl, E; unfold AK_MAC_SIZE, AK_SIG_SIZE; lia);
    cbn [negb]; intros [= <-] || intros [=]; done.
Qed.

(** ** Canonical serialization and hash *)

Definition buffer_write_u64_dec (v : Z) : bytes := ak_u64_to_dec v.

Definition serialize_u64_field (key : bytes) (v : Z) : bytes :=
  B"  " ++ key ++ B": " ++ buffer_write_u64_dec v ++ [10].

Definition NL : bytes := [10].

(** A rule line; [name ? name : empty]. *)
Definition rule_line (name : option bytes) (verdict : bytes) : bytes :=
  B"  - " ++ [QUOTE] ++ match name with Some n => cstr n | None => [] end ++ [QUOTE] ++ B": " ++ verdict ++ NL.

Definition allow_text (b : bool) : bytes := if b then B"allow" else B"deny".
Definition taint_text (ty : taint_rule_type) : bytes :=
  match ty with
  | AK_TAINT_RULE_SOURCE => B"source"
  | AK_TAINT_RULE_SINK => B"sink"
  | AK_TAINT_RULE_SANITIZER => B"sanitizer"
  end.

Definition ak_policy_serialize (p : ak_policy) : bytes :=
  B"version: " ++ [QUOTE] ++ cstr (version p) ++ [QUOTE] ++ NL ++
  B"expires_ms: " ++ buffer_write_u64_dec (expires_ms p) ++ NL ++
  B"defaults:" ++ NL ++
  serialize_u64_field B"tool_allow" (if default_tool_allow p then 1 else 0) ++
  serialize_u64_field B"domain_allow" (if default_domain_allow p then 1 else 0) ++
  B"budgets:" ++ NL ++
  serialize_u64_field B"tokens" (bl_tokens (budgets p)) ++
  serialize_u64_field B"calls" (bl_calls (budgets p)) ++
  serialize_u64_field B"inference_ms" (bl_inference_ms (budgets p)) ++
  serialize_u64_field B"file_bytes" (bl_file_bytes (budgets p)) ++
  serialize_u64_field B"network_bytes" (bl_network_bytes (budgets p)) ++
  serialize_u64_field B"spawn_count" (bl_spawn_count (budgets p)) ++
  serialize_u64_field B"heap_objects" (bl_heap_objects (budgets p)) ++
  serialize_u64_field B"heap_bytes" (bl_heap_bytes (budgets p)) ++
  B"tools:" ++ NL ++
  concat ((fun r => rule_line (tr_name r) (allow_text (tr_allow r))) <$> tool_rules p) ++
  B"domains:" ++ NL ++
  concat ((fun r => rule_line (dr_pattern r) (allow_text (dr_allow r))) <$> domain_rules p) ++
  B"taint:" ++ NL ++
  concat ((fun r => rule_line (ta_name r) (taint_text (ta_type r))) <$> taint_rules p).

(** Build-time switches and the configured verification key. *)
Record policy_config := mk_config {
  AK_REQUIRE_POLICY_SIGNATURES : bool;
  AK_ALLOW_UNSIGNED_POLICIES : bool;
  verify_key : option bytes
}.

(** Outcomes of the allocations of a load or upgrade. *)
Record load_allocs := mk_load_allocs {
  la_policy : bool; la_rules : nat -> rule_allocs; la_text : bool; la_hmac : bool; la_version : bool; la_json : bool
}.

Section Documents.
Context `{Hash}.

(** The length is passed as a [u32]. *)
Definition ak_sha256 (dat : bytes) : bytes := hash (take (Z.to_nat (u32 (Z.of_nat (length dat)))) dat).

(** [ak_policy_compute_hash] into [hash_out], which keeps its value when the
    serialization buffer cannot be allocated. *)
Definition ak_policy_compute_hash (alloc : bool) (p : ak_policy) (hash_out : bytes) : bytes :=
  if alloc then ak_sha256 (ak_policy_serialize p) else hash_out.

(** The file's own copies of the HMAC and of the comparison. *)
Definition ak_policy_hmac_sha256 (alloc : bool) (key dat : bytes) : bytes := ak_hmac_sha256 alloc key dat.
Definition ak_policy_constant_time_compare (a b : bytes) (len : nat) : bool := constant_time_compare a b len.

Definition ak_policy_signature_is_empty (sig : bytes) : bool := forallb (fun b => b =? 0) (take AK_SIG_SIZE sig).

Definition ak_policy_verify_signature (cfg : policy_config) (alloc : bool) (p : ak_policy)
    (signing_key : option bytes) : bool :=
  if ak_policy_signature_is_empty (signature p) then
    if AK_REQUIRE_POLICY_SIGNATURES cfg then false
    else if AK_ALLOW_UNSIGNED_POLICIES cfg then true else false
  else match signing_key with
       | None => false
       | Some key =>
           ak_policy_constant_time_compare (ak_policy_hmac_sha256 alloc key (policy_hash p)) (signature p) AK_MAC_SIZE
       end.

Definition ak_policy_sign (alloc : bool) (p : ak_policy) (signing_key : bytes) : ak_policy :=
  set_signature (ak_policy_hmac_sha256 alloc signing_key (policy_hash p) ++ zeros (AK_SIG_SIZE - AK_MAC_SIZE)) p.

(** The integrity check shared by the load and the upgrade: [None] is a
    rejection. *)
Definition check_integrity (cfg : policy_config) (alloc : bool) (p : ak_policy) : option ak_policy :=
  match verify_key cfg with
  | Some key =>
      if ak_policy_signature_is_empty (signature p) ||
         negb (ak_policy_verify_signature cfg alloc p (Some key))
      then None else Some (set_verified true p)
  | None => Some (set_verified false p)
  end.

(** A zeroed policy with its version text and budgets. *)
Definition fresh_policy (b : ak_budget_limits) (tool domain : bool) : ak_policy :=
  mk_policy (AK_POLICY_VERSION ++ zeros 13) (zeros AK_SIG_SIZE) (zeros AK_HASH_SIZE) false 0 0 b
    [] [] [] tool domain [] 0.

(** The first version record, when its allocation succeeds. *)
Definition init_version (alloc : bool) (json : option bytes) (now_ms : Z) (p : ak_policy) : ak_policy :=
  if alloc then set_versions [mk_version 1 now_ms (policy_hash p) json] 1 p else p.

(** A [NULL] result is [None]; [Oob] cannot happen ([load_total]). *)
Definition ak_policy_load (cfg : policy_config) (al : load_allocs) (dat : option bytes) (now_ms : Z)
    : outcome ak_policy :=
  match dat with
  | None => Null
  | Some d =>
      if (length d =? 0)%nat then Null
      else if negb (la_policy al) then Null
      else
        let* st := ak_policy_parse_json (la_rules al) (mk_pstate (fresh_policy default_budgets false false) 0) d in
        let p := ps_policy st in
        let p := set_hash (ak_policy_compute_hash (la_text al) p (policy_hash p)) p in
        match check_integrity cfg (la_hmac al) p with
        | None => Null
        | Some p => Ret (init_version (la_version al) (if la_json al then Some d else None) now_ms p)
        end
  end.

(** [rule1->name] may be NULL; the record itself may be missing. *)
Definition ak_policy_default (alloc : bool) (rule taint : rule_allocs) (alloc_text alloc_ver : bool) (now_ms : Z)
    : option ak_policy :=
  if negb alloc then None
  else
    let p := fresh_policy default_budgets false false in
    let p := if ra_rule rule
             then set_tool_rules [mk_tool_rule (if ra_name rule then Some B"file_read" else None) true] p else p in
    let p := if ra_rule taint
             then set_taint_rules [mk_taint_rule (if ra_name taint then Some B"shell_exec" else None)
                                     AK_TAINT_RULE_SINK] p else p in
    let p := set_hash (ak_policy_compute_hash alloc_text p (policy_hash p)) p in
    Some (init_version alloc_ver None now_ms p).

Definition ak_policy_permissive (alloc alloc_text alloc_ver : bool) (now_ms : Z) : option ak_policy :=
  if negb alloc then None
  else
    let p := fresh_policy (mk_limits 1000000 10000 3600000 (1024 * 1024 * 100) (1024 * 1024 * 100) 100 100000
                             (1024 * 1024 * 1024)) true true in
    let p := set_hash (ak_policy_compute_hash alloc_text p (policy_hash p)) p in
    Some (init_version alloc_ver None now_ms p).

(** ** Versions *)

Inductive ak_policy_result :=
| AK_POLICY_OK | AK_POLICY_ERROR_PARSE | AK_POLICY_ERROR_VERSION | AK_POLICY_ERROR_INCOMPATIBLE
| AK_POLICY_ERROR_NO_PREVIOUS.

(** The staged copy the rules are parsed into. *)
Definition stage (p : ak_policy) : ak_policy :=
  set_defaults false false (set_budgets default_budgets (set_signature (zeros AK_SIG_SIZE)
    (set_taint_rules [] (set_domain_rules [] (set_tool_rules [] p))))).

(** What the commit copies back from the staged policy. *)
Definition commit (p staged : ak_policy) : ak_policy :=
  mk_policy (version staged) (signature staged) (policy_hash staged) (signature_verified staged)
    (created_ms p) (expires_ms p) (budgets staged) (tool_rules staged) (domain_rules staged)
    (taint_rules staged) (default_tool_allow staged) (default_domain_allow staged) (versions p) (version_count p).

Definition ak_policy_parse_rules (cfg : policy_config) (al : load_allocs) (p : ak_policy) (rules : bytes)
    : outcome ak_policy :=
  let len := Z.of_nat (length rules) in
  if (len =? 0) || (1024 * 1024 <? len) then Null
  else
    let* st := ak_policy_parse_json (la_rules al) (mk_pstate (stage p) 0) rules in
    let s := ps_policy st in
    let s := set_hash (ak_policy_compute_hash (la_text al) s (policy_hash s)) s in
    match check_integrity cfg (la_hmac al) s with
    | None => Null
    | Some s => Ret (commit p s)
    end.

Definition ak_policy_get_version (p : option ak_policy) : Z :=
  match p with
  | Some p => match versions p with v :: _ => version_number v | [] => 0 end
  | None => 0
  end.

Definition ak_policy_version_count (p : option ak_policy) : Z :=
  match p with Some p => version_count p | None => 0 end.

Definition ak_policy_is_compatible (old_version new_version : Z) : bool :=
  if new_version <=? old_version then false
  else if new_version =? u32 (old_version + 1) then true
  else u32 (new_version - old_version) <=? 100.

Definition ak_policy_upgrade (cfg : policy_config) (al : load_allocs) (p : ak_policy) (new_rules : option bytes)
    (new_version now_ms : Z) : ak_policy_result * ak_policy :=
  match new_rules with
  | None => (AK_POLICY_ERROR_PARSE, p)
  | Some rules =>
      let current := ak_policy_get_version (Some p) in
      if new_version <=? current then (AK_POLICY_ERROR_VERSION, p)
      else if negb (ak_policy_is_compatible current new_version) then (AK_POLICY_ERROR_INCOMPATIBLE, p)
      else if negb (la_version al) then (AK_POLICY_ERROR_PARSE, p)
      else if negb (la_json al) then (AK_POLICY_ERROR_PARSE, p)
      else match ak_policy_parse_rules cfg al p rules with
           | Ret p' => (AK_POLICY_OK,
                        set_versions (mk_version new_version now_ms (policy_hash p') (Some rules) :: versions p')
                          (u32 (version_count p' + 1)) p')
           | _ => (AK_POLICY_ERROR_PARSE, p)
           end
  end.

Definition ak_policy_rollback (cfg : policy_config) (al : load_allocs) (p : ak_policy)
    : ak_policy_result * ak_policy :=
  match versions p with
  | _ :: prev :: older =>
      let finish (q : ak_policy) :=
        (AK_POLICY_OK, set_hash (ver_hash prev)
           (set_versions (prev :: older) (if 0 <? version_count q then version_count q - 1 else version_count q) q)) in
      match rules_json prev with
      | Some rules => match ak_policy_parse_rules cfg al p rules with
                      | Ret q => finish q
                      | _ => (AK_POLICY_ERROR_PARSE, p)
                      end
      | None => finish p
      end
  | _ => (AK_POLICY_ERROR_NO_PREVIOUS, p)
  end.
End Documents.
