(* ===== verification/PolicyText.v ===== *)
(** * What a policy document means ([src/src/agentic/ak_policy.c])

    A printer of policy documents, the specification of the format the parser
    reads, and the round trip: loading a printed document gives a policy whose
    decisions are those of the document's rules.  Then the canonical text: it
    determines the policy when no name contains a quote, so that the
    authentication tag binds the rules, and it does not otherwise. *)

From S2P Require Import Prelude Crypto Pattern Budget Sequence Json Policy PolicyDoc.

(** ** Printing *)

Definition esc (c : Z) : bytes :=
  if c =? 34 then [92; 34]
  else if c =? 92 then [92; 92]
  else if c =? 10 then [92; 110]
  else if c =? 13 then [92; 114]
  else if c =? 9 then [92; 116]
  else [c].

Definition quote (s : bytes) : bytes := QUOTE :: concat (esc <$> s) ++ [QUOTE].

Definition print_array (l : list bytes) : bytes := 91 :: join (quote <$> l) ++ [93].
Definition print_member (m : bytes * bytes) : bytes := quote m.1 ++ 58 :: m.2.
Definition print_object (ms : list (bytes * bytes)) : bytes := 123 :: join (print_member <$> ms) ++ [125].

Record document := mk_document {
  dc_version : bytes; dc_budgets : ak_budget_limits;
  dc_tools_allow : list bytes; dc_tools_deny : list bytes;
  dc_domains_allow : list bytes; dc_domains_deny : list bytes;
  dc_sources : list bytes; dc_sinks : list bytes; dc_sanitizers : list bytes
}.

Definition print_lists (ms : list (bytes * list bytes)) : bytes :=
  print_object ((fun m => (m.1, print_array m.2)) <$> ms).

Definition print_numbers (ms : list (bytes * Z)) : bytes :=
  print_object ((fun m => (m.1, ak_u64_to_dec m.2)) <$> ms).

Definition budget_members (b : ak_budget_limits) : list (bytes * Z) :=
  [(B"tokens", bl_tokens b); (B"calls", bl_calls b); (B"inference_ms", bl_inference_ms b);
   (B"file_bytes", bl_file_bytes b); (B"network_bytes", bl_network_bytes b); (B"spawn_count", bl_spawn_count b);
   (B"heap_objects", bl_heap_objects b); (B"heap_bytes", bl_heap_bytes b)].

Definition print_document (d : document) : bytes :=
  print_object
    [(B"version", quote (dc_version d));
     (B"budgets", print_numbers (budget_members (dc_budgets d)));
     (B"tools", print_lists [(B"allow", dc_tools_allow d); (B"deny", dc_tools_deny d)]);
     (B"domains", print_lists [(B"allow", dc_domains_allow d); (B"deny", dc_domains_deny d)]);
     (B"taint", print_lists [(B"sources", dc_sources d); (B"sinks", dc_sinks d); (B"sanitizers", dc_sanitizers d)])].

(** ** Strings *)

Lemma esc_cases c :
  (exists e, esc c = [92; e] /\ unescape e = Some c) \/ (esc c = [c] /\ c <> 34 /\ c <> 92).
Proof.
  unfold esc. destruct (Z.eqb_spec c 34) as [->|]; [left; by exists 34|].
  destruct (Z.eqb_spec c 92) as [->|]; [left; by exists 92|].
  destruct (Z.eqb_spec c 10) as [->|]; [left; by exists 110|].
  destruct (Z.eqb_spec c 13) as [->|]; [left; by exists 114|].
  destruct (Z.eqb_spec c 9) as [->|]; [left; by exists 116|]. by right.
Qed.

Lemma string_loop_esc s rest room :
  pj_string_loop (concat (esc <$> s) ++ QUOTE :: rest) room = Ret (take room s, rest).
Proof.
  revert room. induction s as [|c s IH]; intros room.
  - cbn. by destruct room.
  - rewrite fmap_cons. cbn [concat]. rewrite <-app_assoc.
    assert (Hput : put c room (pj_string_loop (concat (esc <$> s) ++ QUOTE :: rest) (pred room)) =
                   Ret (take room (c :: s), rest)) by (rewrite IH; by destruct room).
    destruct (esc_cases c) as [(e & -> & He)|(-> & H1 & H2)]; cbn [app pj_string_loop].
    + by rewrite He.
    + unfold QUOTE, BACKSLASH. destruct (Z.eqb_spec c 34), (Z.eqb_spec c 92); done.
Qed.

Lemma parse_string_quote s rest m :
  pj_parse_string (quote s ++ rest) m = Ret (take (m - 1) s, rest).
Proof. unfold quote, pj_parse_string. rewrite <-app_comm_cons, <-app_assoc. cbn [Z.eqb]. apply string_loop_esc. Qed.

Lemma parse_key_quote k rest m : parse_key (quote k ++ 58 :: rest) m = Ret (take (m - 1) k, rest).
Proof. unfold parse_key. rewrite parse_string_quote. done. Qed.

Lemma skip_ws_quote s rest : pj_skip_ws (quote s ++ rest) = quote s ++ rest.
Proof. done. Qed.

(** ** Lists of strings *)

Section Print.
Context (al : nat -> rule_allocs).

Fixpoint run_list (ops : list rule_op) (st : pstate) : outcome pstate :=
  match ops with
  | [] => Ret st
  | o :: ops' => let* st := run_op al o st in run_list ops' st
  end.

Lemma run_list_app a b st : run_list (a ++ b) st = let* st := run_list a st in run_list b st.
Proof.
  revert st. induction a as [|o a IH]; intros st; [done|]. cbn [app run_list].
  destruct (run_op al o st); [apply IH|done|done].
Qed.

(** Strings that fit the parser's buffers. *)
Definition short (n : nat) (s : bytes) : Prop := (length s < n)%nat.

Lemma take_short n s : short n s -> take (n - 1) s = s.
Proof. unfold short. intros. apply take_ge. lia. Qed.

Lemma quote_head s rest : exists r, quote s ++ rest = QUOTE :: r.
Proof. unfold quote. eauto. Qed.

Lemma string_array_join l fuel rest st cb :
  Forall (short AK_POLICY_MAX_STR) l -> (length l <= fuel)%nat ->
  string_array_loop al fuel (join (quote <$> l) ++ 93 :: rest) st cb =
  let* st := run_list (cb <$> l) st in Ret (rest, st).
Proof.
  intros Hl. revert fuel st. induction Hl as [|s l Hs Hl IH]; intros fuel st Hf; [by destruct fuel|].
  destruct fuel as [|fuel]; [cbn in Hf; lia|]. rewrite !fmap_cons. cbn [run_list].
  assert (Hstep : forall tail, string_array_loop al (S fuel) (quote s ++ tail) st cb =
    let* st := run_op al (cb s) st in
    match pj_skip_ws tail with
    | [] => Null
    | d :: p2 => if d =? 44 then string_array_loop al fuel p2 st cb
                 else if d =? 93 then string_array_loop al fuel (d :: p2) st cb else Null
    end).
  { intros tail. cbn [string_array_loop]. rewrite skip_ws_quote. destruct (quote_head s tail) as [r Er].
    rewrite Er. cbn [Z.eqb QUOTE]. rewrite <-Er, parse_string_quote. cbn [obind fst snd].
    by rewrite take_short. }
  destruct l as [|s' l].
  - cbn [join fmap list_fmap app]. rewrite Hstep. destruct (run_op al (cb s) st); [|done|done]. cbn. by destruct fuel.
  - change (join (quote s :: (quote <$> s' :: l))) with (quote s ++ 44 :: join (quote <$> s' :: l)).
    rewrite <-app_assoc, <-app_comm_cons, Hstep. destruct (run_op al (cb s) st); [|done|done]. cbn [obind pj_skip_ws].
    change (is_ws 44) with false. cbn iota. rewrite Z.eqb_refl. apply IH. cbn [length] in *. lia.
Qed.

Lemma quotes_nonempty l : Forall (fun x => (0 < length x)%nat) (quote <$> l).
Proof. apply Forall_fmap, Forall_true. intros x. cbn. lia. Qed.

Lemma parse_array_print l rest st cb :
  Forall (short AK_POLICY_MAX_STR) l ->
  pj_parse_string_array al (print_array l ++ rest) st cb = let* st := run_list (cb <$> l) st in Ret (rest, st).
Proof.
  intros Hl. unfold pj_parse_string_array, print_array. cbn [app pj_skip_ws]. change (is_ws 91) with false.
  cbn iota. rewrite Z.eqb_refl, <-app_assoc. apply string_array_join; [done|].
  pose proof (length_join _ (quotes_nonempty l)) as Hj. rewrite length_fmap in Hj. rewrite length_app. lia.
Qed.

(** ** Objects *)

(** A member whose value the loop reads back: [sem] is what it does. *)
Definition reads {St} (member : bytes -> bytes -> St -> outcome (bytes * St)) (sem : St -> outcome St)
    (m : bytes * bytes) : Prop :=
  forall c rest st, c = 44 \/ c = 125 -> member m.1 (m.2 ++ c :: rest) st = let* st := sem st in Ret (c :: rest, st).

Lemma skip_comma_44 p : skip_comma (44 :: p) = p.
Proof. done. Qed.
Lemma skip_comma_125 p : skip_comma (125 :: p) = 125 :: p.
Proof. done. Qed.

Fixpoint run_sems {St} (sems : list (St -> outcome St)) (st : St) : outcome St :=
  match sems with
  | [] => Ret st
  | f :: rest => let* st := f st in run_sems rest st
  end.

(** The member loops, as one: [loop (S fuel)] on a quoted key parses the key,
    hands the rest to [member] and goes on after an optional comma. *)
Lemma members_join {St R} (loop : nat -> bytes -> St -> outcome R)
    (member : bytes -> bytes -> St -> outcome (bytes * St)) (fin : St -> outcome R) (ok : bytes -> Prop) tail :
  (forall fuel st, loop (S fuel) (125 :: tail) st = fin st) ->
  (forall fuel k rest st (sem : St -> outcome St) c rest', ok k -> c = 44 \/ c = 125 ->
     member k rest st = (let* st := sem st in Ret (c :: rest', st)) ->
     loop (S fuel) (quote k ++ 58 :: rest) st = let* st := sem st in loop fuel (skip_comma (c :: rest')) st) ->
  forall ms sems, Forall2 (reads member) sems ms -> Forall (fun m => ok m.1) ms ->
  forall fuel st, (length ms < fuel)%nat ->
  loop fuel (join (print_member <$> ms) ++ 125 :: tail) st = let* st := run_sems sems st in fin st.
Proof.
  intros Hend Hstep ms sems Hms. induction Hms as [|sem [k v] sems ms Hm Hms IH]; intros Hk [|fuel] st Hf; cbn [length] in Hf; try lia; [apply Hend|].
  unfold reads in Hm. cbn [fst snd] in Hm.
  inversion Hk as [|? ? Hk1 Hk2]; subst.
  cbn [run_sems]. rewrite fmap_cons. destruct ms as [|m2 ms].
  - cbn [fmap list_fmap join]. unfold print_member. cbn [fst snd]. rewrite <-app_assoc, <-app_comm_cons.
    rewrite (Hstep _ _ _ _ sem 125 tail) by auto. destruct (sem st); [|done|done]. cbn [obind fst snd]. destruct fuel as [|fuel]; [cbn in Hf; lia|]. rewrite skip_comma_125, Hend.
    inversion Hms; subst. done.
  - rewrite fmap_cons. change (join (print_member (k, v) :: print_member m2 :: (print_member <$> ms)))
      with (print_member (k, v) ++ 44 :: join (print_member <$> m2 :: ms)).
    unfold print_member at 1. cbn [fst snd]. rewrite <-!app_assoc. cbn [app].
    rewrite (Hstep _ _ _ _ sem 44 (join (print_member <$> m2 :: ms) ++ 125 :: tail)) by auto. destruct (sem st); [|done|done].
    cbn [obind fst snd]. rewrite skip_comma_44. apply IH; [done|cbn [length] in *; lia].
Qed.

Lemma length_members ms : (length ms <= length (join (print_member <$> ms)))%nat.
Proof.
  rewrite <-(length_fmap print_member ms). apply length_join, Forall_fmap, Forall_true.
  intros [k v]. unfold print_member, quote. cbn. lia.
Qed.

(** String lists under the keys of a field table. *)
Lemma parse_lists_print fields (ms : list (bytes * list bytes)) cbs rest st :
  Forall2 (fun cb m => find_field fields m.1 = Some cb /\ short 64 m.1 /\ Forall (short AK_POLICY_MAX_STR) m.2) cbs ms ->
  pj_parse_array_object al (print_lists ms ++ rest) st fields =
  let* st := run_list (concat (zip_with (fun cb m => cb <$> m.2) cbs ms)) st in Ret (rest, st).
Proof.
  intros Hms. unfold pj_parse_array_object, print_lists, print_object. cbn [app pj_skip_ws].
  change (is_ws 123) with false. cbn iota. rewrite Z.eqb_refl, <-app_assoc. cbn [app].
  rewrite (members_join (fun fuel p st => array_object_loop al fuel p st fields)
    (fun key p st => match find_field fields key with
                     | Some cb => pj_parse_string_array al p st cb
                     | None => let* p2 := pj_skip_value p in Ret (p2, st)
                     end) (fun st => Ret (rest, st)) (short 64) rest) with
    (sems := zip_with (fun cb (m : bytes * list bytes) => run_list (cb <$> m.2)) cbs ms).
  - revert st. induction Hms as [|cb m cbs ms _ _ IH]; intros st; [done|]. cbn [zip_with run_sems concat].
    rewrite run_list_app. destruct (run_list (cb <$> m.2) st); [apply IH|done|done].
  - done.
  - intros fuel k p st' sem c p' Hk _ Hm. cbn [array_object_loop]. rewrite skip_ws_quote. destruct (quote_head k (58 :: p)) as [r Er].
    rewrite Er. cbn [Z.eqb QUOTE]. rewrite <-Er, parse_key_quote, take_short by done. cbn [obind fst snd].
    rewrite Hm. by destruct (sem st').
  - induction Hms as [|cb m cbs ms (Hf & _ & Hl) _ IH]; cbn; constructor; [|done].
    intros c p st' _. cbn [fst snd]. rewrite Hf. by apply parse_array_print.
  - apply Forall_fmap. induction Hms as [|cb m cbs ms (_ & Hk & _) _ IH]; by constructor.
  - rewrite length_app. cbn [length]. pose proof (length_members ((fun m => (m.1, print_array m.2)) <$> ms)). lia.
Qed.

(** Numbers. *)
Lemma u64_loop_digits ds v c rest :
  Forall (fun d => is_dec d = true) ds -> is_dec c = false -> 0 <= v -> dec_value v ds <= UINT64_MAX ->
  pj_u64_loop (ds ++ c :: rest) v = (dec_value v ds, c :: rest).
Proof.
  intros Hds Hc. revert v. induction Hds as [|d ds Hd Hds IH]; intros v H0 Hv; cbn [app pj_u64_loop]; [by rewrite Hc|].
  rewrite Hd. cbv zeta. change (dec_value v (d :: ds)) with (dec_value (v * 10 + (d - 48)) ds) in *.
  unfold is_dec in Hd. bprop. pose proof (dec_value_mono (v * 10 + (d - 48)) ds ltac:(lia) Hds).
  pose proof (Z.mul_succ_div_gt (UINT64_MAX - (d - 48)) 10 ltac:(lia)).
  destruct (Z.ltb_spec ((UINT64_MAX - (d - 48)) / 10) v); [lia|]. apply IH; lia.
Qed.

Definition budget_member (key p : bytes) (st : pstate) : outcome (bytes * pstate) :=
  match pj_skip_ws p with
  | [] => Null
  | d :: p2 =>
      if is_dec d then
        let* v := pj_parse_u64 (d :: p2) in
        Ret (v.2, on_policy (fun q => set_budgets (set_budget key v.1 (budgets q)) q) st)
      else let* p3 := pj_skip_value (d :: p2) in Ret (p3, st)
  end.

Lemma budget_member_print key v c rest st :
  0 <= v <= UINT64_MAX -> is_dec c = false ->
  budget_member key (ak_u64_to_dec v ++ c :: rest) st =
  Ret (c :: rest, on_policy (fun q => set_budgets (set_budget key v (budgets q)) q) st).
Proof.
  intros Hv Hc. destruct (u64_to_dec_spec v Hv) as (Hds & Hval & Hne). unfold budget_member.
  destruct (ak_u64_to_dec v) as [|d ds] eqn:E; [done|]. inversion Hds as [|? ? Hd Hds']; subst.
  assert (Hws : is_ws d = false).
  { unfold is_dec in Hd. bprop. unfold is_ws. zsplit; (lia || done). }
  cbn [app pj_skip_ws]. rewrite Hws, Hd. unfold pj_parse_u64. rewrite Hd. cbn [obind].
  rewrite (app_comm_cons ds (c :: rest) d), u64_loop_digits by (done || lia). done.
Qed.

Definition set_number (m : bytes * Z) (st : pstate) : pstate :=
  on_policy (fun q => set_budgets (set_budget m.1 m.2 (budgets q)) q) st.

Lemma parse_numbers_print (ms : list (bytes * Z)) rest st :
  Forall (fun m => short 32 m.1 /\ 0 <= m.2 <= UINT64_MAX) ms ->
  pj_parse_budgets (print_numbers ms ++ rest) st = Ret (rest, foldl (fun st m => set_number m st) st ms).
Proof.
  intros Hms. unfold pj_parse_budgets, print_numbers, print_object. cbn [app pj_skip_ws].
  change (is_ws 123) with false. cbn iota. rewrite Z.eqb_refl, <-app_assoc. cbn [app].
  rewrite (members_join budgets_loop budget_member (fun st => Ret (rest, st)) (short 32) rest) with
    (sems := (fun m st => Ret (set_number m st)) <$> ms).
  - clear Hms. revert st. induction ms as [|m ms IH]; intros st; [done|]. cbn [fmap list_fmap run_sems obind foldl]. apply IH.
  - done.
  - intros fuel k p st' sem c p' Hk _ Hm. cbn [budgets_loop]. rewrite skip_ws_quote. destruct (quote_head k (58 :: p)) as [r Er].
    rewrite Er. cbn [Z.eqb QUOTE]. rewrite <-Er, parse_key_quote, take_short by done. cbn [obind fst snd].
    transitivity (let* r := budget_member k p st' in budgets_loop fuel (skip_comma r.1) r.2); [|rewrite Hm; by destruct (sem st')].
    unfold budget_member. destruct (pj_skip_ws p) as [|d p2]; [done|]. destruct (is_dec d).
    + by destruct (pj_parse_u64 (d :: p2)) as [[? ?]| |].
    + by destruct (pj_skip_value (d :: p2)).
  - induction Hms as [|[k v] ms (Hk & Hv) _ IH]; cbn; constructor; [|done].
    intros c p st' Hc. cbn [fst snd]. rewrite budget_member_print; [done|done|by destruct Hc as [-> | ->]].
  - apply Forall_fmap. eapply Forall_impl; [exact Hms|]. by intros [k v] [? _].
  - rewrite length_app. cbn [length]. pose proof (length_members ((fun m => (m.1, ak_u64_to_dec m.2)) <$> ms)). lia.
Qed.
End Print.

(** ** Documents *)

(** The rules of a document, in the order the parser meets them. *)
Definition doc_tools (d : document) : list rule_op :=
  ((fun s => AddTool s 1) <$> dc_tools_allow d) ++ ((fun s => AddTool s 0) <$> dc_tools_deny d).
Definition doc_domains (d : document) : list rule_op :=
  ((fun s => AddDomain s 1) <$> dc_domains_allow d) ++ ((fun s => AddDomain s 0) <$> dc_domains_deny d).
Definition doc_taints (d : document) : list rule_op :=
  ((fun s => AddTaint s AK_TAINT_RULE_SOURCE) <$> dc_sources d) ++
  ((fun s => AddTaint s AK_TAINT_RULE_SINK) <$> dc_sinks d) ++
  ((fun s => AddTaint s AK_TAINT_RULE_SANITIZER) <$> dc_sanitizers d).
Definition doc_ops (d : document) : list rule_op := doc_tools d ++ doc_domains d ++ doc_taints d.

Definition short_all : list bytes -> Prop := Forall (short AK_POLICY_MAX_STR).

Record wf_document (d : document) : Prop := {
  wd_version : short 16 (dc_version d);
  wd_budgets : Forall (fun m => 0 <= m.2 <= UINT64_MAX) (budget_members (dc_budgets d));
  wd_tools : short_all (dc_tools_allow d) /\ short_all (dc_tools_deny d);
  wd_domains : short_all (dc_domains_allow d) /\ short_all (dc_domains_deny d);
  wd_taints : short_all (dc_sources d) /\ short_all (dc_sinks d) /\ short_all (dc_sanitizers d)
}.

(** What reading the version and the budgets makes of the fresh policy. *)
Definition with_meta (d : document) (p : ak_policy) : ak_policy :=
  set_budgets (dc_budgets d) (set_version (splice 0 (dc_version d ++ [0]) (version p)) p).

Section Documents.
Context (al : nat -> rule_allocs).

Lemma numbers_set_budgets b st :
  foldl (fun st m => set_number m st) st (budget_members b) = on_policy (set_budgets b) st.
Proof. by destruct b, st as [[? ? ? ? ? ? [] ? ? ? ? ? ? ?] ?]. Qed.

Lemma budget_members_ok b :
  Forall (fun m => 0 <= m.2 <= UINT64_MAX) (budget_members b) ->
  Forall (fun m => short 32 m.1 /\ 0 <= m.2 <= UINT64_MAX) (budget_members b).
Proof.
  intros Hb. unfold budget_members in *. repeat (inversion Hb as [|? ? ? Hb']; subst; clear Hb; rename Hb' into Hb).
  repeat constructor; cbn in *; (lia || done).
Qed.

(** The member functions of a document, on printed values. *)
Definition document_sems (d : document) : list (pstate -> outcome pstate) :=
  [(fun st => Ret (on_policy (fun q => set_version (splice 0 (dc_version d ++ [0]) (version q)) q) st));
   (fun st => Ret (on_policy (set_budgets (dc_budgets d)) st));
   run_list al (doc_tools d); run_list al (doc_domains d); run_list al (doc_taints d)].

Lemma parse_document d st :
  wf_document d ->
  ak_policy_parse_json al st (print_document d) = run_sems (document_sems d) st.
Proof.
  intros []. unfold ak_policy_parse_json, print_document, print_object. cbn [pj_skip_ws].
  change (is_ws 123) with false. cbn iota. rewrite Z.eqb_refl.
  rewrite (members_join (document_loop al) (fun key p st => parse_member al key (pj_skip_ws p) st) Ret (short 64) []) with
    (sems := document_sems d).
  - by destruct (run_sems (document_sems d) st).
  - done.
  - intros fuel k p st' sem c p' Hk _ Hm. cbn [document_loop]. rewrite skip_ws_quote. destruct (quote_head k (58 :: p)) as [r Er].
    rewrite Er. cbn [Z.eqb QUOTE]. rewrite <-Er, parse_key_quote, take_short by done. cbn [obind fst snd].
    rewrite Hm. by destruct (sem st').
  - unfold document_sems. repeat apply Forall2_cons_2; [..|apply Forall2_nil_2]; intros c rest st' _; cbn [fst snd].
    + rewrite skip_ws_quote. change (parse_member al B"version" (quote (dc_version d) ++ c :: rest) st') with
        (let* r := pj_parse_string (quote (dc_version d) ++ c :: rest) 16 in
         Ret (r.2, on_policy (fun q => set_version (splice 0 (r.1 ++ [0]) (version q)) q) st')).
      rewrite parse_string_quote, take_short by done. done.
    + change (parse_member al B"budgets" (pj_skip_ws (print_numbers (budget_members (dc_budgets d)) ++ c :: rest)) st')
        with (pj_parse_budgets (print_numbers (budget_members (dc_budgets d)) ++ c :: rest) st').
      rewrite parse_numbers_print by (by apply budget_members_ok). by rewrite numbers_set_budgets.
    + match goal with |- context [print_lists ?ms] =>
        change (parse_member al B"tools" (pj_skip_ws (print_lists ms ++ c :: rest)) st')
          with (pj_parse_array_object al (print_lists ms ++ c :: rest) st' tool_fields) end.
      rewrite (parse_lists_print al tool_fields _ [(fun s => AddTool s 1); (fun s => AddTool s 0)]).
      * cbn [zip_with concat snd]. by rewrite app_nil_r.
      * repeat constructor; cbn [fst snd]; (lia || tauto).
    + match goal with |- context [print_lists ?ms] =>
        change (parse_member al B"domains" (pj_skip_ws (print_lists ms ++ c :: rest)) st')
          with (pj_parse_array_object al (print_lists ms ++ c :: rest) st' domain_fields) end.
      rewrite (parse_lists_print al domain_fields _ [(fun s => AddDomain s 1); (fun s => AddDomain s 0)]).
      * cbn [zip_with concat snd]. by rewrite app_nil_r.
      * repeat constructor; cbn [fst snd]; (lia || tauto).
    + match goal with |- context [print_lists ?ms] =>
        change (parse_member al B"taint" (pj_skip_ws (print_lists ms ++ c :: rest)) st')
          with (pj_parse_array_object al (print_lists ms ++ c :: rest) st' taint_fields) end.
      rewrite (parse_lists_print al taint_fields _ [(fun s => AddTaint s AK_TAINT_RULE_SOURCE);
        (fun s => AddTaint s AK_TAINT_RULE_SINK); (fun s => AddTaint s AK_TAINT_RULE_SANITIZER)]).
      * cbn [zip_with concat snd]. by rewrite app_nil_r.
      * repeat constructor; cbn [fst snd]; (lia || tauto).
  - repeat constructor; cbn; lia.
  - rewrite length_app. match goal with |- context [print_member <$> ?ms] => pose proof (length_members ms) end. cbn [length] in *. lia.
Qed.
End Documents.

(** ** The decisions of a loaded document *)

Definition all_ok (al : load_allocs) : Prop :=
  la_policy al = true /\ (forall n, la_rules al n = ok_allocs) /\ la_text al = true /\ la_hmac al = true.

Lemma run_list_ok al ops st :
  (forall n, al n = ok_allocs) ->
  exists p, run_list al ops st = Ret (mk_pstate p (ps_count st + length ops)) /\
    run_rule_ops (ps_policy st) ((ok_allocs,.) <$> ops) = Some p.
Proof.
  intros Hal. revert st. induction ops as [|o ops IH]; intros [p n].
  - exists p. rewrite Nat.add_0_r. done.
  - cbn [run_list fmap list_fmap run_rule_ops]. unfold run_op at 1. rewrite Hal. cbn [ps_policy ps_count].
    assert (Hs : exists p', apply_rule_op p (ok_allocs, o) = Some p') by (destruct o; eexists; reflexivity).
    destruct Hs as [p' ->]. cbn [obind]. destruct (IH (mk_pstate p' (S n))) as (q & -> & Hr).
    exists q. split; [|done]. cbn [ps_count length]. by rewrite Nat.add_succ_r.
Qed.

(** The policy a document stands for. *)
Lemma parse_document_ok al d p :
  wf_document d -> (forall n, al n = ok_allocs) ->
  exists q, ak_policy_parse_json al (mk_pstate p 0) (print_document d) = Ret (mk_pstate q (length (doc_ops d))) /\
    run_rule_ops (with_meta d p) ((ok_allocs,.) <$> doc_ops d) = Some q.
Proof.
  intros Hd Hal. rewrite parse_document by done. unfold document_sems. cbn [run_sems obind].
  destruct (run_list_ok al (doc_ops d) (mk_pstate (with_meta d p) 0) Hal) as (q & Hr & Hq).
  exists q. split; [|done]. transitivity (run_list al (doc_ops d) (mk_pstate (with_meta d p) 0)); [|exact Hr].
  unfold doc_ops. rewrite !run_list_app.
  change (on_policy _ (on_policy _ _)) with (mk_pstate (with_meta d p) 0).
  destruct (run_list al (doc_tools d) _) as [s1| |]; [|done|done]. cbn [obind]. rewrite run_list_app.
  destruct (run_list al (doc_domains d) s1) as [s2| |]; [|done|done]. cbn [obind].
  by destruct (run_list al (doc_taints d) s2).
Qed.

Lemma elem_fmap_AddTool a (l : list bytes) n b : AddTool n b ∈ ((fun s => AddTool s a) <$> l) <-> n ∈ l /\ b = a.
Proof.
  rewrite list_elem_of_fmap. split; [by intros (y & [= -> ->] & Hy)|]. intros [Hn ->]. by exists n.
Qed.
Lemma elem_fmap_AddDomain a (l : list bytes) n b : AddDomain n b ∈ ((fun s => AddDomain s a) <$> l) <-> n ∈ l /\ b = a.
Proof.
  rewrite list_elem_of_fmap. split; [by intros (y & [= -> ->] & Hy)|]. intros [Hn ->]. by exists n.
Qed.
Lemma elem_fmap_AddTaint a (l : list bytes) n b : AddTaint n b ∈ ((fun s => AddTaint s a) <$> l) <-> n ∈ l /\ b = a.
Proof.
  rewrite list_elem_of_fmap. split; [by intros (y & [= -> ->] & Hy)|]. intros [Hn ->]. by exists n.
Qed.

(** An operation of another kind is not in a list of this kind. *)
Lemma elem_fmap_other {A} (f : A -> rule_op) (l : list A) o : (forall a, f a <> o) -> o ∈ (f <$> l) <-> False.
Proof. intros Hne. rewrite list_elem_of_fmap. split; [|done]. intros (y & E & _). by apply (Hne y). Qed.

Lemma doc_ops_tool d n a :
  AddTool n a ∈ doc_ops d <-> (a = 1 /\ n ∈ dc_tools_allow d) \/ (a = 0 /\ n ∈ dc_tools_deny d).
Proof.
  unfold doc_ops, doc_tools, doc_domains, doc_taints. rewrite !elem_of_app, !elem_fmap_AddTool.
  rewrite !(elem_fmap_other _ _ (AddTool n a)) by done. tauto.
Qed.
Lemma doc_ops_domain d n a :
  AddDomain n a ∈ doc_ops d <-> (a = 1 /\ n ∈ dc_domains_allow d) \/ (a = 0 /\ n ∈ dc_domains_deny d).
Proof.
  unfold doc_ops, doc_tools, doc_domains, doc_taints. rewrite !elem_of_app, !elem_fmap_AddDomain.
  rewrite !(elem_fmap_other _ _ (AddDomain n a)) by done. tauto.
Qed.
Lemma doc_ops_sink d n : AddTaint n AK_TAINT_RULE_SINK ∈ doc_ops d <-> n ∈ dc_sinks d.
Proof.
  unfold doc_ops, doc_tools, doc_domains, doc_taints. rewrite !elem_of_app, !elem_fmap_AddTaint.
  rewrite !(elem_fmap_other _ _ (AddTaint n AK_TAINT_RULE_SINK)) by done. naive_solver.
Qed.

(** Rules tagged with 1 (allow) or 0 (deny) permit what an allow rule and no
    deny rule matches. *)
Lemma permits_iff (allow deny : list bytes) (M : bytes -> Prop) :
  (forall n a, (a = 1 /\ n ∈ allow) \/ (a = 0 /\ n ∈ deny) -> M n -> a <> 0) /\
  ((exists n a, ((a = 1 /\ n ∈ allow) \/ (a = 0 /\ n ∈ deny)) /\ M n) \/ false = true) <->
  (exists n, n ∈ allow /\ M n) /\ (forall n, n ∈ deny -> ~ M n).
Proof.
  split.
  - intros [Hd [(n & a & [[-> Hn]|[-> Hn]] & Hm)|]]; [|by destruct (Hd n 0 (or_intror (conj eq_refl Hn)) Hm)|done].
    split; [by exists n|]. intros n' Hn' Hm'. by apply (Hd n' 0 (or_intror (conj eq_refl Hn')) Hm').
  - intros [(n & Hn & Hm) Hd]. split; [|left; exists n, 1; auto].
    intros n' a [[-> _]|[-> Hn']] Hm'; [lia|]. by destruct (Hd n' Hn').
Qed.

(** The rule operations leave the other fields alone. *)
Lemma run_rule_ops_budgets ops p q : run_rule_ops p ops = Some q -> budgets q = budgets p.
Proof.
  revert p. induction ops as [|[[[] []] o] ops IH]; intros p; cbn [run_rule_ops]; [by intros [= ->]|..];
    destruct o; cbn; try done; intros Hq; by rewrite (IH _ Hq).
Qed.

(** The integrity stage and the version record change no rule. *)
Definition same_rules (p q : ak_policy) : Prop :=
  tool_rules p = tool_rules q /\ domain_rules p = domain_rules q /\ taint_rules p = taint_rules q /\
  default_tool_allow p = default_tool_allow q /\ default_domain_allow p = default_domain_allow q /\
  budgets p = budgets q.

Lemma init_version_rules alloc json now p : same_rules (init_version alloc json now p) p.
Proof. by destruct alloc. Qed.

Lemma built_same ops p0 p q : same_rules q p -> built ops p0 p -> built ops p0 q.
Proof. intros (H1 & H2 & H3 & H4 & H5 & _) []. by split; rewrite ?H1, ?H2, ?H3, ?H4, ?H5. Qed.

(** a document means its rules.  Loading a printed document succeeds, sets
    its budgets, and yields a policy that allows a tool (a domain) exactly when
    one of the document's allow patterns matches it and none of its deny
    patterns does, and that treats exactly the document's sinks as sinks; it is
    never marked as verified when no key is configured. *)
Theorem document_means_its_rules `{Hash} cfg al d now :
  wf_document d -> verify_key cfg = None -> all_ok al ->
  exists p, ak_policy_load cfg al (Some (print_document d)) now = Ret p /\
    budgets p = dc_budgets d /\ signature_verified p = false /\
    (forall t, ak_policy_check_tool (Some p) (Some t) = true <->
      (exists n, n ∈ dc_tools_allow d /\ Glob (cstr n) (cstr t)) /\
      (forall n, n ∈ dc_tools_deny d -> ~ Glob (cstr n) (cstr t))) /\
    (forall t, ak_policy_check_domain (Some p) (Some t) = true <->
      (exists n, n ∈ dc_domains_allow d /\ Glob (cstr n) (cstr t)) /\
      (forall n, n ∈ dc_domains_deny d -> ~ Glob (cstr n) (cstr t))) /\
    (forall s, ak_policy_is_sink (Some p) (Some s) = true <-> exists n, n ∈ dc_sinks d /\ cstr n = cstr s).
Proof.
  intros Hd Hkey (Hp & Hal & _ & _). unfold ak_policy_load. rewrite Hp. cbn [negb].
  destruct (parse_document_ok (la_rules al) d (fresh_policy default_budgets false false) Hd Hal) as (q & -> & Hq).
  cbn [obind ps_policy]. unfold check_integrity. rewrite Hkey.
  replace (length (print_document d) =? 0)%nat with false by done.
  set (p1 := set_verified false _). set (p := init_version _ _ _ p1).
  assert (Hs : same_rules p q) by (subst p p1; by destruct (la_version al)).
  pose proof (run_rule_ops_built [] _ _ _ _ (built_empty (with_meta d (fresh_policy default_budgets false false))
    ltac:(done)) Hq) as Hb. cbn [app] in Hb.
  assert (E2 : ((ok_allocs,.) <$> doc_ops d).*2 = doc_ops d)
    by (rewrite <-list_fmap_compose; apply list_fmap_id).
  rewrite E2 in Hb.
  apply (built_same _ _ _ p Hs) in Hb. exists p. split; [done|].
  split; [destruct Hs as (_ & _ & _ & _ & _ & ->); by rewrite (run_rule_ops_budgets _ _ _ Hq)|].
  split; [subst p p1; by destruct (la_version al)|]. split; [|split].
  - intros t. rewrite (built_check_tool _ _ _ t Hb). setoid_rewrite doc_ops_tool. apply permits_iff.
  - intros t. rewrite (built_check_domain _ _ _ t Hb). setoid_rewrite doc_ops_domain. apply permits_iff.
  - intros s. rewrite (built_is_sink _ _ _ s Hb). setoid_rewrite doc_ops_sink. done.
Qed.

Definition demo_document : document :=
  mk_document B"2.0" (mk_limits 5 4 3 2 1 7 8 9) [B"file_*"; B"http"] [B"file_rm"] [B"*.com"] [B"evil.com"]
    [] [B"shell_exec"] [].
Definition demo_allocs : load_allocs := mk_load_allocs true (fun _ => ok_allocs) true true true true.

Lemma wf_demo : wf_document demo_document.
Proof. split; cbn; repeat constructor; cbn; unfold UINT64_MAX; lia. Qed.

Lemma document_means_its_rules_witness :
  exists p, ak_policy_load (mk_config true true None) demo_allocs (Some (print_document demo_document)) 7 = Ret p /\
    ak_policy_check_tool (Some p) (Some B"file_read") = true /\
    ak_policy_check_tool (Some p) (Some B"file_rm") = false.
Proof.
  destruct (document_means_its_rules (mk_config true true None) demo_allocs demo_document 7 wf_demo eq_refl
    ltac:(by repeat split)) as (p & Hp & _ & _ & Ht & _).
  exists p. split; [exact Hp|]. split.
  - apply Ht. split.
    + exists (B"file_*"). split; [by left|]. by apply ak_pattern_matchP.
    + intros n Hn%list_elem_of_singleton. subst n. intros Hg. by apply ak_pattern_matchP in Hg.
  - destruct (ak_policy_check_tool (Some p) (Some B"file_rm")) eqn:E; [|done].
    apply Ht in E. destruct E as [_ E]. exfalso. apply (E B"file_rm"); [by left|]. apply Glob_refl.
Defined.

(** ** Loading untrusted bytes *)

(** What the parser keeps, whatever it reads: the rules stay ordered with the
    denials first, the defaults and the size of the signature do not change. *)
Definition parsed_ok (st : pstate) : Prop :=
  length (signature (ps_policy st)) = AK_SIG_SIZE /\
  exists ops, built ops (fresh_policy default_budgets false false) (ps_policy st).

Lemma apply_rule_op_signature p o p' : apply_rule_op p o = Some p' -> signature p' = signature p.
Proof. destruct o as [[[] []] []]; cbn; try done; by intros [= <-]. Qed.

Lemma parse_keeps_ok al data :
  match ak_policy_parse_json al (mk_pstate (fresh_policy default_budgets false false) 0) data with
  | Ret st => parsed_ok st | Null => True | Oob => False
  end.
Proof.
  apply parse_json_good; unfold parsed_ok.
  - intros o [p n] st' [Hl [ops Hb]]. unfold run_op. cbn [ps_policy ps_count] in *.
    destruct (apply_rule_op p _) as [p'|] eqn:E; [|done]. intros [= <-]. cbn [ps_policy].
    rewrite (apply_rule_op_signature _ _ _ E). split; [done|]. eauto using apply_rule_op_built.
  - intros v st [Hl [ops []]]. split; [done|]. exists ops. by split.
  - intros text s st [Hl [ops []]] Hs. split; [by eapply length_parse_signature|]. exists ops. by split.
  - intros k v st [Hl [ops []]]. split; [done|]. exists ops. by split.
  - split; [done|]. exists []. by apply built_empty.
Qed.

(** A name passes exactly when some rule matches it and every matching rule
    allows it. *)
Definition deny_unless_all_allow (p : ak_policy) : Prop :=
  (forall t, ak_policy_check_tool (Some p) (Some t) = true <->
    (exists r, r ∈ tool_rules p /\ tool_matches r t = true) /\
    (forall r, r ∈ tool_rules p -> tool_matches r t = true -> tr_allow r = true)) /\
  (forall t, ak_policy_check_domain (Some p) (Some t) = true <->
    (exists r, r ∈ domain_rules p /\ domain_matches r t = true) /\
    (forall r, r ∈ domain_rules p -> domain_matches r t = true -> dr_allow r = true)).

(** Deny-first lists with a denying default permit what some rule matches and
    every matching rule allows. *)
Lemma built_rules_decide ops p :
  built ops (fresh_policy default_budgets false false) p -> deny_unless_all_allow p.
Proof.
  intros Hb. split; intros t; unfold ak_policy_check_tool, ak_policy_check_domain.
  - rewrite check_tool_rules_first_match, first_match_denies_first, (bt_tool_default _ _ _ Hb)
      by exact (bt_tool_order _ _ _ Hb). cbn.
    split; [by intros [? [?|?]]|]. intros [? ?]. split; [done|by left].
  - rewrite check_domain_rules_first_match, first_match_denies_first, (bt_dom_default _ _ _ Hb)
      by exact (bt_dom_order _ _ _ Hb). cbn.
    split; [by intros [? [?|?]]|]. intros [? ?]. split; [done|by left].
Qed.

(** loading fails closed.  Whatever the bytes and the allocation outcomes,
    a load with a configured key stays inside its input and returns no policy,
    or a policy that is marked verified, whose signature carries the MAC of its
    stored hash, whose hash is that of its own canonical text when that text
    could be allocated, and which permits a tool (a domain) exactly when a rule
    matches it and every matching rule allows it. *)
Theorem load_fails_closed `{Hash} cfg al dat now key :
  verify_key cfg = Some key ->
  match ak_policy_load cfg al dat now with
  | Oob => False
  | Null => True
  | Ret p =>
      signature_verified p = true /\
      take AK_MAC_SIZE (signature p) = ak_policy_hmac_sha256 (la_hmac al) key (policy_hash p) /\
      (la_text al = true -> policy_hash p = ak_sha256 (ak_policy_serialize p)) /\
      deny_unless_all_allow p
  end.
Proof.
  intros Hkey. unfold ak_policy_load. destruct dat as [d|]; [|done].
  destruct (length d =? 0)%nat; [done|]. destruct (la_policy al); [|done]. cbn [negb].
  pose proof (parse_keeps_ok (la_rules al) d) as Hg. destruct (ak_policy_parse_json _ _ _) as [[q n]| |]; [|done|done].
  destruct Hg as [Hl [ops Hb]]. cbn [obind ps_policy] in *. unfold check_integrity. rewrite Hkey.
  destruct (ak_policy_signature_is_empty _) eqn:Ee; [done|]. cbn [orb].
  destruct (ak_policy_verify_signature _ _ _ _) eqn:Ev; [|done]. cbn [negb].
  set (p1 := set_verified true _). assert (Hs : same_rules (init_version (la_version al)
    (if la_json al then Some d else None) now p1) q) by (by destruct (la_version al)).
  pose proof (built_same _ _ _ _ Hs Hb) as Hb'.
  assert (E : signature (init_version (la_version al) (if la_json al then Some d else None) now p1) = signature q /\
    policy_hash (init_version (la_version al) (if la_json al then Some d else None) now p1) =
      ak_policy_compute_hash (la_text al) q (policy_hash q) /\
    signature_verified (init_version (la_version al) (if la_json al then Some d else None) now p1) = true)
    by (by destruct (la_version al)).
  assert (Et : ak_policy_serialize (init_version (la_version al) (if la_json al then Some d else None) now p1) =
    ak_policy_serialize q) by (by destruct (la_version al)).
  destruct E as (-> & -> & ->). rewrite Et.
  split; [done|]. split; [|split; [by intros ->|by apply (built_rules_decide ops)]].
  unfold ak_policy_verify_signature in Ev. rewrite Ee in Ev. unfold ak_policy_constant_time_compare in Ev.
  cbn [signature policy_hash set_hash] in Ev. apply constant_time_compareP in Ev as <-.
  - apply take_ge. unfold ak_policy_hmac_sha256. by rewrite length_hmac.
  - unfold ak_policy_hmac_sha256. by rewrite length_hmac.
  - rewrite Hl. unfold AK_MAC_SIZE, AK_SIG_SIZE. lia.
Qed.

(** A document signed with the key of the configuration. *)
Definition demo_key : bytes := B"0123456789abcdef0123456789abcdef".
Definition with_signature (sig : bytes) : bytes :=
  print_object [(B"tools", print_lists [(B"allow", [B"file_*"])]); (B"signature", quote (ak_hex_encode sig))].
Definition demo_signed : bytes :=
  with_signature
    match ak_policy_load (mk_config true false None) demo_allocs (Some (with_signature [])) 7 with
    | Ret p => ak_policy_hmac_sha256 true demo_key (policy_hash p) | _ => []
    end.

Lemma load_fails_closed_witness :
  exists p, ak_policy_load (mk_config true false (Some demo_key)) demo_allocs (Some demo_signed) 7 = Ret p /\
    signature_verified p = true.
Proof.
  pose proof (load_fails_closed (mk_config true false (Some demo_key)) demo_allocs (Some demo_signed) 7 demo_key
    eq_refl) as Hl.
  assert (Hr : match ak_policy_load (mk_config true false (Some demo_key)) demo_allocs (Some demo_signed) 7 with
    Ret _ => true | _ => false end = true) by (vm_compute; reflexivity).
  destruct (ak_policy_load _ _ _ _) as [p| |]; [|done|done]. exists p. by destruct Hl.
Defined.

(** ** Upgrade and rollback *)

(** The rule operations change the rule lists only, and the lists they yield
    depend on the lists they start from only. *)
Definition rules_of (p : ak_policy) := (tool_rules p, domain_rules p, taint_rules p).
Definition put_rules (r : list ak_tool_rule * list ak_domain_rule * list ak_taint_rule) (p : ak_policy) : ak_policy :=
  set_taint_rules r.2 (set_domain_rules r.1.2 (set_tool_rules r.1.1 p)).

Lemma apply_rule_op_put o p r : 
  apply_rule_op (put_rules r p) o = (fun q => put_rules (rules_of q) p) <$> apply_rule_op (put_rules r p) o.
Proof. by destruct o as [[[] []] []]. Qed.

Lemma apply_rule_op_rules o p p' r :
  rules_of <$> apply_rule_op (put_rules r p) o = rules_of <$> apply_rule_op (put_rules r p') o.
Proof. by destruct o as [[[] []] []]. Qed.

Lemma run_rule_ops_put ops p p' r q :
  run_rule_ops (put_rules r p) ops = Some q ->
  q = put_rules (rules_of q) p /\ run_rule_ops (put_rules r p') ops = Some (put_rules (rules_of q) p').
Proof.
  revert r. induction ops as [|o ops IH]; intros r; cbn [run_rule_ops]; [by intros [= <-]|].
  pose proof (apply_rule_op_put o p r) as H1. pose proof (apply_rule_op_put o p' r) as H2.
  pose proof (apply_rule_op_rules o p p' r) as H3.
  destruct (apply_rule_op (put_rules r p) o) as [q1|]; [|done].
  destruct (apply_rule_op (put_rules r p') o) as [q2|]; [|done]. cbn [fmap option_fmap option_map] in *.
  apply Some_inj in H1, H2, H3. intros Hq. rewrite H1 in Hq. rewrite H2, <-H3. exact (IH _ Hq).
Qed.

(** Parsing a printed document onto a policy without rules. *)
Definition doc_rules (d : document) : list ak_tool_rule * list ak_domain_rule * list ak_taint_rule :=
  match run_rule_ops (fresh_policy default_budgets false false) ((ok_allocs,.) <$> doc_ops d) with
  | Some q => rules_of q | None => ([], [], [])
  end.

Lemma put_rules_none p : no_rules p -> put_rules ([], [], []) p = p.
Proof. destruct p. by intros (<- & <- & <-). Qed.

Lemma parse_document_rules al d p :
  wf_document d -> (forall n, al n = ok_allocs) -> no_rules p ->
  ak_policy_parse_json al (mk_pstate p 0) (print_document d) =
  Ret (mk_pstate (put_rules (doc_rules d) (with_meta d p)) (length (doc_ops d))).
Proof.
  intros Hd Hal Hp. destruct (parse_document_ok al d p Hd Hal) as (q & -> & Hq). do 2 f_equal.
  rewrite <-(put_rules_none (with_meta d p)) in Hq by exact Hp.
  destruct (run_rule_ops_put _ _ (fresh_policy default_budgets false false) _ _ Hq) as [-> Hf].
  unfold doc_rules. change (put_rules ([], [], []) (fresh_policy _ _ _)) with (fresh_policy default_budgets false false) in Hf.
  rewrite Hf. done.
Qed.

Definition every_ok (al : load_allocs) : Prop := all_ok al /\ la_version al = true /\ la_json al = true.

(** Without a configured key the policy a document stands for, on top of the
    fields [p] keeps, with its hash. *)
Definition doc_policy `{Hash} (d : document) (p : ak_policy) : ak_policy :=
  let q := put_rules (doc_rules d) (with_meta d p) in set_verified false (set_hash (ak_sha256 (ak_policy_serialize q)) q).

Lemma load_document `{Hash} cfg al d now :
  wf_document d -> verify_key cfg = None -> every_ok al ->
  ak_policy_load cfg al (Some (print_document d)) now =
  Ret (init_version true (Some (print_document d)) now (doc_policy d (fresh_policy default_budgets false false))).
Proof.
  intros Hd Hkey ((Hp & Hal & Ht & _) & Hv & Hj). unfold ak_policy_load. rewrite Hp, Ht, Hv, Hj. cbn [negb].
  rewrite parse_document_rules by done. cbn [obind ps_policy]. unfold check_integrity. rewrite Hkey. done.
Qed.

Definition fits_upgrade (d : document) : Prop := Z.of_nat (length (print_document d)) <= 1024 * 1024.

Lemma parse_rules_document `{Hash} cfg al d p :
  wf_document d -> verify_key cfg = None -> every_ok al -> fits_upgrade d ->
  ak_policy_parse_rules cfg al p (print_document d) = Ret (commit p (doc_policy d (stage p))).
Proof.
  intros Hd Hkey ((_ & Hal & Ht & _) & _ & _) Hf. unfold ak_policy_parse_rules, fits_upgrade in *.
  destruct (Z.eqb_spec (Z.of_nat (length (print_document d))) 0) as [E|_];
    [unfold print_document, print_object in E; cbn [length] in E; lia|].
  destruct (Z.ltb_spec (1024 * 1024) (Z.of_nat (length (print_document d)))); [lia|]. cbn [orb].
  rewrite parse_document_rules by done. cbn [obind ps_policy]. unfold check_integrity. rewrite Hkey, Ht. done.
Qed.

(** The fields of the committed policy, given those of the document. *)
Lemma commit_document `{Hash} p d :
  let c := commit p (doc_policy d (stage p)) in
  let f := doc_policy d (fresh_policy default_budgets false false) in
  same_rules c f /\ versions c = versions p /\ version_count c = version_count p /\
  version c = splice 0 (dc_version d ++ [0]) (version p) /\ version f = splice 0 (dc_version d ++ [0]) (AK_POLICY_VERSION ++ zeros 13).
Proof.
  unfold doc_policy. cbv zeta. generalize (doc_rules d). intros r.
  generalize (ak_sha256 (ak_policy_serialize (put_rules r (with_meta d (stage p))))).
  generalize (ak_sha256 (ak_policy_serialize (put_rules r (with_meta d (fresh_policy default_budgets false false))))).
  intros h1 h2. by repeat split.
Qed.

Lemma same_rules_trans p q r : same_rules p q -> same_rules q r -> same_rules p r.
Proof. unfold same_rules. intuition congruence. Qed.

Lemma set_versions_same l n p : same_rules (set_versions l n p) p.
Proof. by destruct p. Qed.
Lemma set_hash_same h p : same_rules (set_hash h p) p.
Proof. by destruct p. Qed.
Lemma same_rules_sym p q : same_rules p q -> same_rules q p.
Proof. unfold same_rules. intuition congruence. Qed.

Lemma compatible_next v : 1 < v <= 101 -> ak_policy_is_compatible 1 v = true.
Proof.
  intros Hv. unfold ak_policy_is_compatible. destruct (Z.leb_spec v 1); [lia|]. destruct (v =? _); [done|].
  apply Z.leb_le. unfold u32. rewrite Z.mod_small; lia.
Qed.

(** A written version text reads back. *)
Lemma cstr_splice v w : cstr (splice 0 (v ++ [0]) w) = cstr v.
Proof.
  unfold splice. rewrite <-app_assoc. generalize (drop (0 + length (v ++ [0])) w). intros rest.
  rewrite take_0. cbn [app]. induction v as [|c v IH]; [done|].
  cbn [app cstr]. by destruct (c =? 0); [|rewrite IH].
Qed.

(** an upgrade can be undone.  A loaded document that is upgraded to a
    later version and rolled back decides as it did before: the same rules,
    defaults and budgets, the same version text, hash and version history; the
    upgrade itself takes the rules of the new document. *)
Theorem upgrade_then_rollback `{Hash} cfg al d1 d2 v now t :
  wf_document d1 -> wf_document d2 -> fits_upgrade d1 -> fits_upgrade d2 ->
  verify_key cfg = None -> every_ok al -> 1 < v <= 101 ->
  exists p1 p2 p3,
    ak_policy_load cfg al (Some (print_document d1)) now = Ret p1 /\
    ak_policy_upgrade cfg al p1 (Some (print_document d2)) v t = (AK_POLICY_OK, p2) /\
    ak_policy_get_version (Some p2) = v /\
    (exists q, ak_policy_load cfg al (Some (print_document d2)) t = Ret q /\ same_rules p2 q) /\
    ak_policy_rollback cfg al p2 = (AK_POLICY_OK, p3) /\
    same_rules p3 p1 /\ cstr (version p3) = cstr (version p1) /\ policy_hash p3 = policy_hash p1 /\
    versions p3 = versions p1 /\ version_count p3 = version_count p1.
Proof.
  intros Hd1 Hd2 Hf1 Hf2 Hkey Hal Hv. pose proof Hal as (_ & Hav & Haj).
  set (f1 := doc_policy d1 (fresh_policy default_budgets false false)).
  set (v1 := mk_version 1 now (policy_hash f1) (Some (print_document d1))).
  set (p1 := set_versions [v1] 1 f1).
  assert (H1 : ak_policy_load cfg al (Some (print_document d1)) now = Ret p1) by (by apply load_document).
  set (c2 := commit p1 (doc_policy d2 (stage p1))).
  destruct (commit_document p1 d2) as (Hs2 & Hl2 & Hn2 & Hv2 & _). fold c2 in Hs2, Hl2, Hn2, Hv2.
  set (p2 := set_versions (mk_version v t (policy_hash c2) (Some (print_document d2)) :: versions c2)
    (u32 (version_count c2 + 1)) c2).
  assert (H2 : ak_policy_upgrade cfg al p1 (Some (print_document d2)) v t = (AK_POLICY_OK, p2)).
  { unfold ak_policy_upgrade. change (ak_policy_get_version (Some p1)) with 1.
    destruct (Z.leb_spec v 1); [lia|]. rewrite compatible_next by lia.
    rewrite Hav, Haj. cbn [negb]. by rewrite (parse_rules_document cfg al d2). }
  set (c3 := commit p2 (doc_policy d1 (stage p2))).
  destruct (commit_document p2 d1) as (Hs3 & _ & Hn3 & Hv3 & Hf). fold c3 f1 in Hs3, Hn3, Hv3, Hf.
  exists p1, p2, (set_hash (ver_hash v1) (set_versions [v1] (if 0 <? version_count c3 then version_count c3 - 1
    else version_count c3) c3)).
  split; [done|]. split; [done|]. split; [done|]. split.
  { eexists. split; [by apply load_document|]. eapply same_rules_trans; [apply set_versions_same|].
    eapply same_rules_trans; [exact Hs2|]. apply same_rules_sym, set_versions_same. }
  split; [|split; [|split; [|split; [done|split; [done|]]]]].
  - unfold ak_policy_rollback. change (versions p2) with (mk_version v t (policy_hash c2) (Some (print_document d2))
      :: versions c2). rewrite Hl2. change (versions p1) with [v1]. cbn [rules_json v1].
    by rewrite (parse_rules_document cfg al d1).
  - eapply same_rules_trans; [apply set_hash_same|]. eapply same_rules_trans; [apply set_versions_same|].
    eapply same_rules_trans; [exact Hs3|]. apply same_rules_sym, set_versions_same.
  - change (cstr (version c3) = cstr (version f1)). by rewrite Hv3, Hf, !cstr_splice.
  - change ((if 0 <? version_count c3 then version_count c3 - 1 else version_count c3) = 1). rewrite Hn3.
    change (version_count p2) with (u32 (version_count c2 + 1)). rewrite Hn2. done.
Qed.

Definition demo_document2 : document :=
  mk_document B"3" default_budgets [B"*"] [] [] [] [] [] [].

Lemma upgrade_then_rollback_witness :
  exists p1 p2 p3,
    ak_policy_load (mk_config true true None) demo_allocs (Some (print_document demo_document)) 7 = Ret p1 /\
    ak_policy_upgrade (mk_config true true None) demo_allocs p1 (Some (print_document demo_document2)) 5 8 =
      (AK_POLICY_OK, p2) /\
    ak_policy_rollback (mk_config true true None) demo_allocs p2 = (AK_POLICY_OK, p3) /\ same_rules p3 p1.
Proof.
  destruct (upgrade_then_rollback (mk_config true true None) demo_allocs demo_document demo_document2 5 7 8)
    as (p1 & p2 & p3 & H1 & H2 & _ & _ & H3 & H4 & _); [exact wf_demo|..|exists p1, p2, p3; by split_and!].
  - split; cbn; repeat constructor; cbn; unfold UINT64_MAX; lia.
  - unfold fits_upgrade. vm_compute. discriminate.
  - unfold fits_upgrade. vm_compute. discriminate.
  - done.
  - by repeat split.
  - lia.
Defined.

(** ** Where the canonical text and the history fall short *)

(** Names are written between quotes without escaping: one rule whose name
    contains the separator has the text, hence the hash and the signature, of
    two rules; the second denial is lost. *)
Definition two_denies : ak_policy :=
  set_tool_rules [mk_tool_rule (Some B"a") false; mk_tool_rule (Some B"b") false]
    (fresh_policy default_budgets true false).
Definition one_deny : ak_policy :=
  set_tool_rules [mk_tool_rule (Some (B"a" ++ [QUOTE] ++ B": deny" ++ NL ++ B"  - " ++ [QUOTE] ++ B"b")) false]
    (fresh_policy default_budgets true false).

Lemma canonical_text_ambiguous :
  ak_policy_serialize two_denies = ak_policy_serialize one_deny /\
  ak_policy_check_tool (Some two_denies) (Some B"b") = false /\
  ak_policy_check_tool (Some one_deny) (Some B"b") = true.
Proof. split_and!; vm_compute; reflexivity. Qed.

(** The built-in policy keeps no document for its version record: rolling back
    to it succeeds and leaves the rules of the upgrade in force, under the hash
    of the built-in policy. *)
Definition rollback_to_default : option (bool * bool * bool) :=
  match ak_policy_default true ok_allocs ok_allocs true true 1 with
  | None => None
  | Some p =>
      match ak_policy_upgrade (mk_config true true None) demo_allocs p (Some (print_document demo_document2)) 2 5 with
      | (AK_POLICY_OK, p2) =>
          match ak_policy_rollback (mk_config true true None) demo_allocs p2 with
          | (AK_POLICY_OK, p3) => Some (bytes_eqb (policy_hash p3) (policy_hash p),
              ak_policy_check_tool (Some p) (Some B"shell"), ak_policy_check_tool (Some p3) (Some B"shell"))
          | _ => None
          end
      | _ => None
      end
  end.

Lemma rollback_to_default_keeps_rules : rollback_to_default = Some (true, false, true).
Proof. vm_compute. reflexivity. Qed.
