(* ===== verification/Dispatch.v ===== *)
(** * Request dispatch ([src/src/agentic/ak_syscall.c], [ak_ipc.c])

    [ak_dispatch] with its stages (request validation, anti-replay,
    capability, policy, execution, audit), the agent contexts, and granting
    and revoking.  The handlers of the operations are a parameter, a function
    of the operation number: the theorems hold whatever they do.  Contexts,
    policies and tokens are values; the clock readings, allocation outcomes and
    the contents of uninitialised stack are fields of the environment. *)

From S2P Require Import Prelude Crypto Format Pattern Budget Sequence Keys.
From S2P Require Import TokenTable Revocation Capability AuditLog AuditDisk Recovery Json Policy.

Definition AK_CAP_SPAWN : Z := 5.
Definition AK_CAP_LLM : Z := 7.
Definition AK_CAP_IPC : Z := 8.
Definition AK_SYS_BASE : Z := 1024.

(** ** Data *)

Record ak_request := mk_req {
  rq_pid : bytes; rq_run_id : bytes; rq_seq : Z; rq_op : Z; rq_args : option bytes;
  rq_cap : option ak_capability; rq_taint : Z
}.

Inductive ak_status := AK_STATUS_OK | AK_STATUS_ERROR.
Record ak_response := mk_res {
  rs_pid : bytes; rs_run_id : bytes; rs_seq : Z; rs_status : ak_status; rs_error : Z; rs_result : option bytes
}.

(** [delegated_caps]: the table's values in iteration order. *)
Record ak_agent_context := mk_ctx {
  cx_pid : bytes; cx_run_id : bytes; root_cap : option ak_capability;
  delegated_caps : option (list ak_capability); cx_policy : option ak_policy;
  cx_budget : option ak_budget_tracker; cx_seq : option ak_seq_tracker
}.

Definition set_seq (t : ak_seq_tracker) (c : ak_agent_context) : ak_agent_context :=
  mk_ctx (cx_pid c) (cx_run_id c) (root_cap c) (delegated_caps c) (cx_policy c) (cx_budget c) (Some t).
Definition set_cap (cap : option ak_capability) (r : ak_request) : ak_request :=
  mk_req (rq_pid r) (rq_run_id r) (rq_seq r) (rq_op r) (rq_args r) cap (rq_taint r).

Record ak_dispatch_stats := mk_stats {
  total_requests : Z; successful_requests : Z; failed_requests : Z; replay_attempts : Z;
  capability_failures : Z; policy_denials : Z; budget_exceeded : Z; op_counts : list Z
}.

(** [ak_state] and the state of the subsystems it drives. *)
Record kernel := mk_kernel {
  initialized : bool; kn_caps : cap_state; kn_disk : disk_state; kn_stats : ak_dispatch_stats;
  default_policy : option ak_policy
}.

Definition set_caps (c : cap_state) (k : kernel) : kernel :=
  mk_kernel (initialized k) c (kn_disk k) (kn_stats k) (default_policy k).
Definition set_disk (d : disk_state) (k : kernel) : kernel :=
  mk_kernel (initialized k) (kn_caps k) d (kn_stats k) (default_policy k).
Definition on_stats (f : ak_dispatch_stats -> ak_dispatch_stats) (k : kernel) : kernel :=
  mk_kernel (initialized k) (kn_caps k) (kn_disk k) (f (kn_stats k)) (default_policy k).

Definition count_total (s : ak_dispatch_stats) : ak_dispatch_stats :=
  let '(mk_stats t o f r c p b n) := s in mk_stats (u64 (t + 1)) o f r c p b n.
Definition count_replay (s : ak_dispatch_stats) : ak_dispatch_stats :=
  let '(mk_stats t o f r c p b n) := s in mk_stats t o f (u64 (r + 1)) c p b n.
Definition count_cap (s : ak_dispatch_stats) : ak_dispatch_stats :=
  let '(mk_stats t o f r c p b n) := s in mk_stats t o f r (u64 (c + 1)) p b n.
Definition count_policy (s : ak_dispatch_stats) : ak_dispatch_stats :=
  let '(mk_stats t o f r c p b n) := s in mk_stats t o f r c (u64 (p + 1)) b n.
Definition count_budget (s : ak_dispatch_stats) : ak_dispatch_stats :=
  let '(mk_stats t o f r c p b n) := s in mk_stats t o f r c p (u64 (b + 1)) n.
Definition count_op (op : Z) (s : ak_dispatch_stats) : ak_dispatch_stats :=
  let '(mk_stats t o f r c p b n) := s in
  if (AK_SYS_BASE <=? op) && (op - AK_SYS_BASE <? 16)
  then let i := Z.to_nat (op - AK_SYS_BASE) in mk_stats t o f r c p b (<[i := u64 (n !!! i + 1)]> n)
  else s.
Definition count_result (res : option ak_response) (s : ak_dispatch_stats) : ak_dispatch_stats :=
  let '(mk_stats t o f r c p b n) := s in
  match res with
  | Some rs => if rs_error rs =? 0 then mk_stats t (u64 (o + 1)) f r c p b n else mk_stats t o (u64 (f + 1)) r c p b n
  | None => mk_stats t o (u64 (f + 1)) r c p b n
  end.

(** ** Responses *)

Definition ak_response_success (alloc : bool) (req : option ak_request) (result : option bytes) : option ak_response :=
  if negb alloc then None
  else Some match req with
            | Some r => mk_res (rq_pid r) (rq_run_id r) (rq_seq r) AK_STATUS_OK 0 result
            | None => mk_res (zeros 16) (zeros 16) 0 AK_STATUS_OK 0 result
            end.

Definition ak_response_error (alloc : bool) (req : option ak_request) (error_code : Z) : option ak_response :=
  if negb alloc then None
  else Some match req with
            | Some r => mk_res (rq_pid r) (rq_run_id r) (rq_seq r) AK_STATUS_ERROR error_code None
            | None => mk_res (zeros 16) (zeros 16) 0 AK_STATUS_ERROR error_code None
            end.

(** ** Environment of one dispatch *)

(** Clock readings and allocations of one token validation. *)
Record val_env := mk_venv { ve_now_verify : Z; ve_now_rate : Z; ve_alloc_mac : bool; ve_alloc_rate : bool }.

(** [de_val i] is the environment of the [i]-th validation, [de_stack] what an
    uninitialised hash buffer holds. *)
Record dispatch_env := mk_denv {
  de_val : nat -> val_env; de_alloc_res : bool; de_stack : bytes; de_now_log : Z; de_append : append_env
}.

(** ** Stages *)

(** [ak_op_to_string]. *)
Definition ak_op_to_string (op : Z) : bytes :=
  if op =? AK_SYS_READ then B"READ"
  else if op =? AK_SYS_ALLOC then B"ALLOC"
  else if op =? AK_SYS_WRITE then B"WRITE"
  else if op =? AK_SYS_DELETE then B"DELETE"
  else if op =? AK_SYS_QUERY then B"QUERY"
  else if op =? AK_SYS_BATCH then B"BATCH"
  else if op =? AK_SYS_COMMIT then B"COMMIT"
  else if op =? AK_SYS_CALL then B"CALL"
  else if op =? AK_SYS_SPAWN then B"SPAWN"
  else if op =? AK_SYS_SEND then B"SEND"
  else if op =? AK_SYS_RECV then B"RECV"
  else if op =? AK_SYS_RESPOND then B"RESPOND"
  else if op =? AK_SYS_ASSERT then B"ASSERT"
  else if op =? AK_SYS_INFERENCE then B"INFERENCE"
  else B"UNKNOWN".

Definition ak_validate_request (ctx : option ak_agent_context) (req : option ak_request) : Z :=
  match ctx, req with
  | Some ctx, Some req =>
      if negb (ak_token_id_equal (rq_pid req) (cx_pid ctx)) then - EPERM
      else if negb (ak_token_id_equal (rq_run_id req) (cx_run_id ctx)) then AK_E_CAP_RUN_MISMATCH
      else if (rq_op req <? AK_SYS_READ) || (AK_SYS_INFER_POLL <? rq_op req) then - EINVAL
      else 0
  | _, _ => - EINVAL
  end.

(** The result and the context with its tracker updated. *)
Definition ak_check_replay (ctx : ak_agent_context) (req : ak_request) : outcome (Z * ak_agent_context) :=
  match cx_seq ctx with
  | None => Ret (- EINVAL, ctx)
  | Some t => let* r := ak_seq_tracker_check t (rq_seq req) in Ret (r.1, set_seq r.2 ctx)
  end.

(** Operations that need no capability. *)
Definition cap_exempt (op : Z) : bool :=
  (op =? AK_SYS_BUDGET_STATUS) || (op =? AK_SYS_BUDGET_HISTORY) ||
  (op =? AK_SYS_BUDGET_BREAKDOWN) || (op =? AK_SYS_INFER_POLL).

(** The [switch] of [ak_validate_capability]: the required type, the resource
    and the method, or [None] for the early return of [AK_E_CAP_SCOPE]. *)
Definition cap_requirement (req : ak_request) : option (Z * bytes * bytes) :=
  let op := rq_op req in
  let args := rq_args req in
  if (op =? AK_SYS_READ) || (op =? AK_SYS_WRITE) || (op =? AK_SYS_DELETE) then
    Some (AK_CAP_HEAP, ak_u64_to_dec (json_u64 args B"ptr"), ak_op_to_string op)
  else if op =? AK_SYS_ALLOC then
    Some (AK_CAP_HEAP, ak_u64_to_dec (json_u64 args B"type"), ak_op_to_string op)
  else if op =? AK_SYS_BATCH then Some (AK_CAP_HEAP, B"*", ak_op_to_string op)
  else if op =? AK_SYS_CALL then
    match nonempty_field args B"tool" 80 with
    | Some t => Some (AK_CAP_TOOL, t, B"invoke") | None => None
    end
  else if (op =? AK_SYS_INFERENCE) || (op =? AK_SYS_INFER_ISSUE) then
    match nonempty_field args B"model" 80 with
    | Some m => Some (AK_CAP_LLM, m, B"inference") | None => None
    end
  else if op =? AK_SYS_SPAWN then
    Some (AK_CAP_SPAWN, match nonempty_field args B"program" 80 with Some p => p | None => B"*" end, B"spawn")
  else if op =? AK_SYS_SEND then
    match nonempty_field args B"to" 80 with
    | Some t => Some (AK_CAP_IPC, t, ak_op_to_string op) | None => None
    end
  else if op =? AK_SYS_RECV then Some (AK_CAP_IPC, B"*", ak_op_to_string op)
  else if op =? AK_SYS_QUERY then Some (AK_CAP_ANY, B"audit_log", ak_op_to_string op)
  else Some (AK_CAP_ANY, B"*", ak_op_to_string op).

Section Dispatch.
Context `{Hash} (raw_s : bytes -> bytes).

Definition validate_one (env : val_env) (st : cap_state) (c : ak_capability) (need : Z * bytes * bytes)
    (run : bytes) : Z * cap_state :=
  ak_capability_validate raw_s st (Some c) need.1.1 (Some need.1.2) (Some need.2) (Some run)
    (ve_now_verify env) (ve_now_rate env) (ve_alloc_mac env) (ve_alloc_rate env).

(** [table_foreach (ctx->delegated_caps, ..)]: the first token that validates. *)
Fixpoint find_delegated (env : nat -> val_env) (i : nat) (st : cap_state) (caps : list ak_capability)
    (need : Z * bytes * bytes) (run : bytes) : option ak_capability * cap_state :=
  match caps with
  | [] => (None, st)
  | c :: rest =>
      let '(rv, st') := validate_one (env i) st c need run in
      if rv =? 0 then (Some c, st') else find_delegated env (S i) st' rest need run
  end.

(** The error, the request with its effective capability, and the capability
    state. *)
Definition ak_validate_capability (env : nat -> val_env) (st : cap_state) (ctx : ak_agent_context)
    (req : ak_request) : Z * ak_request * cap_state :=
  if cap_exempt (rq_op req) then (0, req, st)
  else match cap_requirement req with
  | None => (AK_E_CAP_SCOPE, req, st)
  | Some need =>
      match rq_cap req with
      | Some c => let '(rv, st') := validate_one (env 0%nat) st c need (cx_run_id ctx) in (rv, req, st')
      | None =>
          match root_cap ctx with
          | Some c =>
              let '(rv, st') := validate_one (env 0%nat) st c need (cx_run_id ctx) in
              (rv, if rv =? 0 then set_cap (Some c) req else req, st')
          | None =>
              match delegated_caps ctx with
              | Some (c0 :: rest) =>
                  match find_delegated env 0 st (c0 :: rest) need (cx_run_id ctx) with
                  | (Some c, st') => (0, set_cap (Some c) req, st')
                  | (None, st') => (AK_E_CAP_SCOPE, req, st')
                  end
              | _ => (AK_E_CAP_MISSING, req, st)
              end
          end
      end
  end.

Definition ak_check_policy (ctx : ak_agent_context) (req : ak_request) : Z :=
  match cx_policy ctx with
  | None => - EINVAL
  | Some p => ak_policy_evaluate (Some p) (cx_budget ctx) (Some (mk_preq (rq_op req) (rq_args req) (rq_taint req)))
  end.

Definition log_event_of (env : dispatch_env) (ctx : ak_agent_context) (req : ak_request) (res : option ak_response)
    : log_event :=
  mk_event (cx_pid ctx) (cx_run_id ctx) (rq_op req) (ak_audit_hash_request (rq_args req))
    (match res with Some r => ak_audit_hash_response (rs_result r) | None => zeros 32 end)
    (match cx_policy ctx with Some p => Policy.policy_hash p | None => de_stack env end) (de_now_log env).

Definition ak_log_operation (env : dispatch_env) (k : kernel) (ctx : ak_agent_context) (req : ak_request)
    (res : option ak_response) : Z * kernel :=
  let '(rv, d) := ak_audit_append (kn_disk k) (log_event_of env ctx req res) (de_append env) in (rv, set_disk d k).

(** ** The dispatcher *)

(** The handler of each operation. *)
Context (handler : Z -> kernel -> ak_agent_context -> ak_request -> option ak_response * kernel * ak_agent_context).

Definition handled (op : Z) : bool := (AK_SYS_READ <=? op) && (op <=? AK_SYS_INFER_POLL).

(** [dp_ran] records the request a handler was called with. *)
Record dispatched := mk_dispatched {
  dp_res : option ak_response; dp_kernel : kernel; dp_ctx : ak_agent_context; dp_ran : option ak_request
}.

Definition refuse (env : dispatch_env) (k : kernel) (ctx : ak_agent_context) (req : ak_request) (err : Z) : dispatched :=
  mk_dispatched (ak_response_error (de_alloc_res env) (Some req) err) k ctx None.

(** Stages 1 to 5: everything up to [audit_and_return]. *)
Definition dispatch_stages (env : dispatch_env) (k : kernel) (ctx : ak_agent_context) (req : ak_request)
    : outcome dispatched :=
  let err := ak_validate_request (Some ctx) (Some req) in
  if negb (err =? 0) then Ret (refuse env k ctx req err)
  else
    let* r := ak_check_replay ctx req in
    let ctx := r.2 in
    if r.1 =? AK_E_REPLAY then Ret (refuse env (on_stats count_replay k) ctx req AK_E_REPLAY)
    else
      let '(err, req, caps) := ak_validate_capability (de_val env) (kn_caps k) ctx req in
      let k := set_caps caps k in
      if negb (err =? 0) then Ret (refuse env (on_stats count_cap k) ctx req err)
      else
        let err := ak_check_policy ctx req in
        if err =? AK_E_POLICY_DENIED then Ret (refuse env (on_stats count_policy k) ctx req AK_E_POLICY_DENIED)
        else if err =? AK_E_BUDGET_EXCEEDED
        then Ret (refuse env (on_stats count_budget k) ctx req AK_E_BUDGET_EXCEEDED)
        else
          let '(res, k, ctx) :=
            if handled (rq_op req) then handler (rq_op req) k ctx req
            else (ak_response_error (de_alloc_res env) (Some req) (- ENOSYS), k, ctx) in
          Ret (mk_dispatched res (on_stats (count_op (rq_op req)) k) ctx (Some req)).

Definition ak_dispatch (env : dispatch_env) (k : kernel) (ctx : option ak_agent_context) (req : option ak_request)
    : outcome (option ak_response * kernel * option ak_agent_context * option ak_request) :=
  if negb (initialized k) then Ret (ak_response_error (de_alloc_res env) req (- EINVAL), k, ctx, None)
  else match ctx, req with
  | Some ctx, Some req =>
      let* d := dispatch_stages env (on_stats count_total k) ctx req in
      let k := (ak_log_operation env (dp_kernel d) (dp_ctx d) req (dp_res d)).2 in
      Ret (dp_res d, on_stats (count_result (dp_res d)) k, Some (dp_ctx d), dp_ran d)
  | _, _ => Ret (ak_response_error (de_alloc_res env) req (- EINVAL), k, ctx, None)
  end.
End Dispatch.

(** ** Agent contexts, grants and revocation *)

Definition AK_LIFECYCLE_SPAWN : Z := 0.
Definition AK_LIFECYCLE_EXIT : Z := 1.
Definition AK_LIFECYCLE_CRASH : Z := 2.
Definition AK_LIFECYCLE_TIMEOUT : Z := 3.

(** Random bytes, clock readings and allocations of a context operation. *)
Record ctx_env := mk_cenv {
  ce_alloc : bool; ce_rnd_pid : bytes; ce_rnd_run : bytes; ce_alloc_budget : bool; ce_now_budget : Z;
  ce_alloc_seq : bool; ce_alloc_table : bool; ce_now_log : Z; ce_append : append_env
}.

Section Contexts.
Context `{Hash} (raw_s : bytes -> bytes).

Definition log_lifecycle (k : kernel) (ctx : ak_agent_context) (event now_ms : Z) (env : append_env) : kernel :=
  set_disk (ak_audit_append (kn_disk k) (lifecycle_event (cx_pid ctx) (cx_run_id ctx) event now_ms) env).2 k.

(** [None] is NULL. *)
Definition ak_context_create (env : ctx_env) (k : kernel) (pid : option bytes) (policy : option ak_policy)
    : option ak_agent_context * kernel :=
  if negb (ce_alloc env) then (None, k)
  else
    let pid := match pid with Some p => take AK_TOKEN_ID_SIZE p | None => take AK_TOKEN_ID_SIZE (ce_rnd_pid env) end in
    let run := take AK_TOKEN_ID_SIZE (ce_rnd_run env) in
    let policy := match policy with Some p => Some p | None => default_policy k end in
    match ak_budget_create (ce_alloc_budget env) (budgets <$> policy) (ce_now_budget env) with
    | None => (None, k)
    | Some budget =>
        match ak_seq_tracker_create (ce_alloc_seq env) (Some pid) (Some run) with
        | None => (None, k)
        | Some t =>
            if negb (ce_alloc_table env) then (None, k)
            else
              let ctx := mk_ctx pid run None (Some []) policy (Some budget) (Some t) in
              (Some ctx, log_lifecycle k ctx AK_LIFECYCLE_SPAWN (ce_now_log env) (ce_append env))
        end
    end.

(** The clock readings, allocations and append of a revocation. *)
Record rev_env := mk_renv {
  re_now : Z; re_now_log : Z; re_alloc_reason : bool; re_alloc : bool; re_append : append_env
}.

Definition revoke_run (env : rev_env) (k : kernel) (run reason : bytes) : kernel :=
  let '(rev, d) := ak_revocation_revoke_run (cs_rev (kn_caps k)) (kn_disk k) run reason (re_now env) (re_now_log env)
                     (re_alloc_reason env) (re_alloc env) (re_append env) in
  set_disk d (set_caps (mk_cap_state (cs_keys (kn_caps k)) rev (cs_rate (kn_caps k))) k).

(** The kernel when the context is gone. *)
Definition ak_context_destroy (env : rev_env) (env_log : append_env) (now_log : Z) (k : kernel)
    (ctx : option ak_agent_context) : kernel :=
  match ctx with
  | None => k
  | Some ctx => log_lifecycle (revoke_run env k (cx_run_id ctx) B"agent_exit") ctx AK_LIFECYCLE_EXIT now_log env_log
  end.

(** The new context, the kernel and what [run_id_out] receives. *)
Definition ak_context_new_run (env : ctx_env) (renv : rev_env) (k : kernel) (ctx : ak_agent_context)
    : ak_agent_context * kernel * option bytes :=
  let k := revoke_run renv k (cx_run_id ctx) B"new_run" in
  let run := take AK_TOKEN_ID_SIZE (ce_rnd_run env) in
  let ctx1 := mk_ctx (cx_pid ctx) run (root_cap ctx) (delegated_caps ctx) (cx_policy ctx) (cx_budget ctx) (cx_seq ctx) in
  match ak_budget_create (ce_alloc_budget env) (budgets <$> cx_policy ctx) (ce_now_budget env) with
  | None => (ctx1, k, None)
  | Some budget =>
      match ak_seq_tracker_create (ce_alloc_seq env) (Some (cx_pid ctx)) (Some run) with
      | None => (ctx1, k, None)
      | Some t => (mk_ctx (cx_pid ctx) run (root_cap ctx) (delegated_caps ctx) (cx_policy ctx) (Some budget) (Some t),
                   k, Some run)
      end
  end.

Definition ak_handle_agent_crash (env : rev_env) (env_log : append_env) (now_log : Z) (k : kernel)
    (ctx : option ak_agent_context) : kernel :=
  match ctx with
  | None => k
  | Some ctx => log_lifecycle (revoke_run env k (cx_run_id ctx) B"crash") ctx AK_LIFECYCLE_CRASH now_log env_log
  end.

Definition ak_handle_agent_timeout (env : rev_env) (env_log : append_env) (now_log : Z) (k : kernel)
    (ctx : option ak_agent_context) : kernel :=
  match ctx with
  | None => k
  | Some ctx => log_lifecycle (revoke_run env k (cx_run_id ctx) B"timeout") ctx AK_LIFECYCLE_TIMEOUT now_log env_log
  end.

(** A granted token joins the store when there is one. *)
Definition ak_grant_capability (k : kernel) (ctx : option ak_agent_context) (type : Z) (resource : option bytes)
    (methods : option (list bytes)) (ttl limit window now_ms : Z) (rnd : bytes) (alloc alloc_mac : bool)
    : Z * option ak_agent_context :=
  match ctx with
  | None => (- EINVAL, None)
  | Some ctx =>
      match ak_capability_create raw_s (kn_caps k) type resource methods ttl limit window (Some (cx_run_id ctx))
              now_ms rnd alloc alloc_mac with
      | None => (- ENOMEM, Some ctx)
      | Some c =>
          (0, Some (mk_ctx (cx_pid ctx) (cx_run_id ctx) (root_cap ctx)
                      ((fun l => l ++ [c]) <$> delegated_caps ctx) (cx_policy ctx) (cx_budget ctx) (cx_seq ctx)))
      end
  end.

Definition ak_revoke_capability (env : rev_env) (k : kernel) (ctx : option ak_agent_context) (tid : option bytes) : kernel :=
  match ctx, tid with
  | Some _, Some tid =>
      let '(rev, d) := ak_revocation_add (cs_rev (kn_caps k)) (kn_disk k) tid B"explicit_revoke" (re_now env)
                         (re_now_log env) (re_alloc_reason env) (re_alloc env) (re_append env) in
      set_disk d (set_caps (mk_cap_state (cs_keys (kn_caps k)) rev (cs_rate (kn_caps k))) k)
  | _, _ => k
  end.

Definition ak_revoke_run (env : rev_env) (k : kernel) (ctx : option ak_agent_context) : kernel :=
  match ctx with
  | None => k
  | Some ctx => revoke_run env k (cx_run_id ctx) B"run_revoked"
  end.
End Contexts.

(** ** Mediation *)

(** The tokens a request may be authorized by. *)
Definition candidate (ctx : ak_agent_context) (req : ak_request) (c : ak_capability) : Prop :=
  match rq_cap req, root_cap ctx with
  | Some c', _ => c = c'
  | None, Some c' => c = c'
  | None, None => exists l, delegated_caps ctx = Some l /\ c ∈ l
  end.

Record wf_ctx (ctx : ak_agent_context) : Prop := {
  wx_pid : length (cx_pid ctx) = 16%nat;
  wx_run : length (cx_run_id ctx) = 16%nat;
  wx_seq : exists t, cx_seq ctx = Some t /\ wf_seq t
}.

Record wf_req (req : ak_request) : Prop := {
  wq_pid : length (rq_pid req) = 16%nat;
  wq_run : length (rq_run_id req) = 16%nat;
  wq_seq : is_u64 (rq_seq req)
}.

Section Mediation.
Context `{Hash} (raw_s : bytes -> bytes).

(** A token that is genuine, not expired at the clock reading of its
    validation, unrevoked and whose scope covers the access. *)
Definition authorizes (env : val_env) (st : cap_state) (c : ak_capability) (need : Z * bytes * bytes) (run : bytes) : Prop :=
  (exists key, ak_key_get (cs_keys st) (cap_kid c) = Some key /\ mac c = cap_mac raw_s (ve_alloc_mac env) key c /\
     ve_now_verify env <= u64 (issued_ms c + ttl_ms c)) /\
  ak_revocation_find_locked (cs_rev st) (tid c) = None /\
  in_scope st c need.1.1 need.1.2 (Some need.2) (Some run).

Lemma validate_one_keeps env st c need run :
  cs_keys (validate_one raw_s env st c need run).2 = cs_keys st /\
  cs_rev (validate_one raw_s env st c need run).2 = cs_rev st.
Proof.
  unfold validate_one, ak_capability_validate. destruct (_ <? 0); [done|].
  destruct (ak_revocation_check _ _); [done|]. unfold ak_capability_check_scope.
  repeat match goal with |- context [if ?b then (_, st) else _] => destruct b; [done|] end.
  destruct (0 <? rate_limit c); [|done].
  by destruct (ak_rate_limit_check _ _ _ _ _ _) as [[] r].
Qed.

Lemma validate_one_authorizes env st c need run :
  wf_cap c -> length run = 16%nat -> (validate_one raw_s env st c need run).1 = 0 -> authorizes env st c need run.
Proof.
  intros Hc Hr H0. apply validate_spec in H0 as (Hk & Hrev & Hs & _); [|done|by intros r [= <-]].
  split; [done|]. split; [done|]. destruct Hs. by split.
Qed.

Lemma authorizes_keys env st st' c need run :
  cs_keys st' = cs_keys st -> cs_rev st' = cs_rev st -> authorizes env st' c need run -> authorizes env st c need run.
Proof.
  intros Hk Hr (H1 & H2 & []). rewrite Hk in H1. rewrite Hr in H2.
  split; [done|]. split; [done|]. by split.
Qed.

Lemma find_delegated_sound env caps i st need run c st' :
  Forall wf_cap caps -> length run = 16%nat ->
  find_delegated raw_s env i st caps need run = (Some c, st') -> c ∈ caps /\ exists j, authorizes (env j) st c need run.
Proof.
  intros Hwf Hr. revert i st. induction Hwf as [|x caps Hx Hwf IH]; intros i st E; cbn [find_delegated] in E; [done|].
  pose proof (validate_one_keeps (env i) st x need run) as [Hk Hv].
  pose proof (validate_one_authorizes (env i) st x need run Hx Hr) as Ha.
  destruct (validate_one raw_s (env i) st x need run) as [rv st1]. cbn [fst snd] in *.
  destruct (rv =? 0) eqn:E0.
  - apply Z.eqb_eq in E0 as ->. injection E as <- _. split; [left|]. exists i. by apply Ha.
  - apply IH in E as (Hin & j & Hau). split; [by right|]. exists j. by eapply authorizes_keys.
Qed.

(** Stage 3 passes only on the authority of a token the agent holds. *)
Lemma capability_stage env st ctx req req' st' :
  (forall c, candidate ctx req c -> wf_cap c) -> length (cx_run_id ctx) = 16%nat ->
  ak_validate_capability raw_s env st ctx req = (0, req', st') ->
  cap_exempt (rq_op req) = true \/
  exists c need i, candidate ctx req c /\ cap_requirement req = Some need /\
    authorizes (env i) st c need (cx_run_id ctx) /\ rq_cap req' = Some c.
Proof.
  intros Hwf Hrun. unfold ak_validate_capability, candidate in *.
  destruct (cap_exempt (rq_op req)); [by left|]. intros E. right.
  destruct (cap_requirement req) as [need|]; [|by injection E as E _ _].
  destruct (rq_cap req) as [c|] eqn:Ec; [|destruct (root_cap ctx) as [c|]].
  - pose proof (validate_one_authorizes (env 0%nat) st c need (cx_run_id ctx) (Hwf c eq_refl) Hrun) as Ha.
    destruct (validate_one raw_s (env 0%nat) st c need (cx_run_id ctx)) as [rv st1]. injection E as -> <- <-.
    exists c, need, 0%nat. auto.
  - pose proof (validate_one_authorizes (env 0%nat) st c need (cx_run_id ctx) (Hwf c eq_refl) Hrun) as Ha.
    destruct (validate_one raw_s (env 0%nat) st c need (cx_run_id ctx)) as [rv st1]. injection E as -> <- <-.
    exists c, need, 0%nat. auto.
  - destruct (delegated_caps ctx) as [[|c0 rest]|]; [by injection E as E _ _| |by injection E as E _ _].
    destruct (find_delegated raw_s env 0 st (c0 :: rest) need (cx_run_id ctx)) as [[c|] st1] eqn:Ef; [|done].
    injection E as <- <-. apply find_delegated_sound in Ef as (Hin & j & Ha); [|by apply list.Forall_forall; eauto|done].
    exists c, need, j. split; [eauto|]. auto.
Qed.

(** What the policy stage lets through. *)
Definition policy_passed (ctx : ak_agent_context) (req : ak_request) : Prop :=
  forall p, cx_policy ctx = Some p ->
    evaluate_budget (cx_budget ctx) (rq_op req) = true /\
    (rq_op req = AK_SYS_CALL ->
     exists tool, nonempty_field (rq_args req) B"tool" 64 = Some tool /\
       ak_policy_check_tool (Some p) (Some tool) = true /\ evaluate_target (Some p) (rq_args req) = true).

Lemma policy_stage ctx req :
  ak_check_policy ctx req <> AK_E_POLICY_DENIED -> ak_check_policy ctx req <> AK_E_BUDGET_EXCEEDED ->
  policy_passed ctx req.
Proof.
  intros Hd Hb p Hp. unfold ak_check_policy in Hd, Hb. rewrite Hp in Hd, Hb.
  unfold ak_policy_evaluate in Hd, Hb. cbn [pr_op pr_args pr_taint] in Hd, Hb.
  destruct (evaluate_budget (cx_budget ctx) (rq_op req)); cbn [negb] in Hd, Hb; [|done].
  split; [done|]. intros Hop. rewrite Hop in Hd. cbn [Z.eqb] in Hd. rewrite Z.eqb_refl in Hd.
  destruct (nonempty_field (rq_args req) B"tool" 64) as [tool|]; [|done]. exists tool. split; [done|].
  destruct (ak_policy_check_tool _ _); [|done]. destruct (evaluate_target _ _); [|done]. done.
Qed.
End Mediation.

(** ** The dispatcher's guarantees *)

Section Guarantees.
Context `{Hash} (raw_s : bytes -> bytes).
Context (handler : Z -> kernel -> ak_agent_context -> ak_request -> option ak_response * kernel * ak_agent_context).

Lemma validate_request_zero ctx req :
  wf_ctx ctx -> wf_req req -> ak_validate_request (Some ctx) (Some req) = 0 ->
  rq_pid req = cx_pid ctx /\ rq_run_id req = cx_run_id ctx /\ AK_SYS_READ <= rq_op req <= AK_SYS_INFER_POLL.
Proof.
  intros [Hp Hr _] [Hqp Hqr _]. unfold ak_validate_request.
  pose proof (token_id_equalP _ _ Hqp Hp) as Hpid. pose proof (token_id_equalP _ _ Hqr Hr) as Hrun.
  destruct (ak_token_id_equal (rq_pid req) _); cbn [negb]; [|done].
  destruct (ak_token_id_equal (rq_run_id req) _); cbn [negb]; [|done].
  destruct (_ || _) eqn:Eo; [done|]. intros _. bprop. split; [by apply Hpid|]. split; [by apply Hrun|done].
Qed.

Lemma validate_capability_fields env st ctx req e req' st' :
  ak_validate_capability raw_s env st ctx req = (e, req', st') ->
  rq_op req' = rq_op req /\ rq_args req' = rq_args req /\ rq_taint req' = rq_taint req /\ rq_seq req' = rq_seq req.
Proof.
  unfold ak_validate_capability. destruct (cap_exempt _); [by intros [= _ <- _]|].
  destruct (cap_requirement req); [|by intros [= _ <- _]].
  destruct (rq_cap req); [destruct (validate_one _ _ _ _ _ _); by intros [= _ <- _]|].
  destruct (root_cap ctx).
  - destruct (validate_one _ _ _ _ _ _) as [rv ?]. intros [= _ <- _]. by destruct (rv =? 0).
  - destruct (delegated_caps ctx) as [[|]|]; [by intros [= _ <- _]| |by intros [= _ <- _]].
    destruct (find_delegated _ _ _ _ _ _ _) as [[|] ?]; by intros [= _ <- _].
Qed.

Lemma set_seq_same t ctx : cx_seq ctx = Some t -> set_seq t ctx = ctx.
Proof. by destruct ctx; intros [= ->]. Qed.

(** What an execution has passed, with the tracker moved from [t] to [t1]. *)
Record passed (env : dispatch_env) (k : kernel) (ctx : ak_agent_context) (req : ak_request)
    (t t1 : ak_seq_tracker) (req' : ak_request) (caps : cap_state) : Prop := {
  ps_pid : rq_pid req = cx_pid ctx;
  ps_run : rq_run_id req = cx_run_id ctx;
  ps_op : AK_SYS_READ <= rq_op req <= AK_SYS_INFER_POLL;
  ps_fresh : highest_seen t < rq_seq req /\ highest_seen t1 = rq_seq req;
  ps_cap : ak_validate_capability raw_s (de_val env) (kn_caps k) (set_seq t1 ctx) req = (0, req', caps);
  ps_policy : ak_check_policy (set_seq t1 ctx) req' <> AK_E_POLICY_DENIED /\
              ak_check_policy (set_seq t1 ctx) req' <> AK_E_BUDGET_EXCEEDED
}.

Ltac refused t t1 :=
  eexists _, t, t1; split; [reflexivity|]; split; [reflexivity|]; split; [done|]; split; [lia|]; left; done.

(** The outcome of the stages: a refusal, or a call of the handler after every
    check has passed. *)
Lemma stages_cases env k ctx req :
  wf_ctx ctx -> wf_req req ->
  exists d t t1, dispatch_stages raw_s handler env k ctx req = Ret d /\
    cx_seq ctx = Some t /\ wf_seq t1 /\ highest_seen t <= highest_seen t1 /\
    ((dp_ran d = None /\ kn_disk (dp_kernel d) = kn_disk k /\ dp_ctx d = set_seq t1 ctx) \/
     exists req' caps k1, dp_ran d = Some req' /\ passed env k ctx req t t1 req' caps /\
       handler (rq_op req) (set_caps caps k) (set_seq t1 ctx) req' = (dp_res d, k1, dp_ctx d) /\
       kn_disk (dp_kernel d) = kn_disk k1).
Proof.
  intros Hc Hq. destruct (wx_seq _ Hc) as (t & Ht & Hwt). unfold dispatch_stages.
  pose proof (validate_request_zero ctx req Hc Hq) as Hv0. rewrite Ht.
  destruct (Z.eqb_spec (ak_validate_request (Some ctx) (Some req)) 0) as [E0|]; cbn [negb].
  2:{ eexists _, t, t. split; [done|]. split; [done|]. split; [done|]. split; [lia|]. left. by rewrite set_seq_same. }
  destruct (Hv0 E0) as (Hp & Hr & Hop). unfold ak_check_replay. rewrite Ht.
  destruct (check_cases t (rq_seq req) Hwt (wq_seq _ Hq)) as (rv & t1 & -> & Hw1 & Hcase). cbn [obind fst snd].
  destruct (Z.leb_spec (rq_seq req) (highest_seen t)) as [|Hgt].
  { destruct Hcase as (-> & Hh & _). rewrite Z.eqb_refl. refused t t1. }
  destruct Hcase as (Hrv & Hh & _).
  destruct (Z.eqb_spec rv AK_E_REPLAY) as [->|Hnr]; [by destruct (_ <? _)|].
  destruct (ak_validate_capability raw_s (de_val env) (kn_caps k) (set_seq t1 ctx) req) as [[e req'] caps] eqn:Ev.
  pose proof (validate_capability_fields _ _ _ _ _ _ _ Ev) as (Eo & _).
  destruct (Z.eqb_spec e 0) as [->|]; cbn [negb]; [|refused t t1].
  destruct (Z.eqb_spec (ak_check_policy (set_seq t1 ctx) req') AK_E_POLICY_DENIED) as [|Hnd]; [refused t t1|].
  destruct (Z.eqb_spec (ak_check_policy (set_seq t1 ctx) req') AK_E_BUDGET_EXCEEDED) as [|Hnb]; [refused t t1|].
  assert (handled (rq_op req') = true) as ->
    by (rewrite Eo; unfold handled; rewrite !(proj2 (Z.leb_le _ _)) by lia; done).
  rewrite Eo. destruct (handler (rq_op req) (set_caps caps k) (set_seq t1 ctx) req') as [[res k1] ctx'] eqn:Eh.
  eexists _, t, t1. split; [done|]. split; [done|]. split; [done|]. split; [lia|].
  right. exists req', caps, k1. split; [done|]. split; [by constructor|]. done.
Qed.

(** C1: mediation.  Whatever the handlers do, a handler runs only for a request
    whose process and run identifiers are those of the context, whose operation
    exists, whose sequence number is above every one seen before, and which
    either is one of the four introspection operations, which need no token, or
    is authorized by a token that the agent presents or holds: its MAC passes the
    test (as an all-zero one does when the buffer of the test cannot be
    allocated, [Capability.zero_mac_accepted]), it is not expired at the clock
    reading of its validation, it is not revoked, and its scope covers the
    operation on its target.  Of the policy only the
    budget and, for tool calls, the tool and target rules are enforced; a taint
    violation is not ([taint_violation_executed]). *)
Theorem executed_request_mediated env k ctx req res k' ctx' r :
  wf_ctx ctx -> wf_req req -> (forall c, candidate ctx req c -> wf_cap c) ->
  ak_dispatch raw_s handler env k (Some ctx) (Some req) = Ret (res, k', ctx', Some r) ->
  initialized k = true /\
  rq_pid req = cx_pid ctx /\ rq_run_id req = cx_run_id ctx /\ AK_SYS_READ <= rq_op req <= AK_SYS_INFER_POLL /\
  (exists t, cx_seq ctx = Some t /\ highest_seen t < rq_seq req) /\
  (cap_exempt (rq_op req) = true \/
   exists c need i, candidate ctx req c /\ cap_requirement req = Some need /\
     authorizes raw_s (de_val env i) (kn_caps k) c need (cx_run_id ctx) /\ rq_cap r = Some c) /\
  policy_passed ctx req.
Proof.
  intros Hc Hq Hcand. unfold ak_dispatch. destruct (initialized k) eqn:Ei; cbn [negb]; [|done].
  destruct (stages_cases env (on_stats count_total k) ctx req Hc Hq) as (d & t & t1 & -> & Ht & Hw1 & Hle & Hcase).
  cbn [obind]. intros [= _ _ _ Hr]. destruct Hcase as [(Hn & _)|(req' & caps & k1 & Hran & [] & _)]; [congruence|].
  rewrite Hran in Hr. injection Hr as <-.
  pose proof (validate_capability_fields _ _ _ _ _ _ _ ps_cap0) as (Eo & Ea & Et & _).
  split; [done|]. split; [done|]. split; [done|]. split; [done|]. split; [exists t; tauto|]. split.
  - exact (capability_stage raw_s (de_val env) (kn_caps k) (set_seq t1 ctx) req req' caps Hcand (wx_run _ Hc) ps_cap0).
  - intros p Hpol. destruct ps_policy0 as [Hd Hb].
    destruct (policy_stage (set_seq t1 ctx) req' Hd Hb p Hpol) as [H1 H2]. rewrite Eo in *. rewrite Ea in *. done.
Qed.

(** A created context is well-formed and holds no token. *)
Lemma context_create_spec env k pid policy ctx k1 :
  (forall p, pid = Some p -> length p = 16%nat) -> length (ce_rnd_pid env) = 16%nat -> length (ce_rnd_run env) = 16%nat ->
  ak_context_create env k pid policy = (Some ctx, k1) ->
  wf_ctx ctx /\ root_cap ctx = None /\ delegated_caps ctx = Some [].
Proof.
  intros Hp Hrp Hrr. unfold ak_context_create. destruct (ce_alloc env); cbn [negb]; [|done].
  destruct (ak_budget_create _ _ _); [|done]. unfold ak_seq_tracker_create.
  destruct (ce_alloc_seq env); [|done]. destruct (ce_alloc_table env); cbn [negb]; [|done]. intros [= <- _].
  split; [|done]. split; cbn; unfold AK_TOKEN_ID_SIZE.
  - destruct pid as [p|]; rewrite length_take; [rewrite (Hp p eq_refl)|]; lia.
  - rewrite length_take. lia.
  - eexists. split; [done|]. split; [done|]. unfold is_u64; cbn. lia.
Qed.

(** confinement of a new agent.  An agent that was just created and granted
    nothing can, without presenting a token, have nothing executed but the four
    introspection operations. *)
Theorem new_agent_confined env k pid policy ctx k1 denv k2 req res k' ctx' r :
  (forall p, pid = Some p -> length p = 16%nat) -> length (ce_rnd_pid env) = 16%nat -> length (ce_rnd_run env) = 16%nat ->
  ak_context_create env k pid policy = (Some ctx, k1) -> wf_req req -> rq_cap req = None ->
  ak_dispatch raw_s handler denv k2 (Some ctx) (Some req) = Ret (res, k', ctx', Some r) ->
  cap_exempt (rq_op req) = true.
Proof.
  intros Hp Hrp Hrr Hcr Hq Hcap.
  destruct (context_create_spec env k pid policy ctx k1 Hp Hrp Hrr Hcr) as (Hc & Hroot & Hdel).
  unfold ak_dispatch. destruct (initialized k2); cbn [negb]; [|done].
  destruct (stages_cases denv (on_stats count_total k2) ctx req Hc Hq) as (d & t & t1 & -> & _ & _ & _ & Hcase).
  cbn [obind]. intros [= _ _ _ Hr]. destruct Hcase as [(Hn & _)|(req' & caps & k3 & _ & [] & _)]; [congruence|].
  unfold ak_validate_capability in ps_cap0. destruct (cap_exempt (rq_op req)); [done|exfalso].
  cbn [set_seq root_cap delegated_caps] in ps_cap0. rewrite Hcap, Hroot, Hdel in ps_cap0.
  destruct (cap_requirement req); injection ps_cap0 as E _ _; discriminate E.
Qed.

(** ** Audit *)

(** What the dispatcher relies on in a handler: the audit log stays
    well-formed and only grows, and the context keeps its identity, policy and
    sequence tracker. *)
Definition handler_ok : Prop :=
  forall op k ctx req res k' ctx' n, disk_inv (kn_disk k) n -> handler op k ctx req = (res, k', ctx') ->
    (exists n' es, disk_inv (kn_disk k') n' /\
       all_entries (dlog (kn_disk k')) = all_entries (dlog (kn_disk k)) ++ es) /\
    cx_pid ctx' = cx_pid ctx /\ cx_run_id ctx' = cx_run_id ctx /\ cx_policy ctx' = cx_policy ctx /\
    cx_seq ctx' = cx_seq ctx.

(** The fields an audit entry is built from. *)
Record wf_audit (env : dispatch_env) (ctx : ak_agent_context) (req : ak_request) : Prop := {
  wa_pid : field_ok 16 (cx_pid ctx);
  wa_run : field_ok 16 (cx_run_id ctx);
  wa_policy : forall p, cx_policy ctx = Some p -> field_ok 32 (Policy.policy_hash p);
  wa_stack : field_ok 32 (de_stack env);
  wa_op : is_u16 (rq_op req);
  wa_now : is_u64 (de_now_log env)
}.

Lemma hash_field a : field_ok 32 (ak_audit_hash_request a).
Proof. destruct a; split; [apply length_hash|apply wf_hash|done|apply wf_zeros]. Qed.
Lemma hash_res_field a : field_ok 32 (ak_audit_hash_response a).
Proof. apply (hash_field a). Qed.

Lemma log_event_wf env ctx ctx' req res :
  wf_audit env ctx req -> cx_pid ctx' = cx_pid ctx -> cx_run_id ctx' = cx_run_id ctx ->
  cx_policy ctx' = cx_policy ctx -> wf_event (log_event_of env ctx' req res).
Proof.
  intros [] H1 H2 H3. constructor; cbn; rewrite ?H1, ?H2, ?H3; auto using hash_field.
  - destruct res; [apply hash_res_field|]. split; [done|exact (wf_zeros 32)].
  - destruct (cx_policy ctx); auto.
Qed.

(** C2: audit.  Let the handlers keep the log well-formed and the hash buffer of
    the entry be allocated.  Then every request that reaches the dispatcher of
    an initialised kernel, a refused one too, ends with one entry that records
    its process, run, operation, the hashes of its arguments and of its result
    and the policy in force, behind the entries of its own handler (a refused
    request has none), unless the log is full: then the append fails, nothing
    is recorded and the response is returned all the same
    ([full_log_response_unaudited]).  When the synchronisation of the append
    succeeds, all entries are durable. *)
Theorem every_request_audited env k ctx req n :
  handler_ok -> initialized k = true -> wf_ctx ctx -> wf_req req -> wf_audit env ctx req ->
  disk_inv (kn_disk k) n -> ae_alloc_hash (de_append env) = true ->
  exists res k' ctx' ran n', ak_dispatch raw_s handler env k (Some ctx) (Some req) = Ret (res, k', Some ctx', ran) /\
    disk_inv (kn_disk k') n' /\
    exists mid, (ran = None -> mid = []) /\
      (all_entries (dlog (kn_disk k')) = all_entries (dlog (kn_disk k)) ++ mid /\
         (ak_log_operation env k' ctx' req res).1 = AK_E_LOG_FULL \/
       exists e, event_of e = log_event_of env ctx' req res /\
         all_entries (dlog (kn_disk k')) = all_entries (dlog (kn_disk k)) ++ mid ++ [e] /\
         (sync_ok (ae_io (de_append env)) -> n' = head_seq (dlog (kn_disk k')))).
Proof.
  intros Hh Hi Hc Hq Ha Hd Hal. unfold ak_dispatch. rewrite Hi. cbn [negb].
  destruct (stages_cases env (on_stats count_total k) ctx req Hc Hq) as (d & t & t1 & -> & Ht & Hw1 & Hle & Hcase).
  cbn [obind].
  assert (Hmid : exists n1 mid, disk_inv (kn_disk (dp_kernel d)) n1 /\ (dp_ran d = None -> mid = []) /\
    all_entries (dlog (kn_disk (dp_kernel d))) = all_entries (dlog (kn_disk k)) ++ mid /\
    cx_pid (dp_ctx d) = cx_pid ctx /\ cx_run_id (dp_ctx d) = cx_run_id ctx /\ cx_policy (dp_ctx d) = cx_policy ctx).
  { destruct Hcase as [(Hn & Hdk & Hdc)|(req' & caps & k1 & Hran & _ & Hhd & Hdk)].
    - exists n, []. rewrite Hdk, Hdc, app_nil_r. auto 8.
    - destruct (fun Hd' => Hh _ _ _ _ _ _ _ n Hd' Hhd) as ((n1 & es & Hd1 & Hes) & H1 & H2 & H3 & _); [exact Hd|].
      exists n1, es. rewrite Hdk. split; [done|]. split; [congruence|]. auto. }
  destruct Hmid as (n1 & mid & Hd1 & Hnone & Hent & H1 & H2 & H3).
  pose proof (log_event_wf env ctx (dp_ctx d) req (dp_res d) Ha H1 H2 H3) as Hev.
  pose proof (append_disk _ n1 _ (de_append env) Hd1 Hev Hal) as Happ. unfold ak_log_operation.
  destruct (ak_audit_append (kn_disk (dp_kernel d)) _ _) as [rv d'] eqn:Eap.
  destruct Happ as (n' & Hd' & _ & Hres). cbn [snd].
  eexists _, _, _, _, n'. split; [done|]. cbn [kn_disk on_stats set_disk]. split; [done|].
  exists mid. split; [done|]. destruct Hres as [[-> ->]|(-> & Hhead & (e & He & Hall) & Hsync)].
  - left. split; [done|]. by rewrite Eap.
  - right. exists e. split; [done|]. split; [by rewrite Hall, Hent, <-app_assoc|]. intros Hs. by rewrite Hsync, Hhead.
Qed.

(** ** Sessions *)

(** The sequence numbers executed along a list of requests, each with its
    environment, on one context. *)
Fixpoint session (k : kernel) (ctx : ak_agent_context) (reqs : list (dispatch_env * ak_request)) : list Z :=
  match reqs with
  | [] => []
  | (env, req) :: rest =>
      match ak_dispatch raw_s handler env k (Some ctx) (Some req) with
      | Ret (_, k', Some ctx', ran) =>
          (match ran with Some r => [rq_seq r] | None => [] end) ++ session k' ctx' rest
      | _ => []
      end
  end.

Definition handler_keeps_ctx : Prop :=
  forall op k ctx req res k' ctx', handler op k ctx req = (res, k', ctx') ->
    cx_pid ctx' = cx_pid ctx /\ cx_run_id ctx' = cx_run_id ctx /\ cx_seq ctx' = cx_seq ctx.

Lemma session_increasing reqs k ctx t :
  handler_keeps_ctx -> wf_ctx ctx -> Forall (fun p => wf_req p.2) reqs -> cx_seq ctx = Some t ->
  increasing_from (highest_seen t) (session k ctx reqs).
Proof.
  intros Hh Hc Hreqs. revert k ctx t Hc.
  induction Hreqs as [|[env req] reqs Hq Hreqs IH]; intros k ctx t Hc Ht; cbn [session]; [constructor|].
  cbn [snd] in Hq. unfold ak_dispatch. destruct (initialized k); cbn [negb app]; [|by apply IH].
  destruct (stages_cases env (on_stats count_total k) ctx req Hc Hq) as (d & t' & t1 & -> & Ht' & Hw1 & Hle & Hcase).
  cbn [obind]. rewrite Ht in Ht'. injection Ht' as <-.
  assert (Hnext : cx_pid (dp_ctx d) = cx_pid ctx /\ cx_run_id (dp_ctx d) = cx_run_id ctx /\ cx_seq (dp_ctx d) = Some t1).
  { destruct Hcase as [(_ & _ & ->)|(req' & caps & k1 & _ & _ & Hhd & _)]; [done|]. by apply Hh in Hhd. }
  destruct Hnext as (H1 & H2 & H3).
  assert (Hc' : wf_ctx (dp_ctx d)) by (destruct Hc; split; rewrite ?H1, ?H2; eauto).
  specialize (IH (on_stats (count_result (dp_res d)) (ak_log_operation env (dp_kernel d) (dp_ctx d) req (dp_res d)).2)
    (dp_ctx d) t1 Hc' H3).
  destruct Hcase as [(-> & _)|(req' & caps & k1 & -> & [] & _)]; cbn [app].
  - eapply increasing_weaken; [exact IH|lia].
  - pose proof (validate_capability_fields _ _ _ _ _ _ _ ps_cap0) as (_ & _ & _ & ->).
    destruct ps_fresh0 as [Hlt Heq]. constructor; [lia|]. by rewrite <-Heq.
Qed.

(** C3: no request is executed twice.  Along any session of a context, the
    executed requests have pairwise different sequence numbers, all above what
    the context had seen before, whatever requests the agent submits. *)
Theorem executed_at_most_once reqs k ctx t :
  handler_keeps_ctx -> wf_ctx ctx -> Forall (fun p => wf_req p.2) reqs -> cx_seq ctx = Some t ->
  NoDup (session k ctx reqs) /\ forall s, s ∈ session k ctx reqs -> highest_seen t < s.
Proof.
  intros Hh Hc Hr Ht. pose proof (session_increasing reqs k ctx t Hh Hc Hr Ht) as Hinc. split.
  - by eapply increasing_nodup.
  - intros s. by apply increasing_lower.
Qed.
End Guarantees.

(** ** A concrete kernel *)

Definition ran_of (o : outcome (option ak_response * kernel * option ak_agent_context * option ak_request))
    : option ak_request :=
  match o with Ret (_, _, _, ran) => ran | _ => None end.

Definition echo_handler (op : Z) (k : kernel) (ctx : ak_agent_context) (req : ak_request)
    : option ak_response * kernel * ak_agent_context :=
  (ak_response_success true (Some req) (rq_args req), k, ctx).

Definition demo_root : ak_capability :=
  or_dummy (ak_capability_create cstr demo_cs AK_CAP_ADMIN (Some B"*") None 60000 0 0
    (Some demo_run) 2000 demo_rnd true true).

Definition demo_kernel : kernel :=
  mk_kernel true demo_cs (boot []) (mk_stats 0 0 0 0 0 0 0 (replicate 16 0)) None.
Definition demo_pid : bytes := replicate 16 1.
Definition demo_ctx : ak_agent_context :=
  mk_ctx demo_pid demo_run (Some demo_root) None (Some demo_policy) None (Some fresh_tracker).
Definition demo_denv : dispatch_env :=
  mk_denv (fun _ => mk_venv 2500 2500 true true) true (zeros 32) 2600 (env_of good_io).

(** Untrusted data for a tool the policy declares a sink. *)
Definition demo_call_req : ak_request :=
  mk_req demo_pid demo_run 1 AK_SYS_CALL (Some JQ"{'tool':'file_write'}") None AK_TAINT_UNTRUSTED.

Lemma demo_root_request : wf_request demo_cs B"*" [] 60000 0 0 (Some demo_run) 2000 demo_rnd.
Proof.
  constructor; try (unfold is_u32, is_u64, is_u8; simpl; lia); try (intros ? [= <-]);
    repeat split; try done;
    apply (bool_decide_unpack _); vm_compute; exact I.
Qed.

Lemma demo_root_created :
  ak_capability_create cstr demo_cs AK_CAP_ADMIN (Some B"*") None 60000 0 0
    (Some demo_run) 2000 demo_rnd true true = Some demo_root.
Proof. vm_compute. reflexivity. Qed.

Lemma demo_root_wf : wf_cap demo_root.
Proof.
  destruct (create_spec _ _ _ _ _ _ _ _ _ _ _ _ _ _ demo_root_created) as (r & [= <-] & Hc).
  exact (created_wf _ _ _ _ _ _ _ _ _ _ _ _ _ demo_root_request Hc).
Qed.

Lemma fresh_tracker_wf : wf_seq fresh_tracker.
Proof. split; [reflexivity|]. unfold is_u64; cbn. lia. Qed.

Lemma demo_ctx_wf : wf_ctx demo_ctx.
Proof. split; [reflexivity|reflexivity|]. exists fresh_tracker. split; [reflexivity|apply fresh_tracker_wf]. Qed.

Lemma demo_req_wf : wf_req demo_call_req.
Proof. split; [reflexivity|reflexivity|]. unfold is_u64; cbn. lia. Qed.

Lemma demo_audit_wf : wf_audit demo_denv demo_ctx demo_call_req.
Proof.
  split; try (unfold is_u16, is_u64; cbn; lia); try (intros p [= <-]);
    split; first [reflexivity | apply (bool_decide_unpack _); vm_compute; exact I].
Qed.

(** The policy answers [AK_E_TAINT], and the call is executed all the same. *)
Lemma taint_violation_executed :
  ak_check_policy demo_ctx demo_call_req = AK_E_TAINT /\
  ran_of (ak_dispatch cstr echo_handler demo_denv demo_kernel (Some demo_ctx) (Some demo_call_req)) =
    Some (set_cap (Some demo_root) demo_call_req).
Proof. split; vm_compute; reflexivity. Qed.

(** A log whose only segment is full, and no memory for another: the request is
    executed and answered, and nothing is recorded of it. *)
Definition full_disk : disk_state :=
  mk_disk (mk_log [mk_seg (replicate 1000 (mk_entry 0 0 [] [] 0 [] [] [] [] [])) 1000 1] 1000 (zeros 32) [] 100) false 0 [].
Lemma full_log_response_unaudited :
  let env := mk_denv (de_val demo_denv) true (zeros 32) 2600 (mk_env false true good_io 0 true) in
  match ak_dispatch cstr echo_handler env (set_disk full_disk demo_kernel) (Some demo_ctx) (Some demo_call_req) with
  | Ret (Some res, k', _, Some _) => (rs_error res =? 0) && (head_seq (dlog (kn_disk k')) =? 1000)
  | _ => false
  end = true.
Proof. vm_compute. reflexivity. Qed.

Lemma executed_request_mediated_witness :
  rq_pid demo_call_req = cx_pid demo_ctx /\ policy_passed demo_ctx demo_call_req.
Proof.
  pose proof (proj2 taint_violation_executed) as Hran.
  destruct (ak_dispatch cstr echo_handler demo_denv demo_kernel (Some demo_ctx) (Some demo_call_req))
    as [[[[res k'] ctx'] ran]| |] eqn:E; [|discriminate Hran..].
  cbn [ran_of] in Hran. rewrite Hran in E.
  destruct (executed_request_mediated cstr echo_handler demo_denv demo_kernel demo_ctx demo_call_req res k' ctx' _
    demo_ctx_wf demo_req_wf ltac:(intros c ->; apply demo_root_wf) E) as (_ & Hp & _ & _ & _ & _ & Hpol).
  exact (conj Hp Hpol).
Defined.

Lemma every_request_audited_witness :
  exists res k' ctx' ran, ak_dispatch cstr echo_handler demo_denv demo_kernel (Some demo_ctx) (Some demo_call_req) =
    Ret (res, k', Some ctx', ran).
Proof.
  destruct (every_request_audited cstr echo_handler demo_denv demo_kernel demo_ctx demo_call_req 0)
    as (res & k' & ctx' & ran & n' & E & _).
  - intros op k ctx req res k' ctx' n Hd [= <- <- <-]. split; [|repeat split].
    exists n, []. split; [exact Hd|]. symmetry. apply app_nil_r.
  - reflexivity.
  - apply demo_ctx_wf.
  - apply demo_req_wf.
  - apply demo_audit_wf.
  - apply boot_fresh. cbn. lia.
  - reflexivity.
  - exists res, k', ctx', ran. exact E.
Defined.

Lemma executed_at_most_once_witness :
  NoDup (session cstr echo_handler demo_kernel demo_ctx [(demo_denv, demo_call_req); (demo_denv, demo_call_req)]).
Proof.
  apply (executed_at_most_once cstr echo_handler _ demo_kernel demo_ctx fresh_tracker).
  - intros op k ctx req res k' ctx' [= <- <- <-]. repeat split.
  - apply demo_ctx_wf.
  - constructor; [|constructor; [|constructor]]; apply demo_req_wf.
  - reflexivity.
Defined.

Definition demo_cenv : ctx_env :=
  mk_cenv true (replicate 16 8) (replicate 16 9) true 2000 true true 2000 (env_of good_io).
Definition demo_agent : ak_agent_context :=
  default demo_ctx (ak_context_create demo_cenv demo_kernel None (Some demo_policy)).1.
Definition status_req : ak_request :=
  mk_req (replicate 16 8) (replicate 16 9) 1 AK_SYS_BUDGET_STATUS None None AK_TAINT_UNTRUSTED.

Lemma status_executed :
  ran_of (ak_dispatch cstr echo_handler demo_denv demo_kernel (Some demo_agent) (Some status_req)) = Some status_req.
Proof. vm_compute. reflexivity. Qed.

Lemma new_agent_confined_witness : cap_exempt (rq_op status_req) = true.
Proof.
  pose proof status_executed as Hran.
  destruct (ak_dispatch cstr echo_handler demo_denv demo_kernel (Some demo_agent) (Some status_req))
    as [[[[res k'] ctx'] ran]| |] eqn:E; [|discriminate Hran..].
  cbn [ran_of] in Hran. rewrite Hran in E.
  refine (new_agent_confined cstr echo_handler demo_cenv demo_kernel None (Some demo_policy) demo_agent
    (ak_context_create demo_cenv demo_kernel None (Some demo_policy)).2 demo_denv demo_kernel status_req res k' ctx' _
    _ _ _ _ _ _ E).
  - intros p [=].
  - reflexivity.
  - reflexivity.
  - reflexivity.
  - split; [reflexivity|reflexivity|]. unfold is_u64; cbn. lia.
  - reflexivity.
Defined.
