(* ===== verification/JsonText.v ===== *)
(** * Scanning JSON text in place ([src/src/agentic/ak_heap.c])

    The allocation-free scanner under the patch engine and the snapshot
    restore: it skips values and reports byte ranges.  A text [d[0..len)] is
    the list [d], a position is an index into it; each C helper that moves a
    position is here the position it moves to, [None] its result [false].
    The second half is the grammar of JSON as a relation between trees and
    texts, with white space anywhere, and the proof that the scanner finds
    exactly the ranges of the grammar. *)

From S2P Require Import Prelude.

(** ** Scanner *)

Definition QT : Z := 34.
Definition BSL : Z := 92.

Definition ws_char (c : Z) : bool := (c =? 32) || (c =? 9) || (c =? 10) || (c =? 13).
Definition open_char (c : Z) : bool := (c =? 123) || (c =? 91).
Definition close_char (c : Z) : bool := (c =? 125) || (c =? 93).
Definition digit_char (c : Z) : bool := (48 <=? c) && (c <=? 57).
Definition num_char (c : Z) : bool :=
  digit_char c || (c =? 46) || (c =? 101) || (c =? 69) || (c =? 43) || (c =? 45).

(** [p < len && d[p] == c]. *)
Definition is_at (d : bytes) (p : nat) (c : Z) : bool :=
  match d !! p with Some x => x =? c | None => false end.

(** Number of leading bytes of a class. *)
Fixpoint run_of (f : Z -> bool) (s : bytes) : nat :=
  match s with
  | [] => 0
  | c :: s' => if f c then S (run_of f s') else 0
  end.

Definition json_skip_ws (d : bytes) (pos : nat) : nat := (pos + run_of ws_char (drop pos d))%nat.

(** Bytes from behind the opening quote up to and with the closing one. *)
Fixpoint string_run (s : bytes) : option nat :=
  match s with
  | [] => None
  | c :: s' =>
      if c =? BSL then match s' with [] => None | _ :: s'' => (fun n => S (S n)) <$> string_run s'' end
      else if c =? QT then Some 1%nat
      else S <$> string_run s'
  end.

Definition json_skip_string (d : bytes) (pos : nat) : option nat :=
  match drop pos d with
  | c :: s => if c =? QT then (fun n => pos + 1 + n)%nat <$> string_run s else None
  | [] => None
  end.

(** The loop over a container: bytes up to and with the closing bracket. *)
Fixpoint nest_run (fuel : nat) (s : bytes) (depth : nat) : option nat :=
  match s, fuel with
  | c :: s', S fuel' =>
      if c =? QT then
        match string_run s' with
        | None => None
        | Some n => (fun m => 1 + n + m)%nat <$> nest_run fuel' (drop n s') depth
        end
      else if open_char c then S <$> nest_run fuel' s' (S depth)
      else if close_char c then
        match depth with
        | O => None
        | S O => Some 1%nat
        | S depth' => S <$> nest_run fuel' s' depth'
        end
      else S <$> nest_run fuel' s' depth
  | _, _ => None
  end.

Definition json_skip_value (d : bytes) (pos : nat) : option nat :=
  let p := json_skip_ws d pos in
  match drop p d with
  | [] => None
  | c :: s =>
      if c =? QT then json_skip_string d p
      else if open_char c then (fun n => p + n)%nat <$> nest_run (length (c :: s)) (c :: s) 0
      else if (c =? 45) || digit_char c then Some (p + 1 + run_of num_char s)%nat
      else if c =? 116 then if bytes_eqb (take 4 (c :: s)) B"true" then Some (p + 4)%nat else None
      else if c =? 102 then if bytes_eqb (take 5 (c :: s)) B"false" then Some (p + 5)%nat else None
      else if c =? 110 then if bytes_eqb (take 4 (c :: s)) B"null" then Some (p + 4)%nat else None
      else None
  end.

(** What [json_object_find] reports: [*found], the first member with the key
    (its start and its value's range), the closing brace, the member count. *)
Record find_result := mk_find {
  fr_found : bool; fr_start : nat; fr_vstart : nat; fr_vend : nat; fr_close : nat; fr_count : nat
}.

(** The key of a member: its raw bytes and the position behind its colon. *)
Definition json_key (d : bytes) (p : nat) : option (bytes * nat) :=
  match json_skip_string d p with
  | None => None
  | Some q =>
      let k := slice (p + 1) (q - 1 - (p + 1)) d in
      let q := json_skip_ws d q in
      if negb (is_at d q 58) then None else Some (k, json_skip_ws d (q + 1))
  end.

Definition note_member (key k : bytes) (mstart vstart vend : nat) (r : find_result) : find_result :=
  if negb (fr_found r) && bytes_eqb k key
  then mk_find true mstart vstart vend (fr_close r) (S (fr_count r))
  else mk_find (fr_found r) (fr_start r) (fr_vstart r) (fr_vend r) (fr_close r) (S (fr_count r)).

Definition closed_at (p : nat) (r : find_result) : find_result :=
  mk_find (fr_found r) (fr_start r) (fr_vstart r) (fr_vend r) p (fr_count r).

Fixpoint object_loop (fuel : nat) (d key : bytes) (p : nat) (r : find_result) : option find_result :=
  match fuel with
  | O => None
  | S fuel' =>
      let p := json_skip_ws d p in
      if negb (is_at d p QT) then None
      else match json_key d p with
           | None => None
           | Some (k, vstart) =>
               match json_skip_value d vstart with
               | None => None
               | Some vend =>
                   let r := note_member key k p vstart vend r in
                   let q := json_skip_ws d vend in
                   if is_at d q 44 then object_loop fuel' d key (q + 1) r
                   else if is_at d q 125 then Some (closed_at q r)
                   else None
               end
           end
  end.

Definition json_object_find (d : bytes) (obj_pos : nat) (key : bytes) : option find_result :=
  let p := json_skip_ws d obj_pos in
  if negb (is_at d p 123) then None
  else
    let r := mk_find false 0 0 0 0 0 in
    let p := json_skip_ws d (p + 1) in
    if is_at d p 125 then Some (closed_at p r)
    else object_loop (length d) d key p r.

(** The element [index] of an array; [fr_start] and [fr_vstart] agree. *)
Fixpoint array_loop (fuel : nat) (d : bytes) (index : Z) (p : nat) (r : find_result) : option find_result :=
  match fuel with
  | O => None
  | S fuel' =>
      let p := json_skip_ws d p in
      match json_skip_value d p with
      | None => None
      | Some e =>
          let r := if Z.of_nat (fr_count r) =? index
                   then mk_find true p p e (fr_close r) (S (fr_count r))
                   else mk_find (fr_found r) (fr_start r) (fr_vstart r) (fr_vend r) (fr_close r) (S (fr_count r)) in
          let q := json_skip_ws d e in
          if is_at d q 44 then array_loop fuel' d index (q + 1) r
          else if is_at d q 93 then Some (closed_at q r)
          else None
      end
  end.

Definition json_array_scan (d : bytes) (arr_pos : nat) (index : Z) : option find_result :=
  let p := json_skip_ws d arr_pos in
  if negb (is_at d p 91) then None
  else
    let r := mk_find false 0 0 0 0 0 in
    let p := json_skip_ws d (p + 1) in
    if is_at d p 93 then Some (closed_at p r)
    else array_loop (length d) d index p r.

(** ** Grammar

    A concrete syntax tree records a text with its white space.  A box is an
    array or an object; an item has the space before it, the key part (of an
    object), the value, and the space after it. *)

Record khead := mk_khead { kh_key : bytes; kh_w2 : bytes; kh_w3 : bytes }.

Inductive cst :=
| CLit (t : bytes)
| CStr (raw : bytes)
| CBox (obj : bool) (w : bytes) (l : list (bytes * option khead * cst * bytes)).

Abbreviation item := (bytes * option khead * cst * bytes)%type (only parsing).
Definition it_w1 (it : item) : bytes := it.1.1.1.
Definition it_head (it : item) : option khead := it.1.1.2.
Definition it_val (it : item) : cst := it.1.2.
Definition it_w4 (it : item) : bytes := it.2.

(** Induction that reaches the values inside a box. *)
Section CstInd.
Context (P : cst -> Prop) (Hlit : forall t, P (CLit t)) (Hstr : forall r, P (CStr r))
  (Hbox : forall obj w l, Forall (fun it => P (it_val it)) l -> P (CBox obj w l)).

Fixpoint cst_ind' (c : cst) : P c :=
  match c with
  | CLit t => Hlit t
  | CStr r => Hstr r
  | CBox obj w l =>
      Hbox obj w l
        ((fix go (l : list item) : Forall (fun it => P (it_val it)) l :=
            match l with
            | [] => Forall_nil_2 _
            | it :: l' => Forall_cons_2 _ it l' (cst_ind' (it_val it)) (go l')
            end) l)
  end.
End CstInd.

Definition head_text (h : option khead) : bytes :=
  match h with
  | None => []
  | Some h => QT :: kh_key h ++ QT :: kh_w2 h ++ 58 :: kh_w3 h
  end.

Definition open_of (obj : bool) : Z := if obj then 123 else 91.
Definition close_of (obj : bool) : Z := if obj then 125 else 93.

Fixpoint print (c : cst) : bytes :=
  match c with
  | CLit t => t
  | CStr r => QT :: r ++ [QT]
  | CBox obj w l =>
      open_of obj :: match l with
                     | [] => w
                     | _ => join (map (fun it => it_w1 it ++ head_text (it_head it) ++ print (it_val it) ++ it_w4 it) l)
                     end ++ [close_of obj]
  end.

Definition print_item (it : item) : bytes :=
  it_w1 it ++ head_text (it_head it) ++ print (it_val it) ++ it_w4 it.

Definition print_items (w : bytes) (l : list item) : bytes :=
  match l with [] => w | _ => join (map print_item l) end.

Lemma print_box obj w l : print (CBox obj w l) = open_of obj :: print_items w l ++ [close_of obj].
Proof. done. Qed.

(** White space, literals and string contents. *)
Definition Ws (w : bytes) : Prop := Forall (fun c => ws_char c = true) w.

(** No quote outside an escape, no escape cut short. *)
Fixpoint raw_ok (r : bytes) : bool :=
  match r with
  | [] => true
  | c :: r' =>
      if c =? BSL then match r' with [] => false | _ :: r'' => raw_ok r'' end
      else if c =? QT then false else raw_ok r'
  end.

Definition number (t : bytes) : Prop :=
  exists c s, t = c :: s /\ ((c =? 45) || digit_char c = true) /\ Forall (fun c => num_char c = true) s.
Definition lit_ok (t : bytes) : Prop := t = B"true" \/ t = B"false" \/ t = B"null" \/ number t.

Definition head_ok (obj : bool) (h : option khead) : Prop :=
  match h with
  | None => obj = false
  | Some h => obj = true /\ raw_ok (kh_key h) = true /\ Ws (kh_w2 h) /\ Ws (kh_w3 h)
  end.

Definition layout_ok (obj : bool) (it : item) : Prop :=
  Ws (it_w1 it) /\ head_ok obj (it_head it) /\ Ws (it_w4 it).

Inductive wf_cst : cst -> Prop :=
| wf_lit t : lit_ok t -> wf_cst (CLit t)
| wf_str r : raw_ok r = true -> wf_cst (CStr r)
| wf_box obj w l :
    Ws w -> Forall (layout_ok obj) l -> Forall (fun it => wf_cst (it_val it)) l -> wf_cst (CBox obj w l).

(** ** Skipping *)

Lemma run_of_app f w s : Forall (fun c => f c = true) w -> run_of f (w ++ s) = (length w + run_of f s)%nat.
Proof. induction 1 as [|c w Hc Hw IH]; cbn; [done|]. by rewrite Hc, IH. Qed.

(** A text that does not continue a class. *)
Definition stops (f : Z -> bool) (s : bytes) : Prop := match s with c :: _ => f c = false | [] => True end.

Lemma run_of_stops f s : stops f s -> run_of f s = 0%nat.
Proof. destruct s as [|c s]; cbn; [done|]. by intros ->. Qed.

Lemma skip_ws_at pre w s :
  Ws w -> stops ws_char s -> json_skip_ws (pre ++ w ++ s) (length pre) = (length pre + length w)%nat.
Proof.
  intros Hw Hs. unfold json_skip_ws. rewrite drop_app_length, run_of_app, run_of_stops by done. lia.
Qed.

Lemma skip_ws_here pre s : stops ws_char s -> json_skip_ws (pre ++ s) (length pre) = length pre.
Proof. intros Hs. pose proof (skip_ws_at pre [] s ltac:(constructor) Hs) as E. cbn in E. rewrite E. lia. Qed.

(** Induction for the two-byte escapes. *)
Lemma raw_ind (P : bytes -> Prop) :
  P [] -> (forall c r, raw_ok r = true -> P r -> P (BSL :: c :: r)) ->
  (forall c r, c <> BSL -> c <> QT -> raw_ok r = true -> P r -> P (c :: r)) ->
  forall r, raw_ok r = true -> P r.
Proof.
  intros H0 H2 H1. enough (forall n r, (length r <= n)%nat -> raw_ok r = true -> P r) by eauto.
  induction n as [|n IH]; intros [|c r] Hn Hr; cbn in Hn, Hr; try done; [lia|].
  destruct (Z.eqb_spec c BSL) as [->|].
  - destruct r as [|e r]; [done|]. apply H2; [done|]. apply IH; [cbn in Hn; lia|done].
  - destruct (Z.eqb_spec c QT); [done|]. apply H1; [done..|]. apply IH; [lia|done].
Qed.

Lemma string_run_raw r rest : raw_ok r = true -> string_run (r ++ QT :: rest) = Some (length r + 1)%nat.
Proof.
  revert r. apply raw_ind; [done|intros c r _ IH|intros c r H1 H2 _ IH].
  - cbn [app string_run]. rewrite Z.eqb_refl, IH. done.
  - cbn [app string_run]. destruct (Z.eqb_spec c BSL), (Z.eqb_spec c QT); [done..|]. by rewrite IH.
Qed.

Lemma skip_string_at pre r rest :
  raw_ok r = true ->
  json_skip_string (pre ++ QT :: r ++ QT :: rest) (length pre) = Some (length pre + length r + 2)%nat.
Proof.
  intros Hr. unfold json_skip_string. rewrite drop_app_length, Z.eqb_refl, string_run_raw by done.
  cbn [fmap option_fmap option_map]. f_equal. lia.
Qed.

(** ** Containers *)

Lemma string_run_length s n : string_run s = Some n -> (n <= length s)%nat.
Proof.
  revert s n. enough (forall k s n, (length s <= k)%nat -> string_run s = Some n -> (n <= length s)%nat) by eauto.
  induction k as [|k IH]; intros [|c s] n Hk; cbn in *; try done; [lia|].
  destruct (c =? BSL).
  - destruct s as [|e s]; [done|]. destruct (string_run s) as [m|] eqn:E; [|done]. intros [= <-].
    apply IH in E; cbn in *; lia.
  - destruct (c =? QT); [intros [= <-]; lia|].
    destruct (string_run s) as [m|] eqn:E; [|done]. intros [= <-]. apply IH in E; lia.
Qed.

Lemma nest_fuel f1 f2 s depth :
  (length s <= f1)%nat -> (length s <= f2)%nat -> nest_run f1 s depth = nest_run f2 s depth.
Proof.
  revert f2 s depth. induction f1 as [|f1 IH]; intros [|f2] [|c s] depth H1 H2; cbn in H1, H2; try lia; [done..|].
  cbn [nest_run]. destruct (c =? QT).
  { destruct (string_run s) as [n|]; [|done]. f_equal. apply IH; rewrite length_drop; lia. }
  destruct (open_char c); [f_equal; apply IH; lia|].
  destruct (close_char c); [destruct depth as [|[|]]; [done..|]|]; f_equal; apply IH; lia.
Qed.

(** The loop with the fuel the scanner gives it. *)
Definition nest (s : bytes) (depth : nat) : option nat := nest_run (length s) s depth.

Definition plus_opt (n : nat) (o : option nat) : option nat := (fun m => n + m)%nat <$> o.

Lemma plus_opt_add a b o : plus_opt a (plus_opt b o) = plus_opt (a + b) o.
Proof. destruct o; cbn; [|done]. f_equal. lia. Qed.

Lemma plus_opt_0 o : plus_opt 0 o = o.
Proof. by destruct o. Qed.

(** Bytes that are neither quotes nor brackets. *)
Definition plain (c : Z) : bool := negb (c =? QT) && negb (open_char c) && negb (close_char c).

Lemma nest_plain w s depth :
  Forall (fun c => plain c = true) w -> nest (w ++ s) depth = plus_opt (length w) (nest s depth).
Proof.
  induction 1 as [|c w Hc Hw IH]; [by rewrite plus_opt_0|].
  unfold nest at 1. cbn [app length nest_run]. unfold plain in Hc. bprop.
  destruct (Z.eqb_spec c QT); [done|]. destruct (open_char c), (close_char c); try done.
  change (nest_run (length (w ++ s)) (w ++ s) depth) with (nest (w ++ s) depth). rewrite IH.
  by destruct (nest s depth).
Qed.

Lemma nest_string r s depth :
  raw_ok r = true -> nest (QT :: r ++ QT :: s) depth = plus_opt (length r + 2) (nest s depth).
Proof.
  intros Hr. unfold nest at 1. cbn [length nest_run]. rewrite Z.eqb_refl, string_run_raw by done.
  replace (drop (length r + 1) (r ++ QT :: s)) with s
    by (rewrite drop_app_ge, (Nat.add_comm (length r)), Nat.add_sub by lia; done).
  rewrite (nest_fuel _ (length s) s) by (rewrite ?length_app; cbn; lia).
  change (nest_run (length s) s depth) with (nest s depth). destruct (nest s depth); cbn; [|done]. f_equal. lia.
Qed.

Lemma nest_open obj s depth : nest (open_of obj :: s) depth = plus_opt 1 (nest s (S depth)).
Proof. by destruct obj. Qed.

Lemma nest_close obj s depth : nest (close_of obj :: s) (S (S depth)) = plus_opt 1 (nest s (S depth)).
Proof. by destruct obj. Qed.

Lemma nest_last obj s : nest (close_of obj :: s) 1 = Some 1%nat.
Proof. by destruct obj. Qed.

Lemma ws_plain w : Ws w -> Forall (fun c => plain c = true) w.
Proof.
  intros Hw. eapply Forall_impl; [exact Hw|]. intros c. unfold ws_char, plain, open_char, close_char, QT.
  intros H. repeat (apply orb_prop in H as [H|H]); apply Z.eqb_eq in H; by subst c.
Qed.

Lemma num_plain c : num_char c = true -> plain c = true.
Proof.
  unfold num_char, digit_char, plain, open_char, close_char, QT. intros H. zsplit; cbn in *; done || lia.
Qed.

Lemma lit_plain t : lit_ok t -> Forall (fun c => plain c = true) t.
Proof.
  intros [->|[->|[->|(c & s & -> & Hc & Hs)]]]; [repeat constructor..|]. constructor.
  - apply num_plain. unfold num_char. destruct (digit_char c); [done|]. rewrite orb_false_r in Hc. rewrite Hc.
    by rewrite !orb_true_r.
  - eapply Forall_impl; [exact Hs|]. apply num_plain.
Qed.

(** Below the top the loop passes over every value, item and container. *)
Definition passes (t : bytes) : Prop :=
  forall s depth, nest (t ++ s) (S depth) = plus_opt (length t) (nest s (S depth)).

Lemma passes_nil : passes [].
Proof. intros s depth. by rewrite plus_opt_0. Qed.

Lemma passes_app a b : passes a -> passes b -> passes (a ++ b).
Proof. intros Ha Hb s depth. by rewrite <-app_assoc, Ha, Hb, plus_opt_add, length_app. Qed.

Lemma passes_plain w : Forall (fun c => plain c = true) w -> passes w.
Proof. intros Hw s depth. by apply nest_plain. Qed.

Lemma passes_char c : plain c = true -> passes [c].
Proof. intros Hc. apply passes_plain. by repeat constructor. Qed.

Lemma passes_string r : raw_ok r = true -> passes (QT :: r ++ [QT]).
Proof.
  intros Hr s depth. rewrite <-app_comm_cons, <-app_assoc. cbn [app]. rewrite nest_string by done.
  f_equal. cbn. rewrite length_app. cbn. lia.
Qed.

Lemma passes_box obj t : passes t -> passes (open_of obj :: t ++ [close_of obj]).
Proof.
  intros Ht s depth. rewrite <-app_comm_cons, nest_open, <-app_assoc, Ht. cbn [app]. rewrite nest_close, !plus_opt_add.
  f_equal. cbn. rewrite length_app. cbn. lia.
Qed.

Lemma passes_join l : Forall passes l -> passes (join l).
Proof.
  induction 1 as [|x l Hx Hl IH]; [apply passes_nil|]. destruct l as [|y l]; [done|].
  rewrite join_cons. apply passes_app; [done|]. apply (passes_app [44]); [by apply passes_char|done].
Qed.

Lemma passes_head obj h : head_ok obj h -> passes (head_text h).
Proof.
  destruct h as [h|]; [|intros _; apply passes_nil]. intros (_ & Hk & H2 & H3). cbn [head_text].
  replace (QT :: kh_key h ++ QT :: kh_w2 h ++ 58 :: kh_w3 h)
    with ((QT :: kh_key h ++ [QT]) ++ kh_w2 h ++ [58] ++ kh_w3 h) by (cbn; by rewrite <-app_assoc).
  apply passes_app; [by apply passes_string|]. apply passes_app; [by apply passes_plain, ws_plain|].
  apply passes_app; [by apply passes_char|by apply passes_plain, ws_plain].
Qed.

Lemma passes_item obj it : layout_ok obj it -> passes (print (it_val it)) -> passes (print_item it).
Proof.
  intros (H1 & Hh & H4) Hv. unfold print_item.
  repeat apply passes_app; [by apply passes_plain, ws_plain|by eapply passes_head|done|by apply passes_plain, ws_plain].
Qed.

Lemma passes_items obj w l :
  Ws w -> Forall (layout_ok obj) l -> Forall (fun it => passes (print (it_val it))) l -> passes (print_items w l).
Proof.
  intros Hw Hl Hv. unfold print_items. destruct l as [|it l]; [by apply passes_plain, ws_plain|].
  apply passes_join, list.Forall_forall. intros x Hx. apply list_elem_of_fmap in Hx as (y & -> & Hy).
  rewrite list.Forall_forall in Hl, Hv. eapply passes_item; eauto.
Qed.

Lemma passes_print c : wf_cst c -> passes (print c).
Proof.
  induction c as [t|r|obj w l IH] using cst_ind'; intros Hc; inversion Hc; subst.
  - by apply passes_plain, lit_plain.
  - by apply passes_string.
  - rewrite print_box. apply passes_box. eapply passes_items; [done..|].
    rewrite !list.Forall_forall in *. eauto.
Qed.

(** ** Values *)

Lemma print_head c : wf_cst c -> exists x s, print c = x :: s /\ ws_char x = false.
Proof.
  intros [t Ht|r Hr|obj w l _ _ _]; cbn [print]; [|eauto|destruct obj; eauto].
  destruct Ht as [->|[->|[->|(c0 & s & -> & Hc & _)]]]; [by eexists _, _..|].
  exists c0, s. split; [done|]. unfold digit_char, ws_char in *. zsplit; cbn in *; done || lia.
Qed.

Lemma print_stops c rest : wf_cst c -> stops ws_char (print c ++ rest).
Proof. intros Hc. destruct (print_head c Hc) as (x & s & -> & Hx). done. Qed.

Lemma nest_box c rest obj w l :
  wf_cst c -> c = CBox obj w l -> nest (print c ++ rest) 0 = Some (length (print c)).
Proof.
  intros Hc ->. inversion Hc; subst. rewrite print_box, <-app_comm_cons, nest_open, <-app_assoc.
  rewrite (passes_items obj w l) by (done || (rewrite !list.Forall_forall in *; eauto using passes_print)).
  cbn [app]. rewrite nest_last. cbn. by rewrite length_app.
Qed.

(** The scanner skips exactly a value, when what follows does not prolong a
    number. *)
Lemma skip_value_at pre w c rest :
  wf_cst c -> Ws w -> stops num_char rest ->
  json_skip_value (pre ++ w ++ print c ++ rest) (length pre) =
  Some (length pre + length w + length (print c))%nat.
Proof.
  intros Hc Hw Hs. unfold json_skip_value. rewrite skip_ws_at by (try apply print_stops; done).
  rewrite app_assoc, <-length_app, drop_app_length. set (p := pre ++ w).
  destruct Hc as [t Ht|r Hr|obj w' l H1 H2 H3].
  - cbn [print]. destruct Ht as [->|[->|[->|(c0 & s & -> & Hc & Hn)]]]; [done..|]. cbn [app].
    assert (E : (c0 =? QT) = false /\ open_char c0 = false).
    { unfold digit_char, open_char, QT in *. zsplit; cbn in *; done || lia. }
    destruct E as [-> ->]. rewrite Hc, run_of_app, run_of_stops by done.
    apply f_equal. cbn [length]. lia.
  - cbn [print]. rewrite <-app_comm_cons, Z.eqb_refl, <-app_assoc. cbn [app]. rewrite skip_string_at by done.
    cbn. rewrite length_app. cbn. f_equal. lia.
  - assert (Hc : wf_cst (CBox obj w' l)) by (by constructor).
    pose proof (nest_box _ rest obj w' l Hc eq_refl) as En. unfold nest in En.
    rewrite print_box in *. rewrite <-app_comm_cons in *. rewrite En.
    by destruct obj; cbn.
Qed.

(** After an item comes white space and then a comma or a bracket. *)
Lemma stops_num_ws w c s : Ws w -> num_char c = false -> stops num_char (w ++ c :: s).
Proof.
  intros Hw Hc. destruct Hw as [|x w Hx _]; [done|]. cbn. unfold ws_char, num_char, digit_char in *.
  zsplit; cbn in *; done || lia.
Qed.

Lemma is_at_here pre c s x : is_at (pre ++ c :: s) (length pre) x = (c =? x).
Proof. unfold is_at. by rewrite list_lookup_middle. Qed.

(** ** Members and elements *)

(** Offsets inside an item that starts at [off]. *)
Definition start_at (off : nat) (it : item) : nat := (off + length (it_w1 it))%nat.
Definition value_at (off : nat) (it : item) : nat := (start_at off it + length (head_text (it_head it)))%nat.
Definition end_at (off : nat) (it : item) : nat := (value_at off it + length (print (it_val it)))%nat.

Definition key_of (it : item) : bytes := match it_head it with Some h => kh_key h | None => [] end.

(** What one item contributes to the result. *)
Definition note_key (key : bytes) (off : nat) (it : item) (r : find_result) : find_result :=
  note_member key (key_of it) (start_at off it) (value_at off it) (end_at off it) r.

Definition note_index (index : Z) (off : nat) (it : item) (r : find_result) : find_result :=
  if Z.of_nat (fr_count r) =? index
  then mk_find true (start_at off it) (start_at off it) (end_at off it) (fr_close r) (S (fr_count r))
  else mk_find (fr_found r) (fr_start r) (fr_vstart r) (fr_vend r) (fr_close r) (S (fr_count r)).

Fixpoint visit (note : nat -> item -> find_result -> find_result) (off : nat) (l : list item) (r : find_result)
    : find_result :=
  match l with
  | [] => r
  | it :: l' => visit note (off + length (print_item it) + 1) l' (note off it r)
  end.

Lemma length_print_item it : length (print_item it) = (end_at 0 it + length (it_w4 it))%nat.
Proof. unfold print_item, end_at, value_at, start_at. rewrite !length_app. lia. Qed.

Lemma end_at_off off it : end_at off it = (off + end_at 0 it)%nat.
Proof. unfold end_at, value_at, start_at. lia. Qed.

(** The key of a member is read off the text. *)
Lemma json_key_at A h s :
  head_ok true (Some h) -> stops ws_char s ->
  json_key (A ++ head_text (Some h) ++ s) (length A) = Some (kh_key h, length A + length (head_text (Some h)))%nat.
Proof.
  intros (_ & Hk & H2 & H3) Hs. unfold json_key. cbn [head_text].
  replace (A ++ (QT :: kh_key h ++ QT :: kh_w2 h ++ 58 :: kh_w3 h) ++ s)
    with (A ++ QT :: kh_key h ++ QT :: (kh_w2 h ++ 58 :: kh_w3 h ++ s)) by asc.
  rewrite skip_string_at by done.
  replace (length A + length (kh_key h) + 2 - 1 - (length A + 1))%nat with (length (kh_key h)) by lia.
  assert (E1 : slice (length A + 1) (length (kh_key h))
    (A ++ QT :: kh_key h ++ QT :: kh_w2 h ++ 58 :: kh_w3 h ++ s) = kh_key h).
  { unfold slice. replace (length A + 1)%nat with (length (A ++ [QT])) by (rewrite length_app; done).
    replace (A ++ QT :: kh_key h ++ QT :: kh_w2 h ++ 58 :: kh_w3 h ++ s)
      with ((A ++ [QT]) ++ kh_key h ++ QT :: kh_w2 h ++ 58 :: kh_w3 h ++ s) by asc.
    by rewrite drop_app_length, take_app_length. }
  rewrite E1. set (A2 := A ++ QT :: kh_key h ++ [QT]).
  assert (L2 : (length A + length (kh_key h) + 2 = length A2)%nat).
  { unfold A2. lens. }
  rewrite L2. replace (A ++ QT :: kh_key h ++ QT :: kh_w2 h ++ 58 :: kh_w3 h ++ s)
    with (A2 ++ kh_w2 h ++ 58 :: kh_w3 h ++ s) by (unfold A2; asc).
  rewrite skip_ws_at, <-length_app, (app_assoc A2), is_at_here by done. cbn [negb Z.eqb].
  replace ((A2 ++ kh_w2 h) ++ 58 :: kh_w3 h ++ s) with (((A2 ++ kh_w2 h) ++ [58]) ++ kh_w3 h ++ s)
    by asc.
  replace (length (A2 ++ kh_w2 h) + 1)%nat with (length ((A2 ++ kh_w2 h) ++ [58])) by (rewrite !length_app; done).
  rewrite skip_ws_at by done. do 2 f_equal. unfold A2. lens.
Qed.

(** A separator: it ends numbers and white space. *)
Definition sep_char (c : Z) : Prop := num_char c = false /\ ws_char c = false.

Section Item.
Context (obj : bool) (A : bytes) (it : item) (c : Z) (rest : bytes).
Context (Hl : layout_ok obj it) (Hv : wf_cst (it_val it)) (Hc : sep_char c).

Let d : bytes := A ++ print_item it ++ c :: rest.

Lemma item_start : json_skip_ws d (length A) = start_at (length A) it.
Proof using Hl Hv Hc.
  destruct Hl as (H1 & Hh & H4). unfold d, print_item. rewrite <-!app_assoc. rewrite skip_ws_at; [done|done|].
  destruct (it_head it); [done|]. cbn [head_text app]. by apply print_stops.
Qed.

Lemma item_value_end : json_skip_value d (value_at (length A) it) = Some (end_at (length A) it).
Proof using Hl Hv Hc.
  destruct Hl as (H1 & Hh & H4). unfold d, print_item.
  pose proof (skip_value_at (A ++ it_w1 it ++ head_text (it_head it)) [] (it_val it) (it_w4 it ++ c :: rest) Hv) as E.
  replace (A ++ (it_w1 it ++ head_text (it_head it) ++ print (it_val it) ++ it_w4 it) ++ c :: rest)
    with ((A ++ it_w1 it ++ head_text (it_head it)) ++ [] ++ print (it_val it) ++ it_w4 it ++ c :: rest) by asc.
  replace (value_at (length A) it) with (length (A ++ it_w1 it ++ head_text (it_head it)))
    by (unfold value_at, start_at; lens).
  rewrite E; [|constructor|by apply stops_num_ws; [|apply Hc]]. f_equal. unfold end_at, value_at, start_at. lens.
Qed.

Lemma item_end : json_skip_ws d (end_at (length A) it) = (length A + length (print_item it))%nat.
Proof using Hl Hv Hc.
  destruct Hl as (H1 & Hh & H4). unfold d, print_item.
  replace (A ++ (it_w1 it ++ head_text (it_head it) ++ print (it_val it) ++ it_w4 it) ++ c :: rest)
    with ((A ++ it_w1 it ++ head_text (it_head it) ++ print (it_val it)) ++ it_w4 it ++ c :: rest) by asc.
  replace (end_at (length A) it) with (length (A ++ it_w1 it ++ head_text (it_head it) ++ print (it_val it)))
    by (unfold end_at, value_at, start_at; lens).
  rewrite skip_ws_at; [lens|done|apply Hc].
Qed.

Lemma item_sep x : is_at d (length A + length (print_item it)) x = (c =? x).
Proof using. unfold d. by rewrite app_assoc, <-length_app, is_at_here. Qed.
End Item.

(** The start and the key of a member. *)
Lemma member_scan A it c rest :
  layout_ok true it -> wf_cst (it_val it) -> sep_char c ->
  let d := A ++ print_item it ++ c :: rest in
  json_skip_ws d (length A) = start_at (length A) it /\ is_at d (start_at (length A) it) QT = true /\
  json_key d (start_at (length A) it) = Some (key_of it, value_at (length A) it).
Proof.
  intros Hl Hv Hc. cbv zeta. split; [by rewrite (item_start true)|].
  pose proof Hl as (H1 & Hh & H4). unfold key_of, value_at. destruct (it_head it) as [h|] eqn:Eh; [|done].
  assert (E1 : A ++ print_item it ++ c :: rest =
    (A ++ it_w1 it) ++ head_text (Some h) ++ print (it_val it) ++ it_w4 it ++ c :: rest)
    by (unfold print_item; rewrite Eh; asc).
  assert (E2 : start_at (length A) it = length (A ++ it_w1 it)) by (unfold start_at; lens).
  rewrite E1, E2. split; [cbn [head_text app]; by rewrite is_at_here|].
  by rewrite json_key_at by (done || by apply print_stops).
Qed.

Lemma object_step fuel A it c rest key r :
  layout_ok true it -> wf_cst (it_val it) -> sep_char c ->
  object_loop (S fuel) (A ++ print_item it ++ c :: rest) key (length A) r =
  let q := (length A + length (print_item it))%nat in
  if c =? 44 then object_loop fuel (A ++ print_item it ++ c :: rest) key (q + 1) (note_key key (length A) it r)
  else if c =? 125 then Some (closed_at q (note_key key (length A) it r))
  else None.
Proof.
  intros Hl Hv Hc. cbn [object_loop]. destruct (member_scan A it c rest Hl Hv Hc) as (-> & -> & ->).
  cbn [negb]. by rewrite (item_value_end true), (item_end true), !(item_sep A) by done.
Qed.

Lemma array_step fuel A it c rest index r :
  layout_ok false it -> wf_cst (it_val it) -> sep_char c ->
  array_loop (S fuel) (A ++ print_item it ++ c :: rest) index (length A) r =
  let q := (length A + length (print_item it))%nat in
  if c =? 44 then array_loop fuel (A ++ print_item it ++ c :: rest) index (q + 1) (note_index index (length A) it r)
  else if c =? 93 then Some (closed_at q (note_index index (length A) it r))
  else None.
Proof.
  intros Hl Hv Hc. cbn [array_loop]. rewrite (item_start false) by done.
  assert (E : start_at (length A) it = value_at (length A) it).
  { destruct Hl as (_ & Hh & _). unfold value_at. destruct (it_head it); [by destruct Hh|]. cbn. lia. }
  rewrite E, (item_value_end false), (item_end false), !(item_sep A) by done.
  unfold note_index. by rewrite E.
Qed.

(** Both loops visit the items in order. *)
Section Visit.
Context (obj : bool) (loop : nat -> bytes -> nat -> find_result -> option find_result).
Context (note : nat -> item -> find_result -> find_result).
Context (Hstep : forall fuel A it c rest r, layout_ok obj it -> wf_cst (it_val it) -> sep_char c ->
  loop (S fuel) (A ++ print_item it ++ c :: rest) (length A) r =
  let q := (length A + length (print_item it))%nat in
  if c =? 44 then loop fuel (A ++ print_item it ++ c :: rest) (q + 1)%nat (note (length A) it r)
  else if c =? close_of obj then Some (closed_at q (note (length A) it r)) else None).

Lemma close_sep : sep_char (close_of obj).
Proof. by destruct obj. Qed.

Lemma loop_visits l fuel A rest r :
  l <> [] -> Forall (layout_ok obj) l -> Forall (fun it => wf_cst (it_val it)) l -> (length l <= fuel)%nat ->
  loop fuel (A ++ join (map print_item l) ++ close_of obj :: rest) (length A) r =
  Some (closed_at (length A + length (join (map print_item l))) (visit note (length A) l r)).
Proof using Hstep.
  revert fuel A r. induction l as [|it l IH]; intros [|fuel] A r Hne Hl Hv Hf; try done; [cbn in Hf; lia|].
  inversion Hl; inversion Hv; subst. destruct l as [|it2 l].
  - cbn [map join]. rewrite Hstep by (done || apply close_sep). cbn zeta.
    replace (close_of obj =? 44) with false by (by destruct obj). by rewrite Z.eqb_refl.
  - change (map print_item (it :: it2 :: l)) with (print_item it :: print_item it2 :: map print_item l).
    rewrite join_cons. change (print_item it2 :: map print_item l) with (map print_item (it2 :: l)).
    rewrite <-app_assoc, <-app_comm_cons, Hstep by done. cbn zeta. rewrite Z.eqb_refl.
    replace (A ++ print_item it ++ 44 :: join (map print_item (it2 :: l)) ++ close_of obj :: rest)
      with ((A ++ print_item it ++ [44]) ++ join (map print_item (it2 :: l)) ++ close_of obj :: rest) by asc.
    replace (length A + length (print_item it) + 1)%nat with (length (A ++ print_item it ++ [44])) by lens.
    rewrite IH; [|done..|cbn in Hf |- *; lia]. apply f_equal. cbn [visit].
    replace (length (A ++ print_item it ++ [44])) with (length A + length (print_item it) + 1)%nat by lens.
    f_equal. lens.
Qed.
End Visit.

Lemma print_item_pos obj it : layout_ok obj it -> wf_cst (it_val it) -> (0 < length (print_item it))%nat.
Proof.
  intros _ Hv. destruct (print_head _ Hv) as (x & s & E & _). unfold print_item. rewrite E. lens.
Qed.

Lemma items_short obj l :
  Forall (layout_ok obj) l -> Forall (fun it => wf_cst (it_val it)) l -> (length l <= length (join (map print_item l)))%nat.
Proof.
  intros Hl Hv. rewrite <-(length_map print_item l) at 1. apply length_join. rewrite list.Forall_forall in Hl. rewrite list.Forall_forall in Hv. apply list.Forall_forall.
  intros x Hx. apply list_elem_of_fmap in Hx as (y & -> & Hy). exact (print_item_pos obj y (Hl _ Hy) (Hv _ Hy)).
Qed.

Lemma run_of_drop f s : stops f (drop (run_of f s) s).
Proof. induction s as [|c s IH]; cbn; [done|]. destruct (f c) eqn:E; cbn; [exact IH|done]. Qed.

Lemma skip_ws_idem d p : json_skip_ws d (json_skip_ws d p) = json_skip_ws d p.
Proof.
  unfold json_skip_ws at 1. rewrite run_of_stops; [lia|]. unfold json_skip_ws. rewrite <-drop_drop. apply run_of_drop.
Qed.

(** The first byte of an item, behind the white space, opens a key or a value. *)
Lemma print_not_close c x : wf_cst c -> close_char x = true -> exists y s, print c = y :: s /\ y <> x.
Proof.
  intros [t Ht|r Hr|obj w l _ _ _] Hx; cbn [print]; unfold close_char in Hx.
  - destruct Ht as [->|[->|[->|(c0 & s & -> & Hc & _)]]]; cbn; eexists _, _; (split; [done|]); unfold digit_char in *;
      zsplit_in Hx; subst; try done; lia.
  - eexists _, _. split; [done|]. unfold QT. zsplit_in Hx; subst; done.
  - destruct obj; eexists _, _; (split; [done|]); zsplit_in Hx; subst; done.
Qed.

Lemma item_not_close obj A it c rest x :
  layout_ok obj it -> wf_cst (it_val it) -> sep_char c -> close_char x = true ->
  is_at (A ++ print_item it ++ c :: rest) (json_skip_ws (A ++ print_item it ++ c :: rest) (length A)) x = false.
Proof.
  intros Hl Hv Hc Hx. rewrite (item_start obj) by done. unfold print_item, start_at.
  replace (A ++ (it_w1 it ++ head_text (it_head it) ++ print (it_val it) ++ it_w4 it) ++ c :: rest)
    with ((A ++ it_w1 it) ++ (head_text (it_head it) ++ print (it_val it)) ++ it_w4 it ++ c :: rest) by asc.
  rewrite <-length_app. destruct (it_head it) as [h|]; cbn [head_text app].
  - rewrite is_at_here. unfold close_char in Hx. unfold QT. zsplit_in Hx; subst; done.
  - destruct (print_not_close _ _ Hv Hx) as (y & s & -> & Hy). cbn [app]. rewrite is_at_here. zsplit; done.
Qed.

(** The text of the items of a non-empty box, cut behind the first one. *)
Lemma join_first it l close rest :
  sep_char close -> exists c rest', sep_char c /\ join (map print_item (it :: l)) ++ close :: rest = print_item it ++ c :: rest'.
Proof.
  intros Hc. destruct l as [|it2 l]; [by exists close, rest|].
  change (map print_item (it :: it2 :: l)) with (print_item it :: print_item it2 :: map print_item l).
  rewrite join_cons, <-app_assoc, <-app_comm_cons. eexists _, _. split; [|reflexivity]. done.
Qed.

Definition fresh_find : find_result := mk_find false 0 0 0 0 0.

(** The scans of a printed box. *)
Lemma object_find_box A w l rest key :
  wf_cst (CBox true w l) ->
  json_object_find (A ++ print (CBox true w l) ++ rest) (length A) key =
  Some (closed_at (length A + 1 + length (print_items w l)) (visit (note_key key) (length A + 1) l fresh_find)).
Proof.
  intros Hc. inversion Hc as [| |? ? ? Hw Hl Hv]; subst. unfold json_object_find. rewrite print_box.
  cbn [open_of close_of]. rewrite <-app_comm_cons, skip_ws_here, is_at_here, Z.eqb_refl by done. cbn [negb].
  replace (A ++ 123 :: (print_items w l ++ [125]) ++ rest) with ((A ++ [123]) ++ print_items w l ++ 125 :: rest) by asc.
  replace (length A + 1)%nat with (length (A ++ [123])) by lens. set (A' := A ++ [123]).
  destruct l as [|it l].
  - cbn [print_items]. rewrite skip_ws_at, app_assoc, <-length_app, is_at_here by done. done.
  - cbn [print_items]. inversion Hl; inversion Hv; subst.
    destruct (join_first it l 125 rest) as (c & rest' & Hsep & E); [done|].
    rewrite E, (item_not_close true) by done. rewrite <-E.
    assert (Hf : (length (it :: l) <= length (A' ++ join (map print_item (it :: l)) ++ 125%Z :: rest))%nat).
    { pose proof (items_short true (it :: l) Hl Hv). rewrite length_app, length_app. lia. }
    destruct (length (A' ++ join (map print_item (it :: l)) ++ 125 :: rest)) as [|fuel] eqn:Ef; [cbn in Hf; lia|].
    rewrite <-(loop_visits true (fun f d p r => object_loop f d key p r) (note_key key)) with (fuel := S fuel) (rest := rest);
      [|intros; by apply object_step|done|done|done|done].
    cbn [object_loop close_of]. by rewrite skip_ws_idem.
Qed.

Lemma array_scan_box A w l rest index :
  wf_cst (CBox false w l) ->
  json_array_scan (A ++ print (CBox false w l) ++ rest) (length A) index =
  Some (closed_at (length A + 1 + length (print_items w l)) (visit (note_index index) (length A + 1) l fresh_find)).
Proof.
  intros Hc. inversion Hc as [| |? ? ? Hw Hl Hv]; subst. unfold json_array_scan. rewrite print_box.
  cbn [open_of close_of]. rewrite <-app_comm_cons, skip_ws_here, is_at_here, Z.eqb_refl by done. cbn [negb].
  replace (A ++ 91 :: (print_items w l ++ [93]) ++ rest) with ((A ++ [91]) ++ print_items w l ++ 93 :: rest) by asc.
  replace (length A + 1)%nat with (length (A ++ [91])) by lens. set (A' := A ++ [91]).
  destruct l as [|it l].
  - cbn [print_items]. rewrite skip_ws_at, app_assoc, <-length_app, is_at_here by done. done.
  - cbn [print_items]. inversion Hl; inversion Hv; subst.
    destruct (join_first it l 93 rest) as (c & rest' & Hsep & E); [done|].
    rewrite E, (item_not_close false) by done. rewrite <-E.
    assert (Hf : (length (it :: l) <= length (A' ++ join (map print_item (it :: l)) ++ 93%Z :: rest))%nat).
    { pose proof (items_short false (it :: l) Hl Hv). rewrite length_app, length_app. lia. }
    destruct (length (A' ++ join (map print_item (it :: l)) ++ 93 :: rest)) as [|fuel] eqn:Ef; [cbn in Hf; lia|].
    rewrite <-(loop_visits false (fun f d p r => array_loop f d index p r) (note_index index)) with (fuel := S fuel) (rest := rest);
      [|intros; by apply array_step|done|done|done|done].
    cbn [array_loop close_of]. by rewrite skip_ws_idem.
Qed.

(** ** Where a scan stops *)

(** The text before and behind an item of a box. *)
Definition lead (l : list item) : bytes := concat (map (fun it => print_item it ++ [44]) l).
Definition trail (l : list item) : bytes := concat (map (fun it => 44 :: print_item it) l).

Lemma join_trail it l : join (map print_item (it :: l)) = print_item it ++ trail l.
Proof.
  revert it. induction l as [|it2 l IH]; intros it; [cbn; by rewrite app_nil_r|].
  change (map print_item (it :: it2 :: l)) with (print_item it :: print_item it2 :: map print_item l).
  rewrite join_cons. change (print_item it2 :: map print_item l) with (map print_item (it2 :: l)). by rewrite IH.
Qed.

Lemma join_split l1 it l2 : join (map print_item (l1 ++ it :: l2)) = lead l1 ++ print_item it ++ trail l2.
Proof.
  induction l1 as [|x l1 IH]; [apply join_trail|].
  destruct (l1 ++ it :: l2) as [|y l] eqn:E; [by destruct l1|].
  change (map print_item ((x :: l1) ++ it :: l2)) with (print_item x :: map print_item (l1 ++ it :: l2)).
  rewrite E in *. change (map print_item (y :: l)) with (print_item y :: map print_item l) in *.
  rewrite join_cons, IH. unfold lead. cbn. asc.
Qed.

Lemma print_split w l1 it l2 : print_items w (l1 ++ it :: l2) = lead l1 ++ print_item it ++ trail l2.
Proof. rewrite <-join_split. by destruct l1. Qed.

(** An item found at offset [off + length (lead l1)]. *)
Definition found_item (off : nat) (l1 : list item) (it : item) (close count : nat) : find_result :=
  mk_find true (start_at (off + length (lead l1)) it) (value_at (off + length (lead l1)) it)
    (end_at (off + length (lead l1)) it) close count.

Lemma length_lead_cons it l : length (lead (it :: l)) = (length (print_item it) + 1 + length (lead l))%nat.
Proof. unfold lead. cbn. rewrite !length_app. cbn. lia. Qed.

Definition counted (n : nat) (r : find_result) : find_result :=
  mk_find (fr_found r) (fr_start r) (fr_vstart r) (fr_vend r) (fr_close r) n.

Lemma visit_key_found key off l r :
  fr_found r = true -> visit (note_key key) off l r = counted (fr_count r + length l) r.
Proof.
  revert off r. induction l as [|it l IH]; intros off r Hr; cbn [visit length].
  - rewrite Nat.add_0_r. by destruct r.
  - unfold note_key, note_member. rewrite Hr. cbn [negb andb]. rewrite IH by done. unfold counted. cbn. f_equal; [done|lia].
Qed.

Lemma visit_key_none key off l r :
  Forall (fun it => key_of it <> key) l -> visit (note_key key) off l r = counted (fr_count r + length l) r.
Proof.
  intros Hl. revert off r. induction Hl as [|it l Hk Hl IH]; intros off r; cbn [visit length].
  - rewrite Nat.add_0_r. by destruct r.
  - unfold note_key, note_member. destruct (bytes_eqb _ _) eqn:E; [by apply bytes_eqb_eq in E|].
    rewrite andb_false_r, IH. unfold counted. cbn. f_equal. lia.
Qed.

Lemma visit_key_some off l1 it l2 r :
  fr_found r = false -> Forall (fun x => key_of x <> key_of it) l1 ->
  visit (note_key (key_of it)) off (l1 ++ it :: l2) r =
  found_item off l1 it (fr_close r) (fr_count r + length (l1 ++ it :: l2)).
Proof.
  intros Hr Hl. revert off r Hr. induction Hl as [|x l1 Hk Hl IH]; intros off r Hr; cbn [app visit length].
  - unfold note_key at 2, note_member. rewrite Hr, bytes_eqb_refl. cbn [negb andb].
    rewrite visit_key_found by done. unfold counted, found_item. cbn. rewrite Nat.add_0_r. f_equal. lia.
  - unfold note_key at 2, note_member. rewrite Hr. destruct (bytes_eqb _ _) eqn:E; [by apply bytes_eqb_eq in E|].
    cbn [negb andb]. rewrite IH by done. unfold found_item. cbn [fr_close fr_count]. rewrite length_lead_cons.
    rewrite !Nat.add_assoc. f_equal; lia.
Qed.

Lemma visit_index_none index off l r :
  (index < Z.of_nat (fr_count r) \/ Z.of_nat (fr_count r + length l) <= index) ->
  visit (note_index index) off l r = counted (fr_count r + length l) r.
Proof.
  revert off r. induction l as [|it l IH]; intros off r Hi; cbn [visit length] in *.
  - rewrite Nat.add_0_r. by destruct r.
  - unfold note_index at 2. destruct (Z.eqb_spec (Z.of_nat (fr_count r)) index); [lia|].
    rewrite IH by (cbn; lia). unfold counted. cbn. f_equal. lia.
Qed.

Lemma visit_index_some off l1 it l2 r :
  layout_ok false it ->
  visit (note_index (Z.of_nat (fr_count r + length l1))) off (l1 ++ it :: l2) r =
  found_item off l1 it (fr_close r) (fr_count r + length (l1 ++ it :: l2)).
Proof.
  intros (_ & Hh & _). assert (E : forall n, start_at n it = value_at n it).
  { intros n. unfold value_at. destruct (it_head it); [by destruct Hh|]. cbn. lia. }
  revert off r. induction l1 as [|x l1 IH]; intros off r; cbn [app visit length].
  - unfold note_index at 2. rewrite Nat.add_0_r, Z.eqb_refl. rewrite visit_index_none by (cbn; lia).
    unfold counted, found_item. cbn. rewrite Nat.add_0_r, <-E. f_equal. lia.
  - unfold note_index at 2. destruct (Z.eqb_spec (Z.of_nat (fr_count r)) (Z.of_nat (fr_count r + S (length l1)))); [lia|].
    specialize (IH (off + length (print_item x) + 1)%nat
      (mk_find (fr_found r) (fr_start r) (fr_vstart r) (fr_vend r) (fr_close r) (S (fr_count r)))).
    cbn [fr_count fr_close] in IH.
    replace (S (fr_count r) + length l1)%nat with (fr_count r + S (length l1))%nat in IH by lia. rewrite IH.
    unfold found_item. rewrite length_lead_cons. rewrite !Nat.add_assoc. f_equal; lia.
Qed.

(** ** Deciding well-formedness *)

Definition lit_okb (t : bytes) : bool :=
  bytes_eqb t B"true" || bytes_eqb t B"false" || bytes_eqb t B"null" ||
  match t with [] => false | c :: s => ((c =? 45) || digit_char c) && forallb num_char s end.

Definition head_okb (obj : bool) (h : option khead) : bool :=
  match h with
  | None => negb obj
  | Some h => obj && raw_ok (kh_key h) && forallb ws_char (kh_w2 h) && forallb ws_char (kh_w3 h)
  end.

Fixpoint wf_cstb (c : cst) : bool :=
  match c with
  | CLit t => lit_okb t
  | CStr r => raw_ok r
  | CBox obj w l =>
      forallb ws_char w &&
      forallb (fun it => forallb ws_char (it_w1 it) && head_okb obj (it_head it) && forallb ws_char (it_w4 it) &&
                         wf_cstb (it_val it)) l
  end.

Lemma forallb_Forall (f : Z -> bool) s : forallb f s = true -> Forall (fun c => f c = true) s.
Proof. induction s as [|c s IH]; cbn; intros H; bprop; by constructor; auto. Qed.

Lemma lit_okb_ok t : lit_okb t = true -> lit_ok t.
Proof.
  unfold lit_okb, lit_ok. intros H. apply orb_prop in H as [H|H].
  - apply orb_prop in H as [H|H]; [apply orb_prop in H as [H|H]|]; apply bytes_eqb_eq in H; tauto.
  - destruct t as [|c s]; [done|]. bprop. do 3 right. exists c, s. auto using forallb_Forall.
Qed.

Lemma head_okb_ok obj h : head_okb obj h = true -> head_ok obj h.
Proof.
  destruct h as [h|]; cbn; intros H; bprop; [|done]. split; [done|]. split; [done|]. by split; apply forallb_Forall.
Qed.

Lemma wf_cstb_ok c : wf_cstb c = true -> wf_cst c.
Proof.
  induction c as [t|r|obj w l IH] using cst_ind'; cbn [wf_cstb]; intros H.
  - by apply wf_lit, lit_okb_ok.
  - by apply wf_str.
  - bprop. constructor; [by apply forallb_Forall|..]; induction IH as [|it l Hit _ IHl]; cbn in *; bprop;
      constructor; auto. split; [by apply forallb_Forall|]. split; [by apply head_okb_ok|by apply forallb_Forall].
Qed.
