(* ===== verification/JsonPatch.v ===== *)
(** * JSON patches ([src/src/agentic/ak_heap.c])

    The RFC 6902 engine behind heap writes: JSON pointers, the resolution of a
    pointer to a byte range, the text edits, the parser of the operations, and
    [ak_json_patch_apply].  The theorem is that it computes on texts what
    the patch means on trees. *)

From S2P Require Import Prelude JsonText.

Definition UINT64_LAST : Z := 18446744073709551615.
Definition AK_JSON_PTR_SEG_MAX : nat := 160.

(** ** JSON pointers *)

(** The token behind a slash, up to the next slash; [n] bytes are stored. *)
Fixpoint segment_loop (p : bytes) (n : nat) : option (bytes * bytes) :=
  match p with
  | [] => Some ([], [])
  | c :: p' =>
      if c =? 47 then Some ([], p)
      else if c =? 126 then
        match p' with
        | [] => None
        | e :: p'' =>
            match (if e =? 48 then Some 126 else if e =? 49 then Some 47 else None) with
            | None => None
            | Some u =>
                if (AK_JSON_PTR_SEG_MAX <=? n + 1)%nat then None
                else (fun r => (u :: r.1, r.2)) <$> segment_loop p'' (S n)
            end
        end
      else if (AK_JSON_PTR_SEG_MAX <=? n + 1)%nat then None
      else (fun r => (c :: r.1, r.2)) <$> segment_loop p' (S n)
  end.

Definition json_pointer_next_segment (path : bytes) : option (bytes * bytes) :=
  match path with
  | c :: p => if c =? 47 then segment_loop p 0 else None
  | [] => None
  end.

(** The decimal index of a segment; leading zeros, other bytes and overflow
    are rejected. *)
Fixpoint index_loop (seg : bytes) (index : Z) : option Z :=
  match seg with
  | [] => Some index
  | c :: seg' =>
      if (c <? 48) || (57 <? c) then None
      else
        let digit := c - 48 in
        if (UINT64_LAST - digit) / 10 <? index then None else index_loop seg' (index * 10 + digit)
  end.

Definition array_index (seg : bytes) : option Z :=
  match seg with
  | [] => None
  | c :: seg' => if (c =? 48) && negb (bool_decide (seg' = [])) then None else index_loop seg 0
  end.

Definition is_dash (seg : bytes) : bool := bytes_eqb seg [45].

Record json_target := mk_target {
  whole_doc : bool; parent_is_object : bool; tg_found : bool; is_append : bool;
  member_start : nat; val_start : nat; val_end : nat; close_pos : nat; parent_count : nat;
  arr_index : Z; tg_key : bytes
}.

Fixpoint resolve_loop (fuel : nat) (d path : bytes) (cur : nat) : option json_target :=
  match fuel with
  | O => None
  | S fuel' =>
      match json_pointer_next_segment path with
      | None => None
      | Some (seg, rest) =>
          let last := bool_decide (rest = []) in
          let cpos := json_skip_ws d cur in
          if is_at d cpos 123 then
            match json_object_find d cpos seg with
            | None => None
            | Some r =>
                if last then
                  Some (mk_target false true (fr_found r) false (fr_start r) (fr_vstart r) (fr_vend r) (fr_close r)
                          (fr_count r) 0 seg)
                else if fr_found r then resolve_loop fuel' d rest (fr_vstart r) else None
            end
          else if is_at d cpos 91 then
            match (if is_dash seg then Some 0 else array_index seg) with
            | None => None
            | Some index =>
                match json_array_scan d cpos (if is_dash seg then UINT64_LAST else index) with
                | None => None
                | Some r =>
                    if last then
                      Some (mk_target false false (fr_found r) (is_dash seg) (fr_start r) (fr_vstart r) (fr_vend r)
                              (fr_close r) (fr_count r) index [])
                    else if fr_found r then resolve_loop fuel' d rest (fr_start r) else None
                end
            end
          else None
      end
  end.

Definition json_resolve_pointer (d path : bytes) : option json_target :=
  match path with
  | [] => Some (mk_target true false true false 0 0 0 0 0 0 [])
  | c :: _ => if c =? 47 then resolve_loop (length path) d path 0 else None
  end.

(** ** Edits *)

Definition json_splice (d : bytes) (start stop : nat) (ins : bytes) : option bytes :=
  if (stop <? start)%nat || (length d <? stop)%nat then None else Some (take start d ++ ins ++ drop stop d).

Definition json_remove_range (d : bytes) (t : json_target) : nat * nat :=
  let back := reverse (take (member_start t) d) in
  let n := run_of ws_char back in
  if is_at back n 44 then ((member_start t - n - 1)%nat, val_end t)
  else
    let q := json_skip_ws d (val_end t) in
    (member_start t, if is_at d q 44 then (q + 1)%nat else val_end t).

Definition hex_digit_of (n : Z) : Z := if n <? 10 then 48 + n else 87 + n.

(** One byte of a written string. *)
Definition json_escape_byte (c : Z) : bytes :=
  if c =? 34 then [92; 34]
  else if c =? 92 then [92; 92]
  else if c =? 8 then [92; 98]
  else if c =? 12 then [92; 102]
  else if c =? 10 then [92; 110]
  else if c =? 13 then [92; 114]
  else if c =? 9 then [92; 116]
  else if c <? 32 then [92; 117; 48; 48; hex_digit_of (Z.land (Z.shiftr c 4) 15); hex_digit_of (Z.land c 15)]
  else [c].

Definition json_escape (s : bytes) : bytes := concat (map json_escape_byte s).

Definition serialize_write_json_string (s : bytes) : bytes := QT :: json_escape s ++ [QT].

Inductive patch_kind := POp_add | POp_replace | POp_remove.

Definition patch_kind_of (op : bytes) : option patch_kind :=
  if bytes_eqb op B"add" then Some POp_add
  else if bytes_eqb op B"replace" then Some POp_replace
  else if bytes_eqb op B"remove" then Some POp_remove
  else None.

(** The edit at a resolved target; [val] is empty for a removal. *)
Definition json_edit (d : bytes) (k : patch_kind) (t : json_target) (val : bytes) : option bytes :=
  if whole_doc t then
    match k with POp_remove => None | _ => json_splice d 0 (length d) val end
  else match k with
       | POp_replace => if negb (tg_found t) then None else json_splice d (val_start t) (val_end t) val
       | POp_remove =>
           if negb (tg_found t) then None
           else let '(rs, re) := json_remove_range d t in json_splice d rs re []
       | POp_add =>
           let comma := if (0 <? parent_count t)%nat then [44] else [] in
           if parent_is_object t then
             if tg_found t then json_splice d (val_start t) (val_end t) val
             else json_splice d (close_pos t) (close_pos t)
                    (comma ++ serialize_write_json_string (tg_key t) ++ [58] ++ val)
           else if is_append t || (arr_index t =? Z.of_nat (parent_count t)) then
             json_splice d (close_pos t) (close_pos t) (comma ++ val)
           else if arr_index t <? Z.of_nat (parent_count t) then
             json_splice d (member_start t) (member_start t) (val ++ [44])
           else None
       end.

(** [alloc]: the buffers of the operation could be allocated. *)
Definition json_apply_one_op (alloc : bool) (d op path : bytes) (val : option bytes) : option bytes :=
  match patch_kind_of op with
  | None => None
  | Some k =>
      match k, val with
      | POp_add, (None | Some []) | POp_replace, (None | Some []) => None
      | _, _ =>
          match json_resolve_pointer d path with
          | None => None
          | Some t =>
              if negb alloc then None
              else json_edit d k t (match val with Some v => v | None => [] end)
          end
      end
  end.

(** ** The operations of a patch *)

(** The string contents of the value at [vstart, vend). *)
Definition string_contents (d : bytes) (vstart vend : nat) : option bytes :=
  if negb (is_at d vstart QT) || (vend - vstart <? 2)%nat then None
  else Some (slice (vstart + 1) (vend - 1 - (vstart + 1)) d).

Record patch_op := mk_pop { po_op : option bytes; po_path : option bytes; po_value : option bytes; po_from : bool }.

Definition note_patch_member (d k : bytes) (vstart vend : nat) (o : patch_op) : option patch_op :=
  if bytes_eqb k B"op" then
    (fun s => mk_pop (Some s) (po_path o) (po_value o) (po_from o)) <$> string_contents d vstart vend
  else if bytes_eqb k B"path" then
    (fun s => mk_pop (po_op o) (Some s) (po_value o) (po_from o)) <$> string_contents d vstart vend
  else if bytes_eqb k B"value" then
    Some (mk_pop (po_op o) (po_path o) (Some (slice vstart (vend - vstart) d)) (po_from o))
  else if bytes_eqb k B"from" then Some (mk_pop (po_op o) (po_path o) (po_value o) true)
  else Some o.

Fixpoint parse_op_loop (fuel : nat) (d : bytes) (p : nat) (o : patch_op) : option (patch_op * nat) :=
  match fuel with
  | O => None
  | S fuel' =>
      let p := json_skip_ws d p in
      if negb (is_at d p QT) then None
      else match json_key d p with
           | None => None
           | Some (k, vstart) =>
               match json_skip_value d vstart with
               | None => None
               | Some vend =>
                   match note_patch_member d k vstart vend o with
                   | None => None
                   | Some o =>
                       let q := json_skip_ws d vend in
                       if is_at d q 44 then parse_op_loop fuel' d (q + 1) o
                       else if is_at d q 125 then Some (o, (q + 1)%nat)
                       else None
                   end
               end
           end
  end.

(** The operation at [pos] and the position behind it; [op] and [path] must
    be present. *)
Definition json_patch_parse_op (d : bytes) (pos : nat) : option (bytes * bytes * option bytes * bool * nat) :=
  let p := json_skip_ws d pos in
  if negb (is_at d p 123) then None
  else
    let p := json_skip_ws d (p + 1) in
    if is_at d p 125 then None
    else match parse_op_loop (length d) d p (mk_pop None None None false) with
         | Some (mk_pop (Some op) (Some path) v from, q) => Some (op, path, v, from, q)
         | _ => None
         end.

Definition json_patch_locate_array (d : bytes) : option (nat * nat) :=
  let pos := json_skip_ws d 0 in
  if is_at d pos 91 then
    match json_skip_value d pos with
    | None => None
    | Some e => if negb (json_skip_ws d e =? length d)%nat then None else Some (pos, e)
    end
  else if is_at d pos 123 then
    match json_object_find d pos B"patch" with
    | None => None
    | Some r =>
        if negb (fr_found r) then None
        else
          let p := json_skip_ws (take (fr_vend r) d) (fr_vstart r) in
          if negb (is_at (take (fr_vend r) d) p 91) then None else Some (p, fr_vend r)
    end
  else None.

(** The loop over the operations; [d] is the patch cut at the end of its
    array, [al n] the allocations of operation [n]. *)
Fixpoint patch_loop (al : nat -> bool) (fuel : nat) (d : bytes) (pos : nat) (n : nat) (doc : bytes) : option bytes :=
  match fuel with
  | O => None
  | S fuel' =>
      match json_patch_parse_op d pos with
      | None => None
      | Some (op, path, v, from, pos) =>
          if from then None
          else if existsb (fun c => c =? BSL) path then None
          else match json_apply_one_op (al n) doc op path v with
               | None => None
               | Some doc =>
                   let pos := json_skip_ws d pos in
                   if is_at d pos 44 then patch_loop al fuel' d (pos + 1) (S n) doc
                   else if is_at d pos 93 then Some doc
                   else None
               end
      end
  end.

Definition ak_json_patch_apply (al_doc : bool) (al : nat -> bool) (original patch : bytes) : option bytes :=
  match json_patch_locate_array patch with
  | None => None
  | Some (pos, plim) =>
      if negb al_doc then None
      else
        let d := take plim patch in
        let pos := json_skip_ws d (pos + 1) in
        if is_at d pos 93 then Some original
        else patch_loop al (length d) d pos 0 original
  end.

Fixpoint validate_loop (fuel : nat) (d : bytes) (pos : nat) : bool :=
  match fuel with
  | O => false
  | S fuel' =>
      match json_patch_parse_op d pos with
      | None => false
      | Some (_, _, _, _, pos) =>
          let pos := json_skip_ws d pos in
          if is_at d pos 44 then validate_loop fuel' d (pos + 1)
          else is_at d pos 93
      end
  end.

Definition ak_json_patch_validate (patch : bytes) : bool :=
  if (length patch =? 0)%nat then false
  else match json_patch_locate_array patch with
       | None => false
       | Some (pos, lim) =>
           let d := take lim patch in
           let pos := json_skip_ws d (pos + 1) in
           if is_at d pos 93 then true else validate_loop (length d) d pos
       end.

Example patch_ex :
  ak_json_patch_apply true (fun _ => true) JQ"{ 'a':1, 'b':[1,2]}"
    JQ"{'patch':[{'op':'add','path':'/b/1','value':{}},{'op':'remove','path':'/a'}]}" = Some JQ"{  'b':[1,{},2]}".
Proof. vm_compute. reflexivity. Qed.

(** ** Patches on trees *)

(** A value: literals and strings by their text, containers by their
    children.  An object keeps its members in order, duplicates included. *)
Inductive json :=
| JLit (t : bytes)
| JStr (raw : bytes)
| JArr (l : list json)
| JObj (l : list (bytes * json)).

Fixpoint erase (c : cst) : json :=
  match c with
  | CLit t => JLit t
  | CStr r => JStr r
  | CBox true _ l => JObj (map (fun it => (key_of it, erase (it_val it))) l)
  | CBox false _ l => JArr (map (fun it => erase (it_val it)) l)
  end.

(** The text [s] denotes the value [j]. *)
Definition text_of (j : json) (s : bytes) : Prop :=
  exists w c w', Ws w /\ wf_cst c /\ Ws w' /\ s = w ++ print c ++ w' /\ erase c = j.

(** *** Pointers, after RFC 6901: the tokens between the slashes, each with its
    escapes undone, all of them of less than 160 bytes. *)

Fixpoint split_slash (p : bytes) : bytes * list bytes :=
  match p with
  | [] => ([], [])
  | c :: p' => let '(t, ts) := split_slash p' in if c =? 47 then ([], t :: ts) else (c :: t, ts)
  end.

Fixpoint unescape (t : bytes) : option bytes :=
  match t with
  | [] => Some []
  | c :: t' =>
      if c =? 126 then
        match t' with
        | [] => None
        | e :: t'' => if e =? 48 then cons 126 <$> unescape t'' else if e =? 49 then cons 47 <$> unescape t'' else None
        end
      else cons c <$> unescape t'
  end.

Definition token (t : bytes) : option bytes :=
  u ← unescape t; if decide (length u < AK_JSON_PTR_SEG_MAX)%nat then Some u else None.

Definition tokens (path : bytes) : option (bytes * list bytes) :=
  match path with
  | [] => None
  | c :: p => if c =? 47 then let '(t, ts) := split_slash p in t ← token t; ts ← mapM token ts; Some (t, ts) else None
  end.

(** The number a token writes: decimal digits without a leading zero, up to 64 bits. *)
Definition digits (t : bytes) : bool := forallb (fun c => (48 <=? c) && (c <=? 57)) t.
Definition number (t : bytes) : Z := foldl (fun n c => n * 10 + (c - 48)) 0 t.
Definition position (t : bytes) : option Z :=
  if digits t && negb (bytes_eqb t []) && (bytes_eqb t [48] || negb (bytes_eqb (take 1 t) [48])) && (number t <=? UINT64_LAST)
  then Some (number t) else None.

(** *** Edits *)

(** The first member with a key; keys are compared as they are written. *)
Fixpoint key_index {A} (key : bytes) (l : list (bytes * A)) : option nat :=
  match l with
  | [] => None
  | (k, _) :: l' => if bytes_eqb k key then Some 0%nat else S <$> key_index key l'
  end.

(** The child a segment names, when it exists. *)
Definition child_index (seg : bytes) (j : json) : option nat :=
  match j with
  | JObj l => key_index seg l
  | JArr l =>
      if is_dash seg then None
      else match position seg with
           | Some i => if i <? Z.of_nat (length l) then Some (Z.to_nat i) else None
           | None => None
           end
  | _ => None
  end.

Inductive edit_op := EAdd (v : json) | EReplace (v : json) | ERemove.

Definition set_child (i : nat) (v : json) (j : json) : json :=
  match j with
  | JObj l => JObj (alter (fun m => (m.1, v)) i l)
  | JArr l => JArr (<[i := v]> l)
  | _ => j
  end.

Definition get_child (i : nat) (j : json) : option json :=
  match j with JObj l => snd <$> l !! i | JArr l => l !! i | _ => None end.

Definition remove_child (i : nat) (j : json) : json :=
  match j with JObj l => JObj (delete i l) | JArr l => JArr (delete i l) | _ => j end.

(** RFC 6902 on the parent of the target. *)
Definition edit_child (o : edit_op) (seg : bytes) (j : json) : option json :=
  match o with
  | EReplace v => (fun i => set_child i v j) <$> child_index seg j
  | ERemove => (fun i => remove_child i j) <$> child_index seg j
  | EAdd v =>
      match j, child_index seg j with
      | JObj _, Some i => Some (set_child i v j)
      | JObj l, None => Some (JObj (l ++ [(json_escape seg, v)]))
      | JArr l, Some i => Some (JArr (take i l ++ v :: drop i l))
      | JArr l, None =>
          if is_dash seg || bool_decide (position seg = Some (Z.of_nat (length l))) then Some (JArr (l ++ [v]))
          else None
      | _, _ => None
      end
  end.

Fixpoint edit_at (o : edit_op) (seg : bytes) (segs : list bytes) (j : json) : option json :=
  match segs with
  | [] => edit_child o seg j
  | seg' :: segs' =>
      match child_index seg j with
      | None => None
      | Some i =>
          match get_child i j with
          | None => None
          | Some x => (fun x' => set_child i x' j) <$> edit_at o seg' segs' x
          end
      end
  end.

(** ** The code reads pointers so *)

Lemma index_loop_number t i :
  0 <= i <= UINT64_LAST ->
  index_loop t i = if digits t && (foldl (fun n c => n * 10 + (c - 48)) i t <=? UINT64_LAST) then Some (foldl (fun n c => n * 10 + (c - 48)) i t) else None.
Proof.
  assert (Hge : forall t i, digits t = true -> 0 <= i -> i <= foldl (fun n c => n * 10 + (c - 48)) i t).
  { clear. induction t as [|c t IH]; intros i Hd Hi; cbn [foldl]; [lia|]. cbn in Hd. apply andb_true_iff in Hd as [Hc Hd].
    specialize (IH (i * 10 + (c - 48)) Hd). lia. }
  revert i. induction t as [|c t IH]; intros i Hi; cbn [index_loop foldl].
  { destruct (Z.leb_spec i UINT64_LAST); [done|lia]. }
  unfold digits in *. cbn [forallb]. destruct (Z.ltb_spec c 48), (Z.ltb_spec 57 c), (Z.leb_spec 48 c), (Z.leb_spec c 57); cbn [orb andb]; try done; try lia.
  cbv zeta. destruct (Z.ltb_spec ((UINT64_LAST - (c - 48)) / 10) i) as [Hov|Hov].
  - destruct (forallb _ t) eqn:Hd; [|done]. cbn [andb]. specialize (Hge t (i * 10 + (c - 48)) Hd ltac:(lia)).
    destruct (Z.leb_spec (foldl (fun n c => n * 10 + (c - 48)) (i * 10 + (c - 48)) t) UINT64_LAST); [|done].
    pose proof (Z.div_lt_upper_bound (UINT64_LAST - (c - 48)) 10 i). pose proof (Z.mul_div_le (UINT64_LAST - (c - 48)) 10 ltac:(lia)).
    pose proof (Z.mul_succ_div_gt (UINT64_LAST - (c - 48)) 10 ltac:(lia)). lia.
  - apply IH. pose proof (Z.mul_div_le (UINT64_LAST - (c - 48)) 10 ltac:(lia)). lia.
Qed.

Lemma array_index_position t : array_index t = position t.
Proof.
  unfold position. destruct t as [|c t]; [done|]. cbn [array_index]. rewrite index_loop_number by (unfold UINT64_LAST; lia). fold (number (c :: t)).
  change (bytes_eqb (c :: t) []) with false. change (take 1 (c :: t)) with [c]. cbn [negb]. rewrite andb_true_r.
  destruct (digits (c :: t)); [|by destruct (_ && _)]. cbn [andb].
  destruct (Z.eqb_spec c 48) as [->|Hc]; cbn [andb].
  - change (bytes_eqb [48] [48]) with true. cbn [negb]. rewrite orb_false_r.
    destruct (bytes_eqb (48 :: t) [48]) eqn:E.
    + apply bytes_eqb_eq in E as [= ->]. by rewrite bool_decide_true by done.
    + rewrite bool_decide_false; [done|]. intros ->. by rewrite bytes_eqb_refl in E.
  - destruct (bytes_eqb [c] [48]) eqn:E; [by apply bytes_eqb_eq in E as [= ->]|]. by rewrite orb_true_r.
Qed.

(** What is left behind the first token. *)
Definition behind (ts : list bytes) (rest : bytes) : Prop :=
  match ts with
  | [] => rest = []
  | _ => exists p, rest = 47 :: p /\ split_slash p = (hd [] ts, tl ts)
  end.

Lemma segment_loop_token p n :
  (n < AK_JSON_PTR_SEG_MAX)%nat ->
  let '(t, ts) := split_slash p in
  exists rest, behind ts rest /\ (length rest <= length p)%nat /\
  segment_loop p n = (u ← unescape t; if decide (n + length u < AK_JSON_PTR_SEG_MAX)%nat then Some (u, rest) else None).
Proof.
  remember (length p) as k eqn:Ek. revert p n Ek. induction k as [k IH] using lt_wf_ind. intros p n -> Hn. destruct p as [|c p].
  { exists []. split_and!; [done|cbn; lia|]. cbn. rewrite decide_True; [done|]. lia. }
  cbn [split_slash segment_loop]. destruct (split_slash p) as [t ts] eqn:Es.
  destruct (Z.eqb_spec c 47) as [->|Hc].
  { exists (47 :: p). split_and!; [exists p; split; [done|by rewrite Es]|apply Nat.le_refl|]. cbn. rewrite decide_True; [done|lia]. }
  assert (Hstep : forall u t' r x q, (length q < length (c :: p))%nat -> split_slash q = (t', ts) ->
    r = (if (AK_JSON_PTR_SEG_MAX <=? n + 1)%nat then None else (fun r => (u :: r.1, r.2)) <$> segment_loop q (S n)) ->
    x = cons u <$> unescape t' ->
    exists rest, behind ts rest /\ (length rest <= length (c :: p))%nat /\
      r = (u ← x; if decide (n + length u < AK_JSON_PTR_SEG_MAX)%nat then Some (u, rest) else None)).
  { intros u t' r x q Hq Eq -> ->. destruct (Nat.leb_spec AK_JSON_PTR_SEG_MAX (n + 1)) as [Hfull|Hfull].
    - pose proof (IH (length q) Hq q 0%nat eq_refl ltac:(unfold AK_JSON_PTR_SEG_MAX; lia)) as H. rewrite Eq in H. destruct H as (rest & Hb & Hl & _).
      exists rest. split_and!; [done|lia|]. destruct (unescape t') as [v|]; cbn; [|done]. rewrite decide_False by lia. done.
    - pose proof (IH (length q) Hq q (S n) eq_refl ltac:(lia)) as H. rewrite Eq in H. destruct H as (rest & Hb & Hl & ->).
      exists rest. split_and!; [done|lia|]. destruct (unescape t') as [v|]; cbn; [|done].
      rewrite <-plus_n_Sm. by destruct (decide _). }
  destruct (Z.eqb_spec c 126) as [->|Hc'].
  - cbn [unescape]. rewrite Z.eqb_refl. destruct p as [|e p]; [injection Es as <- <-; exists []; split_and!; [done|cbn; lia|done]|].
    cbn [split_slash] in Es. destruct (split_slash p) as [t' ts'] eqn:Es'. destruct (Z.eqb_spec e 47) as [->|He].
    { injection Es as <- <-. exists (47 :: p). split_and!; [exists p; split; [done|by rewrite Es']|cbn; lia|done]. }
    injection Es as <- <-. destruct (Z.eqb_spec e 48) as [->|H48]; [by eapply (Hstep 126 t' _ _ p); [cbn; lia|..]|].
    destruct (Z.eqb_spec e 49) as [->|H49]; [by eapply (Hstep 47 t' _ _ p); [cbn; lia|..]|].
    destruct (Hstep 0 t' _ _ p ltac:(cbn; lia) Es' eq_refl eq_refl) as (rest & Hb & Hl & _). by exists rest.
  - cbn [unescape]. rewrite (proj2 (Z.eqb_neq _ _) Hc'). by eapply (Hstep c t _ _ p); [cbn; lia|..].
Qed.

Lemma next_segment_tokens fuel path :
  (length path <= fuel)%nat ->
  tokens path = match fuel with O => None | S _ =>
    match json_pointer_next_segment path with
    | None => None
    | Some (seg, []) => Some (seg, [])
    | Some (seg, rest) => (fun r => (seg, r.1 :: r.2)) <$> tokens rest
    end end.
Proof.
  intros Hf. destruct path as [|c p]; [by destruct fuel|]. destruct fuel as [|fuel]; [cbn in Hf; lia|]. cbn [tokens json_pointer_next_segment].
  destruct (c =? 47); [|done]. pose proof (segment_loop_token p 0 ltac:(unfold AK_JSON_PTR_SEG_MAX; lia)) as H.
  destruct (split_slash p) as [t ts]. destruct H as (rest & Hb & _ & ->). change (token t) with (u ← unescape t; if decide (length u < AK_JSON_PTR_SEG_MAX)%nat then Some u else None).
  destruct (unescape t) as [u|]; cbn; [|done].
  destruct (decide (length u < AK_JSON_PTR_SEG_MAX)%nat); [|done]. destruct ts as [|t2 ts]; cbn in Hb.
  - by subst.
  - destruct Hb as (q & -> & Eq). change (tokens (47 :: q)) with (let '(t, ts) := split_slash q in t ← token t; ts ← mapM token ts; Some (t, ts)). rewrite Eq. cbn.
    destruct (token t2) as [v|]; [|done]. cbn. by destruct (mapM token ts).
Qed.

(** ** Edits of a printed box *)

Lemma splice_at P X S ins : json_splice (P ++ X ++ S) (length P) (length P + length X) ins = Some (P ++ ins ++ S).
Proof.
  unfold json_splice. destruct (Nat.ltb_spec (length P + length X) (length P)); [lia|].
  destruct (Nat.ltb_spec (length (P ++ X ++ S)) (length P + length X)); [revert H0; lens|]. cbn [orb].
  rewrite take_app_length. do 3 f_equal. rewrite app_assoc, <-length_app. apply drop_app_length.
Qed.

Lemma splice_insert P S ins : json_splice (P ++ S) (length P) (length P) ins = Some (P ++ ins ++ S).
Proof. pose proof (splice_at P [] S ins) as E. cbn [app length] in E. by rewrite Nat.add_0_r in E. Qed.

Section Box.
Context (obj : bool) (A R : bytes) (w : bytes).

Definition boxed (l : list item) : bytes := A ++ print (CBox obj w l) ++ R.

(** A non-empty box, cut around one item. *)
Lemma boxed_split l1 it l2 :
  boxed (l1 ++ it :: l2) = (A ++ [open_of obj] ++ lead l1) ++ print_item it ++ trail l2 ++ close_of obj :: R.
Proof. unfold boxed. rewrite print_box, print_split. asc. Qed.

Definition set_val (it : item) (c : cst) : item := (it_w1 it, it_head it, c, it_w4 it).

Lemma replace_text l1 it l2 cv :
  let off := (length A + 1 + length (lead l1))%nat in
  json_splice (boxed (l1 ++ it :: l2)) (value_at off it) (end_at off it) (print cv) =
  Some (boxed (l1 ++ set_val it cv :: l2)).
Proof.
  cbv zeta. rewrite !boxed_split. unfold print_item.
  set (P := A ++ [open_of obj] ++ lead l1). set (S' := trail l2 ++ close_of obj :: R).
  replace (P ++ (it_w1 it ++ head_text (it_head it) ++ print (it_val it) ++ it_w4 it) ++ S')
    with ((P ++ it_w1 it ++ head_text (it_head it)) ++ print (it_val it) ++ it_w4 it ++ S') by asc.
  replace (value_at (length A + 1 + length (lead l1)) it) with (length (P ++ it_w1 it ++ head_text (it_head it)))
    by (unfold value_at, start_at, P; lens).
  replace (end_at (length A + 1 + length (lead l1)) it)
    with (length (P ++ it_w1 it ++ head_text (it_head it)) + length (print (it_val it)))%nat
    by (unfold end_at, value_at, start_at, P; lens).
  rewrite splice_at. f_equal. cbn. asc.
Qed.

(** The comma in front of an appended item. *)
Definition comma_if (l : list item) : bytes := if (0 <? length l)%nat then [44] else [].

Lemma trail_snoc l it : trail (l ++ [it]) = trail l ++ 44 :: print_item it.
Proof. unfold trail. rewrite map_app, concat_app. cbn. by rewrite app_nil_r. Qed.

Definition append_item (l : list item) (h : option khead) (cv : cst) : list item :=
  match l with [] => [(w, h, cv, [])] | _ => l ++ [([], h, cv, [])] end.

Lemma append_text l h cv :
  json_splice (boxed l) (length A + 1 + length (print_items w l)) (length A + 1 + length (print_items w l))
    (comma_if l ++ head_text h ++ print cv) = Some (boxed (append_item l h cv)).
Proof.
  unfold boxed. rewrite !print_box.
  replace (A ++ (open_of obj :: print_items w l ++ [close_of obj]) ++ R)
    with ((A ++ [open_of obj] ++ print_items w l) ++ close_of obj :: R) by asc.
  replace (length A + 1 + length (print_items w l))%nat with (length (A ++ [open_of obj] ++ print_items w l)) by lens.
  rewrite splice_insert. f_equal. destruct l as [|it l].
  - unfold comma_if. cbn [append_item print_items length Nat.ltb Nat.leb app map join]. unfold print_item. cbn. asc.
  - unfold comma_if. cbn [append_item print_items length Nat.ltb Nat.leb].
    change ((it :: l) ++ [([], h, cv, [])]) with (it :: (l ++ [([] : bytes, h, cv, [] : bytes)])).
    cbn [print_items]. rewrite !join_trail, trail_snoc.
    assert (E : print_item ([] : bytes, h, cv, [] : bytes) = head_text h ++ print cv)
      by (unfold print_item; cbn; by rewrite app_nil_r).
    rewrite E. asc.
Qed.

Lemma insert_text l1 it l2 cv :
  it_head it = None ->
  let off := (length A + 1 + length (lead l1))%nat in
  json_splice (boxed (l1 ++ it :: l2)) (start_at off it) (start_at off it) (print cv ++ [44]) =
  Some (boxed (l1 ++ (it_w1 it, None, cv, []) :: ([], None, it_val it, it_w4 it) :: l2)).
Proof.
  intros Hh. cbv zeta. rewrite !boxed_split. unfold print_item at 1. rewrite Hh.
  set (P := A ++ [open_of obj] ++ lead l1). set (S' := trail l2 ++ close_of obj :: R).
  replace (P ++ (it_w1 it ++ head_text None ++ print (it_val it) ++ it_w4 it) ++ S')
    with ((P ++ it_w1 it) ++ print (it_val it) ++ it_w4 it ++ S') by asc.
  replace (start_at (length A + 1 + length (lead l1)) it) with (length (P ++ it_w1 it)) by (unfold start_at, P; lens).
  rewrite splice_insert. f_equal. unfold S', trail, print_item. cbn. asc.
Qed.

(** A removed item leaves its surrounding white space behind. *)
Definition remove_item (l1 : list item) (it : item) (l2 : list item) : bytes * list item :=
  match reverse l1, l2 with
  | x :: r, _ => (w, reverse r ++ (it_w1 x, it_head x, it_val x, it_w4 x ++ it_w4 it) :: l2)
  | [], y :: l2' => (w, (it_w1 it ++ it_w1 y, it_head y, it_val y, it_w4 y) :: l2')
  | [], [] => (it_w1 it ++ it_w4 it, [])
  end.

Lemma lead_snoc l x : lead (l ++ [x]) = lead l ++ print_item x ++ [44].
Proof. unfold lead. rewrite map_app, concat_app. cbn. by rewrite app_nil_r. Qed.

(** The scan back from an item passes its leading white space. *)
Lemma back_scan P c w1 X :
  Ws w1 -> ws_char c = false ->
  let back := reverse (take (length P + 1 + length w1) (P ++ c :: w1 ++ X)) in
  run_of ws_char back = length w1 /\ is_at back (length w1) 44 = (c =? 44).
Proof.
  intros Hw Hc. cbv zeta.
  replace (P ++ c :: w1 ++ X) with ((P ++ [c] ++ w1) ++ X) by asc.
  replace (length P + 1 + length w1)%nat with (length (P ++ [c] ++ w1)) by lens.
  rewrite take_app_length, !reverse_app, <-app_assoc. change (reverse [c]) with [c].
  assert (Hr : Ws (reverse w1)) by (by apply Forall_reverse).
  rewrite run_of_app, length_reverse by done. cbn [app run_of]. rewrite Hc. split; [lia|].
  rewrite <-(length_reverse w1). apply is_at_here.
Qed.

Lemma remove_text l1 it l2 t :
  Forall (layout_ok obj) (l1 ++ it :: l2) ->
  member_start t = start_at (length A + 1 + length (lead l1)) it ->
  val_end t = end_at (length A + 1 + length (lead l1)) it ->
  let '(rs, re) := json_remove_range (boxed (l1 ++ it :: l2)) t in
  json_splice (boxed (l1 ++ it :: l2)) rs re [] =
  Some (A ++ print (CBox obj (remove_item l1 it l2).1 (remove_item l1 it l2).2) ++ R).
Proof.
  intros Hl Hm He. apply Forall_app in Hl as [Hl1 Hl2]. inversion Hl2 as [|? ? (Hw1 & Hh & Hw4) Hl2']; subst.
  unfold json_remove_range. rewrite boxed_split. set (M := head_text (it_head it) ++ print (it_val it)).
  set (Z' := it_w4 it ++ trail l2 ++ close_of obj :: R).
  assert (Eit : forall X, print_item it ++ X = it_w1 it ++ M ++ it_w4 it ++ X) by (intros; unfold print_item, M; asc).
  rewrite Eit. fold Z'.
  destruct (decide (l1 = [])) as [->|Hne].
  - (* first item *)
    cbn [lead map concat app].
    replace ((A ++ [open_of obj]) ++ it_w1 it ++ M ++ Z') with (A ++ open_of obj :: it_w1 it ++ M ++ Z') by asc.
    assert (Es : member_start t = (length A + 1 + length (it_w1 it))%nat) by (rewrite Hm; unfold start_at; cbn; lia).
    assert (Ee : val_end t = (length A + 1 + length (it_w1 it) + length M)%nat).
    { rewrite He. unfold end_at, value_at, start_at, M. cbn. lens. }
    rewrite Es, Ee. destruct (back_scan A (open_of obj) (it_w1 it) (M ++ Z') Hw1) as [-> ->]; [by destruct obj|].
    replace (open_of obj =? 44) with false by (by destruct obj).
    replace (A ++ open_of obj :: it_w1 it ++ M ++ Z') with ((A ++ [open_of obj] ++ it_w1 it ++ M) ++ Z') by asc.
    replace (length A + 1 + length (it_w1 it) + length M)%nat with (length (A ++ [open_of obj] ++ it_w1 it ++ M)) by lens.
    assert (Hsep : exists c X, trail l2 ++ close_of obj :: R = c :: X /\ ws_char c = false /\ (c =? 44) = negb (bool_decide (l2 = []))).
    { destruct l2 as [|y l2]; [exists (close_of obj), R; by destruct obj|]. eexists 44, _. split; [reflexivity|done]. }
    destruct Hsep as (c & X & Ec & Hc & Hcm). unfold Z'. rewrite Ec, skip_ws_at by done.
    replace (length (A ++ [open_of obj] ++ it_w1 it ++ M) + length (it_w4 it))%nat
      with (length ((A ++ [open_of obj] ++ it_w1 it ++ M) ++ it_w4 it)) by lens.
    rewrite (app_assoc _ (it_w4 it) (c :: X)), is_at_here, Hcm.
    destruct l2 as [|y l2].
    + rewrite bool_decide_true by done. cbn [negb].
      pose proof (splice_at (A ++ [open_of obj] ++ it_w1 it) M (it_w4 it ++ c :: X) []) as Esp.
      replace ((A ++ [open_of obj] ++ it_w1 it) ++ M ++ it_w4 it ++ c :: X)
        with (((A ++ [open_of obj] ++ it_w1 it ++ M) ++ it_w4 it) ++ c :: X) in Esp by asc.
      replace (length (A ++ [open_of obj] ++ it_w1 it)) with (length A + 1 + length (it_w1 it))%nat in Esp by lens.
      replace (length (A ++ [open_of obj] ++ it_w1 it ++ M)) with (length A + 1 + length (it_w1 it) + length M)%nat by lens.
      rewrite Esp. f_equal. cbn in Ec. injection Ec as <- <-. cbn [remove_item reverse rev_append fst snd].
      rewrite print_box. cbn [print_items]. asc.
    + rewrite bool_decide_false by done. cbn [negb].
      pose proof (splice_at (A ++ [open_of obj] ++ it_w1 it) (M ++ it_w4 it ++ [c]) X []) as Esp.
      replace ((A ++ [open_of obj] ++ it_w1 it) ++ (M ++ it_w4 it ++ [c]) ++ X)
        with (((A ++ [open_of obj] ++ it_w1 it ++ M) ++ it_w4 it) ++ c :: X) in Esp by asc.
      replace (length (A ++ [open_of obj] ++ it_w1 it)) with (length A + 1 + length (it_w1 it))%nat in Esp by lens.
      replace (length ((A ++ [open_of obj] ++ it_w1 it ++ M) ++ it_w4 it) + 1)%nat
        with (length A + 1 + length (it_w1 it) + length (M ++ it_w4 it ++ [c]))%nat by lens.
      rewrite Esp. f_equal. cbn in Ec. injection Ec as <- <-.
      cbn [remove_item reverse rev_append fst snd]. rewrite print_box. cbn [print_items]. rewrite join_trail.
      unfold trail, print_item. cbn. asc.
  - (* a comma before the item goes *)
    destruct (exists_last Hne) as (l1' & x & ->). rewrite lead_snoc.
    set (P := A ++ [open_of obj] ++ lead l1' ++ print_item x).
    replace ((A ++ [open_of obj] ++ lead l1' ++ print_item x ++ [44]) ++ it_w1 it ++ M ++ Z')
      with (P ++ 44 :: it_w1 it ++ M ++ Z') by (unfold P; asc).
    assert (Es : member_start t = (length P + 1 + length (it_w1 it))%nat).
    { rewrite Hm, lead_snoc. unfold start_at, P. lens. }
    assert (Ee : val_end t = (length P + length (44%Z :: it_w1 it ++ M))%nat).
    { rewrite He, lead_snoc. unfold end_at, value_at, start_at, M, P. lens. }
    rewrite Es, Ee. destruct (back_scan P 44 (it_w1 it) (M ++ Z') Hw1) as [-> ->]; [done|]. rewrite Z.eqb_refl.
    replace (length P + 1 + length (it_w1 it) - length (it_w1 it) - 1)%nat with (length P) by lia.
    pose proof (splice_at P (44 :: it_w1 it ++ M) Z' []) as Esp.
    replace (P ++ (44 :: it_w1 it ++ M) ++ Z') with (P ++ 44 :: it_w1 it ++ M ++ Z') in Esp by asc.
    rewrite Esp. f_equal. unfold remove_item. rewrite reverse_app. change (reverse [x]) with [x]. cbn [app fst snd].
    rewrite reverse_involutive, print_box, print_split. unfold P, Z', print_item. cbn. asc.
Qed.
End Box.

(** ** The edits on trees *)

Definition member_of (it : item) : bytes * json := (key_of it, erase (it_val it)).
Definition element_of (it : item) : json := erase (it_val it).

Lemma erase_obj w l : erase (CBox true w l) = JObj (map member_of l).
Proof. done. Qed.
Lemma erase_arr w l : erase (CBox false w l) = JArr (map element_of l).
Proof. done. Qed.

Lemma key_index_cases key l :
  match key_index key (map member_of l) with
  | Some i => exists l1 it l2, l = l1 ++ it :: l2 /\ length l1 = i /\ key_of it = key /\
                Forall (fun x => key_of x <> key) l1
  | None => Forall (fun x => key_of x <> key) l
  end.
Proof.
  induction l as [|x l IH]; cbn [map key_index]; [constructor|]. unfold member_of at 1.
  destruct (bytes_eqb (key_of x) key) eqn:E.
  - apply bytes_eqb_eq in E. exists [], x, l. by repeat constructor.
  - assert (key_of x <> key) by (intros Hk; apply bytes_eqb_eq in Hk; congruence).
    destruct (key_index key (map member_of l)) as [i|]; cbn.
    + destruct IH as (l1 & it & l2 & -> & <- & Hk & Hl). exists (x :: l1), it, l2. by repeat constructor.
    + by constructor.
Qed.

Lemma set_child_erase obj w l1 it l2 cv :
  set_child (length l1) (erase cv) (erase (CBox obj w (l1 ++ it :: l2))) = erase (CBox obj w (l1 ++ set_val it cv :: l2)).
Proof.
  destruct obj; rewrite ?erase_obj, ?erase_arr, !map_app; cbn [map set_child]; f_equal.
  - replace (length l1) with (length (map member_of l1) + 0)%nat by (rewrite length_map; lia). by rewrite alter_app_r.
  - replace (length l1) with (length (map element_of l1) + 0)%nat by (rewrite length_map; lia). by rewrite insert_app_r.
Qed.

Lemma remove_child_erase obj w l1 it l2 :
  remove_child (length l1) (erase (CBox obj w (l1 ++ it :: l2))) =
  erase (CBox obj (remove_item w l1 it l2).1 (remove_item w l1 it l2).2).
Proof.
  assert (E : forall {T} (f : item -> T), (forall a b c d a' d', f (a, b, c, d) = f (a', b, c, d')) ->
    map f (remove_item w l1 it l2).2 = map f l1 ++ map f l2).
  { intros T f Hf. unfold remove_item. destruct l1 as [|x l1 _] using rev_ind.
    - cbn. destruct l2 as [|[[[a b] c] d] l2]; [done|]. cbn. f_equal. apply Hf.
    - rewrite reverse_app. change (reverse [x]) with [x]. cbn [app fst snd]. rewrite reverse_involutive, !map_app.
      cbn. rewrite <-app_assoc. cbn. destruct x as [[[a b] c] d]. do 2 f_equal. apply Hf. }
  destruct obj; rewrite ?erase_obj, ?erase_arr, !map_app; cbn [map remove_child]; f_equal; rewrite E by done.
  - rewrite <-(length_map member_of l1). apply delete_middle.
  - rewrite <-(length_map element_of l1). apply delete_middle.
Qed.

(** Well-formedness of what the edits make. *)
Lemma wf_box_split obj w l1 it l2 :
  wf_cst (CBox obj w (l1 ++ it :: l2)) ->
  Ws w /\ Forall (layout_ok obj) l1 /\ layout_ok obj it /\ Forall (layout_ok obj) l2 /\
  Forall (fun x => wf_cst (it_val x)) l1 /\ wf_cst (it_val it) /\ Forall (fun x => wf_cst (it_val x)) l2.
Proof.
  intros Hc. inversion Hc as [| |? ? ? Hw Hl Hv]; subst. apply Forall_app in Hl as [? Hl2], Hv as [? Hv2].
  inversion Hl2; inversion Hv2; subst. done.
Qed.

Lemma wf_box_make obj w l1 l2 :
  Ws w -> Forall (layout_ok obj) l1 -> Forall (layout_ok obj) l2 ->
  Forall (fun x => wf_cst (it_val x)) l1 -> Forall (fun x => wf_cst (it_val x)) l2 -> wf_cst (CBox obj w (l1 ++ l2)).
Proof. intros. constructor; [done|by apply Forall_app|by apply Forall_app]. Qed.

Lemma wf_set_val obj w l1 it l2 cv :
  wf_cst (CBox obj w (l1 ++ it :: l2)) -> wf_cst cv -> wf_cst (CBox obj w (l1 ++ set_val it cv :: l2)).
Proof.
  intros (? & ? & ? & ? & ? & ? & ?)%wf_box_split Hc. apply wf_box_make; try done; by constructor.
Qed.

Lemma wf_insert w l1 it l2 cv :
  wf_cst (CBox false w (l1 ++ it :: l2)) -> wf_cst cv ->
  wf_cst (CBox false w (l1 ++ (it_w1 it, None, cv, []) :: ([], None, it_val it, it_w4 it) :: l2)).
Proof.
  intros (? & ? & (? & ? & ?) & ? & ? & ? & ?)%wf_box_split Hc. apply wf_box_make; try done;
    (constructor; [|constructor]; try done); repeat split; try done; constructor.
Qed.

Lemma wf_append obj w l h cv :
  wf_cst (CBox obj w l) -> head_ok obj h -> wf_cst cv -> wf_cst (CBox obj w (append_item w l h cv)).
Proof.
  intros Hc Hh Hcv. inversion Hc as [| |? ? ? Hw Hl Hv]; subst. destruct l as [|x l]; cbn [append_item].
  - constructor; [done|..]; constructor; try done. split; [done|]. split; [done|constructor].
  - apply wf_box_make; try done; constructor; try done. split; [constructor|]. split; [done|constructor].
Qed.

Lemma Ws_app a b : Ws a -> Ws b -> Ws (a ++ b).
Proof. intros. by apply Forall_app. Qed.

Lemma wf_remove obj w l1 it l2 :
  wf_cst (CBox obj w (l1 ++ it :: l2)) ->
  wf_cst (CBox obj (remove_item w l1 it l2).1 (remove_item w l1 it l2).2).
Proof.
  intros (Hw & H1 & (Hi1 & Hi2 & Hi3) & H2 & Hv1 & _ & Hv2)%wf_box_split. unfold remove_item.
  destruct l1 as [|x l1 _] using rev_ind.
  - cbn. destruct l2 as [|y l2]; cbn; [constructor; [by apply Ws_app|constructor..]|].
    inversion H2 as [|? ? (? & ? & ?)]; inversion Hv2; subst.
    constructor; [done|..]; constructor; try done. split; [by apply Ws_app|done].
  - rewrite reverse_app. change (reverse [x]) with [x]. cbn [app fst snd]. rewrite reverse_involutive.
    apply Forall_app in H1 as [H1 Hx], Hv1 as [Hv1 Hvx]. inversion Hx as [|? ? (? & ? & ?)]; inversion Hvx; subst.
    apply wf_box_make; try done; constructor; try done. split; [done|]. split; [done|by apply Ws_app].
Qed.

(** ** The edit at the last segment *)

Inductive denotes : patch_kind -> bytes -> edit_op -> Prop :=
| denotes_add cv : wf_cst cv -> denotes POp_add (print cv) (EAdd (erase cv))
| denotes_replace cv : wf_cst cv -> denotes POp_replace (print cv) (EReplace (erase cv))
| denotes_remove v : denotes POp_remove v ERemove.

Definition object_target (seg : bytes) (r : find_result) : json_target :=
  mk_target false true (fr_found r) false (fr_start r) (fr_vstart r) (fr_vend r) (fr_close r) (fr_count r) 0 seg.
Definition array_target (seg : bytes) (index : Z) (r : find_result) : json_target :=
  mk_target false false (fr_found r) (is_dash seg) (fr_start r) (fr_vstart r) (fr_vend r) (fr_close r) (fr_count r)
    index [].

(** What an edit of the text [A ++ print c ++ R] has to give. *)
Definition edits (A : bytes) (c : cst) (R : bytes) (want : option json) (got : option bytes) : Prop :=
  match want with
  | Some j' => exists c', wf_cst c' /\ erase c' = j' /\ got = Some (A ++ print c' ++ R)
  | None => got = None
  end.

Lemma raw_ok_app a b : raw_ok a = true -> raw_ok (a ++ b) = raw_ok b.
Proof.
  revert a. apply raw_ind; [done|intros c r _ IH|intros c r H1 H2 _ IH]; cbn [app raw_ok].
  - by rewrite Z.eqb_refl.
  - destruct (Z.eqb_spec c BSL), (Z.eqb_spec c QT); done.
Qed.

Lemma raw_ok_escape s : raw_ok (json_escape s) = true.
Proof.
  induction s as [|c s IH]; [done|]. unfold json_escape in *. cbn [map concat]. rewrite raw_ok_app; [done|].
  unfold json_escape_byte. repeat (match goal with |- context [c =? ?n] => destruct (Z.eqb_spec c n); [done|] end).
  destruct (c <? 32).
  - assert (H : forall m, 0 <= m < 16 -> raw_ok [hex_digit_of m] = true /\ hex_digit_of m <> BSL).
    { intros m Hm. unfold hex_digit_of, raw_ok, BSL, QT. zsplit; try done; try lia. }
    assert (B1 : 0 <= Z.land (Z.shiftr c 4) 15 < 16).
    { change 15 with (Z.ones 4). rewrite Z.land_ones by lia. apply Z.mod_pos_bound. lia. }
    assert (B2 : 0 <= Z.land c 15 < 16).
    { change 15 with (Z.ones 4). rewrite Z.land_ones by lia. apply Z.mod_pos_bound. lia. }
    destruct (H _ B1) as [H1 H1'], (H _ B2) as [H2 _]. revert H1 H1' H2.
    generalize (hex_digit_of (Z.land (Z.shiftr c 4) 15)), (hex_digit_of (Z.land c 15)). intros x y. unfold raw_ok, BSL, QT.
    cbn. zsplit; done.
  - unfold raw_ok, BSL, QT. zsplit; done.
Qed.

Lemma object_edit A R w l seg k val o :
  wf_cst (CBox true w l) -> denotes k val o ->
  edits A (CBox true w l) R (edit_child o seg (erase (CBox true w l)))
    (json_edit (A ++ print (CBox true w l) ++ R) k
       (object_target seg (closed_at (length A + 1 + length (print_items w l))
          (visit (note_key seg) (length A + 1) l fresh_find))) val).
Proof.
  intros Hc Hd. pose proof (key_index_cases seg l) as Hk. pose proof (erase_obj w l) as Ee.
  unfold edits, json_edit, edit_child, child_index. rewrite Ee. change (A ++ print (CBox true w l) ++ R) with (boxed true A R w l).
  destruct (key_index seg (map member_of l)) as [i|].
  - destruct Hk as (l1 & it & l2 & -> & <- & <- & Hl1). rewrite visit_key_some by done. rewrite <-Ee.
    unfold found_item. cbn [closed_at fr_close fr_count fresh_find object_target whole_doc tg_found parent_is_object
      val_start val_end fr_found fr_vstart fr_vend fr_start negb fmap option_fmap option_map].
    destruct Hd as [cv Hcv|cv Hcv|v].
    + exists (CBox true w (l1 ++ set_val it cv :: l2)). split; [by apply (wf_set_val true)|].
      split; [symmetry; apply set_child_erase|]. apply replace_text.
    + exists (CBox true w (l1 ++ set_val it cv :: l2)). split; [by apply (wf_set_val true)|].
      split; [symmetry; apply set_child_erase|]. apply replace_text.
    + eexists. split; [by apply (wf_remove true)|]. split; [symmetry; apply remove_child_erase|].
      match goal with |- context [json_remove_range _ ?t] => pose proof (remove_text true A R w l1 it l2 t) as Hr end.
      destruct (json_remove_range _ _) as [rs re]. apply Hr; [by inversion Hc|done|done].
  - rewrite visit_key_none by done. cbn [closed_at counted fr_close fr_count fresh_find object_target whole_doc tg_found
      parent_is_object fr_found close_pos parent_count tg_key Nat.add negb fmap option_fmap option_map].
    destruct Hd as [cv Hcv|cv Hcv|v]; [|done|done].
    set (h := Some (mk_khead (json_escape seg) [] [])).
    exists (CBox true w (append_item w l h cv)). split.
    { apply wf_append; [done| |done]. split; [done|]. split; [apply raw_ok_escape|]. split; constructor. }
    split. { destruct l as [|x l]; [done|]. cbn [append_item]. by rewrite erase_obj, map_app. }
    etransitivity; [|exact (append_text true A R w l h cv)]. f_equal.
    unfold comma_if, h, serialize_write_json_string. cbn. asc.
Qed.

Lemma index_loop_bound seg i v : 0 <= i -> index_loop seg i = Some v -> 0 <= v.
Proof.
  revert i. induction seg as [|c seg IH]; intros i Hi; cbn [index_loop]; [by intros [= <-]|].
  destruct (c <? 48) eqn:E1; [done|]. destruct (57 <? c); [done|]. cbn [orb]. apply Z.ltb_ge in E1.
  destruct (_ <? i); [done|]. apply IH. lia.
Qed.

Lemma array_index_bound seg i : array_index seg = Some i -> 0 <= i.
Proof.
  destruct seg as [|c seg]; cbn [array_index]; [done|]. destruct (_ && _); [done|]. apply index_loop_bound. lia.
Qed.

(** The index the scan looks for. *)
Definition scan_index (seg : bytes) (index : Z) : Z := if is_dash seg then UINT64_LAST else index.

Lemma array_append A R w l cv :
  wf_cst (CBox false w l) -> wf_cst cv ->
  exists c', wf_cst c' /\ erase c' = JArr (map element_of l ++ [erase cv]) /\
    json_splice (boxed false A R w l) (length A + 1 + length (print_items w l))
      (length A + 1 + length (print_items w l)) (comma_if l ++ print cv) = Some (A ++ print c' ++ R).
Proof.
  intros Hc Hcv. exists (CBox false w (append_item w l None cv)). split; [by apply wf_append|]. split.
  - destruct l as [|x l]; [done|]. cbn [append_item]. by rewrite erase_arr, map_app.
  - apply (append_text false A R w l None cv).
Qed.

Lemma array_edit A R w l seg index k val o :
  wf_cst (CBox false w l) -> denotes k val o -> Z.of_nat (length l) <= UINT64_LAST ->
  (if is_dash seg then Some 0 else array_index seg) = Some index ->
  edits A (CBox false w l) R (edit_child o seg (erase (CBox false w l)))
    (json_edit (A ++ print (CBox false w l) ++ R) k
       (array_target seg index (closed_at (length A + 1 + length (print_items w l))
          (visit (note_index (scan_index seg index)) (length A + 1) l fresh_find))) val).
Proof.
  intros Hc Hd Hlen Hi. pose proof (erase_arr w l) as Ee. change (A ++ print (CBox false w l) ++ R) with (boxed false A R w l).
  unfold edits, json_edit, edit_child, child_index, scan_index. rewrite Ee, length_map.
  destruct (is_dash seg) eqn:Edash.
  - rewrite visit_index_none by (cbn; lia).
    unfold array_target. rewrite Edash. cbn [closed_at counted fr_close fr_count fresh_find whole_doc tg_found is_append
      parent_is_object fr_found close_pos parent_count Nat.add negb orb fmap option_fmap option_map].
    destruct Hd as [cv Hcv|cv Hcv|v]; [|done|done]. by apply array_append.
  - rewrite <-array_index_position, Hi. pose proof (array_index_bound _ _ Hi) as Hnn. destruct (Z.ltb_spec index (Z.of_nat (length l))).
    + assert (Hlt : (Z.to_nat index < length l)%nat) by lia.
      destruct (lookup_lt_is_Some_2 l _ Hlt) as [it Hit]. apply list_elem_of_split_length in Hit as (l1 & l2 & -> & Hl1).
      replace index with (Z.of_nat (fr_count fresh_find + length l1)) by (cbn; lia).
      assert (Hl : layout_ok false it) by (apply wf_box_split in Hc; tauto).
      rewrite visit_index_some by done. rewrite <-Ee.
      unfold array_target, found_item. rewrite Edash.
      cbn [closed_at fr_close fr_count fresh_find whole_doc tg_found is_append arr_index member_start
        parent_is_object val_start val_end fr_found fr_vstart fr_vend fr_start parent_count Nat.add negb orb
        fmap option_fmap option_map].
      rewrite Nat2Z.id. destruct Hd as [cv Hcv|cv Hcv|v].
      * destruct (Z.eqb_spec (Z.of_nat (length l1)) (Z.of_nat (length (l1 ++ it :: l2)))); [lia|].
        destruct (Z.ltb_spec (Z.of_nat (length l1)) (Z.of_nat (length (l1 ++ it :: l2)))); [|lia].
        eexists. split; [by apply wf_insert|]. split.
        -- rewrite erase_arr, !map_app. cbn [map]. rewrite take_app_length', drop_app_length' by (by rewrite length_map). done.
        -- apply insert_text. destruct Hl as (_ & Hh & _). destruct (it_head it); [by destruct Hh|done].
      * exists (CBox false w (l1 ++ set_val it cv :: l2)). split; [by apply (wf_set_val false)|].
        split; [symmetry; apply set_child_erase|]. apply replace_text.
      * eexists. split; [by apply (wf_remove false)|]. split; [symmetry; apply remove_child_erase|].
        match goal with |- context [json_remove_range _ ?t] => pose proof (remove_text false A R w l1 it l2 t) as Hr end.
        destruct (json_remove_range _ _) as [rs re]. apply Hr; [by inversion Hc|done|done].
    + rewrite visit_index_none by (cbn; lia). unfold array_target. rewrite Edash.
      cbn [closed_at counted fr_close fr_count fresh_find whole_doc tg_found is_append arr_index member_start
        parent_is_object fr_found close_pos parent_count Nat.add negb orb fmap option_fmap option_map].
      destruct Hd as [cv Hcv|cv Hcv|v]; [|done|done].
      destruct (Z.eqb_spec index (Z.of_nat (length l))) as [->|].
      * rewrite bool_decide_true by done. by apply array_append.
      * rewrite bool_decide_false by congruence. destruct (Z.ltb_spec index (Z.of_nat (length l))); [lia|done].
Qed.

(** ** Following a pointer *)

(** The segments of a pointer, the first one apart. *)
Fixpoint pointer_segs (fuel : nat) (path : bytes) : option (bytes * list bytes) :=
  match fuel with
  | O => None
  | S fuel' =>
      match json_pointer_next_segment path with
      | None => None
      | Some (seg, []) => Some (seg, [])
      | Some (seg, rest) => (fun r => (seg, r.1 :: r.2)) <$> pointer_segs fuel' rest
      end
  end.

Lemma next_segment_shorter path seg rest : json_pointer_next_segment path = Some (seg, rest) -> (length rest < length path)%nat.
Proof.
  destruct path as [|c p]; cbn [json_pointer_next_segment]; [done|]. destruct (c =? 47); [|done].
  pose proof (segment_loop_token p 0 ltac:(unfold AK_JSON_PTR_SEG_MAX; lia)) as H. destruct (split_slash p) as [t ts].
  destruct H as (rest' & _ & Hl & ->). destruct (unescape t) as [u|]; cbn; [|done]. destruct (decide _); [|done]. intros [= _ <-]. lia.
Qed.

Lemma pointer_segs_tokens fuel path : (length path <= fuel)%nat -> pointer_segs fuel path = tokens path.
Proof.
  revert path. induction fuel as [|fuel IH]; intros path Hf; rewrite (next_segment_tokens _ _ Hf); [done|]. cbn [pointer_segs].
  destruct (json_pointer_next_segment path) as [[seg rest]|] eqn:E; [|done]. destruct rest as [|c rest]; [done|]. rewrite IH; [done|].
  pose proof (next_segment_shorter _ _ _ E). lia.
Qed.

Definition edit_path (o : edit_op) (p : option (bytes * list bytes)) (j : json) : option json :=
  match p with Some (seg, segs) => edit_at o seg segs j | None => None end.

(** An edit inside a value is an edit of the box around it. *)
Lemma edits_inside obj A R w l1 it l2 want got :
  wf_cst (CBox obj w (l1 ++ it :: l2)) ->
  edits (A ++ [open_of obj] ++ lead l1 ++ it_w1 it ++ head_text (it_head it)) (it_val it)
    (it_w4 it ++ trail l2 ++ close_of obj :: R) want got ->
  edits A (CBox obj w (l1 ++ it :: l2)) R
    ((fun x => set_child (length l1) x (erase (CBox obj w (l1 ++ it :: l2)))) <$> want) got.
Proof.
  intros Hc. unfold edits. destruct want as [j|]; cbn [fmap option_fmap option_map]; [|done].
  intros (c' & Hc' & <- & ->). exists (CBox obj w (l1 ++ set_val it c' :: l2)). split; [by apply wf_set_val|].
  split; [symmetry; apply set_child_erase|].
  change (A ++ print (CBox obj w (l1 ++ set_val it c' :: l2)) ++ R) with (boxed obj A R w (l1 ++ set_val it c' :: l2)).
  rewrite boxed_split. unfold print_item. cbn. f_equal. asc.
Qed.

Lemma box_inside obj A R w l1 it l2 :
  A ++ print (CBox obj w (l1 ++ it :: l2)) ++ R =
  (A ++ [open_of obj] ++ lead l1 ++ it_w1 it ++ head_text (it_head it)) ++ [] ++ print (it_val it) ++
    it_w4 it ++ trail l2 ++ close_of obj :: R.
Proof.
  change (A ++ print (CBox obj w (l1 ++ it :: l2)) ++ R) with (boxed obj A R w (l1 ++ it :: l2)).
  rewrite boxed_split. unfold print_item. asc.
Qed.

Lemma get_child_erase obj w l1 it l2 :
  get_child (length l1) (erase (CBox obj w (l1 ++ it :: l2))) = Some (erase (it_val it)).
Proof.
  destruct obj; rewrite ?erase_obj, ?erase_arr, map_app; cbn [map get_child].
  - rewrite <-(length_map member_of l1). by rewrite list_lookup_middle.
  - rewrite <-(length_map element_of l1). by rewrite list_lookup_middle.
Qed.

Lemma items_bound obj w l :
  wf_cst (CBox obj w l) -> (length l <= length (print (CBox obj w l)))%nat.
Proof.
  intros Hc. inversion Hc as [| |? ? ? Hw Hl Hv]; subst. rewrite print_box. destruct l as [|x l]; [cbn; lia|].
  pose proof (items_short obj (x :: l) Hl Hv) as Hs. cbn [print_items]. revert Hs. generalize (length (x :: l)). intros n Hs.
  cbn [length]. rewrite length_app. lia.
Qed.

Lemma value_bound obj w l1 it l2 :
  (length (print (it_val it)) <= length (print (CBox obj w (l1 ++ it :: l2))))%nat.
Proof. rewrite print_box, print_split. unfold print_item. lens. Qed.

Lemma lit_head t : lit_ok t -> exists x s, t = x :: s /\ open_char x = false /\ (x =? QT) = false.
Proof.
  intros [->|[->|[->|(c & s & -> & Hc & _)]]]; [by eexists _, _..|]. eexists _, _. split; [done|].
  unfold open_char, digit_char, QT in *. zsplit; cbn in *; done || lia.
Qed.

Lemma bad_index o seg l :
  is_dash seg = false -> array_index seg = None -> child_index seg (JArr l) = None /\ edit_child o seg (JArr l) = None.
Proof. rewrite array_index_position. intros H1 H2. unfold edit_child, child_index. rewrite H1, H2. by destruct o. Qed.

Definition edit_result (d : bytes) (k : patch_kind) (val : bytes) (t : option json_target) : option bytes :=
  match t with Some t => json_edit d k t val | None => None end.

Lemma resolve_edit fuel path A w c R k val o :
  wf_cst c -> Ws w -> denotes k val o -> Z.of_nat (length (print c)) <= UINT64_LAST ->
  edits (A ++ w) c R (edit_path o (pointer_segs fuel path) (erase c))
    (edit_result (A ++ w ++ print c ++ R) k val (resolve_loop fuel (A ++ w ++ print c ++ R) path (length A))).
Proof.
  intros Hc Hw Hd. revert path A w c R Hc Hw. induction fuel as [|fuel IH]; intros path A w c R Hc Hw Hlen; [done|].
  cbn [pointer_segs resolve_loop]. destruct (json_pointer_next_segment path) as [[seg rest]|]; [|done].
  rewrite skip_ws_at by (try apply print_stops; done). rewrite <-length_app, app_assoc.
  set (A' := A ++ w). clearbody A'. clear A.
  destruct c as [t|r|[] w' l].
  - (* literals have no members *)
    inversion Hc as [? Ht| |]; subst. destruct (lit_head t Ht) as (x & s & -> & Hx & _). cbn [print app].
    rewrite !is_at_here. unfold open_char in Hx. bprop. destruct (Z.eqb_spec x 123), (Z.eqb_spec x 91); try done.
    destruct rest as [|y rest]; cbn; [by destruct o|]. by destruct (pointer_segs fuel (y :: rest)).
  - cbn [print app]. rewrite !is_at_here. destruct rest as [|x rest]; cbn; [by destruct o|].
    by destruct (pointer_segs fuel (x :: rest)).
  - (* object *)
    assert (E1 : is_at (A' ++ print (CBox true w' l) ++ R) (length A') 123 = true)
      by (rewrite print_box, <-app_comm_cons; by rewrite is_at_here).
    rewrite E1, object_find_box by done. destruct rest as [|y rest].
    { rewrite bool_decide_true by done. exact (object_edit A' R w' l seg k val o Hc Hd). }
    rewrite bool_decide_false by done. cbn [closed_at fr_found fr_vstart].
    pose proof (key_index_cases seg l) as Hk. destruct (key_index seg (map member_of l)) as [i|] eqn:Ei.
    + destruct Hk as (l1 & it & l2 & -> & <- & <- & Hl1). rewrite visit_key_some by done. cbn [found_item fr_found fr_vstart].
      specialize (IH (y :: rest) (A' ++ [open_of true] ++ lead l1 ++ it_w1 it ++ head_text (it_head it)) []
        (it_val it) (it_w4 it ++ trail l2 ++ close_of true :: R)).
      rewrite <-box_inside with (w := w'), app_nil_r in IH.
      replace (value_at (length A' + 1 + length (lead l1)) it) with
        (length (A' ++ [open_of true] ++ lead l1 ++ it_w1 it ++ head_text (it_head it)))
        by (unfold value_at, start_at; lens).
      assert (Hv : wf_cst (it_val it)) by (apply wf_box_split in Hc; tauto).
      pose proof (value_bound true w' l1 it l2) as Hb. specialize (IH Hv ltac:(constructor) ltac:(lia)).
      apply (edits_inside true A' R w') in IH; [|done].
      destruct (pointer_segs fuel (y :: rest)) as [[s segs]|]; cbn [fmap option_fmap option_map edit_path fst snd] in *;
        [|exact IH].
      cbn [edit_at]. unfold child_index at 1. rewrite erase_obj, Ei, <-(erase_obj w'), get_child_erase. exact IH.
    + rewrite visit_key_none by done. cbn [fresh_find counted fr_found].
      destruct (pointer_segs fuel (y :: rest)) as [[s segs]|]; [|done].
      cbn [fmap option_fmap option_map edit_path edit_at fst snd]. unfold child_index. by rewrite erase_obj, Ei.
  - (* array *)
    assert (E1 : is_at (A' ++ print (CBox false w' l) ++ R) (length A') 123 = false)
      by (rewrite print_box, <-app_comm_cons; by rewrite is_at_here).
    assert (E2 : is_at (A' ++ print (CBox false w' l) ++ R) (length A') 91 = true)
      by (rewrite print_box, <-app_comm_cons; by rewrite is_at_here).
    pose proof (items_bound _ _ _ Hc) as Hb.
    rewrite E1, E2. destruct (if is_dash seg then Some 0 else array_index seg) as [index|] eqn:Ei.
    2: { destruct (is_dash seg) eqn:Ed; [done|]. destruct (bad_index o seg (map element_of l) Ed Ei) as [Hb1 Hb2].
         destruct rest as [|y rest]; cbn [edit_path edit_at]; rewrite ?erase_arr; [by rewrite Hb2|].
         destruct (pointer_segs fuel (y :: rest)) as [[s segs]|]; [|done].
         cbn [fmap option_fmap option_map edit_path edit_at fst snd]. by rewrite Hb1. }
    rewrite array_scan_box by done. destruct rest as [|y rest].
    { rewrite bool_decide_true by done. apply (array_edit A' R w' l seg index k val o Hc Hd ltac:(lia) Ei). }
    rewrite bool_decide_false by done. cbn [closed_at fr_found fr_start]. fold (scan_index seg index).
    assert (Ech : child_index seg (erase (CBox false w' l)) =
      if is_dash seg then None else if index <? Z.of_nat (length l) then Some (Z.to_nat index) else None).
    { rewrite erase_arr. unfold child_index. rewrite length_map, <-array_index_position. destruct (is_dash seg); [done|]. by rewrite Ei. }
    destruct (decide (is_dash seg = false /\ index < Z.of_nat (length l))) as [[Ed Hlt]|Hno].
    + unfold scan_index. rewrite Ed in *. pose proof (array_index_bound _ _ Ei).
      destruct (lookup_lt_is_Some_2 l (Z.to_nat index) ltac:(lia)) as [it Hit].
      apply list_elem_of_split_length in Hit as (l1 & l2 & -> & Hl1).
      destruct (Z.ltb_spec index (Z.of_nat (length (l1 ++ it :: l2)))); [|lia]. rewrite Hl1 in Ech.
      replace index with (Z.of_nat (fr_count fresh_find + length l1)) by (cbn; lia).
      assert (Hl : layout_ok false it /\ wf_cst (it_val it)) by (apply wf_box_split in Hc; tauto). destruct Hl as [Hl Hv].
      rewrite visit_index_some by done. cbn [found_item fr_found fr_start].
      specialize (IH (y :: rest) (A' ++ [open_of false] ++ lead l1 ++ it_w1 it ++ head_text (it_head it)) []
        (it_val it) (it_w4 it ++ trail l2 ++ close_of false :: R)).
      rewrite <-box_inside with (w := w'), app_nil_r in IH.
      replace (start_at (length A' + 1 + length (lead l1)) it) with
        (length (A' ++ [open_of false] ++ lead l1 ++ it_w1 it ++ head_text (it_head it))).
      2: { destruct Hl as (_ & Hh & _). destruct (it_head it); [by destruct Hh|]. unfold start_at. cbn [head_text]. lens. }
      pose proof (value_bound false w' l1 it l2) as Hb'. specialize (IH Hv ltac:(constructor) ltac:(lia)).
      apply (edits_inside false A' R w') in IH; [|done].
      destruct (pointer_segs fuel (y :: rest)) as [[s segs]|]; cbn [fmap option_fmap option_map edit_path fst snd] in *;
        [|exact IH].
      cbn [edit_at]. rewrite Ech, get_child_erase. exact IH.
    + assert (Ech' : child_index seg (erase (CBox false w' l)) = None).
      { rewrite Ech. destruct (is_dash seg); [done|]. destruct (Z.ltb_spec index (Z.of_nat (length l))); [|done].
        exfalso. by apply Hno. }
      rewrite visit_index_none.
      2: { unfold scan_index. destruct (is_dash seg); cbn; [lia|]. destruct (decide (index < Z.of_nat (length l))); [|lia].
           exfalso. by apply Hno. }
      cbn [fresh_find counted fr_found]. destruct (pointer_segs fuel (y :: rest)) as [[s segs]|]; [|done].
      cbn [fmap option_fmap option_map edit_path edit_at fst snd]. by rewrite Ech'.
Qed.

(** ** One operation on a document *)

Definition path_edit (o : edit_op) (path : bytes) (j : json) : option json :=
  match path with
  | [] => match o with ERemove => None | EAdd v | EReplace v => Some v end
  | _ => edit_path o (tokens path) j
  end.

Definition op_edit (op : bytes) (v : option json) : option edit_op :=
  match patch_kind_of op, v with
  | Some POp_add, Some v => Some (EAdd v)
  | Some POp_replace, Some v => Some (EReplace v)
  | Some POp_remove, _ => Some ERemove
  | _, _ => None
  end.

(** A raw value of the patch and the value it denotes. *)
Definition value_denotes (s : option bytes) (v : option json) : Prop :=
  match s, v with
  | Some s, Some v => exists cv, wf_cst cv /\ s = print cv /\ erase cv = v
  | None, None => True
  | _, _ => False
  end.

Definition apply_tree (op path : bytes) (v : option json) (j : json) : option json :=
  match op_edit op v with Some o => path_edit o path j | None => None end.

Lemma edit_document d j k val o path :
  text_of j d -> denotes k val o -> Z.of_nat (length d) <= UINT64_LAST ->
  match path_edit o path j with
  | Some j' => exists d', edit_result d k val (json_resolve_pointer d path) = Some d' /\ text_of j' d'
  | None => edit_result d k val (json_resolve_pointer d path) = None
  end.
Proof.
  intros (w & c & w' & Hw & Hc & Hw' & -> & <-) Hd Hlen. destruct path as [|x path].
  - cbn [path_edit json_resolve_pointer edit_result]. unfold json_edit. cbn [whole_doc].
    assert (Es : forall cv, json_splice (w ++ print c ++ w') 0 (length (w ++ print c ++ w')) (print cv) = Some (print cv)).
    { intros cv. pose proof (splice_at [] (w ++ print c ++ w') [] (print cv)) as E. cbn [app length Nat.add] in E.
      by rewrite !app_nil_r in E. }
    destruct Hd as [cv Hcv|cv Hcv|v]; [..|done]; rewrite Es; eexists; (split; [done|]);
      exists [], cv, []; rewrite app_nil_r; by repeat split; try constructor.
  - cbn [path_edit json_resolve_pointer]. destruct (x =? 47) eqn:Ex; [|unfold tokens; by rewrite Ex].
    rewrite <-(pointer_segs_tokens (length (x :: path))) by done.
    assert (Hl : Z.of_nat (length (print c)) <= UINT64_LAST) by (revert Hlen; rewrite !length_app; lia).
    pose proof (resolve_edit (length (x :: path)) (x :: path) [] w c w' k val o Hc Hw Hd Hl) as E.
    unfold edits in E. cbn [app] in E. change (length ([] : bytes)) with 0%nat in E. destruct (edit_path _ _ _) as [j'|]; [|done].
    destruct E as (c' & Hc' & <- & ->). eexists. split; [done|]. by exists w, c', w'.
Qed.

Lemma apply_one_op_correct d j op path val v :
  text_of j d -> value_denotes val v -> Z.of_nat (length d) <= UINT64_LAST ->
  match apply_tree op path v j with
  | Some j' => exists d', json_apply_one_op true d op path val = Some d' /\ text_of j' d'
  | None => json_apply_one_op true d op path val = None
  end.
Proof.
  intros Hd Hv Hlen. unfold apply_tree, op_edit, json_apply_one_op. cbn [negb].
  destruct (patch_kind_of op) as [k|]; [|done].
  assert (E : forall o, denotes k (match val with Some v => v | None => [] end) o ->
    match path_edit o path j with
    | Some j' => exists d', edit_result d k (match val with Some v => v | None => [] end) (json_resolve_pointer d path) = Some d' /\
        text_of j' d'
    | None => edit_result d k (match val with Some v => v | None => [] end) (json_resolve_pointer d path) = None
    end) by (intros; by apply edit_document).
  unfold edit_result in E. destruct val as [s|], v as [v|]; cbn in Hv; try done.
  - destruct Hv as (cv & Hcv & -> & <-). destruct (print_head cv Hcv) as (x & s & Ex & _). rewrite Ex in *.
    destruct k; apply E; rewrite <-Ex; by constructor.
  - destruct k; [done..|]. apply E. constructor.
Qed.

(** ** Reading an operation *)

Record tree_op := mk_top { to_op : option bytes; to_path : option bytes; to_value : option json; to_from : bool }.

Definition str_contents (j : json) : option bytes := match j with JStr r => Some r | _ => None end.

Definition read_member (m : bytes * json) (o : tree_op) : option tree_op :=
  if bytes_eqb m.1 B"op" then (fun s => mk_top (Some s) (to_path o) (to_value o) (to_from o)) <$> str_contents m.2
  else if bytes_eqb m.1 B"path" then (fun s => mk_top (to_op o) (Some s) (to_value o) (to_from o)) <$> str_contents m.2
  else if bytes_eqb m.1 B"value" then Some (mk_top (to_op o) (to_path o) (Some m.2) (to_from o))
  else if bytes_eqb m.1 B"from" then Some (mk_top (to_op o) (to_path o) (to_value o) true)
  else Some o.

Fixpoint read_members (ms : list (bytes * json)) (o : tree_op) : option tree_op :=
  match ms with
  | [] => Some o
  | m :: ms' => match read_member m o with Some o' => read_members ms' o' | None => None end
  end.

(** The operation an object of the patch stands for. *)
Definition read_op (j : json) : option (bytes * bytes * option json * bool) :=
  match j with
  | JObj (m :: ms) =>
      match read_members (m :: ms) (mk_top None None None false) with
      | Some (mk_top (Some op) (Some path) v from) => Some (op, path, v, from)
      | _ => None
      end
  | _ => None
  end.

(** A patch on a tree: the operations in order, each on the result of the one
    before; moves and copies, and escapes in a path, are not supported. *)
Fixpoint patch_tree (ops : list json) (j : json) : option json :=
  match ops with
  | [] => Some j
  | o :: ops' =>
      match read_op o with
      | Some (op, path, v, false) =>
          if existsb (fun c => c =? BSL) path then None
          else match apply_tree op path v j with Some j' => patch_tree ops' j' | None => None end
      | _ => None
      end
  end.

(** ** Reading an operation from its text *)

Definition op_denotes (o : patch_op) (t : tree_op) : Prop :=
  po_op o = to_op t /\ po_path o = to_path t /\ value_denotes (po_value o) (to_value t) /\ po_from o = to_from t.

Lemma contents_at P v S :
  wf_cst v -> string_contents (P ++ print v ++ S) (length P) (length P + length (print v)) = str_contents (erase v).
Proof.
  intros Hv. unfold string_contents. destruct Hv as [t Ht|r Hr|obj w l _ _ _].
  - destruct (lit_head t Ht) as (x & s & -> & _ & Hx). cbn [print app]. rewrite is_at_here.
    by rewrite Hx.
  - cbn [print]. rewrite <-app_comm_cons, is_at_here, Z.eqb_refl. cbn [negb orb].
    destruct (Nat.ltb_spec (length P + length (QT :: r ++ [QT]) - length P) 2) as [Hlt|_]; [revert Hlt; lens|].
    cbn [erase str_contents]. f_equal. unfold slice.
    replace (P ++ QT :: (r ++ [QT]) ++ S) with ((P ++ [QT]) ++ r ++ [QT] ++ S) by asc.
    replace (length P + 1)%nat with (length (P ++ [QT])) by lens. rewrite drop_app_length.
    replace (length P + length (QT :: r ++ [QT]) - 1 - length (P ++ [QT]))%nat with (length r) by lens.
    apply take_app_length.
  - rewrite print_box, <-app_comm_cons, is_at_here. by destruct obj.
Qed.

Lemma slice_at P X S : slice (length P) (length P + length X - length P) (P ++ X ++ S) = X.
Proof.
  unfold slice. rewrite drop_app_length. replace (length P + length X - length P)%nat with (length X) by lia.
  apply take_app_length.
Qed.

Lemma note_item A it c rest o t :
  layout_ok true it -> wf_cst (it_val it) -> op_denotes o t ->
  match read_member (member_of it) t with
  | Some t' => exists o', note_patch_member (A ++ print_item it ++ c :: rest) (key_of it) (value_at (length A) it)
                 (end_at (length A) it) o = Some o' /\ op_denotes o' t'
  | None => note_patch_member (A ++ print_item it ++ c :: rest) (key_of it) (value_at (length A) it)
                 (end_at (length A) it) o = None
  end.
Proof.
  intros Hl Hv (H1 & H2 & H3 & H4).
  set (P := A ++ it_w1 it ++ head_text (it_head it)). set (S' := it_w4 it ++ c :: rest).
  assert (Ed : A ++ print_item it ++ c :: rest = P ++ print (it_val it) ++ S') by (unfold print_item, P, S'; asc).
  assert (Es : value_at (length A) it = length P) by (unfold value_at, start_at, P; lens).
  assert (Ee : end_at (length A) it = (length P + length (print (it_val it)))%nat) by (unfold end_at; lia).
  rewrite Ed, Es, Ee. unfold note_patch_member, read_member, member_of. cbn [fst snd].
  rewrite contents_at, slice_at by done.
  destruct (bytes_eqb (key_of it) B"op"); [|destruct (bytes_eqb (key_of it) B"path");
    [|destruct (bytes_eqb (key_of it) B"value"); [|destruct (bytes_eqb (key_of it) B"from")]]].
  - destruct (str_contents _); cbn; [|done]. eexists. split; [done|]. by repeat split.
  - destruct (str_contents _); cbn; [|done]. eexists. split; [done|]. by repeat split.
  - eexists. split; [done|]. repeat split; cbn; try done. by exists (it_val it).
  - eexists. split; [done|]. by repeat split.
  - eexists. split; [done|]. by repeat split.
Qed.

Lemma op_step fuel A it c rest o :
  layout_ok true it -> wf_cst (it_val it) -> sep_char c ->
  parse_op_loop (S fuel) (A ++ print_item it ++ c :: rest) (length A) o =
  match note_patch_member (A ++ print_item it ++ c :: rest) (key_of it) (value_at (length A) it) (end_at (length A) it) o with
  | None => None
  | Some o' =>
      let q := (length A + length (print_item it))%nat in
      if c =? 44 then parse_op_loop fuel (A ++ print_item it ++ c :: rest) (q + 1) o'
      else if c =? 125 then Some (o', (q + 1)%nat) else None
  end.
Proof.
  intros Hl Hv Hc. cbn [parse_op_loop]. destruct (member_scan A it c rest Hl Hv Hc) as (-> & -> & ->).
  cbn [negb]. rewrite (item_value_end true), (item_end true), !(item_sep A) by done. done.
Qed.

Lemma op_loop_reads l fuel A rest o t :
  l <> [] -> Forall (layout_ok true) l -> Forall (fun it => wf_cst (it_val it)) l -> (length l <= fuel)%nat -> op_denotes o t ->
  match read_members (map member_of l) t with
  | Some t' => exists o', parse_op_loop fuel (A ++ join (map print_item l) ++ 125 :: rest) (length A) o =
                 Some (o', length A + length (join (map print_item l)) + 1)%nat /\ op_denotes o' t'
  | None => parse_op_loop fuel (A ++ join (map print_item l) ++ 125 :: rest) (length A) o = None
  end.
Proof.
  revert fuel A o t. induction l as [|it l IH]; intros [|fuel] A o t Hne Hl Hv Hf Ho; try done; [cbn in Hf; lia|].
  inversion Hl; inversion Hv; subst.
  change (read_members (map member_of (it :: l)) t) with
    (match read_member (member_of it) t with Some t' => read_members (map member_of l) t' | None => None end).
  destruct (join_first it l 125 rest) as (c & rest' & Hsep & Ej); [done|].
  pose proof (note_item A it c rest' o t ltac:(done) ltac:(done) Ho) as Hn.
  rewrite Ej, op_step by done. destruct (read_member (member_of it) t) as [t'|]; [|by rewrite Hn].
  destruct Hn as (o' & -> & Ho'). cbv zeta. destruct l as [|it2 l].
  - cbn [map join] in Ej |- *. apply app_inv_head in Ej. injection Ej as <- <-. cbn [read_members].
    change (125 =? 44) with false. rewrite Z.eqb_refl. eauto.
  - change (map print_item (it :: it2 :: l)) with (print_item it :: map print_item (it2 :: l)) in *.
    change (map print_item (it2 :: l)) with (print_item it2 :: map print_item l) in *.
    rewrite join_cons in *. change (print_item it2 :: map print_item l) with (map print_item (it2 :: l)) in *.
    rewrite <-app_assoc in Ej. apply app_inv_head in Ej. injection Ej as <- Er.
    assert (Er' : rest' = join (map print_item (it2 :: l)) ++ 125 :: rest) by (symmetry; exact Er).
    clear Er. subst rest'. rewrite Z.eqb_refl. specialize (IH fuel (A ++ print_item it ++ [44]) o' t' ltac:(done) ltac:(done) ltac:(done) ltac:(cbn in Hf |- *; lia) Ho').
    replace (A ++ print_item it ++ 44 :: join (map print_item (it2 :: l)) ++ 125 :: rest)
      with ((A ++ print_item it ++ [44]) ++ join (map print_item (it2 :: l)) ++ 125 :: rest) by asc.
    replace (length A + length (print_item it) + 1)%nat with (length (A ++ print_item it ++ [44])) by lens.
    destruct (read_members (map member_of (it2 :: l)) t') as [t''|]; [|done].
    destruct IH as (o'' & -> & Ho''). exists o''. split; [|done]. do 2 f_equal. lens.
Qed.

Lemma parse_op_correct A w c S :
  wf_cst c -> Ws w ->
  match read_op (erase c) with
  | Some (op, path, v, from) =>
      exists v', json_patch_parse_op (A ++ w ++ print c ++ S) (length A) =
        Some (op, path, v', from, length A + length w + length (print c))%nat /\ value_denotes v' v
  | None => json_patch_parse_op (A ++ w ++ print c ++ S) (length A) = None
  end.
Proof.
  intros Hc Hw. unfold json_patch_parse_op. rewrite skip_ws_at by (try apply print_stops; done).
  rewrite <-length_app, app_assoc. set (P := A ++ w). clearbody P. destruct c as [t|r|[] w' l].
  - inversion Hc as [? Ht| |]; subst. destruct (lit_head t Ht) as (x & s & -> & Hx & _). cbn [print app erase read_op].
    rewrite is_at_here. unfold open_char in Hx. bprop. by destruct (Z.eqb_spec x 123).
  - cbn [print app erase read_op]. by rewrite is_at_here.
  - rewrite erase_obj. inversion Hc as [| |? ? ? Hw' Hl Hv]; subst. rewrite print_box, <-app_comm_cons.
    cbn [open_of close_of]. rewrite is_at_here, Z.eqb_refl. cbn [negb].
    replace (P ++ 123 :: (print_items w' l ++ [125]) ++ S) with ((P ++ [123]) ++ print_items w' l ++ 125 :: S) by asc.
    replace (length P + 1)%nat with (length (P ++ [123])) by lens. destruct l as [|it l].
    { cbn [print_items map read_op]. rewrite skip_ws_at, app_assoc, <-length_app, is_at_here by done. done. }
    cbn [print_items]. inversion Hl; inversion Hv; subst.
    destruct (join_first it l 125 S) as (c & rest' & Hsep & Ej); [done|].
    rewrite Ej, (item_not_close true) by done. rewrite <-Ej. set (d := (P ++ [123]) ++ join (map print_item (it :: l)) ++ 125 :: S).
    assert (Hf : (length (it :: l) <= length d)%nat).
    { pose proof (items_short true (it :: l) Hl Hv). unfold d. rewrite !length_app. lia. }
    assert (Ho : op_denotes (mk_pop None None None false) (mk_top None None None false)) by (by repeat split).
    pose proof (op_loop_reads (it :: l) (length d) (P ++ [123]) S _ _ ltac:(done) Hl Hv Hf Ho) as Hr. fold d in Hr.
    assert (Eskip : parse_op_loop (length d) d (json_skip_ws d (length (P ++ [123]))) (mk_pop None None None false) =
      parse_op_loop (length d) d (length (P ++ [123])) (mk_pop None None None false)).
    { destruct (length d); [done|]. cbn [parse_op_loop]. by rewrite skip_ws_idem. }
    rewrite Eskip. set (ms := read_members (map member_of (it :: l)) (mk_top None None None false)) in Hr.
    change (read_op (JObj (map member_of (it :: l)))) with
      (match ms with Some (mk_top (Some op) (Some path) v from) => Some (op, path, v, from) | _ => None end).
    destruct ms as [t|]; [|by rewrite Hr]. destruct Hr as (o' & -> & E1 & E2 & E3 & E4).
    destruct o' as [op' path' v' from'], t as [[op|] [path|] v from]; cbn in E1, E2, E3, E4; subst; try done.
    exists v'. split; [|done]. do 2 f_equal. lens.
  - cbn [erase read_op]. rewrite print_box, <-app_comm_cons. cbn [open_of]. by rewrite is_at_here.
Qed.

(** ** Growth of a document *)

Lemma splice_length d s e ins d' : json_splice d s e ins = Some d' -> (length d' <= length d + length ins)%nat.
Proof.
  unfold json_splice. destruct (Nat.ltb_spec e s); [done|]. destruct (Nat.ltb_spec (length d) e); [done|].
  intros [= <-]. rewrite !length_app, length_take, length_drop. lia.
Qed.

Lemma length_escape s : (length (json_escape s) <= 6 * length s)%nat.
Proof.
  induction s as [|c s IH]; [done|]. unfold json_escape in *. cbn [map concat length]. rewrite length_app.
  assert ((length (json_escape_byte c) <= 6)%nat); [|lia].
  unfold json_escape_byte. zsplit; cbn; lia.
Qed.

Lemma segment_length p n r : segment_loop p n = Some r -> (length r.1 + length r.2 <= length p)%nat.
Proof.
  enough (forall k p n r, (length p <= k)%nat -> segment_loop p n = Some r -> (length r.1 + length r.2 <= length p)%nat) by eauto.
  clear. induction k as [|k IH]; intros [|c p] n r Hk; cbn [segment_loop]; try (by intros [= <-]); [cbn in Hk; lia|].
  destruct (c =? 47); [intros [= <-]; cbn; lia|]. destruct (c =? 126).
  - destruct p as [|e p]; [done|]. destruct (if e =? 48 then _ else _) as [u|]; [|done]. destruct (_ <=? _)%nat; [done|].
    destruct (segment_loop p (S n)) as [r'|] eqn:E; [|done]. intros [= <-]. apply IH in E; cbn in *; lia.
  - destruct (_ <=? _)%nat; [done|]. destruct (segment_loop p (S n)) as [r'|] eqn:E; [|done]. intros [= <-].
    apply IH in E; cbn in *; lia.
Qed.

Lemma next_segment_length path seg rest :
  json_pointer_next_segment path = Some (seg, rest) -> (length seg + length rest <= length path)%nat.
Proof.
  unfold json_pointer_next_segment. destruct path as [|c p]; [done|]. destruct (c =? 47); [|done].
  intros E. apply segment_length in E. cbn in *. lia.
Qed.

Lemma resolve_key_length fuel d path cur t :
  resolve_loop fuel d path cur = Some t -> (length (tg_key t) <= length path)%nat.
Proof.
  revert path cur. induction fuel as [|fuel IH]; intros path cur; cbn [resolve_loop]; [done|].
  destruct (json_pointer_next_segment path) as [[seg rest]|] eqn:E; [|done]. apply next_segment_length in E.
  destruct (is_at d _ 123).
  - destruct (json_object_find d _ seg) as [r|]; [|done].
    destruct (bool_decide _); [intros [= <-]; cbn; lia|]. destruct (fr_found r); [|done].
    intros Hr. apply IH in Hr. lia.
  - destruct (is_at d _ 91); [|done]. destruct (if is_dash seg then _ else _) as [index|]; [|done].
    destruct (json_array_scan d _ _) as [r|]; [|done].
    destruct (bool_decide _); [intros [= <-]; cbn; lia|]. destruct (fr_found r); [|done].
    intros Hr. apply IH in Hr. lia.
Qed.

Definition growth (path : bytes) (val : option bytes) : nat :=
  6 * length path + 4 + match val with Some v => length v | None => 0 end.

Lemma apply_one_op_length al d op path val d' :
  json_apply_one_op al d op path val = Some d' -> (length d' <= length d + growth path val)%nat.
Proof.
  unfold json_apply_one_op. destruct (patch_kind_of op) as [k|]; [|done].
  set (v := match val with Some v => v | None => [] end).
  assert (Hv : length v = match val with Some v => length v | None => 0%nat end) by (by destruct val).
  assert (E : forall t, json_resolve_pointer d path = Some t -> (length (tg_key t) <= length path)%nat).
  { intros t. unfold json_resolve_pointer. destruct path as [|c p]; [by intros [= <-]|]. destruct (c =? 47); [|done].
    apply resolve_key_length. }
  assert (H : match json_resolve_pointer d path with Some t => if negb al then None else json_edit d k t v | None => None end
    = Some d' -> (length d' <= length d + growth path val)%nat).
  { destruct (json_resolve_pointer d path) as [t|]; [|done]. specialize (E t eq_refl). destruct al; [|done]. cbn [negb].
    unfold growth. rewrite <-Hv. pose proof (length_escape (tg_key t)) as He.
    unfold json_edit. destruct (whole_doc t).
    { destruct k; try done; intros Hs%splice_length; lia. }
    destruct k; [| |destruct (tg_found t); cbn [negb]; [|done]; destruct (json_remove_range d t); intros Hs%splice_length; cbn in Hs; lia].
    - assert (Hc : (length (if (0 <? parent_count t)%nat then [44%Z] else []) <= 1)%nat) by (destruct (_ <? _)%nat; cbn; lia).
      destruct (parent_is_object t); [destruct (tg_found t)|destruct (_ || _); [|destruct (_ <? _); [|done]]];
        intros Hs%splice_length; unfold serialize_write_json_string in Hs; rewrite ?length_app in Hs; cbn [length] in Hs;
        rewrite ?length_app in Hs; cbn [length] in Hs; lia.
    - destruct (tg_found t); cbn [negb]; [|done]. intros Hs%splice_length. lia. }
  destruct k; [destruct val as [[|x s]|]; try done; exact H..|exact H].
Qed.

Lemma length_slice i n l : (length (slice i n l) <= length l)%nat.
Proof. unfold slice. rewrite length_take, length_drop. lia. Qed.

Definition op_short (n : nat) (o : patch_op) : Prop :=
  (forall s, po_path o = Some s -> (length s <= n)%nat) /\ (forall s, po_value o = Some s -> (length s <= n)%nat).

Lemma parse_op_loop_short fuel d p o o' q :
  op_short (length d) o -> parse_op_loop fuel d p o = Some (o', q) -> op_short (length d) o'.
Proof.
  revert p o. induction fuel as [|fuel IH]; intros p o Ho; cbn [parse_op_loop]; [done|].
  destruct (negb _); [done|]. destruct (json_key d _) as [[k vs]|]; [|done].
  destruct (json_skip_value d vs) as [ve|]; [|done].
  destruct (note_patch_member d k vs ve o) as [o1|] eqn:E; [|done].
  assert (Ho1 : op_short (length d) o1).
  { destruct Ho as [H1 H2]. unfold note_patch_member, string_contents in E.
    repeat (destruct (bytes_eqb k _)); [destruct (_ || _); [done|]..| | |]; cbn in E; injection E as <-;
      split; cbn; try done; intros s [= <-]; apply length_slice. }
  destruct (is_at d _ 44); [by apply IH|]. destruct (is_at d _ 125); [|done]. by intros [= <- _].
Qed.

Lemma parse_op_short d pos op path v from q :
  json_patch_parse_op d pos = Some (op, path, v, from, q) ->
  (growth path v <= 7 * length d + 4)%nat.
Proof.
  unfold json_patch_parse_op. destruct (negb _); [done|]. destruct (is_at d _ 125); [done|].
  destruct (parse_op_loop _ _ _ _) as [[[[op'|] [path'|] v' from'] q']|] eqn:E; try done. intros [= <- <- <- <- <-].
  apply parse_op_loop_short in E; [|by split]. destruct E as [H1 H2]. specialize (H1 path' eq_refl). unfold growth.
  destruct v' as [v'|]; [specialize (H2 v' eq_refl)|]; lia.
Qed.

(** ** The whole patch *)

(** Room for every document on the way. *)
Definition room (doc d : bytes) (ops : nat) : Prop :=
  Z.of_nat (length doc + ops * (7 * length d + 4)) <= UINT64_LAST.

Definition computes (want : option json) (got : option bytes) : Prop :=
  match want with Some j' => exists doc', got = Some doc' /\ text_of j' doc' | None => got = None end.

Lemma patch_loop_correct al l fuel A n doc j :
  l <> [] -> Forall (layout_ok false) l -> Forall (fun it => wf_cst (it_val it)) l -> (length l <= fuel)%nat ->
  (forall n, al n = true) -> text_of j doc ->
  room doc (A ++ join (map print_item l) ++ [93]) (length l) ->
  computes (patch_tree (map element_of l) j)
    (patch_loop al fuel (A ++ join (map print_item l) ++ [93]) (length A) n doc).
Proof.
  intros Hne Hl Hv Hf Hal. revert fuel A n doc j Hne Hl Hv Hf.
  induction l as [|it l IH]; intros [|fuel] A n doc j Hne Hl Hv Hf Ht Hroom; try done; [cbn in Hf; lia|].
  inversion Hl as [|? ? Hli Hl']; inversion Hv as [|? ? Hvi Hv']; subst.
  destruct (join_first it l 93 []) as (c & rest' & Hsep & Ej); [done|].
  pose proof Hli as (Hw1 & Hh & Hw4). assert (Hnone : it_head it = None) by (destruct (it_head it); [by destruct Hh|done]).
  pose proof (parse_op_correct A (it_w1 it) (it_val it) (it_w4 it ++ c :: rest') Hvi Hw1) as Hp.
  assert (Ed : A ++ it_w1 it ++ print (it_val it) ++ it_w4 it ++ c :: rest' = A ++ print_item it ++ c :: rest')
    by (unfold print_item; rewrite Hnone; asc).
  rewrite Ed in Hp. rewrite Ej in *.
  change (patch_tree (map element_of (it :: l)) j) with
    (match read_op (element_of it) with
     | Some (op, path, v, false) =>
         if existsb (fun c => c =? BSL) path then None
         else match apply_tree op path v j with Some j' => patch_tree (map element_of l) j' | None => None end
     | _ => None
     end).
  cbn [patch_loop]. unfold element_of. destruct (read_op (erase (it_val it))) as [[[[op path] v] from]|]; [|by rewrite Hp].
  destruct Hp as (v' & Hparse & Hvd). pose proof (parse_op_short _ _ _ _ _ _ _ Hparse) as Hgrow. rewrite Hparse.
  destruct from; [done|]. destruct (existsb _ path); [done|]. rewrite Hal.
  assert (Hlen : Z.of_nat (length doc) <= UINT64_LAST) by (unfold room in Hroom; lia).
  pose proof (apply_one_op_correct doc j op path v' v Ht Hvd Hlen) as Hop.
  destruct (apply_tree op path v j) as [j'|]; [|by rewrite Hop]. destruct Hop as (doc' & Hdoc & Ht').
  pose proof (apply_one_op_length _ _ _ _ _ _ Hdoc) as Hg. rewrite Hdoc.
  replace (length A + length (it_w1 it) + length (print (it_val it)))%nat with (end_at (length A) it)
    by (unfold end_at, value_at, start_at; rewrite Hnone; cbn; lia).
  rewrite (item_end false), !(item_sep A) by done.
  destruct l as [|it2 l].
  - cbn [map join] in Ej. apply app_inv_head in Ej. injection Ej as <- _. cbn. eauto.
  - change (map print_item (it :: it2 :: l)) with (print_item it :: print_item it2 :: map print_item l) in Ej.
    rewrite join_cons in Ej. rewrite <-app_assoc in Ej. apply app_inv_head in Ej. injection Ej as <- Er.
    assert (Er' : rest' = join (map print_item (it2 :: l)) ++ [93]) by (symmetry; exact Er).
    clear Er. subst rest'. rewrite Z.eqb_refl.
    assert (Ea : A ++ print_item it ++ 44 :: join (map print_item (it2 :: l)) ++ [93] =
      (A ++ print_item it ++ [44]) ++ join (map print_item (it2 :: l)) ++ [93]) by asc.
    rewrite Ea in *. replace (length A + length (print_item it) + 1)%nat with (length (A ++ print_item it ++ [44])) by lens.
    apply IH; try done; [cbn in Hf |- *; lia|]. unfold room in *. cbn [length] in Hroom |- *. lia.
Qed.

(** The operations a patch document carries: itself an array, or an object
    with a ["patch"] member. *)
Definition patch_ops (p : json) : option (list json) :=
  match p with
  | JArr l => Some l
  | JObj ms =>
      match key_index B"patch" ms with
      | Some i => match ms !! i with Some (_, JArr l) => Some l | _ => None end
      | None => None
      end
  | _ => None
  end.

Lemma locate_correct p patch :
  text_of p patch ->
  match patch_ops p with
  | Some ops => exists P w l S, patch = P ++ print (CBox false w l) ++ S /\ wf_cst (CBox false w l) /\
      map element_of l = ops /\
      json_patch_locate_array patch = Some (length P, length P + length (print (CBox false w l)))%nat
  | None => json_patch_locate_array patch = None
  end.
Proof.
  intros (w & c & w' & Hw & Hc & Hw' & -> & <-). unfold json_patch_locate_array.
  pose proof (skip_ws_at [] w (print c ++ w') Hw (print_stops c w' Hc)) as Es. cbn [app] in Es.
  change (length ([] : bytes)) with 0%nat in Es. rewrite Es. cbn [Nat.add]. destruct c as [t|r|[] w0 l].
  - inversion Hc as [? Ht| |]; subst. destruct (lit_head t Ht) as (x & s & -> & Hx & _). cbn [print app erase patch_ops].
    rewrite !is_at_here. unfold open_char in Hx. bprop. by destruct (Z.eqb_spec x 123), (Z.eqb_spec x 91).
  - cbn [print app erase patch_ops]. by rewrite !is_at_here.
  - assert (Eo : forall x, is_at (w ++ print (CBox true w0 l) ++ w') (length w) x = (123 =? x))
      by (intros x; rewrite print_box, <-app_comm_cons; by rewrite is_at_here).
    rewrite !Eo. cbn [Z.eqb]. rewrite object_find_box, erase_obj by done. cbn [patch_ops closed_at fr_found fr_vstart fr_vend].
    pose proof (key_index_cases B"patch" l) as Hk. destruct (key_index B"patch" (map member_of l)) as [i|].
    + destruct Hk as (l1 & it & l2 & -> & <- & Hkey & Hl1). rewrite <-Hkey in Hl1 |- *. rewrite visit_key_some by done.
      rewrite map_app. cbn [map]. rewrite <-(length_map member_of l1), list_lookup_middle by done.
      cbn [found_item fr_found fr_vstart fr_vend negb]. rewrite ?length_map.
      set (P := w ++ [123] ++ lead l1 ++ it_w1 it ++ head_text (it_head it)).
      assert (Evs : value_at (length w + 1 + length (lead l1)) it = length P) by (unfold value_at, start_at, P; lens).
      assert (Eve : end_at (length w + 1 + length (lead l1)) it = (length P + length (print (it_val it)))%nat)
        by (unfold end_at; lia).
      pose proof (box_inside true w w' w0 l1 it l2) as Eb. cbn [open_of close_of app] in Eb. fold P in Eb.
      assert (Et : take (length P + length (print (it_val it))) (w ++ print (CBox true w0 (l1 ++ it :: l2)) ++ w') =
        P ++ print (it_val it)) by (rewrite Eb, app_assoc, <-length_app; apply take_app_length).
      rewrite Evs, Eve, Et.
      assert (Hv : wf_cst (it_val it)) by (apply wf_box_split in Hc; tauto).
      pose proof (print_stops (it_val it) [] Hv) as Hst. rewrite app_nil_r in Hst. rewrite (skip_ws_here P _ Hst).
      unfold member_of. destruct (it_val it) as [t|r|[] w1 l'].
      * inversion Hv as [? Ht| |]; subst. destruct (lit_head t Ht) as (x & s & -> & Hx & _). cbn [print app erase].
        rewrite !is_at_here. unfold open_char in Hx. bprop. by destruct (Z.eqb_spec x 91).
      * cbn [print app erase]. by rewrite !is_at_here.
      * rewrite (print_box true w1). by rewrite is_at_here.
      * rewrite erase_arr. exists P, w1, l', (it_w4 it ++ trail l2 ++ 125 :: w').
        assert (E91 : is_at (P ++ print (CBox false w1 l')) (length P) 91 = true)
          by (rewrite print_box; by rewrite is_at_here).
        rewrite E91. done.
    + rewrite visit_key_none by done. done.
  - assert (Eo : forall x, is_at (w ++ print (CBox false w0 l) ++ w') (length w) x = (91 =? x))
      by (intros x; rewrite print_box, <-app_comm_cons; by rewrite is_at_here).
    rewrite !Eo. cbn [Z.eqb]. rewrite erase_arr. cbn [patch_ops]. exists w, w0, l, w'.
    pose proof (skip_value_at w [] (CBox false w0 l) w' Hc ltac:(constructor)) as Ev.
    assert (Hn : stops num_char w').
    { destruct Hw' as [|x s Hx _]; [done|]. cbn. unfold ws_char, num_char, digit_char in *. zsplit; cbn in *; done || lia. }
    specialize (Ev Hn). cbn [app length] in Ev. rewrite Nat.add_0_r in Ev. rewrite Ev.
    assert (Ee : json_skip_ws (w ++ print (CBox false w0 l) ++ w') (length w + length (print (CBox false w0 l))) =
      length (w ++ print (CBox false w0 l) ++ w')).
    { pose proof (skip_ws_at (w ++ print (CBox false w0 l)) w' [] Hw' I) as E. rewrite app_nil_r in E.
      rewrite <-length_app, app_assoc, E. lens. }
    rewrite Ee, Nat.eqb_refl. done.
Qed.


(** RFC 6901 compares names with their escapes undone; the engine compares the
    token with the text of the key: the member ["a/b"], written with an escaped slash,
    cannot be removed, and adding it makes a second member. *)
Example escaped_key_not_found :
  ak_json_patch_apply true (fun _ => true) JQ"{'a\/b':1}" JQ"[{'op':'remove','path':'/a~1b'}]" = None /\
  ak_json_patch_apply true (fun _ => true) JQ"{'a\/b':1}" JQ"[{'op':'add','path':'/a~1b','value':2}]" = Some JQ"{'a\/b':1,'a/b':2}".
Proof. vm_compute. split; reflexivity. Qed.

(** ** Pointers read back *)

Definition escape_seg (c : Z) : bytes := if c =? 126 then [126; 48] else if c =? 47 then [126; 49] else [c].
Definition pointer_text (segs : list bytes) : bytes := concat (map (fun s => 47 :: concat (map escape_seg s)) segs).

Lemma segment_escape s rest n :
  (n + length s < AK_JSON_PTR_SEG_MAX)%nat -> (rest = [] \/ exists r, rest = 47 :: r) ->
  segment_loop (concat (map escape_seg s) ++ rest) n = Some (s, rest).
Proof.
  intros Hn Hr. revert n Hn. induction s as [|c s IH]; intros n Hn; cbn [map concat].
  - destruct Hr as [->|[r ->]]; done.
  - assert (Hfull : (AK_JSON_PTR_SEG_MAX <=? n + 1)%nat = false) by (apply Nat.leb_gt; cbn in Hn; lia).
    specialize (IH (S n) ltac:(cbn in Hn; lia)). unfold escape_seg at 1.
    destruct (Z.eqb_spec c 126) as [->|]; [cbn [app segment_loop Z.eqb]; by rewrite Hfull, IH|].
    destruct (Z.eqb_spec c 47) as [->|]; [cbn [app segment_loop Z.eqb]; by rewrite Hfull, IH|].
    cbn [app segment_loop]. destruct (Z.eqb_spec c 47), (Z.eqb_spec c 126); try done. by rewrite Hfull, IH.
Qed.

(** The segments of a printed pointer are the ones it was printed from. *)
Lemma pointer_round_trip seg segs fuel :
  Forall (fun s => (length s < AK_JSON_PTR_SEG_MAX)%nat) (seg :: segs) ->
  (length (seg :: segs) <= fuel)%nat -> pointer_segs fuel (pointer_text (seg :: segs)) = Some (seg, segs).
Proof.
  revert seg fuel. induction segs as [|s2 segs IH]; intros seg [|fuel] Hs Hf; try (cbn in Hf; lia);
    inversion Hs as [|? ? Hseg Hs']; subst; unfold pointer_text; cbn [map concat app pointer_segs json_pointer_next_segment].
  - rewrite Z.eqb_refl, segment_escape by (cbn; auto). done.
  - rewrite Z.eqb_refl, segment_escape by (cbn; eauto). specialize (IH s2 fuel Hs' ltac:(cbn in Hf |- *; lia)).
    unfold pointer_text in IH. cbn [map concat app] in IH |- *. by rewrite IH.
Qed.

(** ** A concrete patch *)

Definition num (t : bytes) : cst := CLit t.
Definition memb (k : bytes) (v : cst) : item := ([], Some (mk_khead k [] []), v, []).
Definition elem (v : cst) : item := ([], None, v, []).

Definition demo_doc : cst := CBox true [] [memb B"a" (num B"1"); ([32], Some (mk_khead B"b" [] [32]), CBox false [] [elem (num B"1"); elem (num B"2")], [10])].
Definition demo_patch : cst :=
  CBox true [] [memb B"ptr" (num B"7"); memb B"patch" (CBox false [] [
    elem (CBox true [] [memb B"op" (CStr B"add"); memb B"path" (CStr B"/b/1"); memb B"value" (CStr B"x")]);
    elem (CBox true [] [memb B"op" (CStr B"remove"); memb B"path" (CStr B"/a")])])].

Lemma text_of_print c : wf_cstb c = true -> text_of (erase c) (print c).
Proof.
  intros Hc. exists [], c, []. split; [constructor|]. split; [by apply wf_cstb_ok|]. split; [constructor|].
  by rewrite app_nil_r.
Qed.

