(* ===== verification/PtrTable.v ===== *)
(** * Tables keyed by a number ([src/src/agentic/ak_heap.c], [ak_process.c])

    The object table and the version-history table of the typed heap, and the
    process registry, have the same shape: an array of buckets, each a linked
    list, indexed by a hash of a 64-bit pointer or process number.  The
    array is a list of lists.  The table refines a
    finite map from pointers to entries, and sums over its entries follow its
    operations; both hold for every hash function. *)

From S2P Require Import Prelude.

(** Sums over lists. *)
Definition sum_by {A} (f : A -> Z) (l : list A) : Z := foldr (fun e n => f e + n) 0 l.

Lemma sum_by_app {A} (f : A -> Z) a b : sum_by f (a ++ b) = sum_by f a + sum_by f b.
Proof. unfold sum_by. induction a as [|x a IH]; cbn; [lia|]. rewrite IH. lia. Qed.

Lemma sum_by_nonneg {A} (f : A -> Z) l : (forall e, 0 <= f e) -> 0 <= sum_by f l.
Proof. intros Hf. unfold sum_by. induction l as [|x l IH]; cbn; [lia|]. specialize (Hf x). lia. Qed.

Lemma sum_by_le {A} (f : A -> Z) l e : (forall e, 0 <= f e) -> e ∈ l -> f e <= sum_by f l.
Proof.
  intros Hf. induction l as [|x l IH]; [by intros ?%not_elem_of_nil|].
  pose proof (sum_by_nonneg f l Hf). unfold sum_by in *. cbn. intros [->|He]%elem_of_cons; [lia|].
  specialize (IH He). specialize (Hf x). lia.
Qed.

Lemma sum_by_ext {A} (f g : A -> Z) l : (forall e, e ∈ l -> f e = g e) -> sum_by f l = sum_by g l.
Proof.
  unfold sum_by. induction l as [|x l IH]; cbn; [done|]. intros Hfg.
  rewrite IH, (Hfg x); [done|left|]. intros e He. apply Hfg. by right.
Qed.

Lemma sum_by_mono {A} (f g : A -> Z) l : (forall e, e ∈ l -> f e <= g e) -> sum_by f l <= sum_by g l.
Proof.
  unfold sum_by. induction l as [|x l IH]; cbn; [lia|]. intros Hfg.
  pose proof (Hfg x ltac:(left)). enough (foldr (fun e n => f e + n) 0 l <= foldr (fun e n => g e + n) 0 l) by lia.
  apply IH. intros e He. apply Hfg. by right.
Qed.

Lemma sum_by_filter {A} (f : A -> Z) (keep : A -> bool) l :
  sum_by f (List.filter keep l) = sum_by (fun e => if keep e then f e else 0) l.
Proof. unfold sum_by. induction l as [|x l IH]; cbn; [done|]. destruct (keep x); cbn; rewrite IH; lia. Qed.

Lemma sum_by_one {A} (l : list A) : sum_by (fun _ => 1) l = Z.of_nat (length l).
Proof. unfold sum_by. induction l as [|x l IH]; cbn [foldr length]; [done|]. rewrite IH. lia. Qed.

Lemma sum_by_map {A C} (g : A -> C) (f : C -> Z) l : sum_by f (map g l) = sum_by (fun e => f (g e)) l.
Proof. unfold sum_by. induction l as [|x l IH]; cbn; [done|]. by rewrite IH. Qed.

Class HasPtr (E : Type) := ptr_of : E -> Z.
(** The hash by which entries of a type are distributed. *)
Class KeyHash (E : Type) := key_hash : Z -> Z.

Definition ptr_hash (ptr : Z) : Z :=
  let ptr := Z.lxor ptr (Z.shiftr ptr 33) in
  let ptr := u64 (ptr * 0xff51afd7ed558ccd) in
  let ptr := Z.lxor ptr (Z.shiftr ptr 33) in
  let ptr := u64 (ptr * 0xc4ceb9fe1a85ec53) in
  Z.lxor ptr (Z.shiftr ptr 33).

Section Table.
Context {E : Type} `{HasPtr E} `{KeyHash E}.

(** The bucket of a key: its hash modulo the capacity. *)
Definition bucket_of (t : list (list E)) (ptr : Z) : nat := Z.to_nat (key_hash (E := E) ptr mod Z.of_nat (length t)).

(** The walk along one list. *)
Fixpoint chain_lookup (c : list E) (ptr : Z) : option E :=
  match c with
  | [] => None
  | e :: c' => if ptr_of e =? ptr then Some e else chain_lookup c' ptr
  end.

Definition table_lookup (t : list (list E)) (ptr : Z) : option E :=
  match t !! bucket_of t ptr with Some c => chain_lookup c ptr | None => None end.

(** A new entry at the head of its bucket. *)
Definition table_push (t : list (list E)) (ptr : Z) (e : E) : list (list E) :=
  alter (cons e) (bucket_of t ptr) t.

(** In-place update of the entry found. *)
Fixpoint chain_alter (f : E -> E) (c : list E) (ptr : Z) : list E :=
  match c with
  | [] => []
  | e :: c' => if ptr_of e =? ptr then f e :: c' else e :: chain_alter f c' ptr
  end.
Definition table_alter (f : E -> E) (t : list (list E)) (ptr : Z) : list (list E) :=
  alter (fun c => chain_alter f c ptr) (bucket_of t ptr) t.

(** The sweep over all buckets. *)
Definition table_keep (keep : E -> bool) (t : list (list E)) : list (list E) :=
  map (List.filter keep) t.

Definition entries (t : list (list E)) : list E := concat t.

Record wf_ptable (t : list (list E)) : Prop := {
  pt_nonempty : (0 < length t)%nat;
  pt_home : forall i c e, t !! i = Some c -> e ∈ c -> bucket_of t (ptr_of e) = i;
  pt_nodup : forall i c, t !! i = Some c -> NoDup (ptr_of <$> c)
}.

Definition empty_table (capacity : nat) : list (list E) := replicate capacity [].

Lemma wf_empty_table capacity : (0 < capacity)%nat -> wf_ptable (empty_table capacity).
Proof.
  intros Hc. unfold empty_table. split.
  - by rewrite length_replicate.
  - intros i c e Hi. apply lookup_replicate in Hi as [-> _]. intros He. by apply not_elem_of_nil in He.
  - intros i c Hi. apply lookup_replicate in Hi as [-> _]. constructor.
Qed.

Lemma bucket_lt t ptr : (0 < length t)%nat -> (bucket_of t ptr < length t)%nat.
Proof.
  intros Ht. unfold bucket_of. pose proof (Z.mod_pos_bound (key_hash (E := E) ptr) (Z.of_nat (length t)) ltac:(lia)). lia.
Qed.

Lemma bucket_same t t' ptr : length t = length t' -> bucket_of t ptr = bucket_of t' ptr.
Proof. unfold bucket_of. by intros ->. Qed.

Lemma entries_elem t e : e ∈ entries t <-> exists i c, t !! i = Some c /\ e ∈ c.
Proof.
  unfold entries. induction t as [|c t IH]; cbn [concat].
  - split; [intros He; by apply not_elem_of_nil in He|]. by intros (i & c & Hi & _).
  - rewrite elem_of_app, IH. split.
    + intros [He|(i & c' & Hi & He)]; [by exists 0%nat, c|by exists (S i), c'].
    + intros ([|i] & c' & Hi & He); [left; by injection Hi as ->|right; eauto].
Qed.

Lemma chain_lookup_Some c ptr e : chain_lookup c ptr = Some e -> e ∈ c /\ ptr_of e = ptr.
Proof.
  induction c as [|x c IH]; cbn; [done|]. destruct (Z.eqb_spec (ptr_of x) ptr).
  - intros [= <-]. split; [left|done].
  - intros Hc. destruct (IH Hc). split; [by right|done].
Qed.

Lemma chain_lookup_elem c e : NoDup (ptr_of <$> c) -> e ∈ c -> chain_lookup c (ptr_of e) = Some e.
Proof.
  induction c as [|x c IH]; cbn; [intros _ He; by apply not_elem_of_nil in He|].
  intros [Hni Hnd]%NoDup_cons [->|He]%elem_of_cons; [by rewrite Z.eqb_refl|].
  destruct (Z.eqb_spec (ptr_of x) (ptr_of e)) as [Eq|]; [|by apply IH].
  exfalso. apply Hni. rewrite Eq. by apply list_elem_of_fmap_2.
Qed.

(** Lookup is membership. *)
Lemma table_lookup_spec t ptr e :
  wf_ptable t -> table_lookup t ptr = Some e <-> e ∈ entries t /\ ptr_of e = ptr.
Proof.
  intros [Hne Hhome Hnd]. unfold table_lookup. split.
  - destruct (t !! bucket_of t ptr) as [c|] eqn:Ec; [|done]. intros [He Hp]%chain_lookup_Some.
    split; [|done]. apply entries_elem. eauto.
  - intros [(i & c & Hi & He)%entries_elem <-]. rewrite (Hhome _ _ _ Hi He), Hi. apply chain_lookup_elem; eauto.
Qed.

Lemma table_lookup_None t ptr :
  wf_ptable t -> table_lookup t ptr = None <-> forall e, e ∈ entries t -> ptr_of e <> ptr.
Proof.
  intros Hwf. split.
  - intros Hn e He Hp. assert (table_lookup t ptr = Some e) by (by apply table_lookup_spec). congruence.
  - intros Hn. destruct (table_lookup t ptr) as [e|] eqn:El; [|done]. apply table_lookup_spec in El as [He Hp]; [|done].
    by destruct (Hn e).
Qed.

(** No pointer has two entries. *)
Lemma nodup_entries t : wf_ptable t -> NoDup (map ptr_of (entries t)).
Proof.
  intros [_ Hhome Hnd]. revert Hhome Hnd. generalize (bucket_of t). intros home. unfold entries.
  enough (Hgen : forall k, (forall i c e, t !! i = Some c -> e ∈ c -> home (ptr_of e) = (k + i)%nat) ->
    (forall i c, t !! i = Some c -> NoDup (ptr_of <$> c)) -> NoDup (map ptr_of (concat t))) by (intros Hh; by apply (Hgen 0%nat)).
  induction t as [|c t IH]; intros k Hhome Hnd; cbn [concat map]; [constructor|]. rewrite map_app. apply NoDup_app. split_and!.
  - by apply (Hnd 0%nat).
  - intros p (e & -> & He)%list_elem_of_fmap (e' & Ep & He')%list_elem_of_fmap.
    apply entries_elem in He' as (i & c' & Hi & He'). pose proof (Hhome 0%nat c e eq_refl He). pose proof (Hhome (S i) c' e' Hi He').
    rewrite Ep in *. lia.
  - apply (IH (S k)); [|intros i; apply (Hnd (S i))]. intros i c' e Hi He. rewrite (Hhome (S i) c' e Hi He). lia.
Qed.

(** ** Insertion *)

Lemma length_push t ptr e : length (table_push t ptr e) = length t.
Proof. apply length_alter. Qed.

Lemma entries_push t ptr e x : (0 < length t)%nat -> x ∈ entries (table_push t ptr e) <-> x = e \/ x ∈ entries t.
Proof.
  intros Ht. destruct (lookup_lt_is_Some_2 t (bucket_of t ptr) (bucket_lt _ _ Ht)) as [c Hc].
  rewrite !entries_elem. unfold table_push. split.
  - intros (i & c' & Hi & Hx). destruct (decide (i = bucket_of t ptr)) as [->|Hne].
    + rewrite list_lookup_alter_eq, Hc in Hi. injection Hi as <-. apply elem_of_cons in Hx as [->|Hx]; [by left|right; eauto].
    + rewrite list_lookup_alter_ne in Hi by done. right; eauto.
  - intros [->|(i & c' & Hi & Hx)].
    + exists (bucket_of t ptr), (e :: c). rewrite list_lookup_alter_eq, Hc. split; [done|left].
    + destruct (decide (i = bucket_of t ptr)) as [->|Hne].
      * exists (bucket_of t ptr), (e :: c). rewrite list_lookup_alter_eq, Hc. split; [done|]. right. congruence.
      * exists i, c'. by rewrite list_lookup_alter_ne.
Qed.

Lemma wf_push t e : wf_ptable t -> table_lookup t (ptr_of e) = None -> wf_ptable (table_push t (ptr_of e) e).
Proof.
  intros Hwf Hn. pose proof Hwf as [Hne Hhome Hnd]. split.
  - by rewrite length_push.
  - intros i c x Hi Hx. rewrite (bucket_same _ t) by apply length_push. unfold table_push in Hi.
    destruct (decide (i = bucket_of t (ptr_of e))) as [->|Hni].
    + rewrite list_lookup_alter_eq in Hi. destruct (t !! _) as [c0|] eqn:Ec; [|done]. injection Hi as <-.
      apply elem_of_cons in Hx as [->|Hx]; [done|eauto].
    + rewrite list_lookup_alter_ne in Hi by done. eauto.
  - intros i c Hi. unfold table_push in Hi. destruct (decide (i = bucket_of t (ptr_of e))) as [->|Hni].
    + rewrite list_lookup_alter_eq in Hi. destruct (t !! _) as [c0|] eqn:Ec; [|done]. injection Hi as <-.
      cbn. constructor; [|eauto]. intros (x & Ex & Hx)%list_elem_of_fmap.
      rewrite table_lookup_None in Hn by done. apply (Hn x); [|done]. apply entries_elem. eauto.
    + rewrite list_lookup_alter_ne in Hi by done. eauto.
Qed.

Lemma lookup_push t e ptr :
  wf_ptable t -> table_lookup t (ptr_of e) = None ->
  table_lookup (table_push t (ptr_of e) e) ptr = if ptr_of e =? ptr then Some e else table_lookup t ptr.
Proof.
  intros Hwf Hn. pose proof (wf_push t e Hwf Hn) as Hwf'. apply option_eq. intros x.
  rewrite table_lookup_spec, entries_push by (done || apply Hwf).
  destruct (Z.eqb_spec (ptr_of e) ptr) as [<-|Hne].
  - split; [|intros [= ->]; auto]. intros [[->|Hx] Hp]; [done|].
    rewrite table_lookup_None in Hn by done. by destruct (Hn x).
  - rewrite table_lookup_spec by done. split; [intros [[->|Hx] Hp]; done|]. intros [Hx Hp]. auto.
Qed.

(** ** Update *)

Section Alter.
Context (f : E -> E) (Hf : forall e, ptr_of (f e) = ptr_of e).

Lemma chain_alter_ptrs c ptr : ptr_of <$> chain_alter f c ptr = ptr_of <$> c.
Proof using Hf.
  induction c as [|e c IH]; cbn; [done|]. destruct (ptr_of e =? ptr); cbn; [by rewrite Hf|]. f_equal. exact IH.
Qed.

Lemma chain_alter_lookup c ptr ptr' :
  chain_lookup (chain_alter f c ptr) ptr' =
  if ptr =? ptr' then f <$> chain_lookup c ptr' else chain_lookup c ptr'.
Proof using Hf.
  induction c as [|e c IH]; cbn; [by destruct (ptr =? ptr')|].
  destruct (Z.eqb_spec (ptr_of e) ptr) as [Ep|Hp]; cbn.
  - rewrite Hf, Ep. by destruct (ptr =? ptr').
  - rewrite IH. destruct (Z.eqb_spec ptr ptr') as [E0|]; [|done]. rewrite <-E0.
    by destruct (Z.eqb_spec (ptr_of e) ptr).
Qed.

Lemma length_table_alter t ptr : length (table_alter f t ptr) = length t.
Proof using. apply length_alter. Qed.

Lemma wf_alter t ptr : wf_ptable t -> wf_ptable (table_alter f t ptr).
Proof using Hf.
  intros [Hne Hhome Hnd]. split.
  - by rewrite length_table_alter.
  - intros i c x Hi Hx. rewrite (bucket_same _ t) by apply length_table_alter. unfold table_alter in Hi.
    destruct (decide (i = bucket_of t ptr)) as [->|Hni]; [|rewrite list_lookup_alter_ne in Hi by done; eauto].
    rewrite list_lookup_alter_eq in Hi. destruct (t !! bucket_of t ptr) as [c0|] eqn:Ec; [|done]. injection Hi as <-.
    assert (Hp : ptr_of x ∈ ptr_of <$> c0) by (rewrite <-(chain_alter_ptrs c0 ptr); by apply list_elem_of_fmap_2).
    apply list_elem_of_fmap in Hp as (y & -> & Hy). eauto.
  - intros i c Hi. unfold table_alter in Hi.
    destruct (decide (i = bucket_of t ptr)) as [->|Hni]; [|rewrite list_lookup_alter_ne in Hi by done; eauto].
    rewrite list_lookup_alter_eq in Hi. destruct (t !! bucket_of t ptr) as [c0|] eqn:Ec; [|done]. injection Hi as <-.
    rewrite chain_alter_ptrs. eauto.
Qed.

Lemma lookup_alter_table t ptr ptr' :
  wf_ptable t ->
  table_lookup (table_alter f t ptr) ptr' =
  if ptr =? ptr' then f <$> table_lookup t ptr' else table_lookup t ptr'.
Proof using Hf.
  intros [Hne _ _]. unfold table_lookup. rewrite (bucket_same _ t) by apply length_table_alter. unfold table_alter.
  destruct (decide (bucket_of t ptr' = bucket_of t ptr)) as [Eb|Hb].
  - rewrite Eb, list_lookup_alter_eq. destruct (t !! bucket_of t ptr); [apply chain_alter_lookup|by destruct (_ =? _)].
  - rewrite list_lookup_alter_ne by congruence. destruct (Z.eqb_spec ptr ptr') as [->|]; done.
Qed.
End Alter.

(** ** Sweep *)

Lemma length_keep keep t : length (table_keep keep t) = length t.
Proof. apply length_map. Qed.

Lemma filter_elem keep (c : list E) x : x ∈ List.filter keep c <-> x ∈ c /\ keep x = true.
Proof. rewrite !list_elem_of_In. apply filter_In. Qed.

Lemma entries_keep keep t : entries (table_keep keep t) = List.filter keep (entries t).
Proof.
  unfold entries, table_keep. induction t as [|c t IH]; cbn; [done|]. by rewrite IH, List.filter_app.
Qed.

Lemma wf_keep keep t : wf_ptable t -> wf_ptable (table_keep keep t).
Proof.
  intros [Hne Hhome Hnd]. assert (Hl : forall i c, table_keep keep t !! i = Some c ->
    exists c0, t !! i = Some c0 /\ c = List.filter keep c0).
  { intros i c Hi. unfold table_keep in Hi. rewrite list_lookup_fmap in Hi.
    destruct (t !! i) as [c0|]; [|done]. injection Hi as <-. eauto. }
  split.
  - by rewrite length_keep.
  - intros i c x Hi Hx. destruct (Hl _ _ Hi) as (c0 & Hi0 & ->). apply filter_elem in Hx as [Hx _].
    rewrite (bucket_same _ t) by apply length_keep. eauto.
  - intros i c Hi. destruct (Hl _ _ Hi) as (c0 & Hi0 & ->). specialize (Hnd _ _ Hi0). clear Hi Hi0.
    induction c0 as [|x c0 IH]; cbn; [constructor|]. cbn in Hnd. apply NoDup_cons in Hnd as [Hni Hnd].
    destruct (keep x); [|by apply IH]. cbn. constructor; [|by apply IH].
    intros (y & Ey & Hy)%list_elem_of_fmap. apply Hni. rewrite Ey. apply list_elem_of_fmap_2. by apply filter_elem in Hy as [Hy _].
Qed.

Lemma lookup_keep keep t ptr :
  wf_ptable t ->
  table_lookup (table_keep keep t) ptr =
  match table_lookup t ptr with Some e => if keep e then Some e else None | None => None end.
Proof.
  intros Hwf. apply option_eq. intros x. rewrite table_lookup_spec, entries_keep, filter_elem by (by apply wf_keep).
  destruct (table_lookup t ptr) as [e|] eqn:El.
  - apply table_lookup_spec in El as El'; [|done]. destruct El' as [He Hp]. split.
    + intros [[Hx Hk] Hpx]. assert (table_lookup t ptr = Some x) by (by apply table_lookup_spec).
      assert (x = e) by congruence. subst x. by rewrite Hk.
    + destruct (keep e) eqn:Ek; [|done]. intros [= <-]. auto.
  - split; [|done]. intros [[Hx _] Hp]. rewrite table_lookup_None in El by done. by destruct (El x).
Qed.

(** ** Update of every entry *)

Definition table_map (g : E -> E) (t : list (list E)) : list (list E) := map (map g) t.

Section Map.
Context (g : E -> E) (Hg : forall e, ptr_of (g e) = ptr_of e).

Lemma length_table_map t : length (table_map g t) = length t.
Proof using. apply length_map. Qed.

Lemma entries_map t : entries (table_map g t) = map g (entries t).
Proof using. unfold entries, table_map. by rewrite concat_map. Qed.

Lemma wf_map t : wf_ptable t -> wf_ptable (table_map g t).
Proof using Hg.
  intros [Hne Hhome Hnd]. assert (Hl : forall i c, table_map g t !! i = Some c -> exists c0, t !! i = Some c0 /\ c = map g c0).
  { intros i c Hi. unfold table_map in Hi. rewrite list_lookup_fmap in Hi.
    destruct (t !! i) as [c0|]; [|done]. injection Hi as <-. eauto. }
  split.
  - by rewrite length_table_map.
  - intros i c x Hi Hx. destruct (Hl _ _ Hi) as (c0 & Hi0 & ->). apply list_elem_of_fmap in Hx as (y & -> & Hy).
    rewrite (bucket_same _ t) by apply length_table_map. rewrite Hg. eauto.
  - intros i c Hi. destruct (Hl _ _ Hi) as (c0 & Hi0 & ->). specialize (Hnd _ _ Hi0).
    change (map g c0) with (g <$> c0). rewrite <-list_fmap_compose. erewrite list_fmap_ext; [exact Hnd|].
    intros j y _. cbn. apply Hg.
Qed.

Lemma chain_map_lookup c ptr : chain_lookup (map g c) ptr = g <$> chain_lookup c ptr.
Proof using Hg. induction c as [|e c IH]; cbn; [done|]. rewrite Hg. by destruct (ptr_of e =? ptr). Qed.

Lemma lookup_map_table t ptr : table_lookup (table_map g t) ptr = g <$> table_lookup t ptr.
Proof using Hg.
  unfold table_lookup. rewrite (bucket_same _ t) by apply length_table_map. unfold table_map.
  rewrite list_lookup_fmap. destruct (t !! bucket_of t ptr) as [c|]; [|done]. cbn. apply chain_map_lookup.
Qed.
End Map.

(** ** Sums over the entries *)

Definition total (f : E -> Z) (t : list (list E)) : Z := sum_by f (entries t).

Lemma total_buckets f t : total f t = sum_by (sum_by f) t.
Proof.
  unfold total, entries. induction t as [|c t IH]; cbn [concat]; [done|]. rewrite sum_by_app, IH. done.
Qed.

(** A change of one bucket changes the sum by the change of that bucket. *)
Lemma total_alter_bucket f g t i c :
  t !! i = Some c -> total f (alter g i t) = total f t - sum_by f c + sum_by f (g c).
Proof.
  rewrite !total_buckets. assert (Hc : forall c t, sum_by (sum_by f) (c :: t) = sum_by f c + sum_by (sum_by f) t) by done.
  revert i. induction t as [|c0 t IH]; intros [|i] Hi; cbn in Hi; try done.
  - injection Hi as ->. change (alter g 0%nat (c :: t)) with (g c :: t). rewrite !Hc. lia.
  - change (alter g (S i) (c0 :: t)) with (c0 :: alter g i t). rewrite !Hc, (IH i Hi). lia.
Qed.

Lemma total_push f t ptr e : (0 < length t)%nat -> total f (table_push t ptr e) = f e + total f t.
Proof.
  intros Ht. destruct (lookup_lt_is_Some_2 t (bucket_of t ptr) (bucket_lt _ _ Ht)) as [c Hc].
  unfold table_push. rewrite (total_alter_bucket f _ t _ c Hc). unfold sum_by. cbn. lia.
Qed.

Lemma total_alter f g t ptr e :
  table_lookup t ptr = Some e -> total f (table_alter g t ptr) = total f t - f e + f (g e).
Proof.
  unfold table_lookup. destruct (t !! bucket_of t ptr) as [c|] eqn:Ec; [|done]. intros Hl. unfold table_alter.
  rewrite (total_alter_bucket f _ t _ c Ec).
  enough (sum_by f (chain_alter g c ptr) = sum_by f c - f e + f (g e)) by lia. clear Ec. unfold sum_by.
  induction c as [|x c IH]; cbn in *; [done|]. destruct (ptr_of x =? ptr); cbn; [injection Hl as ->; lia|].
  rewrite IH by done. lia.
Qed.

Lemma total_keep f keep t : total f (table_keep keep t) = total (fun e => if keep e then f e else 0) t.
Proof. unfold total. by rewrite entries_keep, sum_by_filter. Qed.

Lemma total_map f g t : total f (table_map g t) = total (fun e => f (g e)) t.
Proof. unfold total. by rewrite entries_map, sum_by_map. Qed.

Lemma total_empty f capacity : total f (empty_table capacity) = 0.
Proof. unfold total, entries, empty_table. induction capacity; cbn; [done|]. done. Qed.

(** Membership after an update, for invariants on the entries. *)
Lemma entries_alter g t ptr x :
  x ∈ entries (table_alter g t ptr) -> x ∈ entries t \/ exists e, table_lookup t ptr = Some e /\ x = g e.
Proof.
  intros (i & c & Hi & Hx)%entries_elem. unfold table_alter in Hi.
  destruct (decide (i = bucket_of t ptr)) as [->|Hni];
    [|rewrite list_lookup_alter_ne in Hi by done; left; apply entries_elem; eauto].
  rewrite list_lookup_alter_eq in Hi. destruct (t !! bucket_of t ptr) as [c0|] eqn:Ec; [|done]. injection Hi as <-.
  unfold table_lookup. rewrite Ec.
  enough (x ∈ c0 \/ exists e, chain_lookup c0 ptr = Some e /\ x = g e) as [?|?];
    [left; apply entries_elem; eauto|by right|].
  clear Ec. induction c0 as [|y c0 IH]; cbn in *; [by apply not_elem_of_nil in Hx|].
  destruct (ptr_of y =? ptr); apply elem_of_cons in Hx as [->|Hx].
  - right. eauto.
  - left. by right.
  - left. left.
  - destruct (IH Hx) as [?|?]; [left; by right|by right].
Qed.
End Table.
