(* ===== verification/Heap.v ===== *)
(** * The typed heap ([src/src/agentic/ak_heap.c])

    Versioned objects addressed by a 64-bit pointer: allocation, compare-and-
    swap writes and deletions, taint, version history, schemas and garbage
    collection.  An object value changes only through [ak_json_patch_apply].

    The globals of [ak_heap_state] are a record; every operation runs under
    the heap lock and is a function on that record.  The outcomes of the memory
    allocator and the readings of the clock inside one call are the fields of a
    record [sys], an argument of the call.  A list of version entries whose
    last link is a freed entry is kept apart ([vh_end_freed]); a walk into it is
    the outcome [Oob]. *)

From S2P Require Import Prelude Crypto Policy JsonText JsonPatch PtrTable.
Open Scope ak_scope.

Definition ENOENT : Z := 2.
Definition AK_E_SCHEMA_INVALID : Z := -4002.
Definition AK_E_CONFLICT : Z := -4400.
Definition AK_HEAP_INITIAL_CAPACITY : nat := 1024.

(** ** Data *)

Record ak_heap_object := mk_object {
  obj_ptr : Z;
  obj_type_hash : Z;
  obj_version : Z;
  obj_created_ms : Z;
  obj_modified_ms : Z;
  obj_taint : Z;
  obj_deleted : bool;
  obj_owner_run_id : bytes;
  obj_value : bytes
}.

Record ak_version_entry := mk_version {
  ve_version : Z;
  ve_timestamp_ms : Z;
  ve_value : bytes
}.

(** [vh_end_freed]: the link behind the last entry is a freed entry, not NULL. *)
Record ak_version_history := mk_history {
  vh_ptr : Z;
  vh_entries : list ak_version_entry;
  vh_count : Z;
  vh_end_freed : bool
}.

#[export] Instance object_ptr : HasPtr ak_heap_object := obj_ptr.
#[export] Instance history_ptr : HasPtr ak_version_history := vh_ptr.
#[export] Instance object_hash : KeyHash ak_heap_object := ptr_hash.
#[export] Instance history_hash : KeyHash ak_version_history := ptr_hash.

Record ak_schema_entry := mk_schema { sc_type_hash : Z; sc_schema_json : option bytes }.

Record ak_heap_state := mk_heap {
  hs_objects : list (list ak_heap_object);
  hs_object_count : Z;
  hs_deleted_count : Z;
  hs_next_ptr : Z;
  hs_history : list (list ak_version_history);
  hs_version_count : Z;
  hs_schemas : list ak_schema_entry;
  hs_bytes_used : Z;
  hs_bytes_versions : Z;
  hs_initialized : bool
}.

(** What the environment answers within one call: whether each allocation
    passes its test, and the clock at the two places it is read. *)
Record sys := mk_sys {
  al_obj : bool;
  al_value : bool;
  al_hist : bool;
  al_entry : bool;
  al_copy : bool;
  al_doc : bool;
  al_patch : nat -> bool;
  now_version : Z;
  now_object : Z
}.

(** ** Field updates *)

Definition set_objects (t : list (list ak_heap_object)) (s : ak_heap_state) : ak_heap_state :=
  mk_heap t (hs_object_count s) (hs_deleted_count s) (hs_next_ptr s) (hs_history s) (hs_version_count s)
    (hs_schemas s) (hs_bytes_used s) (hs_bytes_versions s) (hs_initialized s).
Definition set_counts (oc dc np : Z) (s : ak_heap_state) : ak_heap_state :=
  mk_heap (hs_objects s) oc dc np (hs_history s) (hs_version_count s)
    (hs_schemas s) (hs_bytes_used s) (hs_bytes_versions s) (hs_initialized s).
Definition set_history (t : list (list ak_version_history)) (vc bv : Z) (s : ak_heap_state) : ak_heap_state :=
  mk_heap (hs_objects s) (hs_object_count s) (hs_deleted_count s) (hs_next_ptr s) t vc
    (hs_schemas s) (hs_bytes_used s) bv (hs_initialized s).
Definition set_schemas (l : list ak_schema_entry) (s : ak_heap_state) : ak_heap_state :=
  mk_heap (hs_objects s) (hs_object_count s) (hs_deleted_count s) (hs_next_ptr s) (hs_history s) (hs_version_count s)
    l (hs_bytes_used s) (hs_bytes_versions s) (hs_initialized s).
Definition set_bytes_used (n : Z) (s : ak_heap_state) : ak_heap_state :=
  mk_heap (hs_objects s) (hs_object_count s) (hs_deleted_count s) (hs_next_ptr s) (hs_history s) (hs_version_count s)
    (hs_schemas s) n (hs_bytes_versions s) (hs_initialized s).

Definition put_value (v : bytes) (now : Z) (o : ak_heap_object) : ak_heap_object :=
  mk_object (obj_ptr o) (obj_type_hash o) (u64 (obj_version o + 1)) (obj_created_ms o) now (obj_taint o)
    (obj_deleted o) (obj_owner_run_id o) v.
Definition put_deleted (now : Z) (o : ak_heap_object) : ak_heap_object :=
  mk_object (obj_ptr o) (obj_type_hash o) (u64 (obj_version o + 1)) (obj_created_ms o) now (obj_taint o)
    true (obj_owner_run_id o) (obj_value o).
Definition put_taint (t now : Z) (o : ak_heap_object) : ak_heap_object :=
  mk_object (obj_ptr o) (obj_type_hash o) (obj_version o) (obj_created_ms o) now t
    (obj_deleted o) (obj_owner_run_id o) (obj_value o).
Definition put_entry (e : ak_version_entry) (hist : ak_version_history) : ak_version_history :=
  mk_history (vh_ptr hist) (e :: vh_entries hist) (u64 (vh_count hist + 1)) (vh_end_freed hist).

Definition zlen (v : bytes) : Z := Z.of_nat (length v).

(** ** Lookups *)

Definition find_object (s : ak_heap_state) (ptr : Z) : option ak_heap_object :=
  if negb (hs_initialized s) then None else table_lookup (hs_objects s) ptr.

Definition find_history (s : ak_heap_state) (ptr : Z) : option ak_version_history := table_lookup (hs_history s) ptr.

Fixpoint schema_walk (l : list ak_schema_entry) (type_hash : Z) : option ak_schema_entry :=
  match l with
  | [] => None
  | e :: l' => if sc_type_hash e =? type_hash then Some e else schema_walk l' type_hash
  end.
Definition find_schema (s : ak_heap_state) (type_hash : Z) : option ak_schema_entry := schema_walk (hs_schemas s) type_hash.

Definition ak_heap_validate_schema (s : ak_heap_state) (type_hash : Z) (value : option bytes) : bool :=
  match find_schema s type_hash with
  | None => true
  | Some _ =>
      match value with
      | None | Some [] => false
      | Some (c :: _) => negb (negb (c =? 123) && negb (c =? 91))
      end
  end.

(** ** Version history *)

Definition save_version (m : sys) (ptr version : Z) (value : bytes) (s : ak_heap_state) : ak_heap_state :=
  match (match find_history s ptr with
         | Some _ => Some (hs_history s)
         | None => if al_hist m then Some (table_push (hs_history s) ptr (mk_history ptr [] 0 false)) else None
         end) with
  | None => s
  | Some t =>
      if negb (al_entry m) || negb (al_copy m) then set_history t (hs_version_count s) (hs_bytes_versions s) s
      else set_history (table_alter (put_entry (mk_version version (now_version m) value)) t ptr)
             (u64 (hs_version_count s + 1)) (u64 (hs_bytes_versions s + zlen value)) s
  end.

(** ** Core operations *)

Definition ak_heap_init (s : ak_heap_state) : ak_heap_state :=
  if hs_initialized s then s
  else mk_heap (empty_table AK_HEAP_INITIAL_CAPACITY) 0 0 1 (empty_table AK_HEAP_INITIAL_CAPACITY) 0 [] 0 0 true.

Definition ak_heap_alloc (m : sys) (type_hash : Z) (value : bytes) (run_id : option bytes) (taint : Z) (s : ak_heap_state) : Z * ak_heap_state :=
  if negb (hs_initialized s) then (0, s)
  else if negb (ak_heap_validate_schema s type_hash (Some value)) then (0, s)
  else if negb (al_obj m) then (0, s)
  else if negb (al_value m) then (0, s)
  else
    let ptr := hs_next_ptr s in
    let owner := match run_id with Some r => take AK_TOKEN_ID_SIZE r | None => zeros AK_TOKEN_ID_SIZE end in
    let obj := mk_object ptr type_hash 1 (now_object m) (now_object m) taint false owner value in
    let s := set_counts (u64 (hs_object_count s + 1)) (hs_deleted_count s) (u64 (ptr + 1)) s in
    let s := set_objects (table_push (hs_objects s) ptr obj) s in
    let s := set_bytes_used (u64 (hs_bytes_used s + zlen value)) s in
    (ptr, save_version m ptr 1 value s).

(** The value is copied when the caller asks for it. *)
Definition ak_heap_read (m : sys) (ptr : Z) (want_value : bool) (s : ak_heap_state) : Z * option (option bytes * Z * Z) :=
  if negb (hs_initialized s) then (- EINVAL, None)
  else
    match find_object s ptr with
    | None => (- ENOENT, None)
    | Some obj =>
        if obj_deleted obj then (- ENOENT, None)
        else if want_value && negb (al_copy m) then (- ENOMEM, None)
        else (0, Some (if want_value then Some (obj_value obj) else None, obj_version obj, obj_taint obj))
    end.

(** The result is the return code and the version stored for the caller. *)
Definition ak_heap_write (m : sys) (ptr : Z) (patch : option bytes) (expected_version : Z) (s : ak_heap_state) : Z * option Z * ak_heap_state :=
  if negb (hs_initialized s) then (- EINVAL, None, s)
  else
    match find_object s ptr with
    | None => (- ENOENT, None, s)
    | Some obj =>
        if obj_deleted obj then (- ENOENT, None, s)
        else if negb (obj_version obj =? expected_version) then (AK_E_CONFLICT, None, s)
        else
          match (match patch with Some p => ak_json_patch_apply (al_doc m) (al_patch m) (obj_value obj) p | None => None end) with
          | None => (AK_E_SCHEMA_INVALID, None, s)
          | Some new_value =>
              if negb (ak_heap_validate_schema s (obj_type_hash obj) (Some new_value)) then (AK_E_SCHEMA_INVALID, None, s)
              else
                let s := save_version m ptr (obj_version obj) (obj_value obj) s in
                let old_len := zlen (obj_value obj) in
                let new_len := zlen new_value in
                let s := set_objects (table_alter (put_value new_value (now_object m)) (hs_objects s) ptr) s in
                let s := set_bytes_used
                  (if old_len <=? hs_bytes_used s then u64 (hs_bytes_used s - old_len + new_len) else new_len) s in
                (0, Some (u64 (obj_version obj + 1)), s)
          end
    end.

Definition ak_heap_delete (m : sys) (ptr expected_version : Z) (s : ak_heap_state) : Z * ak_heap_state :=
  if negb (hs_initialized s) then (- EINVAL, s)
  else
    match find_object s ptr with
    | None => (- ENOENT, s)
    | Some obj =>
        if obj_deleted obj then (- ENOENT, s)
        else if negb (obj_version obj =? expected_version) then (AK_E_CONFLICT, s)
        else
          let s := save_version m ptr (obj_version obj) (obj_value obj) s in
          let s := set_objects (table_alter (put_deleted (now_object m)) (hs_objects s) ptr) s in
          (0, set_counts (hs_object_count s) (u64 (hs_deleted_count s + 1)) (hs_next_ptr s) s)
    end.

(** ** Queries *)

Definition live (o : ak_heap_object) : bool := negb (obj_deleted o).

Definition ak_heap_exists (s : ak_heap_state) (ptr : Z) : bool :=
  match find_object s ptr with Some obj => live obj | None => false end.

Definition ak_heap_get_meta (s : ak_heap_state) (ptr : Z) : Z * option (Z * Z * Z * Z * Z * Z * bool) :=
  match find_object s ptr with
  | None => (- ENOENT, None)
  | Some obj => (0, Some (obj_ptr obj, obj_type_hash obj, obj_version obj, obj_created_ms obj, obj_modified_ms obj,
                          obj_taint obj, obj_deleted obj))
  end.

(** First pass: the number of matching objects. *)
Definition count_matching (p : ak_heap_object -> bool) (t : list (list ak_heap_object)) : Z :=
  foldl (fun n c => foldl (fun n o => if p o then u64 (n + 1) else n) n c) 0 t.

(** Second pass: at most [count] pointers. *)
Fixpoint collect_chain (p : ak_heap_object -> bool) (count : Z) (c : list ak_heap_object) (acc : list Z) : list Z :=
  match c with
  | [] => acc
  | o :: c' =>
      if zlen acc <? count then collect_chain p count c' (if p o then acc ++ [obj_ptr o] else acc)
      else acc
  end.
Fixpoint collect (p : ak_heap_object -> bool) (count : Z) (t : list (list ak_heap_object)) (acc : list Z) : list Z :=
  match t with
  | [] => acc
  | c :: t' => if zlen acc <? count then collect p count t' (collect_chain p count c acc) else acc
  end.

(** The array returned, with [None] for NULL, and the count stored. *)
Definition list_matching (al : bool) (p : ak_heap_object -> bool) (s : ak_heap_state) : option (list Z) * Z :=
  let count := count_matching p (hs_objects s) in
  if count =? 0 then (None, 0)
  else if UINT64_LAST / 8 <? count then (None, 0)
  else if negb al then (None, 0)
  else let result := collect p count (hs_objects s) [] in (Some result, zlen result).

(** Without an initialised heap nothing is stored. *)
Definition ak_heap_list_by_type (al : bool) (type_hash : Z) (s : ak_heap_state) : option (list Z) * option Z :=
  if negb (hs_initialized s) then (None, None)
  else let '(r, n) := list_matching al (fun o => (obj_type_hash o =? type_hash) && live o) s in (r, Some n).

Definition ak_heap_list_by_run (al : bool) (run_id : option bytes) (s : ak_heap_state) : option (list Z) * option Z :=
  match run_id with
  | None => (None, None)
  | Some r =>
      if negb (hs_initialized s) then (None, None)
      else let '(a, n) := list_matching al (fun o => live o && bytes_eqb (obj_owner_run_id o) (take AK_TOKEN_ID_SIZE r)) s in
           (a, Some n)
  end.

(** ** Reading the version history *)

Fixpoint version_walk (l : list ak_version_entry) (end_freed : bool) (version : Z) : outcome ak_version_entry :=
  match l with
  | [] => if end_freed then Oob else Null
  | e :: l' => if ve_version e =? version then Ret e else version_walk l' end_freed version
  end.

Definition ak_heap_read_version (m : sys) (ptr version : Z) (s : ak_heap_state) : outcome (Z * option bytes) :=
  match find_history s ptr with
  | None => Ret (- ENOENT, None)
  | Some hist =>
      match version_walk (vh_entries hist) (vh_end_freed hist) version with
      | Oob => Oob
      | Null => Ret (- ENOENT, None)
      | Ret e => if negb (al_copy m) then Ret (- ENOMEM, None) else Ret (0, Some (ve_value e))
      end
  end.

(** The loop of [ak_heap_list_versions]: entries while fewer than [count]. *)
Fixpoint versions_loop (l : list ak_version_entry) (end_freed : bool) (idx count : Z) : outcome (list Z) :=
  if idx <? count then
    match l with
    | [] => if end_freed then Oob else Ret []
    | e :: l' => let* r := versions_loop l' end_freed (idx + 1) count in Ret (ve_version e :: r)
    end
  else Ret [].

Definition ak_heap_list_versions (al : bool) (ptr : Z) (s : ak_heap_state) : outcome (option (list Z) * Z) :=
  match find_history s ptr with
  | None => Ret (None, 0)
  | Some hist =>
      if vh_count hist =? 0 then Ret (None, 0)
      else if UINT64_LAST / 8 <? vh_count hist then Ret (None, 0)
      else if negb al then Ret (None, 0)
      else let* r := versions_loop (vh_entries hist) (vh_end_freed hist) 0 (vh_count hist) in
           Ret (Some r, vh_count hist)
  end.

(** ** Taint *)

Definition heap_set_taint_internal (m : sys) (ptr new_taint expected_version : Z) (sanitizer : bool) (s : ak_heap_state) : Z * ak_heap_state :=
  match find_object s ptr with
  | None => (- ENOENT, s)
  | Some obj =>
      if obj_deleted obj then (- ENOENT, s)
      else if negb (obj_version obj =? expected_version) then (AK_E_CONFLICT, s)
      else if negb sanitizer && (new_taint <? obj_taint obj) then (AK_E_TAINT, s)
      else (0, set_objects (table_alter (put_taint new_taint (now_object m)) (hs_objects s) ptr) s)
  end.

Definition ak_heap_set_taint (m : sys) (ptr new_taint expected_version : Z) (s : ak_heap_state) : Z * ak_heap_state :=
  heap_set_taint_internal m ptr new_taint expected_version false s.

Definition ak_heap_set_taint_sanitized (m : sys) (ptr new_taint expected_version : Z) (s : ak_heap_state) : Z * ak_heap_state :=
  heap_set_taint_internal m ptr new_taint expected_version true s.

Definition ak_heap_get_taint (s : ak_heap_state) (ptr : Z) : Z :=
  match find_object s ptr with
  | Some obj => if live obj then obj_taint obj else AK_TAINT_UNTRUSTED
  | None => AK_TAINT_UNTRUSTED
  end.

(** ** Schemas *)

Fixpoint schema_replace (l : list ak_schema_entry) (type_hash : Z) (json : bytes) : list ak_schema_entry :=
  match l with
  | [] => []
  | e :: l' => if sc_type_hash e =? type_hash then mk_schema (sc_type_hash e) (Some json) :: l'
               else e :: schema_replace l' type_hash json
  end.

Definition ak_heap_register_schema (m : sys) (type_hash : Z) (schema_json : bytes) (s : ak_heap_state) : ak_heap_state :=
  if negb (hs_initialized s) then s
  else
    match find_schema s type_hash with
    | Some _ =>
        if negb (al_copy m) then s else set_schemas (schema_replace (hs_schemas s) type_hash schema_json) s
    | None =>
        if negb (al_entry m) then s
        else set_schemas (mk_schema type_hash (if al_copy m then Some schema_json else None) :: hs_schemas s) s
    end.

(** ** Garbage collection *)

(** The accumulators of a purge: bytes left, version count, number purged. *)
Definition sub_clamped (total len : Z) : Z := if len <=? total then total - len else 0.

(** The loop that frees the entries behind the cut. *)
Fixpoint free_entries (l : list ak_version_entry) (acc : Z * Z * Z * Z) : Z * Z * Z * Z :=
  match l with
  | [] => acc
  | e :: l' =>
      let '(bytes_versions, version_count, count, purged) := acc in
      free_entries l' (sub_clamped bytes_versions (zlen (ve_value e)), u64 (version_count - 1), u64 (count - 1), u64 (purged + 1))
  end.

(** With nothing kept no link is cut, and [entries] stays on a freed entry. *)
Definition purge_history (keep_count : Z) (hist : ak_version_history) (acc : Z * Z * Z) : outcome (ak_version_history * (Z * Z * Z)) :=
  let '(bytes_versions, version_count, purged) := acc in
  if negb (keep_count <? vh_count hist) then Ret (hist, acc)
  else if vh_end_freed hist then Oob
  else
    let kept := take (Z.to_nat keep_count) (vh_entries hist) in
    let gone := drop (Z.to_nat keep_count) (vh_entries hist) in
    let '(bytes_versions, version_count, count, purged) := free_entries gone (bytes_versions, version_count, vh_count hist, purged) in
    let dangling := match kept, gone with [], _ :: _ => true | _, _ => false end in
    Ret (mk_history (vh_ptr hist) kept count dangling, (bytes_versions, version_count, purged)).

Fixpoint purge_histories (keep_count : Z) (c : list ak_version_history) (acc : Z * Z * Z) : outcome (list ak_version_history * (Z * Z * Z)) :=
  match c with
  | [] => Ret ([], acc)
  | hist :: c' =>
      match purge_history keep_count hist acc with
      | Ret (hist, acc) =>
          match purge_histories keep_count c' acc with Ret (c', acc) => Ret (hist :: c', acc) | _ => Oob end
      | _ => Oob
      end
  end.

Fixpoint purge_buckets (keep_count : Z) (t : list (list ak_version_history)) (acc : Z * Z * Z) : outcome (list (list ak_version_history) * (Z * Z * Z)) :=
  match t with
  | [] => Ret ([], acc)
  | c :: t' =>
      match purge_histories keep_count c acc with
      | Ret (c, acc) =>
          match purge_buckets keep_count t' acc with Ret (t', acc) => Ret (c :: t', acc) | _ => Oob end
      | _ => Oob
      end
  end.

Definition ak_heap_purge_versions (keep_count : Z) (s : ak_heap_state) : outcome (Z * ak_heap_state) :=
  if negb (hs_initialized s) then Ret (0, s)
  else
    match purge_buckets keep_count (hs_history s) (hs_bytes_versions s, hs_version_count s, 0) with
    | Ret (t, (bytes_versions, version_count, purged)) => Ret (purged, set_history t version_count bytes_versions s)
    | _ => Oob
    end.

Definition expired (now older_than_ms : Z) (o : ak_heap_object) : bool :=
  obj_deleted o && (older_than_ms <? u64 (now - obj_modified_ms o)).

(** Accumulators: bytes used, deleted count, object count, number purged. *)
Fixpoint sweep_chain (p : ak_heap_object -> bool) (c : list ak_heap_object) (acc : Z * Z * Z * Z) : list ak_heap_object * (Z * Z * Z * Z) :=
  match c with
  | [] => ([], acc)
  | o :: c' =>
      if p o then
        let '(bytes_used, deleted_count, object_count, purged) := acc in
        sweep_chain p c' (sub_clamped bytes_used (zlen (obj_value o)), u64 (deleted_count - 1), u64 (object_count - 1), u64 (purged + 1))
      else let '(c', acc) := sweep_chain p c' acc in (o :: c', acc)
  end.
Fixpoint sweep (p : ak_heap_object -> bool) (t : list (list ak_heap_object)) (acc : Z * Z * Z * Z) : list (list ak_heap_object) * (Z * Z * Z * Z) :=
  match t with
  | [] => ([], acc)
  | c :: t' =>
      let '(c, acc) := sweep_chain p c acc in
      let '(t', acc) := sweep p t' acc in
      (c :: t', acc)
  end.

Definition ak_heap_purge_tombstones (m : sys) (older_than_ms : Z) (s : ak_heap_state) : Z * ak_heap_state :=
  if negb (hs_initialized s) then (0, s)
  else
    let '(t, (bytes_used, deleted_count, object_count, purged)) :=
      sweep (expired (now_object m) older_than_ms) (hs_objects s)
        (hs_bytes_used s, hs_deleted_count s, hs_object_count s, 0) in
    (purged, set_bytes_used bytes_used (set_counts object_count deleted_count (hs_next_ptr s) (set_objects t s))).

Definition ak_heap_get_stats (s : ak_heap_state) : Z * Z * Z * Z * Z :=
  (hs_object_count s, hs_deleted_count s, hs_version_count s, hs_bytes_used s, hs_bytes_versions s).
