(* ===== verification/HeapRun.v ===== *)
(** * Runs of the typed heap ([src/src/agentic/ak_heap.c])

    Every sequence of heap operations from initialisation, with any outcome of
    the allocator and any clock: the accounting of the heap is exact, updates
    are never lost, the version history is faithful and taint falls only
    through the sanitizer entry point. *)

From S2P Require Import Prelude Crypto Policy JsonText JsonPatch PtrTable Heap.

(** ** Steps and runs *)

Inductive heap_op :=
| OAlloc (type_hash : Z) (value : bytes) (run_id : option bytes) (taint : Z)
| OWrite (ptr : Z) (patch : option bytes) (expected_version : Z)
| ODelete (ptr expected_version : Z)
| OSetTaint (ptr new_taint expected_version : Z)
| OSanitize (ptr new_taint expected_version : Z)
| ORegister (type_hash : Z) (schema_json : bytes)
| OPurgeVersions (keep_count : Z)
| OPurgeTombstones (older_than_ms : Z).

Definition heap_do (m : sys) (op : heap_op) (s : ak_heap_state) : outcome (Z * ak_heap_state) :=
  match op with
  | OAlloc type_hash value run_id taint => Ret (ak_heap_alloc m type_hash value run_id taint s)
  | OWrite ptr patch v => let '(r, _, s') := ak_heap_write m ptr patch v s in Ret (r, s')
  | ODelete ptr v => Ret (ak_heap_delete m ptr v s)
  | OSetTaint ptr t v => Ret (ak_heap_set_taint m ptr t v s)
  | OSanitize ptr t v => Ret (ak_heap_set_taint_sanitized m ptr t v s)
  | ORegister type_hash json => Ret (0, ak_heap_register_schema m type_hash json s)
  | OPurgeVersions k => ak_heap_purge_versions k s
  | OPurgeTombstones older => Ret (ak_heap_purge_tombstones m older s)
  end.

Definition obj_bytes (o : ak_heap_object) : Z := zlen (obj_value o).
Definition hist_len (h : ak_version_history) : Z := Z.of_nat (length (vh_entries h)).
Definition entry_bytes (e : ak_version_entry) : Z := zlen (ve_value e).
Definition hist_bytes (h : ak_version_history) : Z := sum_by entry_bytes (vh_entries h).
Definition one_if_deleted (o : ak_heap_object) : Z := if obj_deleted o then 1 else 0.

(** The values held fit a 64-bit address space. *)
Definition fits (s : ak_heap_state) : Prop :=
  total obj_bytes (hs_objects s) < M64 /\ total hist_bytes (hs_history s) < M64.

(** A call: what the environment answered, the operation, its result and the
    state it started from. *)
Definition call : Type := sys * heap_op * Z * ak_heap_state.

(** Runs of fewer than [2^64 - 2] calls; the latest call comes first. *)
Inductive hrun : list call -> ak_heap_state -> Prop :=
| hrun_init s0 : hs_initialized s0 = false -> hrun [] (ak_heap_init s0)
| hrun_step T s m op r s' :
    hrun T s -> heap_do m op s = Ret (r, s') -> fits s' -> Z.of_nat (length T) + 3 < M64 ->
    hrun ((m, op, r, s) :: T) s'.

(** ** Invariants *)

Record objects_ok (n : Z) (s : ak_heap_state) : Prop := {
  oo_wf : wf_ptable (hs_objects s);
  oo_next : 1 <= hs_next_ptr s <= n + 1;
  oo_entry : forall o, o ∈ entries (hs_objects s) -> 1 <= obj_ptr o < hs_next_ptr s /\ 1 <= obj_version o <= n + 1;
  oo_count : hs_object_count s = total (fun _ => 1) (hs_objects s);
  oo_deleted : hs_deleted_count s = total one_if_deleted (hs_objects s);
  oo_bytes : hs_bytes_used s = total obj_bytes (hs_objects s);
  oo_bound : total (fun _ => 1) (hs_objects s) <= n
}.

(** [P ptr version value] holds of every recorded version. *)
Record history_ok (P : Z -> Z -> bytes -> Prop) (n : Z) (s : ak_heap_state) : Prop := {
  ho_wf : wf_ptable (hs_history s);
  ho_entry : forall h, h ∈ entries (hs_history s) ->
    1 <= vh_ptr h < hs_next_ptr s /\ vh_count h = hist_len h /\
    forall e, e ∈ vh_entries h -> P (vh_ptr h) (ve_version e) (ve_value e);
  ho_count : hs_version_count s = total hist_len (hs_history s);
  ho_bytes : hs_bytes_versions s = total hist_bytes (hs_history s);
  ho_bound : total hist_len (hs_history s) <= n
}.

Lemma u64_small z : 0 <= z < M64 -> u64 z = z.
Proof. intros. unfold u64. by rewrite Z.mod_small. Qed.

Lemma zlen_nonneg v : 0 <= zlen v.
Proof. unfold zlen. lia. Qed.
Lemma obj_bytes_nonneg o : 0 <= obj_bytes o.
Proof. apply zlen_nonneg. Qed.
Lemma entry_bytes_nonneg e : 0 <= entry_bytes e.
Proof. apply zlen_nonneg. Qed.
Lemma hist_bytes_nonneg h : 0 <= hist_bytes h.
Proof. apply sum_by_nonneg, entry_bytes_nonneg. Qed.
Lemma hist_len_nonneg h : 0 <= hist_len h.
Proof. unfold hist_len. lia. Qed.
Lemma one_nonneg {A} (x : A) : 0 <= (fun _ => 1) x.
Proof. lia. Qed.
#[local] Hint Resolve zlen_nonneg obj_bytes_nonneg entry_bytes_nonneg hist_bytes_nonneg hist_len_nonneg one_nonneg : core.

Lemma total_nonneg_any {E} (f : E -> Z) t : (forall e, 0 <= f e) -> 0 <= total f t.
Proof. intros. by apply sum_by_nonneg. Qed.

(** The fields of an updated state. *)
Ltac fields := cbn [hs_objects hs_object_count hs_deleted_count hs_next_ptr hs_history hs_version_count hs_schemas
  hs_bytes_used hs_bytes_versions hs_initialized set_objects set_counts set_history set_schemas set_bytes_used].
Ltac fields_in H := cbn [hs_objects hs_object_count hs_deleted_count hs_next_ptr hs_history hs_version_count hs_schemas
  hs_bytes_used hs_bytes_versions hs_initialized set_objects set_counts set_history set_schemas set_bytes_used] in H.

(** ** The version history *)

Lemma save_version_frame m ptr v x s :
  let s' := save_version m ptr v x s in
  hs_objects s' = hs_objects s /\ hs_object_count s' = hs_object_count s /\ hs_deleted_count s' = hs_deleted_count s /\
  hs_next_ptr s' = hs_next_ptr s /\ hs_schemas s' = hs_schemas s /\ hs_bytes_used s' = hs_bytes_used s /\
  hs_initialized s' = hs_initialized s.
Proof. cbv zeta. unfold save_version. repeat case_match; done. Qed.

Lemma history_ok_mono (P Q : Z -> Z -> bytes -> Prop) n n' s s' :
  (forall p v x, P p v x -> Q p v x) -> n <= n' ->
  hs_history s' = hs_history s -> hs_version_count s' = hs_version_count s -> hs_bytes_versions s' = hs_bytes_versions s ->
  hs_next_ptr s <= hs_next_ptr s' -> history_ok P n s -> history_ok Q n' s'.
Proof.
  intros HPQ Hn Eh Ec Eb Hp [Hwf He Hc Hb Hd]. split; rewrite ?Eh, ?Ec, ?Eb; try done; [|lia].
  intros h Hh. destruct (He h Hh) as (H1 & H2 & H3). split_and!; [lia|lia|done|eauto].
Qed.

(** Recording one entry in a table where the pointer has a history. *)
Lemma put_entry_ok P n s t m ptr v x hist :
  n + 1 < M64 -> history_ok P n (set_history t (hs_version_count s) (hs_bytes_versions s) s) -> P ptr v x ->
  table_lookup t ptr = Some hist ->
  let s' := set_history (table_alter (put_entry (mk_version v (now_version m) x)) t ptr)
              (u64 (hs_version_count s + 1)) (u64 (hs_bytes_versions s + zlen x)) s in
  total hist_bytes (hs_history s') < M64 -> history_ok P (n + 1) s'.
Proof.
  intros Hn [Hwf He Hc Hb Hd] HP Hl. cbv zeta. fields. intros Hfit.
  fields_in Hwf; fields_in He; fields_in Hc; fields_in Hb; fields_in Hd.
  set (g := put_entry _) in *. assert (Hg : forall e, ptr_of (g e) = ptr_of e) by done.
  assert (Hlen : hist_len (g hist) = hist_len hist + 1) by (unfold hist_len, g; cbn [put_entry vh_entries length]; lia).
  assert (Hby : hist_bytes (g hist) = zlen x + hist_bytes hist) by done.
  rewrite (total_alter _ _ _ _ hist) in Hfit by done.
  pose proof (total_nonneg_any hist_len t ltac:(auto)). pose proof (total_nonneg_any hist_bytes t ltac:(auto)).
  pose proof (zlen_nonneg x).
  pose proof (table_lookup_spec t ptr hist Hwf) as [Hin _]. destruct (Hin Hl) as [Hmem Hp].
  pose proof (sum_by_le hist_len _ _ hist_len_nonneg Hmem) as Hle. fold (total hist_len t) in Hle.
  split; fields.
  - by apply wf_alter.
  - intros h [Hh|(h0 & Hl0 & ->)]%entries_alter; [by apply He|]. assert (h0 = hist) by congruence. subst h0.
    destruct (He _ Hmem) as (Hptr & Hcnt & Hall). cbn. split_and!; [lia|lia| |].
    + rewrite Hcnt. unfold hist_len in *. cbn [length]. rewrite u64_small; lia.
    + intros e [->|Hin']%elem_of_cons; [|auto]. cbn. change (vh_ptr hist) with (ptr_of hist). by rewrite Hp.
  - rewrite (total_alter _ _ _ _ hist), Hlen, Hc, u64_small by (done || lia). lia.
  - rewrite (total_alter _ _ _ _ hist), Hby, Hb, u64_small by (done || lia). lia.
  - rewrite (total_alter _ _ _ _ hist), Hlen by done. lia.
Qed.

(** A new, empty history for a pointer without one. *)
Lemma new_history_ok P n s ptr :
  history_ok P n s -> find_history s ptr = None -> 1 <= ptr < hs_next_ptr s ->
  history_ok P n (set_history (table_push (hs_history s) ptr (mk_history ptr [] 0 false)) (hs_version_count s) (hs_bytes_versions s) s).
Proof.
  intros [Hwf He Hc Hb Hd] Hn Hp. change ptr with (ptr_of (mk_history ptr [] 0 false)) in Hn |- * at 1.
  assert (Hpos : (0 < length (hs_history s))%nat) by apply Hwf.
  split; fields.
  - by apply wf_push.
  - intros h Hh. apply entries_push in Hh as [->|Hh]; [|auto|done]. cbn. split_and!; [lia|lia|done|]. intros e He'. by apply not_elem_of_nil in He'.
  - by rewrite total_push.
  - by rewrite total_push.
  - by rewrite total_push.
Qed.

Lemma save_version_ok P n m ptr v x s :
  n + 1 < M64 -> history_ok P n s -> 1 <= ptr < hs_next_ptr s -> P ptr v x ->
  total hist_bytes (hs_history (save_version m ptr v x s)) < M64 -> history_ok P (n + 1) (save_version m ptr v x s).
Proof.
  intros Hn Hok Hp HP. unfold save_version. pose proof (ho_wf _ _ _ Hok) as Hwf.
  destruct (find_history s ptr) as [hist|] eqn:Eh; [|destruct (al_hist m)].
  - destruct (negb (al_entry m) || negb (al_copy m)); intros Hf.
    + eapply history_ok_mono, Hok; auto; [lia|]. fields. lia.
    + eapply put_entry_ok; eauto. eapply history_ok_mono, Hok; auto; [lia|]. fields. lia.
  - pose proof (new_history_ok P n s ptr Hok Eh Hp) as Hnew.
    destruct (negb (al_entry m) || negb (al_copy m)); intros Hf.
    + eapply history_ok_mono, Hnew; auto; [lia|]. fields. lia.
    + eapply put_entry_ok; eauto. pose proof (lookup_push (hs_history s) (mk_history ptr [] 0 false) ptr Hwf Eh) as Hl.
      cbn [ptr_of history_ptr vh_ptr] in Hl. unfold ptr_of, history_ptr in Hl. cbn [vh_ptr] in Hl. by rewrite Z.eqb_refl in Hl.
  - intros _. eapply history_ok_mono, Hok; auto; lia.
Qed.

(** ** Purging versions *)

(** What a purge leaves of one history. *)
Definition cut (k : Z) (h : ak_version_history) : ak_version_history :=
  if k <? vh_count h then
    let kept := take (Z.to_nat k) (vh_entries h) in
    mk_history (vh_ptr h) kept (Z.of_nat (length kept))
      (match kept, drop (Z.to_nat k) (vh_entries h) with [], _ :: _ => true | _, _ => false end)
  else h.

Lemma free_entries_eq l bv vc c p :
  sum_by entry_bytes l <= bv -> Z.of_nat (length l) <= vc < M64 -> Z.of_nat (length l) <= c < M64 ->
  0 <= p -> p + Z.of_nat (length l) < M64 ->
  free_entries l (bv, vc, c, p) =
  (bv - sum_by entry_bytes l, vc - Z.of_nat (length l), c - Z.of_nat (length l), p + Z.of_nat (length l)).
Proof.
  revert bv vc c p. induction l as [|e l IH]; intros bv vc c p Hb Hv Hc Hp Hpl; cbn [free_entries length].
  - unfold sum_by. cbn. repeat f_equal; lia.
  - change (sum_by entry_bytes (e :: l)) with (entry_bytes e + sum_by entry_bytes l) in Hb |- *. cbn [length] in *.
    pose proof (sum_by_nonneg entry_bytes l entry_bytes_nonneg). pose proof (entry_bytes_nonneg e) as He.
    unfold sub_clamped. change (zlen (ve_value e)) with (entry_bytes e). destruct (Z.leb_spec (entry_bytes e) bv); [|lia].
    rewrite !u64_small by lia. rewrite IH by lia. f_equal; [f_equal; [f_equal|]|]; lia.
Qed.

Lemma cut_parts k h :
  (k <? vh_count h) = true ->
  hist_len h = hist_len (cut k h) + Z.of_nat (length (drop (Z.to_nat k) (vh_entries h))) /\
  hist_bytes h = hist_bytes (cut k h) + sum_by entry_bytes (drop (Z.to_nat k) (vh_entries h)).
Proof.
  intros Hc. unfold cut, hist_len, hist_bytes. rewrite Hc. cbn [vh_entries]. split.
  - rewrite length_take, length_drop. lia.
  - rewrite <-sum_by_app, take_drop. done.
Qed.

Lemma purge_history_eq k h bv vc p x :
  vh_count h = hist_len h -> hist_bytes h <= bv -> hist_len h <= vc < M64 -> 0 <= p -> p + hist_len h < M64 ->
  purge_history k h (bv, vc, p) = Ret x ->
  x = (cut k h, (bv - hist_bytes h + hist_bytes (cut k h), vc - hist_len h + hist_len (cut k h), p + hist_len h - hist_len (cut k h))).
Proof.
  intros Hcnt Hb Hv Hp Hpl. unfold purge_history. destruct (k <? vh_count h) eqn:Ek; cbn [negb].
  - destruct (vh_end_freed h); [done|]. destruct (cut_parts k h Ek) as [Hl Hs].
    pose proof (hist_len_nonneg (cut k h)). pose proof (hist_bytes_nonneg (cut k h)).
    rewrite free_entries_eq by lia. intros [= <-]. f_equal; [|f_equal; [f_equal|]; lia].
    unfold cut. rewrite Ek. cbv zeta. f_equal. rewrite Hcnt. unfold hist_len. rewrite length_take, length_drop. lia.
  - intros [= <-]. assert (E : cut k h = h) by (unfold cut; by rewrite Ek). rewrite E. f_equal. f_equal; [f_equal|]; lia.
Qed.

Definition purge_sums (k : Z) (l : list ak_version_history) (bv vc p : Z) : Z * Z * Z :=
  (bv - sum_by hist_bytes l + sum_by (fun h => hist_bytes (cut k h)) l,
   vc - sum_by hist_len l + sum_by (fun h => hist_len (cut k h)) l,
   p + sum_by hist_len l - sum_by (fun h => hist_len (cut k h)) l).

Lemma cut_le k h : hist_len (cut k h) <= hist_len h /\ hist_bytes (cut k h) <= hist_bytes h.
Proof.
  destruct (k <? vh_count h) eqn:Ek.
  - destruct (cut_parts k h Ek). pose proof (sum_by_nonneg entry_bytes (drop (Z.to_nat k) (vh_entries h)) entry_bytes_nonneg). lia.
  - unfold cut. rewrite Ek. lia.
Qed.

Lemma sum_cut_le k l :
  sum_by (fun h => hist_len (cut k h)) l <= sum_by hist_len l /\ sum_by (fun h => hist_bytes (cut k h)) l <= sum_by hist_bytes l.
Proof. split; apply sum_by_mono; intros h _; apply cut_le. Qed.

Lemma purge_histories_eq k c bv vc p x :
  (forall h, h ∈ c -> vh_count h = hist_len h) ->
  sum_by hist_bytes c <= bv -> sum_by hist_len c <= vc < M64 -> 0 <= p -> p + sum_by hist_len c < M64 ->
  purge_histories k c (bv, vc, p) = Ret x -> x = (map (cut k) c, purge_sums k c bv vc p).
Proof.
  revert bv vc p x. induction c as [|h c IH]; intros bv vc p x Hcnt Hb Hv Hp Hpl; cbn [purge_histories].
  - intros [= <-]. unfold purge_sums, sum_by. cbn. f_equal. f_equal; [f_equal|]; lia.
  - change (sum_by hist_bytes (h :: c)) with (hist_bytes h + sum_by hist_bytes c) in Hb.
    change (sum_by hist_len (h :: c)) with (hist_len h + sum_by hist_len c) in Hv, Hpl.
    pose proof (sum_by_nonneg hist_bytes c hist_bytes_nonneg). pose proof (sum_by_nonneg hist_len c hist_len_nonneg).
    destruct (purge_history k h (bv, vc, p)) as [y| |] eqn:Ey; try done.
    pose proof (hist_len_nonneg (cut k h)). pose proof (hist_bytes_nonneg (cut k h)). destruct (cut_le k h).
    apply purge_history_eq in Ey; [|apply Hcnt; left|lia..]. rewrite Ey.
    destruct (purge_histories k c _) as [z| |] eqn:Ez; try done.
    apply IH in Ez; [|intros h' Hh'; apply Hcnt; by right|lia..]. rewrite Ez. intros [= <-]. cbn [map]. f_equal.
    unfold purge_sums, sum_by. cbn. f_equal; [f_equal|]; lia.
Qed.

Lemma purge_buckets_eq k t bv vc p x :
  (forall h, h ∈ entries t -> vh_count h = hist_len h) ->
  total hist_bytes t <= bv -> total hist_len t <= vc < M64 -> 0 <= p -> p + total hist_len t < M64 ->
  purge_buckets k t (bv, vc, p) = Ret x -> x = (table_map (cut k) t, purge_sums k (entries t) bv vc p).
Proof.
  revert bv vc p x. unfold total. induction t as [|c t IH]; intros bv vc p x Hcnt Hb Hv Hp Hpl; cbn [purge_buckets].
  - intros [= <-]. unfold purge_sums, sum_by. cbn. f_equal. f_equal; [f_equal|]; lia.
  - change (entries (c :: t)) with (c ++ entries t) in *. rewrite sum_by_app in Hb, Hv, Hpl.
    pose proof (sum_by_nonneg hist_bytes (entries t) hist_bytes_nonneg). pose proof (sum_by_nonneg hist_len (entries t) hist_len_nonneg).
    pose proof (sum_by_nonneg hist_bytes c hist_bytes_nonneg). pose proof (sum_by_nonneg hist_len c hist_len_nonneg).
    destruct (purge_histories k c (bv, vc, p)) as [y| |] eqn:Ey; try done.
    destruct (sum_cut_le k c). pose proof (sum_by_nonneg (fun h => hist_len (cut k h)) c ltac:(intros; apply hist_len_nonneg)).
    pose proof (sum_by_nonneg (fun h => hist_bytes (cut k h)) c ltac:(intros; apply hist_bytes_nonneg)).
    apply purge_histories_eq in Ey; [|intros; apply Hcnt; apply elem_of_app; by left|lia..]. rewrite Ey. unfold purge_sums at 1.
    destruct (purge_buckets k t _) as [z| |] eqn:Ez; try done.
    apply IH in Ez; [|intros h' Hh'; apply Hcnt; apply elem_of_app; by right|lia..]. rewrite Ez. intros [= <-]. f_equal.
    unfold purge_sums. rewrite !sum_by_app. f_equal; [f_equal|]; lia.
Qed.

Lemma cut_ptr k h : ptr_of (cut k h) = ptr_of h.
Proof. unfold cut. by destruct (k <? vh_count h). Qed.

Lemma cut_entry k h e : e ∈ vh_entries (cut k h) -> e ∈ vh_entries h.
Proof. unfold cut. destruct (k <? vh_count h); [|done]. cbn. apply elem_of_take_in. Qed.

(** The number returned is the number of versions that are gone. *)
Lemma purge_versions_ok P n k s r s' :
  n < M64 -> history_ok P n s -> ak_heap_purge_versions k s = Ret (r, s') -> hs_initialized s = true ->
  s' = set_history (table_map (cut k) (hs_history s)) (hs_version_count s') (hs_bytes_versions s') s /\
  history_ok P n s' /\ r = hs_version_count s - hs_version_count s'.
Proof.
  intros Hn [Hwf He Hc Hb Hd] Hpurge Hi. unfold ak_heap_purge_versions in Hpurge. rewrite Hi in Hpurge. cbn [negb] in Hpurge.
  pose proof (total_nonneg_any hist_len (hs_history s) hist_len_nonneg).
  destruct (purge_buckets k _ _) as [x| |] eqn:Ex; try done.
  apply purge_buckets_eq in Ex; [|intros h Hh; apply He, Hh|lia..]. rewrite Ex in Hpurge. unfold purge_sums in Hpurge.
  injection Hpurge as <- <-. fold (total hist_len (hs_history s)) (total hist_bytes (hs_history s)). fields.
  split_and!; [done| |lia]. pose proof (cut_ptr k) as Hg.
  destruct (sum_cut_le k (entries (hs_history s))). split; fields.
  - by apply wf_map.
  - intros h Hh. rewrite entries_map in Hh. apply list_elem_of_fmap in Hh as (h0 & -> & Hh0).
    destruct (He _ Hh0) as (Hp & Hcnt & Hall). change (vh_ptr (cut k h0)) with (ptr_of (cut k h0)). rewrite Hg.
    split_and!; [apply Hp..| |intros e Hin; by apply Hall, (cut_entry k)].
    unfold cut. by destruct (k <? vh_count h0).
  - rewrite total_map. unfold total in *. lia.
  - rewrite total_map. unfold total in *. lia.
  - rewrite total_map. unfold total in *. lia.
Qed.

(** ** Purging tombstones *)

Definition when (p : ak_heap_object -> bool) (f : ak_heap_object -> Z) (o : ak_heap_object) : Z := if p o then f o else 0.

Definition sweep_sums (p : ak_heap_object -> bool) (l : list ak_heap_object) (bu dc oc pg : Z) : Z * Z * Z * Z :=
  let k := sum_by (when p (fun _ => 1)) l in (bu - sum_by (when p obj_bytes) l, dc - k, oc - k, pg + k).

Lemma when_nonneg p f : (forall o, 0 <= f o) -> forall o, 0 <= when p f o.
Proof. intros Hf o. unfold when. destruct (p o); [apply Hf|lia]. Qed.

Lemma sum_when_cons p f o c : sum_by (when p f) (o :: c) = (if p o then f o else 0) + sum_by (when p f) c.
Proof. done. Qed.

Lemma sweep_chain_eq p c bu dc oc pg :
  sum_by (when p obj_bytes) c <= bu -> sum_by (when p (fun _ => 1)) c <= dc < M64 ->
  sum_by (when p (fun _ => 1)) c <= oc < M64 -> 0 <= pg -> pg + sum_by (when p (fun _ => 1)) c < M64 ->
  sweep_chain p c (bu, dc, oc, pg) = (List.filter (fun o => negb (p o)) c, sweep_sums p c bu dc oc pg).
Proof.
  pose proof (when_nonneg p obj_bytes obj_bytes_nonneg) as Hw. pose proof (when_nonneg p (fun _ => 1) ltac:(lia)) as Hw1.
  revert bu dc oc pg. induction c as [|o c IH]; intros bu dc oc pg Hb Hd Ho Hp Hpl; cbn [sweep_chain List.filter].
  - unfold sweep_sums, sum_by. cbn. f_equal. f_equal; [f_equal; [f_equal|]|]; lia.
  - pose proof (sum_by_nonneg _ c Hw). pose proof (sum_by_nonneg _ c Hw1). pose proof (obj_bytes_nonneg o).
    unfold sweep_sums. rewrite sum_when_cons in Hb, Hd, Ho, Hpl. rewrite !sum_when_cons. destruct (p o); cbn [negb].
    + unfold sub_clamped. change (zlen (obj_value o)) with (obj_bytes o). destruct (Z.leb_spec (obj_bytes o) bu); [|lia].
      rewrite !u64_small by lia. rewrite IH by lia. unfold sweep_sums. f_equal. f_equal; [f_equal; [f_equal|]|]; lia.
    + rewrite IH by lia. done.
Qed.

Lemma sweep_eq p t bu dc oc pg :
  total (when p obj_bytes) t <= bu -> total (when p (fun _ => 1)) t <= dc < M64 ->
  total (when p (fun _ => 1)) t <= oc < M64 -> 0 <= pg -> pg + total (when p (fun _ => 1)) t < M64 ->
  sweep p t (bu, dc, oc, pg) = (table_keep (fun o => negb (p o)) t, sweep_sums p (entries t) bu dc oc pg).
Proof.
  pose proof (when_nonneg p obj_bytes obj_bytes_nonneg) as Hw. pose proof (when_nonneg p (fun _ => 1) ltac:(lia)) as Hw1.
  unfold total. revert bu dc oc pg. induction t as [|c t IH]; intros bu dc oc pg Hb Hd Ho Hp Hpl; cbn [sweep].
  - unfold sweep_sums, sum_by. cbn. f_equal. f_equal; [f_equal; [f_equal|]|]; lia.
  - change (entries (c :: t)) with (c ++ entries t) in *. rewrite sum_by_app in Hb, Hd, Ho, Hpl.
    pose proof (sum_by_nonneg _ c Hw). pose proof (sum_by_nonneg _ c Hw1).
    pose proof (sum_by_nonneg _ (entries t) Hw). pose proof (sum_by_nonneg _ (entries t) Hw1).
    rewrite sweep_chain_eq by lia. unfold sweep_sums at 1. cbv zeta. rewrite IH by lia. f_equal.
    unfold sweep_sums. rewrite !sum_by_app. f_equal; [f_equal; [f_equal|]|]; lia.
Qed.

Lemma sum_keep_when p f l : sum_by f (List.filter (fun o => negb (p o)) l) = sum_by f l - sum_by (when p f) l.
Proof.
  rewrite sum_by_filter. unfold sum_by, when. induction l as [|o l IH]; cbn; [done|]. rewrite IH. destruct (p o); cbn; lia.
Qed.

Lemma objects_ok_le n s : objects_ok n s -> total one_if_deleted (hs_objects s) <= total (fun _ => 1) (hs_objects s).
Proof. intros _. apply sum_by_mono. intros o _. unfold one_if_deleted. destruct (obj_deleted o); lia. Qed.

Lemma purge_tombstones_ok n m older s r s' :
  n < M64 -> objects_ok n s -> hs_initialized s = true -> ak_heap_purge_tombstones m older s = (r, s') ->
  s' = set_bytes_used (hs_bytes_used s') (set_counts (hs_object_count s') (hs_deleted_count s') (hs_next_ptr s)
         (set_objects (table_keep (fun o => negb (expired (now_object m) older o)) (hs_objects s)) s)) /\
  objects_ok n s' /\ r = hs_object_count s - hs_object_count s'.
Proof.
  intros Hn Hok Hi. pose proof (objects_ok_le n s Hok) as Hdle. destruct Hok as [Hwf Hnext He Hc Hd Hb Hbd].
  unfold ak_heap_purge_tombstones. rewrite Hi. cbn [negb]. set (p := expired _ _).
  assert (Hw1 : total (when p (fun _ => 1)) (hs_objects s) <= total one_if_deleted (hs_objects s)).
  { apply sum_by_mono. intros o _. unfold when, one_if_deleted, p, expired. destruct (obj_deleted o); cbn; [destruct (_ <? _); lia|lia]. }
  assert (Hwb : total (when p obj_bytes) (hs_objects s) <= total obj_bytes (hs_objects s)).
  { apply sum_by_mono. intros o _. unfold when. pose proof (obj_bytes_nonneg o). destruct (p o); lia. }
  assert (Hdel : total (when p one_if_deleted) (hs_objects s) = total (when p (fun _ => 1)) (hs_objects s)).
  { apply sum_by_ext. intros o _. unfold when, one_if_deleted, p, expired. destruct (obj_deleted o); done. }
  pose proof (total_nonneg_any _ (hs_objects s) (when_nonneg p (fun _ => 1) ltac:(lia))).
  rewrite sweep_eq by lia. unfold sweep_sums. cbv zeta. intros [= <- <-]. fields.
  fold (total (when p (fun _ => 1)) (hs_objects s)) (total (when p obj_bytes) (hs_objects s)).
  split_and!; [done| |lia]. unfold total in *. split; fields.
  - by apply wf_keep.
  - done.
  - intros o Ho. rewrite entries_keep in Ho. apply filter_elem in Ho as [Ho _]. auto.
  - unfold total. rewrite entries_keep, sum_keep_when. lia.
  - unfold total. rewrite entries_keep, sum_keep_when. lia.
  - unfold total. rewrite entries_keep, sum_keep_when. lia.
  - unfold total. rewrite entries_keep, sum_keep_when. lia.
Qed.

(** ** Every operation keeps the invariants *)

Definition heap_inv (P : Z -> Z -> bytes -> Prop) (n : Z) (s : ak_heap_state) : Prop :=
  hs_initialized s = true /\ objects_ok n s /\ history_ok P n s.

Lemma objects_ok_mono n n' s s' :
  n <= n' -> hs_objects s' = hs_objects s -> hs_object_count s' = hs_object_count s -> hs_deleted_count s' = hs_deleted_count s ->
  hs_next_ptr s' = hs_next_ptr s -> hs_bytes_used s' = hs_bytes_used s -> objects_ok n s -> objects_ok n' s'.
Proof.
  intros Hn E1 E2 E3 E4 E5 [Hwf Hnext He Hc Hd Hb Hbd]. split; rewrite ?E1, ?E2, ?E3, ?E4, ?E5; try done; [lia| |lia].
  intros o Ho. specialize (He o Ho). lia.
Qed.

Lemma find_object_table s ptr : hs_initialized s = true -> find_object s ptr = table_lookup (hs_objects s) ptr.
Proof. unfold find_object. by intros ->. Qed.

Lemma find_object_entry n s ptr o :
  objects_ok n s -> find_object s ptr = Some o -> o ∈ entries (hs_objects s) /\ obj_ptr o = ptr /\ 1 <= ptr < hs_next_ptr s /\ 1 <= obj_version o <= n + 1.
Proof.
  intros Hok. unfold find_object. destruct (negb _); [done|]. intros [Hin Hp]%table_lookup_spec; [|apply Hok].
  change (ptr_of o) with (obj_ptr o) in Hp. pose proof (oo_entry _ _ Hok o Hin). rewrite Hp in *. tauto.
Qed.

(** In-place update of one object. *)
Lemma alter_object_ok n s s' g ptr o :
  objects_ok n s -> table_lookup (hs_objects s) ptr = Some o -> (forall o, obj_ptr (g o) = obj_ptr o) ->
  1 <= obj_version (g o) <= n + 2 ->
  hs_objects s' = table_alter g (hs_objects s) ptr -> hs_next_ptr s' = hs_next_ptr s -> hs_object_count s' = hs_object_count s ->
  hs_deleted_count s' = hs_deleted_count s - one_if_deleted o + one_if_deleted (g o) ->
  hs_bytes_used s' = hs_bytes_used s - obj_bytes o + obj_bytes (g o) -> objects_ok (n + 1) s'.
Proof.
  intros [Hwf Hnext He Hc Hd Hb Hbd] Hl Hg Hv E1 E2 E3 E4 E5. split; rewrite ?E1, ?E2, ?E3, ?E4, ?E5.
  - by apply wf_alter.
  - lia.
  - intros x [Hx|(y & Hy & ->)]%entries_alter; [specialize (He x Hx); lia|]. rewrite Hl in Hy. injection Hy as <-.
    apply table_lookup_spec in Hl as [Hin _]; [|done]. specialize (He _ Hin). rewrite Hg. lia.
  - rewrite (total_alter _ _ _ _ o) by done. lia.
  - rewrite (total_alter _ _ _ _ o) by done. lia.
  - rewrite (total_alter _ _ _ _ o) by done. lia.
  - rewrite (total_alter _ _ _ _ o) by done. lia.
Qed.

Lemma total_at_least (f : ak_heap_object -> Z) t ptr o :
  wf_ptable t -> (forall o, 0 <= f o) -> table_lookup t ptr = Some o -> f o <= total f t.
Proof. intros Hwf Hf [Hin _]%table_lookup_spec; [|done]. by apply sum_by_le. Qed.

Lemma set_schemas_same s : set_schemas (hs_schemas s) s = s.
Proof. by destruct s. Qed.

(** A successful allocation adds one object, and only that. *)
Lemma alloc_result m s th x run t r s' :
  hs_initialized s = true -> wf_ptable (hs_objects s) -> table_lookup (hs_objects s) (hs_next_ptr s) = None ->
  0 <= hs_next_ptr s /\ hs_next_ptr s + 1 < M64 -> ak_heap_alloc m th x run t s = (r, s') -> r <> 0 ->
  r = hs_next_ptr s /\ hs_next_ptr s' = r + 1 /\
  exists o, obj_version o = 1 /\ obj_value o = x /\ obj_deleted o = false /\ obj_taint o = t /\ obj_type_hash o = th /\
    forall ptr, find_object s' ptr = if r =? ptr then Some o else find_object s ptr.
Proof.
  intros Hi Hwf Hfresh Hnext. unfold ak_heap_alloc. rewrite Hi. cbn [negb].
  destruct (ak_heap_validate_schema _ _ _); cbn [negb]; [|by intros [= <- <-]].
  destruct (al_obj m); cbn [negb]; [|by intros [= <- <-]]. destruct (al_value m); cbn [negb]; [|by intros [= <- <-]].
  cbv zeta. fields. set (obj := mk_object _ _ _ _ _ _ _ _ _). set (s1 := set_bytes_used _ _).
  intros [= <- <-] _. destruct (save_version_frame m (hs_next_ptr s) 1 x s1) as (F1 & F2 & F3 & F4 & F5 & F6 & F7).
  split_and!; [done|rewrite F4; unfold s1; fields; rewrite u64_small; lia|].
  exists obj. split_and!; try done. intros ptr. rewrite !find_object_table by (by rewrite ?F7). rewrite F1.
  unfold s1. fields. change (hs_next_ptr s) with (ptr_of obj). by apply lookup_push.
Qed.

Section Operations.
Context (P : Z -> Z -> bytes -> Prop) (n : Z) (m : sys) (s : ak_heap_state).
Context (Hn : 0 <= n /\ n + 2 < M64) (Hinv : heap_inv P n s).
Context (Hlive : forall ptr o, find_object s ptr = Some o -> live o = true -> P ptr (obj_version o) (obj_value o)).

(** Nothing changed. *)
Lemma heap_inv_same : heap_inv P (n + 1) s.
Proof using Hinv.
  destruct Hinv as (Hi & Ho & Hh). split_and!; [done| |].
  - eapply objects_ok_mono, Ho; (done || lia).
  - eapply history_ok_mono, Hh; (done || lia).
Qed.
#[local] Hint Resolve heap_inv_same : core.

Lemma save_current ptr o :
  find_object s ptr = Some o -> live o = true -> total hist_bytes (hs_history (save_version m ptr (obj_version o) (obj_value o) s)) < M64 ->
  history_ok P (n + 1) (save_version m ptr (obj_version o) (obj_value o) s).
Proof using Hn Hinv Hlive.
  intros Hf Hd Hfit. destruct Hinv as (Hi & Ho & Hh). apply save_version_ok; [lia|done| |by apply Hlive|done].
  by apply (find_object_entry n) in Hf as (_ & _ & Hp & _).
Qed.

Lemma write_inv ptr patch v r vo s' :
  ak_heap_write m ptr patch v s = (r, vo, s') -> fits s' -> heap_inv P (n + 1) s'.
Proof using Hn Hinv Hlive.
  destruct Hinv as (Hi & Ho & Hh). unfold ak_heap_write. rewrite Hi. cbn [negb].
  destruct (find_object s ptr) as [o|] eqn:Ef; [|by intros [= <- <- <-]]. destruct (obj_deleted o) eqn:Ed; [by intros [= <- <- <-]|].
  destruct (Z.eqb_spec (obj_version o) v) as [Ev|]; cbn [negb]; [|by intros [= <- <- <-]].
  set (apply := match patch with Some _ => _ | None => _ end). clearbody apply.
  destruct apply as [x|]; [|by intros [= <- <- <-]].
  destruct (ak_heap_validate_schema _ _ _); cbn [negb]; [|by intros [= <- <- <-]]. cbv zeta. intros [= <- <- <-].
  destruct (find_object_entry n s ptr o Ho Ef) as (Hin & Hp & Hpb & Hvb).
  assert (Hlo : live o = true) by (unfold live; by rewrite Ed).
  pose proof (save_current ptr o Ef Hlo) as Hsave. pose proof (save_version_frame m ptr (obj_version o) (obj_value o) s) as Hfr. cbv zeta in Hfr.
  set (s1 := save_version m ptr (obj_version o) (obj_value o) s) in *. destruct Hfr as (F1 & F2 & F3 & F4 & F5 & F6 & F7).
  rewrite find_object_table in Ef by done. intros [Hfo Hfh]. fields_in Hfo. fields_in Hfh. rewrite F1 in Hfo.
  pose proof (total_at_least obj_bytes _ _ _ (oo_wf _ _ Ho) obj_bytes_nonneg Ef) as Hle. pose proof (oo_bytes _ _ Ho) as Hbytes.
  rewrite (total_alter _ _ _ _ o) in Hfo by done. pose proof (total_nonneg_any obj_bytes (hs_objects s) obj_bytes_nonneg).
  pose proof (zlen_nonneg x). pose proof (obj_bytes_nonneg o). unfold obj_bytes at 3 in Hfo. cbn [put_value obj_value] in Hfo.
  split_and!; fields; [by rewrite F7| |].
  - eapply (alter_object_ok n s _ (put_value x (now_object m)) ptr o); fields; rewrite ?F1, ?F2, ?F3, ?F4, ?F6; eauto.
    + cbn [put_value obj_version]. rewrite u64_small; lia.
    + unfold one_if_deleted. cbn [put_value obj_deleted]. lia.
    + change (zlen (obj_value o)) with (obj_bytes o). destruct (Z.leb_spec (obj_bytes o) (hs_bytes_used s)); [|lia].
      unfold obj_bytes at 3. cbn [put_value obj_value]. rewrite u64_small; lia.
  - eapply history_ok_mono, Hsave; fields; auto; try lia. 
Qed.

Lemma delete_inv ptr v r s' : ak_heap_delete m ptr v s = (r, s') -> fits s' -> heap_inv P (n + 1) s'.
Proof using Hn Hinv Hlive.
  destruct Hinv as (Hi & Ho & Hh). unfold ak_heap_delete. rewrite Hi. cbn [negb].
  destruct (find_object s ptr) as [o|] eqn:Ef; [|by intros [= <- <-]]. destruct (obj_deleted o) eqn:Ed; [by intros [= <- <-]|].
  destruct (Z.eqb_spec (obj_version o) v) as [Ev|]; cbn [negb]; [|by intros [= <- <-]]. cbv zeta. intros [= <- <-].
  destruct (find_object_entry n s ptr o Ho Ef) as (Hin & Hp & Hpb & Hvb).
  assert (Hlo : live o = true) by (unfold live; by rewrite Ed).
  pose proof (save_current ptr o Ef Hlo) as Hsave. pose proof (save_version_frame m ptr (obj_version o) (obj_value o) s) as Hfr. cbv zeta in Hfr.
  set (s1 := save_version m ptr (obj_version o) (obj_value o) s) in *. destruct Hfr as (F1 & F2 & F3 & F4 & F5 & F6 & F7).
  rewrite find_object_table in Ef by done. intros [Hfo Hfh]. fields_in Hfh.
  pose proof (objects_ok_le n s Ho). pose proof (oo_bound _ _ Ho). pose proof (oo_deleted _ _ Ho) as Hdc.
  assert (0 <= hs_deleted_count s).
  { rewrite Hdc. apply sum_by_nonneg. intros x. unfold one_if_deleted. destruct (obj_deleted x); lia. }
  split_and!; fields; [by rewrite F7| |].
  - eapply (alter_object_ok n s _ (put_deleted (now_object m)) ptr o); fields; rewrite ?F1, ?F2, ?F3, ?F4, ?F6; eauto.
    + cbn [put_deleted obj_version]. rewrite u64_small; lia.
    + unfold one_if_deleted. cbn [put_deleted obj_deleted]. rewrite Ed, u64_small; lia.
    + unfold obj_bytes. cbn [put_deleted obj_value]. lia.
  - eapply history_ok_mono, Hsave; fields; auto; try lia.
Qed.

Lemma set_taint_inv ptr t v b r s' : heap_set_taint_internal m ptr t v b s = (r, s') -> heap_inv P (n + 1) s'.
Proof using Hn Hinv.
  destruct Hinv as (Hi & Ho & Hh). unfold heap_set_taint_internal.
  destruct (find_object s ptr) as [o|] eqn:Ef; [|by intros [= <- <-]]. destruct (obj_deleted o) eqn:Ed; [by intros [= <- <-]|].
  destruct (negb (obj_version o =? v)); [by intros [= <- <-]|]. destruct (_ && _); [by intros [= <- <-]|]. intros [= <- <-].
  destruct (find_object_entry n s ptr o Ho Ef) as (Hin & Hp & Hpb & Hvb). rewrite find_object_table in Ef by done.
  split_and!; fields; [done| |].
  - eapply (alter_object_ok n s _ (put_taint t (now_object m)) ptr o); fields; eauto.
    + cbn [put_taint obj_version]. lia.
    + unfold one_if_deleted. cbn [put_taint obj_deleted]. lia.
    + unfold obj_bytes. cbn [put_taint obj_value]. lia.
  - eapply history_ok_mono, Hh; fields; auto; lia.
Qed.
(** A fresh object has a pointer no other object and no history has. *)
Lemma fresh_object : table_lookup (hs_objects s) (hs_next_ptr s) = None.
Proof using Hinv.
  destruct Hinv as (Hi & Ho & Hh). apply table_lookup_None; [apply Ho|]. intros o Hin.
  pose proof (oo_entry _ _ Ho o Hin). change (ptr_of o) with (obj_ptr o). lia.
Qed.

Lemma alloc_inv th x run t r s' :
  ak_heap_alloc m th x run t s = (r, s') -> fits s' -> (r <> 0 -> P r 1 x) -> heap_inv P (n + 1) s'.
Proof using Hn Hinv.
  pose proof fresh_object as Hfresh. destruct Hinv as (Hi & Ho & Hh). unfold ak_heap_alloc. rewrite Hi. cbn [negb].
  destruct (ak_heap_validate_schema _ _ _); cbn [negb]; [|by intros [= <- <-]].
  destruct (al_obj m); cbn [negb]; [|by intros [= <- <-]]. destruct (al_value m); cbn [negb]; [|by intros [= <- <-]].
  cbv zeta. fields. set (obj := mk_object _ _ _ _ _ _ _ _ _). set (s1 := set_bytes_used _ _).
  intros [= <- <-] Hfit HP. pose proof (save_version_frame m (hs_next_ptr s) 1 x s1) as Hfr. cbv zeta in Hfr.
  destruct Hfr as (F1 & F2 & F3 & F4 & F5 & F6 & F7). destruct Hfit as [Hfo Hfh]. rewrite F1 in Hfo.
  destruct Ho as [Hwf Hnext He Hc Hd Hb Hbd]. assert (Hpos : (0 < length (hs_objects s))%nat) by apply Hwf.
  assert (Eo : hs_objects s1 = table_push (hs_objects s) (ptr_of obj) obj) by done. rewrite Eo, total_push in Hfo by done.
  change (obj_bytes obj) with (zlen x) in Hfo. pose proof (zlen_nonneg x).
  pose proof (total_nonneg_any obj_bytes (hs_objects s) obj_bytes_nonneg). pose proof (total_nonneg_any _ (hs_objects s) (@one_nonneg _)).
  assert (Hs1 : history_ok P n s1) by (eapply history_ok_mono, Hh; auto; [lia|]; unfold s1; fields; rewrite u64_small; lia).
  split_and!; [rewrite F7; done| |].
  - split; rewrite ?F1, ?F2, ?F3, ?F4, ?F6, ?Eo, ?total_push by done; unfold s1; fields.
    + by apply wf_push.
    + rewrite u64_small; lia.
    + intros o Hin. apply entries_push in Hin as [->|Hin]; [|specialize (He o Hin); rewrite u64_small; lia|done].
      cbn [obj obj_ptr obj_version]. rewrite u64_small; lia.
    + rewrite u64_small; lia.
    + change (one_if_deleted obj) with 0. lia.
    + change (obj_bytes obj) with (zlen x). rewrite u64_small; lia.
    + lia.
  - apply save_version_ok; [lia|done| |apply HP; lia|done]. unfold s1. fields. rewrite u64_small; lia.
Qed.

Lemma heap_alloc_result th x run t r s' :
  ak_heap_alloc m th x run t s = (r, s') -> r <> 0 ->
  r = hs_next_ptr s /\ hs_next_ptr s' = r + 1 /\
  exists o, obj_version o = 1 /\ obj_value o = x /\ obj_deleted o = false /\ obj_taint o = t /\ obj_type_hash o = th /\
    forall ptr, find_object s' ptr = if r =? ptr then Some o else find_object s ptr.
Proof using Hn Hinv.
  pose proof fresh_object as Hfresh. destruct Hinv as (Hi & Ho & Hh). pose proof (oo_next _ _ Ho).
  apply alloc_result; [done|apply Ho|done|lia].
Qed.

Lemma register_schema_frame th json : exists l, ak_heap_register_schema m th json s = set_schemas l s.
Proof using.
  assert (Hs : s = set_schemas (hs_schemas s) s) by (by rewrite set_schemas_same). unfold ak_heap_register_schema.
  destruct (negb (hs_initialized s)); [eauto|]. destruct (find_schema s th); [destruct (negb _)|destruct (negb _)]; eauto.
Qed.

Lemma do_inv op r s' :
  heap_do m op s = Ret (r, s') -> fits s' ->
  (forall ptr o, find_object s' ptr = Some o -> live o = true -> P ptr (obj_version o) (obj_value o)) -> heap_inv P (n + 1) s'.
Proof using Hn Hinv Hlive.
  intros Hdo Hfit Hnew. destruct op; cbn [heap_do] in Hdo.
  - injection Hdo as Hdo. eapply alloc_inv; eauto. intros Hr.
    destruct (heap_alloc_result _ _ _ _ _ _ Hdo Hr) as (_ & _ & o & Hv & Hx & Hd & _ & _ & Hfind).
    rewrite <-Hv, <-Hx. apply Hnew; [by rewrite Hfind, Z.eqb_refl|]. unfold live. by rewrite Hd.
  - destruct (ak_heap_write m ptr patch expected_version s) as [[r' vo] s1] eqn:Ew. injection Hdo as <- <-. eapply write_inv; eauto.
  - injection Hdo as Hdo. eapply delete_inv; eauto.
  - injection Hdo as Hdo. eapply set_taint_inv; eauto.
  - injection Hdo as Hdo. eapply set_taint_inv; eauto.
  - injection Hdo as <- <-. destruct Hinv as (Hi & Ho & Hh).
    destruct (register_schema_frame type_hash schema_json) as [l ->]. split_and!; [done| |].
    + eapply objects_ok_mono, Ho; (done || lia).
    + eapply history_ok_mono, Hh; (done || lia).
  - destruct Hinv as (Hi & Ho & Hh). destruct (purge_versions_ok P n _ s r s' ltac:(lia) Hh Hdo Hi) as (Es & Hh' & _).
    split_and!; [by rewrite Es| |].
    + eapply objects_ok_mono, Ho; try lia; by rewrite Es.
    + eapply history_ok_mono, Hh'; (done || lia).
  - injection Hdo as Hdo. destruct Hinv as (Hi & Ho & Hh).
    destruct (purge_tombstones_ok n m _ s r s' ltac:(lia) Ho Hi Hdo) as (Es & Ho' & _). split_and!; [by rewrite Es| |].
    + eapply objects_ok_mono, Ho'; (done || lia).
    + eapply history_ok_mono, Hh; try (rewrite Es; fields); (done || lia).
Qed.
End Operations.

(** ** What a step does to the objects *)

Lemma find_alter s s' g ptr o q :
  wf_ptable (hs_objects s) -> hs_initialized s = true -> hs_initialized s' = true ->
  hs_objects s' = table_alter g (hs_objects s) ptr -> (forall o, obj_ptr (g o) = obj_ptr o) -> find_object s ptr = Some o ->
  find_object s' q = if ptr =? q then Some (g o) else find_object s q.
Proof.
  intros Hwf Hi Hi' Eo Hg. rewrite !find_object_table by done. rewrite Eo. intros Hf. rewrite lookup_alter_table by done.
  destruct (Z.eqb_spec ptr q) as [<-|]; [by rewrite Hf|done].
Qed.

Lemma write_result m ptr patch v s r vo s' :
  wf_ptable (hs_objects s) -> hs_initialized s = true -> ak_heap_write m ptr patch v s = (r, vo, s') ->
  (r <> 0 /\ s' = s) \/
  (r = 0 /\ hs_next_ptr s' = hs_next_ptr s /\ hs_initialized s' = true /\ exists o p x,
     find_object s ptr = Some o /\ live o = true /\ obj_version o = v /\ patch = Some p /\
     ak_json_patch_apply (al_doc m) (al_patch m) (obj_value o) p = Some x /\
     ak_heap_validate_schema s (obj_type_hash o) (Some x) = true /\
     vo = Some (u64 (v + 1)) /\
     hs_history s' = hs_history (save_version m ptr v (obj_value o) s) /\
     forall q, find_object s' q = if ptr =? q then Some (put_value x (now_object m) o) else find_object s q).
Proof.
  intros Hwf Hi. unfold ak_heap_write. rewrite Hi. cbn [negb].
  destruct (find_object s ptr) as [o|] eqn:Ef; [|intros [= <- <- <-]; by left].
  destruct (obj_deleted o) eqn:Ed; [intros [= <- <- <-]; by left|].
  destruct (Z.eqb_spec (obj_version o) v) as [Ev|]; cbn [negb]; [|intros [= <- <- <-]; by left].
  destruct patch as [p|]; [|intros [= <- <- <-]; by left].
  destruct (ak_json_patch_apply _ _ _ _) as [x|] eqn:Ea; [|intros [= <- <- <-]; by left].
  destruct (ak_heap_validate_schema _ _ _) eqn:Es; cbn [negb]; [|intros [= <- <- <-]; by left].
  cbv zeta. intros [= <- <- <-]. right.
  destruct (save_version_frame m ptr (obj_version o) (obj_value o) s) as (F1 & F2 & F3 & F4 & F5 & F6 & F7).
  fields. split_and!; [done|by rewrite F4|by rewrite F7|]. exists o, p, x. unfold live. rewrite Ed, Ev.
  split_and!; try done. intros q. rewrite Ev in F1, F7. eapply find_alter; try done; fields; [by rewrite F7|by rewrite F1].
Qed.

Lemma delete_result m ptr v s r s' :
  wf_ptable (hs_objects s) -> hs_initialized s = true -> ak_heap_delete m ptr v s = (r, s') ->
  (r <> 0 /\ s' = s) \/
  (r = 0 /\ hs_next_ptr s' = hs_next_ptr s /\ hs_initialized s' = true /\ exists o,
     find_object s ptr = Some o /\ live o = true /\ obj_version o = v /\
     forall q, find_object s' q = if ptr =? q then Some (put_deleted (now_object m) o) else find_object s q).
Proof.
  intros Hwf Hi. unfold ak_heap_delete. rewrite Hi. cbn [negb].
  destruct (find_object s ptr) as [o|] eqn:Ef; [|intros [= <- <-]; by left].
  destruct (obj_deleted o) eqn:Ed; [intros [= <- <-]; by left|].
  destruct (Z.eqb_spec (obj_version o) v) as [Ev|]; cbn [negb]; [|intros [= <- <-]; by left].
  cbv zeta. intros [= <- <-]. right.
  destruct (save_version_frame m ptr (obj_version o) (obj_value o) s) as (F1 & F2 & F3 & F4 & F5 & F6 & F7).
  fields. split_and!; [done|by rewrite F4|by rewrite F7|]. exists o. unfold live. rewrite Ed. split_and!; try done.
  intros q. eapply find_alter; try done; fields; [by rewrite F7|by rewrite F1].
Qed.

Lemma set_taint_result m ptr t v b s r s' :
  wf_ptable (hs_objects s) -> hs_initialized s = true -> heap_set_taint_internal m ptr t v b s = (r, s') ->
  (r <> 0 /\ s' = s) \/
  (r = 0 /\ hs_next_ptr s' = hs_next_ptr s /\ hs_initialized s' = true /\ exists o,
     find_object s ptr = Some o /\ live o = true /\ obj_version o = v /\ (b = false -> obj_taint o <= t) /\
     forall q, find_object s' q = if ptr =? q then Some (put_taint t (now_object m) o) else find_object s q).
Proof.
  intros Hwf Hi. unfold heap_set_taint_internal.
  destruct (find_object s ptr) as [o|] eqn:Ef; [|intros [= <- <-]; by left].
  destruct (obj_deleted o) eqn:Ed; [intros [= <- <-]; by left|].
  destruct (Z.eqb_spec (obj_version o) v) as [Ev|]; cbn [negb]; [|intros [= <- <-]; by left].
  destruct (negb b && (t <? obj_taint o)) eqn:Et; [intros [= <- <-]; by left|].
  intros [= <- <-]. right. fields. split_and!; try done. exists o. unfold live. rewrite Ed. split_and!; try done.
  - intros ->. cbn in Et. lia.
  - intros q. eapply find_alter; try done.
Qed.

(** A later state of an object: a version names one value. *)
Definition evolves (o o' : ak_heap_object) : Prop :=
  obj_type_hash o' = obj_type_hash o /\ obj_version o <= obj_version o' /\ (obj_deleted o = true -> obj_deleted o' = true) /\
  (obj_version o' = obj_version o -> obj_value o' = obj_value o).

Definition sanitized (op : heap_op) (r : Z) (ptr : Z) : Prop := exists t v, op = OSanitize ptr t v /\ r = 0.

(** The compare-and-swap a call performed, if it succeeded. *)
Definition swapped (c : call) : option (Z * Z) :=
  match c with
  | (_, OWrite ptr _ v, r, _) | (_, ODelete ptr v, r, _) => if r =? 0 then Some (ptr, v) else None
  | _ => None
  end.

Record step_view (c : call) (s s' : ak_heap_state) : Prop := {
  sv_next : hs_next_ptr s <= hs_next_ptr s';
  sv_old : forall ptr o', find_object s' ptr = Some o' -> ptr < hs_next_ptr s ->
    exists o, find_object s ptr = Some o /\ evolves o o' /\ (obj_taint o' < obj_taint o -> sanitized c.1.1.2 c.1.2 ptr);
  sv_swap : forall ptr v, swapped c = Some (ptr, v) ->
    exists o o', find_object s ptr = Some o /\ obj_version o = v /\ find_object s' ptr = Some o' /\ obj_version o' = v + 1
}.

Lemma evolves_refl o : evolves o o.
Proof. unfold evolves. split_and!; (done || lia). Qed.

Lemma step_view_same c s s' :
  (forall q, find_object s' q = find_object s q) -> hs_next_ptr s <= hs_next_ptr s' -> swapped c = None -> step_view c s s'.
Proof.
  intros Hf Hp Hs. split; [done| |by rewrite Hs]. intros ptr o'. rewrite Hf. intros Ho _. exists o'.
  split_and!; [done|apply evolves_refl|lia].
Qed.

(** An update of one object. *)
Lemma step_view_update c s s' ptr o o1 :
  hs_next_ptr s' = hs_next_ptr s -> find_object s ptr = Some o ->
  (forall q, find_object s' q = if ptr =? q then Some o1 else find_object s q) ->
  evolves o o1 -> (obj_taint o1 < obj_taint o -> sanitized c.1.1.2 c.1.2 ptr) ->
  (forall p v, swapped c = Some (p, v) -> p = ptr /\ obj_version o = v /\ obj_version o1 = v + 1) -> step_view c s s'.
Proof.
  intros Hp Ho Hf He Ht Hs. split; [lia| |].
  - intros q o'. rewrite Hf. destruct (Z.eqb_spec ptr q) as [<-|]; [intros [= <-]; eauto|].
    intros Hq _. exists o'. split_and!; [done|apply evolves_refl|lia].
  - intros p v Hsw. destruct (Hs p v Hsw) as (-> & Hv & Hv'). exists o, o1. by rewrite Hf, Z.eqb_refl.
Qed.

Lemma alloc_refused m th x run t s s' : hs_next_ptr s <> 0 -> ak_heap_alloc m th x run t s = (0, s') -> s' = s.
Proof. intros Hp. unfold ak_heap_alloc. repeat case_match; intros [=]; done. Qed.

Lemma do_view P n m op s r s' :
  0 <= n /\ n + 2 < M64 -> heap_inv P n s -> heap_do m op s = Ret (r, s') -> step_view (m, op, r, s) s s'.
Proof.
  intros Hn Hinv Hdo. pose proof Hinv as (Hi & Ho & Hh). pose proof (oo_wf _ _ Ho) as Hwf. destruct op; cbn [heap_do] in Hdo.
  - injection Hdo as Hdo. destruct (Z.eq_dec r 0) as [->|Hr].
    + apply alloc_refused in Hdo as ->; [by apply step_view_same|]. pose proof (oo_next _ _ Ho). lia.
    + destruct (heap_alloc_result P n m s Hn Hinv _ _ _ _ _ _ Hdo Hr) as (Er & En & o & _ & _ & _ & _ & _ & Hf).
      split; [lia| |done]. intros p o'. rewrite Hf. destruct (Z.eqb_spec r p); [lia|]. intros Hp _. exists o'.
      split_and!; [done|apply evolves_refl|lia].
  - destruct (ak_heap_write m ptr patch expected_version s) as [[r' vo] s1] eqn:Ew. injection Hdo as <- <-.
    apply write_result in Ew as [[Hr ->]|(-> & Hp & _ & o & p & x & Hf & Hl & Hv & _ & _ & _ & _ & _ & Hall)]; [| |done..].
    + apply step_view_same; [done|lia|]. cbn. destruct (Z.eqb_spec r' 0); done.
    + pose proof (find_object_entry n s ptr o Ho Hf) as (_ & _ & _ & Hvb). eapply step_view_update; eauto.
      * unfold evolves. cbn [put_value obj_type_hash obj_version obj_deleted obj_value]. rewrite u64_small by lia. split_and!; (done || lia).
      * cbn. lia.
      * intros p' v' [= <- <-]. cbn [put_value obj_version]. rewrite u64_small by lia. split_and!; (done || lia).
  - injection Hdo as Hdo. apply delete_result in Hdo as [[Hr ->]|(-> & Hp & _ & o & Hf & Hl & Hv & Hall)]; [| |done..].
    + apply step_view_same; [done|lia|]. cbn. destruct (Z.eqb_spec r 0); done.
    + pose proof (find_object_entry n s ptr o Ho Hf) as (_ & _ & _ & Hvb). eapply step_view_update; eauto.
      * unfold evolves. cbn [put_deleted obj_type_hash obj_version obj_deleted obj_value]. rewrite u64_small by lia. split_and!; (done || lia).
      * cbn. lia.
      * intros p' v' [= <- <-]. cbn [put_deleted obj_version]. rewrite u64_small by lia. split_and!; (done || lia).
  - injection Hdo as Hdo. apply set_taint_result in Hdo as [[Hr ->]|(-> & Hp & _ & o & Hf & Hl & Hv & Ht & Hall)]; [| |done..].
    + by apply step_view_same.
    + eapply step_view_update; eauto; [unfold evolves; cbn; split_and!; (done || lia)| |done]. cbn. specialize (Ht eq_refl). lia.
  - injection Hdo as Hdo. apply set_taint_result in Hdo as [[Hr ->]|(-> & Hp & _ & o & Hf & Hl & Hv & Ht & Hall)]; [| |done..].
    + by apply step_view_same.
    + eapply step_view_update; eauto; [unfold evolves; cbn; split_and!; (done || lia)| |done]. intros _. cbn. unfold sanitized. eauto.
  - injection Hdo as <- <-. destruct (register_schema_frame m s type_hash schema_json) as [l ->]. by apply step_view_same.
  - destruct (purge_versions_ok P n _ s r s' ltac:(lia) Hh Hdo Hi) as (Es & _ & _).
    apply step_view_same; [|rewrite Es; fields; lia|done]. intros q. rewrite Es. done.
  - injection Hdo as Hdo. destruct (purge_tombstones_ok n m _ s r s' ltac:(lia) Ho Hi Hdo) as (Es & _ & _).
    split; [rewrite Es; fields; lia| |done]. intros p o'. rewrite Es. rewrite !find_object_table by done. fields.
    rewrite lookup_keep by done. destruct (table_lookup (hs_objects s) p) as [o|]; [|done].
    destruct (negb _); [|done]. intros [= ->] _. exists o'. split_and!; [done|apply evolves_refl|lia].
Qed.

(** ** Runs *)

Lemma heap_init_inv P s0 : hs_initialized s0 = false -> heap_inv P 0 (ak_heap_init s0).
Proof.
  intros Hi. unfold ak_heap_init. rewrite Hi. assert (Hcap : (0 < AK_HEAP_INITIAL_CAPACITY)%nat) by (unfold AK_HEAP_INITIAL_CAPACITY; lia).
  assert (Hnone : forall {E} (x : E), x ∉ entries (empty_table AK_HEAP_INITIAL_CAPACITY)).
  { intros E x (i & c & Hl & Hx)%entries_elem. unfold empty_table in Hl. apply lookup_replicate in Hl as [-> _]. by apply not_elem_of_nil in Hx. }
  split_and!; [done| |]; split; fields; rewrite ?total_empty; try done; try (by apply wf_empty_table); try lia; intros x Hx; by apply Hnone in Hx.
Qed.

Definition states (T : list call) (s : ak_heap_state) : list ak_heap_state := s :: map snd T.

(** [ptr] had the value [x] at version [v] in one of the states. *)
Definition was (S : list ak_heap_state) (ptr v : Z) (x : bytes) : Prop :=
  exists s0 o, s0 ∈ S /\ find_object s0 ptr = Some o /\ live o = true /\ obj_version o = v /\ obj_value o = x.

Lemma run_inv T s : hrun T s -> heap_inv (was (states T s)) (Z.of_nat (length T)) s.
Proof.
  induction 1 as [s0 Hi|T s m op r s' Hrun IH Hdo Hfit Hlen]; [by apply heap_init_inv|].
  assert (Hmono : forall p v x, was (states T s) p v x -> was (states ((m, op, r, s) :: T) s') p v x).
  { intros p v x (s0 & o & Hin & H). exists s0, o. split; [by right|done]. }
  destruct IH as (Hi & Ho & Hh).
  change (length ((m, op, r, s) :: T)) with (S (length T)). replace (Z.of_nat (S (length T))) with (Z.of_nat (length T) + 1) by lia.
  eapply (do_inv _ _ m s); [lia| |..|exact Hdo|exact Hfit|].
  - split_and!; [done|done|]. eapply history_ok_mono, Hh; (done || lia).
  - intros ptr o Hf Hl. exists s, o. split_and!; [|done..]. right. left.
  - intros ptr o Hf Hl. exists s', o. split_and!; [|done..]. left.
Qed.

Lemma run_view T s m op r s' :
  hrun T s -> heap_do m op s = Ret (r, s') -> Z.of_nat (length T) + 3 < M64 -> step_view (m, op, r, s) s s'.
Proof. intros Hrun Hdo Hlen. eapply (do_view _ (Z.of_nat (length T))); [lia|by apply run_inv|done]. Qed.

Lemma evolves_trans o1 o2 o3 : evolves o1 o2 -> evolves o2 o3 -> evolves o1 o3.
Proof.
  intros (Ht & Hv & Hd & Hx) (Ht' & Hv' & Hd' & Hx'). split; [congruence|]. split; [lia|]. split; [tauto|]. intros E.
  rewrite Hx', Hx; [done|lia|lia].
Qed.

(** The objects of earlier states precede those of the current one. *)
Lemma run_evolves T s s0 ptr o0 :
  hrun T s -> s0 ∈ states T s -> find_object s0 ptr = Some o0 ->
  ptr < hs_next_ptr s /\ forall o, find_object s ptr = Some o -> evolves o0 o.
Proof.
  intros Hrun. induction Hrun as [s1 Hi|T s m op r s' Hrun IH Hdo Hfit Hlen].
  - intros [->|Hin]%elem_of_cons Hf; [|by apply not_elem_of_nil in Hin].
    destruct (heap_init_inv (fun _ _ _ => True) s1 Hi) as (_ & Ho & _). apply (find_object_entry 0) in Hf as Hf'; [|done].
    split; [lia|]. intros o Ho'. assert (o = o0) by congruence. subst. apply evolves_refl.
  - pose proof (run_view _ _ _ _ _ _ Hrun Hdo Hlen) as [Hnext Hold _].
    intros [->|Hin]%elem_of_cons Hf.
    + pose proof (run_inv _ _ (hrun_step _ _ _ _ _ _ Hrun Hdo Hfit Hlen)) as (_ & Ho & _).
      eapply find_object_entry in Hf as Hf'; [|done]. split; [lia|]. intros o Ho'. assert (o = o0) by congruence. subst. apply evolves_refl.
    + change (s0 ∈ states T s) in Hin. destruct (IH Hin Hf) as [Hlt Hev]. split; [lia|]. intros o Ho'.
      destruct (Hold _ _ Ho' Hlt) as (o1 & Ho1 & Hev1 & _). eapply evolves_trans; eauto.
Qed.

Lemma run_versions T s ptr v x y : hrun T s -> was (states T s) ptr v x -> was (states T s) ptr v y -> x = y.
Proof.
  intros Hrun. revert x y. induction Hrun as [s1 Hi|T s m op r s' Hrun IH Hdo Hfit Hlen]; intros x y.
  - intros (a & o & Ha & Hfa & _ & _ & <-) (b & o' & Hb & Hfb & _ & _ & <-). unfold states in *. cbn in Ha, Hb.
    apply list_elem_of_singleton in Ha as ->, Hb as ->. congruence.
  - assert (Hnow : forall s0 o0 o', s0 ∈ states T s -> find_object s0 ptr = Some o0 -> find_object s' ptr = Some o' ->
      obj_version o0 = obj_version o' -> obj_value o0 = obj_value o').
    { intros s0 o0 o' Hin Hf0 Hf' Hv. destruct (run_evolves ((m, op, r, s) :: T) s' s0 ptr o0) as [_ Hev];
        [by econstructor|by right|done|]. symmetry. by apply (Hev o' Hf'). }
    intros (a & o & Ha & Hfa & Hla & Hva & <-) (b & o' & Hb & Hfb & Hlb & Hvb & <-).
    apply elem_of_cons in Ha as [->|Ha], Hb as [->|Hb]; change (map snd ((m, op, r, s) :: T)) with (states T s) in *.
    + congruence.
    + symmetry. apply (Hnow b); (done || congruence).
    + apply (Hnow a); (done || congruence).
    + apply IH; [exists a, o|exists b, o']; done.
Qed.

Lemma run_swaps T s :
  hrun T s -> NoDup (omap swapped T) /\
  forall ptr v, (ptr, v) ∈ omap swapped T -> ptr < hs_next_ptr s /\ forall o, find_object s ptr = Some o -> v < obj_version o.
Proof.
  induction 1 as [s1 Hi|T s m op r s' Hrun [IHnd IH] Hdo Hfit Hlen]; [split; [constructor|]; intros ptr v Hin; by apply not_elem_of_nil in Hin|].
  pose proof (run_view _ _ _ _ _ _ Hrun Hdo Hlen) as [Hnext Hold Hsw]. pose proof (run_inv _ _ Hrun) as (_ & Ho & _).
  assert (Hkeep : forall ptr v, (ptr, v) ∈ omap swapped T -> ptr < hs_next_ptr s' /\ forall o, find_object s' ptr = Some o -> v < obj_version o).
  { intros ptr v Hin. destruct (IH ptr v Hin) as [Hlt Hv]. split; [lia|]. intros o Hf.
    destruct (Hold _ _ Hf Hlt) as (o0 & Hf0 & (_ & Hle & _) & _). specialize (Hv _ Hf0). lia. }
  cbn [omap list_omap]. destruct (swapped (m, op, r, s)) as [[p v]|] eqn:Es; [|done].
  destruct (Hsw p v eq_refl) as (o & o' & Hf & Hv & Hf' & Hv'). split.
  - constructor; [|done]. intros Hin. destruct (IH p v Hin) as [_ Hlt]. specialize (Hlt o Hf). lia.
  - intros ptr v0 [[= -> ->]|Hin]%elem_of_cons; [|auto]. split; [|intros o1 Hf1; assert (o1 = o') by congruence; subst; lia].
    eapply find_object_entry in Hf as (_ & _ & Hb & _); [|done]. lia.
Qed.

(** ** Purges that keep a version leave no dangling link *)

Definition intact (s : ak_heap_state) : Prop := forall h, h ∈ entries (hs_history s) -> vh_end_freed h = false.

Lemma save_version_intact m ptr v x s : wf_ptable (hs_history s) -> intact s -> intact (save_version m ptr v x s).
Proof.
  intros Hwf Hi. unfold save_version.
  assert (Hput : forall t e c b, (forall h, h ∈ entries t -> vh_end_freed h = false) -> wf_ptable t ->
    intact (set_history (table_alter (put_entry e) t ptr) c b s)).
  { intros t e c b Ht Hwt h [Hh|(h0 & Hl & ->)]%entries_alter; [by apply Ht|]. apply table_lookup_spec in Hl as [Hl _]; [|done]. exact (Ht _ Hl). }
  destruct (find_history s ptr) eqn:Eh; [|destruct (al_hist m)].
  - destruct (_ || _); [done|]. by apply Hput.
  - assert (Hnew : forall h, h ∈ entries (table_push (hs_history s) ptr (mk_history ptr [] 0 false)) -> vh_end_freed h = false).
    { intros h Hh. apply entries_push in Hh as [->|Hh]; [done|by apply Hi|apply Hwf]. }
    destruct (_ || _); [done|]. apply Hput; [done|]. exact (wf_push (hs_history s) (mk_history ptr [] 0 false) Hwf Eh).
  - done.
Qed.

Lemma purge_total k t acc :
  (forall h, h ∈ entries t -> vh_end_freed h = false) -> exists x, purge_buckets k t acc = Ret x.
Proof.
  assert (Hc : forall c acc, (forall h, h ∈ c -> vh_end_freed h = false) -> exists x, purge_histories k c acc = Ret x).
  { induction c as [|h c IH]; intros [[bv vc] p] Hh; cbn [purge_histories]; [eauto|].
    assert (exists y, purge_history k h (bv, vc, p) = Ret y) as [[h' acc'] ->].
    { unfold purge_history. rewrite (Hh h) by left. destruct (negb _); [eauto|]. destruct (free_entries _ _) as [[[? ?] ?] ?]. eauto. }
    destruct (IH acc') as [[c' acc''] ->]; [intros; apply Hh; by right|eauto]. }
  revert acc. induction t as [|c t IH]; intros acc Hh; cbn [purge_buckets]; [eauto|].
  change (entries (c :: t)) with (c ++ entries t) in Hh.
  destruct (Hc c acc) as [[c' acc'] ->]; [intros; apply Hh, elem_of_app; by left|].
  destruct (IH acc') as [[t' acc''] ->]; [intros; apply Hh, elem_of_app; by right|eauto].
Qed.

(** A call that would free every version of a pointer. *)
Definition purges_all (c : call) : bool := match c.1.1.2 with OPurgeVersions k => k <=? 0 | _ => false end.

Lemma do_intact P n m op s r s' :
  n < M64 -> heap_inv P n s -> heap_do m op s = Ret (r, s') -> purges_all (m, op, r, s) = false -> intact s -> intact s'.
Proof.
  intros Hn (Hi & Ho & Hh) Hdo Hp Hint. pose proof (ho_wf _ _ _ Hh) as Hwf. pose proof (oo_wf _ _ Ho) as Hwo.
  destruct op; cbn [heap_do] in Hdo.
  - injection Hdo as Hdo. unfold ak_heap_alloc in Hdo. repeat case_match; injection Hdo as <- <-; try done; by apply save_version_intact.
  - destruct (ak_heap_write m ptr patch expected_version s) as [[r' vo] s1] eqn:Ew. injection Hdo as <- <-.
    apply write_result in Ew as [[_ ->]|(_ & _ & _ & o & p & x & _ & _ & _ & _ & _ & _ & _ & Eh & _)]; [done| |done..].
    unfold intact. rewrite Eh. by apply save_version_intact.
  - injection Hdo as Hdo. unfold ak_heap_delete in Hdo. repeat case_match; injection Hdo as <- <-; try done.
    unfold intact. fields. by apply save_version_intact.
  - injection Hdo as Hdo. unfold ak_heap_set_taint, heap_set_taint_internal in Hdo. repeat case_match; injection Hdo as <- <-; done.
  - injection Hdo as Hdo. unfold ak_heap_set_taint_sanitized, heap_set_taint_internal in Hdo. repeat case_match; injection Hdo as <- <-; done.
  - injection Hdo as <- <-. by destruct (register_schema_frame m s type_hash schema_json) as [l ->].
  - destruct (purge_versions_ok P n _ s r s' ltac:(lia) Hh Hdo Hi) as (Es & _ & _). rewrite Es. intros h Hin. fields_in Hin.
    rewrite entries_map in Hin. apply list_elem_of_fmap in Hin as (h0 & -> & Hh0). unfold cut.
    destruct (_ <? _); [|by apply Hint]. cbn [vh_end_freed]. cbn in Hp. destruct (Z.leb_spec keep_count 0); [done|].
    replace (Z.to_nat keep_count) with (S (Z.to_nat (keep_count - 1))) by lia. by destruct (vh_entries h0).
  - injection Hdo as Hdo. destruct (purge_tombstones_ok n m _ s r s' Hn Ho Hi Hdo) as (Es & _ & _). by rewrite Es.
Qed.

Lemma run_intact T s : hrun T s -> Forall (fun c => purges_all c = false) T -> intact s.
Proof.
  induction 1 as [s0 Hi|T s m op r s' Hrun IH Hdo Hfit Hlen].
  - intros _. pose proof (ho_entry _ _ _ (proj2 (proj2 (heap_init_inv (fun _ _ _ => False) s0 Hi)))) as He.
    unfold ak_heap_init in *. rewrite Hi in *. fields_in He. intros h (i & c & Hl & Hx)%entries_elem. fields_in Hl. unfold empty_table in Hl.
    apply lookup_replicate in Hl as [-> _]. by apply not_elem_of_nil in Hx.
  - intros [Hp HT]%Forall_cons. eapply (do_intact _ (Z.of_nat (length T))); [lia|by apply run_inv|..]; eauto.
Qed.

Lemma versions_loop_total l idx count : exists r, versions_loop l false idx count = Ret r.
Proof.
  revert idx. induction l as [|e l IH]; intros idx; cbn [versions_loop]; destruct (idx <? count); eauto.
  destruct (IH (idx + 1)) as [r ->]. cbn [obind]. eauto.
Qed.

Lemma version_walk_total l v : version_walk l false v <> Oob.
Proof. induction l as [|e l IH]; cbn; [done|]. by destruct (_ =? _). Qed.

(** ** Listings *)

Lemma count_matching_eq p t : total (fun _ => 1) t < M64 -> count_matching p t = Z.of_nat (length (List.filter p (entries t))).
Proof.
  assert (Hc : forall c n, 0 <= n -> n + Z.of_nat (length c) < M64 ->
    foldl (fun n o => if p o then u64 (n + 1) else n) n c = n + Z.of_nat (length (List.filter p c))).
  { induction c as [|o c IH]; intros n Hn Hb; cbn [foldl List.filter length] in *; [lia|].
    destruct (p o); cbn [length]; [rewrite u64_small by lia|]; rewrite IH; lia. }
  assert (Ht : forall t n, 0 <= n -> n + Z.of_nat (length (entries t)) < M64 ->
    foldl (fun n c => foldl (fun n o => if p o then u64 (n + 1) else n) n c) n t = n + Z.of_nat (length (List.filter p (entries t)))).
  { clear t. induction t as [|c t IH]; intros n Hn Hb; cbn [foldl]; [cbn; lia|].
    change (entries (c :: t)) with (c ++ entries t) in *. rewrite length_app in Hb. rewrite List.filter_app, length_app.
    pose proof (List.filter_length_le p c). rewrite Hc by lia. rewrite IH; lia. }
  unfold total. rewrite sum_by_one. intros Hb. unfold count_matching. rewrite Ht; lia.
Qed.

Lemma collect_chain_eq p count c acc :
  zlen acc + Z.of_nat (length (List.filter p c)) <= count -> collect_chain p count c acc = acc ++ map obj_ptr (List.filter p c).
Proof.
  unfold zlen. revert acc. induction c as [|o c IH]; intros acc Hb; cbn [collect_chain List.filter map] in *; [by rewrite app_nil_r|].
  unfold zlen. destruct (Z.ltb_spec (Z.of_nat (length acc)) count).
  - destruct (p o); cbn [length map] in *; rewrite IH; [by rewrite <-app_assoc|rewrite length_app; cbn [length]; lia|done|done].
  - destruct (p o); cbn [length map] in *; [lia|]. destruct (List.filter p c); [by rewrite app_nil_r|cbn [length] in Hb; lia].
Qed.

Lemma collect_eq p count t acc :
  zlen acc + Z.of_nat (length (List.filter p (entries t))) <= count ->
  collect p count t acc = acc ++ map obj_ptr (List.filter p (entries t)).
Proof.
  revert acc. induction t as [|c t IH]; intros acc Hb; cbn [collect]; [by rewrite app_nil_r|].
  change (entries (c :: t)) with (c ++ entries t) in *. rewrite List.filter_app, length_app in Hb. rewrite List.filter_app, map_app.
  destruct (Z.ltb_spec (zlen acc) count).
  - rewrite collect_chain_eq by lia. rewrite IH; [by rewrite <-app_assoc|]. unfold zlen in *. rewrite length_app, length_map. lia.
  - unfold zlen in *. destruct (List.filter p c); [|cbn [length] in Hb; lia].
    destruct (List.filter p (entries t)); [by rewrite app_nil_r|cbn [length] in Hb; lia].
Qed.

Lemma list_matching_eq p s :
  total (fun _ => 1) (hs_objects s) <= UINT64_LAST / 8 ->
  list_matching true p s =
  match List.filter p (entries (hs_objects s)) with
  | [] => (None, 0)
  | l => (Some (map obj_ptr l), Z.of_nat (length l))
  end.
Proof.
  intros Hb. unfold list_matching. assert (UINT64_LAST / 8 < M64) by (vm_compute; done). rewrite count_matching_eq by lia.
  pose proof (List.filter_length_le p (entries (hs_objects s))) as Hle. unfold total in Hb. rewrite sum_by_one in Hb.
  rewrite collect_eq by (unfold zlen; cbn [length]; lia). cbn [app negb]. unfold zlen. rewrite length_map.
  destruct (List.filter p (entries (hs_objects s))) as [|o l]; [done|].
  destruct (Z.eqb_spec (Z.of_nat (length (o :: l))) 0); [cbn [length] in *; lia|].
  destruct (Z.ltb_spec (UINT64_LAST / 8) (Z.of_nat (length (o :: l)))); [lia|done].
Qed.

(** ** Executable runs *)

Definition fitsb (s : ak_heap_state) : bool :=
  (total obj_bytes (hs_objects s) <? M64) && (total hist_bytes (hs_history s) <? M64).

Fixpoint run_ops (ops : list (sys * heap_op)) (T : list call) (s : ak_heap_state) : option (list call * ak_heap_state) :=
  match ops with
  | [] => Some (T, s)
  | (m, op) :: ops' =>
      match heap_do m op s with
      | Ret (r, s') => if fitsb s' && (Z.of_nat (length T) + 3 <? M64) then run_ops ops' ((m, op, r, s) :: T) s' else None
      | _ => None
      end
  end.

Lemma run_ops_sound ops T s T' s' : hrun T s -> run_ops ops T s = Some (T', s') -> hrun T' s'.
Proof.
  revert T s. induction ops as [|[m op] ops IH]; intros T s Hrun; cbn [run_ops]; [by intros [= <- <-]|].
  destruct (heap_do m op s) as [[r s1]| |] eqn:Ed; try done. destruct (fitsb s1) eqn:Ef; [|done].
  destruct (Z.ltb_spec (Z.of_nat (length T) + 3) M64); [|done]. cbn [andb]. apply IH. econstructor; eauto.
  unfold fitsb in Ef. apply andb_true_iff in Ef as [E1 E2]. split; lia.
Qed.

Definition blank : ak_heap_state := mk_heap [] 0 0 0 [] 0 [] 0 0 false.
Definition calm : sys := mk_sys true true true true true true (fun _ => true) 7 9.
Definition from_blank (ops : list heap_op) : option (list call * ak_heap_state) :=
  run_ops (map (fun op => (calm, op)) ops) [] (ak_heap_init blank).

Lemma from_blank_sound ops T s : from_blank ops = Some (T, s) -> hrun T s.
Proof. apply run_ops_sound. by apply hrun_init. Qed.

(** Two objects; writes that race for one version; a deletion; a purge. *)
Definition demo_ops : list heap_op :=
  [OAlloc 1 JQ"{'a':1}" None 10;
   OAlloc 2 JQ"[]" None 0;
   OWrite 1 (Some JQ"[{'op':'replace','path':'/a','value':2}]") 1;
   OWrite 1 (Some JQ"[{'op':'replace','path':'/a','value':3}]") 1;
   OSetTaint 1 100 2;
   ODelete 2 1;
   OSanitize 1 14 2;
   OPurgeVersions 1].

Lemma demo_runs : exists T s, from_blank demo_ops = Some (T, s).
Proof.
  destruct (from_blank demo_ops) as [[T s]|] eqn:E; [eauto|].
  assert (Hc : match from_blank demo_ops with Some _ => true | None => false end = true) by (vm_compute; reflexivity). by rewrite E in Hc.
Qed.

(** ** Properties *)

(** A fact about the demonstration run, computed. *)
Ltac demo_fact H E f :=
  assert (H : match from_blank demo_ops with Some (T, s) => f T s | None => false end = true) by (vm_compute; reflexivity);
  rewrite E in H; clear E.

(** After any run from initialisation the statistics of the heap are exact:
    numbers of objects, tombstones and recorded versions and the bytes of both
    are those of the tables; every object is found under its pointer, which
    is not 0 and below the next pointer to be handed out. *)
Theorem heap_accounting T s :
  hrun T s ->
  ak_heap_get_stats s =
    (Z.of_nat (length (entries (hs_objects s))), Z.of_nat (length (List.filter obj_deleted (entries (hs_objects s)))),
     sum_by hist_len (entries (hs_history s)), sum_by obj_bytes (entries (hs_objects s)), sum_by hist_bytes (entries (hs_history s))) /\
  (forall o, o ∈ entries (hs_objects s) -> 1 <= obj_ptr o < hs_next_ptr s /\ find_object s (obj_ptr o) = Some o) /\
  (forall h, h ∈ entries (hs_history s) -> 1 <= vh_ptr h < hs_next_ptr s /\ vh_count h = Z.of_nat (length (vh_entries h))).
Proof.
  intros Hrun. destruct (run_inv _ _ Hrun) as (Hi & Ho & Hh). split_and!.
  - unfold ak_heap_get_stats. rewrite (oo_count _ _ Ho), (oo_deleted _ _ Ho), (oo_bytes _ _ Ho), (ho_count _ _ _ Hh), (ho_bytes _ _ _ Hh).
    unfold total. rewrite sum_by_one, <-(sum_by_one (List.filter _ _)), sum_by_filter. done.
  - intros o Hin. split; [by apply (oo_entry _ _ Ho)|]. rewrite find_object_table by done. apply table_lookup_spec; [apply Ho|done].
  - intros h Hin. by destruct (ho_entry _ _ _ Hh h Hin) as (? & ? & _).
Qed.

Lemma heap_accounting_witness : exists T s, hrun T s /\ ak_heap_get_stats s = (2, 1, 2, 9, 9).
Proof.
  destruct demo_runs as (T & s & E). exists T, s. split; [by eapply from_blank_sound|].
  rewrite (proj1 (heap_accounting T s (from_blank_sound _ _ _ E))).
  demo_fact H E (fun (T : list call) s => bool_decide
    ((Z.of_nat (length (entries (hs_objects s))), Z.of_nat (length (List.filter obj_deleted (entries (hs_objects s)))),
     sum_by hist_len (entries (hs_history s)), sum_by obj_bytes (entries (hs_objects s)), sum_by hist_bytes (entries (hs_history s)))
     = (2, 1, 2, 9, 9))).
  by apply bool_decide_eq_true in H.
Defined.

(** C19: Over any run of allocations, writes, deletions, changes of taint,
    registrations and purges, the calls a transaction makes at its commit
    included, no two writes or deletions that name the same object and
    the same expected version both succeed: an update based on a stale read is
    refused.  (Restoring a snapshot is not an operation of a run; it puts old
    versions back.) *)
Theorem no_lost_update T s : hrun T s -> NoDup (omap swapped T).
Proof. apply run_swaps. Qed.

Lemma no_lost_update_witness : exists T s, hrun T s /\ NoDup (omap swapped T) /\ omap swapped T = [(2, 1); (1, 1)].
Proof.
  destruct demo_runs as (T & s & E). pose proof (from_blank_sound _ _ _ E) as Hrun. exists T, s.
  split_and!; [done|exact (no_lost_update T s Hrun)|].
  demo_fact H E (fun (T : list call) (s : ak_heap_state) => bool_decide (omap swapped T = [(2, 1); (1, 1)])).
  by apply bool_decide_eq_true in H.
Defined.

(** A version read back from the history is the value the object had at that
    version: some earlier state held it, live, under that version, and every
    state of the run in which the object is live at that version holds
    this value. *)
Theorem version_history_faithful T s m ptr v x :
  hrun T s -> ak_heap_read_version m ptr v s = Ret (0, Some x) ->
  was (states T s) ptr v x /\ forall y, was (states T s) ptr v y -> y = x.
Proof.
  intros Hrun. destruct (run_inv _ _ Hrun) as (Hi & Ho & Hh). unfold ak_heap_read_version.
  destruct (find_history s ptr) as [h|] eqn:Ef; [|done].
  apply table_lookup_spec in Ef as [Hin Hp]; [|apply Hh]. destruct (ho_entry _ _ _ Hh h Hin) as (_ & _ & Hall).
  assert (Hwalk : forall l b e, version_walk l b v = Ret e -> e ∈ l /\ ve_version e = v).
  { induction l as [|e0 l IH]; intros b e; cbn; [by destruct b|]. destruct (Z.eqb_spec (ve_version e0) v).
    - intros [= <-]. split; [left|done].
    - intros Hw. destruct (IH _ _ Hw). split; [by right|done]. }
  destruct (version_walk _ _ v) as [e| |] eqn:Ew; [|done..]. destruct (al_copy m); [|done]. intros [= <-].
  destruct (Hwalk _ _ _ Ew) as [He <-]. specialize (Hall e He). change (vh_ptr h) with (ptr_of h) in Hall. rewrite Hp in Hall.
  split; [done|]. intros y Hy. by eapply run_versions.
Qed.

Lemma version_history_faithful_witness :
  exists T s, hrun T s /\ ak_heap_read_version calm 1 1 s = Ret (0, Some JQ"{'a':1}") /\ was (states T s) 1 1 JQ"{'a':1}".
Proof.
  destruct demo_runs as (T & s & E). pose proof (from_blank_sound _ _ _ E) as Hrun. exists T, s.
  assert (Hread : ak_heap_read_version calm 1 1 s = Ret (0, Some JQ"{'a':1}")).
  { demo_fact H E (fun (T : list call) s =>
      match ak_heap_read_version calm 1 1 s with Ret (0, Some x) => bytes_eqb x JQ"{'a':1}" | _ => false end).
    destruct (ak_heap_read_version calm 1 1 s) as [[[| |] [x|]]| |]; try done. apply bytes_eqb_eq in H. by subst. }
  split_and!; [done..|]. exact (proj1 (version_history_faithful T s calm 1 1 _ Hrun Hread)).
Defined.

(** C26: Between two states of a run of these operations (restores of snapshots
    left out) the taint of an object falls only if a call to the sanitizer entry
    point for that object succeeded in between. *)
Theorem taint_falls_only_by_sanitizer T1 T2 c s ptr o o' :
  hrun (T2 ++ c :: T1) s -> find_object c.2 ptr = Some o -> find_object s ptr = Some o' -> obj_taint o' < obj_taint o ->
  exists c', c' ∈ T2 ++ [c] /\ sanitized c'.1.1.2 c'.1.2 ptr.
Proof.
  revert s o'. induction T2 as [|[[[m op] r] s1] T2 IH]; intros s o' Hrun Hf Hf' Ht; cbn [app] in *.
  - inversion Hrun as [|T s1 m op r s' Hrun' Hdo Hfit Hlen]; subst. cbn in Hf.
    destruct (run_view _ _ _ _ _ _ Hrun' Hdo Hlen) as [_ Hold _]. pose proof (run_inv _ _ Hrun') as (_ & Ho & _).
    eapply find_object_entry in Hf as Hb; [|done]. destruct (Hold ptr o' Hf' ltac:(lia)) as (o1 & Ho1 & _ & Hs).
    assert (o1 = o) by congruence. subst. eexists. split; [left|]. by apply Hs.
  - inversion Hrun as [|T s2 m' op' r' s' Hrun' Hdo Hfit Hlen]; subst.
    destruct (run_view _ _ _ _ _ _ Hrun' Hdo Hlen) as [_ Hold _].
    assert (Hin : c.2 ∈ states (T2 ++ c :: T1) s1).
    { right. apply list_elem_of_fmap. exists c. split; [done|]. apply elem_of_app. right. left. }
    destruct (run_evolves _ _ _ _ _ Hrun' Hin Hf) as [Hlt _].
    destruct (Hold ptr o' Hf' Hlt) as (o1 & Ho1 & _ & Hs). destruct (Z.lt_ge_cases (obj_taint o') (obj_taint o1)).
    + eexists. split; [left|]. by apply Hs.
    + destruct (IH s1 o1 Hrun' Hf Ho1 ltac:(lia)) as (c' & Hc & Hsan). exists c'. split; [by right|done].
Qed.

Lemma taint_falls_only_by_sanitizer_witness :
  exists T1 T2 c s o o', hrun (T2 ++ c :: T1) s /\ find_object c.2 1 = Some o /\ find_object s 1 = Some o' /\
    obj_taint o = 100 /\ obj_taint o' = 14 /\ exists c', c' ∈ T2 ++ [c] /\ sanitized c'.1.1.2 c'.1.2 1.
Proof.
  destruct demo_runs as (T & s & E). pose proof (from_blank_sound _ _ _ E) as Hrun.
  demo_fact H E (fun (T : list call) s => match T with
    | _ :: _ :: c :: _ => match find_object c.2 1, find_object s 1 with
                          | Some o, Some o' => (obj_taint o =? 100) && (obj_taint o' =? 14)
                          | _, _ => false end
    | _ => false end).
  destruct T as [|c1 [|c2 [|c T1]]]; try done.
  destruct (find_object c.2 1) as [o|] eqn:Eo, (find_object s 1) as [o'|] eqn:Eo'; try done.
  apply andb_true_iff in H as [H1 H2]. exists T1, [c1; c2], c, s, o, o'. split_and!; try done; [lia|lia|].
  apply (taint_falls_only_by_sanitizer T1 [c1; c2] c s 1 o o'); (done || lia).
Defined.

(** The entry just recorded is the one read back. *)
Lemma saved_version_found m ptr v x s :
  wf_ptable (hs_history s) -> al_hist m = true -> al_entry m = true -> al_copy m = true ->
  exists h, find_history (save_version m ptr v x s) ptr = Some h /\ exists l, vh_entries h = mk_version v (now_version m) x :: l.
Proof.
  intros Hwf Hh He Hc. unfold save_version, find_history. rewrite Hh, He, Hc. cbn [negb orb].
  destruct (table_lookup (hs_history s) ptr) as [h|] eqn:Ef; fields.
  - rewrite lookup_alter_table by done. rewrite Z.eqb_refl, Ef. eexists. split; [done|]. cbn. eauto.
  - pose proof (wf_push (hs_history s) (mk_history ptr [] 0 false) Hwf Ef) as Hwf'.
    pose proof (lookup_push (hs_history s) (mk_history ptr [] 0 false) ptr Hwf Ef) as Hl.
    change (ptr_of (mk_history ptr [] 0 false)) with ptr in *. rewrite Z.eqb_refl in Hl.
    rewrite lookup_alter_table by done. rewrite Z.eqb_refl, Hl. eexists. split; [done|]. cbn. eauto.
Qed.

(** A write is a compare-and-swap.  It succeeds exactly when the object is
    live at the expected version, the patch applies to its value and the result
    passes the schema of its type; then a read gives the patched
    value with the next version and the same taint, the replaced value
    can be read from the history (memory permitting), and every other object reads
    as before.  A refused write changes nothing and its code tells a
    missing object, a version conflict and an inapplicable patch apart. *)
Theorem write_is_compare_and_swap T s m ptr patch v r vo s' :
  hrun T s -> Z.of_nat (length T) + 3 < M64 -> ak_heap_write m ptr (Some patch) v s = (r, vo, s') ->
  match ak_heap_read calm ptr true s with
  | (0, Some (Some old, version, taint)) =>
      if negb (version =? v) then r = AK_E_CONFLICT /\ vo = None /\ s' = s
      else match ak_json_patch_apply (al_doc m) (al_patch m) old patch, find_object s ptr with
           | Some new, Some o =>
               if ak_heap_validate_schema s (obj_type_hash o) (Some new) then
                 r = 0 /\ vo = Some (v + 1) /\
                 ak_heap_read calm ptr true s' = (0, Some (Some new, v + 1, taint)) /\
                 (al_hist m = true -> al_entry m = true -> al_copy m = true -> ak_heap_read_version calm ptr v s' = Ret (0, Some old)) /\
                 forall q, q <> ptr -> find_object s' q = find_object s q
               else r = AK_E_SCHEMA_INVALID /\ vo = None /\ s' = s
           | _, _ => r = AK_E_SCHEMA_INVALID /\ vo = None /\ s' = s
           end
  | _ => r = - ENOENT /\ vo = None /\ s' = s
  end.
Proof.
  intros Hrun Hlen Hw. destruct (run_inv _ _ Hrun) as (Hi & Ho & Hh). pose proof (oo_wf _ _ Ho) as Hwf.
  pose proof (write_result _ _ _ _ _ _ _ _ Hwf Hi Hw) as Hres. unfold ak_heap_read, ak_heap_write in *. rewrite Hi in *. cbn [negb] in *.
  destruct (find_object s ptr) as [o|] eqn:Ef; [|by injection Hw as <- <- <-].
  destruct (obj_deleted o) eqn:Ed; [by injection Hw as <- <- <-|]. cbn [al_copy calm negb andb].
  destruct (Z.eqb_spec (obj_version o) v) as [Ev|]; cbn [negb] in *; [|by injection Hw as <- <- <-].
  destruct (ak_json_patch_apply _ _ _ _) as [x|] eqn:Ea; [|by injection Hw as <- <- <-].
  destruct (ak_heap_validate_schema s (obj_type_hash o) (Some x)) eqn:Es; cbn [negb] in *; [|by injection Hw as <- <- <-].
  destruct Hres as [[Hr _]|(-> & Hp & Hi' & o1 & p1 & x1 & Ho1 & _ & Hv & [= <-] & Ha & _ & -> & Ehist & Hall)]; [by injection Hw as <- _ _|].
  assert (o1 = o) by congruence. subst o1. assert (x1 = x) by congruence. subst x1.
  pose proof (find_object_entry _ s ptr o Ho Ef) as (_ & _ & _ & Hvb). rewrite u64_small by lia. split_and!; try done.
  - rewrite Hi'. cbn [negb]. rewrite Hall, Z.eqb_refl. cbn [put_value obj_deleted obj_value obj_version obj_taint]. rewrite Ed, Hv.
    rewrite u64_small by lia. done.
  - intros Hm1 Hm2 Hm3. unfold ak_heap_read_version. destruct (saved_version_found m ptr v (obj_value o) s (ho_wf _ _ _ Hh) Hm1 Hm2 Hm3) as (h & Hfh & l & El).
    unfold find_history in *. rewrite Ehist, Hfh, El. cbn [version_walk ve_version]. by rewrite Z.eqb_refl.
  - intros q Hq. rewrite Hall. destruct (Z.eqb_spec ptr q); [congruence|done].
Qed.

Lemma write_is_compare_and_swap_witness :
  exists T s r vo s', hrun T s /\ ak_heap_write calm 1 (Some JQ"[{'op':'replace','path':'/a','value':7}]") 2 s = (r, vo, s') /\
    r = 0 /\ vo = Some 3 /\ ak_heap_read calm 1 true s' = (0, Some (Some JQ"{'a':7}", 3, 14)) /\
    ak_heap_read_version calm 1 2 s' = Ret (0, Some JQ"{'a':2}").
Proof.
  destruct demo_runs as (T & s & E). pose proof (from_blank_sound _ _ _ E) as Hrun. exists T, s.
  set (patch := JQ"[{'op':'replace','path':'/a','value':7}]").
  destruct (ak_heap_write calm 1 (Some patch) 2 s) as [[r vo] s'] eqn:Ew. exists r, vo, s'. split; [done|]. split; [done|].
  assert (Hlen : (length T < 100)%nat) by (demo_fact H E (fun (T : list call) (s : ak_heap_state) => Nat.ltb (length T) 100); by apply Nat.ltb_lt).
  pose proof (write_is_compare_and_swap T s calm 1 patch 2 r vo s' Hrun ltac:(lia) Ew) as Hspec.
  assert (Hr : ak_heap_read calm 1 true s = (0, Some (Some JQ"{'a':2}", 2, 14))).
  { demo_fact H E (fun (T : list call) (s : ak_heap_state) => bool_decide (ak_heap_read calm 1 true s = (0, Some (Some JQ"{'a':2}", 2, 14)))).
    by apply bool_decide_eq_true in H. }
  assert (Ho : exists o, find_object s 1 = Some o /\ ak_heap_validate_schema s (obj_type_hash o) (Some JQ"{'a':7}") = true).
  { demo_fact H E (fun (T : list call) (s : ak_heap_state) => match find_object s 1 with
      | Some o => ak_heap_validate_schema s (obj_type_hash o) (Some JQ"{'a':7}") | None => false end).
    destruct (find_object s 1) as [o|]; [|done]. eauto. }
  destruct Ho as (o & Ho & Hsc). rewrite Hr, Ho in Hspec. change (2 =? 2) with true in Hspec. cbn [negb] in Hspec.
  assert (Ha : ak_json_patch_apply (al_doc calm) (al_patch calm) JQ"{'a':2}" patch = Some JQ"{'a':7}") by (vm_compute; reflexivity).
  rewrite Ha, Hsc in Hspec. destruct Hspec as (-> & -> & Hread & Hver & _). split_and!; auto.
Defined.

(** Unless a purge was asked to keep no version at all, no link of the
    version history ever points to a freed entry: every later operation,
    version read and version listing returns. *)
Theorem purge_is_memory_safe T s m op ptr v al :
  hrun T s -> Forall (fun c => purges_all c = false) T ->
  (exists r s', heap_do m op s = Ret (r, s')) /\
  (exists r, ak_heap_read_version m ptr v s = Ret r) /\
  (exists r, ak_heap_list_versions al ptr s = Ret r).
Proof.
  intros Hrun HT. pose proof (run_intact _ _ Hrun HT) as Hint. destruct (run_inv _ _ Hrun) as (Hi & Ho & Hh).
  assert (Hfind : forall h, find_history s ptr = Some h -> vh_end_freed h = false).
  { intros h Hf. apply table_lookup_spec in Hf as [Hin _]; [|apply Hh]. by apply Hint. }
  split_and!.
  - destruct op; cbn [heap_do]; eauto.
    + destruct (ak_heap_alloc m _ _ _ _ s). eauto.
    + destruct (ak_heap_write m _ _ _ s) as [[? ?] ?]. eauto.
    + destruct (ak_heap_delete m _ _ s). eauto.
    + destruct (ak_heap_set_taint m _ _ _ s). eauto.
    + destruct (ak_heap_set_taint_sanitized m _ _ _ s). eauto.
    + unfold ak_heap_purge_versions. destruct (negb _); [eauto|].
      destruct (purge_total keep_count (hs_history s) (hs_bytes_versions s, hs_version_count s, 0) Hint) as [[t [[bv vc] p]] ->]. eauto.
    + destruct (ak_heap_purge_tombstones m _ s). eauto.
  - unfold ak_heap_read_version. destruct (find_history s ptr) as [h|] eqn:Ef; [|eauto]. rewrite (Hfind h eq_refl).
    pose proof (version_walk_total (vh_entries h) v). destruct (version_walk _ _ v); [|eauto|done]. destruct (negb _); eauto.
  - unfold ak_heap_list_versions. destruct (find_history s ptr) as [h|] eqn:Ef; [|eauto]. rewrite (Hfind h eq_refl).
    destruct (_ =? 0); [eauto|]. destruct (_ <? _); [eauto|]. destruct (negb al); [eauto|].
    destruct (versions_loop_total (vh_entries h) 0 (vh_count h)) as [l ->]. cbn [obind]. eauto.
Qed.

Lemma purge_is_memory_safe_witness :
  exists T s, hrun T s /\ Forall (fun c => purges_all c = false) T /\
    (exists r, ak_heap_list_versions true 1 s = Ret r) /\ ak_heap_list_versions true 1 s = Ret (Some [1], 1).
Proof.
  destruct demo_runs as (T & s & E). pose proof (from_blank_sound _ _ _ E) as Hrun. exists T, s.
  assert (HT : Forall (fun c => purges_all c = false) T /\ ak_heap_list_versions true 1 s = Ret (Some [1], 1)).
  { demo_fact H E (fun (T : list call) (s : ak_heap_state) => forallb (fun c => negb (purges_all c)) T &&
      match ak_heap_list_versions true 1 s with Ret r => bool_decide (r = (Some [1], 1)) | _ => false end).
    apply andb_true_iff in H as [H1 H2]. split.
    - apply list.Forall_forall. intros c Hc. rewrite forallb_forall in H1. apply list_elem_of_In in Hc. specialize (H1 c Hc). by destruct (purges_all c).
    - destruct (ak_heap_list_versions true 1 s) as [r| |]; [|done..]. apply bool_decide_eq_true in H2. by subst. }
  split_and!; [done|apply HT| |apply HT].
  exact (proj2 (proj2 (purge_is_memory_safe T s calm (OPurgeVersions 1) 1 1 true Hrun (proj1 HT)))).
Defined.

(** A purge that keeps nothing frees every entry of a history and leaves the
    history pointing at the first of them. *)
Lemma purge_all_dangles :
  exists T s, from_blank [OAlloc 1 JQ"{}" None 0; OPurgeVersions 0] = Some (T, s) /\ ak_heap_read_version calm 1 1 s = Oob.
Proof.
  destruct (from_blank [OAlloc 1 JQ"{}" None 0; OPurgeVersions 0]) as [[T s]|] eqn:E.
  - exists T, s. split; [done|].
    assert (H : match from_blank [OAlloc 1 JQ"{}" None 0; OPurgeVersions 0] with
      Some (T, s) => match ak_heap_read_version calm 1 1 s with Oob => true | _ => false end | None => false end = true) by (vm_compute; reflexivity).
    rewrite E in H. clear E. by destruct (ak_heap_read_version calm 1 1 s).
  - assert (H : match from_blank [OAlloc 1 JQ"{}" None 0; OPurgeVersions 0] with Some _ => true | None => false end = true) by (vm_compute; reflexivity).
    by rewrite E in H.
Qed.

(** Both listings return each live object of the type (of the run) exactly
    once and nothing else; with no such object they return NULL and 0. *)
Theorem listing_exact T s th run :
  hrun T s -> Z.of_nat (length T) <= UINT64_LAST / 8 ->
  (exists l, ak_heap_list_by_type true th s = (match l with [] => None | _ => Some l end, Some (Z.of_nat (length l))) /\ NoDup l /\
    forall p, p ∈ l <-> exists o, find_object s p = Some o /\ live o = true /\ obj_type_hash o = th) /\
  (exists l, ak_heap_list_by_run true (Some run) s = (match l with [] => None | _ => Some l end, Some (Z.of_nat (length l))) /\ NoDup l /\
    forall p, p ∈ l <-> exists o, find_object s p = Some o /\ live o = true /\ obj_owner_run_id o = take AK_TOKEN_ID_SIZE run).
Proof.
  intros Hrun Hb. destruct (run_inv _ _ Hrun) as (Hi & Ho & Hh). pose proof (oo_bound _ _ Ho).
  assert (Hgen : forall p, exists l, list_matching true p s = (match l with [] => None | _ => Some l end, Z.of_nat (length l)) /\ NoDup l /\
    forall q, q ∈ l <-> exists o, find_object s q = Some o /\ p o = true).
  { intros p. exists (map obj_ptr (List.filter p (entries (hs_objects s)))). rewrite list_matching_eq by lia. split_and!.
    - destruct (List.filter p _) as [|o l]; [done|]. by rewrite length_map.
    - rewrite <-entries_keep. by apply nodup_entries, wf_keep, Ho.
    - intros q. rewrite list_elem_of_fmap. split.
      + intros (o & -> & [Hin Hp]%filter_elem). exists o. split; [|done]. rewrite find_object_table by done. apply table_lookup_spec; [apply Ho|done].
      + intros (o & Hf & Hp). rewrite find_object_table in Hf by done. apply table_lookup_spec in Hf as [Hin Hq]; [|apply Ho].
        exists o. split; [done|]. by apply filter_elem. }
  unfold ak_heap_list_by_type, ak_heap_list_by_run. rewrite Hi. cbn [negb]. split.
  - destruct (Hgen (fun o => (obj_type_hash o =? th) && live o)) as (l & -> & Hnd & Hl). exists l. split_and!; [done..|].
    intros p. rewrite Hl. split; intros (o & Hf & Hp); exists o; (split; [done|]).
    + apply andb_true_iff in Hp as [Hp1 Hp2]. split; [done|lia].
    + destruct Hp as [Hp1 Hp2]. rewrite Hp1. lia.
  - destruct (Hgen (fun o => live o && bytes_eqb (obj_owner_run_id o) (take AK_TOKEN_ID_SIZE run))) as (l & -> & Hnd & Hl).
    exists l. split_and!; [done..|]. intros p. rewrite Hl. split; intros (o & Hf & Hp); exists o; (split; [done|]).
    + apply andb_true_iff in Hp as [Hp1 Hp2]. by apply bytes_eqb_eq in Hp2.
    + destruct Hp as [Hp1 Hp2]. apply andb_true_iff. by rewrite bytes_eqb_eq.
Qed.

Lemma listing_exact_witness :
  exists T s l, hrun T s /\ ak_heap_list_by_type true 1 s = (match l with [] => None | _ => Some l end, Some (Z.of_nat (length l))) /\
    NoDup l /\ ak_heap_list_by_type true 1 s = (Some [1], Some 1).
Proof.
  destruct demo_runs as (T & s & E). pose proof (from_blank_sound _ _ _ E) as Hrun. exists T, s.
  assert (H : (length T < 100)%nat /\ ak_heap_list_by_type true 1 s = (Some [1], Some 1)).
  { demo_fact H E (fun (T : list call) (s : ak_heap_state) => Nat.ltb (length T) 100 && bool_decide (ak_heap_list_by_type true 1 s = (Some [1], Some 1))).
    apply andb_true_iff in H as [H1 H2]. apply bool_decide_eq_true in H2. by apply Nat.ltb_lt in H1. }
  destruct H as [Hlen Hl]. assert (Hb : Z.of_nat (length T) <= UINT64_LAST / 8) by (change (UINT64_LAST / 8) with 2305843009213693951; lia).
  destruct (proj1 (listing_exact T s 1 [] Hrun Hb)) as (l & Hl1 & Hnd & _). exists l. by split_and!.
Defined.
