(* ===== verification/HeapTxn.v ===== *)
(** * Heap transactions ([src/src/agentic/ak_heap.c])

    A transaction buffers allocations, writes and deletions; the commit checks
    every buffered operation against the heap and then applies them in order.
    The heap lock is held inside each of these steps and not between them, so
    what other threads do there is an argument of the commit.  When the
    operations name different objects which the other threads leave alone, a
    commit applies nothing or every operation that applies; the last lemmas show
    what happens otherwise. *)

From S2P Require Import Prelude Crypto Policy JsonText JsonPatch PtrTable Heap HeapRun.

(** ** Data and operations *)

(** The value of an operation is [None] when its copy could not be allocated. *)
Inductive ak_txn_op :=
| TXN_OP_ALLOC (ptr type_hash : Z) (value : option bytes) (taint : Z) (run_id : bytes)
| TXN_OP_WRITE (ptr : Z) (value : option bytes) (expected_version : Z)
| TXN_OP_DELETE (ptr expected_version : Z).

Record ak_heap_txn := mk_txn {
  tx_ops : list ak_txn_op;
  tx_op_count : Z;
  tx_active : bool
}.

Definition ak_heap_txn_begin (al : bool) (s : ak_heap_state) : option ak_heap_txn :=
  if negb (hs_initialized s) then None else if negb al then None else Some (mk_txn [] 0 true).

Definition txn_add_op (txn : ak_heap_txn) (op : ak_txn_op) : ak_heap_txn :=
  mk_txn (tx_ops txn ++ [op]) (u64 (tx_op_count txn + 1)) (tx_active txn).

Definition ak_heap_txn_alloc (m : sys) (txn : option ak_heap_txn) (type_hash : Z) (value : bytes) (run_id : option bytes) (taint : Z) (s : ak_heap_state) : Z * option ak_heap_txn :=
  match txn with
  | None => (0, None)
  | Some t =>
      if negb (tx_active t) then (0, Some t)
      else if negb (al_obj m) then (0, Some t)
      else
        let ptr := u64 (hs_next_ptr s + tx_op_count t) in
        let run := match run_id with Some r => take AK_TOKEN_ID_SIZE r | None => zeros AK_TOKEN_ID_SIZE end in
        (ptr, Some (txn_add_op t (TXN_OP_ALLOC ptr type_hash (if al_value m then Some value else None) taint run)))
  end.

Definition ak_heap_txn_write (m : sys) (txn : option ak_heap_txn) (ptr : Z) (patch : bytes) (expected_version : Z) : Z * option ak_heap_txn :=
  match txn with
  | None => (- EINVAL, None)
  | Some t =>
      if negb (tx_active t) then (- EINVAL, Some t)
      else if negb (al_obj m) then (- ENOMEM, Some t)
      else (0, Some (txn_add_op t (TXN_OP_WRITE ptr (if al_value m then Some patch else None) expected_version)))
  end.

Definition ak_heap_txn_delete (m : sys) (txn : option ak_heap_txn) (ptr expected_version : Z) : Z * option ak_heap_txn :=
  match txn with
  | None => (- EINVAL, None)
  | Some t =>
      if negb (tx_active t) then (- EINVAL, Some t)
      else if negb (al_obj m) then (- ENOMEM, Some t)
      else (0, Some (txn_add_op t (TXN_OP_DELETE ptr expected_version)))
  end.

(** Phase 1, one operation: the error code, or 0. *)
Definition check_target (s : ak_heap_state) (ptr expected_version : Z) : Z :=
  match find_object s ptr with
  | None => - ENOENT
  | Some obj =>
      if obj_deleted obj then - ENOENT
      else if negb (obj_version obj =? expected_version) then AK_E_CONFLICT
      else 0
  end.

Definition txn_check (s : ak_heap_state) (op : ak_txn_op) : Z :=
  match op with
  | TXN_OP_ALLOC _ type_hash value _ _ => if negb (ak_heap_validate_schema s type_hash value) then AK_E_SCHEMA_INVALID else 0
  | TXN_OP_WRITE ptr _ v => check_target s ptr v
  | TXN_OP_DELETE ptr v => check_target s ptr v
  end.

(** [others k] is what other threads do to the heap before the [k]-th time the
    commit looks at it. *)
Definition others_t : Type := nat -> ak_heap_state -> ak_heap_state.
Definition later (n : nat) (others : others_t) : others_t := fun k => others (n + k)%nat.

Fixpoint txn_validate (others : others_t) (ops : list ak_txn_op) (s : ak_heap_state) : Z * ak_heap_state :=
  match ops with
  | [] => (0, s)
  | op :: ops' =>
      let s := others 0%nat s in
      if txn_check s op =? 0 then txn_validate (later 1 others) ops' s else (txn_check s op, s)
  end.

(** Phase 2, one operation.  An allocation without a value reads through NULL
    once its own checks are passed. *)
Definition txn_apply (m : sys) (op : ak_txn_op) (s : ak_heap_state) : outcome ak_heap_state :=
  match op with
  | TXN_OP_ALLOC _ type_hash (Some value) taint run_id => Ret (ak_heap_alloc m type_hash value (Some run_id) taint s).2
  | TXN_OP_ALLOC _ type_hash None _ _ =>
      if negb (hs_initialized s) || negb (ak_heap_validate_schema s type_hash None) || negb (al_obj m) then Ret s else Oob
  | TXN_OP_WRITE ptr value v => Ret (ak_heap_write m ptr value v s).2
  | TXN_OP_DELETE ptr v => Ret (ak_heap_delete m ptr v s).2
  end.

(** [ms i] is the environment of operation [i]. *)
Fixpoint txn_apply_all (others : others_t) (ms : nat -> sys) (ops : list ak_txn_op) (s : ak_heap_state) : outcome ak_heap_state :=
  match ops with
  | [] => Ret s
  | op :: ops' =>
      let* s := txn_apply (ms 0%nat) op (others 0%nat s) in
      txn_apply_all (later 1 others) (fun i => ms (S i)) ops' s
  end.

Definition deactivate (t : ak_heap_txn) : ak_heap_txn := mk_txn (tx_ops t) (tx_op_count t) false.

Definition ak_heap_txn_commit (others : others_t) (ms : nat -> sys) (txn : option ak_heap_txn) (s : ak_heap_state) :
  outcome (Z * option ak_heap_txn * ak_heap_state) :=
  match txn with
  | None => Ret (- EINVAL, None, s)
  | Some t =>
      if negb (tx_active t) then Ret (- EINVAL, Some t, s)
      else
        let '(r, s) := txn_validate others (tx_ops t) s in
        if negb (r =? 0) then Ret (r, Some (deactivate t), s)
        else
          let* s := txn_apply_all (later (length (tx_ops t)) others) ms (tx_ops t) s in
          Ret (0, Some (deactivate t), s)
  end.

(** The other threads alone, at the first [n] occasions. *)
Fixpoint interfere (others : others_t) (n : nat) (s : ak_heap_state) : ak_heap_state :=
  match n with
  | O => s
  | S n' => interfere (later 1 others) n' (others 0%nat s)
  end.

(** ** Frames *)

(** What phase 2 needs of a state. *)
Record shape (s : ak_heap_state) : Prop := {
  sh_init : hs_initialized s = true;
  sh_wf : wf_ptable (hs_objects s);
  sh_ptr : forall o, o ∈ entries (hs_objects s) -> obj_ptr o < hs_next_ptr s;
  sh_next : 1 <= hs_next_ptr s
}.

Lemma run_shape T s : hrun T s -> shape s.
Proof.
  intros Hrun. destruct (run_inv _ _ Hrun) as (Hi & Ho & _). split; [done|apply Ho| |apply Ho].
  intros o Hin. by apply (oo_entry _ _ Ho).
Qed.

Lemma shape_fresh s : shape s -> table_lookup (hs_objects s) (hs_next_ptr s) = None.
Proof.
  intros [Hi Hwf Hp Hn]. apply table_lookup_None; [done|]. intros o Hin. change (ptr_of o) with (obj_ptr o). specialize (Hp o Hin). lia.
Qed.

Lemma shape_below s ptr o : shape s -> find_object s ptr = Some o -> ptr < hs_next_ptr s.
Proof.
  intros [Hi Hwf Hp Hn]. rewrite find_object_table by done. intros [Hin <-]%table_lookup_spec; [|done]. by apply Hp.
Qed.

Lemma shape_alter s s' g ptr :
  shape s -> hs_initialized s' = true -> hs_objects s' = table_alter g (hs_objects s) ptr -> hs_next_ptr s' = hs_next_ptr s ->
  (forall o, obj_ptr (g o) = obj_ptr o) -> shape s'.
Proof.
  intros [Hi Hwf Hp Hn] Hi' Eo En Hg. split; rewrite ?Eo, ?En; [done|by apply wf_alter| |done].
  intros o [Hin|(o0 & Hl & ->)]%entries_alter; [by apply Hp|]. apply table_lookup_spec in Hl as [Hl _]; [|done]. rewrite Hg. by apply Hp.
Qed.

(** The second phase carries the operation out: memory suffices and the patch
    turns the value of the object into one its schema accepts. *)
Definition applies (m : sys) (s : ak_heap_state) (op : ak_txn_op) : bool :=
  match op with
  | TXN_OP_ALLOC _ _ _ _ _ => al_obj m && al_value m
  | TXN_OP_WRITE ptr value _ =>
      match find_object s ptr with
      | None => false
      | Some o =>
          match (match value with Some p => ak_json_patch_apply (al_doc m) (al_patch m) (obj_value o) p | None => None end) with
          | Some x => ak_heap_validate_schema s (obj_type_hash o) (Some x)
          | None => false
          end
      end
  | TXN_OP_DELETE _ _ => true
  end.

(** The copy of the value of an allocation was made. *)
Definition copied (op : ak_txn_op) : Prop :=
  match op with TXN_OP_ALLOC _ _ value _ _ => value <> None | _ => True end.

Definition target (op : ak_txn_op) : option Z :=
  match op with TXN_OP_ALLOC _ _ _ _ _ => None | TXN_OP_WRITE ptr _ _ | TXN_OP_DELETE ptr _ => Some ptr end.

Definition allocates (op : ak_txn_op) : bool := match op with TXN_OP_ALLOC _ _ _ _ _ => true | _ => false end.

(** What the operation makes of its object. *)
Definition effect (m : sys) (op : ak_txn_op) (o o' : ak_heap_object) : Prop :=
  match op with
  | TXN_OP_ALLOC _ _ _ _ _ => False
  | TXN_OP_WRITE _ value _ => exists p x, value = Some p /\
      ak_json_patch_apply (al_doc m) (al_patch m) (obj_value o) p = Some x /\ o' = put_value x (now_object m) o
  | TXN_OP_DELETE _ _ => o' = put_deleted (now_object m) o
  end.

Definition new_object (op : ak_txn_op) (o : ak_heap_object) : Prop :=
  match op with
  | TXN_OP_ALLOC _ type_hash value taint _ => obj_version o = 1 /\ Some (obj_value o) = value /\ obj_deleted o = false /\ obj_taint o = taint /\ obj_type_hash o = type_hash
  | _ => False
  end.

(** What becomes of the object of an operation that passed its check. *)
Definition result (m : sys) (s : ak_heap_state) (op : ak_txn_op) (o o' : ak_heap_object) : Prop :=
  if applies m s op then effect m op o o' else o' = o.

(** [s'] is [s] but for the object at [p], which is [o']. *)
Record updated (s s' : ak_heap_state) (p : Z) (o' : ak_heap_object) : Prop := {
  up_shape : shape s';
  up_schemas : hs_schemas s' = hs_schemas s;
  up_next : hs_next_ptr s' = hs_next_ptr s;
  up_find : forall q, find_object s' q = if p =? q then Some o' else find_object s q
}.

Lemma updated_same s p o : shape s -> find_object s p = Some o -> updated s s p o.
Proof. intros Hs Ho. split; try done. intros q. by destruct (Z.eqb_spec p q) as [<-|]. Qed.

Lemma apply_write m ptr value v s :
  shape s -> check_target s ptr v = 0 ->
  exists s' o o', txn_apply m (TXN_OP_WRITE ptr value v) s = Ret s' /\ find_object s ptr = Some o /\
    result m s (TXN_OP_WRITE ptr value v) o o' /\ updated s s' ptr o'.
Proof.
  intros Hs Hc. unfold check_target in Hc. unfold result. cbn [txn_apply applies effect] in *. pose proof Hs as [Hi Hwf _ _].
  destruct (find_object s ptr) as [o|] eqn:Ef; [|done]. destruct (obj_deleted o) eqn:Ed; [done|].
  destruct (Z.eqb_spec (obj_version o) v) as [Ev|]; [|done].
  unfold ak_heap_write. rewrite Hi, Ef, Ed. cbn [negb]. rewrite (proj2 (Z.eqb_eq _ _) Ev). cbn [negb].
  assert (Hskip : exists s' o0 o', Ret s = Ret s' /\ Some o = Some o0 /\ o' = o0 /\ updated s s' ptr o')
    by (exists s, o, o; split_and!; try done; by apply updated_same).
  destruct value as [p|]; [|exact Hskip]. destruct (ak_json_patch_apply _ _ _ p) as [x|] eqn:Hp; [|exact Hskip].
  destruct (ak_heap_validate_schema s (obj_type_hash o) (Some x)) eqn:Hx; [|exact Hskip]. clear Hskip. cbn [negb]. cbv zeta.
  destruct (save_version_frame m ptr (obj_version o) (obj_value o) s) as (F1 & F2 & F3 & F4 & F5 & F6 & F7).
  eexists _, o, (put_value x (now_object m) o). split; [done|]. cbn [snd]. split_and!; [done|eauto|].
  split; fields; [|by rewrite F5|by rewrite F4|].
  - eapply (shape_alter s); fields; [done|by rewrite F7|by rewrite F1|by rewrite F4|done].
  - intros q. eapply find_alter; try done; fields; [by rewrite F7|by rewrite F1].
Qed.

Lemma apply_delete m ptr v s :
  shape s -> check_target s ptr v = 0 ->
  exists s' o o', txn_apply m (TXN_OP_DELETE ptr v) s = Ret s' /\ find_object s ptr = Some o /\
    result m s (TXN_OP_DELETE ptr v) o o' /\ updated s s' ptr o'.
Proof.
  intros Hs Hc. unfold check_target in Hc. unfold result. cbn [txn_apply applies effect] in *. pose proof Hs as [Hi Hwf _ _].
  destruct (find_object s ptr) as [o|] eqn:Ef; [|done]. destruct (obj_deleted o) eqn:Ed; [done|].
  destruct (Z.eqb_spec (obj_version o) v) as [Ev|]; [|done].
  unfold ak_heap_delete. rewrite Hi, Ef, Ed. cbn [negb]. rewrite (proj2 (Z.eqb_eq _ _) Ev). cbn [negb]. cbv zeta.
  destruct (save_version_frame m ptr (obj_version o) (obj_value o) s) as (F1 & F2 & F3 & F4 & F5 & F6 & F7).
  eexists _, o, (put_deleted (now_object m) o). split; [done|]. cbn [snd]. split_and!; [done..|].
  split; fields; [|by rewrite F5|by rewrite F4|].
  - eapply (shape_alter s); fields; [done|by rewrite F7|by rewrite F1|by rewrite F4|done].
  - intros q. eapply find_alter; try done; fields; [by rewrite F7|by rewrite F1].
Qed.

Lemma apply_alloc m ptr th value taint run s :
  shape s -> hs_next_ptr s + 1 < M64 -> txn_check s (TXN_OP_ALLOC ptr th value taint run) = 0 -> value <> None -> al_obj m && al_value m = true ->
  exists s' o, txn_apply m (TXN_OP_ALLOC ptr th value taint run) s = Ret s' /\ shape s' /\ hs_schemas s' = hs_schemas s /\
    hs_next_ptr s' = hs_next_ptr s + 1 /\ new_object (TXN_OP_ALLOC ptr th value taint run) o /\
    forall q, find_object s' q = if hs_next_ptr s =? q then Some o else find_object s q.
Proof.
  intros Hs Hn Hc Hv [Hm1 Hm2]%andb_true_iff. destruct value as [x|]; [|done]. cbn [txn_apply txn_check new_object] in *.
  pose proof (shape_fresh s Hs) as Hfresh. pose proof Hs as [Hi Hwf Hp Hn1].
  destruct (ak_heap_alloc m th x (Some run) taint s) as [r s'] eqn:Ea. cbn [snd]. pose proof Ea as Ea'.
  unfold ak_heap_alloc in Ea'. rewrite Hi, Hm1, Hm2 in Ea'. cbn [negb] in Ea'.
  destruct (ak_heap_validate_schema s th (Some x)); cbn [negb] in *; [|done]. cbv zeta in Ea'. fields_in Ea'.
  injection Ea' as Er Es.
  destruct (alloc_result m s _ _ _ _ _ _ Hi Hwf Hfresh ltac:(lia) Ea ltac:(lia)) as (_ & En & o & Hv1 & Hv2 & Hv3 & Hv4 & Hv5 & Hf).
  set (obj := mk_object _ _ _ _ _ _ _ _ _) in Es. set (s1 := set_bytes_used _ _) in Es.
  destruct (save_version_frame m (hs_next_ptr s) 1 x s1) as (F1 & F2 & F3 & F4 & F5 & F6 & F7).
  exists s', o. rewrite Er, En, <-Er in *. split_and!; try done; [|by rewrite <-Es, F5|by rewrite Hv2].
  subst s'. split; [by rewrite F7| | |rewrite En; lia].
  - rewrite F1. unfold s1. fields. exact (wf_push (hs_objects s) obj Hwf Hfresh).
  - rewrite F1, En. unfold s1. fields. intros y Hy. apply entries_push in Hy as [->|Hy]; [cbn; lia|specialize (Hp y Hy); lia|apply Hwf].
Qed.

(** An allocation for which memory is missing. *)
Lemma skip_alloc m ptr th value taint run s :
  hs_initialized s = true -> txn_check s (TXN_OP_ALLOC ptr th value taint run) = 0 -> value <> None -> al_obj m && al_value m = false ->
  txn_apply m (TXN_OP_ALLOC ptr th value taint run) s = Ret s.
Proof.
  intros Hi Hc Hv Hm. destruct value as [x|]; [|done]. cbn [txn_apply txn_check] in *. unfold ak_heap_alloc. rewrite Hi. cbn [negb].
  destruct (ak_heap_validate_schema s th (Some x)); [|done]. cbn [negb]. destruct (al_obj m); [|done]. cbn [negb andb] in *. by rewrite Hm.
Qed.

(** ** Other threads *)

(** They may do to the heap what leaves its shape, its schemas and the objects of
    [K] as they are, and allocate nothing. *)
Definition leaves (K : Z -> Prop) (others : others_t) : Prop :=
  forall k s, shape s ->
    shape (others k s) /\ hs_schemas (others k s) = hs_schemas s /\ hs_next_ptr (others k s) = hs_next_ptr s /\
    forall q, K q -> find_object (others k s) q = find_object s q.

Definition quiet : others_t := fun _ s => s.

Lemma leaves_quiet K : leaves K quiet.
Proof. by intros k s Hs. Qed.

Lemma leaves_later K n others : leaves K others -> leaves K (later n others).
Proof. intros H k s. apply H. Qed.

(** ** Atomic commits *)

Lemma validate_schema_frame s s' th v : hs_schemas s' = hs_schemas s -> ak_heap_validate_schema s' th v = ak_heap_validate_schema s th v.
Proof. unfold ak_heap_validate_schema, find_schema. by intros ->. Qed.

(** Checks and applicability depend on the target and the schemas only. *)
Lemma check_frame s s' op :
  hs_schemas s' = hs_schemas s -> (forall q, target op = Some q -> find_object s' q = find_object s q) -> txn_check s' op = txn_check s op.
Proof.
  intros Hs Hf. destruct op; cbn [txn_check target] in *; unfold check_target; [by rewrite (validate_schema_frame s s')|by rewrite Hf..].
Qed.

Lemma applies_frame m s s' op :
  hs_schemas s' = hs_schemas s -> (forall q, target op = Some q -> find_object s' q = find_object s q) -> applies m s' op = applies m s op.
Proof.
  intros Hs Hf. destruct op; cbn [applies target] in *; [done| |done]. rewrite Hf by done.
  destruct (find_object s ptr); [|done]. destruct (match value with Some _ => _ | None => _ end); [|done]. by rewrite (validate_schema_frame s s').
Qed.

Lemma target_found s op q : txn_check s op = 0 -> target op = Some q -> exists o, find_object s q = Some o.
Proof.
  destruct op; cbn [txn_check target]; [done|..]; unfold check_target; intros Hc [= <-]; destruct (find_object s ptr); try done; eauto.
Qed.

(** [s'] differs from [s] in nothing that matters to operations on objects of [K]. *)
Definition alike (K : Z -> Prop) (s s' : ak_heap_state) : Prop :=
  shape s' /\ hs_schemas s' = hs_schemas s /\ hs_next_ptr s' = hs_next_ptr s /\ forall q, K q -> find_object s' q = find_object s q.

Lemma alike_trans K s1 s2 s3 : alike K s1 s2 -> alike K s2 s3 -> alike K s1 s3.
Proof. intros (_ & E1 & E2 & E3) (H & F1 & F2 & F3). split_and!; [done|congruence|congruence|]. intros q Hq. rewrite F3, E3; done. Qed.

(** Phase 1: the first operation that fails, or none, and the work of the others. *)
Lemma validate_result K others ops s :
  shape s -> leaves K others -> (forall q, q ∈ omap target ops -> K q) ->
  exists n, (n <= length ops)%nat /\ alike K s (interfere others n s) /\ let '(r, s') := txn_validate others ops s in s' = interfere others n s /\
    ((r = 0 /\ Forall (fun op => txn_check s op = 0) ops) \/ (r <> 0 /\ exists op, op ∈ ops /\ txn_check s op = r)).
Proof.
  revert others s. induction ops as [|op ops IH]; intros others s Hs Ho Hk; cbn [txn_validate].
  { exists 0%nat. split; [done|]. split; [by split_and!|]. cbn. auto. }
  destruct (Ho 0%nat s Hs) as (Hs1 & Hsc & Hn & Hf). cbv zeta.
  assert (Hc : txn_check (others 0%nat s) op = txn_check s op).
  { apply check_frame; [done|]. intros q Hq. apply Hf, Hk, list_elem_of_omap. exists op. split; [left|done]. }
  rewrite Hc. destruct (Z.eqb_spec (txn_check s op) 0) as [E|Hne].
  - destruct (IH (later 1 others) (others 0%nat s) Hs1 (leaves_later _ _ _ Ho)) as (n & Hle & Ha & Hv).
    { intros q (op' & Hin & Hq)%list_elem_of_omap. apply Hk, list_elem_of_omap. exists op'. split; [by right|done]. }
    exists (S n). cbn [interfere length]. split; [lia|]. split; [by eapply alike_trans; [|exact Ha]|].
    assert (Hcs : forall op', op' ∈ ops -> txn_check (others 0%nat s) op' = txn_check s op').
    { intros op' Hin. apply check_frame; [done|]. intros q Hq. apply Hf, Hk, list_elem_of_omap. exists op'. split; [by right|done]. }
    destruct (txn_validate (later 1 others) ops (others 0%nat s)) as [r s']. destruct Hv as [-> [[-> Hall]|(Hr & op' & Hin & Hr')]]; (split; [done|]).
    + left. split; [done|]. constructor; [done|]. rewrite list.Forall_forall in *. intros op' Hin. rewrite <-Hcs by done. by apply Hall.
    + right. split; [done|]. exists op'. split; [by right|]. by rewrite <-Hcs.
  - exists 1%nat. cbn [interfere length]. split; [lia|]. split; [by split_and!|]. split; [done|]. right. split; [done|]. exists op. split; [left|done].
Qed.

(** The allocations that are carried out. *)
Fixpoint allocs (ms : nat -> sys) (ops : list ak_txn_op) : Z :=
  match ops with
  | [] => 0
  | op :: ops' => (if allocates op && (al_obj (ms 0%nat) && al_value (ms 0%nat)) then 1 else 0) + allocs (fun i => ms (S i)) ops'
  end.

(** Every operation that applies took effect, the others none, and of the objects
    of [K] nothing else changed. *)
Record committed (K : Z -> Prop) (ms : nat -> sys) (ops : list ak_txn_op) (s s' : ak_heap_state) : Prop := {
  cm_next : hs_next_ptr s' = hs_next_ptr s + allocs ms ops;
  cm_targets : forall i op p, ops !! i = Some op -> target op = Some p ->
    exists o o', find_object s p = Some o /\ result (ms i) s op o o' /\ find_object s' p = Some o';
  cm_allocs : forall i op, ops !! i = Some op -> allocates op = true -> applies (ms i) s op = true ->
    exists o, new_object op o /\ find_object s' (hs_next_ptr s + allocs ms (take i ops)) = Some o;
  cm_others : forall q, q < hs_next_ptr s -> K q -> q ∉ omap target ops -> find_object s' q = find_object s q
}.

Lemma allocs_nonneg ms ops : 0 <= allocs ms ops.
Proof. revert ms. induction ops as [|op ops IH]; intros ms; cbn [allocs]; [lia|]. specialize (IH (fun i => ms (S i))). destruct (_ && _); lia. Qed.

(** Work of other threads before the operations. *)
Lemma committed_alike K ms ops s s0 s' :
  alike K s s0 -> (forall q, q ∈ omap target ops -> K q) -> committed K ms ops s0 s' -> committed K ms ops s s'.
Proof.
  intros (_ & Hsc & Hn & Hf) Hk [Cn Ct Ca Co].
  assert (Ha : forall i op, ops !! i = Some op -> applies (ms i) s0 op = applies (ms i) s op).
  { intros i op Hi. apply applies_frame; [done|]. intros q Hq. apply Hf, Hk, list_elem_of_omap. exists op. split; [by eapply list_elem_of_lookup_2|done]. }
  split.
  - by rewrite Cn, Hn.
  - intros i op p Hi Hp. destruct (Ct i op p Hi Hp) as (o & o' & Ho & Hr & Ho'). exists o, o'. unfold result in *. rewrite Ha in Hr by done.
    split_and!; [|done..]. rewrite <-Ho. symmetry. apply Hf, Hk, list_elem_of_omap. exists op. split; [by eapply list_elem_of_lookup_2|done].
  - intros i op Hi Hal. rewrite <-(Ha _ _ Hi), <-Hn. by apply Ca.
  - intros q Hq HK Hni. rewrite Co, Hf by (done || lia). done.
Qed.

(** The first operation, then the rest. *)
Lemma committed_target K ms op ops s s1 s' p o o1 :
  target op = Some p -> allocates op = false -> p ∉ omap target ops -> K p -> p < hs_next_ptr s ->
  find_object s p = Some o -> result (ms 0%nat) s op o o1 -> updated s s1 p o1 ->
  committed K (fun i => ms (S i)) ops s1 s' -> committed K ms (op :: ops) s s'.
Proof.
  intros Ht Hna Hni HK Hlt Ho He [_ Hsc Hn Hf] [Cn Ct Ca Co]. pose proof (Co p ltac:(lia) HK Hni) as Hp. rewrite Hf, Z.eqb_refl in Hp.
  assert (Hother : forall i op' q, ops !! i = Some op' -> target op' = Some q -> find_object s1 q = find_object s q).
  { intros i op' q Hi Hq. rewrite Hf. destruct (Z.eqb_spec p q) as [<-|]; [|done]. exfalso. apply Hni, list_elem_of_omap. exists op'.
    split; [by eapply list_elem_of_lookup_2|done]. }
  assert (Ha : forall i op', ops !! i = Some op' -> applies (ms (S i)) s1 op' = applies (ms (S i)) s op').
  { intros i op' Hi. apply applies_frame; [done|]. intros q Hq. by eapply Hother. }
  split.
  - cbn [allocs]. rewrite Hna, Cn. cbn [andb]. lia.
  - intros [|i] op' q; cbn [lookup list_lookup].
    + intros [= <-] Hq. assert (q = p) by congruence. subst. eauto.
    + intros Hi Hq. destruct (Ct i op' q Hi Hq) as (x & x' & Hx & He' & Hx'). exists x, x'. unfold result in *. rewrite Ha in He' by done.
      split; [|done]. by rewrite <-(Hother _ _ _ Hi Hq).
  - intros [|i] op'; cbn [lookup list_lookup].
    + intros [= <-]. by rewrite Hna.
    + intros Hi Hal Hap. cbn [take allocs]. rewrite Hna. cbn [andb]. rewrite <-Ha in Hap by done. destruct (Ca i op' Hi Hal Hap) as (x & Hx & Hfx).
      exists x. split; [done|]. by rewrite <-Hn.
  - intros q Hq HKq. cbn [omap list_omap]. rewrite Ht. intros [Hne Hni']%not_elem_of_cons. rewrite Co by (done || lia).
    rewrite Hf. destruct (Z.eqb_spec p q); [congruence|done].
Qed.

Lemma committed_alloc K ms op ops s s1 s' o1 :
  allocates op = true -> al_obj (ms 0%nat) && al_value (ms 0%nat) = true -> new_object op o1 -> hs_next_ptr s1 = hs_next_ptr s + 1 ->
  hs_schemas s1 = hs_schemas s -> K (hs_next_ptr s) -> (forall q, q ∈ omap target ops -> q < hs_next_ptr s) ->
  (forall q, find_object s1 q = if hs_next_ptr s =? q then Some o1 else find_object s q) ->
  committed K (fun i => ms (S i)) ops s1 s' -> committed K ms (op :: ops) s s'.
Proof.
  intros Hal Hm Hnew Hn Hsc HK Hlt Hf [Cn Ct Ca Co]. assert (Ht : target op = None) by (by destruct op).
  assert (Hother : forall i op' q, ops !! i = Some op' -> target op' = Some q -> find_object s1 q = find_object s q).
  { intros i op' q Hi Hq. rewrite Hf. destruct (Z.eqb_spec (hs_next_ptr s) q) as [E|]; [|done].
    assert (q < hs_next_ptr s); [|lia]. apply Hlt. apply list_elem_of_omap. exists op'. split; [by eapply list_elem_of_lookup_2|done]. }
  assert (Ha : forall i op', ops !! i = Some op' -> applies (ms (S i)) s1 op' = applies (ms (S i)) s op').
  { intros i op' Hi. apply applies_frame; [done|]. intros q Hq. by eapply Hother. }
  split.
  - cbn [allocs]. rewrite Hal, Hm, Cn. cbn [andb]. lia.
  - intros [|i] op' q; cbn [lookup list_lookup]; [intros [= <-]; by rewrite Ht|].
    intros Hi Hq. destruct (Ct i op' q Hi Hq) as (x & x' & Hx & He' & Hx'). exists x, x'. unfold result in *. rewrite Ha in He' by done.
    split; [|done]. by rewrite <-(Hother _ _ _ Hi Hq).
  - intros [|i] op'; cbn [lookup list_lookup].
    + intros [= <-] _ _. exists o1. split; [done|]. cbn [take allocs].
      replace (hs_next_ptr s + 0) with (hs_next_ptr s) by lia. rewrite Co; [by rewrite Hf, Z.eqb_refl|lia|done|intros Hin; specialize (Hlt _ Hin); lia].
    + intros Hi Hal' Hap. cbn [take allocs]. rewrite Hal, Hm. cbn [andb]. rewrite <-Ha in Hap by done.
      destruct (Ca i op' Hi Hal' Hap) as (x & Hx & Hfx). exists x. split; [done|]. rewrite <-Hfx. f_equal. lia.
  - intros q Hq HKq. cbn [omap list_omap]. rewrite Ht. intros Hni. rewrite Co by (done || lia).
    rewrite Hf. destruct (Z.eqb_spec (hs_next_ptr s) q); [lia|done].
Qed.

Lemma committed_skip K ms op ops s s' :
  allocates op = true -> al_obj (ms 0%nat) && al_value (ms 0%nat) = false ->
  committed K (fun i => ms (S i)) ops s s' -> committed K ms (op :: ops) s s'.
Proof.
  intros Hal Hm [Cn Ct Ca Co]. assert (Ht : target op = None) by (by destruct op). split.
  - cbn [allocs]. rewrite Hal, Hm, Cn. cbn [andb]. lia.
  - intros [|i] op' q; cbn [lookup list_lookup]; [intros [= <-]; by rewrite Ht|]. apply Ct.
  - intros [|i] op'; cbn [lookup list_lookup].
    + intros [= <-] _. destruct op; [|done..]. cbn [applies]. by rewrite Hm.
    + cbn [take allocs]. rewrite Hal, Hm. cbn [andb]. apply Ca.
  - intros q Hq HKq. cbn [omap list_omap]. rewrite Ht. by apply Co.
Qed.

Lemma apply_all_committed K others ms ops s :
  shape s -> leaves K others -> (forall q, hs_next_ptr s <= q -> K q) -> (forall q, q ∈ omap target ops -> K q) ->
  hs_next_ptr s + allocs ms ops < M64 -> Forall (fun op => txn_check s op = 0) ops -> Forall copied ops -> NoDup (omap target ops) ->
  exists s', txn_apply_all others ms ops s = Ret s' /\ shape s' /\ committed K ms ops s s'.
Proof.
  revert others ms s. induction ops as [|op ops IH]; intros others ms s Hs Hot Hnew Hk Hn Hc Hcp Hnd; cbn [txn_apply_all].
  { exists s. split_and!; [done..|]. split; [cbn; lia|by intros [|i]|by intros [|i]|done]. }
  pose proof (Hot 0%nat s Hs) as Hal. change (alike K s (others 0%nat s)) in Hal.
  assert (Hk' : forall q, q ∈ omap target ops -> K q).
  { intros q (op' & Hin & Hq)%list_elem_of_omap. apply Hk, list_elem_of_omap. exists op'. split; [by right|done]. }
  assert (Hc' : Forall (fun op => txn_check (others 0%nat s) op = 0) (op :: ops)).
  { rewrite list.Forall_forall in *. intros op' Hin. destruct Hal as (_ & Hsc & _ & Hf). rewrite (check_frame s); [by apply Hc|done|].
    intros q Hq. apply Hf, Hk, list_elem_of_omap. eauto. }
  cut (exists s', (let* s := txn_apply (ms 0%nat) op (others 0%nat s) in txn_apply_all (later 1 others) (fun i => ms (S i)) ops s) = Ret s' /\
    shape s' /\ committed K ms (op :: ops) (others 0%nat s) s').
  { intros (s' & E & Hs' & Hcm). exists s'. split_and!; [done..|]. by eapply committed_alike. }
  destruct Hal as (Hs0 & _ & En & _). rewrite <-En in Hn, Hnew. clear Hs Hc En. revert Hs0 Hn Hnew Hc'. generalize (others 0%nat s). clear s. intros s Hs Hn Hnew Hc.
  apply Forall_cons in Hc as [Hc0 Hc]. apply Forall_cons in Hcp as [Hcp0 Hcp]. cbn [allocs] in Hn. pose proof (allocs_nonneg (fun i => ms (S i)) ops).
  assert (Hrest : forall s1, shape s1 -> hs_schemas s1 = hs_schemas s -> hs_next_ptr s <= hs_next_ptr s1 -> hs_next_ptr s1 + allocs (fun i => ms (S i)) ops < M64 ->
    (forall q, q ∈ omap target ops -> find_object s1 q = find_object s q) -> NoDup (omap target ops) ->
    exists s', txn_apply_all (later 1 others) (fun i => ms (S i)) ops s1 = Ret s' /\ shape s' /\ committed K (fun i => ms (S i)) ops s1 s').
  { intros s1 Hs1 Hsc Hle Hn1 Hf1 Hnd'. apply IH; try done; [by apply leaves_later|intros q Hq; apply Hnew; lia|].
    apply list.Forall_forall. intros op' Hop. rewrite list.Forall_forall in Hc. rewrite (check_frame s s1 op' Hsc); [by apply Hc|].
    intros q Hq. apply Hf1, list_elem_of_omap. eauto. }
  assert (Hupd : forall p, target op = Some p -> allocates op = false ->
    (exists s1 o o', txn_apply (ms 0%nat) op s = Ret s1 /\ find_object s p = Some o /\ result (ms 0%nat) s op o o' /\ updated s s1 p o') ->
    exists s', (let* s := txn_apply (ms 0%nat) op s in txn_apply_all (later 1 others) (fun i => ms (S i)) ops s) = Ret s' /\ shape s' /\ committed K ms (op :: ops) s s').
  { intros p Ht Hna (s1 & o & o' & -> & Ho & He & Hup). pose proof Hup as [Hs1 Hsc Hnx Hf]. cbn [obind omap list_omap] in *. rewrite Ht in Hnd.
    apply NoDup_cons in Hnd as [Hni Hnd]. rewrite Hna in Hn. cbn [andb] in Hn. destruct (Hrest s1) as (s' & -> & Hs' & Hcm); [done|done|lia|lia| |done|].
    - intros q Hq. rewrite Hf. destruct (Z.eqb_spec p q) as [<-|]; done.
    - exists s'. split_and!; [done..|]. eapply committed_target; eauto; [|by eapply shape_below]. apply Hk. rewrite Ht. left. }
  destruct op as [ptr th value taint run|ptr value v|ptr v].
  - cbn [allocates andb] in Hn. cbn [omap list_omap target] in Hnd. destruct (al_obj (ms 0%nat) && al_value (ms 0%nat)) eqn:Em.
    + destruct (apply_alloc (ms 0%nat) ptr th value taint run s Hs ltac:(lia) Hc0 Hcp0 Em) as (s1 & o & -> & Hs1 & Hsc & Hnx & Hno & Hf). cbn [obind].
      assert (Hlt : forall q, q ∈ omap target ops -> q < hs_next_ptr s).
      { intros q (op' & Hop & Hq)%list_elem_of_omap. rewrite list.Forall_forall in Hc. destruct (target_found s op' q (Hc _ Hop) Hq) as [x Hx].
        by eapply shape_below. }
      destruct (Hrest s1) as (s' & -> & Hs' & Hcm); [done|done|lia|lia| |done|].
      * intros q Hq. specialize (Hlt q Hq). rewrite Hf. destruct (Z.eqb_spec (hs_next_ptr s) q); [lia|done].
      * exists s'. split_and!; [done..|]. eapply committed_alloc; eauto. apply Hnew. lia.
    + rewrite (skip_alloc (ms 0%nat) ptr th value taint run s (sh_init _ Hs) Hc0 Hcp0 Em). cbn [obind].
      destruct (Hrest s) as (s' & -> & Hs' & Hcm); try done. exists s'. split_and!; [done..|]. by apply committed_skip.
  - apply (Hupd ptr eq_refl eq_refl). by apply apply_write.
  - apply (Hupd ptr eq_refl eq_refl). by apply apply_delete.
Qed.

(** C25: A commit applies nothing or every operation that applies.  Let the
    transaction be active, its operations name different objects and their
    values have been copied, and let other threads, between the steps of the
    commit, do what they like to other existing objects, without allocating.
    Then the commit returns and closes the transaction; either some operation
    fails its check, its code is returned and the commit has done nothing itself; or 0
    is returned, every write whose patch gives a valid value and every deletion
    took effect on its object, every allocation for which memory sufficed holds
    its value at the next new pointer, and no object that the others left alone
    changed.  (A write whose patch does not apply, and an allocation without
    memory, are dropped although 0 is returned.) *)
Theorem commit_all_or_nothing T s K others ms t :
  hrun T s -> tx_active t = true -> hs_next_ptr s + allocs ms (tx_ops t) < M64 -> NoDup (omap target (tx_ops t)) ->
  Forall copied (tx_ops t) -> leaves K others -> (forall q, hs_next_ptr s <= q \/ q ∈ omap target (tx_ops t) -> K q) ->
  exists r s', ak_heap_txn_commit others ms (Some t) s = Ret (r, Some (deactivate t), s') /\
    ((r <> 0 /\ (exists n, s' = interfere others n s) /\ exists op, op ∈ tx_ops t /\ txn_check s op = r) \/
     (r = 0 /\ Forall (fun op => txn_check s op = 0) (tx_ops t) /\ committed K ms (tx_ops t) s s')).
Proof.
  intros Hrun Hact Hn Hnd Hcp Hot HK. pose proof (run_shape _ _ Hrun) as Hs. unfold ak_heap_txn_commit. rewrite Hact. cbn [negb].
  destruct (validate_result K others (tx_ops t) s Hs Hot) as (n & Hle & Ha & Hv); [auto|].
  destruct (txn_validate others (tx_ops t) s) as [r s1]. destruct Hv as [-> [[-> Hall]|(Hr & op & Hin & Hop)]].
  - cbn [Z.eqb negb]. pose proof Ha as (Hs1 & Hsc & Hnx & Hf).
    destruct (apply_all_committed K (later (length (tx_ops t)) others) ms (tx_ops t) (interfere others n s)) as (s' & -> & _ & Hcm);
      rewrite ?Hnx; auto using leaves_later.
    + rewrite list.Forall_forall in *. intros op Hin. rewrite (check_frame s); [by apply Hall|done|].
      intros q Hq. apply Hf, HK. right. apply list_elem_of_omap. eauto.
    + eexists _, s'. split; [done|]. right. split_and!; [done..|]. eapply committed_alike; eauto.
  - destruct (Z.eqb_spec r 0); [done|]. cbn [negb]. eexists _, _. split; [done|]. left. split_and!; [done|eauto..].
Qed.

(** A transaction over the demonstration heap. *)
Definition demo_txn : ak_heap_txn :=
  mk_txn [TXN_OP_WRITE 1 (Some JQ"[{'op':'add','path':'/b','value':[]}]") 2; TXN_OP_ALLOC 4 5 (Some JQ"{}") 0 (zeros 16)] 2 true.

Lemma commit_all_or_nothing_witness :
  exists T s s', hrun T s /\ ak_heap_txn_commit quiet (fun _ => calm) (Some demo_txn) s = Ret (0, Some (deactivate demo_txn), s') /\
    (exists o, find_object s' 3 = Some o /\ obj_value o = JQ"{}").
Proof.
  destruct demo_runs as (T & s & E). pose proof (from_blank_sound _ _ _ E) as Hrun. exists T, s.
  assert (Hfacts : hs_next_ptr s = 3 /\ (txn_validate quiet (tx_ops demo_txn) s).1 = 0).
  { demo_fact H E (fun (T : list call) (s : ak_heap_state) => (hs_next_ptr s =? 3) && ((txn_validate quiet (tx_ops demo_txn) s).1 =? 0)).
    apply andb_true_iff in H as [H1 H2]. split; lia. }
  clear E. destruct Hfacts as (Hnp & Hval).
  destruct (commit_all_or_nothing T s (fun _ => True) quiet (fun _ => calm) demo_txn Hrun eq_refl) as (r & s' & Hcommit & Hcase).
  - rewrite Hnp. vm_compute. done.
  - change (omap target (tx_ops demo_txn)) with [1]. apply NoDup_singleton.
  - repeat constructor. done.
  - apply leaves_quiet.
  - done.
  - exists s'. assert (Hr : r = 0).
    { unfold ak_heap_txn_commit in Hcommit. cbn [tx_active demo_txn negb] in Hcommit. fold demo_txn in Hcommit.
      destruct (txn_validate quiet (tx_ops demo_txn) s) as [r1 s1]. cbn [fst] in Hval. subst r1. cbn [Z.eqb negb] in Hcommit.
      destruct (txn_apply_all _ _ _ _); cbn [obind] in Hcommit; congruence. }
    subst r. destruct Hcase as [(Hr & _)|(_ & _ & Hcm)]; [done|]. split_and!; [done..|].
    destruct (cm_allocs _ _ _ _ _ Hcm 1%nat _ eq_refl eq_refl eq_refl) as (o1 & (_ & Hv & _) & Hf).
    change (allocs (fun _ => calm) (take 1 (tx_ops demo_txn))) with 0 in Hf. rewrite Hnp in Hf. exists o1. split; [exact Hf|]. by injection Hv.
Defined.

(** ** Commits are runs *)

(** What the second phase calls. *)
Definition call_of (op : ak_txn_op) : heap_op :=
  match op with
  | TXN_OP_ALLOC _ type_hash value taint run_id => OAlloc type_hash (default [] value) (Some run_id) taint
  | TXN_OP_WRITE ptr value v => OWrite ptr value v
  | TXN_OP_DELETE ptr v => ODelete ptr v
  end.

Lemma apply_is_call m op s : copied op -> exists r s', heap_do m (call_of op) s = Ret (r, s') /\ txn_apply m op s = Ret s'.
Proof.
  intros Hc. destruct op as [ptr th [x|] taint run|ptr value v|ptr v]; cbn [copied call_of heap_do txn_apply from_option id] in *; try done.
  - destruct (ak_heap_alloc m th x (Some run) taint s) as [r s'] eqn:E. by exists r, s'.
  - destruct (ak_heap_write m ptr value v s) as [[r x] s'] eqn:E. by exists r, s'.
  - destruct (ak_heap_delete m ptr v s) as [r s'] eqn:E. by exists r, s'.
Qed.

(** The states between the calls of the second phase. *)
Fixpoint phase2_states (ms : nat -> sys) (ops : list ak_txn_op) (s : ak_heap_state) : list ak_heap_state :=
  match ops with
  | [] => []
  | op :: ops' =>
      match txn_apply (ms 0%nat) op s with
      | Ret s' => s' :: phase2_states (fun i => ms (S i)) ops' s'
      | _ => []
      end
  end.

Lemma validate_quiet ops s : (txn_validate quiet ops s).2 = s.
Proof. induction ops as [|op ops IH]; [done|]. cbn [txn_validate]. change (quiet 0%nat s) with s. cbv zeta. by destruct (_ =? 0). Qed.

(** An undisturbed commit continues the run it starts from by the calls it makes:
    what holds of every run holds across commits. *)
Lemma commit_is_run T s ms t :
  hrun T s -> Forall copied (tx_ops t) -> Forall fits (phase2_states ms (tx_ops t) s) ->
  Z.of_nat (length T) + Z.of_nat (length (tx_ops t)) + 3 < M64 ->
  exists r t' s' T', ak_heap_txn_commit quiet ms (Some t) s = Ret (r, t', s') /\ hrun (T' ++ T) s'.
Proof.
  intros Hrun Hcp Hfit Hlen. unfold ak_heap_txn_commit. destruct (tx_active t); cbn [negb]; [|by eexists _, _, s, []].
  pose proof (validate_quiet (tx_ops t) s) as Hv. destruct (txn_validate quiet (tx_ops t) s) as [r s1]. cbn [snd] in Hv. subst s1.
  destruct (negb _); [by eexists _, _, s, []|]. clear r.
  assert (G : forall n ops ms T s, hrun T s -> Forall copied ops -> Forall fits (phase2_states ms ops s) -> Z.of_nat (length T) + Z.of_nat (length ops) + 3 < M64 ->
    exists s' T', txn_apply_all (later n quiet) ms ops s = Ret s' /\ hrun (T' ++ T) s').
  { clear. intros n ops. revert n. induction ops as [|op ops IH]; intros n ms T s Hrun Hcp Hfit Hlen; cbn [txn_apply_all]; [by exists s, []|].
    apply Forall_cons in Hcp as [Hc Hcp]. change (later n quiet 0%nat s) with s. destruct (apply_is_call (ms 0%nat) op s Hc) as (r & s1 & Hdo & Hap).
    cbn [phase2_states] in Hfit. rewrite Hap in *. apply Forall_cons in Hfit as [Hf Hfit]. cbn [obind length] in *.
    destruct (IH n (fun i => ms (S i)) ((ms 0%nat, call_of op, r, s) :: T) s1) as (s' & T' & E & Hr); [apply hrun_step; (done || lia)|done|done|cbn [length]; lia|].
    exists s', (T' ++ [(ms 0%nat, call_of op, r, s)]). split; [exact E|]. by rewrite <-app_assoc. }
  destruct (G (length (tx_ops t)) (tx_ops t) ms T s Hrun Hcp Hfit Hlen) as (s' & T' & -> & Hr). by eexists _, _, s', T'.
Qed.

(** ** Where a commit is not all or nothing *)

(** Whether the commit of [ops] on the demonstration heap returns 0, and the
    value of object 1 then. *)
Definition commit_demo (others : others_t) (ops : list ak_txn_op) : option (bool * option bytes) :=
  match from_blank demo_ops with
  | Some (_, s) =>
      match ak_heap_txn_commit others (fun _ => calm) (Some (mk_txn ops (Z.of_nat (length ops)) true)) s with
      | Ret (r, _, s') => Some (r =? 0, obj_value <$> find_object s' 1)
      | _ => None
      end
  | None => None
  end.

(** Patches are not tried in the first phase: an inapplicable one is dropped and
    the commit reports success. *)
Lemma commit_drops_inapplicable_patch :
  commit_demo quiet [TXN_OP_WRITE 1 (Some JQ"[{'op':'remove','path':'/none'}]") 2] = Some (true, Some JQ"{'a':2}").
Proof. vm_compute. reflexivity. Qed.

(** Both writes pass the check against the same version; the second is then
    refused by the compare-and-swap and lost, and the commit reports success. *)
Lemma commit_drops_second_write :
  commit_demo quiet [TXN_OP_WRITE 1 (Some JQ"[{'op':'replace','path':'/a','value':5}]") 2;
               TXN_OP_WRITE 1 (Some JQ"[{'op':'replace','path':'/a','value':6}]") 2] = Some (true, Some JQ"{'a':5}").
Proof. vm_compute. reflexivity. Qed.

(** Another thread writes the object between the phases: the write of the commit
    is lost, and the commit reports success. *)
Lemma commit_loses_race :
  commit_demo (fun k s => if (k =? 1)%nat then (ak_heap_write calm 1 (Some JQ"[{'op':'replace','path':'/a','value':7}]") 2 s).2 else s)
    [TXN_OP_WRITE 1 (Some JQ"[{'op':'replace','path':'/a','value':5}]") 2] = Some (true, Some JQ"{'a':7}").
Proof. vm_compute. reflexivity. Qed.

(** A provisional pointer counts every buffered operation, the pointer handed
    out at commit only the allocations. *)
Lemma provisional_pointer_differs :
  match from_blank demo_ops with
  | Some (_, s) =>
      let t := (ak_heap_txn_write calm (ak_heap_txn_begin true s) 1 JQ"[]" 2).2 in
      let '(ptr, t) := ak_heap_txn_alloc calm t 5 JQ"{}" None 0 s in
      match ak_heap_txn_commit quiet (fun _ => calm) t s with
      | Ret (0, _, s') => Some (ptr, ak_heap_exists s' ptr, ak_heap_exists s' 3)
      | _ => None
      end
  | None => None
  end = Some (4, false, true).
Proof. vm_compute. reflexivity. Qed.
