(* ===== verification/HeapSnapshot.v ===== *)
(** * Heap snapshots ([src/src/agentic/ak_heap.c])

    The canonical JSON text of an object and of the whole heap, and the restore
    that reads it back with the scanner of the patch engine, object by object,
    into a heap that may already hold some of them. *)

From S2P Require Import Prelude Crypto Sequence Json Policy JsonText JsonPatch PtrTable Heap HeapRun.

Definition AK_E_JSON_INVALID : Z := -4004.
Definition AK_TAINT_SANITIZED_PATH : Z := 11.
Definition AK_TAINT_SANITIZED_SQL : Z := 12.
Definition AK_TAINT_SANITIZED_CMD : Z := 13.

(** ** Writing *)

(** Digits least significant first, then reversed; 20 are enough. *)
Definition serialize_write_u64 (val : Z) : bytes := if val =? 0 then [48] else dec_digits 20 val [].

Definition serialize_write_hex_string (data : bytes) : bytes := QT :: ak_hex_encode data ++ [QT].

Definition taint_to_string (taint : Z) : bytes :=
  if taint =? AK_TAINT_TRUSTED then B"trusted"
  else if taint =? AK_TAINT_SANITIZED_URL then B"sanitized_url"
  else if taint =? AK_TAINT_SANITIZED_PATH then B"sanitized_path"
  else if taint =? AK_TAINT_SANITIZED_SQL then B"sanitized_sql"
  else if taint =? AK_TAINT_SANITIZED_CMD then B"sanitized_cmd"
  else if taint =? AK_TAINT_SANITIZED_HTML then B"sanitized_html"
  else if taint =? AK_TAINT_UNTRUSTED then B"untrusted"
  else B"unknown".

Definition serialize_object_internal (al : bool) (o : ak_heap_object) : option bytes :=
  if negb al then None
  else Some (
    B"{" ++ JQ"'ptr':" ++ serialize_write_u64 (obj_ptr o) ++
    JQ",'type_hash':" ++ serialize_write_u64 (obj_type_hash o) ++
    JQ",'version':" ++ serialize_write_u64 (obj_version o) ++
    JQ",'created_ms':" ++ serialize_write_u64 (obj_created_ms o) ++
    JQ",'modified_ms':" ++ serialize_write_u64 (obj_modified_ms o) ++
    JQ",'taint':'" ++ taint_to_string (obj_taint o) ++ JQ"'" ++
    JQ",'deleted':" ++ (if obj_deleted o then B"true" else B"false") ++
    JQ",'owner_run_id':" ++ serialize_write_hex_string (obj_owner_run_id o) ++
    JQ",'value':" ++ (match obj_value o with [] => B"null" | v => v end) ++ B"}").

Definition ak_heap_serialize_object (al : bool) (s : ak_heap_state) (ptr : Z) : option bytes :=
  if negb (hs_initialized s) then None
  else match find_object s ptr with Some obj => serialize_object_internal al obj | None => None end.

(** The loop over the objects; [first] decides about the comma. *)
Fixpoint snapshot_objects (al : nat -> bool) (l : list ak_heap_object) (first : bool) (result : bytes) : option bytes :=
  match l with
  | [] => Some result
  | o :: l' =>
      match serialize_object_internal (al 0%nat) o with
      | None => None
      | Some objbuf => snapshot_objects (fun i => al (S i)) l' false (result ++ (if first then [] else [44]) ++ objbuf)
      end
  end.

(** The objects are visited bucket by bucket. *)
Definition ak_heap_snapshot (al_result : bool) (al : nat -> bool) (s : ak_heap_state) : option bytes :=
  if negb (hs_initialized s) then None
  else if negb al_result then None
  else
    let head := JQ"{'version':1,'next_ptr':" ++ serialize_write_u64 (hs_next_ptr s) ++
                JQ",'object_count':" ++ serialize_write_u64 (hs_object_count s) ++ JQ",'objects':[" in
    match snapshot_objects al (concat (hs_objects s)) true head with
    | None => None
    | Some result => Some (result ++ B"]}")
    end.

(** ** Reading *)

Definition taint_names : list (bytes * Z) :=
  [(B"trusted", AK_TAINT_TRUSTED); (B"sanitized_url", AK_TAINT_SANITIZED_URL); (B"sanitized_path", AK_TAINT_SANITIZED_PATH);
   (B"sanitized_sql", AK_TAINT_SANITIZED_SQL); (B"sanitized_cmd", AK_TAINT_SANITIZED_CMD);
   (B"sanitized_html", AK_TAINT_SANITIZED_HTML); (B"untrusted", AK_TAINT_UNTRUSTED)].

Fixpoint taint_walk (names : list (bytes * Z)) (s : bytes) : Z :=
  match names with
  | [] => AK_TAINT_UNTRUSTED
  | (name, taint) :: names' => if bytes_eqb s name then taint else taint_walk names' s
  end.
Definition taint_from_string (s : bytes) : Z := taint_walk taint_names s.

Fixpoint parse_digits (l : bytes) (v : Z) : option Z :=
  match l with
  | [] => Some v
  | c :: l' =>
      if (c <? 48) || (57 <? c) then None
      else let digit := c - 48 in
           if (UINT64_MAX - digit) / 10 <? v then None else parse_digits l' (v * 10 + digit)
  end.

(** On the bytes of the range. *)
Definition parse_u64_range (l : bytes) : option Z := match l with [] => None | _ => parse_digits l 0 end.

Definition hex_nibble (c : Z) : option Z :=
  if (48 <=? c) && (c <=? 57) then Some (c - 48)
  else if (97 <=? c) && (c <=? 102) then Some (c - 97 + 10)
  else if (65 <=? c) && (c <=? 70) then Some (c - 65 + 10)
  else None.

(** The bytes of a member's value: [json_object_find(...) && found]. *)
Definition field (d : bytes) (obj_pos : nat) (key : bytes) : option bytes :=
  match json_object_find d obj_pos key with
  | Some r => if fr_found r then Some (slice (fr_vstart r) (fr_vend r - fr_vstart r) d) else None
  | None => None
  end.

(** An optional number keeps its default when absent or malformed. *)
Definition number_field (d : bytes) (obj_pos : nat) (key : bytes) (default : Z) : Z :=
  match field d obj_pos key with
  | Some t => match parse_u64_range t with Some v => v | None => default end
  | None => default
  end.

Definition taint_field (d : bytes) (obj_pos : nat) : Z :=
  match field d obj_pos B"taint" with
  | Some (c :: t) => if (1 <=? length t)%nat && (c =? QT) then taint_from_string (take (length t - 1) t) else AK_TAINT_UNTRUSTED
  | _ => AK_TAINT_UNTRUSTED
  end.

Definition deleted_field (d : bytes) (obj_pos : nat) : bool :=
  match field d obj_pos B"deleted" with Some t => bytes_eqb t B"true" | None => false end.

(** The loop over 16 pairs; [None] when a digit is bad. *)
Fixpoint run_id_loop (n : nat) (t : bytes) : option bytes :=
  match n, t with
  | S n', h :: l :: t' =>
      match hex_nibble h, hex_nibble l with
      | Some hi, Some lo => cons (Z.lor (Z.shiftl hi 4) lo) <$> run_id_loop n' t'
      | _, _ => None
      end
  | _, _ => Some []
  end.

Definition run_id_field (d : bytes) (obj_pos : nat) : bytes :=
  match field d obj_pos B"owner_run_id" with
  | Some (c :: t) =>
      if (S (length t) =? 2 + AK_TOKEN_ID_SIZE * 2)%nat && (c =? QT) then
        match run_id_loop AK_TOKEN_ID_SIZE t with Some r => r | None => zeros AK_TOKEN_ID_SIZE end
      else zeros AK_TOKEN_ID_SIZE
  | _ => zeros AK_TOKEN_ID_SIZE
  end.

Definition nonzero_or (v w : Z) : Z := if negb (v =? 0) then v else w.

(** The fields assigned at the end, on a new or an existing object. *)
Definition rebuild (ptr type_hash version created modified taint : Z) (deleted : bool) (run_id value : bytes) (now : Z) : ak_heap_object :=
  let created := nonzero_or created now in
  mk_object ptr type_hash (nonzero_or version 1) created (nonzero_or modified created) taint deleted run_id value.

(** An existing object keeps its pointer. *)
Definition replace_fields (o old : ak_heap_object) : ak_heap_object :=
  mk_object (obj_ptr old) (obj_type_hash o) (obj_version o) (obj_created_ms o) (obj_modified_ms o) (obj_taint o) (obj_deleted o)
    (obj_owner_run_id o) (obj_value o).

(** Insert or replace, with the accounting; the last step moves the generator. *)
Definition upsert (m : sys) (o : ak_heap_object) (s : ak_heap_state) : Z * ak_heap_state :=
  let ptr := obj_ptr o in
  let advance (s : ak_heap_state) :=
    set_counts (hs_object_count s) (hs_deleted_count s) (if hs_next_ptr s <=? ptr then u64 (ptr + 1) else hs_next_ptr s) s in
  match find_object s ptr with
  | Some old =>
      let dc := if obj_deleted old && negb (obj_deleted o) then u64 (hs_deleted_count s - 1)
                else if negb (obj_deleted old) && obj_deleted o then u64 (hs_deleted_count s + 1)
                else hs_deleted_count s in
      let s := set_bytes_used (u64 (sub_clamped (hs_bytes_used s) (zlen (obj_value old)) + zlen (obj_value o))) s in
      let s := set_counts (hs_object_count s) dc (hs_next_ptr s) s in
      (0, advance (set_objects (table_alter (replace_fields o) (hs_objects s) ptr) s))
  | None =>
      if negb (al_obj m) then (- ENOMEM, s)
      else
        let s := set_objects (table_push (hs_objects s) ptr o) s in
        let s := set_counts (u64 (hs_object_count s + 1))
                   (if obj_deleted o then u64 (hs_deleted_count s + 1) else hs_deleted_count s) (hs_next_ptr s) s in
        (0, advance (set_bytes_used (u64 (hs_bytes_used s + zlen (obj_value o))) s))
  end.

Definition restore_object_json (m : sys) (d : bytes) (obj_pos : nat) (s : ak_heap_state) : Z * ak_heap_state :=
  match field d obj_pos B"ptr" with
  | None => (AK_E_JSON_INVALID, s)
  | Some t =>
      match parse_u64_range t with
      | None => (AK_E_JSON_INVALID, s)
      | Some ptr =>
          if ptr =? 0 then (AK_E_JSON_INVALID, s)
          else
            let type_hash := number_field d obj_pos B"type_hash" 0 in
            let version := number_field d obj_pos B"version" 1 in
            let created := number_field d obj_pos B"created_ms" 0 in
            let modified := number_field d obj_pos B"modified_ms" 0 in
            match field d obj_pos B"value" with
            | None | Some [] => (AK_E_JSON_INVALID, s)
            | Some value =>
                if negb (al_value m) then (- ENOMEM, s)
                else upsert m (rebuild ptr type_hash version created modified (taint_field d obj_pos) (deleted_field d obj_pos)
                                 (run_id_field d obj_pos) value (now_object m)) s
            end
      end
  end.

(** The loop over the array in [d[0..ve)]; [None] when the fuel runs out. *)
Fixpoint restore_loop (ms : nat -> sys) (fuel : nat) (d : bytes) (p : nat) (s : ak_heap_state) : option (Z * ak_heap_state) :=
  if negb (p <? length d)%nat then Some (0, s)
  else
    match fuel with
    | O => None
    | S fuel' =>
        let p := json_skip_ws d p in
        if negb (is_at d p 123) then Some (AK_E_JSON_INVALID, s)
        else
          match json_skip_value d p with
          | None => Some (AK_E_JSON_INVALID, s)
          | Some e =>
              let '(r, s) := restore_object_json (ms 0%nat) (take e d) p s in
              if negb (r =? 0) then Some (r, s)
              else
                let q := json_skip_ws d e in
                if is_at d q 44 then restore_loop (fun i => ms (S i)) fuel' d (q + 1) s
                else if is_at d q 93 then Some (0, s)
                else Some (AK_E_JSON_INVALID, s)
          end
    end.

(** The pointer generator is never moved backwards. *)
Definition restore_next_ptr (d : bytes) (pos : nat) (s : ak_heap_state) : ak_heap_state :=
  match field d pos B"next_ptr" with
  | Some t =>
      match parse_u64_range t with
      | Some np => if hs_next_ptr s <? np then set_counts (hs_object_count s) (hs_deleted_count s) np s else s
      | None => s
      end
  | None => s
  end.

Definition ak_heap_restore (ms : nat -> sys) (snapshot : option bytes) (s : ak_heap_state) : option (Z * ak_heap_state) :=
  match snapshot with
  | None | Some [] => Some (- EINVAL, s)
  | Some d =>
      if negb (hs_initialized s) then Some (- EINVAL, s)
      else
        let pos := json_skip_ws d 0 in
        if negb (is_at d pos 123) then Some (AK_E_JSON_INVALID, s)
        else
          match json_object_find d pos B"objects" with
          | None => Some (AK_E_JSON_INVALID, s)
          | Some r =>
              if fr_found r then
                let dv := take (fr_vend r) d in
                let p := json_skip_ws dv (fr_vstart r) in
                if negb (is_at dv p 91) then Some (AK_E_JSON_INVALID, s)
                else
                  let p := json_skip_ws dv (p + 1) in
                  match (if is_at dv p 93 then Some (0, s) else restore_loop ms (length dv) dv p s) with
                  | None => None
                  | Some (result, s) => Some (result, if result =? 0 then restore_next_ptr d pos s else s)
                  end
              else Some (restore_object_json (ms 0%nat) d pos s)
          end
  end.

(** ** Termination *)

Lemma string_run_pos s n : string_run s = Some n -> (1 <= n)%nat.
Proof.
  destruct s as [|c s]; cbn [string_run]; [done|]. destruct (c =? BSL); [destruct s as [|e s]; [done|]; destruct (string_run s)|].
  - intros [= <-]. lia.
  - done.
  - destruct (c =? QT); [intros [= <-]; lia|]. destruct (string_run s); [intros [= <-]; lia|done].
Qed.

Lemma nest_run_pos fuel s depth n : nest_run fuel s depth = Some n -> (1 <= n)%nat.
Proof.
  destruct s as [|c s], fuel as [|fuel]; cbn [nest_run]; try done.
  destruct (c =? QT); [destruct (string_run s) as [k|]; [|done]; destruct (nest_run _ _ _); [intros [= <-]; lia|done]|].
  destruct (open_char c); [destruct (nest_run _ _ _); [intros [= <-]; lia|done]|].
  destruct (close_char c); [|destruct (nest_run _ _ _); [intros [= <-]; lia|done]].
  destruct depth as [|[|depth]]; [done|intros [= <-]; lia|]. destruct (nest_run _ _ _); [intros [= <-]; lia|done].
Qed.

(** A skipped value is not empty. *)
Lemma skip_value_advances d p e : json_skip_value d p = Some e -> (p < e)%nat.
Proof.
  unfold json_skip_value. assert (p <= json_skip_ws d p)%nat by (unfold json_skip_ws; lia). set (q := json_skip_ws d p) in *.
  destruct (drop q d) as [|c s] eqn:Ed; [done|]. destruct (c =? QT) eqn:Eq.
  - unfold json_skip_string. rewrite Ed, Eq. destruct (string_run s) as [n|] eqn:Es; [|done]. intros [= <-]. lia.
  - destruct (open_char c).
    + destruct (nest_run _ _ _) as [n|] eqn:En; [|done]. apply nest_run_pos in En. intros [= <-]. lia.
    + destruct (_ || _); [intros [= <-]; lia|].
      destruct (c =? 116); [destruct (bytes_eqb _ _); [intros [= <-]; lia|done]|].
      destruct (c =? 102); [destruct (bytes_eqb _ _); [intros [= <-]; lia|done]|].
      destruct (c =? 110); [destruct (bytes_eqb _ _); [intros [= <-]; lia|done]|done].
Qed.

Lemma is_at_lt d p x : is_at d p x = true -> (p < length d)%nat.
Proof. unfold is_at. destruct (d !! p) eqn:E; [|done]. intros _. by eapply lookup_lt_Some. Qed.

Lemma restore_loop_total ms fuel d p s : (length d - p <= fuel)%nat -> exists x, restore_loop ms fuel d p s = Some x.
Proof.
  revert ms p s. induction fuel as [|fuel IH]; intros ms p s Hf; cbn [restore_loop]; destruct (Nat.ltb_spec p (length d)); cbn [negb]; eauto; [lia|].
  destruct (negb (is_at _ _ _)); [eauto|]. destruct (json_skip_value _ _) as [e|] eqn:Ee; [|eauto].
  apply skip_value_advances in Ee. destruct (restore_object_json _ _ _ _) as [r s1]. destruct (negb (r =? 0)); [eauto|].
  destruct (is_at d (json_skip_ws d e) 44) eqn:E44; [|destruct (is_at _ _ 93); eauto]. apply is_at_lt in E44. apply IH.
  unfold json_skip_ws in *. lia.
Qed.

(** ** Reading printed members *)

Fixpoint first_key (key : bytes) (l : list item) : option item :=
  match l with
  | [] => None
  | it :: l' => if bytes_eqb (key_of it) key then Some it else first_key key l'
  end.

Lemma first_key_split key l it :
  first_key key l = Some it -> exists l1 l2, l = l1 ++ it :: l2 /\ key_of it = key /\ Forall (fun x => key_of x <> key) l1.
Proof.
  induction l as [|x l IH]; cbn [first_key]; [done|]. destruct (bytes_eqb (key_of x) key) eqn:E.
  - intros [= <-]. exists [], l. split_and!; [done|by apply bytes_eqb_eq|constructor].
  - intros H. destruct (IH H) as (l1 & l2 & -> & Hk & Hl). exists (x :: l1), l2. split_and!; [done..|]. constructor; [|done].
    intros Hx. apply bytes_eqb_eq in Hx. congruence.
Qed.

Lemma first_key_none key l : first_key key l = None -> Forall (fun x => key_of x <> key) l.
Proof.
  induction l as [|x l IH]; cbn [first_key]; [constructor|]. destruct (bytes_eqb (key_of x) key) eqn:E; [done|].
  intros H. constructor; [|auto]. intros Hx. apply bytes_eqb_eq in Hx. congruence.
Qed.

(** The range of the first member with a key. *)
Lemma find_member A w l rest key it :
  wf_cst (CBox true w l) -> first_key key l = Some it ->
  exists r pre post, json_object_find (A ++ print (CBox true w l) ++ rest) (length A) key = Some r /\ fr_found r = true /\
    A ++ print (CBox true w l) ++ rest = pre ++ print (it_val it) ++ post /\
    fr_vstart r = length pre /\ fr_vend r = (length pre + length (print (it_val it)))%nat.
Proof.
  intros Hc Hk. apply first_key_split in Hk as (l1 & l2 & -> & <- & Hl).
  eexists _, (A ++ open_of true :: lead l1 ++ it_w1 it ++ head_text (it_head it)), (it_w4 it ++ trail l2 ++ close_of true :: rest).
  rewrite object_find_box by done. split; [done|]. rewrite visit_key_some by done. split_and!; [done| | |].
  - rewrite print_box, print_split. unfold print_item. asc.
  - cbn [closed_at found_item fr_vstart]. unfold value_at, start_at. lens.
  - cbn [closed_at found_item fr_vend]. unfold end_at, value_at, start_at. lens.
Qed.

Lemma field_box A w l rest key :
  wf_cst (CBox true w l) ->
  field (A ++ print (CBox true w l) ++ rest) (length A) key = (fun it => print (it_val it)) <$> first_key key l.
Proof.
  intros Hc. destruct (first_key key l) as [it|] eqn:Ek; unfold field.
  - destruct (find_member A w l rest key it Hc Ek) as (r & pre & post & -> & -> & -> & -> & ->). cbn [fmap option_fmap option_map].
    f_equal. unfold slice. rewrite drop_app_length. replace (length pre + length (print (it_val it)) - length pre)%nat with (length (print (it_val it))) by lia.
    apply take_app_length.
  - rewrite object_find_box by done. rewrite visit_key_none by (by apply first_key_none). done.
Qed.

(** ** The text of an object *)

Definition obj_items (o : ak_heap_object) (c : cst) : list item :=
  [memb B"ptr" (CLit (serialize_write_u64 (obj_ptr o)));
   memb B"type_hash" (CLit (serialize_write_u64 (obj_type_hash o)));
   memb B"version" (CLit (serialize_write_u64 (obj_version o)));
   memb B"created_ms" (CLit (serialize_write_u64 (obj_created_ms o)));
   memb B"modified_ms" (CLit (serialize_write_u64 (obj_modified_ms o)));
   memb B"taint" (CStr (taint_to_string (obj_taint o)));
   memb B"deleted" (CLit (if obj_deleted o then B"true" else B"false"));
   memb B"owner_run_id" (CStr (ak_hex_encode (obj_owner_run_id o)));
   memb B"value" c].

Definition obj_box (o : ak_heap_object) (c : cst) : cst := CBox true [] (obj_items o c).

Lemma print_memb k v : print_item (memb k v) = QT :: k ++ QT :: 58 :: print v.
Proof. unfold print_item, memb, it_w1, it_head, it_val, it_w4. cbn. rewrite app_nil_r. by rewrite <-app_assoc. Qed.

Lemma print_elem v : print_item (elem v) = print v.
Proof. unfold print_item, elem, it_w1, it_head, it_val, it_w4. cbn. by rewrite app_nil_r. Qed.

Lemma serialize_text o c :
  wf_cst c -> print c = obj_value o -> serialize_object_internal true o = Some (print (obj_box o c)).
Proof.
  intros Hc Hv. unfold serialize_object_internal. cbn [negb]. f_equal. unfold obj_box. rewrite print_box.
  unfold obj_items. cbn [print_items map]. rewrite !join_cons, !print_memb. cbn [print].
  assert (Hval : match obj_value o with [] => B"null" | v => v end = print c).
  { destruct (print_head c Hc) as (x & t & E & _). rewrite <-Hv. rewrite E. reflexivity. }
  rewrite Hval. unfold serialize_write_hex_string. cbn [join]. cbn [ascii_bytes jq map app]. asc.
Qed.

(** Numbers come back. *)
Lemma write_u64_spec v :
  0 <= v <= UINT64_MAX ->
  Forall (fun c => is_dec c = true) (serialize_write_u64 v) /\ dec_value 0 (serialize_write_u64 v) = v /\ serialize_write_u64 v <> [].
Proof. apply u64_to_dec_spec. Qed.

Lemma parse_digits_value l v :
  Forall (fun c => is_dec c = true) l -> 0 <= v -> dec_value v l <= UINT64_MAX -> parse_digits l v = Some (dec_value v l).
Proof.
  intros Hl. revert v. induction Hl as [|c l Hc Hl IH]; intros v Hv Hb; cbn [parse_digits]; [done|].
  change (dec_value v (c :: l)) with (dec_value (v * 10 + (c - 48)) l) in *. unfold is_dec in Hc. bprop.
  pose proof (dec_value_mono (v * 10 + (c - 48)) l ltac:(lia) Hl).
  destruct (Z.ltb_spec c 48); [lia|]. destruct (Z.ltb_spec 57 c); [lia|]. cbn [orb].
  pose proof (Z.mul_succ_div_gt (UINT64_MAX - (c - 48)) 10 ltac:(lia)).
  destruct (Z.ltb_spec ((UINT64_MAX - (c - 48)) / 10) v); [lia|]. apply IH; lia.
Qed.

Lemma parse_written v : 0 <= v <= UINT64_MAX -> parse_u64_range (serialize_write_u64 v) = Some v.
Proof.
  intros Hv. destruct (write_u64_spec v Hv) as (Hd & He & Hne). unfold parse_u64_range.
  destruct (serialize_write_u64 v) as [|c l] eqn:E; [done|]. rewrite <-E in *. rewrite parse_digits_value; [by rewrite He|done|lia|lia].
Qed.

Lemma wf_number v : 0 <= v <= UINT64_MAX -> wf_cst (CLit (serialize_write_u64 v)).
Proof.
  intros Hv. destruct (write_u64_spec v Hv) as (Hd & _ & Hne). constructor. do 3 right.
  destruct (serialize_write_u64 v) as [|c l]; [done|]. inversion Hd as [|? ? Hc Hl]; subst. exists c, l. split_and!; [done| |].
  - unfold digit_char. unfold is_dec in Hc. by rewrite Hc, orb_true_r.
  - eapply Forall_impl; [exact Hl|]. intros x Hx. unfold num_char, digit_char. unfold is_dec in Hx. by rewrite Hx.
Qed.

(** Taint names come back. *)
Definition known_taint (t : Z) : bool := existsb (fun n => n.2 =? t) taint_names.

Lemma taint_round_trip t : known_taint t = true -> taint_from_string (taint_to_string t) = t.
Proof.
  unfold known_taint, taint_names. cbn [existsb snd]. intros H.
  repeat (apply orb_prop in H as [H|H]; [apply Z.eqb_eq in H as <-; reflexivity|]). done.
Qed.

Lemma wf_taint t : wf_cst (CStr (taint_to_string t)).
Proof. constructor. unfold taint_to_string. repeat case_match; reflexivity. Qed.

(** Run identifiers come back. *)
Lemma nibble_table :
  forallb (fun n => let c := hex_chars !!! n in
    match hex_nibble c with Some k => (k =? Z.of_nat n) && negb (c =? BSL) && negb (c =? QT) | None => false end) (seq 0 16) = true.
Proof. vm_compute. reflexivity. Qed.

Lemma nibble_digit k : 0 <= k < 16 ->
  hex_nibble (hex_chars !!! Z.to_nat k) = Some k /\ hex_chars !!! Z.to_nat k <> BSL /\ hex_chars !!! Z.to_nat k <> QT.
Proof.
  intros Hk. pose proof nibble_table as H. rewrite forallb_forall in H. specialize (H (Z.to_nat k) ltac:(apply in_seq; lia)). cbv zeta in H.
  destruct (hex_nibble _) as [n|]; [|done]. bprop. split_and!; [f_equal; lia|intros E; rewrite E in *; done..].
Qed.

Lemma byte_nibbles b : is_u8 b ->
  0 <= Z.land (Z.shiftr b 4) 15 < 16 /\ 0 <= Z.land b 15 < 16 /\ Z.lor (Z.shiftl (Z.land (Z.shiftr b 4) 15) 4) (Z.land b 15) = b.
Proof.
  intros Hb. assert (Ht : forallb (fun n => let b := Z.of_nat n in
    (0 <=? Z.land (Z.shiftr b 4) 15) && (Z.land (Z.shiftr b 4) 15 <? 16) && (0 <=? Z.land b 15) && (Z.land b 15 <? 16) &&
    (Z.lor (Z.shiftl (Z.land (Z.shiftr b 4) 15) 4) (Z.land b 15) =? b)) (seq 0 256) = true) by (vm_compute; reflexivity).
  rewrite forallb_forall in Ht. unfold is_u8 in Hb. specialize (Ht (Z.to_nat b) ltac:(apply in_seq; lia)). cbv zeta in Ht.
  rewrite Z2Nat.id in Ht by lia. bprop. lia.
Qed.

Lemma hex_encode_cons b r :
  ak_hex_encode (b :: r) = hex_chars !!! Z.to_nat (Z.land (Z.shiftr b 4) 15) :: hex_chars !!! Z.to_nat (Z.land b 15) :: ak_hex_encode r.
Proof. reflexivity. Qed.

Lemma run_id_round_trip n r rest : wf_bytes r -> length r = n -> run_id_loop n (ak_hex_encode r ++ rest) = Some r.
Proof.
  intros Hr <-. induction Hr as [|b r Hb Hr IH]; [done|]. cbn [length]. rewrite hex_encode_cons. cbn [app run_id_loop].
  destruct (byte_nibbles b Hb) as (H1 & H2 & H3). destruct (nibble_digit _ H1) as (-> & _). destruct (nibble_digit _ H2) as (-> & _).
  rewrite IH. cbn [fmap option_fmap option_map]. by rewrite H3.
Qed.

Lemma wf_hex r : wf_bytes r -> wf_cst (CStr (ak_hex_encode r)).
Proof.
  intros Hr. constructor. induction Hr as [|b r Hb Hr IH]; [done|]. rewrite hex_encode_cons. cbn [raw_ok].
  destruct (byte_nibbles b Hb) as (H1 & H2 & _). destruct (nibble_digit _ H1) as (_ & N1 & N2). destruct (nibble_digit _ H2) as (_ & N3 & N4).
  do 4 (rewrite (proj2 (Z.eqb_neq _ _)) by done). exact IH.
Qed.

(** ** Restoring the text of an object *)

(** What the text of an object can carry: 64-bit numbers, times other than 0, a
    level of the enumeration, 16 bytes of run id and JSON as the value. *)
Record portable (o : ak_heap_object) (c : cst) : Prop := {
  po_ptr : 1 <= obj_ptr o < UINT64_MAX;
  po_type : 0 <= obj_type_hash o <= UINT64_MAX;
  po_version : 1 <= obj_version o <= UINT64_MAX;
  po_created : 1 <= obj_created_ms o <= UINT64_MAX;
  po_modified : 1 <= obj_modified_ms o <= UINT64_MAX;
  po_taint : known_taint (obj_taint o) = true;
  po_run : wf_bytes (obj_owner_run_id o) /\ length (obj_owner_run_id o) = AK_TOKEN_ID_SIZE;
  po_value : wf_cst c /\ print c = obj_value o
}.

Lemma memb_layout k v : raw_ok k = true -> layout_ok true (memb k v).
Proof. intros Hk. split; [constructor|]. split; [|constructor]. cbn. split_and!; [done|done|constructor|constructor]. Qed.

Lemma wf_obj_box o c : portable o c -> wf_cst (obj_box o c).
Proof.
  intros [H1 H2 H3 H4 H5 H6 [H7 _] [H8 _]]. constructor; [constructor| |].
  - unfold obj_items. repeat constructor; by apply memb_layout.
  - unfold obj_items. repeat (constructor; [unfold it_val; cbn [memb fst snd]|]); [| | | | | | | |done|constructor]; try (apply wf_number; lia).
    + apply wf_taint.
    + constructor. destruct (obj_deleted o); [by left|right; by left].
    + by apply wf_hex.
Qed.

Section RestoreText.
Context (o : ak_heap_object) (c : cst) (A rest : bytes) (Ho : portable o c).
Let d : bytes := A ++ print (obj_box o c) ++ rest.

Lemma obj_field key it : first_key key (obj_items o c) = Some it -> field d (length A) key = Some (print (it_val it)).
Proof using Ho. intros Hk. unfold d, obj_box. rewrite field_box by (by apply wf_obj_box). by rewrite Hk. Qed.

Lemma obj_number_field key v default :
  first_key key (obj_items o c) = Some (memb key (CLit (serialize_write_u64 v))) -> 0 <= v <= UINT64_MAX ->
  number_field d (length A) key default = v.
Proof using Ho.
  intros Hk Hv. unfold number_field. rewrite (obj_field _ _ Hk). unfold it_val. cbn [memb fst snd print]. by rewrite parse_written.
Qed.

Lemma obj_taint_field : taint_field d (length A) = obj_taint o.
Proof using Ho.
  unfold taint_field. rewrite (obj_field B"taint" (memb B"taint" (CStr (taint_to_string (obj_taint o)))) eq_refl).
  unfold it_val. cbn [memb fst snd print]. rewrite length_app. cbn [length].
  replace (length (taint_to_string (obj_taint o)) + 1 - 1)%nat with (length (taint_to_string (obj_taint o))) by lia.
  rewrite take_app_length, Z.eqb_refl, taint_round_trip by apply Ho. by rewrite (proj2 (Nat.leb_le _ _)) by lia.
Qed.

Lemma obj_deleted_field : deleted_field d (length A) = obj_deleted o.
Proof using Ho.
  unfold deleted_field. rewrite (obj_field B"deleted" (memb B"deleted" (CLit (if obj_deleted o then B"true" else B"false"))) eq_refl).
  unfold it_val. cbn [memb fst snd print]. by destruct (obj_deleted o).
Qed.

Lemma obj_run_id_field : run_id_field d (length A) = obj_owner_run_id o.
Proof using Ho.
  destruct (po_run _ _ Ho) as [Hwf Hlen]. unfold run_id_field.
  rewrite (obj_field B"owner_run_id" (memb B"owner_run_id" (CStr (ak_hex_encode (obj_owner_run_id o)))) eq_refl).
  unfold it_val. cbn [memb fst snd print]. rewrite length_app, length_hex_encode, Hlen, Z.eqb_refl. cbn [length].
  rewrite (proj2 (Nat.eqb_eq _ _)) by (unfold AK_TOKEN_ID_SIZE; lia). cbn [andb]. by rewrite run_id_round_trip.
Qed.

Lemma restore_text m s : al_value m = true -> restore_object_json m d (length A) s = upsert m o s.
Proof using Ho.
  intros Hm. pose proof Ho as [H1 H2 H3 H4 H5 H6 H7 [Hc Hv]]. unfold restore_object_json.
  rewrite (obj_field B"ptr" (memb B"ptr" (CLit (serialize_write_u64 (obj_ptr o)))) eq_refl).
  rewrite (obj_field B"value" (memb B"value" c) eq_refl). unfold it_val. cbn [memb fst snd print].
  rewrite parse_written by lia. rewrite (proj2 (Z.eqb_neq _ _)) by lia. cbv zeta.
  rewrite (obj_number_field B"type_hash" (obj_type_hash o)) by (reflexivity || lia).
  rewrite (obj_number_field B"version" (obj_version o)) by (reflexivity || lia).
  rewrite (obj_number_field B"created_ms" (obj_created_ms o)) by (reflexivity || lia).
  rewrite (obj_number_field B"modified_ms" (obj_modified_ms o)) by (reflexivity || lia).
  rewrite obj_taint_field, obj_deleted_field, obj_run_id_field, Hm. cbn [negb].
  destruct (print_head c Hc) as (x & t & E & _). rewrite E. rewrite <-E, Hv. f_equal. unfold rebuild, nonzero_or.
  rewrite !(proj2 (Z.eqb_neq _ _)) by lia. cbn [negb]. by destruct o.
Qed.
End RestoreText.

(** ** Restoring a sequence of objects *)

Record accounted (s : ak_heap_state) : Prop := {
  ac_init : hs_initialized s = true;
  ac_wf : wf_ptable (hs_objects s);
  ac_entry : forall o, o ∈ entries (hs_objects s) -> 1 <= obj_ptr o < hs_next_ptr s;
  ac_next : 1 <= hs_next_ptr s < M64;
  ac_count : hs_object_count s = total (fun _ => 1) (hs_objects s);
  ac_deleted : hs_deleted_count s = total one_if_deleted (hs_objects s);
  ac_bytes : hs_bytes_used s = total obj_bytes (hs_objects s)
}.

Lemma run_accounted T s : hrun T s -> accounted s.
Proof.
  intros Hrun. destruct (run_inv _ _ Hrun) as (Hi & [Hwf Hn He Hc Hd Hb _] & _). split; try done.
  - intros o Ho. by apply He.
  - destruct Hrun; cbn [length] in Hn; [|lia]. lia.
Qed.

Lemma one_if_deleted_range o : 0 <= one_if_deleted o <= 1.
Proof. unfold one_if_deleted. destruct (obj_deleted o); lia. Qed.

(** A pointer the heap does not hold is inserted. *)
Lemma upsert_new m o s :
  accounted s -> find_object s (obj_ptr o) = None -> al_obj m = true -> 1 <= obj_ptr o < UINT64_MAX ->
  total (fun _ => 1) (hs_objects s) + 1 < M64 -> total obj_bytes (hs_objects s) + obj_bytes o < M64 ->
  exists s', upsert m o s = (0, s') /\ accounted s' /\ hs_next_ptr s' = Z.max (hs_next_ptr s) (obj_ptr o + 1) /\
    (forall q, find_object s' q = if obj_ptr o =? q then Some o else find_object s q) /\
    forall f, total f (hs_objects s') = total f (hs_objects s) + f o.
Proof.
  intros [Hi Hwf He Hn Hc Hd Hb] Hf Hm Hp H1 H2. unfold upsert. rewrite Hf, Hm. cbn [negb]. cbv zeta. eexists. split; [done|].
  rewrite find_object_table in Hf by done. assert (Hlen : (0 < length (hs_objects s))%nat) by apply Hwf.
  assert (Hnext : (if hs_next_ptr s <=? obj_ptr o then u64 (obj_ptr o + 1) else hs_next_ptr s) = Z.max (hs_next_ptr s) (obj_ptr o + 1)).
  { unfold UINT64_MAX in Hp. destruct (Z.leb_spec (hs_next_ptr s) (obj_ptr o)); [rewrite u64_small by lia|]; lia. }
  pose proof (total_nonneg_any (fun _ : ak_heap_object => 1) (hs_objects s) ltac:(lia)).
  pose proof (total_nonneg_any obj_bytes (hs_objects s) obj_bytes_nonneg). pose proof (obj_bytes_nonneg o). pose proof (one_if_deleted_range o).
  assert (Hdle : 0 <= total one_if_deleted (hs_objects s) <= total (fun _ => 1) (hs_objects s)).
  { split; [apply sum_by_nonneg; intros x|apply sum_by_mono; intros x _]; pose proof (one_if_deleted_range x); lia. }
  split_and!; fields.
  - split; fields.
    + done.
    + exact (wf_push (hs_objects s) o Hwf Hf).
    + intros x Hx. rewrite Hnext. apply entries_push in Hx as [->|Hx]; [lia|specialize (He x Hx); lia|done].
    + rewrite Hnext. unfold UINT64_MAX in Hp. lia.
    + rewrite total_push, u64_small by (done || lia). lia.
    + rewrite total_push by done. unfold one_if_deleted at 1. unfold one_if_deleted in H4. destruct (obj_deleted o); [rewrite u64_small by lia|]; lia.
    + rewrite total_push by done. change (zlen (obj_value o)) with (obj_bytes o). rewrite u64_small; lia.
  - done.
  - intros q. rewrite !find_object_table by done. fields. exact (lookup_push (hs_objects s) o q Hwf Hf).
  - intros f. rewrite total_push by done. lia.
Qed.

(** All of [l] was inserted. *)
Record restored (l : list ak_heap_object) (s s' : ak_heap_state) : Prop := {
  rs_ok : accounted s';
  rs_find : forall q, find_object s' q = match chain_lookup l q with Some o => Some o | None => find_object s q end;
  rs_next : hs_next_ptr s <= hs_next_ptr s' /\ forall n, hs_next_ptr s <= n -> (forall o, o ∈ l -> obj_ptr o < n) -> hs_next_ptr s' <= n;
  rs_total : forall f, total f (hs_objects s') = total f (hs_objects s) + sum_by f l
}.

Lemma restored_nil s : accounted s -> restored [] s s.
Proof. intros Hs. split; [done|done|split; [lia|auto]|]. intros f. unfold sum_by. cbn. lia. Qed.

Lemma restored_cons o l s s1 s' :
  hs_next_ptr s1 = Z.max (hs_next_ptr s) (obj_ptr o + 1) ->
  (forall q, find_object s1 q = if obj_ptr o =? q then Some o else find_object s q) ->
  (forall f, total f (hs_objects s1) = total f (hs_objects s) + f o) ->
  obj_ptr o ∉ map obj_ptr l -> restored l s1 s' -> restored (o :: l) s s'.
Proof.
  intros Hn Hf Ht Hni [Hok Hfind Hnext Htot]. split; [done| | |].
  - intros q. rewrite Hfind, Hf. cbn [chain_lookup]. change (ptr_of o) with (obj_ptr o).
    destruct (Z.eqb_spec (obj_ptr o) q) as [<-|]; [|done]. destruct (chain_lookup l (obj_ptr o)) as [x|] eqn:Ec; [|done].
    apply chain_lookup_Some in Ec as [Hin Hx]. destruct Hni. rewrite <-Hx. by apply list_elem_of_fmap_2.
  - destruct Hnext as [Hle Hub]. split; [lia|]. intros n Hsn Hall. apply Hub; [|intros x Hx; apply Hall; by right].
    specialize (Hall o ltac:(left)). lia.
  - intros f. rewrite Htot, Ht. change (sum_by f (o :: l)) with (f o + sum_by f l). lia.
Qed.

Definition object_items (l : list ak_heap_object) (cs : list cst) : list item := zip_with (fun o c => elem (obj_box o c)) l cs.

(** One round of the loop. *)
Lemma restore_round ms fuel A o c x rest s :
  portable o c -> sep_char x -> al_value (ms 0%nat) = true ->
  restore_loop ms (S fuel) (A ++ print (obj_box o c) ++ x :: rest) (length A) s =
  let '(r, s1) := upsert (ms 0%nat) o s in
  if negb (r =? 0) then Some (r, s1)
  else if x =? 44 then restore_loop (fun i => ms (S i)) fuel (A ++ print (obj_box o c) ++ x :: rest) (length A + length (print (obj_box o c)) + 1) s1
  else if x =? 93 then Some (0, s1) else Some (AK_E_JSON_INVALID, s1).
Proof.
  intros Ho Hx Hm. pose proof (wf_obj_box o c Ho) as Hwf. set (it := elem (obj_box o c)).
  assert (Hlay : layout_ok false it) by (split; [constructor|]; split; [done|constructor]).
  assert (Ep : print_item it = print (obj_box o c)) by apply print_elem.
  pose proof (item_start false A it x rest Hlay Hwf Hx) as I1. pose proof (item_value_end false A it x rest Hlay Hwf Hx) as I2.
  pose proof (item_end false A it x rest Hlay Hwf Hx) as I3. pose proof (item_sep A it x rest) as I4.
  cbv zeta in I1, I2, I3, I4. rewrite Ep in *.
  assert (Es : start_at (length A) it = length A) by (unfold start_at; cbn; lia).
  assert (Ev : value_at (length A) it = length A) by (unfold value_at; rewrite Es; cbn; lia).
  assert (Ee : end_at (length A) it = (length A + length (print (obj_box o c)))%nat) by (unfold end_at; by rewrite Ev).
  rewrite Es in I1. rewrite Ev, Ee in I2. rewrite Ee in I3. cbn [restore_loop].
  rewrite (proj2 (Nat.ltb_lt _ _)) by lens. cbn [negb]. cbv zeta. rewrite I1.
  replace (is_at (A ++ print (obj_box o c) ++ x :: rest) (length A) 123) with true.
  2:{ unfold obj_box. rewrite print_box. cbn [app]. by rewrite is_at_here. }
  cbn [negb]. rewrite I2.
  replace (take (length A + length (print (obj_box o c))) (A ++ print (obj_box o c) ++ x :: rest)) with (A ++ print (obj_box o c) ++ []).
  2:{ rewrite app_nil_r, <-length_app, (app_assoc A), take_app_length. done. }
  rewrite (restore_text o c A [] Ho) by done. destruct (upsert (ms 0%nat) o s) as [r s1]. destruct (negb (r =? 0)); [done|].
  rewrite I3, !I4. done.
Qed.

Definition plenty (m : sys) : Prop := al_obj m = true /\ al_value m = true.

Lemma restore_objects ms l cs fuel A s :
  Forall2 portable l cs -> l <> [] -> accounted s -> NoDup (map obj_ptr l) -> (forall o, o ∈ l -> find_object s (obj_ptr o) = None) ->
  (forall i, plenty (ms i)) -> (length l <= fuel)%nat ->
  total (fun _ => 1) (hs_objects s) + Z.of_nat (length l) < M64 -> total obj_bytes (hs_objects s) + sum_by obj_bytes l < M64 ->
  exists s', restore_loop ms fuel (A ++ join (map print_item (object_items l cs)) ++ [93]) (length A) s = Some (0, s') /\ restored l s s'.
Proof.
  intros Hl. revert ms fuel A s. induction Hl as [|o c l cs Ho Hl IH]; intros ms [|fuel] A s Hne Hs Hnd Hnew Hms Hf H1 H2; [done..|cbn in Hf; lia|].
  cbn [map] in Hnd. apply NoDup_cons in Hnd as [Hni Hnd]. cbn [length] in *.
  change (sum_by obj_bytes (o :: l)) with (obj_bytes o + sum_by obj_bytes l) in H2.
  pose proof (sum_by_nonneg obj_bytes l obj_bytes_nonneg). destruct (Hms 0%nat) as [Hm1 Hm2].
  destruct (upsert_new (ms 0%nat) o s Hs (Hnew o ltac:(left)) Hm1 (po_ptr _ _ Ho) ltac:(lia) ltac:(lia)) as (s1 & Eu & Hs1 & Hn & Hfind & Htot).
  destruct l as [|o2 l].
  - inversion Hl; subst. exists s1. unfold object_items. cbn [zip_with map join]. rewrite print_elem.
    rewrite restore_round by done. rewrite Eu. split; [done|]. eapply restored_cons; eauto. by apply restored_nil.
  - inversion Hl as [|? c2 ? cs2 Ho2 Hl2 Eo Ec]; subst. unfold object_items. cbn [zip_with map]. rewrite join_cons, print_elem, <-app_assoc, <-app_comm_cons.
    rewrite restore_round by done. rewrite Eu. cbn [negb Z.eqb].
    destruct (IH (fun i => ms (S i)) fuel (A ++ print (obj_box o c) ++ [44]) s1) as (s' & Es & Hr); try done.
    + intros x Hx. rewrite Hfind. destruct (Z.eqb_spec (obj_ptr o) (obj_ptr x)) as [E|]; [|apply Hnew; by right].
      exfalso. apply Hni. rewrite E. by apply list_elem_of_fmap_2.
    + lia.
    + rewrite Htot. cbv beta. cbn [length] in *. lia.
    + rewrite Htot. lia.
    + exists s'. split; [|by eapply restored_cons]. rewrite <-Es. unfold object_items. cbn [zip_with map].
      replace (length (A ++ print (obj_box o c) ++ [44])) with (length A + length (print (obj_box o c)) + 1)%nat by lens.
      f_equal. asc.
Qed.

(** ** Whole snapshots *)

Definition top_items (s : ak_heap_state) (cs : list cst) : list item :=
  [memb B"version" (CLit B"1"); memb B"next_ptr" (CLit (serialize_write_u64 (hs_next_ptr s)));
   memb B"object_count" (CLit (serialize_write_u64 (hs_object_count s)));
   memb B"objects" (CBox false [] (object_items (entries (hs_objects s)) cs))].

Lemma snapshot_objects_text al l cs first acc :
  Forall2 portable l cs -> (forall i, al i = true) ->
  snapshot_objects al l first acc =
  Some (acc ++ (if first then print_items [] (object_items l cs) else trail (object_items l cs))).
Proof.
  intros Hl. revert al first acc. induction Hl as [|o c l cs Ho Hl IH]; intros al first acc Hal; cbn [snapshot_objects].
  - unfold object_items. cbn. destruct first; by rewrite app_nil_r.
  - rewrite Hal, (serialize_text o c) by apply Ho. rewrite (IH (fun i => al (S i)) false) by done. f_equal.
    unfold object_items. cbn [zip_with]. fold (object_items l cs).
    assert (Et : forall it l, trail (it :: l) = 44 :: print_item it ++ trail l) by done.
    destruct first; [rewrite <-app_assoc; cbn [app]|rewrite Et, print_elem; rewrite <-!app_assoc; done].
    change (print_items [] (elem (obj_box o c) :: object_items l cs)) with (join (map print_item (elem (obj_box o c) :: object_items l cs))).
    by rewrite join_trail, print_elem.
Qed.

Lemma snapshot_text al s cs :
  Forall2 portable (entries (hs_objects s)) cs -> (forall i, al i = true) -> hs_initialized s = true ->
  ak_heap_snapshot true al s = Some (print (CBox true [] (top_items s cs))).
Proof.
  intros Hl Hal Hi. unfold ak_heap_snapshot. rewrite Hi. cbn [negb]. cbv zeta. change (concat (hs_objects s)) with (entries (hs_objects s)).
  rewrite (snapshot_objects_text al _ cs) by done. f_equal. rewrite (print_box true [] (top_items s cs)). unfold top_items. cbn [print_items map].
  rewrite !join_cons, !print_memb. cbn [join print]. change (match object_items (entries (hs_objects s)) cs with [] => [] | _ :: _ => _ end)
    with (print_items [] (object_items (entries (hs_objects s)) cs)).
  generalize (print_items [] (object_items (entries (hs_objects s)) cs)) as body. intros body.
  cbn [ascii_bytes jq map app open_of close_of]. asc.
Qed.

Lemma wf_object_items l cs : Forall2 portable l cs -> wf_cst (CBox false [] (object_items l cs)).
Proof.
  intros Hl. constructor; [constructor|..]; induction Hl as [|o c l cs Ho Hl IH]; unfold object_items in *; cbn [zip_with]; constructor; auto.
  - split; [constructor|]. split; [done|constructor].
  - by apply wf_obj_box.
Qed.

Lemma wf_top s cs :
  Forall2 portable (entries (hs_objects s)) cs -> 0 <= hs_next_ptr s <= UINT64_MAX -> 0 <= hs_object_count s <= UINT64_MAX ->
  wf_cst (CBox true [] (top_items s cs)).
Proof.
  intros Hl Hn Hc. constructor; [constructor|unfold top_items; repeat constructor; by apply memb_layout|].
  unfold top_items. repeat (constructor; [unfold it_val; cbn [memb fst snd]|]).
  - constructor. do 3 right. exists 49, []. done.
  - by apply wf_number.
  - by apply wf_number.
  - by apply wf_object_items.
  - constructor.
Qed.

(** The array of a snapshot, read where the scan of the document found it. *)
Lemma restore_array ms l cs pre s :
  Forall2 portable l cs -> accounted s -> NoDup (map obj_ptr l) -> (forall o, o ∈ l -> find_object s (obj_ptr o) = None) ->
  (forall i, plenty (ms i)) ->
  total (fun _ => 1) (hs_objects s) + Z.of_nat (length l) < M64 -> total obj_bytes (hs_objects s) + sum_by obj_bytes l < M64 ->
  let dv := pre ++ print (CBox false [] (object_items l cs)) in
  let p := json_skip_ws dv (length pre + 1) in
  json_skip_ws dv (length pre) = length pre /\ is_at dv (length pre) 91 = true /\
  exists s', (if is_at dv p 93 then Some (0, s) else restore_loop ms (length dv) dv p s) = Some (0, s') /\ restored l s s'.
Proof.
  intros Hl Hs Hnd Hnew Hms H1 H2. cbv zeta. rewrite print_box. cbn [open_of close_of].
  split; [by apply skip_ws_here|]. split; [by rewrite is_at_here|].
  replace (pre ++ 91 :: print_items [] (object_items l cs) ++ [93]) with ((pre ++ [91]) ++ print_items [] (object_items l cs) ++ [93]) by asc.
  replace (length pre + 1)%nat with (length (pre ++ [91])) by lens. set (A := pre ++ [91]).
  destruct Hl as [|o c l cs Ho Hl].
  - exists s. unfold object_items. cbn [zip_with print_items app]. rewrite skip_ws_here, is_at_here by done. split; [done|]. by apply restored_nil.
  - pose proof (wf_obj_box o c Ho) as Hwf. set (it := elem (obj_box o c)).
    assert (Hlay : layout_ok false it) by (split; [constructor|]; split; [done|constructor]).
    assert (Eitems : print_items [] (object_items (o :: l) (c :: cs)) = join (map print_item (it :: object_items l cs))) by done.
    destruct (join_first it (object_items l cs) 93 []) as (x & rest & Hx & Ej); [done|].
    rewrite Eitems, Ej, (item_not_close false) by done. rewrite (item_start false) by done.
    replace (start_at (length A) it) with (length A) by (unfold start_at; cbn; lia). rewrite <-Ej.
    apply (restore_objects ms (o :: l) (c :: cs)); try done; [by constructor|].
    assert (Hl2 : Forall2 portable (o :: l) (c :: cs)) by (by constructor).
    pose proof (wf_object_items _ _ Hl2) as Hwfi. inversion Hwfi as [| |? ? ? _ Hlo Hv]; subst.
    assert (Hlen : length (object_items (o :: l) (c :: cs)) = length (o :: l)).
    { unfold object_items. by rewrite length_zip_with, <-(Forall2_length _ _ _ Hl2), Nat.min_id. }
    assert (Hshort : (length (object_items (o :: l) (c :: cs)) <= length (join (map print_item (it :: object_items l cs))))%nat)
      by exact (items_short false _ Hlo Hv).
    rewrite Hlen in Hshort. rewrite length_app, length_app. lia.
Qed.

Lemma run_fits T s : hrun T s -> fits s.
Proof.
  destruct 1 as [s0 Hi|]; [|done]. unfold ak_heap_init. rewrite Hi. split; fields; rewrite total_empty; done.
Qed.

Lemma portable_csts l : (forall o, o ∈ l -> exists c, portable o c) -> exists cs, Forall2 portable l cs.
Proof.
  induction l as [|o l IH]; intros Hp; [by exists []|]. destruct (Hp o ltac:(left)) as [c Hc].
  destruct IH as [cs Hcs]; [intros x Hx; apply Hp; by right|]. exists (c :: cs). by constructor.
Qed.

Lemma init_empty s0 :
  hs_initialized s0 = false -> accounted (ak_heap_init s0) /\ hs_next_ptr (ak_heap_init s0) = 1 /\
  (forall f, total f (hs_objects (ak_heap_init s0)) = 0) /\ forall q, find_object (ak_heap_init s0) q = None.
Proof.
  intros Hs0. pose proof (run_accounted [] (ak_heap_init s0) (hrun_init s0 Hs0)) as Hinit.
  assert (Hempty : forall f, total f (hs_objects (ak_heap_init s0)) = 0) by (intros f; unfold ak_heap_init; rewrite Hs0; apply total_empty).
  split_and!; [done|unfold ak_heap_init; by rewrite Hs0|done|].
  intros q. destruct (find_object (ak_heap_init s0) q) as [x|] eqn:Ex; [|done]. rewrite find_object_table in Ex by apply Hinit.
  apply table_lookup_spec in Ex as [Hin _]; [|apply Hinit]. pose proof (sum_by_le (fun _ => 1) _ x ltac:(lia) Hin) as Hle.
  fold (total (fun _ => 1) (hs_objects (ak_heap_init s0))) in Hle. rewrite Hempty in Hle. lia.
Qed.

(** Reading the text of a snapshot into an empty heap. *)
Lemma restore_snapshot ms s s1 cs :
  accounted s -> accounted s1 -> wf_cst (CBox true [] (top_items s cs)) -> Forall2 portable (entries (hs_objects s)) cs ->
  (forall q, find_object s1 q = None) -> (forall f, total f (hs_objects s1) = 0) -> (forall i, plenty (ms i)) ->
  total (fun _ => 1) (hs_objects s) < M64 -> total obj_bytes (hs_objects s) < M64 ->
  exists s2, restored (entries (hs_objects s)) s1 s2 /\
    ak_heap_restore ms (Some (print (CBox true [] (top_items s cs)))) s1 =
    Some (0, if hs_next_ptr s2 <? hs_next_ptr s then set_counts (hs_object_count s2) (hs_deleted_count s2) (hs_next_ptr s) s2 else s2).
Proof.
  intros Hs Hs1 Hwf Hcs Hnone Hempty Hms Hcount Hfit. pose proof (ac_next _ Hs) as Hnext.
  set (l := entries (hs_objects s)) in *. set (d := print (CBox true [] (top_items s cs))) in *.
  assert (Hdd : [] ++ d ++ [] = d) by (cbn [app]; apply app_nil_r).
  destruct (find_member [] [] (top_items s cs) [] B"objects" _ Hwf eq_refl) as (r & pre & post & Hfind & Hfound & Ed & Hvs & Hve).
  pose proof (field_box [] [] (top_items s cs) [] B"next_ptr" Hwf) as Hnp. fold d in Hfind, Ed, Hnp.
  rewrite Hdd in Hfind, Ed, Hnp. cbn [length] in Hfind, Hnp.
  change (it_val (memb B"objects" (CBox false [] (object_items l cs)))) with (CBox false [] (object_items l cs)) in Ed, Hve.
  destruct (restore_array ms l cs pre s1 Hcs Hs1) as (Hr1 & Hr2 & s2 & Hr3 & Hres);
    [apply nodup_entries, Hs|intros o _; apply Hnone|done| |rewrite Hempty; exact Hfit|].
  { rewrite Hempty. unfold total in Hcount. fold l in Hcount. rewrite sum_by_one in Hcount. lia. }
  exists s2. split; [done|]. unfold ak_heap_restore.
  assert (Hd0 : exists y t, d = y :: t /\ is_at d (json_skip_ws d 0) 123 = true /\ json_skip_ws d 0 = 0%nat).
  { exists 123, (print_items [] (top_items s cs) ++ [125]). split_and!; [done| |]; done. }
  destruct Hd0 as (y & t & Ey & Hbrace & Hpos0). rewrite Ey. rewrite <-Ey. rewrite (ac_init _ Hs1). cbn [negb]. cbv zeta.
  rewrite Hbrace, Hpos0, Hfind, Hfound. cbn [negb].
  assert (Hdv : take (fr_vend r) d = pre ++ print (CBox false [] (object_items l cs))).
  { rewrite Hve, Ed, <-length_app, (app_assoc pre), take_app_length. done. }
  rewrite Hdv, Hvs, Hr1, Hr2. cbn [negb]. rewrite Hr3. cbn [Z.eqb]. f_equal. f_equal. unfold restore_next_ptr. rewrite Hnp.
  change (first_key B"next_ptr" (top_items s cs)) with (Some (memb B"next_ptr" (CLit (serialize_write_u64 (hs_next_ptr s))))).
  cbn [fmap option_fmap option_map it_val memb fst snd print]. unfold it_val. cbn [memb fst snd print].
  rewrite parse_written by (unfold UINT64_MAX; lia). done.
Qed.

(** C27: A snapshot of any heap that a run of heap operations reaches and whose
    objects are portable (the value is well-formed JSON, the taint one that has a
    name, and so on: [portable]) restores, with enough memory, in a freshly
    initialised heap, to one with the same objects under the same pointers,
    the same statistics of the objects and the same next pointer.  The version
    history and its statistics are not part of a snapshot. *)
Theorem snapshot_round_trip T s al ms s0 :
  hrun T s -> (forall o, o ∈ entries (hs_objects s) -> exists c, portable o c) -> hs_initialized s0 = false ->
  (forall i, al i = true) -> (forall i, plenty (ms i)) ->
  exists text s', ak_heap_snapshot true al s = Some text /\ ak_heap_restore ms (Some text) (ak_heap_init s0) = Some (0, s') /\
    (forall ptr, find_object s' ptr = find_object s ptr) /\ hs_next_ptr s' = hs_next_ptr s /\
    hs_object_count s' = hs_object_count s /\ hs_deleted_count s' = hs_deleted_count s /\ hs_bytes_used s' = hs_bytes_used s.
Proof.
  intros Hrun Hport Hs0 Hal Hms. pose proof (run_accounted _ _ Hrun) as Hs. pose proof (run_fits _ _ Hrun) as [Hfit _].
  destruct (run_inv _ _ Hrun) as (_ & Hobj & _). pose proof (oo_bound _ _ Hobj) as Hbound. pose proof (ac_next _ Hs) as Hnext.
  assert (Hcount : total (fun _ => 1) (hs_objects s) + 1 < M64) by (destruct Hrun; cbn [length] in Hbound; lia).
  pose proof (total_nonneg_any (fun _ : ak_heap_object => 1) (hs_objects s) ltac:(lia)) as Hpos.
  destruct (portable_csts _ Hport) as [cs Hcs].
  assert (Hwf : wf_cst (CBox true [] (top_items s cs))).
  { apply wf_top; [done|unfold UINT64_MAX; lia|]. rewrite (ac_count _ Hs). unfold UINT64_MAX. lia. }
  destruct (init_empty s0 Hs0) as (Hinit & Hone & Hempty & Hnone).
  destruct (restore_snapshot ms s (ak_heap_init s0) cs) as (s1 & [Hok1 Hf1 [Hle1 Hub1] Ht1] & Hrest); try done; [lia|].
  assert (Hn1 : hs_next_ptr s1 <= hs_next_ptr s) by (apply Hub1; [lia|intros o Ho; by apply Hs]).
  assert (Hsame : forall ptr, find_object s1 ptr = find_object s ptr).
  { intros q. rewrite Hf1, Hnone, (find_object_table s) by apply Hs. destruct (chain_lookup (entries (hs_objects s)) q) as [o|] eqn:Eo.
    - symmetry. apply table_lookup_spec; [apply Hs|]. by apply chain_lookup_Some in Eo.
    - symmetry. apply table_lookup_None; [apply Hs|]. intros o Ho Hq.
      rewrite <-Hq, (chain_lookup_elem _ o) in Eo; [done|apply nodup_entries, Hs|done]. }
  eexists _, _. split; [apply snapshot_text; [done|done|apply Hs]|]. split; [exact Hrest|].
  destruct (Z.ltb_spec (hs_next_ptr s1) (hs_next_ptr s)); unfold find_object in *; fields;
    (split_and!; [done|lia| | |]); rewrite ?(ac_count _ Hok1), ?(ac_deleted _ Hok1), ?(ac_bytes _ Hok1),
      ?(ac_count _ Hs), ?(ac_deleted _ Hs), ?(ac_bytes _ Hs), Ht1, Hempty; unfold total; done.
Qed.

Definition wf_bytesb (r : bytes) : bool := forallb (fun b => (0 <=? b) && (b <? 256)) r.

Lemma wf_bytesb_ok r : wf_bytesb r = true -> wf_bytes r.
Proof.
  unfold wf_bytesb, wf_bytes. rewrite forallb_forall. intros H. apply list.Forall_forall. intros b Hb.
  apply list_elem_of_In in Hb. specialize (H b Hb). unfold is_u8. lia.
Qed.

Definition portableb (o : ak_heap_object) (c : cst) : bool :=
  (1 <=? obj_ptr o) && (obj_ptr o <? UINT64_MAX) && (0 <=? obj_type_hash o) && (obj_type_hash o <=? UINT64_MAX) &&
  (1 <=? obj_version o) && (obj_version o <=? UINT64_MAX) && (1 <=? obj_created_ms o) && (obj_created_ms o <=? UINT64_MAX) &&
  (1 <=? obj_modified_ms o) && (obj_modified_ms o <=? UINT64_MAX) && known_taint (obj_taint o) &&
  wf_bytesb (obj_owner_run_id o) && (length (obj_owner_run_id o) =? AK_TOKEN_ID_SIZE)%nat &&
  wf_cstb c && bytes_eqb (print c) (obj_value o).

Lemma portableb_ok o c : portableb o c = true -> portable o c.
Proof.
  unfold portableb. rewrite !andb_true_iff. intros H. repeat match goal with H : _ /\ _ |- _ => destruct H end.
  split; try lia; try done.
  - split; [by apply wf_bytesb_ok|by apply Nat.eqb_eq].
  - split; [by apply wf_cstb_ok|by apply bytes_eqb_eq].
Qed.

Lemma snapshot_round_trip_witness :
  exists T s text s', hrun T s /\ ak_heap_snapshot true (fun _ => true) s = Some text /\
    ak_heap_restore (fun _ => calm) (Some text) (ak_heap_init blank) = Some (0, s') /\
    (forall ptr, find_object s' ptr = find_object s ptr) /\ hs_object_count s' = 2.
Proof.
  destruct demo_runs as (T & s & E). pose proof (from_blank_sound _ _ _ E) as Hrun. exists T, s.
  set (c1 := CBox true [] [memb B"a" (CLit B"2")]). set (c2 := CBox false [] []).
  assert (Hfacts : (forall o, o ∈ entries (hs_objects s) -> exists c, portable o c) /\ hs_object_count s = 2).
  { demo_fact H E (fun (T : list call) s => forallb (fun o => portableb o (CBox true [] [memb B"a" (CLit B"2")]) || portableb o (CBox false [] []))
      (entries (hs_objects s)) && (hs_object_count s =? 2)).
    apply andb_true_iff in H as [H1 H2]. split; [|lia]. rewrite forallb_forall in H1. intros o Ho. apply list_elem_of_In in Ho.
    specialize (H1 o Ho). apply orb_prop in H1 as [H1|H1]; apply portableb_ok in H1; eauto. }
  clear E. destruct Hfacts as [Hport Hcount].
  destruct (snapshot_round_trip T s (fun _ => true) (fun _ => calm) blank Hrun Hport eq_refl (fun _ => eq_refl) (fun _ => conj eq_refl eq_refl))
    as (text & s' & H1 & H2 & H3 & _ & H4 & _). exists text, s'. split_and!; [done..|congruence].
Defined.

(** Restoring any bytes into any initialised heap terminates: every round of
    the loop over the array consumes at least one byte. *)
Theorem restore_terminates ms snapshot s : exists r s', ak_heap_restore ms snapshot s = Some (r, s').
Proof.
  unfold ak_heap_restore. destruct snapshot as [[|x d]|]; eauto. destruct (negb (hs_initialized s)); [eauto|]. cbv zeta.
  destruct (negb (is_at _ _ 123)); [eauto|]. destruct (json_object_find _ _ _) as [r|]; [|eauto].
  destruct (fr_found r); [|destruct (restore_object_json _ _ _ _); eauto]. destruct (negb (is_at _ _ 91)); [eauto|].
  destruct (is_at _ _ 93); [eauto|]. destruct (restore_loop_total ms (length (take (fr_vend r) (x :: d))) (take (fr_vend r) (x :: d))
    (json_skip_ws (take (fr_vend r) (x :: d)) (json_skip_ws (take (fr_vend r) (x :: d)) (fr_vstart r) + 1)) s ltac:(lia)) as [[r' s'] ->]. eauto.
Qed.

(** ** Values that are not JSON *)

(** A value is embedded without a check.  This one closes its object and opens
    another, which the restore takes for object 1, trusted. *)
Definition forged : bytes := JQ"0},{'ptr':1,'taint':'trusted','value':0".

Lemma snapshot_forges_trust :
  match from_blank [OAlloc 1 JQ"{}" None 100; OAlloc 1 forged None 100] with
  | Some (_, s) =>
      match ak_heap_snapshot true (fun _ => true) s with
      | Some text =>
          match ak_heap_restore (fun _ => calm) (Some text) (ak_heap_init blank) with
          | Some (r, s') => Some (r, ak_heap_get_taint s 1, ak_heap_get_taint s' 1)
          | None => None
          end
      | None => None
      end
  | None => None
  end = Some (0, 100, 0).
Proof. vm_compute. reflexivity. Qed.

(** A restore puts back the version and the taint of the snapshot: a second write
    that expects version 1 succeeds, and the taint falls without the
    sanitizer.  (The runs of [HeapRun] are runs without restores.) *)
Lemma restore_reopens_version :
  match from_blank [OAlloc 1 JQ"{'a':1}" None 0] with
  | Some (_, s0) =>
      let write s := ak_heap_write calm 1 (Some JQ"[{'op':'replace','path':'/a','value':2}]") 1 s in
      let s1 := (write s0).2 in
      let s2 := (ak_heap_set_taint calm 1 100 2 s1).2 in
      match ak_heap_snapshot true (fun _ => true) s0 with
      | Some text =>
          match ak_heap_restore (fun _ => calm) (Some text) s2 with
          | Some (_, s3) => Some ((write s0).1.1, ak_heap_get_taint s2 1, ak_heap_get_taint s3 1, (write s3).1.1)
          | None => None
          end
      | None => None
      end
  | None => None
  end = Some (0, 100, 0, 0).
Proof. vm_compute. reflexivity. Qed.

(** The largest pointer wraps the generator to 0, the code of a failure. *)
Lemma restore_wraps_generator :
  match ak_heap_restore (fun _ => calm) (Some JQ"{'ptr':18446744073709551615,'value':0}") (ak_heap_init blank) with
  | Some (r, s) => Some (r, hs_next_ptr s, (ak_heap_alloc calm 1 JQ"{}" None 0 s).1)
  | None => None
  end = Some (0, 0, 0).
Proof. vm_compute. reflexivity. Qed.
