(* ===== verification/Lz4.v ===== *)
(** * LZ4 compression ([src/src/agentic/ak_lz4.c])

    The compressor with its hash table of positions and the decompressor, as
    written: every read of the input and of the bytes already decompressed and
    every write to the output buffer is checked against its object, [Oob] being
    an access outside.  The theorems: decompression inverts compression, the
    compressed text fits the buffer reserved for it, and decompression of
    arbitrary bytes stays inside its buffers. *)

From S2P Require Import Prelude.
Open Scope ak_scope.

Definition LZ4_HASHLOG : Z := 12.
Definition LZ4_HASHTABLESIZE : nat := 4096.
Definition LZ4_MINMATCH : Z := 4.
Definition LZ4_MFLIMIT : Z := 12.
Definition LZ4_LASTLITERALS : Z := 5.
Definition LZ4_MAX_INPUT_SIZE : Z := 0x7E000000.
Definition AK_COMPRESS_MAX_INPUT : Z := 0xFFFFFFFF.
Definition AK_DECOMPRESS_MAX_SIZE : Z := 268435456.
Definition AK_COMPRESS_MAX_RATIO : Z := 1024.
Definition AK_COMPRESS_MIN_SIZE : Z := 64.
Definition U64_LAST : Z := 18446744073709551615.

Definition len (l : bytes) : Z := Z.of_nat (length l).

(** ** Helpers *)

Definition lz4_hash (sequence : Z) : Z := Z.shiftr (u32 (sequence * 2654435761)) (32 - LZ4_HASHLOG).

Definition read32 (d : bytes) (p : Z) : outcome Z :=
  let* b0 := rd d p in
  let* b1 := rd d (p + 1) in
  let* b2 := rd d (p + 2) in
  let* b3 := rd d (p + 3) in
  Ret (Z.lor (Z.lor (Z.lor b0 (Z.shiftl b1 8)) (Z.shiftl b2 16)) (Z.shiftl b3 24)).

Definition write32 (v : Z) : bytes :=
  [Z.land v 255; Z.land (Z.shiftr v 8) 255; Z.land (Z.shiftr v 16) 255; Z.land (Z.shiftr v 24) 255].

(** The first differing byte among the next [n]. *)
Fixpoint first_diff (n : nat) (d : bytes) (p1 p2 : Z) : outcome Z :=
  match n with
  | O => Ret 0
  | S n' =>
      let* a := rd d p1 in
      let* b := rd d p2 in
      if a =? b then let* k := first_diff n' d (p1 + 1) (p2 + 1) in Ret (1 + k) else Ret 0
  end.

(** The loop over single bytes up to [limit]. *)
Fixpoint count_bytes (fuel : nat) (d : bytes) (p1 p2 limit : Z) : outcome Z :=
  if p1 <? limit then
    match fuel with
    | O => Oob
    | S fuel' =>
        let* a := rd d p1 in
        let* b := rd d p2 in
        if a =? b then let* k := count_bytes fuel' d (p1 + 1) (p2 + 1) limit in Ret (1 + k) else Ret 0
    end
  else Ret 0.

(** The loop over words of eight bytes. *)
Fixpoint count_words (fuel : nat) (d : bytes) (p1 p2 limit : Z) : outcome Z :=
  if p1 <? limit - 7 then
    match fuel with
    | O => Oob
    | S fuel' =>
        let* a := read32 d p1 in
        let* b := read32 d p2 in
        let* a' := read32 d (p1 + 4) in
        let* b' := read32 d (p2 + 4) in
        let diff := Z.lor (Z.lxor a b) (u64 (Z.shiftl (Z.lxor a' b') 32)) in
        if negb (diff =? 0) then first_diff 8 d p1 p2
        else let* k := count_words fuel' d (p1 + 8) (p2 + 8) limit in Ret (8 + k)
    end
  else count_bytes (length d) d p1 p2 limit.

Definition count_match (d : bytes) (p1 p2 limit : Z) : outcome Z := count_words (length d) d p1 p2 limit.

(** ** Compression *)

(** The bytes of a length beyond 15. *)
Fixpoint length_bytes (fuel : nat) (l : Z) : bytes :=
  match fuel with
  | O => []
  | S fuel' => if 255 <=? l then 255 :: length_bytes fuel' (l - 255) else [u8 l]
  end.
Definition overflow_bytes (l : Z) : bytes := length_bytes (S (Z.to_nat (l / 255))) l.

Definition nibble (l : Z) : Z := if 15 <=? l then 15 else l.

(** [buffer_write(output, anchor, lit_len)]. *)
Definition literals (d : bytes) (anchor lit_len : Z) : outcome bytes := if 0 <? lit_len then rdn d anchor lit_len else Ret [].

(** The bytes of one sequence. *)
Definition emit_match (d : bytes) (anchor ip ref match_len : Z) : outcome bytes :=
  let lit_len := ip - anchor in
  let* lits := literals d anchor lit_len in
  let offset := u16 (ip - ref) in
  Ret (u8 (Z.lor (Z.shiftl (nibble lit_len) 4) (nibble (match_len - LZ4_MINMATCH))) ::
       (if 15 <=? lit_len then overflow_bytes (lit_len - 15) else []) ++ lits ++
       [Z.land offset 255; Z.land (Z.shiftr offset 8) 255] ++
       (if 15 <=? match_len - LZ4_MINMATCH then overflow_bytes (match_len - LZ4_MINMATCH - 15) else [])).

Definition emit_last (d : bytes) (anchor : Z) : outcome bytes :=
  let lit_len := len d - anchor in
  let* lits := literals d anchor lit_len in
  Ret (u8 (Z.shiftl (nibble lit_len) 4) :: (if 15 <=? lit_len then overflow_bytes (lit_len - 15) else []) ++ lits).

Definition table_at (t : list Z) (h : Z) : Z := nth (Z.to_nat h) t 0.
Definition table_set (t : list Z) (h v : Z) : list Z := <[Z.to_nat h := u32 v]> t.

(** What is found at [ip]: the reference position and the length of the match. *)
Definition find_match (d : bytes) (t : list Z) (ip : Z) : outcome (option (Z * Z) * list Z) :=
  let src_end := len d in
  let* seq := read32 d ip in
  let h := lz4_hash seq in
  let ref := table_at t h in
  let t := table_set t h ip in
  let ref_idx := if src_end <? ref + 4 then 0 else ref in
  if (0 <? ref_idx) && (ip - ref <? 65535) && (ref + 4 <=? src_end) then
    let* r := read32 d ref in
    if r =? seq then
      let* n := count_match d (ip + LZ4_MINMATCH) (ref + LZ4_MINMATCH) (src_end - LZ4_LASTLITERALS) in
      Ret (Some (ref, LZ4_MINMATCH + n), t)
    else Ret (None, t)
  else Ret (None, t).

(** The main loop: the output and the last anchor. *)
Fixpoint compress_loop (fuel : nat) (d : bytes) (t : list Z) (anchor ip : Z) (out : bytes) : outcome (bytes * Z) :=
  let src_end := len d in
  let mflimit := src_end - LZ4_MFLIMIT in
  if negb (ip <? mflimit) then Ret (out, anchor)
  else if src_end <? ip + 4 then Ret (out, anchor)
  else
    match fuel with
    | O => Oob
    | S fuel' =>
        let* r := find_match d t ip in
        match r with
        | (None, t) => compress_loop fuel' d t anchor (ip + 1) out
        | (Some (ref, match_len), t) =>
            let* s := emit_match d anchor ip ref match_len in
            let ip := ip + match_len in
            if (ip <? mflimit) && (0 <=? ip - 2) && (ip + 2 <=? src_end) then
              let* seq := read32 d (ip - 2) in
              compress_loop fuel' d (table_set t (lz4_hash seq) (ip - 2)) ip ip (out ++ s)
            else compress_loop fuel' d t ip ip (out ++ s)
        end
    end.

(** The first position. *)
Definition compress_start (d : bytes) : outcome (list Z * Z) :=
  let t := replicate LZ4_HASHTABLESIZE 0 in
  if (LZ4_MINMATCH <=? len d) && (0 + 4 <=? len d) then
    let* seq := read32 d 0 in
    Ret (table_set t (lz4_hash seq) 0, 1)
  else Ret (t, 0).

Definition ak_compress_lz4 (al : bool) (input : option bytes) : outcome bytes :=
  match input with
  | None => Null
  | Some d =>
      if len d =? 0 then if negb al then Null else Ret [0; 0; 0; 0]
      else if LZ4_MAX_INPUT_SIZE <? len d then Null
      else if AK_COMPRESS_MAX_INPUT <? len d then Null
      else if negb al then Null
      else
        let* st := compress_start d in
        let* r := compress_loop (length d) d st.1 0 st.2 (write32 (u32 (len d))) in
        let* l := emit_last d r.2 in
        Ret (r.1 ++ l)
  end.

(** ** Decompression *)

(** The loop over length bytes. *)
Fixpoint read_overflow (src : bytes) (n : Z) : option (Z * bytes) :=
  match src with
  | [] => None
  | s :: src' =>
      if U64_LAST - s <? n then None
      else if s =? 255 then read_overflow src' (n + s)
      else Some (n + s, src')
  end.

(** A write of bytes at [op]. *)
Definition put (size : Z) (out bs : bytes) : outcome bytes := if size <? len out + len bs then Oob else Ret (out ++ bs).

(** The byte-by-byte copy. *)
Fixpoint copy_bytes (n : nat) (size : Z) (out : bytes) (p : Z) : outcome bytes :=
  match n with
  | O => Ret out
  | S n' => let* b := rd out p in let* out := put size out [b] in copy_bytes n' size out (p + 1)
  end.

Definition copy_match (size : Z) (out : bytes) (offset match_len : Z) : outcome bytes :=
  let p := len out - offset in
  if offset <? match_len then copy_bytes (Z.to_nat match_len) size out p
  else let* bs := rdn out p match_len in put size out bs.

(** The match part of a sequence, behind its literals. *)
Definition decode_match (size token : Z) (src out : bytes) : outcome (bytes * bytes) :=
  match src with
  | lo :: hi :: src =>
      let offset := Z.lor lo (Z.shiftl hi 8) in
      if (offset =? 0) || (len out <? offset) then Null
      else
        let match_len := Z.land token 15 + LZ4_MINMATCH in
        match (if Z.land token 15 =? 15 then read_overflow src match_len else Some (match_len, src)) with
        | None => Null
        | Some (match_len, src) =>
            if size <? len out + match_len then Null
            else let* out := copy_match size out offset match_len in Ret (src, out)
        end
  | _ => Null
  end.

Fixpoint decompress_loop (fuel : nat) (size : Z) (src out : bytes) : outcome bytes :=
  match src with
  | [] => Ret out
  | token :: src =>
      if negb (len out <? size) then Ret out
      else
        match fuel with
        | O => Oob
        | S fuel' =>
            match (if Z.shiftr token 4 =? 15 then read_overflow src 15 else Some (Z.shiftr token 4, src)) with
            | None => Null
            | Some (lit_len, src) =>
                if (0 <? lit_len) && ((len src <? lit_len) || (size <? len out + lit_len)) then Null
                else
                  let* out := if 0 <? lit_len then put size out (take (Z.to_nat lit_len) src) else Ret out in
                  let src := if 0 <? lit_len then drop (Z.to_nat lit_len) src else src in
                  match src with
                  | [] => Ret out
                  | _ => let* r := decode_match size token src out in decompress_loop fuel' size r.1 r.2
                  end
            end
        end
  end.

(** The buffer returned: for an empty text it is [allocate_buffer]'s result
    unchecked, [INVALID_ADDRESS] when that fails. *)
Inductive returned : Type :=
| Buffer (b : bytes)
| INVALID_ADDRESS.

Definition allocate_empty (al : bool) : outcome returned := Ret (if al then Buffer [] else INVALID_ADDRESS).

Definition ak_decompress_lz4_sized (al : bool) (compressed : option bytes) (original_size : Z) : outcome returned :=
  match compressed with
  | None => Null
  | Some c =>
      if original_size =? 0 then allocate_empty al
      else if AK_DECOMPRESS_MAX_SIZE <? original_size then Null
      else if (0 <? len c) && (AK_COMPRESS_MAX_RATIO <? original_size / len c) then Null
      else if negb al then Null
      else
        let* out := decompress_loop (length c) original_size c [] in
        if negb (len out =? original_size) then Null else Ret (Buffer out)
  end.

Definition ak_decompress_lz4 (al_view al : bool) (compressed : option bytes) : outcome returned :=
  match compressed with
  | None => Null
  | Some c =>
      if len c <? 4 then Null
      else
        let* original_size := read32 c 0 in
        if original_size =? 0 then allocate_empty al
        else if AK_DECOMPRESS_MAX_SIZE <? original_size then Null
        else
          let compressed_len := len c - 4 in
          if (0 <? compressed_len) && (AK_COMPRESS_MAX_RATIO <? original_size / compressed_len) then Null
          else if negb al_view then Null
          else ak_decompress_lz4_sized al (Some (drop 4 c)) original_size
  end.

Definition ak_compress_bound (input_size : Z) : Z :=
  let extra := input_size / 255 in
  if U64_LAST - extra <? input_size then U64_LAST
  else
    let sum := input_size + extra in
    if U64_LAST - 16 <? sum then U64_LAST else sum + 16.

Definition ak_compress_worthwhile (input_size : Z) : bool := AK_COMPRESS_MIN_SIZE <=? input_size.

(** ** Reads *)

Lemma len_nonneg l : 0 <= len l.
Proof. unfold len. lia. Qed.
Lemma len_app a b : len (a ++ b) = len a + len b.
Proof. unfold len. rewrite length_app. lia. Qed.
Lemma len_cons x l : len (x :: l) = 1 + len l.
Proof. unfold len. cbn [length]. lia. Qed.

Lemma rd_bound l i b : rd l i = Ret b -> 0 <= i < len l.
Proof.
  unfold rd, len. destruct (Z.ltb_spec i 0); [done|]. destruct (l !! Z.to_nat i) eqn:E; [|done].
  apply lookup_lt_Some in E. lia.
Qed.

Lemma rd_take l n i : i < Z.of_nat n -> rd (take n l) i = rd l i.
Proof. intros Hi. unfold rd. destruct (Z.ltb_spec i 0); [done|]. by rewrite lookup_take_lt by lia. Qed.

(** The next byte extends a prefix. *)
Lemma take_next d n b : 0 <= n -> rd d n = Ret b -> take (Z.to_nat (n + 1)) d = take (Z.to_nat n) d ++ [b].
Proof.
  intros Hn. unfold rd. destruct (Z.ltb_spec n 0); [lia|]. destruct (d !! Z.to_nat n) as [x|] eqn:E; [|done]. intros [= ->].
  replace (Z.to_nat (n + 1)) with (S (Z.to_nat n)) by lia. by apply take_S_r.
Qed.

Lemma take_slice d a n : (take a d ++ take n (drop a d) : bytes) = take (a + n) d.
Proof. apply take_take_drop. Qed.

Lemma read32_value d p x :
  wf_bytes d -> read32 d p = Ret x ->
  exists b0 b1 b2 b3, rd d p = Ret b0 /\ rd d (p + 1) = Ret b1 /\ rd d (p + 2) = Ret b2 /\ rd d (p + 3) = Ret b3 /\
    is_u8 b0 /\ is_u8 b1 /\ is_u8 b2 /\ is_u8 b3 /\ x = b0 + 256 * b1 + 65536 * b2 + 16777216 * b3.
Proof.
  intros Hd. unfold read32. destruct (rd d p) as [b0| |] eqn:E0; try done. destruct (rd d (p + 1)) as [b1| |] eqn:E1; try done.
  destruct (rd d (p + 2)) as [b2| |] eqn:E2; try done. destruct (rd d (p + 3)) as [b3| |] eqn:E3; try done. cbn [obind]. intros [= <-].
  pose proof (rd_wf _ _ _ Hd E0) as W0. pose proof (rd_wf _ _ _ Hd E1) as W1. pose proof (rd_wf _ _ _ Hd E2) as W2. pose proof (rd_wf _ _ _ Hd E3) as W3.
  exists b0, b1, b2, b3. split_and!; try done. unfold is_u8 in *.
  rewrite (lor_shift_add b0 b1 8) by lia. rewrite (lor_shift_add _ b2 16) by lia. rewrite (lor_shift_add _ b3 24) by lia. lia.
Qed.

Lemma read32_ok d p : 0 <= p -> p + 4 <= len d -> exists x, read32 d p = Ret x.
Proof.
  intros Hp Hl. unfold read32, len in *.
  destruct (rd_in_bounds d p ltac:(lia)) as [? ->]. destruct (rd_in_bounds d (p + 1) ltac:(lia)) as [? ->].
  destruct (rd_in_bounds d (p + 2) ltac:(lia)) as [? ->]. destruct (rd_in_bounds d (p + 3) ltac:(lia)) as [? ->]. cbn [obind]. eauto.
Qed.

(** ** Matches *)

(** The same [n] bytes at two positions. *)
Definition same (d : bytes) (p q n : Z) : Prop := forall i, 0 <= i < n -> rd d (p + i) = rd d (q + i).

Lemma same_0 d p q : same d p q 0.
Proof. intros i Hi. lia. Qed.

Lemma same_app d p q n m : same d p q n -> same d (p + n) (q + n) m -> same d p q (n + m).
Proof.
  intros H1 H2 i Hi. destruct (Z.lt_ge_cases i n); [apply H1; lia|]. specialize (H2 (i - n) ltac:(lia)).
  by replace (p + n + (i - n)) with (p + i) in H2 by lia; replace (q + n + (i - n)) with (q + i) in H2 by lia.
Qed.

Lemma same_read32 d p q x : wf_bytes d -> read32 d p = Ret x -> read32 d q = Ret x -> same d p q 4.
Proof.
  intros Hd Hp Hq. apply read32_value in Hp as (a0 & a1 & a2 & a3 & A0 & A1 & A2 & A3 & W0 & W1 & W2 & W3 & ->); [|done].
  apply read32_value in Hq as (b0 & b1 & b2 & b3 & B0 & B1 & B2 & B3 & V0 & V1 & V2 & V3 & E); [|done]. unfold is_u8 in *.
  assert (a0 = b0 /\ a1 = b1 /\ a2 = b2 /\ a3 = b3) as (<- & <- & <- & <-) by lia. intros i Hi.
  assert (i = 0 \/ i = 1 \/ i = 2 \/ i = 3) as [->|[->|[->| ->]]] by lia; rewrite ?Z.add_0_r; congruence.
Qed.

Lemma first_diff_ok n d p q :
  0 <= p -> 0 <= q -> p + Z.of_nat n <= len d -> q + Z.of_nat n <= len d ->
  exists k, first_diff n d p q = Ret k /\ 0 <= k <= Z.of_nat n /\ same d p q k.
Proof.
  revert p q. induction n as [|n IH]; intros p q Hp Hq Hl Hm; cbn [first_diff]; [exists 0; split_and!; try done; apply same_0|].
  unfold len in *. destruct (rd_in_bounds d p ltac:(lia)) as [a Ea]. destruct (rd_in_bounds d q ltac:(lia)) as [b Eb]. rewrite Ea, Eb. cbn [obind].
  destruct (Z.eqb_spec a b) as [<-|]; [|exists 0; split_and!; [done|lia|lia|apply same_0]].
  destruct (IH (p + 1) (q + 1)) as (k & -> & Hk & Hs); [lia..|]. exists (1 + k). split_and!; [done|lia|lia|].
  apply same_app; [|done]. intros i Hi. assert (i = 0) as -> by lia. rewrite !Z.add_0_r. congruence.
Qed.

Lemma count_bytes_ok fuel d p q limit :
  0 <= q -> q <= p -> limit <= len d -> limit - p <= Z.of_nat fuel ->
  exists k, count_bytes fuel d p q limit = Ret k /\ 0 <= k <= Z.max 0 (limit - p) /\ same d p q k.
Proof.
  revert p q. induction fuel as [|fuel IH]; intros p q Hq Hp Hl Hf; cbn [count_bytes]; (destruct (Z.ltb_spec p limit);
    [|exists 0; split_and!; [done|lia|lia|apply same_0]]); [lia|].
  unfold len in Hl. destruct (rd_in_bounds d p ltac:(lia)) as [a Ea]. destruct (rd_in_bounds d q ltac:(lia)) as [b Eb]. rewrite Ea, Eb. cbn [obind].
  destruct (Z.eqb_spec a b) as [<-|]; [|exists 0; split_and!; [done|lia|lia|apply same_0]].
  destruct (IH (p + 1) (q + 1)) as (k & -> & Hk & Hs); [lia..|unfold len; lia|lia|]. exists (1 + k). split_and!; [done|lia|lia|].
  apply same_app; [|done]. intros i Hi. assert (i = 0) as -> by lia. rewrite !Z.add_0_r. congruence.
Qed.

Lemma diff_zero a b a' b' :
  0 <= a < M32 -> 0 <= b < M32 -> 0 <= a' < M32 -> 0 <= b' < M32 ->
  Z.lor (Z.lxor a b) (u64 (Z.shiftl (Z.lxor a' b') 32)) = 0 -> a = b /\ a' = b'.
Proof.
  intros Ha Hb Ha' Hb' [H1 H2]%Z.lor_eq_0_iff. split; [by apply Z.lxor_eq|].
  assert (Hx : 0 <= Z.lxor a' b' < M32).
  { split; [apply Z.lxor_nonneg; lia|]. destruct (Z.eq_dec (Z.lxor a' b') 0) as [->|]; [lia|].
    apply (Z.log2_lt_pow2 _ 32); [pose proof (proj2 (Z.lxor_nonneg a' b') ltac:(lia)); lia|].
    eapply Z.le_lt_trans; [apply Z.log2_lxor; lia|]. apply Z.max_lub_lt.
    - destruct (Z.eq_dec a' 0) as [->|]; [done|]. apply Z.log2_lt_pow2; lia.
    - destruct (Z.eq_dec b' 0) as [->|]; [done|]. apply Z.log2_lt_pow2; lia. }
  rewrite Z.shiftl_mul_pow2 in H2 by lia. unfold u64 in H2. rewrite Z.mod_small in H2 by lia.
  apply Z.lxor_eq. lia.
Qed.

Lemma count_words_ok fuel d p q limit :
  wf_bytes d -> 0 <= q -> q <= p -> limit <= len d -> limit - p <= Z.of_nat fuel -> limit - p <= len d ->
  exists k, count_words fuel d p q limit = Ret k /\ 0 <= k <= Z.max 0 (limit - p) /\ same d p q k.
Proof.
  intros Hd. revert p q. induction fuel as [|fuel IH]; intros p q Hq Hp Hl Hf Hb; cbn [count_words]; (destruct (Z.ltb_spec p (limit - 7));
    [|apply count_bytes_ok; [done..|unfold len in Hb; lia]]); [lia|].
  destruct (read32_ok d p ltac:(lia) ltac:(lia)) as [a Ea]. destruct (read32_ok d q ltac:(lia) ltac:(lia)) as [b Eb].
  destruct (read32_ok d (p + 4) ltac:(lia) ltac:(lia)) as [a' Ea']. destruct (read32_ok d (q + 4) ltac:(lia) ltac:(lia)) as [b' Eb'].
  rewrite Ea, Eb, Ea', Eb'. cbn [obind]. destruct (Z.eqb_spec (Z.lor (Z.lxor a b) (u64 (Z.shiftl (Z.lxor a' b') 32))) 0) as [E|]; cbn [negb].
  - assert (Hu : forall q x, read32 d q = Ret x -> 0 <= x < M32).
    { intros q0 x Hx. apply read32_value in Hx as (? & ? & ? & ? & _ & _ & _ & _ & ? & ? & ? & ? & ->); [|done]. unfold is_u8 in *. lia. }
    destruct (diff_zero a b a' b') as [<- <-]; eauto.
    destruct (IH (p + 8) (q + 8)) as (k & -> & Hk & Hs); [lia..|]. cbn [obind]. exists (8 + k). split_and!; [done|lia|lia|].
    apply (same_app d p q 8); [|done]. apply (same_app d p q 4 4); by eapply same_read32.
  - destruct (first_diff_ok 8 d p q) as (k & -> & Hk & Hs); [lia..|]. exists k. split_and!; [done|lia|lia|done].
Qed.

(** ** The format *)

(** A sequence: literals, then a match [sq_off] bytes back. *)
Record lz4_seq := mk_lseq { sq_lits : bytes; sq_off : Z; sq_len : Z }.

Definition long_bytes (l : Z) : bytes := if 15 <=? l then overflow_bytes (l - 15) else [].

Definition encode_seq (s : lz4_seq) : bytes :=
  u8 (Z.lor (Z.shiftl (nibble (len (sq_lits s))) 4) (nibble (sq_len s - 4))) ::
  long_bytes (len (sq_lits s)) ++ sq_lits s ++ [Z.land (u16 (sq_off s)) 255; Z.land (Z.shiftr (u16 (sq_off s)) 8) 255] ++
  long_bytes (sq_len s - 4).

Definition encode_last (l : bytes) : bytes := u8 (Z.shiftl (nibble (len l)) 4) :: long_bytes (len l) ++ l.

Definition encode (l : list lz4_seq) : bytes := concat (map encode_seq l).

(** The sequences cover [d] from [a] to [b]. *)
Inductive covers (d : bytes) : Z -> list lz4_seq -> Z -> Prop :=
| covers_nil a : covers d a [] a
| covers_cons a ip ref n l b :
    0 <= a <= ip -> 0 <= ref < ip -> ip - ref < 65535 -> 4 <= n -> ip + n <= len d - 5 -> same d ip ref n ->
    covers d (ip + n) l b ->
    covers d a (mk_lseq (take (Z.to_nat (ip - a)) (drop (Z.to_nat a) d)) (ip - ref) n :: l) b.

Lemma covers_app d a l b l' c : covers d a l b -> covers d b l' c -> covers d a (l ++ l') c.
Proof. induction 1 as [|a ip ref n l b H1 H2 H3 H4 H5 H6 _ IH]; intros Hc; [done|]. cbn [app]. econstructor; eauto. Qed.

Lemma literals_ok d a n : 0 <= a -> 0 <= n -> a + n <= len d ->
  literals d a n = Ret (take (Z.to_nat n) (drop (Z.to_nat a) d)) /\ len (take (Z.to_nat n) (drop (Z.to_nat a) d)) = n.
Proof.
  intros Ha Hn Hl. unfold literals, len in *. split.
  - destruct (Z.ltb_spec 0 n); [|by replace n with 0 by lia]. unfold rdn.
    by rewrite (proj2 (Z.leb_le 0 a)), (proj2 (Z.leb_le 0 n)), (proj2 (Z.leb_le _ _) Hl) by lia.
  - rewrite length_take, length_drop. lia.
Qed.

Lemma emit_match_ok d a ip ref n :
  0 <= a <= ip -> ip <= len d ->
  emit_match d a ip ref n = Ret (encode_seq (mk_lseq (take (Z.to_nat (ip - a)) (drop (Z.to_nat a) d)) (ip - ref) n)).
Proof.
  intros Ha Hi. unfold emit_match. destruct (literals_ok d a (ip - a)) as [El Hl]; [lia..|]. rewrite El. cbn [obind].
  unfold encode_seq. cbn [sq_lits sq_off sq_len]. rewrite Hl. done.
Qed.

Lemma emit_last_ok d a : 0 <= a <= len d -> emit_last d a = Ret (encode_last (drop (Z.to_nat a) d)).
Proof.
  intros Ha. unfold emit_last. destruct (literals_ok d a (len d - a)) as [El Hl]; [lia..|]. rewrite El. cbn [obind].
  assert (E : take (Z.to_nat (len d - a)) (drop (Z.to_nat a) d) = drop (Z.to_nat a) d) by (apply take_ge; rewrite length_drop; unfold len; lia).
  rewrite E in *. unfold encode_last. by rewrite Hl.
Qed.

(** ** The compressor covers its input *)

(** Every recorded position is before [ip]. *)
Definition table_ok (t : list Z) (ip : Z) : Prop := Forall (fun v => 0 <= v < Z.max 1 ip) t.

Lemma table_at_ok t ip h : table_ok t ip -> 0 <= table_at t h < Z.max 1 ip.
Proof.
  intros Ht. unfold table_at. destruct (nth_in_or_default (Z.to_nat h) t 0) as [Hin| ->]; [|lia].
  unfold table_ok in Ht. rewrite List.Forall_forall in Ht. by apply Ht.
Qed.

Lemma table_set_ok t ip ip' h v : table_ok t ip -> ip <= ip' -> 0 <= v < Z.max 1 ip' -> v < M32 -> table_ok (table_set t h v) ip'.
Proof.
  intros Ht Hle Hv Hm. unfold table_set. apply Forall_insert.
  - eapply Forall_impl; [exact Ht|]. intros x Hx. cbn in Hx. lia.
  - unfold u32. rewrite Z.mod_small by lia. lia.
Qed.

Lemma find_match_ok d t ip :
  wf_bytes d -> len d < M32 -> table_ok t ip -> 1 <= ip -> ip + 12 < len d ->
  exists r t', find_match d t ip = Ret (r, t') /\ table_ok t' (ip + 1) /\
    match r with
    | None => True
    | Some (ref, n) => 0 <= ref < ip /\ ip - ref < 65535 /\ 4 <= n /\ ip + n <= len d - 5 /\ same d ip ref n
    end.
Proof.
  intros Hd Hlen Ht Hip Hl. unfold find_match. destruct (read32_ok d ip ltac:(lia) ltac:(lia)) as [x Ex]. rewrite Ex. cbn [obind].
  pose proof (table_at_ok t ip (lz4_hash x) Ht) as Hr. set (ref := table_at t (lz4_hash x)) in *.
  assert (Ht' : table_ok (table_set t (lz4_hash x) ip) (ip + 1)) by (eapply table_set_ok; [exact Ht|lia..]).
  destruct (Z.ltb_spec (len d) (ref + 4)); [lia|].
  destruct ((0 <? ref) && (ip - ref <? 65535) && (ref + 4 <=? len d)) eqn:Ec; [|eexists None, _; done].
  apply andb_true_iff in Ec as [[E1 E2]%andb_true_iff E3]. destruct (read32_ok d ref ltac:(lia) ltac:(lia)) as [y Ey]. rewrite Ey. cbn [obind].
  destruct (Z.eqb_spec y x) as [->|]; [|eexists None, _; done].
  destruct (count_words_ok (length d) d (ip + 4) (ref + 4) (len d - 5)) as (k & Ek & Hk & Hs); [done|lia..|unfold len; lia|lia|].
  unfold count_match, LZ4_MINMATCH, LZ4_LASTLITERALS. rewrite Ek. cbn [obind]. eexists (Some _), _. split; [done|]. split; [done|].
  split_and!; [lia..|]. apply (same_app d ip ref 4); [by eapply same_read32|done].
Qed.

Lemma compress_loop_ok fuel d t a ip out :
  wf_bytes d -> len d < M32 -> table_ok t ip -> 0 <= a <= ip -> 1 <= ip -> a <= len d - 5 -> len d - ip <= Z.of_nat fuel ->
  exists l b, compress_loop fuel d t a ip out = Ret (out ++ encode l, b) /\ covers d a l b /\ 0 <= b <= len d - 5.
Proof.
  intros Hd Hlen. revert t a ip out. induction fuel as [|fuel IH]; intros t a ip out Ht Ha Hip Hae Hf; cbn [compress_loop].
  all: unfold LZ4_MFLIMIT; destruct (Z.ltb_spec ip (len d - 12)); cbn [negb].
  all: try (exists [], a; split_and!; [unfold encode; cbn; by rewrite app_nil_r|apply covers_nil|lia|lia]).
  { lia. }
  destruct (Z.ltb_spec (len d) (ip + 4)); [lia|].
  destruct (find_match_ok d t ip Hd Hlen Ht ltac:(lia) ltac:(lia)) as ([[ref n]|] & t' & -> & Ht' & Hr); cbn [obind].
  - destruct Hr as (R1 & R2 & R3 & R4 & R5). rewrite emit_match_ok by lia. cbn [obind].
    assert (Hrec : forall t2, table_ok t2 (ip + n) -> exists l b,
      compress_loop fuel d t2 (ip + n) (ip + n) (out ++ encode_seq (mk_lseq (take (Z.to_nat (ip - a)) (drop (Z.to_nat a) d)) (ip - ref) n)) = Ret (out ++ encode l, b) /\
      covers d a l b /\ 0 <= b <= len d - 5).
    { intros t2 Ht2. destruct (IH t2 (ip + n) (ip + n) (out ++ encode_seq (mk_lseq (take (Z.to_nat (ip - a)) (drop (Z.to_nat a) d)) (ip - ref) n)))
        as (l & b & -> & Hc & Hb); [done|lia..|]. eexists (_ :: l), b. split_and!; [|by apply covers_cons|lia|lia].
      unfold encode. cbn [map concat]. by rewrite <-app_assoc. }
    assert (Hmono : table_ok t' (ip + n)) by (eapply Forall_impl; [exact Ht'|]; intros v Hv; cbn in Hv; lia).
    destruct ((ip + n <? len d - 12) && (0 <=? ip + n - 2) && (ip + n + 2 <=? len d)) eqn:Ec; [|by apply Hrec].
    destruct (read32_ok d (ip + n - 2) ltac:(lia) ltac:(lia)) as [y ->]. cbn [obind]. apply Hrec.
    eapply table_set_ok; [exact Hmono|lia..].
  - destruct (IH t' a (ip + 1) out Ht') as (l & b & -> & Hc & Hb); [lia..|]. exists l, b. split_and!; [done..|lia|lia].
Qed.

(** The body of the compressed text. *)
Lemma compress_body d :
  wf_bytes d -> 0 < len d <= LZ4_MAX_INPUT_SIZE ->
  exists l b, ak_compress_lz4 true (Some d) = Ret (write32 (len d) ++ encode l ++ encode_last (drop (Z.to_nat b) d)) /\
    covers d 0 l b /\ 0 <= b < len d.
Proof.
  intros Hd [Hpos Hmax]. unfold ak_compress_lz4, LZ4_MAX_INPUT_SIZE in *.
  destruct (Z.eqb_spec (len d) 0); [lia|]. destruct (Z.ltb_spec 0x7E000000 (len d)); [lia|].
  unfold AK_COMPRESS_MAX_INPUT. destruct (Z.ltb_spec 0xFFFFFFFF (len d)); [lia|]. cbn [negb].
  assert (Hu : u32 (len d) = len d) by (unfold u32; rewrite Z.mod_small; lia). rewrite Hu.
  assert (Hsmall : exists st, compress_start d = Ret st /\ (len d <= 12 \/ (table_ok st.1 1 /\ st.2 = 1)) /\ 0 <= st.2 <= 1).
  { unfold compress_start, LZ4_MINMATCH. destruct ((4 <=? len d) && (0 + 4 <=? len d)) eqn:E.
    - destruct (read32_ok d 0 ltac:(lia) ltac:(lia)) as [x ->]. cbn [obind]. eexists. split; [done|]. cbn [fst snd]. split; [right|lia]. split; [|done].
      eapply (table_set_ok _ 0); [|lia..]. unfold table_ok. apply Forall_replicate. lia.
    - eexists. split; [done|]. cbn [fst snd]. split; [left; lia|lia]. }
  destruct Hsmall as (st & -> & Hst & Hip). cbn [obind].
  assert (Hloop : exists l b, compress_loop (length d) d st.1 0 st.2 (write32 (len d)) = Ret (write32 (len d) ++ encode l, b) /\
    covers d 0 l b /\ 0 <= b < len d).
  { destruct (Z.le_gt_cases (len d) 12) as [Hs|Hs].
    - exists [], 0. split_and!; [|apply covers_nil|lia|lia]. destruct (length d) eqn:El; [unfold len in Hpos; lia|]. cbn [compress_loop].
      unfold LZ4_MFLIMIT. destruct (Z.ltb_spec st.2 (len d - 12)); [lia|]. cbn [negb]. change (encode []) with ([] : bytes). by rewrite app_nil_r.
    - destruct Hst as [|[Ht E2]]; [lia|].
      destruct (compress_loop_ok (length d) d st.1 0 st.2 (write32 (len d))) as (l & b & -> & Hc & Hb); [done|lia|by rewrite E2|lia..|unfold len; lia|].
      exists l, b. split_and!; [done..|lia|lia]. }
  destruct Hloop as (l & b & -> & Hc & Hb). cbn [obind fst snd]. rewrite emit_last_ok by lia. cbn [obind].
  exists l, b. split_and!; [by rewrite <-app_assoc|done|lia|lia].
Qed.

(** ** Decoding *)

Lemma token_table :
  forallb (fun n1 => forallb (fun n2 => let t := u8 (Z.lor (Z.shiftl (Z.of_nat n1) 4) (Z.of_nat n2)) in
    (Z.shiftr t 4 =? Z.of_nat n1) && (Z.land t 15 =? Z.of_nat n2)) (seq 0 16)) (seq 0 16) = true.
Proof. vm_compute. reflexivity. Qed.

Lemma token_split n1 n2 :
  0 <= n1 < 16 -> 0 <= n2 < 16 ->
  Z.shiftr (u8 (Z.lor (Z.shiftl n1 4) n2)) 4 = n1 /\ Z.land (u8 (Z.lor (Z.shiftl n1 4) n2)) 15 = n2.
Proof.
  intros H1 H2. pose proof token_table as H. rewrite forallb_forall in H. specialize (H (Z.to_nat n1) ltac:(apply in_seq; lia)).
  rewrite forallb_forall in H. specialize (H (Z.to_nat n2) ltac:(apply in_seq; lia)). cbv zeta in H. rewrite !Z2Nat.id in H by lia.
  apply andb_true_iff in H as [? ?]. lia.
Qed.

Lemma token_last n : 0 <= n < 16 -> Z.shiftr (u8 (Z.shiftl n 4)) 4 = n.
Proof. intros Hn. pose proof (token_split n 0 Hn ltac:(lia)) as [H _]. by rewrite Z.lor_0_r in H. Qed.

Lemma length_bytes_value fuel l n rest :
  0 <= l -> l / 255 < Z.of_nat fuel -> 0 <= n -> n + l <= U64_LAST ->
  read_overflow (length_bytes fuel l ++ rest) n = Some (n + l, rest).
Proof.
  revert l n. induction fuel as [|fuel IH]; intros l n Hl Hf Hn Hb; cbn [length_bytes].
  { pose proof (Z.div_pos l 255 ltac:(lia) ltac:(lia)). lia. }
  destruct (Z.leb_spec 255 l).
  - cbn [app read_overflow]. destruct (Z.ltb_spec (U64_LAST - 255) n); [lia|]. rewrite Z.eqb_refl.
    rewrite IH; [f_equal; f_equal; lia|lia| |lia|lia]. replace l with ((l - 255) + 1 * 255) in Hf by lia. rewrite Z.div_add in Hf by lia. lia.
  - cbn [app read_overflow]. assert (E : u8 l = l) by (unfold u8; rewrite Z.mod_small; lia). rewrite E.
    destruct (Z.ltb_spec (U64_LAST - l) n); [lia|]. destruct (Z.eqb_spec l 255); [lia|]. done.
Qed.

(** A length, from its nibble and the bytes behind it; [k] is added. *)
Lemma read_length l k rest :
  0 <= l -> 0 <= k -> l + k <= U64_LAST ->
  (if nibble l =? 15 then read_overflow (long_bytes l ++ rest) (15 + k) else Some (nibble l + k, long_bytes l ++ rest)) = Some (l + k, rest).
Proof.
  intros Hl Hk Hb. unfold nibble, long_bytes. destruct (Z.leb_spec 15 l).
  - change (15 =? 15) with true. cbv iota. unfold overflow_bytes. rewrite length_bytes_value; [f_equal; f_equal; lia|lia| |lia|lia].
    pose proof (Z.div_pos (l - 15) 255 ltac:(lia) ltac:(lia)). lia.
  - destruct (Z.eqb_spec l 15); [lia|]. done.
Qed.

Lemma read_literal_length l rest :
  0 <= l <= U64_LAST ->
  (if nibble l =? 15 then read_overflow (long_bytes l ++ rest) 15 else Some (nibble l, long_bytes l ++ rest)) = Some (l, rest).
Proof. intros Hl. pose proof (read_length l 0 rest ltac:(lia) ltac:(lia) ltac:(lia)) as H. by rewrite !Z.add_0_r in H. Qed.

Lemma read_match_length l rest :
  0 <= l -> l + 4 <= U64_LAST ->
  (if nibble l =? 15 then read_overflow (long_bytes l ++ rest) (nibble l + 4) else Some (nibble l + 4, long_bytes l ++ rest)) = Some (l + 4, rest).
Proof.
  intros Hl Hb. rewrite <-(read_length l 4 rest) by lia. destruct (Z.eqb_spec (nibble l) 15) as [->|]; done.
Qed.

Lemma nibble_range l : 0 <= l -> 0 <= nibble l < 16.
Proof. intros Hl. unfold nibble. destruct (Z.leb_spec 15 l); lia. Qed.

Lemma offset_bytes o : 0 <= o < 65536 -> Z.lor (Z.land (u16 o) 255) (Z.shiftl (Z.land (Z.shiftr (u16 o) 8) 255) 8) = o.
Proof.
  intros Ho. assert (E : u16 o = o) by (unfold u16; rewrite Z.mod_small; lia). rewrite E.
  change 255 with (Z.ones 8). rewrite !Z.land_ones, Z.shiftr_div_pow2 by lia. change (2 ^ 8) with 256.
  rewrite lor_shift_add by (change (2 ^ 8) with 256; pose proof (Z.mod_pos_bound o 256 ltac:(lia)); lia). change (2 ^ 8) with 256.
  rewrite (Z.mod_small (o / 256)) by (split; [apply Z.div_pos; lia|apply Z.div_lt_upper_bound; lia]).
  pose proof (Z.div_mod o 256 ltac:(lia)). lia.
Qed.

(** ** Copies *)

Lemma put_take size d n b : 0 <= n -> rd d n = Ret b -> n < size -> n <= len d ->
  put size (take (Z.to_nat n) d) [b] = Ret (take (Z.to_nat (n + 1)) d).
Proof.
  intros Hn Hb Hs Hl. unfold put. assert (Hlen : len (take (Z.to_nat n) d) = n) by (unfold len in *; rewrite length_take; lia).
  rewrite Hlen. change (len [b]) with 1. destruct (Z.ltb_spec size (n + 1)); [lia|]. by rewrite (take_next d n b).
Qed.

Lemma copy_bytes_ok n d size ip ref :
  0 <= ref < ip -> ip + Z.of_nat n <= len d -> len d <= size -> same d ip ref (Z.of_nat n) ->
  copy_bytes n size (take (Z.to_nat ip) d) ref = Ret (take (Z.to_nat (ip + Z.of_nat n)) d).
Proof.
  revert ip ref. induction n as [|n IH]; intros ip ref Hr Hl Hs Hsame; cbn [copy_bytes]; [by rewrite Z.add_0_r|].
  unfold len in *. destruct (rd_in_bounds d ip ltac:(lia)) as [b Eb]. pose proof (Hsame 0 ltac:(lia)) as H0. rewrite !Z.add_0_r, Eb in H0.
  rewrite rd_take, <-H0 by lia. cbn [obind]. rewrite (put_take size d ip b) by (unfold len; (done || lia)). cbn [obind].
  rewrite (IH (ip + 1) (ref + 1)); [f_equal; f_equal; lia|lia|lia|lia|]. intros i Hi. specialize (Hsame (i + 1) ltac:(lia)).
  by replace (ip + 1 + i) with (ip + (i + 1)) by lia; replace (ref + 1 + i) with (ref + (i + 1)) by lia.
Qed.

Lemma slices_equal d p q n :
  0 <= p -> 0 <= q -> 0 <= n -> p + n <= len d -> q + n <= len d -> same d p q n ->
  (take (Z.to_nat n) (drop (Z.to_nat p) d) : bytes) = take (Z.to_nat n) (drop (Z.to_nat q) d).
Proof.
  intros Hp Hq Hn Hl1 Hl2 Hs. unfold len in *. apply list_eq. intros i. destruct (Nat.lt_ge_cases i (Z.to_nat n)).
  - rewrite !lookup_take_lt, !lookup_drop by lia. specialize (Hs (Z.of_nat i) ltac:(lia)). unfold rd in Hs.
    destruct (Z.ltb_spec (p + Z.of_nat i) 0); [lia|]. destruct (Z.ltb_spec (q + Z.of_nat i) 0); [lia|].
    replace (Z.to_nat (p + Z.of_nat i)) with (Z.to_nat p + i)%nat in Hs by lia. replace (Z.to_nat (q + Z.of_nat i)) with (Z.to_nat q + i)%nat in Hs by lia.
    destruct (lookup_lt_is_Some_2 d (Z.to_nat p + i)) as [x Ex]; [lia|]. destruct (lookup_lt_is_Some_2 d (Z.to_nat q + i)) as [y Ey]; [lia|].
    rewrite Ex, Ey in Hs |- *. by injection Hs as ->.
  - rewrite !lookup_ge_None_2; [done|rewrite length_take; lia|rewrite length_take; lia].
Qed.

Lemma copy_match_ok d size ip ref n :
  0 <= ref < ip -> 4 <= n -> ip + n <= len d -> len d <= size -> same d ip ref n ->
  copy_match size (take (Z.to_nat ip) d) (ip - ref) n = Ret (take (Z.to_nat (ip + n)) d).
Proof.
  intros Hr Hn Hl Hs Hsame. unfold copy_match. assert (Hlen : len (take (Z.to_nat ip) d) = ip) by (unfold len in *; rewrite length_take; lia).
  rewrite Hlen. replace (ip - (ip - ref)) with ref by lia. destruct (Z.ltb_spec (ip - ref) n).
  - rewrite (copy_bytes_ok (Z.to_nat n)) by (rewrite ?Z2Nat.id by lia; (done || lia)). by rewrite Z2Nat.id by lia.
  - unfold rdn. fold (len (take (Z.to_nat ip) d)). rewrite Hlen.
    rewrite (proj2 (Z.leb_le 0 ref)), (proj2 (Z.leb_le 0 n)), (proj2 (Z.leb_le (ref + n) ip)) by lia. cbn [andb obind].
    assert (E : take (Z.to_nat n) (drop (Z.to_nat ref) (take (Z.to_nat ip) d)) = take (Z.to_nat n) (drop (Z.to_nat ip) d)).
    { rewrite (slices_equal d ip ref n) by (done || lia). rewrite List.skipn_firstn_comm, take_take.
      replace (Z.to_nat n `min` (Z.to_nat ip - Z.to_nat ref))%nat with (Z.to_nat n) by lia. done. }
    rewrite E. unfold put. rewrite Hlen.
    assert (Hlen2 : len (take (Z.to_nat n) (drop (Z.to_nat ip) d)) = n) by (unfold len in *; rewrite length_take, length_drop; lia).
    rewrite Hlen2. destruct (Z.ltb_spec size (ip + n)); [lia|]. rewrite take_slice. do 2 f_equal. lia.
Qed.

(** ** Decoding what covers *)

Lemma decode_match_ok d token ip ref n rest :
  0 <= ref < ip -> ip - ref < 65535 -> 4 <= n -> ip + n <= len d -> len d <= U64_LAST -> same d ip ref n -> Z.land token 15 = nibble (n - 4) ->
  decode_match (len d) token ([Z.land (u16 (ip - ref)) 255; Z.land (Z.shiftr (u16 (ip - ref)) 8) 255] ++ long_bytes (n - 4) ++ rest)
    (take (Z.to_nat ip) d) = Ret (rest, take (Z.to_nat (ip + n)) d).
Proof.
  intros Hr Ho Hn Hl Hmax Hs Ht. cbn [app]. unfold decode_match. rewrite offset_bytes by lia.
  assert (Hlen : len (take (Z.to_nat ip) d) = ip) by (unfold len in *; rewrite length_take; lia). rewrite Hlen.
  destruct (Z.eqb_spec (ip - ref) 0); [lia|]. destruct (Z.ltb_spec ip (ip - ref)); [lia|]. cbn [orb]. cbv zeta. rewrite Ht.
  unfold LZ4_MINMATCH. rewrite (read_match_length (n - 4)) by lia. replace (n - 4 + 4) with n by lia.
  destruct (Z.ltb_spec (len d) (ip + n)); [lia|]. rewrite (copy_match_ok d) by (done || lia). done.
Qed.

(** The literals of a sequence. *)
Lemma put_literals d a ip : 0 <= a <= ip -> ip <= len d ->
  (if 0 <? ip - a then put (len d) (take (Z.to_nat a) d) (take (Z.to_nat (ip - a)) (drop (Z.to_nat a) d)) else Ret (take (Z.to_nat a) d)) =
  Ret (take (Z.to_nat ip) d).
Proof.
  intros Ha Hl. destruct (Z.ltb_spec 0 (ip - a)); [|by replace ip with a by lia]. unfold put.
  assert (E1 : len (take (Z.to_nat a) d) = a) by (unfold len in *; rewrite length_take; lia).
  assert (E2 : len (take (Z.to_nat (ip - a)) (drop (Z.to_nat a) d)) = ip - a) by (unfold len in *; rewrite length_take, length_drop; lia).
  rewrite E1, E2. destruct (Z.ltb_spec (len d) (a + (ip - a))); [lia|]. rewrite take_slice. do 2 f_equal. lia.
Qed.

Lemma encode_cons s l x :
  encode (s :: l) ++ x =
  u8 (Z.lor (Z.shiftl (nibble (len (sq_lits s))) 4) (nibble (sq_len s - 4))) :: long_bytes (len (sq_lits s)) ++ sq_lits s ++
  [Z.land (u16 (sq_off s)) 255; Z.land (Z.shiftr (u16 (sq_off s)) 8) 255] ++ long_bytes (sq_len s - 4) ++ encode l ++ x.
Proof. unfold encode. cbn [map concat]. unfold encode_seq. rewrite <-app_assoc. cbn [app]. rewrite <-!app_assoc. reflexivity. Qed.

Lemma decode_covers d fuel a l b :
  len d <= U64_LAST -> covers d a l b -> 0 <= a -> 0 <= b < len d -> a < len d -> (length l < fuel)%nat ->
  decompress_loop fuel (len d) (encode l ++ encode_last (drop (Z.to_nat b) d)) (take (Z.to_nat a) d) = Ret d.
Proof.
  intros Hmax Hc. revert fuel. induction Hc as [a|a ip ref n l b H1 H2 H3 H4 H5 H6 Hc IH]; intros fuel Ha Hb Hal Hf;
    (destruct fuel as [|fuel]; [cbn in Hf; lia|]).
  all: assert (E1 : len (take (Z.to_nat a) d) = a) by (unfold len in *; rewrite length_take; lia).
  - change (encode []) with ([] : bytes). cbn [app]. unfold encode_last. cbn [decompress_loop]. rewrite E1.
    destruct (Z.ltb_spec a (len d)); [|lia]. cbn [negb]. set (lits := drop (Z.to_nat a) d).
    assert (El : len lits = len d - a) by (unfold lits, len in *; rewrite length_drop; lia).
    rewrite token_last by (apply nibble_range; lia). rewrite read_literal_length by lia. rewrite El.
    destruct (Z.ltb_spec 0 (len d - a)) as [Hla|]; [|lia]. destruct (Z.ltb_spec (len d - a) (len d - a)); [lia|].
    destruct (Z.ltb_spec (len d) (a + (len d - a))); [lia|]. cbn [andb orb].
    pose proof (put_literals d a (len d) ltac:(lia) ltac:(lia)) as Hp. destruct (Z.ltb_spec 0 (len d - a)); [|lia]. fold lits in Hp.
    rewrite Hp. cbn [obind]. rewrite (drop_ge lits) by (unfold len in *; lia). f_equal. apply take_ge. unfold len. lia.
  - rewrite encode_cons. cbn [sq_lits sq_off sq_len].
    set (lits := take (Z.to_nat (ip - a)) (drop (Z.to_nat a) d)).
    assert (El : len lits = ip - a) by (unfold lits, len in *; rewrite length_take, length_drop; lia). rewrite El.
    cbn [decompress_loop]. rewrite E1. destruct (Z.ltb_spec a (len d)); [|lia]. cbn [negb].
    destruct (token_split (nibble (ip - a)) (nibble (n - 4))) as [T1 T2]; [apply nibble_range; lia..|]. rewrite T1.
    rewrite read_literal_length by lia.
    set (rest := [Z.land (u16 (ip - ref)) 255; Z.land (Z.shiftr (u16 (ip - ref)) 8) 255] ++ long_bytes (n - 4) ++ encode l ++ encode_last (drop (Z.to_nat b) d)).
    destruct (Z.ltb_spec (len (lits ++ rest)) (ip - a)); [rewrite len_app in *; pose proof (len_nonneg rest); lia|].
    destruct (Z.ltb_spec (len d) (a + (ip - a))); [lia|]. cbn [orb]. rewrite andb_false_r.
    assert (Et : take (Z.to_nat (ip - a)) (lits ++ rest) = lits) by (rewrite <-(take_app_length lits rest) at 2; f_equal; unfold len in *; lia).
    assert (Ed : drop (Z.to_nat (ip - a)) (lits ++ rest) = rest) by (rewrite <-(drop_app_length lits rest) at 2; f_equal; unfold len in *; lia).
    rewrite Et. unfold lits at 1. rewrite (put_literals d a ip) by lia. cbn [obind].
    assert (Es : (if 0 <? ip - a then drop (Z.to_nat (ip - a)) (lits ++ rest) else lits ++ rest) = rest).
    { destruct (Z.ltb_spec 0 (ip - a)); [done|]. destruct lits; [done|]. rewrite len_cons in El. pose proof (len_nonneg lits). lia. }
    rewrite Es. unfold rest at 1. cbn [app]. fold rest.
    pose proof (decode_match_ok d _ ip ref n (encode l ++ encode_last (drop (Z.to_nat b) d)) H2 H3 H4 ltac:(lia) Hmax H6 T2) as Hdm.
    fold rest in Hdm. rewrite Hdm. cbn [obind fst snd]. apply IH; [lia|lia|lia|cbn in Hf; lia].
Qed.

(** ** Sizes *)

Lemma length_bytes_length fuel l : 0 <= l -> l / 255 < Z.of_nat fuel -> len (length_bytes fuel l) = l / 255 + 1.
Proof.
  revert l. induction fuel as [|fuel IH]; intros l Hl Hf; cbn [length_bytes]; [pose proof (Z.div_pos l 255 Hl ltac:(lia)); lia|].
  destruct (Z.leb_spec 255 l).
  - assert (E : l / 255 = (l - 255) / 255 + 1) by (rewrite <-Z.div_add by lia; f_equal; lia). rewrite len_cons, IH by lia. lia.
  - rewrite Z.div_small by lia. done.
Qed.

Lemma long_bytes_length l : 0 <= l -> 255 * len (long_bytes l) <= l + 240 /\ (l < 15 -> len (long_bytes l) = 0) /\ l <= 255 * len (long_bytes l) + 14.
Proof.
  intros Hl. unfold long_bytes. destruct (Z.leb_spec 15 l); [|change (len []) with 0; lia]. unfold overflow_bytes. rewrite length_bytes_length; [|lia|pose proof (Z.div_pos (l - 15) 255 ltac:(lia) ltac:(lia)); lia].
  pose proof (Z.div_mod (l - 15) 255 ltac:(lia)). pose proof (Z.mod_pos_bound (l - 15) 255 ltac:(lia)). lia.
Qed.

(** What a sequence costs against what it covers. *)
Lemma encode_seq_length lits o n :
  4 <= n -> 255 * len (encode_seq (mk_lseq lits o n)) <= 256 * (len lits + n) /\ len lits + n <= 255 * len (encode_seq (mk_lseq lits o n)).
Proof.
  intros Hn. unfold encode_seq. cbn [sq_lits sq_off sq_len]. rewrite len_cons, !len_app. pose proof (len_nonneg lits) as Hl.
  destruct (long_bytes_length (len lits) Hl) as (A1 & A2 & A3). destruct (long_bytes_length (n - 4) ltac:(lia)) as (B1 & B2 & B3).
  change (len [_; _]) with 2. destruct (Z.lt_ge_cases (n - 4) 15); [rewrite (B2 ltac:(lia)) in *|]; lia.
Qed.

Lemma encode_length d a l b : covers d a l b -> 0 <= b - a /\ 255 * len (encode l) <= 256 * (b - a) /\ b - a <= 255 * len (encode l).
Proof.
  induction 1 as [a|a ip ref n l b H1 H2 H3 H4 H5 H6 Hc IH]; [change (encode []) with ([] : bytes); change (len []) with 0; lia|].
  match goal with |- context [encode (?s :: l)] => change (encode (s :: l)) with (encode_seq s ++ encode l) end. rewrite len_app.
  destruct (encode_seq_length (take (Z.to_nat (ip - a)) (drop (Z.to_nat a) d)) (ip - ref) n H4) as [A1 A2].
  assert (El : len (take (Z.to_nat (ip - a)) (drop (Z.to_nat a) d)) = ip - a) by (unfold len in *; rewrite length_take, length_drop; lia).
  rewrite El in *. lia.
Qed.

Lemma encode_last_length l : 255 * len (encode_last l) <= 256 * len l + 495 /\ len l <= 255 * len (encode_last l).
Proof.
  unfold encode_last. rewrite len_cons, len_app. destruct (long_bytes_length (len l) (len_nonneg l)) as (A1 & _ & A3). pose proof (len_nonneg l). lia.
Qed.

Lemma body_length d l b :
  covers d 0 l b -> 0 <= b <= len d ->
  255 * len (encode l ++ encode_last (drop (Z.to_nat b) d)) <= 256 * len d + 495 /\
  len d <= 255 * len (encode l ++ encode_last (drop (Z.to_nat b) d)).
Proof.
  intros Hc Hb. rewrite len_app. destruct (encode_length _ _ _ _ Hc) as (_ & A1 & A2). destruct (encode_last_length (drop (Z.to_nat b) d)) as [B1 B2].
  assert (El : len (drop (Z.to_nat b) d) = len d - b) by (unfold len in *; rewrite length_drop; lia). rewrite El in *. lia.
Qed.

Lemma encode_count d a l b : covers d a l b -> (length l <= length (encode l))%nat.
Proof.
  induction 1; [cbn; lia|]. match goal with |- context [encode (?s :: l)] => change (encode (s :: l)) with (encode_seq s ++ encode l) end. rewrite length_app. cbn [length encode_seq]. lia.
Qed.

Lemma read32_head a b c e rest : read32 (a :: b :: c :: e :: rest) 0 = Ret (Z.lor (Z.lor (Z.lor a (Z.shiftl b 8)) (Z.shiftl c 16)) (Z.shiftl e 24)).
Proof. reflexivity. Qed.

Lemma write32_read v rest : 0 <= v < M32 -> read32 (write32 v ++ rest) 0 = Ret v.
Proof.
  intros Hv. unfold write32. cbn [app]. rewrite read32_head.
  change 255 with (Z.ones 8). rewrite !Z.land_ones, !Z.shiftr_div_pow2 by lia. change (2 ^ 8) with 256. change (2 ^ 16) with 65536. change (2 ^ 24) with 16777216.
  pose proof (Z.mod_pos_bound v 256 ltac:(lia)). pose proof (Z.mod_pos_bound (v / 256) 256 ltac:(lia)).
  pose proof (Z.mod_pos_bound (v / 65536) 256 ltac:(lia)).
  rewrite (lor_shift_add _ _ 8) by lia. rewrite (lor_shift_add _ _ 16) by lia. rewrite (lor_shift_add _ _ 24) by lia.
  f_equal. Z.div_mod_to_equations. lia.
Qed.

(** ** Decompression of arbitrary bytes *)

(** What a failing parse or a completed one leaves: never an access outside. *)
Definition within {A} (P : A -> Prop) (o : outcome A) : Prop :=
  match o with
  | Ret x => P x
  | Null => True
  | Oob => False
  end.

Lemma read_overflow_ok src n v rest :
  wf_bytes src -> 0 <= n -> read_overflow src n = Some (v, rest) -> n <= v /\ wf_bytes rest /\ (length rest < length src)%nat.
Proof.
  revert n. induction src as [|s src IH]; intros n Hw Hn; cbn [read_overflow length]; [done|].
  apply Forall_cons in Hw as [Hs Hw]. unfold is_u8 in Hs. destruct (U64_LAST - s <? n); [done|]. destruct (s =? 255).
  - intros H. destruct (IH (n + s) Hw ltac:(lia) H) as (? & ? & ?). split_and!; [lia|done|lia].
  - intros [= <- <-]. split_and!; [lia|done|lia].
Qed.

Lemma put_ok size out bs : len out + len bs <= size -> put size out bs = Ret (out ++ bs).
Proof. intros H. unfold put. destruct (Z.ltb_spec size (len out + len bs)); [lia|done]. Qed.

Lemma copy_bytes_safe n size out p :
  0 <= p < len out -> len out + Z.of_nat n <= size -> exists out', copy_bytes n size out p = Ret out' /\ len out' = len out + Z.of_nat n.
Proof.
  revert out p. induction n as [|n IH]; intros out p Hp Hs; cbn [copy_bytes]; [exists out; split; [done|lia]|].
  destruct (rd_in_bounds out p Hp) as [b ->]. cbn [obind]. rewrite put_ok by (change (len [b]) with 1; lia). cbn [obind].
  destruct (IH (out ++ [b]) (p + 1)) as (out' & -> & E); [rewrite len_app; change (len [b]) with 1; lia..|].
  exists out'. split; [done|]. rewrite E, len_app. change (len [b]) with 1. lia.
Qed.

Lemma copy_match_safe size out offset n :
  0 < offset <= len out -> 0 <= n -> len out + n <= size -> exists out', copy_match size out offset n = Ret out' /\ len out' = len out + n.
Proof.
  intros Ho Hn Hs. unfold copy_match. destruct (Z.ltb_spec offset n).
  - destruct (copy_bytes_safe (Z.to_nat n) size out (len out - offset)) as (out' & -> & E); [lia..|]. exists out'. split; [done|lia].
  - unfold rdn. fold (len out). rewrite (proj2 (Z.leb_le 0 (len out - offset))), (proj2 (Z.leb_le 0 n)), (proj2 (Z.leb_le (len out - offset + n) (len out))) by lia.
    cbn [andb obind]. assert (El : len (take (Z.to_nat n) (drop (Z.to_nat (len out - offset)) out)) = n) by (unfold len in *; rewrite length_take, length_drop; lia).
    rewrite put_ok by lia. eexists. split; [done|]. rewrite len_app. lia.
Qed.

Lemma nonneg_offset lo hi : is_u8 lo -> is_u8 hi -> 0 <= Z.lor lo (Z.shiftl hi 8).
Proof. intros [? _] [? _]. apply Z.lor_nonneg. split; [done|]. by apply Z.shiftl_nonneg. Qed.

Lemma decode_match_safe size token src out :
  wf_bytes src ->
  within (fun r => wf_bytes r.1 /\ (length r.1 < length src)%nat /\ len r.2 <= size) (decode_match size token src out).
Proof.
  intros Hw. unfold decode_match. destruct src as [|lo [|hi src]]; try done. apply Forall_cons in Hw as [Hlo Hw]. apply Forall_cons in Hw as [Hhi Hw].
  pose proof (nonneg_offset _ _ Hlo Hhi) as Hoff. set (offset := Z.lor lo (Z.shiftl hi 8)) in *. destruct (Z.eqb_spec offset 0) as [|Hnz]; [done|].
  destruct (Z.ltb_spec (len out) offset); [done|]. cbn [orb]. cbv zeta.
  assert (Ht : 0 <= Z.land token 15) by (apply Z.land_nonneg; lia).
  assert (Hm : forall n rest, 0 <= n -> wf_bytes rest -> (length rest <= length src)%nat ->
    within (fun r => wf_bytes r.1 /\ (length r.1 < length (lo :: hi :: src))%nat /\ len r.2 <= size)
      (if size <? len out + n then Null else let* out := copy_match size out offset n in Ret (rest, out))).
  { intros n rest Hn Hr Hl. destruct (Z.ltb_spec size (len out + n)); [done|].
    destruct (copy_match_safe size out offset n) as (out' & -> & E); [lia..|]. cbn [obind within fst snd length]. split_and!; [done|lia|lia]. }
  unfold LZ4_MINMATCH. destruct (Z.land token 15 =? 15).
  - destruct (read_overflow src (Z.land token 15 + 4)) as [[n rest]|] eqn:Er; [|done].
    apply read_overflow_ok in Er as (? & ? & ?); [|done|lia]. apply Hm; [lia|done|lia].
  - apply Hm; [lia|done|lia].
Qed.

Lemma wf_bytes_drop n src : wf_bytes src -> wf_bytes (drop n src).
Proof. apply Forall_drop. Qed.

Lemma decompress_loop_safe fuel size src out :
  wf_bytes src -> (length src <= fuel)%nat -> len out <= size -> within (fun r => len r <= size) (decompress_loop fuel size src out).
Proof.
  revert src out. induction fuel as [|fuel IH]; intros src out Hw Hf Hs; (destruct src as [|token src]; cbn [decompress_loop]; [done|]); [cbn in Hf; lia|].
  destruct (Z.ltb_spec (len out) size); [|done]. cbn [negb length] in *. apply Forall_cons in Hw as [Ht Hw].
  assert (Hstep : forall n rest, 0 <= n -> wf_bytes rest -> (length rest <= length src)%nat ->
    within (fun r => len r <= size)
      (if (0 <? n) && ((len rest <? n) || (size <? len out + n)) then Null
       else let* out := if 0 <? n then put size out (take (Z.to_nat n) rest) else Ret out in
            match (if 0 <? n then drop (Z.to_nat n) rest else rest) with
            | [] => Ret out
            | _ => let* r := decode_match size token (if 0 <? n then drop (Z.to_nat n) rest else rest) out in decompress_loop fuel size r.1 r.2
            end)).
  { intros n rest Hn Hr Hl. destruct ((0 <? n) && ((len rest <? n) || (size <? len out + n))) eqn:Eg; [done|].
    assert (Hp : exists out', (if 0 <? n then put size out (take (Z.to_nat n) rest) else Ret out) = Ret out' /\ len out' <= size).
    { destruct (Z.ltb_spec 0 n); [|by exists out]. cbn [andb] in Eg. apply orb_false_iff in Eg as [E1 E2].
      assert (El : len (take (Z.to_nat n) rest) = n) by (unfold len in *; rewrite length_take; lia).
      rewrite put_ok by lia. eexists. split; [done|]. rewrite len_app. lia. }
    destruct Hp as (out' & -> & Ho). cbn [obind].
    set (src' := if 0 <? n then drop (Z.to_nat n) rest else rest).
    assert (Hs' : wf_bytes src' /\ (length src' <= length rest)%nat).
    { unfold src'. destruct (0 <? n); [|split; [done|lia]]. split; [by apply wf_bytes_drop|]. rewrite length_drop. lia. }
    destruct src' as [|x src'']; [done|]. pose proof (decode_match_safe size token (x :: src'') out' (proj1 Hs')) as Hd.
    destruct (decode_match size token (x :: src'') out') as [[s o]| |]; cbn [obind within fst snd] in *; [|done|done].
    destruct Hd as (D1 & D2 & D3). apply IH; [done| |done]. destruct Hs' as [_ Hs']. lia. }
  destruct (Z.shiftr token 4 =? 15).
  - destruct (read_overflow src 15) as [[n rest]|] eqn:Er; [|done]. apply read_overflow_ok in Er as (? & ? & ?); [|done|lia].
    apply Hstep; [lia|done|lia].
  - apply Hstep; [|done|lia]. apply Z.shiftr_nonneg. unfold is_u8 in Ht. lia.
Qed.

(** ** Theorems *)

Lemma body_ratio d l b :
  covers d 0 l b -> 0 <= b < len d ->
  let c := encode l ++ encode_last (drop (Z.to_nat b) d) in (0 <? len c) && (AK_COMPRESS_MAX_RATIO <? len d / len c) = false.
Proof.
  intros Hc Hb c. destruct (body_length d l b Hc ltac:(lia)) as [_ H]. fold c in H. destruct (Z.ltb_spec 0 (len c)); [|lia]. cbn [andb].
  apply Z.ltb_ge. unfold AK_COMPRESS_MAX_RATIO. apply Z.div_le_upper_bound; lia.
Qed.

Lemma decompress_body d l b :
  0 < len d <= AK_DECOMPRESS_MAX_SIZE -> covers d 0 l b -> 0 <= b < len d ->
  ak_decompress_lz4_sized true (Some (encode l ++ encode_last (drop (Z.to_nat b) d))) (len d) = Ret (Buffer d).
Proof.
  intros Hd Hc Hb. unfold ak_decompress_lz4_sized. destruct (Z.eqb_spec (len d) 0); [lia|].
  destruct (Z.ltb_spec AK_DECOMPRESS_MAX_SIZE (len d)); [lia|]. pose proof (body_ratio d l b Hc Hb) as Hr. cbv zeta in Hr. rewrite Hr. cbn [negb].
  pose proof (decode_covers d (length (encode l ++ encode_last (drop (Z.to_nat b) d))) 0 l b) as Hdec. change (take (Z.to_nat 0) d) with ([] : bytes) in Hdec.
  rewrite Hdec; [|unfold AK_DECOMPRESS_MAX_SIZE, U64_LAST in *; lia|done|lia|lia|lia|].
  - cbn [obind]. rewrite Z.eqb_refl. done.
  - rewrite length_app. pose proof (encode_count _ _ _ _ Hc). unfold encode_last. cbn [length]. lia.
Qed.

Lemma decompress_header d rest :
  0 < len d < M32 ->
  ak_decompress_lz4 true true (Some (write32 (len d) ++ rest)) =
  if AK_DECOMPRESS_MAX_SIZE <? len d then Null
  else if (0 <? len rest) && (AK_COMPRESS_MAX_RATIO <? len d / len rest) then Null
  else ak_decompress_lz4_sized true (Some rest) (len d).
Proof.
  intros Hd. unfold ak_decompress_lz4. assert (El : len (write32 (len d) ++ rest) = 4 + len rest) by (rewrite len_app; done). rewrite El.
  destruct (Z.ltb_spec (4 + len rest) 4); [pose proof (len_nonneg rest); lia|]. rewrite write32_read by lia. cbn [obind].
  destruct (Z.eqb_spec (len d) 0); [lia|]. replace (4 + len rest - 4) with (len rest) by lia. done.
Qed.

(** Decompression inverts compression: whenever memory can be allocated, every text of at most 256 MB is compressed (nothing outside the text or the table is read, and the loop ends), and [ak_decompress_lz4] of the result gives the text back, byte for byte. *)
Theorem lz4_round_trip (d : bytes) :
  wf_bytes d -> len d <= AK_DECOMPRESS_MAX_SIZE ->
  exists c, ak_compress_lz4 true (Some d) = Ret c /\ ak_decompress_lz4 true true (Some c) = Ret (Buffer d).
Proof.
  intros Hd Hl. pose proof (len_nonneg d) as Hn. destruct (Z.eq_dec (len d) 0) as [E|E].
  - exists [0; 0; 0; 0]. destruct d; [|rewrite len_cons in E; pose proof (len_nonneg d); lia]. split; reflexivity.
  - destruct (compress_body d Hd) as (l & b & -> & Hc & Hb); [unfold LZ4_MAX_INPUT_SIZE, AK_DECOMPRESS_MAX_SIZE in *; lia|].
    eexists. split; [done|]. rewrite decompress_header by (unfold AK_DECOMPRESS_MAX_SIZE in *; lia).
    destruct (Z.ltb_spec AK_DECOMPRESS_MAX_SIZE (len d)); [lia|]. pose proof (body_ratio d l b Hc Hb) as Hr. cbv zeta in Hr. rewrite Hr.
    apply decompress_body; [lia|done|done].
Qed.

(** A text of 63 bytes with a run and a repeated word. *)
Definition sample_text : bytes := B"{'taint':'untrusted','data':'aaaaaaaaaaaaaaaaaaaaaaaa','taint':1}".

Lemma lz4_round_trip_witness :
  wf_bytes sample_text /\ (exists c, ak_compress_lz4 true (Some sample_text) = Ret c /\ ak_decompress_lz4 true true (Some c) = Ret (Buffer sample_text)).
Proof.
  assert (H : wf_bytes sample_text) by (vm_compute; repeat constructor; discriminate).
  split; [exact H|]. apply (lz4_round_trip sample_text); [exact H|]. vm_compute. discriminate.
Defined.

(** The text does get shorter. *)
Lemma sample_shrinks : exists c, ak_compress_lz4 true (Some sample_text) = Ret c /\ len c < len sample_text.
Proof. eexists. split; [vm_compute; reflexivity|vm_compute; reflexivity]. Qed.

(** What [ak_compress_lz4] writes fits the buffer it reserved, [ak_compress_bound] bytes and four for the size, for every input it accepts, and [ak_compress_bound] itself never wraps. *)
Theorem compressed_fits_bound (d : bytes) :
  wf_bytes d -> 0 < len d <= LZ4_MAX_INPUT_SIZE ->
  exists c, ak_compress_lz4 true (Some d) = Ret c /\ len c <= ak_compress_bound (len d) + 4 /\ ak_compress_bound (len d) = len d + len d / 255 + 16.
Proof.
  intros Hd Hl. destruct (compress_body d Hd Hl) as (l & b & -> & Hc & Hb). eexists. split; [done|]. rewrite len_app. change (len (write32 (len d))) with 4.
  destruct (body_length d l b Hc ltac:(lia)) as [H _]. unfold LZ4_MAX_INPUT_SIZE in Hl.
  pose proof (Z.div_mod (len d) 255 ltac:(lia)). pose proof (Z.mod_pos_bound (len d) 255 ltac:(lia)). pose proof (Z.div_pos (len d) 255 ltac:(lia) ltac:(lia)).
  unfold ak_compress_bound, U64_LAST. destruct (Z.ltb_spec (18446744073709551615 - len d / 255) (len d)); [lia|].
  destruct (Z.ltb_spec (18446744073709551615 - 16) (len d + len d / 255)); [lia|]. lia.
Qed.

Lemma compressed_fits_bound_witness :
  exists c, ak_compress_lz4 true (Some sample_text) = Ret c /\ len c <= ak_compress_bound (len sample_text) + 4 /\
    ak_compress_bound (len sample_text) = len sample_text + len sample_text / 255 + 16.
Proof. apply (compressed_fits_bound sample_text); [vm_compute; repeat constructor; discriminate|vm_compute; split; [reflexivity|discriminate]]. Defined.

(** Decompression of arbitrary bytes is safe: whatever the compressed text and whatever the allocator answers, no read leaves the compressed text or the bytes already produced, no write leaves the output buffer, the loop ends, and a buffer is returned only when exactly the announced number of bytes, at most 256 MB, was produced. *)
Theorem decompress_in_bounds (al_view al : bool) (c : bytes) :
  wf_bytes c ->
  match ak_decompress_lz4 al_view al (Some c) with
  | Oob => False
  | Null => True
  | Ret INVALID_ADDRESS => al = false /\ read32 c 0 = Ret 0
  | Ret (Buffer out) => read32 c 0 = Ret (len out) /\ len out <= AK_DECOMPRESS_MAX_SIZE
  end.
Proof.
  intros Hw. unfold ak_decompress_lz4. destruct (Z.ltb_spec (len c) 4); [done|]. destruct (read32_ok c 0 ltac:(lia) ltac:(lia)) as [n En].
  rewrite En. cbn [obind]. destruct (Z.eqb_spec n 0) as [->|Hnz]; [destruct al; done|]. destruct (Z.ltb_spec AK_DECOMPRESS_MAX_SIZE n); [done|].
  destruct (_ && _); [done|]. destruct al_view; [|done]. cbn [negb]. unfold ak_decompress_lz4_sized. destruct (Z.eqb_spec n 0); [lia|].
  destruct (Z.ltb_spec AK_DECOMPRESS_MAX_SIZE n); [lia|]. destruct (_ && _); [done|]. destruct al; [|done]. cbn [negb].
  assert (Hn : 0 <= n).
  { apply read32_value in En as (? & ? & ? & ? & _ & _ & _ & _ & ? & ? & ? & ? & ->); [|done]. unfold is_u8 in *. lia. }
  pose proof (decompress_loop_safe (length (drop 4 c)) n (drop 4 c) [] ltac:(by apply wf_bytes_drop) ltac:(lia) ltac:(change (len []) with 0; lia)) as Hs.
  destruct (decompress_loop _ n (drop 4 c) []) as [out| |]; cbn [obind within] in *; [|done|done].
  destruct (Z.eqb_spec (len out) n) as [<-|]; [|done]. cbn [negb]. split; [done|lia].
Qed.

Lemma decompress_in_bounds_witness :
  wf_bytes (B"'hostile'") /\
  match ak_decompress_lz4 true true (Some (B"'hostile'")) with
  | Oob => False
  | Null => True
  | Ret INVALID_ADDRESS => true = false /\ read32 (B"'hostile'") 0 = Ret 0
  | Ret (Buffer out) => read32 (B"'hostile'") 0 = Ret (len out) /\ len out <= AK_DECOMPRESS_MAX_SIZE
  end.
Proof.
  assert (H : wf_bytes (B"'hostile'")) by (vm_compute; repeat constructor; discriminate). split; [exact H|].
  exact (decompress_in_bounds true true (B"'hostile'") H).
Defined.

(** A text between 256 MB and the compressor's own limit is compressed, and
    the result can never be decompressed. *)
Theorem oversized_text_lost (d : bytes) :
  wf_bytes d -> AK_DECOMPRESS_MAX_SIZE < len d <= LZ4_MAX_INPUT_SIZE ->
  exists c, ak_compress_lz4 true (Some d) = Ret c /\ ak_decompress_lz4 true true (Some c) = Null.
Proof.
  intros Hd Hl. unfold AK_DECOMPRESS_MAX_SIZE, LZ4_MAX_INPUT_SIZE in Hl. destruct (compress_body d Hd) as (l & b & -> & Hc & Hb); [unfold LZ4_MAX_INPUT_SIZE; lia|].
  eexists. split; [done|]. rewrite decompress_header by lia. unfold AK_DECOMPRESS_MAX_SIZE. destruct (Z.ltb_spec 268435456 (len d)); [done|lia].
Qed.
