(* ===== verification/WasmParse.v ===== *)
(** * WASM modules ([src/src/agentic/ak_wasm_interp.c], first half)

    The bounds-checked cursor, the LEB128 decoders, the registry of host
    functions and the parser of the module sections.  Every array of the parsed
    module keeps the size the source declares, and an index outside it is
    [Fault], as are a store behind the end of a name buffer and a read outside
    the module's bytes: the theorem of this file is that no bytes make the
    parser fault. *)

From S2P Require Import Prelude.
Open Scope ak_scope.

Definition AK_E_WASM_INVALID_MODULE : Z := -4500.
Definition AK_E_WASM_EXPORT_NOT_FOUND : Z := -4502.
Definition AK_E_WASM_TRAP : Z := -4504.
Definition AK_E_WASM_OOM : Z := -4505.
Definition AK_E_WASM_TIMEOUT : Z := -4506.
Definition AK_E_WASM_HOST_ERROR : Z := -4507.
Definition AK_E_WASM_UNSUPPORTED : Z := -4509.

Definition IN_MAX_TYPES : Z := 128.
Definition IN_MAX_PARAMS : Z := 16.
Definition IN_MAX_IMPORTS : Z := 64.
Definition IN_MAX_FUNCS : Z := 256.
Definition IN_MAX_LOCALS : Z := 256.
Definition IN_STACK_MAX : Z := 1024.
Definition IN_MAX_IFS : Z := 512.
Definition IN_MAX_NAME : Z := 64.
Definition IN_DEFAULT_GAS : Z := 10 * 1000 * 1000.
Definition IN_WASM_MAGIC : Z := 0x6d736100.
Definition IN_WASM_VERSION : Z := 1.
Definition VT_I32 : Z := 0x7F.
Definition VT_I64 : Z := 0x7E.
Definition VT_F32 : Z := 0x7D.
Definition VT_F64 : Z := 0x7C.
Definition SEC_CUSTOM : Z := 0.
Definition SEC_TYPE : Z := 1.
Definition SEC_IMPORT : Z := 2.
Definition SEC_FUNCTION : Z := 3.
Definition SEC_EXPORT : Z := 7.
Definition SEC_CODE : Z := 10.

(** ** Functions that return an error code

    [Fail e] is the return of the negative code [e]; [Fault] an access outside
    an object, which no execution has. *)

Inductive res (A : Type) : Type :=
| Ok (a : A)
| Fail (e : Z)
| Fault.
Arguments Ok {A} _.
Arguments Fail {A} _.
Arguments Fault {A}.

Definition rbind {A C} (m : res A) (f : A -> res C) : res C :=
  match m with
  | Ok a => f a
  | Fail e => Fail e
  | Fault => Fault
  end.
Notation "'let!' x ':=' m 'in' k" := (rbind m (fun x => k)) (at level 10, x name, m at level 100, k at level 200) : ak_scope.
Notation "'let!' ( x , y ) ':=' m 'in' k" := (rbind m (fun '(x, y) => k)) (at level 10, x name, y name, m at level 100, k at level 200) : ak_scope.

(** [if (!f(...)) return e;] for a function that returns a boolean. *)
Definition or_fail {A} (e : Z) (o : outcome A) : res A :=
  match o with
  | Ret a => Ok a
  | Null => Fail e
  | Oob => Fault
  end.

(** Array accesses. *)
Definition aget {A} (l : list A) (i : Z) : res A :=
  if i <? 0 then Fault else match l !! Z.to_nat i with Some x => Ok x | None => Fault end.
Definition aset {A} (l : list A) (i : Z) (x : A) : res (list A) :=
  if (0 <=? i) && (i <? Z.of_nat (length l)) then Ok (<[Z.to_nat i := x]> l) else Fault.

(** The store at index [n++] of an array of [cap] cells whose first [n] are in
    use: kept in the order of the array, or, for a stack, with the last first. *)
Definition aput {A} (cap : Z) (l : list A) (x : A) : res (list A) :=
  if Z.of_nat (length l) <? cap then Ok (l ++ [x]) else Fault.
Definition apush {A} (cap : Z) (l : list A) (x : A) : res (list A) :=
  if Z.of_nat (length l) <? cap then Ok (x :: l) else Fault.

(** ** The cursor *)

Record rd_t := mk_rd { rd_data : bytes; rd_len : Z; rd_pos : Z }.

Definition set_pos (r : rd_t) (p : Z) : rd_t := mk_rd (rd_data r) (rd_len r) p.

Definition rd_byte (r : rd_t) : outcome (Z * rd_t) :=
  if rd_len r <=? rd_pos r then Null
  else let* b := rd (rd_data r) (rd_pos r) in Ret (b, set_pos r (rd_pos r + 1)).

Definition rd_skip (r : rd_t) (n : Z) : outcome rd_t :=
  if (rd_len r <? n) || (rd_len r - n <? rd_pos r) then Null else Ret (set_pos r (rd_pos r + n)).

(** The loop of [rd_u32]; [n] iterations are left. *)
Fixpoint rd_u32_loop (n : nat) (i shift result : Z) (r : rd_t) : outcome (Z * rd_t) :=
  match n with
  | O => Null
  | S n' =>
      let* p := rd_byte r in
      let b := p.1 in
      if (i =? 4) && negb (Z.land b 0x70 =? 0) then Null
      else
        let result := Z.lor result (u32 (Z.shiftl (Z.land b 0x7f) shift)) in
        if Z.land b 0x80 =? 0 then Ret (result, p.2) else rd_u32_loop n' (i + 1) (shift + 7) result p.2
  end.
Definition rd_u32 (r : rd_t) : outcome (Z * rd_t) := rd_u32_loop 5 0 0 0 r.

(** The loops of [rd_s32] and [rd_s64]: [result] is the bit pattern of the
    signed accumulator of [w] bits. *)
Fixpoint rd_signed_loop (w : Z) (n : nat) (shift result : Z) (r : rd_t) : outcome (Z * rd_t) :=
  match n with
  | O => Null
  | S n' =>
      let* p := rd_byte r in
      let b := p.1 in
      let result := Z.lor result (Z.shiftl (Z.land b 0x7f) shift mod 2 ^ w) in
      let shift := shift + 7 in
      if Z.land b 0x80 =? 0 then
        Ret (if (shift <? w) && negb (Z.land b 0x40 =? 0) then Z.lor result (Z.shiftl (2 ^ w - 1) shift mod 2 ^ w) else result, p.2)
      else rd_signed_loop w n' shift result p.2
  end.
Definition rd_s32 (r : rd_t) : outcome (Z * rd_t) := let* p := rd_signed_loop 32 5 0 0 r in Ret (s32 p.1, p.2).
Definition rd_s64 (r : rd_t) : outcome (Z * rd_t) := let* p := rd_signed_loop 64 10 0 0 r in Ret (s64 p.1, p.2).

Definition rd_valtype (r : rd_t) : res (Z * rd_t) :=
  let! (t, r) := or_fail AK_E_WASM_INVALID_MODULE (rd_byte r) in
  if (t =? VT_I32) || (t =? VT_I64) then Ok (t, r)
  else if (t =? VT_F32) || (t =? VT_F64) then Fail AK_E_WASM_UNSUPPORTED
  else Fail AK_E_WASM_INVALID_MODULE.

Definition rd_u32_raw_le (r : rd_t) : outcome (Z * rd_t) :=
  if rd_len r <? rd_pos r + 4 then Null
  else
    let* b0 := rd (rd_data r) (rd_pos r) in
    let* b1 := rd (rd_data r) (rd_pos r + 1) in
    let* b2 := rd (rd_data r) (rd_pos r + 2) in
    let* b3 := rd (rd_data r) (rd_pos r + 3) in
    Ret (Z.lor (Z.lor (Z.lor b0 (Z.shiftl b1 8)) (Z.shiftl b2 16)) (Z.shiftl b3 24), set_pos r (rd_pos r + 4)).

(** [for (i = 0; i < count; i++)] around a body that reads from a cursor.
    The fuel is the number of bytes of the module: each iteration reads one. *)
Fixpoint rd_for {S} (fuel : nat) (body : Z -> S -> rd_t -> res (S * rd_t)) (i count : Z) (s : S) (r : rd_t) : res (S * rd_t) :=
  if i <? count then
    match fuel with
    | O => Fault
    | Datatypes.S fuel' => let! (s, r) := body i s r in rd_for fuel' body (i + 1) count s r
    end
  else Ok (s, r).
Definition rd_fuel (r : rd_t) : nat := S (length (rd_data r)).

(** ** Host functions *)

Section Host.
Context {W : Type}.

(** A host function: the world and the argument buffer to a code, or a negative error. *)
Definition host_fn : Type := W -> option bytes -> Z * W.

Record ak_host_fn_entry := mk_host_fn { hf_name : bytes; hf_fn : option host_fn; hf_cap_type : Z; hf_async_capable : bool }.

Definition AK_MAX_HOST_FUNCTIONS : Z := 128.
Definition AK_E_QUOTA_EXCEEDED : Z := -4303.

Definition ak_host_fn_register (reg : list ak_host_fn_entry) (name : bytes) (fn : option host_fn) (cap_type : Z) (async_capable : bool) :
  Z * list ak_host_fn_entry :=
  if AK_MAX_HOST_FUNCTIONS <=? Z.of_nat (length reg) then (AK_E_QUOTA_EXCEEDED, reg)
  else (0, reg ++ [mk_host_fn (take 63 (cstr name)) fn cap_type async_capable]).

Fixpoint ak_host_fn_get (reg : list ak_host_fn_entry) (name : bytes) : option ak_host_fn_entry :=
  match reg with
  | [] => None
  | e :: reg' => if bytes_eqb (hf_name e) (cstr name) then Some e else ak_host_fn_get reg' name
  end.

(** ** The parsed module *)

Record wmod_t := mk_wmod {
  type_pcount : list Z; type_rcount : list Z; num_types : Z;
  import_type : list Z; import_name : list bytes; num_imports : Z;
  func_type : list Z; num_funcs : Z;
  have_type : bool; have_import : bool; have_function : bool; have_export : bool; have_code : bool;
  entry_found : bool; entry_func_index : Z; entry_local_index : Z;
  entry_body_set : bool; entry_body_start : Z; entry_body_end : Z }.

(** [allocate_zero(h, sizeof(wmod_t))]. *)
Definition wmod_zero : wmod_t :=
  mk_wmod (replicate (Z.to_nat IN_MAX_TYPES) 0) (replicate (Z.to_nat IN_MAX_TYPES) 0) 0
    (replicate (Z.to_nat IN_MAX_IMPORTS) 0) (replicate (Z.to_nat IN_MAX_IMPORTS) []) 0
    (replicate (Z.to_nat IN_MAX_FUNCS) 0) 0 false false false false false false 0 0 false 0 0.

Definition with_types (m : wmod_t) (pc rc : list Z) (n : Z) : wmod_t :=
  mk_wmod pc rc n (import_type m) (import_name m) (num_imports m) (func_type m) (num_funcs m)
    (have_type m) (have_import m) (have_function m) (have_export m) (have_code m)
    (entry_found m) (entry_func_index m) (entry_local_index m) (entry_body_set m) (entry_body_start m) (entry_body_end m).
Definition with_imports (m : wmod_t) (it : list Z) (names : list bytes) (n : Z) : wmod_t :=
  mk_wmod (type_pcount m) (type_rcount m) (num_types m) it names n (func_type m) (num_funcs m)
    (have_type m) (have_import m) (have_function m) (have_export m) (have_code m)
    (entry_found m) (entry_func_index m) (entry_local_index m) (entry_body_set m) (entry_body_start m) (entry_body_end m).
Definition with_funcs (m : wmod_t) (ft : list Z) (n : Z) : wmod_t :=
  mk_wmod (type_pcount m) (type_rcount m) (num_types m) (import_type m) (import_name m) (num_imports m) ft n
    (have_type m) (have_import m) (have_function m) (have_export m) (have_code m)
    (entry_found m) (entry_func_index m) (entry_local_index m) (entry_body_set m) (entry_body_start m) (entry_body_end m).
Definition with_have (m : wmod_t) (t i f e c : bool) : wmod_t :=
  mk_wmod (type_pcount m) (type_rcount m) (num_types m) (import_type m) (import_name m) (num_imports m) (func_type m) (num_funcs m)
    t i f e c
    (entry_found m) (entry_func_index m) (entry_local_index m) (entry_body_set m) (entry_body_start m) (entry_body_end m).
Definition with_entry (m : wmod_t) (idx : Z) : wmod_t :=
  mk_wmod (type_pcount m) (type_rcount m) (num_types m) (import_type m) (import_name m) (num_imports m) (func_type m) (num_funcs m)
    (have_type m) (have_import m) (have_function m) (have_export m) (have_code m)
    true idx (entry_local_index m) (entry_body_set m) (entry_body_start m) (entry_body_end m).
Definition with_body (m : wmod_t) (i b_start b_end : Z) : wmod_t :=
  mk_wmod (type_pcount m) (type_rcount m) (num_types m) (import_type m) (import_name m) (num_imports m) (func_type m) (num_funcs m)
    (have_type m) (have_import m) (have_function m) (have_export m) (have_code m)
    (entry_found m) (entry_func_index m) i true b_start b_end.

(** ** Sections *)

Definition parse_type_entry (i : Z) (m : wmod_t) (r : rd_t) : res (wmod_t * rd_t) :=
  let! (form, r) := or_fail AK_E_WASM_INVALID_MODULE (rd_byte r) in
  if negb (form =? 0x60) then Fail AK_E_WASM_INVALID_MODULE
  else
    let! (pcount, r) := or_fail AK_E_WASM_INVALID_MODULE (rd_u32 r) in
    if IN_MAX_PARAMS <? pcount then Fail AK_E_WASM_UNSUPPORTED
    else
      let! (_u, r) := rd_for (rd_fuel r) (fun _ u r => let! (_vt, r) := rd_valtype r in Ok (u, r)) 0 pcount tt r in
      let! (rcount, r) := or_fail AK_E_WASM_INVALID_MODULE (rd_u32 r) in
      if 1 <? rcount then Fail AK_E_WASM_UNSUPPORTED
      else
        let! (_u, r) := rd_for (rd_fuel r) (fun _ u r => let! (_vt, r) := rd_valtype r in Ok (u, r)) 0 rcount tt r in
        let! pc := aset (type_pcount m) i (u8 pcount) in
        let! rc := aset (type_rcount m) i (u8 rcount) in
        Ok (with_types m pc rc (num_types m), r).

Definition parse_type_section (m : wmod_t) (r : rd_t) : res wmod_t :=
  let! (count, r) := or_fail AK_E_WASM_INVALID_MODULE (rd_u32 r) in
  if IN_MAX_TYPES <? count then Fail AK_E_WASM_UNSUPPORTED
  else
    let! (m, _r) := rd_for (rd_fuel r) parse_type_entry 0 count m r in
    Ok (with_types m (type_pcount m) (type_rcount m) count).

(** [read_name] with a destination, a buffer of [IN_MAX_NAME] bytes: the bytes
    stored, the terminator included. *)
Definition read_name (r : rd_t) : res (bytes * rd_t) :=
  let! (nlen, r) := or_fail AK_E_WASM_INVALID_MODULE (rd_u32 r) in
  if IN_MAX_NAME <=? nlen then Fail AK_E_WASM_UNSUPPORTED
  else
    let! (dst, r) := rd_for (rd_fuel r) (fun _ dst r =>
      let! (c, r) := or_fail AK_E_WASM_INVALID_MODULE (rd_byte r) in
      let! dst := aput IN_MAX_NAME dst c in
      Ok (dst, r)) 0 nlen [] r in
    let! dst := aput IN_MAX_NAME dst 0 in
    Ok (dst, r).

(** [read_name(r, 0)]. *)
Definition skip_name (r : rd_t) : res rd_t :=
  let! (nlen, r) := or_fail AK_E_WASM_INVALID_MODULE (rd_u32 r) in or_fail AK_E_WASM_INVALID_MODULE (rd_skip r nlen).

Definition parse_import_entry (reg : list ak_host_fn_entry) (_i : Z) (m : wmod_t) (r : rd_t) : res (wmod_t * rd_t) :=
  let! r := skip_name r in
  let! (field, r) := read_name r in
  let! (kind, r) := or_fail AK_E_WASM_INVALID_MODULE (rd_byte r) in
  if negb (kind =? 0) then Fail AK_E_WASM_UNSUPPORTED
  else
    let! (typeidx, r) := or_fail AK_E_WASM_INVALID_MODULE (rd_u32 r) in
    if num_types m <=? typeidx then Fail AK_E_WASM_INVALID_MODULE
    else if IN_MAX_IMPORTS <=? num_imports m then Fail AK_E_WASM_UNSUPPORTED
    else
      let! pcount := aget (type_pcount m) typeidx in
      if negb (pcount =? 0) then Fail AK_E_WASM_UNSUPPORTED
      else
        match ak_host_fn_get reg field with
        | None => Fail AK_E_WASM_UNSUPPORTED
        | Some hf =>
            match hf_fn hf with
            | None => Fail AK_E_WASM_UNSUPPORTED
            | Some _ =>
                if hf_async_capable hf then Fail AK_E_WASM_UNSUPPORTED
                else
                  let! it := aset (import_type m) (num_imports m) typeidx in
                  let! names := aset (import_name m) (num_imports m) field in
                  Ok (with_imports m it names (num_imports m + 1), r)
            end
        end.

Definition parse_import_section (reg : list ak_host_fn_entry) (m : wmod_t) (r : rd_t) : res wmod_t :=
  let! (count, r) := or_fail AK_E_WASM_INVALID_MODULE (rd_u32 r) in
  let! (m, _r) := rd_for (rd_fuel r) (parse_import_entry reg) 0 count m r in
  Ok m.

Definition parse_function_entry (i : Z) (m : wmod_t) (r : rd_t) : res (wmod_t * rd_t) :=
  let! (typeidx, r) := or_fail AK_E_WASM_INVALID_MODULE (rd_u32 r) in
  if num_types m <=? typeidx then Fail AK_E_WASM_INVALID_MODULE
  else let! ft := aset (func_type m) i typeidx in Ok (with_funcs m ft (num_funcs m), r).

Definition parse_function_section (m : wmod_t) (r : rd_t) : res wmod_t :=
  let! (count, r) := or_fail AK_E_WASM_INVALID_MODULE (rd_u32 r) in
  if IN_MAX_FUNCS <? count then Fail AK_E_WASM_UNSUPPORTED
  else
    let! (m, _r) := rd_for (rd_fuel r) parse_function_entry 0 count m r in
    Ok (with_funcs m (func_type m) count).

Definition want_empty (want : option bytes) : bool :=
  match want with
  | None => true
  | Some w => match cstr w with [] => true | _ => false end
  end.

Definition parse_export_entry (want : option bytes) (_i : Z) (m : wmod_t) (r : rd_t) : res (wmod_t * rd_t) :=
  let! (name, r) := read_name r in
  let! (kind, r) := or_fail AK_E_WASM_INVALID_MODULE (rd_byte r) in
  let! (idx, r) := or_fail AK_E_WASM_INVALID_MODULE (rd_u32 r) in
  if negb (kind =? 0) then Ok (m, r)
  else if entry_found m then Ok (m, r)
  else
    let matches := if want_empty want then true else bytes_eqb (cstr name) (cstr (default [] want)) in
    Ok (if matches then with_entry m idx else m, r).

Definition parse_export_section (want : option bytes) (m : wmod_t) (r : rd_t) : res wmod_t :=
  let! (count, r) := or_fail AK_E_WASM_INVALID_MODULE (rd_u32 r) in
  let! (m, _r) := rd_for (rd_fuel r) (parse_export_entry want) 0 count m r in
  Ok m.

Definition parse_code_entry (i : Z) (m : wmod_t) (r : rd_t) : res (wmod_t * rd_t) :=
  let! (body_size, r) := or_fail AK_E_WASM_INVALID_MODULE (rd_u32 r) in
  let body_start := rd_pos r in
  if (rd_len r <? body_size) || (rd_len r - body_size <? body_start) then Fail AK_E_WASM_INVALID_MODULE
  else
    let body_end := body_start + body_size in
    let m := if entry_found m && (u32 (num_imports m + i) =? entry_func_index m) then with_body m i body_start body_end else m in
    Ok (m, set_pos r body_end).

Definition parse_code_section (m : wmod_t) (r : rd_t) : res wmod_t :=
  let! (count, r) := or_fail AK_E_WASM_INVALID_MODULE (rd_u32 r) in
  if negb (count =? num_funcs m) then Fail AK_E_WASM_INVALID_MODULE
  else
    let! (m, _r) := rd_for (rd_fuel r) parse_code_entry 0 count m r in
    Ok m.

(** One section: its payload is read through a cursor of its own. *)
Definition parse_section (reg : list ak_host_fn_entry) (want : option bytes) (id : Z) (m : wmod_t) (sr : rd_t) : res wmod_t :=
  if id =? SEC_CUSTOM then Ok m
  else if id =? SEC_TYPE then
    if have_type m then Fail AK_E_WASM_INVALID_MODULE
    else parse_type_section (with_have m true (have_import m) (have_function m) (have_export m) (have_code m)) sr
  else if id =? SEC_IMPORT then
    if have_import m then Fail AK_E_WASM_INVALID_MODULE
    else parse_import_section reg (with_have m (have_type m) true (have_function m) (have_export m) (have_code m)) sr
  else if id =? SEC_FUNCTION then
    if have_function m then Fail AK_E_WASM_INVALID_MODULE
    else parse_function_section (with_have m (have_type m) (have_import m) true (have_export m) (have_code m)) sr
  else if id =? SEC_EXPORT then
    if have_export m then Fail AK_E_WASM_INVALID_MODULE
    else parse_export_section want (with_have m (have_type m) (have_import m) (have_function m) true (have_code m)) sr
  else if id =? SEC_CODE then
    if have_code m then Fail AK_E_WASM_INVALID_MODULE
    else parse_code_section (with_have m (have_type m) (have_import m) (have_function m) (have_export m) true) sr
  else Fail AK_E_WASM_UNSUPPORTED.

Fixpoint parse_sections (fuel : nat) (reg : list ak_host_fn_entry) (want : option bytes) (m : wmod_t) (r : rd_t) : res wmod_t :=
  if rd_pos r <? rd_len r then
    match fuel with
    | O => Fault
    | S fuel' =>
        let! (id, r) := or_fail AK_E_WASM_INVALID_MODULE (rd_byte r) in
        let! (size, r) := or_fail AK_E_WASM_INVALID_MODULE (rd_u32 r) in
        let sec_start := rd_pos r in
        if (rd_len r <? size) || (rd_len r - size <? sec_start) then Fail AK_E_WASM_INVALID_MODULE
        else
          let sec_end := sec_start + size in
          let! m := parse_section reg want id m (mk_rd (rd_data r) sec_end sec_start) in
          parse_sections fuel' reg want m (set_pos r sec_end)
    end
  else Ok m.

Definition parse_module (reg : list ak_host_fn_entry) (d : bytes) (want : option bytes) : res wmod_t :=
  let r := mk_rd d (Z.of_nat (length d)) 0 in
  let! (magic, r) := or_fail AK_E_WASM_INVALID_MODULE (rd_u32_raw_le r) in
  let! (version, r) := or_fail AK_E_WASM_INVALID_MODULE (rd_u32_raw_le r) in
  if negb (magic =? IN_WASM_MAGIC) || negb (version =? IN_WASM_VERSION) then Fail AK_E_WASM_INVALID_MODULE
  else
    let! m := parse_sections (rd_fuel r) reg want wmod_zero r in
    if negb (entry_found m) || negb (entry_body_set m) then Fail AK_E_WASM_EXPORT_NOT_FOUND
    else if entry_func_index m <? num_imports m then Fail AK_E_WASM_UNSUPPORTED
    else Ok m.

End Host.

(** ** Executions without fault *)

(** [o] does not fault, its value satisfies [P] and its error code [E]. *)
Definition sat {A} (E : Z -> Prop) (P : A -> Prop) (o : res A) : Prop :=
  match o with
  | Ok x => P x
  | Fail e => E e
  | Fault => False
  end.

Lemma sat_bind {A C} E (P : A -> Prop) (Q : C -> Prop) m f : sat E P m -> (forall x, P x -> sat E Q (f x)) -> sat E Q (rbind m f).
Proof. destruct m; cbn; auto. Qed.

Lemma sat_bind2 {A A' C} E (P : A * A' -> Prop) (Q : C -> Prop) m (f : A -> A' -> res C) :
  sat E P m -> (forall x y, P (x, y) -> sat E Q (f x y)) -> sat E Q (rbind m (fun '(x, y) => f x y)).
Proof. destruct m as [[x y]| |]; cbn; auto. Qed.

Lemma sat_weaken {A} (E E' : Z -> Prop) (P Q : A -> Prop) o : sat E P o -> (forall x, P x -> Q x) -> (forall e, E e -> E' e) -> sat E' Q o.
Proof. destruct o; cbn; auto. Qed.

(** The codes of a rejected module. *)
Definition rejected (e : Z) : Prop := e = AK_E_WASM_INVALID_MODULE \/ e = AK_E_WASM_UNSUPPORTED \/ e = AK_E_WASM_EXPORT_NOT_FOUND.

Lemma rejected_invalid : rejected AK_E_WASM_INVALID_MODULE.
Proof. by left. Qed.
Lemma rejected_unsupported : rejected AK_E_WASM_UNSUPPORTED.
Proof. right. by left. Qed.
Lemma rejected_not_found : rejected AK_E_WASM_EXPORT_NOT_FOUND.
Proof. right. by right. Qed.
#[export] Hint Resolve rejected_invalid rejected_unsupported rejected_not_found : ak.

(** A cursor inside its data, and a later position of the same cursor. *)
Definition cur_ok (r : rd_t) : Prop := wf_bytes (rd_data r) /\ 0 <= rd_pos r <= rd_len r /\ rd_len r <= Z.of_nat (length (rd_data r)).
Definition after (r r' : rd_t) : Prop := rd_data r' = rd_data r /\ rd_len r' = rd_len r /\ rd_pos r <= rd_pos r' <= rd_len r.
Definition past (r r' : rd_t) : Prop := after r r' /\ rd_pos r < rd_pos r'.

Lemma after_refl r : cur_ok r -> after r r.
Proof. intros (? & ? & ?). split_and!; done || lia. Qed.
Lemma after_trans r1 r2 r3 : after r1 r2 -> after r2 r3 -> after r1 r3.
Proof. intros (E1 & L1 & P1) (E2 & L2 & P2). unfold after. rewrite E2, L2, E1, L1 in *. split_and!; done || lia. Qed.
Lemma past_after r1 r2 : past r1 r2 -> after r1 r2.
Proof. by intros [? _]. Qed.
Lemma past_trans_l r1 r2 r3 : past r1 r2 -> after r2 r3 -> past r1 r3.
Proof. intros [H1 H] H2. split; [by eapply after_trans|]. destruct H2 as (_ & _ & ?). lia. Qed.
Lemma past_trans_r r1 r2 r3 : after r1 r2 -> past r2 r3 -> past r1 r3.
Proof. intros H1 [H2 H]. split; [by eapply after_trans|]. destruct H1 as (_ & _ & ?). lia. Qed.
Lemma after_ok r r' : cur_ok r -> after r r' -> cur_ok r'.
Proof. intros (W & P & L) (E1 & E2 & P'). unfold cur_ok. rewrite E1, E2. split_and!; done || lia. Qed.
Lemma past_ok r r' : cur_ok r -> past r r' -> cur_ok r'.
Proof. intros H [? _]. by eapply after_ok. Qed.
#[export] Hint Resolve after_refl past_after after_ok past_ok : ak.
#[export] Hint Resolve past_trans_l past_trans_r after_trans | 10 : ak.

(** Chains of cursor positions. *)
Ltac cur_facts := repeat match goal with H : past _ _ |- _ => destruct H | H : after _ _ |- _ => destruct H as (? & ? & ?) end.
Ltac cur :=
  match goal with
  | |- past _ _ => cur_facts; split; [split_and!; [congruence|lia..]|lia]
  | |- after _ _ => cur_facts; split_and!; [congruence|lia..]
  | H : cur_ok ?r |- cur_ok _ => apply (after_ok r _ H); cur_facts; destruct H as (_ & ? & ?); split_and!; [congruence|lia..]
  end.

Lemma rd_byte_ok r : cur_ok r -> match rd_byte r with Ret p => is_u8 p.1 /\ past r p.2 /\ rd_pos p.2 = rd_pos r + 1 | Null => True | Oob => False end.
Proof.
  intros (Wd & Pp & Ll). unfold rd_byte. destruct (Z.leb_spec (rd_len r) (rd_pos r)); [done|].
  destruct (rd_in_bounds (rd_data r) (rd_pos r) ltac:(lia)) as [b E]. rewrite E. cbn [obind fst snd]. split; [by eapply rd_wf|].
  unfold past, after, set_pos. cbn. split_and!; done || lia.
Qed.

Lemma lor_bound a b w : 0 <= w -> 0 <= a < 2 ^ w -> 0 <= b < 2 ^ w -> 0 <= Z.lor a b < 2 ^ w.
Proof.
  intros Hw Ha Hb. split; [apply Z.lor_nonneg; lia|]. destruct (Z.eq_dec (Z.lor a b) 0) as [->|Hn]; [apply Z.pow_pos_nonneg; lia|].
  apply Z.log2_lt_pow2; [pose proof (proj2 (Z.lor_nonneg a b)); lia|]. rewrite Z.log2_lor by lia. apply Z.max_lub_lt.
  - destruct (Z.eq_dec a 0) as [->|]; [|apply Z.log2_lt_pow2; lia]. destruct (Z.eq_dec b 0) as [->|]; [done|]. cbn. destruct (Z.eq_dec w 0) as [->|]; [cbn in *; lia|lia].
  - destruct (Z.eq_dec b 0) as [->|]; [|apply Z.log2_lt_pow2; lia]. destruct (Z.eq_dec a 0) as [->|]; [done|]. cbn. destruct (Z.eq_dec w 0) as [->|]; [cbn in *; lia|lia].
Qed.

(** What a decoder of a number guarantees. *)
Definition reads_num (P : Z -> Prop) (r : rd_t) (o : outcome (Z * rd_t)) : Prop :=
  match o with
  | Ret p => P p.1 /\ past r p.2
  | Null => True
  | Oob => False
  end.

Lemma rd_u32_loop_ok n i shift result r : cur_ok r -> 0 <= result < M32 -> reads_num is_u32 r (rd_u32_loop n i shift result r).
Proof.
  revert i shift result r. induction n as [|n IH]; intros i shift result r Hr Hres; cbn [rd_u32_loop]; [done|].
  pose proof (rd_byte_ok r Hr) as Hb. destruct (rd_byte r) as [[b r']| |]; [|done|done]. cbn [obind fst snd] in *. destruct Hb as (Hb & Hp & _).
  destruct (_ && _); [done|]. assert (Hl : 0 <= Z.lor result (u32 (Z.shiftl (Z.land b 127) shift)) < M32).
  { apply (lor_bound _ _ 32); [lia|done|]. unfold u32. apply Z.mod_pos_bound. lia. }
  destruct (_ =? 0); [by split|]. specialize (IH (i + 1) (shift + 7) _ r' (past_ok _ _ Hr Hp) Hl). unfold reads_num in *.
  destruct (rd_u32_loop n _ _ _ r'); [|done|done]. destruct IH as [? ?]. split; [done|]. eauto with ak.
Qed.

Lemma rd_u32_ok r : cur_ok r -> reads_num is_u32 r (rd_u32 r).
Proof. intros Hr. apply rd_u32_loop_ok; [done|lia]. Qed.

Lemma rd_signed_loop_ok w n shift result r : cur_ok r -> reads_num (fun _ => True) r (rd_signed_loop w n shift result r).
Proof.
  revert shift result r. induction n as [|n IH]; intros shift result r Hr; cbn [rd_signed_loop]; [done|].
  pose proof (rd_byte_ok r Hr) as Hb. destruct (rd_byte r) as [[b r']| |]; [|done|done]. cbn [obind fst snd] in *. destruct Hb as (_ & Hp & _).
  destruct (_ =? 0); [by split|]. specialize (IH (shift + 7) (Z.lor result (Z.shiftl (Z.land b 127) shift mod 2 ^ w)) r' (past_ok _ _ Hr Hp)). unfold reads_num in *.
  destruct (rd_signed_loop w n _ _ r'); [|done|done]. destruct IH as [_ ?]. split; [done|]. eauto with ak.
Qed.

Lemma rd_s32_ok r : cur_ok r -> reads_num (fun _ => True) r (rd_s32 r).
Proof.
  intros Hr. unfold rd_s32. pose proof (rd_signed_loop_ok 32 5 0 0 r Hr) as H. destruct (rd_signed_loop 32 5 0 0 r); [|done|done].
  destruct H as [_ ?]. by split.
Qed.
Lemma rd_s64_ok r : cur_ok r -> reads_num (fun _ => True) r (rd_s64 r).
Proof.
  intros Hr. unfold rd_s64. pose proof (rd_signed_loop_ok 64 10 0 0 r Hr) as H. destruct (rd_signed_loop 64 10 0 0 r); [|done|done].
  destruct H as [_ ?]. by split.
Qed.

Lemma or_fail_ok e P r o : rejected e -> reads_num P r o -> sat rejected (fun p => P p.1 /\ past r p.2) (or_fail e o).
Proof. destruct o; done. Qed.

Lemma byte_sat r : cur_ok r -> sat rejected (fun p => is_u8 p.1 /\ past r p.2) (or_fail AK_E_WASM_INVALID_MODULE (rd_byte r)).
Proof. intros Hr. apply or_fail_ok; [auto with ak|]. pose proof (rd_byte_ok r Hr). unfold reads_num. destruct (rd_byte r); [|done|done]. tauto. Qed.

Lemma u32_sat r : cur_ok r -> sat rejected (fun p => is_u32 p.1 /\ past r p.2) (or_fail AK_E_WASM_INVALID_MODULE (rd_u32 r)).
Proof. intros Hr. apply or_fail_ok; [auto with ak|by apply rd_u32_ok]. Qed.

Lemma valtype_sat r : cur_ok r -> sat rejected (fun p => past r p.2) (rd_valtype r).
Proof.
  intros Hr. unfold rd_valtype. eapply sat_bind2; [by apply byte_sat|]. cbn. intros t r' [_ Hp].
  destruct (_ || _); [done|]. destruct (_ || _); cbn; auto with ak.
Qed.

(** The rule for loops. *)
Lemma rd_for_sat {S} (E : Z -> Prop) (I : Z -> S -> Prop) fuel body i count s r :
  cur_ok r -> i <= count -> I i s -> rd_len r - rd_pos r < Z.of_nat fuel ->
  (forall i s r', i < count -> after r r' -> I i s -> sat E (fun p => I (i + 1) p.1 /\ past r' p.2) (body i s r')) ->
  sat E (fun p => I count p.1 /\ after r p.2) (rd_for fuel body i count s r).
Proof.
  intros Hr Hle Hi Hf Hbody.
  assert (G : forall fuel i s r', after r r' -> i <= count -> I i s -> rd_len r - rd_pos r' < Z.of_nat fuel ->
    sat E (fun p => I count p.1 /\ after r p.2) (rd_for fuel body i count s r')).
  2: { apply G; [by apply after_refl|done..]. }
  clear fuel i s Hle Hi Hf. induction fuel as [|fuel IH]; intros i s r' Ha Hle Hi Hf; cbn [rd_for]; (destruct (Z.ltb_spec i count);
    [|cbn; replace count with i by lia; done]).
  - destruct Ha as (_ & _ & ?). lia.
  - eapply sat_bind2; [by apply Hbody|]. cbn. intros s' r2 [Hi' Hp]. apply IH; [eauto with ak|lia|done|].
    destruct Hp as [_ ?]. lia.
Qed.

#[global] Arguments rd_for : simpl never.
#[global] Arguments rd_fuel : simpl never.

Lemma rd_fuel_enough r : cur_ok r -> rd_len r - rd_pos r < Z.of_nat (rd_fuel r).
Proof. intros (_ & ? & ?). unfold rd_fuel. lia. Qed.
#[export] Hint Resolve rd_fuel_enough : ak.

(** ** The invariant of a module *)

Section Parser.
Context {W : Type} (reg : list (@ak_host_fn_entry W)).

(** A name that resolves to a function that may be called. *)
Definition callable (name : bytes) : Prop :=
  exists e, ak_host_fn_get reg name = Some e /\ is_Some (hf_fn e) /\ hf_async_capable e = false.

Definition bounded (lo hi : Z) (l : list Z) : Prop := Forall (fun x => lo <= x <= hi) l.

(** Entry [i] of a table of type indices. *)
Definition typed_at (m : wmod_t) (l : list Z) (i : Z) : Prop := exists t, aget l i = Ok t /\ 0 <= t < num_types m.

Record wmod_ok (size : Z) (m : wmod_t) : Prop := {
  ok_pcount : length (type_pcount m) = Z.to_nat IN_MAX_TYPES /\ bounded 0 IN_MAX_PARAMS (type_pcount m);
  ok_rcount : length (type_rcount m) = Z.to_nat IN_MAX_TYPES /\ bounded 0 1 (type_rcount m);
  ok_types : 0 <= num_types m <= IN_MAX_TYPES;
  ok_imports : length (import_type m) = Z.to_nat IN_MAX_IMPORTS /\ length (import_name m) = Z.to_nat IN_MAX_IMPORTS /\ 0 <= num_imports m <= IN_MAX_IMPORTS;
  ok_import : forall i, 0 <= i < num_imports m -> typed_at m (import_type m) i /\ exists name, aget (import_name m) i = Ok name /\ callable name;
  ok_funcs : length (func_type m) = Z.to_nat IN_MAX_FUNCS /\ 0 <= num_funcs m <= IN_MAX_FUNCS;
  ok_func : forall i, 0 <= i < num_funcs m -> typed_at m (func_type m) i;
  ok_no_types : have_type m = false -> num_types m = 0;
  ok_no_funcs : have_function m = false -> num_funcs m = 0;
  ok_body : entry_body_set m = true ->
    0 <= entry_local_index m < num_funcs m /\ 0 <= entry_body_start m <= entry_body_end m /\ entry_body_end m <= size }.

Lemma aget_ok {A} (l : list A) i : 0 <= i < Z.of_nat (length l) -> exists x, aget l i = Ok x /\ l !! Z.to_nat i = Some x.
Proof.
  intros Hi. unfold aget. destruct (Z.ltb_spec i 0); [lia|]. destruct (lookup_lt_is_Some_2 l (Z.to_nat i) ltac:(lia)) as [x E]. rewrite E. eauto.
Qed.

Lemma aget_bounded lo hi l i x : bounded lo hi l -> aget l i = Ok x -> lo <= x <= hi.
Proof.
  intros Hb. unfold aget. destruct (i <? 0); [done|]. destruct (l !! Z.to_nat i) eqn:E; [|done]. intros [= <-].
  by apply (Forall_lookup_1 _ _ _ _ Hb E).
Qed.

Lemma aset_ok {A} (l : list A) i x : 0 <= i < Z.of_nat (length l) -> aset l i x = Ok (<[Z.to_nat i := x]> l).
Proof. intros [? ?]. unfold aset. by rewrite (proj2 (Z.leb_le 0 i)), (proj2 (Z.ltb_lt i _)) by lia. Qed.

Lemma aput_ok {A} cap (l : list A) x : Z.of_nat (length l) < cap -> aput cap l x = Ok (l ++ [x]).
Proof. intros Hl. unfold aput. by rewrite (proj2 (Z.ltb_lt _ _) Hl). Qed.
Lemma apush_ok {A} cap (l : list A) x : Z.of_nat (length l) < cap -> apush cap l x = Ok (x :: l).
Proof. intros Hl. unfold apush. by rewrite (proj2 (Z.ltb_lt _ _) Hl). Qed.

Lemma aget_insert_eq {A} (l : list A) i x : 0 <= i < Z.of_nat (length l) -> aget (<[Z.to_nat i := x]> l) i = Ok x.
Proof. intros Hi. unfold aget. destruct (Z.ltb_spec i 0); [lia|]. by rewrite list_lookup_insert_eq by lia. Qed.
Lemma aget_insert_ne {A} (l : list A) i j x : 0 <= i -> 0 <= j -> i <> j -> aget (<[Z.to_nat i := x]> l) j = aget l j.
Proof. intros Hi Hj Hn. unfold aget. destruct (Z.ltb_spec j 0); [lia|]. by rewrite list_lookup_insert_ne by lia. Qed.

Lemma bounded_insert lo hi l i x : bounded lo hi l -> lo <= x <= hi -> bounded lo hi (<[i := x]> l).
Proof. intros. by apply Forall_insert. Qed.

Lemma bounded_replicate lo hi n : lo <= 0 <= hi -> bounded lo hi (replicate n 0).
Proof. intros. by apply Forall_replicate. Qed.

Lemma wmod_zero_ok size : wmod_ok size wmod_zero.
Proof.
  constructor; cbn [wmod_zero type_pcount type_rcount num_types import_type import_name num_imports func_type num_funcs have_type have_function entry_body_set].
  all: rewrite ?length_replicate; try done; try (split; [done|]).
  all: try (apply bounded_replicate; unfold IN_MAX_PARAMS; lia).
  all: unfold IN_MAX_TYPES, IN_MAX_FUNCS, IN_MAX_IMPORTS; try (intros; lia).
Qed.

(** ** No section makes the parser fault *)

Lemma valtypes_sat r n : cur_ok r -> 0 <= n ->
  sat rejected (fun p => after r p.2) (rd_for (rd_fuel r) (fun _ u r => let! (_vt, r) := rd_valtype r in Ok (u, r)) 0 n tt r).
Proof.
  intros Hr Hn. eapply sat_weaken; [apply (rd_for_sat rejected (fun _ _ => True)); [done|done|done|by apply rd_fuel_enough|]|by intros ? [_ ?]|done].
  intros i s r' _ Ha _. eapply sat_bind2; [apply valtype_sat; eauto with ak|]. by intros.
Qed.

(** During the type section: no type is counted yet. *)
Definition types_open (size : Z) (m : wmod_t) : Prop := wmod_ok size m /\ num_types m = 0 /\ have_type m = true.

Lemma with_types_ok size m pc rc n :
  wmod_ok size m -> num_types m = 0 -> have_type m = true -> length pc = Z.to_nat IN_MAX_TYPES -> bounded 0 IN_MAX_PARAMS pc ->
  length rc = Z.to_nat IN_MAX_TYPES -> bounded 0 1 rc -> 0 <= n <= IN_MAX_TYPES -> wmod_ok size (with_types m pc rc n).
Proof.
  intros H H0 Hh Hpc Hpb Hrc Hrb Hn. destruct H as [_ _ _ O4 O5 O6 O7 _ O9 O10].
  constructor; cbn [with_types type_pcount type_rcount num_types import_type import_name num_imports func_type num_funcs have_type have_function
    entry_body_set entry_local_index entry_body_start entry_body_end]; try done.
  - intros i Hi. destruct (O5 i Hi) as [(t & _ & Ht) _]. lia.
  - intros i Hi. destruct (O7 i Hi) as (t & _ & Ht). lia.
  - rewrite Hh. done.
Qed.

Lemma type_entry_sat size i m r :
  cur_ok r -> 0 <= i < IN_MAX_TYPES -> types_open size m -> sat rejected (fun p => types_open size p.1 /\ past r p.2) (parse_type_entry i m r).
Proof.
  intros Hr Hi (Hm & H0 & Hh). unfold parse_type_entry. eapply sat_bind2; [by apply byte_sat|]. cbn. intros form r1 [_ P1].
  destruct (negb _); [cbn; auto with ak|]. eapply sat_bind2; [apply u32_sat; eauto with ak|]. cbn. intros pcount r2 [Hp P2].
  destruct (Z.ltb_spec IN_MAX_PARAMS pcount); [cbn; auto with ak|]. unfold is_u32 in Hp.
  eapply sat_bind2; [apply valtypes_sat; [eauto with ak|lia]|]. cbn. intros u r3 P3.
  eapply sat_bind2; [apply u32_sat; eauto with ak|]. cbn. intros rcount r4 [Hrc P4]. destruct (Z.ltb_spec 1 rcount); [cbn; auto with ak|]. unfold is_u32 in Hrc.
  eapply sat_bind2; [apply valtypes_sat; [cur|lia]|]. cbn. intros u' r5 P5.
  destruct (ok_pcount _ _ Hm) as [L1 B1]. destruct (ok_rcount _ _ Hm) as [L2 B2]. unfold IN_MAX_TYPES, IN_MAX_PARAMS in *.
  assert (E1 : u8 pcount = pcount) by (unfold u8; rewrite Z.mod_small; lia). assert (E2 : u8 rcount = rcount) by (unfold u8; rewrite Z.mod_small; lia).
  rewrite E1, E2, !aset_ok by lia. cbn [rbind sat fst snd]. split; [|cur]. split; [|done].
  apply with_types_ok; try done; rewrite ?length_insert; try done; try (unfold IN_MAX_TYPES; lia).
  - apply bounded_insert; [done|]. unfold IN_MAX_PARAMS. lia.
  - apply bounded_insert; [done|]. lia.
Qed.

Lemma type_section_sat size m r :
  cur_ok r -> types_open size m -> sat rejected (wmod_ok size) (parse_type_section m r).
Proof.
  intros Hr Hm. unfold parse_type_section. eapply sat_bind2; [by apply u32_sat|]. cbn. intros count r1 [Hc P1].
  destruct (Z.ltb_spec IN_MAX_TYPES count); [cbn; auto with ak|]. unfold is_u32 in Hc.
  eapply sat_bind2; [apply (rd_for_sat rejected (fun i m => 0 <= i /\ types_open size m)); [eauto with ak|lia|done|eauto with ak|]|].
  - intros i s r' Hi Ha [Hi0 Hs]. eapply sat_weaken; [apply type_entry_sat; [eauto with ak|lia|exact Hs]| |done]. cbn. intros x [? ?]. split; [split; [lia|done]|done].
  - cbn. intros m' r' [[_ (Hm' & H0 & Hh)] _]. destruct (ok_pcount _ _ Hm') as [? ?]. destruct (ok_rcount _ _ Hm') as [? ?]. apply with_types_ok; (done || lia).
Qed.

Lemma read_name_sat r : cur_ok r -> sat rejected (fun p => past r p.2) (read_name r).
Proof.
  intros Hr. unfold read_name. eapply sat_bind2; [by apply u32_sat|]. cbn [fst snd]. intros n r1 [Hn P1].
  destruct (Z.leb_spec IN_MAX_NAME n); [cbn; auto with ak|]. unfold is_u32 in Hn.
  eapply sat_bind2; [apply (rd_for_sat rejected (fun i dst => i = Z.of_nat (length dst))); [cur|lia|done|apply rd_fuel_enough; cur|]|].
  - intros i s r' Hi Ha ->. eapply sat_bind2; [apply byte_sat; cur|]. cbn [fst snd]. intros c r2 [_ ?]. rewrite aput_ok by lia.
    cbn [rbind sat fst snd]. rewrite length_app. cbn [length]. split; [lia|done].
  - cbn [fst snd]. intros dst r2 [-> ?]. rewrite aput_ok by lia. cbn [rbind sat snd]. cur.
Qed.

Lemma skip_name_sat r : cur_ok r -> sat rejected (fun r' => past r r') (skip_name r).
Proof.
  intros Hr. unfold skip_name. eapply sat_bind2; [by apply u32_sat|]. cbn [fst snd]. intros n r1 [Hn P1]. unfold is_u32 in Hn.
  unfold rd_skip. destruct (_ || _) eqn:E; [cbn; auto with ak|]. apply orb_false_iff in E as [E1 E2]. cbn [or_fail sat]. cur_facts.
  unfold past, after, set_pos. cbn [rd_data rd_len rd_pos]. split_and!; done || lia.
Qed.

Lemma with_imports_ok size m t name :
  wmod_ok size m -> num_imports m < IN_MAX_IMPORTS -> 0 <= t < num_types m -> callable name ->
  wmod_ok size (with_imports m (<[Z.to_nat (num_imports m) := t]> (import_type m)) (<[Z.to_nat (num_imports m) := name]> (import_name m)) (num_imports m + 1)).
Proof.
  intros H Hn Ht Hc. destruct H as [O1 O2 O3 (L1 & L2 & L3) O5 O6 O7 O8 O9 O10]. unfold IN_MAX_IMPORTS in *.
  constructor; cbn [with_imports type_pcount type_rcount num_types import_type import_name num_imports func_type num_funcs have_type have_function
    entry_body_set entry_local_index entry_body_start entry_body_end]; try done.
  - rewrite !length_insert. split_and!; done || (unfold IN_MAX_IMPORTS; lia).
  - intros i Hi. unfold typed_at. cbn [with_imports num_types]. destruct (Z.eq_dec i (num_imports m)) as [->|Hne].
    + rewrite !aget_insert_eq by lia. eauto 6.
    + rewrite !aget_insert_ne by lia. apply O5. lia.
Qed.

Lemma import_entry_sat size i m r :
  cur_ok r -> wmod_ok size m -> sat rejected (fun p => wmod_ok size p.1 /\ past r p.2) (parse_import_entry reg i m r).
Proof.
  intros Hr Hm. unfold parse_import_entry. eapply sat_bind; [by apply skip_name_sat|]. cbn [fst snd]. intros r1 P1.
  eapply sat_bind2; [apply read_name_sat; cur|]. cbn [fst snd]. intros field r2 P2.
  eapply sat_bind2; [apply byte_sat; cur|]. cbn [fst snd]. intros kind r3 [_ P3]. destruct (negb _); [cbn; auto with ak|].
  eapply sat_bind2; [apply u32_sat; cur|]. cbn [fst snd]. intros t r4 [Ht P4]. unfold is_u32 in Ht. destruct (Z.leb_spec (num_types m) t); [cbn; auto with ak|].
  destruct (Z.leb_spec IN_MAX_IMPORTS (num_imports m)); [cbn; auto with ak|].
  destruct (ok_pcount _ _ Hm) as [L1 _]. pose proof (ok_types _ _ Hm) as Ht'. destruct (ok_imports _ _ Hm) as (L2 & L3 & Hn).
  unfold IN_MAX_TYPES, IN_MAX_IMPORTS in *. destruct (aget_ok (type_pcount m) t ltac:(lia)) as (pc & -> & _). cbn [rbind].
  destruct (negb _); [cbn; auto with ak|]. destruct (ak_host_fn_get reg field) as [hf|] eqn:Eh; [|cbn; auto with ak].
  destruct (hf_fn hf) as [fn|] eqn:Ef; [|cbn; auto with ak]. destruct (hf_async_capable hf) eqn:Ea; [cbn; auto with ak|].
  rewrite !aset_ok by lia. cbn [rbind sat fst snd]. split; [|cur]. apply with_imports_ok; [done|unfold IN_MAX_IMPORTS; lia|lia|].
  exists hf. rewrite Ef. eauto.
Qed.

Lemma import_section_sat size m r : cur_ok r -> wmod_ok size m -> sat rejected (wmod_ok size) (parse_import_section reg m r).
Proof.
  intros Hr Hm. unfold parse_import_section. eapply sat_bind2; [by apply u32_sat|]. cbn [fst snd]. intros count r1 [Hc P1]. unfold is_u32 in Hc.
  eapply sat_bind2; [apply (rd_for_sat rejected (fun _ m => wmod_ok size m)); [cur|lia|done|apply rd_fuel_enough; cur|]|].
  - intros i s r' _ Ha Hs. apply import_entry_sat; [cur|done].
  - cbn. by intros m' r' [? _].
Qed.

(** During the function section: the entries before [i] are set, none is counted. *)
Definition funcs_open (size i : Z) (m : wmod_t) : Prop :=
  0 <= i /\ wmod_ok size m /\ num_funcs m = 0 /\ have_function m = true /\ forall j, 0 <= j < i -> typed_at m (func_type m) j.

Lemma with_funcs_ok size m ft n :
  wmod_ok size m -> num_funcs m = 0 -> have_function m = true -> length ft = Z.to_nat IN_MAX_FUNCS -> 0 <= n <= IN_MAX_FUNCS ->
  (forall j, 0 <= j < n -> typed_at m ft j) -> wmod_ok size (with_funcs m ft n).
Proof.
  intros H H0 Hh Hl Hn Hj. destruct H as [O1 O2 O3 O4 O5 O6 O7 O8 O9 O10].
  constructor; cbn [with_funcs type_pcount type_rcount num_types import_type import_name num_imports func_type num_funcs have_type have_function
    entry_body_set entry_local_index entry_body_start entry_body_end]; try done.
  - rewrite Hh. done.
  - intros Hb. destruct (O10 Hb) as [? _]. lia.
Qed.

Lemma function_entry_sat size i m r :
  cur_ok r -> i < IN_MAX_FUNCS -> funcs_open size i m -> sat rejected (fun p => funcs_open size (i + 1) p.1 /\ past r p.2) (parse_function_entry i m r).
Proof.
  intros Hr Hi (Hi0 & Hm & H0 & Hh & Hj). unfold parse_function_entry. eapply sat_bind2; [by apply u32_sat|]. cbn [fst snd]. intros t r1 [Ht P1].
  unfold is_u32 in Ht. destruct (Z.leb_spec (num_types m) t); [cbn; auto with ak|]. destruct (ok_funcs _ _ Hm) as [L _]. unfold IN_MAX_FUNCS in *.
  rewrite aset_ok by lia. cbn [rbind sat fst snd]. split; [|done]. split_and!; [lia| |done|done|].
  - apply with_funcs_ok; try done; rewrite ?length_insert; try done; unfold IN_MAX_FUNCS; intros; lia.
  - intros j Hjr. unfold typed_at. cbn [with_funcs num_types func_type]. destruct (Z.eq_dec j i) as [->|].
    + rewrite aget_insert_eq by lia. exists t. split; [done|lia].
    + rewrite aget_insert_ne by lia. apply Hj. lia.
Qed.

Lemma function_section_sat size m r :
  cur_ok r -> wmod_ok size m -> num_funcs m = 0 -> have_function m = true -> sat rejected (wmod_ok size) (parse_function_section m r).
Proof.
  intros Hr Hm H0 Hh. unfold parse_function_section. eapply sat_bind2; [by apply u32_sat|]. cbn [fst snd]. intros count r1 [Hc P1]. unfold is_u32 in Hc.
  destruct (Z.ltb_spec IN_MAX_FUNCS count); [cbn; auto with ak|].
  eapply sat_bind2; [apply (rd_for_sat rejected (funcs_open size)); [cur|lia| |apply rd_fuel_enough; cur|]|].
  - split_and!; try done. intros; lia.
  - intros i s r' Hi Ha Hs. apply function_entry_sat; [cur|lia|done].
  - cbn [fst snd]. intros m' r' [(_ & Hm' & H0' & Hh' & Hj) _]. destruct (ok_funcs _ _ Hm') as [? _]. cbn [sat]. apply with_funcs_ok; (done || lia).
Qed.

(** ** Exports and bodies *)

Lemma with_entry_ok size m idx : wmod_ok size m -> wmod_ok size (with_entry m idx).
Proof. intros [O1 O2 O3 O4 O5 O6 O7 O8 O9 O10]. by constructor. Qed.

Lemma export_entry_sat size want i m r :
  cur_ok r -> wmod_ok size m -> sat rejected (fun p => wmod_ok size p.1 /\ past r p.2) (parse_export_entry want i m r).
Proof.
  intros Hr Hm. unfold parse_export_entry. eapply sat_bind2; [by apply read_name_sat|]. cbn [fst snd]. intros name r1 P1.
  eapply sat_bind2; [apply byte_sat; cur|]. cbn [fst snd]. intros kind r2 [_ P2].
  eapply sat_bind2; [apply u32_sat; cur|]. cbn [fst snd]. intros idx r3 [_ P3].
  assert (past r r3) by cur. destruct (negb _); [done|]. destruct (entry_found m); [done|]. cbv zeta. cbn [sat fst snd]. split; [|done].
  destruct (if want_empty want then true else bytes_eqb (cstr name) (cstr (default [] want))); [by apply with_entry_ok|done].
Qed.

Lemma export_section_sat size want m r : cur_ok r -> wmod_ok size m -> sat rejected (wmod_ok size) (parse_export_section want m r).
Proof.
  intros Hr Hm. unfold parse_export_section. eapply sat_bind2; [by apply u32_sat|]. cbn [fst snd]. intros count r1 [Hc P1]. unfold is_u32 in Hc.
  eapply sat_bind2; [apply (rd_for_sat rejected (fun _ m => wmod_ok size m)); [cur|lia|done|apply rd_fuel_enough; cur|]|].
  - intros i s r' _ Ha Hs. apply export_entry_sat; [cur|done].
  - cbn. by intros m' r' [? _].
Qed.

Lemma code_section_sat size m r :
  cur_ok r -> rd_len r <= size -> wmod_ok size m -> sat rejected (wmod_ok size) (parse_code_section m r).
Proof.
  intros Hr Hsz Hm. unfold parse_code_section. eapply sat_bind2; [by apply u32_sat|]. cbn [fst snd]. intros count r1 [Hc P1]. unfold is_u32 in Hc.
  destruct (Z.eqb_spec count (num_funcs m)) as [->|]; [|cbn; auto with ak]. cbn [negb].
  eapply sat_bind2; [apply (rd_for_sat rejected (fun i m' => 0 <= i /\ num_funcs m' = num_funcs m /\ wmod_ok size m')); [cur|lia|done|apply rd_fuel_enough; cur|]|].
  - intros i s r' Hi Ha (Hi0 & Hn & Hs). unfold parse_code_entry. eapply sat_bind2; [apply u32_sat; cur|]. cbn [fst snd]. intros sz r2 [Hz P2]. unfold is_u32 in Hz.
    destruct (_ || _) eqn:E; [cbn; auto with ak|]. apply orb_false_iff in E as [E1 E2]. assert (Hr2 : cur_ok r2) by cur. cbv zeta. cbn [sat fst snd]. split.
    + split; [lia|]. destruct (_ && _); [|done]. split; [done|]. destruct Hs as [O1 O2 O3 O4 O5 O6 O7 O8 O9 O10]. constructor; try done. intros _.
      cbn [with_body entry_local_index num_funcs entry_body_start entry_body_end]. destruct Hr2 as (_ & ? & ?). cur_facts. lia.
    + destruct Hr2 as (_ & ? & ?). cur_facts. unfold past, after, set_pos. cbn [rd_data rd_len rd_pos]. split_and!; congruence || lia.
  - cbn. by intros m' r' [(_ & _ & ?) _].
Qed.

(** ** The module *)

Lemma with_have_ok size m t i f e c :
  wmod_ok size m -> (t = false -> have_type m = false) -> (f = false -> have_function m = false) -> wmod_ok size (with_have m t i f e c).
Proof. intros [O1 O2 O3 O4 O5 O6 O7 O8 O9 O10] Ht Hf. constructor; cbn [with_have type_pcount type_rcount num_types have_type have_function num_funcs]; auto. Qed.

Lemma section_sat size want id m sr :
  cur_ok sr -> rd_len sr <= size -> wmod_ok size m -> sat rejected (wmod_ok size) (parse_section reg want id m sr).
Proof.
  intros Hr Hs Hm. unfold parse_section. destruct (_ =? SEC_CUSTOM); [done|].
  destruct (_ =? SEC_TYPE). { destruct (have_type m) eqn:E; [cbn; auto with ak|]. apply type_section_sat; [done|]. split_and!; [|by apply (ok_no_types _ _ Hm)|done].
    apply with_have_ok; done. }
  destruct (_ =? SEC_IMPORT). { destruct (have_import m); [cbn; auto with ak|]. apply import_section_sat; [done|]. by apply with_have_ok. }
  destruct (_ =? SEC_FUNCTION). { destruct (have_function m) eqn:E; [cbn; auto with ak|]. apply function_section_sat; [done| |by apply (ok_no_funcs _ _ Hm)|done].
    apply with_have_ok; done. }
  destruct (_ =? SEC_EXPORT). { destruct (have_export m); [cbn; auto with ak|]. apply export_section_sat; [done|]. by apply with_have_ok. }
  destruct (_ =? SEC_CODE). { destruct (have_code m); [cbn; auto with ak|]. apply code_section_sat; [done|done|]. by apply with_have_ok. }
  cbn. auto with ak.
Qed.

Lemma sections_sat size want fuel m r :
  cur_ok r -> rd_len r <= size -> wmod_ok size m -> rd_len r - rd_pos r < Z.of_nat fuel -> sat rejected (wmod_ok size) (parse_sections fuel reg want m r).
Proof.
  revert m r. induction fuel as [|fuel IH]; intros m r Hr Hs Hm Hf; cbn [parse_sections]; (destruct (Z.ltb_spec (rd_pos r) (rd_len r)); [|done]); [lia|].
  eapply sat_bind2; [by apply byte_sat|]. cbn [fst snd]. intros id r1 [_ P1]. eapply sat_bind2; [apply u32_sat; cur|]. cbn [fst snd]. intros sz r2 [Hz P2].
  unfold is_u32 in Hz. destruct (_ || _) eqn:E; [cbn; auto with ak|]. apply orb_false_iff in E as [E1 E2]. cbv zeta.
  assert (Hr2 : cur_ok r2) by cur. destruct Hr2 as (Hw & Hp2 & Hl2). assert (Hpos : rd_pos r < rd_pos r2) by (cur_facts; lia).
  assert (Hlen : rd_len r2 = rd_len r) by (cur_facts; lia).
  eapply sat_bind; [apply (section_sat size); [split_and!; cbn [rd_data rd_len rd_pos]; (done || lia)|cbn [rd_len]; lia|done]|].
  intros m' Hm'. apply IH; [split_and!; cbn [set_pos rd_data rd_len rd_pos]; (done || lia)| |done|]; cbn [set_pos rd_len rd_pos]; lia.
Qed.

Lemma raw_sat r : cur_ok r -> sat rejected (fun p => past r p.2) (or_fail AK_E_WASM_INVALID_MODULE (rd_u32_raw_le r)).
Proof.
  intros (Hw & Hp & Hl). unfold rd_u32_raw_le. destruct (Z.ltb_spec (rd_len r) (rd_pos r + 4)); [cbn; auto with ak|].
  destruct (rd_in_bounds (rd_data r) (rd_pos r) ltac:(lia)) as [? ->]. destruct (rd_in_bounds (rd_data r) (rd_pos r + 1) ltac:(lia)) as [? ->].
  destruct (rd_in_bounds (rd_data r) (rd_pos r + 2) ltac:(lia)) as [? ->]. destruct (rd_in_bounds (rd_data r) (rd_pos r + 3) ltac:(lia)) as [? ->].
  cbn [obind or_fail sat snd]. unfold past, after, set_pos. cbn [rd_data rd_len rd_pos]. split_and!; done || lia.
Qed.

(** A parsed module is well-formed and its entry body lies in the bytes. *)
Lemma parse_module_sat d want :
  wf_bytes d -> sat rejected (fun m => wmod_ok (Z.of_nat (length d)) m /\ entry_body_set m = true) (parse_module reg d want).
Proof.
  intros Hw. unfold parse_module. set (r0 := mk_rd d (Z.of_nat (length d)) 0).
  assert (Hr0 : cur_ok r0) by (split_and!; cbn; (done || lia)).
  eapply sat_bind2; [by apply raw_sat|]. cbn [fst snd]. intros magic r1 P1. eapply sat_bind2; [apply raw_sat; cur|]. cbn [fst snd]. intros version r2 P2.
  destruct (_ || _); [cbn; auto with ak|]. assert (Hr2 : cur_ok r2) by cur.
  eapply sat_bind; [apply (sections_sat (Z.of_nat (length d))); [done| |apply wmod_zero_ok|by apply rd_fuel_enough]|].
  - cur_facts. cbn [r0 rd_len] in *. lia.
  - intros m Hm. destruct (entry_found m); [|cbn; auto with ak]. destruct (entry_body_set m) eqn:E; [|cbn; auto with ak]. cbn [negb orb].
    destruct (_ <? _); [cbn; auto with ak|done].
Qed.

End Parser.
