(* ===== verification/WasmExec.v ===== *)
(** * Validation and execution of WASM bodies ([src/src/agentic/ak_wasm_interp.c], second half)

    The scan of the entry body that whitelists its opcodes and records the jump
    targets of its [if]s, the interpreter with its operand stack and gas, and
    the entry point.  As in [WasmParse], an access outside an object is a
    fault: the arrays of records, of open [if]s, of locals and of operands have
    the sizes the source allocates, and a store behind their end is one. *)

From S2P Require Import Prelude WasmParse.
Open Scope ak_scope.

(** ** Validation *)

Record ifrec_t := mk_ifrec { if_off : Z; else_off : Z; end_off : Z }.

Definition is_supported_numeric (op : Z) : bool :=
  existsb (Z.eqb op)
    [0x45; 0x46; 0x47; 0x48; 0x49; 0x4A; 0x4B; 0x50; 0x51; 0x52; 0x54; 0x55; 0x56; 0x57;
     0x6A; 0x6B; 0x6C; 0x6E; 0x71; 0x72; 0x73; 0x74; 0x76; 0x7C; 0x7D; 0x7E; 0x80; 0x83; 0x84; 0x85; 0x86; 0x88].

Definition read_blocktype (r : rd_t) : res rd_t :=
  let! (bt, r) := or_fail AK_E_WASM_INVALID_MODULE (rd_byte r) in
  if (bt =? 0x40) || (bt =? VT_I32) || (bt =? VT_I64) then Ok r else Fail AK_E_WASM_UNSUPPORTED.

(** One entry of the locals declaration. *)
Definition validate_local (_i total : Z) (r : rd_t) : res (Z * rd_t) :=
  let! (n, r) := or_fail AK_E_WASM_INVALID_MODULE (rd_u32 r) in
  let! (_vt, r) := rd_valtype r in
  if IN_MAX_LOCALS <? total + n then Fail AK_E_WASM_UNSUPPORTED else Ok (total + n, r).

Definition validate_locals (param_count : Z) (r : rd_t) : res (Z * rd_t) :=
  let! (decl_count, r) := or_fail AK_E_WASM_INVALID_MODULE (rd_u32 r) in
  rd_for (rd_fuel r) validate_local 0 decl_count param_count r.

(** The top of a stack, the cell below its stack pointer, and the cells under it. *)
Definition atop {A} (l : list A) : res (A * list A) :=
  match l with
  | [] => Fault
  | x :: l' => Ok (x, l')
  end.

(** The records so far, [recs[0..nrec)], and the indices of the open [if]s,
    [ctrl[0..csp)], innermost first; both arrays have [IN_MAX_IFS] cells. *)
Record scan_t := mk_scan { recs : list ifrec_t; ctrl : list Z }.
Definition nrec (s : scan_t) : Z := Z.of_nat (length (recs s)).
Definition csp (s : scan_t) : Z := Z.of_nat (length (ctrl s)).

(** What follows an instruction: the next one, or the end of the function at an offset. *)
Inductive scanned : Type :=
| Scan (s : scan_t) (r : rd_t)
| Final (s : scan_t) (func_end : Z).

(** One iteration of the scan; the opcode [op] was read at [op_off]. *)
Definition validate_instr (m : wmod_t) (total_locals body_end op_off op : Z) (s : scan_t) (r : rd_t) : res scanned :=
  if (op =? 0x00) || (op =? 0x01) || (op =? 0x0F) || (op =? 0x1A) then Ok (Scan s r)
  else if op =? 0x41 then let! (_v, r) := or_fail AK_E_WASM_INVALID_MODULE (rd_s32 r) in Ok (Scan s r)
  else if op =? 0x42 then let! (_v, r) := or_fail AK_E_WASM_INVALID_MODULE (rd_s64 r) in Ok (Scan s r)
  else if (op =? 0x20) || (op =? 0x21) || (op =? 0x22) then
    let! (idx, r) := or_fail AK_E_WASM_INVALID_MODULE (rd_u32 r) in
    if total_locals <=? idx then Fail AK_E_WASM_INVALID_MODULE else Ok (Scan s r)
  else if op =? 0x10 then
    let! (idx, r) := or_fail AK_E_WASM_INVALID_MODULE (rd_u32 r) in
    if num_imports m <=? idx then Fail AK_E_WASM_UNSUPPORTED else Ok (Scan s r)
  else if op =? 0x04 then
    let! r := read_blocktype r in
    if (IN_MAX_IFS <=? csp s) || (IN_MAX_IFS <=? nrec s) then Fail AK_E_WASM_UNSUPPORTED
    else
      let! rs := aput IN_MAX_IFS (recs s) (mk_ifrec op_off 0 0) in
      let! ct := apush IN_MAX_IFS (ctrl s) (nrec s) in
      Ok (Scan (mk_scan rs ct) r)
  else if op =? 0x05 then
    if csp s =? 0 then Fail AK_E_WASM_INVALID_MODULE
    else
      let! (top, _open) := atop (ctrl s) in
      let! c := aget (recs s) top in
      if negb (else_off c =? 0) then Fail AK_E_WASM_INVALID_MODULE
      else let! l := aset (recs s) top (mk_ifrec (if_off c) op_off (end_off c)) in Ok (Scan (mk_scan l (ctrl s)) r)
  else if op =? 0x0B then
    if csp s =? 0 then if negb (rd_pos r =? body_end) then Fail AK_E_WASM_INVALID_MODULE else Ok (Final s op_off)
    else
      let! (top, open) := atop (ctrl s) in
      let! c := aget (recs s) top in
      let! l := aset (recs s) top (mk_ifrec (if_off c) (else_off c) op_off) in
      Ok (Scan (mk_scan l open) r)
  else if is_supported_numeric op then Ok (Scan s r)
  else Fail AK_E_WASM_UNSUPPORTED.

Fixpoint validate_instrs (fuel : nat) (m : wmod_t) (total_locals body_end : Z) (s : scan_t) (r : rd_t) : res (scan_t * Z) :=
  if rd_len r <=? rd_pos r then Fail AK_E_WASM_INVALID_MODULE
  else
    match fuel with
    | O => Fault
    | S fuel' =>
        let op_off := rd_pos r in
        let! (op, r) := or_fail AK_E_WASM_INVALID_MODULE (rd_byte r) in
        let! x := validate_instr m total_locals body_end op_off op s r in
        match x with
        | Scan s r => validate_instrs fuel' m total_locals body_end s r
        | Final s func_end => Ok (s, func_end)
        end
    end.

(** What [validate_body] returns through its pointers. *)
Record body_t := mk_body { b_recs : list ifrec_t; b_instr_start : Z; b_total_locals : Z; b_func_end : Z }.

Definition validate_body (m : wmod_t) (d : bytes) (body_start body_end param_count : Z) : res body_t :=
  let r := mk_rd d body_end body_start in
  let! (total_locals, r) := validate_locals param_count r in
  let instr_start := rd_pos r in
  let! (s, func_end) := validate_instrs (rd_fuel r) m (u32 total_locals) body_end (mk_scan [] []) r in
  if negb (csp s =? 0) then Fail AK_E_WASM_INVALID_MODULE else Ok (mk_body (recs s) instr_start (u32 total_locals) func_end).

(** ** Execution *)

Fixpoint find_from (f : ifrec_t -> Z) (recs : list ifrec_t) (off i : Z) : Z :=
  match recs with
  | [] => -1
  | c :: recs' => if f c =? off then i else find_from f recs' off (i + 1)
  end.
Definition find_rec_by_if (recs : list ifrec_t) (off : Z) : Z := find_from if_off recs off 0.
Definition find_rec_by_else (recs : list ifrec_t) (off : Z) : Z := find_from else_off recs off 0.

Definition sext32 (v : Z) : Z := s32 (u32 v).

Definition truth (b : bool) : Z := if b then 1 else 0.

(** The cells of the operand stack in use, its top first; [sp] is their number
    and the array has [IN_STACK_MAX] cells.  [Null] is the return of false. *)
Definition sp (st : list Z) : Z := Z.of_nat (length st).
Definition stored {A} (o : res A) : outcome A :=
  match o with
  | Ok x => Ret x
  | _ => Oob
  end.
Definition op_push (st : list Z) (v : Z) : outcome (list Z) := if IN_STACK_MAX <=? sp st then Null else stored (apush IN_STACK_MAX st v).
Definition op_pop (st : list Z) : outcome (Z * list Z) := if sp st =? 0 then Null else stored (atop st).

Lemma op_push_eq st v : op_push st v = if IN_STACK_MAX <=? Z.of_nat (length st) then Null else Ret (v :: st).
Proof.
  unfold op_push, sp. destruct (Z.leb_spec IN_STACK_MAX (Z.of_nat (length st))); [done|]. by rewrite apush_ok by lia.
Qed.

Lemma op_pop_cons x l : op_pop (x :: l) = Ret (x, l).
Proof. reflexivity. Qed.

(** The result of a binary opcode; [None] is a trap. *)
Definition binop (op a b : Z) : option Z :=
  if op =? 0x6A then Some (u32 (u64 (a + b)))
  else if op =? 0x6B then Some (u32 (u64 (a - b)))
  else if op =? 0x6C then Some (u32 (u64 (a * b)))
  else if op =? 0x6E then if u32 b =? 0 then None else Some (u32 (u32 a / u32 b))
  else if op =? 0x71 then Some (u32 (Z.land a b))
  else if op =? 0x72 then Some (u32 (Z.lor a b))
  else if op =? 0x73 then Some (u32 (Z.lxor a b))
  else if op =? 0x74 then Some (u32 (Z.shiftl (u32 a) (Z.land (u32 b) 31)))
  else if op =? 0x76 then Some (u32 (Z.shiftr (u32 a) (Z.land (u32 b) 31)))
  else if op =? 0x46 then Some (truth (u32 a =? u32 b))
  else if op =? 0x47 then Some (truth (negb (u32 a =? u32 b)))
  else if op =? 0x48 then Some (truth (sext32 a <? sext32 b))
  else if op =? 0x49 then Some (truth (u32 a <? u32 b))
  else if op =? 0x4A then Some (truth (sext32 b <? sext32 a))
  else if op =? 0x4B then Some (truth (u32 b <? u32 a))
  else if op =? 0x7C then Some (u64 (a + b))
  else if op =? 0x7D then Some (u64 (a - b))
  else if op =? 0x7E then Some (u64 (a * b))
  else if op =? 0x80 then if b =? 0 then None else Some (a / b)
  else if op =? 0x83 then Some (Z.land a b)
  else if op =? 0x84 then Some (Z.lor a b)
  else if op =? 0x85 then Some (Z.lxor a b)
  else if op =? 0x86 then Some (u64 (Z.shiftl a (Z.land b 63)))
  else if op =? 0x88 then Some (Z.shiftr a (Z.land b 63))
  else if op =? 0x51 then Some (truth (a =? b))
  else if op =? 0x52 then Some (truth (negb (a =? b)))
  else if op =? 0x54 then Some (truth (s64 a <? s64 b))
  else if op =? 0x55 then Some (truth (a <? b))
  else if op =? 0x56 then Some (truth (s64 b <? s64 a))
  else if op =? 0x57 then Some (truth (b <? a))
  else None.

(** A numeric opcode on the stack; [Null] is a trap. *)
Definition numeric (op : Z) (st : list Z) : outcome (list Z) :=
  if op =? 0x45 then let* p := op_pop st in op_push p.2 (truth (u32 p.1 =? 0))
  else if op =? 0x50 then let* p := op_pop st in op_push p.2 (truth (p.1 =? 0))
  else
    let* p := op_pop st in
    let* q := op_pop p.2 in
    match binop op q.1 p.1 with Some v => op_push q.2 v | None => Null end.

Section Exec.
Context {W : Type} (reg : list (@ak_host_fn_entry W)).

(** The machine. *)
Record vm_t := mk_vm { vm_pc : Z; vm_gas : Z; vm_locals : list Z; vm_stk : list Z; vm_world : W }.

(** What an instruction leads to. *)
Inductive step_t : Type :=
| Next (v : vm_t)
| Returns (v : vm_t)
| Stops (e gas : Z) (w : W)
| Faults.

Definition go (v : vm_t) (pc : Z) (st : list Z) : step_t := Next (mk_vm pc (vm_gas v) (vm_locals v) st (vm_world v)).
Definition trap (v : vm_t) : step_t := Stops AK_E_WASM_TRAP (vm_gas v) (vm_world v).

(** [rd(...)] fails: trap. *)
Definition with_imm (v : vm_t) (o : outcome (Z * rd_t)) (k : Z -> Z -> step_t) : step_t :=
  match o with
  | Ret (x, r) => k x (rd_pos r)
  | Null => trap v
  | Oob => Faults
  end.

Definition or_trap {A} (v : vm_t) (o : outcome A) (k : A -> step_t) : step_t :=
  match o with
  | Ret x => k x
  | Null => trap v
  | Oob => Faults
  end.

Definition or_fault {A} (o : res A) (k : A -> step_t) : step_t :=
  match o with
  | Ok x => k x
  | _ => Faults
  end.

(** A host call, with the cursor already behind its index. *)
Definition host_call (m : wmod_t) (input : option bytes) (v : vm_t) (idx pc : Z) : step_t :=
  if num_imports m <=? idx then trap v
  else
    or_fault (aget (import_name m) idx) (fun name =>
    match ak_host_fn_get reg name with
    | None => Stops AK_E_WASM_HOST_ERROR (vm_gas v) (vm_world v)
    | Some hf =>
        match hf_fn hf with
        | None => Stops AK_E_WASM_HOST_ERROR (vm_gas v) (vm_world v)
        | Some fn =>
            let '(rc, w) := fn (vm_world v) input in
            let v := mk_vm pc (vm_gas v) (vm_locals v) (vm_stk v) w in
            if rc <? 0 then Stops AK_E_WASM_HOST_ERROR (vm_gas v) w
            else
              or_fault (aget (import_type m) idx) (fun t =>
              or_fault (aget (type_rcount m) t) (fun rcount =>
              if rcount =? 1 then or_trap v (op_push (vm_stk v) (u64 rc)) (go v pc) else Next v))
        end
    end).

(** One instruction; [pc] is behind its opcode. *)
Definition exec_instr (m : wmod_t) (d : bytes) (body_end total_locals : Z) (rs : list ifrec_t) (input : option bytes) (op pc : Z) (v : vm_t) : step_t :=
  let r := mk_rd d body_end pc in
  let st := vm_stk v in
  if op =? 0x00 then trap v
  else if op =? 0x01 then go v pc st
  else if op =? 0x0F then Returns v
  else if op =? 0x1A then or_trap v (op_pop st) (fun p => go v pc p.2)
  else if op =? 0x41 then with_imm v (rd_s32 r) (fun x pc => or_trap v (op_push st (u32 x)) (go v pc))
  else if op =? 0x42 then with_imm v (rd_s64 r) (fun x pc => or_trap v (op_push st (u64 x)) (go v pc))
  else if op =? 0x20 then
    with_imm v (rd_u32 r) (fun idx pc =>
    if total_locals <=? idx then trap v
    else or_fault (aget (vm_locals v) idx) (fun x => or_trap v (op_push st x) (go v pc)))
  else if op =? 0x21 then
    with_imm v (rd_u32 r) (fun idx pc =>
    if total_locals <=? idx then trap v
    else or_trap v (op_pop st) (fun p => or_fault (aset (vm_locals v) idx p.1) (fun l => Next (mk_vm pc (vm_gas v) l p.2 (vm_world v)))))
  else if op =? 0x22 then
    with_imm v (rd_u32 r) (fun idx pc =>
    if (total_locals <=? idx) || (sp st =? 0) then trap v
    else or_fault (atop st) (fun p => or_fault (aset (vm_locals v) idx p.1) (fun l => Next (mk_vm pc (vm_gas v) l st (vm_world v)))))
  else if op =? 0x04 then
    let pc := pc + 1 in
    or_trap v (op_pop st) (fun p =>
    if negb (u32 p.1 =? 0) then go v pc p.2
    else
      let ri := find_rec_by_if rs (pc - 2) in
      if ri <? 0 then trap v
      else or_fault (aget rs ri) (fun c => go v (if negb (else_off c =? 0) then else_off c + 1 else end_off c + 1) p.2))
  else if op =? 0x05 then
    let ri := find_rec_by_else rs (pc - 1) in
    if ri <? 0 then trap v else or_fault (aget rs ri) (fun c => go v (end_off c + 1) st)
  else if op =? 0x0B then go v pc st
  else if op =? 0x10 then with_imm v (rd_u32 r) (fun idx pc => host_call m input v idx pc)
  else or_trap v (numeric op st) (go v pc).

(** One iteration of the loop. *)
Definition exec_step (m : wmod_t) (d : bytes) (body_end func_end total_locals : Z) (rs : list ifrec_t) (input : option bytes) (gas_limit : Z) (v : vm_t) : step_t :=
  if (body_end <=? vm_pc v) || (vm_pc v =? func_end) then Returns v
  else
    let gas := u64 (vm_gas v + 1) in
    if gas_limit <? gas then Stops AK_E_WASM_TIMEOUT gas (vm_world v)
    else
      match rd d (vm_pc v) with
      | Ret op => exec_instr m d body_end total_locals rs input op (vm_pc v + 1) (mk_vm (vm_pc v) gas (vm_locals v) (vm_stk v) (vm_world v))
      | _ => Faults
      end.

(** The loop; the fuel is the number of bytes of the module, for every jump goes forward. *)
Fixpoint exec_loop (fuel : nat) (m : wmod_t) (d : bytes) (body_end func_end total_locals : Z) (rs : list ifrec_t) (input : option bytes) (gas_limit : Z) (v : vm_t) : step_t :=
  match fuel with
  | O => Faults
  | S fuel' =>
      match exec_step m d body_end func_end total_locals rs input gas_limit v with
      | Next v' => exec_loop fuel' m d body_end func_end total_locals rs input gas_limit v'
      | o => o
      end
  end.

(** The return of [exec_body]: its code, the gas, the result and the world. *)
Record exec_t := mk_exec { ex_ret : Z; ex_gas : Z; ex_result : Z; ex_world : W }.

Definition finish (result_count : Z) (o : step_t) : option exec_t :=
  match o with
  | Returns v =>
      if result_count =? 1 then
        if sp (vm_stk v) =? 0 then Some (mk_exec AK_E_WASM_TRAP (vm_gas v) 0 (vm_world v))
        else
          match atop (vm_stk v) with
          | Ok (x, _) => Some (mk_exec 0 (vm_gas v) (s64 x) (vm_world v))
          | _ => None
          end
      else Some (mk_exec 0 (vm_gas v) 0 (vm_world v))
  | Stops e gas w => Some (mk_exec e gas 0 w)
  | _ => None
  end.

Definition exec_body (m : wmod_t) (d : bytes) (body_end instr_start func_end total_locals result_count : Z) (rs : list ifrec_t)
  (locals : list Z) (input : option bytes) (gas_limit : Z) (w : W) : option exec_t :=
  finish result_count (exec_loop (S (length d)) m d body_end func_end total_locals rs input gas_limit (mk_vm instr_start 0 locals [] w)).

(** ** The entry point *)

(** Parameter [i], eight little-endian bytes of the input; bytes past its end are zero. *)
Definition param_value (input : bytes) (i : Z) : Z :=
  foldl (fun v b => let off := i * 8 + b in
    match input !! Z.to_nat off with Some x => Z.lor v (u64 (Z.shiftl x (8 * b))) | None => v end) 0 [0; 1; 2; 3; 4; 5; 6; 7].

(** [for (i = 0; i < param_count; i++) locals[i] = v;], from [i] on. *)
Fixpoint write_params (n : nat) (inp : bytes) (i : Z) (locals : list Z) : res (list Z) :=
  match n with
  | O => Ok locals
  | S n' => let! locals := aset locals i (param_value inp i) in write_params n' inp (i + 1) locals
  end.

Definition set_locals (total_locals param_count : Z) (input : option bytes) : res (list Z) :=
  let zeroed := replicate (Z.to_nat (if total_locals =? 0 then 1 else total_locals)) 0 in
  match input with
  | None => Ok zeroed
  | Some inp => write_params (Z.to_nat param_count) inp 0 zeroed
  end.

(** The allocations of a run, in order: module, records, locals, stack, output. *)
Record allocs := mk_allocs { al_mod : bool; al_recs : bool; al_locals : bool; al_stack : bool; al_out : bool }.

(** What a run returns: code, output buffer, gas, result, world. *)
Record run_t := mk_run { run_ret : Z; run_output : option bytes; run_gas : Z; run_result : Z; run_world : W }.

Definition fails (e gas : Z) (w : W) : option run_t := Some (mk_run e None gas 0 w).

(** Phase 2 on a validated body. *)
Definition run_body (al : allocs) (m : wmod_t) (d : bytes) (b : body_t) (param_count result_count : Z) (input : option bytes) (gas_limit : Z) (w : W) : option run_t :=
  if negb (al_locals al) || negb (al_stack al) then fails AK_E_WASM_OOM 0 w
  else
    match set_locals (b_total_locals b) param_count input with
    | Ok locals =>
        match exec_body m d (entry_body_end m) (b_instr_start b) (b_func_end b) (b_total_locals b) result_count (b_recs b)
          locals input gas_limit w with
        | None => None
        | Some x =>
            if ex_ret x =? 0 then
              if negb (al_out al) then fails AK_E_WASM_OOM (ex_gas x) (ex_world x)
              else Some (mk_run 0 (Some (if result_count =? 1 then le_enc 8 (u64 (ex_result x)) else [])) (ex_gas x) (ex_result x) (ex_world x))
            else fails (ex_ret x) (ex_gas x) (ex_world x)
        end
    | _ => None
    end.

(** The parameter and result counts of the entry function. *)
Definition entry_counts (m : wmod_t) : res (Z * Z) :=
  let! entry_type := aget (func_type m) (entry_local_index m) in
  let! param_count := aget (type_pcount m) entry_type in
  let! result_count := aget (type_rcount m) entry_type in
  Ok (param_count, result_count).

(** [None] is a fault. *)
Definition ak_wasm_interp_run (al : allocs) (bytecode export_name input : option bytes) (gas_limit : Z) (w : W) : option run_t :=
  match bytecode with
  | None => fails AK_E_WASM_INVALID_MODULE 0 w
  | Some d =>
      if Z.of_nat (length d) <? 8 then fails AK_E_WASM_INVALID_MODULE 0 w
      else
        let gas_limit := if gas_limit =? 0 then IN_DEFAULT_GAS else gas_limit in
        if negb (al_mod al) then fails AK_E_WASM_OOM 0 w
        else
          match parse_module reg d export_name with
          | Fault => None
          | Fail e => fails e 0 w
          | Ok m =>
              match entry_counts m with
              | Ok (param_count, result_count) =>
                  if negb (al_recs al) then fails AK_E_WASM_OOM 0 w
                  else
                    match validate_body m d (entry_body_start m) (entry_body_end m) param_count with
                    | Fault => None
                    | Fail e => fails e 0 w
                    | Ok b => run_body al m d b param_count result_count input gas_limit w
                    end
              | _ => None
              end
          end
  end.

End Exec.
