(* ===== verification/WasmSem.v ===== *)
(** * The meaning of WASM code

    A structured semantics of the integer subset: code is a sequence of
    operations with nested conditionals, without offsets or jump tables.  The
    theorems relate [ak_wasm_interp_run] of [src/src/agentic/ak_wasm_interp.c]
    to it: every module that passes validation has structured code, and running
    the bytes is running that code. *)

From S2P Require Import Prelude WasmParse WasmExec.
Open Scope ak_scope.

(** ** Structured code *)

Inductive width := W32 | W64.
Definition bits (w : width) : Z := match w with W32 => 32 | W64 => 64 end.

Inductive bop := Add | Sub | Mul | DivU | And | Or | Xor | Shl | ShrU | Eq | Ne | LtS | LtU | GtS | GtU.

Inductive op : Type :=
| OUnreachable | ONop | OReturn | ODrop
| OConst (w : width) (x : Z)
| OGet (i : Z) | OSet (i : Z) | OTee (i : Z)
| OCall (i : Z)
| OEqz (w : width)
| OBin (w : width) (b : bop).

Inductive code : Type :=
| Done
| Op (o : op) (k : code)
| If (t k : code)
| IfElse (t e k : code).

(** ** Arithmetic of the WASM specification *)

Definition signed (w : width) (x : Z) : Z := if x <? 2 ^ (bits w - 1) then x else x - 2 ^ bits w.

(** The operation on the low bits of two slots; [None] is a division by zero. *)
Definition wasm_bop (w : width) (o : bop) (x y : Z) : option Z :=
  let n := 2 ^ bits w in
  let a := x mod n in
  let b := y mod n in
  match o with
  | Add => Some ((a + b) mod n)
  | Sub => Some ((a - b) mod n)
  | Mul => Some ((a * b) mod n)
  | DivU => if b =? 0 then None else Some (a / b)
  | And => Some (Z.land a b)
  | Or => Some (Z.lor a b)
  | Xor => Some (Z.lxor a b)
  | Shl => Some (a * 2 ^ (b mod bits w) mod n)
  | ShrU => Some (a / 2 ^ (b mod bits w))
  | Eq => Some (truth (a =? b))
  | Ne => Some (truth (negb (a =? b)))
  | LtS => Some (truth (signed w a <? signed w b))
  | LtU => Some (truth (a <? b))
  | GtS => Some (truth (signed w b <? signed w a))
  | GtU => Some (truth (b <? a))
  end.

(** ** Evaluation *)

(** Why an evaluation stops, and the code returned for it. *)
Inductive why := Unreachable | DivByZero | Underflow | Overflow | HostFailed | OutOfGas.
Definition why_code (y : why) : Z :=
  match y with
  | HostFailed => AK_E_WASM_HOST_ERROR
  | OutOfGas => AK_E_WASM_TIMEOUT
  | _ => AK_E_WASM_TRAP
  end.

Section Sem.
Context {W : Type}.

Record st_t := mk_st { st_gas : Z; st_locals : list Z; st_stk : list Z; st_world : W }.

Inductive eff : Type :=
| ENext (s : st_t)
| EReturn (s : st_t)
| EStop (y : why) (gas : Z) (w : W).

Definition then_ (e : eff) (k : st_t -> eff) : eff :=
  match e with
  | ENext s => k s
  | e => e
  end.

Definition stop (y : why) (s : st_t) : eff := EStop y (st_gas s) (st_world s).
Definition set_stk (s : st_t) (l : list Z) : st_t := mk_st (st_gas s) (st_locals s) l (st_world s).

Definition pop (s : st_t) (k : Z -> st_t -> eff) : eff :=
  match st_stk s with
  | [] => stop Underflow s
  | x :: l => k x (set_stk s l)
  end.
Definition push (x : Z) (s : st_t) : eff :=
  if IN_STACK_MAX <=? Z.of_nat (length (st_stk s)) then stop Overflow s else ENext (set_stk s (x :: st_stk s)).

(** One unit of gas. *)
Definition tick (gas_limit : Z) (s : st_t) : eff :=
  let s' := mk_st (st_gas s + 1) (st_locals s) (st_stk s) (st_world s) in
  if gas_limit <? st_gas s + 1 then stop OutOfGas s' else ENext s'.

Definition local (s : st_t) (i : Z) : Z := nth (Z.to_nat i) (st_locals s) 0.
Definition set_local (s : st_t) (i x : Z) : st_t := mk_st (st_gas s) (<[Z.to_nat i := x]> (st_locals s)) (st_stk s) (st_world s).

(** The functions the code may call, and whether each returns a value. *)
Context (callee : Z -> option (@host_fn W * bool)) (input : option bytes) (gas_limit : Z).

Definition call (i : Z) (s : st_t) : eff :=
  match callee i with
  | None => stop HostFailed s
  | Some (fn, returns) =>
      let '(rc, w) := fn (st_world s) input in
      let s := mk_st (st_gas s) (st_locals s) (st_stk s) w in
      if rc <? 0 then stop HostFailed s else if returns then push (u64 rc) s else ENext s
  end.

Definition eval_op (o : op) (s : st_t) : eff :=
  match o with
  | OUnreachable => stop Unreachable s
  | ONop => ENext s
  | OReturn => EReturn s
  | ODrop => pop s (fun _ s => ENext s)
  | OConst w x => push (x mod 2 ^ bits w) s
  | OGet i => push (local s i) s
  | OSet i => pop s (fun x s => ENext (set_local s i x))
  | OTee i => pop s (fun x s => ENext (set_stk (set_local s i x) (x :: st_stk s)))
  | OCall i => call i s
  | OEqz w => pop s (fun x s => push (truth (x mod 2 ^ bits w =? 0)) s)
  | OBin w b => pop s (fun y s => pop s (fun x s => match wasm_bop w b x y with Some v => push v s | None => stop DivByZero s end))
  end.

(** Each opcode executed costs one, an [else] or [end] reached included. *)
Fixpoint eval (c : code) (s : st_t) : eff :=
  match c with
  | Done => ENext s
  | Op o k => then_ (tick gas_limit s) (fun s => then_ (eval_op o s) (eval k))
  | If t k =>
      then_ (tick gas_limit s) (fun s => pop s (fun x s =>
      if u32 x =? 0 then eval k s else then_ (then_ (eval t s) (tick gas_limit)) (eval k)))
  | IfElse t e k =>
      then_ (tick gas_limit s) (fun s => pop s (fun x s =>
      then_ (then_ (if u32 x =? 0 then eval e s else eval t s) (tick gas_limit)) (eval k)))
  end.

(** The value of a function body. *)
Definition result_of (result_count : Z) (e : eff) : @exec_t W :=
  match e with
  | ENext s | EReturn s =>
      if result_count =? 1 then
        match st_stk s with
        | [] => mk_exec AK_E_WASM_TRAP (st_gas s) 0 (st_world s)
        | x :: _ => mk_exec 0 (st_gas s) (s64 x) (st_world s)
        end
      else mk_exec 0 (st_gas s) 0 (st_world s)
  | EStop y gas w => mk_exec (why_code y) gas 0 w
  end.

End Sem.

(** ** Code in bytes *)

Definition bin_code (w : width) (b : bop) : Z :=
  match w, b with
  | W32, Add => 0x6A | W32, Sub => 0x6B | W32, Mul => 0x6C | W32, DivU => 0x6E | W32, And => 0x71 | W32, Or => 0x72
  | W32, Xor => 0x73 | W32, Shl => 0x74 | W32, ShrU => 0x76 | W32, Eq => 0x46 | W32, Ne => 0x47 | W32, LtS => 0x48
  | W32, LtU => 0x49 | W32, GtS => 0x4A | W32, GtU => 0x4B
  | W64, Add => 0x7C | W64, Sub => 0x7D | W64, Mul => 0x7E | W64, DivU => 0x80 | W64, And => 0x83 | W64, Or => 0x84
  | W64, Xor => 0x85 | W64, Shl => 0x86 | W64, ShrU => 0x88 | W64, Eq => 0x51 | W64, Ne => 0x52 | W64, LtS => 0x54
  | W64, LtU => 0x55 | W64, GtS => 0x56 | W64, GtU => 0x57
  end.
Definition eqz_code (w : width) : Z := match w with W32 => 0x45 | W64 => 0x50 end.

Section Layout.
Context (d : bytes) (lim total_locals num_imports : Z).

(** The immediate behind an opcode at [p], up to [p']. *)
Definition imm (f : rd_t -> outcome (Z * rd_t)) (p x p' : Z) : Prop := exists r, f (mk_rd d lim (p + 1)) = Ret (x, r) /\ rd_pos r = p'.

(** Operation [o] is encoded from [p] to [p']. *)
Definition op_at (o : op) (p p' : Z) : Prop :=
  match o with
  | OUnreachable => rd d p = Ret 0x00 /\ p' = p + 1
  | ONop => rd d p = Ret 0x01 /\ p' = p + 1
  | OReturn => rd d p = Ret 0x0F /\ p' = p + 1
  | ODrop => rd d p = Ret 0x1A /\ p' = p + 1
  | OConst W32 x => rd d p = Ret 0x41 /\ imm rd_s32 p x p'
  | OConst W64 x => rd d p = Ret 0x42 /\ imm rd_s64 p x p'
  | OGet i => rd d p = Ret 0x20 /\ imm rd_u32 p i p' /\ i < total_locals
  | OSet i => rd d p = Ret 0x21 /\ imm rd_u32 p i p' /\ i < total_locals
  | OTee i => rd d p = Ret 0x22 /\ imm rd_u32 p i p' /\ i < total_locals
  | OCall i => rd d p = Ret 0x10 /\ imm rd_u32 p i p' /\ i < num_imports
  | OEqz w => rd d p = Ret (eqz_code w) /\ p' = p + 1
  | OBin w b => rd d p = Ret (bin_code w b) /\ p' = p + 1
  end.

(** Code [c] is encoded from [p] to [p'], and the offsets of its conditionals are in [rs]. *)
Inductive code_at (rs : list ifrec_t) : code -> Z -> Z -> Prop :=
| at_done p : code_at rs Done p p
| at_op o k p p1 p' : op_at o p p1 -> p < p1 <= lim -> code_at rs k p1 p' -> code_at rs (Op o k) p p'
| at_if t k p p1 p' :
    rd d p = Ret 0x04 -> code_at rs t (p + 2) p1 -> rd d p1 = Ret 0x0B -> mk_ifrec p 0 p1 ∈ rs ->
    code_at rs k (p1 + 1) p' -> code_at rs (If t k) p p'
| at_ifelse t e k p p1 p2 p' :
    rd d p = Ret 0x04 -> code_at rs t (p + 2) p1 -> rd d p1 = Ret 0x05 -> code_at rs e (p1 + 1) p2 -> rd d p2 = Ret 0x0B ->
    mk_ifrec p p1 p2 ∈ rs -> code_at rs k (p2 + 1) p' -> code_at rs (IfElse t e k) p p'.

End Layout.

(** ** The arithmetic is that of the specification *)

Lemma u32_u64 z : u32 (u64 z) = z mod 2 ^ 32.
Proof.
  unfold u32, u64. change (2 ^ 32) with 4294967296. rewrite (Z.mod_eq z 18446744073709551616) by lia.
  replace (z - 18446744073709551616 * (z / 18446744073709551616)) with (z + (- (z / 18446744073709551616) * 4294967296) * 4294967296) by lia.
  by rewrite Z.mod_add by lia.
Qed.

Lemma mod_land a b n : 0 <= n -> Z.land a b mod 2 ^ n = Z.land (a mod 2 ^ n) (b mod 2 ^ n).
Proof.
  intros Hn. rewrite <-!Z.land_ones by lia. apply Z.bits_inj'. intros i Hi. rewrite !Z.land_spec. destruct (Z.testbit a i), (Z.testbit b i), (Z.testbit (Z.ones n) i); done.
Qed.
Lemma mod_lor a b n : 0 <= n -> Z.lor a b mod 2 ^ n = Z.lor (a mod 2 ^ n) (b mod 2 ^ n).
Proof.
  intros Hn. rewrite <-!Z.land_ones by lia. apply Z.bits_inj'. intros i Hi. rewrite ?Z.land_spec, ?Z.lor_spec, ?Z.land_spec.
  destruct (Z.testbit a i), (Z.testbit b i), (Z.testbit (Z.ones n) i); done.
Qed.
Lemma mod_lxor a b n : 0 <= n -> Z.lxor a b mod 2 ^ n = Z.lxor (a mod 2 ^ n) (b mod 2 ^ n).
Proof.
  intros Hn. rewrite <-!Z.land_ones by lia. apply Z.bits_inj'. intros i Hi. rewrite ?Z.land_spec, ?Z.lxor_spec, ?Z.land_spec.
  destruct (Z.testbit a i), (Z.testbit b i), (Z.testbit (Z.ones n) i); done.
Qed.

Lemma land_31 x : Z.land x 31 = x mod 32.
Proof. change 31 with (Z.ones 5). by rewrite Z.land_ones by lia. Qed.
Lemma land_63 x : Z.land x 63 = x mod 64.
Proof. change 63 with (Z.ones 6). by rewrite Z.land_ones by lia. Qed.

Lemma div_range a b n : 0 <= a < n -> 0 < b -> 0 <= a / b < n.
Proof. intros Ha Hb. split; [apply Z.div_pos; lia|]. apply Z.div_lt_upper_bound; [done|]. nia. Qed.

Lemma s32_signed x : s32 (u32 x) = signed W32 (x mod 2 ^ 32).
Proof. unfold s32, u32, signed, bits. change (2 ^ (32 - 1)) with 2147483648. change (2 ^ 32) with 4294967296. by rewrite Z.mod_mod by lia. Qed.
Lemma s64_signed x : s64 x = signed W64 (x mod 2 ^ 64).
Proof. done. Qed.

Lemma binop_i32 b x y : binop (bin_code W32 b) x y = wasm_bop W32 b x y.
Proof.
  destruct b; cbn [bin_code]; unfold wasm_bop, bits; cbv zeta.
  - change (Some (u32 (u64 (x + y))) = Some ((x mod 2 ^ 32 + y mod 2 ^ 32) mod 2 ^ 32)). f_equal. by rewrite u32_u64, <-Z.add_mod.
  - change (Some (u32 (u64 (x - y))) = Some ((x mod 2 ^ 32 - y mod 2 ^ 32) mod 2 ^ 32)). f_equal. by rewrite u32_u64, Zminus_mod.
  - change (Some (u32 (u64 (x * y))) = Some ((x mod 2 ^ 32 * (y mod 2 ^ 32)) mod 2 ^ 32)). f_equal. by rewrite u32_u64, <-Z.mul_mod.
  - change ((if u32 y =? 0 then None else Some (u32 (u32 x / u32 y))) = if u32 y =? 0 then None else Some (u32 x / u32 y)).
    destruct (Z.eqb_spec (u32 y) 0) as [|Hy]; [done|]. f_equal. unfold u32 at 1. apply Z.mod_small.
    pose proof (Z.mod_pos_bound y M32 ltac:(lia)). apply div_range; [apply Z.mod_pos_bound; lia|unfold u32 in *; lia].
  - change (Some (Z.land x y mod 2 ^ 32) = Some (Z.land (x mod 2 ^ 32) (y mod 2 ^ 32))). f_equal. by apply mod_land.
  - change (Some (Z.lor x y mod 2 ^ 32) = Some (Z.lor (x mod 2 ^ 32) (y mod 2 ^ 32))). f_equal. by apply mod_lor.
  - change (Some (Z.lxor x y mod 2 ^ 32) = Some (Z.lxor (x mod 2 ^ 32) (y mod 2 ^ 32))). f_equal. by apply mod_lxor.
  - change (Some (u32 (Z.shiftl (u32 x) (Z.land (u32 y) 31))) = Some ((u32 x * 2 ^ (u32 y mod 32)) mod 2 ^ 32)). f_equal.
    rewrite land_31, Z.shiftl_mul_pow2 by (apply Z.mod_pos_bound; lia). done.
  - change (Some (u32 (Z.shiftr (u32 x) (Z.land (u32 y) 31))) = Some (u32 x / 2 ^ (u32 y mod 32))). f_equal.
    rewrite land_31, Z.shiftr_div_pow2 by (apply Z.mod_pos_bound; lia). unfold u32 at 1. apply Z.mod_small.
    apply div_range; [apply Z.mod_pos_bound; lia|]. apply Z.pow_pos_nonneg; [lia|]. apply Z.mod_pos_bound. lia.
  - done.
  - done.
  - change (Some (truth (s32 (u32 x) <? s32 (u32 y))) = Some (truth (signed W32 (x mod 2 ^ 32) <? signed W32 (y mod 2 ^ 32)))). by rewrite !s32_signed.
  - done.
  - change (Some (truth (s32 (u32 y) <? s32 (u32 x))) = Some (truth (signed W32 (y mod 2 ^ 32) <? signed W32 (x mod 2 ^ 32)))). by rewrite !s32_signed.
  - done.
Qed.

Lemma binop_i64 b x y : is_u64 x -> is_u64 y -> binop (bin_code W64 b) x y = wasm_bop W64 b x y.
Proof.
  intros Hx Hy. unfold wasm_bop, bits. cbv zeta. unfold is_u64 in *. change (2 ^ 64) with M64. rewrite (Z.mod_small x), (Z.mod_small y) by lia.
  destruct b; try done.
  - change (Some (u64 (Z.shiftl x (Z.land y 63))) = Some ((x * 2 ^ (y mod 64)) mod M64)). by rewrite land_63, Z.shiftl_mul_pow2 by (apply Z.mod_pos_bound; lia).
  - change (Some (Z.shiftr x (Z.land y 63)) = Some (x / 2 ^ (y mod 64))). by rewrite land_63, Z.shiftr_div_pow2 by (apply Z.mod_pos_bound; lia).
  - change (Some (truth (s64 x <? s64 y)) = Some (truth (signed W64 x <? signed W64 y))). rewrite !s64_signed. change (2 ^ 64) with M64. by rewrite (Z.mod_small x), (Z.mod_small y) by lia.
  - change (Some (truth (s64 y <? s64 x)) = Some (truth (signed W64 y <? signed W64 x))). rewrite !s64_signed. change (2 ^ 64) with M64. by rewrite (Z.mod_small x), (Z.mod_small y) by lia.
Qed.

Lemma binop_correct w b x y : is_u64 x -> is_u64 y -> binop (bin_code w b) x y = wasm_bop w b x y.
Proof. destruct w; [intros; apply binop_i32|apply binop_i64]. Qed.

(** Results are slots. *)
Lemma truth_u64 b : is_u64 (truth b).
Proof. unfold is_u64. destruct b; cbn; lia. Qed.

Lemma wasm_bop_range w b x y v : wasm_bop w b x y = Some v -> 0 <= v < 2 ^ bits w.
Proof.
  intros H. assert (Hn : 1 < 2 ^ bits w) by (destruct w; done). assert (Hb : 0 <= bits w) by (destruct w; done).
  assert (Ht : forall t, 0 <= truth t < 2 ^ bits w) by (intros []; cbn; lia).
  assert (Hx : forall z, 0 <= z mod 2 ^ bits w < 2 ^ bits w) by (intros; apply Z.mod_pos_bound; lia).
  unfold wasm_bop in H. cbv zeta in H. destruct b; try (injection H as <-); try (apply Ht); try (apply Z.mod_pos_bound; lia).
  - destruct (Z.eqb_spec (y mod 2 ^ bits w) 0); [done|]. injection H as <-. apply div_range; [apply Hx|]. pose proof (Hx y). lia.
  - rewrite <-mod_land by done. apply Hx.
  - rewrite <-mod_lor by done. apply Hx.
  - rewrite <-mod_lxor by done. apply Hx.
  - apply div_range; [apply Hx|]. apply Z.pow_pos_nonneg; [lia|]. apply Z.mod_pos_bound. destruct w; done.
Qed.

Lemma wasm_bop_u64 w b x y v : wasm_bop w b x y = Some v -> is_u64 v.
Proof.
  intros H%wasm_bop_range. unfold is_u64. assert (2 ^ bits w <= M64) by (destruct w; done). lia.
Qed.

(** ** One operation *)

Section Simulation.
Context {W : Type} (reg : list (@ak_host_fn_entry W)).
Context (m : wmod_t) (d : bytes) (body_end func_end total_locals : Z) (rs : list ifrec_t) (input : option bytes) (gas_limit : Z).

(** The function behind import [i]. *)
Definition callee (i : Z) : option (@host_fn W * bool) :=
  match aget (import_name m) i, aget (import_type m) i with
  | Ok name, Ok t =>
      match ak_host_fn_get reg name, aget (type_rcount m) t with
      | Some hf, Ok rcount => match hf_fn hf with Some fn => Some (fn, rcount =? 1) | None => None end
      | _, _ => None
      end
  | _, _ => None
  end.

Lemma callee_ok size i :
  wmod_ok reg size m -> 0 <= i < num_imports m ->
  exists name t hf fn rcount, aget (import_name m) i = Ok name /\ aget (import_type m) i = Ok t /\ ak_host_fn_get reg name = Some hf /\
    hf_async_capable hf = false /\ hf_fn hf = Some fn /\ aget (type_rcount m) t = Ok rcount /\ callee i = Some (fn, rcount =? 1).
Proof.
  intros Hm Hi. destruct (ok_import _ _ _ Hm i Hi) as [(t & Et & Ht) (name & En & hf & Eh & [fn Ef] & Ea)].
  destruct (ok_rcount _ _ _ Hm) as [L _]. pose proof (ok_types _ _ _ Hm). unfold IN_MAX_TYPES in *.
  destruct (aget_ok (type_rcount m) t ltac:(lia)) as (rc & Er & _). exists name, t, hf, fn, rc. split_and!; try done. unfold callee. by rewrite En, Et, Eh, Er, Ef.
Qed.

Definition at_pc (p : Z) (s : @st_t W) : vm_t := mk_vm p (st_gas s) (st_locals s) (st_stk s) (st_world s).

(** A machine step does what an evaluation says. *)
Definition agrees (p : Z) (e : @eff W) (o : @step_t W) : Prop :=
  match e with
  | ENext s => o = Next (at_pc p s)
  | EReturn s => exists p', o = Returns (at_pc p' s)
  | EStop y gas w => o = Stops (why_code y) gas w
  end.

Definition slots_ok (s : @st_t W) : Prop :=
  Forall is_u64 (st_stk s) /\ Forall is_u64 (st_locals s) /\ total_locals <= Z.of_nat (length (st_locals s)).

Lemma agrees_push p x v s : v = at_pc p s -> agrees p (push x s) (or_trap v (op_push (vm_stk v) x) (go v p)).
Proof. intros ->. unfold push. rewrite op_push_eq. cbn [at_pc vm_stk]. destruct (_ <=? _); reflexivity. Qed.

Lemma agrees_push_at p q x s : agrees p (push x s) (or_trap (at_pc q s) (op_push (st_stk s) x) (go (at_pc q s) p)).
Proof. unfold push. rewrite op_push_eq. destruct (_ <=? _); reflexivity. Qed.

Lemma local_ok s i : slots_ok s -> 0 <= i < total_locals -> aget (st_locals s) i = Ok (local s i) /\ is_u64 (local s i).
Proof.
  intros (_ & Hl & Hn) Hi. destruct (aget_ok (st_locals s) i ltac:(lia)) as (x & -> & Ex). unfold local.
  rewrite (nth_lookup_Some _ _ 0 x Ex). split; [done|]. exact (Forall_lookup_1 _ _ _ _ Hl Ex).
Qed.

Lemma imm_u32_nonneg p i p' : wf_bytes d -> 0 <= p -> p + 1 <= body_end -> body_end <= Z.of_nat (length d) -> imm d body_end rd_u32 p i p' -> 0 <= i.
Proof.
  intros Hw Hp Hl Hd (r & Er & _). pose proof (rd_u32_ok (mk_rd d body_end (p + 1))) as H. rewrite Er in H.
  destruct H as [[? _] _]; [split_and!; cbn; (done || lia)|done].
Qed.

Lemma call_agrees size p q i s :
  wmod_ok reg size m -> 0 <= i < num_imports m -> agrees p (call callee input i s) (host_call reg m input (at_pc q s) i p).
Proof.
  intros Hm Hi. destruct (callee_ok size i Hm Hi) as (name & t & hf & fn & rc & En & Et & Eh & _ & Ef & Er & Ec).
  unfold call, host_call. rewrite Ec. destruct (Z.leb_spec (num_imports m) i); [lia|]. rewrite En. cbn [or_fault]. rewrite Eh, Ef. cbn [at_pc vm_world].
  destruct (fn (st_world s) input) as [code w]. destruct (code <? 0); [done|]. rewrite Et. cbn [or_fault]. rewrite Er. cbn [or_fault].
  destruct (rc =? 1); [|done]. apply (agrees_push p (u64 code) _ (mk_st (st_gas s) (st_locals s) (st_stk s) w)). done.
Qed.

Lemma numeric_eqz w p q s :
  Forall is_u64 (st_stk s) -> agrees p (eval_op callee input (OEqz w) s) (or_trap (at_pc q s) (numeric (eqz_code w) (st_stk s)) (go (at_pc q s) p)).
Proof.
  intros Hs. unfold eval_op, pop. destruct (st_stk s) as [|x l] eqn:E; [by destruct w|]. apply Forall_cons in Hs as [Hx Hs].
  assert (En : numeric (eqz_code w) (x :: l) = op_push l (truth (x mod 2 ^ bits w =? 0))).
  { destruct w; [done|]. unfold is_u64 in Hx. change (2 ^ bits W64) with M64. rewrite Z.mod_small by lia. done. }
  rewrite En. unfold push. rewrite op_push_eq. cbn [set_stk st_stk]. destruct (_ <=? _); done.
Qed.

Lemma numeric_bin w b p q s :
  Forall is_u64 (st_stk s) -> agrees p (eval_op callee input (OBin w b) s) (or_trap (at_pc q s) (numeric (bin_code w b) (st_stk s)) (go (at_pc q s) p)).
Proof.
  intros Hs. unfold eval_op, pop.
  assert (En : numeric (bin_code w b) (st_stk s) = let* p := op_pop (st_stk s) in let* q := op_pop p.2 in
    match binop (bin_code w b) q.1 p.1 with Some v => op_push q.2 v | None => Null end) by (destruct w, b; reflexivity).
  rewrite En. clear En. destruct (st_stk s) as [|y l]; [done|]. apply Forall_cons in Hs as [Hy Hs].
  destruct l as [|x l]; [done|]. apply Forall_cons in Hs as [Hx Hs].
  change (op_pop (y :: x :: l)) with (Ret (y, x :: l)). cbn [obind fst snd]. change (op_pop (x :: l)) with (Ret (x, l)). cbn [obind fst snd set_stk st_stk].
  rewrite binop_correct by done.
  destruct (wasm_bop w b x y) as [v|]; [|done]. unfold push. rewrite op_push_eq. cbn [set_stk st_stk]. destruct (_ <=? _); done.
Qed.

(** The default branch of the interpreter is reached for the numeric opcodes. *)
Lemma exec_numeric c p v :
  (exists w, c = eqz_code w) \/ (exists w b, c = bin_code w b) ->
  exec_instr reg m d body_end total_locals rs input c p v = or_trap v (numeric c (vm_stk v)) (go v p).
Proof. intros [[w ->]|(w & b & ->)]; [by destruct w|by destruct w, b]. Qed.

Lemma exec_op size o p p' s c :
  wf_bytes d -> body_end <= Z.of_nat (length d) -> wmod_ok reg size m -> 0 <= p < body_end -> slots_ok s ->
  op_at d body_end total_locals (num_imports m) o p p' -> rd d p = Ret c ->
  agrees p' (eval_op callee input o s) (exec_instr reg m d body_end total_locals rs input c (p + 1) (at_pc p s)).
Proof.
  intros Hw Hlen Hm Hp Hs Ho Hc. pose proof Hs as (Hstk & Hloc & Hn).
  assert (Hnn : forall i, imm d body_end rd_u32 p i p' -> 0 <= i) by (intros i Hi; eapply imm_u32_nonneg; eauto; lia).
  destruct o as [| | | |[] x|i|i|i|i|w|w b]; cbn [op_at] in Ho; destruct Ho as [Ho Hi]; rewrite Ho in Hc; injection Hc as <-; try subst p'.
  - done.
  - done.
  - by exists p.
  - unfold exec_instr, eval_op, pop. cbn [Z.eqb Pos.eqb at_pc vm_stk]. destruct (st_stk s); done.
  - destruct Hi as (r & Er & <-). unfold exec_instr, eval_op. cbn [Z.eqb Pos.eqb]. rewrite Er. cbn [with_imm at_pc vm_stk]. apply agrees_push_at.
  - destruct Hi as (r & Er & <-). unfold exec_instr, eval_op. cbn [Z.eqb Pos.eqb]. rewrite Er. cbn [with_imm at_pc vm_stk]. apply agrees_push_at.
  - destruct Hi as [Hi Hb]. pose proof (Hnn i Hi) as H0. destruct Hi as (r & Er & <-). unfold exec_instr, eval_op. cbn [Z.eqb Pos.eqb]. rewrite Er.
    cbn [with_imm at_pc vm_stk vm_locals]. destruct (Z.leb_spec total_locals i); [lia|]. destruct (local_ok s i Hs ltac:(lia)) as [-> _]. cbn [or_fault]. apply agrees_push_at.
  - destruct Hi as [Hi Hb]. pose proof (Hnn i Hi) as H0. destruct Hi as (r & Er & <-). unfold exec_instr, eval_op, pop. cbn [Z.eqb Pos.eqb]. rewrite Er.
    cbn [with_imm at_pc vm_stk vm_locals]. destruct (Z.leb_spec total_locals i); [lia|]. destruct (st_stk s) as [|x l]; [done|]. rewrite op_pop_cons. cbn [or_trap fst snd].
    rewrite aset_ok by lia. done.
  - destruct Hi as [Hi Hb]. pose proof (Hnn i Hi) as H0. destruct Hi as (r & Er & <-). unfold exec_instr, eval_op, pop. cbn [Z.eqb Pos.eqb]. rewrite Er.
    cbn [with_imm at_pc vm_stk vm_locals]. destruct (Z.leb_spec total_locals i); [lia|]. destruct (st_stk s) as [|x l] eqn:E; [done|].
    change (sp (x :: l) =? 0) with false. cbn [orb atop or_fault fst snd].
    rewrite aset_ok by lia. done.
  - destruct Hi as [Hi Hb]. pose proof (Hnn i Hi) as H0. destruct Hi as (r & Er & <-). unfold exec_instr, eval_op. cbn [Z.eqb Pos.eqb]. rewrite Er.
    cbn [with_imm]. eapply call_agrees; [done|lia].
  - rewrite exec_numeric by eauto. by apply numeric_eqz.
  - rewrite exec_numeric by eauto. by apply numeric_bin.
Qed.

(** What evaluation preserves: the slots are 64-bit and operations use no gas. *)
Definition keeps (gas : Z) (e : @eff W) : Prop :=
  match e with
  | ENext s | EReturn s => slots_ok s /\ st_gas s = gas
  | EStop _ g _ => g = gas
  end.

Lemma keeps_push x s : slots_ok s -> is_u64 x -> keeps (st_gas s) (push x s).
Proof. intros (H1 & H2 & H3) Hx. unfold push. destruct (_ <=? _); [done|]. split; [|done]. split_and!; [by constructor|done..]. Qed.

Lemma keeps_pop s k : slots_ok s -> (forall x s', is_u64 x -> slots_ok s' -> st_gas s' = st_gas s -> keeps (st_gas s) (k x s')) -> keeps (st_gas s) (pop s k).
Proof.
  intros (H1 & H2 & H3) Hk. unfold pop. destruct (st_stk s) as [|x l] eqn:E; [done|]. apply Forall_cons in H1 as [Hx Hl].
  apply Hk; [done| |done]. by split_and!.
Qed.

Lemma slots_set_local s i x : slots_ok s -> is_u64 x -> slots_ok (set_local s i x).
Proof. intros (H1 & H2 & H3) Hx. split_and!; [done| |]; cbn [set_local st_locals]; [by apply Forall_insert|by rewrite length_insert]. Qed.

Lemma keeps_eval_op o s : slots_ok s -> keeps (st_gas s) (eval_op callee input o s).
Proof.
  intros Hs. destruct o as [| | | |w x|i|i|i|i|w|w b]; cbn [eval_op]; try done.
  - apply keeps_pop; [done|]. intros x s' _ Hs' Hg. by split.
  - apply keeps_push; [done|]. unfold is_u64. assert (0 < 2 ^ bits w <= M64) by (destruct w; done). pose proof (Z.mod_pos_bound x (2 ^ bits w)). lia.
  - apply keeps_push; [done|]. unfold local. destruct (nth_in_or_default (Z.to_nat i) (st_locals s) 0) as [Hin| ->]; [|unfold is_u64; lia].
    destruct Hs as (_ & Hl & _). rewrite List.Forall_forall in Hl. by apply Hl.
  - apply keeps_pop; [done|]. intros x s' Hx Hs' Hg. split; [by apply slots_set_local|done].
  - apply keeps_pop; [done|]. intros x s' Hx Hs' Hg. split; [|done]. destruct (slots_set_local s' i x Hs' Hx) as (A & B' & C). split_and!; [|done|done].
    cbn [set_stk st_stk]. by constructor.
  - unfold call. destruct (callee i) as [[fn returns]|]; [|done]. destruct (fn (st_world s) input) as [rc w]. destruct (rc <? 0); [done|].
    destruct returns; [|by split]. apply (keeps_push (u64 rc) (mk_st (st_gas s) (st_locals s) (st_stk s) w)); [done|]. unfold is_u64, u64. apply Z.mod_pos_bound. lia.
  - apply keeps_pop; [done|]. intros x s' _ Hs' <-. apply keeps_push; [done|apply truth_u64].
  - apply keeps_pop; [done|]. intros y s' _ Hs' <-. apply keeps_pop; [done|]. intros x s2 _ Hs2 <-.
    destruct (wasm_bop w b x y) eqn:E; [|done]. apply keeps_push; [done|]. by eapply wasm_bop_u64.
Qed.

(** ** Code *)

(** Evaluating code from [p] to [p'] uses at most [p' - p] units of gas. *)
Definition spends (s : @st_t W) (n : Z) (e : @eff W) : Prop :=
  match e with
  | ENext s' | EReturn s' => slots_ok s' /\ st_gas s <= st_gas s' <= st_gas s + n
  | EStop _ g _ => st_gas s <= g <= st_gas s + n
  end.

Lemma code_at_le c p p' : code_at d body_end total_locals (num_imports m) rs c p p' -> p <= p'.
Proof. induction 1; lia. Qed.

Lemma spends_then s e k n n' :
  spends s n e -> 0 <= n' -> (forall s', slots_ok s' -> st_gas s <= st_gas s' <= st_gas s + n -> spends s' n' (k s')) -> spends s (n + n') (then_ e k).
Proof.
  intros He Hn Hk. destruct e as [s'|s'|y g w]; cbn [then_ spends] in *; [|destruct He; split; [done|lia]|lia].
  destruct He as [Hs Hg]. specialize (Hk s' Hs Hg). destruct (k s'); cbn [spends] in *; [destruct Hk; split; [done|lia]..|lia].
Qed.

Lemma spends_weaken s e n n' : spends s n e -> n <= n' -> spends s n' e.
Proof. destruct e; cbn [spends]; intros H Hn; [destruct H; split; [done|lia]..|lia]. Qed.

Lemma spends_tick s : slots_ok s -> spends s 1 (tick gas_limit s).
Proof. intros Hs. unfold tick. destruct (_ <? _); cbn; [lia|]. split; [done|lia]. Qed.

Lemma spends_pop s k n : slots_ok s -> 0 <= n -> (forall x s', slots_ok s' -> st_gas s' = st_gas s -> spends s' n (k x s')) -> spends s n (pop s k).
Proof.
  intros (H1 & H2 & H3) Hn Hk. unfold pop. destruct (st_stk s) as [|x l] eqn:E; [cbn; lia|]. apply Forall_cons in H1 as [Hx Hl].
  specialize (Hk x (set_stk s l)). destruct (k x (set_stk s l)); cbn [spends set_stk st_gas] in *; apply Hk; try done; by split_and!.
Qed.

Lemma spends_op o s : slots_ok s -> spends s 0 (eval_op callee input o s).
Proof. intros Hs. pose proof (keeps_eval_op o s Hs) as H. destruct (eval_op callee input o s); cbn [keeps spends] in *; [destruct H; split; [done|lia]..|lia]. Qed.

Lemma eval_spends c p p' s :
  code_at d body_end total_locals (num_imports m) rs c p p' -> slots_ok s -> spends s (p' - p) (eval callee input gas_limit c s).
Proof.
  intros Hc. revert s. induction Hc as [p|o k p p1 p' Ho Hp Hk IH|t k p p1 p' H1 Ht IHt H2 H3 Hk IHk|t e k p p1 p2 p' H1 Ht IHt H2 He IHe H3 H4 Hk IHk]; intros s Hs; cbn [eval].
  - cbn. split; [done|lia].
  - pose proof (code_at_le _ _ _ Hk). apply (spends_weaken s _ (1 + (0 + (p' - p1)))); [|lia]. apply spends_then; [by apply spends_tick|lia|]. intros s1 Hs1 _.
    apply spends_then; [by apply spends_op|lia|]. auto.
  - pose proof (code_at_le _ _ _ Hk). pose proof (code_at_le _ _ _ Ht). apply (spends_weaken s _ (1 + (p' - p - 1))); [|lia].
    apply spends_then; [by apply spends_tick|lia|]. intros s1 Hs1 _. apply spends_pop; [done|lia|]. intros x s2 Hs2 _. destruct (u32 x =? 0).
    + eapply spends_weaken; [by apply IHk|lia].
    + eapply spends_weaken; [apply (spends_then s2 _ _ ((p1 - (p + 2)) + 1) (p' - (p1 + 1))); [|lia|auto]|lia].
      apply spends_then; [by apply IHt|lia|]. intros. by apply spends_tick.
  - pose proof (code_at_le _ _ _ Hk). pose proof (code_at_le _ _ _ Ht). pose proof (code_at_le _ _ _ He). apply (spends_weaken s _ (1 + (p' - p - 1))); [|lia].
    apply spends_then; [by apply spends_tick|lia|]. intros s1 Hs1 _. apply spends_pop; [done|lia|]. intros x s2 Hs2 _.
    eapply spends_weaken; [apply (spends_then s2 _ _ ((p2 - (p + 2)) + 1) (p' - (p2 + 1))); [|lia|auto]|lia].
    apply spends_then; [|lia|intros; by apply spends_tick]. destruct (u32 x =? 0); (eapply spends_weaken; [auto|lia]).
Qed.

(** ** The loop runs the code *)

Abbreviation step := (exec_step reg m d body_end func_end total_locals rs input gas_limit).
Abbreviation loop := (fun fuel v => exec_loop reg fuel m d body_end func_end total_locals rs input gas_limit v).

(** From [p] the loop does what [e] says, in at most [p' - p] iterations, and goes on at [p']. *)
Definition leads (p : Z) (s : @st_t W) (p' : Z) (e : @eff W) : Prop :=
  exists k : nat, Z.of_nat k <= p' - p /\ forall fuel,
    match e with
    | ENext s' => loop (k + fuel)%nat (at_pc p s) = loop fuel (at_pc p' s')
    | EReturn s' => exists q, loop (k + fuel)%nat (at_pc p s) = Returns (at_pc q s')
    | EStop y g w => loop (k + fuel)%nat (at_pc p s) = Stops (why_code y) g w
    end.

Lemma leads_refl p s : leads p s p (ENext s).
Proof. exists O. split; [lia|done]. Qed.

Lemma leads_step p s p' e : p < p' -> agrees p' e (step (at_pc p s)) -> leads p s p' e.
Proof.
  intros Hp Ha. exists 1%nat. split; [lia|]. intros fuel. cbn [Nat.add exec_loop].
  destruct e as [s'|s'|y g w]; cbn [agrees] in Ha; [by rewrite Ha| |by rewrite Ha]. destruct Ha as [q ->]. by exists q.
Qed.

Lemma leads_then p s p1 p' e k :
  leads p s p1 e -> p1 <= p' -> (forall s', e = ENext s' -> leads p1 s' p' (k s')) -> leads p s p' (then_ e k).
Proof.
  intros (n & Hn & He) Hp Hk. destruct e as [s'|s'|y g w]; cbn [then_]; [|by exists n; split; [lia|]..].
  destruct (Hk s' eq_refl) as (n' & Hn' & He'). exists (n + n')%nat. split; [lia|]. intros fuel. specialize (He (n' + fuel)%nat). specialize (He' fuel).
  rewrite <-Nat.add_assoc. by rewrite He.
Qed.

(** A step that fetches opcode [c]. *)
Lemma step_fetch p (s : @st_t W) c :
  p < func_end -> func_end < body_end -> st_gas s + 1 < M64 -> 0 <= st_gas s -> rd d p = Ret c ->
  step (at_pc p s) =
  if gas_limit <? st_gas s + 1 then Stops AK_E_WASM_TIMEOUT (st_gas s + 1) (st_world s)
  else exec_instr reg m d body_end total_locals rs input c (p + 1) (at_pc p (mk_st (st_gas s + 1) (st_locals s) (st_stk s) (st_world s))).
Proof.
  intros Hp Hf Hg Hg0 Hc. unfold exec_step. cbn [at_pc vm_pc vm_gas vm_world]. destruct (Z.leb_spec body_end p); [lia|]. destruct (Z.eqb_spec p func_end); [lia|]. cbn [orb].
  unfold u64. rewrite Z.mod_small by lia. by rewrite Hc.
Qed.

Lemma tick_cases (s : @st_t W) :
  (gas_limit < st_gas s + 1 /\ tick gas_limit s = EStop OutOfGas (st_gas s + 1) (st_world s)) \/
  (st_gas s + 1 <= gas_limit /\ tick gas_limit s = ENext (mk_st (st_gas s + 1) (st_locals s) (st_stk s) (st_world s))).
Proof. unfold tick. destruct (Z.ltb_spec gas_limit (st_gas s + 1)); [left|right]; done. Qed.

(** An operation with its gas. *)
Lemma leads_op size o p p1 s :
  wf_bytes d -> body_end <= Z.of_nat (length d) -> wmod_ok reg size m -> 0 <= p -> p1 <= func_end -> func_end < body_end -> slots_ok s ->
  0 <= st_gas s -> st_gas s + 1 < M64 -> op_at d body_end total_locals (num_imports m) o p p1 -> p < p1 ->
  leads p s p1 (then_ (tick gas_limit s) (eval_op callee input o)).
Proof.
  intros Hw Hlen Hm Hp Hp1 Hf Hs Hg0 Hg Ho Hlt.
  assert (exists c, rd d p = Ret c) as [c Hc] by (destruct o as [| | | |[] x|i|i|i|i|w|w b]; cbn [op_at] in Ho; destruct Ho; eauto).
  apply leads_step; [done|]. rewrite (step_fetch p s c) by (done || lia). destruct (tick_cases s) as [[Hl ->]|[Hl ->]]; cbn [then_].
  - destruct (Z.ltb_spec gas_limit (st_gas s + 1)); [done|lia].
  - destruct (Z.ltb_spec gas_limit (st_gas s + 1)); [lia|]. eapply (exec_op size); try done. lia.
Qed.

(** A token that only moves the program counter. *)
Lemma leads_jump p q (s : @st_t W) c :
  p < func_end -> func_end < body_end -> p < q -> 0 <= st_gas s -> st_gas s + 1 < M64 -> rd d p = Ret c ->
  (forall s : @st_t W, exec_instr reg m d body_end total_locals rs input c (p + 1) (at_pc p s) = Next (at_pc q s)) ->
  leads p s q (tick gas_limit s).
Proof.
  intros Hp Hf Hq Hg0 Hg Hc Hj. apply leads_step; [done|]. rewrite (step_fetch p s c) by (done || lia).
  destruct (tick_cases s) as [[Hl ->]|[Hl ->]]; (destruct (Z.ltb_spec gas_limit (st_gas s + 1)); [|]); try lia; [done|]. apply Hj.
Qed.

(** The jump table answers for its conditionals. *)
Definition table_functional : Prop :=
  (forall c1 c2, c1 ∈ rs -> c2 ∈ rs -> if_off c1 = if_off c2 -> c1 = c2) /\
  (forall c1 c2, c1 ∈ rs -> c2 ∈ rs -> else_off c1 = else_off c2 -> else_off c1 <> 0 -> c1 = c2).

Lemma find_from_ok f (l : list ifrec_t) c i :
  c ∈ l -> (forall c', c' ∈ l -> f c' = f c -> c' = c) -> exists n, find_from f l (f c) i = i + Z.of_nat n /\ l !! n = Some c.
Proof.
  revert i. induction l as [|x l IH]; intros i Hc Hu; [by apply elem_of_nil in Hc|]. cbn [find_from]. destruct (Z.eqb_spec (f x) (f c)) as [E|E].
  - exists O. split; [lia|]. cbn. by rewrite (Hu x (list_elem_of_here x l) E).
  - apply elem_of_cons in Hc as [->|Hc]; [done|]. destruct (IH (i + 1) Hc) as (n & -> & Hn).
    + intros c' Hc' E'. apply Hu; [by apply list_elem_of_further|done].
    + exists (S n). split; [lia|done].
Qed.

Lemma find_if c : table_functional -> c ∈ rs -> exists i, find_rec_by_if rs (if_off c) = i /\ 0 <= i /\ aget rs i = Ok c.
Proof.
  intros [Hf _] Hc. destruct (find_from_ok if_off rs c 0 Hc) as (n & E & Hn); [intros; by apply Hf|]. eexists. split; [exact E|]. split; [lia|].
  unfold aget. destruct (Z.ltb_spec (0 + Z.of_nat n) 0); [lia|]. by rewrite Z.add_0_l, Nat2Z.id, Hn.
Qed.

Lemma find_else c : table_functional -> c ∈ rs -> else_off c <> 0 -> exists i, find_rec_by_else rs (else_off c) = i /\ 0 <= i /\ aget rs i = Ok c.
Proof.
  intros [_ Hf] Hc Hn0. destruct (find_from_ok else_off rs c 0 Hc) as (n & E & Hn); [intros c' ? E; apply Hf; [done|done|done|congruence]|].
  eexists. split; [exact E|]. split; [lia|]. unfold aget. destruct (Z.ltb_spec (0 + Z.of_nat n) 0); [lia|]. by rewrite Z.add_0_l, Nat2Z.id, Hn.
Qed.

(** Where an [if] goes. *)
Lemma leads_if c s p' (k : Z -> @st_t W -> @eff W) :
  let p := if_off c in
  let past_then := if negb (else_off c =? 0) then else_off c + 1 else end_off c + 1 in
  table_functional -> c ∈ rs -> p < func_end -> func_end < body_end -> 0 <= st_gas s -> st_gas s + 1 < M64 -> rd d p = Ret 0x04 ->
  p + 2 <= p' -> p < past_then <= p' ->
  (forall x l s', st_stk s = x :: l -> s' = mk_st (st_gas s + 1) (st_locals s) l (st_world s) ->
     leads (if u32 x =? 0 then past_then else p + 2) s' p' (k x s')) ->
  leads p s p' (then_ (tick gas_limit s) (fun s => pop s k)).
Proof.
  intros p past_then Ht Hc Hp Hf Hg0 Hg Hr Hp2 Hpt Hk. destruct (find_if c Ht Hc) as (i & Ei & Hi & Ea).
  pose proof (step_fetch p s 0x04 Hp Hf Hg Hg0 Hr) as Hstep. destruct (tick_cases s) as [[Hl E]|[Hl E]]; rewrite E; cbn [then_].
  - apply leads_step; [lia|]. rewrite Hstep. destruct (Z.ltb_spec gas_limit (st_gas s + 1)); [done|lia].
  - destruct (Z.ltb_spec gas_limit (st_gas s + 1)); [lia|]. unfold pop. cbn [st_stk]. destruct (st_stk s) as [|x l] eqn:Es.
    + apply leads_step; [lia|]. rewrite Hstep. done.
    + specialize (Hk x l _ eq_refl eq_refl). set (s' := mk_st (st_gas s + 1) (st_locals s) l (st_world s)) in *. unfold set_stk. cbn [st_gas st_locals st_world]. fold s'.
      change (k x s') with (then_ (ENext s') (k x)). eapply leads_then; [apply (leads_step p s (if u32 x =? 0 then past_then else p + 2) (ENext s'))| |].
      * destruct (u32 x =? 0); lia.
      * rewrite Hstep. unfold exec_instr. cbn [Z.eqb Pos.eqb at_pc vm_stk st_stk]. rewrite op_pop_cons. cbn [or_trap fst snd].
        replace (p + 1 + 1 - 2) with p by lia. subst p. rewrite Ei. destruct (u32 x =? 0); cbn [negb].
        -- destruct (Z.ltb_spec i 0); [lia|]. rewrite Ea. reflexivity.
        -- replace (if_off c + 1 + 1) with (if_off c + 2) by lia. reflexivity.
      * destruct (u32 x =? 0); lia.
      * intros s2 [= <-]. done.
Qed.

Lemma then_assoc (a : @eff W) f g : then_ (then_ a f) g = then_ a (fun x => then_ (f x) g).
Proof. by destruct a. Qed.

(** What is left of the bounds after a part of the code. *)
Lemma spends_next s n e s' : spends s n e -> e = ENext s' -> slots_ok s' /\ st_gas s <= st_gas s' <= st_gas s + n.
Proof. by intros H ->. Qed.

Lemma leads_end p s : p + 1 <= func_end -> func_end < body_end -> 0 <= st_gas s -> st_gas s + 1 < M64 -> rd d p = Ret 0x0B -> leads p s (p + 1) (tick gas_limit s).
Proof. intros. eapply leads_jump; try done; lia. Qed.

Lemma leads_else c s :
  let p := else_off c in
  table_functional -> c ∈ rs -> p <> 0 -> p < end_off c -> end_off c + 1 <= func_end -> func_end < body_end -> 0 <= st_gas s -> st_gas s + 1 < M64 ->
  rd d p = Ret 0x05 -> leads p s (end_off c + 1) (tick gas_limit s).
Proof.
  intros p Ht Hc Hp0 Hpe Hf Hfb Hg0 Hg Hr. destruct (find_else c Ht Hc Hp0) as (i & Ei & Hi & Ea).
  eapply (leads_jump p); try done; [lia..|]. intros s0. unfold exec_instr. cbn [Z.eqb Pos.eqb at_pc vm_stk]. replace (p + 1 - 1) with p by lia. subst p. rewrite Ei.
  destruct (Z.ltb_spec i 0); [lia|]. by rewrite Ea.
Qed.

(** A branch, the token behind it, and the rest. *)
Lemma leads_branch s p1 q q' p' (e : @eff W) k n :
  leads p1 s q e -> spends s n e -> slots_ok s -> q < q' <= p' ->
  (forall s', slots_ok s' -> st_gas s <= st_gas s' <= st_gas s + n -> leads q s' q' (tick gas_limit s')) ->
  (forall s', slots_ok s' -> st_gas s <= st_gas s' <= st_gas s + n + 1 -> leads q' s' p' (k s')) ->
  leads p1 s p' (then_ (then_ e (tick gas_limit)) k).
Proof.
  intros He Hn Hs Hq Ht Hk. assert (H1 : spends s (n + 1) (then_ e (tick gas_limit))).
  { apply spends_then; [done|lia|]. intros. by apply spends_tick. }
  eapply (leads_then _ _ q'); [eapply (leads_then _ _ q); [done|lia|]|lia|].
  - intros s' ->. destruct Hn. by apply Ht.
  - intros s' E. destruct (spends_next _ _ _ _ H1 E) as [? ?]. apply Hk; [done|lia].
Qed.

Lemma code_leads size c p p' s :
  wf_bytes d -> body_end <= Z.of_nat (length d) -> wmod_ok reg size m -> table_functional -> func_end < body_end ->
  code_at d body_end total_locals (num_imports m) rs c p p' -> 0 <= p -> p' <= func_end -> slots_ok s -> 0 <= st_gas s -> st_gas s + (p' - p) < M64 ->
  leads p s p' (eval callee input gas_limit c s).
Proof.
  intros Hw Hlen Hm Htab Hfb Hc. revert s.
  induction Hc as [p|o k p p1 p' Ho Hp Hk IH|t k p p1 p' H1 Ht IHt H2 H3 Hk IHk|t e k p p1 p2 p' H1 Ht IHt H2 He IHe H3 H4 Hk IHk]; intros s Hp0 Hp' Hs Hg0 Hg; cbn [eval].
  - apply leads_refl.
  - pose proof (code_at_le _ _ _ Hk). rewrite <-then_assoc.
    assert (Hsp : spends s 1 (then_ (tick gas_limit s) (eval_op callee input o))).
    { apply (spends_then s _ _ 1 0); [by apply spends_tick|lia|]. intros. by apply spends_op. }
    eapply leads_then; [eapply (leads_op size o p p1); (done || lia)|lia|]. intros s' E. destruct (spends_next _ _ _ _ Hsp E) as [? ?]. apply IH; (done || lia).
  - pose proof (code_at_le _ _ _ Hk). pose proof (code_at_le _ _ _ Ht).
    apply (leads_if (mk_ifrec p 0 p1)); cbn [if_off else_off end_off Z.eqb negb]; try (done || lia). intros x l s' Es ->.
    assert (Hs' : slots_ok (mk_st (st_gas s + 1) (st_locals s) l (st_world s))).
    { destruct Hs as (A & B' & C). rewrite Es in A. apply Forall_cons in A as [_ A]. by split_and!. }
    destruct (u32 x =? 0); [apply IHk; cbn [st_gas]; (done || lia)|].
    eapply (leads_branch _ _ p1 (p1 + 1)); [apply IHt; cbn [st_gas]; (done || lia)|by eapply eval_spends|done|lia| |].
    + cbn [st_gas]. intros s2 Hs2 Hg2. apply leads_end; (done || lia).
    + cbn [st_gas]. intros s2 Hs2 Hg2. apply IHk; (done || lia).
  - pose proof (code_at_le _ _ _ Hk). pose proof (code_at_le _ _ _ Ht). pose proof (code_at_le _ _ _ He).
    assert (Hnz : negb (p1 =? 0) = true) by (destruct (Z.eqb_spec p1 0); [lia|done]).
    apply (leads_if (mk_ifrec p p1 p2)); cbn [if_off else_off end_off]; rewrite ?Hnz; try (done || lia). intros x l s' Es ->.
    assert (Hs' : slots_ok (mk_st (st_gas s + 1) (st_locals s) l (st_world s))).
    { destruct Hs as (A & B' & C). rewrite Es in A. apply Forall_cons in A as [_ A]. by split_and!. }
    destruct (u32 x =? 0).
    + eapply (leads_branch _ _ p2 (p2 + 1)); [apply IHe; cbn [st_gas]; (done || lia)|by eapply eval_spends|done|lia| |]; cbn [st_gas]; intros s2 Hs2 Hg2.
      * apply leads_end; (done || lia).
      * apply IHk; (done || lia).
    + eapply (leads_branch _ _ p1 (p2 + 1)); [apply IHt; cbn [st_gas]; (done || lia)|by eapply eval_spends|done|lia| |]; cbn [st_gas]; intros s2 Hs2 Hg2.
      * apply (leads_else (mk_ifrec p p1 p2)); cbn [else_off end_off]; (done || lia).
      * apply IHk; (done || lia).
Qed.

(** The whole body. *)
Lemma exec_body_eval size c instr_start result_count locals w :
  wf_bytes d -> body_end <= Z.of_nat (length d) -> Z.of_nat (length d) < M64 -> wmod_ok reg size m -> table_functional -> func_end < body_end -> 0 <= instr_start ->
  code_at d body_end total_locals (num_imports m) rs c instr_start func_end ->
  Forall is_u64 locals -> total_locals <= Z.of_nat (length locals) ->
  exec_body reg m d body_end instr_start func_end total_locals result_count rs locals input gas_limit w =
  Some (result_of result_count (eval callee input gas_limit c (mk_st 0 locals [] w))).
Proof.
  intros Hw Hlen Hd Hm Htab Hfb Hi Hc Hl Hn. set (s0 := mk_st 0 locals [] w).
  assert (Hs0 : slots_ok s0) by (split_and!; [constructor|done|done]).
  destruct (code_leads size c instr_start func_end s0) as (k & Hk & Hrun); try done; [cbn [s0 st_gas]; lia|].
  unfold exec_body. replace (S (length d)) with (k + (S (length d) - k))%nat by lia. specialize (Hrun (S (length d) - k)%nat).
  change (mk_vm instr_start 0 locals [] w) with (at_pc instr_start s0). destruct (eval callee input gas_limit c s0) as [s'|s'|y g w'].
  - rewrite Hrun. replace (S (length d) - k)%nat with (S (length d - k)) by lia. cbn [exec_loop]. unfold exec_step. cbn [at_pc vm_pc]. rewrite Z.eqb_refl, orb_true_r.
    unfold finish, result_of. cbn [at_pc vm_stk vm_gas vm_world]. destruct (result_count =? 1); [|done]. by destruct (st_stk s').
  - destruct Hrun as [q ->]. unfold finish, result_of. cbn [at_pc vm_stk vm_gas vm_world]. destruct (result_count =? 1); [|done]. by destruct (st_stk s').
  - rewrite Hrun. done.
Qed.

End Simulation.
