(* ===== verification/WasmValid.v ===== *)
(** * Validation of WASM bodies and the theorems about the interpreter

    What [validate_body] accepts is structured code with a functional jump
    table, so that [ak_wasm_interp_run] has the meaning of [WasmSem]; from it
    follow safety on arbitrary bytes, the gas bound, completion of typed code
    and confinement to the registered host functions. *)

From S2P Require Import Prelude WasmParse WasmExec WasmSem.
Open Scope ak_scope.

(** ** Opcodes *)

Lemma numeric_opcode c : is_supported_numeric c = true -> (exists w, c = eqz_code w) \/ (exists w b, c = bin_code w b).
Proof.
  intros (x & Hx & ->%Z.eqb_eq)%existsb_exists. cbn [In] in Hx.
  repeat destruct Hx as [<-|Hx]; [..|done];
    first [left; exists W32; reflexivity|left; exists W64; reflexivity|right].
  all: first
    [ exists W32, Eq; reflexivity | exists W32, Ne; reflexivity | exists W32, LtS; reflexivity | exists W32, LtU; reflexivity | exists W32, GtS; reflexivity
    | exists W32, GtU; reflexivity | exists W64, Eq; reflexivity | exists W64, Ne; reflexivity | exists W64, LtS; reflexivity | exists W64, LtU; reflexivity
    | exists W64, GtS; reflexivity | exists W64, GtU; reflexivity | exists W32, Add; reflexivity | exists W32, Sub; reflexivity | exists W32, Mul; reflexivity
    | exists W32, DivU; reflexivity | exists W32, And; reflexivity | exists W32, Or; reflexivity | exists W32, Xor; reflexivity | exists W32, Shl; reflexivity
    | exists W32, ShrU; reflexivity | exists W64, Add; reflexivity | exists W64, Sub; reflexivity | exists W64, Mul; reflexivity | exists W64, DivU; reflexivity
    | exists W64, And; reflexivity | exists W64, Or; reflexivity | exists W64, Xor; reflexivity | exists W64, Shl; reflexivity | exists W64, ShrU; reflexivity ].
Qed.

Section Valid.
Context (m : wmod_t) (d : bytes) (lim total_locals : Z).
Context (Hw : wf_bytes d) (Hlim : lim <= Z.of_nat (length d)).

Abbreviation op_at' := (op_at d lim total_locals (num_imports m)).
Abbreviation code_at' := (code_at d lim total_locals (num_imports m)).

(** What one iteration of the scan accepts, with the opcode at [p]. *)
Inductive accepts (p : Z) (s : scan_t) : scanned -> Prop :=
| acc_op o p' : op_at' o p p' -> p < p' <= lim -> accepts p s (Scan s (mk_rd d lim p'))
| acc_if : rd d p = Ret 0x04 -> p + 2 <= lim -> accepts p s (Scan (mk_scan (recs s ++ [mk_ifrec p 0 0]) (nrec s :: ctrl s)) (mk_rd d lim (p + 2)))
| acc_else top open c : rd d p = Ret 0x05 -> ctrl s = top :: open -> aget (recs s) top = Ok c -> else_off c = 0 ->
    accepts p s (Scan (mk_scan (<[Z.to_nat top := mk_ifrec (if_off c) p (end_off c)]> (recs s)) (ctrl s)) (mk_rd d lim (p + 1)))
| acc_end top open c : rd d p = Ret 0x0B -> ctrl s = top :: open -> aget (recs s) top = Ok c ->
    accepts p s (Scan (mk_scan (<[Z.to_nat top := mk_ifrec (if_off c) (else_off c) p]> (recs s)) open) (mk_rd d lim (p + 1)))
| acc_final : rd d p = Ret 0x0B -> ctrl s = [] -> p + 1 = lim -> accepts p s (Final s p).

Lemma reads_pos P p o x r : reads_num P (mk_rd d lim p) o -> o = Ret (x, r) -> r = mk_rd d lim (rd_pos r) /\ p < rd_pos r <= lim.
Proof. intros H ->. destruct H as [_ [(E1 & E2 & E3) E4]]. cbn [fst snd rd_data rd_len rd_pos] in *. destruct r as [a b c]. cbn in *. subst. split; [done|lia]. Qed.

Lemma cur_at p : 0 <= p <= lim -> cur_ok (mk_rd d lim p).
Proof. intros. split_and!; cbn; (done || lia). Qed.

Lemma aset_inv {A} (l l' : list A) i x : aset l i x = Ok l' -> l' = <[Z.to_nat i := x]> l.
Proof. unfold aset. destruct (_ && _); [|done]. by intros [= <-]. Qed.

Lemma aput_inv {A} cap (l l' : list A) x : aput cap l x = Ok l' -> l' = l ++ [x].
Proof. unfold aput. destruct (_ <? _); [|done]. by intros [= <-]. Qed.
Lemma apush_inv {A} cap (l l' : list A) x : apush cap l x = Ok l' -> l' = x :: l.
Proof. unfold apush. destruct (_ <? _); [|done]. by intros [= <-]. Qed.

(** An immediate read by the scan. *)
Lemma imm_inv P f e p (k : Z * rd_t -> res scanned) x :
  0 <= p -> p + 1 <= lim -> (forall r, cur_ok r -> reads_num P r (f r)) ->
  rbind (or_fail e (f (mk_rd d lim (p + 1)))) k = Ok x ->
  exists i p', imm d lim f p i p' /\ p + 1 < p' <= lim /\ k (i, mk_rd d lim p') = Ok x.
Proof.
  intros Hp Hl Hf H. specialize (Hf _ (cur_at (p + 1) ltac:(lia))). destruct (f (mk_rd d lim (p + 1))) as [[i r]| |] eqn:E; try done. cbn [or_fail rbind] in H.
  destruct (reads_pos _ _ _ _ _ Hf eq_refl) as [Er Hr]. rewrite Er in H. exists i, (rd_pos r). split; [by exists r|]. split; [lia|done].
Qed.

Lemma validate_instr_inv p c s x :
  0 <= p -> p + 1 <= lim -> rd d p = Ret c -> validate_instr m total_locals lim p c s (mk_rd d lim (p + 1)) = Ok x -> accepts p s x.
Proof.
  intros Hp Hl Hc H. unfold validate_instr in H.
  destruct ((c =? 0) || (c =? 1) || (c =? 15) || (c =? 26)) eqn:E1.
  { injection H as <-. apply orb_true_iff in E1 as [E1|E%Z.eqb_eq]; [|apply (acc_op p s ODrop); [by subst|lia]].
    apply orb_true_iff in E1 as [E1|E%Z.eqb_eq]; [|apply (acc_op p s OReturn); [by subst|lia]].
    apply orb_true_iff in E1 as [E%Z.eqb_eq|E%Z.eqb_eq]; [apply (acc_op p s OUnreachable)|apply (acc_op p s ONop)]; (by subst) || lia. }
  clear E1. destruct (Z.eqb_spec c 0x41) as [->|_].
  { apply (imm_inv _ _ _ _ _ _ Hp Hl rd_s32_ok) in H as (i & p' & Hi & Hr & [= <-]). by apply (acc_op p s (OConst W32 i)); [|lia]. }
  destruct (Z.eqb_spec c 0x42) as [->|_].
  { apply (imm_inv _ _ _ _ _ _ Hp Hl rd_s64_ok) in H as (i & p' & Hi & Hr & [= <-]). by apply (acc_op p s (OConst W64 i)); [|lia]. }
  destruct ((c =? 0x20) || (c =? 0x21) || (c =? 0x22)) eqn:E2.
  { apply (imm_inv _ _ _ _ _ _ Hp Hl rd_u32_ok) in H as (i & p' & Hi & Hr & H). destruct (Z.leb_spec total_locals i); [done|]. injection H as <-.
    apply orb_true_iff in E2 as [E2|E%Z.eqb_eq]; [apply orb_true_iff in E2 as [E%Z.eqb_eq|E%Z.eqb_eq]|]; subst c.
    - apply (acc_op p s (OGet i)); [|lia]. by split_and!.
    - apply (acc_op p s (OSet i)); [|lia]. by split_and!.
    - apply (acc_op p s (OTee i)); [|lia]. by split_and!. }
  clear E2. destruct (Z.eqb_spec c 0x10) as [->|_].
  { apply (imm_inv _ _ _ _ _ _ Hp Hl rd_u32_ok) in H as (i & p' & Hi & Hr & H). destruct (Z.leb_spec (num_imports m) i); [done|]. injection H as <-.
    apply (acc_op p s (OCall i)); [|lia]. by split_and!. }
  destruct (Z.eqb_spec c 0x04) as [->|_].
  { unfold read_blocktype in H. pose proof (rd_byte_ok _ (cur_at (p + 1) ltac:(lia))) as Hb. destruct (rd_byte _) as [[bt r]| |]; try done. cbn [or_fail rbind] in H.
    destruct (_ || _); [|done]. cbn [rbind] in H. destruct (_ || _); [done|].
    destruct (aput _ _ _) as [rs| |] eqn:El; try done. apply aput_inv in El as ->. destruct (apush _ _ _) as [ct| |] eqn:Ec; try done. apply apush_inv in Ec as ->. cbn [rbind] in H.
    injection H as <-. destruct Hb as (_ & [(E3 & E4 & E5) _] & E6).
    cbn [fst snd rd_data rd_len rd_pos] in *. destruct r as [a b q]. cbn in *. subst. replace (p + 1 + 1) with (p + 2) in * by lia. apply acc_if; [done|lia]. }
  destruct (Z.eqb_spec c 0x05) as [->|_].
  { unfold csp in H. destruct (ctrl s) as [|top open] eqn:Ec; [done|]. cbn [atop rbind] in H. destruct (aget (recs s) top) as [c| |] eqn:Ea; try done. cbn [rbind] in H.
    destruct (Z.eqb_spec (else_off c) 0); [|done]. cbn [negb] in H. destruct (aset _ _ _) as [l| |] eqn:El; try done. apply aset_inv in El as ->. cbn [rbind] in H.
    injection H as <-. rewrite <-Ec. by eapply acc_else. }
  destruct (Z.eqb_spec c 0x0B) as [->|_].
  { unfold csp in H. destruct (ctrl s) as [|top open] eqn:Ec.
    - cbn [rd_pos] in H. destruct (Z.eqb_spec (p + 1) lim); [|done]. injection H as <-. by apply acc_final.
    - cbn [atop rbind] in H. destruct (aget (recs s) top) as [c| |] eqn:Ea; try done. cbn [rbind] in H. destruct (aset _ _ _) as [l| |] eqn:El; try done. apply aset_inv in El as ->. cbn [rbind] in H.
      injection H as <-. by eapply acc_end. }
  destruct (is_supported_numeric c) eqn:En; [|done]. injection H as <-. destruct (numeric_opcode c En) as [[w ->]|(w & b & ->)].
  - apply (acc_op p s (OEqz w)); [by split|lia].
  - apply (acc_op p s (OBin w b)); [by split|lia].
Qed.

(** ** The records *)

Record scan_ok (s : scan_t) (pos : Z) : Prop := {
  so_ctrl : Forall (fun i => 0 <= i < nrec s) (ctrl s);
  so_nodup : NoDup (ctrl s);
  so_range : Forall (fun c => 0 <= if_off c < pos /\ 0 <= else_off c < pos) (recs s);
  so_if : forall i j c c', recs s !! i = Some c -> recs s !! j = Some c' -> if_off c = if_off c' -> i = j;
  so_else : forall i j c c', recs s !! i = Some c -> recs s !! j = Some c' -> else_off c = else_off c' -> else_off c <> 0 -> i = j }.

Lemma scan_ok_start pos : scan_ok (mk_scan [] []) pos.
Proof. constructor; cbn [recs ctrl]; try constructor; intros; by rewrite lookup_nil in *. Qed.

Lemma scan_ok_mono s pos pos' : scan_ok s pos -> pos <= pos' -> scan_ok s pos'.
Proof. intros [H1 H2 H3 H4 H5] Hp. constructor; try done. eapply Forall_impl; [exact H3|]. cbn. intros; lia. Qed.

Lemma scan_ok_if s p : 0 <= p -> scan_ok s p -> scan_ok (mk_scan (recs s ++ [mk_ifrec p 0 0]) (nrec s :: ctrl s)) (p + 2).
Proof.
  intros Hp [H1 H2 H3 H4 H5].
  assert (Hrange : forall i c, recs s !! i = Some c -> 0 <= if_off c < p /\ 0 <= else_off c < p) by (intros i c Hi; exact (Forall_lookup_1 _ _ _ _ H3 Hi)).
  assert (Hn : nrec (mk_scan (recs s ++ [mk_ifrec p 0 0]) (nrec s :: ctrl s)) = nrec s + 1) by (unfold nrec; cbn [recs]; rewrite length_app; cbn; lia).
  constructor; cbn [recs ctrl].
  - rewrite Hn. constructor; [unfold nrec; lia|]. eapply Forall_impl; [exact H1|]. cbn. intros; lia.
  - constructor; [|done]. intros Hin. rewrite list.Forall_forall in H1. specialize (H1 _ Hin). cbn in H1. lia.
  - apply Forall_app. split; [eapply Forall_impl; [exact H3|]; cbn; intros; lia|]. repeat constructor; cbn; lia.
  - intros i j c c' [Hi|[Hi Ei]]%lookup_app_Some [Hj|[Hj Ej]]%lookup_app_Some E; [by eapply H4| | |].
    + apply list_lookup_singleton_Some in Ej as [? <-]. apply Hrange in Hi. cbn in E. lia.
    + apply list_lookup_singleton_Some in Ei as [? <-]. apply Hrange in Hj. cbn in E. lia.
    + apply list_lookup_singleton_Some in Ei as [? _]. apply list_lookup_singleton_Some in Ej as [? _]. lia.
  - intros i j c c' [Hi|[Hi Ei]]%lookup_app_Some [Hj|[Hj Ej]]%lookup_app_Some E Hz; [by eapply H5| | |].
    + apply list_lookup_singleton_Some in Ej as [? <-]. cbn in E. lia.
    + apply list_lookup_singleton_Some in Ei as [? <-]. cbn in Hz. lia.
    + apply list_lookup_singleton_Some in Ei as [? _]. apply list_lookup_singleton_Some in Ej as [? _]. lia.
Qed.

(** A record changes: its [if] stays, its [else] stays or is new. *)
Lemma scan_ok_update s p n c c' open :
  scan_ok s p -> 0 <= p -> recs s !! n = Some c -> if_off c' = if_off c -> else_off c' = else_off c \/ else_off c' = p ->
  open = ctrl s \/ (exists top, ctrl s = top :: open) -> scan_ok (mk_scan (<[n := c']> (recs s)) open) (p + 1).
Proof.
  intros [H1 H2 H3 H4 H5] Hp Hn Hi He Ho.
  assert (Hrange : forall i c, recs s !! i = Some c -> 0 <= if_off c < p /\ 0 <= else_off c < p) by (intros i x Hx; exact (Forall_lookup_1 _ _ _ _ H3 Hx)).
  pose proof (Hrange _ _ Hn) as Hc. constructor; cbn [recs ctrl].
  - unfold nrec. cbn [recs]. rewrite length_insert. fold (nrec s). destruct Ho as [->|[top Eo]]; [done|]. rewrite Eo in H1. by apply Forall_cons in H1 as [_ H1].
  - destruct Ho as [->|[top Eo]]; [done|]. rewrite Eo in H2. by apply NoDup_cons in H2 as [_ H2].
  - apply Forall_insert; [|rewrite Hi; lia]. eapply Forall_impl; [exact H3|]. cbn. intros; lia.
  - intros i j x x' [(-> & <- & _)|[? Hx]]%list_lookup_insert_Some [(-> & <- & _)|[? Hx']]%list_lookup_insert_Some E; [done| | |by eapply H4].
    + rewrite Hi in E. by eapply H4.
    + rewrite Hi in E. by eapply H4.
  - intros i j x x' [(-> & <- & _)|[? Hx]]%list_lookup_insert_Some [(-> & <- & _)|[? Hx']]%list_lookup_insert_Some E Hz; [done| | |by eapply H5].
    + destruct He as [He|He]; [rewrite He in *; by eapply H5|]. apply Hrange in Hx'. lia.
    + destruct He as [He|He]; [rewrite He in *; by eapply H5|]. apply Hrange in Hx. lia.
Qed.

Lemma aget_lookup {A} (l : list A) i x : aget l i = Ok x -> 0 <= i /\ l !! Z.to_nat i = Some x.
Proof. unfold aget. destruct (Z.ltb_spec i 0); [done|]. destruct (l !! Z.to_nat i); [|done]. by intros [= <-]. Qed.

Lemma accepts_ok p s s' r :
  0 <= p -> scan_ok s p -> accepts p s (Scan s' r) -> exists p', r = mk_rd d lim p' /\ p < p' /\ scan_ok s' p'.
Proof.
  intros Hp Hs Ha. inversion Ha as [o p' Ho Hp'|Hc Hl|top open c Hc Ec Ea E0|top open c Hc Ec Ea|]; subst.
  - exists p'. split_and!; [done|lia|]. eapply scan_ok_mono; [done|lia].
  - exists (p + 2). split_and!; [done|lia|]. by apply scan_ok_if.
  - exists (p + 1). split_and!; [done|lia|]. apply aget_lookup in Ea as [_ Ea]. eapply scan_ok_update; eauto.
  - exists (p + 1). split_and!; [done|lia|]. apply aget_lookup in Ea as [_ Ea]. eapply scan_ok_update; eauto.
Qed.

(** ** What is left to close *)

Definition rec_at (s : scan_t) (i : Z) : ifrec_t := default (mk_ifrec 0 0 0) (recs s !! Z.to_nat i).
Definition open_recs (s : scan_t) : list (nat * ifrec_t) := map (fun i => (Z.to_nat i, rec_at s i)) (ctrl s).

(** From [p] to the end of the function at [fe], with the final records [R]: code,
    then the end of the innermost open conditional, and so on. *)
Fixpoint rest (R : list ifrec_t) (fe : Z) (opens : list (nat * ifrec_t)) (p : Z) : Prop :=
  match opens with
  | [] => exists c, code_at' R c p fe
  | (n, x) :: opens' =>
      exists c p1, code_at' R c p p1 /\
        ((rd d p1 = Ret 0x0B /\ R !! n = Some (mk_ifrec (if_off x) (else_off x) p1) /\ rest R fe opens' (p1 + 1)) \/
         (else_off x = 0 /\ rd d p1 = Ret 0x05 /\ exists c2 p2, code_at' R c2 (p1 + 1) p2 /\ rd d p2 = Ret 0x0B /\
            R !! n = Some (mk_ifrec (if_off x) p1 p2) /\ rest R fe opens' (p2 + 1)))
  end.

(** Putting [f] in front of the next code. *)
Lemma rest_front R fe opens p p' (f : code -> code) :
  (forall c q, code_at' R c p' q -> code_at' R (f c) p q) -> rest R fe opens p' -> rest R fe opens p.
Proof.
  intros Hf. destruct opens as [|[n x] opens]; cbn [rest].
  - intros (c & Hc). exists (f c). auto.
  - intros (c & p1 & Hc & H). exists (f c), p1. auto.
Qed.

(** Records that are closed stay as they are. *)
Definition stable (s s' : scan_t) : Prop := forall i, Z.of_nat i ∉ ctrl s -> (i < length (recs s))%nat -> recs s' !! i = recs s !! i.

Lemma stable_refl s : stable s s.
Proof. by intros i. Qed.

Lemma rec_at_insert l top x ctl i : 0 <= top -> 0 <= i -> i <> top -> rec_at (mk_scan (<[Z.to_nat top := x]> l) ctl) i = rec_at (mk_scan l ctl) i.
Proof. intros. unfold rec_at. cbn [recs]. by rewrite list_lookup_insert_ne by lia. Qed.

(** The open records behind the innermost do not change with it. *)
Lemma open_recs_tail s top open x pos :
  scan_ok s pos -> ctrl s = top :: open -> open_recs (mk_scan (<[Z.to_nat top := x]> (recs s)) open) = map (fun i => (Z.to_nat i, rec_at s i)) open.
Proof.
  intros [H1 H2 _ _ _] E. unfold open_recs. cbn [ctrl]. rewrite E in H1, H2. apply NoDup_cons in H2 as [Hn _]. apply Forall_cons in H1 as [Ht H1]. rewrite list.Forall_forall in H1.
  apply map_ext_in. intros i Hi%list_elem_of_In. f_equal. specialize (H1 i Hi). cbn in H1. apply rec_at_insert; [lia|lia|]. by intros ->.
Qed.

Lemma open_recs_if s p ctl :
  scan_ok s ctl -> open_recs (mk_scan (recs s ++ [mk_ifrec p 0 0]) (nrec s :: ctrl s)) = (length (recs s), mk_ifrec p 0 0) :: open_recs s.
Proof.
  intros [H1 _ _ _ _]. unfold open_recs. cbn [ctrl map]. f_equal.
  - unfold nrec, rec_at. cbn [recs]. rewrite Nat2Z.id, lookup_app_r, Nat.sub_diag by lia. done.
  - rewrite list.Forall_forall in H1. apply map_ext_in. intros i Hi%list_elem_of_In. specialize (H1 i Hi). unfold nrec in H1. cbn in H1.
    unfold rec_at. cbn [recs]. by rewrite lookup_app_l by lia.
Qed.

Lemma open_recs_top s top open c : ctrl s = top :: open -> recs s !! Z.to_nat top = Some c ->
  open_recs s = (Z.to_nat top, c) :: map (fun i => (Z.to_nat i, rec_at s i)) open.
Proof. intros E Ea. unfold open_recs. rewrite E. cbn [map]. unfold rec_at at 1. by rewrite Ea. Qed.

Lemma open_recs_else s top open c x pos :
  scan_ok s pos -> ctrl s = top :: open -> recs s !! Z.to_nat top = Some c ->
  open_recs (mk_scan (<[Z.to_nat top := x]> (recs s)) (ctrl s)) = (Z.to_nat top, x) :: map (fun i => (Z.to_nat i, rec_at s i)) open.
Proof.
  intros Hs E Ea. rewrite <-(open_recs_tail s top open x pos Hs E). rewrite (open_recs_top _ top open x); [done|done|].
  cbn [recs]. apply list_lookup_insert_eq. by eapply lookup_lt_Some.
Qed.

(** The rest after each kind of step. *)
Lemma rest_if R fe s p :
  rd d p = Ret 0x04 -> rest R fe ((length (recs s), mk_ifrec p 0 0) :: open_recs s) (p + 2) -> rest R fe (open_recs s) p.
Proof.
  intros Hc (c & p1 & Hcode & [(He & HR & Hrest)|(_ & He & c2 & p2 & Hcode2 & He2 & HR & Hrest)]); cbn [if_off else_off] in *.
  - eapply (rest_front _ _ _ p (p1 + 1) (If c)); [|exact Hrest]. intros k q Hk. eapply at_if; eauto. by eapply list_elem_of_lookup_2.
  - eapply (rest_front _ _ _ p (p2 + 1) (IfElse c c2)); [|exact Hrest]. intros k q Hk. eapply at_ifelse; eauto. by eapply list_elem_of_lookup_2.
Qed.

Lemma scan_structured fuel s p s' fe :
  0 < p -> scan_ok s p -> validate_instrs fuel m total_locals lim s (mk_rd d lim p) = Ok (s', fe) ->
  rest (recs s') fe (open_recs s) p /\ stable s s' /\ scan_ok s' lim /\ ctrl s' = [] /\ p <= fe /\ fe + 1 = lim.
Proof.
  revert s p. induction fuel as [|fuel IH]; intros s p Hp Hs H; cbn [validate_instrs rd_len rd_pos] in H; (destruct (Z.leb_spec lim p); [done|]); [done|].
  pose proof (rd_byte_ok _ (cur_at p ltac:(lia))) as Hb. unfold rd_byte in *. cbn [rd_len rd_pos rd_data] in *. destruct (Z.leb_spec lim p); [lia|].
  destruct (rd d p) as [c| |] eqn:Ec; try done. cbn [obind or_fail rbind set_pos rd_data rd_len] in H. clear Hb.
  destruct (validate_instr _ _ _ _ _ _ _) as [x| |] eqn:Ev; try done. cbn [rbind] in H. apply validate_instr_inv in Ev; [|lia|lia|done].
  destruct x as [s2 r2|s2 fe2].
  - destruct (accepts_ok p s s2 r2 ltac:(lia) Hs Ev) as (p2 & -> & Hp2 & Hs2). destruct (IH s2 p2 ltac:(lia) Hs2 H) as (Hrest & Hst & Hok & Hctl & Hle & Hfe).
    inversion Ev as [o p' Ho Hp'|Hc Hl|top open c0 Hc Ect Ea E0|top open c0 Hc Ect Ea|]; subst.
    + split_and!; try done; [|lia]. eapply (rest_front _ _ _ p p2 (Op o)); [|exact Hrest]. intros k q Hk. by eapply at_op.
    + split_and!; try done; [| |lia].
      * rewrite (open_recs_if s p p Hs) in Hrest. by apply rest_if.
      * intros i Hi Hlt. rewrite Hst; cbn [ctrl recs]; [by apply lookup_app_l| |rewrite length_app; lia]. intros [E|]%elem_of_cons; [unfold nrec in E; lia|done].
    + apply aget_lookup in Ea as [Htop Ea]. pose proof (open_recs_top s top open c0 Ect Ea) as E1.
      rewrite (open_recs_else s top open c0 _ p Hs Ect Ea) in Hrest.
      destruct Hrest as (c2 & p1 & Hcode & [(He & HR & Hrest)|(Hz & _)]); cbn [if_off else_off] in *; [|lia].
      split_and!; try done; [| |lia].
      * rewrite E1. exists Done, p. split; [apply at_done|]. right. split_and!; try done. exists c2, p1. by split_and!.
      * intros i Hi Hlt. rewrite Hst; cbn [ctrl recs]; [|done|by rewrite length_insert]. apply list_lookup_insert_ne. intros <-. apply Hi. rewrite Ect, Z2Nat.id by lia. apply list_elem_of_here.
    + apply aget_lookup in Ea as [Htop Ea]. pose proof (open_recs_tail s top open (mk_ifrec (if_off c0) (else_off c0) p) p Hs Ect) as Ht.
      pose proof (open_recs_top s top open c0 Ect Ea) as E1.
      pose proof (so_nodup _ _ Hs) as Hnd. rewrite Ect in Hnd. apply NoDup_cons in Hnd as [Hnt _].
      split_and!; try done; [| |lia].
      * rewrite E1. exists Done, p. split; [apply at_done|]. left. split_and!; [done| |].
        -- rewrite Hst; cbn [ctrl recs]; [|by rewrite Z2Nat.id by lia|rewrite length_insert; by eapply lookup_lt_Some].
           apply list_lookup_insert_eq. by eapply lookup_lt_Some.
        -- rewrite <-Ht. exact Hrest.
      * intros i Hi Hlt. rewrite Ect in Hi. apply not_elem_of_cons in Hi as [Hne Hni]. rewrite Hst; cbn [ctrl recs]; [|done|by rewrite length_insert].
        apply list_lookup_insert_ne. lia.
  - injection H as <- <-. inversion Ev as [| | | |Hc Ect Hl]; subst. split_and!; try done; [|eapply scan_ok_mono; [done|lia]]. unfold open_recs. rewrite Ect. cbn. exists Done. apply at_done.
Qed.

(** The table is functional. *)
Lemma scan_ok_functional s pos : scan_ok s pos -> table_functional (recs s).
Proof.
  intros [_ _ _ H4 H5]. split; intros c1 c2 [i Hi]%list_elem_of_lookup [j Hj]%list_elem_of_lookup E.
  - assert (i = j) as -> by (by eapply H4). congruence.
  - intros Hz. assert (i = j) as -> by (by eapply H5). congruence.
Qed.

(** ** The scan does not fault *)

Lemma imm_sat P f p k (Q : scanned -> Prop) :
  0 <= p -> p + 1 <= lim -> (forall r, cur_ok r -> reads_num P r (f r)) -> (forall i r, sat rejected Q (k (i, r))) ->
  sat rejected Q (rbind (or_fail AK_E_WASM_INVALID_MODULE (f (mk_rd d lim (p + 1)))) k).
Proof.
  intros Hp Hl Hf Hk. specialize (Hf _ (cur_at (p + 1) ltac:(lia))). destruct (f (mk_rd d lim (p + 1))) as [[i r]| |]; cbn; [apply Hk|auto with ak|done].
Qed.

Lemma validate_instr_sat p c s :
  0 <= p -> p + 1 <= lim -> scan_ok s p -> sat rejected (fun _ => True) (validate_instr m total_locals lim p c s (mk_rd d lim (p + 1))).
Proof.
  intros Hp Hl Hs. unfold validate_instr. destruct (_ || _ || _ || _); [done|].
  destruct (c =? 0x41); [apply (imm_sat _ _ _ _ _ Hp Hl rd_s32_ok); done|]. destruct (c =? 0x42); [apply (imm_sat _ _ _ _ _ Hp Hl rd_s64_ok); done|].
  destruct (_ || _ || _). { apply (imm_sat _ _ _ _ _ Hp Hl rd_u32_ok). intros i r. destruct (_ <=? _); cbn; auto with ak. }
  destruct (c =? 0x10). { apply (imm_sat _ _ _ _ _ Hp Hl rd_u32_ok). intros i r. destruct (_ <=? _); cbn; auto with ak. }
  assert (Hget : forall top open, ctrl s = top :: open -> exists x, aget (recs s) top = Ok x /\ 0 <= top < Z.of_nat (length (recs s))).
  { intros top open E. pose proof (so_ctrl _ _ Hs) as H. rewrite E in H. apply Forall_cons in H as [Ht _]. unfold nrec in Ht. destruct (aget_ok (recs s) top Ht) as (x & -> & _). eauto. }
  destruct (c =? 0x04).
  { unfold read_blocktype. pose proof (rd_byte_ok _ (cur_at (p + 1) ltac:(lia))) as Hb. destruct (rd_byte _) as [[bt r]| |]; [|cbn; auto with ak|done]. cbn [or_fail rbind].
    destruct (_ || _); [|cbn; auto with ak]. cbn [rbind]. destruct (_ || _) eqn:E; [cbn; auto with ak|].
    apply orb_false_iff in E as [E1%Z.leb_gt E2%Z.leb_gt]. unfold csp, nrec in *. by rewrite aput_ok, apush_ok by lia. }
  destruct (c =? 0x05).
  { unfold csp. destruct (ctrl s) as [|top open] eqn:E; [apply rejected_invalid|]. cbn [atop rbind]; change (Z.of_nat (length (top :: open)) =? 0) with false; cbv iota. destruct (Hget _ _ eq_refl) as (x & -> & Ht). cbn [rbind]. destruct (negb _); [cbn; auto with ak|]. by rewrite aset_ok. }
  destruct (c =? 0x0B).
  { unfold csp. destruct (ctrl s) as [|top open] eqn:E; [change (Z.of_nat (length []) =? 0) with true; cbv iota; destruct (negb _); cbn; auto with ak|]. cbn [atop rbind]; change (Z.of_nat (length (top :: open)) =? 0) with false; cbv iota. destruct (Hget _ _ eq_refl) as (x & -> & Ht). cbn [rbind]. by rewrite aset_ok. }
  destruct (is_supported_numeric c); cbn; auto with ak.
Qed.

Lemma validate_instrs_sat fuel s p :
  0 < p -> scan_ok s p -> lim - p < Z.of_nat fuel -> sat rejected (fun _ => True) (validate_instrs fuel m total_locals lim s (mk_rd d lim p)).
Proof.
  revert s p. induction fuel as [|fuel IH]; intros s p Hp Hs Hf; cbn [validate_instrs rd_len rd_pos]; (destruct (Z.leb_spec lim p); [cbn; auto with ak|]); [lia|].
  unfold rd_byte. cbn [rd_len rd_pos rd_data]. destruct (Z.leb_spec lim p); [lia|]. destruct (rd_in_bounds d p ltac:(lia)) as [c Ec]. rewrite Ec.
  cbn [obind or_fail rbind set_pos rd_data rd_len]. pose proof (validate_instr_sat p c s ltac:(lia) ltac:(lia) Hs) as Hv.
  destruct (validate_instr _ _ _ _ _ _ _) as [x| |] eqn:Ev; [|done|done]. cbn [rbind]. apply validate_instr_inv in Ev; [|lia|lia|done].
  destruct x as [s2 r2|s2 fe]; [|done]. destruct (accepts_ok p s s2 r2 ltac:(lia) Hs Ev) as (p2 & -> & Hp2 & Hs2). apply IH; [lia|done|lia].
Qed.

End Valid.

(** ** The body *)

Lemma validate_locals_sat pc r :
  cur_ok r -> 0 <= pc <= IN_MAX_LOCALS -> sat rejected (fun q => pc <= q.1 <= IN_MAX_LOCALS /\ past r q.2) (validate_locals pc r).
Proof.
  intros Hr Hpc. unfold validate_locals. eapply sat_bind2; [by apply u32_sat|]. cbn [fst snd]. intros count r1 [Hc P1]. unfold is_u32 in Hc.
  eapply sat_weaken; [apply (rd_for_sat rejected (fun _ t => pc <= t <= IN_MAX_LOCALS)); [cur|lia|lia|apply rd_fuel_enough; cur|]| |done].
  - intros i t r' _ Ha Ht. unfold validate_local. eapply sat_bind2; [apply u32_sat; cur|]. cbn [fst snd]. intros n r2 [Hn P2]. unfold is_u32 in Hn.
    eapply sat_bind2; [apply valtype_sat; cur|]. cbn [fst snd]. intros vt r3 P3. destruct (Z.ltb_spec IN_MAX_LOCALS (t + n)); [cbn; auto with ak|]. cbn. split; [lia|cur].
  - cbn. intros [t r2] [? ?]. split; [done|cur].
Qed.

(** An accepted body is structured code. *)
Definition body_ok (m : wmod_t) (d : bytes) (lim param_count : Z) (b : body_t) : Prop :=
  table_functional (b_recs b) /\ 0 <= b_instr_start b /\ b_func_end b < lim /\ 0 <= param_count <= b_total_locals b /\ b_total_locals b <= IN_MAX_LOCALS /\
  exists c, code_at d lim (b_total_locals b) (num_imports m) (b_recs b) c (b_instr_start b) (b_func_end b).

Lemma validate_body_sat m d start lim pc :
  wf_bytes d -> lim <= Z.of_nat (length d) -> 0 <= start <= lim -> 0 <= pc <= IN_MAX_PARAMS ->
  sat rejected (body_ok m d lim pc) (validate_body m d start lim pc).
Proof.
  intros Hw Hlim Hst Hpc. unfold validate_body, IN_MAX_PARAMS in *. set (r0 := mk_rd d lim start). assert (Hr0 : cur_ok r0) by (by apply cur_at).
  eapply sat_bind2; [apply validate_locals_sat; [done|unfold IN_MAX_LOCALS; lia]|]. cbn [fst snd]. intros total r1 [Ht P1].
  assert (Er : r1 = mk_rd d lim (rd_pos r1) /\ start < rd_pos r1).
  { destruct P1 as [(E1 & E2 & E3) E4]. cbn [r0 rd_data rd_len rd_pos] in *. destruct r1; cbn in *; subst. done. }
  destruct Er as [Er Hpos]. unfold IN_MAX_LOCALS in Ht. assert (Eu : u32 total = total) by (unfold u32; rewrite Z.mod_small; lia). rewrite Eu.
  assert (Hf : lim - rd_pos r1 < Z.of_nat (rd_fuel r1)) by (rewrite Er; unfold rd_fuel; cbn [rd_data rd_pos]; lia).
  cbv zeta. rewrite Er. cbn [rd_pos]. rewrite <-Er.
  pose proof (validate_instrs_sat m d lim total Hw Hlim (rd_fuel r1) (mk_scan [] []) (rd_pos r1) ltac:(lia) (scan_ok_start _) Hf) as Hs. rewrite <-Er in Hs.
  destruct (validate_instrs _ _ _ _ _ _) as [[s fe]| |] eqn:Ev; [|done|done]. cbn [rbind]. destruct (negb _); [cbn; auto with ak|]. cbn [sat].
  assert (Ev' : validate_instrs (rd_fuel r1) m total lim (mk_scan [] []) (mk_rd d lim (rd_pos r1)) = Ok (s, fe)) by (by rewrite <-Er).
  destruct (scan_structured m d lim total Hw Hlim (rd_fuel r1) (mk_scan [] []) (rd_pos r1) s fe ltac:(lia) (scan_ok_start _) Ev') as ([c Hc] & _ & Hok & _ & Hle & Hfe).
  split; [by eapply scan_ok_functional|]. cbn [b_recs b_instr_start b_func_end b_total_locals]. unfold IN_MAX_LOCALS. split_and!; [lia..|by exists c].
Qed.
