(* ===== verification/WasmRun.v ===== *)
(** * What the WASM interpreter guarantees

    The theorems about [ak_wasm_interp_run] of
    [src/src/agentic/ak_wasm_interp.c]: it never faults, on any bytes; it has
    the structured meaning of [WasmSem]; the gas bounds it, and code is never
    longer to run than its bytes; code with a stack type completes; and the
    world changes only through registered synchronous host functions. *)

From S2P Require Import Prelude WasmParse WasmExec WasmSem WasmValid.
Open Scope ak_scope.

(** ** Stack types

    The height of the operand stack, as WASM validation computes it; the inner
    [None] is code that does not fall through. *)

Section Types.
Context (returns : Z -> bool) (result_count : Z).

Definition pops (o : op) : Z :=
  match o with
  | ODrop | OSet _ | OTee _ | OEqz _ => 1
  | OBin _ _ => 2
  | _ => 0
  end.
Definition pushes (o : op) : Z :=
  match o with
  | OConst _ _ | OGet _ | OTee _ | OEqz _ | OBin _ _ => 1
  | OCall i => if returns i then 1 else 0
  | _ => 0
  end.

Fixpoint stack_type (c : code) (h : Z) : option (option Z) :=
  match c with
  | Done => Some (Some h)
  | Op OUnreachable _ => Some None
  | Op OReturn _ => if result_count <=? h then Some None else None
  | Op o k => if (pops o <=? h) && (h - pops o + pushes o <=? IN_STACK_MAX) then stack_type k (h - pops o + pushes o) else None
  | If t k =>
      if 1 <=? h then
        match stack_type t (h - 1) with
        | Some None => stack_type k (h - 1)
        | Some (Some h') => if h' =? h - 1 then stack_type k (h - 1) else None
        | None => None
        end
      else None
  | IfElse t e k =>
      if 1 <=? h then
        match stack_type t (h - 1), stack_type e (h - 1) with
        | Some (Some x), Some (Some y) => if x =? y then stack_type k x else None
        | Some (Some x), Some None | Some None, Some (Some x) => stack_type k x
        | Some None, Some None => Some None
        | _, _ => None
        end
      else None
  end.

(** Code that neither divides nor is unreachable. *)
Fixpoint total_code (c : code) : bool :=
  match c with
  | Done => true
  | Op OUnreachable _ | Op (OBin _ DivU) _ => false
  | Op _ k => total_code k
  | If t k => total_code t && total_code k
  | IfElse t e k => total_code t && total_code e && total_code k
  end.
End Types.

Section TypeSoundness.
Context {W : Type} (callee : Z -> option (@host_fn W * bool)) (input : option bytes) (gas_limit : Z) (result_count : Z).

Definition callee_returns (i : Z) : bool := match callee i with Some (_, r) => r | None => false end.
Abbreviation ty := (stack_type callee_returns result_count).

Definition depth (s : @st_t W) : Z := Z.of_nat (length (st_stk s)).

(** What a type promises. *)
Definition well (o : option Z) (e : @eff W) : Prop :=
  match e with
  | ENext s => o = Some (depth s)
  | EReturn s => result_count <= depth s
  | EStop y _ _ => y <> Underflow /\ y <> Overflow
  end.

Lemma well_push x s : depth s + 1 <= IN_STACK_MAX -> well (Some (depth s + 1)) (push x s).
Proof.
  intros H. unfold push, depth in *. destruct (Z.leb_spec IN_STACK_MAX (Z.of_nat (length (st_stk s)))); [lia|]. cbn [well set_stk st_stk]. unfold depth. cbn [set_stk st_stk length]. f_equal. lia.
Qed.

Lemma well_pop o s k : 1 <= depth s -> (forall x s', depth s' = depth s - 1 -> well o (k x s')) -> well o (pop s k).
Proof. intros H Hk. unfold pop, depth in *. destruct (st_stk s) as [|x l]; [cbn in H; lia|]. apply Hk. unfold depth. cbn [set_stk st_stk length]. lia. Qed.

Lemma well_op o s :
  o <> OUnreachable -> o <> OReturn -> pops o <= depth s -> depth s - pops o + pushes callee_returns o <= IN_STACK_MAX ->
  well (Some (depth s - pops o + pushes callee_returns o)) (eval_op callee input o s).
Proof.
  intros Hu Hr Hp Hm. destruct o as [| | | |w x|i|i|i|i|w|w b]; cbn [eval_op pops pushes] in *; try done.
  - cbn. f_equal. lia.
  - apply well_pop; [done|]. intros x s' E. cbn. f_equal. lia.
  - rewrite Z.sub_0_r. apply well_push. lia.
  - rewrite Z.sub_0_r. apply well_push. lia.
  - apply well_pop; [done|]. intros x s' E. cbn. unfold depth in *. cbn [set_local st_stk]. f_equal. lia.
  - apply well_pop; [done|]. intros x s' E. cbn. unfold depth in *. cbn [set_stk st_stk length]. f_equal. lia.
  - unfold call, callee_returns in *. destruct (callee i) as [[fn r]|]; [|by cbn]. destruct (fn (st_world s) input) as [rc w]. destruct (rc <? 0); [by cbn|].
    destruct r; [|cbn; f_equal; unfold depth; cbn [st_stk]; lia]. rewrite Z.sub_0_r. apply (well_push (u64 rc) (mk_st (st_gas s) (st_locals s) (st_stk s) w)). unfold depth in *. cbn [st_stk]. lia.
  - apply well_pop; [done|]. intros x s' E. replace (depth s - 1 + 1) with (depth s' + 1) by lia. apply well_push. lia.
  - apply well_pop; [lia|]. intros y s' E. apply well_pop; [lia|]. intros x s2 E2. destruct (wasm_bop w b x y); [|by cbn].
    replace (depth s - 2 + 1) with (depth s2 + 1) by lia. apply well_push. lia.
Qed.

Lemma well_then o o' e k : well o e -> (forall s, o = Some (depth s) -> well o' (k s)) -> well o' (then_ e k).
Proof. destruct e; cbn; auto. Qed.

Lemma well_tick s : well (Some (depth s)) (tick gas_limit s).
Proof. unfold tick. destruct (_ <? _); by cbn. Qed.

Lemma typed_sound c s o : ty c (depth s) = Some o -> well o (eval callee input gas_limit c s).
Proof.
  revert s o. induction c as [|op k IH|t IHt k IHk|t IHt e IHe k IHk]; intros s o H; cbn [eval stack_type] in *.
  - injection H as <-. done.
  - eapply well_then; [apply well_tick|]. intros s1 [= E1].
    assert (Hgen : op <> OUnreachable -> op <> OReturn ->
      (if (pops op <=? depth s) && (depth s - pops op + pushes callee_returns op <=? IN_STACK_MAX) then ty k (depth s - pops op + pushes callee_returns op) else None) = Some o ->
      well o (then_ (eval_op callee input op s1) (eval callee input gas_limit k))).
    { intros Hu Hr H'. destruct (_ && _) eqn:Eb; [|done]. apply andb_true_iff in Eb as [E2 E3]. eapply well_then; [apply well_op; try done; lia|].
      intros s2 [= E4]. apply IH. rewrite <-E4, <-E1. done. }
    destruct op as [| | | |w x|i|i|i|i|w|w b]; try (by apply Hgen).
    + injection H as <-. by cbn.
    + destruct (Z.leb_spec result_count (depth s)); [|done]. injection H as <-. cbn. lia.
  - destruct (Z.leb_spec 1 (depth s)); [|done]. eapply well_then; [apply well_tick|]. intros s1 [= E1]. apply well_pop; [lia|]. intros x s2 E2.
    destruct (ty t (depth s - 1)) as [ot|] eqn:Et; [|done]. rewrite E1, <-E2 in Et.
    assert (Hk : ty k (depth s2) = Some o /\ (ot = None \/ ot = Some (depth s2))).
    { rewrite E2, <-E1. destruct ot as [h|]; [|by split; [|left]]. destruct (Z.eqb_spec h (depth s - 1)) as [->|]; [|done]. by split; [|right]. }
    destruct Hk as [Hk Hot]. destruct (u32 x =? 0); [by apply IHk|]. eapply (well_then ot); [eapply (well_then ot); [by apply IHt|]|].
    + intros s3 ->. apply well_tick.
    + intros s3 E3. apply IHk. destruct Hot as [->|Hot]; [done|]. assert (depth s3 = depth s2) as -> by congruence. done.
  - destruct (Z.leb_spec 1 (depth s)); [|done]. eapply well_then; [apply well_tick|]. intros s1 [= E1]. apply well_pop; [lia|]. intros x s2 E2.
    rewrite E1, <-E2 in H. destruct (ty t (depth s2)) as [ot|] eqn:Et; [|done]. destruct (ty e (depth s2)) as [oe|] eqn:Ee; [|by destruct ot].
    assert (Hb : well (if u32 x =? 0 then oe else ot) (if u32 x =? 0 then eval callee input gas_limit e s2 else eval callee input gas_limit t s2)) by (destruct (u32 x =? 0); auto).
    eapply (well_then (if u32 x =? 0 then oe else ot)); [eapply well_then; [exact Hb|intros s3 E3; rewrite E3; apply well_tick]|]. intros s3 E3. apply IHk.
    destruct ot as [h|], oe as [h'|]; destruct (u32 x =? 0); try (by congruence); (destruct (Z.eqb_spec h h'); [congruence|done]).
Qed.


End TypeSoundness.

(** ** Invariants of evaluation *)

Fixpoint all_ops (P : op -> Prop) (c : code) : Prop :=
  match c with
  | Done => True
  | Op o k => P o /\ all_ops P k
  | If t k => all_ops P t /\ all_ops P k
  | IfElse t e k => all_ops P t /\ all_ops P e /\ all_ops P k
  end.

Lemma all_ops_and P Q c : all_ops P c -> all_ops Q c -> all_ops (fun o => P o /\ Q o) c.
Proof. induction c; cbn; tauto. Qed.

Lemma all_ops_impl (P Q : op -> Prop) c : (forall o, P o -> Q o) -> all_ops P c -> all_ops Q c.
Proof. intros H. induction c; cbn; naive_solver. Qed.

(** Calls go to imports. *)
Definition op_valid (ni : Z) (o : op) : Prop := match o with OCall i => 0 <= i < ni | _ => True end.

Lemma code_at_valid d lim tl ni rs c p p' :
  wf_bytes d -> lim <= Z.of_nat (length d) -> 0 <= p -> code_at d lim tl ni rs c p p' -> all_ops (op_valid ni) c.
Proof.
  intros Hw Hl Hp Hc. assert (Hle : forall c p p', code_at d lim tl ni rs c p p' -> p <= p') by (induction 1; lia).
  revert Hp. induction Hc as [p|o k p p1 p' Ho Hp1 Hk IH|t k p p1 p' H1 Ht IHt H2 H3 Hk IHk|t e k p p1 p2 p' H1 Ht IHt H2 He IHe H3 H4 Hk IHk]; intros Hp; cbn [all_ops].
  - done.
  - split; [|apply IH; lia]. destruct o as [| | | |w x|i|i|i|i|w|w b]; try done. cbn [op_at] in Ho. destruct Ho as (_ & Hi & Hn). split; [|done].
    by eapply (imm_u32_nonneg d lim p i p1); try done; lia.
  - apply Hle in Ht. split; [apply IHt; lia|apply IHk; lia].
  - apply Hle in Ht. apply Hle in He. split_and!; [apply IHt; lia|apply IHe; lia|apply IHk; lia].
Qed.

Section Invariant.
Context {W : Type} (callee : Z -> option (@host_fn W * bool)) (input : option bytes) (gas_limit : Z).
Context (I : @st_t W -> Prop) (Q : why -> Z -> W -> Prop) (V : op -> Prop).

Definition good (e : @eff W) : Prop :=
  match e with
  | ENext s | EReturn s => I s
  | EStop y g w => Q y g w
  end.

Hypothesis Htick : forall s, I s -> good (tick gas_limit s).
Hypothesis Hpop : forall s k, I s -> (forall x s', I s' -> good (k x s')) -> good (pop s k).
Hypothesis Hop : forall o s, V o -> I s -> good (eval_op callee input o s).

Lemma good_then e k : good e -> (forall s, I s -> good (k s)) -> good (then_ e k).
Proof. destruct e; cbn; auto. Qed.

Lemma eval_good c s : all_ops V c -> I s -> good (eval callee input gas_limit c s).
Proof.
  revert s. induction c as [|o k IH|t IHt k IHk|t IHt e IHe k IHk]; intros s Hv Hs; cbn [eval all_ops] in *.
  - done.
  - destruct Hv. apply good_then; [auto|]. intros s1 Hs1. apply good_then; auto.
  - destruct Hv. apply good_then; [auto|]. intros s1 Hs1. apply Hpop; [done|]. intros x s2 Hs2. destruct (u32 x =? 0); [auto|].
    apply good_then; [|auto]. apply good_then; auto.
  - destruct Hv as (? & ? & ?). apply good_then; [auto|]. intros s1 Hs1. apply Hpop; [done|]. intros x s2 Hs2.
    apply good_then; [|auto]. apply good_then; [|auto]. destruct (u32 x =? 0); auto.
Qed.
End Invariant.

#[global] Instance why_eq_dec : EqDecision why.
Proof. solve_decision. Defined.

(** Gas: it passes the limit exactly when the run is stopped for it. *)
Definition gas_q {W} (L : Z) (y : why) (g : Z) (_ : W) : Prop := if decide (y = OutOfGas) then g = L + 1 else g <= L.

Lemma eval_gas_limit {W} callee input L c (s : @st_t W) :
  st_gas s <= L -> good (fun s => st_gas s <= L) (gas_q L) (eval callee input L c s).
Proof.
  intros Hs. apply (eval_good _ _ _ (fun s => st_gas s <= L) (gas_q L) (fun _ => True)); [| | |induction c; cbn; tauto|done].
  - intros s1 H1. unfold tick. destruct (Z.ltb_spec L (st_gas s1 + 1)); cbn; [|lia]. unfold gas_q. rewrite decide_True by done. lia.
  - intros s1 k H1 Hk. unfold pop. destruct (st_stk s1); [done|]. apply Hk. done.
  - intros o s1 _ H1.
    assert (Hpush : forall x s2, st_gas s2 <= L -> good (fun s => st_gas s <= L) (gas_q L) (push x s2 : @eff W)) by (intros x s2 H2; unfold push; destruct (_ <=? _); done).
    assert (Hpop : forall s2 k, st_gas s2 <= L -> (forall x s', st_gas s' <= L -> good (fun s => st_gas s <= L) (gas_q L) (k x s' : @eff W)) ->
      good (fun s => st_gas s <= L) (gas_q L) (pop s2 k)) by (intros s2 k H2 Hk; unfold pop; destruct (st_stk s2); [done|by apply Hk]).
    destruct o as [| | | |w x|i|i|i|i|w|w b]; cbn [eval_op]; auto; try (apply Hpop; [done|]; intros; by auto).
    + unfold call. destruct (callee i) as [[fn r]|]; [|done]. destruct (fn (st_world s1) input) as [rc w]. destruct (rc <? 0); [done|]. destruct r; [|done]. by apply Hpush.
    + apply Hpop; [done|]. intros y s2 H2. apply Hpop; [done|]. intros x s3 H3. destruct (wasm_bop w b x y); auto.
Qed.

(** The world moves only through callees. *)
Section World.
Context {W : Type} (reg : list (@ak_host_fn_entry W)) (input : option bytes).

(** One call of a registered synchronous host function, with the input of the run. *)
Definition host_step (w w' : W) : Prop :=
  exists e fn rc, e ∈ reg /\ hf_fn e = Some fn /\ hf_async_capable e = false /\ fn w input = (rc, w').

Lemma ak_host_fn_get_in name (e : @ak_host_fn_entry W) : ak_host_fn_get reg name = Some e -> e ∈ reg.
Proof.
  induction reg as [|x l IH]; cbn [ak_host_fn_get]; [done|]. destruct (bytes_eqb _ _); [intros [= <-]; apply list_elem_of_here|]. intros H. apply list_elem_of_further. auto.
Qed.

Lemma eval_world size m L c w0 (s : @st_t W) :
  wmod_ok reg size m -> all_ops (op_valid (num_imports m)) c -> steps host_step w0 (st_world s) ->
  good (fun s => steps host_step w0 (st_world s)) (fun _ _ w => steps host_step w0 w) (eval (callee reg m) input L c s).
Proof.
  intros Hm Hv Hs. pose (I := fun s : @st_t W => steps host_step w0 (st_world s)). pose (Q := fun (_ : why) (_ : Z) (w : W) => steps host_step w0 w).
  apply (eval_good _ _ _ I Q (op_valid (num_imports m))); [| | |done|done]; unfold I, Q.
  - intros s1 H1. unfold tick. destruct (_ <? _); done.
  - intros s1 k H1 Hk. unfold pop. destruct (st_stk s1); [done|]. by apply Hk.
  - intros o s1 Ho H1.
    assert (Hpush : forall x s2, I s2 -> good I Q (push x s2)) by (intros x s2 H2; unfold push; destruct (_ <=? _); done).
    assert (Hpop : forall s2 k, I s2 -> (forall x s', I s' -> good I Q (k x s')) -> good I Q (pop s2 k)) by (intros s2 k H2 Hk; unfold pop; destruct (st_stk s2); [done|by apply Hk]).
    destruct o as [| | | |w x|i|i|i|i|w|w b]; cbn [eval_op]; try (by apply Hpush); try done; try (apply Hpop; [done|]; intros; (done || by apply Hpush)).
    + destruct (callee_ok reg m size i Hm Ho) as (name & t & hf & fn & rc & _ & _ & Eh & Ea & Ef & _ & Ec). unfold call. rewrite Ec.
      destruct (fn (st_world s1) input) as [code w] eqn:E. assert (Hst : steps host_step w0 w).
      { eapply steps_snoc; [exact H1|]. exists hf, fn, code. split_and!; try done. by eapply ak_host_fn_get_in. }
      destruct (code <? 0); [done|]. destruct (rc =? 1); [|done]. by apply Hpush.
    + apply Hpop; [done|]. intros y s2 H2. apply Hpop; [done|]. intros x s3 H3. destruct (wasm_bop w b x y); [by apply Hpush|done].
Qed.
End World.

(** Total code stops for its stack or its gas only. *)
Lemma total_stops {W} callee input L c ni (s : @st_t W) :
  all_ops (op_valid ni) c -> total_code c = true -> (forall i, 0 <= i < ni -> exists fn r, callee i = Some (fn, r) /\ forall w, 0 <= (fn w input).1) ->
  good (fun _ => True) (fun y _ _ => y = OutOfGas \/ y = Underflow \/ y = Overflow) (eval callee input L c s).
Proof.
  intros Hv Ht Hc. pose (I := fun _ : @st_t W => True). pose (Q := fun (y : why) (_ : Z) (_ : W) => y = OutOfGas \/ y = Underflow \/ y = Overflow).
  pose (V := fun o => op_valid ni o /\ o <> OUnreachable /\ forall w, o <> OBin w DivU).
  assert (HV : all_ops V c).
  { clear Hc. induction c as [|o k IH|t IHt k IHk|t IHt e IHe k IHk]; cbn [all_ops total_code] in *; [done| | |].
    - destruct Hv. destruct o as [| | | |w x|i|i|i|i|w|w []]; try done; (split; [unfold V; split_and!; try done|by apply IH]).
    - destruct Hv. apply andb_true_iff in Ht as [? ?]. auto.
    - destruct Hv as (? & ? & ?). apply andb_true_iff in Ht as [[? ?]%andb_true_iff ?]. auto. }
  apply (eval_good _ _ _ I Q V); [| | |done|done]; unfold I, Q.
  - intros s1 H1. unfold tick. destruct (_ <? _); cbn; auto.
  - intros s1 k H1 Hk. unfold pop. destruct (st_stk s1); [cbn; auto|]. by apply Hk.
  - intros o s1 (Ho & Hu & Hd) _.
    assert (Hpush : forall x s2, good I Q (push x s2)) by (intros x s2; unfold push; destruct (_ <=? _); cbn; unfold I, Q; auto).
    assert (Hpop : forall s2 k, (forall x s', good I Q (k x s')) -> good I Q (pop s2 k)) by (intros s2 k Hk; unfold pop; destruct (st_stk s2); [cbn; unfold I, Q; auto|by apply Hk]).
    destruct o as [| | | |w x|i|i|i|i|w|w b]; cbn [eval_op]; try (by apply Hpush); try done; try (apply Hpop; intros; (done || by apply Hpush)).
    + destruct (Hc i Ho) as (fn & r & Ec & Hnn). unfold call. rewrite Ec. specialize (Hnn (st_world s1)). destruct (fn (st_world s1) input) as [code w]. cbn in Hnn.
      destruct (Z.ltb_spec code 0); [lia|]. destruct r; [apply Hpush|done].
    + apply Hpop. intros y s2. apply Hpop. intros x s3. destruct (wasm_bop w b x y) as [v|] eqn:E; [apply Hpush|]. destruct b; try done. by destruct (Hd w).
Qed.

(** ** Runs *)

Section Run.
Context {W : Type} (reg : list (@ak_host_fn_entry W)).

(** The gas limit in force. *)
Definition limit (gas_limit : Z) : Z := if gas_limit =? 0 then IN_DEFAULT_GAS else gas_limit.

(** What a run makes of the result of its body. *)
Definition run_of (al : allocs) (result_count : Z) (x : @exec_t W) : @run_t W :=
  if ex_ret x =? 0 then
    if negb (al_out al) then mk_run AK_E_WASM_OOM None (ex_gas x) 0 (ex_world x)
    else mk_run 0 (Some (if result_count =? 1 then le_enc 8 (u64 (ex_result x)) else [])) (ex_gas x) (ex_result x) (ex_world x)
  else mk_run (ex_ret x) None (ex_gas x) 0 (ex_world x).

(** The locals at the start: the parameters from the input, then zeros. *)
Definition init_locals (total_locals param_count : Z) (input : option bytes) : list Z :=
  let zeroed := replicate (Z.to_nat (if total_locals =? 0 then 1 else total_locals)) 0 in
  match input with
  | None => zeroed
  | Some inp => map (param_value inp) (seqZ 0 param_count) ++ drop (Z.to_nat param_count) zeroed
  end.

(** The meaning of structured code [c] as the body of an entry function. *)
Definition meaning (m : wmod_t) (b : body_t) (param_count result_count : Z) (input : option bytes) (gas_limit : Z) (w : W) (c : code) : @exec_t W :=
  result_of result_count
    (eval (callee reg m) input (limit gas_limit) c (mk_st 0 (init_locals (b_total_locals b) param_count input) [] w)).

(** The structured code of a validated body. *)
Definition code_of (m : wmod_t) (d : bytes) (b : body_t) (c : code) : Prop :=
  code_at d (entry_body_end m) (b_total_locals b) (num_imports m) (b_recs b) c (b_instr_start b) (b_func_end b).

Lemma entry_counts_ok size m :
  wmod_ok reg size m -> entry_body_set m = true -> exists pc rc, entry_counts m = Ok (pc, rc) /\ 0 <= pc <= IN_MAX_PARAMS /\ 0 <= rc <= 1.
Proof.
  intros Hm Hb. destruct (ok_body _ _ _ Hm Hb) as (Hl & _). destruct (ok_func _ _ _ Hm _ Hl) as (t & Et & Ht). pose proof (ok_types _ _ _ Hm) as Hn.
  destruct (ok_pcount _ _ _ Hm) as [L1 B1]. destruct (ok_rcount _ _ _ Hm) as [L2 B2]. unfold IN_MAX_TYPES in *.
  destruct (aget_ok (type_pcount m) t ltac:(lia)) as (pc & Ep & _). destruct (aget_ok (type_rcount m) t ltac:(lia)) as (rc & Er & _).
  exists pc, rc. unfold entry_counts. rewrite Et. cbn [rbind]. rewrite Ep. cbn [rbind]. rewrite Er. split; [done|].
  split; [by eapply aget_bounded|by eapply aget_bounded].
Qed.

Lemma param_value_u64 inp i : wf_bytes inp -> is_u64 (param_value inp i).
Proof.
  intros _. unfold param_value. generalize [0; 1; 2; 3; 4; 5; 6; 7]. intros l.
  assert (G : forall v, is_u64 v -> is_u64 (foldl (fun v b => let off := i * 8 + b in
    match inp !! Z.to_nat off with Some x => Z.lor v (u64 (Z.shiftl x (8 * b))) | None => v end) v l)).
  { induction l as [|b l IH]; intros v Hv; [done|]. cbn [foldl]. apply IH. destruct (inp !! _); [|done].
    apply (lor_bound _ _ 64); [lia|done|]. unfold u64. apply Z.mod_pos_bound. lia. }
  apply G. unfold is_u64. lia.
Qed.

Definition wf_input (input : option bytes) : Prop := match input with Some inp => wf_bytes inp | None => True end.

Lemma init_locals_ok total pc input :
  0 <= pc <= total -> wf_input input ->
  Forall is_u64 (init_locals total pc input) /\ total <= Z.of_nat (length (init_locals total pc input)).
Proof.
  intros Hpc Hi. unfold init_locals. set (z := replicate _ 0).
  assert (Hz : Forall is_u64 z /\ total <= Z.of_nat (length z)).
  { unfold z. split; [apply Forall_replicate; unfold is_u64; lia|]. rewrite length_replicate. destruct (Z.eqb_spec total 0); lia. }
  destruct input as [inp|]; [|done]. destruct Hz as [Hz1 Hz2]. split.
  - apply Forall_app. split; [|by apply Forall_drop]. apply List.Forall_map, Forall_forall. intros. by apply param_value_u64.
  - rewrite length_app, length_map, length_seqZ, length_drop. lia.
Qed.

Lemma write_params_ok inp n i (done_ rest : list Z) :
  i = Z.of_nat (length done_) -> (n <= length rest)%nat ->
  write_params n inp i (done_ ++ rest) = Ok (done_ ++ map (param_value inp) (seqZ i (Z.of_nat n)) ++ drop n rest).
Proof.
  revert i done_ rest. induction n as [|n IH]; intros i done_ rest -> Hn; cbn [write_params]; [done|].
  destruct rest as [|x rest]; cbn [length] in Hn; [lia|]. rewrite aset_ok by (rewrite length_app; cbn [length]; lia). cbn [rbind].
  rewrite Nat2Z.id, insert_app_r_alt, Nat.sub_diag by lia. cbn [insert list_insert].
  change (?a ++ ?x :: ?b) with (a ++ [x] ++ b). rewrite app_assoc, IH by (rewrite ?length_app; cbn [length]; lia).
  rewrite <-app_assoc, (seqZ_cons _ (Z.of_nat (S n))) by lia. cbn [map drop app]. do 4 f_equal; f_equal; f_equal; lia.
Qed.

(** The parameters fit in the array of locals. *)
Lemma set_locals_eq total pc input : 0 <= pc <= total -> set_locals total pc input = Ok (init_locals total pc input).
Proof.
  intros Hpc. unfold set_locals, init_locals. destruct input as [inp|]; [|done].
  set (z := replicate _ 0). pose proof (write_params_ok inp (Z.to_nat pc) 0 [] z eq_refl) as H. cbn [app] in H.
  rewrite H, Z2Nat.id; [done|lia|]. unfold z. rewrite length_replicate. destruct (Z.eqb_spec total 0); lia.
Qed.

(** A module and a body that pass validation. *)
Definition validated (d : bytes) (name : option bytes) (m : wmod_t) (pc rc : Z) (b : body_t) : Prop :=
  parse_module reg d name = Ok m /\ entry_counts m = Ok (pc, rc) /\ validate_body m d (entry_body_start m) (entry_body_end m) pc = Ok b.

Lemma parse_short d name m : Z.of_nat (length d) < 8 -> parse_module reg d name = Ok m -> False.
Proof.
  intros Hd. unfold parse_module, rd_u32_raw_le. cbn [rd_len rd_pos rd_data]. destruct (Z.ltb_spec (Z.of_nat (length d)) (0 + 4)); [done|].
  destruct (rd d 0); [|done..]. destruct (rd d (0 + 1)); [|done..]. destruct (rd d (0 + 2)); [|done..]. destruct (rd d (0 + 3)); [|done..].
  cbn [obind or_fail rbind set_pos rd_len rd_pos]. destruct (Z.ltb_spec (Z.of_nat (length d)) (0 + 4 + 4)); [done|lia].
Qed.

Definition enough_memory (al : allocs) : bool := al_mod al && al_recs al && al_locals al && al_stack al.

(** A run ends early with an error, or is the meaning of the code of its module. *)
Lemma run_cases al d name input gas w :
  wf_bytes d -> Z.of_nat (length d) < M64 -> wf_input input ->
  (exists e, (rejected e \/ e = AK_E_WASM_OOM) /\ ak_wasm_interp_run reg al (Some d) name input gas w = Some (mk_run e None 0 0 w) /\
     forall m pc rc b, validated d name m pc rc b -> enough_memory al = false) \/
  (exists m pc rc b, validated d name m pc rc b /\ wmod_ok reg (Z.of_nat (length d)) m /\ 0 <= rc <= 1 /\
     body_ok m d (entry_body_end m) pc b /\ entry_body_end m <= Z.of_nat (length d) /\
     forall c, code_of m d b c ->
       ak_wasm_interp_run reg al (Some d) name input gas w = Some (run_of al rc (meaning m b pc rc input gas w c))).
Proof.
  intros Hw Hd Hi. unfold ak_wasm_interp_run, validated, enough_memory. destruct (Z.ltb_spec (Z.of_nat (length d)) 8).
  { left. eexists. split; [left; apply rejected_invalid|]. split; [done|]. intros m pc rc b (Hp & _). exfalso. by eapply parse_short. }
  cbv zeta. fold (limit gas). destruct (al_mod al); [|left; eexists; split; [by right|done]]. cbn [negb andb].
  pose proof (parse_module_sat reg d name Hw) as Hp. destruct (parse_module reg d name) as [m|e|] eqn:Em;
    [|left; exists e; split; [by left|]; split; [done|]; by intros ? ? ? ? (? & _)|done].
  destruct Hp as [Hm Hset]. destruct (entry_counts_ok _ m Hm Hset) as (pc & rc & Ec & Hpc & Hrc). rewrite Ec.
  destruct (al_recs al); [|left; eexists; split; [by right|done]]. cbn [negb andb]. destruct (ok_body _ _ _ Hm Hset) as (_ & Hb1 & Hb2).
  pose proof (validate_body_sat m d (entry_body_start m) (entry_body_end m) pc Hw Hb2 Hb1 Hpc) as Hv.
  destruct (validate_body m d _ _ pc) as [b|e|] eqn:Eb; [| |done].
  2: { left. exists e. split; [by left|]. split; [done|]. intros m' pc' rc' b' (Em' & Ec' & Eb'). injection Em' as <-. rewrite Ec in Ec'. injection Ec' as <- <-. congruence. }
  unfold run_body. destruct (al_locals al && al_stack al) eqn:Eal.
  2: { left. exists AK_E_WASM_OOM. split; [by right|]. split; [|done]. apply andb_false_iff in Eal as [->| ->]; cbn [negb orb]; [done|]. by rewrite orb_true_r. }
  apply andb_true_iff in Eal as [-> ->]. cbn [negb orb]. right. exists m, pc, rc, b. split_and!; try done; [lia..|]. intros c Hcode.
  destruct Hv as (Htab & Hst & Hfe & Htot & _ & Hc). destruct (init_locals_ok (b_total_locals b) pc input Htot Hi) as [Hl1 Hl2].
  rewrite (set_locals_eq _ _ _ Htot).
  rewrite (exec_body_eval reg m d (entry_body_end m) (b_func_end b) (b_total_locals b) (b_recs b) input (limit gas) (Z.of_nat (length d)) c) by done.
  fold (meaning m b pc rc input gas w c). unfold run_of, fails. destruct (ex_ret _ =? 0); [|done]. destruct (al_out al); done.
Qed.

(** The codes a run may return. *)
Definition run_code (e : Z) : Prop :=
  e = 0 \/ rejected e \/ e = AK_E_WASM_OOM \/ e = AK_E_WASM_TRAP \/ e = AK_E_WASM_TIMEOUT \/ e = AK_E_WASM_HOST_ERROR.

Lemma why_code_run y : run_code (why_code y) /\ why_code y <> 0.
Proof. unfold run_code. destruct y; cbn [why_code]; (split; [tauto|done]). Qed.

Lemma result_code rc (e : @eff W) : run_code (ex_ret (result_of rc e)).
Proof.
  destruct e as [s|s|y g w]; cbn [result_of]; [| |apply why_code_run]; unfold run_code; (destruct (rc =? 1); [destruct (st_stk s)|]; cbn [ex_ret]; tauto).
Qed.

(** C24: Untrusted bytes are run safely: whatever the module, the export name, the
    input, the allocator's answers and the host functions do, the interpreter reads
    only inside the module, stores only inside its arrays (the tables of the
    module, the name buffer of 64 bytes, the 512 jump records and the stack of
    open conditionals of the scan, the operand stack of 1024 slots and the locals), always
    returns, and returns one of the documented codes, with an output exactly when
    the code is 0. *)
Theorem wasm_run_safe al (d : bytes) name input gas (w : W) :
  wf_bytes d -> Z.of_nat (length d) < M64 -> wf_input input ->
  exists R, ak_wasm_interp_run reg al (Some d) name input gas w = Some R /\ run_code (run_ret R) /\ (run_ret R = 0 <-> is_Some (run_output R)).
Proof.
  intros Hw Hd Hi. destruct (run_cases al d name input gas w Hw Hd Hi) as [(e & He & -> & _)|(m & pc & rc & b & _ & _ & _ & Hbo & _ & Hrun)].
  - eexists. split; [done|]. cbn [run_ret run_output]. split; [unfold run_code; tauto|]. split; [|by intros [? ?]]. intros ->. destruct He as [[|[|]]|]; done.
  - destruct Hbo as (_ & _ & _ & _ & _ & [c Hc]). rewrite (Hrun c Hc). eexists. split; [done|]. pose proof (result_code rc (eval (callee reg m) input (limit gas) c (mk_st 0 (init_locals (b_total_locals b) pc input) [] w))) as Hcode.
    unfold run_of, meaning. destruct (Z.eqb_spec (ex_ret (result_of rc (eval (callee reg m) input (limit gas) c (mk_st 0 (init_locals (b_total_locals b) pc input) [] w)))) 0) as [E|E].
    + destruct (al_out al); cbn [negb run_ret run_output]; split; try (unfold run_code; tauto); [by split; [eauto|]|]. by split; [|intros [? ?]].
    + cbn [run_ret run_output]. split; [done|]. by split; [|intros [? ?]].
Qed.

(** C23: A module that passes validation means its structured code: the entry body decodes to nested operations and conditionals, and running the bytes, with jump table, program counter and bounded stack, returns exactly the code, result, output, gas and world of evaluating that code, arithmetic as the WASM specification defines it. *)
Theorem wasm_run_refines_semantics (d : bytes) name input gas (w : W) m pc rc b :
  wf_bytes d -> Z.of_nat (length d) < M64 -> wf_input input ->
  validated d name m pc rc b ->
  exists c, code_of m d b c /\
    ak_wasm_interp_run reg (mk_allocs true true true true true) (Some d) name input gas w =
    Some (run_of (mk_allocs true true true true true) rc (meaning m b pc rc input gas w c)).
Proof.
  intros Hw Hd Hi Hv. set (al := mk_allocs true true true true true).
  destruct (run_cases al d name input gas w Hw Hd Hi) as [(e & _ & _ & He)|(m' & pc' & rc' & b' & Hv' & _ & _ & Hbo & _ & Hrun)]; [by specialize (He _ _ _ _ Hv)|].
  destruct Hv as (V1 & V2 & V3), Hv' as (V1' & V2' & V3'). rewrite V1 in V1'. injection V1' as <-. rewrite V2 in V2'. injection V2' as <- <-.
  rewrite V3 in V3'. injection V3' as <-. destruct Hbo as (_ & _ & _ & _ & _ & [c Hc]). exists c. split; [done|]. by apply Hrun.
Qed.

Lemma limit_pos gas : 0 <= gas -> 1 <= limit gas.
Proof. intros Hg. unfold limit, IN_DEFAULT_GAS. destruct (Z.eqb_spec gas 0); lia. Qed.

(** The gas of a body, against the limit and against the bytes. *)
Lemma meaning_gas d m b pc rc input gas (w : W) c :
  0 <= gas -> wf_input input -> body_ok m d (entry_body_end m) pc b -> code_of m d b c ->
  let x := meaning m b pc rc input gas w c in
  0 <= ex_gas x <= entry_body_end m /\ ex_gas x <= limit gas + 1 /\ (ex_ret x = AK_E_WASM_TIMEOUT <-> ex_gas x = limit gas + 1).
Proof.
  intros Hg Hi (_ & Hst & Hfe & Htot & _ & _) Hc x. pose proof (limit_pos gas Hg) as HL. destruct (init_locals_ok (b_total_locals b) pc input Htot Hi) as [Hl1 Hl2].
  set (s0 := mk_st 0 (init_locals (b_total_locals b) pc input) [] w).
  pose proof (eval_gas_limit (callee reg m) input (limit gas) c s0 ltac:(cbn; lia)) as H1.
  pose proof (eval_spends reg m d (entry_body_end m) (b_total_locals b) (b_recs b) input (limit gas) c _ _ s0 Hc ltac:(by split_and!)) as H2.
  unfold x, meaning. fold s0. destruct (eval (callee reg m) input (limit gas) c s0) as [s|s|y g w']; cbn [good spends result_of] in *.
  - destruct H2 as [_ H2]. cbn [s0 st_gas] in H2. destruct (rc =? 1); [destruct (st_stk s)|]; cbn [ex_gas ex_ret]; (split_and!; [lia..|]); split; intros E; (done || lia).
  - destruct H2 as [_ H2]. cbn [s0 st_gas] in H2. destruct (rc =? 1); [destruct (st_stk s)|]; cbn [ex_gas ex_ret]; (split_and!; [lia..|]); split; intros E; (done || lia).
  - cbn [s0 st_gas ex_gas ex_ret] in *. unfold gas_q in H1. destruct (decide (y = OutOfGas)) as [->|Hy].
    + split_and!; [lia..|]. by split.
    + split_and!; [lia..|]. split; [|lia]. by destruct y.
Qed.

(** C38: Execution is bounded: a run uses no more gas than the module has bytes, for jumps only go forward, passes its gas limit by at most the instruction that is refused, and returns the timeout code exactly when it passed the limit; so a limit of at least the module's size never interrupts a run. *)
Theorem wasm_gas_bounded al (d : bytes) name input gas (w : W) R :
  wf_bytes d -> Z.of_nat (length d) < M64 -> wf_input input -> 0 <= gas ->
  ak_wasm_interp_run reg al (Some d) name input gas w = Some R ->
  0 <= run_gas R <= Z.of_nat (length d) /\ run_gas R <= limit gas + 1 /\ (run_ret R = AK_E_WASM_TIMEOUT <-> run_gas R = limit gas + 1).
Proof.
  intros Hw Hd Hi Hg. pose proof (limit_pos gas Hg) as HL.
  destruct (run_cases al d name input gas w Hw Hd Hi) as [(e & He & -> & _)|(m & pc & rc & b & _ & _ & _ & Hbo & Hend & Hrun)].
  - intros [= <-]. cbn [run_gas run_ret]. split_and!; [lia..|]. split; [intros ->; by destruct He as [[|[|]]|]|lia].
  - pose proof Hbo as (_ & _ & _ & _ & _ & [c Hc]). rewrite (Hrun c Hc). intros [= <-]. destruct (meaning_gas d m b pc rc input gas w c Hg Hi Hbo Hc) as (G1 & G2 & G3).
    unfold run_of. destruct (Z.eqb_spec (ex_ret (meaning m b pc rc input gas w c)) 0) as [E|E]; [destruct (al_out al); cbn [negb]|];
      cbn [run_gas run_ret]; (split_and!; [lia..|]); try done; (split; [done|]); intros E'; apply G3 in E'; by rewrite E in E'.
Qed.

(** C37: Well-typed code completes: when the structured code of a validated module
    has a stack type that leaves the declared result and never passes the
    stack's size, holds no division and no [unreachable], calls host functions
    that return no error, memory suffices and the gas limit is at least the
    module's size, the run returns 0 and its output. *)
Theorem wasm_typed_code_completes (d : bytes) name input gas (w : W) m pc rc b c o :
  wf_bytes d -> Z.of_nat (length d) < M64 -> wf_input input -> validated d name m pc rc b -> code_of m d b c ->
  stack_type (callee_returns (callee reg m)) rc c 0 = Some o -> (forall h, o = Some h -> rc <= h) -> total_code c = true ->
  (forall i fn r w, callee reg m i = Some (fn, r) -> 0 <= (fn w input).1) -> Z.of_nat (length d) <= limit gas -> 0 <= gas ->
  exists R, ak_wasm_interp_run reg (mk_allocs true true true true true) (Some d) name input gas w = Some R /\ run_ret R = 0 /\ is_Some (run_output R).
Proof.
  intros Hw Hd Hi Hv Hc Hty Hres Htot Hhost Hlim Hg. set (al := mk_allocs true true true true true).
  destruct (run_cases al d name input gas w Hw Hd Hi) as [(e & _ & _ & He)|(m' & pc' & rc' & b' & Hv' & Hm & _ & Hbo & Hend & Hrun)]; [by specialize (He _ _ _ _ Hv)|].
  destruct Hv as (V1 & V2 & V3), Hv' as (V1' & V2' & V3'). rewrite V1 in V1'. injection V1' as <-. rewrite V2 in V2'. injection V2' as <- <-. rewrite V3 in V3'. injection V3' as <-.
  rewrite (Hrun c Hc). destruct (meaning_gas d m b pc rc input gas w c Hg Hi Hbo Hc) as (G1 & G2 & G3).
  assert (Hnt : ex_ret (meaning m b pc rc input gas w c) <> AK_E_WASM_TIMEOUT) by (intros E; apply G3 in E; lia).
  assert (Hret : ex_ret (meaning m b pc rc input gas w c) = 0); [|eexists; split; [done|]; unfold run_of; rewrite Hret; cbn; eauto].
  unfold meaning in *. set (s0 := mk_st 0 (init_locals (b_total_locals b) pc input) [] w) in *.
  pose proof (typed_sound (callee reg m) input (limit gas) rc c s0 o Hty) as Hwell. destruct Hbo as (_ & Hst & _).
  pose proof (total_stops (callee reg m) input (limit gas) c (num_imports m) s0 (code_at_valid _ _ _ _ _ _ _ _ Hw Hend Hst Hc) Htot) as Hstop.
  assert (Hcal : forall i, 0 <= i < num_imports m -> exists fn r, callee reg m i = Some (fn, r) /\ forall w, 0 <= (fn w input).1).
  { intros i Hir. destruct (callee_ok reg m _ i Hm Hir) as (name' & t & hf & fn & rcc & _ & _ & _ & _ & _ & _ & Ec). exists fn, (rcc =? 1). split; [done|]. intros w0. by eapply Hhost. }
  specialize (Hstop Hcal). destruct (eval (callee reg m) input (limit gas) c s0) as [s|s|y g w']; cbn [well good result_of ex_ret] in *.
  - specialize (Hres _ Hwell). unfold depth in Hres. destruct (Z.eqb_spec rc 1) as [->|]; [|done]. destruct (st_stk s); [cbn in Hres; lia|done].
  - unfold depth in Hwell. destruct (Z.eqb_spec rc 1) as [->|]; [|done]. destruct (st_stk s); [cbn in Hwell; lia|done].
  - destruct Hwell. destruct Hstop as [->|[->| ->]]; done.
Qed.

(** The world a run leaves. *)
Lemma run_world_steps al (d : bytes) name input gas (w : W) R :
  wf_bytes d -> Z.of_nat (length d) < M64 -> wf_input input ->
  ak_wasm_interp_run reg al (Some d) name input gas w = Some R -> steps (host_step reg input) w (run_world R).
Proof.
  intros Hw Hd Hi.
  destruct (run_cases al d name input gas w Hw Hd Hi) as [(e & _ & -> & _)|(m & pc & rc & b & _ & Hm & _ & Hbo & Hend & Hrun)]; [intros [= <-]; apply steps_refl|].
  destruct Hbo as (_ & Hst & _ & _ & _ & [c Hc]). rewrite (Hrun c Hc). intros [= <-]. set (s0 := mk_st 0 (init_locals (b_total_locals b) pc input) [] w).
  pose proof (eval_world reg input _ m (limit gas) c w s0 Hm (code_at_valid _ _ _ _ _ _ _ _ Hw Hend Hst Hc) (steps_refl _ _)) as Hev.
  assert (Hx : steps (host_step reg input) w (ex_world (meaning m b pc rc input gas w c))).
  { unfold meaning. fold s0. destruct (eval (callee reg m) input (limit gas) c s0) as [s|s|y g w']; cbn [good result_of] in *; [| |done];
      (destruct (rc =? 1); [destruct (st_stk s)|]; done). }
  unfold run_of. destruct (_ =? 0); [destruct (al_out al)|]; done.
Qed.

(** Sandboxed code is confined: whatever the module does, the world it leaves is reached from the one it was given by calls of host functions that are registered, synchronous and present, each with the tool's own input; a module that calls none changes nothing. *)
Theorem wasm_confined al (d : bytes) name input gas (w : W) R :
  wf_bytes d -> Z.of_nat (length d) < M64 -> wf_input input ->
  ak_wasm_interp_run reg al (Some d) name input gas w = Some R -> steps (host_step reg input) w (run_world R).
Proof. apply run_world_steps. Qed.

End Run.

(** ** A module

    [(func (export "max") (param i64 i64) (result i64)
        (if (result i64) (i64.gt_u (local.get 0) (local.get 1))
          (then (local.get 0)) (else (call $time_now))))] *)

Definition sample_body : bytes := [0; 0x20; 0; 0x20; 1; 0x57; 0x04; 0x7E; 0x20; 0; 0x05; 0x10; 0; 0x0B; 0x0B].
Definition sample_module : bytes :=
  [0; 0x61; 0x73; 0x6d; 1; 0; 0; 0] ++ [1; 11; 2; 0x60; 0; 1; 0x7E; 0x60; 2; 0x7E; 0x7E; 1; 0x7E] ++
  [2; 16; 1; 3] ++ B"env" ++ [8] ++ B"time_now" ++ [0; 0] ++ [3; 2; 1; 1] ++ [7; 7; 1; 3] ++ B"max" ++ [0; 1] ++ [10; 17; 1; 15] ++ sample_body.

(** A clock that advances at each call. *)
Definition sample_clock : @host_fn Z := fun w _ => (Z.abs w, w + 1).
Definition sample_registry : list (@ak_host_fn_entry Z) := [mk_host_fn (B"time_now") (Some sample_clock) 0 false].
Definition sample_input (x y : Z) : option bytes := Some (le_enc 8 x ++ le_enc 8 y).
Definition all_allocs : allocs := mk_allocs true true true true true.

Example sample_then : ak_wasm_interp_run sample_registry all_allocs (Some sample_module) (Some (B"max")) (sample_input 9 5) 0 100 =
  Some (mk_run 0 (Some (le_enc 8 9)) 6 9 100).
Proof. vm_compute. reflexivity. Qed.
Example sample_else : ak_wasm_interp_run sample_registry all_allocs (Some sample_module) (Some (B"max")) (sample_input 5 9) 0 100 =
  Some (mk_run 0 (Some (le_enc 8 100)) 6 100 101).
Proof. vm_compute. reflexivity. Qed.

Definition sample_mod : wmod_t := match parse_module sample_registry sample_module (Some (B"max")) with Ok m => m | _ => wmod_zero end.
Definition sample_checked : body_t :=
  match validate_body sample_mod sample_module (entry_body_start sample_mod) (entry_body_end sample_mod) 2 with Ok b => b | _ => mk_body [] 0 0 0 end.
Definition sample_code : code := Op (OGet 0) (Op (OGet 1) (Op (OBin W64 GtU) (IfElse (Op (OGet 0) Done) (Op (OCall 0) Done) Done))).

Lemma sample_wf : wf_bytes sample_module.
Proof. vm_compute. repeat constructor; discriminate. Qed.
Lemma sample_input_wf x y : wf_input (sample_input x y).
Proof. apply Forall_app. split; apply wf_le_enc. Qed.
Lemma sample_validated : validated sample_registry sample_module (Some (B"max")) sample_mod 2 1 sample_checked.
Proof. split_and!; vm_compute; reflexivity. Qed.

Ltac imm_here := eexists; split; [vm_compute; reflexivity|reflexivity].
Lemma sample_code_of : code_of sample_mod sample_module sample_checked sample_code.
Proof.
  unfold code_of. vm_compute. eapply at_op; [split_and!; [reflexivity|imm_here|lia]|vm_compute; split; [reflexivity|discriminate]|].
  eapply at_op; [split_and!; [reflexivity|imm_here|lia]|vm_compute; split; [reflexivity|discriminate]|].
  eapply at_op; [split; reflexivity|vm_compute; split; [reflexivity|discriminate]|].
  eapply (at_ifelse _ _ _ _ _ _ _ _ 62 66 69); [reflexivity| |reflexivity| |reflexivity|apply list_elem_of_here|apply at_done].
  - eapply at_op; [split_and!; [reflexivity|imm_here|lia]|vm_compute; split; [reflexivity|discriminate]|apply at_done].
  - eapply at_op; [split_and!; [reflexivity|imm_here|lia]|vm_compute; split; [reflexivity|discriminate]|apply at_done].
Qed.

Lemma wasm_run_safe_witness :
  exists R, ak_wasm_interp_run sample_registry all_allocs (Some sample_module) None (sample_input 1 2) 0 7 = Some R /\
    run_code (run_ret R) /\ (run_ret R = 0 <-> is_Some (run_output R)).
Proof. apply (wasm_run_safe sample_registry all_allocs sample_module None); [apply sample_wf|vm_compute; reflexivity|apply sample_input_wf]. Defined.

Lemma wasm_run_refines_semantics_witness :
  exists c, code_of sample_mod sample_module sample_checked c /\
    ak_wasm_interp_run sample_registry all_allocs (Some sample_module) (Some (B"max")) (sample_input 9 5) 0 100 =
    Some (run_of all_allocs 1 (meaning sample_registry sample_mod sample_checked 2 1 (sample_input 9 5) 0 100 c)).
Proof.
  apply (wasm_run_refines_semantics sample_registry sample_module (Some (B"max")) (sample_input 9 5) 0 100 sample_mod 2 1 sample_checked);
    [apply sample_wf|vm_compute; reflexivity|apply sample_input_wf|apply sample_validated].
Defined.

Lemma wasm_gas_bounded_witness :
  let R := mk_run AK_E_WASM_TIMEOUT None 4 0 100 in
  0 <= run_gas R <= Z.of_nat (length sample_module) /\ run_gas R <= limit 3 + 1 /\ (run_ret R = AK_E_WASM_TIMEOUT <-> run_gas R = limit 3 + 1).
Proof.
  apply (wasm_gas_bounded sample_registry all_allocs sample_module (Some (B"max")) (sample_input 9 5) 3 100);
    [apply sample_wf|vm_compute; reflexivity|apply sample_input_wf|lia|vm_compute; reflexivity].
Defined.

Lemma wasm_typed_code_completes_witness :
  exists R, ak_wasm_interp_run sample_registry all_allocs (Some sample_module) (Some (B"max")) (sample_input 5 9) 0 100 = Some R /\
    run_ret R = 0 /\ is_Some (run_output R).
Proof.
  apply (wasm_typed_code_completes sample_registry sample_module (Some (B"max")) (sample_input 5 9) 0 100 sample_mod 2 1 sample_checked sample_code (Some 1));
    [apply sample_wf|vm_compute; reflexivity|apply sample_input_wf|apply sample_validated|apply sample_code_of|vm_compute; reflexivity| | | | |lia].
  - intros h [= <-]. lia.
  - reflexivity.
  - intros i fn r w H. unfold callee in H. destruct (aget _ i) as [name| |]; try discriminate. destruct (aget (import_type _) i) as [t| |]; try discriminate.
    cbn [sample_registry ak_host_fn_get hf_name] in H. destruct (bytes_eqb _ _); [|discriminate]. destruct (aget _ t) as [rc| |]; try discriminate. cbn [hf_fn] in H.
    injection H as <- _. cbn. lia.
  - vm_compute. discriminate.
Defined.

Lemma wasm_confined_witness : steps (host_step sample_registry (sample_input 5 9)) 100 101.
Proof.
  apply (wasm_confined sample_registry all_allocs sample_module (Some (B"max")) (sample_input 5 9) 0 100 (mk_run 0 (Some (le_enc 8 100)) 6 100 101));
    [apply sample_wf|vm_compute; reflexivity|apply sample_input_wf|vm_compute; reflexivity].
Defined.

(** ** Deviations from the specification *)

(** An [i32] parameter is loaded with eight bytes of the input and returned
    without truncation: the identity function on [i32] returns [2^40]. *)
Definition identity_i32 : bytes :=
  [0; 0x61; 0x73; 0x6d; 1; 0; 0; 0] ++ [1; 6; 1; 0x60; 1; 0x7F; 1; 0x7F] ++ [3; 2; 1; 0] ++ [7; 5; 1; 1; 105; 0; 0] ++ [10; 6; 1; 4; 0; 0x20; 0; 0x0B].
Example i32_parameter_not_truncated :
  exists R, ak_wasm_interp_run (W := unit) [] all_allocs (Some identity_i32) None (Some (le_enc 8 (2 ^ 40))) 0 tt = Some R /\ run_result R = 2 ^ 40.
Proof. eexists. split; vm_compute; reflexivity. Qed.

(** Sections may come in any order: an import section behind the code section
    shifts the index space after the entry was chosen, so that export index 1,
    the first local function of this module, runs the second one. *)
Definition shifted_module : bytes :=
  [0; 0x61; 0x73; 0x6d; 1; 0; 0; 0] ++ [1; 5; 1; 0x60; 0; 1; 0x7E] ++ [3; 3; 2; 0; 0] ++ [7; 5; 1; 1; 102; 0; 1] ++
  [10; 11; 2; 4; 0; 0x42; 10; 0x0B; 4; 0; 0x42; 20; 0x0B] ++ [2; 16; 1; 3] ++ B"env" ++ [8] ++ B"time_now" ++ [0; 0].
Example sections_out_of_order_accepted :
  exists R, ak_wasm_interp_run sample_registry all_allocs (Some shifted_module) None None 0 0 = Some R /\ run_ret R = 0 /\ run_result R = 20.
Proof. eexists. split_and!; vm_compute; reflexivity. Qed.
