(* ===== verification/WasmTools.v ===== *)
(** * WASM modules, tools and their execution ([src/src/agentic/ak_wasm.c])

    The registries of modules and tools, execution contexts with suspension,
    and [ak_wasm_execute_tool], which looks a tool up, validates the caller's
    capability and runs the interpreter; and [ak_handle_call] of
    [ak_syscall.c], the request handler in front of it.  Modules live in a
    store keyed by address, so that a pointer to an unloaded module is
    distinguished from one to a live module: following it is [Oob]. *)

From S2P Require Import Prelude Crypto Pattern Keys TokenTable Revocation Capability Json Budget Sequence Policy Dispatch WasmParse WasmExec WasmRun.
Open Scope ak_scope.

Definition AK_MAX_WASM_MODULES : Z := 64.
Definition AK_MAX_TOOLS : Z := 256.
Definition AK_E_WASM_LOAD_FAILED : Z := -4501.
Definition AK_E_TOOL_NOT_FOUND : Z := -4403.
Definition AK_E_CONFLICT : Z := -4400.
Definition AK_E_TOOL_FAIL : Z := -4401.
Definition AK_WASM_DEFAULT_MAX_MEMORY : Z := 64 * 1024 * 1024.
Definition AK_WASM_DEFAULT_MAX_STACK : Z := 4096.
Definition AK_WASM_DEFAULT_MAX_INSTRUCTIONS : Z := 100 * 1000 * 1000.
Definition AK_WASM_DEFAULT_MAX_RUNTIME_MS : Z := 30000.

(** ** Data *)

Inductive ak_wasm_source := AK_WASM_SOURCE_EMBEDDED | AK_WASM_SOURCE_NETWORK | AK_WASM_SOURCE_HEAP.

Record ak_wasm_module := mk_module {
  wm_id : bytes; wm_name : bytes; wm_hash : bytes; wm_source : ak_wasm_source; wm_source_url : bytes; wm_bytecode : bytes;
  wm_max_memory : Z; wm_max_stack : Z; wm_max_instructions : Z; wm_max_runtime_ms : Z; wm_verified : bool; wm_sandboxed : bool;
  wm_signature : bytes; wm_signing_key : bytes; wm_loaded_ms : Z; wm_last_used_ms : Z; wm_invocation_count : Z }.

Record ak_tool := mk_tool {
  tl_name : bytes; tl_module : option Z; tl_export_name : bytes; tl_cap_type : Z; tl_cap_resource : bytes;
  tl_rate_limit : Z; tl_rate_window_ms : Z; tl_log_args : bool; tl_log_result : bool; tl_sensitive : bool }.

Record ak_wasm_stats := mk_wstats {
  modules_loaded : Z; tools_registered : Z; executions_total : Z; executions_success : Z; executions_failed : Z; executions_timeout : Z;
  executions_oom : Z; total_instructions : Z; total_runtime_ms : Z; host_calls_total : Z; host_calls_denied : Z; signature_failures : Z }.

Section Tools.
Context {W : Type} `{Hash} (raw_s : bytes -> bytes).

(** [ak_wasm_state]: [ws_store] holds the modules that are allocated,
    [ws_modules] the entries [modules[0 .. module_count)], [None] being NULL. *)
Record wasm_state := mk_ws {
  ws_initialized : bool; ws_store : gmap Z ak_wasm_module; ws_modules : list (option Z); ws_tools : list ak_tool;
  ws_host_fns : list (@ak_host_fn_entry W); ws_stats : ak_wasm_stats }.

Definition on_wstats (f : ak_wasm_stats -> ak_wasm_stats) (s : wasm_state) : wasm_state :=
  mk_ws (ws_initialized s) (ws_store s) (ws_modules s) (ws_tools s) (ws_host_fns s) (f (ws_stats s)).
Definition set_store (st : gmap Z ak_wasm_module) (s : wasm_state) : wasm_state :=
  mk_ws (ws_initialized s) st (ws_modules s) (ws_tools s) (ws_host_fns s) (ws_stats s).

Definition zero_stats : ak_wasm_stats := mk_wstats 0 0 0 0 0 0 0 0 0 0 0 0.
Definition count_module (t : ak_wasm_stats) : ak_wasm_stats :=
  let '(mk_wstats a b c d e f g h i j k l) := t in mk_wstats (u64 (a + 1)) b c d e f g h i j k l.
Definition count_tool (t : ak_wasm_stats) : ak_wasm_stats :=
  let '(mk_wstats a b c d e f g h i j k l) := t in mk_wstats a (u64 (b + 1)) c d e f g h i j k l.
Definition count_execution (t : ak_wasm_stats) : ak_wasm_stats :=
  let '(mk_wstats a b c d e f g h i j k l) := t in mk_wstats a b (u64 (c + 1)) d e f g h i j k l.
Definition count_success (t : ak_wasm_stats) : ak_wasm_stats :=
  let '(mk_wstats a b c d e f g h i j k l) := t in mk_wstats a b c (u64 (d + 1)) e f g h i j k l.
Definition count_failed (t : ak_wasm_stats) : ak_wasm_stats :=
  let '(mk_wstats a b c d e f g h i j k l) := t in mk_wstats a b c d (u64 (e + 1)) f g h i j k l.
Definition count_timeout (t : ak_wasm_stats) : ak_wasm_stats :=
  let '(mk_wstats a b c d e f g h i j k l) := t in mk_wstats a b c d e (u64 (f + 1)) g h i j k l.
Definition count_oom (t : ak_wasm_stats) : ak_wasm_stats :=
  let '(mk_wstats a b c d e f g h i j k l) := t in mk_wstats a b c d e f (u64 (g + 1)) h i j k l.
Definition count_work (gas ms : Z) (t : ak_wasm_stats) : ak_wasm_stats :=
  let '(mk_wstats a b c d e f g h i j k l) := t in mk_wstats a b c d e f g (u64 (h + gas)) (u64 (i + ms)) j k l.
Definition count_denied (t : ak_wasm_stats) : ak_wasm_stats :=
  let '(mk_wstats a b c d e f g h i j k l) := t in mk_wstats a b c d e f g h i j (u64 (k + 1)) l.
Definition count_bad_signature (t : ak_wasm_stats) : ak_wasm_stats :=
  let '(mk_wstats a b c d e f g h i j k l) := t in mk_wstats a b c d e f g h i j k (u64 (l + 1)).

(** A C string stored in a field of [n] bytes. *)
Definition field (n : nat) (s : bytes) : bytes := take (n - 1) (cstr s).

(** ** Initialisation *)

(** The built-in host functions: name, capability type, whether asynchronous. *)
Definition builtins : list (bytes * Z * bool) :=
  [(B"http_get", AK_CAP_NET, true); (B"http_post", AK_CAP_NET, true); (B"tcp_connect", AK_CAP_NET, true); (B"tcp_send", AK_CAP_NET, false);
   (B"tcp_recv", AK_CAP_NET, true); (B"fs_read", AK_CAP_FS, false); (B"fs_write", AK_CAP_FS, false); (B"fs_stat", AK_CAP_FS, false);
   (B"fs_list", AK_CAP_FS, false); (B"heap_read", AK_CAP_HEAP, false); (B"heap_write", AK_CAP_HEAP, false); (B"secret_get", 4, false);
   (B"llm_complete", AK_CAP_INFERENCE, true); (B"log", AK_CAP_TOOL, false); (B"time_now", AK_CAP_TOOL, false); (B"random", AK_CAP_TOOL, false)].

(** [host name] is the function [ak_host_<name>]. *)
Definition ak_wasm_init (host : bytes -> @host_fn W) (s : wasm_state) : wasm_state :=
  if ws_initialized s then s
  else
    mk_ws true (ws_store s) [] []
      (foldl (fun reg '(name, cap, async) => (ak_host_fn_register reg name (Some (host name)) cap async).2) [] builtins) zero_stats.

(** ** Modules *)

Definition le32 (a b c d : Z) : Z := Z.lor (Z.lor (Z.lor a (Z.shiftl b 8)) (Z.shiftl c 16)) (Z.shiftl d 24).
Definition validate_wasm_header (bytecode : bytes) : bool :=
  match bytecode with
  | a0 :: a1 :: a2 :: a3 :: v0 :: v1 :: v2 :: v3 :: _ => (le32 a0 a1 a2 a3 =? 0x6d736100) && (le32 v0 v1 v2 v3 =? 1)
  | _ => false
  end.

Definition compute_module_hash (bytecode : bytes) : bytes := hash (take (Z.to_nat (u32 (Z.of_nat (length bytecode)))) bytecode).

(** The allocator gives address [addr] for the module, [None] when it fails; [al] is whether the bytecode buffer is allocated. *)
Definition ak_wasm_module_load (s : wasm_state) (name : bytes) (bytecode : bytes) (source : ak_wasm_source) (source_url : option bytes)
  (rnd : bytes) (now_ms : Z) (addr : option Z) (al : bool) : option Z * wasm_state :=
  if negb (ws_initialized s) then (None, s)
  else if AK_MAX_WASM_MODULES <=? Z.of_nat (length (ws_modules s)) then (None, s)
  else if negb (validate_wasm_header bytecode) then (None, s)
  else
    match addr with
    | None => (None, s)
    | Some p =>
        if negb al then (None, s)
        else
          let m := mk_module rnd (field 64 name) (compute_module_hash bytecode) source (match source_url with Some u => field 256 u | None => [] end) bytecode
            AK_WASM_DEFAULT_MAX_MEMORY AK_WASM_DEFAULT_MAX_STACK AK_WASM_DEFAULT_MAX_INSTRUCTIONS AK_WASM_DEFAULT_MAX_RUNTIME_MS false true
            (zeros 64) (zeros 32) now_ms 0 0 in
          (Some p, mk_ws true (<[p := m]> (ws_store s)) (ws_modules s ++ [Some p]) (ws_tools s) (ws_host_fns s) (count_module (ws_stats s)))
    end.

Definition mark_verified (sig key : bytes) (m : ak_wasm_module) : ak_wasm_module :=
  mk_module (wm_id m) (wm_name m) (wm_hash m) (wm_source m) (wm_source_url m) (wm_bytecode m) (wm_max_memory m) (wm_max_stack m) (wm_max_instructions m)
    (wm_max_runtime_ms m) true (wm_sandboxed m) (take 64 sig) (take 32 key) (wm_loaded_ms m) (wm_last_used_ms m) (wm_invocation_count m).

(** [trusted] and [verify] are [ak_ed25519_is_trusted] and [ak_ed25519_verify]. *)
Definition ak_wasm_module_load_verified (trusted : bytes -> bool) (verify : bytes -> bytes -> bytes -> bool) (s : wasm_state) (name bytecode : bytes)
  (source : ak_wasm_source) (source_url signature public_key : option bytes) (rnd : bytes) (now_ms : Z) (addr : option Z) (al : bool) : option Z * wasm_state :=
  if negb (ws_initialized s) then (None, s)
  else
    match signature, public_key with
    | Some sig, Some key =>
        if negb (trusted key) then (None, on_wstats count_bad_signature s)
        else if negb (verify bytecode sig key) then (None, on_wstats count_bad_signature s)
        else
          match ak_wasm_module_load s name bytecode source source_url rnd now_ms addr al with
          | (None, s) => (None, s)
          | (Some p, s) => (Some p, set_store (alter (mark_verified sig key) p (ws_store s)) s)
          end
    | _, _ => (None, s)
    end.

(** The capability is validated, and nothing is fetched. *)
Definition ak_wasm_module_fetch (s : wasm_state) (caps : cap_state) (url : option bytes) (net_cap : option ak_capability) (v : val_env) : option Z * cap_state :=
  if negb (ws_initialized s) then (None, caps)
  else
    match net_cap with
    | None => (None, caps)
    | Some c => (None, (ak_capability_validate raw_s caps (Some c) AK_CAP_NET url (Some (B"GET")) None (ve_now_verify v) (ve_now_rate v) (ve_alloc_mac v) (ve_alloc_rate v)).2)
    end.

(** The entry of [p] leaves the array and the later ones move down. *)
Fixpoint remove_entry (p : Z) (l : list (option Z)) : list (option Z) :=
  match l with
  | [] => []
  | q :: l' => if bool_decide (q = Some p) then l' else q :: remove_entry p l'
  end.

Definition ak_wasm_module_unload (s : wasm_state) (m : option Z) : wasm_state :=
  match m with
  | None => s
  | Some p => mk_ws (ws_initialized s) (delete p (ws_store s)) (remove_entry p (ws_modules s)) (ws_tools s) (ws_host_fns s) (ws_stats s)
  end.

(** The lookups follow every pointer before the one they return. *)
Fixpoint find_module (st : gmap Z ak_wasm_module) (f : ak_wasm_module -> bool) (l : list (option Z)) : outcome (option Z) :=
  match l with
  | [] => Ret None
  | None :: l' => find_module st f l'
  | Some p :: l' =>
      match st !! p with
      | None => Oob
      | Some m => if f m then Ret (Some p) else find_module st f l'
      end
  end.
Definition ak_wasm_module_get (s : wasm_state) (name : bytes) : outcome (option Z) :=
  find_module (ws_store s) (fun m => bytes_eqb (wm_name m) (cstr name)) (ws_modules s).
Definition ak_wasm_module_get_by_hash (s : wasm_state) (h : bytes) : outcome (option Z) :=
  find_module (ws_store s) (fun m => bytes_eqb (wm_hash m) h) (ws_modules s).

(** The loop of [ak_wasm_shutdown] over [modules]; unloading shifts the array under it. *)
Fixpoint shutdown_loop (fuel : nat) (i : nat) (s : wasm_state) : wasm_state :=
  match fuel with
  | O => s
  | S fuel' =>
      if (i <? length (ws_modules s))%nat then
        match ws_modules s !! i with
        | Some (Some p) =>
            let s := ak_wasm_module_unload s (Some p) in
            shutdown_loop fuel' (i + 1) (mk_ws (ws_initialized s) (ws_store s) (<[i := None]> (ws_modules s)) (ws_tools s) (ws_host_fns s) (ws_stats s))
        | _ => shutdown_loop fuel' (i + 1) s
        end
      else s
  end.
Definition ak_wasm_shutdown (s : wasm_state) : wasm_state :=
  if negb (ws_initialized s) then s
  else let s := shutdown_loop (length (ws_modules s)) 0 s in mk_ws false (ws_store s) [] [] (ws_host_fns s) (ws_stats s).

(** ** Tools *)

Fixpoint find_tool (l : list ak_tool) (name : bytes) : option ak_tool :=
  match l with
  | [] => None
  | t :: l' => if bytes_eqb (tl_name t) (cstr name) then Some t else find_tool l' name
  end.
Definition ak_tool_get (s : wasm_state) (name : bytes) : option ak_tool := find_tool (ws_tools s) name.
Definition ak_tool_list (s : wasm_state) : list ak_tool := ws_tools s.

Definition ak_tool_register (s : wasm_state) (name : bytes) (module : option Z) (export_name : bytes) (cap_type : Z) (cap_resource : option bytes) (al : bool) : Z * wasm_state :=
  if negb (ws_initialized s) then (AK_E_WASM_LOAD_FAILED, s)
  else if AK_MAX_TOOLS <=? Z.of_nat (length (ws_tools s)) then (AK_E_QUOTA_EXCEEDED, s)
  else
    match ak_tool_get s name with
    | Some _ => (AK_E_CONFLICT, s)
    | None =>
        if negb al then (AK_E_WASM_OOM, s)
        else
          let t := mk_tool (field 64 name) module (field 64 export_name) cap_type (match cap_resource with Some r => field 256 r | None => [] end) 100 60000 true true false in
          (0, mk_ws true (ws_store s) (ws_modules s) (ws_tools s ++ [t]) (ws_host_fns s) (count_tool (ws_stats s)))
    end.

Fixpoint remove_tool (l : list ak_tool) (name : bytes) : list ak_tool :=
  match l with
  | [] => []
  | t :: l' => if bytes_eqb (tl_name t) (cstr name) then l' else t :: remove_tool l' name
  end.
Definition ak_tool_unregister (s : wasm_state) (name : bytes) : wasm_state :=
  mk_ws (ws_initialized s) (ws_store s) (ws_modules s) (remove_tool (ws_tools s) name) (ws_host_fns s) (ws_stats s).

(** ** Execution contexts *)

Inductive ak_wasm_exec_state :=
| AK_WASM_STATE_INIT | AK_WASM_STATE_RUNNING | AK_WASM_STATE_SUSPENDED | AK_WASM_STATE_COMPLETED | AK_WASM_STATE_FAILED | AK_WASM_STATE_TIMEOUT | AK_WASM_STATE_OOM.

#[export] Instance exec_state_dec : EqDecision ak_wasm_exec_state.
Proof. solve_decision. Defined.

Inductive ak_wasm_suspend_reason :=
| AK_WASM_SUSPEND_NONE | AK_WASM_SUSPEND_HOST_CALL | AK_WASM_SUSPEND_APPROVAL | AK_WASM_SUSPEND_RESOURCE | AK_WASM_SUSPEND_IO.

(** [resume_data]: NULL, an allocation, or [INVALID_ADDRESS]. *)
Inductive blob := BNull | BMem (b : bytes) | BInvalid.

Record ak_wasm_suspension := mk_susp {
  su_reason : ak_wasm_suspend_reason; su_time_ms : Z; su_data : blob; su_data_len : Z; su_callback : Z; su_timeout_ms : Z; su_approval_id : Z }.

Record ak_wasm_exec_ctx := mk_exctx {
  ec_id : bytes; ec_module : option Z; ec_tool : option ak_tool; ec_cap : option ak_capability; ec_input : option bytes; ec_output : option bytes;
  ec_result_code : Z; ec_state : ak_wasm_exec_state; ec_suspension : ak_wasm_suspension; ec_instructions : Z; ec_start_ms : Z; ec_elapsed_ms : Z }.

Definition no_suspension : ak_wasm_suspension := mk_susp AK_WASM_SUSPEND_NONE 0 BNull 0 0 0 0.

Definition ak_wasm_exec_create (tool : ak_tool) (cap : option ak_capability) (rnd : bytes) (al : bool) : option ak_wasm_exec_ctx :=
  if negb al then None
  else Some (mk_exctx rnd (tl_module tool) (Some tool) cap None None 0 AK_WASM_STATE_INIT no_suspension 0 0 0).

Definition set_susp (c : ak_wasm_exec_ctx) (st : ak_wasm_exec_state) (u : ak_wasm_suspension) : ak_wasm_exec_ctx :=
  mk_exctx (ec_id c) (ec_module c) (ec_tool c) (ec_cap c) (ec_input c) (ec_output c) (ec_result_code c) st u (ec_instructions c) (ec_start_ms c) (ec_elapsed_ms c).

(** The copy of the caller's data; the length is kept when the allocation fails. *)
Definition copy_blob (data : option bytes) (old_len : Z) (al : bool) : bool * (blob * Z) :=
  match data with
  | Some ((_ :: _) as b) => if al then (true, (BMem b, Z.of_nat (length b))) else (false, (BInvalid, old_len))
  | _ => (true, (BNull, 0))
  end.

Definition ak_wasm_exec_suspend (c : option ak_wasm_exec_ctx) (reason : ak_wasm_suspend_reason) (data : option bytes) (cb timeout_ms now_ms : Z) (al : bool) :
  Z * option ak_wasm_exec_ctx :=
  match c with
  | None => (AK_E_WASM_TRAP, None)
  | Some c =>
      if negb (bool_decide (ec_state c = AK_WASM_STATE_RUNNING)) then (AK_E_WASM_TRAP, Some c)
      else
        let '(ok, (d, n)) := copy_blob data (su_data_len (ec_suspension c)) al in
        let u := mk_susp reason now_ms d n cb timeout_ms 0 in
        if ok then (0, Some (set_susp c AK_WASM_STATE_SUSPENDED u)) else (AK_E_WASM_OOM, Some (set_susp c AK_WASM_STATE_OOM u))
  end.

(** [deallocate] of what a context holds: giving back [INVALID_ADDRESS] is [Oob]. *)
Definition free_blob (d : blob) (n : Z) : outcome unit :=
  match d with
  | BNull => Ret tt
  | BMem _ => Ret tt
  | BInvalid => if 0 <? n then Oob else Ret tt
  end.

Definition ak_wasm_exec_resume (c : option ak_wasm_exec_ctx) (result : option bytes) (al : bool) : outcome (Z * option ak_wasm_exec_ctx) :=
  match c with
  | None => Ret (AK_E_WASM_TRAP, None)
  | Some c =>
      if negb (bool_decide (ec_state c = AK_WASM_STATE_SUSPENDED)) then Ret (AK_E_WASM_TRAP, Some c)
      else
        let u := ec_suspension c in
        let* _x := free_blob (su_data u) (su_data_len u) in
        let '(ok, (d, n)) := copy_blob result (su_data_len u) al in
        if ok then
          Ret (0, Some (set_susp c AK_WASM_STATE_RUNNING (mk_susp AK_WASM_SUSPEND_NONE (su_time_ms u) d n (su_callback u) (su_timeout_ms u) (su_approval_id u))))
        else Ret (AK_E_WASM_OOM, Some (set_susp c AK_WASM_STATE_OOM (mk_susp (su_reason u) (su_time_ms u) d n (su_callback u) (su_timeout_ms u) (su_approval_id u))))
  end.

Definition ak_wasm_exec_is_suspended (c : option ak_wasm_exec_ctx) : bool :=
  match c with Some c => bool_decide (ec_state c = AK_WASM_STATE_SUSPENDED) | None => false end.
Definition ak_wasm_exec_suspend_reason (c : option ak_wasm_exec_ctx) : ak_wasm_suspend_reason :=
  match c with
  | Some c => if bool_decide (ec_state c = AK_WASM_STATE_SUSPENDED) then su_reason (ec_suspension c) else AK_WASM_SUSPEND_NONE
  | None => AK_WASM_SUSPEND_NONE
  end.

(** The buffers a context gives back when it is destroyed: its input, its output. *)
Definition ak_wasm_exec_destroy (c : option ak_wasm_exec_ctx) : outcome (list bytes) :=
  match c with
  | None => Ret []
  | Some c =>
      let* _x := free_blob (su_data (ec_suspension c)) (su_data_len (ec_suspension c)) in
      Ret (match ec_input c with Some b => [b] | None => [] end ++ match ec_output c with Some b => [b] | None => [] end)
  end.

(** ** Running *)

(** Clock readings and allocations of one run. *)
Record run_env := mk_renv { re_now_start : Z; re_now_end : Z; re_allocs : allocs }.

Definition ran (c : ak_wasm_exec_ctx) (st : ak_wasm_exec_state) (input output : option bytes) (result gas start elapsed : Z) : ak_wasm_exec_ctx :=
  mk_exctx (ec_id c) (ec_module c) (ec_tool c) (ec_cap c) input output result st (ec_suspension c) gas start elapsed.

Definition ak_wasm_exec_run (s : wasm_state) (w : W) (c : ak_wasm_exec_ctx) (input : option bytes) (env : run_env) : outcome (Z * ak_wasm_exec_ctx * wasm_state * W) :=
  if negb (bool_decide (ec_state c = AK_WASM_STATE_INIT)) then Ret (AK_E_WASM_TRAP, c, s, w)
  else
    let s := on_wstats count_execution s in
    let elapsed := u64 (re_now_end env - re_now_start env) in
    match ec_module c, ec_tool c with
    | Some p, Some tool =>
        match ws_store s !! p with
        | None => Oob
        | Some m =>
            match ak_wasm_interp_run (ws_host_fns s) (re_allocs env) (Some (wm_bytecode m)) (Some (tl_export_name tool)) input (wm_max_instructions m) w with
            | None => Oob
            | Some r =>
                let s := on_wstats (count_work (run_gas r) elapsed) s in
                if run_ret r =? 0 then
                  Ret (0, ran c AK_WASM_STATE_COMPLETED input (run_output r) (run_result r) (run_gas r) (re_now_start env) elapsed, on_wstats count_success s, run_world r)
                else
                  let '(st, f) :=
                    if run_ret r =? AK_E_WASM_TIMEOUT then (AK_WASM_STATE_TIMEOUT, count_timeout)
                    else if run_ret r =? AK_E_WASM_OOM then (AK_WASM_STATE_OOM, count_oom)
                    else (AK_WASM_STATE_FAILED, count_failed) in
                  Ret (run_ret r, ran c st input None (run_ret r) (run_gas r) (re_now_start env) elapsed, on_wstats f s, run_world r)
            end
        end
    | _, _ =>
        Ret (AK_E_WASM_INVALID_MODULE, ran c AK_WASM_STATE_FAILED input (ec_output c) AK_E_WASM_INVALID_MODULE (ec_instructions c) (re_now_start env) elapsed,
             on_wstats count_failed s, w)
    end.

Definition use_module (now_ms : Z) (m : ak_wasm_module) : ak_wasm_module :=
  mk_module (wm_id m) (wm_name m) (wm_hash m) (wm_source m) (wm_source_url m) (wm_bytecode m) (wm_max_memory m) (wm_max_stack m) (wm_max_instructions m)
    (wm_max_runtime_ms m) (wm_verified m) (wm_sandboxed m) (wm_signature m) (wm_signing_key m) (wm_loaded_ms m) now_ms (u64 (wm_invocation_count m + 1)).

(** Environment of one execution: the capability check, the context, the run, the response, the clock at the end. *)
Record tool_env := mk_tenv { te_val : val_env; te_rnd : bytes; te_alloc_ctx : bool; te_run : run_env; te_alloc_res : bool; te_now_used : Z }.

(** The response and the states, with the buffers that were given back. *)
Record executed := mk_executed { xd_res : option ak_response; xd_state : wasm_state; xd_caps : cap_state; xd_world : W; xd_freed : list bytes }.

Definition refused (env : tool_env) (s : wasm_state) (caps : cap_state) (w : W) (e : Z) : outcome executed :=
  Ret (mk_executed (ak_response_error (te_alloc_res env) None e) s caps w []).

(** Steps 3 to 5: context, run, response, usage, cleanup. *)
Definition run_tool (s : wasm_state) (caps : cap_state) (w : W) (tool : ak_tool) (args : option bytes) (cap : option ak_capability) (env : tool_env) : outcome executed :=
  match ak_wasm_exec_create tool cap (te_rnd env) (te_alloc_ctx env) with
  | None => refused env s caps w AK_E_WASM_OOM
  | Some c =>
      let* r := ak_wasm_exec_run s w c args (te_run env) in
      let '(result, c, s, w) := r in
      let success := (result =? 0) && bool_decide (ec_state c = AK_WASM_STATE_COMPLETED) in
      let error_code := if negb (ec_result_code c =? 0) then ec_result_code c else if negb (result =? 0) then result else AK_E_WASM_TRAP in
      let response := if success then ak_response_success (te_alloc_res env) None (ec_output c) else ak_response_error (te_alloc_res env) None error_code in
      let c := if success then mk_exctx (ec_id c) (ec_module c) (ec_tool c) (ec_cap c) (ec_input c) None (ec_result_code c) (ec_state c) (ec_suspension c)
                                 (ec_instructions c) (ec_start_ms c) (ec_elapsed_ms c) else c in
      match tl_module tool with
      | None => Oob
      | Some p =>
          match ws_store s !! p with
          | None => Oob
          | Some m =>
              let s := set_store (<[p := use_module (te_now_used env) m]> (ws_store s)) s in
              let* freed := ak_wasm_exec_destroy (Some c) in
              Ret (mk_executed response s caps w freed)
          end
      end
  end.

Definition ak_wasm_execute_tool (s : wasm_state) (caps : cap_state) (w : W) (agent_run_id : bytes) (tool_name : bytes) (args : option bytes)
  (cap : option ak_capability) (env : tool_env) : outcome executed :=
  if negb (ws_initialized s) then refused env s caps w AK_E_WASM_LOAD_FAILED
  else
    match ak_tool_get s tool_name with
    | None => refused env s caps w AK_E_TOOL_NOT_FOUND
    | Some tool =>
        if tl_cap_type tool =? AK_CAP_NONE then run_tool s caps w tool args cap env
        else
          match cap with
          | None => refused env s caps w AK_E_CAP_MISSING
          | Some c =>
              let v := te_val env in
              let '(rv, caps) := ak_capability_validate raw_s caps (Some c) (tl_cap_type tool) (Some (tl_cap_resource tool)) (Some (tl_name tool)) (Some agent_run_id)
                (ve_now_verify v) (ve_now_rate v) (ve_alloc_mac v) (ve_alloc_rate v) in
              if negb (rv =? 0) then refused env (on_wstats count_denied s) caps w rv
              else run_tool s caps w tool args cap env
          end
    end.

Definition ak_wasm_get_stats (s : wasm_state) : ak_wasm_stats := ws_stats s.

(** ** The request handler *)

Definition set_budget (b : ak_budget_tracker) (c : ak_agent_context) : ak_agent_context :=
  mk_ctx (cx_pid c) (cx_run_id c) (root_cap c) (delegated_caps c) (cx_policy c) (Some b) (cx_seq c).

(** [al_msg] is whether the buffer of the failure message is allocated. *)
Definition ak_handle_call (s : wasm_state) (caps : cap_state) (w : W) (ctx : ak_agent_context) (req : ak_request) (env : tool_env) (now_commit : Z) (al_msg : bool) :
  outcome (option ak_response * executed * ak_agent_context) :=
  let none := mk_executed None s caps w [] in
  let error := ak_response_error (te_alloc_res env) (Some req) in
  match cx_budget ctx with
  | None => Ret (error AK_E_BUDGET_EXCEEDED, none, ctx)
  | Some budget =>
      match rq_args req with
      | None => Ret (error (- EINVAL), none, ctx)
      | Some args =>
          let* name := ak_json_extract_string (Some args) (B"tool") 64 in
          match name with
          | None => Ret (error (-4002), none, ctx)
          | Some name =>
              if negb (ak_policy_check_tool (cx_policy ctx) (Some name)) then Ret (error AK_E_POLICY_DENIED, none, ctx)
              else if negb (ak_budget_check (Some budget) (rt AK_RESOURCE_TOOL_CALLS) 1) then Ret (error AK_E_BUDGET_EXCEEDED, none, ctx)
              else
                let* x := ak_wasm_execute_tool s caps w (cx_run_id ctx) name (Some args) (rq_cap req) env in
                match xd_res x with
                | Some res => Ret (Some res, x, set_budget (ak_budget_commit budget (rt AK_RESOURCE_TOOL_CALLS) 1 now_commit) ctx)
                | None => Ret (error (if al_msg then AK_E_TOOL_FAIL else - ENOMEM), x, ctx)
                end
          end
      end
  end.

End Tools.

(** ** What reaches the interpreter *)

Section Theorems.
Context {W : Type} `{Hash} (raw_s : bytes -> bytes).
Abbreviation state := (@wasm_state W).

(** The modules in memory hold bytes. *)
Definition store_wf (st : gmap Z ak_wasm_module) : Prop :=
  forall p m, st !! p = Some m -> wf_bytes (wm_bytecode m) /\ Z.of_nat (length (wm_bytecode m)) < M64.

(** The counters of executions add up. *)
Definition accounted (t : ak_wasm_stats) : Prop :=
  executions_total t = u64 (executions_success t + executions_failed t + executions_timeout t + executions_oom t).

(** The capability check of an execution. *)
Definition admitted (caps : cap_state) (tool : ak_tool) (cap : option ak_capability) (run_id : bytes) (v : val_env) : Prop :=
  tl_cap_type tool = AK_CAP_NONE \/
  exists c, cap = Some c /\
    fst (ak_capability_validate raw_s caps (Some c) (tl_cap_type tool) (Some (tl_cap_resource tool)) (Some (tl_name tool)) (Some run_id)
      (ve_now_verify v) (ve_now_rate v) (ve_alloc_mac v) (ve_alloc_rate v)) = 0.

Lemma u64_add_l a b : u64 (u64 a + b) = u64 (a + b).
Proof. unfold u64. by rewrite Zplus_mod_idemp_l. Qed.
Lemma u64_add_r a b : u64 (a + u64 b) = u64 (a + b).
Proof. unfold u64. by rewrite Zplus_mod_idemp_r. Qed.

(** An execution is counted once, and once as what it came to. *)
Lemma accounted_counts t f :
  accounted t -> f ∈ [count_success; count_failed; count_timeout; count_oom] -> accounted (f (count_execution t)).
Proof.
  intros Ht Hf. destruct t as [a b c d e g h i j k l n]. unfold accounted in *. cbn in Ht.
  rewrite !elem_of_cons in Hf. destruct Hf as [->|[->|[->|[->|[]%elem_of_nil]]]]; cbn; rewrite Ht, u64_add_l.
  - replace (u64 (d + 1) + e + g + h) with (u64 (d + 1) + (e + g + h)) by lia. rewrite u64_add_l. f_equal. lia.
  - replace (d + u64 (e + 1) + g + h) with (u64 (e + 1) + (d + g + h)) by lia. rewrite u64_add_l. f_equal. lia.
  - replace (d + e + u64 (g + 1) + h) with (u64 (g + 1) + (d + e + h)) by lia. rewrite u64_add_l. f_equal. lia.
  - rewrite u64_add_r. f_equal. lia.
Qed.

Lemma accounted_same t t' :
  executions_total t' = executions_total t -> executions_success t' = executions_success t -> executions_failed t' = executions_failed t ->
  executions_timeout t' = executions_timeout t -> executions_oom t' = executions_oom t -> accounted t -> accounted t'.
Proof. unfold accounted. congruence. Qed.

Lemma count_work_comm f gas ms t : f ∈ [count_success; count_failed; count_timeout; count_oom] -> f (count_work gas ms t) = count_work gas ms (f t).
Proof. rewrite !elem_of_cons. destruct t. intros [->|[->|[->|[->|[]%elem_of_nil]]]]; done. Qed.

Lemma accounted_work gas ms t : accounted t -> accounted (count_work gas ms t).
Proof. by destruct t. Qed.

Lemma accounted_denied t : accounted t -> accounted (count_denied t).
Proof. by destruct t. Qed.

(** Everything but the counters. *)
Definition same_but_stats (s s' : state) : Prop :=
  ws_initialized s' = ws_initialized s /\ ws_store s' = ws_store s /\ ws_modules s' = ws_modules s /\ ws_tools s' = ws_tools s /\ ws_host_fns s' = ws_host_fns s.

(** What a run does to the states. *)
Lemma exec_run_state (s : state) w c input env r c' s' w' :
  store_wf (ws_store s) -> wf_input input -> accounted (ws_stats s) -> ak_wasm_exec_run s w c input env = Ret (r, c', s', w') ->
  steps (host_step (ws_host_fns s) input) w w' /\ accounted (ws_stats s') /\ same_but_stats s s'.
Proof.
  intros Hst Hi Ha. unfold ak_wasm_exec_run. destruct (negb _); [intros [= <- <- <- <-]; split_and!; [apply steps_refl|done..]|]. cbv zeta.
  assert (Hcount : forall f, f ∈ [count_success; count_failed; count_timeout; count_oom] -> forall gas ms, accounted (f (count_work gas ms (count_execution (ws_stats s))))).
  { intros f Hf gas ms. rewrite count_work_comm by done. by apply accounted_work, accounted_counts. }
  destruct (ec_module c) as [p|].
  2: { intros [= <- <- <- <-]. split_and!; try done; [apply steps_refl|]. cbn [on_wstats ws_stats]. apply accounted_counts; [done|]. set_solver. }
  destruct (ec_tool c) as [tool|].
  2: { intros [= <- <- <- <-]. split_and!; try done; [apply steps_refl|]. cbn [on_wstats ws_stats]. apply accounted_counts; [done|]. set_solver. }
  cbn [on_wstats ws_store]. destruct (ws_store s !! p) as [m|] eqn:Em; [|done]. destruct (Hst p m Em) as [Hw Hl]. change (ws_host_fns (on_wstats count_execution s)) with (ws_host_fns s).
  destruct (ak_wasm_interp_run (ws_host_fns s) (re_allocs env) (Some (wm_bytecode m)) (Some (tl_export_name tool)) input (wm_max_instructions m) w) as [R|] eqn:ER; [|done].
  pose proof (run_world_steps _ _ _ _ _ _ _ _ Hw Hl Hi ER) as Hsteps. destruct (run_ret R =? 0).
  - intros [= <- <- <- <-]. split_and!; try done. cbn [ws_stats]. apply Hcount. set_solver.
  - destruct (run_ret R =? AK_E_WASM_TIMEOUT); [|destruct (run_ret R =? AK_E_WASM_OOM)]; intros [= <- <- <- <-]; (split_and!; try done); cbn [ws_stats]; apply Hcount; set_solver.
Qed.

(** A module marked as used keeps its bytes. *)
Lemma store_wf_use st p m now : store_wf st -> st !! p = Some m -> store_wf (<[p := use_module now m]> st).
Proof. intros Hs Hp q x. rewrite lookup_insert_Some. intros [[<- <-]|[_ Hq]]; [exact (Hs p m Hp)|exact (Hs q x Hq)]. Qed.

(** What executing a tool does. *)
Lemma run_tool_state (s : state) caps w tool args cap env x :
  store_wf (ws_store s) -> wf_input args -> accounted (ws_stats s) -> run_tool s caps w tool args cap env = Ret x ->
  steps (host_step (ws_host_fns s) args) w (xd_world x) /\ accounted (ws_stats (xd_state x)) /\ xd_caps x = caps /\
  exists s1, same_but_stats s s1 /\ ws_stats s1 = ws_stats (xd_state x) /\
    (xd_state x = s1 \/ exists p m, ws_store s !! p = Some m /\ xd_state x = set_store (<[p := use_module (te_now_used env) m]> (ws_store s)) s1).
Proof.
  intros Hst Hi Ha. unfold run_tool, ak_wasm_exec_create. destruct (te_alloc_ctx env); cbn [negb].
  2: { intros [= <-]. split_and!; try done; [apply steps_refl|]. exists s. split_and!; try done. by left. }
  set (c := mk_exctx _ _ _ _ _ _ _ _ _ _ _ _). destruct (ak_wasm_exec_run s w c args (te_run env)) as [[[[r c'] s1] w1]| |] eqn:Er; cbn [obind]; [|done|done].
  destruct (exec_run_state _ _ _ _ _ _ _ _ _ Hst Hi Ha Er) as (Hsteps & Hacc & Hsame). cbv zeta. destruct (tl_module tool) as [p|]; [|done].
  pose proof Hsame as (_ & Es & _). rewrite Es. destruct (ws_store s !! p) as [m|] eqn:Em; [|done].
  destruct (ak_wasm_exec_destroy _) as [fr| |]; cbn [obind]; [|done|done]. intros [= <-]. cbn [xd_world xd_state xd_caps]. split_and!; try done.
  exists s1. split_and!; try done. right. by exists p, m.
Qed.

Lemma execute_state (s : state) caps w run_id name args cap env x :
  store_wf (ws_store s) -> wf_input args -> accounted (ws_stats s) -> ak_wasm_execute_tool raw_s s caps w run_id name args cap env = Ret x ->
  exists s1, same_but_stats s s1 /\ accounted (ws_stats s1) /\
    (xd_state x = s1 \/ exists p m, ws_store s !! p = Some m /\ xd_state x = set_store (<[p := use_module (te_now_used env) m]> (ws_store s)) s1).
Proof.
  intros Hst Hi Ha. unfold ak_wasm_execute_tool.
  assert (Hrun : forall caps tool, run_tool s caps w tool args cap env = Ret x -> exists s1, same_but_stats s s1 /\ accounted (ws_stats s1) /\
    (xd_state x = s1 \/ exists p m, ws_store s !! p = Some m /\ xd_state x = set_store (<[p := use_module (te_now_used env) m]> (ws_store s)) s1)).
  { intros caps0 tool H1. destruct (run_tool_state _ _ _ _ _ _ _ _ Hst Hi Ha H1) as (_ & Hacc & _ & s1 & Hsame & Es & Hx). exists s1. split; [done|]. split; [by rewrite Es|done]. }
  destruct (ws_initialized s); cbn [negb]; [|intros [= <-]; exists s; split_and!; try done; by left].
  destruct (ak_tool_get s name) as [tool|]; [|intros [= <-]; exists s; split_and!; try done; by left].
  destruct (_ =? _); [apply Hrun|]. destruct cap as [c|]; [|intros [= <-]; exists s; split_and!; try done; by left]. cbv zeta.
  destruct (ak_capability_validate _ _ _ _ _ _ _ _ _ _ _) as [rv caps']. destruct (negb _); [|apply Hrun].
  intros [= <-]. exists (on_wstats count_denied s). split_and!; try done; [by apply accounted_denied|by left].
Qed.

(** C22: Tools run under their capability: whatever the tool's code does, the world it leaves is reached only through registered synchronous host functions called with the tool's arguments, and unless the named tool is registered and either asks for no capability or the caller's token passes [ak_capability_validate] for the tool's type, resource, name and run, nothing is executed and the world is unchanged; the execution counters stay exact. *)
Theorem tool_execution_gated (s : state) caps w run_id name args cap env x :
  store_wf (ws_store s) -> wf_input args -> accounted (ws_stats s) ->
  ak_wasm_execute_tool raw_s s caps w run_id name args cap env = Ret x ->
  steps (host_step (ws_host_fns s) args) w (xd_world x) /\ accounted (ws_stats (xd_state x)) /\
  ((exists tool, ak_tool_get s name = Some tool /\ admitted caps tool cap run_id (te_val env)) \/
   (xd_world x = w /\ executions_total (ws_stats (xd_state x)) = executions_total (ws_stats s) /\
    forall res, xd_res x = Some res -> rs_status res = AK_STATUS_ERROR)).
Proof.
  intros Hst Hi Ha. unfold ak_wasm_execute_tool.
  assert (Href : forall s' caps' e, same_but_stats s s' -> accounted (ws_stats s') -> executions_total (ws_stats s') = executions_total (ws_stats s) ->
    refused env s' caps' w e = Ret x ->
    steps (host_step (ws_host_fns s) args) w (xd_world x) /\ accounted (ws_stats (xd_state x)) /\
    (xd_world x = w /\ executions_total (ws_stats (xd_state x)) = executions_total (ws_stats s) /\ forall res, xd_res x = Some res -> rs_status res = AK_STATUS_ERROR)).
  { intros s' caps' e _ Hacc Htot [= <-]. cbn [xd_world xd_state xd_res]. split_and!; try done; [apply steps_refl|]. intros res. unfold ak_response_error. destruct (te_alloc_res env); [|done]. by intros [= <-]. }
  destruct (ws_initialized s); cbn [negb]; [|intros H1; destruct (Href s caps _ ltac:(done) Ha eq_refl H1) as (? & ? & ?); auto].
  destruct (ak_tool_get s name) as [tool|] eqn:Et; [|intros H1; destruct (Href s caps _ ltac:(done) Ha eq_refl H1) as (? & ? & ?); auto].
  destruct (Z.eqb_spec (tl_cap_type tool) AK_CAP_NONE) as [En|En].
  { intros H1. destruct (run_tool_state _ _ _ _ _ _ _ _ Hst Hi Ha H1) as (? & ? & _). split_and!; [done..|]. left. exists tool. split; [done|]. by left. }
  destruct cap as [c|]; [|intros H1; destruct (Href s caps _ ltac:(done) Ha eq_refl H1) as (? & ? & ?); auto]. cbv zeta.
  destruct (ak_capability_validate _ _ _ _ _ _ _ _ _ _ _) as [rv caps'] eqn:Ev. destruct (Z.eqb_spec rv 0) as [->|]; cbn [negb].
  - intros H1. destruct (run_tool_state _ _ _ _ _ _ _ _ Hst Hi Ha H1) as (? & ? & _). split_and!; [done..|]. left. exists tool. split; [done|]. right. exists c. split; [done|]. by rewrite Ev.
  - intros H1. destruct (Href (on_wstats count_denied s) caps' rv) as (? & ? & ?); [done|by apply accounted_denied|cbn [on_wstats ws_stats]; by destruct (ws_stats s)|done|]. auto.
Qed.

(** ** Runs of registry operations *)

Context (host : bytes -> @host_fn W) (trusted : bytes -> bool) (verify : bytes -> bytes -> bytes -> bool).

(** One operation; the allocator gives an address that is not in use. *)
Inductive wstep (s : state) : state -> Prop :=
| w_init : wstep s (ak_wasm_init host s)
| w_shutdown : wstep s (ak_wasm_shutdown s)
| w_load name bc src url rnd now p al :
    wf_bytes bc -> Z.of_nat (length bc) < M64 -> ws_store s !! p = None -> wstep s (ak_wasm_module_load s name bc src url rnd now (Some p) al).2
| w_load_verified name bc src url sig key rnd now p al :
    wf_bytes bc -> Z.of_nat (length bc) < M64 -> ws_store s !! p = None -> length sig = 64%nat -> length key = 32%nat ->
    wstep s (ak_wasm_module_load_verified trusted verify s name bc src url (Some sig) (Some key) rnd now (Some p) al).2
| w_unload p : Some p ∈ ws_modules s -> wstep s (ak_wasm_module_unload s (Some p))
| w_register name m export cap res al : wstep s (ak_tool_register s name m export cap res al).2
| w_unregister name : wstep s (ak_tool_unregister s name)
| w_execute caps w run_id name args cap env x :
    wf_input args -> ak_wasm_execute_tool raw_s s caps w run_id name args cap env = Ret x -> wstep s (xd_state x).

(** A module's hash is that of its bytes, and only signed modules are marked verified. *)
Definition module_ok (m : ak_wasm_module) : Prop :=
  wf_bytes (wm_bytecode m) /\ Z.of_nat (length (wm_bytecode m)) < M64 /\ wm_hash m = compute_module_hash (wm_bytecode m) /\
  (wm_verified m = true -> trusted (wm_signing_key m) = true /\ verify (wm_bytecode m) (wm_signature m) (wm_signing_key m) = true).

Record winv (s : state) : Prop := {
  wi_accounted : accounted (ws_stats s);
  wi_store : forall p m, ws_store s !! p = Some m -> module_ok m;
  wi_nodup : NoDup (ws_modules s);
  wi_live : forall o, o ∈ ws_modules s -> exists p, o = Some p /\ is_Some (ws_store s !! p);
  wi_bounds : Z.of_nat (length (ws_modules s)) <= AK_MAX_WASM_MODULES /\ Z.of_nat (length (ws_tools s)) <= AK_MAX_TOOLS }.

Lemma winv_store_wf s : winv s -> store_wf (ws_store s).
Proof. intros H0 p m Hp. destruct (wi_store _ H0 p m Hp) as (? & ? & _). done. Qed.

(** The entries left by a removal. *)
Lemma remove_entry_elem p l o : NoDup l -> o ∈ remove_entry p l <-> o ∈ l /\ o <> Some p.
Proof.
  induction l as [|q l IH]; cbn [remove_entry]; intros Hnd; [split; [by intros ?%elem_of_nil|by intros [?%elem_of_nil _]]|].
  apply NoDup_cons in Hnd as [Hq Hnd]. case_bool_decide as E.
  - subst q. rewrite elem_of_cons. split; [intros Ho; split; [by right|by intros ->]|by intros [[->|Ho] Hne]].
  - rewrite !elem_of_cons, (IH Hnd). split; [intros [->|[? ?]]; split; auto|intros [[->|?] ?]; auto].
Qed.
Lemma remove_entry_nodup p l : NoDup l -> NoDup (remove_entry p l).
Proof.
  induction l as [|q l IH]; intros Hnd; cbn [remove_entry]; [done|]. pose proof Hnd as [Hq Hl]%NoDup_cons. case_bool_decide; [done|].
  apply NoDup_cons. split; [|by apply IH]. intros Hin. apply remove_entry_elem in Hin; [|done]. tauto.
Qed.
Lemma remove_entry_length p l : (length (remove_entry p l) <= length l)%nat.
Proof. induction l; cbn; [lia|]. case_bool_decide; cbn; lia. Qed.

Lemma remove_tool_length l name : (length (remove_tool l name) <= length l)%nat.
Proof. induction l as [|t l IH]; cbn [remove_tool length]; [lia|]. destruct (bytes_eqb _ _); cbn [length]; lia. Qed.

Lemma winv_load s name bc src url rnd now p al :
  winv s -> wf_bytes bc -> Z.of_nat (length bc) < M64 -> ws_store s !! p = None ->
  let r := ak_wasm_module_load s name bc src url rnd now (Some p) al in
  winv r.2 /\ (r.1 = Some p -> exists m, ws_store r.2 !! p = Some m /\ wm_bytecode m = bc).
Proof.
  intros Hs Hw Hl Hp. unfold ak_wasm_module_load. destruct (negb _); [done|]. destruct (Z.leb_spec AK_MAX_WASM_MODULES (Z.of_nat (length (ws_modules s)))); [done|].
  destruct (negb _); [done|]. destruct al; [|done]. cbn [negb fst snd ws_store]. split; [|intros _; eexists; split; [apply lookup_insert_eq|done]].
  destruct Hs as [H1 H2 H3 H4 [H5 H6]]. constructor; cbn [ws_store ws_stats ws_modules ws_tools].
  - by destruct (ws_stats s).
  - intros q m. rewrite lookup_insert_Some. intros [[<- <-]|[_ Hq]]; [|by apply H2 in Hq]. by split_and!.
  - apply NoDup_app. split_and!; [done| |apply NoDup_singleton]. intros o Ho ->%list_elem_of_singleton. destruct (H4 _ Ho) as (q & [= <-] & [m Hm]). congruence.
  - intros o [Ho| ->%list_elem_of_singleton]%elem_of_app; [|exists p; split; [done|]; by rewrite lookup_insert_eq]. destruct (H4 _ Ho) as (q & -> & Hq). exists q. split; [done|].
    destruct (decide (p = q)) as [->|]; [by rewrite lookup_insert_eq|]. by rewrite lookup_insert_ne.
  - rewrite length_app. cbn [length]. lia.
Qed.

Lemma winv_update s st :
  winv s -> (forall p m, st !! p = Some m -> module_ok m) -> (forall p, is_Some (ws_store s !! p) -> is_Some (st !! p)) -> winv (set_store st s).
Proof.
  intros [H1 H2 H3 H4 H5] Hm Hd. constructor; try done. intros o Ho. destruct (H4 o Ho) as (p & -> & Hp). exists p. split; [done|]. by apply Hd.
Qed.

Lemma winv_unload s p : winv s -> winv (ak_wasm_module_unload s (Some p)).
Proof.
  intros [H1 H2 H3 H4 [H5 H6]]. constructor; cbn [ak_wasm_module_unload ws_store ws_stats ws_modules ws_tools].
  - done.
  - intros q m [_ Hq]%lookup_delete_Some. by apply H2 in Hq.
  - by apply remove_entry_nodup.
  - intros o [Ho Hne]%remove_entry_elem; [|done]. destruct (H4 o Ho) as (q & -> & Hq). exists q. split; [done|]. rewrite lookup_delete_ne; [done|]. by intros ->.
  - pose proof (remove_entry_length p (ws_modules s)). lia.
Qed.

Lemma shutdown_loop_store fuel i (s : state) p m : ws_store (shutdown_loop fuel i s) !! p = Some m -> ws_store s !! p = Some m.
Proof.
  revert i s. induction fuel as [|fuel IH]; intros i s; cbn [shutdown_loop]; [done|]. destruct (_ <? _)%nat; [|done].
  destruct (ws_modules s !! i) as [[q|]|]; [|apply IH..]. cbv zeta. intros Hm. apply IH in Hm. cbn [ws_store ak_wasm_module_unload] in Hm. by apply lookup_delete_Some in Hm as [_ Hm].
Qed.
Lemma shutdown_loop_stats fuel i (s : state) : ws_stats (shutdown_loop fuel i s) = ws_stats s.
Proof.
  revert i s. induction fuel as [|fuel IH]; intros i s; cbn [shutdown_loop]; [done|]. destruct (_ <? _)%nat; [|done].
  destruct (ws_modules s !! i) as [[q|]|]; [|apply IH..]. cbv zeta. by rewrite IH.
Qed.

Lemma winv_step s s' : winv s -> wstep s s' -> winv s'.
Proof.
  intros Hs [| |name bc src url rnd now p al Hw Hl Hp|name bc src url sig key rnd now p al Hw Hl Hp Hsig Hkey|p Hp|name m export cap res al|name|caps w run_id name args cap env x Hi Hx].
  - unfold ak_wasm_init. destruct (ws_initialized s); [done|]. destruct Hs as [H1 H2 H3 H4 H5]. constructor; cbn [ws_store ws_stats ws_modules ws_tools]; try done; [constructor|by intros ? ?%elem_of_nil].
  - unfold ak_wasm_shutdown. destruct (ws_initialized s); [|done]. cbn [negb]. constructor; cbn [ws_store ws_stats ws_modules ws_tools]; try done; [..|constructor|by intros ? ?%elem_of_nil].
    + rewrite shutdown_loop_stats. apply Hs.
    + intros p m Hp. apply (wi_store _ Hs p). by eapply shutdown_loop_store.
  - by apply winv_load.
  - unfold ak_wasm_module_load_verified. destruct (ws_initialized s); [|done]. cbn [negb].
    assert (Hbad : winv (on_wstats count_bad_signature s)) by (destruct Hs as [H1 H2 H3 H4 H5]; constructor; try done; cbn [on_wstats ws_stats]; by destruct (ws_stats s)).
    destruct (trusted key) eqn:Et; [|done]. destruct (verify bc sig key) eqn:Ev; [|done]. cbn [negb].
    destruct (winv_load s name bc src url rnd now p al Hs Hw Hl Hp) as [Hinv Hm]. destruct (ak_wasm_module_load _ _ _ _ _ _ _ _ _) as [[q|] s1] eqn:El; [|done]. cbn [fst snd] in *.
    assert (q = p) as ->.
    { unfold ak_wasm_module_load in El. destruct (negb _); [done|]. destruct (_ <=? _); [done|]. destruct (negb (validate_wasm_header bc)); [done|]. destruct (negb al); [done|]. congruence. }
    destruct (Hm eq_refl) as (m & Em & Eb). apply winv_update; [done| |].
    + intros r x. rewrite lookup_alter_Some. intros [(-> & y & Ey & ->)|[_ Hr]]; [|by apply (wi_store _ Hinv) in Hr]. rewrite Em in Ey. injection Ey as <-.
      destruct (wi_store _ Hinv _ _ Em) as (A1 & A2 & A3 & _). split_and!; try done. intros _. cbn [mark_verified wm_signing_key wm_signature wm_bytecode]. rewrite Eb, !take_ge by lia. done.
    + intros r Hr. rewrite lookup_alter_is_Some. done.
  - by apply winv_unload.
  - unfold ak_tool_register. destruct (negb _); [done|]. destruct (Z.leb_spec AK_MAX_TOOLS (Z.of_nat (length (ws_tools s)))); [done|]. destruct (ak_tool_get s name); [done|].
    destruct (negb al); [done|]. destruct Hs as [H1 H2 H3 H4 [H5 H6]]. constructor; cbn [snd ws_store ws_stats ws_modules ws_tools]; try done; [by destruct (ws_stats s)|]. rewrite length_app. cbn [length]. lia.
  - destruct Hs as [H1 H2 H3 H4 [H5 H6]]. constructor; try done. cbn [ak_tool_unregister ws_modules ws_tools]. split; [done|].
    pose proof (remove_tool_length (ws_tools s) name). lia.
  - destruct (execute_state _ _ _ _ _ _ _ _ _ (winv_store_wf _ Hs) Hi (wi_accounted _ Hs) Hx) as (s1 & Hsame & Hacc & Hst).
    assert (Hs1 : winv s1).
    { destruct Hs as [H1 H2 H3 H4 H5], Hsame as (_ & E2 & E3 & E4 & _). constructor; rewrite ?E2, ?E3, ?E4; done. }
    destruct Hst as [->|(p & m & Hp & ->)]; [done|]. destruct (wi_store _ Hs _ _ Hp) as (A1 & A2 & A3 & A4). apply winv_update; [done| |].
    + intros q y. rewrite lookup_insert_Some. intros [[<- <-]|[_ Hq]]; [by split_and!|by apply (wi_store _ Hs) in Hq].
    + intros q Hq. destruct Hsame as (_ & E2 & _). rewrite E2 in Hq. destruct (decide (p = q)) as [->|]; [by rewrite lookup_insert_eq|by rewrite lookup_insert_ne].
Qed.

Lemma winv_fresh : winv (mk_ws false ∅ [] [] [] zero_stats).
Proof. constructor; cbn [ws_store ws_stats ws_modules ws_tools]; try done; [constructor|by intros ? ?%elem_of_nil]. Qed.

Lemma find_module_ok (s : state) f : winv s -> forall l, (forall o, o ∈ l -> o ∈ ws_modules s) -> exists r, find_module (ws_store s) f l = Ret r.
Proof.
  intros Hs. induction l as [|[p|] l IH]; intros Hl; cbn [find_module]; [by exists None| |].
  - destruct (wi_live _ Hs (Some p)) as (q & [= <-] & [m Hm]); [apply Hl, list_elem_of_here|]. rewrite Hm. destruct (f m); [by eexists|]. apply IH. intros o Ho. by apply Hl, list_elem_of_further.
  - apply IH. intros o Ho. by apply Hl, list_elem_of_further.
Qed.

(** The module registry is sound over every run of loads, verified loads, unloads, registrations, executions, shutdowns and initialisations: the registered modules are distinct, live and within the table's bounds, so lookups by name or hash follow no dangling pointer; every module's hash is the hash of its bytecode; a module marked verified carries a signature of that bytecode that verifies under a trusted key; and the execution counters add up. *)
Theorem module_registry_sound s :
  steps wstep (mk_ws false ∅ [] [] [] zero_stats) s ->
  accounted (ws_stats s) /\ Z.of_nat (length (ws_modules s)) <= AK_MAX_WASM_MODULES /\ Z.of_nat (length (ws_tools s)) <= AK_MAX_TOOLS /\
  (forall name, exists r, ak_wasm_module_get s name = Ret r) /\ (forall h, exists r, ak_wasm_module_get_by_hash s h = Ret r) /\
  (forall p m, Some p ∈ ws_modules s -> ws_store s !! p = Some m ->
     wm_hash m = compute_module_hash (wm_bytecode m) /\
     (wm_verified m = true -> trusted (wm_signing_key m) = true /\ verify (wm_bytecode m) (wm_signature m) (wm_signing_key m) = true)).
Proof.
  intros Hsteps. assert (Hs : winv s) by (eapply (steps_invariant wstep winv); [apply winv_step|apply winv_fresh|exact Hsteps]).
  destruct (wi_bounds _ Hs). split_and!; try done; [apply Hs|intros name; by apply find_module_ok|intros h; by apply find_module_ok|].
  intros p m _ Hp. destruct (wi_store _ Hs p m Hp) as (_ & _ & ? & ?). done.
Qed.

End Theorems.

(** ** Examples *)

Definition demo_env : tool_env := mk_tenv (mk_venv 0 0 true true) (zeros 16) true (mk_renv 5 9 all_allocs) true 9.
Definition demo_tool (m : option Z) : ak_tool := mk_tool (B"clock") m (B"max") AK_CAP_NONE [] 100 60000 true true false.
Definition demo_module : ak_wasm_module :=
  mk_module (zeros 16) (B"m") (zeros 32) AK_WASM_SOURCE_EMBEDDED [] sample_module 0 0 0 0 false true (zeros 64) (zeros 32) 0 0 0.
Definition demo_state (m : option Z) : @wasm_state Z := mk_ws true {[ 1 := demo_module ]} [Some 1] [demo_tool m] sample_registry zero_stats.

Definition demo_args : bytes := JQ"{'tool':'clock'}".
Abbreviation demo_execute := (fun m => ak_wasm_execute_tool cstr (demo_state m) demo_cs 100 (zeros 16) (B"clock") (Some demo_args) None demo_env).

Lemma demo_wf : store_wf (ws_store (demo_state (Some 1))).
Proof.
  intros p m. cbn [demo_state ws_store]. rewrite lookup_singleton_Some. intros [_ <-]. split; [apply sample_wf|]. vm_compute. reflexivity.
Qed.

Lemma demo_session : exists x, demo_execute (Some 1) = Ret x /\ xd_world x = 101 /\ xd_freed x = [demo_args] /\
  executions_success (ws_stats (xd_state x)) = 1.
Proof. eexists. split_and!; vm_compute; reflexivity. Qed.

Lemma tool_execution_gated_witness :
  exists x, demo_execute (Some 1) = Ret x /\ steps (host_step sample_registry (Some demo_args)) 100 (xd_world x) /\ accounted (ws_stats (xd_state x)).
Proof.
  destruct (demo_execute (Some 1)) as [x| |] eqn:E.
  - exists x. split; [reflexivity|].
    destruct (tool_execution_gated cstr (demo_state (Some 1)) demo_cs 100 (zeros 16) (B"clock") (Some demo_args) None demo_env x demo_wf) as (A & Acc & _).
    + vm_compute. repeat constructor; discriminate.
    + reflexivity.
    + exact E.
    + exact (conj A Acc).
  - destruct demo_session as (x & H & _). rewrite H in E. discriminate E.
  - destruct demo_session as (x & H & _). rewrite H in E. discriminate E.
Defined.

Definition demo_host (_ : bytes) : @host_fn Z := sample_clock.
Definition demo_trusted (_ : bytes) : bool := true.
Definition demo_verify (_ _ _ : bytes) : bool := true.
Definition demo_booted : @wasm_state Z := ak_wasm_init demo_host (mk_ws false ∅ [] [] [] zero_stats).
Definition demo_loaded : @wasm_state Z :=
  (ak_wasm_module_load_verified demo_trusted demo_verify demo_booted (B"m") sample_module AK_WASM_SOURCE_EMBEDDED None (Some (zeros 64)) (Some (zeros 32))
     (zeros 16) 7 (Some 1) true).2.

Lemma module_registry_sound_witness :
  length (ws_modules demo_loaded) = 1%nat /\ accounted (ws_stats demo_loaded) /\ (forall name, exists r, ak_wasm_module_get demo_loaded name = Ret r).
Proof.
  split; [vm_compute; reflexivity|].
  destruct (module_registry_sound cstr demo_host demo_trusted demo_verify demo_loaded) as (A & _ & _ & Hget & _).
  - eapply steps_snoc; [eapply steps_snoc; [apply steps_refl|apply w_init]|]. apply w_load_verified; [apply sample_wf|vm_compute; reflexivity| |reflexivity|reflexivity].
    vm_compute. reflexivity.
  - exact (conj A Hget).
Defined.

(** ** Statements that fail *)

(** Shutdown unloads every other module: the array shifts under the loop. *)
Definition two_modules : @wasm_state Z := mk_ws true {[ 1 := demo_module; 2 := demo_module ]} [Some 1; Some 2] [] [] zero_stats.
Example shutdown_leaks_modules : is_Some (ws_store (ak_wasm_shutdown two_modules) !! 2).
Proof. vm_compute. eexists. reflexivity. Qed.

(** Unloading a module leaves the tools that use it: the next call follows a freed pointer. *)
Example unloaded_module_dangles :
  ak_wasm_execute_tool cstr (ak_wasm_module_unload (demo_state (Some 1)) (Some 1)) demo_cs 100 (zeros 16) (B"clock") (Some demo_args) None demo_env = Oob.
Proof. vm_compute. reflexivity. Qed.

(** A tool registered without a module: the run is refused, then the module is dereferenced. *)
Example null_module_dereferenced : demo_execute None = Oob.
Proof. vm_compute. reflexivity. Qed.

(** The execution gives back the argument buffer, which its caller owns: the
    dispatcher hashes it for the audit log and frees it again. *)
Example tool_call_frees_request_args : exists x, demo_execute (Some 1) = Ret x /\ xd_freed x = [demo_args].
Proof. eexists. split; vm_compute; reflexivity. Qed.

(** When the resume data cannot be allocated the context keeps the old length
    with an invalid address, and destroying it frees that. *)
Definition suspended_ctx : ak_wasm_exec_ctx :=
  mk_exctx (zeros 16) (Some 1) None None None None 0 AK_WASM_STATE_SUSPENDED (mk_susp AK_WASM_SUSPEND_IO 0 (BMem [1]) 1 0 0 0) 0 0 0.
Example failed_resume_frees_invalid :
  exists c, ak_wasm_exec_resume (Some suspended_ctx) (Some [2]) false = Ret (AK_E_WASM_OOM, Some c) /\ ak_wasm_exec_destroy (Some c) = Oob.
Proof. eexists. split; vm_compute; reflexivity. Qed.

(** A call of a tool that does not exist is charged to the budget. *)
Example failed_call_charged :
  exists res x ctx', ak_handle_call cstr (mk_ws true ∅ [] [] sample_registry zero_stats) demo_cs 100 demo_agent
      (mk_req (zeros 16) (zeros 16) 1 0 (Some (JQ"{'tool':'file_write'}")) None 0) demo_env 0 true = Ret (Some res, x, ctx') /\
    rs_error res = AK_E_TOOL_NOT_FOUND /\ cx_budget ctx' <> cx_budget demo_agent.
Proof. vm_compute. do 3 eexists. split_and!; [reflexivity|reflexivity|]. discriminate. Qed.
