(* ===== verification/PathGlob.v ===== *)
(** * Patterns of the second-generation policy ([src/src/agentic/ak_policy_v2.c])

    Paths are matched by [ak_policy_v2_match_path], with [*] for a text without
    slash and [**] for any text; network targets by a type prefix and the glob
    matcher of [Pattern]; domains by a wildcard prefix.  A pointer into a
    NUL-terminated string is the rest of the string.

    Theorems: the path matcher always returns, accepts only paths of the
    language of its pattern, decides it for patterns with one trailing
    wildcard, and a pattern without [**] never reaches into another
    directory. *)

From S2P Require Import Prelude Pattern Policy.

Abbreviation SLASH := 47 (only parsing).

(** ** The code *)

(** [pp[0] == '*' && pp[1] == '*']. *)
Definition at_globstar (pp : bytes) : bool :=
  match pp with c :: d :: _ => (c =? STAR) && (d =? STAR) | _ => false end.
Definition at_char (c : Z) (pp : bytes) : bool := match pp with d :: _ => d =? c | [] => false end.

(** [if ( *pp == '/') pp++]. *)
Definition skip_slash (pp : bytes) : bytes := if at_char SLASH pp then drop 1 pp else pp.

(** [while (pp[0] == '/' && pp[1] == '*' && pp[2] == '*') pp += 3]. *)
Fixpoint skip_slash_globstars (pp : bytes) : bytes :=
  match pp with
  | a :: b :: c :: rest => if (a =? SLASH) && (b =? STAR) && (c =? STAR) then skip_slash_globstars rest else pp
  | _ => pp
  end.

(** The [while ( *tp)] loop and what follows it; [None] is "out of fuel". *)
Fixpoint path_loop (fuel : nat) (pp tp : bytes) (star : option (bytes * bytes)) : option bool :=
  match tp with
  | [] => Some (match skip_slash_globstars (skip_stars pp) with [] => true | _ => false end)
  | t :: tp' =>
      match fuel with
      | O => None
      | S fuel =>
          if at_globstar pp then path_loop fuel (skip_slash (drop 2 pp)) tp (Some (pp, tp))
          else if at_char STAR pp then path_loop fuel (drop 1 pp) tp (Some (pp, tp))
          else if at_char t pp then path_loop fuel (drop 1 pp) tp' star
          else if at_char QM pp && negb (t =? SLASH) then path_loop fuel (drop 1 pp) tp' star
          else
            match star with
            | None => Some false
            | Some (star_pp, star_tp) =>
                if at_globstar star_pp then
                  path_loop fuel (skip_slash (drop 2 star_pp)) (drop 1 star_tp) (Some (star_pp, drop 1 star_tp))
                else if at_char SLASH star_tp then Some false
                else path_loop fuel (drop 1 star_pp) (drop 1 star_tp) (Some (star_pp, drop 1 star_tp))
            end
      end
  end.

Definition path_fuel (pattern path : bytes) : nat := ((length path + 2) * (length pattern + 2))%nat.

Definition ak_policy_v2_match_path (pattern path : option bytes) : bool :=
  match pattern, path with
  | Some pattern, Some path =>
      default false (path_loop (path_fuel (cstr pattern) (cstr path)) (cstr pattern) (cstr path) None)
  | _, _ => false
  end.

Definition ak_policy_v2_match_net (pattern target : option bytes) : bool :=
  match pattern, target with
  | Some pattern, Some target =>
      let p := cstr pattern in
      let t := cstr target in
      if has_prefix B"dns:" p && has_prefix B"dns:" t then ak_pattern_match (drop 4 p) (drop 4 t)
      else if has_prefix B"ip:" p && has_prefix B"ip:" t then ak_pattern_match (drop 3 p) (drop 3 t)
      else false
  | _, _ => false
  end.

(** [suffix_len - 1] does not wrap: the suffix has at least its dot. *)
Definition ak_policy_v2_match_dns (pattern domain : option bytes) : bool :=
  match pattern, domain with
  | Some pattern, Some domain =>
      let p := cstr pattern in
      let d := cstr domain in
      if at_char STAR p && at_char 46 (drop 1 p) then
        let suffix := drop 1 p in
        if (length d <? length suffix - 1)%nat then false
        else bytes_eqb (drop (length d - (length suffix - 1)) d) (drop 1 suffix) || bytes_eqb d (drop 1 suffix)
      else bytes_eqb p d
  | _, _ => false
  end.

(** ** The language of a path pattern

    As the code documents it, with two liberties of the matcher made explicit:
    the slash behind [**] may be missing from the path ([PG_any]), and a tail
    of [/**] groups matches the end of the path ([PG_tail]). *)

Fixpoint globstar_tail (p : bytes) : bool :=
  match p with
  | [] => true
  | a :: b :: c :: rest => (a =? SLASH) && (b =? STAR) && (c =? STAR) && globstar_tail rest
  | _ => false
  end.

Inductive PathGlob : bytes -> bytes -> Prop :=
| PG_nil : PathGlob [] []
| PG_tail p : globstar_tail p = true -> PathGlob p []
| PG_any p s : PathGlob (skip_slash p) s -> PathGlob (STAR :: STAR :: p) s
| PG_any_eat p c s : PathGlob (STAR :: STAR :: p) s -> PathGlob (STAR :: STAR :: p) (c :: s)
| PG_star p s : at_char STAR p = false -> PathGlob p s -> PathGlob (STAR :: p) s
| PG_star_eat p c s : at_char STAR p = false -> c <> SLASH -> PathGlob (STAR :: p) s -> PathGlob (STAR :: p) (c :: s)
| PG_one p c s : c <> SLASH -> PathGlob p s -> PathGlob (QM :: p) (c :: s)
| PG_chr p c s : c <> STAR -> PathGlob p s -> PathGlob (c :: p) (c :: s).
#[export] Hint Constructors PathGlob : ak.

Lemma at_globstarP pp : at_globstar pp = true -> pp = STAR :: STAR :: drop 2 pp.
Proof. destruct pp as [|a [|b pp]]; cbn; intros H; bprop; subst; done. Qed.

Lemma at_charP c pp : at_char c pp = true -> pp = c :: drop 1 pp.
Proof. destruct pp; cbn; intros H; bprop; subst; done. Qed.

Lemma single_star pp : at_globstar pp = false -> at_char STAR pp = true -> at_char STAR (drop 1 pp) = false.
Proof. destruct pp as [|a [|b pp]]; cbn; [done..|]. intros H1 H2. by rewrite H2 in H1. Qed.

Lemma skip_slash_globstars_nil pp : skip_slash_globstars pp = [] -> globstar_tail pp = true.
Proof.
  induction pp as [pp IH] using (induction_ltof1 _ (@length Z)).
  destruct pp as [|a [|b [|c rest]]]; cbn; try done.
  destruct (_ && _ && _) eqn:E; [|done]. intros H. apply IH; [unfold ltof; cbn; lia|done].
Qed.

Lemma tail_any pp : globstar_tail pp = true -> PathGlob (skip_slash pp) [].
Proof.
  induction pp as [pp IH] using (induction_ltof1 _ (@length Z)).
  destruct pp as [|a [|b [|c rest]]]; cbn [globstar_tail]; intros H; try done; [auto with ak|].
  bprop. subst. cbn. apply PG_any, IH; [unfold ltof; cbn; lia|done].
Qed.

Lemma skip_stars_end pp : globstar_tail (skip_stars pp) = true -> PathGlob pp [].
Proof.
  induction pp as [pp IH] using (induction_ltof1 _ (@length Z)).
  destruct pp as [|a pp]; [auto with ak|]. cbn [skip_stars].
  destruct (Z.eqb_spec a STAR) as [->|]; [|auto with ak].
  destruct pp as [|b pp]; [intros _; apply PG_star; auto with ak|]. cbn [skip_stars].
  destruct (Z.eqb_spec b STAR) as [->|Hb]; intros H.
  2: { apply PG_star; [cbn; by apply Z.eqb_neq|]. by apply PG_tail. }
  apply PG_any. destruct (at_char SLASH pp) eqn:Es.
  - apply tail_any. by rewrite (at_charP _ _ Es) in H |- *.
  - unfold skip_slash. rewrite Es. apply IH; [unfold ltof; cbn; lia|done].
Qed.

(** ** Soundness and termination of the loop *)

Lemma path_loop_sound G fuel pp tp star :
  path_loop fuel pp tp star = Some true -> (PathGlob pp tp -> G) ->
  (forall sp st, star = Some (sp, st) ->
     (at_char STAR sp = true) /\ (length tp <= length st)%nat /\ (PathGlob sp st -> G)) -> G.
Proof.
  revert pp tp star. induction fuel as [|fuel IH]; intros pp tp star; destruct tp as [|t tp]; cbn [path_loop]; try done.
  1,2: intros H Hg _; apply Hg, skip_stars_end, skip_slash_globstars_nil; by destruct (skip_slash_globstars _).
  destruct (at_globstar pp) eqn:E1.
  { intros H Hg _. apply at_globstarP in E1. eapply IH; [exact H|..].
    - intros Hp. apply Hg. rewrite E1. by apply PG_any.
    - intros sp st [= <- <-]. rewrite E1. split_and!; [done|done|]. by rewrite <-E1. }
  destruct (at_char STAR pp) eqn:E2.
  { intros H Hg _. eapply IH; [exact H|..].
    - intros Hp. apply Hg. rewrite (at_charP _ _ E2). apply PG_star; [by apply single_star|done].
    - intros sp st [= <- <-]. done. }
  destruct (at_char t pp) eqn:E3.
  { intros H Hg Hs. eapply IH; [exact H|..].
    - intros Hp. apply Hg. rewrite (at_charP _ _ E3). apply PG_chr; [|done].
      intros ->. congruence.
    - intros sp st E. destruct (Hs sp st E) as (? & ? & ?). cbn in *. split_and!; [done|lia|done]. }
  destruct (at_char QM pp && _) eqn:E4.
  { bprop. intros H' Hg Hs. eapply IH; [exact H'|..].
    - intros Hp. apply Hg. rewrite (at_charP QM pp) by done. by apply PG_one.
    - intros sp st E. destruct (Hs sp st E) as (? & ? & ?). cbn in *. split_and!; [done|lia|done]. }
  destruct star as [[sp st]|]; [|done]. intros H Hg Hs. destruct (Hs sp st eq_refl) as (Hsp & Hl & Hst).
  destruct st as [|c st]; [cbn in Hl; lia|]. cbn [drop] in H.
  destruct (at_globstar sp) eqn:E5.
  - apply at_globstarP in E5.
    assert (Heat : PathGlob sp st -> G) by (intros; apply Hst; rewrite E5 in *; by apply PG_any_eat).
    eapply IH; [exact H|..].
    + intros Hp. apply Heat. rewrite E5. by apply PG_any.
    + intros ?? [= <- <-]. done.
  - destruct (at_char SLASH (c :: st)) eqn:E6; [done|]. cbn in E6. bprop.
    assert (Hne := single_star _ E5 Hsp). rewrite (at_charP _ _ Hsp) in Hst, H.
    assert (Heat : PathGlob sp st -> G).
    { intros Hp. apply Hst. apply PG_star_eat; [done|done|]. by rewrite <-(at_charP _ _ Hsp). }
    eapply IH; [exact H|..].
    + cbn [drop]. rewrite drop_0. intros Hp. apply Heat. rewrite (at_charP _ _ Hsp). by apply PG_star.
    + intros ?? [= <- <-]. split_and!; [done|done|]. by rewrite <-(at_charP _ _ Hsp).
Qed.

Lemma length_skip_slash p : (length (skip_slash p) <= length p)%nat.
Proof. unfold skip_slash. destruct (at_char _ _); rewrite ?length_drop; lia. Qed.

(** The text from the last star bounds the restarts, the rest of the pattern
    the steps between two of them. *)
Lemma path_loop_total N P fuel pp tp star :
  (length tp <= N)%nat -> (length pp <= P)%nat ->
  (forall sp st, star = Some (sp, st) -> (length sp <= P /\ length tp <= length st <= N)%nat) ->
  (match star with None => S N | Some (_, st) => length st end * (P + 2) + length pp < fuel)%nat ->
  is_Some (path_loop fuel pp tp star).
Proof.
  revert pp tp star. induction fuel as [|fuel IH]; intros pp tp star Ht Hp Hs Hf; [lia|].
  destruct tp as [|t tp]; cbn [path_loop]; [eauto|].
  assert (Hstar : (length (t :: tp) <= match star with None => S N | Some (_, st) => length st end)%nat).
  { destruct star as [[sp st]|]; [|lia]. destruct (Hs sp st eq_refl). lia. }
  pose proof (Nat.mul_le_mono_r _ _ (P + 2) Hstar) as Hmul. cbn [length] in Ht, Hmul, Hstar.
  destruct (at_globstar pp) eqn:E1.
  { apply at_globstarP in E1. rewrite E1 in Hp, Hf. pose proof (length_skip_slash (drop 2 pp)). cbn [length] in Hp, Hf.
    apply IH; [cbn [length]; lia|lia|intros ?? [= <- <-]; rewrite E1; cbn [length]; lia|cbn [length]; lia]. }
  destruct (at_char STAR pp) eqn:E2.
  { rewrite (at_charP _ _ E2) in Hp, Hf. cbn [length] in Hp, Hf.
    apply IH; [cbn [length]; lia|lia|intros ?? [= <- <-]; rewrite (at_charP _ _ E2); cbn [length]; lia|cbn [length]; lia]. }
  assert (Hstep : (length (drop 1 pp) < length pp)%nat -> is_Some (path_loop fuel (drop 1 pp) tp star)).
  { intros Hl. apply IH; [cbn in Ht; lia|lia| |nia]. intros sp st E. destruct (Hs sp st E). cbn in *. lia. }
  destruct (at_char t pp) eqn:E3; [apply Hstep; rewrite (at_charP _ _ E3) at 2; cbn; lia|].
  destruct (_ && _) eqn:E4; [bprop; apply Hstep; rewrite (at_charP QM pp) at 2 by done; cbn; lia|].
  destruct star as [[sp st]|]; [|eauto]. destruct (Hs sp st eq_refl) as [Hsp Hst].
  assert (Hback : forall q, (length q <= P)%nat -> is_Some (path_loop fuel q (drop 1 st) (Some (sp, drop 1 st)))).
  { intros q Hq. apply IH; rewrite ?length_drop; [cbn in *; lia|done|intros ?? [= <- <-]; rewrite length_drop; lia|nia]. }
  destruct (at_globstar sp).
  - apply Hback. pose proof (length_skip_slash (drop 2 sp)). rewrite length_drop in *. lia.
  - destruct (at_char SLASH st); [eauto|]. apply Hback. rewrite length_drop. lia.
Qed.

(** ** Exactness on patterns with one trailing wildcard *)

Definition prefix_pattern (p : bytes) : Prop :=
  exists w t, p = w ++ t /\ Forall (fun c => c <> STAR) w /\ (t = [] \/ t = [STAR] \/ t = [STAR; STAR]).

Lemma globstar_tail_end p : globstar_tail p = true -> skip_slash_globstars (skip_stars p) = [].
Proof.
  intros H. assert (skip_stars p = p) as ->.
  { destruct p as [|a [|b [|c rest]]]; cbn in H; try done. bprop. by subst. }
  revert H. induction p as [p IH] using (induction_ltof1 _ (@length Z)).
  destruct p as [|a [|b [|c rest]]]; cbn; intros H; try done. bprop. subst. cbn. apply IH; [unfold ltof; cbn; lia|done].
Qed.

Lemma star_run_complete t s fuel b :
  (t = [STAR; STAR] \/ t = [STAR] /\ SLASH ∉ s) -> path_loop fuel [] s (Some (t, s)) = Some b -> b = true.
Proof.
  intros Ht. revert fuel Ht. induction s as [|c s IH]; intros fuel Ht.
  { destruct fuel; cbn; congruence. }
  destruct fuel as [|fuel]; [done|]. cbn [path_loop].
  destruct Ht as [->|[-> Hs]].
  - cbn. apply IH. by left.
  - cbn. destruct (Z.eqb_spec c SLASH) as [->|]; [set_solver|]. apply IH. right. set_solver.
Qed.

Lemma star_language s : PathGlob [STAR] s -> SLASH ∉ s.
Proof.
  intros H. remember [STAR] as p eqn:E. induction H; simplify_eq; try set_solver.
  match goal with H : PathGlob [] _ |- _ => inversion H; subst; set_solver end.
Qed.

Lemma path_loop_prefix w t s fuel b :
  Forall (fun c => c <> STAR) w -> (t = [] \/ t = [STAR] \/ t = [STAR; STAR]) ->
  PathGlob (w ++ t) s -> path_loop fuel (w ++ t) s None = Some b -> b = true.
Proof.
  intros Hw Ht. revert s fuel. induction Hw as [|c w Hc Hw IH]; intros s fuel Hg.
  - destruct s as [|x s].
    { destruct fuel; cbn [path_loop]; intros [= <-]; by destruct Ht as [->|[->| ->]]. }
    destruct fuel as [|fuel]; [done|]. destruct Ht as [->|[->| ->]]; cbn; [inversion Hg| |]; intros H.
    + eapply star_run_complete; [|exact H]. right. split; [done|]. by apply star_language.
    + eapply star_run_complete; [|exact H]. by left.
  - destruct s as [|x s].
    { assert (Htail : globstar_tail ((c :: w) ++ t) = true) by (inversion Hg; subst; done).
      destruct fuel; cbn [path_loop]; rewrite (globstar_tail_end _ Htail); by intros [= <-]. }
    destruct fuel as [|fuel]; [done|]. cbn [path_loop].
    assert (at_globstar ((c :: w) ++ t) = false) as ->.
    { cbn. destruct (w ++ t); [done|]. by destruct (Z.eqb_spec c STAR). }
    assert (at_char STAR ((c :: w) ++ t) = false) as -> by (cbn; by apply Z.eqb_neq).
    assert (Hm : (c = x \/ (c = QM /\ x <> SLASH)) /\ PathGlob (w ++ t) s) by (inversion Hg; subst; naive_solver).
    destruct Hm as [Hm Hrest]. cbn [app at_char drop].
    destruct (Z.eqb_spec c x); [by apply IH|].
    destruct Hm as [|[-> Hx]]; [done|]. rewrite Z.eqb_refl. destruct (Z.eqb_spec x SLASH); [done|]. cbn. by apply IH.
Qed.

(** ** Directories *)

Fixpoint has_globstar (p : bytes) : bool := match p with [] => false | _ :: p' => at_globstar p || has_globstar p' end.

(** The depth of a path or of a pattern: its slashes. *)
Definition slashes (s : bytes) : nat := length (filter (fun c => c = SLASH) s).

Lemma slashes_cons c s : slashes (c :: s) = ((if decide (c = SLASH) then 1 else 0) + slashes s)%nat.
Proof. unfold slashes. rewrite filter_cons. by case_decide. Qed.

Lemma path_depth p s : PathGlob p s -> has_globstar p = false -> slashes s = slashes p.
Proof.
  induction 1 as [|p Ht|p s H IH|p c s H IH|p s Hp H IH|p c s Hp Hc H IH|p c s Hc H IH|p c s Hc H IH]; intros Hn;
    rewrite ?slashes_cons in *; cbn [has_globstar] in Hn; bprop; try done.
  - destruct p as [|a [|b [|c rest]]]; cbn in Ht; try done. bprop. by subst.
  - by rewrite IH.
  - rewrite decide_False by done. rewrite IH; [done|]. cbn [has_globstar]. by apply orb_false_iff.
  - rewrite !decide_False by done. by rewrite IH.
  - by rewrite IH.
Qed.

(** Used by every client of the matcher. *)
Lemma match_path_language pattern path :
  ak_policy_v2_match_path (Some pattern) (Some path) = true -> PathGlob (cstr pattern) (cstr path).
Proof.
  unfold ak_policy_v2_match_path. destruct (path_loop _ _ _ _) as [b|] eqn:E; [|done]. cbn. intros ->.
  by apply (path_loop_sound _ _ _ _ _ E).
Qed.

(** The path matcher of the effect policy is safe: it returns for every
    pattern and path; what it accepts is in the language of the pattern; it
    accepts all of that language when the pattern is a literal path with at
    most one trailing wildcard, as those of the built-in profiles; and a
    pattern without [**] accepts only paths of its own depth. *)
Theorem path_match_sound pattern path :
  let p := cstr pattern in
  let s := cstr path in
  is_Some (path_loop (path_fuel p s) p s None) /\
  (ak_policy_v2_match_path (Some pattern) (Some path) = true -> PathGlob p s) /\
  (prefix_pattern p -> PathGlob p s -> ak_policy_v2_match_path (Some pattern) (Some path) = true) /\
  (ak_policy_v2_match_path (Some pattern) (Some path) = true -> has_globstar p = false -> slashes s = slashes p).
Proof.
  intros p s.
  destruct (path_loop_total (length s) (length p) (path_fuel p s) p s None) as [b Hb];
    [lia|lia|done|unfold path_fuel; nia|].
  split_and!; [eauto|apply match_path_language| |].
  - intros (w & t & Ep & Hw & Ht) Hg. unfold ak_policy_v2_match_path. fold p s. rewrite Hb. cbn.
    rewrite Ep in Hb, Hg. by apply (path_loop_prefix w t s _ _ Hw Ht Hg Hb).
  - intros Hm. apply path_depth. by apply match_path_language.
Qed.

Lemma path_match_sound_witness :
  prefix_pattern (cstr B"/lib/**") /\ ak_policy_v2_match_path (Some B"/lib/**") (Some B"/lib/x/y.so") = true /\
  slashes B"/tmp/a.txt" = slashes B"/tmp/*.txt".
Proof.
  assert (Hp : prefix_pattern (cstr B"/lib/**")).
  { exists (B"/lib/"), (B"**"). split_and!; [done| |by right; right]. repeat constructor; done. }
  split_and!; [exact Hp| |].
  - apply (proj1 (proj2 (proj2 (path_match_sound B"/lib/**" B"/lib/x/y.so")))); [exact Hp|].
    repeat (apply PG_chr; [done|]). apply PG_any_eat, PG_any_eat, PG_any_eat, PG_any_eat, PG_any_eat, PG_any_eat, PG_any. constructor.
  - apply (proj2 (proj2 (proj2 (path_match_sound B"/tmp/*.txt" B"/tmp/a.txt")))); vm_compute; reflexivity.
Defined.

(** ** Where the matchers leave their description *)

(** [**] gives up when a later [*] meets a slash: the pattern below does not
    reach a file two directories down, although [**] stands for any text. *)
Example globstar_then_star_incomplete :
  ak_policy_v2_match_path (Some B"/a/**/*.txt") (Some B"/a/b/c.txt") = false /\ PathGlob B"/a/**/*.txt" B"/a/b/c.txt".
Proof.
  split; [vm_compute; reflexivity|].
  repeat (apply PG_chr; [done|]). apply PG_any_eat, PG_any_eat, PG_any; cbn.
  apply PG_star_eat; [done|done|]. apply PG_star; [done|]. repeat (apply PG_chr; [done|]). constructor.
Qed.

(** The slash behind [**] is dropped: a name that merely ends in the
    protected one matches. *)
Example globstar_slash_optional : ak_policy_v2_match_path (Some B"/data/**/secret") (Some B"/data/topsecret") = true.
Proof. vm_compute. reflexivity. Qed.

(** A wildcard domain matches at any character, not at a label. *)
Example dns_wildcard_ignores_labels : ak_policy_v2_match_dns (Some B"*.example.com") (Some B"evilexample.com") = true.
Proof. vm_compute. reflexivity. Qed.
