(* ===== verification/PolicyV2.v ===== *)
(** * The effect policy: rules and decisions ([src/src/agentic/ak_policy_v2.c])

    The second-generation policy decides effects (file, network, process, tool,
    WASM and inference requests) by lists of rules, denying what no rule
    grants.  A linked list of rules is a list, its head first; a [char] array
    that holds a string is that string.

    Theorems: the check of a request succeeds exactly when the policy grants
    the effect and its budget fits, denials take precedence, and a refusal
    always says why. *)

From S2P Require Import Prelude Pattern Budget Json Policy PolicyDoc PathGlob.

(** ** Effects ([ak_effects.h]) *)

Definition AK_E_FS_OPEN : Z := 0x0100.
Definition AK_E_FS_UNLINK : Z := 0x0101.
Definition AK_E_FS_RENAME : Z := 0x0102.
Definition AK_E_FS_MKDIR : Z := 0x0103.
Definition AK_E_FS_RMDIR : Z := 0x0104.
Definition AK_E_FS_STAT : Z := 0x0105.
Definition AK_E_NET_CONNECT : Z := 0x0200.
Definition AK_E_NET_DNS_RESOLVE : Z := 0x0201.
Definition AK_E_NET_BIND : Z := 0x0202.
Definition AK_E_NET_LISTEN : Z := 0x0203.
Definition AK_E_NET_ACCEPT : Z := 0x0204.
Definition AK_E_PROC_SPAWN : Z := 0x0300.
Definition AK_E_PROC_SIGNAL : Z := 0x0301.
Definition AK_E_PROC_WAIT : Z := 0x0302.
Definition AK_E_TOOL_CALL : Z := 0x0400.
Definition AK_E_WASM_INVOKE : Z := 0x0401.
Definition AK_E_INFER : Z := 0x0402.
Definition AK_E_AGENT_SEND : Z := 0x0403.

Definition AK_MAX_TARGET : nat := 512.
Definition AK_MAX_PARAMS : nat := 4096.
Definition AK_MAX_CAPSTR : nat := 64.
Definition AK_MAX_SUGGEST : nat := 512.
Definition AK_MAX_DETAIL : nat := 256.

(** [budget] is the anonymous structure of the request. *)
Record ak_req_budget := mk_req_budget { rb_cpu_ns : Z; rb_wall_ns : Z; rb_bytes : Z; rb_tokens : Z }.

(** [er_params] are the [params_len] bytes in use. *)
Record ak_effect_req := mk_effect {
  er_op : Z; er_trace_id : Z; er_pid : Z; er_tid : Z; er_target : bytes; er_params : bytes; er_budget : ak_req_budget; er_flags : Z }.

Definition AK_DENY_NONE : Z := 0.
Definition AK_DENY_NO_POLICY : Z := 1.
Definition AK_DENY_NO_CAP : Z := 2.
Definition AK_DENY_PATTERN_MISMATCH : Z := 4.
Definition AK_DENY_BUDGET_EXCEEDED : Z := 5.
Definition AK_DENY_RATE_LIMITED : Z := 6.
Definition AK_DENY_REVOKED : Z := 8.
Definition AK_DENY_BOOT_CAPSULE : Z := 10.

Definition EACCES : Z := 13.

Record ak_decision := mk_decision {
  de_allow : bool; de_reason_code : Z; de_errno_equiv : Z; de_missing_cap : bytes; de_suggested_snippet : bytes;
  de_trace_id : Z; de_detail : bytes; de_decision_ns : Z }.

(** ** Rules and policies ([ak_policy_v2.h]) *)

Record ak_fs_rule_v2 := mk_fs_rule { fr_pattern : bytes; fr_read : bool; fr_write : bool }.
Record ak_net_rule_v2 := mk_net_rule { nr_pattern : bytes; nr_connect : bool; nr_bind : bool; nr_listen : bool }.
Record ak_dns_rule_v2 := mk_dns_rule { dr2_pattern : bytes; dr2_allow : bool }.
Record ak_tool_rule_v2 := mk_tool_rule2 { tr2_pattern : bytes; tr2_allow : bool }.
Record ak_wasm_rule_v2 := mk_wasm_rule { wr_module_pattern : bytes; wr_hostcalls : list (option bytes) }.
Record ak_infer_rule_v2 := mk_infer_rule { ir_model_pattern : bytes; ir_max_tokens : Z }.
Record ak_spawn_rule_v2 := mk_spawn_rule {
  sr_pattern : bytes; sr_allow : bool; sr_inherit_caps : bool; sr_inherit_policy : bool; sr_sandboxed : bool; sr_max_children : Z; sr_max_wall_ms : Z }.

Record ak_budgets_v2 := mk_budgets2 { b2_cpu_ns : Z; b2_wall_ns : Z; b2_bytes : Z; b2_tokens : Z; b2_tool_calls : Z }.

Record ak_policy_v2 := mk_policy2 {
  p2_version : bytes; p2_hash : bytes; p2_loaded_ns : Z;
  p2_signature : bytes; p2_has_signature : bool; p2_signature_verified : bool;
  p2_fs_rules : list ak_fs_rule_v2; p2_net_rules : list ak_net_rule_v2; p2_dns_rules : list ak_dns_rule_v2; p2_tool_rules : list ak_tool_rule_v2;
  p2_wasm_rules : list ak_wasm_rule_v2; p2_infer_rules : list ak_infer_rule_v2; p2_spawn_rules : list ak_spawn_rule_v2;
  p2_budgets : ak_budgets_v2; p2_profiles : list bytes; p2_loaded : bool; p2_fail_closed : bool }.

(** ** Checks of one kind of effect

    A [while (rule)] loop that returns at the first rule of a kind is a
    search of the list. *)

Definition open_policy (policy : option ak_policy_v2) : option ak_policy_v2 :=
  match policy with Some p => if p2_fail_closed p then None else Some p | None => None end.

Definition ak_policy_v2_check_fs (policy : option ak_policy_v2) (path : option bytes) (write : bool) : bool :=
  match open_policy policy, path with
  | Some p, Some path =>
      existsb (fun rule => ak_policy_v2_match_path (Some (fr_pattern rule)) (Some path) && (if write then fr_write rule else fr_read rule)) (p2_fs_rules p)
  | _, _ => false
  end.

Definition ak_policy_v2_check_net_connect (policy : option ak_policy_v2) (target : option bytes) : bool :=
  match open_policy policy, target with
  | Some p, Some target => existsb (fun rule => nr_connect rule && ak_policy_v2_match_net (Some (nr_pattern rule)) (Some target)) (p2_net_rules p)
  | _, _ => false
  end.

Definition ak_policy_v2_check_dns (policy : option ak_policy_v2) (hostname : option bytes) : bool :=
  match open_policy policy, hostname with
  | Some p, Some hostname => existsb (fun rule => dr2_allow rule && ak_policy_v2_match_dns (Some (dr2_pattern rule)) (Some hostname)) (p2_dns_rules p)
  | _, _ => false
  end.

(** Denials first, then grants. *)
Definition ak_policy_v2_check_tool (policy : option ak_policy_v2) (tool_name : option bytes) : bool :=
  match open_policy policy, tool_name with
  | Some p, Some tool =>
      if existsb (fun rule => negb (tr2_allow rule) && ak_pattern_match (tr2_pattern rule) tool) (p2_tool_rules p) then false
      else existsb (fun rule => tr2_allow rule && ak_pattern_match (tr2_pattern rule) tool) (p2_tool_rules p)
  | _, _ => false
  end.

(** The first rule whose module pattern matches decides. *)
Definition ak_policy_v2_check_wasm (policy : option ak_policy_v2) (module hostcall : option bytes) : bool :=
  match open_policy policy, module with
  | Some p, Some module =>
      match List.find (fun rule => ak_pattern_match (wr_module_pattern rule) module) (p2_wasm_rules p) with
      | None => false
      | Some rule =>
          match hostcall with
          | None => true
          | Some call => existsb (fun a => match a with Some a => ak_pattern_match a call | None => false end) (wr_hostcalls rule)
          end
      end
  | _, _ => false
  end.

(** The result and [*max_out]. *)
Definition ak_policy_v2_check_infer (policy : option ak_policy_v2) (model : option bytes) (tokens : Z) : bool * option Z :=
  match open_policy policy, model with
  | Some p, Some model =>
      match List.find (fun rule => ak_pattern_match (ir_model_pattern rule) model) (p2_infer_rules p) with
      | None => (false, None)
      | Some rule => (tokens <=? ir_max_tokens rule, Some (ir_max_tokens rule))
      end
  | _, _ => (false, None)
  end.

Definition over (limit amount : Z) : bool := (0 <? limit) && (limit <? amount).

Definition ak_policy_v2_check_budget (policy : option ak_policy_v2) (req : option ak_effect_req) : bool :=
  match open_policy policy, req with
  | Some p, Some req =>
      let b := p2_budgets p in
      let r := er_budget req in
      if over (b2_cpu_ns b) (rb_cpu_ns r) then false
      else if over (b2_wall_ns b) (rb_wall_ns r) then false
      else if over (b2_bytes b) (rb_bytes r) then false
      else negb (over (b2_tokens b) (rb_tokens r))
  | _, _ => false
  end.

Definition ak_policy_v2_check_spawn (policy : option ak_policy_v2) (program : option bytes) : bool :=
  match open_policy policy, program with
  | Some p, Some prog =>
      if existsb (fun rule => negb (sr_allow rule) && ak_policy_v2_match_path (Some (sr_pattern rule)) (Some prog)) (p2_spawn_rules p) then false
      else existsb (fun rule => sr_allow rule && ak_policy_v2_match_path (Some (sr_pattern rule)) (Some prog)) (p2_spawn_rules p)
  | _, _ => false
  end.

Definition ak_policy_v2_get_spawn_rule (policy : option ak_policy_v2) (program : option bytes) : option ak_spawn_rule_v2 :=
  match policy, program with
  | Some p, Some prog => List.find (fun rule => ak_policy_v2_match_path (Some (sr_pattern rule)) (Some prog)) (p2_spawn_rules p)
  | _, _ => None
  end.

(** ** Suggestions *)

(** [APPEND]: copies while there is room before [end]. *)
Definition append (room : nat) (snippet s : bytes) : bytes := snippet ++ take (room - length snippet) s.

Definition strip (prefix s : bytes) : bytes := if has_prefix prefix s then drop (length prefix) s else s.

(** The characters up to a colon. *)
Fixpoint upto_colon (s : bytes) : bytes :=
  match s with c :: s' => if c =? 58 then [] else c :: upto_colon s' | [] => [] end.

Definition is_op (ops : list Z) (op : Z) : bool := existsb (Z.eqb op) ops.

(** The snippet for a request: a heading, the object, a closing. *)
Definition suggestion (req : ak_effect_req) : list bytes :=
  let op := er_op req in
  let target := cstr (er_target req) in
  let close := [34; 93; 10] in
  if is_op [AK_E_FS_OPEN; AK_E_FS_STAT] op then [B"[fs]" ++ 10 :: B"read = [" ++ [34]; target; close]
  else if is_op [AK_E_FS_UNLINK; AK_E_FS_RENAME; AK_E_FS_MKDIR; AK_E_FS_RMDIR] op then [B"[fs]" ++ 10 :: B"write = [" ++ [34]; target; close]
  else if op =? AK_E_NET_CONNECT then [B"[net]" ++ 10 :: B"connect = [" ++ [34]; target; close]
  else if op =? AK_E_NET_DNS_RESOLVE then [B"[net]" ++ 10 :: B"dns = [" ++ [34]; strip B"dns:" target; close]
  else if op =? AK_E_TOOL_CALL then [B"[tools]" ++ 10 :: B"allow = [" ++ [34]; upto_colon (strip B"tool:" target); close]
  else if op =? AK_E_WASM_INVOKE then [B"[wasm]" ++ 10 :: B"modules = [" ++ [34]; upto_colon (strip B"wasm:" target); close]
  else if op =? AK_E_INFER then [B"[infer]" ++ 10 :: B"models = [" ++ [34]; upto_colon (strip B"model:" target); close]
  else if op =? AK_E_PROC_SPAWN then [B"[spawn]" ++ 10 :: B"allow = [" ++ [34]; strip B"spawn:" target; close]
  else if is_op [AK_E_PROC_SIGNAL; AK_E_PROC_WAIT] op then [B"[spawn]" ++ 10 :: B"# Enable spawn rules to allow signal/wait" ++ [10]]
  else [B"# Unknown effect type" ++ [10]].

(** The text of [snippet], an array of [max_len] bytes. *)
Definition ak_policy_v2_suggest (req : ak_effect_req) (max_len : nat) : bytes :=
  foldl (append (max_len - 1)) [] (suggestion req).

Definition ak_policy_v2_get_missing_cap (req : ak_effect_req) (max_len : nat) : bytes :=
  let op := er_op req in
  take (max_len - 1)
    (if is_op [AK_E_FS_OPEN; AK_E_FS_STAT] op then B"fs.read"
     else if is_op [AK_E_FS_UNLINK; AK_E_FS_RENAME; AK_E_FS_MKDIR; AK_E_FS_RMDIR] op then B"fs.write"
     else if op =? AK_E_NET_CONNECT then B"net.connect"
     else if op =? AK_E_NET_DNS_RESOLVE then B"net.dns"
     else if op =? AK_E_NET_BIND then B"net.bind"
     else if op =? AK_E_NET_LISTEN then B"net.listen"
     else if op =? AK_E_TOOL_CALL then B"tool"
     else if op =? AK_E_WASM_INVOKE then B"wasm"
     else if op =? AK_E_INFER then B"infer"
     else if op =? AK_E_PROC_SPAWN then B"spawn"
     else if op =? AK_E_PROC_SIGNAL then B"proc.signal"
     else if op =? AK_E_PROC_WAIT then B"proc.wait"
     else B"unknown").

Definition ak_policy_v2_is_fail_closed (policy : option ak_policy_v2) : bool :=
  match policy with None => true | Some p => p2_fail_closed p end.

(** ** The check of a request *)

Definition O_WRONLY : Z := 1.
Definition O_RDONLY : Z := 0.
Definition O_ACCMODE : Z := 3.
Definition O_CREAT : Z := 64.
Definition O_TRUNC : Z := 512.
Definition O_APPEND : Z := 1024.

(** [parse_number]: the value and the rest; a run of no digits is 0. *)
Definition parse_number (p : bytes) : Z * bytes := pj_u64_loop p 0.

Fixpoint skip_colon (p : bytes) : bytes :=
  match p with c :: p' => if (c =? 58) || (c =? 32) || (c =? 9) then skip_colon p' else p | [] => [] end.

(** The [for] loop of [parse_params_u64] at the offset whose rest is [p]. *)
Fixpoint find_param (key p : bytes) : option Z :=
  match p with
  | [] => None
  | c :: p' =>
      if negb (length key + 2 <? length p)%nat then None
      else if (c =? QUOTE) && has_prefix key p' && at_char QUOTE (drop (length key) p') then
        match skip_colon (drop (S (length key)) p') with
        | d :: q => if is_dec d then Some (parse_number (d :: q)).1 else None
        | [] => None
        end
      else find_param key p'
  end.

Definition parse_params_u64 (params : bytes) (key : bytes) : option Z := find_param key params.

(** Whether an open needs read and write scope. *)
Definition open_intent (params : bytes) : bool * bool :=
  match parse_params_u64 params B"f" with
  | None => (true, true)
  | Some flags =>
      let acc := Z.land flags O_ACCMODE in
      (negb (acc =? O_WRONLY), negb (acc =? O_RDONLY) || negb (Z.land flags (Z.lor (Z.lor O_CREAT O_TRUNC) O_APPEND) =? 0))
  end.

(** A name copied into [char name[64]]. *)
Definition name64 (s : bytes) : bytes := take 63 (upto_colon s).

(** The [switch] on the operation: the answer and [missing_cap]. *)
Definition check_effect (p : ak_policy_v2) (req : ak_effect_req) : bool * bytes :=
  let policy := Some p in
  let op := er_op req in
  let target := cstr (er_target req) in
  if op =? AK_E_FS_OPEN then
    let '(need_read, need_write) := open_intent (er_params req) in
    ((if need_read then ak_policy_v2_check_fs policy (Some target) false else true) &&
     (if need_write then ak_policy_v2_check_fs policy (Some target) true else true),
     if need_write then B"fs.write" else B"fs.read")
  else if is_op [AK_E_FS_UNLINK; AK_E_FS_RENAME; AK_E_FS_MKDIR; AK_E_FS_RMDIR] op then
    (ak_policy_v2_check_fs policy (Some target) true, B"fs.write")
  else if op =? AK_E_FS_STAT then (ak_policy_v2_check_fs policy (Some target) false, B"fs.read")
  else if op =? AK_E_NET_CONNECT then (ak_policy_v2_check_net_connect policy (Some target), B"net.connect")
  else if op =? AK_E_NET_DNS_RESOLVE then (ak_policy_v2_check_dns policy (Some (strip B"dns:" target)), B"net.dns")
  else if is_op [AK_E_NET_BIND; AK_E_NET_LISTEN] op then (false, B"net.bind")
  else if op =? AK_E_TOOL_CALL then (ak_policy_v2_check_tool policy (Some (name64 (strip B"tool:" target))), B"tool")
  else if op =? AK_E_WASM_INVOKE then (ak_policy_v2_check_wasm policy (Some (name64 (strip B"wasm:" target))) None, B"wasm")
  else if op =? AK_E_INFER then
    ((ak_policy_v2_check_infer policy (Some (name64 (strip B"model:" target))) (rb_tokens (er_budget req))).1, B"infer")
  else if op =? AK_E_PROC_SPAWN then (ak_policy_v2_check_spawn policy (Some (strip B"spawn:" target)), B"spawn")
  else if is_op [AK_E_PROC_SIGNAL; AK_E_PROC_WAIT] op then
    (match p2_spawn_rules p with [] => false | _ => true end, B"proc")
  else (false, B"unknown").

(** The decision is [*decision_out], which the code zeroes first. *)
Definition ak_policy_v2_check (policy : option ak_policy_v2) (req : option ak_effect_req) : bool * ak_decision :=
  let trace := match req with Some r => er_trace_id r | None => 0 end in
  match policy, req with
  | None, _ => (false, mk_decision false AK_DENY_NO_POLICY EPERM B"policy" [] trace B"No policy loaded" 0)
  | Some _, None => (false, mk_decision false AK_DENY_NO_CAP EINVAL [] [] trace B"Invalid request" 0)
  | Some p, Some req =>
      let snippet := ak_policy_v2_suggest req AK_MAX_SUGGEST in
      if p2_fail_closed p then
        (false, mk_decision false AK_DENY_NO_POLICY EPERM B"policy" snippet trace B"No policy loaded (fail-closed)" 0)
      else
        let '(granted, cap) := check_effect p req in
        if negb granted then (false, mk_decision false AK_DENY_PATTERN_MISMATCH EACCES cap snippet trace [] 0)
        else if negb (ak_policy_v2_check_budget policy (Some req)) then
          (false, mk_decision false AK_DENY_BUDGET_EXCEEDED EACCES B"budget" snippet trace [] 0)
        else (true, mk_decision true AK_DENY_NONE 0 [] [] trace [] 0)
  end.

(** ** Specification: what a policy grants *)

Definition fs_granted (p : ak_policy_v2) (path : bytes) (write : bool) : Prop :=
  exists rule, rule ∈ p2_fs_rules p /\ (if write then fr_write rule else fr_read rule) = true /\
    ak_policy_v2_match_path (Some (fr_pattern rule)) (Some path) = true.

Definition grants (p : ak_policy_v2) (req : ak_effect_req) : Prop :=
  let op := er_op req in
  let target := cstr (er_target req) in
  (op = AK_E_FS_OPEN /\ ((open_intent (er_params req)).1 = true -> fs_granted p target false) /\
     ((open_intent (er_params req)).2 = true -> fs_granted p target true)) \/
  (op ∈ [AK_E_FS_UNLINK; AK_E_FS_RENAME; AK_E_FS_MKDIR; AK_E_FS_RMDIR] /\ fs_granted p target true) \/
  (op = AK_E_FS_STAT /\ fs_granted p target false) \/
  (op = AK_E_NET_CONNECT /\
     exists rule, rule ∈ p2_net_rules p /\ nr_connect rule = true /\ ak_policy_v2_match_net (Some (nr_pattern rule)) (Some target) = true) \/
  (op = AK_E_NET_DNS_RESOLVE /\
     exists rule, rule ∈ p2_dns_rules p /\ dr2_allow rule = true /\ ak_policy_v2_match_dns (Some (dr2_pattern rule)) (Some (strip B"dns:" target)) = true) \/
  (op = AK_E_TOOL_CALL /\
     let name := cstr (name64 (strip B"tool:" target)) in
     (exists rule, rule ∈ p2_tool_rules p /\ tr2_allow rule = true /\ Glob (cstr (tr2_pattern rule)) name) /\
     (forall rule, rule ∈ p2_tool_rules p -> tr2_allow rule = false -> ~ Glob (cstr (tr2_pattern rule)) name)) \/
  (op = AK_E_WASM_INVOKE /\
     exists rule, rule ∈ p2_wasm_rules p /\ Glob (cstr (wr_module_pattern rule)) (cstr (name64 (strip B"wasm:" target)))) \/
  (op = AK_E_INFER /\
     exists before rule after, p2_infer_rules p = before ++ rule :: after /\
       Glob (cstr (ir_model_pattern rule)) (cstr (name64 (strip B"model:" target))) /\
       (forall r, r ∈ before -> ~ Glob (cstr (ir_model_pattern r)) (cstr (name64 (strip B"model:" target)))) /\
       rb_tokens (er_budget req) <= ir_max_tokens rule) \/
  (op = AK_E_PROC_SPAWN /\
     let prog := strip B"spawn:" target in
     (exists rule, rule ∈ p2_spawn_rules p /\ sr_allow rule = true /\ ak_policy_v2_match_path (Some (sr_pattern rule)) (Some prog) = true) /\
     (forall rule, rule ∈ p2_spawn_rules p -> sr_allow rule = false -> ak_policy_v2_match_path (Some (sr_pattern rule)) (Some prog) = false)) \/
  (op ∈ [AK_E_PROC_SIGNAL; AK_E_PROC_WAIT] /\ p2_spawn_rules p <> []).

(** A limit of 0 is no limit. *)
Definition fits (limit amount : Z) : Prop := limit <= 0 \/ amount <= limit.
Definition within_budgets (p : ak_policy_v2) (req : ak_effect_req) : Prop :=
  let b := p2_budgets p in
  let r := er_budget req in
  fits (b2_cpu_ns b) (rb_cpu_ns r) /\ fits (b2_wall_ns b) (rb_wall_ns r) /\ fits (b2_bytes b) (rb_bytes r) /\ fits (b2_tokens b) (rb_tokens r).

(** ** The checks decide it *)

Lemma existsb_elem {A} (f : A -> bool) l : existsb f l = true <-> exists x, x ∈ l /\ f x = true.
Proof. rewrite existsb_exists. by setoid_rewrite list_elem_of_In. Qed.

Lemma existsb_false {A} (f : A -> bool) l : existsb f l = false <-> forall x, x ∈ l -> f x = false.
Proof.
  rewrite <-not_true_iff_false, existsb_elem. setoid_rewrite <-not_true_iff_false. naive_solver.
Qed.

Lemma find_split {A} (f : A -> bool) l x :
  List.find f l = Some x <-> exists before after, l = before ++ x :: after /\ f x = true /\ forall y, y ∈ before -> f y = false.
Proof.
  induction l as [|y l IH]; cbn.
  { split; [done|]. intros ([|] & ? & ? & _); done. }
  destruct (f y) eqn:E.
  - split.
    + intros [= ->]. exists [], l. split_and!; [done|done|]. intros ? H; inversion H.
    + intros ([|z before] & after & H1 & H2 & H3); simplify_eq/=; [done|]. rewrite H3 in E; [done|left].
  - rewrite IH. split.
    + intros (before & after & -> & ? & H). exists (y :: before), after. split_and!; [done|done|].
      intros z Hz. inversion Hz; subst; auto.
    + intros ([|z before] & after & H1 & H2 & H3); simplify_eq/=; [congruence|].
      exists before, after. split_and!; [done|done|]. intros w Hw. apply H3. by right.
Qed.

Lemma is_opP ops op : is_op ops op = true <-> op ∈ ops.
Proof.
  unfold is_op. rewrite existsb_elem. split.
  - intros (x & Hx & ->%Z.eqb_eq). done.
  - intros H. exists op. split; [done|apply Z.eqb_refl].
Qed.

Lemma open_policy_open p : p2_fail_closed p = false -> open_policy (Some p) = Some p.
Proof. intros H. cbn. by rewrite H. Qed.

(** The disjuncts of [grants] exclude each other by the operation. *)
Ltac exclude_op :=
  exfalso; rewrite ?elem_of_cons, ?elem_of_nil in *;
  unfold AK_E_FS_OPEN, AK_E_FS_UNLINK, AK_E_FS_RENAME, AK_E_FS_MKDIR, AK_E_FS_RMDIR, AK_E_FS_STAT, AK_E_NET_CONNECT, AK_E_NET_DNS_RESOLVE,
    AK_E_NET_BIND, AK_E_NET_LISTEN, AK_E_PROC_SPAWN, AK_E_PROC_SIGNAL, AK_E_PROC_WAIT, AK_E_TOOL_CALL, AK_E_WASM_INVOKE, AK_E_INFER in *;
  lia.
Ltac effect_case lem :=
  split;
  [let Hc := fresh in intros Hc; apply lem in Hc; repeat first [solve [left; split; assumption] | right]; split; assumption
  |let Hg := fresh "Hgrant" in intros Hg; apply lem; repeat destruct Hg as [[? ?]|Hg]; try destruct Hg; first [assumption | exclude_op]].

Section Checks.
Context (p : ak_policy_v2) (Hopen : p2_fail_closed p = false).

Lemma check_fsP path w : ak_policy_v2_check_fs (Some p) (Some path) w = true <-> fs_granted p path w.
Proof.
  unfold ak_policy_v2_check_fs, fs_granted. rewrite open_policy_open, existsb_elem by done.
  setoid_rewrite andb_true_iff. naive_solver.
Qed.

Lemma check_toolP name :
  ak_policy_v2_check_tool (Some p) (Some name) = true <->
  (exists rule, rule ∈ p2_tool_rules p /\ tr2_allow rule = true /\ Glob (cstr (tr2_pattern rule)) (cstr name)) /\
  (forall rule, rule ∈ p2_tool_rules p -> tr2_allow rule = false -> ~ Glob (cstr (tr2_pattern rule)) (cstr name)).
Proof.
  unfold ak_policy_v2_check_tool. rewrite open_policy_open by done. setoid_rewrite <-ak_pattern_matchP.
  destruct (existsb _ _) eqn:E.
  - split; [done|]. apply existsb_elem in E as (r & Hr & E). bprop. intros [_ H']. by destruct (H' r).
  - rewrite existsb_elem. setoid_rewrite andb_true_iff. split; [|naive_solver].
    intros H. split; [naive_solver|]. intros r Hr Ha Hm.
    apply (proj1 (existsb_false _ _)) with (x := r) in E; [|done]. rewrite Ha, Hm in E. done.
Qed.

Lemma check_spawnP prog :
  ak_policy_v2_check_spawn (Some p) (Some prog) = true <->
  (exists rule, rule ∈ p2_spawn_rules p /\ sr_allow rule = true /\ ak_policy_v2_match_path (Some (sr_pattern rule)) (Some prog) = true) /\
  (forall rule, rule ∈ p2_spawn_rules p -> sr_allow rule = false -> ak_policy_v2_match_path (Some (sr_pattern rule)) (Some prog) = false).
Proof.
  unfold ak_policy_v2_check_spawn. rewrite open_policy_open by done.
  destruct (existsb _ _) eqn:E.
  - split; [done|]. apply existsb_elem in E as (r & Hr & E). bprop. intros [_ H']. rewrite H' in * by done. done.
  - rewrite existsb_elem. setoid_rewrite andb_true_iff. split; [|naive_solver].
    intros H. split; [naive_solver|]. intros r Hr Ha.
    apply (proj1 (existsb_false _ _)) with (x := r) in E; [|done]. by rewrite Ha in E.
Qed.

Lemma check_inferP name tokens :
  (ak_policy_v2_check_infer (Some p) (Some name) tokens).1 = true <->
  exists before rule after, p2_infer_rules p = before ++ rule :: after /\
    Glob (cstr (ir_model_pattern rule)) (cstr name) /\
    (forall r, r ∈ before -> ~ Glob (cstr (ir_model_pattern r)) (cstr name)) /\ tokens <= ir_max_tokens rule.
Proof.
  unfold ak_policy_v2_check_infer. rewrite open_policy_open by done. setoid_rewrite <-ak_pattern_matchP.
  setoid_rewrite not_true_iff_false.
  destruct (List.find _ _) as [r|] eqn:E; cbn.
  - pose proof E as E'. apply find_split in E' as (before & after & Hl & Hm & Hb). rewrite Z.leb_le. split; [eauto 10|].
    intros (b2 & r2 & a2 & H1 & H2 & H3 & H4).
    enough (Some r = Some r2) by congruence. rewrite <-E. apply find_split. eauto 10.
  - split; [done|]. intros (b2 & r2 & a2 & H1 & H2 & H3 & _).
    enough (List.find (fun rule => ak_pattern_match (ir_model_pattern rule) name) (p2_infer_rules p) = Some r2) by congruence.
    apply find_split. eauto 10.
Qed.

Lemma check_wasmP name :
  ak_policy_v2_check_wasm (Some p) (Some name) None = true <->
  exists rule, rule ∈ p2_wasm_rules p /\ Glob (cstr (wr_module_pattern rule)) (cstr name).
Proof.
  unfold ak_policy_v2_check_wasm. rewrite open_policy_open by done. setoid_rewrite <-ak_pattern_matchP.
  destruct (List.find _ _) as [r|] eqn:E.
  - split; [|done]. intros _. apply find_some in E as [? ?]. exists r. by rewrite list_elem_of_In.
  - split; [done|]. intros (r & Hr & Hm). apply list_elem_of_In in Hr.
    pose proof (List.find_none _ _ E r Hr) as H. cbn in H. congruence.
Qed.

Lemma check_budgetP req : ak_policy_v2_check_budget (Some p) (Some req) = true <-> within_budgets p req.
Proof.
  unfold ak_policy_v2_check_budget, within_budgets, fits, over. rewrite open_policy_open by done.
  zsplit; cbn; split; try done; intros; lia.
Qed.

Lemma check_openP (nr nw : bool) path :
  (if nr then ak_policy_v2_check_fs (Some p) (Some path) false else true) &&
  (if nw then ak_policy_v2_check_fs (Some p) (Some path) true else true) = true <->
  (nr = true -> fs_granted p path false) /\ (nw = true -> fs_granted p path true).
Proof. rewrite andb_true_iff, <-!check_fsP. destruct nr, nw; naive_solver. Qed.

Lemma check_netP target :
  ak_policy_v2_check_net_connect (Some p) (Some target) = true <->
  exists rule, rule ∈ p2_net_rules p /\ nr_connect rule = true /\ ak_policy_v2_match_net (Some (nr_pattern rule)) (Some target) = true.
Proof.
  unfold ak_policy_v2_check_net_connect. rewrite open_policy_open, existsb_elem by done. by setoid_rewrite andb_true_iff.
Qed.

Lemma check_dnsP host :
  ak_policy_v2_check_dns (Some p) (Some host) = true <->
  exists rule, rule ∈ p2_dns_rules p /\ dr2_allow rule = true /\ ak_policy_v2_match_dns (Some (dr2_pattern rule)) (Some host) = true.
Proof.
  unfold ak_policy_v2_check_dns. rewrite open_policy_open, existsb_elem by done. by setoid_rewrite andb_true_iff.
Qed.

Lemma spawn_rulesP : match p2_spawn_rules p with [] => false | _ => true end = true <-> p2_spawn_rules p <> [].
Proof. by destruct (p2_spawn_rules p). Qed.

Lemma check_effectP req : (check_effect p req).1 = true <-> grants p req.
Proof.
  unfold check_effect, grants. destruct (open_intent (er_params req)) as [nr nw]. cbn [fst snd].
  destruct (Z.eqb_spec (er_op req) AK_E_FS_OPEN) as [E|?]; [effect_case check_openP|].
  destruct (is_op _ _) eqn:E1; [apply is_opP in E1; effect_case check_fsP|apply not_true_iff_false in E1; rewrite is_opP in E1].
  destruct (Z.eqb_spec (er_op req) AK_E_FS_STAT) as [E|?]; [effect_case check_fsP|].
  destruct (Z.eqb_spec (er_op req) AK_E_NET_CONNECT) as [E|?]; [effect_case check_netP|].
  destruct (Z.eqb_spec (er_op req) AK_E_NET_DNS_RESOLVE) as [E|?]; [effect_case check_dnsP|].
  destruct (is_op [AK_E_NET_BIND; _] _) eqn:E2; [apply is_opP in E2|clear E2].
  { split; [done|]. intros Hg. repeat destruct Hg as [[? ?]|Hg]; try destruct Hg; exclude_op. }
  destruct (Z.eqb_spec (er_op req) AK_E_TOOL_CALL) as [E|?]; [effect_case check_toolP|].
  destruct (Z.eqb_spec (er_op req) AK_E_WASM_INVOKE) as [E|?]; [effect_case check_wasmP|].
  destruct (Z.eqb_spec (er_op req) AK_E_INFER) as [E|?]; [effect_case check_inferP|].
  destruct (Z.eqb_spec (er_op req) AK_E_PROC_SPAWN) as [E|?]; [effect_case check_spawnP|].
  destruct (is_op _ _) eqn:E3; [apply is_opP in E3; effect_case spawn_rulesP|apply not_true_iff_false in E3; rewrite is_opP in E3].
  split; [done|]. intros Hg. repeat destruct Hg as [[? ?]|Hg]; try destruct Hg; contradiction.
Qed.
End Checks.

(** ** The decision *)

Lemma append_nonempty room s x : x <> [] -> (0 < room)%nat -> append room s x <> [].
Proof.
  unfold append. intros Hx Hr. destruct s; cbn [app length]; [|done].
  destruct x; [done|]. replace (room - 0)%nat with (S (room - 1)) by lia. done.
Qed.

Lemma append_grows room s x : s <> [] -> append room s x <> [].
Proof. unfold append. by destruct s. Qed.

Lemma suggest_nonempty req : ak_policy_v2_suggest req AK_MAX_SUGGEST <> [].
Proof.
  assert (H : forall x xs, x <> [] -> foldl (append (AK_MAX_SUGGEST - 1)) [] (x :: xs) <> []).
  { intros x xs Hx. cbn [foldl].
    assert (Hs : append (AK_MAX_SUGGEST - 1) [] x <> []) by (apply append_nonempty; [done|unfold AK_MAX_SUGGEST; lia]).
    revert Hs. generalize (append (AK_MAX_SUGGEST - 1) [] x). induction xs as [|y xs IH]; intros s Hs; [done|].
    cbn [foldl]. apply IH. by apply append_grows. }
  unfold ak_policy_v2_suggest, suggestion.
  repeat case_match; apply H; done.
Qed.

Lemma check_effect_cap p req : (check_effect p req).2 <> [].
Proof. unfold check_effect. repeat case_match; cbn; done. Qed.

(** Which objects a granted file effect may touch. *)
Definition fs_scope (p : ak_policy_v2) (path : bytes) (write : bool) : Prop :=
  exists rule, rule ∈ p2_fs_rules p /\ (if write then fr_write rule else fr_read rule) = true /\ PathGlob (cstr (fr_pattern rule)) path.

Lemma cstr_cstr s : cstr (cstr s) = cstr s.
Proof. induction s as [|c s IH]; cbn; [done|]. destruct (c =? 0) eqn:E; cbn; [done|]. by rewrite E, IH. Qed.

Lemma fs_granted_scope p path w : fs_granted p (cstr path) w -> fs_scope p (cstr path) w.
Proof.
  intros (r & Hr & Hw & Hm). exists r. split_and!; [done|done|]. apply match_path_language in Hm. by rewrite cstr_cstr in Hm.
Qed.

Lemma check_true p req :
  (ak_policy_v2_check (Some p) (Some req)).1 = true <-> p2_fail_closed p = false /\ grants p req /\ within_budgets p req.
Proof.
  unfold ak_policy_v2_check. destruct (p2_fail_closed p) eqn:Hf; cbn [fst]; [naive_solver|].
  rewrite <-check_effectP, <-check_budgetP by done.
  destruct (check_effect p req) as [g cap]; cbn [fst]. destruct g; cbn [negb]; [|naive_solver].
  destruct (ak_policy_v2_check_budget _ _); cbn; naive_solver.
Qed.

Lemma check_decision policy req :
  let '(ok, d) := ak_policy_v2_check policy (Some req) in
  de_allow d = ok /\ de_trace_id d = er_trace_id req /\
  (ok = false -> de_reason_code d <> AK_DENY_NONE /\ de_errno_equiv d ∈ [EPERM; EACCES] /\ de_missing_cap d <> []).
Proof.
  unfold ak_policy_v2_check. destruct policy as [p|]; [|set_solver].
  destruct (p2_fail_closed p); [set_solver|].
  pose proof (check_effect_cap p req). destruct (check_effect p req) as [g cap]; cbn in *.
  destruct g; cbn [negb]; [|set_solver]. destruct (ak_policy_v2_check_budget _ _); cbn; set_solver.
Qed.

(** C8: The decision of the effect policy is correct and explains itself: a
    request is allowed exactly when a policy is in force, its rules grant the
    effect and every budget fits; the decision carries that answer and the
    request's trace; a refusal names a reason, an errno, the missing
    capability and a rule to add; and an allowed removal, creation or writing
    open touches only a path of a rule with write scope. *)
Theorem v2_check_correct p req :
  let '(ok, d) := ak_policy_v2_check (Some p) (Some req) in
  (ok = true <-> p2_fail_closed p = false /\ grants p req /\ within_budgets p req) /\
  de_allow d = ok /\ de_trace_id d = er_trace_id req /\
  (ok = false -> de_reason_code d <> AK_DENY_NONE /\ de_errno_equiv d ∈ [EPERM; EACCES] /\ de_missing_cap d <> [] /\
     de_suggested_snippet d = ak_policy_v2_suggest req AK_MAX_SUGGEST /\ de_suggested_snippet d <> []) /\
  (ok = true -> er_op req ∈ [AK_E_FS_UNLINK; AK_E_FS_RENAME; AK_E_FS_MKDIR; AK_E_FS_RMDIR] \/
     er_op req = AK_E_FS_OPEN /\ (open_intent (er_params req)).2 = true -> fs_scope p (cstr (er_target req)) true) /\
  (ok = true -> er_op req = AK_E_TOOL_CALL -> forall rule, rule ∈ p2_tool_rules p -> tr2_allow rule = false ->
     ~ Glob (cstr (tr2_pattern rule)) (cstr (name64 (strip B"tool:" (cstr (er_target req)))))).
Proof.
  pose proof (check_true p req) as Ht. pose proof (check_decision (Some p) req) as Hd.
  assert (Hsnip : (ak_policy_v2_check (Some p) (Some req)).1 = false ->
    de_suggested_snippet (ak_policy_v2_check (Some p) (Some req)).2 = ak_policy_v2_suggest req AK_MAX_SUGGEST).
  { unfold ak_policy_v2_check. repeat case_match; done. }
  destruct (ak_policy_v2_check (Some p) (Some req)) as [ok d]. cbn [fst snd] in *. destruct Hd as (Ha & Htr & Hr).
  split_and!; try done.
  - intros Hn. destruct (Hr Hn) as (? & ? & ?). rewrite (Hsnip Hn). split_and!; try done. apply suggest_nonempty.
  - intros Hok Hop. apply Ht in Hok as (_ & Hg & _). apply fs_granted_scope. unfold grants in Hg.
    destruct Hop as [Hop|[Hop Hw]]; repeat destruct Hg as [[? ?]|Hg]; try destruct Hg; first [assumption|exclude_op|match goal with H : _ /\ _ |- _ => by apply H end].
  - intros Hok Hop. apply Ht in Hok as (_ & Hg & _). unfold grants in Hg.
    repeat destruct Hg as [[? ?]|Hg]; try destruct Hg; first [exclude_op|match goal with H : _ /\ _ |- _ => by apply H end].
Qed.

(** A policy with a readable tree, a scratch directory and a forbidden tool. *)
Definition demo_policy2 : ak_policy_v2 :=
  mk_policy2 B"1.0" [] 0 [] false false
    [mk_fs_rule B"/etc/**" true false; mk_fs_rule B"/tmp/*" true true] [mk_net_rule B"dns:*.example.com:443" true false false]
    [mk_dns_rule B"*.example.com" true] [mk_tool_rule2 B"shell*" false; mk_tool_rule2 B"*" true]
    [mk_wasm_rule B"calc" []] [mk_infer_rule B"gpt*" 1000] []
    (mk_budgets2 0 0 4096 0 0) [] true false.
Definition demo_effect (op : Z) (target params : bytes) : ak_effect_req := mk_effect op 7 1 1 target params (mk_req_budget 0 0 100 500) 0.
Definition open_params (flags : bytes) : bytes := [123; 34] ++ B"f" ++ [34; 58] ++ flags ++ [44; 34] ++ B"m" ++ [34] ++ B":0}".

Lemma v2_check_correct_witness :
  (ak_policy_v2_check (Some demo_policy2) (Some (demo_effect AK_E_FS_OPEN B"/tmp/a" (open_params B"577")))).1 = true /\
  fs_scope demo_policy2 B"/tmp/a" true /\
  de_missing_cap (ak_policy_v2_check (Some demo_policy2) (Some (demo_effect AK_E_FS_OPEN B"/etc/a" (open_params B"577")))).2 = B"fs.write" /\
  (ak_policy_v2_check (Some demo_policy2) (Some (demo_effect AK_E_TOOL_CALL B"tool:shell_exec:1" []))).1 = false /\
  (ak_policy_v2_check (Some demo_policy2) (Some (demo_effect AK_E_TOOL_CALL B"tool:search:1" []))).1 = true.
Proof.
  split_and!; try (vm_compute; reflexivity).
  pose proof (v2_check_correct demo_policy2 (demo_effect AK_E_FS_OPEN B"/tmp/a" (open_params B"577"))) as H.
  destruct (ak_policy_v2_check _ _) as [ok d] eqn:E. destruct H as (_ & _ & _ & _ & H & _).
  apply H; [|right; split; vm_compute; reflexivity].
  apply (f_equal fst) in E. vm_compute in E. by symmetry.
Defined.
