(* ===== verification/CanonPath.v ===== *)
(** * Canonical targets ([src/src/agentic/ak_effects.c])

    The policy is asked about canonical names: paths without [.], [..] and
    empty components, socket addresses as text.  The buffer [out] with its
    position [pos] is the list of the [pos] bytes written; a result is an errno
    or the text left in the buffer.

    Theorems: canonicalisation agrees with resolving the path component by
    component, its result never contains a dot component, and distinct socket
    addresses have distinct texts. *)

From S2P Require Import Prelude Pattern Json PathGlob.

Definition ENOENT : Z := 2.
Definition EBADF : Z := 9.
Definition EFAULT : Z := 14.
Definition ENOTDIR : Z := 20.
Definition ENOSPC : Z := 28.
Definition ERANGE : Z := 34.
Definition EAFNOSUPPORT : Z := 97.

Abbreviation DOT := 46 (only parsing).

(** ** [ak_canonicalize_path] *)

(** The bytes up to a slash or the end, and the rest. *)
Fixpoint component (src : bytes) : bytes * bytes :=
  match src with
  | c :: src' => if c =? SLASH then ([], src) else let '(w, r) := component src' in (c :: w, r)
  | [] => ([], [])
  end.

Fixpoint skip_slashes (src : bytes) : bytes :=
  match src with c :: src' => if c =? SLASH then skip_slashes src' else src | [] => [] end.

(** [while (pos > min_pos && out[pos - 1] != '/') pos--]. *)
Fixpoint back (out : bytes) (min_pos pos : nat) : nat :=
  match pos with
  | O => O
  | S q => if (min_pos <? pos)%nat && negb (at_char SLASH (drop q out)) then back out min_pos q else pos
  end.

(** [..]: up one level, not below [min_pos]. *)
Definition go_up (min_pos : nat) (out : bytes) : bytes :=
  let pos := length out in
  if (min_pos <? pos)%nat then take (back out min_pos (pos - 1)) out else out.

(** [out[pos - 1] == '/']. *)
Definition ends_slash (out : bytes) : bool := match last out with Some c => c =? SLASH | None => false end.

(** Separator if needed, then the component, while there is room. *)
Definition add_component (room : nat) (out w : bytes) : bytes :=
  let out := if (match out with [] => true | _ => negb (ends_slash out) end) && (length out <? room)%nat then out ++ [SLASH] else out in
  out ++ take (room - length out) w.

Definition path_step (room min_pos : nat) (out w : bytes) : bytes :=
  if bytes_eqb w [DOT] then out else if bytes_eqb w [DOT; DOT] then go_up min_pos out else add_component room out w.

(** The component loop; each round consumes a byte of [src], so [length src]
    rounds are enough.  A component holds no NUL byte, so the code's test for
    one never fires. *)
Fixpoint canon_loop (fuel room min_pos : nat) (src out : bytes) : bytes :=
  match fuel with
  | O => out
  | S fuel =>
      match src with
      | [] => out
      | _ =>
          if (length out <? room)%nat then
            match skip_slashes src with
            | [] => out
            | src' => let '(w, rest) := component src' in canon_loop fuel room min_pos rest (path_step room min_pos out w)
            end
          else out
      end
  end.

(** [cwd ? runtime_strlen(cwd) : 1], at least 1; a relative path sets a
    missing [cwd] to the root. *)
Definition ak_canonicalize_path (path : option bytes) (out_len : nat) (cwd : option bytes) : Z + bytes :=
  match path with
  | None => inl (- EINVAL)
  | Some path =>
      let path := cstr path in
      let room := (out_len - 1)%nat in
      let cwd := cstr <$> cwd in
      if (out_len =? 0)%nat then inl (- EINVAL)
      else
        let finish cwd out :=
          let min_pos := Nat.max 1 (match cwd with Some c => length c | None => 1%nat end) in
          let out := canon_loop (length path) room min_pos path out in
          inr (match out with [] => [SLASH] | _ => out end) in
        if at_char SLASH path then finish cwd []
        else
          let base := default [SLASH] cwd in
          if (out_len <=? length base)%nat then inl (- ERANGE)
          else finish (Some base)
            (if negb (length base =? 0)%nat && negb (ends_slash base) && (length base <? room)%nat then base ++ [SLASH] else base)
  end.

(** ** Numbers *)

Definition digit (v : Z) : Z := 48 + v.

Definition ak_format_u8 (val : Z) : bytes :=
  if 100 <=? val then [digit (val / 100); digit (val mod 100 / 10); digit (val mod 100 mod 10)]
  else if 10 <=? val then [digit (val / 10); digit (val mod 10)]
  else [digit val].

(** [tmp] reversed; a [u16] has at most five digits. *)
Definition ak_format_u16 (val : Z) : bytes := if val =? 0 then [48] else dec_digits 5 val [].

Definition hex_digit (v : Z) : Z := if v <? 10 then 48 + v else 87 + v.
Definition ak_format_hex16 (val : Z) : bytes :=
  [hex_digit (Z.land (Z.shiftr val 12) 15); hex_digit (Z.land (Z.shiftr val 8) 15); hex_digit (Z.land (Z.shiftr val 4) 15); hex_digit (Z.land val 15)].

(** ** [ak_canonicalize_sockaddr] *)

(** Byte [i] of the address in memory. *)
Definition at_byte (addr : bytes) (i : nat) : Z := default 0 (addr !! i).
Definition be16 (addr : bytes) (i : nat) : Z := Z.lor (Z.shiftl (at_byte addr i) 8) (at_byte addr (S i)).

Definition format_ipv4 (a b c d port : Z) : bytes :=
  B"ip:" ++ ak_format_u8 a ++ B"." ++ ak_format_u8 b ++ B"." ++ ak_format_u8 c ++ B"." ++ ak_format_u8 d ++ B":" ++ ak_format_u16 port.

Definition is_zero (addr : bytes) (i n : nat) : bool := forallb (Z.eqb 0) (take n (drop i addr)).

(** The eight groups of an IPv6 address, colons between them. *)
Fixpoint format_groups (addr : bytes) (i n : nat) : bytes :=
  match n with
  | O => []
  | S n' => ak_format_hex16 (be16 addr i) ++ (if (n' =? 0)%nat then [] else 58 :: format_groups addr (i + 2) n')
  end.

(** [sa_family] is a host-order [u16]; [len] is what the caller passes, [addr]
    the memory behind the pointer. *)
Definition ak_canonicalize_sockaddr (addr : option bytes) (len : Z) (out_len : nat) : Z + bytes :=
  match addr with
  | None => inl (- EINVAL)
  | Some addr =>
      if (out_len <? 32)%nat then inl (- EINVAL)
      else
        let family := at_byte addr 0 + 256 * at_byte addr 1 in
        let port := be16 addr 2 in
        if family =? 2 then
          if len <? 8 then inl (- EINVAL)
          else
            let a := at_byte addr 4 in
            inr (if a =? 127 then format_ipv4 127 0 0 1 port else format_ipv4 a (at_byte addr 5) (at_byte addr 6) (at_byte addr 7) port)
        else if family =? 10 then
          if len <? 28 then inl (- EINVAL)
          else if is_zero addr 8 10 && (at_byte addr 18 =? 255) && (at_byte addr 19 =? 255) then
            inr (format_ipv4 (at_byte addr 20) (at_byte addr 21) (at_byte addr 22) (at_byte addr 23) port)
          else if is_zero addr 8 15 && (at_byte addr 23 =? 1) then inr (B"ip:[::1]:" ++ ak_format_u16 port)
          else inr (B"ip:[" ++ format_groups addr 8 8 ++ B"]:" ++ ak_format_u16 port)
        else inl (- EAFNOSUPPORT)
  end.

Example canon_tests :
  ak_canonicalize_path (Some B"/etc/../tmp/./a//b") 512 (Some B"/") = inr B"/tmp/a/b" /\
  ak_canonicalize_path (Some B"a/..") 512 (Some B"/") = inr B"/" /\
  ak_canonicalize_path (Some B"/a/b/..") 512 (Some B"/") = inr B"/a/" /\
  ak_canonicalize_path (Some B"../../etc/shadow") 512 (Some B"/srv/app") = inr B"/srv/app/etc/shadow" /\
  ak_canonicalize_sockaddr (Some [2; 0; 1; 187; 127; 9; 9; 9; 0]) 16 512 = inr B"ip:127.0.0.1:443" /\
  ak_canonicalize_sockaddr (Some ([10; 0; 0; 80; 0; 0; 0; 0] ++ [0x20; 1; 0x0d; 0xb8] ++ zeros 11 ++ [5; 0; 0; 0; 0])) 28 512
    = inr B"ip:[2001:0db8:0000:0000:0000:0000:0000:0005]:80".
Proof. split_and!; vm_compute; reflexivity. Qed.

(** ** Reference: resolving a path component by component *)

Fixpoint split_path (s : bytes) : list bytes :=
  match s with
  | [] => [[]]
  | c :: s' =>
      if c =? SLASH then [] :: split_path s'
      else match split_path s' with w :: ws => (c :: w) :: ws | [] => [[c]] end
  end.

Definition walk (cs : list bytes) (w : bytes) : list bytes :=
  if bytes_eqb w [] || bytes_eqb w [DOT] then cs else if bytes_eqb w [DOT; DOT] then removelast cs else cs ++ [w].

Definition resolve (path : bytes) : list bytes := foldl walk [] (split_path path).

(** The text of a list of components, and the forms in which the code leaves
    it: a [..] leaves the slash behind. *)
Definition rooted (cs : list bytes) : bytes := concat (cons SLASH <$> cs).
Definition names (out : bytes) (cs : list bytes) : Prop := out = rooted cs \/ out = rooted cs ++ [SLASH].

Definition good_component (w : bytes) : Prop := w <> [] /\ (SLASH ∉ w) /\ w <> [DOT] /\ w <> [DOT; DOT].

Lemma component_spec src w rest :
  component src = (w, rest) -> src = w ++ rest /\ (SLASH ∉ w) /\ (rest = [] \/ exists r, rest = SLASH :: r).
Proof.
  revert w rest. induction src as [|c src IH]; intros w rest; cbn.
  { intros [= <- <-]. split_and!; [done|set_solver|by left]. }
  destruct (Z.eqb_spec c SLASH) as [->|Hc].
  { intros [= <- <-]. split_and!; [done|set_solver|by right; exists src]. }
  destruct (component src) as [w' r'] eqn:E. intros [= <- <-]. destruct (IH _ _ eq_refl) as (-> & ? & ?).
  split_and!; [done|set_solver|done].
Qed.

Lemma split_path_noslash w : SLASH ∉ w -> split_path w = [w].
Proof.
  induction w as [|c w IH]; intros H; [done|]. cbn. destruct (Z.eqb_spec c SLASH); [set_solver|].
  rewrite IH by set_solver. done.
Qed.

Lemma split_path_app w s : SLASH ∉ w -> split_path (w ++ SLASH :: s) = w :: split_path s.
Proof.
  induction w as [|c w IH]; intros H; [done|]. cbn. destruct (Z.eqb_spec c SLASH); [set_solver|].
  rewrite IH by set_solver. done.
Qed.

Lemma walk_nil cs : walk cs [] = cs.
Proof. done. Qed.

Lemma resolve_skip cs src : foldl walk cs (split_path src) = foldl walk cs (split_path (skip_slashes src)).
Proof.
  induction src as [|c src IH]; [done|]. cbn [skip_slashes]. destruct (Z.eqb_spec c SLASH) as [->|]; [|done].
  cbn. apply IH.
Qed.

Lemma resolve_component cs src w rest :
  component src = (w, rest) -> foldl walk cs (split_path src) = foldl walk (walk cs w) (split_path rest).
Proof.
  intros (-> & Hw & [->|[r ->]])%component_spec; [rewrite app_nil_r, split_path_noslash by done; done|].
  rewrite split_path_app by done. done.
Qed.

Lemma rooted_snoc cs w : rooted (cs ++ [w]) = rooted cs ++ SLASH :: w.
Proof. unfold rooted. rewrite fmap_app, concat_app. cbn. by rewrite app_nil_r. Qed.

Lemma ends_slash_snoc s c : ends_slash (s ++ [c]) = (c =? SLASH).
Proof. unfold ends_slash. by rewrite last_snoc. Qed.

Lemma ends_slash_rooted cs : Forall good_component cs -> ends_slash (rooted cs) = false.
Proof.
  intros H. destruct cs as [|w cs _] using rev_ind; [done|]. apply Forall_app in H as [_ H]. inversion H as [|? ? (Hn & Hs & _)]; subst.
  rewrite rooted_snoc. destruct w as [|c w _] using rev_ind; [done|].
  replace (rooted cs ++ SLASH :: w ++ [c]) with ((rooted cs ++ SLASH :: w) ++ [c]) by (rewrite <-app_assoc; done).
  rewrite ends_slash_snoc. apply Z.eqb_neq. set_solver.
Qed.

(** ** The loop follows the reference *)

Lemma back_here out min q : at_char SLASH (drop q out) = true -> back out min (S q) = S q.
Proof. intros H. cbn [back]. rewrite H. by rewrite andb_false_r. Qed.

Lemma back_min out min : back out min min = min.
Proof. destruct min; [done|]. cbn [back]. by rewrite Nat.ltb_irrefl. Qed.

(** Back over a slash-free text. *)
Lemma back_over pre w min post :
  SLASH ∉ w -> (min <= S (length pre))%nat ->
  back (pre ++ SLASH :: w ++ post) min (S (length pre) + length w) = S (length pre).
Proof.
  revert post. induction w as [|c w IH] using rev_ind; intros post Hw Hm.
  - cbn [length]. rewrite Nat.add_0_r. apply back_here. by rewrite drop_app_length.
  - rewrite length_app. cbn [length]. replace (S (length pre) + (length w + 1))%nat with (S (S (length pre) + length w)) by lia.
    cbn [back]. replace (drop (S (length pre) + length w) (pre ++ SLASH :: (w ++ [c]) ++ post)) with (c :: post).
    2: { replace (pre ++ SLASH :: (w ++ [c]) ++ post) with ((pre ++ SLASH :: w) ++ c :: post) by (rewrite <-!app_assoc; done).
         rewrite drop_app_length' by (rewrite length_app; cbn; lia). done. }
    cbn [at_char]. destruct (Z.eqb_spec c SLASH); [set_solver|].
    rewrite (proj2 (Nat.ltb_lt _ _)) by lia. cbn [negb andb].
    replace (SLASH :: (w ++ [c]) ++ post) with (SLASH :: w ++ (c :: post)) by (rewrite <-app_assoc; done).
    apply IH; [set_solver|done].
Qed.

Lemma go_up_names out cs : Forall good_component cs -> names out cs -> names (go_up 1 out) (removelast cs).
Proof.
  intros Hg Hn. destruct cs as [|w cs _] using rev_ind.
  { destruct Hn as [->| ->]; [by left|by right]. }
  rewrite removelast_last. apply Forall_app in Hg as [_ Hg]. inversion Hg as [|? ? (Hne & Hs & _)]; subst.
  right. unfold names in Hn. rewrite rooted_snoc in Hn.
  assert (Hup : forall post, (length post <= 1)%nat -> go_up 1 (rooted cs ++ SLASH :: w ++ post) = rooted cs ++ [SLASH]).
  { intros post Hp. unfold go_up. rewrite length_app. cbn [length]. rewrite length_app.
    destruct w as [|c w _] using rev_ind; [done|]. rewrite !length_app. cbn [length].
    rewrite (proj2 (Nat.ltb_lt _ _)) by lia.
    destruct post as [|x [|]]; [|..|cbn in Hp; lia].
    - cbn [length]. rewrite app_nil_r.
      replace (length (rooted cs) + S (length w + 1 + 0) - 1)%nat with (S (length (rooted cs)) + length w)%nat by lia.
      replace (rooted cs ++ SLASH :: w ++ [c]) with (rooted cs ++ SLASH :: w ++ [c]) by done.
      rewrite back_over; [|set_solver|lia].
      replace (S (length (rooted cs))) with (length (rooted cs ++ [SLASH])) by (rewrite length_app; cbn; lia).
      replace (rooted cs ++ SLASH :: w ++ [c]) with ((rooted cs ++ [SLASH]) ++ w ++ [c]) by (rewrite <-app_assoc; done).
      apply take_app_length.
    - cbn [length]. replace (length (rooted cs) + S (length w + 1 + 1) - 1)%nat with (S (length (rooted cs)) + length (w ++ [c]))%nat
        by (rewrite length_app; cbn; lia).
      rewrite back_over; [|done|lia].
      replace (S (length (rooted cs))) with (length (rooted cs ++ [SLASH])) by (rewrite length_app; cbn; lia).
      replace (rooted cs ++ SLASH :: (w ++ [c]) ++ [x]) with ((rooted cs ++ [SLASH]) ++ (w ++ [c]) ++ [x]) by (rewrite <-!app_assoc; done).
      apply take_app_length. }
  destruct Hn as [->| ->].
  - rewrite <-(Hup []); [by rewrite app_nil_r|cbn; lia].
  - rewrite <-app_assoc. cbn [app]. apply (Hup [SLASH]). cbn; lia.
Qed.

Lemma add_component_names room out cs w :
  Forall good_component cs -> names out cs -> (length out + (if ends_slash out then 0 else 1) + length w <= room)%nat ->
  add_component room out w = rooted (cs ++ [w]).
Proof.
  intros Hg Hn Hr. rewrite rooted_snoc. unfold add_component.
  destruct Hn as [->| ->].
  - rewrite ends_slash_rooted in Hr |- * by done.
    replace (match rooted cs with [] => true | _ => negb false end) with true by (by destruct (rooted cs)).
    rewrite (proj2 (Nat.ltb_lt _ _)) by lia. cbn [andb]. rewrite take_ge by (rewrite length_app; cbn; lia). by rewrite <-app_assoc.
  - rewrite ends_slash_snoc, Z.eqb_refl in Hr |- *. cbn [negb].
    replace (match rooted cs ++ [SLASH] with [] => true | _ => false end) with false by (by destruct (rooted cs)).
    cbn [andb]. rewrite take_ge by lia. by rewrite <-app_assoc.
Qed.

Definition at_boundary (out src : bytes) : Prop := ends_slash out = true \/ src = [] \/ at_char SLASH src = true.

Lemma skip_slashes_spec src :
  exists k : nat, length src = (k + length (skip_slashes src))%nat /\ at_char SLASH (skip_slashes src) = false /\ (at_char SLASH src = true -> (1 <= k)%nat).
Proof.
  induction src as [|c src (k & Hl & Hs & _)]; cbn; [by exists 0%nat|].
  destruct (Z.eqb_spec c SLASH) as [->|Hc].
  - exists (S k). split_and!; [lia|done|lia].
  - exists 0%nat. cbn. split_and!; [lia|by apply Z.eqb_neq|done].
Qed.

Lemma length_go_up m out : (length (go_up m out) <= length out)%nat.
Proof. unfold go_up. destruct (_ <? _)%nat; [rewrite length_take|]; lia. Qed.

Lemma walk_good cs w : Forall good_component cs -> SLASH ∉ w -> Forall good_component (walk cs w).
Proof.
  intros Hg Hw. unfold walk. destruct (bytes_eqb w []) eqn:E1; [done|]. destruct (bytes_eqb w [DOT]) eqn:E2; [done|].
  cbn [orb]. destruct (bytes_eqb w [DOT; DOT]) eqn:E3.
  - destruct cs as [|x cs _] using rev_ind; [done|]. rewrite removelast_last. by apply Forall_app in Hg as [? _].
  - apply Forall_app. split; [done|]. apply Forall_singleton. unfold good_component.
    rewrite <-!bytes_eqb_eq, E1, E2, E3. split_and!; done.
Qed.

Lemma path_step_names room out cs w :
  Forall good_component cs -> names out cs -> w <> [] -> SLASH ∉ w ->
  (length out + (if ends_slash out then 0 else 1) + length w <= room)%nat ->
  names (path_step room 1 out w) (walk cs w) /\
  (length (path_step room 1 out w) <= length out + (if ends_slash out then 0 else 1) + length w)%nat.
Proof.
  intros Hg Hn Hne Hw Hr. unfold path_step, walk.
  destruct (bytes_eqb w []) eqn:E1; [by apply bytes_eqb_eq in E1|]. cbn [orb].
  destruct (bytes_eqb w [DOT]); [split; [done|lia]|].
  destruct (bytes_eqb w [DOT; DOT]); [split; [by apply go_up_names|pose proof (length_go_up 1 out); lia]|].
  rewrite (add_component_names room out cs) by done. split; [by left|].
  rewrite rooted_snoc, length_app. cbn [length]. destruct Hn as [->| ->].
  - rewrite ends_slash_rooted by done. lia.
  - rewrite ends_slash_snoc, length_app. cbn. lia.
Qed.

Lemma canon_loop_names fuel room src out cs :
  Forall good_component cs -> names out cs -> (length src <= fuel)%nat -> at_boundary out src -> (length out + length src <= room)%nat ->
  names (canon_loop fuel room 1 src out) (foldl walk cs (split_path src)) /\ Forall good_component (foldl walk cs (split_path src)).
Proof.
  revert src out cs. induction fuel as [|fuel IH]; intros src out cs Hg Hn Hf Hb Hr.
  { by destruct src; [|cbn in Hf; lia]. }
  cbn [canon_loop]. destruct src as [|c0 src0] eqn:Esrc; [done|]. rewrite <-Esrc in *.
  assert (Hpos : (0 < length src)%nat) by (rewrite Esrc; cbn; lia).
  rewrite (proj2 (Nat.ltb_lt _ _)) by lia. rewrite resolve_skip.
  destruct (skip_slashes_spec src) as (k & Hk & Hhead & Hk1).
  destruct (skip_slashes src) as [|c s] eqn:Esk; [done|]. destruct (component (c :: s)) as [w rest] eqn:Ec.
  rewrite (resolve_component _ _ _ _ Ec). apply component_spec in Ec as (Eq & Hw & Hrest). rewrite Eq, length_app in Hk.
  assert (Hne : w <> []).
  { intros ->. destruct Hrest as [->|[r ->]]; [done|]. cbn in Eq. simplify_eq. }
  assert (Hsep : ((if ends_slash out then 0 else 1) <= k)%nat).
  { destruct Hb as [->|[->|Hb]]; [lia|done|]. specialize (Hk1 Hb). destruct (ends_slash out); lia. }
  destruct (path_step_names room out cs w) as [Hn' Hl']; [done..|lia|].
  apply IH; [by apply walk_good|done|destruct w; [done|cbn in *; lia]| |lia].
  destruct Hrest as [->|[r ->]]; [by right; left|by right; right].
Qed.

(** The buffer is never overrun. *)
Lemma add_component_room room out w : (length out <= room)%nat -> (length (add_component room out w) <= room)%nat.
Proof.
  intros H. unfold add_component. set (o := if _ && _ then out ++ [SLASH] else out).
  assert (Ho : (length o <= room)%nat).
  { unfold o. destruct (_ && _) eqn:E; [|done]. apply andb_true_iff in E as [_ E%Nat.ltb_lt]. rewrite length_app. cbn. lia. }
  rewrite length_app, length_take. lia.
Qed.

Lemma canon_loop_room fuel room m src out : (length out <= room)%nat -> (length (canon_loop fuel room m src out) <= room)%nat.
Proof.
  revert src out. induction fuel as [|fuel IH]; intros src out Ho; [done|]. cbn [canon_loop].
  destruct src as [|c src]; [done|]. destruct (_ <? _)%nat; [|done]. destruct (skip_slashes _); [done|].
  destruct (component _) as [w rest]. apply IH. unfold path_step. destruct (bytes_eqb _ _); [done|].
  destruct (bytes_eqb _ _); [pose proof (length_go_up m out); lia|by apply add_component_room].
Qed.

Lemma rooted_head cs : rooted cs = [] \/ at_char SLASH (rooted cs) = true.
Proof. destruct cs; [by left|by right]. Qed.

(** What the buffer holds in the end. *)
Definition canonical (t : bytes) (cs : list bytes) : Prop :=
  Forall good_component cs /\ names t cs /\ at_char SLASH t = true.

Lemma canonicalize_root path n :
  (S (length (cstr path)) < n)%nat ->
  exists t, ak_canonicalize_path (Some path) n (Some [SLASH]) = inr t /\ canonical t (resolve (cstr path)).
Proof.
  intros Hn. unfold ak_canonicalize_path. replace (n =? 0)%nat with false by (symmetry; apply Nat.eqb_neq; lia).
  cbn [fmap option_fmap option_map]. change (cstr [SLASH]) with [SLASH]. cbn [length default Nat.max].
  set (p := cstr path) in *. unfold resolve.
  assert (Hfin : forall out, names out [] -> at_boundary out p -> (length out + length p <= n - 1)%nat ->
    let r := canon_loop (length p) (n - 1) 1 p out in canonical (match r with [] => [SLASH] | _ => r end) (foldl walk [] (split_path p))).
  { intros out Ho Hb Hl r. destruct (canon_loop_names (length p) (n - 1) p out []) as [Hr Hg]; [done..|].
    fold r in Hr. split_and!; [done|..].
    - destruct r eqn:Er; [|done]. destruct Hr as [Hr|Hr]; [right; rewrite <-Hr; done|by destruct (rooted _)].
    - destruct r eqn:Er; [done|]. rewrite <-Er in *. destruct Hr as [->| ->].
      + destruct (rooted_head (foldl walk [] (split_path p))) as [E|]; [congruence|done].
      + destruct (rooted_head (foldl walk [] (split_path p))) as [-> |E]; [done|]. by destruct (rooted _). }
  destruct (at_char SLASH p) eqn:Ea.
  - eexists. split; [reflexivity|]. apply Hfin; [by left|by right; right|cbn; lia].
  - unfold id. cbn [length]. replace (n <=? 1)%nat with false by (symmetry; apply Nat.leb_gt; lia). cbn [Nat.eqb negb andb ends_slash last Nat.max].
    eexists. split; [reflexivity|]. apply Hfin; [by right|by left|cbn; lia].
Qed.

(** ** Rules for directories *)

Definition literal (w : bytes) : Prop := Forall (fun c => c <> STAR /\ c <> QM /\ c <> 0) w.

Lemma literal_tail c w : literal (c :: w) -> globstar_tail (c :: w ++ [SLASH; STAR; STAR]) = false.
Proof.
  intros H. inversion H as [|? ? _ H1]; subst. destruct w as [|a w]; cbn [app globstar_tail]; [by destruct (c =? SLASH)|].
  inversion H1 as [|? ? [Ha _] _]; subst. apply Z.eqb_neq in Ha. destruct w as [|b w]; cbn; rewrite Ha; by destruct (c =? SLASH).
Qed.

(** A pattern that ends in [/**] means the directory and what is below it. *)
Lemma below_literal w s : literal w -> PathGlob (w ++ [SLASH; STAR; STAR]) s -> s = w \/ exists u, s = w ++ SLASH :: u.
Proof.
  intros Hw. revert s. induction Hw as [|c w Hc Hw IH]; intros s Hg.
  - inversion Hg as [|? Ht|?? H|??? H|??? H|????? H|??? Hc H|??? Hc H]; subst; [by left|right; by eexists].
  - inversion Hg as [|? Ht|?? H|??? H|??? H|????? H|??? Hc' H|??? Hc' H]; subst; try (destruct Hc as (? & ? & ?); congruence).
    + change ((c :: w) ++ ?x) with (c :: w ++ x) in Ht. rewrite literal_tail in Ht; [done|by constructor].
    + destruct (IH _ H) as [->|[u ->]]; [by left|right; by exists u].
Qed.

Lemma split_rooted cs s : Forall good_component cs -> split_path (rooted cs ++ SLASH :: s) = [] :: cs ++ split_path s.
Proof.
  intros H. revert s. induction cs as [|w cs IH] using rev_ind; intros s; [done|].
  apply Forall_app in H as [Hcs Hw]. inversion Hw as [|? ? (Hne & Hs & _)]; subst.
  rewrite rooted_snoc, <-app_assoc. cbn [app]. rewrite IH by done. rewrite split_path_app by done. by rewrite <-app_assoc.
Qed.

Lemma split_names t cs : canonical t cs -> split_path t = [] :: cs \/ split_path t = [] :: cs ++ [[]].
Proof.
  intros (Hg & [->| ->] & Hh).
  - destruct cs as [|w cs _] using rev_ind; [done|]. apply Forall_app in Hg as [Hcs Hw]. inversion Hw as [|? ? (Hne & Hs & _)]; subst.
    left. by rewrite rooted_snoc, split_rooted, split_path_noslash by done.
  - right. by rewrite split_rooted.
Qed.

(** The objects a rule for a directory reaches are those below it. *)
Lemma directory_rule t cs ds :
  canonical t cs -> Forall good_component ds -> literal (rooted ds) -> PathGlob (rooted ds ++ [SLASH; STAR; STAR]) t ->
  exists rest, cs = ds ++ rest.
Proof.
  intros Hc Hd Hl Hg. pose proof (split_names _ _ Hc) as Ht. destruct (below_literal _ _ Hl Hg) as [->|[u ->]].
  - destruct Hc as (Hcs & _ & Hh). exists []. rewrite app_nil_r.
    destruct ds as [|d ds _] using rev_ind; [done|].
    apply Forall_app in Hd as [Hds Hw]. inversion Hw as [|? ? (Hne & Hs & _)]; subst.
    rewrite rooted_snoc, split_rooted, split_path_noslash in Ht by done.
    destruct Ht as [Ht|Ht]; simplify_eq; [done|]. by apply app_inj_2 in Ht as [_ [= ->]].
  - rewrite split_rooted in Ht by done. destruct Ht as [[= <-]|[= Ht]]; [by eexists|].
    destruct (split_path u) as [|x l _] using rev_ind; [rewrite app_nil_r in Ht; subst|].
    + apply Forall_app in Hd as [_ Hd]. inversion Hd as [|? ? (Hne & _)]; done.
    + rewrite app_assoc in Ht. apply app_inj_2 in Ht as [<- _]; [|done]. by eexists.
Qed.

Lemma split_path_nonul s : nonul s -> Forall nonul (split_path s).
Proof.
  induction 1 as [|c s Hc Hs IH]; cbn; [by repeat constructor|]. destruct (_ =? _); [by repeat constructor|].
  destruct (split_path s) as [|w ws]; [by repeat constructor|]. inversion IH; subst. constructor; [by constructor|done].
Qed.

Lemma walk_nonul cs ws : Forall nonul cs -> Forall nonul ws -> Forall nonul (foldl walk cs ws).
Proof.
  intros Hc Hw. revert cs Hc. induction Hw as [|w ws Hw Hws IH]; intros cs Hc; [done|]. cbn. apply IH. unfold walk.
  destruct (_ || _); [done|]. destruct (bytes_eqb _ _).
  - destruct cs as [|x cs _] using rev_ind; [done|]. rewrite removelast_last. by apply Forall_app in Hc as [? _].
  - apply Forall_app. by repeat constructor.
Qed.

Lemma names_nonul t cs : Forall nonul cs -> names t cs -> nonul t.
Proof.
  intros Hc Ht. assert (Hr : nonul (rooted cs)).
  { clear Ht. unfold rooted. induction Hc; cbn; [constructor|]. constructor; [done|]. by apply Forall_app. }
  destruct Ht as [->| ->]; [done|]. apply Forall_app. split; [done|]. apply Forall_singleton; lia.
Qed.

Lemma walk_id cs ws : Forall good_component ws -> foldl walk cs ws = cs ++ ws.
Proof.
  intros H. revert cs. induction H as [|w ws (H1 & _ & H2 & H3) _ IH]; intros cs; cbn; [by rewrite app_nil_r|].
  rewrite IH. unfold walk, bytes_eqb. rewrite !bool_decide_eq_false_2 by done. cbn. by rewrite <-app_assoc.
Qed.

Lemma resolve_canonical t cs : canonical t cs -> resolve t = cs.
Proof.
  intros Hc. unfold resolve. destruct (split_names _ _ Hc) as [->| ->]; destruct Hc as [Hg _];
    change (foldl walk [] ([] :: ?l)) with (foldl walk [] l).
  - by apply walk_id.
  - by rewrite foldl_app, (walk_id [] cs).
Qed.

Lemma canonicalize_nonul path n t : ak_canonicalize_path (Some path) n (Some B"/") = inr t -> canonical t (resolve (cstr path)) -> cstr t = t.
Proof.
  intros _ (_ & Ht & _). apply cstr_nonul_id. eapply names_nonul; [|exact Ht]. unfold resolve.
  apply walk_nonul; [constructor|]. apply split_path_nonul, cstr_nonul.
Qed.

(** Canonicalisation is resolution: for a path that fits the buffer, the
    code leaves exactly the components that resolving the path step by step
    gives, none of them empty, a dot or a slash, behind a leading slash (and
    at most a trailing one); the text resolves to the same components; and a
    policy rule for a directory matches it only when the resolved path lies in
    that directory, whatever dots and slashes the caller wrote. *)
Theorem canonical_path_resolves path n :
  (S (length (cstr path)) < n)%nat ->
  exists t, ak_canonicalize_path (Some path) n (Some B"/") = inr t /\
    canonical t (resolve (cstr path)) /\ resolve t = resolve (cstr path) /\
    (forall ds, Forall good_component ds -> literal (rooted ds) ->
       ak_policy_v2_match_path (Some (rooted ds ++ B"/**")) (Some t) = true -> exists rest, resolve (cstr path) = ds ++ rest).
Proof.
  intros Hn. destruct (canonicalize_root path n Hn) as (t & Ht & Hc). exists t.
  split_and!; [done|done|by apply resolve_canonical|].
  intros ds Hd Hl Hm. apply match_path_language in Hm. rewrite (canonicalize_nonul path n t Ht Hc) in Hm.
  apply (directory_rule t); [done..|]. rewrite cstr_nonul_id in Hm; [done|].
  apply Forall_app. split; [|by repeat constructor]. eapply Forall_impl; [exact Hl|]. by intros c (_ & _ & ?).
Qed.

Lemma canonical_path_resolves_witness :
  exists t, ak_canonicalize_path (Some B"/tmp/../etc//./shadow") 512 (Some B"/") = inr t /\ resolve t = [B"etc"; B"shadow"] /\
    ak_policy_v2_match_path (Some (rooted [B"tmp"] ++ B"/**")) (Some t) = false /\
    ak_policy_v2_match_path (Some (rooted [B"etc"] ++ B"/**")) (Some t) = true.
Proof.
  destruct (canonical_path_resolves B"/tmp/../etc//./shadow" 512) as (t & Ht & _ & Hr & _); [vm_compute; lia|].
  exists t. split_and!; [exact Ht|rewrite Hr; vm_compute; reflexivity|..]; vm_compute in Ht; injection Ht as <-; vm_compute; reflexivity.
Defined.

(** ** Socket addresses *)

(** The end points the policy speaks about: a v4-mapped address is its IPv4
    address, every IPv4 loopback address is 127.0.0.1. *)
Inductive endpoint := Ep4 (ip : bytes) (port : Z) | Ep6 (ip : bytes) (port : Z).

Definition endpoint_of (addr : bytes) : endpoint :=
  let port := be16 addr 2 in
  if at_byte addr 0 + 256 * at_byte addr 1 =? 2 then
    Ep4 (if at_byte addr 4 =? 127 then [127; 0; 0; 1] else slice 4 4 addr) port
  else if is_zero addr 8 10 && (at_byte addr 18 =? 255) && (at_byte addr 19 =? 255) then Ep4 (slice 20 4 addr) port
  else Ep6 (slice 8 16 addr) port.

Lemma separated (sep : Z) (a b s t : bytes) : sep ∉ a -> sep ∉ b -> a ++ sep :: s = b ++ sep :: t -> a = b /\ s = t.
Proof.
  revert b. induction a as [|x a IH]; intros [|y b] Ha Hb H; cbn in *; simplify_eq; [done|set_solver..|].
  destruct (IH b) as [-> ->]; [set_solver..|done|done].
Qed.

Definition all_digits (l : bytes) : Prop := Forall (fun c => is_dec c = true) l.

Lemma digits_no_sep l (c : Z) : all_digits l -> is_dec c = false -> c ∉ l.
Proof. unfold all_digits. intros H Hc Hin. rewrite Forall_forall in H. specialize (H c Hin). congruence. Qed.

Lemma format_u8_digits v : is_u8 v -> all_digits (ak_format_u8 v) /\ dec_value 0 (ak_format_u8 v) = v.
Proof.
  intros Hv. assert (H : forallb (fun n => forallb is_dec (ak_format_u8 (Z.of_nat n)) && (dec_value 0 (ak_format_u8 (Z.of_nat n)) =? Z.of_nat n)) (seq 0 256) = true)
    by (vm_compute; reflexivity).
  rewrite forallb_forall in H. specialize (H (Z.to_nat v)). unfold is_u8 in Hv. rewrite Z2Nat.id in H by lia.
  destruct (andb_prop _ _ (H ltac:(apply in_seq; lia))) as [H1 H2%Z.eqb_eq]. split; [|done].
  by apply Forall_forall; intros x Hx%list_elem_of_In; eapply forallb_forall in H1.
Qed.

Lemma format_u16_digits v : is_u16 v -> all_digits (ak_format_u16 v) /\ dec_value 0 (ak_format_u16 v) = v.
Proof.
  intros Hv. unfold is_u16 in Hv. unfold ak_format_u16. destruct (Z.eqb_spec v 0) as [->|]; [split; [by repeat constructor|done]|].
  destruct (dec_digits_spec 5 v []) as [H1 H2]; [change (10 ^ Z.of_nat 5) with 100000; lia|constructor|].
  split; [done|]. apply (H2 _ eq_refl).
Qed.

Lemma u8_inj v w s t (sep : Z) : is_u8 v -> is_u8 w -> is_dec sep = false -> ak_format_u8 v ++ sep :: s = ak_format_u8 w ++ sep :: t -> v = w /\ s = t.
Proof.
  intros [Hv Ev]%format_u8_digits [Hw Ew]%format_u8_digits Hs H.
  apply separated in H as [H ->]; [split; [congruence|done]|by apply digits_no_sep..].
Qed.

Lemma u16_inj v w : is_u16 v -> is_u16 w -> ak_format_u16 v = ak_format_u16 w -> v = w.
Proof. intros [_ Ev]%format_u16_digits [_ Ew]%format_u16_digits H. congruence. Qed.

Lemma ipv4_inj a b c d p a' b' c' d' p' :
  Forall is_u8 [a; b; c; d] -> Forall is_u8 [a'; b'; c'; d'] -> is_u16 p -> is_u16 p' ->
  format_ipv4 a b c d p = format_ipv4 a' b' c' d' p' -> [a; b; c; d] = [a'; b'; c'; d'] /\ p = p'.
Proof.
  rewrite !Forall_cons. intros (Ha & Hb & Hc & Hd & _) (Ha2 & Hb2 & Hc2 & Hd2 & _) Hp Hp' H. unfold format_ipv4 in H. cbn [ascii_bytes app] in H.
  injection H as H.
  apply u8_inj in H as [-> H]; [|done..]. apply u8_inj in H as [-> H]; [|done..]. apply u8_inj in H as [-> H]; [|done..].
  apply u8_inj in H as [-> H]; [|done..]. by apply u16_inj in H as ->.
Qed.

Lemma hex_digit_inj v w : 0 <= v < 16 -> 0 <= w < 16 -> hex_digit v = hex_digit w -> v = w.
Proof. unfold hex_digit. intros Hv Hw H. zsplit_in H; lia. Qed.

Lemma nibbles v k : 0 <= k -> Z.land (Z.shiftr v k) 15 = (v / 2 ^ k) mod 16.
Proof. intros. change 15 with (Z.ones 4). by rewrite Z.land_ones, Z.shiftr_div_pow2. Qed.

Lemma hex16_inj v w : is_u16 v -> is_u16 w -> ak_format_hex16 v = ak_format_hex16 w -> v = w.
Proof.
  unfold is_u16, ak_format_hex16. intros Hv Hw H. rewrite <-(Z.shiftr_0_r v), <-(Z.shiftr_0_r w) in H.
  rewrite !Z.shiftr_shiftr, !nibbles in H by lia.
  injection H as H1 H2 H3 H4. apply hex_digit_inj in H1, H2, H3, H4; try (apply Z.mod_pos_bound; lia).
  cbn [Z.add] in *. change (2 ^ 12) with 4096 in *. change (2 ^ 8) with 256 in *. change (2 ^ 4) with 16 in *. change (2 ^ 0) with 1 in *.
  Z.div_mod_to_equations. lia.
Qed.

Lemma at_byte_u8 addr i : wf_bytes addr -> is_u8 (at_byte addr i).
Proof. intros H. unfold at_byte. destruct (addr !! i) eqn:E; cbn; [by eapply Forall_lookup_1|unfold is_u8; lia]. Qed.

Lemma be16_val addr i : wf_bytes addr -> be16 addr i = 256 * at_byte addr i + at_byte addr (S i) /\ is_u16 (be16 addr i).
Proof.
  intros H. pose proof (at_byte_u8 addr i H). pose proof (at_byte_u8 addr (S i) H). unfold is_u8, is_u16 in *.
  unfold be16. rewrite Z.lor_comm, lor_shift_add by lia. lia.
Qed.

Lemma be16_inj addr addr' i : wf_bytes addr -> wf_bytes addr' -> be16 addr i = be16 addr' i ->
  at_byte addr i = at_byte addr' i /\ at_byte addr (S i) = at_byte addr' (S i).
Proof.
  intros H H' E. destruct (be16_val addr i H) as [E1 _], (be16_val addr' i H') as [E2 _].
  pose proof (at_byte_u8 addr (S i) H). pose proof (at_byte_u8 addr' (S i) H'). unfold is_u8 in *. lia.
Qed.

Lemma slice_at_bytes addr i n : (i + n <= length addr)%nat -> slice i n addr = (fun k => at_byte addr (i + k)) <$> seq 0 n.
Proof.
  intros H. apply list_eq. intros k. unfold slice. rewrite list_lookup_fmap. destruct (decide (k < n)%nat).
  - rewrite lookup_take_lt, lookup_drop, lookup_seq_lt by done. cbn. unfold at_byte.
    destruct (lookup_lt_is_Some_2 addr (i + k)) as [x ->]; [lia|done].
  - rewrite lookup_take_ge, lookup_seq_ge by lia. done.
Qed.

(** The eight groups determine the sixteen bytes. *)
Lemma groups_inj addr addr' n i s t :
  wf_bytes addr -> wf_bytes addr' -> format_groups addr i n ++ s = format_groups addr' i n ++ t ->
  (forall k, (k < 2 * n)%nat -> at_byte addr (i + k) = at_byte addr' (i + k)) /\ s = t.
Proof.
  intros H H'. revert i. induction n as [|n IH]; intros i E; [split; [lia|done]|].
  cbn [format_groups] in E. rewrite <-!app_assoc in E. apply app_inj_1 in E as [Eg E]; [|done].
  apply hex16_inj in Eg; [|by apply be16_val..]. apply (be16_inj addr addr' i H H') in Eg as [E0 E1].
  assert (Hrest : (forall k, (k < 2 * n)%nat -> at_byte addr (i + 2 + k) = at_byte addr' (i + 2 + k)) /\ s = t).
  { destruct n as [|n']; cbn [Nat.eqb app] in E; [split; [lia|done]|]. apply IH. by apply (f_equal (drop 1)) in E. }
  destruct Hrest as [Hk ->]. split; [|done]. intros [|[|k]] Hlt; [by rewrite Nat.add_0_r|by rewrite Nat.add_1_r|].
  specialize (Hk k ltac:(lia)). by replace (i + S (S k))%nat with (i + 2 + k)%nat by lia.
Qed.

Lemma all_zero l : forallb (Z.eqb 0) l = true -> l = zeros (length l).
Proof. induction l as [|x l IH]; cbn [forallb length]; [done|]. intros [<-%Z.eqb_eq H]%andb_prop. rewrite (IH H) at 1. done. Qed.

Lemma is_zero_bytes addr i n : is_zero addr i n = true -> (i + n <= length addr)%nat -> slice i n addr = zeros n.
Proof. intros H Hl. rewrite (all_zero (slice i n addr) H). unfold slice. rewrite length_take, length_drop. f_equal. lia. Qed.

(** The text of an end point. *)
Definition endpoint_text (e : endpoint) : bytes :=
  match e with
  | Ep4 ip port => format_ipv4 (at_byte ip 0) (at_byte ip 1) (at_byte ip 2) (at_byte ip 3) port
  | Ep6 ip port => if bytes_eqb ip (zeros 15 ++ [1]) then B"ip:[::1]:" ++ ak_format_u16 port
                   else B"ip:[" ++ format_groups ip 0 8 ++ B"]:" ++ ak_format_u16 port
  end.

Definition wf_endpoint (e : endpoint) : Prop :=
  match e with Ep4 ip port => length ip = 4%nat /\ wf_bytes ip /\ is_u16 port | Ep6 ip port => length ip = 16%nat /\ wf_bytes ip /\ is_u16 port end.

Lemma at_bytes_4 ip : length ip = 4%nat -> ip = [at_byte ip 0; at_byte ip 1; at_byte ip 2; at_byte ip 3].
Proof. by destruct ip as [|? [|? [|? [|? [|]]]]]. Qed.

Lemma endpoint_text_inj e e' : wf_endpoint e -> wf_endpoint e' -> endpoint_text e = endpoint_text e' -> e = e'.
Proof.
  assert (H46 : forall a b c d p s, is_u8 a -> format_ipv4 a b c d p = B"ip:[" ++ s -> False).
  { intros a b c d p s [Hd _]%format_u8_digits E. unfold format_ipv4 in E. cbn [ascii_bytes app] in E. injection E as E.
    destruct (ak_format_u8 a) as [|x l]; [done|]. inversion Hd; subst. cbn in E. injection E as -> _. done. }
  destruct e as [ip p|ip p], e' as [ip' p'|ip' p']; intros (Hl & Hw & Hp) (Hl' & Hw' & Hp') E; cbn [endpoint_text] in E.
  - apply ipv4_inj in E as [E ->]; [|by repeat constructor; apply at_byte_u8..|done|done].
    rewrite <-!at_bytes_4 in E by done. by subst.
  - exfalso. destruct (bytes_eqb _ _); eapply H46; [|exact E| |exact E]; by apply at_byte_u8.
  - exfalso. symmetry in E. destruct (bytes_eqb _ _); eapply H46; [|exact E| |exact E]; by apply at_byte_u8.
  - destruct (bytes_eqb ip _) eqn:E1, (bytes_eqb ip' _) eqn:E2; rewrite ?bytes_eqb_eq in *.
    + apply app_inj_1 in E as [_ E]; [|done]. apply u16_inj in E as ->; [congruence|done..].
    + exfalso. cbn [format_groups] in E. cbn [ascii_bytes app] in E. injection E as E _. unfold hex_digit in E. zsplit_in E; lia.
    + exfalso. symmetry in E. cbn [format_groups] in E. cbn [ascii_bytes app] in E. injection E as E _. unfold hex_digit in E. zsplit_in E; lia.
    + apply app_inj_1 in E as [_ E]; [|done]. apply groups_inj in E as [Hk E]; [|done..].
      apply app_inj_1 in E as [_ E]; [|done]. apply u16_inj in E as ->; [|done..]. f_equal.
      apply list_eq_same_length with 16%nat; [done..|]. intros i x y Hi Hx Hy. specialize (Hk i ltac:(lia)). cbn in Hk.
      unfold at_byte in Hk. rewrite Hx, Hy in Hk. done.
Qed.

Lemma at_byte_slice addr i n k : (k < n)%nat -> at_byte (slice i n addr) k = at_byte addr (i + k).
Proof. intros H. unfold at_byte, slice. by rewrite lookup_take_lt, lookup_drop. Qed.

Lemma groups_slice addr n i j m : (j + 2 * n <= m)%nat -> format_groups (slice i m addr) j n = format_groups addr (i + j) n.
Proof.
  revert j. induction n as [|n IH]; intros j H; [done|]. cbn [format_groups]. unfold be16.
  rewrite !at_byte_slice by lia. rewrite IH by lia. by rewrite Nat.add_succ_r, Nat.add_assoc.
Qed.

Lemma loopback_slice addr : (24 <= length addr)%nat ->
  is_zero addr 8 15 && (at_byte addr 23 =? 1) = bytes_eqb (slice 8 16 addr) (zeros 15 ++ [1]).
Proof.
  intros H. assert (E : slice 8 16 addr = slice 8 15 addr ++ [at_byte addr 23]).
  { rewrite !slice_at_bytes by lia. done. }
  rewrite E. apply eq_true_iff_eq. rewrite bytes_eqb_eq, andb_true_iff, Z.eqb_eq. split.
  - intros [Hz ->]. by rewrite is_zero_bytes by (done || lia).
  - intros Hz. apply app_inj_2 in Hz as [Hz Hb]; [|done]. injection Hb as ->. split; [|done].
    unfold is_zero. fold (slice 8 15 addr). by rewrite Hz.
Qed.

Lemma sockaddr_endpoint addr len n t :
  wf_bytes addr -> len <= Z.of_nat (length addr) -> ak_canonicalize_sockaddr (Some addr) len n = inr t ->
  wf_endpoint (endpoint_of addr) /\ t = endpoint_text (endpoint_of addr).
Proof.
  intros Hw Hl. unfold ak_canonicalize_sockaddr, endpoint_of. destruct (n <? 32)%nat; [done|].
  pose proof (proj2 (be16_val addr 2 Hw)) as Hp.
  assert (Hsl : forall i k, (i + k <= length addr)%nat -> length (slice i k addr) = k /\ wf_bytes (slice i k addr)).
  { intros i k Hik. unfold slice. rewrite length_take, length_drop. split; [lia|]. by apply Forall_take, Forall_drop. }
  destruct (_ =? 2).
  - destruct (Z.ltb_spec len 8); [done|]. intros [= <-]. destruct (Z.eqb_spec (at_byte addr 4) 127).
    + split; [|done]. split_and!; [done| |done]. repeat constructor; unfold is_u8; lia.
    + split; [destruct (Hsl 4%nat 4%nat) as [? ?]; [lia|done]|]. cbn [endpoint_text]. by rewrite !at_byte_slice by lia.
  - destruct (_ =? 10); [|done]. destruct (Z.ltb_spec len 28); [done|].
    destruct (_ && _ && _); [intros [= <-]|].
    + split; [destruct (Hsl 20%nat 4%nat) as [? ?]; [lia|done]|]. cbn [endpoint_text]. by rewrite !at_byte_slice by lia.
    + intros Ht. split; [destruct (Hsl 8%nat 16%nat) as [? ?]; [lia|done]|]. cbn [endpoint_text].
      rewrite loopback_slice in Ht by lia. rewrite groups_slice by lia. change (8 + 0)%nat with 8%nat.
      destruct (bytes_eqb _ _); by injection Ht as <-.
Qed.

Lemma length_format_u8 v : (length (ak_format_u8 v) <= 3)%nat.
Proof. unfold ak_format_u8. zsplit; cbn; lia. Qed.
Lemma length_format_u16 v : (length (ak_format_u16 v) <= 5)%nat.
Proof. unfold ak_format_u16. destruct (_ =? _); [cbn; lia|]. pose proof (length_dec_digits 5 v []). cbn in *. lia. Qed.

Lemma length_groups addr i n : (length (format_groups addr i n) <= 5 * n)%nat.
Proof. revert i. induction n as [|n IH]; intros i; [done|]. cbn [format_groups]. destruct (n =? 0)%nat; cbn; [lia|]. specialize (IH (i + 2)%nat). lia. Qed.

Lemma length_endpoint_text e : (length (endpoint_text e) <= 51)%nat.
Proof.
  destruct e as [ip p|ip p]; cbn [endpoint_text].
  - unfold format_ipv4. pose proof (length_format_u8 (at_byte ip 0)). pose proof (length_format_u8 (at_byte ip 1)).
    pose proof (length_format_u8 (at_byte ip 2)). pose proof (length_format_u8 (at_byte ip 3)). pose proof (length_format_u16 p).
    rewrite !length_app. cbn. lia.
  - pose proof (length_format_u16 p). pose proof (length_groups ip 0 8). destruct (bytes_eqb _ _); rewrite !length_app; cbn; lia.
Qed.

(** Targets of network effects are unambiguous: for every pair of socket
    addresses the code accepts, equal texts name the same end point (an address
    with its port; a v4-mapped address is its IPv4 address and every IPv4
    loopback address is one), and the text always fits the buffer of a
    request. *)
Theorem socket_target_unambiguous addr addr' len len' n t :
  wf_bytes addr -> wf_bytes addr' -> len <= Z.of_nat (length addr) -> len' <= Z.of_nat (length addr') ->
  ak_canonicalize_sockaddr (Some addr) len n = inr t -> ak_canonicalize_sockaddr (Some addr') len' n = inr t ->
  endpoint_of addr = endpoint_of addr' /\ (length t <= 51)%nat.
Proof.
  intros Hw Hw' Hl Hl' [Hwe ->]%sockaddr_endpoint [Hwe' E]%sockaddr_endpoint; [|done..].
  split; [by apply endpoint_text_inj|apply length_endpoint_text].
Qed.

Definition mapped_address : bytes := [10; 0; 1; 187; 0; 0; 0; 0] ++ zeros 10 ++ [255; 255; 8; 8; 4; 4; 0; 0; 0; 0].
Definition plain_address : bytes := [2; 0; 1; 187; 8; 8; 4; 4] ++ zeros 8.

Lemma socket_target_unambiguous_witness :
  ak_canonicalize_sockaddr (Some mapped_address) 28 512 = inr B"ip:8.8.4.4:443" /\ endpoint_of mapped_address = endpoint_of plain_address.
Proof.
  split; [vm_compute; reflexivity|].
  apply (socket_target_unambiguous mapped_address plain_address 28 16 512 B"ip:8.8.4.4:443");
    try (vm_compute; reflexivity); first [vm_compute; discriminate | (repeat constructor; unfold is_u8; cbn; lia)].
Defined.

(** ** Where canonicalisation leaves its description *)

(** A path longer than the buffer is cut, and the cut text is what the policy
    sees: the components behind the cut, [..] among them, are dropped. *)
Definition long_path : bytes := B"/tmp/" ++ concat (replicate 254 B"d/") ++ concat (replicate 255 B"../") ++ B"etc/shadow".
Example long_path_escapes :
  resolve long_path = [B"etc"; B"shadow"] /\
  exists t, ak_canonicalize_path (Some long_path) 512 (Some B"/") = inr t /\ ak_policy_v2_match_path (Some B"/tmp/**") (Some t) = true.
Proof.
  split; [vm_compute; reflexivity|]. eexists. split; [vm_compute; reflexivity|]. vm_compute. reflexivity.
Qed.

(** [..] stops at the directory the path is relative to: the policy is asked
    about a name below it, the system call opens another file. *)
Example dotdot_clamped_at_base :
  ak_canonicalize_path (Some B"../../etc/shadow") 512 (Some B"/srv/app") = inr B"/srv/app/etc/shadow" /\
  resolve B"/srv/app/../../etc/shadow" = [B"etc"; B"shadow"].
Proof. split; vm_compute; reflexivity. Qed.

(** The clamp applies to absolute paths too. *)
Example dotdot_clamped_absolute :
  ak_canonicalize_path (Some B"/srv/app/../../etc/shadow") 512 (Some B"/srv/app") = inr B"/srv/app/etc/shadow".
Proof. vm_compute. reflexivity. Qed.

(** The guard on the size of the buffer is weaker than the text needs. *)
Example sockaddr_guard_too_weak :
  exists t, ak_canonicalize_sockaddr (Some ([10; 0; 255; 255; 0; 0; 0; 0; 32; 1] ++ replicate 18 255)) 28 32 = inr t /\ length t = 50%nat.
Proof. eexists. split; [vm_compute; reflexivity|]. vm_compute. reflexivity. Qed.
