(* ===== verification/FdTable.v ===== *)
(** * The descriptor table ([src/src/agentic/ak_fd_table.c])

    Remembers the path of every open descriptor and the working directory, so
    that the paths of [*at] calls can be canonicalised.  The table is the array
    of the code; the spin lock makes each function one step.

    Theorems: under every sequence of calls the table behaves as a bounded
    finite map from descriptors to paths. *)

From stdpp Require Import gmap.
From S2P Require Import Prelude Pattern PathGlob PolicyV2 CanonPath.

Definition AK_FD_TABLE_SIZE : nat := 1024.
Definition AT_FDCWD : Z := -100.

Record ak_fd_entry := mk_fd_entry { fe_fd : Z; fe_path : bytes; fe_is_directory : bool; fe_valid : bool }.
Definition zero_entry : ak_fd_entry := mk_fd_entry 0 [] false false.

Record ak_fd_table_stats := mk_fd_stats {
  fs_registers : Z; fs_unregisters : Z; fs_lookups : Z; fs_lookup_hits : Z; fs_lookup_misses : Z; fs_resolves : Z; fs_resolve_errors : Z;
  fs_current_entries : Z; fs_peak_entries : Z }.
Definition zero_fd_stats : ak_fd_table_stats := mk_fd_stats 0 0 0 0 0 0 0 0 0.

Record fd_state := mk_fd_state { fd_table : list ak_fd_entry; current_cwd : bytes; fd_stats : ak_fd_table_stats; fd_table_initialized : bool }.

(** The state at boot: the arrays are zero, [current_cwd] is the root. *)
Definition fd_boot : fd_state := mk_fd_state (replicate AK_FD_TABLE_SIZE zero_entry) [SLASH] zero_fd_stats false.

Definition with_table (t : list ak_fd_entry) (s : fd_state) : fd_state := mk_fd_state t (current_cwd s) (fd_stats s) (fd_table_initialized s).
Definition with_stats (f : ak_fd_table_stats -> ak_fd_table_stats) (s : fd_state) : fd_state :=
  mk_fd_state (fd_table s) (current_cwd s) (f (fd_stats s)) (fd_table_initialized s).

(** A path copied into [char path[AK_MAX_TARGET]] with a NUL in its last byte. *)
Definition fit_target (path : bytes) : bytes := take (AK_MAX_TARGET - 1) (cstr path).

Definition holds (fd : Z) (e : ak_fd_entry) : Prop := fe_valid e = true /\ fe_fd e = fd.
#[global] Instance holds_dec fd e : Decision (holds fd e).
Proof. unfold holds. apply _. Defined.
Definition free (e : ak_fd_entry) : Prop := fe_valid e = false.
#[global] Instance free_dec e : Decision (free e).
Proof. unfold free. apply _. Defined.

Definition fd_table_find_entry (t : list ak_fd_entry) (fd : Z) : option (nat * ak_fd_entry) := list_find (holds fd) t.
Definition fd_table_find_free (t : list ak_fd_entry) : option (nat * ak_fd_entry) := list_find free t.

Definition ak_fd_table_init (s : fd_state) : fd_state :=
  if fd_table_initialized s then s else mk_fd_state (replicate AK_FD_TABLE_SIZE zero_entry) [SLASH] zero_fd_stats true.

Definition set_current (n : Z) (st : ak_fd_table_stats) : ak_fd_table_stats :=
  mk_fd_stats (fs_registers st) (fs_unregisters st) (fs_lookups st) (fs_lookup_hits st) (fs_lookup_misses st) (fs_resolves st) (fs_resolve_errors st)
    n (fs_peak_entries st).

Definition ak_fd_table_shutdown (s : fd_state) : fd_state :=
  if fd_table_initialized s then
    mk_fd_state (replicate AK_FD_TABLE_SIZE zero_entry) (current_cwd s) (set_current 0 (fd_stats s)) false
  else s.

Definition bump_registers (st : ak_fd_table_stats) : ak_fd_table_stats :=
  mk_fd_stats (fs_registers st + 1) (fs_unregisters st) (fs_lookups st) (fs_lookup_hits st) (fs_lookup_misses st) (fs_resolves st) (fs_resolve_errors st)
    (fs_current_entries st) (fs_peak_entries st).
Definition bump_unregisters (st : ak_fd_table_stats) : ak_fd_table_stats :=
  mk_fd_stats (fs_registers st) (fs_unregisters st + 1) (fs_lookups st) (fs_lookup_hits st) (fs_lookup_misses st) (fs_resolves st) (fs_resolve_errors st)
    (fs_current_entries st) (fs_peak_entries st).
(** One lookup; [hit]: found and copied; [miss]: no entry. *)
Definition bump_lookups (hit miss : bool) (st : ak_fd_table_stats) : ak_fd_table_stats :=
  mk_fd_stats (fs_registers st) (fs_unregisters st) (fs_lookups st + 1) (fs_lookup_hits st + if hit then 1 else 0)
    (fs_lookup_misses st + if miss then 1 else 0) (fs_resolves st) (fs_resolve_errors st) (fs_current_entries st) (fs_peak_entries st).
Definition bump_resolves (err : bool) (st : ak_fd_table_stats) : ak_fd_table_stats :=
  mk_fd_stats (fs_registers st) (fs_unregisters st) (fs_lookups st) (fs_lookup_hits st) (fs_lookup_misses st) (fs_resolves st + 1)
    (fs_resolve_errors st + if err then 1 else 0) (fs_current_entries st) (fs_peak_entries st).
(** One more entry, and the peak. *)
Definition count_entry (st : ak_fd_table_stats) : ak_fd_table_stats :=
  let n := fs_current_entries st + 1 in
  mk_fd_stats (fs_registers st) (fs_unregisters st) (fs_lookups st) (fs_lookup_hits st) (fs_lookup_misses st) (fs_resolves st) (fs_resolve_errors st)
    n (if fs_peak_entries st <? n then n else fs_peak_entries st).

Definition ak_fd_table_register (s : fd_state) (fd : Z) (path : option bytes) (is_dir : bool) : fd_state * Z :=
  match path with
  | None => (s, - EINVAL)
  | Some path =>
      if fd <? 0 then (s, - EINVAL)
      else
        let s := with_stats bump_registers (ak_fd_table_init s) in
        let t := fd_table s in
        let e := mk_fd_entry fd (fit_target path) is_dir true in
        match fd_table_find_entry t fd with
        | Some (i, _) => (with_table (<[i := e]> t) s, 0)
        | None =>
            match fd_table_find_free t with
            | None => (s, - ENOSPC)
            | Some (i, _) => (with_stats count_entry (with_table (<[i := e]> t) s), 0)
            end
        end
  end.

Definition ak_fd_table_unregister (s : fd_state) (fd : Z) : fd_state * Z :=
  if fd <? 0 then (s, - EINVAL)
  else if negb (fd_table_initialized s) then (s, 0)
  else
    let s := with_stats bump_unregisters s in
    match fd_table_find_entry (fd_table s) fd with
    | Some (i, _) => (with_stats (fun st => set_current (fs_current_entries st - 1) st) (with_table (<[i := zero_entry]> (fd_table s)) s), 0)
    | None => (s, 0)
    end.

(** [max_len] is the caller's buffer; the result is the errno or the path. *)
Definition ak_fd_table_lookup (s : fd_state) (fd : Z) (max_len : nat) : fd_state * (Z + bytes) :=
  if (fd <? 0) || (max_len =? 0)%nat then (s, inl (- EINVAL))
  else if negb (fd_table_initialized s) then (s, inl (- ENOENT))
  else
    match fd_table_find_entry (fd_table s) fd with
    | None => (with_stats (bump_lookups false true) s, inl (- ENOENT))
    | Some (_, e) =>
        if (max_len <=? length (fe_path e))%nat then (with_stats (bump_lookups false false) s, inl (- ERANGE))
        else (with_stats (bump_lookups true false) s, inr (fe_path e))
    end.

Definition ak_fd_table_is_directory (s : fd_state) (fd : Z) : bool :=
  if (fd <? 0) || negb (fd_table_initialized s) then false
  else match fd_table_find_entry (fd_table s) fd with Some (_, e) => fe_is_directory e | None => false end.

Definition ak_fd_table_resolve_at (s : fd_state) (dirfd : Z) (path : option bytes) (max_len : nat) : fd_state * (Z + bytes) :=
  match path with
  | None => (s, inl (- EINVAL))
  | Some path =>
      if (max_len =? 0)%nat then (s, inl (- EINVAL))
      else
        let s := ak_fd_table_init s in
        let ok := with_stats (bump_resolves false) s in
        let bad := with_stats (bump_resolves true) s in
        if at_char SLASH (cstr path) then (ok, ak_canonicalize_path (Some path) max_len (Some [SLASH]))
        else if dirfd =? AT_FDCWD then (ok, ak_canonicalize_path (Some path) max_len (Some (current_cwd s)))
        else if dirfd <? 0 then (bad, inl (- EBADF))
        else
          match fd_table_find_entry (fd_table s) dirfd with
          | None => (bad, inl (- EBADF))
          | Some (_, e) =>
              if fe_is_directory e then (ok, ak_canonicalize_path (Some path) max_len (Some (fe_path e)))
              else (bad, inl (- ENOTDIR))
          end
  end.

Definition ak_fd_table_set_cwd (s : fd_state) (cwd : option bytes) : fd_state * Z :=
  match cwd with
  | None => (s, - EINVAL)
  | Some cwd =>
      let s := ak_fd_table_init s in
      (mk_fd_state (fd_table s) (fit_target cwd) (fd_stats s) (fd_table_initialized s), 0)
  end.

Definition ak_fd_table_get_cwd (s : fd_state) (max_len : nat) : Z + bytes :=
  if (max_len =? 0)%nat then inl (- EINVAL)
  else if negb (fd_table_initialized s) then if (max_len <? 2)%nat then inl (- ERANGE) else inr [SLASH]
  else if (max_len <=? length (current_cwd s))%nat then inl (- ERANGE) else inr (current_cwd s).

Definition ak_fd_table_get_stats (s : fd_state) : ak_fd_table_stats := if fd_table_initialized s then fd_stats s else zero_fd_stats.

(** ** Calls *)

Inductive fd_call :=
| FdInit | FdShutdown | FdRegister (fd : Z) (path : option bytes) (is_dir : bool) | FdUnregister (fd : Z) | FdLookup (fd : Z) (max_len : nat)
| FdIsDirectory (fd : Z) | FdResolveAt (dirfd : Z) (path : option bytes) (max_len : nat) | FdSetCwd (cwd : option bytes) | FdGetCwd (max_len : nat).

Inductive fd_answer := AUnit | ACode (r : Z) | AText (r : Z + bytes) | ABool (b : bool).

Definition fd_step (s : fd_state) (c : fd_call) : fd_state * fd_answer :=
  match c with
  | FdInit => (ak_fd_table_init s, ACode 0)
  | FdShutdown => (ak_fd_table_shutdown s, AUnit)
  | FdRegister fd path is_dir => let '(s, r) := ak_fd_table_register s fd path is_dir in (s, ACode r)
  | FdUnregister fd => let '(s, r) := ak_fd_table_unregister s fd in (s, ACode r)
  | FdLookup fd n => let '(s, r) := ak_fd_table_lookup s fd n in (s, AText r)
  | FdIsDirectory fd => (s, ABool (ak_fd_table_is_directory s fd))
  | FdResolveAt dirfd path n => let '(s, r) := ak_fd_table_resolve_at s dirfd path n in (s, AText r)
  | FdSetCwd cwd => let '(s, r) := ak_fd_table_set_cwd s cwd in (s, ACode r)
  | FdGetCwd n => (s, AText (ak_fd_table_get_cwd s n))
  end.

Fixpoint fd_run (s : fd_state) (cs : list fd_call) : fd_state * list fd_answer :=
  match cs with
  | [] => (s, [])
  | c :: cs => let '(s, a) := fd_step s c in let '(s, l) := fd_run s cs in (s, a :: l)
  end.

(** ** Specification: a bounded finite map *)

Record fd_spec := mk_fd_spec { sp_map : gmap Z (bytes * bool); sp_cwd : bytes; sp_ready : bool }.
Definition spec_boot : fd_spec := mk_fd_spec ∅ [SLASH] false.
Definition spec_init (s : fd_spec) : fd_spec := if sp_ready s then s else mk_fd_spec ∅ [SLASH] true.

Definition spec_step (s : fd_spec) (c : fd_call) : fd_spec * fd_answer :=
  match c with
  | FdInit => (spec_init s, ACode 0)
  | FdShutdown => (if sp_ready s then mk_fd_spec ∅ (sp_cwd s) false else s, AUnit)
  | FdRegister fd (Some path) d =>
      if fd <? 0 then (s, ACode (- EINVAL))
      else
        let s := spec_init s in
        if decide (is_Some (sp_map s !! fd) \/ (size (sp_map s) < AK_FD_TABLE_SIZE)%nat) then
          (mk_fd_spec (<[fd := (fit_target path, d)]> (sp_map s)) (sp_cwd s) (sp_ready s), ACode 0)
        else (s, ACode (- ENOSPC))
  | FdUnregister fd =>
      if fd <? 0 then (s, ACode (- EINVAL)) else (mk_fd_spec (delete fd (sp_map s)) (sp_cwd s) (sp_ready s), ACode 0)
  | FdLookup fd n =>
      (s, AText (if (fd <? 0) || (n =? 0)%nat then inl (- EINVAL)
                 else match sp_map s !! fd with
                      | None => inl (- ENOENT)
                      | Some (p, _) => if (n <=? length p)%nat then inl (- ERANGE) else inr p
                      end))
  | FdIsDirectory fd => (s, ABool (match sp_map s !! fd with Some (_, d) => d | None => false end))
  | FdResolveAt dirfd (Some path) n =>
      if (n =? 0)%nat then (s, AText (inl (- EINVAL)))
      else
        let s := spec_init s in
        (s, AText (if at_char SLASH (cstr path) then ak_canonicalize_path (Some path) n (Some [SLASH])
                   else if dirfd =? AT_FDCWD then ak_canonicalize_path (Some path) n (Some (sp_cwd s))
                   else match sp_map s !! dirfd with
                        | None => inl (- EBADF)
                        | Some (p, d) => if (d : bool) then ak_canonicalize_path (Some path) n (Some p) else inl (- ENOTDIR)
                        end))
  | FdSetCwd (Some cwd) => let s := spec_init s in (mk_fd_spec (sp_map s) (fit_target cwd) (sp_ready s), ACode 0)
  | FdGetCwd n =>
      (s, AText (if (n =? 0)%nat then inl (- EINVAL)
                 else let cwd := if sp_ready s then sp_cwd s else [SLASH] in if (n <=? length cwd)%nat then inl (- ERANGE) else inr cwd))
  | FdRegister _ None _ => (s, ACode (- EINVAL))
  | FdResolveAt _ None _ => (s, AText (inl (- EINVAL)))
  | FdSetCwd None => (s, ACode (- EINVAL))
  end.

Fixpoint spec_run (s : fd_spec) (cs : list fd_call) : fd_spec * list fd_answer :=
  match cs with
  | [] => (s, [])
  | c :: cs => let '(s, a) := spec_step s c in let '(s, l) := spec_run s cs in (s, a :: l)
  end.

(** ** The table as a map *)

Definition enter (e : ak_fd_entry) (m : gmap Z (bytes * bool)) : gmap Z (bytes * bool) :=
  if fe_valid e then <[fe_fd e := (fe_path e, fe_is_directory e)]> m else m.
Definition table_map (t : list ak_fd_entry) : gmap Z (bytes * bool) := foldr enter ∅ t.

(** Every descriptor has one entry. *)
Definition unique (t : list ak_fd_entry) : Prop :=
  forall i j e e', t !! i = Some e -> t !! j = Some e' -> fe_valid e = true -> holds (fe_fd e) e' -> i = j.

Definition valid_count (t : list ak_fd_entry) : nat := length (filter (fun e => fe_valid e = true) t).

Lemma unique_cons e t : unique (e :: t) -> unique t /\ (fe_valid e = true -> forall e', e' ∈ t -> ~ holds (fe_fd e) e').
Proof.
  intros H. split.
  - intros i j a b Ha Hb Hv Hh. by assert (S i = S j) by (by eapply (H (S i) (S j) a b)); lia.
  - intros Hv e' [j Hj]%list_elem_of_lookup_1 Hh. by pose proof (H 0%nat (S j) e e' eq_refl Hj Hv Hh).
Qed.

Lemma table_map_lookup t fd v :
  unique t -> table_map t !! fd = Some v <-> exists e, e ∈ t /\ holds fd e /\ v = (fe_path e, fe_is_directory e).
Proof.
  induction t as [|e t IH]; intros Hu; cbn.
  - rewrite lookup_empty. split; [done|]. intros (e & He & _). inversion He.
  - apply unique_cons in Hu as [Hu Hd]. unfold enter. destruct (fe_valid e) eqn:Hv.
    + destruct (decide (fe_fd e = fd)) as [<-|Hne].
      * rewrite lookup_insert_eq. split.
        -- intros [= <-]. exists e. split; [left|]. unfold holds. done.
        -- intros (e' & He & Hh & ->). apply elem_of_cons in He as [->|He]; [done|]. by destruct (Hd eq_refl e' He).
      * rewrite lookup_insert_ne, IH by done. split.
        -- intros (e' & He & Hh & ->). exists e'. split; [by right|done].
        -- intros (e' & He & Hh & ->). apply elem_of_cons in He as [->|He]; [by destruct Hh|]. by exists e'.
    + rewrite IH by done. split.
      * intros (e' & He & Hh & ->). exists e'. split; [by right|done].
      * intros (e' & He & Hh & ->). apply elem_of_cons in He as [->|He]; [destruct Hh; congruence|]. by exists e'.
Qed.

Lemma table_map_none t fd : unique t -> table_map t !! fd = None <-> forall e, e ∈ t -> ~ holds fd e.
Proof.
  intros Hu. split.
  - intros Hn e He Hh. assert (table_map t !! fd = Some (fe_path e, fe_is_directory e)) by (apply table_map_lookup; eauto). congruence.
  - intros H. apply eq_None_not_Some. intros [v Hv]. apply table_map_lookup in Hv as (e & He & Hh & _); [|done]. by apply (H e).
Qed.

Lemma find_entry_some t fd i e :
  unique t -> fd_table_find_entry t fd = Some (i, e) -> t !! i = Some e /\ holds fd e /\ table_map t !! fd = Some (fe_path e, fe_is_directory e).
Proof.
  intros Hu (Hi & Hh & _)%list_find_Some. split_and!; [done|done|]. apply table_map_lookup; [done|].
  exists e. split_and!; [by eapply list_elem_of_lookup_2|done|done].
Qed.

Lemma find_entry_none t fd : unique t -> fd_table_find_entry t fd = None -> table_map t !! fd = None.
Proof.
  intros Hu Hn. apply table_map_none; [done|]. apply list_find_None in Hn. rewrite Forall_forall in Hn. eauto.
Qed.

(** An update of slot [i] to an entry for [fd] (or to a free one). *)
Lemma unique_insert t i e :
  unique t -> (fe_valid e = true -> forall j e', t !! j = Some e' -> holds (fe_fd e) e' -> j = i) -> unique (<[i := e]> t).
Proof.
  intros Hu Hn j k a b Ha Hb Hv Hh.
  destruct (decide (i < length t)%nat) as [Hi|Hi]; [|rewrite list_insert_ge in Ha, Hb by lia; eauto].
  rewrite list_lookup_insert in Ha, Hb.
  destruct (decide (i = j /\ _)) as [[<- _]|Hj]; destruct (decide (i = k /\ _)) as [[<- _]|Hk]; simplify_eq; [done|..].
  - by symmetry; eapply Hn.
  - eapply Hn; [by destruct Hh|exact Ha|]. split; [done|]. by destruct Hh.
  - eauto.
Qed.

Lemma table_map_insert t i e0 e :
  unique t -> t !! i = Some e0 -> fe_valid e = true -> (forall j e', t !! j = Some e' -> holds (fe_fd e) e' -> j = i) ->
  (fe_valid e0 = true -> fe_fd e0 = fe_fd e) ->
  table_map (<[i := e]> t) = <[fe_fd e := (fe_path e, fe_is_directory e)]> (table_map t).
Proof.
  intros Hu Hi Hv Hn H0. assert (Hu' : unique (<[i := e]> t)) by (apply unique_insert; auto).
  apply map_eq. intros fd. apply option_eq. intros v. rewrite table_map_lookup by done.
  assert (Hlen : (i < length t)%nat) by (by eapply lookup_lt_Some).
  destruct (decide (fe_fd e = fd)) as [<-|Hne].
  - rewrite lookup_insert_eq. split.
    + intros (e' & [j Hj]%list_elem_of_lookup_1 & Hh & ->). rewrite list_lookup_insert in Hj.
      destruct (decide (i = j /\ _)); simplify_eq; [done|]. pose proof (Hn j e' Hj Hh). naive_solver.
    + intros [= <-]. exists e. split_and!; [|done..]. apply list_elem_of_lookup_2 with i. by apply list_lookup_insert_eq.
  - rewrite lookup_insert_ne, table_map_lookup by done. split.
    + intros (e' & [j Hj]%list_elem_of_lookup_1 & Hh & ->). rewrite list_lookup_insert in Hj.
      destruct (decide (i = j /\ _)); simplify_eq; [by destruct Hh|]. exists e'. split_and!; [by eapply list_elem_of_lookup_2|done..].
    + intros (e' & [j Hj]%list_elem_of_lookup_1 & [Hv' Hf] & ->). exists e'. split_and!; [|done..].
      destruct (decide (i = j)) as [<-|Hij]; [simplify_eq; by rewrite H0 in Hne|].
      apply list_elem_of_lookup_2 with j. by rewrite list_lookup_insert_ne.
Qed.

Lemma table_map_clear t i e0 :
  unique t -> t !! i = Some e0 -> fe_valid e0 = true -> table_map (<[i := zero_entry]> t) = delete (fe_fd e0) (table_map t).
Proof.
  intros Hu Hi Hv. assert (Hu' : unique (<[i := zero_entry]> t)) by (by apply unique_insert).
  assert (Hlen : (i < length t)%nat) by (by eapply lookup_lt_Some).
  apply map_eq. intros fd. apply option_eq. intros v. rewrite table_map_lookup by done. split.
  - intros (e' & [j Hj]%list_elem_of_lookup_1 & Hh & ->). rewrite list_lookup_insert in Hj.
    destruct (decide (i = j /\ _)) as [|Hij]; simplify_eq; [by destruct Hh|].
    rewrite lookup_delete_ne. { apply table_map_lookup; [done|]. exists e'. split_and!; [by eapply list_elem_of_lookup_2|done..]. }
    intros <-. apply Hij. split; [|done]. eapply Hu; [exact Hi|exact Hj|done|done].
  - intros [Hne Hl]%lookup_delete_Some. apply table_map_lookup in Hl as (e' & [j Hj]%list_elem_of_lookup_1 & Hh & ->); [|done].
    exists e'. split_and!; [|done..]. apply list_elem_of_lookup_2 with j. rewrite list_lookup_insert_ne; [done|].
    intros <-. simplify_eq. by destruct Hh.
Qed.

Lemma size_table_map t : unique t -> size (table_map t) = valid_count t.
Proof.
  unfold valid_count. induction t as [|e t IH]; intros Hu; [apply map_size_empty|]. apply unique_cons in Hu as [Hu Hd]. change (table_map (e :: t)) with (enter e (table_map t)).
  rewrite filter_cons. unfold enter. destruct (fe_valid e) eqn:Hv.
  - rewrite decide_True by done. cbn [length]. rewrite map_size_insert_None, IH; [done|done|]. by apply table_map_none, Hd.
  - rewrite decide_False by done. by apply IH.
Qed.

Lemma find_free_none t : fd_table_find_free t = None -> valid_count t = length t.
Proof.
  intros H%list_find_None. unfold valid_count, free in *. induction H as [|e t He Ht IH]; [done|].
  rewrite filter_cons, decide_True by (by apply not_false_is_true). cbn. by rewrite IH.
Qed.

Lemma find_free_some t i e : fd_table_find_free t = Some (i, e) -> t !! i = Some e /\ fe_valid e = false /\ (valid_count t < length t)%nat.
Proof.
  intros (Hi & Hf & _)%list_find_Some. split_and!; [done|done|]. unfold valid_count.
  rewrite <-(take_drop_middle t i e Hi). rewrite filter_app, filter_cons, decide_False by (unfold free in Hf; congruence).
  rewrite !length_app. cbn. pose proof (length_filter (fun e => fe_valid e = true) (take i t)).
  pose proof (length_filter (fun e => fe_valid e = true) (drop (S i) t)). lia.
Qed.

(** ** Simulation *)

Record fd_sim (s : fd_state) (a : fd_spec) : Prop := {
  sim_length : length (fd_table s) = AK_FD_TABLE_SIZE;
  sim_unique : unique (fd_table s);
  sim_map : table_map (fd_table s) = sp_map a;
  sim_cwd : current_cwd s = sp_cwd a;
  sim_ready : fd_table_initialized s = sp_ready a;
  sim_off : sp_ready a = false -> sp_map a = ∅;
  sim_count : sp_ready a = true -> fs_current_entries (fd_stats s) = Z.of_nat (size (sp_map a)) /\ fs_current_entries (fd_stats s) <= fs_peak_entries (fd_stats s);
  sim_fds : forall fd v, sp_map a !! fd = Some v -> 0 <= fd /\ (length v.1 < AK_MAX_TARGET)%nat }.

Lemma unique_zero n : unique (replicate n zero_entry).
Proof. intros i j e e' [-> _]%lookup_replicate _ Hv. done. Qed.

Lemma table_map_zero n : table_map (replicate n zero_entry) = ∅.
Proof. induction n; cbn; auto. Qed.

Lemma sim_boot : fd_sim fd_boot spec_boot.
Proof.
  split; cbn [fd_boot fd_table current_cwd fd_stats fd_table_initialized spec_boot sp_map sp_cwd sp_ready]; first [apply length_replicate | apply unique_zero | apply table_map_zero | done].
Qed.

Lemma sim_init s a : fd_sim s a -> fd_sim (ak_fd_table_init s) (spec_init a) /\ sp_ready (spec_init a) = true.
Proof.
  intros H. unfold ak_fd_table_init, spec_init. rewrite (sim_ready _ _ H). destruct (sp_ready a) eqn:E; [done|].
  split; [|done]. split; cbn [fd_table current_cwd fd_stats fd_table_initialized sp_map sp_cwd sp_ready]; first [apply length_replicate | apply unique_zero | apply table_map_zero | done].
Qed.

(** Statistics other than the entry counts do not matter. *)
Lemma sim_stats f s a :
  fs_current_entries (f (fd_stats s)) = fs_current_entries (fd_stats s) -> fs_peak_entries (f (fd_stats s)) = fs_peak_entries (fd_stats s) ->
  fd_sim s a -> fd_sim (with_stats f s) a.
Proof. intros Hc Hp [H1 H2 H3 H4 H5 H6 H7 H8]. split; cbn; rewrite ?Hc, ?Hp; done. Qed.

Lemma sim_lookup s a fd : fd_sim s a ->
  sp_map a !! fd = (fun ie => (fe_path ie.2, fe_is_directory ie.2)) <$> fd_table_find_entry (fd_table s) fd.
Proof.
  intros H. rewrite <-(sim_map _ _ H). destruct (fd_table_find_entry _ _) as [[i e]|] eqn:E; cbn.
  - by apply find_entry_some in E as (_ & _ & ?); [|apply (sim_unique _ _ H)].
  - apply find_entry_none; [apply (sim_unique _ _ H)|done].
Qed.

Lemma length_fit_target p : (length (fit_target p) < AK_MAX_TARGET)%nat.
Proof. unfold fit_target. rewrite length_take. unfold AK_MAX_TARGET. lia. Qed.

(** An update of the map at [fd], with the new entry count. *)
Lemma sim_put s a t m st fd v :
  fd_sim s a -> sp_ready a = true -> 0 <= fd -> length t = AK_FD_TABLE_SIZE -> unique t -> table_map t = m ->
  m = <[fd := v]> (sp_map a) -> (length v.1 < AK_MAX_TARGET)%nat ->
  fs_current_entries st = Z.of_nat (size m) -> fs_current_entries st <= fs_peak_entries st ->
  fd_sim (mk_fd_state t (current_cwd s) st (fd_table_initialized s)) (mk_fd_spec m (sp_cwd a) (sp_ready a)).
Proof.
  intros [H1 H2 H3 H4 H5 H6 H7 H8] Hr Hfd Hl Hu Hm -> Hv Hc Hp. split; cbn; try done.
  - congruence.
  - intros fd' v' [[<- <-]|[_ Hl']]%lookup_insert_Some; [done|]. eauto.
Qed.

Lemma sim_register s a fd path d : fd_sim s a ->
  let '(s', r) := ak_fd_table_register s fd path d in let '(a', r') := spec_step a (FdRegister fd path d) in fd_sim s' a' /\ r' = ACode r.
Proof.
  intros H. unfold ak_fd_table_register. cbn [spec_step]. destruct path as [path|]; [|done].
  destruct (Z.ltb_spec fd 0); [done|]. destruct (sim_init s a H) as [Hi Hr]. clear H.
  revert Hi Hr. generalize (ak_fd_table_init s). generalize (spec_init a). clear s a. intros a s Hi Hr.
  apply (sim_stats bump_registers) in Hi; [|done..]. set (s1 := with_stats bump_registers s) in *.
  destruct (sim_count _ _ Hi Hr) as [Hc1 Hc2]. pose proof (sim_lookup _ _ fd Hi) as Hfd. pose proof (length_fit_target path) as Hp.
  destruct (fd_table_find_entry (fd_table s1) fd) as [[i e0]|] eqn:Ef; cbn in Hfd.
  - apply find_entry_some in Ef as (Hi0 & [Hv0 Hf0] & _); [|apply (sim_unique _ _ Hi)].
    rewrite decide_True by (left; by rewrite Hfd). split; [|done].
    assert (Hhere : forall j e', fd_table s1 !! j = Some e' -> holds fd e' -> j = i).
    { intros j e' Hj Hh. eapply (sim_unique _ _ Hi j i); [exact Hj|exact Hi0|by destruct Hh|]. split; [done|]. destruct Hh; congruence. }
    apply (sim_put s1 a _ _ _ fd (fit_target path, d)); try done.
    + by rewrite length_insert, (sim_length _ _ Hi).
    + apply unique_insert; [apply (sim_unique _ _ Hi)|done].
    + rewrite <-(sim_map _ _ Hi). eapply table_map_insert; [apply (sim_unique _ _ Hi)|exact Hi0|done..].
    + by rewrite map_size_insert_Some by (by rewrite Hfd).
  - assert (Hnone := find_entry_none _ _ (sim_unique _ _ Hi) Ef).
    destruct (fd_table_find_free (fd_table s1)) as [[i e0]|] eqn:Ee.
    + apply find_free_some in Ee as (Hi0 & Hv0 & Hlt). rewrite <-size_table_map, (sim_map _ _ Hi), (sim_length _ _ Hi) in Hlt by apply (sim_unique _ _ Hi).
      rewrite decide_True by (by right). split; [|done].
      assert (Hhere : forall j e', fd_table s1 !! j = Some e' -> holds fd e' -> j = i).
      { intros j e' Hj Hh. exfalso. rewrite table_map_none in Hnone by apply (sim_unique _ _ Hi). by apply (Hnone e'); [eapply list_elem_of_lookup_2|]. }
      apply (sim_put s1 a _ _ _ fd (fit_target path, d)); try done; cbn [with_table fd_table fd_stats].
      * by rewrite length_insert, (sim_length _ _ Hi).
      * apply unique_insert; [apply (sim_unique _ _ Hi)|done].
      * rewrite <-(sim_map _ _ Hi). eapply table_map_insert; [apply (sim_unique _ _ Hi)|exact Hi0|done..|congruence].
      * rewrite map_size_insert_None by done. cbn in *. lia.
      * cbn in *. destruct (Z.ltb_spec (fs_peak_entries (fd_stats s)) (fs_current_entries (fd_stats s) + 1)); lia.
    + apply find_free_none in Ee. rewrite <-size_table_map, (sim_map _ _ Hi), (sim_length _ _ Hi) in Ee by apply (sim_unique _ _ Hi).
      rewrite decide_False; [done|]. intros [[v Hv]|]; [congruence|lia].
Qed.

Lemma sim_eta a : mk_fd_spec (sp_map a) (sp_cwd a) (sp_ready a) = a.
Proof. by destruct a. Qed.

Lemma sim_unregister s a fd : fd_sim s a ->
  let '(s', r) := ak_fd_table_unregister s fd in let '(a', r') := spec_step a (FdUnregister fd) in fd_sim s' a' /\ r' = ACode r.
Proof.
  intros H. unfold ak_fd_table_unregister. cbn [spec_step]. destruct (Z.ltb_spec fd 0); [done|].
  rewrite (sim_ready _ _ H). destruct (sp_ready a) eqn:Hr; cbn [negb].
  2: { split; [|done]. rewrite (sim_off _ _ H Hr), delete_empty, <-(sim_off _ _ H Hr), <-Hr, sim_eta. done. }
  apply (sim_stats bump_unregisters) in H; [|done..]. set (s1 := with_stats bump_unregisters s) in *.
  destruct (sim_count _ _ H Hr) as [Hc1 Hc2]. pose proof (sim_lookup _ _ fd H) as Hfd. rewrite <-Hr.
  destruct (fd_table_find_entry (fd_table s1) fd) as [[i e0]|] eqn:Ef; cbn in Hfd.
  - apply find_entry_some in Ef as (Hi0 & [Hv0 Hf0] & _); [|apply (sim_unique _ _ H)]. split; [|done].
    assert (Hsz : size (sp_map a) = S (size (delete fd (sp_map a)))).
    { rewrite map_size_delete_Some by (by rewrite Hfd). assert (size (sp_map a) <> 0%nat); [|lia].
      intros E0. apply map_size_empty_inv in E0. by rewrite E0, lookup_empty in Hfd. }
    destruct H as [H1 H2 H3 H4 H5 H6 H7 H8]. split; cbn; try done.
    + by rewrite length_insert.
    + by apply unique_insert.
    + subst fd. rewrite <-H3. by eapply table_map_clear.
    + intros Hoff. by rewrite H6, delete_empty.
    + intros _. cbn in Hc1, Hc2. split; lia.
    + intros fd' v [_ Hl]%lookup_delete_Some. eauto.
  - split; [|done]. by rewrite delete_id, sim_eta.
Qed.

Lemma sim_readonly s a fd : fd_sim s a -> fd < 0 -> sp_map a !! fd = None.
Proof. intros H Hfd. destruct (sp_map a !! fd) eqn:E; [|done]. destruct (sim_fds _ _ H _ _ E). lia. Qed.

Lemma sim_lookup_call s a fd n : fd_sim s a ->
  let '(s', r) := ak_fd_table_lookup s fd n in let '(a', r') := spec_step a (FdLookup fd n) in fd_sim s' a' /\ r' = AText r.
Proof.
  intros H. unfold ak_fd_table_lookup. cbn [spec_step]. destruct (_ || _); [done|].
  rewrite (sim_lookup _ _ fd H), (sim_ready _ _ H). destruct (sp_ready a) eqn:Hr; cbn [negb].
  - destruct (fd_table_find_entry _ _) as [[i e]|]; cbn [fmap option_fmap option_map fst snd];
      [destruct (n <=? _)%nat|]; (split; [by apply sim_stats|done]).
  - pose proof (sim_lookup _ _ fd H) as Hn. rewrite (sim_off _ _ H Hr), lookup_empty in Hn.
    destruct (fd_table_find_entry _ _); [done|]. done.
Qed.

Lemma sim_is_directory s a fd : fd_sim s a ->
  ak_fd_table_is_directory s fd = match sp_map a !! fd with Some (_, d) => d | None => false end.
Proof.
  intros H. unfold ak_fd_table_is_directory. rewrite (sim_ready _ _ H). destruct (Z.ltb_spec fd 0) as [Hn|Hn]; cbn [orb].
  { by rewrite (sim_readonly s a). }
  destruct (sp_ready a) eqn:Hr; cbn [negb]; [|by rewrite (sim_off _ _ H Hr), lookup_empty].
  rewrite (sim_lookup _ _ fd H). by destruct (fd_table_find_entry _ _) as [[i e]|].
Qed.

Lemma sim_resolve s a dirfd path n : fd_sim s a ->
  let '(s', r) := ak_fd_table_resolve_at s dirfd path n in let '(a', r') := spec_step a (FdResolveAt dirfd path n) in fd_sim s' a' /\ r' = AText r.
Proof.
  intros H. unfold ak_fd_table_resolve_at. cbn [spec_step]. destruct path as [path|]; [|done]. destruct (n =? 0)%nat; [done|].
  destruct (sim_init s a H) as [Hi _]. revert Hi. generalize (ak_fd_table_init s). generalize (spec_init a). clear s a H. intros a s H.
  pose proof (sim_stats (bump_resolves true) s a eq_refl eq_refl H) as Hbad. pose proof (sim_stats (bump_resolves false) s a eq_refl eq_refl H) as Hok.
  destruct (at_char _ _); [done|]. destruct (dirfd =? AT_FDCWD); [by rewrite (sim_cwd _ _ H)|].
  destruct (Z.ltb_spec dirfd 0); [by rewrite (sim_readonly s a)|]. rewrite (sim_lookup _ _ dirfd H).
  destruct (fd_table_find_entry _ _) as [[i e]|]; cbn [fmap option_fmap option_map fst snd]; [|done].
  by destruct (fe_is_directory e).
Qed.

Lemma sim_step s a c : fd_sim s a -> let '(s', r) := fd_step s c in let '(a', r') := spec_step a c in fd_sim s' a' /\ r' = r.
Proof.
  intros H. destruct c as [| |fd path d|fd|fd n|fd|dirfd path n|cwd|n]; cbn [fd_step].
  - cbn [spec_step]. by destruct (sim_init s a H).
  - cbn [spec_step]. unfold ak_fd_table_shutdown. rewrite (sim_ready _ _ H). destruct (sp_ready a) eqn:Hr; [|done].
    split; [|done]. split; cbn [fd_table current_cwd fd_stats fd_table_initialized sp_map sp_cwd sp_ready];
      first [apply length_replicate | apply unique_zero | apply table_map_zero | apply (sim_cwd _ _ H) | done].
  - pose proof (sim_register s a fd path d H) as Hs. by destruct (ak_fd_table_register _ _ _ _).
  - pose proof (sim_unregister s a fd H) as Hs. by destruct (ak_fd_table_unregister _ _).
  - pose proof (sim_lookup_call s a fd n H) as Hs. by destruct (ak_fd_table_lookup _ _ _).
  - cbn [spec_step]. by rewrite (sim_is_directory s a).
  - pose proof (sim_resolve s a dirfd path n H) as Hs. by destruct (ak_fd_table_resolve_at _ _ _ _).
  - unfold ak_fd_table_set_cwd. cbn [spec_step]. destruct cwd as [cwd|]; [|done]. split; [|done].
    destruct (sim_init s a H) as [[H1 H2 H3 H4 H5 H6 H7 H8] _]. by split.
  - cbn [spec_step]. split; [done|]. unfold ak_fd_table_get_cwd. destruct (n =? 0)%nat eqn:En; [done|].
    rewrite (sim_ready _ _ H). destruct (sp_ready a); cbn [negb]; [by rewrite (sim_cwd _ _ H)|].
    apply Nat.eqb_neq in En. destruct n as [|[|n]]; [done|done|]. done.
Qed.

Lemma sim_run cs s a : fd_sim s a -> (fd_run s cs).2 = (spec_run a cs).2 /\ fd_sim (fd_run s cs).1 (spec_run a cs).1.
Proof.
  revert s a. induction cs as [|c cs IH]; intros s a H; [done|]. cbn [fd_run spec_run].
  pose proof (sim_step s a c H) as Hs. destruct (fd_step s c) as [s' r], (spec_step a c) as [a' r']. destruct Hs as [Hs ->].
  specialize (IH s' a' Hs). destruct (fd_run s' cs) as [s'' l], (spec_run a' cs) as [a'' l']. cbn in *. destruct IH as [-> ?]. done.
Qed.

(** The descriptor table implements a bounded finite map: from boot, under
    every sequence of calls, every answer it gives (codes, paths, resolved
    names, directory flags) is the one of a map from descriptors to paths that
    holds at most [AK_FD_TABLE_SIZE] of them; and the table's entries are that
    map, each descriptor once, with as many entries as it counts. *)
Theorem fd_table_refines_map cs :
  let '(s, answers) := fd_run fd_boot cs in
  let '(a, answers') := spec_run spec_boot cs in
  answers = answers' /\ table_map (fd_table s) = sp_map a /\ unique (fd_table s) /\ length (fd_table s) = AK_FD_TABLE_SIZE /\
  fs_current_entries (ak_fd_table_get_stats s) = Z.of_nat (size (sp_map a)) /\
  (size (sp_map a) <= AK_FD_TABLE_SIZE)%nat /\
  (forall fd path d, sp_map a !! fd = Some (path, d) -> 0 <= fd /\ (length path < AK_MAX_TARGET)%nat).
Proof.
  destruct (sim_run cs _ _ sim_boot) as [Ha Hs]. destruct (fd_run _ _) as [s l], (spec_run _ _) as [a l']. cbn [fst snd] in *.
  pose proof (size_table_map _ (sim_unique _ _ Hs)) as Hsz. rewrite (sim_map _ _ Hs) in Hsz.
  split_and!; [done|by apply sim_map|by eapply sim_unique|by eapply sim_length|..].
  - unfold ak_fd_table_get_stats. rewrite (sim_ready _ _ Hs). destruct (sp_ready a) eqn:Hr; [by apply (sim_count _ _ Hs)|].
    by rewrite (sim_off _ _ Hs Hr), map_size_empty.
  - rewrite Hsz, <-(sim_length _ _ Hs). unfold valid_count. apply length_filter.
  - intros fd path d Hl. apply (sim_fds _ _ Hs _ _ Hl).
Qed.
