(* ===== verification/Record.v ===== *)
(** * Recording of denied effects ([src/src/agentic/ak_record.c])

    In record mode the effects a policy would refuse are collected, one entry
    per operation and target, in a chained hash table.  A chain is a list, its
    head first; allocation failures are boolean arguments.

    Theorems: the table holds one entry per effect, in the chain of its hash,
    and its counters are right, under every sequence of calls. *)

From stdpp Require Import gmap.
From S2P Require Import Prelude Pattern Json PathGlob PolicyV2 CanonPath.

Definition AK_RECORD_HASH_SIZE : Z := 256.
Definition AK_RECORD_MAX_EFFECTS : Z := 4096.

(** [re_rule] are the bytes of [suggested_rule] in use. *)
Record ak_recorded_effect := mk_recorded { re_op : Z; re_target : bytes; re_rule : bytes; re_count : Z }.

Record ak_record_state := mk_record_state {
  rs_buckets : list (list ak_recorded_effect); rs_unique_count : Z; rs_total_count : Z; rs_enabled : bool; rs_start_time_ms : Z }.

(** FNV-1a over the operation and the bytes of the target. *)
Definition fnv (h b : Z) : Z := u32 (Z.lxor h b * 16777619).
Definition ak_record_hash (op : Z) (target : bytes) : Z :=
  Z.land (foldl fnv (fnv 2166136261 op) (cstr target)) (AK_RECORD_HASH_SIZE - 1).

Definition same_effect (op : Z) (target : bytes) (e : ak_recorded_effect) : bool :=
  (re_op e =? op) && bytes_eqb (cstr (re_target e)) (cstr target).

Definition bucket (s : ak_record_state) (op : Z) (target : bytes) : list ak_recorded_effect :=
  default [] (rs_buckets s !! Z.to_nat (ak_record_hash op target)).

Definition ak_record_find (s : ak_record_state) (op : Z) (target : bytes) : option ak_recorded_effect :=
  List.find (same_effect op target) (bucket s op target).

(** ** Suggested rules *)

Definition rule_escape (c : Z) : bytes :=
  if c =? 34 then [92; 34] else if c =? 92 then [92; 92] else if c =? 10 then [92; 110] else if c =? 13 then [92; 114]
  else if c =? 9 then [92; 116] else if (32 <=? c) && (c <? 127) then [c] else [].

(** The loop at position [pos]; [pos + 2 < out_len] follows from its condition. *)
Fixpoint escape_loop (out_len pos : nat) (str : bytes) : bytes :=
  match str with
  | [] => []
  | c :: str' => if (pos <? out_len - 2)%nat then rule_escape c ++ escape_loop out_len (pos + length (rule_escape c)) str' else []
  end.

Definition json_write_escaped_string (out_len : nat) (str : bytes) : bytes :=
  if (out_len <? 3)%nat then [] else 34 :: escape_loop out_len 1 str ++ [34].

Definition RULE_SIZE : nat := 256.

(** [prefix], the escaped text, [suffix]: the text and [pos] at the end.  Each
    [runtime_strncpy] is cut at the end of the array, [pos] is not. *)
Definition rule_text (prefix str suffix : bytes) : bytes * nat :=
  let body := prefix ++ json_write_escaped_string (RULE_SIZE - length prefix) str in
  (take RULE_SIZE (body ++ suffix), (length body + length suffix)%nat).

Definition name127 (s : bytes) : bytes := take 127 (upto_colon s).

Definition ak_record_generate_rule (req : ak_effect_req) : bytes * nat :=
  let op := er_op req in
  let target := cstr (er_target req) in
  let category := Z.land (Z.shiftr op 8) 255 in
  if category =? 1 then
    rule_text JQ"{'path':" target
      (if is_op [AK_E_FS_UNLINK; AK_E_FS_RENAME; AK_E_FS_MKDIR; AK_E_FS_RMDIR] op then JQ",'write':true}" else JQ",'read':true}")
  else if category =? 2 then
    if op =? AK_E_NET_DNS_RESOLVE then rule_text JQ"{'pattern':" (strip B"dns:" target) JQ",'resolve':true}"
    else
      rule_text JQ"{'pattern':" target
        (if op =? AK_E_NET_CONNECT then JQ",'connect':true}" else if op =? AK_E_NET_BIND then JQ",'bind':true}"
         else if op =? AK_E_NET_LISTEN then JQ",'listen':true}" else B"}")
  else if category =? 4 then
    if op =? AK_E_TOOL_CALL then rule_text JQ"{'name':" (name127 (strip B"tool:" target)) B"}"
    else if op =? AK_E_INFER then rule_text JQ"{'model':" (name127 (strip B"model:" target)) B"}"
    else rule_text JQ"{'target':" target B"}"
  else rule_text JQ"{'target':" target B"}".

(** [out[pos] = '\0']: past the array of 256 bytes and its four bytes of
    padding lies [count], set to 1 before, then [next], set after. *)
Definition count_after_rule (pos : nat) : Z := if (pos =? 260)%nat then 0 else 1.

(** ** Operations *)

Definition ak_record_init (alloc : bool) : option ak_record_state :=
  if alloc then Some (mk_record_state (replicate (Z.to_nat AK_RECORD_HASH_SIZE) []) 0 0 false 0) else None.

Definition ak_record_enable (now_ms : Z) (s : ak_record_state) : ak_record_state :=
  mk_record_state (rs_buckets s) (rs_unique_count s) (rs_total_count s) true now_ms.
Definition ak_record_disable (s : ak_record_state) : ak_record_state :=
  mk_record_state (rs_buckets s) (rs_unique_count s) (rs_total_count s) false (rs_start_time_ms s).
Definition ak_record_is_enabled (s : option ak_record_state) : bool := match s with Some s => rs_enabled s | None => false end.

Definition bump_count (e : ak_recorded_effect) : ak_recorded_effect := mk_recorded (re_op e) (re_target e) (re_rule e) (re_count e + 1).

(** [existing->count++] changes the first entry that matches. *)
Fixpoint bump_first (op : Z) (target : bytes) (l : list ak_recorded_effect) : list ak_recorded_effect :=
  match l with
  | [] => []
  | e :: l' => if same_effect op target e then bump_count e :: l' else e :: bump_first op target l'
  end.

Definition put_bucket (s : ak_record_state) (op : Z) (target : bytes) (l : list ak_recorded_effect) : list (list ak_recorded_effect) :=
  <[Z.to_nat (ak_record_hash op target) := l]> (rs_buckets s).

Definition ak_record_effect (alloc : bool) (s : ak_record_state) (req : ak_effect_req) : ak_record_state * Z :=
  let op := er_op req in
  let target := er_target req in
  if negb (rs_enabled s) then (s, - EINVAL)
  else
    match ak_record_find s op target with
    | Some _ =>
        (mk_record_state (put_bucket s op target (bump_first op target (bucket s op target))) (rs_unique_count s) (rs_total_count s + 1)
           (rs_enabled s) (rs_start_time_ms s), 1)
    | None =>
        if AK_RECORD_MAX_EFFECTS <=? rs_unique_count s then (s, - ENOSPC)
        else if negb alloc then (s, - ENOMEM)
        else
          let '(rule, pos) := ak_record_generate_rule req in
          let e := mk_recorded op (take AK_MAX_TARGET (cstr target)) rule (count_after_rule pos) in
          (mk_record_state (put_bucket s op target (e :: bucket s op target)) (rs_unique_count s + 1) (rs_total_count s + 1)
             (rs_enabled s) (rs_start_time_ms s), 0)
    end.

Definition ak_record_clear (s : ak_record_state) : ak_record_state :=
  mk_record_state (replicate (Z.to_nat AK_RECORD_HASH_SIZE) []) 0 0 (rs_enabled s) (rs_start_time_ms s).

Definition ak_record_count (s : option ak_record_state) : Z := match s with Some s => rs_unique_count s | None => 0 end.
Definition ak_record_total_count (s : option ak_record_state) : Z := match s with Some s => rs_total_count s | None => 0 end.

(** The callback sees the entries chain by chain until it answers false. *)
Fixpoint foreach_until (fn : ak_recorded_effect -> bool) (l : list ak_recorded_effect) (count : Z) : Z :=
  match l with [] => count | e :: l' => if fn e then foreach_until fn l' (count + 1) else count end.
Definition ak_record_foreach (s : ak_record_state) (fn : ak_recorded_effect -> bool) : Z := foreach_until fn (concat (rs_buckets s)) 0.

(** ** Calls, and what they mean: a set of effects *)

Inductive record_call := REnable (now_ms : Z) | RDisable | REffect (alloc : bool) (req : ak_effect_req) | RClear.

Definition record_step (s : ak_record_state) (c : record_call) : ak_record_state * Z :=
  match c with
  | REnable t => (ak_record_enable t s, 0)
  | RDisable => (ak_record_disable s, 0)
  | REffect alloc req => ak_record_effect alloc s req
  | RClear => (ak_record_clear s, 0)
  end.

Fixpoint record_run (s : ak_record_state) (cs : list record_call) : ak_record_state * list Z :=
  match cs with
  | [] => (s, [])
  | c :: cs => let '(s, r) := record_step s c in let '(s, l) := record_run s cs in (s, r :: l)
  end.

Definition effect_key (req : ak_effect_req) : Z * bytes := (er_op req, cstr (er_target req)).

Record record_spec := mk_record_spec { ks : gset (Z * bytes); ks_total : Z; ks_on : bool }.

Definition record_spec_step (a : record_spec) (c : record_call) : record_spec * Z :=
  match c with
  | REnable _ => (mk_record_spec (ks a) (ks_total a) true, 0)
  | RDisable => (mk_record_spec (ks a) (ks_total a) false, 0)
  | RClear => (mk_record_spec ∅ 0 (ks_on a), 0)
  | REffect alloc req =>
      let k := effect_key req in
      if negb (ks_on a) then (a, - EINVAL)
      else if decide (k ∈ ks a) then (mk_record_spec (ks a) (ks_total a + 1) true, 1)
      else if decide (AK_RECORD_MAX_EFFECTS <= Z.of_nat (size (ks a))) then (a, - ENOSPC)
      else if negb alloc then (a, - ENOMEM)
      else (mk_record_spec ({[k]} ∪ ks a) (ks_total a + 1) true, 0)
  end.

Fixpoint record_spec_run (a : record_spec) (cs : list record_call) : record_spec * list Z :=
  match cs with
  | [] => (a, [])
  | c :: cs => let '(a, r) := record_spec_step a c in let '(a, l) := record_spec_run a cs in (a, r :: l)
  end.

(** A request's target is a string in an array of [AK_MAX_TARGET] bytes. *)
Definition fits_call (c : record_call) : Prop := match c with REffect _ req => (length (cstr (er_target req)) < AK_MAX_TARGET)%nat | _ => True end.

Definition entry_key (e : ak_recorded_effect) : Z * bytes := (re_op e, cstr (re_target e)).
Definition hash_of (k : Z * bytes) : nat := Z.to_nat (ak_record_hash k.1 k.2).

Record record_wf (s : ak_record_state) (a : record_spec) : Prop := {
  rw_length : length (rs_buckets s) = Z.to_nat AK_RECORD_HASH_SIZE;
  rw_keys : forall i l, rs_buckets s !! i = Some l -> NoDup (entry_key <$> l) /\ (forall k, k ∈ entry_key <$> l <-> k ∈ ks a /\ hash_of k = i);
  rw_unique : rs_unique_count s = Z.of_nat (size (ks a));
  rw_total : rs_total_count s = ks_total a;
  rw_on : rs_enabled s = ks_on a }.

Lemma hash_bound op target : 0 <= ak_record_hash op target < AK_RECORD_HASH_SIZE.
Proof. unfold ak_record_hash. change (AK_RECORD_HASH_SIZE - 1) with (Z.ones 8). rewrite Z.land_ones by lia. apply Z.mod_pos_bound. done. Qed.

Lemma hash_cstr op target : ak_record_hash op (cstr target) = ak_record_hash op target.
Proof. unfold ak_record_hash. by rewrite cstr_cstr. Qed.

Lemma bucket_lookup s a op target : record_wf s a -> rs_buckets s !! hash_of (op, target) = Some (bucket s op target).
Proof.
  intros H. unfold bucket, hash_of. cbn. destruct (_ !! _) eqn:E; [done|]. apply lookup_ge_None in E.
  rewrite (rw_length _ _ H) in E. pose proof (hash_bound op target). lia.
Qed.

Lemma same_effect_key op target e : same_effect op target e = true <-> entry_key e = (op, cstr target).
Proof.
  unfold same_effect, entry_key. rewrite andb_true_iff, Z.eqb_eq, bytes_eqb_eq. split; [intros [-> ->]; done|by intros [= -> ->]].
Qed.

Lemma hash_of_key req : hash_of (effect_key req) = hash_of (er_op req, er_target req).
Proof. unfold hash_of, effect_key. cbn. by rewrite hash_cstr. Qed.

(** The chain of a request holds its key exactly when the set does. *)
Lemma find_key s a req : record_wf s a ->
  (is_Some (ak_record_find s (er_op req) (er_target req)) <-> effect_key req ∈ ks a) /\
  (effect_key req ∈ entry_key <$> bucket s (er_op req) (er_target req) <-> effect_key req ∈ ks a).
Proof.
  intros H. destruct (rw_keys _ _ H _ _ (bucket_lookup s a (er_op req) (er_target req) H)) as [_ Hk].
  specialize (Hk (effect_key req)). rewrite hash_of_key in Hk.
  assert (Hm : effect_key req ∈ entry_key <$> bucket s (er_op req) (er_target req) <-> effect_key req ∈ ks a) by naive_solver.
  split; [|done]. rewrite <-Hm. unfold ak_record_find. split.
  - intros [e [He Hs]%find_some]. apply list_elem_of_fmap. exists e. split; [by apply same_effect_key in Hs|by apply list_elem_of_In].
  - intros (e & Hek & He%list_elem_of_In)%list_elem_of_fmap. destruct (List.find _ _) eqn:E; [done|].
    pose proof (List.find_none _ _ E e He) as Hn. by rewrite (proj2 (same_effect_key _ _ _)) in Hn.
Qed.

Lemma bump_first_keys op target l : entry_key <$> bump_first op target l = entry_key <$> l.
Proof. induction l as [|e l IH]; [done|]. cbn. destruct (same_effect op target e); cbn; [done|by rewrite IH]. Qed.

Lemma record_effect_wf alloc s a req : record_wf s a -> (length (cstr (er_target req)) < AK_MAX_TARGET)%nat ->
  record_wf (ak_record_effect alloc s req).1 (record_spec_step a (REffect alloc req)).1 /\
  (ak_record_effect alloc s req).2 = (record_spec_step a (REffect alloc req)).2.
Proof.
  intros H Hlen. unfold ak_record_effect. cbn [record_spec_step]. rewrite (rw_on _ _ H). destruct (ks_on a) eqn:Hon; cbn [negb]; [|done].
  destruct (find_key s a req H) as [Hf Hb]. pose proof (bucket_lookup s a (er_op req) (er_target req) H) as Hl.
  destruct (rw_keys _ _ H _ _ Hl) as [Hnd Hks]. rewrite <-hash_of_key in Hl, Hks.
  assert (Hi : Z.to_nat (ak_record_hash (er_op req) (er_target req)) = hash_of (effect_key req)) by (by rewrite hash_of_key).
  assert (Hsame : forall i l l', <[hash_of (effect_key req) := l']> (rs_buckets s) !! i = Some l ->
    i = hash_of (effect_key req) /\ l = l' \/ i <> hash_of (effect_key req) /\ rs_buckets s !! i = Some l).
  { intros i l l' [(-> & -> & _)|[? ?]]%list_lookup_insert_Some; [by left|by right]. }
  destruct (ak_record_find _ _ _) as [e|] eqn:E; cbn [fst snd].
  - rewrite decide_True by (apply Hf; done). split; [|done]. unfold put_bucket. rewrite Hi. split; cbn; try done.
    + rewrite length_insert. apply (rw_length _ _ H).
    + intros i l [[-> ->]|[_ Hl']]%Hsame; [|by apply (rw_keys _ _ H)]. by rewrite bump_first_keys.
    + apply (rw_unique _ _ H).
    + by rewrite (rw_total _ _ H).
  - assert (Hnew : effect_key req ∉ ks a) by (rewrite <-Hf; by intros [? ?]). rewrite decide_False by done.
    rewrite (rw_unique _ _ H). destruct (Z.leb_spec AK_RECORD_MAX_EFFECTS (Z.of_nat (size (ks a)))); [by rewrite decide_True|].
    rewrite decide_False by lia. destruct alloc; cbn [negb]; [|done].
    destruct (ak_record_generate_rule req) as [rule pos]. cbn [fst snd]. split; [|done]. unfold put_bucket. rewrite Hi.
    assert (Hek : forall r c, entry_key (mk_recorded (er_op req) (take AK_MAX_TARGET (cstr (er_target req))) r c) = effect_key req).
    { intros r c. unfold entry_key, effect_key. cbn [re_op re_target]. rewrite take_ge by lia. by rewrite cstr_cstr. }
    split; cbn [rs_buckets rs_unique_count rs_total_count rs_enabled ks ks_total ks_on].
    + rewrite length_insert. apply (rw_length _ _ H).
    + intros i l [[-> ->]|[Hne Hl']]%Hsame.
      * rewrite fmap_cons, Hek. split.
        -- apply NoDup_cons. split; [by rewrite Hks; intros [? _]|done].
        -- intros k. rewrite elem_of_cons, Hks. set_solver.
      * destruct (rw_keys _ _ H _ _ Hl') as [? Hk']. split; [done|]. intros k. rewrite Hk'. split; [set_solver|].
        intros [Hk <-]. set_solver.
    + rewrite size_union by set_solver. rewrite size_singleton. lia.
    + by rewrite (rw_total _ _ H).
    + done.
Qed.

Lemma empty_buckets_wf : forall i (l : list ak_recorded_effect),
  replicate (Z.to_nat AK_RECORD_HASH_SIZE) [] !! i = Some l -> NoDup (entry_key <$> l) /\ (forall k, k ∈ entry_key <$> l <-> k ∈ (∅ : gset (Z * bytes)) /\ hash_of k = i).
Proof. intros i l [-> _]%lookup_replicate. split; [constructor|]. set_solver. Qed.

Lemma record_step_wf s a c : record_wf s a -> fits_call c ->
  record_wf (record_step s c).1 (record_spec_step a c).1 /\ (record_step s c).2 = (record_spec_step a c).2.
Proof.
  intros H Hc. destruct c as [t| |alloc req|]; cbn [record_step].
  - split; [|done]. destruct H. by split.
  - split; [|done]. destruct H. by split.
  - by apply record_effect_wf.
  - split; [|done]. destruct H. split; cbn [ak_record_clear rs_buckets rs_unique_count rs_total_count rs_enabled record_spec_step fst ks ks_total ks_on];
      [apply length_replicate|apply empty_buckets_wf|by rewrite size_empty|done|done].
Qed.

Lemma record_run_wf cs s a : record_wf s a -> Forall fits_call cs ->
  (record_run s cs).2 = (record_spec_run a cs).2 /\ record_wf (record_run s cs).1 (record_spec_run a cs).1.
Proof.
  intros H Hc. revert s a H. induction Hc as [|c cs Hc Hcs IH]; intros s a H; [done|]. cbn [record_run record_spec_run].
  destruct (record_step_wf s a c H Hc) as [Hw Hr]. destruct (record_step s c) as [s' r], (record_spec_step a c) as [a' r']. cbn [fst snd] in *.
  destruct (IH _ _ Hw) as [Hl Hw']. destruct (record_run s' cs), (record_spec_run a' cs). cbn in *. by subst.
Qed.

(** The recorder is a set: from a fresh recorder, under every sequence of
    calls, the codes it answers are those of a set of at most
    [AK_RECORD_MAX_EFFECTS] pairs of operation and target; a lookup finds an
    entry exactly for the pairs of the set; every entry lies in the chain of
    its hash, once; and the two counters are the size of the set and the number
    of effects accepted. *)
Theorem recorder_is_a_set cs s0 :
  ak_record_init true = Some s0 -> Forall fits_call cs ->
  let '(s, codes) := record_run s0 cs in
  let '(a, codes') := record_spec_run (mk_record_spec ∅ 0 false) cs in
  codes = codes' /\
  (forall req, is_Some (ak_record_find s (er_op req) (er_target req)) <-> effect_key req ∈ ks a) /\
  (forall i l, rs_buckets s !! i = Some l -> NoDup (entry_key <$> l) /\ forall e, e ∈ l -> hash_of (entry_key e) = i) /\
  ak_record_count (Some s) = Z.of_nat (size (ks a)) /\ ak_record_total_count (Some s) = ks_total a.
Proof.
  intros [= <-] Hc.
  assert (H0 : record_wf (mk_record_state (replicate (Z.to_nat AK_RECORD_HASH_SIZE) []) 0 0 false 0) (mk_record_spec ∅ 0 false)).
  { split; cbn [rs_buckets rs_unique_count rs_total_count rs_enabled ks ks_total ks_on];
      [apply length_replicate|apply empty_buckets_wf|by rewrite size_empty|done|done]. }
  destruct (record_run_wf cs _ _ H0 Hc) as [Hl Hw]. destruct (record_run _ _) as [s l], (record_spec_run _ _) as [a l']. cbn [fst snd] in *.
  split_and!; [done|intros req; by apply find_key| |apply (rw_unique _ _ Hw)|apply (rw_total _ _ Hw)].
  intros i b Hb. destruct (rw_keys _ _ Hw _ _ Hb) as [Hnd Hk]. split; [done|]. intros e He.
  apply Hk. apply list_elem_of_fmap. by exists e.
Qed.

Definition record_demo : list record_call :=
  let req t := demo_effect AK_E_FS_STAT t [] in
  [REffect true (req B"/a"); REnable 5; REffect true (req B"/a"); REffect true (req B"/b"); REffect true (req B"/a"); REffect false (req B"/c"); RDisable].

Lemma recorder_is_a_set_witness :
  exists s0, ak_record_init true = Some s0 /\ (record_run s0 record_demo).2 = [- EINVAL; 0; 0; 0; 1; - ENOMEM; 0] /\
    ak_record_count (Some (record_run s0 record_demo).1) = 2 /\ ak_record_total_count (Some (record_run s0 record_demo).1) = 3.
Proof.
  eexists. split; [reflexivity|]. eassert (H := recorder_is_a_set record_demo _ eq_refl _).
  destruct (record_run _ record_demo) as [s l] eqn:E. destruct (record_spec_run _ record_demo) as [a l'] eqn:E'.
  destruct H as (-> & _ & _ & Hc & Ht). cbn [fst snd]. rewrite Hc, Ht. vm_compute in E'. injection E' as <- <-. split_and!; vm_compute; reflexivity.
  Unshelve. repeat constructor; cbn; unfold AK_MAX_TARGET; lia.
Defined.

(** The final NUL of a long rule lands behind the array: the rule for a path
    of 237 bytes clears the count of its own entry. *)
Example long_rule_clears_count :
  let req := demo_effect AK_E_FS_STAT (replicate 237 97) [] in
  (RULE_SIZE < (ak_record_generate_rule req).2)%nat /\ count_after_rule (ak_record_generate_rule req).2 = 0.
Proof. split; [vm_compute; lia|vm_compute; reflexivity]. Qed.
