(* ===== verification/Context.v ===== *)
(** * Enforcement contexts ([src/src/agentic/ak_context.c])

    A context carries the routing mode, the policy, the boot capsule, the trace
    counter, the last denial and the recorder.  A [ak_ctx_t *] argument is the
    value of the context ([None] for NULL), and a function that changes it
    returns the new value; the thread-local pointer is the context's identifier.
    The strong definitions of this file replace the weak ones of
    [ak_effects.c].

    Theorems: see [PosixRoute]; here the trace identifiers are shown to be
    unambiguous. *)

From S2P Require Import Prelude Pattern PathGlob PolicyV2 CanonPath Record.

Definition AK_MODE_OFF : Z := 0.
Definition AK_MODE_SOFT : Z := 1.
Definition AK_MODE_HARD : Z := 2.
Definition AK_MODE_RECORD : Z := 3.
Definition AK_DEFAULT_MODE : Z := AK_MODE_SOFT.
Definition AK_CTX_MAGIC : Z := 0x414B4354.

Record ak_last_deny := mk_last_deny {
  ld_op : Z; ld_target : bytes; ld_missing_cap : bytes; ld_suggested_snippet : bytes; ld_trace_id : Z; ld_errno_equiv : Z; ld_timestamp_ns : Z; ld_reason : Z }.
Definition no_deny : ak_last_deny := mk_last_deny 0 [] [] [] 0 0 0 0.

(** [ak_ctx_internal_t] with its [ak_ctx_t]; of the agent only the sixteen
    bytes of its pid are used here. *)
Record ak_ctx := mk_ctx {
  cx_magic : Z; cx_id : Z; cx_agent : option bytes; cx_mode : Z; cx_last_deny : ak_last_deny; cx_policy : option ak_policy_v2;
  cx_boot_capsule_active : bool; cx_boot_capsule_dropped : bool; cx_trace_counter : Z; cx_record : option ak_record_state }.

Record ak_context_stats := mk_ctx_stats {
  cs_created : Z; cs_destroyed : Z; cs_active : Z; cs_capsules_dropped : Z; cs_mode_changes : Z; cs_trace_ids : Z; cs_denials : Z }.
Definition zero_ctx_stats : ak_context_stats := mk_ctx_stats 0 0 0 0 0 0 0.

(** [cm_heap]: the module has a default heap. *)
Record ctx_module := mk_ctx_module { cm_initialized : bool; cm_heap : bool; cm_next_id : Z; cm_tls : option Z; cm_stats : ak_context_stats }.

Definition ctx_validate_magic (c : ak_ctx) : bool := cx_magic c =? AK_CTX_MAGIC.

Definition ak_ctx_is_valid (c : option ak_ctx) : bool := match c with Some c => ctx_validate_magic c | None => false end.

(** ** Field updates *)

Definition set_cx_mode (m : Z) (c : ak_ctx) : ak_ctx :=
  mk_ctx (cx_magic c) (cx_id c) (cx_agent c) m (cx_last_deny c) (cx_policy c) (cx_boot_capsule_active c) (cx_boot_capsule_dropped c) (cx_trace_counter c) (cx_record c).
Definition set_cx_capsule (active dropped : bool) (c : ak_ctx) : ak_ctx :=
  mk_ctx (cx_magic c) (cx_id c) (cx_agent c) (cx_mode c) (cx_last_deny c) (cx_policy c) active dropped (cx_trace_counter c) (cx_record c).
Definition set_cx_counter (n : Z) (c : ak_ctx) : ak_ctx :=
  mk_ctx (cx_magic c) (cx_id c) (cx_agent c) (cx_mode c) (cx_last_deny c) (cx_policy c) (cx_boot_capsule_active c) (cx_boot_capsule_dropped c) n (cx_record c).
Definition set_cx_last_deny (d : ak_last_deny) (c : ak_ctx) : ak_ctx :=
  mk_ctx (cx_magic c) (cx_id c) (cx_agent c) (cx_mode c) d (cx_policy c) (cx_boot_capsule_active c) (cx_boot_capsule_dropped c) (cx_trace_counter c) (cx_record c).
Definition set_cx_policy (p : option ak_policy_v2) (c : ak_ctx) : ak_ctx :=
  mk_ctx (cx_magic c) (cx_id c) (cx_agent c) (cx_mode c) (cx_last_deny c) p (cx_boot_capsule_active c) (cx_boot_capsule_dropped c) (cx_trace_counter c) (cx_record c).
Definition set_cx_agent (a : option bytes) (c : ak_ctx) : ak_ctx :=
  mk_ctx (cx_magic c) (cx_id c) a (cx_mode c) (cx_last_deny c) (cx_policy c) (cx_boot_capsule_active c) (cx_boot_capsule_dropped c) (cx_trace_counter c) (cx_record c).
Definition set_cx_record (r : option ak_record_state) (c : ak_ctx) : ak_ctx :=
  mk_ctx (cx_magic c) (cx_id c) (cx_agent c) (cx_mode c) (cx_last_deny c) (cx_policy c) (cx_boot_capsule_active c) (cx_boot_capsule_dropped c) (cx_trace_counter c) r.

Definition on_stats (f : ak_context_stats -> ak_context_stats) (m : ctx_module) : ctx_module :=
  mk_ctx_module (cm_initialized m) (cm_heap m) (cm_next_id m) (cm_tls m) (f (cm_stats m)).
Definition set_tls (t : option Z) (m : ctx_module) : ctx_module := mk_ctx_module (cm_initialized m) (cm_heap m) (cm_next_id m) t (cm_stats m).

(** The counters, which wrap at 64 bits. *)
Definition count_created (s : ak_context_stats) : ak_context_stats :=
  mk_ctx_stats (u64 (cs_created s + 1)) (cs_destroyed s) (u64 (cs_active s + 1)) (cs_capsules_dropped s) (cs_mode_changes s) (cs_trace_ids s) (cs_denials s).
Definition count_destroyed (s : ak_context_stats) : ak_context_stats :=
  mk_ctx_stats (cs_created s) (u64 (cs_destroyed s + 1)) (u64 (cs_active s - 1)) (cs_capsules_dropped s) (cs_mode_changes s) (cs_trace_ids s) (cs_denials s).
Definition count_dropped (s : ak_context_stats) : ak_context_stats :=
  mk_ctx_stats (cs_created s) (cs_destroyed s) (cs_active s) (u64 (cs_capsules_dropped s + 1)) (cs_mode_changes s) (cs_trace_ids s) (cs_denials s).
Definition count_mode (s : ak_context_stats) : ak_context_stats :=
  mk_ctx_stats (cs_created s) (cs_destroyed s) (cs_active s) (cs_capsules_dropped s) (u64 (cs_mode_changes s + 1)) (cs_trace_ids s) (cs_denials s).
Definition count_trace (s : ak_context_stats) : ak_context_stats :=
  mk_ctx_stats (cs_created s) (cs_destroyed s) (cs_active s) (cs_capsules_dropped s) (cs_mode_changes s) (u64 (cs_trace_ids s + 1)) (cs_denials s).
Definition count_denial (s : ak_context_stats) : ak_context_stats :=
  mk_ctx_stats (cs_created s) (cs_destroyed s) (cs_active s) (cs_capsules_dropped s) (cs_mode_changes s) (cs_trace_ids s) (u64 (cs_denials s + 1)).

(** ** Module and life cycle *)

(** [heap]: the argument is a usable heap. *)
Definition ak_context_module_init (heap : bool) (m : ctx_module) : ctx_module * Z :=
  if cm_initialized m then (m, 0)
  else if negb heap then (m, - EINVAL)
  else (mk_ctx_module true true 0 (cm_tls m) zero_ctx_stats, 0).

Definition ak_context_module_shutdown (m : ctx_module) : ctx_module :=
  if cm_initialized m then mk_ctx_module false false (cm_next_id m) None (cm_stats m) else m.

Definition ak_ctx_create (heap alloc : bool) (agent : option bytes) (m : ctx_module) : ctx_module * option ak_ctx :=
  if negb (heap || cm_heap m) then (m, None)
  else if negb alloc then (m, None)
  else
    (mk_ctx_module (cm_initialized m) (cm_heap m) (u64 (cm_next_id m + 1)) (cm_tls m) (count_created (cm_stats m)),
     Some (mk_ctx AK_CTX_MAGIC (cm_next_id m) agent AK_DEFAULT_MODE no_deny None true false 0 None)).

(** The structure is wiped before it is freed. *)
Definition wiped : ak_ctx := mk_ctx 0 0 None 0 no_deny None false false 0 None.
Definition ak_ctx_destroy (c : option ak_ctx) (m : ctx_module) : ctx_module * option ak_ctx :=
  match c with
  | None => (m, None)
  | Some c =>
      if negb (ctx_validate_magic c) then (m, Some c)
      else
        let m := if bool_decide (cm_tls m = Some (cx_id c)) then set_tls None m else m in
        (on_stats count_destroyed m, Some wiped)
  end.

Definition ak_ctx_current (m : ctx_module) : option Z := cm_tls m.
Definition ak_ctx_set_current (c : option ak_ctx) (m : ctx_module) : ctx_module :=
  match c with
  | None => set_tls None m
  | Some c => if ctx_validate_magic c then set_tls (Some (cx_id c)) m else m
  end.

(** ** Mode *)

(** [AK_MODE_OFF] is refused: no build file defines
    [CONFIG_AK_ALLOW_MODE_OFF]. *)
Definition ak_ctx_set_mode (c : ak_ctx) (mode : Z) (m : ctx_module) : ctx_module * ak_ctx :=
  if negb (ctx_validate_magic c) then (m, c)
  else if AK_MODE_HARD <? mode then (m, c)
  else if mode =? AK_MODE_OFF then (m, c)
  else (if cx_mode c =? mode then m else on_stats count_mode m, set_cx_mode mode c).

Definition ak_ctx_get_mode (c : option ak_ctx) : Z :=
  match c with Some c => if ctx_validate_magic c then cx_mode c else AK_DEFAULT_MODE | None => AK_DEFAULT_MODE end.
Definition ak_ctx_default_mode : Z := AK_DEFAULT_MODE.

(** ** Boot capsule *)

Definition ak_ctx_boot_capsule_active (c : option ak_ctx) : bool :=
  match c with Some c => ctx_validate_magic c && cx_boot_capsule_active c | None => false end.

Definition ak_ctx_drop_boot_capsule (c : ak_ctx) (m : ctx_module) : ctx_module * ak_ctx :=
  if negb (ctx_validate_magic c) then (m, c)
  else if cx_boot_capsule_dropped c then (m, c)
  else (on_stats count_dropped m, set_cx_capsule false true c).

Definition ak_ctx_boot_capsule_was_dropped (c : option ak_ctx) : bool :=
  match c with Some c => ctx_validate_magic c && cx_boot_capsule_dropped c | None => false end.

(** ** Trace identifiers *)

Definition trace_id_of (id counter : Z) : Z := Z.lor (u64 (Z.shiftl (Z.land id 0xFFFF) 48)) (Z.land counter 0xFFFFFFFFFFFF).

Definition ak_trace_id_generate (c : ak_ctx) (m : ctx_module) : ctx_module * ak_ctx * Z :=
  if negb (ctx_validate_magic c) then (m, c, 0)
  else (on_stats count_trace m, set_cx_counter (u64 (cx_trace_counter c + 1)) c, trace_id_of (cx_id c) (cx_trace_counter c)).

(** ** Last denial *)

(** The strings are cut to their arrays, with a NUL in the last byte. *)
Definition deny_of (req : ak_effect_req) (d : ak_decision) (now_ns : Z) : ak_last_deny :=
  mk_last_deny (er_op req) (take (AK_MAX_TARGET - 1) (cstr (er_target req))) (take (AK_MAX_CAPSTR - 1) (cstr (de_missing_cap d)))
    (take (AK_MAX_SUGGEST - 1) (cstr (de_suggested_snippet d))) (er_trace_id req) (de_errno_equiv d) now_ns (de_reason_code d).

Definition ak_ctx_record_deny (c : ak_ctx) (req : ak_effect_req) (d : ak_decision) (now_ns : Z) (m : ctx_module) : ctx_module * ak_ctx :=
  if negb (ctx_validate_magic c) then (m, c) else (on_stats count_denial m, set_cx_last_deny (deny_of req d now_ns) c).

Definition ak_ctx_get_last_deny (c : option ak_ctx) : option ak_last_deny :=
  match c with
  | Some c => if negb (ctx_validate_magic c) then None else if ld_timestamp_ns (cx_last_deny c) =? 0 then None else Some (cx_last_deny c)
  | None => None
  end.
Definition ak_ctx_clear_last_deny (c : ak_ctx) : ak_ctx := if ctx_validate_magic c then set_cx_last_deny no_deny c else c.

(** ** Policy and agent *)

Definition ak_ctx_set_policy (c : ak_ctx) (p : option ak_policy_v2) : ak_ctx := if ctx_validate_magic c then set_cx_policy p c else c.
Definition ak_ctx_get_policy (c : option ak_ctx) : option ak_policy_v2 :=
  match c with Some c => if ctx_validate_magic c then cx_policy c else None | None => None end.
Definition ak_ctx_get_agent (c : option ak_ctx) : option bytes :=
  match c with Some c => if ctx_validate_magic c then cx_agent c else None | None => None end.
Definition ak_ctx_set_agent (c : ak_ctx) (a : option bytes) : ak_ctx := if ctx_validate_magic c then set_cx_agent a c else c.

(** ** Record mode ([ak_record.c]) *)

(** [heap]: the argument or the agent's heap is usable. *)
Definition ak_ctx_enable_record_mode (heap alloc : bool) (now_ms : Z) (c : ak_ctx) : ak_ctx * Z :=
  if negb heap then (c, - EINVAL)
  else
    match (match cx_record c with Some r => Some r | None => ak_record_init alloc end) with
    | None => (c, - ENOMEM)
    | Some r => (set_cx_mode AK_MODE_RECORD (set_cx_record (Some (ak_record_enable now_ms r)) c), 0)
    end.

Definition ak_ctx_disable_record_mode (c : ak_ctx) : ak_ctx :=
  set_cx_mode AK_MODE_SOFT (set_cx_record (ak_record_disable <$> cx_record c) c).

(** ** Trace identifiers are unambiguous *)

Lemma trace_id_value id n : 0 <= id < 65536 -> 0 <= n < 2 ^ 48 -> trace_id_of id n = n + id * 2 ^ 48.
Proof.
  intros Hid Hn. unfold trace_id_of. change 0xFFFF with (Z.ones 16). change 0xFFFFFFFFFFFF with (Z.ones 48).
  rewrite !Z.land_ones, !Z.mod_small by lia. unfold u64. rewrite Z.mod_small by (rewrite Z.shiftl_mul_pow2 by lia; lia).
  rewrite Z.lor_comm, lor_shift_add by lia. done.
Qed.

Lemma trace_id_inj id n id' n' :
  0 <= id < 65536 -> 0 <= id' < 65536 -> 0 <= n < 2 ^ 48 -> 0 <= n' < 2 ^ 48 -> trace_id_of id n = trace_id_of id' n' -> id = id' /\ n = n'.
Proof. intros. rewrite !trace_id_value in * by done. lia. Qed.
