(* ===== verification/Effects.v ===== *)
(** * Effect requests and the authority gate ([src/src/agentic/ak_effects.c])

    System calls become effect requests with canonical targets; one function,
    [ak_authorize_and_execute], decides them.  A builder returns the module, the
    context (whose trace counter it advances) and an errno or the request; an
    output pointer that every caller passes is an output.

    Theorems: the gate allows exactly what its context's policy grants, explains
    and remembers every refusal, and counts every request once. *)

From S2P Require Import Prelude Pattern Json PathGlob PolicyV2 CanonPath FdTable Record Context.

Definition ECONNREFUSED : Z := 111.
Definition ENETUNREACH : Z := 101.

(** ** Requests *)

(** The first eight bytes of the pid, little-endian, as a [pid_t]. *)
Definition ak_get_agent_pid (agent : bytes) : Z := s32 (le_dec (take 8 agent)).
Definition ak_get_agent_tid (agent : bytes) : Z := u64 (ak_get_agent_pid agent).

Definition no_budget : ak_req_budget := mk_req_budget 0 0 0 0.

Definition ak_effect_req_init (m : ctx_module) (c : ak_ctx) (op : Z) : ctx_module * ak_ctx * ak_effect_req :=
  let '(m, c, trace) := ak_trace_id_generate c m in
  let '(pid, tid) := match cx_agent c with Some a => (ak_get_agent_pid a, ak_get_agent_tid a) | None => (0, 0) end in
  (m, c, mk_effect op trace pid tid [] [] no_budget 0).

Definition fill (target params : bytes) (budget : ak_req_budget) (r : ak_effect_req) : ak_effect_req :=
  mk_effect (er_op r) (er_trace_id r) (er_pid r) (er_tid r) target params budget (er_flags r).

Definition built : Type := ctx_module * ak_ctx * (Z + ak_effect_req).

(** Initialise the request, then fill it from an errno or a target. *)
Definition build (m : ctx_module) (c : ak_ctx) (op : Z) (target : Z + bytes) (params : bytes) (budget : ak_req_budget) : built :=
  let '(m, c, r) := ak_effect_req_init m c op in
  (m, c, match target with inl e => inl e | inr t => inr (fill t params budget r) end).

Definition no_params : bytes := B"{}".
Definition low16 (v : Z) : bytes := ak_format_u16 (Z.land v 0xFFFF).
Definition canonical_root (path : bytes) : Z + bytes := ak_canonicalize_path (Some path) AK_MAX_TARGET (Some [SLASH]).

Definition open_params_text (flags mode : Z) : bytes := JQ"{'f':" ++ low16 flags ++ JQ",'m':" ++ low16 mode ++ B"}".

Definition ak_effect_from_open (m : ctx_module) (c : ak_ctx) (path : option bytes) (flags mode : Z) : built :=
  match path with
  | None => (m, c, inl (- EINVAL))
  | Some path => build m c AK_E_FS_OPEN (canonical_root path) (open_params_text flags mode) no_budget
  end.

(** A buffer that already holds a path is passed on as that path. *)
Definition ak_effect_from_openat (m : ctx_module) (c : ak_ctx) (fds : fd_state) (dirfd : Z) (path : option bytes) (flags mode : Z) : fd_state * built :=
  match path with
  | None => (fds, (m, c, inl (- EINVAL)))
  | Some p =>
      if at_char SLASH (cstr p) then (fds, ak_effect_from_open m c path flags mode)
      else if dirfd =? AT_FDCWD then
        let cwd := match ak_fd_table_get_cwd fds AK_MAX_TARGET with inl _ => [SLASH] | inr cwd => cwd end in
        (fds, match ak_canonicalize_path path AK_MAX_TARGET (Some cwd) with
              | inl e => (m, c, inl e)
              | inr full => ak_effect_from_open m c (Some full) flags mode
              end)
      else
        let '(fds, r) := ak_fd_table_resolve_at fds dirfd path AK_MAX_TARGET in
        (fds, match r with inl e => (m, c, inl e) | inr full => ak_effect_from_open m c (Some full) flags mode end)
  end.

Definition ak_effect_from_unlink (m : ctx_module) (c : ak_ctx) (path : option bytes) : built :=
  match path with
  | None => (m, c, inl (- EINVAL))
  | Some path => build m c AK_E_FS_UNLINK (canonical_root path) no_params no_budget
  end.

Definition ak_effect_from_rename (m : ctx_module) (c : ak_ctx) (oldpath newpath : option bytes) : built :=
  match oldpath, newpath with
  | Some old, Some new =>
      let '(target, params) :=
        match canonical_root new, canonical_root old with
        | inl e, _ => (inl e, [])
        | inr _, inl e => (inl e, [])
        | inr t, inr src =>
            (inr t, JQ"{'src':'" ++ (if (length (JQ"{'src':'") + length src + 4 <? AK_MAX_PARAMS)%nat then src else []) ++ JQ"'}")
        end in
      build m c AK_E_FS_RENAME target params no_budget
  | _, _ => (m, c, inl (- EINVAL))
  end.

Definition ak_effect_from_mkdir (m : ctx_module) (c : ak_ctx) (path : option bytes) (mode : Z) : built :=
  match path with
  | None => (m, c, inl (- EINVAL))
  | Some path => build m c AK_E_FS_MKDIR (canonical_root path) (JQ"{'m':" ++ low16 mode ++ B"}") no_budget
  end.

Definition from_sockaddr (op : Z) (m : ctx_module) (c : ak_ctx) (addr : option bytes) (addrlen : Z) : built :=
  match addr with
  | None => (m, c, inl (- EINVAL))
  | Some _ => build m c op (ak_canonicalize_sockaddr addr addrlen AK_MAX_TARGET) no_params no_budget
  end.
Definition ak_effect_from_connect : ctx_module -> ak_ctx -> option bytes -> Z -> built := from_sockaddr AK_E_NET_CONNECT.
Definition ak_effect_from_bind : ctx_module -> ak_ctx -> option bytes -> Z -> built := from_sockaddr AK_E_NET_BIND.

(** [ak_get_socket_bound_addr] ([ak_posix_route.c]) answers [-ENOENT] to
    every call with a buffer, so the wildcard stays. *)
Definition ak_get_socket_bound_addr (addrlen : Z) : Z := if addrlen <? 16 then - EINVAL else - ENOENT.

Definition ak_effect_from_listen (m : ctx_module) (c : ak_ctx) (backlog : Z) : built :=
  build m c AK_E_NET_LISTEN (inr (if ak_get_socket_bound_addr 64 =? 0 then [] else B"ip:*:*")) (JQ"{'b':" ++ low16 backlog ++ B"}") no_budget.

(** [prefix], the name, and [extra] more bytes must fit. *)
Definition named (prefix name : bytes) (extra : nat) : Z + bytes :=
  if (AK_MAX_TARGET <=? length prefix + length (cstr name) + extra)%nat then inl (- ERANGE) else inr (prefix ++ cstr name).

Definition ak_effect_from_dns_resolve (m : ctx_module) (c : ak_ctx) (hostname : option bytes) : built :=
  match hostname with
  | None => (m, c, inl (- EINVAL))
  | Some h => build m c AK_E_NET_DNS_RESOLVE (named B"dns:" h 0) no_params no_budget
  end.

(** [<prefix><name>:] and then a second part that must fit. *)
Definition named_pair (prefix name part : bytes) : Z + bytes :=
  match named prefix name 2 with
  | inl e => inl e
  | inr t => named (t ++ B":") part 0
  end.

Definition args_params (args : option bytes) : bytes :=
  match args with Some (b :: rest) => take AK_MAX_PARAMS (b :: rest) | _ => no_params end.

(** Without a version the single [*] always fits. *)
Definition ak_effect_from_tool_call (m : ctx_module) (c : ak_ctx) (tool_name version args : option bytes) : built :=
  match tool_name with
  | None => (m, c, inl (- EINVAL))
  | Some name =>
      build m c AK_E_TOOL_CALL
        (match version with
         | Some v => named_pair B"tool:" name v
         | None => match named B"tool:" name 2 with inl e => inl e | inr t => inr (t ++ B":*") end
         end) (args_params args) no_budget
  end.

Definition ak_effect_from_wasm_invoke (m : ctx_module) (c : ak_ctx) (module function args : option bytes) : built :=
  match module, function with
  | Some mo, Some f => build m c AK_E_WASM_INVOKE (named_pair B"wasm:" mo f) (args_params args) no_budget
  | _, _ => (m, c, inl (- EINVAL))
  end.

(** [latest] is copied without a test: what passes the end of [target] lies in
    [params], whose first two bytes are written afterwards. *)
Definition latest_target (t : bytes) : bytes :=
  let raw := t ++ B":latest" in
  if (length raw <? AK_MAX_TARGET)%nat then raw else cstr (splice AK_MAX_TARGET no_params (raw ++ zeros 4)).

Definition ak_effect_from_infer (m : ctx_module) (c : ak_ctx) (model version : option bytes) (max_tokens : Z) : built :=
  match model with
  | None => (m, c, inl (- EINVAL))
  | Some name =>
      build m c AK_E_INFER
        (match version with
         | Some v => named_pair B"model:" name v
         | None => match named B"model:" name 2 with inl e => inl e | inr t => inr (latest_target t) end
         end) no_params (mk_req_budget 0 0 0 max_tokens)
  end.

(** [argc] counts the pointers before NULL, at most 64. *)
Definition ak_effect_from_spawn (m : ctx_module) (c : ak_ctx) (program : option bytes) (argv : option nat) (flags : Z) : built :=
  match program with
  | None => (m, c, inl (- EINVAL))
  | Some p =>
      build m c AK_E_PROC_SPAWN (named B"spawn:" p 0)
        (JQ"{'f':" ++ low16 flags ++
         (match argv with Some n => JQ",'ac':" ++ low16 (Z.of_nat (Nat.min n 64)) | None => [] end) ++ B"}") no_budget
  end.

(** The two halves of the pid, one behind the other. *)
Definition pid_text (target_pid : Z) : bytes :=
  let pid_val := if 0 <=? target_pid then target_pid else 0 in
  ak_format_u16 (u16 (Z.shiftr pid_val 16)) ++ ak_format_u16 (u16 pid_val).

Definition ak_effect_from_signal (m : ctx_module) (c : ak_ctx) (target_pid signum : Z) : built :=
  build m c AK_E_PROC_SIGNAL (inr (B"signal:" ++ pid_text target_pid ++ B":" ++ low16 signum))
    (JQ"{'p':" ++ pid_text target_pid ++ JQ",'s':" ++ low16 signum ++ B"}") no_budget.

Definition ak_effect_from_wait (m : ctx_module) (c : ak_ctx) (target_pid options : Z) : built :=
  build m c AK_E_PROC_WAIT (inr (B"wait:" ++ (if target_pid =? -1 then B"*" else pid_text target_pid)))
    (JQ"{'o':" ++ low16 options ++ B"}") no_budget.

(** ** Denials *)

Definition ak_map_deny_to_errno (op reason : Z) : Z :=
  let category := Z.land (Z.shiftr op 8) 255 in
  if category =? 1 then
    if is_op [AK_DENY_NO_CAP; AK_DENY_PATTERN_MISMATCH] reason then EACCES
    else if is_op [AK_DENY_NO_POLICY; AK_DENY_REVOKED] reason then EPERM
    else if reason =? AK_DENY_BUDGET_EXCEEDED then ENOSPC else EACCES
  else if category =? 2 then
    if is_op [AK_DENY_NO_CAP; AK_DENY_PATTERN_MISMATCH] reason then ECONNREFUSED
    else if reason =? AK_DENY_RATE_LIMITED then EAGAIN else ENETUNREACH
  else if category =? 3 then EPERM
  else if category =? 4 then
    if reason =? AK_DENY_BUDGET_EXCEEDED then ENOSPC else if reason =? AK_DENY_RATE_LIMITED then EAGAIN else EPERM
  else EPERM.

Record ak_effects_stats := mk_effects_stats { st_total : Z; st_allowed : Z; st_denied : Z; st_by_op : list Z; st_deny_reasons : list Z }.

(** The statistics, the log limiter of the thread and its hard-mode flag. *)
Record effects_state := mk_effects_state {
  ef_stats : ak_effects_stats; ef_window_start_ns : Z; ef_count_per_op : list Z; ef_in_authorized_effect : bool }.

Definition AK_DENY_RATE_LIMIT_WINDOW_NS : Z := 1000000000.
Definition AK_DENY_RATE_LIMIT_MAX : Z := 10.

Definition bump_at (i : nat) (l : list Z) : list Z := alter (fun v => u64 (v + 1)) i l.

(** Whether to log, at the clock [now]. *)
Definition ak_should_log_deny (now op : Z) (e : effects_state) : effects_state * bool :=
  let now_ns := u64 (now * 1000) in
  let category := Z.to_nat (Z.land (Z.shiftr op 8) 15) in
  let '(start, counts) :=
    if AK_DENY_RATE_LIMIT_WINDOW_NS <? u64 (now_ns - ef_window_start_ns e) then (now_ns, zeros 16) else (ef_window_start_ns e, ef_count_per_op e) in
  if AK_DENY_RATE_LIMIT_MAX <=? default 0 (counts !! category) then (mk_effects_state (ef_stats e) start counts (ef_in_authorized_effect e), false)
  else (mk_effects_state (ef_stats e) start (alter (fun v => u32 (v + 1)) category counts) (ef_in_authorized_effect e), true).

(** ** [ak_generate_suggestion] *)

(** [head], then the body and [tail] if they fit with [extra] more bytes. *)
Definition snippet (max_len : nat) (head body tail : bytes) (extra : nat) : bytes :=
  if (length head + length body + extra <? max_len)%nat then head ++ body ++ tail else take max_len head.

Definition ak_generate_suggestion (req : ak_effect_req) (max_len : nat) : bytes :=
  let op := er_op req in
  let target := cstr (er_target req) in
  let category := Z.land (Z.shiftr op 8) 255 in
  let q := [34] in
  if (max_len <? 64)%nat then []
  else if category =? 1 then
    let head := B"[[fs.allow]]" ++ 10 :: B"path = " ++ q in
    if op =? AK_E_FS_OPEN then snippet max_len head target (34 :: 10 :: B"read = true") 15
    else if is_op [AK_E_FS_UNLINK; AK_E_FS_RENAME; AK_E_FS_MKDIR] op then snippet max_len head target (34 :: 10 :: B"write = true") 16
    else B"# Add fs.allow rule"
  else if category =? 2 then
    if op =? AK_E_NET_CONNECT then snippet max_len (B"[[net.allow]]" ++ 10 :: B"pattern = " ++ q) target (34 :: 10 :: B"connect = true") 18
    else if op =? AK_E_NET_DNS_RESOLVE then snippet max_len (B"[[dns.allow]]" ++ 10 :: B"pattern = " ++ q) (strip B"dns:" target) q 2
    else B"# Add net.allow rule"
  else if category =? 4 then
    if op =? AK_E_TOOL_CALL then snippet max_len (B"[[tools.allow]]" ++ 10 :: B"name = " ++ q) (upto_colon (strip B"tool:" target)) q 2
    else if op =? AK_E_INFER then snippet max_len (B"[[inference.allow]]" ++ 10 :: B"model = " ++ q) (upto_colon (strip B"model:" target)) q 2
    else if op =? AK_E_AGENT_SEND then snippet max_len (B"[[ipc.allow]]" ++ 10 :: B"agent = " ++ q) (upto_colon (strip B"agent:" target)) q 2
    else B"# Add agentic allow rule"
  else B"# Add allow rule for this operation".

(** ** The gate *)

(** The readings of [ak_now] in one call, and the allocation of a record. *)
Record gate_env := mk_gate_env { ge_start : Z; ge_end : Z; ge_deny : Z; ge_log : Z; ge_alloc : bool }.

Definition with_ef_stats (f : ak_effects_stats -> ak_effects_stats) (e : effects_state) : effects_state :=
  mk_effects_state (f (ef_stats e)) (ef_window_start_ns e) (ef_count_per_op e) (ef_in_authorized_effect e).
Definition ak_set_in_authorized_effect (v : bool) (e : effects_state) : effects_state :=
  mk_effects_state (ef_stats e) (ef_window_start_ns e) (ef_count_per_op e) v.

Definition count_request (op : Z) (s : ak_effects_stats) : ak_effects_stats :=
  mk_effects_stats (u64 (st_total s + 1)) (st_allowed s) (st_denied s) (bump_at (Z.to_nat (Z.land (Z.shiftr op 8) 15)) (st_by_op s)) (st_deny_reasons s).
Definition count_allowed (s : ak_effects_stats) : ak_effects_stats :=
  mk_effects_stats (st_total s) (u64 (st_allowed s + 1)) (st_denied s) (st_by_op s) (st_deny_reasons s).
Definition count_denied (reason : Z) (s : ak_effects_stats) : ak_effects_stats :=
  mk_effects_stats (st_total s) (st_allowed s) (u64 (st_denied s + 1)) (st_by_op s)
    (if reason <? 16 then bump_at (Z.to_nat reason) (st_deny_reasons s) else st_deny_reasons s).

(** [runtime_strncpy] into the arrays of [last_deny]. *)
Definition gate_deny (req : ak_effect_req) (d : ak_decision) (now : Z) : ak_last_deny :=
  mk_last_deny (er_op req) (take AK_MAX_TARGET (cstr (er_target req))) (take AK_MAX_CAPSTR (cstr (de_missing_cap d)))
    (take AK_MAX_SUGGEST (cstr (de_suggested_snippet d))) (er_trace_id req) (de_errno_equiv d) now (de_reason_code d).

(** Remember, log and count a refusal. *)
Definition refuse (env : gate_env) (e : effects_state) (c : ak_ctx) (req : ak_effect_req) (d : ak_decision) : effects_state * ak_ctx * ak_decision * Z :=
  let c := set_cx_last_deny (gate_deny req d (ge_deny env)) c in
  let '(e, _) := ak_should_log_deny (ge_log env) (er_op req) e in
  (with_ef_stats (count_denied (de_reason_code d)) e, c, d, - de_errno_equiv d).

Definition set_allow (ns : Z) (d : ak_decision) : ak_decision :=
  mk_decision true AK_DENY_NONE 0 (de_missing_cap d) (de_suggested_snippet d) (de_trace_id d) (de_detail d) ns.

Definition plain_decision (allow : bool) (reason errno : Z) (cap snip detail : bytes) (trace : Z) : ak_decision :=
  mk_decision allow reason errno cap snip trace detail 0.

(** Record mode: a request the policy refuses is recorded and allowed. *)
Definition record_gate (env : gate_env) (e : effects_state) (c : ak_ctx) (req : ak_effect_req) : effects_state * ak_ctx * ak_decision * Z :=
  let '(would_allow, d) :=
    match cx_policy c with
    | Some _ => ak_policy_v2_check (cx_policy c) (Some req)
    | None => (false, plain_decision false AK_DENY_NONE 0 [] [] [] (er_trace_id req))
    end in
  let '(e, c, d) :=
    if would_allow then (e, c, d)
    else
      let c := match cx_record c with
               | Some r => if rs_enabled r then set_cx_record (Some (ak_record_effect (ge_alloc env) r req).1) c else c
               | None => c
               end in
      let d := match de_suggested_snippet d with
               | [] => mk_decision (de_allow d) (de_reason_code d) (de_errno_equiv d) (de_missing_cap d) (ak_generate_suggestion req AK_MAX_SUGGEST)
                         (de_trace_id d) (de_detail d) (de_decision_ns d)
               | _ => d
               end in
      ((ak_should_log_deny (ge_log env) (er_op req) e).1, c, d) in
  (ak_set_in_authorized_effect true (with_ef_stats count_allowed e), c, set_allow (u64 (ge_end env - ge_start env)) d, 0).

(** The policy decides. *)
Definition policy_gate (env : gate_env) (e : effects_state) (c : ak_ctx) (req : ak_effect_req) : effects_state * ak_ctx * ak_decision * Z :=
  match cx_policy c with
  | None =>
      refuse env e c req (plain_decision false AK_DENY_NO_POLICY EPERM B"policy.loaded" B"# Load policy: ak_policy_v2_load()"
        B"No policy loaded - deny by default" (er_trace_id req))
  | Some _ =>
      let '(allowed, d) := ak_policy_v2_check (cx_policy c) (Some req) in
      let ns := u64 (ge_end env - ge_start env) in
      if allowed then (ak_set_in_authorized_effect true (with_ef_stats count_allowed e), c, set_allow ns d, 0)
      else
        let errno := if de_errno_equiv d =? 0 then ak_map_deny_to_errno (er_op req) (de_reason_code d) else de_errno_equiv d in
        let snip := match de_suggested_snippet d with [] => ak_generate_suggestion req AK_MAX_SUGGEST | s => s end in
        refuse env e c req (mk_decision false (de_reason_code d) errno (de_missing_cap d) snip (de_trace_id d) (de_detail d) ns)
  end.

(** [None] in place of the decision: the code returned before it wrote one. *)
Definition ak_authorize_and_execute (env : gate_env) (e : effects_state) (c : ak_ctx) (req : ak_effect_req) :
    effects_state * ak_ctx * option ak_decision * Z :=
  if (er_op req <? 0x0100) || (0x0500 <? er_op req) then (e, c, None, - EINVAL)
  else if (AK_MAX_PARAMS <? length (er_params req))%nat then (e, c, None, - EINVAL)
  else
    let e := with_ef_stats (count_request (er_op req)) e in
    let trace := er_trace_id req in
    let '(e, c, d, r) :=
      if cx_mode c =? AK_MODE_OFF then (with_ef_stats count_allowed e, c, plain_decision true AK_DENY_NONE 0 [] [] [] trace, 0)
      else if cx_mode c =? AK_MODE_RECORD then record_gate env e c req
      else if ak_ctx_boot_capsule_active (Some c) then
        if er_op req =? AK_E_FS_OPEN then (with_ef_stats count_allowed e, c, plain_decision true AK_DENY_NONE 0 [] [] [] trace, 0)
        else
          let d := plain_decision false AK_DENY_BOOT_CAPSULE EPERM B"boot.complete" B"# Wait for boot capsule to drop"
            B"Operation denied during boot capsule phase" trace in
          refuse env e c req d
      else policy_gate env e c req in
    (e, c, Some d, r).

Definition ak_get_last_deny (c : option ak_ctx) : option ak_last_deny := cx_last_deny <$> c.
Definition ak_clear_last_deny (c : ak_ctx) : ak_ctx := set_cx_last_deny no_deny c.
Definition ak_effects_get_stats (e : effects_state) : ak_effects_stats := ef_stats e.
Definition ak_is_in_authorized_effect (e : effects_state) : bool := ef_in_authorized_effect e.
Definition ak_effects_init (e : effects_state) : effects_state :=
  mk_effects_state (mk_effects_stats 0 0 0 (zeros 16) (zeros 16)) (ef_window_start_ns e) (ef_count_per_op e) (ef_in_authorized_effect e).

(** ** What the gate promises *)

(** A context in force: valid, soft or hard mode, past its boot capsule. *)
Definition in_force (c : ak_ctx) : Prop :=
  ctx_validate_magic c = true /\ cx_mode c ∈ [AK_MODE_SOFT; AK_MODE_HARD] /\ cx_boot_capsule_active c = false.

(** What the types of a request guarantee. *)
Definition wf_req (req : ak_effect_req) : Prop := 0x0100 <= er_op req <= 0x0500 /\ (length (er_params req) <= AK_MAX_PARAMS)%nat.

(** The policy in force grants the request. *)
Definition authorised (c : ak_ctx) (req : ak_effect_req) : Prop :=
  exists p, cx_policy c = Some p /\ p2_fail_closed p = false /\ grants p req /\ within_budgets p req.

Lemma should_log_keeps now op e : ef_stats (ak_should_log_deny now op e).1 = ef_stats e /\
  ef_in_authorized_effect (ak_should_log_deny now op e).1 = ef_in_authorized_effect e.
Proof. unfold ak_should_log_deny. repeat case_match; simplify_eq; done. Qed.

Lemma refuse_spec env e c req d :
  let '(e', c', d', r) := refuse env e c req d in
  d' = d /\ r = - de_errno_equiv d /\ c' = set_cx_last_deny (gate_deny req d (ge_deny env)) c /\
  ef_in_authorized_effect e' = ef_in_authorized_effect e /\ st_total (ef_stats e') = st_total (ef_stats e) /\
  st_allowed (ef_stats e') = st_allowed (ef_stats e) /\ st_denied (ef_stats e') = u64 (st_denied (ef_stats e) + 1).
Proof.
  unfold refuse. destruct (should_log_keeps (ge_log env) (er_op req) e) as [Hs Hf].
  destruct (ak_should_log_deny _ _ _) as [e1 b]. cbn in *. rewrite Hs, Hf. done.
Qed.

Lemma cstr_take_nonempty s n : s <> [] -> nonul s -> (0 < n)%nat -> take n (cstr s) <> [].
Proof. intros Hs Hn Hl. rewrite cstr_nonul_id by done. destruct s, n; done || lia. Qed.

(** The outcome of a decided request. *)
Record decided (e e' : effects_state) (c c' : ak_ctx) (req : ak_effect_req) (d : ak_decision) (r : Z) : Prop := {
  dc_allow : de_allow d = bool_decide (r = 0);
  dc_trace : de_trace_id d = er_trace_id req;
  dc_allowed : r = 0 -> c' = c /\ ef_in_authorized_effect e' = true /\ st_allowed (ef_stats e') = u64 (st_allowed (ef_stats e) + 1) /\
    st_denied (ef_stats e') = st_denied (ef_stats e);
  dc_refused : r <> 0 -> r = - de_errno_equiv d /\ de_errno_equiv d ∈ [EPERM; EACCES] /\ ef_in_authorized_effect e' = ef_in_authorized_effect e /\
    st_allowed (ef_stats e') = st_allowed (ef_stats e) /\ st_denied (ef_stats e') = u64 (st_denied (ef_stats e) + 1) /\
    de_reason_code d <> AK_DENY_NONE /\ de_missing_cap d <> [] /\ de_suggested_snippet d <> [] /\
    exists now, c' = set_cx_last_deny (gate_deny req d now) c;
  dc_total : st_total (ef_stats e') = st_total (ef_stats e) }.

Lemma policy_gate_decides env e c req :
  let '(e', c', d, r) := policy_gate env e c req in decided e e' c c' req d r /\ (r = 0 <-> authorised c req).
Proof.
  unfold policy_gate, authorised. destruct (cx_policy c) as [p|] eqn:Hp.
  - pose proof (check_true p req) as Ht. pose proof (check_decision (Some p) req) as Hd.
    assert (Hsnip : (ak_policy_v2_check (Some p) (Some req)).1 = false ->
      de_suggested_snippet (ak_policy_v2_check (Some p) (Some req)).2 = ak_policy_v2_suggest req AK_MAX_SUGGEST).
    { unfold ak_policy_v2_check. repeat case_match; done. }
    destruct (ak_policy_v2_check (Some p) (Some req)) as [[|] d] eqn:E; cbn [fst snd] in *.
    + destruct Hd as (_ & Htr & _). split; [split; cbn; done|]. split; [|done]. intros _. exists p. split; [done|by apply Ht].
    + destruct Hd as (_ & Htr & Hr). destruct (Hr eq_refl) as (Hrc & Her & Hcap). specialize (Hsnip eq_refl).
      assert (He0 : de_errno_equiv d <> 0) by (rewrite !elem_of_cons, elem_of_nil in Her; unfold EPERM, EACCES in Her; lia).
      rewrite (proj2 (Z.eqb_neq _ _) He0).
      pose proof (suggest_nonempty req) as Hne. rewrite <-Hsnip in Hne.
      replace (match de_suggested_snippet d with [] => ak_generate_suggestion req AK_MAX_SUGGEST | s => s end) with (de_suggested_snippet d)
        by (by destruct (de_suggested_snippet d)).
      set (d' := mk_decision _ _ _ _ _ _ _ _). pose proof (refuse_spec env e c req d') as Hrs.
      destruct (refuse env e c req d') as [[[e' c'] d''] r]. destruct Hrs as (-> & -> & -> & H1 & H2 & H3 & H4).
      split; [|split; [cbn; lia|intros (p' & [= <-] & Hg); by apply Ht in Hg]].
      split; cbn; [by rewrite bool_decide_eq_false_2 by lia|done|lia| |done].
      intros _. split_and!; eauto.
  - set (d' := plain_decision _ _ _ _ _ _ _). pose proof (refuse_spec env e c req d') as Hrs.
    destruct (refuse env e c req d') as [[[e' c'] d''] r]. destruct Hrs as (-> & -> & -> & H1 & H2 & H3 & H4).
    split; [|split; [done|by intros (p & ? & _)]]. split; cbn; [done|done|done| |done]. intros _. split_and!; try done; [set_solver|eauto].
Qed.

(** In force, the gate is the policy's decision. *)
Lemma gate_in_force env e c req :
  in_force c -> wf_req req ->
  ak_authorize_and_execute env e c req =
  let '(e', c', d, r) := policy_gate env (with_ef_stats (count_request (er_op req)) e) c req in (e', c', Some d, r).
Proof.
  intros (Hv & Hm & Hb) (Hop & Hp). unfold ak_authorize_and_execute.
  replace (er_op req <? 256) with false by (symmetry; apply Z.ltb_ge; lia). replace (1280 <? er_op req) with false by (symmetry; apply Z.ltb_ge; lia).
  replace (AK_MAX_PARAMS <? length (er_params req))%nat with false by (symmetry; apply Nat.ltb_ge; lia). cbn [orb].
  assert (Hm' : (cx_mode c =? AK_MODE_OFF) = false /\ (cx_mode c =? AK_MODE_RECORD) = false)
    by (rewrite !elem_of_cons, elem_of_nil in Hm; destruct Hm as [->|[->|[]]]; done).
  destruct Hm' as [-> ->]. cbn [ak_ctx_boot_capsule_active]. rewrite Hv, Hb. done.
Qed.

(** C4: The authority gate is a reference monitor: for a context in force and
    every well-formed request it decides, returns 0 exactly when the context's
    policy is active, grants the effect and fits its budgets, and otherwise
    returns [-EPERM] or [-EACCES], for network effects too, with a reason, the
    missing capability and a suggested rule, remembers the refusal in the
    context and leaves the mode, the policy and the capsule alone; every request
    is counted once in the 64-bit totals, as allowed or as denied; and the
    hard-mode flag is raised only by a grant. *)
Theorem gate_is_reference_monitor env e c req :
  in_force c -> wf_req req ->
  let '(e', c', od, r) := ak_authorize_and_execute env e c req in
  exists d, od = Some d /\ (r = 0 <-> authorised c req) /\
    de_allow d = bool_decide (r = 0) /\ de_trace_id d = er_trace_id req /\
    (r = 0 -> c' = c) /\
    (r <> 0 -> r ∈ [- EPERM; - EACCES] /\ de_reason_code d <> AK_DENY_NONE /\ de_missing_cap d <> [] /\ de_suggested_snippet d <> [] /\
       exists now, c' = set_cx_last_deny (gate_deny req d now) c) /\
    st_total (ef_stats e') = u64 (st_total (ef_stats e) + 1) /\
    st_allowed (ef_stats e') = (if decide (r = 0) then u64 (st_allowed (ef_stats e) + 1) else st_allowed (ef_stats e)) /\
    st_denied (ef_stats e') = (if decide (r = 0) then st_denied (ef_stats e) else u64 (st_denied (ef_stats e) + 1)) /\
    (ef_in_authorized_effect e' = true -> ef_in_authorized_effect e = true \/ r = 0).
Proof.
  intros Hc Hw. rewrite (gate_in_force env e c req Hc Hw).
  pose proof (policy_gate_decides env (with_ef_stats (count_request (er_op req)) e) c req) as Hd.
  destruct (policy_gate _ _ _ _) as [[[e' c'] d] r]. destruct Hd as [[Ha Ht Hok Hno Htot] Hiff].
  exists d. cbn in Hok, Hno, Htot. destruct (decide (r = 0)) as [Hr|Hr].
  - destruct (Hok Hr) as (-> & Hf & Hal & Hde). split_and!; try done; try lia; by right.
  - destruct (Hno Hr) as (Hrr & Hin & Hf & Hal & Hde & ? & ? & ? & ?). split_and!; try done; try lia.
    + intros _. split_and!; try done. rewrite Hrr, !elem_of_cons. apply elem_of_cons in Hin as [->|Hin]; [by left|].
      apply elem_of_cons in Hin as [->|Hin]; [by right; left|inversion Hin].
    + rewrite Hf. by left.
Qed.

(** A context with the policy [demo_policy2], past its capsule. *)
Definition demo_ctx : ak_ctx := mk_ctx AK_CTX_MAGIC 3 None AK_MODE_SOFT no_deny (Some demo_policy2) false true 9 None.
Definition demo_ctx_boot : ak_ctx := mk_ctx AK_CTX_MAGIC 3 None AK_MODE_SOFT no_deny None true false 0 None.
Definition demo_effects : effects_state := mk_effects_state (mk_effects_stats 0 0 0 (zeros 16) (zeros 16)) 0 (zeros 16) false.
Definition demo_env : gate_env := mk_gate_env 10 20 30 40 true.

Lemma gate_is_reference_monitor_witness :
  (ak_authorize_and_execute demo_env demo_effects demo_ctx (demo_effect AK_E_FS_STAT B"/etc/hosts" [])).2 = 0 /\
  ~ authorised demo_ctx (demo_effect AK_E_FS_UNLINK B"/etc/hosts" []) /\
  authorised demo_ctx (demo_effect AK_E_FS_STAT B"/etc/hosts" []).
Proof.
  assert (Hf : in_force demo_ctx) by (split_and!; [reflexivity|left|reflexivity]).
  assert (Hw : forall op t, 0x0100 <= op <= 0x0500 -> wf_req (demo_effect op t [])) by (intros; split; [done|cbn; unfold AK_MAX_PARAMS; lia]).
  split; [vm_compute; reflexivity|]. split.
  - pose proof (gate_is_reference_monitor demo_env demo_effects demo_ctx (demo_effect AK_E_FS_UNLINK B"/etc/hosts" []) Hf
      (Hw AK_E_FS_UNLINK B"/etc/hosts" ltac:(vm_compute; split; discriminate))) as H.
    destruct (ak_authorize_and_execute _ _ _ _) as [[[e' c'] od] r] eqn:E. destruct H as (d & _ & H & _). intros Ha. apply H in Ha. subst r.
    apply (f_equal snd) in E. vm_compute in E. discriminate.
  - pose proof (gate_is_reference_monitor demo_env demo_effects demo_ctx (demo_effect AK_E_FS_STAT B"/etc/hosts" []) Hf
      (Hw AK_E_FS_STAT B"/etc/hosts" ltac:(vm_compute; split; discriminate))) as H.
    destruct (ak_authorize_and_execute _ _ _ _) as [[[e' c'] od] r] eqn:E. destruct H as (d & _ & H & _). apply H.
    apply (f_equal snd) in E. vm_compute in E. by symmetry.
Defined.

(** ** Where the gate and the builders leave their description *)

(** The boot capsule lets every open pass, also one that writes. *)
Example boot_capsule_allows_writes :
  (ak_authorize_and_execute demo_env demo_effects demo_ctx_boot (demo_effect AK_E_FS_OPEN B"/etc/shadow" (open_params_text 577 0))).2 = 0.
Proof. vm_compute. reflexivity. Qed.

(** Two pids share a text, and a small pid is not written as itself. *)
Example signal_pid_ambiguous : pid_text 65547 = pid_text 720897 /\ pid_text 11 = B"011".
Proof. split; vm_compute; reflexivity. Qed.

(** A long model name without a version overruns the target. *)
Example infer_target_overrun :
  exists t, named B"model:" (replicate 503 97) 2 = inr t /\ (AK_MAX_TARGET < length (t ++ B":latest"))%nat.
Proof. eexists. split; [vm_compute; reflexivity|]. vm_compute. lia. Qed.
