(* ===== verification/PosixRoute.v ===== *)
(** * Routing of system calls ([src/src/agentic/ak_posix_route.c])

    Every system call hook builds an effect request and asks the gate; it
    returns 0 when the call may proceed and a negative errno otherwise.  The
    state of a thread is the context module, its current context, the
    descriptor table, the state of the gate and the statistics.

    Theorems: in every run of system calls and context operations, a hook lets a
    call proceed only when the policy in force grants the request it built; and
    an open that proceeds is confined to the scopes of the policy after
    resolving its path. *)

From S2P Require Import Prelude Pattern Json Policy PathGlob PolicyDoc PolicyText PolicyV2 CanonPath FdTable Record Context Effects.

Definition AT_REMOVEDIR : Z := 0x200.

(** The counters of [ak_posix_route_stats_t]. *)
Inductive route_counter :=
| total_routed | total_bypassed | total_allowed | total_denied | open_calls | openat_calls | unlink_calls | mkdir_calls | rename_calls
| connect_calls | bind_calls | listen_calls | dns_calls | spawn_calls | fs_denials | net_denials | proc_denials | hard_mode_blocks.
#[global] Instance route_counter_eq : EqDecision route_counter.
Proof. solve_decision. Defined.

Definition route_stats : Type := route_counter -> Z.
Definition bump (k : route_counter) (st : route_stats) : route_stats := fun k' => if decide (k' = k) then st k + 1 else st k'.

Record posix_state := mk_posix { px_mod : ctx_module; px_ctx : option ak_ctx; px_fd : fd_state; px_eff : effects_state; px_stats : route_stats }.

Definition count (k : route_counter) (s : posix_state) : posix_state := mk_posix (px_mod s) (px_ctx s) (px_fd s) (px_eff s) (bump k (px_stats s)).
Definition put_fd (f : fd_state) (s : posix_state) : posix_state := mk_posix (px_mod s) (px_ctx s) f (px_eff s) (px_stats s).
Definition put_ctx (m : ctx_module) (c : ak_ctx) (s : posix_state) : posix_state := mk_posix m (Some c) (px_fd s) (px_eff s) (px_stats s).
Definition put_eff (e : effects_state) (s : posix_state) : posix_state := mk_posix (px_mod s) (px_ctx s) (px_fd s) e (px_stats s).

(** The clock of the gate, and what an uninitialised decision holds. *)
Record route_env := mk_route_env { rv_gate : gate_env; rv_garbage : ak_decision }.

(** ** Modes *)

Definition ak_routing_active (s : posix_state) : bool :=
  match px_ctx s with None => false | c => negb (ak_ctx_get_mode c =? AK_MODE_OFF) end.
Definition ak_routing_hard (s : posix_state) : bool :=
  match px_ctx s with None => false | c => ak_ctx_get_mode c =? AK_MODE_HARD end.

Definition ak_check_hard_mode_block (s : posix_state) : posix_state * Z :=
  match px_ctx s with
  | None => (s, 0)
  | c =>
      if negb (ak_ctx_get_mode c =? AK_MODE_HARD) then (s, 0)
      else if ak_is_in_authorized_effect (px_eff s) then (s, 0)
      else (count hard_mode_blocks (count total_denied s), - EPERM)
  end.

(** ** The common pattern *)

(** The decision is a local: when the gate returns before it writes one, the
    code reads what was there. *)
Definition ak_do_authorize (env : route_env) (s : posix_state) (c : ak_ctx) (req : ak_effect_req) : posix_state * Z :=
  let '(e, c, od, result) := ak_authorize_and_execute (rv_gate env) (px_eff s) c req in
  let s := put_ctx (px_mod s) c (put_eff e s) in
  let d := default (rv_garbage env) od in
  if (result =? 0) && de_allow d then (count total_allowed s, 0)
  else
    let s := count total_denied s in
    let category := Z.land (Z.shiftr (er_op req) 8) 255 in
    let s := if category =? 1 then count fs_denials s else if category =? 2 then count net_denials s
             else if category =? 3 then count proc_denials s else s in
    (s, if negb (de_errno_equiv d =? 0) then - de_errno_equiv d else result).

(** The hard-mode test, the counters, the bypass, the request, the gate. *)
Definition prepare : Type := posix_state -> ak_ctx -> fd_state * built.
Definition route (env : route_env) (k : route_counter) (s : posix_state) (f : prepare) : posix_state * Z :=
  let '(s, hard_check) := ak_check_hard_mode_block s in
  if hard_check <? 0 then (s, hard_check)
  else
    let s := count k (count total_routed s) in
    match px_ctx s with
    | None => (count total_bypassed s, 0)
    | Some c =>
        if ak_ctx_get_mode (Some c) =? AK_MODE_OFF then (count total_bypassed s, 0)
        else
          let '(fds, (m, c, r)) := f s c in
          let s := put_ctx m c (put_fd fds s) in
          match r with
          | inl err => (s, err)
          | inr req => ak_do_authorize env s c req
          end
    end.

Definition not_null {A} (p : option A) (r : posix_state * Z) (s : posix_state) : posix_state * Z :=
  match p with None => (s, - EFAULT) | Some _ => r end.

Definition ak_resolve_path_at (fds : fd_state) (dirfd : Z) (path : option bytes) (out_len : nat) : fd_state * (Z + bytes) :=
  match path with
  | None => (fds, inl (- EINVAL))
  | Some _ => if (out_len =? 0)%nat then (fds, inl (- EINVAL)) else ak_fd_table_resolve_at fds dirfd path out_len
  end.

(** ** File system hooks *)

Definition open_request (path : option bytes) (flags mode : Z) : prepare :=
  fun s c => (px_fd s, ak_effect_from_open (px_mod s) c path flags mode).
Definition ak_route_open (env : route_env) (s : posix_state) (path : option bytes) (flags mode : Z) : posix_state * Z :=
  not_null path (route env open_calls s (open_request path flags mode)) s.

Definition openat_request (dirfd : Z) (path : option bytes) (flags mode : Z) : prepare :=
  fun s c => ak_effect_from_openat (px_mod s) c (px_fd s) dirfd path flags mode.
Definition ak_route_openat (env : route_env) (s : posix_state) (dirfd : Z) (path : option bytes) (flags mode : Z) : posix_state * Z :=
  route env openat_calls s (openat_request dirfd path flags mode).

Definition unlink_request (path : option bytes) : prepare := fun s c => (px_fd s, ak_effect_from_unlink (px_mod s) c path).
Definition ak_route_unlink (env : route_env) (s : posix_state) (path : option bytes) : posix_state * Z :=
  not_null path (route env unlink_calls s (unlink_request path)) s.

(** The request is built by hand, without the identity of the agent. *)
Definition unlinkat_request (dirfd : Z) (path : option bytes) (flags : Z) : prepare :=
  fun s c =>
    let '(fds, r) := ak_resolve_path_at (px_fd s) dirfd path AK_MAX_TARGET in
    (fds, match r with
          | inl e => (px_mod s, c, inl e)
          | inr resolved =>
              let op := if Z.land flags AT_REMOVEDIR =? 0 then AK_E_FS_UNLINK else AK_E_FS_RMDIR in
              let '(m, c, trace) := ak_trace_id_generate c (px_mod s) in
              (m, c, inr (mk_effect op trace 0 0 (take AK_MAX_TARGET (cstr resolved)) no_params no_budget 0))
          end).
Definition ak_route_unlinkat (env : route_env) (s : posix_state) (dirfd : Z) (path : option bytes) (flags : Z) : posix_state * Z :=
  route env unlink_calls s (unlinkat_request dirfd path flags).

Definition mkdir_request (path : option bytes) (mode : Z) : prepare := fun s c => (px_fd s, ak_effect_from_mkdir (px_mod s) c path mode).
Definition ak_route_mkdir (env : route_env) (s : posix_state) (path : option bytes) (mode : Z) : posix_state * Z :=
  route env mkdir_calls s (mkdir_request path mode).

Definition mkdirat_request (dirfd : Z) (path : option bytes) (mode : Z) : prepare :=
  fun s c =>
    let '(fds, r) := ak_resolve_path_at (px_fd s) dirfd path AK_MAX_TARGET in
    (fds, match r with inl e => (px_mod s, c, inl e) | inr resolved => ak_effect_from_mkdir (px_mod s) c (Some resolved) mode end).
Definition ak_route_mkdirat (env : route_env) (s : posix_state) (dirfd : Z) (path : option bytes) (mode : Z) : posix_state * Z :=
  route env mkdir_calls s (mkdirat_request dirfd path mode).

Definition rename_request (oldpath newpath : option bytes) : prepare := fun s c => (px_fd s, ak_effect_from_rename (px_mod s) c oldpath newpath).
Definition ak_route_rename (env : route_env) (s : posix_state) (oldpath newpath : option bytes) : posix_state * Z :=
  not_null oldpath (not_null newpath (route env rename_calls s (rename_request oldpath newpath)) s) s.

Definition renameat_request (olddirfd : Z) (oldpath : option bytes) (newdirfd : Z) (newpath : option bytes) : prepare :=
  fun s c =>
    let '(fds, ro) := ak_resolve_path_at (px_fd s) olddirfd oldpath AK_MAX_TARGET in
    match ro with
    | inl e => (fds, (px_mod s, c, inl e))
    | inr old =>
        let '(fds, rn) := ak_resolve_path_at fds newdirfd newpath AK_MAX_TARGET in
        (fds, match rn with inl e => (px_mod s, c, inl e) | inr new => ak_effect_from_rename (px_mod s) c (Some old) (Some new) end)
    end.
Definition ak_route_renameat (env : route_env) (s : posix_state) (olddirfd : Z) (oldpath : option bytes) (newdirfd : Z) (newpath : option bytes) : posix_state * Z :=
  route env rename_calls s (renameat_request olddirfd oldpath newdirfd newpath).

(** ** Network and process hooks *)

Definition connect_request (addr : option bytes) (addrlen : Z) : prepare := fun s c => (px_fd s, ak_effect_from_connect (px_mod s) c addr addrlen).
Definition ak_route_connect (env : route_env) (s : posix_state) (addr : option bytes) (addrlen : Z) : posix_state * Z :=
  not_null addr (route env connect_calls s (connect_request addr addrlen)) s.

Definition bind_request (addr : option bytes) (addrlen : Z) : prepare := fun s c => (px_fd s, ak_effect_from_bind (px_mod s) c addr addrlen).
Definition ak_route_bind (env : route_env) (s : posix_state) (addr : option bytes) (addrlen : Z) : posix_state * Z :=
  not_null addr (route env bind_calls s (bind_request addr addrlen)) s.

(** [ak_get_socket_bound_addr] always fails, so the request is the one of
    [ak_effect_from_listen] and the rest of the function is not reached. *)
Definition listen_request (backlog : Z) : prepare := fun s c => (px_fd s, ak_effect_from_listen (px_mod s) c backlog).
Definition ak_route_listen (env : route_env) (s : posix_state) (backlog : Z) : posix_state * Z :=
  route env listen_calls s (listen_request backlog).

Definition dns_request (hostname : option bytes) : prepare := fun s c => (px_fd s, ak_effect_from_dns_resolve (px_mod s) c hostname).
Definition ak_route_dns_resolve (env : route_env) (s : posix_state) (hostname : option bytes) : posix_state * Z :=
  route env dns_calls s (dns_request hostname).

Definition spawn_request (program : option bytes) (argv : option nat) (flags : Z) : prepare :=
  fun s c => (px_fd s, ak_effect_from_spawn (px_mod s) c program argv flags).
Definition ak_route_spawn (env : route_env) (s : posix_state) (program : option bytes) (argv : option nat) (flags : Z) : posix_state * Z :=
  not_null program (route env spawn_calls s (spawn_request program argv flags)) s.

(** ** Bookkeeping of descriptors and the working directory *)

Definition ak_route_register_fd (s : posix_state) (fd : Z) (path : option bytes) (is_directory : bool) : posix_state :=
  if fd <? 0 then s else match path with None => s | Some _ => put_fd (ak_fd_table_register (px_fd s) fd path is_directory).1 s end.

Definition ak_route_register_fd_from_openat (s : posix_state) (fd dirfd : Z) (path : option bytes) (is_directory : bool) : posix_state :=
  match path with
  | None => s
  | Some p =>
      if fd <? 0 then s
      else
        let '(fds, r) :=
          if at_char SLASH (cstr p) then (px_fd s, canonical_root p)
          else if dirfd =? AT_FDCWD then
            let cwd := match ak_fd_table_get_cwd (px_fd s) AK_MAX_TARGET with inl _ => [SLASH] | inr cwd => cwd end in
            (px_fd s, ak_canonicalize_path path AK_MAX_TARGET (Some cwd))
          else ak_fd_table_resolve_at (px_fd s) dirfd path AK_MAX_TARGET in
        match r with
        | inl _ => put_fd fds s
        | inr resolved => put_fd (ak_fd_table_register fds fd (Some resolved) is_directory).1 s
        end
  end.

Definition ak_route_close (s : posix_state) (fd : Z) : posix_state * Z :=
  let '(s, hard_check) := ak_check_hard_mode_block s in
  if hard_check <? 0 then (s, hard_check)
  else let s := count total_routed s in (put_fd (ak_fd_table_unregister (px_fd s) fd).1 s, 0).

Definition ak_route_set_cwd (s : posix_state) (path : option bytes) : posix_state * Z :=
  match path with
  | None => (s, - EINVAL)
  | Some p =>
      match canonical_root p with
      | inl e => (s, e)
      | inr canonical => let '(fds, r) := ak_fd_table_set_cwd (px_fd s) (Some canonical) in (put_fd fds s, r)
      end
  end.

Definition ak_route_set_cwd_from_fd (s : posix_state) (fd : Z) : posix_state * Z :=
  let '(fds, r) := ak_fd_table_lookup (px_fd s) fd AK_MAX_TARGET in
  let s := put_fd fds s in
  match r with
  | inl e => (s, e)
  | inr path =>
      if negb (ak_fd_table_is_directory fds fd) then (s, - ENOTDIR)
      else let '(fds, r) := ak_fd_table_set_cwd fds (Some path) in (put_fd fds s, r)
  end.

(** A check without a system call. *)
Definition ak_route_check (env : route_env) (s : posix_state) (op : Z) (target : option bytes) : posix_state * bool :=
  match px_ctx s, target with
  | Some c, Some t =>
      let '(m, c, trace) := ak_trace_id_generate c (px_mod s) in
      let req := mk_effect op trace 0 0 (take AK_MAX_TARGET (cstr t)) no_params no_budget 0 in
      let '(e, c, od, r) := ak_authorize_and_execute (rv_gate env) (px_eff s) c req in
      (put_ctx m c (put_eff e s), (r =? 0) && de_allow (default (rv_garbage env) od))
  | _, _ => (s, false)
  end.

Definition ak_posix_route_init (heap : bool) (s : posix_state) : posix_state * Z :=
  if negb heap then (s, - EINVAL)
  else (mk_posix (px_mod s) (px_ctx s) (ak_fd_table_init (px_fd s)) (px_eff s) (fun _ => 0), 0).
Definition ak_posix_route_shutdown (s : posix_state) : posix_state := put_fd (ak_fd_table_shutdown (px_fd s)) s.

(** ** Runs *)

Inductive hook :=
| HOpen (path : option bytes) (flags mode : Z) | HOpenat (dirfd : Z) (path : option bytes) (flags mode : Z)
| HUnlink (path : option bytes) | HUnlinkat (dirfd : Z) (path : option bytes) (flags : Z)
| HMkdir (path : option bytes) (mode : Z) | HMkdirat (dirfd : Z) (path : option bytes) (mode : Z)
| HRename (oldpath newpath : option bytes) | HRenameat (olddirfd : Z) (oldpath : option bytes) (newdirfd : Z) (newpath : option bytes)
| HConnect (addr : option bytes) (addrlen : Z) | HBind (addr : option bytes) (addrlen : Z) | HListen (backlog : Z)
| HDns (hostname : option bytes) | HSpawn (program : option bytes) (argv : option nat) (flags : Z).

Definition run_hook (env : route_env) (s : posix_state) (h : hook) : posix_state * Z :=
  match h with
  | HOpen p f m => ak_route_open env s p f m
  | HOpenat d p f m => ak_route_openat env s d p f m
  | HUnlink p => ak_route_unlink env s p
  | HUnlinkat d p f => ak_route_unlinkat env s d p f
  | HMkdir p m => ak_route_mkdir env s p m
  | HMkdirat d p m => ak_route_mkdirat env s d p m
  | HRename o n => ak_route_rename env s o n
  | HRenameat d o d' n => ak_route_renameat env s d o d' n
  | HConnect a l => ak_route_connect env s a l
  | HBind a l => ak_route_bind env s a l
  | HListen b => ak_route_listen env s b
  | HDns n => ak_route_dns_resolve env s n
  | HSpawn p a f => ak_route_spawn env s p a f
  end.

(** The request a hook builds. *)
Definition hook_request (h : hook) : prepare :=
  match h with
  | HOpen p f m => open_request p f m
  | HOpenat d p f m => openat_request d p f m
  | HUnlink p => unlink_request p
  | HUnlinkat d p f => unlinkat_request d p f
  | HMkdir p m => mkdir_request p m
  | HMkdirat d p m => mkdirat_request d p m
  | HRename o n => rename_request o n
  | HRenameat d o d' n => renameat_request d o d' n
  | HConnect a l => connect_request a l
  | HBind a l => bind_request a l
  | HListen b => listen_request b
  | HDns n => dns_request n
  | HSpawn p a f => spawn_request p a f
  end.

Inductive px_call :=
| PxHook (h : hook) | PxClose (fd : Z) | PxRegister (fd : Z) (path : option bytes) (is_dir : bool)
| PxRegisterAt (fd dirfd : Z) (path : option bytes) (is_dir : bool) | PxChdir (path : option bytes) | PxFchdir (fd : Z)
| PxSetMode (mode : Z) | PxDropCapsule | PxSetPolicy (p : option ak_policy_v2) | PxClearDeny.

(** Context operations act on the current context. *)
Definition on_ctx (f : ak_ctx -> ctx_module -> ctx_module * ak_ctx) (s : posix_state) : posix_state :=
  match px_ctx s with None => s | Some c => let '(m, c) := f c (px_mod s) in put_ctx m c s end.

Definition px_step (env : route_env) (s : posix_state) (call : px_call) : posix_state * Z :=
  match call with
  | PxHook h => run_hook env s h
  | PxClose fd => ak_route_close s fd
  | PxRegister fd p d => (ak_route_register_fd s fd p d, 0)
  | PxRegisterAt fd dirfd p d => (ak_route_register_fd_from_openat s fd dirfd p d, 0)
  | PxChdir p => ak_route_set_cwd s p
  | PxFchdir fd => ak_route_set_cwd_from_fd s fd
  | PxSetMode mode => (on_ctx (fun c m => ak_ctx_set_mode c mode m) s, 0)
  | PxDropCapsule => (on_ctx ak_ctx_drop_boot_capsule s, 0)
  | PxSetPolicy p => (on_ctx (fun c m => (m, ak_ctx_set_policy c p)) s, 0)
  | PxClearDeny => (on_ctx (fun c m => (m, ak_clear_last_deny c)) s, 0)
  end.

(** A run, as its steps: the state before, the call, the result. *)
Fixpoint px_run (s : posix_state) (calls : list (route_env * px_call)) : list (posix_state * px_call * Z) * posix_state :=
  match calls with
  | [] => ([], s)
  | (env, call) :: calls => let '(s', r) := px_step env s call in let '(l, s'') := px_run s' calls in ((s, call, r) :: l, s'')
  end.

Definition enforced (s : posix_state) : Prop := exists c, px_ctx s = Some c /\ in_force c.
Definition hard_blocked (s : posix_state) (c : ak_ctx) : Prop := cx_mode c = AK_MODE_HARD /\ ef_in_authorized_effect (px_eff s) = false.

(** The call may proceed: its request is built and the policy grants it. *)
Definition permitted (s : posix_state) (h : hook) : Prop :=
  exists c req, px_ctx s = Some c /\ ((hook_request h s c).2).2 = inr req /\ authorised c req.

(** ** Requests are well-formed and leave the authority of the context alone *)

Definition same_authority (c c' : ak_ctx) : Prop :=
  cx_magic c' = cx_magic c /\ cx_mode c' = cx_mode c /\ cx_policy c' = cx_policy c /\ cx_boot_capsule_active c' = cx_boot_capsule_active c.

Lemma same_in_force c c' : same_authority c c' -> in_force c -> in_force c'.
Proof. intros (H1 & H2 & H3 & H4). unfold in_force, ctx_validate_magic. by rewrite H1, H2, H4. Qed.

Lemma same_authorised c c' req : same_authority c c' -> authorised c' req <-> authorised c req.
Proof. intros (_ & _ & H & _). unfold authorised. by rewrite H. Qed.

Definition good_built (c : ak_ctx) (b : built) : Prop :=
  let '(_, c', r) := b in same_authority c c' /\ match r with inl e => e < 0 | inr req => wf_req req end.

Lemma trace_same c m : same_authority c ((ak_trace_id_generate c m).1).2.
Proof. unfold ak_trace_id_generate. destruct (negb _); cbn; done. Qed.

Lemma build_good m c op target params b :
  0x0100 <= op <= 0x0500 -> (length params <= AK_MAX_PARAMS)%nat -> (forall e, target = inl e -> e < 0) -> good_built c (build m c op target params b).
Proof.
  intros Hop Hp He. unfold build, ak_effect_req_init. pose proof (trace_same c m) as Ht.
  destruct (ak_trace_id_generate c m) as [[m' c'] t]. cbn in Ht. unfold good_built.
  destruct (match cx_agent c' with Some a => _ | None => _ end) as [pid tid]. split; [done|].
  destruct target as [e|t']; [by apply He|]. split; done.
Qed.

Lemma canonicalize_error path n cwd e : ak_canonicalize_path path n cwd = inl e -> e < 0.
Proof. unfold ak_canonicalize_path. repeat case_match; intros; simplify_eq; done. Qed.
Lemma canonicalize_short path n cwd t : ak_canonicalize_path path n cwd = inr t -> (1 < n)%nat -> (length t < n)%nat.
Proof.
  unfold ak_canonicalize_path. destruct path as [p|]; [|done]. destruct (Nat.eqb_spec n 0); [done|].
  assert (Hfin : forall f m o, (length o <= n - 1)%nat -> (1 < n)%nat ->
    (length (match canon_loop f (n - 1) m (cstr p) o with [] => [SLASH] | _ => canon_loop f (n - 1) m (cstr p) o end) < n)%nat).
  { intros f m o Ho Hn. pose proof (canon_loop_room f (n - 1) m (cstr p) o Ho). destruct (canon_loop _ _ _ _ _); cbn in *; lia. }
  destruct (at_char SLASH (cstr p)); [intros [= <-] Hn; apply Hfin; [cbn; lia|done]|].
  destruct (Nat.leb_spec n (length (default [SLASH] (cstr <$> cwd)))); [done|]. intros [= <-] Hn. apply Hfin; [|done].
  destruct (_ && _) eqn:E; [|lia]. apply andb_true_iff in E as [_ E%Nat.ltb_lt]. rewrite length_app. cbn. lia.
Qed.

Lemma canonical_root_error p e : canonical_root p = inl e -> e < 0.
Proof. unfold canonical_root. apply canonicalize_error. Qed.
Lemma canonical_root_short p t : canonical_root p = inr t -> (length t < AK_MAX_TARGET)%nat.
Proof. unfold canonical_root. intros H. eapply canonicalize_short; [exact H|unfold AK_MAX_TARGET; lia]. Qed.

Lemma sockaddr_error a l n e : ak_canonicalize_sockaddr a l n = inl e -> e < 0.
Proof. unfold ak_canonicalize_sockaddr. repeat case_match; intros; simplify_eq; done. Qed.
Lemma named_error p n x e : named p n x = inl e -> e < 0.
Proof. unfold named. case_match; intros; simplify_eq; done. Qed.
Lemma resolve_at_error fds d p n e : (ak_resolve_path_at fds d p n).2 = inl e -> e < 0.
Proof.
  unfold ak_resolve_path_at, ak_fd_table_resolve_at. destruct p as [p|]; [|by intros [= <-]].
  destruct (n =? 0)%nat; [by intros [= <-]|]. destruct (at_char _ _); [apply canonicalize_error|].
  destruct (d =? _); [apply canonicalize_error|]. destruct (d <? 0); [by intros [= <-]|].
  destruct (fd_table_find_entry _ _) as [[i x]|]; [|by intros [= <-]].
  destruct (fe_is_directory x); [apply canonicalize_error|by intros [= <-]].
Qed.
Lemma length_low16 v : (length (low16 v) <= 5)%nat.
Proof. apply length_format_u16. Qed.

Lemma open_good m c path flags mode : good_built c (ak_effect_from_open m c path flags mode).
Proof.
  destruct path as [p|]; cbn [ak_effect_from_open]; [|done]. apply build_good; [done| |by intros e; apply canonical_root_error].
  unfold open_params_text. pose proof (length_low16 flags). pose proof (length_low16 mode). rewrite !length_app. cbn. unfold AK_MAX_PARAMS. lia.
Qed.

Lemma mkdir_good m c path mode : good_built c (ak_effect_from_mkdir m c path mode).
Proof.
  destruct path as [p|]; cbn [ak_effect_from_mkdir]; [|done]. apply build_good; [done| |by intros e; apply canonical_root_error].
  pose proof (length_low16 mode). rewrite !length_app. cbn. unfold AK_MAX_PARAMS. lia.
Qed.

Lemma rename_good m c old new : good_built c (ak_effect_from_rename m c old new).
Proof.
  unfold ak_effect_from_rename. destruct old as [o|], new as [n|]; try done.
  destruct (canonical_root n) as [e|t] eqn:En; [apply build_good; [done|cbn; lia|intros e' [= <-]; eapply canonical_root_error, En]|].
  destruct (canonical_root o) as [e|t'] eqn:Eo; [apply build_good; [done|cbn; lia|intros e' [= <-]; eapply canonical_root_error, Eo]|].
  apply build_good; [done| |done]. apply canonical_root_short in Eo.
  rewrite !length_app. destruct (_ <? _)%nat; cbn; unfold AK_MAX_PARAMS, AK_MAX_TARGET in *; lia.
Qed.

(** Every hook builds a well-formed request or answers an error. *)
Lemma hook_good h s c : good_built c (hook_request h s c).2.
Proof.
  destruct h; cbn [hook_request].
  - apply open_good.
  - unfold openat_request, ak_effect_from_openat. destruct path as [p|]; [|done]. destruct (at_char _ _); [apply open_good|].
    destruct (_ =? _).
    + cbn [snd]. destruct (ak_canonicalize_path _ _ _) eqn:E; [split; [done|by eapply canonicalize_error]|apply open_good].
    + pose proof (resolve_at_error (px_fd s) dirfd (Some p) AK_MAX_TARGET) as He. unfold ak_resolve_path_at in He. cbn [Nat.eqb] in He.
      destruct (ak_fd_table_resolve_at _ _ _ _) as [fds [e|full]]; cbn [snd] in *; [split; [done|by apply He]|apply open_good].
  - cbn [unlink_request snd]. unfold ak_effect_from_unlink. destruct path; [|done]. apply build_good; [done|cbn; unfold AK_MAX_PARAMS; lia|by intros e; apply canonical_root_error].
  - unfold unlinkat_request. pose proof (resolve_at_error (px_fd s) dirfd path AK_MAX_TARGET) as He.
    destruct (ak_resolve_path_at _ _ _ _) as [fds [e|full]]; cbn [snd] in *; [split; [done|by apply He]|].
    pose proof (trace_same c (px_mod s)) as Ht. destruct (ak_trace_id_generate c (px_mod s)) as [[m' c'] t]. cbn in Ht. split; [done|].
    split; [cbn; destruct (_ =? _); done|cbn; unfold AK_MAX_PARAMS; lia].
  - apply mkdir_good.
  - unfold mkdirat_request. pose proof (resolve_at_error (px_fd s) dirfd path AK_MAX_TARGET) as He.
    destruct (ak_resolve_path_at _ _ _ _) as [fds [e|full]]; cbn [snd] in *; [split; [done|by apply He]|apply mkdir_good].
  - apply rename_good.
  - unfold renameat_request. pose proof (resolve_at_error (px_fd s) olddirfd oldpath AK_MAX_TARGET) as He.
    destruct (ak_resolve_path_at _ _ _ _) as [fds [e|full]]; cbn [snd] in *; [split; [done|by apply He]|].
    pose proof (resolve_at_error fds newdirfd newpath AK_MAX_TARGET) as He'.
    destruct (ak_resolve_path_at _ _ _ _) as [fds' [e|full']]; cbn [snd] in *; [split; [done|by apply He']|apply rename_good].
  - cbn [connect_request snd]. unfold ak_effect_from_connect, from_sockaddr. destruct addr; [|done]. apply build_good; [done|cbn; unfold AK_MAX_PARAMS; lia|by intros e; apply sockaddr_error].
  - cbn [bind_request snd]. unfold ak_effect_from_bind, from_sockaddr. destruct addr; [|done]. apply build_good; [done|cbn; unfold AK_MAX_PARAMS; lia|by intros e; apply sockaddr_error].
  - cbn [listen_request snd]. unfold ak_effect_from_listen. apply build_good; [done| |done].
    pose proof (length_low16 backlog). rewrite !length_app. cbn. unfold AK_MAX_PARAMS. lia.
  - cbn [dns_request snd]. unfold ak_effect_from_dns_resolve. destruct hostname; [|done]. apply build_good; [done|cbn; unfold AK_MAX_PARAMS; lia|by intros e; apply named_error].
  - cbn [spawn_request snd]. unfold ak_effect_from_spawn. destruct program; [|done]. apply build_good; [done| |by intros e; apply named_error].
    pose proof (length_low16 flags). rewrite !length_app. destruct argv as [n|]; [pose proof (length_low16 (Z.of_nat (Nat.min n 64)))|];
      rewrite ?length_app; cbn; unfold AK_MAX_PARAMS; lia.
Qed.

(** ** One hook *)

Lemma hook_count h k s c : hook_request h (count k s) c = hook_request h s c.
Proof. by destruct h. Qed.

Lemma counted s k : px_ctx (count k s) = px_ctx s /\ px_eff (count k s) = px_eff s.
Proof. done. Qed.

Lemma same_deny c d : same_authority c (set_cx_last_deny d c).
Proof. done. Qed.

Lemma same_trans c c' c'' : same_authority c c' -> same_authority c' c'' -> same_authority c c''.
Proof. intros (? & ? & ? & ?) (? & ? & ? & ?). unfold same_authority. split_and!; congruence. Qed.

Lemma do_authorize_spec env s c req : in_force c -> wf_req req ->
  let '(s', r) := ak_do_authorize env s c req in
  (r = 0 <-> authorised c req) /\ r <= 0 /\ exists c', px_ctx s' = Some c' /\ same_authority c c'.
Proof.
  intros Hc Hw. unfold ak_do_authorize. rewrite (gate_in_force _ _ c req Hc Hw).
  pose proof (policy_gate_decides (rv_gate env) (with_ef_stats (count_request (er_op req)) (px_eff s)) c req) as Hd.
  destruct (policy_gate _ _ _ _) as [[[e' c'] d] r]. destruct Hd as [[Ha Ht Hok Hno Htot] Hiff]. change (default (rv_garbage env) (Some d)) with d.
  destruct (Z.eqb_spec r 0) as [Hr|Hr].
  - rewrite Ha, bool_decide_eq_true_2 by done. cbn [andb]. split; [tauto|]. split; [lia|]. exists c'. split; [done|].
    by destruct (Hok Hr) as [-> _].
  - cbn [andb]. destruct (Hno Hr) as (Hrr & Hin & _ & _ & _ & _ & _ & _ & now & ->).
    assert (He : de_errno_equiv d <> 0 /\ 0 < de_errno_equiv d).
    { apply elem_of_cons in Hin as [->|[->|H]%elem_of_cons]; [done|done|inversion H]. }
    rewrite (proj2 (Z.eqb_neq _ _) (proj1 He)). cbn [negb]. split; [rewrite <-Hiff; lia|]. split; [lia|].
    exists (set_cx_last_deny (gate_deny req d now) c). split; [|done]. by repeat case_match.
Qed.

Lemma hard_check_spec s c : px_ctx s = Some c -> in_force c ->
  let '(s', r) := ak_check_hard_mode_block s in
  (r < 0 <-> hard_blocked s c) /\ (0 <= r -> s' = s) /\ r <= 0 /\ px_ctx s' = Some c.
Proof.
  intros Hs (Hv & Hm & Hb). unfold ak_check_hard_mode_block, hard_blocked. rewrite Hs. cbn [ak_ctx_get_mode]. rewrite Hv.
  destruct (Z.eqb_spec (cx_mode c) AK_MODE_HARD) as [Eh|Eh]; cbn [negb]; [|split_and!; [|done..]; naive_solver lia].
  unfold ak_is_in_authorized_effect. destruct (ef_in_authorized_effect (px_eff s)); [split_and!; [|done..]; naive_solver lia|].
  split_and!; [|done|done|done]. split; [done|]. unfold EPERM. lia.
Qed.

(** A hook in an enforced state: it proceeds exactly when it is not blocked and
    the policy grants its request; the authority of the context stays. *)
Lemma route_spec env k s c h :
  px_ctx s = Some c -> in_force c ->
  let '(s', r) := route env k s (hook_request h) in
  (r = 0 <-> ~ hard_blocked s c /\ permitted s h) /\ r <= 0 /\ exists c', px_ctx s' = Some c' /\ same_authority c c'.
Proof.
  intros Hs Hc. unfold route. pose proof (hard_check_spec s c Hs Hc) as Hh. destruct (ak_check_hard_mode_block s) as [s1 hc].
  destruct Hh as (Hhb & Hsame & Hle & Hs1). destruct (Z.ltb_spec hc 0) as [Hneg|Hpos].
  { split; [split; [lia|tauto]|]. split; [lia|]. exists c. done. }
  rewrite (Hsame Hpos) in *. cbn [px_ctx count]. rewrite Hs. cbn [ak_ctx_get_mode]. pose proof Hc as (Hv & Hm & _). rewrite Hv.
  assert (Hoff : (cx_mode c =? AK_MODE_OFF) = false) by (rewrite !elem_of_cons, elem_of_nil in Hm; destruct Hm as [->|[->|[]]]; done). rewrite Hoff.
  rewrite !hook_count. pose proof (hook_good h s c) as Hg. unfold permitted.
  destruct (hook_request h s c) as [fds [[m c'] r]] eqn:Er. cbn [snd] in Hg. destruct Hg as [Hsa Hr].
  destruct r as [err|req].
  - split; [|split; [lia|by exists c']]. split; [lia|]. intros (_ & c2 & req & E1 & E2 & _). rewrite Hs in E1. injection E1 as <-. rewrite Er in E2. done.
  - pose proof (do_authorize_spec env (put_ctx m c' (put_fd fds (count k (count total_routed s)))) c' req (same_in_force _ _ Hsa Hc) Hr) as Hd.
    destruct (ak_do_authorize _ _ _ _) as [s' r]. destruct Hd as (Hiff & Hler & c2 & Hc2 & Hsa2).
    split; [|split; [done|exists c2; split; [done|by eapply same_trans]]].
    rewrite Hiff, (same_authorised c c') by done. split.
    + intros Ha. split; [rewrite <-Hhb; lia|]. exists c, req. by rewrite Er.
    + intros (_ & c3 & req' & E1 & E2 & Ha). rewrite Hs in E1. injection E1 as <-. rewrite Er in E2. cbn in E2. by injection E2 as <-.
Qed.

Lemma hook_spec env s c h :
  px_ctx s = Some c -> in_force c ->
  let '(s', r) := run_hook env s h in
  (r = 0 -> ~ hard_blocked s c /\ permitted s h) /\ (~ hard_blocked s c -> permitted s h -> r = 0) /\ r <= 0 /\
  exists c', px_ctx s' = Some c' /\ same_authority c c'.
Proof.
  intros Hs Hc.
  assert (Hgood : forall k, let '(s', r) := route env k s (hook_request h) in
    (r = 0 -> ~ hard_blocked s c /\ permitted s h) /\ (~ hard_blocked s c -> permitted s h -> r = 0) /\ r <= 0 /\
    exists c', px_ctx s' = Some c' /\ same_authority c c').
  { intros k. pose proof (route_spec env k s c h Hs Hc) as H. destruct (route _ _ _ _). tauto. }
  assert (Hnull : ~ permitted s h -> let '(s', r) := (s, - EFAULT) in
    (r = 0 -> ~ hard_blocked s c /\ permitted s h) /\ (~ hard_blocked s c -> permitted s h -> r = 0) /\ r <= 0 /\
    exists c', px_ctx s' = Some c' /\ same_authority c c').
  { intros Hn. split; [done|]. split; [done|]. split; [unfold EFAULT; lia|]. by exists c. }
  destruct h; try apply Hgood; cbn [run_hook];
    unfold ak_route_open, ak_route_unlink, ak_route_rename, ak_route_connect, ak_route_bind, ak_route_spawn, not_null;
    repeat match goal with |- context [match ?p with Some _ => _ | None => _ end] => destruct p end;
    first [apply Hgood | apply Hnull; intros (c1 & req & _ & E & _); done].
Qed.

(** ** Runs stay enforced *)

(** [ak_mode_t] is an unsigned enumeration. *)
Definition wf_call (call : px_call) : Prop := match call with PxSetMode mode => 0 <= mode | _ => True end.

Lemma enforced_ctx s c : px_ctx s = Some c -> in_force c -> enforced s.
Proof. by exists c. Qed.

Lemma enforced_put_fd f s : enforced s -> enforced (put_fd f s).
Proof. done. Qed.

Lemma enforced_on_ctx f s :
  (forall c m, in_force c -> in_force (f c m).2) -> enforced s -> enforced (on_ctx f s).
Proof.
  intros Hf (c & Hs & Hc). unfold on_ctx. rewrite Hs. specialize (Hf c (px_mod s) Hc). destruct (f c (px_mod s)) as [m c']. by exists c'.
Qed.

Lemma set_mode_keeps c mode m : 0 <= mode -> in_force c -> in_force (ak_ctx_set_mode c mode m).2.
Proof.
  intros Hm Hc. unfold ak_ctx_set_mode. destruct (negb _); [done|]. destruct (Z.ltb_spec AK_MODE_HARD mode); [done|].
  destruct (Z.eqb_spec mode AK_MODE_OFF); [done|]. destruct Hc as (Hv & _ & Hb). split; [done|]. split; [|done]. cbn.
  unfold AK_MODE_OFF, AK_MODE_HARD, AK_MODE_SOFT in *. rewrite !elem_of_cons. lia.
Qed.

Lemma step_keeps env s call : wf_call call -> enforced s -> enforced (px_step env s call).1 /\ (px_step env s call).2 <= 0.
Proof.
  intros Hw He. destruct call as [h|fd|fd p d|fd dirfd p d|p|fd|mode| |p|]; cbn [px_step].
  - destruct He as (c & Hs & Hc). pose proof (hook_spec env s c h Hs Hc) as H. destruct (run_hook env s h) as [s' r].
    destruct H as (_ & _ & Hr & c' & Hs' & Hsa). split; [|done]. exists c'. split; [done|by eapply same_in_force].
  - unfold ak_route_close. destruct He as (c & Hs & Hc). pose proof (hard_check_spec s c Hs Hc) as H.
    destruct (ak_check_hard_mode_block s) as [s' r]. destruct H as (_ & _ & Hr & Hs'). destruct (r <? 0); (split; [by exists c|cbn; lia]).
  - split; [|cbn; lia]. unfold ak_route_register_fd. destruct (fd <? 0); [done|]. by destruct p.
  - split; [|cbn; lia]. unfold ak_route_register_fd_from_openat. destruct p; [|done]. destruct (fd <? 0); [done|].
    destruct (if at_char _ _ then _ else _) as [fds [e|t]]; done.
  - unfold ak_route_set_cwd. destruct p as [p|]; [|by split; [|cbn; unfold EINVAL; lia]].
    destruct (canonical_root p) eqn:E; [split; [done|cbn; apply canonical_root_error in E; lia]|]. split; [done|cbn; lia].
  - unfold ak_route_set_cwd_from_fd, ak_fd_table_lookup. repeat case_match; simplify_eq; cbn; (split; [done|]);
      unfold EINVAL, ENOENT, ERANGE, ENOTDIR; repeat case_match; simplify_eq; try lia.
    all: match goal with H : ak_fd_table_set_cwd _ _ = _ |- _ => unfold ak_fd_table_set_cwd in H; simplify_eq; lia end.
  - split; [|cbn; lia]. apply enforced_on_ctx; [|done]. intros c m. by apply set_mode_keeps.
  - split; [|cbn; lia]. apply enforced_on_ctx; [|done]. intros c m Hc. unfold ak_ctx_drop_boot_capsule.
    destruct (negb _); [done|]. destruct (cx_boot_capsule_dropped c); [done|]. by destruct Hc as (? & ? & _).
  - split; [|cbn; lia]. apply enforced_on_ctx; [|done]. intros c m Hc. unfold ak_ctx_set_policy. by destruct (ctx_validate_magic c).
  - split; [|cbn; lia]. apply enforced_on_ctx; [|done]. by intros c m Hc.
Qed.

(** C5: Every system call is mediated, in every run: from a thread whose context
    is in force, whatever sequence of hooks, descriptor bookkeeping, mode,
    policy and capsule changes follows, the context stays in force, no call
    returns a positive value, and a hook lets its call proceed exactly when the
    policy then in force grants the request the hook builds, and, in hard mode,
    the thread runs inside an authorised effect. *)
Theorem every_call_mediated s calls :
  enforced s -> Forall (fun ec => wf_call ec.2) calls ->
  let '(steps, s') := px_run s calls in
  enforced s' /\
  Forall (fun '(before, call, r) => enforced before /\ r <= 0 /\
    match call with
    | PxHook h => r = 0 <-> permitted before h /\ ~ (exists c, px_ctx before = Some c /\ hard_blocked before c)
    | _ => True
    end) steps.
Proof.
  intros He Hw. revert s He. induction Hw as [|[env call] calls Hc Hcs IH]; intros s He; [by split; [|constructor]|].
  cbn [px_run]. cbn in Hc. destruct (step_keeps env s call Hc He) as [He' Hr]. destruct (px_step env s call) as [s' r] eqn:Es. cbn in He', Hr.
  specialize (IH s' He'). destruct (px_run s' calls) as [l s'']. destruct IH as [Hend Hl]. split; [done|]. constructor; [|done].
  split; [done|]. split; [done|]. destruct call as [h| | | | | | | | |]; try done. cbn [px_step] in Es.
  destruct He as (c & Hs & Hf). pose proof (hook_spec env s c h Hs Hf) as H. rewrite Es in H. destruct H as (H1 & H2 & _).
  split.
  - intros Hr0. destruct (H1 Hr0) as [Hb Hp]. split; [done|]. intros (c' & Hs' & Hb'). rewrite Hs in Hs'. by injection Hs' as <-.
  - intros [Hp Hb]. apply H2; [|done]. intros Hb'. apply Hb. by exists c.
Qed.

(** A thread with the context [demo_ctx]: [/etc] readable, [/tmp] writable. *)
Definition demo_thread : posix_state :=
  mk_posix (mk_ctx_module true true 4 (Some 3) zero_ctx_stats) (Some demo_ctx) fd_boot demo_effects (fun _ => 0).
Definition demo_route_env : route_env := mk_route_env demo_env (mk_decision false 0 0 [] [] 0 [] 0).
Definition demo_calls : list (route_env * px_call) :=
  (fun c => (demo_route_env, c)) <$>
  [PxHook (HOpen (Some B"/etc/hosts") 0 0); PxHook (HOpen (Some B"/etc/../etc/hosts") 1 0); PxHook (HUnlink (Some B"/tmp/x"));
   PxHook (HListen 5); PxSetMode AK_MODE_OFF; PxSetPolicy None; PxHook (HOpen (Some B"/etc/hosts") 0 0)].

Lemma demo_in_force : in_force demo_ctx.
Proof. split_and!; [reflexivity|left|reflexivity]. Qed.

Lemma every_call_mediated_witness :
  List.map snd (fst (px_run demo_thread demo_calls)) = [0; -13; 0; -13; 0; 0; -1] /\
  enforced (px_run demo_thread demo_calls).2.
Proof.
  split; [vm_compute; reflexivity|].
  assert (He : enforced demo_thread) by (exists demo_ctx; split; [reflexivity|apply demo_in_force]).
  assert (Hw : Forall (fun ec : route_env * px_call => wf_call ec.2) demo_calls) by (repeat constructor; vm_compute; discriminate).
  pose proof (every_call_mediated demo_thread demo_calls He Hw) as H. destruct (px_run demo_thread demo_calls) as [l s']. exact (proj1 H).
Defined.

(** ** Opens are confined *)

Definition wants_read (flags : Z) : bool := negb (Z.land flags O_ACCMODE =? O_WRONLY).
Definition wants_write (flags : Z) : bool :=
  negb (Z.land flags O_ACCMODE =? O_RDONLY) || negb (Z.land flags (Z.lor (Z.lor O_CREAT O_TRUNC) O_APPEND) =? 0).

Lemma low16_digits v : all_digits (low16 v) /\ dec_value 0 (low16 v) = Z.land v 0xFFFF /\ low16 v <> [].
Proof.
  assert (Hb : is_u16 (Z.land v 0xFFFF)).
  { change 0xFFFF with (Z.ones 16). rewrite Z.land_ones by lia. unfold is_u16. apply Z.mod_pos_bound. done. }
  destruct (format_u16_digits _ Hb) as [Hd Hv]. split; [done|]. split; [done|]. intros E. unfold low16 in E.
  rewrite E in Hv. cbn in Hv. rewrite <-Hv in E. done.
Qed.

Lemma skip_colon_digit d l : is_dec d = true -> skip_colon (58 :: d :: l) = d :: l.
Proof.
  intros Hd. cbn. unfold is_dec in Hd. bprop. destruct (Z.eqb_spec d 58), (Z.eqb_spec d 32), (Z.eqb_spec d 9); try lia. done.
Qed.

(** The flags survive the way through the parameters of the request. *)
Lemma open_flags_roundtrip flags mode : parse_params_u64 (open_params_text flags mode) B"f" = Some (Z.land flags 0xFFFF).
Proof.
  destruct (low16_digits flags) as (Hd & Hv & Hne). unfold parse_params_u64, open_params_text.
  destruct (low16 flags) as [|d ds] eqn:E; [done|]. rewrite <-E in *.
  change (JQ"{'f':" ++ ?x) with (123 :: 34 :: 102 :: 34 :: 58 :: x). change (B"f") with [102].
  cbn [find_param]. replace (negb _) with false by (symmetry; apply negb_false_iff, Nat.ltb_lt; cbn [length]; rewrite E; cbn; lia).
  cbn [Z.eqb Pos.eqb andb]. change (123 =? QUOTE) with false. cbn [andb].
  replace (negb _) with false by (symmetry; apply negb_false_iff, Nat.ltb_lt; cbn [length]; rewrite E; cbn; lia).
  change (34 =? QUOTE) with true. cbn [andb has_prefix Z.eqb Pos.eqb length drop at_char]. change (34 =? QUOTE) with true. cbn [andb].
  change (drop 2 (102 :: 34 :: ?x)) with x. rewrite E in Hd |- *. assert (Hd1 := Forall_inv Hd). cbn beta in Hd1.
  cbn [app]. rewrite skip_colon_digit, Hd1 by done. unfold parse_number. f_equal.
  change (d :: ds ++ ?x) with ((d :: ds) ++ x). change (JQ",'m':" ++ ?x) with (44 :: JQ"'m':" ++ x).
  rewrite u64_loop_digits; [by rewrite <-E|done|done|lia|]. rewrite <-E, Hv. change 0xFFFF with (Z.ones 16). rewrite Z.land_ones by lia.
  pose proof (Z.mod_pos_bound flags (2 ^ 16) ltac:(lia)). unfold UINT64_MAX. lia.
Qed.

Lemma open_intent_flags flags mode : open_intent (open_params_text flags mode) = (wants_read flags, wants_write flags).
Proof.
  unfold open_intent. rewrite open_flags_roundtrip. unfold wants_read, wants_write.
  rewrite <-!Z.land_assoc. done.
Qed.

(** The resolved path lies in a scope of the policy. *)
Definition in_scope (p : ak_policy_v2) (cs : list bytes) (write : bool) : Prop :=
  exists rule t, rule ∈ p2_fs_rules p /\ (if write then fr_write rule else fr_read rule) = true /\ canonical t cs /\ PathGlob (cstr (fr_pattern rule)) t.

(** A policy whose scopes are directories. *)
Definition directory_scopes (p : ak_policy_v2) (write : bool) (dirs : list (list bytes)) : Prop :=
  forall rule, rule ∈ p2_fs_rules p -> (if write then fr_write rule else fr_read rule) = true ->
    exists ds, ds ∈ dirs /\ Forall good_component ds /\ literal (rooted ds) /\ fr_pattern rule = rooted ds ++ B"/**".

Lemma in_scope_directory p cs w dirs : directory_scopes p w dirs -> in_scope p cs w -> exists ds rest, ds ∈ dirs /\ cs = ds ++ rest.
Proof.
  intros Hd (rule & t & Hr & Hw & Hc & Hg). destruct (Hd rule Hr Hw) as (ds & Hin & Hgood & Hl & Hp). rewrite Hp in Hg.
  rewrite cstr_nonul_id in Hg.
  - destruct (directory_rule t cs ds Hc Hgood Hl Hg) as [rest ->]. by exists ds, rest.
  - apply Forall_app. split; [|by repeat constructor]. eapply Forall_impl; [exact Hl|]. by intros c (_ & _ & ?).
Qed.

Lemma open_target m c path flags mode :
  (S (length (cstr path)) < AK_MAX_TARGET)%nat ->
  exists m' c' req, ak_effect_from_open m c (Some path) flags mode = (m', c', inr req) /\ er_op req = AK_E_FS_OPEN /\
    canonical (er_target req) (resolve (cstr path)) /\ cstr (er_target req) = er_target req /\
    open_intent (er_params req) = (wants_read flags, wants_write flags).
Proof.
  intros Hl. destruct (canonicalize_root path AK_MAX_TARGET Hl) as (t & Ht & Hc).
  cbn [ak_effect_from_open]. unfold canonical_root, build. rewrite Ht.
  unfold ak_effect_req_init. destruct (ak_trace_id_generate c m) as [[m' c'] tr].
  destruct (match cx_agent c' with Some a => _ | None => _ end) as [pid tid]. exists m', c'. eexists. split; [reflexivity|].
  cbn [fill er_op er_target er_params]. split_and!; [done|done| |apply open_intent_flags].
  by apply (canonicalize_nonul path AK_MAX_TARGET).
Qed.

(** C6: Opens are confined: when the hook of an enforced thread lets an open of a
    path of fewer than 511 bytes proceed, the path, with its dots and slashes
    resolved from the root, lies in a read scope of the policy in force if the flags ask for
    reading and in a write scope if they ask for writing, creating, truncating
    or appending; when those scopes are directories, it lies below one of
    them.  (A longer path is cut before the check, [CanonPath.long_path_escapes];
    a relative path is taken to start at the root whatever the working directory
    is, [open_ignores_cwd].) *)
Theorem open_confined env s c path flags mode :
  px_ctx s = Some c -> in_force c -> (S (length (cstr path)) < AK_MAX_TARGET)%nat ->
  (ak_route_open env s (Some path) flags mode).2 = 0 ->
  exists p, cx_policy c = Some p /\
    (wants_read flags = true -> in_scope p (resolve (cstr path)) false) /\
    (wants_write flags = true -> in_scope p (resolve (cstr path)) true) /\
    (forall w dirs, (w = false /\ wants_read flags = true \/ w = true /\ wants_write flags = true) -> directory_scopes p w dirs ->
       exists ds rest, ds ∈ dirs /\ resolve (cstr path) = ds ++ rest).
Proof.
  intros Hs Hc Hl Hr. pose proof (hook_spec env s c (HOpen (Some path) flags mode) Hs Hc) as H. cbn [run_hook] in H.
  destruct (ak_route_open _ _ _ _ _) as [s' r]. cbn in Hr. destruct H as (H1 & _). destruct (H1 Hr) as (_ & c' & req & Hs' & Hreq & p & Hp & _ & Hg & _).
  rewrite Hs in Hs'. injection Hs' as <-. cbn [hook_request open_request snd] in Hreq.
  destruct (open_target (px_mod s) c path flags mode Hl) as (m' & c' & req' & E & Hop & Hcan & Hct & Hint). rewrite E in Hreq. cbn in Hreq. injection Hreq as ->.
  assert (Hscope : forall w, fs_granted p (cstr (er_target req)) w -> in_scope p (resolve (cstr path)) w).
  { intros w Hw. apply fs_granted_scope in Hw as (rule & Hin & Hf & Hpg). exists rule, (er_target req). rewrite Hct in Hpg. done. }
  unfold grants in Hg. rewrite Hint in Hg. cbn [fst snd] in Hg.
  assert (Hopen : (wants_read flags = true -> in_scope p (resolve (cstr path)) false) /\ (wants_write flags = true -> in_scope p (resolve (cstr path)) true)).
  { destruct Hg as [(_ & Hrd & Hwr)|Hg]; [auto|]. exfalso. repeat destruct Hg as [[? ?]|Hg]; try destruct Hg; exclude_op. }
  destruct Hopen as [Hrd Hwr]. exists p. split_and!; [done..|].
  intros w dirs Hw Hd. eapply in_scope_directory; [exact Hd|]. destruct Hw as [[-> Hw]|[-> Hw]]; auto.
Qed.

Lemma open_confined_witness :
  (ak_route_open demo_route_env demo_thread (Some B"/etc/./../etc/ssl/cert.pem") 0 0).2 = 0 /\
  exists p, cx_policy demo_ctx = Some p /\ in_scope p [B"etc"; B"ssl"; B"cert.pem"] false.
Proof.
  split; [vm_compute; reflexivity|].
  destruct (open_confined demo_route_env demo_thread demo_ctx B"/etc/./../etc/ssl/cert.pem" 0 0) as (p & Hp & Hr & _).
  - reflexivity.
  - apply demo_in_force.
  - vm_compute. lia.
  - vm_compute. reflexivity.
  - exists p. split; [exact Hp|]. change [B"etc"; B"ssl"; B"cert.pem"] with (resolve (cstr B"/etc/./../etc/ssl/cert.pem")). apply Hr. reflexivity.
Defined.

(** ** Where routing leaves its description *)

(** A rename needs a scope for its destination only: the source, which the call
    removes, is not checked. *)
Example rename_source_unchecked : (ak_route_rename demo_route_env demo_thread (Some B"/root/.ssh/id_rsa") (Some B"/tmp/x")).2 = 0.
Proof. vm_compute. reflexivity. Qed.

(** [openat] relative to a directory is authorised for a name below it, while
    the system call follows the [..]. *)
Example openat_dotdot_unseen :
  let s := put_fd (ak_fd_table_register fd_boot 7 (Some B"/etc/ssl") true).1 demo_thread in
  (ak_route_openat demo_route_env s 7 (Some B"../../root/.ssh/id_rsa") 0 0).2 = 0 /\
  resolve B"/etc/ssl/../../root/.ssh/id_rsa" = [B"root"; B".ssh"; B"id_rsa"].
Proof. split; vm_compute; reflexivity. Qed.

(** A relative path of [open] is checked against the root, not against the
    working directory the call uses. *)
Example open_ignores_cwd :
  let s := put_fd (ak_fd_table_set_cwd fd_boot (Some B"/root")).1 demo_thread in
  (ak_route_open demo_route_env s (Some B"etc/secret") 0 0).2 = 0.
Proof. vm_compute. reflexivity. Qed.

(** Hard mode blocks a call the policy grants until some effect has been
    authorised, and nothing afterwards: the flag is never cleared. *)
Example hard_mode_flag_sticks :
  let s0 := on_ctx (fun c m => ak_ctx_set_mode c AK_MODE_HARD m) demo_thread in
  let s1 := (ak_route_check demo_route_env s0 AK_E_FS_STAT (Some B"/etc/hosts")).1 in
  (ak_route_open demo_route_env s0 (Some B"/etc/hosts") 0 0).2 = - EPERM /\
  (ak_route_open demo_route_env s1 (Some B"/etc/hosts") 0 0).2 = 0 /\
  (ak_route_unlink demo_route_env s1 (Some B"/tmp/y")).2 = 0.
Proof. split_and!; vm_compute; reflexivity. Qed.
