(* ===== verification/PolicyV2Doc.v ===== *)
(** * Documents of the effect policy ([src/src/agentic/ak_policy_v2.c])

    The JSON parser, the integrity check and the loading of policies.  A pointer
    into the document is the rest of the document, the end of which is [[]];
    reading there, or through NULL, is [Oob].  The answers of the allocator to
    the rules are a list of booleans, used up one per rule (then successes).

    The theorems about it are in [PolicyV2Text]. *)

From S2P Require Import Prelude Crypto Pattern Budget Json Policy PolicyDoc PathGlob PolicyV2.

Definition AK_POLICY_V2_MAX_PATTERN : nat := 256.
Definition AK_POLICY_V2_MAX_PROFILES : nat := 16.
Definition MAX_JSON_DEPTH : Z := 32.
Definition AK_POLICY_V2_VERSION : bytes := B"1.0".
Definition MILLION : Z := 1000000.

(** ** Scanning *)

(** [parse_string] past the opening quote: an unterminated string ends with the
    document, and a backslash that is its last byte is kept. *)
Fixpoint string2_loop (p : bytes) (room : nat) : outcome (bytes * bytes) :=
  match p with
  | [] => Ret ([], [])
  | c :: p1 =>
      if c =? QUOTE then Ret ([], p1)
      else if c =? BACKSLASH then
        match p1 with
        | [] => put c room (Ret ([], []))
        | e :: p2 => match unescape e with None => Null | Some c => put c room (string2_loop p2 (pred room)) end
        end
      else put c room (string2_loop p1 (pred room))
  end.

Definition parse_string (p : bytes) (max_len : nat) : outcome (bytes * bytes) :=
  match p with c :: p' => if c =? QUOTE then string2_loop p' (max_len - 1) else Null | [] => Null end.

(** Past a string, or the end when it has none. *)
Fixpoint past_string (p : bytes) : bytes :=
  match p with
  | [] => []
  | c :: p1 =>
      if c =? QUOTE then p1
      else if c =? BACKSLASH then match p1 with [] => [] | _ :: p2 => past_string p2 end
      else past_string p1
  end.

(** An object or array, counting its own kind of bracket only. *)
Fixpoint skip_nested2 (fuel : nat) (op cl : Z) (p : bytes) (depth : Z) : outcome bytes :=
  if depth <=? 0 then Ret p
  else
    match p with
    | [] => Ret []
    | c :: p1 =>
        match fuel with
        | O => Oob
        | S fuel =>
            if c =? op then if MAX_JSON_DEPTH <? depth + 1 then Null else skip_nested2 fuel op cl p1 (depth + 1)
            else if c =? cl then skip_nested2 fuel op cl p1 (depth - 1)
            else if c =? QUOTE then skip_nested2 fuel op cl (past_string p1) depth
            else skip_nested2 fuel op cl p1 depth
        end
    end.

Definition skip_value (p : bytes) : outcome bytes :=
  match pj_skip_ws p with
  | [] => Null
  | c :: p1 =>
      let p := c :: p1 in
      if c =? QUOTE then skip_string p1
      else if c =? 123 then skip_nested2 (length p1) 123 125 p1 1
      else if c =? 91 then skip_nested2 (length p1) 91 93 p1 1
      else if is_dec c then Ret (skip_number p)
      else if has_prefix B"true" p then Ret (drop 4 p)
      else if has_prefix B"false" p then Ret (drop 5 p)
      else if has_prefix B"null" p then Ret (drop 4 p)
      else Null
  end.

(** ** Rules *)

(** The policy under construction and the allocator's answers. *)
Record pstate2 := mk_pstate2 { ps_policy : ak_policy_v2; ps_allocs : list bool }.

Definition on_policy2 (f : ak_policy_v2 -> ak_policy_v2) (st : pstate2) : pstate2 := mk_pstate2 (f (ps_policy st)) (ps_allocs st).

(** A rule is dropped without a word when its allocation fails. *)
Definition with_alloc (f : ak_policy_v2 -> ak_policy_v2) (st : pstate2) : pstate2 :=
  match ps_allocs st with
  | false :: al => mk_pstate2 (ps_policy st) al
  | true :: al => mk_pstate2 (f (ps_policy st)) al
  | [] => on_policy2 f st
  end.

(** [local_strncpy(rule->pattern, pattern, sizeof(rule->pattern) - 1)] keeps
    two bytes less than the array has. *)
Definition fit_pattern (size : nat) (s : bytes) : bytes := take (size - 2) (cstr s).

Definition set_rules (fs : list ak_fs_rule_v2) (net : list ak_net_rule_v2) (dns : list ak_dns_rule_v2) (tool : list ak_tool_rule_v2)
    (wasm : list ak_wasm_rule_v2) (infer : list ak_infer_rule_v2) (spawn : list ak_spawn_rule_v2) (p : ak_policy_v2) : ak_policy_v2 :=
  mk_policy2 (p2_version p) (p2_hash p) (p2_loaded_ns p) (p2_signature p) (p2_has_signature p) (p2_signature_verified p)
    fs net dns tool wasm infer spawn (p2_budgets p) (p2_profiles p) (p2_loaded p) (p2_fail_closed p).

Definition add_fs_rule (write : bool) (s : bytes) (p : ak_policy_v2) : ak_policy_v2 :=
  set_rules (mk_fs_rule (fit_pattern AK_POLICY_V2_MAX_PATTERN s) (negb write) write :: p2_fs_rules p) (p2_net_rules p) (p2_dns_rules p)
    (p2_tool_rules p) (p2_wasm_rules p) (p2_infer_rules p) (p2_spawn_rules p) p.
Definition add_dns_rule (s : bytes) (p : ak_policy_v2) : ak_policy_v2 :=
  set_rules (p2_fs_rules p) (p2_net_rules p) (mk_dns_rule (fit_pattern AK_POLICY_V2_MAX_PATTERN s) true :: p2_dns_rules p)
    (p2_tool_rules p) (p2_wasm_rules p) (p2_infer_rules p) (p2_spawn_rules p) p.
Definition add_net_connect_rule (s : bytes) (p : ak_policy_v2) : ak_policy_v2 :=
  set_rules (p2_fs_rules p) (mk_net_rule (fit_pattern AK_POLICY_V2_MAX_PATTERN s) true false false :: p2_net_rules p) (p2_dns_rules p)
    (p2_tool_rules p) (p2_wasm_rules p) (p2_infer_rules p) (p2_spawn_rules p) p.
Definition add_tool_rule (allow : bool) (s : bytes) (p : ak_policy_v2) : ak_policy_v2 :=
  set_rules (p2_fs_rules p) (p2_net_rules p) (p2_dns_rules p) (mk_tool_rule2 (fit_pattern 64 s) allow :: p2_tool_rules p)
    (p2_wasm_rules p) (p2_infer_rules p) (p2_spawn_rules p) p.
Definition add_wasm_module (s : bytes) (p : ak_policy_v2) : ak_policy_v2 :=
  set_rules (p2_fs_rules p) (p2_net_rules p) (p2_dns_rules p) (p2_tool_rules p)
    (mk_wasm_rule (fit_pattern 64 s) [] :: p2_wasm_rules p) (p2_infer_rules p) (p2_spawn_rules p) p.
Definition add_infer_model (max_tokens : Z) (s : bytes) (p : ak_policy_v2) : ak_policy_v2 :=
  set_rules (p2_fs_rules p) (p2_net_rules p) (p2_dns_rules p) (p2_tool_rules p) (p2_wasm_rules p)
    (mk_infer_rule (fit_pattern 64 s) max_tokens :: p2_infer_rules p) (p2_spawn_rules p) p.
Definition add_spawn_rule (allow inherit_caps inherit_policy sandboxed : bool) (s : bytes) (p : ak_policy_v2) : ak_policy_v2 :=
  set_rules (p2_fs_rules p) (p2_net_rules p) (p2_dns_rules p) (p2_tool_rules p) (p2_wasm_rules p) (p2_infer_rules p)
    (mk_spawn_rule (fit_pattern AK_POLICY_V2_MAX_PATTERN s) allow inherit_caps inherit_policy sandboxed 0 0 :: p2_spawn_rules p) p.

Definition set_profiles (l : list bytes) (p : ak_policy_v2) : ak_policy_v2 :=
  mk_policy2 (p2_version p) (p2_hash p) (p2_loaded_ns p) (p2_signature p) (p2_has_signature p) (p2_signature_verified p)
    (p2_fs_rules p) (p2_net_rules p) (p2_dns_rules p) (p2_tool_rules p) (p2_wasm_rules p) (p2_infer_rules p) (p2_spawn_rules p)
    (p2_budgets p) l (p2_loaded p) (p2_fail_closed p).
(** A full list keeps what it has, without an allocation. *)
Definition add_profile (s : bytes) (st : pstate2) : pstate2 :=
  if (AK_POLICY_V2_MAX_PROFILES <=? length (p2_profiles (ps_policy st)))%nat then st
  else with_alloc (fun p => set_profiles (p2_profiles p ++ [cstr s]) p) st.

Definition set_p2_version (v : bytes) (p : ak_policy_v2) : ak_policy_v2 :=
  mk_policy2 v (p2_hash p) (p2_loaded_ns p) (p2_signature p) (p2_has_signature p) (p2_signature_verified p)
    (p2_fs_rules p) (p2_net_rules p) (p2_dns_rules p) (p2_tool_rules p) (p2_wasm_rules p) (p2_infer_rules p) (p2_spawn_rules p)
    (p2_budgets p) (p2_profiles p) (p2_loaded p) (p2_fail_closed p).
Definition set_p2_signature (s : bytes) (p : ak_policy_v2) : ak_policy_v2 :=
  mk_policy2 (p2_version p) (p2_hash p) (p2_loaded_ns p) s true (p2_signature_verified p)
    (p2_fs_rules p) (p2_net_rules p) (p2_dns_rules p) (p2_tool_rules p) (p2_wasm_rules p) (p2_infer_rules p) (p2_spawn_rules p)
    (p2_budgets p) (p2_profiles p) (p2_loaded p) (p2_fail_closed p).
Definition set_p2_budgets (b : ak_budgets_v2) (p : ak_policy_v2) : ak_policy_v2 :=
  mk_policy2 (p2_version p) (p2_hash p) (p2_loaded_ns p) (p2_signature p) (p2_has_signature p) (p2_signature_verified p)
    (p2_fs_rules p) (p2_net_rules p) (p2_dns_rules p) (p2_tool_rules p) (p2_wasm_rules p) (p2_infer_rules p) (p2_spawn_rules p)
    b (p2_profiles p) (p2_loaded p) (p2_fail_closed p).
(** The hash of the document and what the load decided. *)
Definition set_p2_outcome (h : bytes) (verified loaded : bool) (p : ak_policy_v2) : ak_policy_v2 :=
  mk_policy2 (p2_version p) h (p2_loaded_ns p) (p2_signature p) (p2_has_signature p) verified
    (p2_fs_rules p) (p2_net_rules p) (p2_dns_rules p) (p2_tool_rules p) (p2_wasm_rules p) (p2_infer_rules p) (p2_spawn_rules p)
    (p2_budgets p) (p2_profiles p) loaded false.

(** ** The parser *)

Definition callback : Type := bytes -> pstate2 -> pstate2.

Fixpoint array2_loop (fuel : nat) (p : bytes) (st : pstate2) (cb : callback) : outcome (bytes * pstate2) :=
  match p with
  | [] => Null
  | _ =>
      match fuel with
      | O => Oob
      | S fuel =>
          match pj_skip_ws p with
          | [] => Null
          | c :: p1 =>
              if c =? 93 then Ret (p1, st)
              else
                let* r := parse_string (c :: p1) AK_POLICY_V2_MAX_PATTERN in
                let st := cb r.1 st in
                match pj_skip_ws r.2 with
                | [] => Null
                | d :: p3 => if d =? 44 then array2_loop fuel p3 st cb else if d =? 93 then array2_loop fuel (d :: p3) st cb else Null
                end
          end
      end
  end.

Definition parse_string_array (p : bytes) (st : pstate2) (cb : callback) : outcome (bytes * pstate2) :=
  match pj_skip_ws p with
  | [] => Null
  | c :: p1 => if c =? 91 then array2_loop (S (length p1)) p1 st cb else Null
  end.

(** A quoted key of at most [n - 1] bytes and its colon; [strict]: the code
    tests for the end of the document before it reads the colon. *)
Definition key_colon (strict : bool) (p : bytes) (n : nat) : outcome (bytes * bytes) :=
  let* r := parse_string p n in
  match pj_skip_ws r.2 with
  | [] => if strict then Null else Oob
  | c :: p1 => if c =? 58 then Ret (cstr r.1, p1) else Null
  end.

(** A comma behind a value; reading at the end is [Oob] without the test. *)
Definition past_comma (strict : bool) (p : bytes) : outcome bytes :=
  match pj_skip_ws p with
  | [] => if strict then Ret [] else Oob
  | c :: p1 => Ret (if c =? 44 then p1 else c :: p1)
  end.

Definition section_fields : Type := list (bytes * callback).
Fixpoint find_callback (fields : section_fields) (key : bytes) : option callback :=
  match fields with [] => None | (k, cb) :: rest => if bytes_eqb k key then Some cb else find_callback rest key end.

(** The body of ["fs"], ["net"], ["tools"], ["wasm"] and ["spawn"]. *)
Fixpoint section_loop (fuel : nat) (fields : section_fields) (p : bytes) (st : pstate2) : outcome (bytes * pstate2) :=
  match p with
  | [] => Ret ([], st)
  | _ =>
      match fuel with
      | O => Oob
      | S fuel =>
          match pj_skip_ws p with
          | [] => Null
          | c :: p1 =>
              if c =? 125 then Ret (p1, st)
              else
                let* k := key_colon true (c :: p1) 32 in
                let* r := match find_callback fields k.1 with
                          | Some cb => parse_string_array k.2 st cb
                          | None => let* p2 := skip_value k.2 in Ret (p2, st)
                          end in
                let* p3 := past_comma true r.1 in
                section_loop fuel fields p3 r.2
          end
      end
  end.

(** First pass over ["infer"]: the last ["max_tokens"]. *)
Fixpoint infer_limit_loop (fuel : nat) (p : bytes) (max_tokens : Z) : outcome Z :=
  match p with
  | [] => Ret max_tokens
  | _ =>
      match fuel with
      | O => Oob
      | S fuel =>
          match pj_skip_ws p with
          | [] => Oob
          | c :: p1 =>
              if c =? 125 then Ret max_tokens
              else
                let* k := key_colon false (c :: p1) 32 in
                let p2 := pj_skip_ws k.2 in
                let* r := if bytes_eqb k.1 B"max_tokens" then Ret (parse_number p2) else let* p3 := skip_value p2 in Ret (max_tokens, p3) in
                let* p4 := past_comma false r.2 in
                infer_limit_loop fuel p4 r.1
          end
      end
  end.

(** Second pass: the models. *)
Fixpoint infer_models_loop (fuel : nat) (max_tokens : Z) (p : bytes) (st : pstate2) : outcome (bytes * pstate2) :=
  match p with
  | [] => Ret ([], st)
  | _ =>
      match fuel with
      | O => Oob
      | S fuel =>
          match pj_skip_ws p with
          | [] => Oob
          | c :: p1 =>
              if c =? 125 then Ret (p1, st)
              else
                let* k := key_colon false (c :: p1) 32 in
                let* r := if bytes_eqb k.1 B"models" then parse_string_array k.2 st (fun s => with_alloc (add_infer_model max_tokens s))
                          else let* p2 := skip_value k.2 in Ret (p2, st) in
                let* p3 := past_comma false r.1 in
                infer_models_loop fuel max_tokens p3 r.2
          end
      end
  end.

(** [wall_time_ms] is multiplied without a test for overflow. *)
Definition set_budget2 (key : bytes) (v : Z) (b : ak_budgets_v2) : ak_budgets_v2 :=
  if bytes_eqb key B"tool_calls" then mk_budgets2 (b2_cpu_ns b) (b2_wall_ns b) (b2_bytes b) (b2_tokens b) v
  else if bytes_eqb key B"tokens" then mk_budgets2 (b2_cpu_ns b) (b2_wall_ns b) (b2_bytes b) v (b2_tool_calls b)
  else if bytes_eqb key B"wall_time_ms" then mk_budgets2 (b2_cpu_ns b) (u64 (v * MILLION)) (b2_bytes b) (b2_tokens b) (b2_tool_calls b)
  else if bytes_eqb key B"cpu_time_ns" then mk_budgets2 v (b2_wall_ns b) (b2_bytes b) (b2_tokens b) (b2_tool_calls b)
  else if bytes_eqb key B"bytes" then mk_budgets2 (b2_cpu_ns b) (b2_wall_ns b) v (b2_tokens b) (b2_tool_calls b)
  else b.

Fixpoint budgets2_loop (fuel : nat) (p : bytes) (st : pstate2) : outcome (bytes * pstate2) :=
  match p with
  | [] => Ret ([], st)
  | _ =>
      match fuel with
      | O => Oob
      | S fuel =>
          match pj_skip_ws p with
          | [] => Oob
          | c :: p1 =>
              if c =? 125 then Ret (p1, st)
              else
                let* k := key_colon false (c :: p1) 32 in
                let '(v, p2) := parse_number (pj_skip_ws k.2) in
                let* p3 := past_comma false p2 in
                budgets2_loop fuel p3 (on_policy2 (fun p => set_p2_budgets (set_budget2 k.1 v (p2_budgets p)) p) st)
          end
      end
  end.

Definition fs_fields : section_fields :=
  [(B"read", fun s => with_alloc (add_fs_rule false s)); (B"write", fun s => with_alloc (add_fs_rule true s))].
Definition net_fields : section_fields := [(B"dns", fun s => with_alloc (add_dns_rule s)); (B"connect", fun s => with_alloc (add_net_connect_rule s))].
Definition tools_fields : section_fields :=
  [(B"allow", fun s => with_alloc (add_tool_rule true s)); (B"deny", fun s => with_alloc (add_tool_rule false s))].
Definition wasm_fields : section_fields := [(B"modules", fun s => with_alloc (add_wasm_module s))].
Definition spawn_fields : section_fields :=
  [(B"allow", fun s => with_alloc (add_spawn_rule true true true false s)); (B"deny", fun s => with_alloc (add_spawn_rule false false false false s));
   (B"sandbox", fun s => with_alloc (add_spawn_rule true false true true s))].

(** A member that should be an object: another value is skipped, and a value
    that cannot be skipped leaves NULL behind, which is read at [next]. *)
Definition object_member (p : bytes) (st : pstate2) (body : bytes -> outcome (bytes * pstate2)) : outcome (bytes * pstate2) :=
  match p with
  | [] => Oob
  | c :: p1 => if c =? 123 then body p1 else match skip_value p with Ret p2 => Ret (p2, st) | _ => Oob end
  end.

(** [v2_parse_hex] of exactly 64 digits; an empty value is no signature. *)
Definition parse_signature2 (text : bytes) (st : pstate2) : outcome pstate2 :=
  let sighex := cstr text in
  match (if (length sighex =? 2 * AK_MAC_SIZE)%nat then parse_hex_bytes sighex AK_MAC_SIZE else None) with
  | Some b => Ret (on_policy2 (set_p2_signature b) st)
  | None => if negb (length sighex =? 0)%nat then Null else Ret st
  end.

Definition member2 (key p : bytes) (st : pstate2) : outcome (bytes * pstate2) :=
  if bytes_eqb key B"version" then let* r := parse_string p 16 in Ret (r.2, on_policy2 (set_p2_version (cstr r.1)) st)
  else if bytes_eqb key B"signature" then let* r := parse_string p (2 * AK_MAC_SIZE + 2) in let* st := parse_signature2 r.1 st in Ret (r.2, st)
  else if bytes_eqb key B"fs" then object_member p st (fun p => section_loop (length p) fs_fields p st)
  else if bytes_eqb key B"net" then object_member p st (fun p => section_loop (length p) net_fields p st)
  else if bytes_eqb key B"tools" then object_member p st (fun p => section_loop (length p) tools_fields p st)
  else if bytes_eqb key B"wasm" then object_member p st (fun p => section_loop (length p) wasm_fields p st)
  else if bytes_eqb key B"infer" then
    object_member p st (fun p => let* n := infer_limit_loop (length p) p 100000 in infer_models_loop (length p) n p st)
  else if bytes_eqb key B"budgets" then object_member p st (fun p => budgets2_loop (length p) p st)
  else if bytes_eqb key B"profiles" then parse_string_array p st add_profile
  else if bytes_eqb key B"spawn" then object_member p st (fun p => section_loop (length p) spawn_fields p st)
  else let* p2 := skip_value p in Ret (p2, st).

(** The document loop; the end of the document ends it. *)
Fixpoint document2_loop (fuel : nat) (p : bytes) (st : pstate2) : outcome pstate2 :=
  match p with
  | [] => Ret st
  | _ =>
      match fuel with
      | O => Oob
      | S fuel =>
          match pj_skip_ws p with
          | [] => Null
          | c :: p1 =>
              if c =? 125 then Ret st
              else
                let* k := key_colon true (c :: p1) 64 in
                let* r := member2 k.1 (pj_skip_ws k.2) st in
                let* p3 := past_comma true r.1 in
                document2_loop fuel p3 r.2
          end
      end
  end.

Definition parse_json_policy (st : pstate2) (json : bytes) : outcome pstate2 :=
  match pj_skip_ws json with
  | [] => Null
  | c :: p => if c =? 123 then document2_loop (length p) p st else Null
  end.

(** ** Validation *)

(** A decimal [int]; fifteen digits at most fit the version field, so the
    accumulation is kept at 32 bits. *)
Fixpoint int_loop (p : bytes) (v : Z) : Z * bytes :=
  match p with
  | c :: p' => if is_dec c then int_loop p' (s32 (v * 10 + (c - 48))) else (v, p)
  | [] => (v, [])
  end.

Definition validate_policy_version (version : bytes) : bool :=
  match cstr version with
  | [] => true
  | p =>
      let '(major, p) := int_loop p 0 in
      match p with
      | c :: p =>
          if negb (c =? 46) then false
          else
            let '(minor, p) := int_loop p 0 in
            match p with [] => if negb (major =? 1) then false else negb (0 <? minor) | _ => false end
      | [] => false
      end
  end.

(** Large budgets only print a warning. *)
Definition validate_policy_schema (p : ak_policy_v2) : bool :=
  if negb (length (cstr (p2_version p)) =? 0)%nat && negb (validate_policy_version (p2_version p)) then false
  else negb (AK_POLICY_V2_MAX_PROFILES <? length (p2_profiles p))%nat.

(** ** Integrity *)

Definition sig_key : bytes := JQ"'signature'".

(** From behind the opening quote to the closing one; [None] without one. *)
Fixpoint value_end (p : bytes) : option bytes :=
  match p with
  | [] => None
  | c :: p1 =>
      if c =? QUOTE then Some p
      else if c =? BACKSLASH then match p1 with [] => None | _ :: p2 => value_end p2 end
      else value_end p1
  end.

(** Behind the key: the value, when a colon and an opening quote follow. *)
Definition value_start (p : bytes) : option bytes :=
  match pj_skip_ws p with
  | c :: p1 =>
      if negb (c =? 58) then None
      else match pj_skip_ws p1 with q :: p2 => if q =? QUOTE then Some p2 else None | [] => None end
  | [] => None
  end.

(** The loop at [json + i], for the rest [p] of the document. *)
Fixpoint span_loop (len : nat) (p : bytes) : option (nat * nat) :=
  match p with
  | [] => None
  | _ :: p1 =>
      if (length p <=? length sig_key)%nat then None
      else if negb (has_prefix sig_key p) then span_loop len p1
      else
        match value_start (drop (length sig_key) p) with
        | None => span_loop len p1
        | Some v => match value_end v with None => None | Some e => Some (len - length v, len - length e)%nat end
        end
  end.

(** [vstart] and [vend]. *)
Definition find_signature_value_span (json : bytes) : option (nat * nat) := span_loop (length json) json.

(** The document with the signature value emptied. *)
Definition signed_content (json : bytes) : bytes :=
  match find_signature_value_span json with Some (vstart, vend) => take vstart json ++ drop vend json | None => json end.

Record verification_key := mk_vkey { vk_key : bytes; vk_configured : bool }.

Definition ak_policy_v2_set_verification_key (key : option bytes) : verification_key :=
  match key with Some k => mk_vkey (take AK_KEY_SIZE k) true | None => mk_vkey (zeros AK_KEY_SIZE) false end.

Section Load.
Context `{Hash}.

Definition compute_policy_hash (json : bytes) : bytes :=
  if (length json =? 0)%nat then zeros AK_HASH_SIZE else ak_sha256 json.

(** [scratch]: the allocation of the copy succeeds. *)
Definition compute_signed_content_hash (scratch : bool) (json : bytes) : option bytes :=
  match find_signature_value_span json with
  | None => Some (compute_policy_hash json)
  | Some _ => if scratch then Some (compute_policy_hash (signed_content json)) else None
  end.

(** For messages of one hash at most; the buffers are on the stack. *)
Definition v2_hmac_sha256 (key dat : bytes) : option bytes :=
  if (AK_HASH_SIZE <? length dat)%nat then None
  else
    let key_block := if (64 <? length key)%nat then ak_sha256 key ++ zeros 32 else key ++ zeros (64 - length key) in
    let inner_hash := ak_sha256 (((fun b => Z.lxor b 0x36) <$> key_block) ++ dat) in
    Some (ak_sha256 (((fun b => Z.lxor b 0x5c) <$> key_block) ++ inner_hash)).

Definition v2_constant_time_compare (a b : bytes) (len : nat) : bool := constant_time_compare a b len.

(** The conjunction the load tests under a configured key. *)
Definition tag_ok (key : bytes) (scratch : bool) (json : bytes) (p : ak_policy_v2) : bool :=
  p2_has_signature p &&
  match compute_signed_content_hash scratch json with
  | None => false
  | Some signed_hash =>
      match v2_hmac_sha256 key signed_hash with
      | None => false
      | Some mac => v2_constant_time_compare mac (p2_signature p) AK_MAC_SIZE
      end
  end.

(** ** Loading *)

Definition AK_PROFILE_TIER1_MUSL : bytes := JQ"{  'fs': {    'read': ['/proc/self/**']  },  'net': {    'dns': []  }}".
Definition AK_PROFILE_TIER2_GLIBC : bytes :=
  JQ"{  'fs': {    'read': [      '/lib/**',      '/lib64/**',      '/etc/ld.so.cache',      '/etc/ld.so.preload'," ++
  JQ"      '/etc/nsswitch.conf',      '/etc/resolv.conf',      '/proc/self/**'    ]  }}".

Definition ENOENT : Z := 2.

(** The code and what the profile leaves in the policy. *)
Definition ak_policy_v2_expand_profile (st : pstate2) (profile_name : bytes) : outcome (Z * pstate2) :=
  let parse json := match parse_json_policy st json with Ret st => Ret (0, st) | Null => Ret (- EINVAL, st) | Oob => Oob end in
  if bytes_eqb (cstr profile_name) B"tier1-musl" then parse AK_PROFILE_TIER1_MUSL
  else if bytes_eqb (cstr profile_name) B"tier2-glibc" then parse AK_PROFILE_TIER2_GLIBC
  else Ret (- ENOENT, st).

(** The results of the expansions are ignored. *)
Fixpoint expand_loop (profiles : list bytes) (st : pstate2) : outcome pstate2 :=
  match profiles with
  | [] => Ret st
  | name :: rest => let* r := ak_policy_v2_expand_profile st name in expand_loop rest r.2
  end.

Definition default_budgets2 : ak_budgets_v2 := mk_budgets2 0 (300000 * MILLION) (100 * 1024 * 1024) 100000 100.

(** A zeroed policy with the version and the budgets set. *)
Definition blank_policy (budgets : ak_budgets_v2) (fail_closed : bool) (now : Z) : ak_policy_v2 :=
  mk_policy2 AK_POLICY_V2_VERSION (zeros AK_HASH_SIZE) now (zeros AK_MAC_SIZE) false false [] [] [] [] [] [] [] budgets [] false fail_closed.

(** Outcomes of the allocations: the policy, its rules, the scratch copy. *)
Record allocs2 := mk_allocs2 { al_policy : bool; al_rules : list bool; al_scratch : bool }.

Definition ak_policy_v2_load (vk : verification_key) (al : allocs2) (json : option bytes) (now : Z) : outcome ak_policy_v2 :=
  match json with
  | None => Null
  | Some json =>
      if (length json =? 0)%nat then Null
      else if negb (al_policy al) then Null
      else
        let* st := parse_json_policy (mk_pstate2 (blank_policy default_budgets2 false now) (al_rules al)) json in
        let p := ps_policy st in
        if negb (validate_policy_schema p) then Null
        else if vk_configured vk && negb (tag_ok (vk_key vk) (al_scratch al) json p) then Null
        else
          let st := on_policy2 (set_p2_outcome (compute_policy_hash json) (vk_configured vk) false) st in
          let* st := expand_loop (p2_profiles (ps_policy st)) st in
          Ret (set_p2_outcome (p2_hash (ps_policy st)) (p2_signature_verified (ps_policy st)) true (ps_policy st))
  end.

Definition ak_policy_v2_load_buffer (vk : verification_key) (al : allocs2) (json : option bytes) (now : Z) : outcome ak_policy_v2 :=
  match json with None => Null | Some b => if (length b =? 0)%nat then Null else ak_policy_v2_load vk al (Some b) now end.

(** Not implemented. *)
Definition ak_policy_v2_load_file (path : option bytes) : outcome ak_policy_v2 := Null.

(** [embedded]: the document built into the image, if any. *)
Definition ak_policy_v2_bootstrap (vk : verification_key) (al : allocs2) (embedded : option bytes) (alloc : bool) (now : Z) : outcome ak_policy_v2 :=
  let closed := if alloc then Ret (blank_policy (mk_budgets2 0 0 0 0 0) true now) else Null in
  match embedded with
  | None => closed
  | Some json => match ak_policy_v2_load vk al (Some json) now with Null => closed | r => r end
  end.

Definition ak_policy_v2_get_hash (policy : option ak_policy_v2) : option bytes := match policy with Some p => Some (p2_hash p) | None => None end.
Definition ak_policy_v2_get_loaded_ns (policy : option ak_policy_v2) : Z := match policy with Some p => p2_loaded_ns p | None => 0 end.
End Load.
