(* ===== verification/PolicyV2Text.v ===== *)
(** * What an effect policy document means ([src/src/agentic/ak_policy_v2.c])

    A printer of documents in the format the parser reads, and the round trip:
    a document signed with the configured key loads, and the policy it gives
    grants what the document's patterns say.  A load under a key gives nothing
    else: the tag of what it accepts verifies over the document's bytes.  The
    last part shows where the parser departs from the format. *)

From S2P Require Import Prelude Crypto Pattern Budget Sequence Json Policy PolicyDoc PolicyText PathGlob PolicyV2 PolicyV2Doc.

(** ** Strings and arrays *)

Lemma string2_loop_esc s rest room :
  string2_loop (concat (esc <$> s) ++ QUOTE :: rest) room = Ret (take room s, rest).
Proof.
  revert room. induction s as [|c s IH]; intros room.
  - cbn. by destruct room.
  - rewrite fmap_cons. cbn [concat]. rewrite <-app_assoc.
    assert (Hput : put c room (string2_loop (concat (esc <$> s) ++ QUOTE :: rest) (pred room)) =
                   Ret (take room (c :: s), rest)) by (rewrite IH; by destruct room).
    destruct (esc_cases c) as [(e & -> & He)|(-> & H1 & H2)]; cbn [app string2_loop].
    + by rewrite He.
    + unfold QUOTE, BACKSLASH. destruct (Z.eqb_spec c 34), (Z.eqb_spec c 92); done.
Qed.

Lemma parse_string2_quote s rest m : parse_string (quote s ++ rest) m = Ret (take (m - 1) s, rest).
Proof. unfold quote, parse_string. rewrite <-app_comm_cons, <-app_assoc. cbn [Z.eqb]. apply string2_loop_esc. Qed.

Lemma past_string_esc s rest : past_string (concat (esc <$> s) ++ QUOTE :: rest) = rest.
Proof.
  induction s as [|c s IH]; [done|]. rewrite fmap_cons. cbn [concat]. rewrite <-app_assoc.
  destruct (esc_cases c) as [(e & -> & He)|(-> & H1 & H2)]; cbn [app past_string]; [done|].
  unfold QUOTE, BACKSLASH. destruct (Z.eqb_spec c 34), (Z.eqb_spec c 92); done.
Qed.

(** Keys: they fit the buffer and contain no NUL. *)
Definition plain (n : nat) (s : bytes) : Prop := short n s /\ nonul s.

Lemma key_colon_quote strict k rest n : plain n k -> key_colon strict (quote k ++ 58 :: rest) n = Ret (k, rest).
Proof.
  intros [Hs Hn]. unfold key_colon. rewrite parse_string2_quote, take_short by done. cbn [obind fst snd pj_skip_ws].
  change (is_ws 58) with false. cbn iota. by rewrite cstr_nonul_id.
Qed.

Lemma past_comma_skip strict c rest : c = 44 \/ c = 125 -> past_comma strict (c :: rest) = Ret (skip_comma (c :: rest)).
Proof. by intros [-> | ->]. Qed.

Lemma array2_join l fuel rest st (cb : callback) :
  Forall (short AK_POLICY_V2_MAX_PATTERN) l -> (length l < fuel)%nat ->
  array2_loop fuel (join (quote <$> l) ++ 93 :: rest) st cb = Ret (rest, foldl (fun st s => cb s st) st l).
Proof.
  intros Hl. revert fuel st. induction Hl as [|s l Hs Hl IH]; intros [|fuel] st Hf; cbn [length] in Hf; try lia; [done|].
  rewrite fmap_cons. cbn [foldl].
  assert (Hstep : forall tail, array2_loop (S fuel) (quote s ++ tail) st cb =
    match pj_skip_ws tail with
    | [] => Null
    | d :: p3 => if d =? 44 then array2_loop fuel p3 (cb s st) cb else if d =? 93 then array2_loop fuel (d :: p3) (cb s st) cb else Null
    end).
  { intros tail. destruct (quote_head s tail) as [r Er]. rewrite Er. cbn [array2_loop]. rewrite <-Er, skip_ws_quote, Er.
    cbn [Z.eqb QUOTE]. rewrite <-Er, parse_string2_quote. cbn [obind fst snd]. by rewrite take_short. }
  destruct l as [|s' l].
  - cbn [join fmap list_fmap app]. rewrite Hstep. cbn [pj_skip_ws]. change (is_ws 93) with false. cbn iota.
    destruct fuel as [|fuel]; [cbn in Hf; lia|]. done.
  - change (join (quote s :: (quote <$> s' :: l))) with (quote s ++ 44 :: join (quote <$> s' :: l)).
    rewrite <-app_assoc, <-app_comm_cons, Hstep. cbn [pj_skip_ws]. change (is_ws 44) with false. cbn iota.
    rewrite Z.eqb_refl. apply IH. cbn [length] in *. lia.
Qed.

Lemma parse_array2_print l rest st (cb : callback) :
  Forall (short AK_POLICY_V2_MAX_PATTERN) l ->
  parse_string_array (print_array l ++ rest) st cb = Ret (rest, foldl (fun st s => cb s st) st l).
Proof.
  intros Hl. unfold parse_string_array, print_array. cbn [app pj_skip_ws]. change (is_ws 91) with false.
  cbn iota. rewrite Z.eqb_refl, <-app_assoc. apply array2_join; [done|].
  pose proof (length_join _ (quotes_nonempty l)) as Hj. rewrite length_fmap in Hj. rewrite length_app. lia.
Qed.

(** Skipping a printed array or number. *)
Lemma skip_join l fuel rest :
  (length (join (quote <$> l)) < fuel)%nat ->
  skip_nested2 fuel 91 93 (join (quote <$> l) ++ 93 :: rest) 1 = Ret rest.
Proof.
  revert fuel. induction l as [|s l IH]; intros [|fuel] Hf; try lia.
  - cbn. by destruct fuel, rest.
  - rewrite fmap_cons in *.
    assert (Hstep : forall fuel tail, skip_nested2 (S fuel) 91 93 (quote s ++ tail) 1 = skip_nested2 fuel 91 93 tail 1).
    { intros f tail. unfold quote. rewrite <-app_comm_cons, <-app_assoc. cbn [skip_nested2 app Z.leb Z.eqb QUOTE].
      change (1 <=? 0) with false. cbn iota. by rewrite past_string_esc. }
    destruct l as [|s' l].
    + cbn [join fmap list_fmap app] in *. rewrite Hstep.
      unfold quote in Hf. cbn [length] in Hf. rewrite length_app in Hf. cbn [length] in Hf.
      destruct fuel as [|fuel]; [lia|]. cbn. by destruct fuel, rest.
    + change (join (quote s :: (quote <$> s' :: l))) with (quote s ++ 44 :: join (quote <$> s' :: l)) in *.
      rewrite <-app_assoc, <-app_comm_cons, Hstep.
      rewrite length_app in Hf. unfold quote at 1 in Hf. cbn [length] in Hf. rewrite length_app in Hf. cbn [length] in Hf.
      destruct fuel as [|fuel]; [lia|]. cbn [skip_nested2]. change (1 <=? 0) with false. cbn iota. cbn [Z.eqb QUOTE Pos.eqb].
      apply IH. lia.
Qed.

Lemma skip_value_array l rest : skip_value (print_array l ++ rest) = Ret rest.
Proof.
  unfold skip_value, print_array. cbn [app pj_skip_ws]. change (is_ws 91) with false. cbn iota.
  change (91 =? QUOTE) with false. change (91 =? 123) with false. rewrite Z.eqb_refl. cbn iota.
  rewrite <-app_assoc. apply skip_join. rewrite length_app. cbn [app length]. lia.
Qed.

Lemma dec_not_ws d : is_dec d = true -> is_ws d = false.
Proof. unfold is_dec, is_ws. intros. bprop. zsplit; (lia || done). Qed.

Lemma skip_value_number v c rest :
  0 <= v <= UINT64_MAX -> c = 44 \/ c = 125 -> skip_value (ak_u64_to_dec v ++ c :: rest) = Ret (c :: rest).
Proof.
  intros Hv Hc. destruct (u64_to_dec_spec v Hv) as (Hds & _ & Hne).
  assert (Hskip : forall ds, Forall (fun d => is_dec d = true) ds -> skip_number (ds ++ c :: rest) = c :: rest).
  { induction 1 as [|d ds Hd _ IH]; cbn [app skip_number]; [by destruct Hc as [-> | ->]|]. by rewrite Hd. }
  destruct (ak_u64_to_dec v) as [|d ds]; [done|]. inversion Hds as [|? ? Hd ?]; subst.
  unfold skip_value. rewrite <-app_comm_cons. cbn [pj_skip_ws]. rewrite dec_not_ws by done. rewrite Hd.
  assert (d <> 34 /\ d <> 123 /\ d <> 91) as (H1 & H2 & H3) by (unfold is_dec in Hd; bprop; lia).
  unfold QUOTE. apply Z.eqb_neq in H1, H2, H3. rewrite H1, H2, H3, app_comm_cons. by rewrite Hskip.
Qed.

Lemma parse_number_print v c rest :
  0 <= v <= UINT64_MAX -> c = 44 \/ c = 125 ->
  parse_number (pj_skip_ws (ak_u64_to_dec v ++ c :: rest)) = (v, c :: rest).
Proof.
  intros Hv Hc. destruct (u64_to_dec_spec v Hv) as (Hds & Hval & Hne). unfold parse_number.
  assert (E : pj_skip_ws (ak_u64_to_dec v ++ c :: rest) = ak_u64_to_dec v ++ c :: rest).
  { destruct (ak_u64_to_dec v) as [|d ds]; [done|]. inversion Hds as [|? ? Hd ?]; subst.
    cbn [app pj_skip_ws]. by rewrite dec_not_ws. }
  rewrite E, u64_loop_digits; [by rewrite Hval|done|by destruct Hc as [-> | ->]|lia|lia].
Qed.

(** ** Objects *)

Definition add_all (cb : callback) (l : list bytes) (st : pstate2) : pstate2 := foldl (fun st s => cb s st) st l.

(** Total member functions in sequence. *)
Lemma run_sems_total {A St} (f : A -> St -> St) (l : list A) (st : St) :
  run_sems ((fun a st => Ret (f a st)) <$> l) st = Ret (foldl (fun st a => f a st) st l).
Proof. revert st. induction l as [|a l IH]; intros st; [done|]. cbn. apply IH. Qed.

(** The step of the member loops: the end test passes over a quoted key. *)
Ltac at_key k p :=
  let r := fresh "r" in let Er := fresh "Er" in
  destruct (quote_head k (58 :: p)) as [r Er]; rewrite Er; cbn iota; rewrite <-Er, skip_ws_quote, Er; cbn iota;
  change (QUOTE =? 125) with false; cbn iota; rewrite <-Er, key_colon_quote by done; cbn [obind fst snd].

Lemma section_print fields (ms : list (bytes * list bytes)) (cbs : list callback) rest st :
  Forall2 (fun cb m => find_callback fields m.1 = Some cb /\ plain 32 m.1 /\ Forall (short AK_POLICY_V2_MAX_PATTERN) m.2) cbs ms ->
  object_member (print_lists ms ++ rest) st (fun p => section_loop (length p) fields p st) =
  Ret (rest, foldl (fun st x => add_all x.1 x.2 st) st (zip cbs ms.*2)).
Proof.
  intros Hms. unfold object_member, print_lists, print_object. cbn [app]. rewrite Z.eqb_refl, <-app_assoc. cbn [app].
  assert (Hlen : (length ((fun m : bytes * list bytes => (m.1, print_array m.2)) <$> ms) <
    length (join (print_member <$> ((fun m => (m.1, print_array m.2)) <$> ms)) ++ 125%Z :: rest))%nat)
    by (pose proof (length_members ((fun m => (m.1, print_array m.2)) <$> ms)); rewrite length_app; cbn [length]; lia).
  rewrite (members_join (fun fuel p st => section_loop fuel fields p st)
    (fun key p st => match find_callback fields key with
                     | Some cb => parse_string_array p st cb
                     | None => let* p2 := skip_value p in Ret (p2, st)
                     end) (fun st => Ret (rest, st)) (plain 32) rest) with
    (sems := (fun x st => Ret (add_all x.1 x.2 st)) <$> zip cbs ms.*2); [|..|exact Hlen].
  - by rewrite (run_sems_total (fun x => add_all x.1 x.2)).
  - done.
  - intros fuel k p st' sem c p' Hk Hc Hm. cbn [section_loop]. at_key k p. rewrite Hm.
    destruct (sem st'); [|done..]. cbn [obind fst snd]. by rewrite past_comma_skip.
  - clear Hlen. induction Hms as [|cb m cbs ms (Hf & _ & Hl) _ IH]; cbn; constructor; [|done].
    intros c p st' _. cbn [fst snd]. rewrite Hf. by apply parse_array2_print.
  - apply Forall_fmap. clear Hlen. induction Hms as [|cb m cbs ms (_ & Hk & _) _ IH]; by constructor.
Qed.

Definition set_number2 (m : bytes * Z) (st : pstate2) : pstate2 :=
  on_policy2 (fun p => set_p2_budgets (set_budget2 m.1 m.2 (p2_budgets p)) p) st.

Lemma budgets2_print (ms : list (bytes * Z)) rest st :
  Forall (fun m => plain 32 m.1 /\ 0 <= m.2 <= UINT64_MAX) ms ->
  object_member (print_numbers ms ++ rest) st (fun p => budgets2_loop (length p) p st) =
  Ret (rest, foldl (fun st m => set_number2 m st) st ms).
Proof.
  intros Hms. unfold object_member, print_numbers, print_object. cbn [app]. rewrite Z.eqb_refl, <-app_assoc. cbn [app].
  assert (Hlen : (length ((fun m : bytes * Z => (m.1, ak_u64_to_dec m.2)) <$> ms) <
    length (join (print_member <$> ((fun m => (m.1, ak_u64_to_dec m.2)) <$> ms)) ++ 125%Z :: rest))%nat)
    by (pose proof (length_members ((fun m => (m.1, ak_u64_to_dec m.2)) <$> ms)); rewrite length_app; cbn [length]; lia).
  rewrite (members_join budgets2_loop
    (fun key p st => let r := parse_number (pj_skip_ws p) in Ret (r.2, set_number2 (key, r.1) st))
    (fun st => Ret (rest, st)) (plain 32) rest) with (sems := (fun m st => Ret (set_number2 m st)) <$> ms); [|..|exact Hlen].
  - by rewrite run_sems_total.
  - done.
  - intros fuel k p st' sem c p' Hk Hc Hm. cbn [budgets2_loop]. at_key k p.
    destruct (parse_number (pj_skip_ws p)) as [v p2]. cbn [fst snd] in Hm. destruct (sem st') as [s| |]; [|done..].
    injection Hm as -> <-. cbn [obind]. by rewrite past_comma_skip.
  - clear Hlen. induction Hms as [|[k v] ms (_ & Hv) _ IH]; cbn; constructor; [|done].
    intros c p st' Hc. cbn [fst snd]. by rewrite parse_number_print.
  - apply Forall_fmap. eapply Forall_impl; [exact Hms|]. by intros [k v] [? _].
Qed.

(** ["infer"], read twice. *)
Definition print_infer (max_tokens : Z) (models : list bytes) : bytes :=
  print_object [(B"max_tokens", ak_u64_to_dec max_tokens); (B"models", print_array models)].

Lemma plain_keys n ks : forallb (fun k => (length k <? n)%nat && forallb (fun b => negb (b =? 0)) k) ks = true -> Forall (plain n) ks.
Proof.
  intros Hk. apply Forall_forall. intros k Hin%list_elem_of_In. rewrite forallb_forall in Hk. specialize (Hk k Hin).
  apply andb_true_iff in Hk as [Hl Hb]. split; [by apply Nat.ltb_lt|]. apply Forall_forall. intros b Hb'%list_elem_of_In.
  rewrite forallb_forall in Hb. specialize (Hb b Hb'). by bprop.
Qed.

Lemma plain_key n k : (length k <? n)%nat && forallb (fun b => negb (b =? 0)) k = true -> plain n k.
Proof. intros Hk. apply (Forall_singleton (plain n)), plain_keys. cbn [forallb]. by rewrite Hk. Qed.

Lemma plain_members {A} n (ms : list (bytes * A)) :
  forallb (fun k => (length k <? n)%nat && forallb (fun b => negb (b =? 0)) k) ms.*1 = true -> Forall (fun m => plain n m.1) ms.
Proof. intros Hk%plain_keys. rewrite Forall_fmap in Hk. exact Hk. Qed.

Lemma infer_print max_tokens models rest st :
  0 <= max_tokens <= UINT64_MAX -> Forall (short AK_POLICY_V2_MAX_PATTERN) models ->
  object_member (print_infer max_tokens models ++ rest) st
    (fun p => let* n := infer_limit_loop (length p) p 100000 in infer_models_loop (length p) n p st) =
  Ret (rest, add_all (fun s => with_alloc (add_infer_model max_tokens s)) models st).
Proof.
  intros Hn Hm. unfold object_member, print_infer, print_object. cbn [app]. rewrite Z.eqb_refl, <-app_assoc. cbn [app].
  set (ms := [(B"max_tokens", ak_u64_to_dec max_tokens); (B"models", print_array models)]).
  assert (Hlen : (length ms < length (join (print_member <$> ms) ++ 125%Z :: rest))%nat)
    by (pose proof (length_members ms); rewrite length_app; cbn [length] in *; lia).
  assert (Hk : Forall (fun m => plain 32 m.1) ms).
  { by apply plain_members. }
  rewrite (members_join infer_limit_loop
    (fun key p n => let p2 := pj_skip_ws p in
       let* r := if bytes_eqb key B"max_tokens" then Ret (parse_number p2) else let* p3 := skip_value p2 in Ret (n, p3) in Ret (r.2, r.1))
    Ret (plain 32) rest) with (sems := [(fun _ => Ret max_tokens); (fun n => Ret n)]); [..|exact Hlen]; [|done|..|exact Hk].
  - cbn [run_sems obind]. rewrite (members_join (fun fuel p st => infer_models_loop fuel max_tokens p st)
      (fun key p st => if bytes_eqb key B"models" then parse_string_array p st (fun s => with_alloc (add_infer_model max_tokens s))
                       else let* p2 := skip_value p in Ret (p2, st))
      (fun st => Ret (rest, st)) (plain 32) rest) with
      (sems := [(fun st => Ret st); (fun st => Ret (add_all (fun s => with_alloc (add_infer_model max_tokens s)) models st))]);
      [done|done|..|exact Hk|exact Hlen].
    + intros fuel k p st' sem c p' Hkk Hc Hmm. cbn [infer_models_loop]. at_key k p. rewrite Hmm.
      destruct (sem st'); [|done..]. cbn [obind fst snd]. by rewrite past_comma_skip.
    + repeat constructor; intros c p st' Hc; cbn [fst snd].
      * change (bytes_eqb B"max_tokens" B"models") with false. cbn iota. by rewrite skip_value_number.
      * rewrite bytes_eqb_refl. by rewrite parse_array2_print.
  - intros fuel k p st' sem c p' Hkk Hc Hmm. cbn [infer_limit_loop]. at_key k p. cbv zeta in *.
    destruct (if bytes_eqb k B"max_tokens" then _ else _) as [[v p2]| |]; cbn [obind fst snd] in *;
      destruct (sem st') as [s| |]; try done. injection Hmm as -> ->. cbn [obind]. by rewrite past_comma_skip.
  - repeat constructor; intros c p st' Hc; cbn [fst snd]; cbv zeta.
    + rewrite bytes_eqb_refl. by rewrite parse_number_print.
    + change (bytes_eqb B"models" B"max_tokens") with false. cbn iota.
      change (pj_skip_ws (print_array models ++ c :: p)) with (print_array models ++ c :: p). by rewrite skip_value_array.
Qed.

(** ** Documents *)

Record document2 := mk_document2 {
  d2_version : bytes; d2_read : list bytes; d2_write : list bytes; d2_dns : list bytes; d2_connect : list bytes;
  d2_tools_allow : list bytes; d2_tools_deny : list bytes; d2_modules : list bytes; d2_max_tokens : Z; d2_models : list bytes;
  d2_tool_calls : Z; d2_tokens : Z; d2_wall_time_ms : Z; d2_cpu_time_ns : Z; d2_bytes : Z; d2_profiles : list bytes;
  d2_spawn_allow : list bytes; d2_spawn_deny : list bytes; d2_sandbox : list bytes }.

Definition budget2_members (d : document2) : list (bytes * Z) :=
  [(B"tool_calls", d2_tool_calls d); (B"tokens", d2_tokens d); (B"wall_time_ms", d2_wall_time_ms d);
   (B"cpu_time_ns", d2_cpu_time_ns d); (B"bytes", d2_bytes d)].

(** The signature, in hex, comes first. *)
Definition document2_members (d : document2) (sighex : bytes) : list (bytes * bytes) :=
  [(B"signature", quote sighex);
   (B"version", quote (d2_version d));
   (B"fs", print_lists [(B"read", d2_read d); (B"write", d2_write d)]);
   (B"net", print_lists [(B"dns", d2_dns d); (B"connect", d2_connect d)]);
   (B"tools", print_lists [(B"allow", d2_tools_allow d); (B"deny", d2_tools_deny d)]);
   (B"wasm", print_lists [(B"modules", d2_modules d)]);
   (B"infer", print_infer (d2_max_tokens d) (d2_models d));
   (B"budgets", print_numbers (budget2_members d));
   (B"profiles", print_array (d2_profiles d));
   (B"spawn", print_lists [(B"allow", d2_spawn_allow d); (B"deny", d2_spawn_deny d); (B"sandbox", d2_sandbox d)])].
Definition print_document2 (d : document2) (sighex : bytes) : bytes := print_object (document2_members d sighex).

(** Rules are added at the head of their list. *)
Definition push_all {A C} (g : A -> C) (l : list A) (old : list C) : list C := foldl (fun acc s => g s :: acc) old l.

Lemma elem_of_push_all {A C} (g : A -> C) l old x : x ∈ push_all g l old <-> (exists s, s ∈ l /\ x = g s) \/ x ∈ old.
Proof.
  revert old. induction l as [|a l IH]; intros old; cbn; [set_solver|]. fold (push_all g l (g a :: old)).
  rewrite IH, elem_of_cons. setoid_rewrite elem_of_cons. naive_solver.
Qed.

Definition read_rule (s : bytes) : ak_fs_rule_v2 := mk_fs_rule s true false.
Definition write_rule (s : bytes) : ak_fs_rule_v2 := mk_fs_rule s false true.
Definition dns_rule (s : bytes) : ak_dns_rule_v2 := mk_dns_rule s true.
Definition connect_rule (s : bytes) : ak_net_rule_v2 := mk_net_rule s true false false.
Definition tool_rule2 (allow : bool) (s : bytes) : ak_tool_rule_v2 := mk_tool_rule2 s allow.
Definition module_rule (s : bytes) : ak_wasm_rule_v2 := mk_wasm_rule s [].
Definition model_rule (n : Z) (s : bytes) : ak_infer_rule_v2 := mk_infer_rule s n.
Definition spawn_rule (allow caps policy sandboxed : bool) (s : bytes) : ak_spawn_rule_v2 := mk_spawn_rule s allow caps policy sandboxed 0 0.

(** The rules a document stands for, the first in the list last in the document. *)
Definition doc_fs (d : document2) := push_all write_rule (d2_write d) (push_all read_rule (d2_read d) []).
Definition doc_net (d : document2) := push_all connect_rule (d2_connect d) [].
Definition doc_dns (d : document2) := push_all dns_rule (d2_dns d) [].
Definition doc_tools2 (d : document2) := push_all (tool_rule2 false) (d2_tools_deny d) (push_all (tool_rule2 true) (d2_tools_allow d) []).
Definition doc_wasm (d : document2) := push_all module_rule (d2_modules d) [].
Definition doc_infer (d : document2) := push_all (model_rule (d2_max_tokens d)) (d2_models d) [].
Definition doc_spawn (d : document2) :=
  push_all (spawn_rule true false true true) (d2_sandbox d)
    (push_all (spawn_rule false false false false) (d2_spawn_deny d) (push_all (spawn_rule true true true false) (d2_spawn_allow d) [])).
Definition doc_budgets2 (d : document2) : ak_budgets_v2 :=
  mk_budgets2 (d2_cpu_time_ns d) (d2_wall_time_ms d * MILLION) (d2_bytes d) (d2_tokens d) (d2_tool_calls d).

Definition patterns (n : nat) : list bytes -> Prop := Forall (plain n).

Record wf_document2 (d : document2) : Prop := {
  w2_version : plain 16 (d2_version d) /\ validate_policy_version (d2_version d) = true;
  w2_fs : patterns 255 (d2_read d) /\ patterns 255 (d2_write d);
  w2_net : patterns 255 (d2_dns d) /\ patterns 255 (d2_connect d);
  w2_tools : patterns 63 (d2_tools_allow d) /\ patterns 63 (d2_tools_deny d);
  w2_wasm : patterns 63 (d2_modules d);
  w2_infer : 0 <= d2_max_tokens d <= UINT64_MAX /\ patterns 63 (d2_models d);
  w2_budgets : Forall (fun m => 0 <= m.2 <= UINT64_MAX) (budget2_members d) /\ d2_wall_time_ms d * MILLION <= UINT64_MAX;
  w2_profiles : patterns 256 (d2_profiles d) /\ (length (d2_profiles d) <= AK_POLICY_V2_MAX_PROFILES)%nat;
  w2_spawn : patterns 255 (d2_spawn_allow d) /\ patterns 255 (d2_spawn_deny d) /\ patterns 255 (d2_sandbox d) }.

Lemma patterns_short n m l : patterns n l -> (n <= m)%nat -> Forall (short m) l.
Proof. intros Hl Hn. eapply Forall_impl; [exact Hl|]. intros s [Hs _]. unfold short in *. lia. Qed.

Lemma fit_pattern_id n s : plain (n - 1) s -> fit_pattern n s = s.
Proof. intros [Hs Hn]. unfold fit_pattern, short in *. rewrite cstr_nonul_id by done. apply take_ge. lia. Qed.

(** Adding rules of one kind when every allocation succeeds. *)
Lemma add_all_push {C} (f : bytes -> ak_policy_v2 -> ak_policy_v2) (g : bytes -> C) (get : ak_policy_v2 -> list C)
    (set : list C -> ak_policy_v2 -> ak_policy_v2) (ok : bytes -> Prop) l p :
  (forall s p, ok s -> f s p = set (g s :: get p) p) -> (forall p, set (get p) p = p) ->
  (forall x p, get (set x p) = x) -> (forall x y p, set x (set y p) = set x p) ->
  Forall ok l -> add_all (fun s => with_alloc (f s)) l (mk_pstate2 p []) = mk_pstate2 (set (push_all g l (get p)) p) [].
Proof.
  intros Hf Hid Hget Hset Hl. revert p. induction Hl as [|s l Hs _ IH]; intros p; [cbn; by rewrite Hid|].
  transitivity (add_all (fun s => with_alloc (f s)) l (mk_pstate2 (f s p) [])); [done|].
  cbn [push_all foldl]. fold (push_all g l (g s :: get p)). by rewrite IH, (Hf _ _ Hs), Hget, Hset.
Qed.

Definition set_fs (l : list ak_fs_rule_v2) (p : ak_policy_v2) : ak_policy_v2 :=
  set_rules l (p2_net_rules p) (p2_dns_rules p) (p2_tool_rules p) (p2_wasm_rules p) (p2_infer_rules p) (p2_spawn_rules p) p.
Definition set_net (l : list ak_net_rule_v2) (p : ak_policy_v2) : ak_policy_v2 :=
  set_rules (p2_fs_rules p) l (p2_dns_rules p) (p2_tool_rules p) (p2_wasm_rules p) (p2_infer_rules p) (p2_spawn_rules p) p.
Definition set_dns (l : list ak_dns_rule_v2) (p : ak_policy_v2) : ak_policy_v2 :=
  set_rules (p2_fs_rules p) (p2_net_rules p) l (p2_tool_rules p) (p2_wasm_rules p) (p2_infer_rules p) (p2_spawn_rules p) p.
Definition set_tools (l : list ak_tool_rule_v2) (p : ak_policy_v2) : ak_policy_v2 :=
  set_rules (p2_fs_rules p) (p2_net_rules p) (p2_dns_rules p) l (p2_wasm_rules p) (p2_infer_rules p) (p2_spawn_rules p) p.
Definition set_wasm (l : list ak_wasm_rule_v2) (p : ak_policy_v2) : ak_policy_v2 :=
  set_rules (p2_fs_rules p) (p2_net_rules p) (p2_dns_rules p) (p2_tool_rules p) l (p2_infer_rules p) (p2_spawn_rules p) p.
Definition set_infer (l : list ak_infer_rule_v2) (p : ak_policy_v2) : ak_policy_v2 :=
  set_rules (p2_fs_rules p) (p2_net_rules p) (p2_dns_rules p) (p2_tool_rules p) (p2_wasm_rules p) l (p2_spawn_rules p) p.
Definition set_spawn (l : list ak_spawn_rule_v2) (p : ak_policy_v2) : ak_policy_v2 :=
  set_rules (p2_fs_rules p) (p2_net_rules p) (p2_dns_rules p) (p2_tool_rules p) (p2_wasm_rules p) (p2_infer_rules p) l p.

Ltac adds_rule fit :=
  let s := fresh "s" in let p := fresh "p" in let Hs := fresh "Hs" in
  apply add_all_push; [intros s p Hs; rewrite <-(fit_pattern_id fit s Hs) at 2; by destruct p|by intros []|done|done].

Lemma add_read l p : patterns 255 l ->
  add_all (fun s => with_alloc (add_fs_rule false s)) l (mk_pstate2 p []) = mk_pstate2 (set_fs (push_all read_rule l (p2_fs_rules p)) p) [].
Proof. adds_rule 256%nat. Qed.
Lemma add_write l p : patterns 255 l ->
  add_all (fun s => with_alloc (add_fs_rule true s)) l (mk_pstate2 p []) = mk_pstate2 (set_fs (push_all write_rule l (p2_fs_rules p)) p) [].
Proof. adds_rule 256%nat. Qed.
Lemma add_dns l p : patterns 255 l ->
  add_all (fun s => with_alloc (add_dns_rule s)) l (mk_pstate2 p []) = mk_pstate2 (set_dns (push_all dns_rule l (p2_dns_rules p)) p) [].
Proof. adds_rule 256%nat. Qed.
Lemma add_connect l p : patterns 255 l ->
  add_all (fun s => with_alloc (add_net_connect_rule s)) l (mk_pstate2 p []) = mk_pstate2 (set_net (push_all connect_rule l (p2_net_rules p)) p) [].
Proof. adds_rule 256%nat. Qed.
Lemma add_tools b l p : patterns 63 l ->
  add_all (fun s => with_alloc (add_tool_rule b s)) l (mk_pstate2 p []) = mk_pstate2 (set_tools (push_all (tool_rule2 b) l (p2_tool_rules p)) p) [].
Proof. adds_rule 64%nat. Qed.
Lemma add_modules l p : patterns 63 l ->
  add_all (fun s => with_alloc (add_wasm_module s)) l (mk_pstate2 p []) = mk_pstate2 (set_wasm (push_all module_rule l (p2_wasm_rules p)) p) [].
Proof. adds_rule 64%nat. Qed.
Lemma add_models n l p : patterns 63 l ->
  add_all (fun s => with_alloc (add_infer_model n s)) l (mk_pstate2 p []) = mk_pstate2 (set_infer (push_all (model_rule n) l (p2_infer_rules p)) p) [].
Proof. adds_rule 64%nat. Qed.
Lemma add_spawns a c q b l p : patterns 255 l ->
  add_all (fun s => with_alloc (add_spawn_rule a c q b s)) l (mk_pstate2 p []) =
  mk_pstate2 (set_spawn (push_all (spawn_rule a c q b) l (p2_spawn_rules p)) p) [].
Proof. adds_rule 256%nat. Qed.

Lemma add_profiles l p :
  Forall nonul l -> (length (p2_profiles p) + length l <= AK_POLICY_V2_MAX_PROFILES)%nat ->
  add_all add_profile l (mk_pstate2 p []) = mk_pstate2 (set_profiles (p2_profiles p ++ l) p) [].
Proof.
  intros Hl. revert p. induction Hl as [|s l Hs _ IH]; intros p Hn; cbn [length] in Hn.
  - cbn. rewrite app_nil_r. by destruct p.
  - transitivity (add_all add_profile l (add_profile s (mk_pstate2 p []))); [done|]. unfold add_profile at 2. cbn [ps_policy].
    destruct (Nat.leb_spec AK_POLICY_V2_MAX_PROFILES (length (p2_profiles p))); [lia|].
    change (with_alloc _ (mk_pstate2 p [])) with (mk_pstate2 (set_profiles (p2_profiles p ++ [cstr s]) p) []).
    rewrite IH by (destruct p; cbn in *; rewrite length_app; cbn; lia). destruct p; cbn. rewrite cstr_nonul_id by done.
    by rewrite <-app_assoc.
Qed.

(** ** Signatures in hex *)

Lemma hex_char_table :
  forallb (fun c => negb (c =? 34) && negb (c =? 92) && negb (c =? 10) && negb (c =? 13) && negb (c =? 9) && negb (c =? 0) &&
                    (hex_nibble c =? hex_digit c)) hex_chars = true.
Proof. vm_compute. reflexivity. Qed.

Definition hex_char (c : Z) : Prop := c <> 34 /\ c <> 92 /\ c <> 0 /\ esc c = [c] /\ hex_nibble c = hex_digit c.

Lemma hex_chars_ok c : c ∈ hex_chars -> hex_char c.
Proof.
  intros Hc%list_elem_of_In. pose proof hex_char_table as Ht. rewrite forallb_forall in Ht. specialize (Ht c Hc). bprop.
  unfold hex_char, esc. split_and!; try done. zsplit; (lia || done).
Qed.

Lemma hex_encode_chars data : Forall hex_char (ak_hex_encode data).
Proof.
  unfold ak_hex_encode. induction data as [|b data IH]; [constructor|]. cbn [mbind list_bind app].
  assert (Hn : forall x, hex_char (hex_chars !!! Z.to_nat (Z.land x 15))).
  { intros x. apply hex_chars_ok. change 15 with (Z.ones 4). rewrite Z.land_ones by lia.
    pose proof (Z.mod_pos_bound x (2 ^ 4) ltac:(lia)).
    apply list_elem_of_lookup_2 with (i := Z.to_nat (x mod 2 ^ 4)). apply list_lookup_lookup_total_lt.
    change (length hex_chars) with 16%nat. lia. }
  constructor; [apply Hn|constructor; [apply Hn|exact IH]].
Qed.

Lemma esc_hex l : Forall hex_char l -> concat (esc <$> l) = l.
Proof. induction 1 as [|c l (_ & _ & _ & E & _) _ IH]; [done|]. rewrite fmap_cons. cbn [concat]. by rewrite E, IH. Qed.

Lemma quote_hex l : Forall hex_char l -> quote l = QUOTE :: l ++ [QUOTE].
Proof. intros Hl. unfold quote. by rewrite esc_hex. Qed.

Lemma nonul_hex l : Forall hex_char l -> nonul l.
Proof. intros Hl. eapply Forall_impl; [exact Hl|]. unfold hex_char. tauto. Qed.

Lemma value_end_hex l rest : Forall hex_char l -> value_end (l ++ QUOTE :: rest) = Some (QUOTE :: rest).
Proof.
  induction 1 as [|c l (H1 & H2 & _) _ IH]; [done|]. cbn [app value_end]. unfold QUOTE, BACKSLASH in *.
  destruct (Z.eqb_spec c 34), (Z.eqb_spec c 92); done.
Qed.

Lemma parse_hex_encode data : wf_bytes data -> parse_hex_bytes (ak_hex_encode data) (length data) = Some data.
Proof.
  intros Hd. pose proof (hex_encode_chars data) as Hc. revert Hc. induction Hd as [|b data Hb _ IH]; [done|].
  destruct (hex_pair b Hb) as (H1 & H2 & H3). cbv zeta in *. unfold ak_hex_encode in *. cbn [mbind list_bind app length parse_hex_bytes].
  intros Hc. inversion Hc as [|? ? (_ & _ & _ & _ & E1) Hc']; subst. inversion Hc' as [|? ? (_ & _ & _ & _ & E2) Hc'']; subst.
  rewrite E1, E2, H3, (IH Hc''). destruct (Z.ltb_spec (hex_digit (hex_chars !!! Z.to_nat (Z.land (Z.shiftr b 4) 15))) 0); [lia|].
  destruct (Z.ltb_spec (hex_digit (hex_chars !!! Z.to_nat (Z.land b 15))) 0); [lia|]. cbn [orb]. cbv iota.
  unfold u8. by rewrite Z.mod_small.
Qed.

(** The text of an optional tag. *)
Definition tag_text (tag : option bytes) : bytes := match tag with Some t => ak_hex_encode t | None => [] end.
Definition is_tag (tag : option bytes) : Prop := forall t, tag = Some t -> wf_bytes t /\ length t = AK_MAC_SIZE.
Definition put_tag (tag : option bytes) (p : ak_policy_v2) : ak_policy_v2 := match tag with Some t => set_p2_signature t p | None => p end.

Lemma tag_text_chars tag : Forall hex_char (tag_text tag).
Proof. destruct tag; [apply hex_encode_chars|constructor]. Qed.

Lemma parse_signature2_tag tag st : is_tag tag -> parse_signature2 (tag_text tag) st = Ret (on_policy2 (put_tag tag) st).
Proof.
  intros Ht. unfold parse_signature2. rewrite cstr_nonul_id by apply nonul_hex, tag_text_chars.
  destruct tag as [t|]; [|by destruct st]. destruct (Ht t eq_refl) as [Hw Hl]. cbn [tag_text]. rewrite length_hex_encode, Hl, Nat.eqb_refl.
  rewrite <-Hl, parse_hex_encode by done. done.
Qed.

Lemma length_tag_text tag : is_tag tag -> (length (tag_text tag) <= 2 * AK_MAC_SIZE)%nat.
Proof. destruct tag as [t|]; cbn [tag_text]; [|cbn; lia]. intros Ht. destruct (Ht t eq_refl) as [_ Hl]. rewrite length_hex_encode. lia. Qed.

Lemma span_loop_step len p :
  span_loop len p =
  if (length p <=? length sig_key)%nat then None
  else if negb (has_prefix sig_key p) then span_loop len (tail p)
  else
    match value_start (drop (length sig_key) p) with
    | None => span_loop len (tail p)
    | Some v => match value_end v with None => None | Some e => Some (len - length v, len - length e)%nat end
    end.
Proof. by destruct p. Qed.

Lemma span_loop_here len v rest :
  Forall hex_char v ->
  span_loop len (123 :: sig_key ++ 58 :: QUOTE :: v ++ QUOTE :: rest) =
  Some (len - length (v ++ QUOTE :: rest), len - length (QUOTE :: rest))%nat.
Proof.
  intros Hv. rewrite span_loop_step.
  destruct (Nat.leb_spec (length (123 :: sig_key ++ 58 :: QUOTE :: v ++ QUOTE :: rest)) (length sig_key)) as [Hl|_];
    [cbn in Hl; lia|].
  change (has_prefix sig_key (123 :: _)) with false. cbn [negb tail]. cbn iota. rewrite span_loop_step.
  destruct (Nat.leb_spec (length (sig_key ++ 58 :: QUOTE :: v ++ QUOTE :: rest)) (length sig_key)) as [Hl|_];
    [cbn in Hl; lia|].
  change (has_prefix sig_key (sig_key ++ _)) with true. cbn [negb]. cbn iota. rewrite drop_app_length.
  change (value_start (58 :: QUOTE :: v ++ QUOTE :: rest)) with (Some (v ++ QUOTE :: rest)). cbn iota.
  by rewrite value_end_hex.
Qed.

(** The value of the signature member is what the signed content leaves out. *)
Lemma signed_content_print d tag : signed_content (print_document2 d (tag_text tag)) = print_document2 d [].
Proof.
  pose proof (tag_text_chars tag) as Hc. unfold print_document2, print_object, document2_members.
  set (ms := [(B"version", _); _; _; _; _; _; _; _; _]).
  assert (E : forall v, Forall hex_char v -> 123 :: join (print_member <$> (B"signature", quote v) :: ms) ++ [125] =
    (123 :: sig_key ++ [58; QUOTE]) ++ v ++ QUOTE :: 44 :: join (print_member <$> ms) ++ [125]).
  { intros v Hv. rewrite fmap_cons. change (join (?a :: (print_member <$> ms))) with (a ++ 44 :: join (print_member <$> ms)).
    change (print_member (B"signature", quote v)) with (sig_key ++ 58 :: quote v). rewrite quote_hex by done. asc. }
  rewrite !E by (done || constructor). set (rest := 44 :: _).
  set (v := tag_text tag) in *. set (pre := 123 :: sig_key ++ [58; QUOTE]).
  assert (Hspan : find_signature_value_span (pre ++ v ++ QUOTE :: rest) = Some (length pre, length pre + length v)%nat).
  { unfold find_signature_value_span. subst pre.
    change ((123 :: sig_key ++ [58; QUOTE]) ++ v ++ QUOTE :: rest) with (123 :: sig_key ++ 58 :: QUOTE :: v ++ QUOTE :: rest).
    rewrite span_loop_here by done. f_equal. cbn. rewrite length_app. cbn. f_equal; lia. }
  unfold signed_content. rewrite Hspan. rewrite take_app_length. rewrite app_assoc, drop_app_length' by (rewrite length_app; lia).
  done.
Qed.

(** ** The policy a document stands for *)

Definition document2_sems (d : document2) (tag : option bytes) : list (pstate2 -> outcome pstate2) :=
  (fun f st => Ret (f st)) <$>
  [on_policy2 (put_tag tag); on_policy2 (set_p2_version (d2_version d));
   (fun st => add_all (fun s => with_alloc (add_fs_rule true s)) (d2_write d) (add_all (fun s => with_alloc (add_fs_rule false s)) (d2_read d) st));
   (fun st => add_all (fun s => with_alloc (add_net_connect_rule s)) (d2_connect d) (add_all (fun s => with_alloc (add_dns_rule s)) (d2_dns d) st));
   (fun st => add_all (fun s => with_alloc (add_tool_rule false s)) (d2_tools_deny d) (add_all (fun s => with_alloc (add_tool_rule true s)) (d2_tools_allow d) st));
   add_all (fun s => with_alloc (add_wasm_module s)) (d2_modules d);
   add_all (fun s => with_alloc (add_infer_model (d2_max_tokens d) s)) (d2_models d);
   (fun st => foldl (fun st m => set_number2 m st) st (budget2_members d));
   add_all add_profile (d2_profiles d);
   (fun st => add_all (fun s => with_alloc (add_spawn_rule true false true true s)) (d2_sandbox d)
      (add_all (fun s => with_alloc (add_spawn_rule false false false false s)) (d2_spawn_deny d)
        (add_all (fun s => with_alloc (add_spawn_rule true true true false s)) (d2_spawn_allow d) st)))].

(** A member whose section holds the lists [ms] under the callbacks [cbs]. *)
Ltac reads_section fields ms cbs :=
  match goal with |- member2 ?key (pj_skip_ws (?v ++ ?t)) ?st = _ =>
    change (member2 key (pj_skip_ws (v ++ t)) st) with (object_member (v ++ t) st (fun p => section_loop (length p) fields p st))
  end;
  rewrite (section_print fields ms cbs);
  [reflexivity|repeat apply Forall2_cons_2; [..|apply Forall2_nil_2]; cbn [fst snd];
   (split; [reflexivity|split; [by apply plain_key|eapply patterns_short; [eassumption|unfold AK_POLICY_V2_MAX_PATTERN; lia]]])].

Lemma budget2_members_ok d :
  Forall (fun m => 0 <= m.2 <= UINT64_MAX) (budget2_members d) -> Forall (fun m => plain 32 m.1 /\ 0 <= m.2 <= UINT64_MAX) (budget2_members d).
Proof.
  intros Hb. apply Forall_and. split; [|done]. by apply plain_members.
Qed.

Lemma members2_read d tag :
  wf_document2 d -> is_tag tag ->
  Forall2 (reads (fun key p st => member2 key (pj_skip_ws p) st)) (document2_sems d tag) (document2_members d (tag_text tag)).
Proof.
  intros [[Hv _] [Hf1 Hf2] [Hn1 Hn2] [Ht1 Ht2] Hw [Hi1 Hi2] [Hb _] [Hp _] (Hs1 & Hs2 & Hs3)] Htag.
  unfold document2_sems, document2_members. cbn [fmap list_fmap].
  repeat apply Forall2_cons_2; [..|apply Forall2_nil_2]; intros c rest st Hc; cbn [fst snd obind].
  - rewrite skip_ws_quote. change (member2 B"signature" (quote (tag_text tag) ++ c :: rest) st) with
      (let* r := parse_string (quote (tag_text tag) ++ c :: rest) (2 * AK_MAC_SIZE + 2) in let* st := parse_signature2 r.1 st in Ret (r.2, st)).
    rewrite parse_string2_quote, take_short by (pose proof (length_tag_text tag Htag); unfold short; lia). cbn [obind fst snd].
    by rewrite parse_signature2_tag.
  - rewrite skip_ws_quote. change (member2 B"version" (quote (d2_version d) ++ c :: rest) st) with
      (let* r := parse_string (quote (d2_version d) ++ c :: rest) 16 in Ret (r.2, on_policy2 (set_p2_version (cstr r.1)) st)).
    destruct Hv as [Hv1 Hv2]. rewrite parse_string2_quote, take_short by done. cbn [obind fst snd]. by rewrite cstr_nonul_id.
  - reads_section fs_fields [(B"read", d2_read d); (B"write", d2_write d)]
      [(fun s => with_alloc (add_fs_rule false s)); (fun s => with_alloc (add_fs_rule true s))].
  - reads_section net_fields [(B"dns", d2_dns d); (B"connect", d2_connect d)]
      [(fun s => with_alloc (add_dns_rule s)); (fun s => with_alloc (add_net_connect_rule s))].
  - reads_section tools_fields [(B"allow", d2_tools_allow d); (B"deny", d2_tools_deny d)]
      [(fun s => with_alloc (add_tool_rule true s)); (fun s => with_alloc (add_tool_rule false s))].
  - reads_section wasm_fields [(B"modules", d2_modules d)] [(fun s => with_alloc (add_wasm_module s))].
  - change (member2 B"infer" (pj_skip_ws (print_infer (d2_max_tokens d) (d2_models d) ++ c :: rest)) st) with
      (object_member (print_infer (d2_max_tokens d) (d2_models d) ++ c :: rest) st
        (fun p => let* n := infer_limit_loop (length p) p 100000 in infer_models_loop (length p) n p st)).
    apply infer_print; [done|]. eapply patterns_short; [done|]. unfold AK_POLICY_V2_MAX_PATTERN. lia.
  - change (member2 B"budgets" (pj_skip_ws (print_numbers (budget2_members d) ++ c :: rest)) st) with
      (object_member (print_numbers (budget2_members d) ++ c :: rest) st (fun p => budgets2_loop (length p) p st)).
    by apply budgets2_print, budget2_members_ok.
  - change (member2 B"profiles" (pj_skip_ws (print_array (d2_profiles d) ++ c :: rest)) st) with
      (parse_string_array (print_array (d2_profiles d) ++ c :: rest) st add_profile).
    apply parse_array2_print. eapply patterns_short; [done|]. unfold AK_POLICY_V2_MAX_PATTERN. lia.
  - reads_section spawn_fields [(B"allow", d2_spawn_allow d); (B"deny", d2_spawn_deny d); (B"sandbox", d2_sandbox d)]
      [(fun s => with_alloc (add_spawn_rule true true true false s)); (fun s => with_alloc (add_spawn_rule false false false false s));
       (fun s => with_alloc (add_spawn_rule true false true true s))].
Qed.

Lemma parse_document2 d tag st :
  wf_document2 d -> is_tag tag ->
  parse_json_policy st (print_document2 d (tag_text tag)) = run_sems (document2_sems d tag) st.
Proof.
  intros Hd Ht. unfold parse_json_policy, print_document2, print_object. cbn [pj_skip_ws]. change (is_ws 123) with false.
  cbn iota. rewrite Z.eqb_refl. set (ms := document2_members d (tag_text tag)).
  rewrite (members_join document2_loop (fun key p st => member2 key (pj_skip_ws p) st) Ret (plain 64) []) with (sems := document2_sems d tag).
  - by destruct (run_sems (document2_sems d tag) st).
  - done.
  - intros fuel k p st' sem c p' Hk Hc Hm. cbn [document2_loop]. at_key k p. rewrite Hm.
    destruct (sem st'); [|done..]. cbn [obind fst snd]. by rewrite past_comma_skip.
  - by apply members2_read.
  - by apply plain_members.
  - pose proof (length_members ms). rewrite length_app. cbn [length] in *. lia.
Qed.

Lemma numbers2_set d p :
  Forall (fun m => 0 <= m.2 <= UINT64_MAX) (budget2_members d) -> d2_wall_time_ms d * MILLION <= UINT64_MAX ->
  foldl (fun st m => set_number2 m st) (mk_pstate2 p []) (budget2_members d) = mk_pstate2 (set_p2_budgets (doc_budgets2 d) p) [].
Proof.
  intros Hb Hw. assert (0 <= d2_wall_time_ms d) by (do 2 (inversion Hb as [|? ? _ Hb']; subst; clear Hb; rename Hb' into Hb); inversion Hb; subst; cbn in *; lia).
  unfold doc_budgets2. rewrite <-(Z.mod_small (d2_wall_time_ms d * MILLION) 18446744073709551616) by (unfold UINT64_MAX, MILLION in *; lia).
  by destruct p.
Qed.

Definition parsed_policy (d : document2) (tag : option bytes) (now : Z) : ak_policy_v2 :=
  mk_policy2 (d2_version d) (zeros AK_HASH_SIZE) now (default (zeros AK_MAC_SIZE) tag) (bool_decide (is_Some tag)) false
    (doc_fs d) (doc_net d) (doc_dns d) (doc_tools2 d) (doc_wasm d) (doc_infer d) (doc_spawn d) (doc_budgets2 d) (d2_profiles d) false false.

Lemma parse_document2_ok d tag now :
  wf_document2 d -> is_tag tag ->
  parse_json_policy (mk_pstate2 (blank_policy default_budgets2 false now) []) (print_document2 d (tag_text tag)) =
  Ret (mk_pstate2 (parsed_policy d tag now) []).
Proof.
  intros Hd Ht. rewrite parse_document2 by done.
  destruct Hd as [[Hv _] [Hf1 Hf2] [Hn1 Hn2] [Ht1 Ht2] Hw [Hi1 Hi2] [Hb Hms] [Hp Hpn] (Hs1 & Hs2 & Hs3)].
  unfold document2_sems. cbn [fmap list_fmap run_sems obind]. unfold on_policy2 at 1 2. cbn [ps_policy ps_allocs].
  rewrite add_read, add_write, add_dns, add_connect, !add_tools, add_modules, add_models, numbers2_set by done.
  rewrite add_profiles; [|eapply Forall_impl; [exact Hp|]; by intros s []|by destruct tag].
  rewrite !add_spawns by done. by destruct tag.
Qed.

(** ** Profiles *)

(** The read patterns of a built-in profile; an unknown name has none. *)
Definition profile_paths (name : bytes) : list bytes :=
  if bytes_eqb (cstr name) B"tier1-musl" then [B"/proc/self/**"]
  else if bytes_eqb (cstr name) B"tier2-glibc" then
    [B"/lib/**"; B"/lib64/**"; B"/etc/ld.so.cache"; B"/etc/ld.so.preload"; B"/etc/nsswitch.conf"; B"/etc/resolv.conf"; B"/proc/self/**"]
  else [].

Lemma expand_profile_adds st name :
  exists code, ak_policy_v2_expand_profile st name =
    Ret (code, add_all (fun s => with_alloc (add_fs_rule false s)) (profile_paths name) st).
Proof.
  unfold ak_policy_v2_expand_profile, profile_paths.
  destruct (bytes_eqb (cstr name) B"tier1-musl"); [exists 0; reflexivity|].
  destruct (bytes_eqb (cstr name) B"tier2-glibc"); [exists 0; reflexivity|]. by exists (- ENOENT).
Qed.

(** Expansion always succeeds and only adds read patterns. *)
Lemma expand_loop_adds names st :
  expand_loop names st = Ret (add_all (fun s => with_alloc (add_fs_rule false s)) (names ≫= profile_paths) st).
Proof.
  revert st. induction names as [|n names IH]; intros st; [done|]. cbn [expand_loop].
  destruct (expand_profile_adds st n) as [code ->]. cbn [obind snd]. rewrite IH. unfold add_all. cbn [mbind list_bind].
  by rewrite foldl_app.
Qed.

Lemma add_reads_rest l st :
  let p := ps_policy st in
  let q := ps_policy (add_all (fun s => with_alloc (add_fs_rule false s)) l st) in
  q = set_fs (p2_fs_rules q) p.
Proof.
  cbv zeta. revert st. induction l as [|s l IH]; intros [p al]; [by destruct p|].
  change (add_all ?f (s :: l) ?st) with (add_all f l (f s st)). etransitivity; [apply IH|].
  destruct al as [|[] al]; cbn; by destruct p.
Qed.

Lemma profile_paths_ok names : patterns 255 (names ≫= profile_paths).
Proof.
  apply Forall_forall. intros s Hs. apply list_elem_of_bind in Hs as (n & Hs & _). unfold profile_paths in Hs.
  destruct (bytes_eqb _ _); [|destruct (bytes_eqb _ _); [|by apply not_elem_of_nil in Hs]].
  - revert s Hs. by apply Forall_forall, plain_keys.
  - revert s Hs. by apply Forall_forall, plain_keys.
Qed.

(** ** Loading *)

Section Loading.
Context `{Hash}.

Lemma hmac_short key dat :
  length key = AK_KEY_SIZE -> length dat = AK_HASH_SIZE ->
  v2_hmac_sha256 key dat = Some (ak_hmac_sha256 true key dat).
Proof.
  intros Hk Hd. unfold v2_hmac_sha256, ak_hmac_sha256. rewrite Hd, Hk. cbn [Nat.ltb Nat.leb AK_HASH_SIZE AK_KEY_SIZE HMAC_BLOCK_SIZE].
  assert (Hs : forall m, (length m <= 200)%nat -> ak_sha256 m = hash m).
  { intros m Hm. unfold ak_sha256, u32. rewrite Z.mod_small by lia. rewrite Nat2Z.id. by rewrite take_ge. }
  rewrite !Hs; [done|..]; rewrite !length_app, !length_fmap, !length_app, Hk; unfold zeros; rewrite length_replicate.
  - rewrite Hd. unfold AK_KEY_SIZE, AK_HASH_SIZE. cbn. lia.
  - unfold ak_sha256. rewrite length_hash. unfold AK_KEY_SIZE. cbn. lia.
Qed.

Lemma length_policy_hash json : length (compute_policy_hash json) = AK_HASH_SIZE.
Proof. unfold compute_policy_hash. destruct (_ =? _)%nat; [done|]. apply length_hash. Qed.

(** The tag the signer inserts. *)
Definition sign2 (key : bytes) (d : document2) : bytes := ak_hmac_sha256 true key (compute_policy_hash (print_document2 d [])).

Lemma sign2_tag key d : is_tag (Some (sign2 key d)).
Proof. intros t [= <-]. split; [apply wf_hmac|apply length_hmac]. Qed.

(** What a load of a printed document gives, signed or not. *)
Definition loaded_policy (d : document2) (tag : option bytes) (verified : bool) (now : Z) : ak_policy_v2 :=
  mk_policy2 (d2_version d) (compute_policy_hash (print_document2 d (tag_text tag))) now (default (zeros AK_MAC_SIZE) tag)
    (bool_decide (is_Some tag)) verified (push_all read_rule (d2_profiles d ≫= profile_paths) (doc_fs d)) (doc_net d) (doc_dns d)
    (doc_tools2 d) (doc_wasm d) (doc_infer d) (doc_spawn d) (doc_budgets2 d) (d2_profiles d) true false.

Definition all_ok2 (al : allocs2) : Prop := al_policy al = true /\ al_rules al = [] /\ al_scratch al = true.

Lemma load_document2 vk al d tag now :
  wf_document2 d -> is_tag tag -> all_ok2 al ->
  (vk_configured vk = true -> tag_ok (vk_key vk) true (print_document2 d (tag_text tag)) (parsed_policy d tag now) = true) ->
  ak_policy_v2_load vk al (Some (print_document2 d (tag_text tag))) now = Ret (loaded_policy d tag (vk_configured vk) now).
Proof.
  intros Hd Ht (Hp & Hr & Hs) Hok. unfold ak_policy_v2_load. change (length (print_document2 _ _) =? 0)%nat with false.
  rewrite Hp, Hr, Hs. cbn [negb]. cbn iota. rewrite parse_document2_ok by done. cbn [obind ps_policy].
  assert (Hschema : validate_policy_schema (parsed_policy d tag now) = true).
  { destruct Hd as [[_ Hv] _ _ _ _ _ _ [_ Hn] _]. unfold validate_policy_schema. cbn [p2_version p2_profiles parsed_policy].
    rewrite Hv, andb_false_r. apply negb_true_iff, Nat.ltb_ge. done. }
  rewrite Hschema. cbn [negb]. cbn iota.
  assert (E : vk_configured vk && negb (tag_ok (vk_key vk) true (print_document2 d (tag_text tag)) (parsed_policy d tag now)) = false).
  { destruct (vk_configured vk); [|done]. by rewrite Hok. }
  rewrite E, expand_loop_adds. unfold on_policy2. cbn [ps_policy ps_allocs obind]. by rewrite add_read by apply profile_paths_ok.
Qed.

Lemma tag_ok_signed key d now :
  length key = AK_KEY_SIZE ->
  tag_ok key true (print_document2 d (tag_text (Some (sign2 key d)))) (parsed_policy d (Some (sign2 key d)) now) = true.
Proof.
  intros Hk. unfold tag_ok. cbn [p2_has_signature parsed_policy]. rewrite bool_decide_eq_true_2 by eauto. cbn [andb].
  assert (E : compute_signed_content_hash true (print_document2 d (tag_text (Some (sign2 key d)))) = Some (compute_policy_hash (print_document2 d []))).
  { pose proof (signed_content_print d (Some (sign2 key d))) as Hc. unfold compute_signed_content_hash.
    destruct (find_signature_value_span _) eqn:Es; [by rewrite Hc|]. unfold signed_content in Hc. rewrite Es in Hc. by rewrite Hc. }
  rewrite E, hmac_short by (done || apply length_policy_hash). unfold v2_constant_time_compare.
  apply mac_compareP; [apply length_hmac..|done].
Qed.
End Loading.

(** Membership in the rules of a document. *)
Lemma granted_by {C} (g : bytes -> C) (P : C -> Prop) l old :
  (exists r, r ∈ push_all g l old /\ P r) <-> (exists s, s ∈ l /\ P (g s)) \/ (exists r, r ∈ old /\ P r).
Proof. setoid_rewrite elem_of_push_all. naive_solver. Qed.
Lemma denied_by {C} (g : bytes -> C) (P : C -> Prop) l old :
  (forall r, r ∈ push_all g l old -> P r) <-> (forall s, s ∈ l -> P (g s)) /\ (forall r, r ∈ old -> P r).
Proof. setoid_rewrite elem_of_push_all. naive_solver. Qed.
Lemma exists_nil {C} (P : C -> Prop) : (exists r, r ∈ @nil C /\ P r) <-> False.
Proof. split; [|done]. by intros (r & Hr%not_elem_of_nil & _). Qed.
Lemma forall_nil {C} (P : C -> Prop) : (forall r, r ∈ @nil C -> P r) <-> True.
Proof. split; [done|]. by intros _ r Hr%not_elem_of_nil. Qed.

Definition path_in (l : list bytes) (path : bytes) : Prop := exists s, s ∈ l /\ ak_policy_v2_match_path (Some s) (Some path) = true.
Definition glob_in (l : list bytes) (name : bytes) : Prop := exists s, s ∈ l /\ Glob (cstr s) (cstr name).

(** What a document says. *)
Record says (d : document2) (p : ak_policy_v2) : Prop := {
  say_read path : ak_policy_v2_check_fs (Some p) (Some path) false = true <->
    path_in (d2_read d) path \/ path_in (d2_profiles d ≫= profile_paths) path;
  say_write path : ak_policy_v2_check_fs (Some p) (Some path) true = true <-> path_in (d2_write d) path;
  say_connect t : ak_policy_v2_check_net_connect (Some p) (Some t) = true <->
    exists s, s ∈ d2_connect d /\ ak_policy_v2_match_net (Some s) (Some t) = true;
  say_dns h : ak_policy_v2_check_dns (Some p) (Some h) = true <->
    exists s, s ∈ d2_dns d /\ ak_policy_v2_match_dns (Some s) (Some h) = true;
  say_tool t : ak_policy_v2_check_tool (Some p) (Some t) = true <-> glob_in (d2_tools_allow d) t /\ ~ glob_in (d2_tools_deny d) t;
  say_wasm m : ak_policy_v2_check_wasm (Some p) (Some m) None = true <-> glob_in (d2_modules d) m;
  say_infer m n : (ak_policy_v2_check_infer (Some p) (Some m) n).1 = true <-> glob_in (d2_models d) m /\ n <= d2_max_tokens d;
  say_spawn g : ak_policy_v2_check_spawn (Some p) (Some g) = true <->
    (path_in (d2_spawn_allow d) g \/ path_in (d2_sandbox d) g) /\ ~ path_in (d2_spawn_deny d) g;
  say_budgets : p2_budgets p = doc_budgets2 d }.

(** All models of a document have the same limit. *)
Lemma check_infer_uniform p name tokens n :
  p2_fail_closed p = false -> (forall r, r ∈ p2_infer_rules p -> ir_max_tokens r = n) ->
  (ak_policy_v2_check_infer (Some p) (Some name) tokens).1 = true <->
  (exists r, r ∈ p2_infer_rules p /\ Glob (cstr (ir_model_pattern r)) (cstr name)) /\ tokens <= n.
Proof.
  intros Ho Hn. unfold ak_policy_v2_check_infer. rewrite open_policy_open by done. setoid_rewrite <-ak_pattern_matchP.
  destruct (List.find _ _) as [r|] eqn:E; cbn [fst].
  - apply find_some in E as [Hr%list_elem_of_In Hm]. rewrite Z.leb_le, (Hn r Hr). naive_solver.
  - split; [done|]. intros [(r & Hr%list_elem_of_In & Hm) _]. pose proof (List.find_none _ _ E r Hr) as Hf. cbn in Hf. congruence.
Qed.

Lemma loaded_says `{Hash} d tag verified now : says d (loaded_policy d tag verified now).
Proof.
  pose proof (eq_refl : p2_fail_closed (loaded_policy d tag verified now) = false) as Hopen.
  unfold loaded_policy in *. split; intros; [..|done].
  - rewrite check_fsP by done. unfold fs_granted. cbn [p2_fs_rules]. unfold doc_fs. rewrite !granted_by, exists_nil.
    unfold path_in. cbn. naive_solver.
  - rewrite check_fsP by done. unfold fs_granted. cbn [p2_fs_rules]. unfold doc_fs. rewrite !granted_by, exists_nil.
    unfold path_in. cbn. naive_solver.
  - rewrite check_netP by done. cbn [p2_net_rules]. unfold doc_net. rewrite !granted_by, exists_nil. cbn. naive_solver.
  - rewrite check_dnsP by done. cbn [p2_dns_rules]. unfold doc_dns. rewrite !granted_by, exists_nil. cbn. naive_solver.
  - rewrite check_toolP by done. cbn [p2_tool_rules]. unfold doc_tools2. rewrite !granted_by, !denied_by, exists_nil, forall_nil.
    unfold glob_in. cbn. naive_solver.
  - rewrite check_wasmP by done. cbn [p2_wasm_rules]. unfold doc_wasm. rewrite !granted_by, exists_nil. cbn. unfold glob_in. naive_solver.
  - rewrite (check_infer_uniform _ _ _ (d2_max_tokens d)); [|done|].
    + cbn [p2_infer_rules]. unfold doc_infer. rewrite !granted_by, exists_nil. cbn. unfold glob_in. naive_solver.
    + cbn [p2_infer_rules]. unfold doc_infer. rewrite denied_by, forall_nil. done.
  - rewrite check_spawnP by done. cbn [p2_spawn_rules]. unfold doc_spawn. rewrite !granted_by, !denied_by, exists_nil, forall_nil.
    setoid_rewrite <-not_true_iff_false. unfold path_in. cbn. naive_solver.
Qed.

(** C10: a signed document loads and means what it says.  Under a configured
    key, the document that carries the hex MAC of its own text (with the
    signature left empty) is accepted and marked verified, and the policy it
    gives allows exactly what the patterns of the document and of its profiles
    list: reads, writes, connections, names, modules and models that a pattern
    matches, tools and programs that an allow pattern and no deny pattern
    matches, within the budgets written there. *)
Theorem signed_document_means_its_rules `{Hash} key d al now :
  length key = AK_KEY_SIZE -> wf_document2 d -> all_ok2 al ->
  exists p,
    ak_policy_v2_load (ak_policy_v2_set_verification_key (Some key)) al (Some (print_document2 d (ak_hex_encode (sign2 key d)))) now = Ret p /\
    p2_signature_verified p = true /\ p2_loaded p = true /\ p2_fail_closed p = false /\ says d p.
Proof.
  intros Hk Hd Hal. exists (loaded_policy d (Some (sign2 key d)) true now). split_and!; [|done|done|done|apply loaded_says].
  apply (load_document2 (ak_policy_v2_set_verification_key (Some key)) al d (Some (sign2 key d)) now Hd (sign2_tag key d) Hal).
  intros _. cbn [vk_key ak_policy_v2_set_verification_key]. rewrite take_ge by lia. by apply tag_ok_signed.
Qed.

Definition demo_document3 : document2 :=
  mk_document2 B"1.0" [B"/data/**"] [B"/tmp/*"] [B"*.example.com"] [B"10.0.0.1:443"] [B"*"] [B"shell"] [B"calc"] 4096 [B"small-*"]
    50 2000 1000 0 65536 [B"tier1-musl"] [B"/bin/*"] [B"/bin/sh"] [].

Lemma wf_demo3 : wf_document2 demo_document3.
Proof.
  split; split_and?; try done; try (by apply plain_keys); try (by apply plain_key); cbn; unfold UINT64_MAX, MILLION, AK_POLICY_V2_MAX_PROFILES;
    repeat constructor; cbn; lia.
Qed.

Definition demo_key2 : bytes := B"0123456789abcdef0123456789abcdef".
Definition ok_allocs2 : allocs2 := mk_allocs2 true [] true.

Lemma signed_document_means_its_rules_witness :
  exists p,
    ak_policy_v2_load (ak_policy_v2_set_verification_key (Some demo_key2)) ok_allocs2
      (Some (print_document2 demo_document3 (ak_hex_encode (sign2 demo_key2 demo_document3)))) 7 = Ret p /\
    p2_signature_verified p = true /\ ak_policy_v2_check_fs (Some p) (Some B"/data/a/b") false = true /\
    ak_policy_v2_check_tool (Some p) (Some B"shell") = false.
Proof.
  destruct (signed_document_means_its_rules demo_key2 demo_document3 ok_allocs2 7 eq_refl wf_demo3 ltac:(done))
    as (p & Hp & Hv & _ & _ & Hs).
  exists p. split; [exact Hp|]. split; [exact Hv|]. split.
  - apply (say_read _ _ Hs). left. exists (B"/data/**"). split; [by left|vm_compute; reflexivity].
  - apply not_true_iff_false. rewrite (say_tool _ _ Hs). intros [_ Hn]. apply Hn. exists (B"shell"). split; [by left|apply Glob_refl].
Defined.

(** ** What a load under a key accepts *)

(** The parser keeps the size of the signature field. *)
Definition sig_ok (st : pstate2) : Prop := length (p2_signature (ps_policy st)) = AK_MAC_SIZE.
Definition keeps (r : outcome (bytes * pstate2)) : Prop := match r with Ret (_, st) => sig_ok st | _ => True end.
Definition cb_ok (cb : callback) : Prop := forall s st, sig_ok st -> sig_ok (cb s st).

Lemma with_alloc_ok f st : (forall p, p2_signature (f p) = p2_signature p) -> sig_ok st -> sig_ok (with_alloc f st).
Proof. intros Hf Hs. unfold sig_ok, with_alloc in *. destruct (ps_allocs st) as [|[] al]; cbn; by rewrite ?Hf. Qed.

Lemma keeps_skip p st : sig_ok st -> keeps (let* p2 := skip_value p in Ret (p2, st)).
Proof. intros Hs. by destruct (skip_value p). Qed.

Lemma array2_keeps fuel p st cb : cb_ok cb -> sig_ok st -> keeps (array2_loop fuel p st cb).
Proof.
  intros Hcb. revert p st. induction fuel as [|fuel IH]; intros [|c0 p0] st Hs; try done. cbn [array2_loop].
  destruct (pj_skip_ws (c0 :: p0)) as [|c p1]; [done|]. destruct (c =? 93); [done|].
  destruct (parse_string (c :: p1) _) as [[s p2]| |]; [|done..]. cbn [obind fst snd].
  destruct (pj_skip_ws p2) as [|e p3]; [done|]. destruct (e =? 44); [by apply IH, Hcb|]. destruct (e =? 93); [by apply IH, Hcb|done].
Qed.

Lemma parse_array2_keeps p st cb : cb_ok cb -> sig_ok st -> keeps (parse_string_array p st cb).
Proof.
  intros Hcb Hs. unfold parse_string_array. destruct (pj_skip_ws p) as [|c p1]; [done|]. destruct (c =? 91); [|done]. by apply array2_keeps.
Qed.

Lemma find_callback_ok fields key cb : Forall (fun f => cb_ok f.2) fields -> find_callback fields key = Some cb -> cb_ok cb.
Proof.
  induction 1 as [|[k f] fields Hf _ IH]; [done|]. cbn. destruct (bytes_eqb k key); [|done]. by intros [= <-].
Qed.

(** The tail of every member loop. *)
Lemma member_tail_keeps strict (r : outcome (bytes * pstate2)) (k : bytes -> pstate2 -> outcome (bytes * pstate2)) :
  keeps r -> (forall p st, sig_ok st -> keeps (k p st)) -> keeps (let* r := r in let* p3 := past_comma strict r.1 in k p3 r.2).
Proof. intros Hr Hk. destruct r as [[p st]| |]; [|done..]. cbn [obind fst snd]. destruct (past_comma strict p); [by apply Hk|done..]. Qed.

Lemma section_keeps fuel fields p st : Forall (fun f => cb_ok f.2) fields -> sig_ok st -> keeps (section_loop fuel fields p st).
Proof.
  intros Hf. revert p st. induction fuel as [|fuel IH]; intros [|c0 p0] st Hs; try done. cbn [section_loop].
  destruct (pj_skip_ws (c0 :: p0)) as [|c p1]; [done|]. destruct (c =? 125); [done|].
  destruct (key_colon true (c :: p1) 32) as [k| |]; [|done..]. cbn [obind]. apply member_tail_keeps; [|exact IH].
  destruct (find_callback fields k.1) eqn:E; [|by apply keeps_skip]. apply parse_array2_keeps; [|done]. by eapply find_callback_ok.
Qed.

Lemma infer_models_keeps fuel n p st : sig_ok st -> keeps (infer_models_loop fuel n p st).
Proof.
  revert p st. induction fuel as [|fuel IH]; intros [|c0 p0] st Hs; try done. cbn [infer_models_loop].
  destruct (pj_skip_ws (c0 :: p0)) as [|c p1]; [done|]. destruct (c =? 125); [done|].
  destruct (key_colon false (c :: p1) 32) as [k| |]; [|done..]. cbn [obind]. apply member_tail_keeps; [|exact IH].
  destruct (bytes_eqb k.1 B"models"); [|by apply keeps_skip]. apply parse_array2_keeps; [|done]. intros s st' Hs'. by apply with_alloc_ok.
Qed.

Lemma budgets2_keeps fuel p st : sig_ok st -> keeps (budgets2_loop fuel p st).
Proof.
  revert p st. induction fuel as [|fuel IH]; intros [|c0 p0] st Hs; try done. cbn [budgets2_loop].
  destruct (pj_skip_ws (c0 :: p0)) as [|c p1]; [done|]. destruct (c =? 125); [done|].
  destruct (key_colon false (c :: p1) 32) as [k| |]; [|done..]. cbn [obind].
  destruct (parse_number (pj_skip_ws k.2)) as [v p2]. destruct (past_comma false p2); [|done..]. cbn [obind]. by apply IH.
Qed.

Lemma object_member_keeps p st body : sig_ok st -> (forall p, keeps (body p)) -> keeps (object_member p st body).
Proof.
  intros Hs Hb. unfold object_member. destruct p as [|c p1]; [done|]. destruct (c =? 123); [apply Hb|]. by destruct (skip_value (c :: p1)).
Qed.

Lemma member2_keeps key p st : sig_ok st -> keeps (member2 key p st).
Proof.
  intros Hs. unfold member2.
  destruct (bytes_eqb key B"version"); [by destruct (parse_string p 16) as [[]| |]|].
  destruct (bytes_eqb key B"signature").
  { destruct (parse_string p _) as [[text p2]| |]; [|done..]. cbn [obind fst snd]. unfold parse_signature2.
    destruct (length (cstr text) =? 2 * AK_MAC_SIZE)%nat; [destruct (parse_hex_bytes _ _) as [b|] eqn:E|].
    - by apply length_parse_hex_bytes in E.
    - by destruct (length (cstr text) =? 0)%nat.
    - by destruct (length (cstr text) =? 0)%nat. }
  repeat (destruct (bytes_eqb key _); [first
    [apply object_member_keeps; [done|intros q; first
       [apply section_keeps; [by repeat constructor; intros s st' Hs'; apply with_alloc_ok|done]
       |destruct (infer_limit_loop (length q) q 100000); [by apply infer_models_keeps|done..]
       |by apply budgets2_keeps]]
    |apply parse_array2_keeps; [|done]; intros s st' Hs'; unfold add_profile; destruct (_ <=? _)%nat; [done|by apply with_alloc_ok]]|]).
  by apply keeps_skip.
Qed.

Lemma parse_json2_keeps st json st' : sig_ok st -> parse_json_policy st json = Ret st' -> sig_ok st'.
Proof.
  unfold parse_json_policy. destruct (pj_skip_ws json) as [|c p]; [done|]. destruct (c =? 123); [|done]. generalize (length p). intros fuel.
  revert p st. induction fuel as [|fuel IH]; intros [|c0 p0] st Hs; try (by intros [= <-]); try done. cbn [document2_loop].
  destruct (pj_skip_ws (c0 :: p0)) as [|c1 p1]; [done|]. destruct (c1 =? 125); [by intros [= <-]|].
  destruct (key_colon true (c1 :: p1) 64) as [k| |]; [|done..]. cbn [obind].
  pose proof (member2_keeps k.1 (pj_skip_ws k.2) st Hs) as Hk. destruct (member2 _ _ _) as [[p2 st2]| |]; [|done..]. cbn [obind fst snd].
  destruct (past_comma true p2); [|done..]. by apply IH.
Qed.

Section Accepted.
Context `{Hash}.

(** The tag test: the stored signature is the MAC of the signed content. *)
Lemma tag_ok_mac key scratch json p :
  length key = AK_KEY_SIZE -> length (p2_signature p) = AK_MAC_SIZE -> tag_ok key scratch json p = true ->
  p2_signature p = ak_hmac_sha256 true key (compute_policy_hash (signed_content json)).
Proof.
  intros Hk Hl Ht. unfold tag_ok in Ht. apply andb_true_iff in Ht as [_ Ht].
  assert (E : compute_signed_content_hash scratch json = Some (compute_policy_hash (signed_content json)) \/
              compute_signed_content_hash scratch json = None).
  { unfold compute_signed_content_hash, signed_content. destruct (find_signature_value_span json) as [[]|]; [destruct scratch|]; auto. }
  destruct E as [E|E]; rewrite E in Ht; [|done]. rewrite hmac_short in Ht by (done || apply length_policy_hash).
  symmetry. apply mac_compareP; [apply length_hmac|done|done].
Qed.

(** The stages of a load under a key. *)
Lemma load2_verified key al json now p :
  length key = AK_KEY_SIZE ->
  ak_policy_v2_load (ak_policy_v2_set_verification_key (Some key)) al (Some json) now = Ret p ->
  p2_signature_verified p = true /\ p2_loaded p = true /\ p2_fail_closed p = false /\ p2_hash p = compute_policy_hash json /\
  p2_signature p = ak_hmac_sha256 true key (compute_policy_hash (signed_content json)) /\ json <> [].
Proof.
  intros Hk. unfold ak_policy_v2_load. destruct (Nat.eqb_spec (length json) 0); [done|]. destruct (al_policy al); [|done]. cbn [negb]. cbn iota.
  destruct (parse_json_policy _ json) as [st| |] eqn:Ep; [|done..].
  apply parse_json2_keeps in Ep; [|done]. cbn [obind]. destruct (validate_policy_schema _); [|done]. cbn [negb]. cbn iota.
  cbn [vk_configured vk_key ak_policy_v2_set_verification_key andb]. rewrite take_ge by lia.
  destruct (tag_ok _ _ _ _) eqn:Et; [|done]. cbn [negb]. cbn iota. rewrite expand_loop_adds. cbn [obind]. intros [= <-].
  match goal with |- context [add_all ?f ?l ?st0] => pose proof (add_reads_rest l st0) as E; cbv zeta in E end.
  rewrite E. cbn. split_and!; try done; [by apply (tag_ok_mac _ (al_scratch al))|by destruct json].
Qed.

Lemma length_value_start p v : value_start p = Some v -> (length v < length p)%nat.
Proof.
  unfold value_start. pose proof (length_skip_ws p). destruct (pj_skip_ws p) as [|c p1]; [done|]. destruct (negb _); [done|].
  pose proof (length_skip_ws p1). destruct (pj_skip_ws p1) as [|q p2]; [done|]. destruct (q =? QUOTE); [|done]. intros [= <-]. cbn in *. lia.
Qed.

Lemma span_loop_pos len p vs ve : (length p <= len)%nat -> span_loop len p = Some (vs, ve) -> (0 < vs)%nat.
Proof.
  induction p as [|c p IH]; [done|]. intros Hl. cbn [span_loop].
  destruct (_ <=? _)%nat; [done|]. destruct (negb _); [cbn in Hl; apply IH; lia|].
  destruct (value_start _) as [v|] eqn:Ev; [|cbn in Hl; apply IH; lia]. apply length_value_start in Ev. rewrite length_drop in Ev.
  destruct (value_end v); [|done]. intros [= <- _]. lia.
Qed.

Lemma signed_content_nonempty json : json <> [] -> signed_content json <> [].
Proof.
  intros Hj. unfold signed_content. destruct (find_signature_value_span json) as [[vs ve]|] eqn:E; [|done].
  apply span_loop_pos in E; [|done]. destruct json, vs; (lia || done).
Qed.

(** Equal hashes of texts below 4 GiB. *)
Lemma policy_hash_inj x y :
  x <> [] -> y <> [] -> Z.of_nat (length x) < M32 -> Z.of_nat (length y) < M32 ->
  compute_policy_hash x = compute_policy_hash y -> x = y \/ hash_collision.
Proof.
  intros Hx Hy Lx Ly. unfold compute_policy_hash.
  destruct (Nat.eqb_spec (length x) 0); [by destruct x|]. destruct (Nat.eqb_spec (length y) 0); [by destruct y|].
  unfold ak_sha256, u32. rewrite !Z.mod_small, !Nat2Z.id, !take_ge by lia. intros E.
  destruct (decide (x = y)); [by left|right]. by exists x, y.
Qed.
End Accepted.

(** C9: a load under a key fails closed.  Whatever the bytes and the
    allocation outcomes, a policy comes out only of a document whose signature
    is the MAC of the document without its signature value; it is marked
    verified and carries the hash of the whole document.  Two documents
    accepted with one signature have the same signed content, or exhibit a
    collision of the hash. *)
Theorem v2_load_fails_closed `{Hash} key al json now :
  length key = AK_KEY_SIZE ->
  match ak_policy_v2_load (ak_policy_v2_set_verification_key (Some key)) al json now with
  | Ret p => exists doc, json = Some doc /\ p2_signature_verified p = true /\ p2_hash p = compute_policy_hash doc /\
      p2_signature p = ak_hmac_sha256 true key (compute_policy_hash (signed_content doc)) /\
      forall al2 doc2 now2 p2, ak_policy_v2_load (ak_policy_v2_set_verification_key (Some key)) al2 (Some doc2) now2 = Ret p2 ->
        p2_signature p2 = p2_signature p -> Z.of_nat (length (signed_content doc)) < M32 -> Z.of_nat (length (signed_content doc2)) < M32 ->
        signed_content doc = signed_content doc2 \/ hash_collision
  | Null => True
  | Oob => exists doc, json = Some doc /\ parse_json_policy (mk_pstate2 (blank_policy default_budgets2 false now) (al_rules al)) doc = Oob
  end.
Proof.
  intros Hk. destruct (ak_policy_v2_load _ _ _ _) as [p| |] eqn:El; [|done|].
  - destruct json as [doc|]; [|done]. destruct (load2_verified _ _ _ _ _ Hk El) as (Hv & _ & _ & Hh & Hs & Hne).
    exists doc. split_and!; try done. intros al2 doc2 now2 p2 El2 Esig L1 L2.
    destruct (load2_verified _ _ _ _ _ Hk El2) as (_ & _ & _ & _ & Hs2 & Hne2). rewrite Hs, Hs2 in Esig.
    destruct (hmac_collision _ _ _ Esig) as [E|?]; [|by right].
    apply policy_hash_inj; [by apply signed_content_nonempty..|done|done|done].
  - destruct json as [doc|]; [|done]. exists doc. split; [done|]. unfold ak_policy_v2_load in El.
    destruct (_ =? _)%nat; [done|]. destruct (negb (al_policy al)); [done|]. destruct (parse_json_policy _ doc) as [st| |]; [|done|done].
    cbn [obind] in El. destruct (negb (validate_policy_schema _)); [done|]. destruct (_ && _); [done|]. by rewrite expand_loop_adds in El.
Qed.

Lemma v2_load_fails_closed_witness :
  exists p, ak_policy_v2_load (ak_policy_v2_set_verification_key (Some demo_key2)) ok_allocs2
      (Some (print_document2 demo_document3 (ak_hex_encode (sign2 demo_key2 demo_document3)))) 7 = Ret p /\ p2_signature_verified p = true.
Proof.
  pose proof (v2_load_fails_closed demo_key2 ok_allocs2
    (Some (print_document2 demo_document3 (ak_hex_encode (sign2 demo_key2 demo_document3)))) 7 eq_refl) as Hl.
  assert (Hr : match ak_policy_v2_load (ak_policy_v2_set_verification_key (Some demo_key2)) ok_allocs2
    (Some (print_document2 demo_document3 (ak_hex_encode (sign2 demo_key2 demo_document3)))) 7 with Ret _ => true | _ => false end = true)
    by (vm_compute; reflexivity).
  destruct (ak_policy_v2_load _ _ _ _) as [p| |]; [|done|done]. destruct Hl as (doc & _ & Hv & _). exists p. by split.
Defined.

(** Without a key nothing is marked as verified, and without a document every
    effect is denied. *)
Lemma load2_unverified `{Hash} al json now p :
  ak_policy_v2_load (ak_policy_v2_set_verification_key None) al json now = Ret p -> p2_signature_verified p = false.
Proof.
  unfold ak_policy_v2_load. destruct json as [doc|]; [|done]. destruct (_ =? _)%nat; [done|]. destruct (negb (al_policy al)); [done|].
  destruct (parse_json_policy _ doc) as [st| |]; [|done..]. cbn [obind]. destruct (negb _); [done|].
  cbn [vk_configured ak_policy_v2_set_verification_key andb]. rewrite expand_loop_adds. cbn [obind]. intros [= <-].
  match goal with |- context [add_all ?f ?l ?st0] => pose proof (add_reads_rest l st0) as E; cbv zeta in E end.
  by rewrite E.
Qed.

Lemma bootstrap_denies `{Hash} vk al now p req :
  ak_policy_v2_bootstrap vk al None true now = Ret p -> (ak_policy_v2_check (Some p) req).1 = false.
Proof. cbn. intros [= <-]. by destruct req. Qed.

(** ** Where the parser departs from the format *)

Definition no_key : verification_key := ak_policy_v2_set_verification_key None.
Definition load_text (al : allocs2) (json : bytes) : outcome ak_policy_v2 := ak_policy_v2_load no_key al (Some json) 0.
Definition allows_tool (r : outcome ak_policy_v2) (t : bytes) : option bool :=
  match r with Ret p => Some (ak_policy_v2_check_tool (Some p) (Some t)) | _ => None end.

(** A document cut off after a member loads: the denials behind it are gone. *)
Lemma truncated_document_loads :
  allows_tool (load_text ok_allocs2 JQ"{'tools':{'allow':['*'],'deny':['shell']}}") B"shell" = Some false /\
  allows_tool (load_text ok_allocs2 JQ"{'tools':{'allow':['*'],") B"shell" = Some true.
Proof. split; vm_compute; reflexivity. Qed.

(** So does one whose denial could not be allocated. *)
Lemma dropped_denial_loads :
  allows_tool (load_text (mk_allocs2 true [true; false] true) JQ"{'tools':{'allow':['*'],'deny':['shell']}}") B"shell" = Some true.
Proof. vm_compute. reflexivity. Qed.

(** Reading behind the document (a section cut off in ["budgets"], a key at the
    end), and through the NULL of a value that cannot be skipped. *)
Lemma document_overruns :
  load_text ok_allocs2 JQ"{'budgets':{ " = Oob /\ load_text ok_allocs2 JQ"{'fs':" = Oob /\ load_text ok_allocs2 JQ"{'fs': ?" = Oob.
Proof. split_and!; vm_compute; reflexivity. Qed.

(** A wall time limit that wraps to 0 is no limit. *)
Lemma wall_time_wraps :
  match load_text ok_allocs2 JQ"{'budgets':{'wall_time_ms':288230376151711744}}" with Ret p => b2_wall_ns (p2_budgets p) | _ => 1 end = 0.
Proof. vm_compute. reflexivity. Qed.

(** The version is accumulated in an [int]: it can wrap to the supported one. *)
Lemma version_wraps : validate_policy_version B"4294967297.0" = true.
Proof. vm_compute. reflexivity. Qed.
