(* ===== verification/Ipc.v ===== *)
(** * Frames and messages between agents ([src/src/agentic/ak_ipc.c])

    The frame header with its CRC-32C checksum, channels, and the JSON texts of
    requests and responses.  A text is built by writes to a growing buffer: a
    write that finds no memory is dropped, and the caller does not notice; a
    buffer that cannot be allocated at all is written to through an invalid
    pointer, an outcome [Oob].  The
    outcome of an extension is an argument, a function of the capacity asked for.
    The transfer of a frame is left open by the source, and so are the readers of
    texts, which refuse everything; [write_frame] also returns the header it has
    built.

    The specifications are the CRC bit by bit and a reader of the texts.  Theorems:
    the table computes the CRC, a corruption of up to four consecutive bytes is
    always noticed, the frames of a channel arrive as fresh, and the texts are read
    back.  (The sequence tracker and the hex codec are in [Sequence].) *)

From S2P Require Import Prelude Pattern Budget Sequence Capability AuditLog Json Policy Heap Dispatch.

Definition AK_IPC_MAGIC : Z := 0x414B.
Definition AK_IPC_VERSION : Z := 1.
Definition AK_IPC_HEADER_SIZE : Z := 20.
Definition AK_IPC_MAX_PAYLOAD : Z := 1024 * 1024.
Definition AK_IPC_FLAG_REQUEST : Z := 1.
Definition AK_IPC_FLAG_RESPONSE : Z := 2.
Definition AK_IPC_FLAG_ERROR : Z := 4.
Definition AK_E_IPC_INVALID : Z := -4500.
Definition AK_E_TIMEOUT : Z := -4503.

(** ** CRC-32C *)

Definition crc32c_table : list Z :=
  [
   0x00000000; 0xF26B8303; 0xE13B70F7; 0x1350F3F4; 0xC79A971F; 0x35F1141C; 0x26A1E7E8; 0xD4CA64EB;
   0x8AD958CF; 0x78B2DBCC; 0x6BE22838; 0x9989AB3B; 0x4D43CFD0; 0xBF284CD3; 0xAC78BF27; 0x5E133C24;
   0x105EC76F; 0xE235446C; 0xF165B798; 0x030E349B; 0xD7C45070; 0x25AFD373; 0x36FF2087; 0xC494A384;
   0x9A879FA0; 0x68EC1CA3; 0x7BBCEF57; 0x89D76C54; 0x5D1D08BF; 0xAF768BBC; 0xBC267848; 0x4E4DFB4B;
   0x20BD8EDE; 0xD2D60DDD; 0xC186FE29; 0x33ED7D2A; 0xE72719C1; 0x154C9AC2; 0x061C6936; 0xF477EA35;
   0xAA64D611; 0x580F5512; 0x4B5FA6E6; 0xB93425E5; 0x6DFE410E; 0x9F95C20D; 0x8CC531F9; 0x7EAEB2FA;
   0x30E349B1; 0xC288CAB2; 0xD1D83946; 0x23B3BA45; 0xF779DEAE; 0x05125DAD; 0x1642AE59; 0xE4292D5A;
   0xBA3A117E; 0x4851927D; 0x5B016189; 0xA96AE28A; 0x7DA08661; 0x8FCB0562; 0x9C9BF696; 0x6EF07595;
   0x417B1DBC; 0xB3109EBF; 0xA0406D4B; 0x522BEE48; 0x86E18AA3; 0x748A09A0; 0x67DAFA54; 0x95B17957;
   0xCBA24573; 0x39C9C670; 0x2A993584; 0xD8F2B687; 0x0C38D26C; 0xFE53516F; 0xED03A29B; 0x1F682198;
   0x5125DAD3; 0xA34E59D0; 0xB01EAA24; 0x42752927; 0x96BF4DCC; 0x64D4CECF; 0x77843D3B; 0x85EFBE38;
   0xDBFC821C; 0x2997011F; 0x3AC7F2EB; 0xC8AC71E8; 0x1C661503; 0xEE0D9600; 0xFD5D65F4; 0x0F36E6F7;
   0x61C69362; 0x93AD1061; 0x80FDE395; 0x72966096; 0xA65C047D; 0x5437877E; 0x4767748A; 0xB50CF789;
   0xEB1FCBAD; 0x197448AE; 0x0A24BB5A; 0xF84F3859; 0x2C855CB2; 0xDEEEDFB1; 0xCDBE2C45; 0x3FD5AF46;
   0x7198540D; 0x83F3D70E; 0x90A324FA; 0x62C8A7F9; 0xB602C312; 0x44694011; 0x5739B3E5; 0xA55230E6;
   0xFB410CC2; 0x092A8FC1; 0x1A7A7C35; 0xE811FF36; 0x3CDB9BDD; 0xCEB018DE; 0xDDE0EB2A; 0x2F8B6829;
   0x82F63B78; 0x709DB87B; 0x63CD4B8F; 0x91A6C88C; 0x456CAC67; 0xB7072F64; 0xA457DC90; 0x563C5F93;
   0x082F63B7; 0xFA44E0B4; 0xE9141340; 0x1B7F9043; 0xCFB5F4A8; 0x3DDE77AB; 0x2E8E845F; 0xDCE5075C;
   0x92A8FC17; 0x60C37F14; 0x73938CE0; 0x81F80FE3; 0x55326B08; 0xA759E80B; 0xB4091BFF; 0x466298FC;
   0x1871A4D8; 0xEA1A27DB; 0xF94AD42F; 0x0B21572C; 0xDFEB33C7; 0x2D80B0C4; 0x3ED04330; 0xCCBBC033;
   0xA24BB5A6; 0x502036A5; 0x4370C551; 0xB11B4652; 0x65D122B9; 0x97BAA1BA; 0x84EA524E; 0x7681D14D;
   0x2892ED69; 0xDAF96E6A; 0xC9A99D9E; 0x3BC21E9D; 0xEF087A76; 0x1D63F975; 0x0E330A81; 0xFC588982;
   0xB21572C9; 0x407EF1CA; 0x532E023E; 0xA145813D; 0x758FE5D6; 0x87E466D5; 0x94B49521; 0x66DF1622;
   0x38CC2A06; 0xCAA7A905; 0xD9F75AF1; 0x2B9CD9F2; 0xFF56BD19; 0x0D3D3E1A; 0x1E6DCDEE; 0xEC064EED;
   0xC38D26C4; 0x31E6A5C7; 0x22B65633; 0xD0DDD530; 0x0417B1DB; 0xF67C32D8; 0xE52CC12C; 0x1747422F;
   0x49547E0B; 0xBB3FFD08; 0xA86F0EFC; 0x5A048DFF; 0x8ECEE914; 0x7CA56A17; 0x6FF599E3; 0x9D9E1AE0;
   0xD3D3E1AB; 0x21B862A8; 0x32E8915C; 0xC083125F; 0x144976B4; 0xE622F5B7; 0xF5720643; 0x07198540;
   0x590AB964; 0xAB613A67; 0xB831C993; 0x4A5A4A90; 0x9E902E7B; 0x6CFBAD78; 0x7FAB5E8C; 0x8DC0DD8F;
   0xE330A81A; 0x115B2B19; 0x020BD8ED; 0xF0605BEE; 0x24AA3F05; 0xD6C1BC06; 0xC5914FF2; 0x37FACCF1;
   0x69E9F0D5; 0x9B8273D6; 0x88D28022; 0x7AB90321; 0xAE7367CA; 0x5C18E4C9; 0x4F48173D; 0xBD23943E;
   0xF36E6F75; 0x0105EC76; 0x12551F82; 0xE03E9C81; 0x34F4F86A; 0xC69F7B69; 0xD5CF889D; 0x27A40B9E;
   0x79B737BA; 0x8BDCB4B9; 0x988C474D; 0x6AE7C44E; 0xBE2DA0A5; 0x4C4623A6; 0x5F16D052; 0xAD7D5351].

(** One round of the loops. *)
Definition crc_step (crc b : Z) : Z := Z.lxor (Z.shiftr crc 8) (crc32c_table !!! Z.to_nat (Z.land (Z.lxor crc b) 0xFF)).

Definition crc32c (data : bytes) : Z := Z.lxor (foldl crc_step 0xFFFFFFFF data) 0xFFFFFFFF.

(** ** Frames *)

Record ak_ipc_header := mk_ipc_header {
  ih_magic : Z; ih_version : Z; ih_flags : Z; ih_payload_length : Z; ih_sequence : Z; ih_checksum : Z
}.

(** The packed header up to the checksum. *)
Definition hdr_bytes (hdr : ak_ipc_header) : bytes :=
  le_enc 2 (ih_magic hdr) ++ [ih_version hdr; ih_flags hdr] ++ le_enc 4 (ih_payload_length hdr) ++ le_enc 8 (ih_sequence hdr).

Definition ak_ipc_compute_checksum (hdr : ak_ipc_header) (payload : option bytes) : Z :=
  let crc := foldl crc_step 0xFFFFFFFF (take 16 (hdr_bytes hdr)) in
  let crc := match payload with Some p => foldl crc_step crc p | None => crc end in
  Z.lxor crc 0xFFFFFFFF.

Definition ak_ipc_validate_header (hdr : option ak_ipc_header) : Z :=
  match hdr with
  | None => - EINVAL
  | Some hdr =>
      if negb (ih_magic hdr =? AK_IPC_MAGIC) then AK_E_IPC_INVALID
      else if negb (ih_version hdr =? AK_IPC_VERSION) then AK_E_IPC_INVALID
      else if AK_IPC_MAX_PAYLOAD <? ih_payload_length hdr then AK_E_IPC_INVALID
      else 0
  end.

Definition ak_ipc_validate_payload (flags : Z) (payload : option bytes) : Z :=
  match payload with
  | None | Some [] => - EINVAL
  | Some (c :: _) => if negb (c =? 123) && negb (c =? 91) then AK_E_IPC_INVALID else 0
  end.

(** ** Channels *)

Inductive ak_channel_state := AK_CHANNEL_DISCONNECTED | AK_CHANNEL_CONNECTING | AK_CHANNEL_CONNECTED | AK_CHANNEL_ERROR.
#[export] Instance ak_channel_state_eq : EqDecision ak_channel_state.
Proof. solve_decision. Defined.

Record ak_ipc_stats := mk_ipc_stats {
  frames_sent : Z; frames_received : Z; bytes_sent : Z; bytes_received : Z; ipc_errors : Z; checksum_failures : Z
}.
Record ak_ipc_channel := mk_channel {
  ch_agent_id : bytes; ch_fd : Z; ch_state : ak_channel_state; ch_next_seq : Z; ch_stats : ak_ipc_stats; ch_recv_offset : Z
}.

(** A failed allocation is [INVALID_ADDRESS], which the tests for zero let pass:
    here and below what follows writes through it, [Oob]. *)
Definition ak_ipc_channel_create (alloc : bool) (agent_id : option bytes) (fd : Z) : outcome ak_ipc_channel :=
  if negb alloc then Oob
  else Ret (mk_channel (default (zeros 16) agent_id) fd AK_CHANNEL_CONNECTED 1 (mk_ipc_stats 0 0 0 0 0 0) 0).

Definition ak_ipc_channel_state (ch : option ak_ipc_channel) : ak_channel_state :=
  match ch with Some ch => ch_state ch | None => AK_CHANNEL_DISCONNECTED end.
Definition ak_ipc_channel_stats (ch : option ak_ipc_channel) (stats : ak_ipc_stats) : ak_ipc_stats :=
  match ch with Some ch => ch_stats ch | None => stats end.

(** The result, the channel and the header. *)
Definition write_frame (ch : ak_ipc_channel) (flags : Z) (payload : option bytes) : Z * ak_ipc_channel * option ak_ipc_header :=
  if negb (bool_decide (ch_state ch = AK_CHANNEL_CONNECTED)) then (- EINVAL, ch, None)
  else
    let payload_length := match payload with Some p => u32 (Z.of_nat (length p)) | None => 0 end in
    let hdr := mk_ipc_header AK_IPC_MAGIC AK_IPC_VERSION flags payload_length (ch_next_seq ch) 0 in
    let hdr := mk_ipc_header AK_IPC_MAGIC AK_IPC_VERSION flags payload_length (ch_next_seq ch) (ak_ipc_compute_checksum hdr payload) in
    let s := ch_stats ch in
    let s := mk_ipc_stats (u64 (frames_sent s + 1)) (frames_received s) (u64 (bytes_sent s + u32 (AK_IPC_HEADER_SIZE + payload_length)))
               (bytes_received s) (ipc_errors s) (checksum_failures s) in
    (0, mk_channel (ch_agent_id ch) (ch_fd ch) (ch_state ch) (u64 (ch_next_seq ch + 1)) s (ch_recv_offset ch), Some hdr).

(** ** Texts *)

Record wbuf := mk_wbuf { wb_text : bytes; wb_capacity : Z }.

(** [buffer_write], with [buffer_extend]. *)
Definition buffer_write (grow : Z -> bool) (b : wbuf) (src : bytes) : wbuf :=
  let need := Z.of_nat (length (wb_text b) + length src) in
  if wb_capacity b <? need then
    if grow (2 * need) then mk_wbuf (wb_text b ++ src) (2 * need) else b
  else mk_wbuf (wb_text b ++ src) (wb_capacity b).

Definition writes (grow : Z -> bool) (capacity : Z) (l : list bytes) : bytes := wb_text (foldl (buffer_write grow) (mk_wbuf [] capacity) l).

Definition ak_string_to_op (str : option bytes) : Z :=
  match str with
  | None => 0
  | Some s =>
      let eq w := bytes_eqb (cstr s) w in
      if eq B"READ" then AK_SYS_READ else if eq B"ALLOC" then AK_SYS_ALLOC else if eq B"WRITE" then AK_SYS_WRITE
      else if eq B"DELETE" then AK_SYS_DELETE else if eq B"QUERY" then AK_SYS_QUERY else if eq B"BATCH" then AK_SYS_BATCH
      else if eq B"COMMIT" then AK_SYS_COMMIT else if eq B"CALL" then AK_SYS_CALL else if eq B"SPAWN" then AK_SYS_SPAWN
      else if eq B"SEND" then AK_SYS_SEND else if eq B"RECV" then AK_SYS_RECV else if eq B"RESPOND" then AK_SYS_RESPOND
      else if eq B"ASSERT" then AK_SYS_ASSERT else if eq B"INFERENCE" then AK_SYS_INFERENCE else 0
  end.

(** The digits of a number, as written out three times in the source. *)
Definition seq_text (seq : Z) : bytes := if seq =? 0 then [48] else dec_digits 20 seq [].
(** Of a signed number, behind its sign: negating the least one overflows, and
    then there are no digits. *)
Definition code_text (code : Z) : bytes := let code := if code <? 0 then s64 (u64 (- code)) else code in seq_text code.

Definition ak_ipc_error_message (error_code : Z) : bytes :=
  let eq c := error_code =? c in
  if eq 0 then B"success" else if eq AK_E_CAP_INVALID then B"capability invalid" else if eq AK_E_CAP_EXPIRED then B"capability expired"
  else if eq AK_E_CAP_SCOPE then B"capability scope insufficient" else if eq AK_E_CAP_RATE then B"rate limit exceeded"
  else if eq AK_E_CAP_RUN_MISMATCH then B"run ID mismatch" else if eq AK_E_REPLAY then B"replay detected"
  else if eq AK_E_SEQ_GAP then B"sequence gap" else if eq AK_E_CONFLICT then B"version conflict"
  else if eq AK_E_SCHEMA_INVALID then B"schema validation failed" else if eq AK_E_POLICY_DENIED then B"policy denied"
  else if eq AK_E_BUDGET_EXCEEDED then B"budget exceeded" else if eq AK_E_IPC_INVALID then B"invalid IPC frame"
  else if eq AK_E_TAINT then B"taint violation" else if eq AK_E_LOG_CORRUPT then B"log corruption detected"
  else if eq AK_E_TIMEOUT then B"timeout" else if eq (- EINVAL) then B"invalid argument" else if eq (- ENOENT) then B"not found"
  else if eq (- ENOMEM) then B"out of memory" else if eq (- EPERM) then B"permission denied" else B"unknown error".

(** The common start of both texts. *)
Definition identity_segments (pid run_id : bytes) (seq : Z) : list bytes :=
  [JQ"{'pid':'"; ak_hex_encode pid; JQ"','run_id':'"; ak_hex_encode run_id; JQ"','seq':"; seq_text seq].

(** A member whose value is present and not empty. *)
Definition member_segments (name : bytes) (value : option bytes) : list bytes :=
  match value with Some (c :: v) => [name; c :: v] | _ => [] end.

Definition request_segments (req : ak_request) : list bytes :=
  identity_segments (rq_pid req) (rq_run_id req) (rq_seq req) ++ [JQ",'op':'"; ak_op_to_string (rq_op req); JQ"'"] ++
  member_segments JQ",'args':" (rq_args req) ++ [B"}"].

Definition ak_ipc_serialize_request (alloc : bool) (grow : Z -> bool) (req : option ak_request) : outcome bytes :=
  match req with
  | None => Null
  | Some req => if negb alloc then Oob else Ret (writes grow 1024 (request_segments req))
  end.

(** 27 of the 28 bytes of the text in front of the code are written. *)
Definition response_segments (res : ak_response) : list bytes :=
  identity_segments (rs_pid res) (rs_run_id res) (rs_seq res) ++
  (if rs_error res =? 0 then JQ",'ok':true" :: member_segments JQ",'result':" (rs_result res)
   else [take 27 JQ",'ok':false,'error':{'code':"] ++ (if rs_error res <? 0 then [B"-"] else []) ++
     [code_text (rs_error res); JQ",'message':'"; ak_ipc_error_message (rs_error res); JQ"'}"]) ++ [B"}"].

Definition ak_ipc_serialize_response (alloc : bool) (grow : Z -> bool) (res : option ak_response) : outcome bytes :=
  match res with
  | None => Null
  | Some res => if negb alloc then Oob else Ret (writes grow 1024 (response_segments res))
  end.

Definition batch_segments (res : ak_response) : list bytes :=
  if rs_error res =? 0 then [JQ"{'ok':true"] ++ member_segments JQ",'result':" (rs_result res) ++ [B"}"]
  else [JQ"{'ok':false,'error':"] ++ (if rs_error res <? 0 then [B"-"] else []) ++ [code_text (rs_error res); B"}"].
Fixpoint batch_loop (first : bool) (l : list ak_response) : list bytes :=
  match l with [] => [] | res :: l' => (if first then [] else [B","]) ++ batch_segments res ++ batch_loop false l' end.

Definition ak_ipc_serialize_batch_response (alloc : bool) (grow : Z -> bool) (responses : option (list ak_response)) : outcome bytes :=
  match responses with
  | None | Some [] => Null
  | Some l =>
      if negb alloc then Oob
      else Ret (writes grow (256 * Z.of_nat (length l)) ([JQ"{'batch_results':["] ++ batch_loop true l ++ [B"]}"]))
  end.

(** The reading side accepts nothing. *)
Definition ak_ipc_parse_request (json : option bytes) : option ak_request := None.
Definition ak_ipc_parse_response (json : option bytes) : option ak_response := None.

(** [status] is not set: the value is what the memory held. *)
Definition ak_ipc_error_response (alloc : bool) (garbage : ak_status) (pid run_id : option bytes) (seq error_code : Z) : outcome ak_response :=
  if negb alloc then Oob
  else Ret (mk_res (default (zeros 16) pid) (default (zeros 16) run_id) seq garbage error_code None).

(** The result, the channel, and the header with the payload. *)
Definition ak_ipc_send_request (alloc : bool) (grow : Z -> bool) (ch : ak_ipc_channel) (req : option ak_request) :
    outcome (Z * ak_ipc_channel * option (ak_ipc_header * bytes)) :=
  match req with
  | None => Ret (- EINVAL, ch, None)
  | Some _ =>
      match ak_ipc_serialize_request alloc grow req with
      | Null => Ret (- ENOMEM, ch, None)
      | Ret json => let '(r, ch, hdr) := write_frame ch AK_IPC_FLAG_REQUEST (Some json) in Ret (r, ch, (fun h => (h, json)) <$> hdr)
      | Oob => Oob
      end
  end.

Definition ak_ipc_send_response (alloc : bool) (grow : Z -> bool) (ch : ak_ipc_channel) (res : option ak_response) :
    outcome (Z * ak_ipc_channel * option (ak_ipc_header * bytes)) :=
  match res with
  | None => Ret (- EINVAL, ch, None)
  | Some r0 =>
      match ak_ipc_serialize_response alloc grow res with
      | Null => Ret (- ENOMEM, ch, None)
      | Ret json =>
          let flags := if rs_error r0 =? 0 then AK_IPC_FLAG_RESPONSE else Z.lor AK_IPC_FLAG_RESPONSE AK_IPC_FLAG_ERROR in
          let '(r, ch, hdr) := write_frame ch flags (Some json) in Ret (r, ch, (fun h => (h, json)) <$> hdr)
      | Oob => Oob
      end
  end.

Definition ak_ipc_recv_timeout (ch : option ak_ipc_channel) (req_out res_out : bool) : Z :=
  match ch with
  | None => - EINVAL
  | Some _ => if negb req_out && negb res_out then - EINVAL else AK_E_TIMEOUT
  end.

(** The check value of the standard. *)
Example crc32c_check : crc32c B"123456789" = 0xE3069283.
Proof. vm_compute. reflexivity. Qed.

Definition no_growth : Z -> bool := fun _ => false.
Definition all_growth : Z -> bool := fun _ => true.

(** The colon behind the name of the code is lost. *)
Example error_response_malformed :
  ak_ipc_serialize_response true all_growth (Some (mk_res [] [] 7 AK_STATUS_ERROR (-4300) None)) =
  Ret JQ"{'pid':'','run_id':'','seq':7,'ok':false,'error':{'code'-4300,'message':'budget exceeded'}}".
Proof. vm_compute. reflexivity. Qed.

(** Without memory for the arguments the member keeps its name only, and the
    frame is sent. *)
Example dropped_write_unnoticed :
  ak_ipc_serialize_request true no_growth (Some (mk_req [] [] 1 AK_SYS_CALL (Some (replicate 1000 32)) None 0)) =
  Ret JQ"{'pid':'','run_id':'','seq':1,'op':'CALL','args':}".
Proof. vm_compute. reflexivity. Qed.

(** An error response is sent as it was read: its status is not set. *)
Example error_response_status_unset :
  (let* res := ak_ipc_error_response true AK_STATUS_OK None None 1 AK_E_TAINT in Ret (rs_status res)) = Ret AK_STATUS_OK.
Proof. reflexivity. Qed.

(** ** The checksum *)

(** One bit: the remainder modulo the Castagnoli polynomial, least significant
    bit first. *)
Definition crc_bit (x : Z) : Z := if Z.odd x then Z.lxor (Z.shiftr x 1) 0x82F63B78 else Z.shiftr x 1.
Definition crc_byte (crc b : Z) : Z := Nat.iter 8 crc_bit (Z.lxor crc b).
Definition crc_ref (data : bytes) : Z := Z.lxor (foldl crc_byte 0xFFFFFFFF data) 0xFFFFFFFF.

Ltac bits := apply Z.bits_inj'; intros ? ?; rewrite ?Z.lxor_spec; repeat destruct (Z.testbit _ _); reflexivity.

Lemma crc_bit_lxor x y : crc_bit (Z.lxor x y) = Z.lxor (crc_bit x) (crc_bit y).
Proof.
  unfold crc_bit. rewrite <-!Z.bit0_odd, Z.lxor_spec, Z.shiftr_lxor.
  destruct (Z.testbit x 0), (Z.testbit y 0); cbn [xorb]; bits.
Qed.

Lemma crc_bit_shift h n : 0 <= n -> crc_bit (Z.shiftl h (n + 1)) = Z.shiftl h n.
Proof.
  intros Hn. unfold crc_bit. rewrite <-Z.bit0_odd, Z.shiftl_spec_low by lia.
  rewrite Z.shiftr_shiftl_l by lia. f_equal. lia.
Qed.

Lemma iter_bits_lxor n x y : Nat.iter n crc_bit (Z.lxor x y) = Z.lxor (Nat.iter n crc_bit x) (Nat.iter n crc_bit y).
Proof. induction n as [|n IH]; [done|]. by rewrite !Nat.iter_succ, IH, crc_bit_lxor. Qed.

Lemma iter_bits_shift n h : Nat.iter n crc_bit (Z.shiftl h (Z.of_nat n)) = h.
Proof.
  induction n as [|n IH]; [apply Z.shiftl_0_r|]. rewrite Nat.iter_succ_r, Nat2Z.inj_succ. unfold Z.succ. by rewrite crc_bit_shift by lia.
Qed.

Lemma split_low x : x = Z.lxor (Z.shiftl (Z.shiftr x 8) 8) (Z.land x 255).
Proof.
  apply Z.bits_inj'. intros n Hn. rewrite Z.lxor_spec, Z.land_spec. change 255 with (Z.ones 8).
  destruct (Z.lt_ge_cases n 8).
  - by rewrite Z.shiftl_spec_low, Z.ones_spec_low, andb_true_r by lia.
  - rewrite Z.shiftl_spec, Z.shiftr_spec, Z.ones_spec_high, andb_false_r, xorb_false_r by lia. f_equal. lia.
Qed.

Lemma land_low x : 0 <= Z.land x 255 < 256.
Proof. change 255 with (Z.ones 8). rewrite Z.land_ones by lia. apply Z.mod_pos_bound. lia. Qed.

(** What is true of all entries can be checked. *)
Lemma table_forall (P : Z -> Z -> bool) x :
  forallb (fun i => P (Z.of_nat i) (crc32c_table !!! i)) (seq 0 256) = true ->
  P (Z.land x 255) (crc32c_table !!! Z.to_nat (Z.land x 255)) = true.
Proof.
  intros H. rewrite forallb_forall in H. pose proof (land_low x).
  specialize (H (Z.to_nat (Z.land x 255)) ltac:(apply in_seq; lia)). by rewrite Z2Nat.id in H by lia.
Qed.

Lemma shiftr_u8 b : is_u8 b -> Z.shiftr b 8 = 0.
Proof. intros Hb. unfold is_u8 in Hb. rewrite Z.shiftr_div_pow2 by lia. change (2 ^ 8) with 256. apply Z.div_small. lia. Qed.

(** The table is the division of each byte. *)
Lemma crc_step_ref crc b : is_u8 b -> crc_step crc b = crc_byte crc b.
Proof.
  intros Hb. unfold crc_step, crc_byte. rewrite (split_low (Z.lxor crc b)) at 2. rewrite iter_bits_lxor, (iter_bits_shift 8), Z.shiftr_lxor.
  rewrite (shiftr_u8 b), Z.lxor_0_r by done. f_equal.
  pose proof (table_forall (fun i t => t =? Nat.iter 8 crc_bit i) (Z.lxor crc b)) as H. cbv beta in H.
  apply Z.eqb_eq, H. vm_compute. reflexivity.
Qed.

Lemma crc_run_ref l c : wf_bytes l -> foldl crc_step c l = foldl crc_byte c l.
Proof. intros Hl. revert c. induction Hl as [|b l Hb Hl IH]; intros c; [done|]. cbn [foldl]. by rewrite crc_step_ref, IH. Qed.

Lemma lxor_u32 x y : is_u32 x -> is_u32 y -> is_u32 (Z.lxor x y).
Proof.
  unfold is_u32. intros Hx Hy. split; [apply Z.lxor_nonneg; lia|].
  destruct (Z.eq_dec (Z.lxor x y) 0) as [->|]; [lia|]. apply Z.log2_lt_cancel.
  pose proof (Z.log2_lxor x y ltac:(lia) ltac:(lia)).
  enough (Z.log2 x <= 31 /\ Z.log2 y <= 31) by (change (Z.log2 M32) with 32; lia).
  split; [change 31 with (Z.log2 (M32 - 1))|change 31 with (Z.log2 (M32 - 1))]; apply Z.log2_le_mono; lia.
Qed.

Lemma table_u32 x : is_u32 (crc32c_table !!! Z.to_nat (Z.land x 255)).
Proof.
  pose proof (table_forall (fun _ t => (0 <=? t) && (t <? M32)) x) as H. cbv beta in H. unfold is_u32.
  assert (E : (0 <=? crc32c_table !!! Z.to_nat (Z.land x 255)) && (crc32c_table !!! Z.to_nat (Z.land x 255) <? M32) = true)
    by (apply H; vm_compute; reflexivity). bprop. lia.
Qed.

Lemma shiftr_u32 x n : 0 <= n -> is_u32 x -> is_u32 (Z.shiftr x n).
Proof.
  unfold is_u32. intros Hn Hx. rewrite Z.shiftr_div_pow2 by done. pose proof (Z.pow_pos_nonneg 2 n ltac:(lia) Hn).
  split; [apply Z.div_pos; lia|]. apply Z.div_lt_upper_bound; [lia|]. nia.
Qed.

Lemma crc_step_u32 c b : is_u32 c -> is_u32 (crc_step c b).
Proof. intros Hc. apply lxor_u32; [by apply shiftr_u32|apply table_u32]. Qed.

Lemma crc_run_u32 l c : is_u32 c -> is_u32 (foldl crc_step c l).
Proof. revert c. induction l as [|b l IH]; intros c Hc; [done|]. apply IH, crc_step_u32, Hc. Qed.

(** The high byte of an entry determines its index. *)
Lemma table_high i j :
  (i < 256)%nat -> (j < 256)%nat -> Z.shiftr (crc32c_table !!! i) 24 = Z.shiftr (crc32c_table !!! j) 24 -> i = j.
Proof.
  intros Hi Hj E.
  assert (Hnd : NoDup ((fun t => Z.shiftr t 24) <$> crc32c_table)) by (apply (bool_decide_unpack _); vm_compute; exact I).
  assert (Hl : length crc32c_table = 256%nat) by reflexivity.
  eapply NoDup_lookup; [exact Hnd| |]; rewrite list_lookup_fmap; [rewrite (list_lookup_lookup_total_lt crc32c_table i)|
    rewrite (list_lookup_lookup_total_lt crc32c_table j)]; rewrite ?Hl; try done. cbn. by rewrite E.
Qed.

Lemma lxor_cancel c x y : Z.lxor c x = Z.lxor c y -> x = y.
Proof. intros E. apply (f_equal (Z.lxor c)) in E. by rewrite <-!Z.lxor_assoc, Z.lxor_nilpotent, !Z.lxor_0_l in E. Qed.

(** The byte moves into the remainder; higher bits pass the round unchanged. *)
Lemma crc_step_zero c b : is_u8 b -> crc_step c b = crc_step (Z.lxor c b) 0.
Proof. intros Hb. unfold crc_step. by rewrite Z.lxor_0_r, Z.shiftr_lxor, (shiftr_u8 b), Z.lxor_0_r. Qed.

Lemma crc_step_high c x : crc_step (Z.lxor c (Z.shiftl x 8)) 0 = Z.lxor (crc_step c 0) x.
Proof.
  unfold crc_step. rewrite !Z.lxor_0_r, Z.shiftr_lxor, Z.shiftr_shiftl_l, Z.shiftl_0_r by lia.
  replace (Z.land (Z.lxor c (Z.shiftl x 8)) 255) with (Z.land c 255).
  - rewrite !Z.lxor_assoc. f_equal. apply Z.lxor_comm.
  - apply Z.bits_inj'. intros n Hn. rewrite !Z.land_spec, Z.lxor_spec. change 255 with (Z.ones 8). destruct (Z.lt_ge_cases n 8).
    + by rewrite Z.shiftl_spec_low, xorb_false_r by lia.
    + by rewrite Z.ones_spec_high, !andb_false_r by lia.
Qed.

Lemma crc_zero_inj c c' : is_u32 c -> is_u32 c' -> crc_step c 0 = crc_step c' 0 -> c = c'.
Proof.
  intros Hc Hc' E. pose proof (land_low c). pose proof (land_low c').
  assert (Hlow : Z.land c 255 = Z.land c' 255).
  { assert (Hh : forall x, is_u32 x -> Z.shiftr (crc_step x 0) 24 = Z.shiftr (crc32c_table !!! Z.to_nat (Z.land x 255)) 24).
    { intros x Hx. unfold crc_step. rewrite Z.lxor_0_r, Z.shiftr_lxor, Z.shiftr_shiftr by lia. change (8 + 24) with 32.
      replace (Z.shiftr x 32) with 0; [apply Z.lxor_0_l|]. symmetry. rewrite Z.shiftr_div_pow2 by lia. unfold is_u32 in Hx.
      change (2 ^ 32) with M32. apply Z.div_small. lia. }
    apply (f_equal (fun x => Z.shiftr x 24)) in E. rewrite !Hh in E by done. apply table_high in E; lia. }
  rewrite (split_low c), (split_low c'), Hlow. do 2 f_equal. unfold crc_step in E. rewrite !Z.lxor_0_r, Hlow in E.
  apply (lxor_cancel (crc32c_table !!! Z.to_nat (Z.land c' 255))). by rewrite (Z.lxor_comm _ (Z.shiftr c 8)), (Z.lxor_comm _ (Z.shiftr c' 8)).
Qed.

Lemma is_u8_u32 b : is_u8 b -> is_u32 b.
Proof. unfold is_u8, is_u32. lia. Qed.

Lemma crc_run_inj l c c' : wf_bytes l -> is_u32 c -> is_u32 c' -> foldl crc_step c l = foldl crc_step c' l -> c = c'.
Proof.
  intros Hl. revert c c'. induction Hl as [|b l Hb Hl IH]; intros c c' Hc Hc' E; [done|]. cbn [foldl] in E.
  apply IH in E; [|by apply crc_step_u32..]. rewrite !(crc_step_zero _ b) in E by done.
  apply crc_zero_inj in E; [|by apply lxor_u32, is_u8_u32..]. rewrite (Z.lxor_comm c), (Z.lxor_comm c') in E. by apply lxor_cancel in E.
Qed.

Lemma le_dec_cons b l : is_u8 b -> wf_bytes l -> le_dec (b :: l) = Z.lxor b (Z.shiftl (le_dec l) 8).
Proof.
  intros Hb Hl. cbn [le_dec]. pose proof (le_dec_bound l Hl). rewrite <-Z.add_nocarry_lxor.
  - rewrite Z.shiftl_mul_pow2 by lia. lia.
  - apply Z.bits_inj'. intros n Hn. rewrite Z.land_spec, Z.bits_0. destruct (Z.lt_ge_cases n 8).
    + by rewrite Z.shiftl_spec_low, andb_false_r by lia.
    + replace (Z.testbit b n) with false; [done|]. symmetry. rewrite <-(Z.sub_add 8 n), <-Z.shiftr_spec, shiftr_u8 by (done || lia).
      apply Z.bits_0.
Qed.

(** The bytes of a message are added to the remainder before it is divided. *)
Lemma crc_run_zeros l c : wf_bytes l -> foldl crc_step c l = foldl crc_step (Z.lxor c (le_dec l)) (zeros (length l)).
Proof.
  intros Hl. revert c. induction Hl as [|b l Hb Hl IH]; intros c; [cbn; by rewrite Z.lxor_0_r|].
  rewrite le_dec_cons by done. cbn [length]. change (zeros (S (length l))) with (0 :: zeros (length l)). cbn [foldl].
  by rewrite IH, crc_step_zero, <-Z.lxor_assoc, crc_step_high.
Qed.

(** Every corruption of at most four consecutive bytes changes the remainder. *)
Lemma crc_burst pre x y post c :
  wf_bytes x -> wf_bytes y -> wf_bytes post -> length x = length y -> (length x <= 4)%nat -> is_u32 c ->
  foldl crc_step c (pre ++ x ++ post) = foldl crc_step c (pre ++ y ++ post) -> x = y.
Proof.
  intros Hx Hy Hp Hl H4 Hc. rewrite !foldl_app. set (c0 := foldl crc_step c pre). assert (Hc0 : is_u32 c0) by by apply crc_run_u32.
  intros E. apply crc_run_inj in E; [|done|by apply crc_run_u32..].
  assert (Hd : forall l, wf_bytes l -> (length l <= 4)%nat -> is_u32 (le_dec l)).
  { intros l Hwf H. pose proof (le_dec_bound l Hwf). unfold is_u32. change M32 with (256 ^ 4).
    pose proof (Z.pow_le_mono_r 256 (Z.of_nat (length l)) 4). lia. }
  rewrite (crc_run_zeros x), (crc_run_zeros y), Hl in E by done.
  apply crc_run_inj in E; [|apply Forall_replicate; done|apply lxor_u32; [done|apply Hd; [done|lia]]..].
  apply lxor_cancel in E. rewrite <-(le_enc_dec x), <-(le_enc_dec y), Hl by done. by rewrite E.
Qed.

(** ** Writes *)

Definition has_room (grow : Z -> bool) (capacity : Z) (l : list bytes) : Prop :=
  (forall n, grow n = true) \/ Z.of_nat (length (concat l)) <= capacity.

Lemma writes_from grow l b :
  (forall n, grow n = true) \/ Z.of_nat (length (wb_text b) + length (concat l)) <= wb_capacity b ->
  wb_text (foldl (buffer_write grow) b l) = wb_text b ++ concat l.
Proof.
  revert b. induction l as [|s l IH]; intros b Hr; [by rewrite app_nil_r|]. cbn [foldl concat] in *. rewrite length_app in Hr.
  unfold buffer_write at 2. destruct (Z.ltb_spec (wb_capacity b) (Z.of_nat (length (wb_text b) + length s))).
  - destruct Hr as [Hg|?]; [|lia]. rewrite Hg, IH by (by left). cbn [wb_text]. by rewrite app_assoc.
  - rewrite IH; cbn [wb_text wb_capacity]; [by rewrite app_assoc|]. rewrite length_app. destruct Hr; [by left|right; lia].
Qed.

Lemma writes_all grow capacity l : has_room grow capacity l -> writes grow capacity l = concat l.
Proof. intros Hr. unfold writes. rewrite writes_from; [done|]. cbn. destruct Hr; [by left|right; lia]. Qed.

(** Whatever is dropped, what was written stays, and is made of the segments. *)
Lemma writes_forall grow (P : Z -> Prop) l b :
  Forall P (wb_text b) -> Forall (Forall P) l -> Forall P (wb_text (foldl (buffer_write grow) b l)).
Proof.
  intros Hb Hl. revert b Hb. induction Hl as [|s l Hs Hl IH]; intros b Hb; [done|]. apply IH. unfold buffer_write.
  destruct (_ <? _); [destruct (grow _)|]; cbn [wb_text]; [by apply Forall_app_2|done|by apply Forall_app_2].
Qed.

Lemma writes_prefix grow l b : wb_text b `prefix_of` wb_text (foldl (buffer_write grow) b l).
Proof.
  revert b. induction l as [|s l IH]; intros b; [done|]. cbn [foldl]. etransitivity; [|apply IH]. unfold buffer_write.
  destruct (_ <? _); [destruct (grow _)|]; cbn [wb_text]; [by apply prefix_app_r|done|by apply prefix_app_r].
Qed.

Lemma writes_head grow s l : Z.of_nat (length s) <= 1024 -> s `prefix_of` writes grow 1024 (s :: l).
Proof.
  intros Hs. unfold writes. cbn [foldl]. etransitivity; [|apply writes_prefix]. unfold buffer_write. cbn [wb_text wb_capacity length app].
  by destruct (Z.ltb_spec 1024 (Z.of_nat (0 + length s))); [lia|].
Qed.

(** ** A reader of the texts *)

Definition strip_prefix (w t : bytes) : option bytes := if has_prefix w t then Some (drop (length w) t) else None.
Fixpoint span (f : Z -> bool) (t : bytes) : bytes * bytes :=
  match t with c :: t' => if f c then let '(a, r) := span f t' in (c :: a, r) else ([], t) | [] => ([], []) end.

Definition read_identity (t : bytes) : option (bytes * bytes * Z * bytes) :=
  t ← strip_prefix JQ"{'pid':'" t; pid ← ak_hex_decode (take 32 t) 16;
  t ← strip_prefix JQ"','run_id':'" (drop 32 t); run_id ← ak_hex_decode (take 32 t) 16;
  t ← strip_prefix JQ"','seq':" (drop 32 t);
  let '(ds, t) := span is_dec t in Some (pid, run_id, dec_value 0 ds, t).

(** The end of an object, with one more member or without. *)
Definition read_member (name t : bytes) : option (option bytes) :=
  if bytes_eqb t B"}" then Some None
  else v ← strip_prefix name t; if bool_decide (last v = Some 125) then Some (Some (removelast v)) else None.

Definition read_request (t : bytes) : option (bytes * bytes * Z * Z * option bytes) :=
  '(pid, run_id, seq, t) ← read_identity t; t ← strip_prefix JQ",'op':'" t;
  let '(name, t) := span (fun c => negb (c =? 34)) t in
  t ← strip_prefix JQ"'" t; args ← read_member JQ",'args':" t; Some (pid, run_id, seq, ak_string_to_op (Some name), args).

Definition read_response (t : bytes) : option (bytes * bytes * Z * option bytes) :=
  '(pid, run_id, seq, t) ← read_identity t; t ← strip_prefix JQ",'ok':true" t;
  result ← read_member JQ",'result':" t; Some (pid, run_id, seq, result).

Lemma strip_prefix_app w t : strip_prefix w (w ++ t) = Some t.
Proof. unfold strip_prefix, has_prefix. by rewrite take_app_length, (proj2 (bytes_eqb_eq _ _)), drop_app_length. Qed.

Lemma span_app f a t : Forall (fun c => f c = true) a -> match t with c :: _ => f c = false | [] => True end -> span f (a ++ t) = (a, t).
Proof.
  intros Ha Ht. induction Ha as [|c a Hc Ha IH]; [destruct t as [|c t]; [done|by cbn; rewrite Ht]|]. cbn [app span]. by rewrite Hc, IH.
Qed.

Lemma seq_text_spec seq : is_u64 seq -> Forall (fun c => is_dec c = true) (seq_text seq) /\ dec_value 0 (seq_text seq) = seq.
Proof. intros Hs. destruct (u64_to_dec_spec seq) as (H1 & H2 & _); [unfold is_u64, UINT64_MAX in *; lia|done]. Qed.

Lemma read_identity_app pid run_id seq t :
  wf_bytes pid -> wf_bytes run_id -> length pid = 16%nat -> length run_id = 16%nat -> is_u64 seq ->
  match t with c :: _ => is_dec c = false | [] => True end ->
  read_identity (concat (identity_segments pid run_id seq) ++ t) = Some (pid, run_id, seq, t).
Proof.
  intros Hp Hr Hlp Hlr Hs Ht. destruct (seq_text_spec seq Hs) as [Hd Hv]. unfold read_identity, identity_segments.
  cbn [concat]. rewrite <-!app_assoc. cbn [app]. rewrite strip_prefix_app. cbn [mbind option_bind].
  rewrite take_app_length', drop_app_length' by (rewrite length_hex_encode; lia). rewrite hex_round_trip by (done || lia).
  cbn [mbind option_bind]. rewrite strip_prefix_app. cbn [mbind option_bind].
  rewrite take_app_length', drop_app_length' by (rewrite length_hex_encode; lia). rewrite hex_round_trip by (done || lia).
  cbn [mbind option_bind]. rewrite strip_prefix_app. cbn [mbind option_bind]. by rewrite span_app, Hv.
Qed.

(** A member without a value is left out. *)
Definition present (v : option bytes) : option bytes := match v with Some [] => None | _ => v end.

Lemma read_member_app c name v : read_member (c :: name) (concat (member_segments (c :: name) v) ++ B"}") = Some (present v) \/ c = 125.
Proof.
  destruct v as [[|d v]|]; [by left| |by left]. destruct (decide (c = 125)) as [->|Hc]; [by right|left].
  unfold member_segments, read_member. cbn [concat]. rewrite app_nil_r, <-app_assoc.
  replace (bytes_eqb _ _) with false; [|symmetry; apply bool_decide_eq_false_2; intros E; by injection E].
  rewrite strip_prefix_app. cbn [mbind option_bind]. change (B"}") with [125]. rewrite last_snoc. case_bool_decide; [|done].
  by rewrite removelast_last.
Qed.

Lemma op_name_plain op : Forall (fun c => negb (c =? 34) = true) (ak_op_to_string op).
Proof. unfold ak_op_to_string. repeat destruct (op =? _); repeat constructor. Qed.

(** The operations that have a name. *)
Definition known_op (op : Z) : Prop := ak_op_to_string op <> B"UNKNOWN".

Lemma op_name_round_trip op : known_op op -> ak_string_to_op (Some (ak_op_to_string op)) = op.
Proof.
  unfold known_op, ak_op_to_string.
  repeat match goal with |- context [op =? ?c] => destruct (Z.eqb_spec op c) as [->|]; [intros _; vm_compute; reflexivity|] end. done.
Qed.

(** what is sent can be read back.  With room for its text, a request of a
    named operation, or a successful response, determines a text from which its
    identity, sequence number, operation, and arguments or result are read back,
    whatever bytes the arguments are. *)
Theorem messages_read_back grow req res :
  wf_req req -> wf_bytes (rq_pid req) -> wf_bytes (rq_run_id req) -> known_op (rq_op req) -> has_room grow 1024 (request_segments req) ->
  wf_bytes (rs_pid res) -> wf_bytes (rs_run_id res) -> length (rs_pid res) = 16%nat -> length (rs_run_id res) = 16%nat -> is_u64 (rs_seq res) ->
  rs_error res = 0 -> has_room grow 1024 (response_segments res) ->
  (exists t, ak_ipc_serialize_request true grow (Some req) = Ret t /\
     read_request t = Some (rq_pid req, rq_run_id req, rq_seq req, rq_op req, present (rq_args req))) /\
  (exists t, ak_ipc_serialize_response true grow (Some res) = Ret t /\
     read_response t = Some (rs_pid res, rs_run_id res, rs_seq res, present (rs_result res))).
Proof.
  intros [Hlp Hlr Hs] Hp Hr Ho Hg Hp' Hr' Hlp' Hlr' Hs' He Hg'. split; eexists; (split; [reflexivity|]); rewrite writes_all by done.
  - unfold read_request, request_segments. rewrite concat_app, read_identity_app by done. cbn [mbind option_bind]. cbn [concat app].
    rewrite concat_app, strip_prefix_app. cbn [mbind option_bind].
    rewrite span_app; [|apply op_name_plain|done]. rewrite strip_prefix_app. cbn [mbind option_bind].
    destruct (read_member_app 44 JQ"'args':" (rq_args req)) as [E|?]; [|done].
    change (44 :: JQ"'args':") with (JQ",'args':") in E. change (concat [B"}"]) with (B"}"). rewrite E. cbn [mbind option_bind].
    by rewrite op_name_round_trip.
  - unfold read_response, response_segments. rewrite He. cbn [Z.eqb]. rewrite concat_app, read_identity_app by done.
    cbn [mbind option_bind]. cbn [concat app]. rewrite concat_app, strip_prefix_app. cbn [mbind option_bind].
    destruct (read_member_app 44 JQ"'result':" (rs_result res)) as [E|?]; [|done].
    change (44 :: JQ"'result':") with (JQ",'result':") in E. change (concat [B"}"]) with (B"}"). by rewrite E.
Qed.

Definition ids : bytes := Z.of_nat <$> seq 0 16.
Definition sample_request : ak_request := mk_req ids (zeros 16) 42 AK_SYS_CALL (Some JQ"{'tool':'x','op':'READ'}") None 0.
Definition sample_response : ak_response := mk_res ids (zeros 16) 42 AK_STATUS_OK 0 (Some JQ"{'n':1}").

Lemma messages_read_back_witness :
  exists t, ak_ipc_serialize_request true no_growth (Some sample_request) = Ret t /\
    read_request t = Some (ids, zeros 16, 42, AK_SYS_CALL, Some JQ"{'tool':'x','op':'READ'}").
Proof.
  apply (messages_read_back no_growth sample_request sample_response).
  all: first [by apply (bool_decide_unpack _) | split; vm_compute; (reflexivity || (split; congruence)) |
    right; vm_compute; congruence | reflexivity | unfold known_op; vm_compute; congruence].
Defined.

(** ** Sessions *)

Inductive message := MRequest (req : ak_request) | MResponse (res : ak_response).

Definition send (alloc : bool) (grow : Z -> bool) (ch : ak_ipc_channel) (m : message) : outcome (Z * ak_ipc_channel * option (ak_ipc_header * bytes)) :=
  match m with MRequest req => ak_ipc_send_request alloc grow ch (Some req) | MResponse res => ak_ipc_send_response alloc grow ch (Some res) end.

(** The frames of a sequence of sends: whether the buffer of each can be
    allocated, to which sizes it can grow, and the message. *)
Fixpoint session (ch : ak_ipc_channel) (l : list (bool * (Z -> bool) * message)) : outcome (ak_ipc_channel * list (ak_ipc_header * bytes)) :=
  match l with
  | [] => Ret (ch, [])
  | (alloc, grow, m) :: l' =>
      let* p := send alloc grow ch m in
      let '(_, ch, f) := p in
      let* q := session ch l' in
      Ret (fst q, match f with Some f => f :: snd q | None => snd q end)
  end.

Definition wf_message (m : message) : Prop :=
  match m with
  | MRequest req => forall a, rq_args req = Some a -> wf_bytes a
  | MResponse res => forall a, rs_result res = Some a -> wf_bytes a
  end.

Lemma wf_hex_text l : wf_bytes (ak_hex_encode l).
Proof.
  unfold ak_hex_encode. induction l as [|b l IH]; [constructor|]. cbn [mbind list_bind app].
  assert (Hc : forall i, is_u8 (hex_chars !!! i)).
  { intros i. destruct (hex_chars !! i) as [c|] eqn:E.
    - rewrite (list_lookup_total_correct _ _ _ E). revert i c E. apply Forall_lookup. by apply (bool_decide_unpack _).
    - rewrite list_lookup_total_alt, E. by vm_compute. }
  constructor; [apply Hc|]. constructor; [apply Hc|exact IH].
Qed.

Lemma wf_dec_digits fuel v acc : wf_bytes acc -> wf_bytes (dec_digits fuel v acc).
Proof.
  revert v acc. induction fuel as [|fuel IH]; intros v acc Ha; [done|]. cbn [dec_digits]. destruct (0 <? v); [|done].
  apply IH. constructor; [|done]. pose proof (Z.mod_pos_bound v 10 ltac:(lia)). unfold is_u8. lia.
Qed.

Lemma wf_seq_text v : wf_bytes (seq_text v).
Proof. unfold seq_text. destruct (v =? 0); [by apply (bool_decide_unpack _)|]. apply wf_dec_digits. constructor. Qed.

Lemma wf_identity pid run_id seq : Forall wf_bytes (identity_segments pid run_id seq).
Proof. repeat first [apply Forall_cons_2|apply Forall_nil_2|apply wf_hex_text|apply wf_seq_text|by apply (bool_decide_unpack _)]. Qed.

Lemma wf_member name v : wf_bytes name -> (forall a, v = Some a -> wf_bytes a) -> Forall wf_bytes (member_segments name v).
Proof. intros Hn Hv. destruct v as [[|c v]|]; [constructor| |constructor]. constructor; [done|]. constructor; [by apply Hv|constructor]. Qed.

Lemma wf_op_name op : wf_bytes (ak_op_to_string op).
Proof. unfold ak_op_to_string. repeat destruct (op =? _); by apply (bool_decide_unpack _). Qed.

Lemma wf_error_message c : wf_bytes (ak_ipc_error_message c).
Proof. unfold ak_ipc_error_message. cbv zeta. repeat destruct (c =? _); by apply (bool_decide_unpack _). Qed.

(** What a send does on a connected channel: nothing, or one frame. *)
Record sent_frame (ch ch' : ak_ipc_channel) (f : ak_ipc_header * bytes) : Prop := {
  sf_state : ch_state ch' = AK_CHANNEL_CONNECTED;
  sf_next : ch_next_seq ch' = u64 (ch_next_seq ch + 1);
  sf_frames : frames_sent (ch_stats ch') = u64 (frames_sent (ch_stats ch) + 1);
  sf_header : exists flags, fst f = mk_ipc_header AK_IPC_MAGIC AK_IPC_VERSION flags (u32 (Z.of_nat (length (snd f)))) (ch_next_seq ch) (ih_checksum (fst f)) /\
    is_u8 flags;
  sf_checksum : ih_checksum (fst f) = ak_ipc_compute_checksum (fst f) (Some (snd f));
  sf_wf : wf_bytes (snd f);
  sf_object : exists t, snd f = 123 :: t
}.

Lemma write_frame_sent ch flags p :
  ch_state ch = AK_CHANNEL_CONNECTED -> is_u8 flags -> wf_bytes p -> JQ"{'pid':'" `prefix_of` p ->
  exists ch' h, write_frame ch flags (Some p) = (0, ch', Some h) /\ sent_frame ch ch' (h, p).
Proof.
  intros Hc Hf Hw [t ->]. unfold write_frame. rewrite bool_decide_eq_true_2 by done. cbn [negb]. do 2 eexists. split; [reflexivity|].
  split; cbn [fst snd ch_state ch_next_seq ch_stats frames_sent ih_checksum]; try done; [by eexists|]. by eexists.
Qed.

Lemma wf_request_text grow req : (forall a, rq_args req = Some a -> wf_bytes a) -> wf_bytes (writes grow 1024 (request_segments req)).
Proof.
  intros Ha. apply writes_forall; [constructor|]. unfold request_segments. apply Forall_app_2; [apply wf_identity|].
  apply Forall_app_2; [repeat first [apply Forall_cons_2|apply Forall_nil_2|apply wf_op_name|by apply (bool_decide_unpack _)]|].
  apply Forall_app_2; [apply wf_member; [by apply (bool_decide_unpack _)|done]|by apply (bool_decide_unpack _)].
Qed.

Lemma wf_response_text grow res : (forall a, rs_result res = Some a -> wf_bytes a) -> wf_bytes (writes grow 1024 (response_segments res)).
Proof.
  intros Ha. apply writes_forall; [constructor|]. unfold response_segments. apply Forall_app_2; [apply wf_identity|].
  apply Forall_app_2; [|by apply (bool_decide_unpack _)]. destruct (rs_error res =? 0).
  - apply Forall_cons_2; [by apply (bool_decide_unpack _)|]. apply wf_member; [by apply (bool_decide_unpack _)|done].
  - apply Forall_app_2; [by apply (bool_decide_unpack _)|]. apply Forall_app_2; [destruct (_ <? _); by apply (bool_decide_unpack _)|].
    repeat first [apply Forall_cons_2|apply Forall_nil_2|apply wf_seq_text|apply wf_error_message|by apply (bool_decide_unpack _)].
Qed.

Lemma send_cases (alloc : bool) grow ch m :
  ch_state ch = AK_CHANNEL_CONNECTED -> wf_message m ->
  if alloc then exists ch' f, send alloc grow ch m = Ret (0, ch', Some f) /\ sent_frame ch ch' f else send alloc grow ch m = Oob.
Proof.
  intros Hc Hm. destruct alloc; [|by destruct m]. destruct m as [req|res]; cbn [send].
  - destruct (write_frame_sent ch AK_IPC_FLAG_REQUEST (writes grow 1024 (request_segments req))) as (ch' & h & E & Hs);
      [done|done|by apply wf_request_text|by apply writes_head|].
    exists ch', (h, writes grow 1024 (request_segments req)). unfold ak_ipc_send_request, ak_ipc_serialize_request. cbn [negb]. by rewrite E.
  - set (flags := if rs_error res =? 0 then AK_IPC_FLAG_RESPONSE else Z.lor AK_IPC_FLAG_RESPONSE AK_IPC_FLAG_ERROR).
    destruct (write_frame_sent ch flags (writes grow 1024 (response_segments res))) as (ch' & h & E & Hs);
      [done|by subst flags; destruct (_ =? _)|by apply wf_response_text|by apply writes_head|].
    exists ch', (h, writes grow 1024 (response_segments res)). unfold ak_ipc_send_response, ak_ipc_serialize_response. cbn [negb]. fold flags. by rewrite E.
Qed.

Lemma length_hdr_bytes h : length (hdr_bytes h) = 16%nat.
Proof. unfold hdr_bytes. by rewrite !length_app, !length_le_enc. Qed.

Lemma checksum_run h p : ak_ipc_compute_checksum h (Some p) = Z.lxor (foldl crc_step 0xFFFFFFFF (hdr_bytes h ++ p)) 0xFFFFFFFF.
Proof. unfold ak_ipc_compute_checksum. rewrite take_ge by (by rewrite length_hdr_bytes). by rewrite foldl_app. Qed.

Lemma wf_hdr_bytes h : is_u8 (ih_version h) -> is_u8 (ih_flags h) -> wf_bytes (hdr_bytes h).
Proof. intros Hv Hf. repeat first [apply Forall_app_2|apply wf_le_enc]. by apply Forall_cons_2, Forall_cons_2, Forall_nil_2. Qed.

(** [t'] is [t] with at most four consecutive bytes changed. *)
Definition burst (t t' : bytes) : Prop :=
  exists pre x y post, t = pre ++ x ++ post /\ t' = pre ++ y ++ post /\ length x = length y /\ (length x <= 4)%nat /\ x <> y.

Lemma checksum_burst h p h' p' :
  wf_bytes (hdr_bytes h ++ p) -> wf_bytes (hdr_bytes h' ++ p') -> burst (hdr_bytes h ++ p) (hdr_bytes h' ++ p') ->
  ak_ipc_compute_checksum h' (Some p') <> ak_ipc_compute_checksum h (Some p).
Proof.
  intros Hw Hw' (pre & x & y & post & E & E' & Hl & H4 & Hne). rewrite !checksum_run, E, E'. rewrite E in Hw. rewrite E' in Hw'.
  apply Forall_app in Hw as [_ [Hx Hp]%Forall_app]. apply Forall_app in Hw' as [_ [Hy _]%Forall_app].
  intros Eq. rewrite !(Z.lxor_comm _ 0xFFFFFFFF) in Eq. apply lxor_cancel in Eq. symmetry in Eq.
  by apply Hne, (crc_burst pre x y post 0xFFFFFFFF).
Qed.

(** ** Freshness at the receiver *)

Lemma accepted_consecutive n t : wf_seq t -> highest_seen t + Z.of_nat n < M64 ->
  accepted t ((fun i => highest_seen t + Z.of_nat i) <$> seq 1 n) = (fun i => highest_seen t + Z.of_nat i) <$> seq 1 n.
Proof.
  revert t. induction n as [|n IH]; intros t Ht Hn; [done|]. rewrite <-cons_seq. cbn [fmap list_fmap accepted].
  pose proof Ht as (_ & Hh & _). unfold is_u64 in Hh.
  destruct (check_cases t (highest_seen t + Z.of_nat 1)) as (rv & t' & -> & Ht' & Hc); [done|unfold is_u64; lia|].
  destruct (Z.leb_spec (highest_seen t + Z.of_nat 1) (highest_seen t)); [lia|]. destruct Hc as (-> & Hh' & _).
  replace (_ =? AK_E_REPLAY) with false by (destruct (_ <? _); done). cbn [app]. f_equal.
  specialize (IH t' Ht' ltac:(lia)). rewrite Hh' in IH.
  rewrite <-(fmap_S_seq 1 n), <-list_fmap_compose.
  rewrite (list_fmap_ext _ (fun i => highest_seen t + Z.of_nat 1 + Z.of_nat i)); [exact IH|]. intros i x _. cbn. lia.
Qed.

(** What the receiver can rely on. *)
Record good_frame (f : ak_ipc_header * bytes) : Prop := {
  gf_checksum : ih_checksum (fst f) = crc_ref (hdr_bytes (fst f) ++ snd f);
  gf_verifies : ak_ipc_compute_checksum (fst f) (Some (snd f)) = ih_checksum (fst f);
  gf_payload : ak_ipc_validate_payload (ih_flags (fst f)) (Some (snd f)) = 0;
  gf_header : Z.of_nat (length (snd f)) < M32 ->
    (ak_ipc_validate_header (Some (fst f)) = 0 <-> Z.of_nat (length (snd f)) <= AK_IPC_MAX_PAYLOAD);
  gf_burst : forall h' p', is_u8 (ih_version h') -> is_u8 (ih_flags h') -> wf_bytes p' -> burst (hdr_bytes (fst f) ++ snd f) (hdr_bytes h' ++ p') ->
    ih_checksum h' = ih_checksum (fst f) -> ak_ipc_compute_checksum h' (Some p') <> ih_checksum h'
}.

Lemma sent_frame_good ch ch' f : sent_frame ch ch' f -> good_frame f.
Proof.
  intros [_ _ _ (flags & Eh & Hf) Hc Hw (t & Et)]. destruct f as [h p]. cbn [fst snd] in *.
  assert (Hv : is_u8 (ih_version h) /\ is_u8 (ih_flags h)) by (by rewrite Eh). destruct Hv as [Hv Hfl].
  assert (Hhp : wf_bytes (hdr_bytes h ++ p)) by (apply Forall_app_2; [by apply wf_hdr_bytes|done]).
  split; cbn [fst snd].
  - rewrite Hc, checksum_run. unfold crc_ref. by rewrite crc_run_ref.
  - done.
  - by rewrite Et.
  - intros Hl. rewrite Eh. unfold ak_ipc_validate_header. cbn [ih_magic ih_version ih_payload_length]. rewrite !Z.eqb_refl. cbn [negb].
    unfold u32. rewrite Z.mod_small by lia. destruct (Z.ltb_spec AK_IPC_MAX_PAYLOAD (Z.of_nat (length p))); split; intros; (done || lia).
  - intros h' p' Hv' Hf' Hp' Hb E. rewrite E, Hc. apply checksum_burst; [done| |done]. apply Forall_app_2; [by apply wf_hdr_bytes|done].
Qed.

(** The frames of a session are numbered without gaps. *)
Lemma session_frames l ch :
  ch_state ch = AK_CHANNEL_CONNECTED -> Forall (fun x => wf_message (snd x)) l -> Forall (fun x => x.1.1 = true) l ->
  0 <= ch_next_seq ch -> ch_next_seq ch + Z.of_nat (length l) < M64 ->
  exists ch' fs, session ch l = Ret (ch', fs) /\
  Forall good_frame fs /\ length fs = length l /\
  (ih_sequence ∘ fst) <$> fs = (fun i => ch_next_seq ch - 1 + Z.of_nat i) <$> seq 1 (length fs) /\
  (0 <= frames_sent (ch_stats ch) -> frames_sent (ch_stats ch) + Z.of_nat (length l) < M64 ->
   frames_sent (ch_stats ch') = frames_sent (ch_stats ch) + Z.of_nat (length fs)).
Proof.
  intros Hc Hl. revert ch Hc. induction Hl as [|[[alloc grow] m] l Hm Hl IH]; intros ch Hc Hal H0 Hn.
  { exists ch, []. cbn [session]. split_and!; [done|constructor|done|done|cbn; lia]. }
  apply Forall_cons in Hal as [Ha Hal]. cbn in Ha. subst alloc. cbn [session length] in *.
  destruct (send_cases true grow ch m Hc Hm) as (ch1 & f & -> & Hs). cbn [obind].
  pose proof Hs as [Hs1 Hs2 Hs3 (flags & Eh & _) _ _ _].
  assert (En : ch_next_seq ch1 = ch_next_seq ch + 1) by (rewrite Hs2; unfold u64; apply Z.mod_small; lia).
  destruct (IH ch1 Hs1 Hal ltac:(lia) ltac:(lia)) as (ch' & fs & -> & H1 & H2 & H3 & H5).
  exists ch', (f :: fs). cbn [length obind fst snd]. split_and!; [done| |lia| |].
  - constructor; [by eapply sent_frame_good|done].
  - rewrite <-cons_seq. cbn [fmap list_fmap]. f_equal; [unfold compose; rewrite Eh; cbn; lia|].
    etransitivity; [exact H3|]. rewrite <-(fmap_S_seq 1), <-list_fmap_compose. apply list_fmap_ext. intros i x _. cbn. lia.
  - intros Hz Hm'. rewrite H5; rewrite ?Hs3; unfold u64; rewrite ?Z.mod_small; lia.
Qed.

(** C36: the frames of a channel are checked and fresh.  Over every sequence of
    sends on a new channel whose buffers can be allocated, whether or not
    they can grow, every send gives a frame; the frames carry the
    CRC-32C of header and payload, which a change of up to four consecutive bytes
    never keeps; they start an object and pass validation unless the payload is
    over the limit; they are numbered from 1 without gaps, so that a receiver's
    tracker accepts every one of them; each is counted.  (A buffer that cannot
    be allocated is written to all the same, [failed_buffer_written].) *)
Theorem channel_frames_sound agent_id fd ch l :
  ak_ipc_channel_create true agent_id fd = Ret ch -> Forall (fun x => wf_message (snd x)) l -> Forall (fun x => x.1.1 = true) l ->
  Z.of_nat (length l) < M64 - 1 ->
  exists ch' fs, session ch l = Ret (ch', fs) /\
  Forall good_frame fs /\ length fs = length l /\ (ih_sequence ∘ fst) <$> fs = Z.of_nat <$> seq 1 (length fs) /\
  accepted fresh_tracker ((ih_sequence ∘ fst) <$> fs) = (ih_sequence ∘ fst) <$> fs /\
  frames_sent (ch_stats ch') = Z.of_nat (length fs).
Proof.
  intros [= <-] Hl Hal Hn. match goal with |- context [session ?c l] => pose proof (session_frames l c eq_refl Hl Hal ltac:(done)) as H end.
  cbn [ch_next_seq ch_stats frames_sent] in H. specialize (H ltac:(lia)). destruct H as (ch' & fs & -> & H1 & H2 & H3 & H5).
  exists ch', fs. split; [done|].
  assert (E : (ih_sequence ∘ fst) <$> fs = Z.of_nat <$> seq 1 (length fs)) by (rewrite H3; apply list_fmap_ext; intros; lia).
  split_and!; [done|done|done| |apply H5; lia]. rewrite E.
  apply (accepted_consecutive (length fs) fresh_tracker); [repeat split; vm_compute; congruence|]. change (highest_seen fresh_tracker) with 0. lia.
Qed.

Definition sample_session : list (bool * (Z -> bool) * message) :=
  [(true, no_growth, MRequest sample_request); (true, all_growth, MResponse sample_response)].
Definition sample_channel : ak_ipc_channel := mk_channel ids 3 AK_CHANNEL_CONNECTED 1 (mk_ipc_stats 0 0 0 0 0 0) 0.

Lemma channel_frames_sound_witness :
  exists ch' fs, session sample_channel sample_session = Ret (ch', fs) /\ (ih_sequence ∘ fst) <$> fs = [1; 2] /\ Forall good_frame fs.
Proof.
  destruct (channel_frames_sound (Some ids) 3 sample_channel sample_session eq_refl) as (ch' & fs & E & Hg & Hl & Hs & _).
  - repeat apply Forall_cons_2; [..|apply Forall_nil_2]; intros a [= <-]; by apply (bool_decide_unpack _).
  - by repeat constructor.
  - vm_compute. congruence.
  - exists ch', fs. split_and!; [exact E| |exact Hg]. rewrite Hs, Hl. reflexivity.
Defined.

(** The buffer of a send that cannot be allocated is [INVALID_ADDRESS]; it
    passes the test for zero and the text is written through it. *)
Lemma failed_buffer_written grow ch m : send false grow ch m = Oob.
Proof. by destruct m. Qed.

(** The bound on the payload is not checked by the sender. *)
Lemma oversized_frame_sent ch p :
  ch_state ch = AK_CHANNEL_CONNECTED -> AK_IPC_MAX_PAYLOAD < Z.of_nat (length p) < M32 ->
  exists ch' h, write_frame ch AK_IPC_FLAG_REQUEST (Some p) = (0, ch', Some h) /\ ak_ipc_validate_header (Some h) = AK_E_IPC_INVALID.
Proof.
  intros Hc Hp. unfold write_frame. rewrite bool_decide_eq_true_2 by done. cbn [negb]. do 2 eexists. split; [reflexivity|].
  unfold ak_ipc_validate_header. cbn [ih_magic ih_version ih_payload_length]. rewrite !Z.eqb_refl. cbn [negb]. unfold u32.
  rewrite Z.mod_small by lia. by destruct (Z.ltb_spec AK_IPC_MAX_PAYLOAD (Z.of_nat (length p))); [|lia].
Qed.
