(* ===== verification/Process.v ===== *)
(** * The process registry ([src/src/agentic/ak_process.c])

    Processes with their policies and delegated capabilities, in a table of
    [PtrTable] hashed by process number.  Policies are values: nothing in this
    file changes one, and none is owned by its entry.  The free list matters
    only by its length, since an entry is cleared when it is taken from it.
    Every delegation record holds a capability, so that the tests of that
    pointer are not repeated.  Revocations go through the capability subsystem
    and the audit log; [env] gives the clock and the allocations of each.

    The specification of the subset test is what the checks of [PolicyV2] grant.
    Theorems: along every run the policy of a process only shrinks, in what it
    grants and in its budgets; the registry keeps its counts and bounds; what was
    delegated to a process that exits is revoked. *)

From S2P Require Import Prelude Crypto Format Pattern Keys TokenTable Revocation Capability AuditLog AuditDisk Recovery.
From S2P Require Import Policy Dispatch PtrTable PathGlob PolicyV2 PolicyV2Doc.

Definition AK_PROCESS_MAX_ENTRIES : nat := 256.
Definition AK_PROCESS_MAX_CAPS : Z := 16.
Definition AK_PROCESS_MAX_CHILDREN : Z := 32.
Definition AK_SPAWN_FLAG_SANDBOX : Z := 1.
Definition AK_SPAWN_FLAG_INHERIT_POLICY : Z := 4.
Definition ESRCH : Z := 3.

(** ** Subsumption *)

(** Every child rule is covered by a parent rule; the empty list is tested
    first on both sides. *)
Definition rules_subsumed {R} (covered : R -> R -> bool) (parent_rules child_rules : list R) : bool :=
  match child_rules, parent_rules with
  | [], _ => true
  | _, [] => false
  | _, _ => forallb (fun child => existsb (fun parent => covered parent child) parent_rules) child_rules
  end.

Definition fs_rules_subsumed : list ak_fs_rule_v2 -> list ak_fs_rule_v2 -> bool :=
  rules_subsumed (fun parent child =>
    ak_pattern_match (fr_pattern parent) (fr_pattern child) && negb (fr_read child && negb (fr_read parent)) &&
    negb (fr_write child && negb (fr_write parent))).

Definition net_rules_subsumed : list ak_net_rule_v2 -> list ak_net_rule_v2 -> bool :=
  rules_subsumed (fun parent child =>
    ak_pattern_match (nr_pattern parent) (nr_pattern child) && negb (nr_connect child && negb (nr_connect parent)) &&
    negb (nr_bind child && negb (nr_bind parent)) && negb (nr_listen child && negb (nr_listen parent))).

(** Denials need no cover. *)
Definition tool_rules_subsumed (parent_rules child_rules : list ak_tool_rule_v2) : bool :=
  match child_rules, parent_rules with
  | [], _ => true
  | _, [] => false
  | _, _ => forallb (fun child => negb (tr2_allow child) ||
              existsb (fun parent => tr2_allow parent && ak_pattern_match (tr2_pattern parent) (tr2_pattern child)) parent_rules) child_rules
  end.

Definition exceeds (parent child : Z) : bool := (0 <? parent) && ((child =? 0) || (parent <? child)).
Definition budgets_subsumed (parent child : ak_budgets_v2) : bool :=
  if exceeds (b2_cpu_ns parent) (b2_cpu_ns child) then false
  else if exceeds (b2_wall_ns parent) (b2_wall_ns child) then false
  else if exceeds (b2_bytes parent) (b2_bytes child) then false
  else if exceeds (b2_tokens parent) (b2_tokens child) then false
  else if exceeds (b2_tool_calls parent) (b2_tool_calls child) then false
  else true.

Definition ak_policy_is_subsumed (parent child : option ak_policy_v2) : bool :=
  match parent, child with
  | Some parent, Some child =>
      if p2_fail_closed parent then p2_fail_closed child
      else if p2_fail_closed child then true
      else if negb (fs_rules_subsumed (p2_fs_rules parent) (p2_fs_rules child)) then false
      else if negb (net_rules_subsumed (p2_net_rules parent) (p2_net_rules child)) then false
      else if negb (tool_rules_subsumed (p2_tool_rules parent) (p2_tool_rules child)) then false
      else if negb (budgets_subsumed (p2_budgets parent) (p2_budgets child)) then false
      else true
  | _, _ => false
  end.

(** ** State *)

Inductive ak_process_state := AK_PROC_STATE_NONE | AK_PROC_STATE_RUNNING | AK_PROC_STATE_STOPPED | AK_PROC_STATE_ZOMBIE | AK_PROC_STATE_EXITED.
#[export] Instance ak_process_state_eq : EqDecision ak_process_state.
Proof. solve_decision. Defined.

Record ak_delegated_cap := mk_dcap { dc_cap : ak_capability; dc_delegated_ms : Z; dc_expires_ms : Z; dc_revoked : bool }.

Record ak_process_entry := mk_pentry {
  pe_pid : Z; pe_parent_pid : Z; pe_run_id : bytes; pe_parent_run_id : bytes;
  pe_state : ak_process_state; pe_spawn_flags : Z; pe_exit_code : Z; pe_exit_signal : Z;
  pe_policy : option ak_policy_v2; pe_caps : list ak_delegated_cap; pe_cap_count : Z;
  pe_sandboxed : bool; pe_spawn_time_ms : Z; pe_exit_time_ms : Z }.

#[export] Instance process_ptr : HasPtr ak_process_entry := pe_pid.

Definition pid_hash (pid : Z) : Z := u32 (u64 (pid * 2654435761) mod Z.of_nat AK_PROCESS_MAX_ENTRIES).
#[export] Instance process_hash : KeyHash ak_process_entry := pid_hash.

Record ak_process_stats := mk_pstats {
  total_spawns : Z; spawn_success : Z; spawn_denied : Z; total_delegations : Z; total_revocations : Z; active_processes : Z; active_caps : Z }.

Record process_state := mk_proc {
  ps_initialized : bool; ps_entries : list (list ak_process_entry); ps_entry_count : Z; ps_free : nat;
  ps_fail_closed_policy : option ak_policy_v2; ps_stats : ak_process_stats }.

(** The registry, the capability subsystem and the audit log. *)
Record pworld := mk_pworld { pw_proc : process_state; pw_caps : cap_state; pw_disk : disk_state }.

Definition with_proc (p : process_state) (w : pworld) : pworld := mk_pworld p (pw_caps w) (pw_disk w).
Definition with_entries (t : list (list ak_process_entry)) (s : process_state) : process_state :=
  mk_proc (ps_initialized s) t (ps_entry_count s) (ps_free s) (ps_fail_closed_policy s) (ps_stats s).
Definition on_pstats (f : ak_process_stats -> ak_process_stats) (s : process_state) : process_state :=
  mk_proc (ps_initialized s) (ps_entries s) (ps_entry_count s) (ps_free s) (ps_fail_closed_policy s) (f (ps_stats s)).
Definition with_counts (count : Z) (free : nat) (s : process_state) : process_state :=
  mk_proc (ps_initialized s) (ps_entries s) count free (ps_fail_closed_policy s) (ps_stats s).

Definition with_policy (p : option ak_policy_v2) (e : ak_process_entry) : ak_process_entry :=
  mk_pentry (pe_pid e) (pe_parent_pid e) (pe_run_id e) (pe_parent_run_id e) (pe_state e) (pe_spawn_flags e) (pe_exit_code e) (pe_exit_signal e)
    p (pe_caps e) (pe_cap_count e) (pe_sandboxed e) (pe_spawn_time_ms e) (pe_exit_time_ms e).
Definition with_caps (caps : list ak_delegated_cap) (count : Z) (e : ak_process_entry) : ak_process_entry :=
  mk_pentry (pe_pid e) (pe_parent_pid e) (pe_run_id e) (pe_parent_run_id e) (pe_state e) (pe_spawn_flags e) (pe_exit_code e) (pe_exit_signal e)
    (pe_policy e) caps count (pe_sandboxed e) (pe_spawn_time_ms e) (pe_exit_time_ms e).
Definition with_pe_state (st : ak_process_state) (e : ak_process_entry) : ak_process_entry :=
  mk_pentry (pe_pid e) (pe_parent_pid e) (pe_run_id e) (pe_parent_run_id e) st (pe_spawn_flags e) (pe_exit_code e) (pe_exit_signal e)
    (pe_policy e) (pe_caps e) (pe_cap_count e) (pe_sandboxed e) (pe_spawn_time_ms e) (pe_exit_time_ms e).

Definition count_revocation (s : ak_process_stats) : ak_process_stats :=
  mk_pstats (total_spawns s) (spawn_success s) (spawn_denied s) (total_delegations s) (u64 (total_revocations s + 1)) (active_processes s)
    (u32 (active_caps s - 1)).
Definition count_delegation (s : ak_process_stats) : ak_process_stats :=
  mk_pstats (total_spawns s) (spawn_success s) (spawn_denied s) (u64 (total_delegations s + 1)) (total_revocations s) (active_processes s)
    (u32 (active_caps s + 1)).
Definition count_processes (n : Z) (s : ak_process_stats) : ak_process_stats :=
  mk_pstats (total_spawns s) (spawn_success s) (spawn_denied s) (total_delegations s) (total_revocations s) (u32 (active_processes s + n)) (active_caps s).
Definition count_spawns (spawns success denied : Z) (s : ak_process_stats) : ak_process_stats :=
  mk_pstats (u64 (total_spawns s + spawns)) (u64 (spawn_success s + success)) (u64 (spawn_denied s + denied)) (total_delegations s)
    (total_revocations s) (active_processes s) (active_caps s).

Definition zero_pstats : ak_process_stats := mk_pstats 0 0 0 0 0 0 0.

(** ** Registration *)

(** [bootstrap] is the result of [ak_policy_v2_bootstrap]. *)
Definition ak_process_init (bootstrap : option ak_policy_v2) (s : process_state) : process_state :=
  if ps_initialized s then s
  else mk_proc true (empty_table AK_PROCESS_MAX_ENTRIES) 0 0 bootstrap zero_pstats.

Definition ak_process_find (s : process_state) (pid : Z) : option ak_process_entry :=
  if negb (ps_initialized s) || (pid =? 0) then None else table_lookup (ps_entries s) pid.

(** The rest of the free list, when there is an entry. *)
Definition alloc_entry (alloc : bool) (s : process_state) : option nat :=
  match ps_free s with S n => Some n | O => if alloc then Some O else None end.

(** [now], [rnd]: the clock and the new run identifier. *)
Definition ak_process_register (now : Z) (rnd : bytes) (alloc : bool) (s : process_state) (pid parent_pid : Z) (policy : option ak_policy_v2) (flags : Z) :
    option ak_process_entry * process_state :=
  if negb (ps_initialized s) then (None, s)
  else if pid =? 0 then (None, s)
  else
    match table_lookup (ps_entries s) pid with
    | Some _ => (None, s)
    | None =>
        match alloc_entry alloc s with
        | None => (None, s)
        | Some free =>
            let parent := if 0 <? parent_pid then ak_process_find s parent_pid else None in
            let parent_run := match parent with Some p => take AK_TOKEN_ID_SIZE (pe_run_id p) | None => zeros 16 end in
            let pol :=
              match policy with
              | Some p => Some p
              | None =>
                  if negb (Z.land flags AK_SPAWN_FLAG_INHERIT_POLICY =? 0) && (0 <? parent_pid) then
                    match parent with
                    | Some p => match pe_policy p with Some pp => Some pp | None => ps_fail_closed_policy s end
                    | None => ps_fail_closed_policy s
                    end
                  else ps_fail_closed_policy s
              end in
            let e := mk_pentry pid parent_pid (take AK_TOKEN_ID_SIZE rnd) parent_run AK_PROC_STATE_RUNNING flags 0 0 pol [] 0
                       (negb (Z.land flags AK_SPAWN_FLAG_SANDBOX =? 0)) now 0 in
            (Some e, on_pstats (count_processes 1) (with_counts (u32 (ps_entry_count s + 1)) free (with_entries (table_push (ps_entries s) pid e) s)))
        end
    end.

Definition ak_process_find_by_run_id (s : process_state) (run_id : option bytes) : option ak_process_entry :=
  match run_id with
  | None => None
  | Some r => if negb (ps_initialized s) then None else List.find (fun e => ak_token_id_equal r (pe_run_id e)) (entries (ps_entries s))
  end.

(** ** Policies *)

Definition ak_process_get_policy (s : process_state) (pid : Z) : option ak_policy_v2 :=
  match ak_process_find s pid with
  | Some e => match pe_policy e with Some p => Some p | None => ps_fail_closed_policy s end
  | None => ps_fail_closed_policy s
  end.

Definition ak_process_set_policy (s : process_state) (pid : Z) (policy : option ak_policy_v2) : Z * process_state :=
  match policy with
  | None => (- EINVAL, s)
  | Some _ =>
      match ak_process_find s pid with
      | None => (- ENOENT, s)
      | Some e =>
          if match pe_policy e with Some _ => negb (ak_policy_is_subsumed (pe_policy e) policy) | None => false end then (- EPERM, s)
          else (0, with_entries (table_alter (with_policy policy) (ps_entries s) pid) s)
      end
  end.

Section Registry.
Context `{Hash} (raw_s : bytes -> bytes).

(** ** Revocation of delegated capabilities *)

Definition revoke_token (env : rev_env) (tid reason : bytes) (w : pworld) : pworld :=
  let '(rev, d) := ak_revocation_add (cs_rev (pw_caps w)) (pw_disk w) tid reason (re_now env) (re_now_log env)
                     (re_alloc_reason env) (re_alloc env) (re_append env) in
  mk_pworld (pw_proc w) (mk_cap_state (cs_keys (pw_caps w)) rev (cs_rate (pw_caps w))) d.

(** The walk over a list of records: each one that is not yet revoked is
    revoked and, if [counted], counted. *)
Fixpoint revoke_list (env : nat -> rev_env) (reason : bytes) (counted : bool) (caps : list ak_delegated_cap) (w : pworld) : pworld :=
  match caps with
  | [] => w
  | d :: caps' =>
      let w := if dc_revoked d then w
               else let w := revoke_token (env 0%nat) (tid (dc_cap d)) reason w in
                    if counted then with_proc (on_pstats count_revocation (pw_proc w)) w else w in
      revoke_list (fun n => env (S n)) reason counted caps' w
  end.

Definition ak_process_shutdown (env : nat -> rev_env) (w : pworld) : pworld :=
  let s := pw_proc w in
  if negb (ps_initialized s) then w
  else
    let w := revoke_list env B"process shutdown" false (concat (pe_caps <$> entries (ps_entries s))) w in
    with_proc (mk_proc false (empty_table AK_PROCESS_MAX_ENTRIES) (ps_entry_count s) 0 None (ps_stats s)) w.

(** The entry leaves its chain; its other fields are of no further use. *)
Fixpoint unlink (c : list ak_process_entry) (pid : Z) : list ak_process_entry :=
  match c with [] => [] | e :: c' => if pe_pid e =? pid then c' else e :: unlink c' pid end.

Definition ak_process_unregister (env : nat -> rev_env) (w : pworld) (pid exit_code exit_signal : Z) : pworld :=
  let s := pw_proc w in
  if negb (ps_initialized s) then w
  else
    match table_lookup (ps_entries s) pid with
    | None => w
    | Some e =>
        let w := revoke_list env B"process exit" true (pe_caps e) w in
        let s := pw_proc w in
        let t := alter (fun c => unlink c pid) (bucket_of (ps_entries s) pid) (ps_entries s) in
        with_proc (on_pstats (count_processes (-1)) (with_counts (u32 (ps_entry_count s - 1)) (S (ps_free s)) (with_entries t s))) w
    end.

(** ** Delegation *)

(** The clock readings and allocations of a delegation. *)
Record delegate_env := mk_delenv {
  dl_now_ttl1 : Z; dl_now_verify : Z; dl_now_ttl2 : Z; dl_now_create : Z; dl_rnd : bytes; dl_alloc_cap : bool; dl_alloc_mac1 : bool; dl_alloc_mac2 : bool;
  dl_alloc_record : bool; dl_now : Z }.

Definition with_run (r : bytes) (c : ak_capability) : ak_capability :=
  mk_cap (cap_type c) (resource c) (resource_len c) (methods c) (method_count c) (issued_ms c)
    (ttl_ms c) (rate_limit c) (rate_window_ms c) r (tid c) (cap_kid c) (mac c).

(** The lifetime asked for, cut to 32 bits and to what is left of the
    capability. *)
Definition effective_ttl (env : delegate_env) (cap : ak_capability) (ttl : Z) : Z :=
  let t := u32 ttl in
  let remaining := ak_capability_remaining_ttl cap (dl_now_ttl1 env) in
  if t =? 0 then remaining else if remaining <? t then remaining else t.

Definition ak_process_delegate_cap (env : delegate_env) (w : pworld) (parent_pid child_pid : Z) (cap : option ak_capability) (ttl : Z) : Z * pworld :=
  match cap with
  | None => (- EINVAL, w)
  | Some cap =>
      let s := pw_proc w in
      match ak_process_find s parent_pid, ak_process_find s child_pid with
      | None, _ | _, None => (- ENOENT, w)
      | Some _, Some child =>
          if negb (pe_parent_pid child =? parent_pid) then (- EPERM, w)
          else if AK_PROCESS_MAX_CAPS <=? pe_cap_count child then (- ENOMEM, w)
          else
            match ak_capability_delegate raw_s (pw_caps w) cap (cap_type cap) (cstr (resource cap)) None (effective_ttl env cap ttl) (rate_limit cap)
                    (rate_window_ms cap) (dl_now_verify env) (dl_now_ttl2 env) (dl_now_create env) (dl_rnd env) (dl_alloc_cap env)
                    (dl_alloc_mac1 env) (dl_alloc_mac2 env) with
            | None => (- EPERM, w)
            | Some child_cap =>
                if negb (dl_alloc_record env) then (- ENOMEM, w)
                else
                  let d := mk_dcap (with_run (take AK_TOKEN_ID_SIZE (pe_run_id child)) child_cap) (dl_now env)
                             (if 0 <? ttl then u64 (dl_now env + ttl) else 0) false in
                  let t := table_alter (fun e => with_caps (d :: pe_caps e) (u32 (pe_cap_count e + 1)) e) (ps_entries s) child_pid in
                  (0, with_proc (on_pstats count_delegation (with_entries t s)) w)
            end
      end
  end.

(** The first record with the token is revoked and removed. *)
Definition ak_process_revoke_cap (env : rev_env) (w : pworld) (pid : Z) (token : option bytes) : Z * pworld :=
  match token with
  | None => (- EINVAL, w)
  | Some t =>
      match ak_process_find (pw_proc w) pid with
      | None => (- ENOENT, w)
      | Some e =>
          match list_find (fun d => ak_token_id_equal t (tid (dc_cap d)) = true) (pe_caps e) with
          | None => (- ENOENT, w)
          | Some (i, d) =>
              let w := revoke_list (fun _ => env) B"explicit revocation" true [d] w in
              let s := pw_proc w in
              (0, with_proc (with_entries (table_alter (fun e => with_caps (delete i (pe_caps e)) (u32 (pe_cap_count e - 1)) e) (ps_entries s) pid) s) w)
          end
      end
  end.

Definition ak_process_revoke_caps (env : nat -> rev_env) (w : pworld) (pid : Z) : pworld :=
  match ak_process_find (pw_proc w) pid with
  | None => w
  | Some e =>
      let w := revoke_list env B"revoke all" true (pe_caps e) w in
      let s := pw_proc w in
      with_proc (with_entries (table_alter (with_caps [] 0) (ps_entries s) pid) s) w
  end.

(** The clock stands still during the search. *)
Definition cap_covers (now type : Z) (resource0 : option bytes) (d : ak_delegated_cap) : bool :=
  negb (dc_revoked d) && ((cap_type (dc_cap d) =? type) || (cap_type (dc_cap d) =? AK_CAP_ANY)) &&
  negb ((0 <? dc_expires_ms d) && (dc_expires_ms d <=? now)) &&
  match resource0 with Some r => ak_pattern_match (resource (dc_cap d)) r | None => true end.

Definition ak_process_has_cap (now : Z) (s : process_state) (pid type : Z) (resource0 : option bytes) : bool :=
  match ak_process_find s pid with Some e => existsb (cap_covers now type resource0) (pe_caps e) | None => false end.

Definition is_expired (now : Z) (d : ak_delegated_cap) : bool := (0 <? dc_expires_ms d) && (dc_expires_ms d <=? now).

(** Expired records leave their lists. *)
Definition expire_entry (now : Z) (e : ak_process_entry) : ak_process_entry :=
  let keep := List.filter (fun d => negb (is_expired now d)) (pe_caps e) in
  with_caps keep (u32 (pe_cap_count e - Z.of_nat (length (pe_caps e) - length keep))) e.

Definition ak_process_expire_caps (now : Z) (env : nat -> rev_env) (w : pworld) : Z * pworld :=
  let gone := List.filter (is_expired now) (concat (pe_caps <$> entries (ps_entries (pw_proc w)))) in
  let w := revoke_list env B"time limit expired" true gone w in
  (u32 (Z.of_nat (length (List.filter (fun d => negb (dc_revoked d)) gone))),
   with_proc (with_entries (table_map (expire_entry now) (ps_entries (pw_proc w))) (pw_proc w)) w).
End Registry.

Definition is_exited (e : ak_process_entry) : bool := bool_decide (pe_state e = AK_PROC_STATE_EXITED).

Definition ak_process_cleanup_zombies (s : process_state) : Z * process_state :=
  let cleaned := length (List.filter is_exited (entries (ps_entries s))) in
  (u32 (Z.of_nat cleaned),
   with_counts (u32 (ps_entry_count s - Z.of_nat cleaned)) (cleaned + ps_free s)
     (with_entries (table_keep (fun e => negb (is_exited e)) (ps_entries s)) s)).

(** ** Hierarchy and state *)

(** The walk up from an entry; [None] is "out of fuel". *)
Fixpoint walk_up (fuel : nat) (s : process_state) (parent_pid : Z) (child : option ak_process_entry) : option bool :=
  match child with
  | None => Some false
  | Some c =>
      if pe_parent_pid c =? parent_pid then Some true
      else if pe_parent_pid c =? 0 then Some false
      else match fuel with O => None | S fuel => walk_up fuel s parent_pid (ak_process_find s (pe_parent_pid c)) end
  end.

Definition ak_process_is_descendant (fuel : nat) (s : process_state) (parent_pid child_pid : Z) : option bool :=
  if (parent_pid =? 0) || (child_pid =? 0) then Some false
  else if parent_pid =? child_pid then Some false
  else walk_up fuel s parent_pid (ak_process_find s child_pid).

Definition ak_process_get_parent (s : process_state) (pid : Z) : Z :=
  match ak_process_find s pid with Some e => pe_parent_pid e | None => 0 end.

Definition is_child (pid : Z) (e : ak_process_entry) : bool := (pe_parent_pid e =? pid) && bool_decide (pe_state e = AK_PROC_STATE_RUNNING).
Definition ak_process_count_children (s : process_state) (pid : Z) : Z :=
  u32 (Z.of_nat (length (List.filter (is_child pid) (entries (ps_entries s))))).

Definition ak_process_set_state (s : process_state) (pid : Z) (st : ak_process_state) : process_state :=
  match ak_process_find s pid with
  | Some _ => with_entries (table_alter (with_pe_state st) (ps_entries s) pid) s
  | None => s
  end.

Definition ak_process_get_state (s : process_state) (pid : Z) : ak_process_state :=
  match ak_process_find s pid with Some e => pe_state e | None => AK_PROC_STATE_NONE end.

(** ** Spawning *)

Record ak_spawn_request := mk_spawn { sp_program : option bytes; sp_child_policy : option ak_policy_v2 }.
Record ak_spawn_result := mk_spawn_result { sr_success : bool; sr_error_code : Z; sr_error_msg : bytes }.

Definition denied (reason errno : Z) (missing snippet detail : bytes) : ak_decision := mk_decision false reason errno missing snippet 0 detail 0.

(** The suggestion holds the program if there is room for it. *)
Definition spawn_snippet (program : bytes) : bytes :=
  let head := JQ"[spawn]" ++ [10] ++ JQ"allow = ['" in
  if (length head + length program + 4 <? AK_MAX_SUGGEST)%nat then head ++ program ++ JQ"']" ++ [10] else head.

(** A denial measures the program, which must not be NULL. *)
Definition ak_process_authorize_spawn (now : Z) (s : process_state) (parent_pid : Z) (req : ak_spawn_request) : outcome (bool * ak_decision * process_state) :=
  match ak_process_find s parent_pid with
  | None => Ret (false, denied AK_DENY_NO_POLICY ESRCH B"process.parent" [] B"Parent process not found", s)
  | Some parent =>
      if negb (ak_process_has_cap now s parent_pid AK_CAP_SPAWN (sp_program req)) &&
         negb (ak_policy_v2_check_spawn (pe_policy parent) (sp_program req)) then
        match sp_program req with
        | None => Oob
        | Some prog => Ret (false, denied AK_DENY_NO_CAP EPERM B"spawn" (spawn_snippet (cstr prog)) B"Missing spawn capability for program", s)
        end
      else if match sp_child_policy req, pe_policy parent with
              | Some c, Some p => negb (ak_policy_is_subsumed (Some p) (Some c)) | _, _ => false
              end then
        Ret (false, denied AK_DENY_NO_CAP EPERM B"spawn.policy" [] B"Child policy exceeds parent policy (not a subset)", s)
      else if AK_PROCESS_MAX_CHILDREN <=? ak_process_count_children s parent_pid then
        Ret (false, denied AK_DENY_BUDGET_EXCEEDED EAGAIN B"spawn.limit" [] B"Maximum child process limit reached", s)
      else Ret (true, mk_decision true AK_DENY_NONE 0 [] [] 0 [] 0, on_pstats (count_spawns 0 1 0) s)
  end.

(** Spawning is authorised and then refused. *)
Definition ak_process_spawn (now : Z) (s : process_state) (parent_pid : Z) (req : option ak_spawn_request) : outcome (Z * ak_spawn_result * process_state) :=
  match req with
  | None => Ret (- EINVAL, mk_spawn_result false 0 [], s)
  | Some req =>
      let s := on_pstats (count_spawns 1 0 0) s in
      let* r := ak_process_authorize_spawn now s parent_pid req in
      let '(ok, d, s) := r in
      let s := on_pstats (count_spawns 0 0 1) s in
      if negb ok then Ret (- de_errno_equiv d, mk_spawn_result false (de_errno_equiv d) (de_detail d), s)
      else Ret (- ENOSYS, mk_spawn_result false ENOSYS B"Process spawning not supported in unikernel", s)
  end.

(** ** What subsumption means *)

(** A pattern that matches another, read as a text, covers its language,
    unless it has a single-character wildcard. *)
Lemma glob_covers p q s : QM ∉ p -> Glob p q -> Glob q s -> Glob p s.
Proof.
  intros Hp Hpq. revert s. induction Hpq as [|p q Hq IH|p c q Hq IH|p c q Hq IH|p c q Hc Hq IH]; intros s Hs.
  - done.
  - apply Glob_star_end, IH; [set_solver|done].
  - specialize (IH Hp). destruct (decide (c = STAR)) as [->|Hc].
    + apply Glob_star_suffix in Hs as (k & Hk & Hs). apply IH in Hs.
      rewrite <-(drop_0 s). apply (Glob_star_mono p s 0 k); [lia|done].
    + apply Glob_cons_inv in Hs as (d & s' & -> & _ & Hs); [|done]. by apply Glob_star_eat, IH.
  - set_solver.
  - apply Glob_cons_inv in Hs as (d & s' & -> & Hd & Hs); [|done]. apply not_elem_of_cons in Hp as [Hne Hp].
    destruct Hd as [->| ->]; [done|]. apply Glob_chr; [done|]. by apply IH.
Qed.

Definition plain_text (w : bytes) : Prop := (STAR ∉ w) /\ (QM ∉ w).

Lemma glob_plain_prefix w t q : plain_text w -> Glob (w ++ t) q -> exists q', q = w ++ q' /\ Glob t q'.
Proof.
  intros [Hs Hq]. revert q. induction w as [|c w IH]; intros q Hg; [by exists q|].
  apply not_elem_of_cons in Hs as [Hc Hs]. apply not_elem_of_cons in Hq as [Hc' Hq].
  apply Glob_cons_inv in Hg as (d & q' & -> & [?|<-] & Hg); [done| |done]. destruct (IH Hs Hq _ Hg) as (q2 & -> & Hg2). by exists q2.
Qed.

Lemma globstar_all s : PathGlob [STAR; STAR] s.
Proof. induction s as [|c s IH]; [apply PG_any; constructor|by apply PG_any_eat]. Qed.

(** A path below a directory pattern is in the directory. *)
Lemma path_below w q s : plain_text w -> PathGlob (w ++ q) s -> PathGlob (w ++ [STAR; STAR]) s.
Proof.
  intros [Hs Hq]. revert s. induction w as [|c w IH]; intros s Hg; [apply globstar_all|].
  apply not_elem_of_cons in Hs as [Hc Hs]. apply not_elem_of_cons in Hq as [Hc' Hq]. cbn [app] in *.
  inversion Hg as [|? Ht| | | | | |]; subst; try done; [|by apply PG_chr, IH].
  destruct (w ++ q) as [|a [|b r]] eqn:E; cbn in Ht; try done. bprop. subst. destruct w as [|? w]; [by apply PG_tail|].
  injection E as -> _. set_solver.
Qed.

Lemma path_match_prefix pattern path :
  prefix_pattern (cstr pattern) -> PathGlob (cstr pattern) (cstr path) -> ak_policy_v2_match_path (Some pattern) (Some path) = true.
Proof.
  intros (w & t & Ep & Hw & Ht) Hg. unfold ak_policy_v2_match_path. set (p := cstr pattern) in *. set (s := cstr path) in *.
  destruct (path_loop_total (length s) (length p) (path_fuel p s) p s None) as [b Hb]; [lia|lia|done|unfold path_fuel; nia|].
  rewrite Hb. cbn. rewrite Ep in Hb, Hg. by apply (path_loop_prefix w t s _ _ Hw Ht Hg Hb).
Qed.

(** Patterns for which the test is right: directories and single files,
    typed network targets, tools without denials. *)
Definition scope_pattern (p : bytes) : Prop := exists w, plain_text w /\ (p = w \/ p = w ++ [STAR; STAR]).

Record scoped (p : ak_policy_v2) : Prop := {
  sc_fs : forall r, r ∈ p2_fs_rules p -> scope_pattern (cstr (fr_pattern r));
  sc_net : forall r, r ∈ p2_net_rules p -> (QM ∉ cstr (nr_pattern r)) /\ exists q, cstr (nr_pattern r) = B"dns:" ++ q \/ cstr (nr_pattern r) = B"ip:" ++ q;
  sc_tool : forall r, r ∈ p2_tool_rules p -> tr2_allow r = true /\ (QM ∉ cstr (tr2_pattern r));
  sc_budgets : let b := p2_budgets p in 0 <= b2_cpu_ns b /\ 0 <= b2_wall_ns b /\ 0 <= b2_bytes b /\ 0 <= b2_tokens b
}.

Lemma rules_subsumedP {R} (covered : R -> R -> bool) parent child :
  rules_subsumed covered parent child = true <-> forall c, c ∈ child -> exists p, p ∈ parent /\ covered p c = true.
Proof.
  assert (E : rules_subsumed covered parent child = forallb (fun c => existsb (fun p => covered p c) parent) child).
  { destruct child, parent; cbn; by rewrite ?andb_false_l. }
  rewrite E, forallb_forall. setoid_rewrite <-list_elem_of_In. by setoid_rewrite existsb_elem.
Qed.

Lemma scope_covers p q path :
  scope_pattern (cstr p) -> ak_pattern_match p q = true -> ak_policy_v2_match_path (Some q) (Some path) = true ->
  ak_policy_v2_match_path (Some p) (Some path) = true.
Proof.
  intros (w & Hw & Ep) Hm%ak_pattern_matchP Hq%match_path_language.
  assert (Hs : Forall (fun c => c <> STAR) w) by (apply Forall_forall; intros c Hc ->; by destruct Hw).
  apply path_match_prefix; [exists w; destruct Ep as [->| ->]; [exists []; rewrite app_nil_r|exists [STAR; STAR]]; auto|].
  destruct Ep as [Ep|Ep]; rewrite Ep in Hm |- *.
  - rewrite <-(app_nil_r w) in Hm. destruct (glob_plain_prefix w [] _ Hw Hm) as (q' & Eq & Hn). inversion Hn; subst.
    by rewrite app_nil_r in Eq; rewrite <-Eq.
  - destruct (glob_plain_prefix w _ _ Hw Hm) as (q' & Eq & _). rewrite Eq in Hq. by eapply path_below.
Qed.

Lemma fs_granted_covers parent child path write :
  scoped parent -> fs_rules_subsumed (p2_fs_rules parent) (p2_fs_rules child) = true -> fs_granted child path write -> fs_granted parent path write.
Proof.
  intros Hs Hsub (r & Hr & Hp & Hm). unfold fs_rules_subsumed in Hsub. rewrite rules_subsumedP in Hsub.
  destruct (Hsub r Hr) as (r' & Hr' & Hc). bprop. exists r'. split_and!; [done| |by eapply scope_covers; [apply Hs|..]].
  destruct write; [destruct (fr_write r), (fr_write r')|destruct (fr_read r), (fr_read r')]; done.
Qed.

Lemma has_prefix_app w s : has_prefix w (w ++ s) = true.
Proof. unfold has_prefix. by rewrite take_app_length, (proj2 (bytes_eqb_eq _ _)). Qed.

Lemma has_prefix_split w s : has_prefix w s = true -> exists t, s = w ++ t.
Proof. unfold has_prefix. intros E%bytes_eqb_eq. exists (drop (length w) s). by rewrite <-E at 1; rewrite take_drop. Qed.

Lemma cstr_drop n s : cstr (drop n (cstr s)) = drop n (cstr s).
Proof.
  apply cstr_nonul_id. pose proof (cstr_nonul s) as Hn. unfold nonul in *. by apply Forall_drop.
Qed.

(** A typed target needs a pattern of its type. *)
Lemma match_netP pattern target :
  ak_policy_v2_match_net (Some pattern) (Some target) = true <->
  exists w p t, (w = B"dns:" \/ w = B"ip:") /\ cstr pattern = w ++ p /\ cstr target = w ++ t /\ Glob p t.
Proof.
  unfold ak_policy_v2_match_net. cbv zeta.
  assert (Hg : forall w p t, cstr pattern = w ++ p -> cstr target = w ++ t ->
    ak_pattern_match (drop (length w) (cstr pattern)) (drop (length w) (cstr target)) = true <-> Glob p t).
  { intros w p t Ep Et. rewrite ak_pattern_matchP, !cstr_drop, Ep, Et, !drop_app_length. done. }
  destruct (has_prefix B"dns:" (cstr pattern)) eqn:E1; [destruct (has_prefix B"dns:" (cstr target)) eqn:E2|]; cbn [andb].
  - apply has_prefix_split in E1 as [p Ep], E2 as [t Et]. rewrite (Hg B"dns:" p t Ep Et). split.
    + intros Hm. exists (B"dns:"), p, t. by auto.
    + intros (w & p' & t' & [->| ->] & Ep' & Et' & Hm); rewrite Ep in Ep'; rewrite Et in Et'; [|discriminate Ep'].
      apply app_inv_head in Ep', Et'. by subst.
  - apply has_prefix_split in E1 as [p Ep]. assert (has_prefix B"ip:" (cstr pattern) = false) as -> by (rewrite Ep; reflexivity).
    split; [done|]. intros (w & p' & t' & [->| ->] & Ep' & Et' & Hm); [by rewrite Et', has_prefix_app in E2|rewrite Ep in Ep'; discriminate Ep'].
  - destruct (has_prefix B"ip:" (cstr pattern)) eqn:E3; [destruct (has_prefix B"ip:" (cstr target)) eqn:E4|]; cbn [andb].
    + apply has_prefix_split in E3 as [p Ep], E4 as [t Et]. rewrite (Hg B"ip:" p t Ep Et). split.
      * intros Hm. exists (B"ip:"), p, t. by auto.
      * intros (w & p' & t' & [->| ->] & Ep' & Et' & Hm); rewrite Ep in Ep'; rewrite Et in Et'; [discriminate Ep'|].
        apply app_inv_head in Ep', Et'. by subst.
    + split; [done|]. intros (w & p' & t' & [->| ->] & Ep' & Et' & Hm); [by rewrite Ep', has_prefix_app in E1|by rewrite Et', has_prefix_app in E4].
    + split; [done|]. intros (w & p' & t' & [->| ->] & Ep' & Et' & Hm); [by rewrite Ep', has_prefix_app in E1|by rewrite Ep', has_prefix_app in E3].
Qed.

Lemma net_covers p q target :
  (QM ∉ cstr p) -> (exists r, cstr p = B"dns:" ++ r \/ cstr p = B"ip:" ++ r) -> ak_pattern_match p q = true ->
  ak_policy_v2_match_net (Some q) (Some target) = true -> ak_policy_v2_match_net (Some p) (Some target) = true.
Proof.
  rewrite !match_netP, ak_pattern_matchP. intros Hq Ht Hm (w & q' & t & Hw & Eq & Et & Hg).
  assert (Hr : exists w' r, (w' = B"dns:" \/ w' = B"ip:") /\ cstr p = w' ++ r) by (destruct Ht as (r & [E|E]); eauto).
  destruct Hr as (w' & r & Hw' & Ep). rewrite Ep in Hm, Hq.
  assert (Hpl : plain_text w') by (destruct Hw' as [->| ->]; split; apply (bool_decide_unpack _); vm_compute; exact I).
  destruct (glob_plain_prefix w' r _ Hpl Hm) as (q2 & E2 & Hg2). rewrite Eq in E2.
  assert (w' = w) as -> by (destruct Hw as [->| ->], Hw' as [->| ->]; (done || discriminate E2)).
  apply app_inv_head in E2 as ->. exists w, r, t. split_and!; [done..|].
  eapply glob_covers; [|exact Hg2|exact Hg]. intros ?. apply Hq, elem_of_app. by right.
Qed.

Definition covered_ops : list Z :=
  [AK_E_FS_OPEN; AK_E_FS_UNLINK; AK_E_FS_RENAME; AK_E_FS_MKDIR; AK_E_FS_RMDIR; AK_E_FS_STAT; AK_E_NET_CONNECT; AK_E_TOOL_CALL].

(** Whatever [q] allows, of file, connection and tool effects, [p] allows. *)
Definition attenuates (p q : ak_policy_v2) : Prop :=
  forall req, er_op req ∈ covered_ops -> (ak_policy_v2_check (Some q) (Some req)).1 = true -> (ak_policy_v2_check (Some p) (Some req)).1 = true.

#[export] Instance attenuates_preorder : PreOrder attenuates.
Proof. split; [by intros p req|]. intros p q r Hpq Hqr req Ho Hr. by apply Hpq, Hqr. Qed.

Lemma exceeds_fits parent child amount : 0 <= child -> exceeds parent child = false -> fits child amount -> fits parent amount.
Proof. unfold exceeds, fits. intros Hc He [Hf|Hf]; destruct (Z.ltb_spec 0 parent); cbn in He; bprop; lia. Qed.

Lemma budgets_cover parent child req :
  scoped child -> budgets_subsumed (p2_budgets parent) (p2_budgets child) = true -> within_budgets child req -> within_budgets parent req.
Proof.
  intros [_ _ _ Hn] Hb (F1 & F2 & F3 & F4). unfold budgets_subsumed in Hb. unfold within_budgets.
  destruct (exceeds (b2_cpu_ns _) _) eqn:E1; [done|]. destruct (exceeds (b2_wall_ns _) _) eqn:E2; [done|].
  destruct (exceeds (b2_bytes _) _) eqn:E3; [done|]. destruct (exceeds (b2_tokens _) _) eqn:E4; [done|].
  destruct Hn as (H1 & H2 & H3 & H4).
  split_and!; [exact (exceeds_fits _ _ _ H1 E1 F1)|exact (exceeds_fits _ _ _ H2 E2 F2)|exact (exceeds_fits _ _ _ H3 E3 F3)|exact (exceeds_fits _ _ _ H4 E4 F4)].
Qed.

Lemma tool_rules_subsumedP parent child :
  tool_rules_subsumed parent child = true ->
  forall c, c ∈ child -> tr2_allow c = true -> exists p, p ∈ parent /\ tr2_allow p = true /\ Glob (cstr (tr2_pattern p)) (cstr (tr2_pattern c)).
Proof.
  intros H c Hc Ha.
  assert (E : negb (tr2_allow c) || existsb (fun p => tr2_allow p && ak_pattern_match (tr2_pattern p) (tr2_pattern c)) parent = true).
  { destruct child as [|c0 child]; [set_solver|]. destruct parent; [done|]. unfold tool_rules_subsumed in H.
    rewrite forallb_forall in H. by apply H, list_elem_of_In. }
  rewrite Ha in E. cbn [negb orb] in E. apply existsb_elem in E as (p & Hp & E). bprop. exists p. by rewrite <-ak_pattern_matchP.
Qed.

Lemma not_covered op :
  op ∈ covered_ops -> op ∉ [AK_E_NET_DNS_RESOLVE; AK_E_WASM_INVOKE; AK_E_INFER; AK_E_PROC_SPAWN; AK_E_PROC_SIGNAL; AK_E_PROC_WAIT].
Proof.
  intros Ho Hn. revert op Hn Ho. change (forall op, op ∈ [AK_E_NET_DNS_RESOLVE; AK_E_WASM_INVOKE; AK_E_INFER; AK_E_PROC_SPAWN; AK_E_PROC_SIGNAL; AK_E_PROC_WAIT] ->
    op ∉ covered_ops). apply Forall_forall, (bool_decide_unpack _). vm_compute. exact I.
Qed.

(** On scoped policies the subset test is sound. *)
Lemma subsumed_attenuates p q : scoped p -> scoped q -> ak_policy_is_subsumed (Some p) (Some q) = true -> attenuates p q.
Proof.
  intros Hp Hq Hs req Ho. rewrite !check_true. intros (Hfc & Hg & Hb). unfold ak_policy_is_subsumed in Hs. rewrite Hfc in Hs.
  destruct (p2_fail_closed p); [done|]. destruct (fs_rules_subsumed _ _) eqn:E1; [|done]. destruct (net_rules_subsumed _ _) eqn:E2; [|done].
  destruct (tool_rules_subsumed _ _) eqn:E3; [|done]. destruct (budgets_subsumed _ _) eqn:E4; [|done].
  split; [done|]. split; [|by eapply budgets_cover].
  assert (Hfs : forall path write, fs_granted q path write -> fs_granted p path write) by (intros; by eapply fs_granted_covers).
  unfold grants in *. destruct Hg as [(Eo & H1 & H2)|[[Eo H1]|[[Eo H1]|[[Eo H1]|[[Eo _]|[[Eo H1]|Hg]]]]]].
  - left. auto.
  - right; left. auto.
  - do 2 right; left. auto.
  - do 3 right; left. split; [done|]. destruct H1 as (r & Hr & Hc & Hm). unfold net_rules_subsumed in E2. rewrite rules_subsumedP in E2.
    destruct (E2 r Hr) as (r' & Hr' & Hcov). bprop. destruct (sc_net p Hp r' Hr') as [Hqm Ht].
    exists r'. split_and!; [done|destruct (nr_connect r), (nr_connect r'); done|by eapply net_covers].
  - exfalso. apply (not_covered _ Ho). rewrite Eo. left.
  - do 5 right; left. split; [done|]. destruct H1 as [(r & Hr & Ha & Hm) _]. cbv zeta. split.
    + destruct (tool_rules_subsumedP _ _ E3 r Hr Ha) as (r' & Hr' & Ha' & Hm'). exists r'. split_and!; [done..|].
      by eapply glob_covers; [apply (sc_tool p Hp r' Hr')|exact Hm'|].
    + intros r' Hr' Hd. destruct (sc_tool p Hp r' Hr') as [Ha' _]. congruence.
  - exfalso. apply (not_covered _ Ho). destruct Hg as [[-> _]|[[-> _]|[[-> _]|[Eo _]]]]; [by right; left|by do 2 right; left|by do 3 right; left|].
    do 4 right. exact Eo.
Qed.

(** ** The registry *)

Lemma unlink_filter c pid : NoDup (pe_pid <$> c) -> unlink c pid = List.filter (fun e => negb (pe_pid e =? pid)) c.
Proof.
  induction c as [|e c IH]; [done|]. cbn. intros [Hni Hnd]%NoDup_cons. destruct (Z.eqb_spec (pe_pid e) pid) as [<-|]; cbn; [|by rewrite IH].
  symmetry. clear IH Hnd. induction c as [|x c IH]; [done|]. cbn in *. apply not_elem_of_cons in Hni as [Hne Hni].
  destruct (Z.eqb_spec (pe_pid x) (pe_pid e)); [done|]. cbn. f_equal. by apply IH.
Qed.

Lemma filter_all {A} (f : A -> bool) l : (forall x, x ∈ l -> f x = true) -> List.filter f l = l.
Proof. induction l as [|x l IH]; [done|]. intros H. cbn. rewrite H by left. f_equal. apply IH. intros y Hy. apply H. by right. Qed.

Lemma unlink_keep t pid :
  wf_ptable t -> alter (fun c => unlink c pid) (bucket_of t pid) t = table_keep (fun e => negb (pe_pid e =? pid)) t.
Proof.
  intros [Hne Hhome Hnd]. apply list_eq. intros i. unfold table_keep. rewrite list_lookup_fmap. destruct (decide (i = bucket_of t pid)) as [->|Hi].
  - rewrite list_lookup_alter_eq. destruct (t !! bucket_of t pid) as [c|] eqn:Ec; [|done]. cbn. f_equal. apply unlink_filter. by eapply Hnd.
  - rewrite list_lookup_alter_ne by done. destruct (t !! i) as [c|] eqn:Ec; [|done]. cbn. f_equal. symmetry. apply filter_all.
    intros e He. destruct (Z.eqb_spec (pe_pid e) pid) as [<-|]; [|done]. exfalso. apply Hi. symmetry. by eapply Hhome.
Qed.

(** The invariant: one entry per process, the counters agree with the lists,
    the lists are bounded and hold no revoked record. *)
Record entry_ok (e : ak_process_entry) : Prop := {
  eo_pid : pe_pid e <> 0;
  eo_count : pe_cap_count e = Z.of_nat (length (pe_caps e));
  eo_bound : pe_cap_count e <= AK_PROCESS_MAX_CAPS;
  eo_live : forall d, d ∈ pe_caps e -> dc_revoked d = false
}.

Record proc_inv (s : process_state) : Prop := {
  pi_table : wf_ptable (ps_entries s);
  pi_size : length (ps_entries s) = AK_PROCESS_MAX_ENTRIES;
  pi_entries : forall e, e ∈ entries (ps_entries s) -> entry_ok e;
  pi_count : ps_initialized s = true -> ps_entry_count s = u32 (Z.of_nat (length (entries (ps_entries s))))
}.

(** The state before initialisation. *)
Definition proc_boot : process_state := mk_proc false (empty_table AK_PROCESS_MAX_ENTRIES) 0 0 None zero_pstats.

Lemma entries_empty n : entries (empty_table n : list (list ak_process_entry)) = [].
Proof. unfold entries, empty_table. by induction n. Qed.

Lemma inv_empty init count free pol st : (init = true -> count = 0) -> proc_inv (mk_proc init (empty_table AK_PROCESS_MAX_ENTRIES) count free pol st).
Proof.
  intros Hc. split; cbn [ps_entries ps_initialized ps_entry_count].
  - apply wf_empty_table. unfold AK_PROCESS_MAX_ENTRIES. lia.
  - done.
  - rewrite entries_empty. set_solver.
  - rewrite entries_empty. exact Hc.
Qed.

Section Runs.
Context `{Hash} (raw_s : bytes -> bytes).

Inductive proc_op :=
| PInit (bootstrap : option ak_policy_v2)
| PShutdown (env : nat -> rev_env)
| PRegister (now : Z) (rnd : bytes) (alloc : bool) (pid parent_pid : Z) (policy : option ak_policy_v2) (flags : Z)
| PUnregister (env : nat -> rev_env) (pid exit_code exit_signal : Z)
| PSetPolicy (pid : Z) (policy : option ak_policy_v2)
| PDelegate (env : delegate_env) (parent_pid child_pid : Z) (cap : option ak_capability) (ttl : Z)
| PRevoke (env : rev_env) (pid : Z) (token : option bytes)
| PRevokeAll (env : nat -> rev_env) (pid : Z)
| PExpire (now : Z) (env : nat -> rev_env)
| PCleanup
| PSetState (pid : Z) (st : ak_process_state)
| PSpawn (now parent_pid : Z) (req : option ak_spawn_request).

Definition proc_do (o : proc_op) (w : pworld) : pworld :=
  let s := pw_proc w in
  match o with
  | PInit b => with_proc (ak_process_init b s) w
  | PShutdown env => ak_process_shutdown env w
  | PRegister now rnd alloc pid parent policy flags => with_proc (ak_process_register now rnd alloc s pid parent policy flags).2 w
  | PUnregister env pid code sig => ak_process_unregister env w pid code sig
  | PSetPolicy pid policy => with_proc (ak_process_set_policy s pid policy).2 w
  | PDelegate env parent child cap ttl => (ak_process_delegate_cap raw_s env w parent child cap ttl).2
  | PRevoke env pid token => (ak_process_revoke_cap env w pid token).2
  | PRevokeAll env pid => ak_process_revoke_caps env w pid
  | PExpire now env => (ak_process_expire_caps now env w).2
  | PCleanup => with_proc (ak_process_cleanup_zombies s).2 w
  | PSetState pid st => with_proc (ak_process_set_state s pid st) w
  | PSpawn now parent req => match ak_process_spawn now s parent req with Ret (_, _, s') => with_proc s' w | _ => w end
  end.

(** Revocations leave the registry alone, but for its statistics. *)
Definition same_registry (s s' : process_state) : Prop := exists st, s' = on_pstats (fun _ => st) s.

Lemma same_registry_refl s : same_registry s s.
Proof. exists (ps_stats s). by destruct s. Qed.
Lemma same_registry_trans s1 s2 s3 : same_registry s1 s2 -> same_registry s2 s3 -> same_registry s1 s3.
Proof. intros [a ->] [b ->]. by exists b. Qed.
Lemma same_on_stats f s : same_registry s (on_pstats f s).
Proof. by exists (f (ps_stats s)). Qed.

Lemma revoke_token_proc env t r w : pw_proc (revoke_token env t r w) = pw_proc w.
Proof. unfold revoke_token. by destruct (ak_revocation_add _ _ _ _ _ _ _ _ _). Qed.

Lemma revoke_list_same env r c l w : same_registry (pw_proc w) (pw_proc (revoke_list env r c l w)).
Proof.
  revert env w. induction l as [|d l IH]; intros env w; [apply same_registry_refl|]. cbn [revoke_list].
  eapply same_registry_trans; [|apply IH]. destruct (dc_revoked d); [apply same_registry_refl|]. cbv zeta.
  destruct c; cbn [with_proc pw_proc]; rewrite !revoke_token_proc; [apply same_on_stats|apply same_registry_refl].
Qed.

Lemma same_inv s s' : same_registry s s' -> proc_inv s -> proc_inv s'.
Proof. by intros [st ->] [H1 H2 H3 H4]. Qed.

Lemma same_find s s' pid : same_registry s s' -> ak_process_find s' pid = ak_process_find s pid.
Proof. by intros [st ->]. Qed.
End Runs.

(** *** Updates of the table *)

Lemma length_entries_total (t : list (list ak_process_entry)) : Z.of_nat (length (entries t)) = total (fun _ => 1) t.
Proof. unfold total. by rewrite sum_by_one. Qed.

Lemma u32_add a b : u32 (u32 a + b) = u32 (a + b).
Proof. unfold u32. by rewrite Z.add_mod_idemp_l. Qed.

(** The fields of an entry that no operation but one changes. *)
Definition same_identity (e e' : ak_process_entry) : Prop :=
  pe_pid e' = pe_pid e /\ pe_policy e' = pe_policy e /\ pe_parent_pid e' = pe_parent_pid e /\ pe_run_id e' = pe_run_id e.

Lemma find_lookup s pid e : ak_process_find s pid = Some e -> table_lookup (ps_entries s) pid = Some e /\ ps_initialized s = true.
Proof. unfold ak_process_find. destruct (ps_initialized s), (pid =? 0); done. Qed.

Section Alter.
Context (f : ak_process_entry -> ak_process_entry) (Hf : forall e, pe_pid (f e) = pe_pid e).

Lemma inv_alter s pid e :
  proc_inv s -> table_lookup (ps_entries s) pid = Some e -> (entry_ok e -> entry_ok (f e)) ->
  proc_inv (with_entries (table_alter f (ps_entries s) pid) s).
Proof using Hf.
  intros [H1 H2 H3 H4] Hl He. split; cbn [with_entries ps_entries ps_initialized ps_entry_count].
  - by apply wf_alter.
  - by rewrite length_table_alter.
  - intros x [Hx|(e0 & El & ->)]%entries_alter; [by apply H3|]. rewrite Hl in El. injection El as <-. apply He, H3.
    by apply table_lookup_spec in Hl as [].
  - intros Hi. rewrite (H4 Hi). f_equal. rewrite !length_entries_total, (total_alter _ _ _ _ e) by done. lia.
Qed.

Lemma proc_find_alter s pid0 pid :
  proc_inv s -> ak_process_find (with_entries (table_alter f (ps_entries s) pid0) s) pid =
    if pid0 =? pid then f <$> ak_process_find s pid else ak_process_find s pid.
Proof using Hf.
  intros [H1 _ _ _]. unfold ak_process_find. cbn [with_entries ps_entries ps_initialized]. destruct (negb _ || _); [by destruct (_ =? _)|].
  by apply lookup_alter_table.
Qed.
End Alter.

Lemma inv_keep keep s count free :
  proc_inv s -> (ps_initialized s = true -> count = u32 (Z.of_nat (length (entries (table_keep keep (ps_entries s)))))) ->
  proc_inv (with_counts count free (with_entries (table_keep keep (ps_entries s)) s)).
Proof.
  intros [H1 H2 H3 H4] Hc. split; cbn [with_counts with_entries ps_entries ps_initialized ps_entry_count].
  - by apply wf_keep.
  - by rewrite length_keep.
  - intros x. rewrite entries_keep. intros [Hx _]%filter_elem. by apply H3.
  - exact Hc.
Qed.

Lemma find_keep keep s pid :
  proc_inv s -> ak_process_find (with_entries (table_keep keep (ps_entries s)) s) pid =
    match ak_process_find s pid with Some e => if keep e then Some e else None | None => None end.
Proof.
  intros [H1 _ _ _]. unfold ak_process_find. cbn [with_entries ps_entries ps_initialized]. destruct (negb _ || _); [done|]. by apply lookup_keep.
Qed.

Lemma chain_unlink_sum c pid (e : ak_process_entry) :
  chain_lookup c pid = Some e -> sum_by (fun _ => 1) (unlink c pid) = sum_by (fun _ => 1) c - 1.
Proof.
  induction c as [|x c IH]; [done|]. cbn [chain_lookup unlink]. change (ptr_of x) with (pe_pid x). unfold sum_by in *.
  destruct (pe_pid x =? pid); intros Hl; cbn; [lia|]. rewrite IH by done. lia.
Qed.

Lemma unlink_count (t : list (list ak_process_entry)) pid e :
  wf_ptable t -> table_lookup t pid = Some e ->
  Z.of_nat (length (entries (table_keep (fun e => negb (pe_pid e =? pid)) t))) = Z.of_nat (length (entries t)) - 1.
Proof.
  intros Hwf Hl. rewrite <-unlink_keep by done. rewrite !length_entries_total. unfold table_lookup in Hl.
  destruct (t !! bucket_of t pid) as [c|] eqn:Ec; [|done]. rewrite (total_alter_bucket _ _ _ _ _ Ec), (chain_unlink_sum _ _ _ Hl). lia.
Qed.

Lemma length_filter_neg {A} (f : A -> bool) l : (length (List.filter f l) + length (List.filter (fun x => negb (f x)) l) = length l)%nat.
Proof. induction l as [|x l IH]; [done|]. cbn. destruct (f x); cbn; lia. Qed.

(** *** Each operation *)

Lemma inv_register now rnd alloc s pid parent policy flags :
  proc_inv s -> proc_inv (ak_process_register now rnd alloc s pid parent policy flags).2.
Proof.
  intros Hi. unfold ak_process_register. destruct (ps_initialized s) eqn:Ei; [|done]. cbn [negb]. destruct (Z.eqb_spec pid 0); [done|].
  destruct (table_lookup _ _) eqn:El; [done|]. destruct (alloc_entry alloc s) as [free|]; [|done]. cbn [snd]. set (e := mk_pentry _ _ _ _ _ _ _ _ _ _ _ _ _ _).
  destruct Hi as [H1 H2 H3 H4]. split; cbn [on_pstats with_counts with_entries ps_entries ps_initialized ps_entry_count].
  - exact (wf_push (ps_entries s) e H1 El).
  - by rewrite length_push.
  - intros x. rewrite (entries_push _ pid e) by (by apply H1). intros [->|Hx]; [|by apply H3]. split; [done|done|done|cbn; set_solver].
  - intros _. rewrite H4, u32_add, !length_entries_total, total_push by (done || by apply H1). f_equal. lia.
Qed.

Lemma with_caps_ok caps count e :
  entry_ok e -> count = Z.of_nat (length caps) -> (length caps <= 16)%nat -> (forall d, d ∈ caps -> dc_revoked d = false) -> entry_ok (with_caps caps count e).
Proof. intros [H1 H2 H3 H4] -> Hl Hr. split; cbn; [done|done|unfold AK_PROCESS_MAX_CAPS; lia|done]. Qed.

Lemma caps_length e : entry_ok e -> (length (pe_caps e) <= 16)%nat.
Proof. intros [_ H2 H3 _]. unfold AK_PROCESS_MAX_CAPS in H3. lia. Qed.

Lemma u32_small z : 0 <= z < M32 -> u32 z = z.
Proof. apply Z.mod_small. Qed.

Section Steps.
Context `{Hash} (raw_s : bytes -> bytes).

Lemma inv_unregister env w pid code sig : proc_inv (pw_proc w) -> proc_inv (pw_proc (ak_process_unregister env w pid code sig)).
Proof.
  intros Hi. unfold ak_process_unregister. destruct (negb _); [done|]. destruct (table_lookup _ _) as [e|] eqn:El; [|done].
  pose proof (revoke_list_same env B"process exit" true (pe_caps e) w) as Hsame. cbn [with_proc pw_proc].
  set (s := pw_proc (revoke_list _ _ _ _ _)) in *. assert (Hs : proc_inv s) by (by eapply same_inv).
  assert (El' : table_lookup (ps_entries s) pid = Some e) by (by destruct Hsame as [st ->]).
  rewrite unlink_keep by apply Hs. apply (same_inv (with_counts (u32 (ps_entry_count s - 1)) (S (ps_free s)) (with_entries (table_keep (fun e => negb (pe_pid e =? pid)) (ps_entries s)) s)));
    [apply same_on_stats|]. apply inv_keep; [done|]. intros Hin. rewrite (unlink_count _ _ e) by (apply Hs || done).
  rewrite (pi_count s Hs Hin). apply (u32_add _ (-1)).
Qed.

Lemma inv_delegate env w parent child cap ttl : proc_inv (pw_proc w) -> proc_inv (pw_proc (ak_process_delegate_cap raw_s env w parent child cap ttl).2).
Proof.
  intros Hi. unfold ak_process_delegate_cap. destruct cap as [cap|]; [|done]. destruct (ak_process_find _ parent); [|done].
  destruct (ak_process_find _ child) as [e|] eqn:Ef; [|done]. destruct (negb _); [done|]. destruct (Z.leb_spec AK_PROCESS_MAX_CAPS (pe_cap_count e)); [done|].
  destruct (ak_capability_delegate _ _ _ _ _ _ _ _ _ _ _ _ _ _ _ _); [|done]. destruct (negb _); [done|]. cbn [snd with_proc pw_proc].
  eapply same_inv; [apply same_on_stats|]. apply find_lookup in Ef as [El _]. eapply inv_alter; [done|done|exact El|].
  intros He. pose proof He as [H1 H2 H3 H4]. unfold AK_PROCESS_MAX_CAPS in *. apply with_caps_ok; [done| |cbn; lia|].
  - rewrite u32_small by lia. rewrite H2. cbn [length]. lia.
  - intros d [->|Hd]%elem_of_cons; [done|by apply H4].
Qed.

Lemma inv_revoke env w pid token : proc_inv (pw_proc w) -> proc_inv (pw_proc (ak_process_revoke_cap env w pid token).2).
Proof.
  intros Hi. unfold ak_process_revoke_cap. destruct token as [t|]; [|done]. destruct (ak_process_find _ pid) as [e|] eqn:Ef; [|done].
  destruct (list_find _ _) as [[i d]|] eqn:Ei; [|done]. cbn [snd with_proc pw_proc].
  pose proof (revoke_list_same (fun _ => env) B"explicit revocation" true [d] w) as Hsame. set (s := pw_proc (revoke_list _ _ _ _ _)) in *.
  assert (Hs : proc_inv s) by (by eapply same_inv). rewrite <-(same_find _ _ _ Hsame) in Ef. apply find_lookup in Ef as [El _].
  eapply inv_alter; [done|done|exact El|]. intros He. pose proof He as [H1 H2 H3 H4].
  apply list_find_Some in Ei as (Hd & _). pose proof (lookup_lt_Some _ _ _ Hd). pose proof (caps_length e He).
  apply with_caps_ok; [done| | |].
  - rewrite length_delete by eauto. rewrite u32_small; rewrite H2; lia.
  - rewrite length_delete by eauto. lia.
  - intros x Hx. apply H4. revert Hx. rewrite delete_take_drop. intros [Hx|Hx]%elem_of_app; [by eapply elem_of_take_in|].
    rewrite <-(take_drop (S i) (pe_caps e)), elem_of_app. by right.
Qed.
End Steps.

Section Steps2.
Context `{Hash} (raw_s : bytes -> bytes).

Lemma inv_revoke_all env w pid : proc_inv (pw_proc w) -> proc_inv (pw_proc (ak_process_revoke_caps env w pid)).
Proof.
  intros Hi. unfold ak_process_revoke_caps. destruct (ak_process_find _ pid) as [e|] eqn:Ef; [|done]. cbn [with_proc pw_proc].
  pose proof (revoke_list_same env B"revoke all" true (pe_caps e) w) as Hsame. set (s := pw_proc (revoke_list _ _ _ _ _)) in *.
  assert (Hs : proc_inv s) by (by eapply same_inv). rewrite <-(same_find _ _ _ Hsame) in Ef. apply find_lookup in Ef as [El _].
  eapply inv_alter; [done|done|exact El|]. intros He. apply with_caps_ok; [done|done|cbn; lia|set_solver].
Qed.

Lemma expire_entry_ok now e : entry_ok e -> entry_ok (expire_entry now e).
Proof.
  intros He. pose proof He as [H1 H2 H3 H4]. pose proof (caps_length e He). unfold expire_entry.
  pose proof (length_filter_neg (is_expired now) (pe_caps e)). apply with_caps_ok; [done| |lia|].
  - rewrite H2, u32_small; lia.
  - intros d Hd. apply list_elem_of_In, filter_In in Hd as [Hd%list_elem_of_In _]. by apply H4.
Qed.

Lemma inv_expire now env w : proc_inv (pw_proc w) -> proc_inv (pw_proc (ak_process_expire_caps now env w).2).
Proof.
  intros Hi. unfold ak_process_expire_caps. cbn [snd with_proc pw_proc]. set (w' := revoke_list _ _ _ _ _).
  assert (Hs : proc_inv (pw_proc w')) by (eapply same_inv; [apply revoke_list_same|done]). destruct Hs as [H1 H2 H3 H4].
  split; cbn [with_entries ps_entries ps_initialized ps_entry_count].
  - by apply wf_map.
  - by rewrite length_table_map.
  - intros x. rewrite entries_map. intros (e & -> & He)%list_elem_of_fmap. by apply expire_entry_ok, H3.
  - intros Hin. by rewrite (H4 Hin), entries_map, length_map.
Qed.

Lemma inv_cleanup s : proc_inv s -> proc_inv (ak_process_cleanup_zombies s).2.
Proof.
  intros Hi. unfold ak_process_cleanup_zombies. cbn [snd]. apply inv_keep; [done|]. intros Hin. rewrite (pi_count s Hi Hin), entries_keep.
  pose proof (length_filter_neg is_exited (entries (ps_entries s))). rewrite <-Z.add_opp_r, u32_add. f_equal. lia.
Qed.

Lemma spawn_same now s parent req r s' res : ak_process_spawn now s parent req = Ret (r, res, s') -> same_registry s s'.
Proof.
  unfold ak_process_spawn. destruct req as [req|]; [|intros [= _ _ <-]; apply same_registry_refl]. cbv zeta.
  set (s1 := on_pstats (count_spawns 1 0 0) s). destruct (ak_process_authorize_spawn now s1 parent req) as [[[ok d] s2]| |] eqn:Ea; try done. cbn [obind].
  assert (Hs2 : same_registry s1 s2).
  { unfold ak_process_authorize_spawn in Ea. repeat (case_match; try done; simplify_eq); try apply same_registry_refl; apply same_on_stats. }
  intros Hr. assert (s' = on_pstats (count_spawns 0 0 1) s2) as -> by (destruct ok; cbn in Hr; by simplify_eq).
  eapply same_registry_trans; [apply (same_on_stats (count_spawns 1 0 0))|]. eapply same_registry_trans; [exact Hs2|]. apply same_on_stats.
Qed.

(** Every operation keeps the registry consistent. *)
Lemma inv_do o w : proc_inv (pw_proc w) -> proc_inv (pw_proc (proc_do raw_s o w)).
Proof.
  intros Hi. destruct o; cbn [proc_do with_proc pw_proc].
  - unfold ak_process_init. destruct (ps_initialized _); [done|]. by apply inv_empty.
  - unfold ak_process_shutdown. destruct (negb _); [done|]. cbn [with_proc pw_proc]. by apply inv_empty.
  - by apply inv_register.
  - by apply inv_unregister.
  - unfold ak_process_set_policy. destruct policy; [|done]. destruct (ak_process_find _ pid) as [e|] eqn:Ef; [|done].
    match goal with |- context [if ?c then _ else _] => destruct c end; [done|]. apply find_lookup in Ef as [El _].
    eapply inv_alter; [done|done|exact El|]. by intros [].
  - by apply inv_delegate.
  - by apply inv_revoke.
  - by apply inv_revoke_all.
  - by apply inv_expire.
  - by apply inv_cleanup.
  - unfold ak_process_set_state. destruct (ak_process_find _ pid) as [e|] eqn:Ef; [|done]. apply find_lookup in Ef as [El _].
    eapply inv_alter; [done|done|exact El|]. by intros [].
  - destruct (ak_process_spawn _ _ _ _) as [[[r res] s']| |] eqn:Es; [|done..]. eapply same_inv; [by eapply spawn_same|done].
Qed.

(** *** What an operation does to a process that stays registered *)

Definition policy_step (o : proc_op) (pid : Z) (e e' : ak_process_entry) : Prop :=
  pe_parent_pid e' = pe_parent_pid e /\ pe_run_id e' = pe_run_id e /\
  (pe_policy e' = pe_policy e \/
   exists q, o = PSetPolicy pid (Some q) /\ pe_policy e' = Some q /\ (pe_policy e <> None -> ak_policy_is_subsumed (pe_policy e) (Some q) = true)).

Lemma identity_step o pid e e' : same_identity e e' -> policy_step o pid e e'.
Proof. intros (_ & Hp & Ha & Hr). split_and!; auto. Qed.

Lemma alter_step o f s pid0 pid e e' :
  proc_inv s -> (forall e, same_identity e (f e)) -> ak_process_find s pid = Some e ->
  ak_process_find (with_entries (table_alter f (ps_entries s) pid0) s) pid = Some e' -> policy_step o pid e e'.
Proof.
  intros Hi Hf Ee Ee'. rewrite proc_find_alter, Ee in Ee' by (done || apply Hf). apply identity_step.
  destruct (pid0 =? pid); injection Ee' as <-; [apply Hf|done].
Qed.

Lemma do_step o w pid e e' :
  proc_inv (pw_proc w) -> ak_process_find (pw_proc w) pid = Some e -> ak_process_find (pw_proc (proc_do raw_s o w)) pid = Some e' -> policy_step o pid e e'.
Proof.
  intros Hi Ee. assert (Hsame : forall s', same_registry (pw_proc w) s' -> ak_process_find s' pid = Some e' -> policy_step o pid e e').
  { intros s' Hs. rewrite (same_find _ _ _ Hs), Ee. intros [= <-]. by apply identity_step. }
  assert (Hrefl := Hsame _ (same_registry_refl _)). destruct (find_lookup _ _ _ Ee) as [El Ein]. destruct o; cbn [proc_do with_proc pw_proc].
  - unfold ak_process_init. by rewrite Ein.
  - unfold ak_process_shutdown. rewrite Ein. cbn [negb with_proc pw_proc]. done.
  - unfold ak_process_register. rewrite Ein. cbn [negb]. destruct (pid0 =? 0); [done|]. destruct (table_lookup _ pid0) eqn:El0; [done|].
    destruct (alloc_entry _ _); [|done]. cbn [snd]. set (x := mk_pentry _ _ _ _ _ _ _ _ _ _ _ _ _ _). unfold ak_process_find in *.
    cbn [on_pstats with_counts with_entries ps_entries ps_initialized]. destruct (negb _ || _); [done|]. rewrite (lookup_push _ x _ (pi_table _ Hi) El0).
    change (ptr_of x) with pid0. destruct (Z.eqb_spec pid0 pid) as [->|]; [congruence|]. exact Hrefl.
  - unfold ak_process_unregister. rewrite Ein. cbn [negb]. destruct (table_lookup _ pid0) as [e0|] eqn:El0; [|done]. cbn [with_proc pw_proc].
    pose proof (revoke_list_same env B"process exit" true (pe_caps e0) w) as Hs. set (s := pw_proc (revoke_list _ _ _ _ _)) in *.
    assert (Hi' : proc_inv s) by (by eapply same_inv). rewrite unlink_keep by apply Hi'.
    change (ak_process_find _ pid) with (ak_process_find (with_entries (table_keep (fun e => negb (pe_pid e =? pid0)) (ps_entries s)) s) pid).
    rewrite find_keep by done. destruct (ak_process_find s pid) as [x|] eqn:Ex; [|done]. destruct (negb _); [|done]. intros [= ->]. by apply (Hsame s).
  - unfold ak_process_set_policy. destruct policy as [q|]; [|done]. destruct (ak_process_find _ pid0) as [e0|] eqn:Ef; [|done].
    destruct (match pe_policy e0 with Some _ => _ | None => _ end) eqn:Esub; [done|]. cbn [snd]. rewrite proc_find_alter, Ee by done.
    destruct (Z.eqb_spec pid0 pid) as [->|]; [|intros [= <-]; by apply identity_step]. intros [= <-]. rewrite Ee in Ef. injection Ef as <-.
    split_and!; [done..|]. right. exists q. split_and!; [done..|]. intros Hn. destruct (pe_policy e); [by destruct (ak_policy_is_subsumed _ _)|done].
  - unfold ak_process_delegate_cap. repeat (case_match; try exact Hrefl).
    all: intros Ee'; eapply (alter_step _ _ _ _ _ _ _ Hi); [|exact Ee|exact Ee']; done.
  - unfold ak_process_revoke_cap. repeat (case_match; try exact Hrefl). cbn [snd with_proc pw_proc]. intros Ee'.
    match goal with Ee' : context [revoke_list ?e ?r ?c ?l w] |- _ => pose proof (revoke_list_same e r c l w) as Hs end.
    eapply (alter_step _ _ _ _ _ _ _ (same_inv _ _ Hs Hi)); [|rewrite (same_find _ _ _ Hs); exact Ee|exact Ee']. done.
  - unfold ak_process_revoke_caps. case_match; [|done]. cbn [snd with_proc pw_proc]. intros Ee'.
    match goal with Ee' : context [revoke_list ?e ?r ?c ?l w] |- _ => pose proof (revoke_list_same e r c l w) as Hs end.
    eapply (alter_step _ _ _ _ _ _ _ (same_inv _ _ Hs Hi)); [|rewrite (same_find _ _ _ Hs); exact Ee|exact Ee']. done.
  - unfold ak_process_expire_caps. cbn [snd with_proc pw_proc].
    match goal with |- context [revoke_list ?e ?r ?c ?l w] => pose proof (revoke_list_same e r c l w) as Hs; set (s := pw_proc (revoke_list e r c l w)) in * end.
    rewrite <-(same_find _ _ pid Hs) in Ee. unfold ak_process_find in *. cbn [with_entries ps_entries ps_initialized]. destruct (negb _ || _); [done|].
    rewrite lookup_map_table, Ee by done. intros [= <-]. by apply identity_step.
  - unfold ak_process_cleanup_zombies. cbn [snd].
    change (ak_process_find _ pid) with (ak_process_find (with_entries (table_keep (fun e => negb (is_exited e)) (ps_entries (pw_proc w))) (pw_proc w)) pid).
    rewrite find_keep, Ee by done. destruct (negb _); [|done]. intros [= <-]. by apply identity_step.
  - unfold ak_process_set_state. destruct (ak_process_find _ pid0); [|done]. intros Ee'.
    eapply (alter_step _ _ _ _ _ _ _ Hi); [|exact Ee|exact Ee']. done.
  - destruct (ak_process_spawn _ _ _ _) as [[[r res] s']| |] eqn:Es; [|done..]. apply Hsame. by eapply spawn_same.
Qed.
End Steps2.

Section Theorems.
Context `{Hash} (raw_s : bytes -> bytes).

(** A sequence of operations along which a process stays registered. *)
Inductive lives (pid : Z) : pworld -> list proc_op -> pworld -> Prop :=
| lives_end w e : ak_process_find (pw_proc w) pid = Some e -> lives pid w [] w
| lives_step w o ops w' e : ak_process_find (pw_proc w) pid = Some e -> lives pid (proc_do raw_s o w) ops w' -> lives pid w (o :: ops) w'.

Definition offers_scoped (o : proc_op) : Prop := match o with PSetPolicy _ (Some q) => scoped q | _ => True end.

Lemma lives_policy pid ops w w' :
  proc_inv (pw_proc w) -> lives pid w ops w' -> Forall offers_scoped ops ->
  forall e p, ak_process_find (pw_proc w) pid = Some e -> pe_policy e = Some p -> scoped p ->
  exists e' p', ak_process_find (pw_proc w') pid = Some e' /\ pe_policy e' = Some p' /\ attenuates p p' /\ scoped p' /\
    pe_parent_pid e' = pe_parent_pid e /\ pe_run_id e' = pe_run_id e.
Proof.
  intros Hi Hl. induction Hl as [w e0 He0|w o ops w' e0 He0 Hl IH]; intros Ho e p He Hp Hs.
  - exists e, p. by split_and!.
  - apply Forall_cons in Ho as [Ho Hops].
    assert (Hnext : exists e1, ak_process_find (pw_proc (proc_do raw_s o w)) pid = Some e1) by (inversion Hl; eauto). destruct Hnext as [e1 He1].
    destruct (do_step raw_s o w pid e e1 Hi He He1) as (Hpar & Hrun & Hstep).
    assert (Hq : exists q, pe_policy e1 = Some q /\ attenuates p q /\ scoped q).
    { destruct Hstep as [Ep|(q & -> & Eq & Hsub)]; [exists p; by rewrite Ep|]. exists q. split_and!; [done| |exact Ho].
      rewrite Hp in Hsub. by apply subsumed_attenuates, Hsub. }
    destruct Hq as (q & Eq & Hat & Hsq). destruct (IH (inv_do raw_s o w Hi) Hops e1 q He1 Eq Hsq) as (e' & p' & E1 & E2 & E3 & E4 & E5 & E6).
    exists e', p'. split_and!; [done|done|by etransitivity|done|by rewrite E5|by rewrite E6].
Qed.

(** C30: privileges only shrink.  Let a process have a policy of directories,
    typed targets and permitted tools (no denials, no [?] in a pattern:
    [scoped]).  Along every sequence of registry operations in which it stays
    registered, and which offer policies of this kind only, every file,
    connection and tool effect that its policy allows at the end was allowed at
    the start, its budgets included; its parent does not change. *)
Theorem privileges_only_shrink pid ops w w' e p req :
  proc_inv (pw_proc w) -> lives pid w ops w' -> Forall offers_scoped ops ->
  ak_process_find (pw_proc w) pid = Some e -> pe_policy e = Some p -> scoped p -> er_op req ∈ covered_ops ->
  (ak_policy_v2_check (ak_process_get_policy (pw_proc w') pid) (Some req)).1 = true ->
  (ak_policy_v2_check (ak_process_get_policy (pw_proc w) pid) (Some req)).1 = true /\
  ak_process_get_parent (pw_proc w') pid = ak_process_get_parent (pw_proc w) pid.
Proof.
  intros Hi Hl Ho He Hp Hs Hop. destruct (lives_policy pid ops w w' Hi Hl Ho e p He Hp Hs) as (e' & p' & He' & Hp' & Hat & _ & Hpar & _).
  unfold ak_process_get_policy, ak_process_get_parent. rewrite He, He', Hp, Hp', Hpar. intros Hc. split; [by apply Hat|done].
Qed.

(** ** Exit *)

(** A revocation of the token, if there is one, is kept until [hi]. *)
Definition keeps_until (hi : Z) (st : rev_state) (t : bytes) : Prop :=
  match ak_revocation_find_locked st t with Some r => hi <= revoked_ms r + AK_REVOCATION_RETAIN_MS | None => True end.

Lemma insert_keeps_until hi st t why now alloc t' :
  wf_table (revocations st) -> length t = 16%nat -> length t' = 16%nat -> 0 <= now <= hi -> hi < M64 -> hi <= now + AK_REVOCATION_RETAIN_MS ->
  keeps_until hi st t' -> keeps_until hi (snd (ak_revocation_insert_locked st t now why now alloc)) t'.
Proof.
  intros Hwf Ht Ht' Hn Hh Hr Hk. unfold ak_revocation_insert_locked. destruct (ak_revocation_find_locked st t) eqn:Ef; [done|].
  assert (Hsw : keeps_until hi (ak_revocation_sweep_locked st now) t').
  { unfold keeps_until in *. destruct (ak_revocation_find_locked st t') as [r|] eqn:Er; [|by rewrite find_sweep_None].
    rewrite (sweep_retains _ _ _ r); [done|done|done|lia|done|lia]. }
  assert (Hst : keeps_until hi (if AK_REVOCATION_SWEEP_THRESHOLD <=? revocation_count st then ak_revocation_sweep_locked st now else st) t')
    by (by destruct (_ <=? _)).
  destruct alloc; [|done]. unfold keeps_until, ak_revocation_find_locked in *. cbn [snd revocations].
  destruct (decide (t = t')) as [->|Hne]; [by rewrite find_chain_same|]. by rewrite find_chain_other.
Qed.

Definition revoked_until (hi : Z) (st : rev_state) (t : bytes) : Prop := ak_revocation_check st t = true /\ keeps_until hi st t.

(** The clock during one call, and allocations that succeed. *)
Definition env_within (lo hi : Z) (env : nat -> rev_env) : Prop :=
  0 <= lo /\ hi < M64 /\ hi <= lo + AK_REVOCATION_RETAIN_MS /\ forall i, lo <= re_now (env i) <= hi /\ re_alloc (env i) = true.

Lemma token_rev env t r w :
  cs_rev (pw_caps (revoke_token env t r w)) =
  rev_apply (cs_rev (pw_caps w)) (OpInsert t (re_now env) (if re_alloc_reason env then Some r else None) (re_alloc env)) (re_now env).
Proof. done. Qed.

Lemma token_revoked lo hi env t r w t' :
  wf_table (revocations (cs_rev (pw_caps w))) -> length t = 16%nat -> length t' = 16%nat -> env_within lo hi (fun _ => env) ->
  keeps_until hi (cs_rev (pw_caps w)) t -> keeps_until hi (cs_rev (pw_caps w)) t' ->
  let st := cs_rev (pw_caps (revoke_token env t r w)) in
  wf_table (revocations st) /\ revoked_until hi st t /\ keeps_until hi st t' /\
  (revoked_until hi (cs_rev (pw_caps w)) t' -> revoked_until hi st t').
Proof.
  intros Hwf Ht Ht' (Hlo & Hhi & Hret & Hall) Hk Hk'. destruct (Hall 0%nat) as [Hn Ha]. cbv zeta. rewrite token_rev, Ha. split_and!.
  - by apply rev_apply_wf.
  - split; [apply insert_revokes|]. apply insert_keeps_until; (done || lia).
  - apply insert_keeps_until; (done || lia).
  - intros [Hc _]. split; [|apply insert_keeps_until; (done || lia)]. unfold ak_revocation_check in *. unfold keeps_until in Hk'.
    destruct (ak_revocation_find_locked (cs_rev (pw_caps w)) t') as [x|] eqn:Ef; [|done].
    rewrite (rev_apply_keeps _ _ _ t' x); [done|done|done|done|lia|lia|done].
Qed.

Lemma with_proc_caps p w : pw_caps (with_proc p w) = pw_caps w.
Proof. done. Qed.

(** The walk revokes every record, and keeps what was revoked before. *)
Lemma list_revoked lo hi env r c l w (T : list bytes) :
  wf_table (revocations (cs_rev (pw_caps w))) -> env_within lo hi env -> Forall (fun t => length t = 16%nat) T -> (forall d, d ∈ l -> dc_revoked d = false) ->
  (forall d, d ∈ l -> tid (dc_cap d) ∈ T) -> (forall t, t ∈ T -> keeps_until hi (cs_rev (pw_caps w)) t) ->
  let st := cs_rev (pw_caps (revoke_list env r c l w)) in
  forall t, t ∈ T -> revoked_until hi (cs_rev (pw_caps w)) t \/ t ∈ (fun d => tid (dc_cap d)) <$> l -> ak_revocation_check st t = true.
Proof.
  intros Hwf Henv HT. assert (HT' : forall t, t ∈ T -> length t = 16%nat) by (by rewrite <-Forall_forall). clear HT. cbv zeta.
  revert env w Hwf Henv. induction l as [|d l IH]; intros env w Hwf Henv Hlive Hin Hk t Ht Hr.
  { destruct Hr as [[Hr _]|Hr]; [done|set_solver]. }
  cbn [revoke_list]. rewrite (Hlive d) by left. cbv zeta. set (w1 := revoke_token (env 0%nat) (tid (dc_cap d)) r w).
  assert (Henv1 : env_within lo hi (fun _ => env 0%nat)) by (destruct Henv as (? & ? & ? & Hall); split_and!; [done..|]; intros; apply Hall).
  assert (Hd : tid (dc_cap d) ∈ T) by (apply Hin; left).
  assert (Hstep : forall t, t ∈ T -> wf_table (revocations (cs_rev (pw_caps w1))) /\ revoked_until hi (cs_rev (pw_caps w1)) (tid (dc_cap d)) /\
    keeps_until hi (cs_rev (pw_caps w1)) t /\ (revoked_until hi (cs_rev (pw_caps w)) t -> revoked_until hi (cs_rev (pw_caps w1)) t)).
  { intros t0 Ht0. apply (token_revoked lo); [done|by apply HT'|by apply HT'|done|by apply Hk|by apply Hk]. }
  assert (Ew : cs_rev (pw_caps (if c then with_proc (on_pstats count_revocation (pw_proc w1)) w1 else w1)) = cs_rev (pw_caps w1)) by (by destruct c).
  apply IH; rewrite ?Ew.
  - by apply (Hstep t).
  - destruct Henv as (? & ? & ? & Hall). split_and!; [done..|]. intros i. apply (Hall (S i)).
  - intros d' Hd'. apply Hlive. by right.
  - intros d' Hd'. apply Hin. by right.
  - intros t0 Ht0. by destruct (Hstep t0 Ht0) as (_ & _ & ? & _).
  - done.
  - destruct Hr as [Hr|[->|Hr]%elem_of_cons]; [left; by apply (Hstep t Ht)|left; by destruct (Hstep _ Hd) as (_ & ? & _)|by right].
Qed.

(** C31: exit revokes what was delegated.  When a process is unregistered, it is
    no longer found and holds no capability; every token that was delegated to it
    is in the revocation set, so that no later request passes validation with
    it. *)
Theorem exit_revokes_delegations lo hi env w pid code sig e :
  proc_inv (pw_proc w) -> ak_process_find (pw_proc w) pid = Some e -> wf_table (revocations (cs_rev (pw_caps w))) -> env_within lo hi env ->
  (forall d, d ∈ pe_caps e -> length (tid (dc_cap d)) = 16%nat /\ keeps_until hi (cs_rev (pw_caps w)) (tid (dc_cap d))) ->
  let w' := ak_process_unregister env w pid code sig in
  ak_process_find (pw_proc w') pid = None /\ (forall now type res, ak_process_has_cap now (pw_proc w') pid type res = false) /\
  forall d, d ∈ pe_caps e ->
    ak_revocation_check (cs_rev (pw_caps w')) (tid (dc_cap d)) = true /\
    forall type res meth run now_verify now_rate alloc_mac alloc_rate,
      fst (ak_capability_validate raw_s (pw_caps w') (Some (dc_cap d)) type res meth run now_verify now_rate alloc_mac alloc_rate) < 0.
Proof.
  intros Hi He Hwf Henv Htok w'. destruct (find_lookup _ _ _ He) as [El Ein].
  assert (Ew : w' = with_proc (pw_proc w') (revoke_list env B"process exit" true (pe_caps e) w))
    by (unfold w', ak_process_unregister; by rewrite Ein, El).
  assert (Hnone : ak_process_find (pw_proc w') pid = None).
  { destruct (ak_process_find (pw_proc w') pid) as [e'|] eqn:Ef; [|done]. exfalso.
    unfold w', ak_process_unregister in Ef. rewrite Ein, El in Ef. cbn [negb with_proc pw_proc] in Ef.
    pose proof (same_inv _ _ (revoke_list_same env B"process exit" true (pe_caps e) w) Hi) as Hi'. rewrite unlink_keep in Ef by apply Hi'.
    set (s := pw_proc (revoke_list _ _ _ _ _)) in *.
    change (ak_process_find _ pid) with (ak_process_find (with_entries (table_keep (fun e => negb (pe_pid e =? pid)) (ps_entries s)) s) pid) in Ef.
    rewrite find_keep in Ef by done. destruct (ak_process_find s pid) as [x|] eqn:Ex; [|done]. apply find_lookup in Ex as [Ex _].
    apply table_lookup_spec in Ex as [_ Ex]; [|apply Hi']. change (ptr_of x) with (pe_pid x) in Ex. by rewrite Ex, Z.eqb_refl in Ef. }
  split; [done|]. split; [intros; unfold ak_process_has_cap; by rewrite Hnone|]. intros d Hd.
  assert (Hrev : ak_revocation_check (cs_rev (pw_caps w')) (tid (dc_cap d)) = true).
  { rewrite Ew, with_proc_caps. apply (list_revoked lo hi env _ true (pe_caps e) w ((fun d => tid (dc_cap d)) <$> pe_caps e)); try done.
    - apply Forall_fmap, Forall_forall. intros x Hx. by apply Htok.
    - intros x Hx. apply (eo_live e); [|done]. apply (pi_entries _ Hi). by apply table_lookup_spec in El as []; [|apply Hi].
    - intros x Hx. by apply (list_elem_of_fmap_2 (fun d => tid (dc_cap d))).
    - intros t (x & -> & Hx)%list_elem_of_fmap. by apply Htok.
    - by apply (list_elem_of_fmap_2 (fun d => tid (dc_cap d))).
    - right. by apply (list_elem_of_fmap_2 (fun d => tid (dc_cap d))). }
  split; [done|]. intros. unfold ak_capability_validate. destruct res; [|cbn; unfold AK_E_CAP_SCOPE; lia].
  destruct (Z.ltb_spec (ak_capability_verify raw_s (pw_caps w') (Some (dc_cap d)) now_verify alloc_mac) 0); [done|]. rewrite Hrev.
  cbn. unfold AK_E_CAP_REVOKED. lia.
Qed.
End Theorems.

(** ** An example: a parent, its child, and a delegated capability *)

Definition tree_rule (p : bytes) : ak_fs_rule_v2 := mk_fs_rule p true false.
Definition demo_policy_of (fs : list bytes) (tools : list ak_tool_rule_v2) : ak_policy_v2 :=
  mk_policy2 [] [] 0 [] false false (tree_rule <$> fs) [] [] tools [] [] [] (mk_budgets2 0 0 0 0 0) [] true false.
Definition parent_policy : ak_policy_v2 := demo_policy_of [B"/srv/**"] [mk_tool_rule2 B"read*" true].
Definition child_policy : ak_policy_v2 := demo_policy_of [B"/srv/data/**"] [mk_tool_rule2 B"read_file" true].
Definition reads_srv : ak_effect_req := mk_effect AK_E_FS_STAT 0 0 0 B"/srv/data/x" [] (mk_req_budget 0 0 0 0) 0.

Definition demo_renv : rev_env := mk_renv 2600 2600 true true (env_of good_io).
Definition demo_delenv : delegate_env := mk_delenv 2500 2500 2500 2500 (replicate 16 11) true true true true 2500.

Definition family : list proc_op :=
  [PInit None; PRegister 2000 (replicate 16 21) true 1 0 (Some parent_policy) 0; PRegister 2100 (replicate 16 22) true 2 1 None AK_SPAWN_FLAG_INHERIT_POLICY;
   PDelegate demo_delenv 1 2 (Some demo_cap) 1000].
Definition proc_run (ops : list proc_op) (w : pworld) : pworld := foldl (fun w o => proc_do cstr o w) w ops.
Definition boot_world : pworld := mk_pworld proc_boot demo_cs (boot []).
Definition family_world : pworld := proc_run family boot_world.

Lemma proc_run_inv ops w : proc_inv (pw_proc w) -> proc_inv (pw_proc (proc_run ops w)).
Proof. revert w. induction ops as [|o ops IH]; intros w Hi; [done|]. by apply IH, inv_do. Qed.

Lemma family_inv : proc_inv (pw_proc family_world).
Proof. apply proc_run_inv. by apply inv_empty. Qed.

Lemma scoped_demo fs tools :
  (forall p, p ∈ fs -> scope_pattern (cstr p)) -> (forall r, r ∈ tools -> tr2_allow r = true /\ (QM ∉ cstr (tr2_pattern r))) -> scoped (demo_policy_of fs tools).
Proof.
  intros Hf Ht. split; cbn; [|set_solver|done|lia]. intros r (p & -> & Hp)%list_elem_of_fmap. by apply Hf.
Qed.

Lemma scoped_parent : scoped parent_policy.
Proof.
  apply scoped_demo.
  - intros p ->%list_elem_of_singleton. exists (B"/srv/"). split; [split; apply (bool_decide_unpack _); vm_compute; exact I|by right].
  - intros r ->%list_elem_of_singleton. split; [done|]. apply (bool_decide_unpack _). vm_compute. exact I.
Qed.

Lemma scoped_child : scoped child_policy.
Proof.
  apply scoped_demo.
  - intros p ->%list_elem_of_singleton. exists (B"/srv/data/"). split; [split; apply (bool_decide_unpack _); vm_compute; exact I|by right].
  - intros r ->%list_elem_of_singleton. split; [done|]. apply (bool_decide_unpack _). vm_compute. exact I.
Qed.

(** The entry of the child. *)
Definition demo_entry (w : pworld) (pid : Z) : ak_process_entry :=
  default (mk_pentry 0 0 [] [] AK_PROC_STATE_NONE 0 0 0 None [] 0 false 0 0) (ak_process_find (pw_proc w) pid).
Definition demo_delegated : ak_delegated_cap := default (mk_dcap demo_cap 0 0 false) (pe_caps (demo_entry family_world 2) !! 0%nat).

Lemma family_caps : pe_caps (demo_entry family_world 2) = [demo_delegated].
Proof. vm_compute. reflexivity. Qed.

Lemma family_token : length (tid (dc_cap demo_delegated)) = 16%nat /\ ak_revocation_find_locked (cs_rev (pw_caps family_world)) (tid (dc_cap demo_delegated)) = None.
Proof. split; vm_compute; reflexivity. Qed.

Lemma privileges_only_shrink_witness :
  (ak_policy_v2_check (ak_process_get_policy (pw_proc family_world) 2) (Some reads_srv)).1 = true /\
  ak_process_get_parent (pw_proc (proc_do cstr (PSetPolicy 2 (Some child_policy)) family_world)) 2 = 1.
Proof.
  destruct (privileges_only_shrink cstr 2 [PSetPolicy 2 (Some child_policy)] family_world (proc_do cstr (PSetPolicy 2 (Some child_policy)) family_world)
    (demo_entry family_world 2) parent_policy reads_srv family_inv) as [H1 H2].
  - eapply lives_step; [vm_compute; reflexivity|]. eapply lives_end. vm_compute. reflexivity.
  - apply Forall_singleton. exact scoped_child.
  - vm_compute. reflexivity.
  - vm_compute. reflexivity.
  - exact scoped_parent.
  - apply (bool_decide_unpack _). vm_compute. exact I.
  - vm_compute. reflexivity.
  - split; [exact H1|]. rewrite H2. vm_compute. reflexivity.
Defined.

Lemma exit_revokes_delegations_witness :
  length (pe_caps (demo_entry family_world 2)) = 1%nat /\
  ak_revocation_check (cs_rev (pw_caps (ak_process_unregister (fun _ => demo_renv) family_world 2 0 0))) (tid (dc_cap demo_delegated)) = true.
Proof.
  split; [vm_compute; reflexivity|].
  refine (proj1 (proj2 (proj2 (exit_revokes_delegations cstr 2600 2600 (fun _ => demo_renv) family_world 2 0 0 (demo_entry family_world 2) family_inv
    _ _ _ _)) demo_delegated _)).
  - vm_compute. reflexivity.
  - apply (bool_decide_unpack _). vm_compute. exact I.
  - split_and!; [lia|lia|vm_compute; congruence|]. intros _. cbn. lia.
  - rewrite family_caps. intros d ->%list_elem_of_singleton. unfold keeps_until. destruct family_token as [-> ->]. by split.
  - rewrite family_caps. by left.
Defined.

(** ** Where the registry leaves its description *)

(** The run identifier is written after the token was signed: the delegated
    token does not verify. *)
Example delegated_token_rejected :
  ak_capability_verify cstr (pw_caps family_world) (Some (dc_cap demo_delegated)) 2600 true = AK_E_CAP_INVALID /\
  ak_capability_verify cstr (pw_caps family_world) (Some (with_run demo_run (dc_cap demo_delegated))) 2600 true = 0.
Proof. vm_compute. done. Qed.

(** "Same methods": the delegation is for every method, not for those of the
    capability. *)
Example delegation_drops_methods : used_methods demo_cap = [B"GET"] /\ used_methods (dc_cap demo_delegated) = [].
Proof. vm_compute. done. Qed.

(** A denial of the parent need not be one of the child. *)
Example subsumption_ignores_denials :
  let parent := demo_policy_of [] [mk_tool_rule2 B"shell" false; mk_tool_rule2 B"*" true] in
  let child := demo_policy_of [] [mk_tool_rule2 B"*" true] in
  ak_policy_is_subsumed (Some parent) (Some child) = true /\
  ak_policy_v2_check_tool (Some parent) (Some B"shell") = false /\ ak_policy_v2_check_tool (Some child) (Some B"shell") = true.
Proof. vm_compute. done. Qed.

(** Rules for domains, modules, models and programs are not compared. *)
Example subsumption_ignores_spawn :
  let parent := demo_policy_of [] [] in
  let child := mk_policy2 [] [] 0 [] false false [] [] [] [] [] [] [mk_spawn_rule B"/**" true false false false 0 0] (mk_budgets2 0 0 0 0 0) [] true false in
  ak_policy_is_subsumed (Some parent) (Some child) = true /\
  ak_policy_v2_check_spawn (Some parent) (Some B"/bin/sh") = false /\ ak_policy_v2_check_spawn (Some child) (Some B"/bin/sh") = true.
Proof. vm_compute. done. Qed.

(** Path patterns are compared with a matcher that ignores slashes. *)
Example subsumption_widens_paths :
  let parent := demo_policy_of [B"/srv/*"] [] in
  let child := demo_policy_of [B"/srv/**"] [] in
  ak_policy_is_subsumed (Some parent) (Some child) = true /\
  ak_policy_v2_check_fs (Some parent) (Some B"/srv/a/b") false = false /\ ak_policy_v2_check_fs (Some child) (Some B"/srv/a/b") false = true.
Proof. vm_compute. done. Qed.

(** A question mark of the parent covers a star of the child. *)
Example subsumption_widens_names :
  let parent := demo_policy_of [] [mk_tool_rule2 B"read?" true] in
  let child := demo_policy_of [] [mk_tool_rule2 B"read*" true] in
  ak_policy_is_subsumed (Some parent) (Some child) = true /\
  ak_policy_v2_check_tool (Some parent) (Some B"read_secret") = false /\ ak_policy_v2_check_tool (Some child) (Some B"read_secret") = true.
Proof. vm_compute. done. Qed.

(** Two processes that name each other as parent: the walk does not end. *)
Definition cycle_state : process_state :=
  pw_proc (proc_run [PInit None; PRegister 0 [] true 1 2 None 0; PRegister 0 [] true 2 1 None 0] boot_world).
Lemma descendant_diverges fuel : ak_process_is_descendant fuel cycle_state 3 1 = None.
Proof.
  assert (H : forall e, ak_process_find cycle_state 1 = Some e \/ ak_process_find cycle_state 2 = Some e -> walk_up fuel cycle_state 3 (Some e) = None).
  { induction fuel as [|fuel IH]; intros e [He|He]; vm_compute in He; injection He as <-; [done|done|..]; cbn [walk_up pe_parent_pid];
      match goal with |- context [ak_process_find ?s ?p] => destruct (ak_process_find s p) eqn:E end; [|by vm_compute in E| |by vm_compute in E];
      apply IH; auto. }
  unfold ak_process_is_descendant. cbn [Z.eqb orb Pos.eqb]. destruct (ak_process_find cycle_state 1) as [e|] eqn:E; [apply H; auto|by vm_compute in E].
Qed.

(** A process that exits without being unregistered keeps its tokens when its
    entry is recycled, and they stay counted. *)
Example zombie_keeps_tokens :
  let w := proc_run [PSetState 2 AK_PROC_STATE_EXITED; PCleanup] family_world in
  ak_process_find (pw_proc w) 2 = None /\ active_caps (ps_stats (pw_proc w)) = 1 /\ active_processes (ps_stats (pw_proc w)) = 2 /\
  ak_revocation_check (cs_rev (pw_caps w)) (tid (dc_cap demo_delegated)) = false.
Proof. vm_compute. done. Qed.

(** A process without a policy can take any. *)
Example no_policy_takes_any :
  let w := proc_run [PInit None; PRegister 0 [] true 1 0 None 0] boot_world in
  ak_process_get_policy (pw_proc w) 1 = None /\ (ak_process_set_policy (pw_proc w) 1 (Some parent_policy)).1 = 0.
Proof. vm_compute. done. Qed.

(** A request without a program passes with any capability to spawn. *)
Example null_program_authorised :
  let cap := mk_dcap (mk_cap AK_CAP_SPAWN (B"/bin/ls" ++ zeros 249) 7 [] 0 0 0 0 0 [] [] 0 []) 0 0 false in
  let e := mk_pentry 1 0 [] [] AK_PROC_STATE_RUNNING 0 0 0 None [cap] 1 false 0 0 in
  let s := mk_proc true (table_push (empty_table AK_PROCESS_MAX_ENTRIES) 1 e) 1 0 None zero_pstats in
  ak_process_has_cap 0 s 1 AK_CAP_SPAWN (Some B"/bin/sh") = false /\
  match ak_process_authorize_spawn 0 s 1 (mk_spawn None None) with Ret (ok, _, _) => ok = true | _ => False end.
Proof. vm_compute. done. Qed.

(** ** Spawning and ancestry *)

(** An authorised spawn has a registered parent with a capability or a rule for
    the program, room for one more child, and a child policy within its own. *)
Definition may_spawn (now : Z) (s : process_state) (parent_pid : Z) (req : ak_spawn_request) : Prop :=
  exists parent, ak_process_find s parent_pid = Some parent /\
    (ak_process_has_cap now s parent_pid AK_CAP_SPAWN (sp_program req) = true \/ ak_policy_v2_check_spawn (pe_policy parent) (sp_program req) = true) /\
    (forall p q, pe_policy parent = Some p -> sp_child_policy req = Some q -> ak_policy_is_subsumed (Some p) (Some q) = true) /\
    ak_process_count_children s parent_pid < AK_PROCESS_MAX_CHILDREN.

Lemma authorize_spec now s parent_pid req :
  match ak_process_authorize_spawn now s parent_pid req with
  | Ret (ok, d, s') => (ok = true <-> may_spawn now s parent_pid req) /\ de_allow d = ok /\ same_registry s s' /\
      (ok = false -> de_errno_equiv d ∈ [ESRCH; EPERM; EAGAIN] /\ de_missing_cap d <> [])
  | Oob => sp_program req = None /\ ~ may_spawn now s parent_pid req
  | Null => False
  end.
Proof.
  unfold ak_process_authorize_spawn, may_spawn. destruct (ak_process_find s parent_pid) as [e|] eqn:Ef.
  2:{ split_and!; [split; [done|by intros (? & ? & _)]|done|apply same_registry_refl|]. intros _. split; [set_solver|by vm_compute]. }
  destruct (ak_process_has_cap _ _ _ _ _) eqn:E1; [|destruct (ak_policy_v2_check_spawn _ _) eqn:E2]; cbn [negb andb].
  3:{ destruct (sp_program req) as [prog|]; [|split; [done|]; by intros (x & [= <-] & [?|?] & _); congruence].
      split_and!; [split; [done|]|done|apply same_registry_refl|].
      - intros (x & [= <-] & [?|?] & _); congruence.
      - intros _. split; [set_solver|by vm_compute]. }
  all: destruct (match sp_child_policy req with Some c => match pe_policy e with Some p => negb (ak_policy_is_subsumed (Some p) (Some c)) | None => false end | None => false end) eqn:E3.
  1,3: split_and!; [split; [done|]|done|apply same_registry_refl|intros _; split; [set_solver|by vm_compute]];
    intros (x & [= <-] & _ & Hsub & _); destruct (sp_child_policy req), (pe_policy e); try done; by rewrite (Hsub _ _ eq_refl eq_refl) in E3.
  all: destruct (Z.leb_spec AK_PROCESS_MAX_CHILDREN (ak_process_count_children s parent_pid)).
  1,3: split_and!; [split; [done|]|done|apply same_registry_refl|intros _; split; [set_solver|by vm_compute]]; intros (x & _ & _ & _ & ?); lia.
  all: split_and!; [split; [intros _|done]|done|apply same_on_stats|done]; exists e; split_and!; [done|by auto| |done];
    intros p q Ep Eq; rewrite Ep, Eq in E3; by destruct (ak_policy_is_subsumed _ _).
Qed.

(** Spawning is authorised exactly when the parent may spawn, and a child
    policy that passes the authorisation allows no file, connection or tool
    effect that the policy of the parent refuses.  The spawn itself always fails,
    and leaves the processes alone. *)
Theorem spawn_authorisation_correct now s parent_pid req :
  match ak_process_authorize_spawn now s parent_pid req with
  | Ret (ok, d, s') =>
      (ok = true <-> may_spawn now s parent_pid req) /\ de_allow d = ok /\ (ok = false -> de_missing_cap d <> []) /\
      (ok = true -> forall e p q, ak_process_find s parent_pid = Some e -> pe_policy e = Some p -> sp_child_policy req = Some q ->
         scoped p -> scoped q -> attenuates p q)
  | Oob => sp_program req = None
  | Null => False
  end /\
  match ak_process_spawn now s parent_pid (Some req) with
  | Ret (r, res, s') => r < 0 /\ sr_success res = false /\ sr_error_code res = - r /\ same_registry s s'
  | Oob => sp_program req = None
  | Null => False
  end.
Proof.
  split.
  - pose proof (authorize_spec now s parent_pid req) as Ha. destruct (ak_process_authorize_spawn _ _ _ _) as [[[ok d] s']| |]; [|by destruct Ha..].
    destruct Ha as (Hok & Hd & _ & Hn). split_and!; [done|done|by intros ?; apply Hn|].
    intros Ht e p q He Hp Hq Hsp Hsq. apply Hok in Ht as (e' & He' & _ & Hsub & _). rewrite He in He'. injection He' as <-.
    by apply subsumed_attenuates, Hsub.
  - unfold ak_process_spawn. cbv zeta. pose proof (authorize_spec now (on_pstats (count_spawns 1 0 0) s) parent_pid req) as Ha.
    destruct (ak_process_authorize_spawn _ _ _ _) as [[[ok d] s2]| |]; cbn [obind]; [|by destruct Ha..].
    destruct Ha as (_ & _ & Hs & Hn). assert (Hs' : same_registry s (on_pstats (count_spawns 0 0 1) s2)).
    { eapply same_registry_trans; [apply (same_on_stats (count_spawns 1 0 0))|]. eapply same_registry_trans; [exact Hs|]. apply same_on_stats. }
    destruct ok; cbn [negb sr_success sr_error_code]; [by split_and!|].
    destruct (Hn eq_refl) as [He _]. split_and!; [|done|lia|done].
    enough (0 < de_errno_equiv d) by lia. revert He. generalize (de_errno_equiv d). apply Forall_forall. repeat constructor.
Qed.

(** A process, or an ancestor of it, has the parent [p]. *)
Inductive ancestor (s : process_state) (p : Z) : Z -> Prop :=
| ancestor_parent c e : ak_process_find s c = Some e -> pe_parent_pid e = p -> ancestor s p c
| ancestor_up c e : ak_process_find s c = Some e -> ancestor s p (pe_parent_pid e) -> ancestor s p c.

Lemma walk_up_correct s p (rank : Z -> nat) fuel c e :
  (forall c e, ak_process_find s c = Some e -> (rank (pe_parent_pid e) < rank c)%nat) -> p <> 0 -> (rank c <= fuel)%nat ->
  ak_process_find s c = Some e -> exists b, walk_up fuel s p (Some e) = Some b /\ (b = true <-> ancestor s p c).
Proof.
  intros Hr Hp. revert c e. induction fuel as [|fuel IH]; intros c e Hf He; [specialize (Hr _ _ He); lia|]. cbn [walk_up].
  destruct (Z.eqb_spec (pe_parent_pid e) p) as [E|Hne]; [exists true; split; [done|]; split; [by intros; eapply ancestor_parent|done]|].
  assert (Hup : ancestor s p c <-> ancestor s p (pe_parent_pid e)).
  { split; [|by intros; eapply ancestor_up]. intros Ha. inversion Ha as [? e' He' Ep|? e' He' Ha']; subst; rewrite He in He'; injection He' as <-; done. }
  setoid_rewrite Hup. destruct (Z.eqb_spec (pe_parent_pid e) 0) as [E0|].
  - exists false. split; [done|]. split; [done|]. rewrite E0. intros Ha.
    assert (Hz : ak_process_find s 0 = None) by (unfold ak_process_find; by rewrite orb_true_r). inversion Ha; congruence.
  - destruct (ak_process_find s (pe_parent_pid e)) as [e'|] eqn:Ee'.
    + apply IH; [|done]. specialize (Hr _ _ He). lia.
    + exists false. split; [by destruct fuel|]. split; [done|]. intros Ha. inversion Ha; congruence.
Qed.

(** Where no process is its own ancestor, the walk up the tree ends and decides
    ancestry. *)
Theorem descendant_correct s p c (rank : Z -> nat) fuel :
  (forall c e, ak_process_find s c = Some e -> (rank (pe_parent_pid e) < rank c)%nat) -> p <> 0 -> p <> c -> (rank c <= fuel)%nat ->
  exists b, ak_process_is_descendant fuel s p c = Some b /\ (b = true <-> ancestor s p c).
Proof.
  intros Hr Hp Hne Hf. unfold ak_process_is_descendant. destruct (Z.eqb_spec p 0); [done|]. cbn [orb].
  assert (Hnone : ak_process_find s c = None -> exists b : bool, Some false = Some b /\ (b = true <-> ancestor s p c)).
  { intros Hn. exists false. split; [done|]. split; [done|]. intros Ha. inversion Ha; congruence. }
  destruct (Z.eqb_spec c 0) as [->|]; [apply Hnone; unfold ak_process_find; by rewrite orb_true_r|].
  destruct (Z.eqb_spec p c); [done|]. destruct (ak_process_find s c) as [e|] eqn:He; [by eapply walk_up_correct|].
  destruct fuel; by apply Hnone.
Qed.

Lemma descendant_correct_witness :
  exists b, ak_process_is_descendant 3 (pw_proc family_world) 1 2 = Some b /\ (b = true <-> ancestor (pw_proc family_world) 1 2).
Proof.
  apply (descendant_correct (pw_proc family_world) 1 2 Z.to_nat 3); [|lia|lia|lia].
  assert (H : forall e, e ∈ entries (ps_entries (pw_proc family_world)) -> (Z.to_nat (pe_parent_pid e) < Z.to_nat (pe_pid e))%nat)
    by (apply Forall_forall; apply (bool_decide_unpack _); vm_compute; exact I).
  intros c e [Hl _]%find_lookup. apply table_lookup_spec in Hl as [He Hc]; [|apply family_inv]. rewrite <-Hc. by apply H.
Defined.
