(* ===== verification/MsgQueue.v ===== *)
(** * Linked message queues ([src/src/agentic/ak_agent_ipc.c])

    The inbox of an agent is a singly linked list with a head and a tail
    pointer.  Its nodes are kept in a map from addresses; a node that is handed
    out or freed leaves the map.  Addresses come from an allocator, of which only
    freshness is used.

    The queue is represented by the list of its messages: enqueueing appends,
    dequeueing takes the first, a search takes the first message that fits, and
    all of them keep the tail pointer right. *)

From stdpp Require Import gmap.
From S2P Require Import Prelude.
#[local] Open Scope Z_scope.

(** What the code relies on: a new block is none of those in use. *)
Class Allocator := { new_addr : gset Z -> Z; new_addr_fresh : forall used, new_addr used ∉ used }.

(** The first address behind all of them. *)
Definition next_addr (used : gset Z) : Z := foldr Z.max 0 (elements used) + 1.

Lemma max_bound l x : x ∈ l -> x <= foldr Z.max 0 l.
Proof. induction l as [|y l IH]; [by intros ?%not_elem_of_nil|]. intros [->|Hx]%elem_of_cons; cbn; [lia|]. specialize (IH Hx). lia. Qed.

#[export] Instance next_allocator : Allocator.
Proof.
  refine {| new_addr := next_addr |}. intros used Hin. apply elem_of_elements in Hin.
  pose proof (max_bound _ _ Hin). unfold next_addr in *. lia.
Defined.

Section Queue.
Context {M : Type}.

Record node := mk_node { nd_msg : M; nd_next : option Z }.
Record inbox := mk_inbox { ib_nodes : gmap Z node; ib_head : option Z; ib_tail : option Z }.

Definition empty_inbox : inbox := mk_inbox ∅ None None.
Definition link (next : option Z) (n : node) : node := mk_node (nd_msg n) next.

Definition enqueue (a : Z) (m : M) (q : inbox) : inbox :=
  let nodes := <[a := mk_node m None]> (ib_nodes q) in
  match ib_tail q with
  | Some t => mk_inbox (alter (link (Some a)) t nodes) (ib_head q) (Some a)
  | None => mk_inbox nodes (Some a) (Some a)
  end.

Definition dequeue (q : inbox) : option (M * inbox) :=
  match ib_head q with
  | None => None
  | Some a =>
      match ib_nodes q !! a with
      | None => None
      | Some n => Some (nd_msg n, mk_inbox (delete a (ib_nodes q)) (nd_next n) (match nd_next n with None => None | Some _ => ib_tail q end))
      end
  end.

(** The walk for a message that fits: the node before it, if any, and its own. *)
Fixpoint search (fuel : nat) (fits : M -> bool) (nodes : gmap Z node) (prev cur : option Z) : option (option Z * Z * node) :=
  match fuel, cur with
  | S fuel, Some a =>
      match nodes !! a with
      | Some n => if fits (nd_msg n) then Some (prev, a, n) else search fuel fits nodes (Some a) (nd_next n)
      | None => None
      end
  | _, _ => None
  end.

Definition dequeue_if (fits : M -> bool) (q : inbox) : option (M * inbox) :=
  match search (size (ib_nodes q)) fits (ib_nodes q) None (ib_head q) with
  | None => None
  | Some (prev, a, n) =>
      let nodes := match prev with Some p => alter (link (nd_next n)) p (ib_nodes q) | None => ib_nodes q end in
      Some (nd_msg n, mk_inbox (delete a nodes) (match prev with Some _ => ib_head q | None => nd_next n end)
                        (if decide (ib_tail q = Some a) then prev else ib_tail q))
  end.

(** Freeing every node of the list. *)
Fixpoint free_nodes (fuel : nat) (nodes : gmap Z node) (cur : option Z) : gmap Z node :=
  match fuel, cur with
  | S fuel, Some a => match nodes !! a with Some n => free_nodes fuel (delete a nodes) (nd_next n) | None => nodes end
  | _, _ => nodes
  end.
Definition drain (q : inbox) : inbox := mk_inbox (free_nodes (size (ib_nodes q)) (ib_nodes q) (ib_head q)) None None.

(** ** Representation *)

Definition first_addr (l : list (Z * M)) : option Z := fst <$> head l.
Definition last_addr (l : list (Z * M)) : option Z := fst <$> last l.

Fixpoint nodes_of (l : list (Z * M)) : gmap Z node :=
  match l with [] => ∅ | (a, m) :: l' => <[a := mk_node m (first_addr l')]> (nodes_of l') end.

Definition rep_at (q : inbox) (l : list (Z * M)) : Prop :=
  NoDup (fst <$> l) /\ ib_nodes q = nodes_of l /\ ib_head q = first_addr l /\ ib_tail q = last_addr l.
Definition rep (q : inbox) (ms : list M) : Prop := exists l, rep_at q l /\ ms = snd <$> l.

Lemma rep_empty : rep empty_inbox [].
Proof. exists []. repeat split. constructor. Qed.

Lemma dom_nodes_of l : dom (nodes_of l) = list_to_set (fst <$> l) :> gset Z.
Proof. induction l as [|[a m] l IH]; cbn; [by rewrite dom_empty_L|]. rewrite dom_insert_L, IH. done. Qed.

Lemma nodes_of_None l a : (a ∉ (fst <$> l)) -> nodes_of l !! a = None.
Proof. intros Ha. apply not_elem_of_dom. rewrite dom_nodes_of. by rewrite elem_of_list_to_set. Qed.

Lemma size_nodes_of l : NoDup (fst <$> l) -> size (nodes_of l) = length l.
Proof.
  induction l as [|[a m] l IH]; intros Hn; [apply map_size_empty|]. apply NoDup_cons in Hn as [Ha Hn].
  cbn [nodes_of length]. rewrite map_size_insert_None by (by apply nodes_of_None). by rewrite IH.
Qed.

Lemma first_addr_app l1 l2 : first_addr (l1 ++ l2) = match l1 with [] => first_addr l2 | _ => first_addr l1 end.
Proof. by destruct l1. Qed.

Lemma nodup_addr (a : Z) (m : M) l : NoDup (fst <$> (a, m) :: l) -> (a ∉ (fst <$> l)) /\ NoDup (fst <$> l).
Proof. rewrite fmap_cons. apply NoDup_cons. Qed.

Lemma last_addr_cons x y l : last_addr (x :: y :: l) = last_addr (y :: l).
Proof. done. Qed.

Lemma last_addr_some x l : exists t, last_addr (x :: l) = Some t.
Proof. unfold last_addr. destruct (last (x :: l)) eqn:E; [by eexists|]. by apply last_None in E. Qed.

Lemma last_addr_in l t : last_addr l = Some t -> t ∈ (fst <$> l).
Proof.
  unfold last_addr. destruct (last l) as [x|] eqn:E; [|done]. intros [= <-]. apply list_elem_of_fmap_2.
  apply last_Some in E as [l' ->]. set_solver.
Qed.

Lemma lookup_nodes_of pre a m l : NoDup (fst <$> pre ++ (a, m) :: l) -> nodes_of (pre ++ (a, m) :: l) !! a = Some (mk_node m (first_addr l)).
Proof.
  induction pre as [|[b n] pre IH]; cbn [app nodes_of]; intros Hn; [by rewrite lookup_insert_eq|].
  apply nodup_addr in Hn as [Hb Hn]. rewrite lookup_insert_ne by (intros ->; apply Hb, (list_elem_of_fmap_2 fst _ (a, m)), elem_of_app; right; left). by apply IH.
Qed.

Lemma nodes_of_snoc l a m :
  NoDup (fst <$> l) -> (a ∉ (fst <$> l)) ->
  nodes_of (l ++ [(a, m)]) =
  match last_addr l with
  | Some t => alter (link (Some a)) t (<[a := mk_node m None]> (nodes_of l))
  | None => <[a := mk_node m None]> (nodes_of l)
  end.
Proof.
  induction l as [|[b n] l IH]; intros Hn Ha; [done|]. apply nodup_addr in Hn as [Hb Hn].
  rewrite fmap_cons in Ha; cbn [fst] in Ha. apply not_elem_of_cons in Ha as [Hab Ha]. cbn [app nodes_of]. rewrite (IH Hn Ha). destruct l as [|y l].
  - cbn. rewrite (insert_insert_ne _ a b) by done. by rewrite alter_insert_eq.
  - rewrite last_addr_cons. destruct (last_addr_some y l) as [t Et]. rewrite Et.
    assert (t <> b) by (intros ->; by apply Hb, last_addr_in). rewrite (insert_insert_ne _ a b), (alter_insert_ne _ _ b) by done. by destruct y.
Qed.

Lemma nodes_of_unlink l1 a m l2 :
  NoDup (fst <$> l1 ++ (a, m) :: l2) ->
  nodes_of (l1 ++ l2) =
  delete a (match last_addr l1 with
            | Some p => alter (link (first_addr l2)) p (nodes_of (l1 ++ (a, m) :: l2))
            | None => nodes_of (l1 ++ (a, m) :: l2)
            end).
Proof.
  induction l1 as [|[b n] l1 IH]; intros Hn; cbn [app] in Hn; apply nodup_addr in Hn as [Hb Hn].
  { cbn. by rewrite delete_insert_id by (by apply nodes_of_None). }
  assert (b <> a) by (intros ->; apply Hb, (list_elem_of_fmap_2 fst _ (a, m)), elem_of_app; right; left). cbn [app nodes_of]. rewrite (IH Hn). destruct l1 as [|y l1].
  - cbn [last_addr last fmap option_fmap option_map app nodes_of fst]. rewrite alter_insert_eq, (delete_insert_ne _ a b) by congruence.
    by rewrite delete_insert_id by (apply nodes_of_None; by apply nodup_addr in Hn as []).
  - rewrite last_addr_cons. destruct (last_addr_some y l1) as [t Et]. rewrite Et.
    assert (t <> b). { intros ->. apply Hb. rewrite fmap_app, elem_of_app. left. by apply last_addr_in. }
    rewrite (alter_insert_ne _ _ b), (delete_insert_ne _ a b) by congruence. by destruct y.
Qed.

(** ** The operations on representations *)

Lemma enqueue_at q l a m : rep_at q l -> (a ∉ dom (ib_nodes q)) -> rep_at (enqueue a m q) (l ++ [(a, m)]).
Proof.
  intros (Hn & Hd & Hh & Ht) Ha. rewrite Hd, dom_nodes_of, elem_of_list_to_set in Ha.
  assert (Hlast : last_addr (l ++ [(a, m)]) = Some a) by (unfold last_addr; by rewrite last_snoc).
  assert (Hno : NoDup (fst <$> l ++ [(a, m)])) by (rewrite fmap_app; apply NoDup_app; split_and!; [done|set_solver|apply NoDup_singleton]).
  unfold enqueue, rep_at. rewrite Ht, Hd, Hlast, nodes_of_snoc by done.
  destruct l as [|x l]; [done|]. by destruct (last_addr_some x l) as [t ->].
Qed.

Lemma enqueue_rep `{Allocator} q ms m : rep q ms -> rep (enqueue (new_addr (dom (ib_nodes q))) m q) (ms ++ [m]).
Proof.
  intros (l & Hl & ->). eexists. split; [eapply enqueue_at; [exact Hl|apply new_addr_fresh]|]. by rewrite fmap_app.
Qed.

Lemma dequeue_rep q ms :
  rep q ms -> match dequeue q with None => ms = [] | Some (m, q') => exists ms', ms = m :: ms' /\ rep q' ms' end.
Proof.
  intros (l & (Hn & Hd & Hh & Ht) & ->). unfold dequeue. rewrite Hh. destruct l as [|[a m] l]; [done|]. cbn [first_addr head fmap option_fmap option_map fst].
  rewrite Hd. pose proof (lookup_nodes_of [] a m l Hn) as Hl. cbn [app] in Hl. rewrite Hl. cbn [nd_msg nd_next].
  exists (snd <$> l). split; [done|]. exists l. split; [|done]. pose proof Hn as Hn'. apply nodup_addr in Hn' as [Ha Hn'].
  split_and!; [done| |done|].
  - cbn. by rewrite delete_insert_id by (by apply nodes_of_None).
  - cbn [ib_tail]. rewrite Ht. by destruct l.
Qed.

Lemma search_spec fits pre l fuel :
  NoDup (fst <$> pre ++ l) -> (length l <= fuel)%nat ->
  match search fuel fits (nodes_of (pre ++ l)) (last_addr pre) (first_addr l) with
  | None => Forall (fun x => fits (snd x) = false) l
  | Some (p, a, n) => exists l1 m l2, l = l1 ++ (a, m) :: l2 /\ Forall (fun x => fits (snd x) = false) l1 /\ fits m = true /\
      p = last_addr (pre ++ l1) /\ n = mk_node m (first_addr l2)
  end.
Proof.
  revert pre fuel. induction l as [|[a m] l IH]; intros pre fuel Hn Hf; [destruct fuel; constructor|].
  destruct fuel as [|fuel]; [cbn in Hf; lia|]. cbn [search first_addr head fmap option_fmap option_map fst].
  rewrite lookup_nodes_of by done. cbn [nd_msg nd_next]. destruct (fits m) eqn:Em.
  { exists [], m, l. rewrite app_nil_r. split_and!; [done|constructor|done|done|done]. }
  specialize (IH (pre ++ [(a, m)]) fuel). rewrite <-app_assoc in IH. specialize (IH Hn ltac:(cbn in Hf; lia)).
  assert (E : last_addr (pre ++ [(a, m)]) = Some a) by (unfold last_addr; by rewrite last_snoc). rewrite E in IH. cbn [app] in IH.
  destruct (search _ _ _ _ _) as [[[p a'] n]|]; [|by constructor].
  destruct IH as (l1 & m' & l2 & -> & H1 & H2 & -> & ->). exists ((a, m) :: l1), m', l2. rewrite <-app_assoc. split_and!; [done|by constructor|done..].
Qed.

Lemma last_addr_app l x l' : last_addr (l ++ x :: l') = last_addr (x :: l').
Proof. unfold last_addr. by rewrite last_app_cons. Qed.

Lemma dequeue_if_rep fits q ms :
  rep q ms ->
  match dequeue_if fits q with
  | None => Forall (fun m => fits m = false) ms
  | Some (m, q') => exists ms1 ms2, ms = ms1 ++ m :: ms2 /\ Forall (fun m => fits m = false) ms1 /\ fits m = true /\ rep q' (ms1 ++ ms2)
  end.
Proof.
  intros (l & (Hn & Hd & Hh & Ht) & ->). unfold dequeue_if. rewrite Hd, Hh, size_nodes_of by done.
  pose proof (search_spec fits [] l (length l) Hn ltac:(done)) as Hs. cbn [app] in Hs. change (last_addr []) with (@None Z) in Hs.
  destruct (search _ _ _ _ _) as [[[p a] n]|]; [|by rewrite Forall_fmap].
  destruct Hs as (l1 & m & l2 & -> & Hf & Hm & -> & ->). cbn [nd_msg nd_next].
  exists (snd <$> l1), (snd <$> l2). split_and!; [by rewrite fmap_app|by rewrite Forall_fmap|done|].
  exists (l1 ++ l2). split; [|by rewrite fmap_app]. pose proof Hn as Hn'. rewrite fmap_app, NoDup_app in Hn'. destruct Hn' as (H1 & H2 & H3).
  apply nodup_addr in H3 as [Ha H3].
  assert (Hlast : forall l a', last_addr l = Some a' -> a' ∈ (fst <$> l)) by (intros; by apply last_addr_in).
  split_and!; cbn [ib_nodes ib_head ib_tail].
  - rewrite fmap_app. apply NoDup_app. split_and!; [done|set_solver|done].
  - symmetry. by apply nodes_of_unlink.
  - destruct l1 as [|x l1]; [done|]. by destruct (last_addr_some x l1) as [t ->].
  - rewrite Ht, last_addr_app. destruct l2 as [|y l2].
    + rewrite app_nil_r. by rewrite decide_True.
    + rewrite last_addr_cons, last_addr_app. rewrite decide_False; [done|]. intros E. apply Ha. cbn [snd fst]. by apply last_addr_in.
Qed.

Lemma drain_rep q ms : rep q ms -> drain q = empty_inbox.
Proof.
  intros (l & (Hn & Hd & Hh & Ht) & _). unfold drain. rewrite Hd, Hh, size_nodes_of by done. clear Hd Hh Ht. unfold empty_inbox. f_equal.
  induction l as [|[a m] l IH]; [done|]. pose proof (lookup_nodes_of [] a m l Hn) as Hl. cbn [app] in Hl.
  cbn [length free_nodes first_addr head fmap option_fmap option_map fst]. rewrite Hl. cbn [nd_next nodes_of]. apply nodup_addr in Hn as [Ha Hn].
  rewrite delete_insert_id by (by apply nodes_of_None). by apply IH.
Qed.

End Queue.
Arguments node : clear implicits.
Arguments inbox : clear implicits.
