(* ===== verification/Mailbox.v ===== *)
(** * Mailboxes between agents ([src/src/agentic/ak_agent_ipc.c])

    Agents register in a table of buckets hashed by their number, with a mailbox
    each; they send, broadcast, receive, discover each other, and keep a
    hierarchy of parents and children.  An entry that is unregistered stays in
    its bucket and is skipped by every search.  The inbox is a linked queue of
    [MsgQueue].  Every operation is one step, except that a receiver polls: its
    call is an entry, polls, and an exit, between which other calls run.  Pointers
    that every caller passes are not optional; the mailbox of an entry is never
    NULL.  Clock readings and the outcomes of allocations are arguments, and the
    addresses of blocks come from an [Allocator].

    The specification is a map from agents to bounded queues of messages.
    Theorems: the mailboxes refine it along every run; a message is delivered
    only between parent and child or under a capability and the policy, and shows
    its sender; waiting ends. *)

From stdpp Require Import gmap.
From S2P Require Import Prelude Pattern Json PathGlob PolicyV2 CanonPath FdTable Record Context Effects PtrTable MsgQueue.
#[local] Open Scope Z_scope.

Definition REGISTRY_HASH_SIZE : nat := 256.
Definition AK_IPC_MAX_NAME_LEN : Z := 64.
Definition AK_IPC_MAX_PAYLOAD_SIZE : Z := 64 * 1024.
Definition AK_IPC_DEFAULT_INBOX_LIMIT : Z := 100.
Definition AK_IPC_BROADCAST_LIMIT : nat := 100.
Definition AK_IPC_MSG_TYPE_RESPONSE : Z := 2.
Definition AK_IPC_FLAG_URGENT : Z := 1.
Definition AK_IPC_FLAG_NEEDS_REPLY : Z := 2.
Definition AK_IPC_FLAG_BROADCAST : Z := 4.
Definition AK_IPC_FLAG_FROM_PARENT : Z := 8.
Definition AK_IPC_FLAG_FROM_CHILD : Z := 16.
Definition AK_E_IPC_NOT_INIT : Z := -4600.
Definition AK_E_IPC_NO_MAILBOX : Z := -4601.
Definition AK_E_IPC_MAILBOX_FULL : Z := -4602.
Definition AK_E_IPC_NO_RECIPIENT : Z := -4603.
Definition AK_E_IPC_MSG_TOO_LARGE : Z := -4604.
Definition AK_E_IPC_NOT_REGISTERED : Z := -4605.
Definition AK_E_IPC_ALREADY_REGISTERED : Z := -4606.
Definition AK_E_IPC_NO_CAPABILITY : Z := -4607.
Definition AK_E_IPC_PEER_DENIED : Z := -4609.
Definition AK_E_IPC_NAME_EXISTS : Z := -4610.
Definition AK_E_IPC_NAME_TOO_LONG : Z := -4611.

(** ** Data *)

Record ak_ipc_message := mk_message {
  msg_id : Z; msg_sender_pid : Z; msg_sender_run_id : bytes; msg_receiver_pid : Z; msg_timestamp_ns : Z;
  msg_type : Z; msg_flags : Z; msg_correlation_id : Z; msg_payload : option bytes }.

Record ak_agent_mailbox := mk_mailbox {
  mb_agent_pid : Z; mb_inbox : inbox ak_ipc_message; mb_inbox_count : Z; mb_inbox_limit : Z; mb_urgent_count : Z;
  mb_messages_received : Z; mb_messages_dropped : Z; mb_waiter_count : Z; mb_wake_pending : bool }.

(** [en_addr] is the address of the entry; the arrays of children and peers are
    lists, with the capacity of the former. *)
Record ak_agent_registry_entry := mk_agent_entry {
  en_addr : Z; en_pid : Z; en_run_id : bytes; en_name : bytes; en_mailbox : ak_agent_mailbox;
  en_parent_pid : Z; en_children : list Z; en_child_capacity : Z; en_discoverable : bool; en_active : bool; en_registered_ns : Z;
  en_has_ipc_cap : bool; en_has_broadcast_cap : bool; en_allowed_peers : option (list Z) }.

Inductive ipc_counter :=
| agents_registered | agents_unregistered | agents_active | messages_sent | messages_received | messages_dropped | messages_broadcast
| send_failures | recv_timeouts | capability_denials | peer_denials | discover_requests | discover_matches.
#[global] Instance ipc_counter_eq : EqDecision ipc_counter.
Proof. solve_decision. Defined.

Definition ipc_stats : Type := ipc_counter -> Z.
Definition add_to (k : ipc_counter) (n : Z) (st : ipc_stats) : ipc_stats := fun k' => if decide (k' = k) then u64 (st k + n) else st k'.

Record ipc_state := mk_ipc_state {
  is_initialized : bool; is_registry : list (list ak_agent_registry_entry); is_msg_id_counter : Z; is_stats : ipc_stats }.

(** The fields of an agent context that are read here; of the parent, its pid. *)
Record agent_ref := mk_agent { ag_pid : bytes; ag_run_id : bytes; ag_parent : option bytes }.

(** The module, with the context of the current thread and the effects gate. *)
Record iworld := mk_iworld { iw_ipc : ipc_state; iw_mod : ctx_module; iw_ctx : option ak_ctx; iw_eff : effects_state }.

Definition with_ipc (s : ipc_state) (w : iworld) : iworld := mk_iworld s (iw_mod w) (iw_ctx w) (iw_eff w).
Definition with_registry (t : list (list ak_agent_registry_entry)) (s : ipc_state) : ipc_state :=
  mk_ipc_state (is_initialized s) t (is_msg_id_counter s) (is_stats s).
Definition tally (k : ipc_counter) (n : Z) (s : ipc_state) : ipc_state :=
  mk_ipc_state (is_initialized s) (is_registry s) (is_msg_id_counter s) (add_to k n (is_stats s)).
Definition with_mailbox (f : ak_agent_mailbox -> ak_agent_mailbox) (e : ak_agent_registry_entry) : ak_agent_registry_entry :=
  mk_agent_entry (en_addr e) (en_pid e) (en_run_id e) (en_name e) (f (en_mailbox e)) (en_parent_pid e) (en_children e) (en_child_capacity e)
    (en_discoverable e) (en_active e) (en_registered_ns e) (en_has_ipc_cap e) (en_has_broadcast_cap e) (en_allowed_peers e).
Definition with_parent (p : Z) (e : ak_agent_registry_entry) : ak_agent_registry_entry :=
  mk_agent_entry (en_addr e) (en_pid e) (en_run_id e) (en_name e) (en_mailbox e) p (en_children e) (en_child_capacity e)
    (en_discoverable e) (en_active e) (en_registered_ns e) (en_has_ipc_cap e) (en_has_broadcast_cap e) (en_allowed_peers e).
Definition with_children (l : list Z) (capacity : Z) (e : ak_agent_registry_entry) : ak_agent_registry_entry :=
  mk_agent_entry (en_addr e) (en_pid e) (en_run_id e) (en_name e) (en_mailbox e) (en_parent_pid e) l capacity
    (en_discoverable e) (en_active e) (en_registered_ns e) (en_has_ipc_cap e) (en_has_broadcast_cap e) (en_allowed_peers e).
Definition with_ipc_caps (ipc broadcast : bool) (peers : option (list Z)) (e : ak_agent_registry_entry) : ak_agent_registry_entry :=
  mk_agent_entry (en_addr e) (en_pid e) (en_run_id e) (en_name e) (en_mailbox e) (en_parent_pid e) (en_children e) (en_child_capacity e)
    (en_discoverable e) (en_active e) (en_registered_ns e) ipc broadcast peers.

(** ** Helpers *)

Definition hash_pid (pid : Z) : Z :=
  let h := Z.lxor pid (Z.shiftr pid 33) in
  let h := u64 (h * 0xff51afd7ed558ccd) in
  let h := Z.lxor h (Z.shiftr h 33) in
  Z.land h 255.

#[export] Instance agent_ptr : HasPtr ak_agent_registry_entry := en_pid.
#[export] Instance agent_hash : KeyHash ak_agent_registry_entry := hash_pid.

Definition get_agent_pid (pid : bytes) : Z := le_dec (take 8 pid).
Definition get_agent_run_id (ctx : agent_ref) : bytes := take 16 (ag_run_id ctx).
Definition agent_number (ctx : agent_ref) : Z := get_agent_pid (ag_pid ctx).

Fixpoint find_live (c : list ak_agent_registry_entry) (pid : Z) : option ak_agent_registry_entry :=
  match c with
  | [] => None
  | e :: c' => if (en_pid e =? pid) && en_active e then Some e else find_live c' pid
  end.
Definition lookup_entry (t : list (list ak_agent_registry_entry)) (pid : Z) : option ak_agent_registry_entry :=
  match t !! bucket_of t pid with Some c => find_live c pid | None => None end.

(** A write through the pointer that the search returned. *)
Fixpoint alter_live (f : ak_agent_registry_entry -> ak_agent_registry_entry) (c : list ak_agent_registry_entry) (pid : Z) :=
  match c with
  | [] => []
  | e :: c' => if (en_pid e =? pid) && en_active e then f e :: c' else e :: alter_live f c' pid
  end.
Definition update_entry (f : ak_agent_registry_entry -> ak_agent_registry_entry) (pid : Z) (t : list (list ak_agent_registry_entry)) :=
  alter (fun c => alter_live f c pid) (bucket_of t pid) t.
Definition on_entry (f : ak_agent_registry_entry -> ak_agent_registry_entry) (pid : Z) (s : ipc_state) : ipc_state :=
  with_registry (update_entry f pid (is_registry s)) s.

Definition next_msg_id (s : ipc_state) : Z * ipc_state :=
  let id := u64 (is_msg_id_counter s + 1) in (id, mk_ipc_state (is_initialized s) (is_registry s) id (is_stats s)).

(** The clock is a [timestamp], not milliseconds. *)
Definition get_timestamp_ns (now : Z) : Z := u64 (now * 1000000).

Definition STAR : Z := 42.

(** Texts are given without their NUL. *)
Definition name_matches_pattern (name pattern : bytes) : bool :=
  match pattern with
  | [] => false
  | c :: suffix =>
      if (length pattern =? 1)%nat && (c =? STAR) then true
      else if c =? STAR then
        if (length name <? length suffix)%nat then false
        else bytes_eqb (drop (length name - length suffix) name) suffix
      else if default 0 (last pattern) =? STAR then
        let prefix_len := (length pattern - 1)%nat in
        if (length name <? prefix_len)%nat then false
        else bytes_eqb (take prefix_len name) (take prefix_len pattern)
      else bytes_eqb name pattern
  end.

(** ** Initialisation *)

Definition no_stats : ipc_stats := fun _ => 0.

Definition ak_agent_ipc_init (now_ms : Z) (s : ipc_state) : Z * ipc_state :=
  if is_initialized s then (0, s)
  else (0, mk_ipc_state true (empty_table REGISTRY_HASH_SIZE) (Z.lxor now_ms 0x1234567890ABCDEF) no_stats).

Definition ak_agent_ipc_shutdown (s : ipc_state) : ipc_state :=
  if negb (is_initialized s) then s
  else mk_ipc_state false (empty_table REGISTRY_HASH_SIZE) (is_msg_id_counter s) (is_stats s).

(** ** Registration *)

Record register_env := mk_renv { rg_entry : bool; rg_mailbox : bool; rg_now : Z }.

Definition new_mailbox (pid : Z) : ak_agent_mailbox := mk_mailbox pid empty_inbox 0 AK_IPC_DEFAULT_INBOX_LIMIT 0 0 0 0 false.

Section Alloc.
Context `{Allocator}.

Definition used_addrs (t : list (list ak_agent_registry_entry)) : gset Z := list_to_set (en_addr <$> entries t).

Definition ak_agent_register (env : register_env) (s : ipc_state) (ctx : option agent_ref) (name : option bytes) (discoverable : bool) : Z * ipc_state :=
  if negb (is_initialized s) then (AK_E_IPC_NOT_INIT, s)
  else
    match ctx, name with
    | None, _ | _, None => (- EINVAL, s)
    | Some ctx, Some name =>
        let name := cstr name in
        let pid := agent_number ctx in
        let t := is_registry s in
        if AK_IPC_MAX_NAME_LEN <=? Z.of_nat (length name) then (AK_E_IPC_NAME_TOO_LONG, s)
        else if pid =? 0 then (- EINVAL, s)
        else if bool_decide (is_Some (lookup_entry t pid)) then (AK_E_IPC_ALREADY_REGISTERED, s)
        else if discoverable && existsb (fun e => en_active e && en_discoverable e && bytes_eqb (en_name e) name) (entries t) then (AK_E_IPC_NAME_EXISTS, s)
        else if negb (rg_entry env) then (- ENOMEM, s)
        else if negb (rg_mailbox env) then (- ENOMEM, s)
        else
          let e := mk_agent_entry (new_addr (used_addrs t)) pid (get_agent_run_id ctx) name (new_mailbox pid)
                     (match ag_parent ctx with Some p => get_agent_pid p | None => 0 end) [] 0 discoverable true (get_timestamp_ns (rg_now env))
                     false false None in
          (0, tally agents_active 1 (tally agents_registered 1 (with_registry (table_push t pid e) s)))
    end.

(** The entry is marked, its messages are freed, and it keeps its place. *)
Definition emptied (mb : ak_agent_mailbox) : ak_agent_mailbox :=
  mk_mailbox (mb_agent_pid mb) (drain (mb_inbox mb)) 0 (mb_inbox_limit mb) (mb_urgent_count mb) (mb_messages_received mb)
    (mb_messages_dropped mb) (mb_waiter_count mb) (mb_wake_pending mb).
Definition retire (e : ak_agent_registry_entry) : ak_agent_registry_entry :=
  mk_agent_entry (en_addr e) (en_pid e) (en_run_id e) (en_name e) (emptied (en_mailbox e)) (en_parent_pid e) (en_children e) (en_child_capacity e)
    (en_discoverable e) false (en_registered_ns e) false false None.

Definition ak_agent_unregister (s : ipc_state) (ctx : option agent_ref) : Z * ipc_state :=
  if negb (is_initialized s) then (AK_E_IPC_NOT_INIT, s)
  else
    match ctx with
    | None => (- EINVAL, s)
    | Some ctx =>
        let pid := agent_number ctx in
        match lookup_entry (is_registry s) pid with
        | None => (AK_E_IPC_NOT_REGISTERED, s)
        | Some _ => (0, tally agents_active (-1) (tally agents_unregistered 1 (on_entry retire pid s)))
        end
    end.

(** ** Hierarchy *)

Definition ak_agent_is_parent_of (s : ipc_state) (sender_pid receiver_pid : Z) : bool :=
  is_initialized s && match lookup_entry (is_registry s) receiver_pid with Some r => en_parent_pid r =? sender_pid | None => false end.
Definition ak_agent_is_child_of (s : ipc_state) (sender_pid receiver_pid : Z) : bool :=
  is_initialized s && match lookup_entry (is_registry s) sender_pid with Some e => en_parent_pid e =? receiver_pid | None => false end.

(** [grow] is the outcome of the allocation of a larger array. *)
Definition ak_agent_add_child (grow : bool) (s : ipc_state) (parent_ctx : option agent_ref) (child_pid : Z) : Z * ipc_state :=
  if negb (is_initialized s) then (AK_E_IPC_NOT_INIT, s)
  else
    match parent_ctx with
    | None => (- EINVAL, s)
    | Some ctx =>
        let parent_pid := agent_number ctx in
        if negb (bool_decide (is_Some (lookup_entry (is_registry s) parent_pid))) then (AK_E_IPC_NOT_REGISTERED, s)
        else
          let s := on_entry (with_parent parent_pid) child_pid s in
          match lookup_entry (is_registry s) parent_pid with
          | None => (AK_E_IPC_NOT_REGISTERED, s)
          | Some parent =>
              let full := en_child_capacity parent <=? Z.of_nat (length (en_children parent)) in
              if full && negb grow then (- ENOMEM, s)
              else
                let capacity := if full then (if en_child_capacity parent =? 0 then 8 else u32 (en_child_capacity parent * 2)) else en_child_capacity parent in
                (0, on_entry (with_children (en_children parent ++ [child_pid]) capacity) parent_pid s)
          end
    end.

Fixpoint remove_first (x : Z) (l : list Z) : list Z :=
  match l with [] => [] | y :: l' => if y =? x then l' else y :: remove_first x l' end.

Definition ak_agent_remove_child (s : ipc_state) (parent_ctx : option agent_ref) (child_pid : Z) : Z * ipc_state :=
  if negb (is_initialized s) then (AK_E_IPC_NOT_INIT, s)
  else
    match parent_ctx with
    | None => (- EINVAL, s)
    | Some ctx =>
        let parent_pid := agent_number ctx in
        match lookup_entry (is_registry s) parent_pid with
        | None => (AK_E_IPC_NOT_REGISTERED, s)
        | Some parent =>
            let s := on_entry (with_children (remove_first child_pid (en_children parent)) (en_child_capacity parent)) parent_pid s in
            match lookup_entry (is_registry s) child_pid with
            | Some child => if en_parent_pid child =? parent_pid then (0, on_entry (with_parent 0) child_pid s) else (0, s)
            | None => (0, s)
            end
        end
    end.

Definition ak_agent_get_parent (s : ipc_state) (ctx : option agent_ref) : Z :=
  if negb (is_initialized s) then AK_E_IPC_NOT_INIT
  else match ctx with
       | None => - EINVAL
       | Some ctx => match lookup_entry (is_registry s) (agent_number ctx) with Some e => s64 (en_parent_pid e) | None => AK_E_IPC_NOT_REGISTERED end
       end.

(** The result and the pids written. *)
Definition ak_agent_get_children (s : ipc_state) (ctx : option agent_ref) (max_pids : Z) : Z * list Z :=
  if negb (is_initialized s) then (AK_E_IPC_NOT_INIT, [])
  else match ctx with
       | None => (- EINVAL, [])
       | Some ctx =>
           if max_pids =? 0 then (- EINVAL, [])
           else match lookup_entry (is_registry s) (agent_number ctx) with
                | Some e => (Z.of_nat (length (en_children e)), take (Z.to_nat max_pids) (en_children e))
                | None => (AK_E_IPC_NOT_REGISTERED, [])
                end
       end.

(** ** Sending *)

Record send_env := mk_senv { sv_gate : gate_env; sv_message : bool; sv_payload : bool; sv_now : Z }.

(** Sixteen hexadecimal digits. *)
Definition hex16 (v : Z) : bytes := (fun i => hex_digit (Z.land (Z.shiftr v (4 * i)) 15)) <$> reverse (seqZ 0 16).
Definition agent_target (pid : Z) : bytes := B"agent:" ++ hex16 pid.

Definition send_request (trace sender_pid receiver_pid : Z) : ak_effect_req :=
  mk_effect AK_E_AGENT_SEND trace (s32 sender_pid) 0 (agent_target receiver_pid) [] no_budget 0.

(** The policy check of a message to a peer. *)
Definition authorize_peer (env : gate_env) (w : iworld) (sender_pid receiver_pid : Z) : bool * iworld :=
  match iw_ctx w with
  | None => (true, w)
  | Some c =>
      if cx_mode c =? AK_MODE_OFF then (true, w)
      else
        let '(m, c, trace) := ak_trace_id_generate c (iw_mod w) in
        let '(e, c, decision, auth_result) := ak_authorize_and_execute env (iw_eff w) c (send_request trace sender_pid receiver_pid) in
        ((auth_result =? 0) && match decision with Some d => de_allow d | None => false end, mk_iworld (iw_ipc w) m (Some c) e)
  end.

Definition count_urgent (flags n : Z) : Z := if Z.land flags AK_IPC_FLAG_URGENT =? 0 then n else u32 (n + 1).

Definition deposit (m : ak_ipc_message) (flags : Z) (mb : ak_agent_mailbox) : ak_agent_mailbox :=
  mk_mailbox (mb_agent_pid mb) (enqueue (new_addr (dom (ib_nodes (mb_inbox mb)))) m (mb_inbox mb)) (u32 (mb_inbox_count mb + 1)) (mb_inbox_limit mb)
    (count_urgent flags (mb_urgent_count mb)) (u64 (mb_messages_received mb + 1)) (mb_messages_dropped mb) (mb_waiter_count mb)
    (if 0 <? mb_waiter_count mb then true else mb_wake_pending mb).
Definition drop_one (mb : ak_agent_mailbox) : ak_agent_mailbox :=
  mk_mailbox (mb_agent_pid mb) (mb_inbox mb) (mb_inbox_count mb) (mb_inbox_limit mb) (mb_urgent_count mb) (mb_messages_received mb)
    (u64 (mb_messages_dropped mb + 1)) (mb_waiter_count mb) (mb_wake_pending mb).

Definition family_flags (is_parent is_child : bool) (flags : Z) : Z :=
  let flags := if is_parent then Z.lor flags AK_IPC_FLAG_FROM_PARENT else flags in
  if is_child then Z.lor flags AK_IPC_FLAG_FROM_CHILD else flags.

Definition ipc_send_internal (env : send_env) (w : iworld) (ctx : option agent_ref) (receiver_pid type flags correlation : Z) (payload : option bytes) :
    Z * iworld :=
  let s := iw_ipc w in
  if negb (is_initialized s) then (AK_E_IPC_NOT_INIT, w)
  else
    match ctx with
    | None => (- EINVAL, w)
    | Some ctx =>
        let sender_pid := agent_number ctx in
        let fail k r w := (r, with_ipc (tally k 1 (iw_ipc w)) w) in
        if AK_IPC_MAX_PAYLOAD_SIZE <? Z.of_nat (length (default [] payload)) then (AK_E_IPC_MSG_TOO_LARGE, w)
        else
          match lookup_entry (is_registry s) sender_pid, lookup_entry (is_registry s) receiver_pid with
          | None, _ => fail send_failures AK_E_IPC_NOT_REGISTERED w
          | Some _, None => fail send_failures AK_E_IPC_NO_RECIPIENT w
          | Some sender, Some receiver =>
              let is_parent := ak_agent_is_parent_of s sender_pid receiver_pid in
              let is_child := ak_agent_is_child_of s sender_pid receiver_pid in
              let peer := negb is_parent && negb is_child in
              if peer && negb (en_has_ipc_cap sender) then fail capability_denials AK_E_IPC_NO_CAPABILITY w
              else
                let '(granted, w) := if peer then authorize_peer (sv_gate env) w sender_pid receiver_pid else (true, w) in
                if negb granted then fail peer_denials AK_E_IPC_PEER_DENIED w
                else if negb (sv_message env) then fail send_failures (- ENOMEM) w
                else
                  let '(id, s) := next_msg_id (iw_ipc w) in
                  let w := with_ipc s w in
                  let copied := match payload with Some (_ :: _) => payload | _ => None end in
                  let msg := mk_message id sender_pid (get_agent_run_id ctx) receiver_pid (get_timestamp_ns (sv_now env)) type
                               (family_flags is_parent is_child flags) correlation copied in
                  if bool_decide (is_Some copied) && negb (sv_payload env) then fail send_failures (- ENOMEM) w
                  else if mb_inbox_limit (en_mailbox receiver) <=? mb_inbox_count (en_mailbox receiver) then
                    (AK_E_IPC_MAILBOX_FULL, with_ipc (tally messages_dropped 1 (on_entry (with_mailbox drop_one) receiver_pid s)) w)
                  else (s64 id, with_ipc (tally messages_sent 1 (on_entry (with_mailbox (deposit msg flags)) receiver_pid s)) w)
          end
    end.

Definition ak_ipc_send (env : send_env) (w : iworld) (ctx : option agent_ref) (receiver_pid type flags : Z) (payload : option bytes) : Z * iworld :=
  ipc_send_internal env w ctx receiver_pid type flags 0 payload.

(** The correlation identifier is an output; [None] where it is not written. *)
Definition ak_ipc_send_request (env : send_env) (w : iworld) (ctx : option agent_ref) (receiver_pid type : Z) (payload : option bytes) :
    Z * option Z * iworld :=
  let '(r, w) := ipc_send_internal env w ctx receiver_pid type AK_IPC_FLAG_NEEDS_REPLY 0 payload in
  if r <? 0 then (s32 r, None, w) else (0, Some (u64 r), w).

Definition ak_ipc_send_response (env : send_env) (w : iworld) (ctx : option agent_ref) (receiver_pid correlation : Z) (payload : option bytes) :
    Z * iworld :=
  let '(r, w) := ipc_send_internal env w ctx receiver_pid AK_IPC_MSG_TYPE_RESPONSE 0 correlation payload in
  (if r <? 0 then s32 r else 0, w).

(** The two loops stop at the limit: the first recipients of the table. *)
Definition broadcast_recipients (s : ipc_state) (sender_pid : Z) : list Z :=
  take AK_IPC_BROADCAST_LIMIT (en_pid <$> List.filter (fun e => en_active e && en_discoverable e && negb (en_pid e =? sender_pid)) (entries (is_registry s))).

Fixpoint send_all (env : nat -> send_env) (w : iworld) (ctx : agent_ref) (recipients : list Z) (type flags : Z) (payload : option bytes) : Z * iworld :=
  match recipients with
  | [] => (0, w)
  | r :: rest =>
      let '(result, w) := ipc_send_internal (env 0%nat) w (Some ctx) r type flags 0 payload in
      let '(sent, w) := send_all (fun n => env (S n)) w ctx rest type flags payload in
      ((if 0 <=? result then 1 else 0) + sent, w)
  end.

Definition ak_ipc_broadcast (env : nat -> send_env) (w : iworld) (ctx : option agent_ref) (type flags : Z) (payload : option bytes) : Z * iworld :=
  let s := iw_ipc w in
  if negb (is_initialized s) then (AK_E_IPC_NOT_INIT, w)
  else
    match ctx with
    | None => (- EINVAL, w)
    | Some ctx =>
        match lookup_entry (is_registry s) (agent_number ctx) with
        | None => (AK_E_IPC_NOT_REGISTERED, w)
        | Some sender =>
            if negb (en_has_broadcast_cap sender) then (AK_E_IPC_NO_CAPABILITY, with_ipc (tally capability_denials 1 s) w)
            else
              let '(sent, w) := send_all env w ctx (broadcast_recipients s (agent_number ctx)) type (Z.lor flags AK_IPC_FLAG_BROADCAST) payload in
              (sent, with_ipc (tally messages_broadcast sent (iw_ipc w)) w)
        end
    end.

(** ** Receiving *)

(** A receiver holds the pointer to its mailbox, also behind an unregistration:
    the entry with that address. *)
Definition at_addr (addr : Z) (e : ak_agent_registry_entry) : bool := en_addr e =? addr.
Definition lookup_at (t : list (list ak_agent_registry_entry)) (addr : Z) : option ak_agent_registry_entry :=
  snd <$> list_find (fun e => at_addr addr e = true) (entries t).
Definition update_at (f : ak_agent_registry_entry -> ak_agent_registry_entry) (addr : Z) (t : list (list ak_agent_registry_entry)) :=
  table_map (fun e => if at_addr addr e then f e else e) t.

Definition add_waiter (n : Z) (mb : ak_agent_mailbox) : ak_agent_mailbox :=
  mk_mailbox (mb_agent_pid mb) (mb_inbox mb) (mb_inbox_count mb) (mb_inbox_limit mb) (mb_urgent_count mb) (mb_messages_received mb)
    (mb_messages_dropped mb) (u32 (mb_waiter_count mb + n)) (mb_wake_pending mb).

(** One look at the queue, under the lock of the mailbox. *)
Definition picker : Type := inbox ak_ipc_message -> option (ak_ipc_message * inbox ak_ipc_message).
Definition take_message (pick : picker) (mb : ak_agent_mailbox) : option ak_ipc_message * ak_agent_mailbox :=
  match pick (mb_inbox mb) with
  | Some (m, q) =>
      (Some m, mk_mailbox (mb_agent_pid mb) q (u32 (mb_inbox_count mb - 1)) (mb_inbox_limit mb)
                 (if Z.land (msg_flags m) AK_IPC_FLAG_URGENT =? 0 then mb_urgent_count mb else u32 (mb_urgent_count mb - 1))
                 (mb_messages_received mb) (mb_messages_dropped mb) (mb_waiter_count mb) false)
  | None =>
      (None, mk_mailbox (mb_agent_pid mb) (mb_inbox mb) (mb_inbox_count mb) (mb_inbox_limit mb) (mb_urgent_count mb)
               (mb_messages_received mb) (mb_messages_dropped mb) (mb_waiter_count mb) false)
  end.

Definition recv_enter (addr : Z) (s : ipc_state) : ipc_state :=
  with_registry (update_at (with_mailbox (add_waiter 1)) addr (is_registry s)) s.
Definition recv_leave (k : ipc_counter) (addr : Z) (s : ipc_state) : ipc_state :=
  tally k 1 (with_registry (update_at (with_mailbox (add_waiter (-1))) addr (is_registry s)) s).

(** [Oob]: the entry is gone. *)
Definition recv_poll (pick : picker) (addr : Z) (s : ipc_state) : outcome (option ak_ipc_message * ipc_state) :=
  match lookup_at (is_registry s) addr with
  | None => Oob
  | Some e =>
      let m := (take_message pick (en_mailbox e)).1 in
      let s := with_registry (update_at (with_mailbox (fun mb => (take_message pick mb).2)) addr (is_registry s)) s in
      Ret (m, match m with Some _ => recv_leave messages_received addr s | None => s end)
  end.

(** The loop: [clock] gives the time at each poll, [others] what the rest of the
    system does before the next one.  Without fuel the call still waits. *)
Fixpoint recv_loop (fuel : nat) (clock : nat -> Z) (others : nat -> ipc_state -> ipc_state) (pick : picker) (addr deadline_ms : Z) (s : ipc_state) :
    option (outcome (option ak_ipc_message * ipc_state)) :=
  match fuel with
  | O => None
  | S fuel =>
      match recv_poll pick addr s with
      | Ret (None, s) =>
          if deadline_ms <=? clock 0%nat then Some (Ret (None, recv_leave recv_timeouts addr s))
          else recv_loop fuel (fun n => clock (S n)) (fun n => others (S n)) pick addr deadline_ms (others 0%nat s)
      | r => Some r
      end
  end.

Definition recv_deadline (start_ms timeout_ms : Z) : Z :=
  if timeout_ms <? 0 then 0xFFFFFFFFFFFFFFFF else if timeout_ms =? 0 then start_ms else u64 (start_ms + timeout_ms).

Definition recv_with (fuel : nat) (start_ms : Z) (clock : nat -> Z) (others : nat -> ipc_state -> ipc_state) (pick : picker) (s : ipc_state)
    (ctx : option agent_ref) (timeout_ms : Z) : option (outcome (option ak_ipc_message * ipc_state)) :=
  if negb (is_initialized s) then Some (Ret (None, s))
  else
    match ctx with
    | None => Some (Ret (None, s))
    | Some ctx =>
        let pid := agent_number ctx in
        match lookup_entry (is_registry s) pid with
        | None => Some (Ret (None, s))
        | Some e => recv_loop fuel clock others pick (en_addr e) (recv_deadline start_ms timeout_ms) (recv_enter (en_addr e) s)
        end
    end.

Definition correlates (correlation : Z) (m : ak_ipc_message) : bool := msg_correlation_id m =? correlation.
Definition ak_ipc_recv fuel start_ms clock others := recv_with fuel start_ms clock others dequeue.
Definition ak_ipc_recv_correlated fuel start_ms clock others s ctx correlation timeout_ms :=
  recv_with fuel start_ms clock others (dequeue_if (correlates correlation)) s ctx timeout_ms.

Definition of_mailbox (f : ak_agent_mailbox -> Z) (s : ipc_state) (ctx : option agent_ref) : Z :=
  if negb (is_initialized s) then AK_E_IPC_NOT_INIT
  else match ctx with
       | None => - EINVAL
       | Some ctx => match lookup_entry (is_registry s) (agent_number ctx) with Some e => f (en_mailbox e) | None => AK_E_IPC_NO_MAILBOX end
       end.
Definition ak_ipc_peek : ipc_state -> option agent_ref -> Z := of_mailbox mb_inbox_count.
Definition ak_ipc_peek_urgent : ipc_state -> option agent_ref -> Z := of_mailbox mb_urgent_count.

(** ** Discovery *)

Definition ak_agent_discover (s : ipc_state) (pattern : option bytes) (max_pids : Z) : Z * list Z * ipc_state :=
  if negb (is_initialized s) then (AK_E_IPC_NOT_INIT, [], s)
  else
    match pattern with
    | None => (- EINVAL, [], s)
    | Some pattern =>
        if max_pids =? 0 then (- EINVAL, [], s)
        else
          let found := take (Z.to_nat max_pids)
                         (en_pid <$> List.filter (fun e => en_active e && en_discoverable e && name_matches_pattern (en_name e) (cstr pattern)) (entries (is_registry s))) in
          let n := Z.of_nat (length found) in
          (n, found, tally discover_matches n (tally discover_requests 1 s))
    end.

(** The text written, without the zeros behind it. *)
Definition ak_agent_get_name (s : ipc_state) (pid max_len : Z) : Z * bytes :=
  if negb (is_initialized s) then (AK_E_IPC_NOT_INIT, [])
  else if max_len =? 0 then (- EINVAL, [])
  else match lookup_entry (is_registry s) pid with
       | None => (AK_E_IPC_NOT_REGISTERED, [])
       | Some e => (0, take (Z.to_nat (max_len - 1)) (en_name e))
       end.

Definition ak_agent_is_discoverable (s : ipc_state) (pid : Z) : bool :=
  is_initialized s && match lookup_entry (is_registry s) pid with Some e => en_discoverable e | None => false end.

(** ** Mailboxes *)

Definition with_limit (limit : Z) (mb : ak_agent_mailbox) : ak_agent_mailbox :=
  mk_mailbox (mb_agent_pid mb) (mb_inbox mb) (mb_inbox_count mb) limit (mb_urgent_count mb) (mb_messages_received mb) (mb_messages_dropped mb)
    (mb_waiter_count mb) (mb_wake_pending mb).

Definition ak_ipc_set_inbox_limit (s : ipc_state) (ctx : option agent_ref) (limit : Z) : Z * ipc_state :=
  if negb (is_initialized s) then (AK_E_IPC_NOT_INIT, s)
  else
    match ctx with
    | None => (- EINVAL, s)
    | Some ctx =>
        if (limit <? 1) || (10000 <? limit) then (- EINVAL, s)
        else
          let pid := agent_number ctx in
          match lookup_entry (is_registry s) pid with
          | None => (AK_E_IPC_NO_MAILBOX, s)
          | Some _ => (0, on_entry (with_mailbox (with_limit limit)) pid s)
          end
    end.

(** Count, limit, received and dropped messages. *)
Definition ak_ipc_get_mailbox_stats (s : ipc_state) (ctx : option agent_ref) : Z * option (Z * Z * Z * Z) :=
  if negb (is_initialized s) then (AK_E_IPC_NOT_INIT, None)
  else match ctx with
       | None => (- EINVAL, None)
       | Some ctx =>
           match lookup_entry (is_registry s) (agent_number ctx) with
           | None => (AK_E_IPC_NO_MAILBOX, None)
           | Some e => let mb := en_mailbox e in (0, Some (mb_inbox_count mb, mb_inbox_limit mb, mb_messages_received mb, mb_messages_dropped mb))
           end
       end.

Definition cleared (mb : ak_agent_mailbox) : ak_agent_mailbox :=
  mk_mailbox (mb_agent_pid mb) (drain (mb_inbox mb)) 0 (mb_inbox_limit mb) 0 (mb_messages_received mb) (mb_messages_dropped mb)
    (mb_waiter_count mb) (mb_wake_pending mb).

Definition ak_ipc_clear_mailbox (s : ipc_state) (ctx : option agent_ref) : Z * ipc_state :=
  if negb (is_initialized s) then (AK_E_IPC_NOT_INIT, s)
  else
    match ctx with
    | None => (- EINVAL, s)
    | Some ctx =>
        let pid := agent_number ctx in
        match lookup_entry (is_registry s) pid with
        | None => (AK_E_IPC_NO_MAILBOX, s)
        | Some e => (mb_inbox_count (en_mailbox e), on_entry (with_mailbox cleared) pid s)
        end
    end.

(** ** Capabilities *)

(** [grow] is the outcome of the allocation of the array of peers. *)
Definition ak_ipc_grant_capability (grow : bool) (s : ipc_state) (ctx : option agent_ref) (peer_pids : option (list Z)) (can_broadcast : bool) : Z * ipc_state :=
  if negb (is_initialized s) then (AK_E_IPC_NOT_INIT, s)
  else
    match ctx with
    | None => (- EINVAL, s)
    | Some ctx =>
        let pid := agent_number ctx in
        match lookup_entry (is_registry s) pid with
        | None => (AK_E_IPC_NOT_REGISTERED, s)
        | Some _ =>
            match peer_pids with
            | Some (x :: l) =>
                if negb grow then (- ENOMEM, on_entry (with_ipc_caps true can_broadcast None) pid s)
                else (0, on_entry (with_ipc_caps true can_broadcast (Some (x :: l))) pid s)
            | _ => (0, on_entry (with_ipc_caps true can_broadcast None) pid s)
            end
        end
    end.

Definition ak_ipc_revoke_capability (s : ipc_state) (ctx : option agent_ref) : Z * ipc_state :=
  if negb (is_initialized s) then (AK_E_IPC_NOT_INIT, s)
  else
    match ctx with
    | None => (- EINVAL, s)
    | Some ctx =>
        let pid := agent_number ctx in
        match lookup_entry (is_registry s) pid with
        | None => (AK_E_IPC_NOT_REGISTERED, s)
        | Some _ => (0, on_entry (with_ipc_caps false false None) pid s)
        end
    end.

Definition ak_ipc_has_capability (s : ipc_state) (ctx : option agent_ref) (peer_pid : Z) : bool :=
  match ctx with
  | None => false
  | Some ctx =>
      let pid := agent_number ctx in
      if negb (is_initialized s) then false
      else if ak_agent_is_parent_of s pid peer_pid || ak_agent_is_child_of s pid peer_pid then true
      else match lookup_entry (is_registry s) pid with
           | None => false
           | Some e =>
               if negb (en_has_ipc_cap e) then false
               else match en_allowed_peers e with
                    | Some (x :: l) => existsb (fun p => p =? peer_pid) (x :: l)
                    | _ => true
                    end
           end
  end.

Definition ak_agent_ipc_get_stats (s : ipc_state) : ipc_stats := is_stats s.

Definition ak_effect_from_agent_send (m : ctx_module) (c : ak_ctx) (receiver_pid type : Z) : ctx_module * ak_ctx * ak_effect_req :=
  let '(m, c, trace) := ak_trace_id_generate c m in
  let pid := match cx_agent c with Some a => s32 (get_agent_pid a) | None => 0 end in
  (m, c, mk_effect AK_E_AGENT_SEND trace pid 0 (agent_target receiver_pid ++ B":" ++ ak_u64_to_dec type) B"{}" no_budget 0).

End Alloc.

(** ** The registry as a table of live entries *)

Abbreviation registry := (list (list ak_agent_registry_entry)).
Definition live (t : registry) : registry := table_keep en_active t.

Lemma find_live_filter c pid : find_live c pid = chain_lookup (List.filter en_active c) pid.
Proof.
  induction c as [|e c IH]; cbn; [done|]. destruct (en_active e) eqn:Ea; cbn; [|by rewrite andb_false_r].
  rewrite andb_true_r. change (ptr_of e) with (en_pid e). by destruct (en_pid e =? pid).
Qed.

Lemma lookup_live t pid : lookup_entry t pid = table_lookup (live t) pid.
Proof.
  unfold lookup_entry, table_lookup, live. rewrite (bucket_same (table_keep _ _) t) by apply length_keep.
  unfold table_keep. rewrite list_lookup_fmap. destruct (t !! _); cbn; [apply find_live_filter|done].
Qed.

Lemma lookup_elem t pid e : wf_ptable (live t) -> lookup_entry t pid = Some e <-> e ∈ entries t /\ en_active e = true /\ en_pid e = pid.
Proof.
  intros Hwf. rewrite lookup_live, table_lookup_spec by done. unfold live. rewrite entries_keep, filter_elem. change (ptr_of e) with (en_pid e). tauto.
Qed.

(** Two tables whose buckets agree at every index. *)
Lemma live_at t i : live t !! i = List.filter en_active <$> (t !! i).
Proof. unfold live, table_keep. apply list_lookup_fmap. Qed.

Lemma filter_alter_live f c pid :
  (forall e, en_active (f e) = en_active e) -> List.filter en_active (alter_live f c pid) = chain_alter f (List.filter en_active c) pid.
Proof.
  intros Hf. induction c as [|e c IH]; cbn; [done|]. destruct (en_active e) eqn:Ea; cbn.
  - rewrite andb_true_r. change (ptr_of e) with (en_pid e). destruct (en_pid e =? pid); cbn; rewrite ?Hf, Ea; [done|]. by rewrite IH.
  - rewrite andb_false_r. cbn. by rewrite Ea, IH.
Qed.

Lemma live_update f pid t : (forall e, en_active (f e) = en_active e) -> live (update_entry f pid t) = table_alter f (live t) pid.
Proof.
  intros Hf. apply list_eq. intros i. rewrite live_at. unfold update_entry, table_alter.
  rewrite (bucket_same (live t) t) by apply length_keep. destruct (decide (i = bucket_of t pid)) as [->|Hi].
  - rewrite !list_lookup_alter_eq, live_at. destruct (t !! _); cbn; [by rewrite filter_alter_live|done].
  - rewrite !list_lookup_alter_ne by done. by rewrite live_at.
Qed.

Lemma lookup_update f pid t pid' :
  wf_ptable (live t) -> (forall e, en_active (f e) = en_active e) -> (forall e, en_pid (f e) = en_pid e) ->
  wf_ptable (live (update_entry f pid t)) /\
  lookup_entry (update_entry f pid t) pid' = if pid =? pid' then f <$> lookup_entry t pid' else lookup_entry t pid'.
Proof.
  intros Hwf Ha Hp. rewrite !lookup_live, live_update by done. split; [by apply wf_alter|by apply lookup_alter_table].
Qed.

(** Unregistration takes the entry out of the live table. *)
Lemma filter_retire c pid :
  NoDup (ptr_of <$> List.filter en_active c) ->
  List.filter en_active (alter_live retire c pid) = List.filter (fun e => negb (en_pid e =? pid)) (List.filter en_active c).
Proof.
  assert (Hid : forall l, (pid ∉ (ptr_of <$> l)) -> List.filter (fun e => negb (en_pid e =? pid)) l = l).
  { induction l as [|x l IH]; [done|]. rewrite fmap_cons, not_elem_of_cons. intros [Hx Hl]. cbn [List.filter].
    change (ptr_of x) with (en_pid x) in Hx. destruct (Z.eqb_spec (en_pid x) pid); [congruence|]. cbn [negb]. by rewrite IH. }
  induction c as [|e c IH]; cbn [alter_live List.filter]; intros Hn; [done|]. destruct (en_active e) eqn:Ea.
  - rewrite fmap_cons in Hn. apply NoDup_cons in Hn as [He Hn]. rewrite andb_true_r. cbn [List.filter].
    destruct (Z.eqb_spec (en_pid e) pid) as [Ep|]; cbn [negb List.filter].
    + cbn [retire en_active]. rewrite Hid; [done|]. by rewrite <-Ep.
    + by rewrite Ea, IH.
  - rewrite andb_false_r. cbn [List.filter]. by rewrite Ea, IH.
Qed.

Lemma live_retire pid t : wf_ptable (live t) -> live (update_entry retire pid t) = table_keep (fun e => negb (en_pid e =? pid)) (live t).
Proof.
  intros Hwf. apply list_eq. intros i. rewrite live_at. unfold update_entry, table_keep. rewrite list_lookup_fmap, live_at.
  destruct (decide (i = bucket_of t pid)) as [->|Hi].
  - rewrite list_lookup_alter_eq. destruct (t !! bucket_of t pid) as [c|] eqn:Ec; cbn; [|done]. f_equal. apply filter_retire.
    apply (pt_nodup _ Hwf (bucket_of t pid)). by rewrite live_at, Ec.
  - rewrite list_lookup_alter_ne by done. destruct (t !! i) as [c|] eqn:Ec; cbn; [|done]. f_equal.
    assert (Hc : live t !! i = Some (List.filter en_active c)) by (by rewrite live_at, Ec).
    assert (Hall : forall e, e ∈ List.filter en_active c -> en_pid e <> pid).
    { intros e He Ep. apply Hi. pose proof (pt_home _ Hwf i _ e Hc He) as Hb. change (ptr_of e) with (en_pid e) in Hb. rewrite Ep in Hb. rewrite <-Hb.
      apply bucket_same, length_keep. }
    revert Hall. generalize (List.filter en_active c). intros l. induction l as [|x l IH]; intros Hall; [done|]. cbn [List.filter].
    destruct (Z.eqb_spec (en_pid x) pid) as [Ep|]; [by destruct (Hall x ltac:(left))|]. cbn [negb]. f_equal. apply IH. intros e He. apply Hall. by right.
Qed.

Lemma lookup_retire pid t pid' :
  wf_ptable (live t) ->
  wf_ptable (live (update_entry retire pid t)) /\
  lookup_entry (update_entry retire pid t) pid' = if pid =? pid' then None else lookup_entry t pid'.
Proof.
  intros Hwf. rewrite !lookup_live, live_retire by done. split; [by apply wf_keep|]. rewrite lookup_keep by done.
  destruct (table_lookup (live t) pid') as [e|] eqn:El; [|by destruct (_ =? _)]. apply table_lookup_spec in El as [_ El]; [|done].
  change (ptr_of e) with (en_pid e) in El. rewrite El, Z.eqb_sym. by destruct (pid =? pid').
Qed.

Lemma live_push t pid e : en_active e = true -> live (table_push t pid e) = table_push (live t) pid e.
Proof.
  intros Ha. apply list_eq. intros i. rewrite live_at. unfold table_push. rewrite (bucket_same (live t) t) by apply length_keep.
  destruct (decide (i = bucket_of t pid)) as [->|Hi].
  - rewrite !list_lookup_alter_eq, live_at. destruct (t !! _); cbn; [by rewrite Ha|done].
  - rewrite !list_lookup_alter_ne by done. by rewrite live_at.
Qed.

Lemma lookup_register t e pid' :
  wf_ptable (live t) -> en_active e = true -> lookup_entry t (en_pid e) = None ->
  wf_ptable (live (table_push t (en_pid e) e)) /\
  lookup_entry (table_push t (en_pid e) e) pid' = if en_pid e =? pid' then Some e else lookup_entry t pid'.
Proof.
  intros Hwf Ha Hn. rewrite lookup_live in Hn. rewrite !lookup_live, live_push by done. split; [by apply wf_push|by apply lookup_push].
Qed.

Lemma live_map g t : (forall e, en_active (g e) = en_active e) -> live (table_map g t) = table_map g (live t).
Proof.
  intros Hg. apply list_eq. intros i. rewrite live_at. unfold table_map. rewrite !list_lookup_fmap, live_at. destruct (t !! i) as [c|]; cbn; [|done]. f_equal.
  induction c as [|e c IH]; cbn; [done|]. rewrite Hg. destruct (en_active e); cbn; by rewrite IH.
Qed.

Lemma lookup_at_update f addr t pid' :
  wf_ptable (live t) -> (forall e, en_active (f e) = en_active e) -> (forall e, en_pid (f e) = en_pid e) ->
  wf_ptable (live (update_at f addr t)) /\
  lookup_entry (update_at f addr t) pid' = (fun e => if at_addr addr e then f e else e) <$> lookup_entry t pid'.
Proof.
  intros Hwf Ha Hp. rewrite !lookup_live. unfold update_at.
  assert (Hg : forall e, en_active (if at_addr addr e then f e else e) = en_active e) by (intros e; destruct (at_addr addr e); [apply Ha|done]).
  assert (Hq : forall e, ptr_of (if at_addr addr e then f e else e) = ptr_of e) by (intros e; destruct (at_addr addr e); [apply Hp|done]).
  rewrite live_map by done. split; [by apply wf_map|by apply lookup_map_table].
Qed.

(** ** Specification: bounded queues *)

(** What waits for each registered agent, and the limit of its mailbox. *)
Abbreviation mail := (gmap Z (list ak_ipc_message * Z)).

Inductive mail_event :=
| Opened (pid : Z) | Closed (pid : Z) | Delivered (pid : Z) (m : ak_ipc_message) | Refused (pid : Z) | Taken (pid : Z) (m : ak_ipc_message)
| TakenFor (pid correlation : Z) (m : ak_ipc_message) | NothingFor (pid : Z) (correlation : option Z) | Emptied (pid n : Z) | Limited (pid limit : Z) | Reset.

Inductive mail_step (M : mail) : mail_event -> mail -> Prop :=
| step_open pid : M !! pid = None -> mail_step M (Opened pid) (<[pid := ([], AK_IPC_DEFAULT_INBOX_LIMIT)]> M)
| step_close pid : is_Some (M !! pid) -> mail_step M (Closed pid) (delete pid M)
| step_deliver pid q limit m :
    M !! pid = Some (q, limit) -> Z.of_nat (length q) < limit -> mail_step M (Delivered pid m) (<[pid := (q ++ [m], limit)]> M)
| step_refuse pid q limit : M !! pid = Some (q, limit) -> limit <= Z.of_nat (length q) -> mail_step M (Refused pid) M
| step_take pid q limit m : M !! pid = Some (m :: q, limit) -> mail_step M (Taken pid m) (<[pid := (q, limit)]> M)
| step_take_for pid q1 m q2 limit c :
    M !! pid = Some (q1 ++ m :: q2, limit) -> Forall (fun x => correlates c x = false) q1 -> correlates c m = true ->
    mail_step M (TakenFor pid c m) (<[pid := (q1 ++ q2, limit)]> M)
| step_nothing pid limit : M !! pid = Some ([], limit) -> mail_step M (NothingFor pid None) M
| step_nothing_for pid q limit c :
    M !! pid = Some (q, limit) -> Forall (fun x => correlates c x = false) q -> mail_step M (NothingFor pid (Some c)) M
| step_empty pid q limit : M !! pid = Some (q, limit) -> mail_step M (Emptied pid (Z.of_nat (length q))) (<[pid := ([], limit)]> M)
| step_limit pid q limit limit' : M !! pid = Some (q, limit) -> 1 <= limit' <= 10000 -> mail_step M (Limited pid limit') (<[pid := (q, limit')]> M)
| step_reset : mail_step M Reset ∅.

Inductive mail_trace (M : mail) : list mail_event -> mail -> Prop :=
| trace_nil : mail_trace M [] M
| trace_snoc evs M1 ev M2 : mail_trace M evs M1 -> mail_step M1 ev M2 -> mail_trace M (evs ++ [ev]) M2.

Lemma trace_one M ev M' : mail_step M ev M' -> mail_trace M [ev] M'.
Proof. intros. eapply (trace_snoc _ []); [constructor|done]. Qed.

Lemma trace_app M evs M1 evs' M2 : mail_trace M evs M1 -> mail_trace M1 evs' M2 -> mail_trace M (evs ++ evs') M2.
Proof. intros H1 H2. induction H2; [by rewrite app_nil_r|]. rewrite app_assoc. by econstructor. Qed.

(** ** The representation of the specification *)

Definition urgent (m : ak_ipc_message) : bool := negb (Z.land (msg_flags m) AK_IPC_FLAG_URGENT =? 0).

Record mailbox_ok (mb : ak_agent_mailbox) (ms : list ak_ipc_message) : Prop := {
  ok_rep : rep (mb_inbox mb) ms;
  ok_count : mb_inbox_count mb = Z.of_nat (length ms);
  ok_urgent : mb_urgent_count mb = Z.of_nat (length (List.filter urgent ms));
  ok_length : Z.of_nat (length ms) <= 10000;
  ok_limit : 1 <= mb_inbox_limit mb <= 10000 }.

Definition viewed (e : option ak_agent_registry_entry) (v : option (list ak_ipc_message * Z)) : Prop :=
  match e with
  | Some e => exists ms, v = Some (ms, mb_inbox_limit (en_mailbox e)) /\ mailbox_ok (en_mailbox e) ms
  | None => v = None
  end.

Record represents (s : ipc_state) (M : mail) : Prop := {
  rs_wf : wf_ptable (live (is_registry s));
  rs_addr : NoDup (en_addr <$> entries (is_registry s));
  rs_dead : forall e, e ∈ entries (is_registry s) -> en_active e = false -> rep (mb_inbox (en_mailbox e)) [];
  rs_view : forall pid, viewed (lookup_entry (is_registry s) pid) (M !! pid) }.

(** Only the registry matters. *)
Lemma represents_same s s' M : is_registry s' = is_registry s -> represents s M -> represents s' M.
Proof. intros E [H1 H2 H3 H4]. split; by rewrite E. Qed.

Lemma represents_empty init c st : represents (mk_ipc_state init (empty_table REGISTRY_HASH_SIZE) c st) ∅.
Proof.
  assert (He : entries (empty_table (E := ak_agent_registry_entry) REGISTRY_HASH_SIZE) = []) by (vm_compute; reflexivity).
  assert (Hwf : wf_ptable (live (empty_table REGISTRY_HASH_SIZE))) by (apply wf_keep, wf_empty_table; unfold REGISTRY_HASH_SIZE; lia).
  split; cbn [is_registry]; [done|rewrite He; constructor|rewrite He; by intros ? ?%not_elem_of_nil|].
  intros pid. destruct (lookup_entry _ pid) as [e|] eqn:El; [|by rewrite lookup_empty]. apply lookup_elem in El as [El _]; [|done].
  rewrite He in El. by apply not_elem_of_nil in El.
Qed.

(** Entries behind an update. *)
Lemma in_alter_live f c pid e : e ∈ alter_live f c pid -> e ∈ c \/ exists e0, e0 ∈ c /\ en_active e0 = true /\ en_pid e0 = pid /\ e = f e0.
Proof.
  induction c as [|x c IH]; cbn; [by left|]. destruct ((en_pid x =? pid) && en_active x) eqn:E.
  - apply andb_true_iff in E as [Ep Ea]. apply Z.eqb_eq in Ep. intros [->|He]%elem_of_cons; [right; exists x; split_and!; [left|done..]|left; by right].
  - intros [->|He]%elem_of_cons; [left; left|]. destruct (IH He) as [?|(e0 & ? & ?)]; [left; by right|right; exists e0; split; [by right|done]].
Qed.

Lemma in_update f pid t e :
  e ∈ entries (update_entry f pid t) -> e ∈ entries t \/ exists e0, e0 ∈ entries t /\ en_active e0 = true /\ en_pid e0 = pid /\ e = f e0.
Proof.
  intros (i & c & Hi & He)%entries_elem. unfold update_entry in Hi. destruct (decide (i = bucket_of t pid)) as [->|Hne].
  - rewrite list_lookup_alter_eq in Hi. destruct (t !! _) as [c0|] eqn:Ec; [|done]. injection Hi as <-.
    destruct (in_alter_live _ _ _ _ He) as [?|(e0 & ? & ?)]; [left; apply entries_elem; eauto|right; exists e0; split; [apply entries_elem; eauto|done]].
  - rewrite list_lookup_alter_ne in Hi by done. left. apply entries_elem. eauto.
Qed.

Lemma addr_update f pid t : (forall e, en_addr (f e) = en_addr e) -> en_addr <$> entries (update_entry f pid t) = en_addr <$> entries t.
Proof.
  intros Hf. assert (Hc : forall c, en_addr <$> alter_live f c pid = en_addr <$> c).
  { induction c as [|e c IH]; [done|]. cbn [alter_live]. destruct (_ && _); rewrite !fmap_cons; [by rewrite Hf|by rewrite IH]. }
  unfold update_entry, entries. generalize (bucket_of t pid). induction t as [|c t IH]; intros i; [done|].
  destruct i as [|i]; cbn [alter list_alter concat]; rewrite !fmap_app; [by rewrite Hc|]. by rewrite <-(IH i).
Qed.

(** A change of one registered agent. *)
Lemma represents_update s M f pid e ms :
  represents s M -> lookup_entry (is_registry s) pid = Some e ->
  (forall e, en_active (f e) = en_active e) -> (forall e, en_pid (f e) = en_pid e) -> (forall e, en_addr (f e) = en_addr e) ->
  mailbox_ok (en_mailbox (f e)) ms ->
  represents (on_entry f pid s) (<[pid := (ms, mb_inbox_limit (en_mailbox (f e)))]> M).
Proof.
  intros [Hwf Ha Hd Hv] He Hfa Hfp Hfd Hok. split; cbn [on_entry with_registry is_registry].
  - by destruct (lookup_update f pid _ 0 Hwf Hfa Hfp).
  - by rewrite addr_update.
  - intros e' [Hin|(e0 & Hin & Hact & _ & ->)]%in_update Hdead; [by apply Hd|]. rewrite Hfa in Hdead. congruence.
  - intros pid'. destruct (lookup_update f pid _ pid' Hwf Hfa Hfp) as [_ ->]. destruct (Z.eqb_spec pid pid') as [<-|Hne].
    + rewrite He, lookup_insert_eq. cbn. by exists ms.
    + rewrite lookup_insert_ne by done. apply Hv.
Qed.

Lemma view_lookup s M pid e : represents s M -> lookup_entry (is_registry s) pid = Some e ->
  exists ms, M !! pid = Some (ms, mb_inbox_limit (en_mailbox e)) /\ mailbox_ok (en_mailbox e) ms.
Proof. intros Hr He. pose proof (rs_view _ _ Hr pid) as Hv. by rewrite He in Hv. Qed.

(** A change that leaves the mailbox alone. *)
Lemma represents_keep s M f pid :
  represents s M -> (forall e, en_active (f e) = en_active e) -> (forall e, en_pid (f e) = en_pid e) -> (forall e, en_addr (f e) = en_addr e) ->
  (forall e, en_mailbox (f e) = en_mailbox e) -> represents (on_entry f pid s) M.
Proof.
  intros [Hwf Ha Hd Hv] Hfa Hfp Hfd Hfm. split; cbn [on_entry with_registry is_registry].
  - by destruct (lookup_update f pid _ 0 Hwf Hfa Hfp).
  - by rewrite addr_update.
  - intros e' [Hin|(e0 & Hin & Hact & _ & ->)]%in_update Hdead; [by apply Hd|]. rewrite Hfa in Hdead. congruence.
  - intros pid'. destruct (lookup_update f pid _ pid' Hwf Hfa Hfp) as [_ ->]. specialize (Hv pid'). destruct (pid =? pid'); [|done].
    destruct (lookup_entry _ pid'); [|done]. cbn in *. by rewrite Hfm.
Qed.

Lemma represents_retire s M pid e :
  represents s M -> lookup_entry (is_registry s) pid = Some e -> represents (on_entry retire pid s) (delete pid M).
Proof.
  intros Hr He. destruct (view_lookup _ _ _ _ Hr He) as (ms & _ & Hok). destruct Hr as [Hwf Ha Hd Hv]. split; cbn [on_entry with_registry is_registry].
  - by destruct (lookup_retire pid _ 0 Hwf).
  - by rewrite addr_update.
  - intros e' [Hin|(e0 & Hin & Hact & Hp & ->)]%in_update Hdead; [by apply Hd|]. cbn.
    assert (E0 : lookup_entry (is_registry s) pid = Some e0) by (by apply lookup_elem). rewrite He in E0. injection E0 as <-.
    rewrite (drain_rep _ ms) by apply Hok. apply rep_empty.
  - intros pid'. destruct (lookup_retire pid _ pid' Hwf) as [_ ->]. destruct (Z.eqb_spec pid pid') as [<-|Hne].
    + by rewrite lookup_delete_eq.
    + rewrite lookup_delete_ne by done. apply Hv.
Qed.

Lemma entries_push_perm t pid e : (0 < length t)%nat -> entries (table_push t pid e) ≡ₚ e :: entries t.
Proof.
  intros Hl. pose proof (bucket_lt t pid Hl) as Hb. unfold table_push, entries. revert Hb. generalize (bucket_of t pid). clear Hl.
  induction t as [|c t IH]; intros i Hi; [cbn in Hi; lia|]. destruct i as [|i]; [done|]. cbn [alter list_alter concat].
  change (list_alter (cons e) i t) with (alter (cons e) i t). rewrite (IH i) by (cbn in Hi; lia). by rewrite Permutation_middle.
Qed.

Lemma represents_register s M e :
  represents s M -> en_active e = true -> lookup_entry (is_registry s) (en_pid e) = None ->
  (en_addr e ∉ (en_addr <$> entries (is_registry s))) -> mailbox_ok (en_mailbox e) [] ->
  represents (with_registry (table_push (is_registry s) (en_pid e) e) s) (<[en_pid e := ([], mb_inbox_limit (en_mailbox e))]> M).
Proof.
  intros [Hwf Ha Hd Hv] Hact Hn Hfresh Hok.
  assert (Hlen : (0 < length (is_registry s))%nat) by (rewrite <-(length_keep en_active); apply Hwf).
  split; cbn [with_registry is_registry].
  - by destruct (lookup_register _ e 0 Hwf Hact Hn).
  - rewrite (fmap_Permutation _ _ _ (entries_push_perm (is_registry s) (en_pid e) e Hlen)). rewrite fmap_cons. by constructor.
  - intros e' [->|Hin]%entries_push Hdead; [congruence|by apply Hd|done].
  - intros pid'. destruct (lookup_register _ e pid' Hwf Hact Hn) as [_ ->]. destruct (Z.eqb_spec (en_pid e) pid') as [<-|Hne].
    + rewrite lookup_insert_eq. by exists [].
    + rewrite lookup_insert_ne by done. apply Hv.
Qed.

(** ** Mailboxes *)

Lemma u32_id z : 0 <= z < M32 -> u32 z = z.
Proof. apply Z.mod_small. Qed.

Lemma mailbox_ok_same mb mb' ms :
  mb_inbox mb' = mb_inbox mb -> mb_inbox_count mb' = mb_inbox_count mb -> mb_urgent_count mb' = mb_urgent_count mb ->
  mb_inbox_limit mb' = mb_inbox_limit mb -> mailbox_ok mb ms -> mailbox_ok mb' ms.
Proof. intros E1 E2 E3 E4 [H1 H2 H3 H4 H5]. split; congruence. Qed.

Lemma urgent_length (ms : list ak_ipc_message) : (length (List.filter urgent ms) <= length ms)%nat.
Proof. induction ms as [|m ms IH]; cbn; [done|]. destruct (urgent m); cbn; lia. Qed.

Lemma deposit_ok `{Allocator} m flags mb ms :
  mailbox_ok mb ms -> Z.of_nat (length ms) < mb_inbox_limit mb -> urgent m = negb (Z.land flags AK_IPC_FLAG_URGENT =? 0) ->
  mailbox_ok (deposit m flags mb) (ms ++ [m]).
Proof.
  intros [H1 H2 H3 H4 H5] Hroom Hu. pose proof (urgent_length ms) as Hul. split; cbn [deposit mb_inbox mb_inbox_count mb_urgent_count mb_inbox_limit].
  - by apply enqueue_rep.
  - rewrite length_app, H2, u32_id by lia. cbn. lia.
  - rewrite List.filter_app, length_app, H3. unfold count_urgent. cbn [List.filter]. rewrite Hu.
    destruct (Z.land flags AK_IPC_FLAG_URGENT =? 0); cbn; [lia|]. rewrite u32_id by lia. lia.
  - rewrite length_app. cbn. lia.
  - done.
Qed.

Lemma filter_length_app (f : ak_ipc_message -> bool) l1 m l2 :
  length (List.filter f (l1 ++ m :: l2)) = (length (List.filter f (l1 ++ l2)) + (if f m then 1 else 0))%nat.
Proof. rewrite !List.filter_app, !length_app. cbn. destruct (f m); cbn; lia. Qed.

(** A poll takes one message out of the middle, or finds none. *)
Lemma take_ok pick mb q1 m q2 q :
  mailbox_ok mb (q1 ++ m :: q2) -> pick (mb_inbox mb) = Some (m, q) -> rep q (q1 ++ q2) ->
  (take_message pick mb).1 = Some m /\ mailbox_ok (take_message pick mb).2 (q1 ++ q2) /\ mb_inbox_limit (take_message pick mb).2 = mb_inbox_limit mb.
Proof.
  intros [H1 H2 H3 H4 H5] Hp Hq. unfold take_message. rewrite Hp. split_and!; [done| |done].
  assert (Hl : length (q1 ++ m :: q2) = S (length (q1 ++ q2))) by (rewrite !length_app; cbn; lia).
  rewrite filter_length_app in H3. pose proof (urgent_length (q1 ++ q2)) as Hu.
  split; cbn [snd mb_inbox mb_inbox_count mb_urgent_count mb_inbox_limit]; [done| | |lia|done].
  - rewrite H2, u32_id; lia.
  - unfold urgent in H3 at 2. destruct (Z.land (msg_flags m) AK_IPC_FLAG_URGENT =? 0); cbn [negb] in H3; [lia|]. rewrite u32_id; lia.
Qed.

Lemma take_none pick mb ms :
  mailbox_ok mb ms -> pick (mb_inbox mb) = None ->
  (take_message pick mb).1 = None /\ mailbox_ok (take_message pick mb).2 ms /\ mb_inbox_limit (take_message pick mb).2 = mb_inbox_limit mb.
Proof. intros Hok Hp. unfold take_message. rewrite Hp. split_and!; [done| |done]. by apply (mailbox_ok_same mb). Qed.

Lemma cleared_ok mb ms : mailbox_ok mb ms -> mailbox_ok (cleared mb) [].
Proof. intros [H1 H2 H3 H4 H5]. split; cbn; [rewrite (drain_rep _ ms) by done; apply rep_empty|done|done|lia|done]. Qed.

(** ** Changes through the pointer of a receiver *)

Lemma lookup_at_elem t addr e : lookup_at t addr = Some e -> e ∈ entries t /\ en_addr e = addr.
Proof.
  unfold lookup_at. destruct (list_find _ _) as [[i x]|] eqn:El; [|done]. intros [= <-]. apply list_find_Some in El as (Hl & Ha & _).
  split; [by eapply list_elem_of_lookup_2|]. by apply Z.eqb_eq.
Qed.

Lemma addr_unique t e e' : NoDup (en_addr <$> entries t) -> e ∈ entries t -> e' ∈ entries t -> en_addr e = en_addr e' -> e = e'.
Proof.
  intros Hn [i Hi]%list_elem_of_lookup [j Hj]%list_elem_of_lookup Ea. assert (i = j); [|congruence].
  eapply (NoDup_lookup (en_addr <$> entries t)); [done|by rewrite list_lookup_fmap, Hi|by rewrite list_lookup_fmap, Hj, Ea].
Qed.

Definition same_place (f : ak_agent_registry_entry -> ak_agent_registry_entry) : Prop :=
  (forall e, en_active (f e) = en_active e) /\ (forall e, en_pid (f e) = en_pid e) /\ (forall e, en_addr (f e) = en_addr e).

(** The owner of the address, registered or not, is changed. *)
Lemma represents_at s M f addr e :
  represents s M -> lookup_at (is_registry s) addr = Some e -> same_place f ->
  (en_active e = false -> rep (mb_inbox (en_mailbox (f e))) []) ->
  forall ms', (en_active e = true -> mailbox_ok (en_mailbox (f e)) ms') ->
  represents (with_registry (update_at f addr (is_registry s)) s)
    (if en_active e then <[en_pid e := (ms', mb_inbox_limit (en_mailbox (f e)))]> M else M).
Proof.
  intros [Hwf Ha Hd Hv] [Hin Hea]%lookup_at_elem (Hfa & Hfp & Hfd) Hdead ms' Hok.
  assert (Hone : forall x, x ∈ entries (is_registry s) -> at_addr addr x = true -> x = e).
  { intros x Hx Hxa%Z.eqb_eq. apply (addr_unique (is_registry s)); [done..|congruence]. }
  assert (Hate : at_addr addr e = true) by (by apply Z.eqb_eq).
  split; cbn [with_registry is_registry].
  - by destruct (lookup_at_update f addr _ 0 Hwf Hfa Hfp).
  - unfold update_at. rewrite entries_map. change (map ?g ?l) with (g <$> l). rewrite <-list_fmap_compose.
    erewrite list_fmap_ext; [exact Ha|]. intros i x _. cbn. by destruct (at_addr addr x).
  - unfold update_at. intros x. rewrite entries_map. change (map ?g ?l) with (g <$> l). intros (y & -> & Hy)%list_elem_of_fmap.
    destruct (at_addr addr y) eqn:Ey; [|by apply Hd]. apply Hone in Ey; [|done]. subst y. rewrite Hfa. apply Hdead.
  - intros pid'. destruct (lookup_at_update f addr _ pid' Hwf Hfa Hfp) as [_ ->]. specialize (Hv pid').
    destruct (lookup_entry (is_registry s) pid') as [x|] eqn:Ex; cbn [fmap option_fmap option_map].
    + apply lookup_elem in Ex as (Hx & Hxa & Hxp); [|done]. destruct (at_addr addr x) eqn:Ey.
      * apply Hone in Ey; [|done]. subst x. rewrite Hxa, Hxp, lookup_insert_eq. exists ms'. split; [done|by apply Hok].
      * destruct (en_active e) eqn:Eact; [|done]. rewrite lookup_insert_ne; [done|]. intros Ep.
        assert (E1 : lookup_entry (is_registry s) pid' = Some e) by (by apply lookup_elem).
        assert (E2 : lookup_entry (is_registry s) pid' = Some x) by (by apply lookup_elem). congruence.
    + cbn in Hv. destruct (en_active e) eqn:Eact; [|done]. rewrite lookup_insert_ne; [done|]. intros Ep.
      assert (E1 : lookup_entry (is_registry s) pid' = Some e) by (by apply lookup_elem). congruence.
Qed.

(** ** Operations and their meaning *)

Inductive ipc_op :=
| OpInit (now_ms : Z)
| OpShutdown
| OpRegister (env : register_env) (ctx : option agent_ref) (name : option bytes) (discoverable : bool)
| OpUnregister (ctx : option agent_ref)
| OpSend (env : send_env) (ctx : option agent_ref) (receiver_pid type flags correlation : Z) (payload : option bytes)
| OpBroadcast (env : nat -> send_env) (ctx : option agent_ref) (type flags : Z) (payload : option bytes)
| OpEnter (addr : Z)
| OpPoll (correlation : option Z) (addr : Z)
| OpLeave (addr : Z)
| OpAddChild (grow : bool) (ctx : option agent_ref) (child_pid : Z)
| OpRemoveChild (ctx : option agent_ref) (child_pid : Z)
| OpDiscover (pattern : option bytes) (max_pids : Z)
| OpLimit (ctx : option agent_ref) (limit : Z)
| OpClear (ctx : option agent_ref)
| OpGrant (grow : bool) (ctx : option agent_ref) (peers : option (list Z)) (can_broadcast : bool)
| OpRevoke (ctx : option agent_ref)
| OpContext (m : ctx_module) (c : option ak_ctx) (e : effects_state).

(** A code, a message, or the use of a freed mailbox. *)
Inductive ipc_result := RCode (r : Z) | RMessage (m : option ak_ipc_message) | RGone.

Definition poll_picker (correlation : option Z) : picker :=
  match correlation with Some c => dequeue_if (correlates c) | None => dequeue end.

Section Runs.
Context `{Allocator}.

Definition code (w : iworld) (r : Z * ipc_state) : ipc_result * iworld := (RCode r.1, with_ipc r.2 w).

Definition ipc_do (op : ipc_op) (w : iworld) : ipc_result * iworld :=
  let s := iw_ipc w in
  match op with
  | OpInit now => code w (ak_agent_ipc_init now s)
  | OpShutdown => code w (0, ak_agent_ipc_shutdown s)
  | OpRegister env ctx name d => code w (ak_agent_register env s ctx name d)
  | OpUnregister ctx => code w (ak_agent_unregister s ctx)
  | OpSend env ctx r ty fl co p => let '(v, w') := ipc_send_internal env w ctx r ty fl co p in (RCode v, w')
  | OpBroadcast env ctx ty fl p => let '(v, w') := ak_ipc_broadcast env w ctx ty fl p in (RCode v, w')
  | OpEnter addr => code w (0, recv_enter addr s)
  | OpPoll c addr => match recv_poll (poll_picker c) addr s with Ret (m, s') => (RMessage m, with_ipc s' w) | _ => (RGone, w) end
  | OpLeave addr => code w (0, recv_leave recv_timeouts addr s)
  | OpAddChild grow ctx c => code w (ak_agent_add_child grow s ctx c)
  | OpRemoveChild ctx c => code w (ak_agent_remove_child s ctx c)
  | OpDiscover p n => let '(r, _, s') := ak_agent_discover s p n in code w (r, s')
  | OpLimit ctx n => code w (ak_ipc_set_inbox_limit s ctx n)
  | OpClear ctx => code w (ak_ipc_clear_mailbox s ctx)
  | OpGrant grow ctx peers b => code w (ak_ipc_grant_capability grow s ctx peers b)
  | OpRevoke ctx => code w (ak_ipc_revoke_capability s ctx)
  | OpContext m c e => (RCode 0, mk_iworld s m c e)
  end.

(** Who may send to whom. *)
Definition may_send (env : send_env) (w : iworld) (ctx : agent_ref) (receiver_pid : Z) : Prop :=
  exists sender receiver,
    lookup_entry (is_registry (iw_ipc w)) (agent_number ctx) = Some sender /\ lookup_entry (is_registry (iw_ipc w)) receiver_pid = Some receiver /\
    (en_parent_pid receiver = agent_number ctx \/ en_parent_pid sender = receiver_pid \/
     (en_has_ipc_cap sender = true /\ (authorize_peer (sv_gate env) w (agent_number ctx) receiver_pid).1 = true)).

(** A copy of what was sent, which names the sender. *)
Definition carries (ctx : agent_ref) (receiver_pid type flags correlation : Z) (payload : option bytes) (m : ak_ipc_message) : Prop :=
  msg_sender_pid m = agent_number ctx /\ msg_sender_run_id m = take 16 (ag_run_id ctx) /\ msg_receiver_pid m = receiver_pid /\
  msg_type m = type /\ msg_correlation_id m = correlation /\ default [] (msg_payload m) = default [] payload /\ urgent m = negb (Z.land flags 1 =? 0).

(** The allocations of a send succeed. *)
Definition has_memory (env : send_env) (payload : option bytes) : Prop :=
  sv_message env = true /\ (default [] payload <> [] -> sv_payload env = true).

Inductive send_meaning (env : send_env) (w : iworld) (M : mail) (ctx : option agent_ref) (receiver_pid type flags correlation : Z) (payload : option bytes) :
    Z -> list mail_event -> mail -> Prop :=
| send_delivers c m q limit :
    ctx = Some c -> may_send env w c receiver_pid -> M !! receiver_pid = Some (q, limit) -> Z.of_nat (length q) < limit ->
    carries c receiver_pid type flags correlation payload m ->
    send_meaning env w M ctx receiver_pid type flags correlation payload (s64 (msg_id m)) [Delivered receiver_pid m] (<[receiver_pid := (q ++ [m], limit)]> M)
| send_full c q limit :
    ctx = Some c -> may_send env w c receiver_pid -> M !! receiver_pid = Some (q, limit) -> limit <= Z.of_nat (length q) ->
    send_meaning env w M ctx receiver_pid type flags correlation payload AK_E_IPC_MAILBOX_FULL [Refused receiver_pid] M
| send_fails r :
    r ∈ [AK_E_IPC_NOT_INIT; - EINVAL; AK_E_IPC_MSG_TOO_LARGE; AK_E_IPC_NOT_REGISTERED; AK_E_IPC_NO_RECIPIENT; AK_E_IPC_NO_CAPABILITY; AK_E_IPC_PEER_DENIED; - ENOMEM] ->
    ~ (is_initialized (iw_ipc w) = true /\ Z.of_nat (length (default [] payload)) <= AK_IPC_MAX_PAYLOAD_SIZE /\ has_memory env payload /\
       exists c, ctx = Some c /\ may_send env w c receiver_pid) ->
    send_meaning env w M ctx receiver_pid type flags correlation payload r [] M.

Lemma authorize_peer_ipc env w a b : iw_ipc (authorize_peer env w a b).2 = iw_ipc w.
Proof.
  unfold authorize_peer. destruct (iw_ctx w) as [c|]; [|done]. destruct (cx_mode c =? AK_MODE_OFF); [done|].
  destruct (ak_trace_id_generate _ _) as [[m c'] tr]. by destruct (ak_authorize_and_execute _ _ _ _) as [[[e c2] d] r].
Qed.

Lemma urgent_family p c fl id a b r t ty co pl :
  urgent (mk_message id a b r t ty (family_flags p c fl) co pl) = negb (Z.land fl AK_IPC_FLAG_URGENT =? 0).
Proof.
  unfold urgent, family_flags, AK_IPC_FLAG_URGENT, AK_IPC_FLAG_FROM_PARENT, AK_IPC_FLAG_FROM_CHILD. cbn [msg_flags].
  do 2 f_equal. destruct p, c; rewrite ?Z.land_lor_distr_l; change (Z.land 8 1) with 0; change (Z.land 16 1) with 0; by rewrite ?Z.lor_0_r.
Qed.

Definition peers_gate (env : gate_env) (w : iworld) (peer : bool) (a b : Z) : bool * iworld := if peer then authorize_peer env w a b else (true, w).

Lemma family_cases w c rcv sender receiver :
  is_initialized (iw_ipc w) = true ->
  lookup_entry (is_registry (iw_ipc w)) (agent_number c) = Some sender -> lookup_entry (is_registry (iw_ipc w)) rcv = Some receiver ->
  ak_agent_is_parent_of (iw_ipc w) (agent_number c) rcv = (en_parent_pid receiver =? agent_number c) /\
  ak_agent_is_child_of (iw_ipc w) (agent_number c) rcv = (en_parent_pid sender =? rcv).
Proof. intros Hi Hs Hr. unfold ak_agent_is_parent_of, ak_agent_is_child_of. by rewrite Hi, Hs, Hr. Qed.

Lemma send_spec env w M ctx rcv ty fl co p :
  represents (iw_ipc w) M ->
  let '(r, w') := ipc_send_internal env w ctx rcv ty fl co p in
  exists evs M', send_meaning env w M ctx rcv ty fl co p r evs M' /\ represents (iw_ipc w') M'.
Proof.
  intros Hr. unfold ipc_send_internal.
  assert (Hfail : forall r w', is_registry (iw_ipc w') = is_registry (iw_ipc w) ->
    r ∈ [AK_E_IPC_NOT_INIT; - EINVAL; AK_E_IPC_MSG_TOO_LARGE; AK_E_IPC_NOT_REGISTERED; AK_E_IPC_NO_RECIPIENT; AK_E_IPC_NO_CAPABILITY; AK_E_IPC_PEER_DENIED; - ENOMEM] ->
    (is_initialized (iw_ipc w) = true -> Z.of_nat (length (default [] p)) <= AK_IPC_MAX_PAYLOAD_SIZE -> has_memory env p ->
     forall c, ctx = Some c -> may_send env w c rcv -> False) ->
    exists evs M', send_meaning env w M ctx rcv ty fl co p r evs M' /\ represents (iw_ipc w') M').
  { intros r w' E Hin Hno. exists [], M. split; [|by eapply represents_same]. apply send_fails; [done|]. intros (H1 & H2 & H3 & c & H4 & H5). eauto. }
  destruct (is_initialized (iw_ipc w)) eqn:Ei; cbn [negb]; [|apply Hfail; [done|set_solver|done]].
  destruct ctx as [c|]; [|apply Hfail; [done|set_solver|done]].
  destruct (Z.ltb_spec AK_IPC_MAX_PAYLOAD_SIZE (Z.of_nat (length (default [] p)))); [apply Hfail; [done|set_solver|lia]|].
  destruct (lookup_entry (is_registry (iw_ipc w)) (agent_number c)) as [sender|] eqn:Es.
  2:{ apply Hfail; [done|set_solver|]. intros _ _ _ ? [= <-] (? & ? & ? & _). congruence. }
  destruct (lookup_entry (is_registry (iw_ipc w)) rcv) as [receiver|] eqn:Er.
  2:{ apply Hfail; [done|set_solver|]. intros _ _ _ ? [= <-] (? & ? & ? & ? & _). congruence. }
  destruct (family_cases w c rcv sender receiver Ei Es Er) as [-> ->].
  set (isp := en_parent_pid receiver =? agent_number c). set (isc := en_parent_pid sender =? rcv).
  destruct (negb isp && negb isc && negb (en_has_ipc_cap sender)) eqn:Ecap.
  { apply Hfail; [done|set_solver|]. intros _ _ _ ? [= <-] (s0 & r0 & E1 & E2 & Hor). rewrite Es in E1. rewrite Er in E2. injection E1 as <-. injection E2 as <-.
    apply andb_true_iff in Ecap as [[Hp Hc]%andb_true_iff Hcap]. unfold isp, isc in *. destruct (en_has_ipc_cap sender); [done|].
    destruct (Z.eqb_spec (en_parent_pid receiver) (agent_number c)), (Z.eqb_spec (en_parent_pid sender) rcv); try done. naive_solver. }
  fold (peers_gate (sv_gate env) w (negb isp && negb isc) (agent_number c) rcv).
  assert (Hipc : iw_ipc (peers_gate (sv_gate env) w (negb isp && negb isc) (agent_number c) rcv).2 = iw_ipc w)
    by (unfold peers_gate; destruct (negb isp && negb isc); [apply authorize_peer_ipc|done]).
  assert (Hmay : (peers_gate (sv_gate env) w (negb isp && negb isc) (agent_number c) rcv).1 = true <-> may_send env w c rcv).
  { unfold peers_gate, may_send. rewrite Es, Er. split.
    - intros Hg. exists sender, receiver. split_and!; [done..|]. unfold isp, isc in *.
      destruct (Z.eqb_spec (en_parent_pid receiver) (agent_number c)), (Z.eqb_spec (en_parent_pid sender) rcv); auto. cbn in *.
      right. right. split; [by destruct (en_has_ipc_cap sender)|done].
    - intros (s0 & r0 & [= <-] & [= <-] & Hor). unfold isp, isc in *.
      destruct (Z.eqb_spec (en_parent_pid receiver) (agent_number c)), (Z.eqb_spec (en_parent_pid sender) rcv); try done. cbn in *. naive_solver. }
  destruct (peers_gate _ _ _ _ _) as [granted w1]. cbn [fst snd] in *.
  destruct granted; cbn [negb].
  2:{ apply Hfail; [cbn; by rewrite Hipc|set_solver|]. intros _ _ _ ? [= <-] Hm. by apply Hmay in Hm. }
  assert (Hm : may_send env w c rcv) by (by apply Hmay). clear Hmay Ecap.
  destruct (sv_message env) eqn:Em; cbn [negb].
  2:{ apply Hfail; [cbn; by rewrite Hipc|set_solver|]. intros _ _ [? _]. congruence. }
  unfold next_msg_id. rewrite Hipc. cbv zeta.
  set (copied := match p with Some (_ :: _) => p | _ => None end).
  destruct (bool_decide (is_Some copied) && negb (sv_payload env)) eqn:Epay.
  { apply Hfail; [done|set_solver|]. intros _ _ [_ Hpay]. apply andb_true_iff in Epay as [Ec Ep]. apply bool_decide_eq_true in Ec as [x Ec].
    assert (Hpay' : sv_payload env = true) by (apply Hpay; unfold copied in Ec; by destruct p as [[|]|]). by rewrite Hpay' in Ep. }
  destruct (view_lookup _ _ _ _ Hr Er) as (q & HM & Hok). pose proof (ok_count _ _ Hok) as Hcount.
  destruct (Z.leb_spec (mb_inbox_limit (en_mailbox receiver)) (mb_inbox_count (en_mailbox receiver))) as [Hfull|Hroom].
  - exists [Refused rcv], M. split; [by eapply send_full; [done|done|exact HM|lia]|].
    assert (Hk : represents (on_entry (with_mailbox drop_one) rcv (iw_ipc w)) (<[rcv := (q, mb_inbox_limit (en_mailbox receiver))]> M)).
    { eapply (represents_update _ _ (with_mailbox drop_one)); [done|exact Er|done|done|done|]. by apply (mailbox_ok_same (en_mailbox receiver)). }
    rewrite insert_id in Hk by done. by eapply represents_same; [|exact Hk].
  - eexists _, _. split.
    + apply (send_delivers _ _ _ _ _ _ _ _ _ c (mk_message (u64 (is_msg_id_counter (iw_ipc w) + 1)) (agent_number c) (get_agent_run_id c) rcv
        (get_timestamp_ns (sv_now env)) ty (family_flags isp isc fl) co copied) q (mb_inbox_limit (en_mailbox receiver))); [done|done|done|lia|].
      split_and!; [done..| |apply urgent_family]. unfold copied. cbn. by destruct p as [[|]|].
    + eapply represents_same; [|eapply (represents_update _ _ (with_mailbox (deposit _ fl)) rcv); [exact Hr|exact Er|done|done|done|]]; [done|].
      cbn [with_mailbox en_mailbox]. apply deposit_ok; [done|lia|apply urgent_family].
Qed.

Lemma send_trace env w M ctx rcv ty fl co p r evs M' : send_meaning env w M ctx rcv ty fl co p r evs M' -> mail_trace M evs M'.
Proof. destruct 1; [by apply trace_one; eapply step_deliver|by apply trace_one; eapply step_refuse|constructor]. Qed.

(** The events of a broadcast: deliveries to the recipients that the sender may
    reach, and refusals of full mailboxes. *)
Definition broadcast_event (env : nat -> send_env) (w : iworld) (c : agent_ref) (recipients : list Z) (ty fl : Z) (p : option bytes) (ev : mail_event) : Prop :=
  match ev with
  | Delivered r m => r ∈ recipients /\ carries c r ty fl 0 p m /\ exists i, may_send (env i) (send_all env w c (take i recipients) ty fl p).2 c r
  | Refused r => r ∈ recipients
  | _ => False
  end.
Definition accepted (ev : mail_event) : bool := match ev with Delivered _ m => 0 <=? s64 (msg_id m) | _ => false end.

Lemma send_result env w M ctx rcv ty fl co p r evs M' :
  send_meaning env w M ctx rcv ty fl co p r evs M' -> (if 0 <=? r then 1 else 0) = Z.of_nat (length (List.filter accepted evs)).
Proof.
  destruct 1 as [| |r Hr _]; [|done|].
  - cbn [List.filter accepted]. by destruct (0 <=? _).
  - cbn. destruct (Z.leb_spec 0 r) as [Hge|]; [|done]. exfalso.
    assert (Hneg : Forall (fun r => r < 0) [AK_E_IPC_NOT_INIT; - EINVAL; AK_E_IPC_MSG_TOO_LARGE; AK_E_IPC_NOT_REGISTERED; AK_E_IPC_NO_RECIPIENT; AK_E_IPC_NO_CAPABILITY; AK_E_IPC_PEER_DENIED; - ENOMEM])
      by (repeat (apply Forall_cons_2; [done|]); apply Forall_nil_2).
    rewrite Forall_forall in Hneg. specialize (Hneg r Hr). lia.
Qed.

Lemma send_all_spec env w M c rs ty fl p :
  represents (iw_ipc w) M ->
  let '(v, w') := send_all env w c rs ty fl p in
  exists evs M', mail_trace M evs M' /\ represents (iw_ipc w') M' /\ v = Z.of_nat (length (List.filter accepted evs)) /\
    Forall (broadcast_event env w c rs ty fl p) evs.
Proof.
  revert env w M. induction rs as [|r rs IH]; intros env w M Hr; cbn [send_all].
  { exists [], M. split_and!; [constructor|done|done|constructor]. }
  pose proof (send_spec (env 0%nat) w M (Some c) r ty fl 0 p Hr) as Hs. destruct (ipc_send_internal _ _ _ _ _ _ _ _) as [v1 w1] eqn:E1.
  destruct Hs as (ev1 & M1 & Hm & Hr1). specialize (IH (fun n => env (S n)) w1 M1 Hr1).
  destruct (send_all _ w1 _ _ _ _ _) as [v2 w2] eqn:E2. destruct IH as (ev2 & M2 & Ht & Hr2 & -> & Hf).
  exists (ev1 ++ ev2), M2. split_and!; [by eapply trace_app; [eapply send_trace|]|done| |].
  - rewrite (send_result _ _ _ _ _ _ _ _ _ _ _ _ Hm), List.filter_app, length_app. lia.
  - apply Forall_app. split.
    + destruct Hm as [c' m q l [= <-] Hmay HM Hroom Hc| |]; [|by apply Forall_singleton; left|constructor].
      apply Forall_singleton. split_and!; [left|done|]. exists 0%nat. cbn [take send_all snd]. done.
    + eapply Forall_impl; [exact Hf|]. intros [| |r' m'|r'| | | | | |]; cbn; try done; [|by right].
      intros (Hin & Hc & i & Hi). split_and!; [by right|done|]. exists (S i). cbn [take send_all]. rewrite E1. clear E2. revert Hi. by destruct (send_all _ w1 _ _ _ _ _).
Qed.

(** The number of the agent of a call. *)
Definition caller (ctx : option agent_ref) (pid : Z) : Prop := exists c, ctx = Some c /\ agent_number c = pid.

(** What each operation means for the queues, given its result. *)
Definition op_meaning (op : ipc_op) (w : iworld) (M : mail) (r : ipc_result) (evs : list mail_event) (M' : mail) : Prop :=
  match op, r with
  | OpSend env ctx rcv ty fl co p, RCode v => send_meaning env w M ctx rcv ty fl co p v evs M'
  | OpBroadcast env ctx ty fl p, RCode v =>
      (v < 0 /\ evs = []) \/
      exists c, ctx = Some c /\ v = Z.of_nat (length (List.filter accepted evs)) /\
        Forall (broadcast_event env w c (broadcast_recipients (iw_ipc w) (agent_number c)) ty (Z.lor fl AK_IPC_FLAG_BROADCAST) p) evs
  | OpRegister _ ctx _ _, RCode v => (v < 0 /\ evs = []) \/ exists pid, caller ctx pid /\ v = 0 /\ evs = [Opened pid]
  | OpUnregister ctx, RCode v => (v < 0 /\ evs = []) \/ exists pid, caller ctx pid /\ v = 0 /\ evs = [Closed pid]
  | OpLimit ctx n, RCode v => (v < 0 /\ evs = []) \/ exists pid, caller ctx pid /\ v = 0 /\ evs = [Limited pid n]
  | OpClear ctx, RCode v => (v < 0 /\ evs = []) \/ exists pid, caller ctx pid /\ evs = [Emptied pid v]
  | OpPoll c addr, RMessage m =>
      exists e, lookup_at (is_registry (iw_ipc w)) addr = Some e /\
        evs = if en_active e then
                [match m with Some m => match c with Some c => TakenFor (en_pid e) c m | None => Taken (en_pid e) m end | None => NothingFor (en_pid e) c end]
              else []
  | OpPoll _ addr, RGone => lookup_at (is_registry (iw_ipc w)) addr = None /\ evs = []
  | OpInit _, RCode v => v = 0 /\ evs = if is_initialized (iw_ipc w) then [] else [Reset]
  | OpShutdown, RCode _ => evs = if is_initialized (iw_ipc w) then [Reset] else []
  | (OpEnter _ | OpLeave _ | OpAddChild _ _ _ | OpRemoveChild _ _ | OpDiscover _ _ | OpGrant _ _ _ _ | OpRevoke _ | OpContext _ _ _), RCode _ => evs = []
  | _, _ => False
  end.

(** A step that keeps the queues, or makes one event. *)
Lemma step_keep op w M s' v :
  represents s' M -> op_meaning op w M (RCode v) [] M ->
  exists evs M', op_meaning op w M (RCode v) evs M' /\ mail_trace M evs M' /\ represents s' M'.
Proof. intros. exists [], M. split_and!; [done|constructor|done]. Qed.

Lemma step_event ev M' op w M s' v :
  mail_step M ev M' -> represents s' M' -> op_meaning op w M (RCode v) [ev] M' ->
  exists evs M', op_meaning op w M (RCode v) evs M' /\ mail_trace M evs M' /\ represents s' M'.
Proof. intros. exists [ev], M'. split_and!; [done|by apply trace_one|done]. Qed.

Lemma represents_tally k n s M : represents s M -> represents (tally k n s) M.
Proof. by apply represents_same. Qed.

(** The waiters of a mailbox change. *)
Lemma represents_waiter s M n addr : represents s M -> represents (with_registry (update_at (with_mailbox (add_waiter n)) addr (is_registry s)) s) M.
Proof.
  intros Hr. destruct (lookup_at (is_registry s) addr) as [e|] eqn:El.
  - destruct (en_active e) eqn:Ea.
    + apply lookup_at_elem in El as El'. assert (Hl : lookup_entry (is_registry s) (en_pid e) = Some e) by (apply lookup_elem; [apply Hr|naive_solver]).
      destruct (view_lookup _ _ _ _ Hr Hl) as (ms & HM & Hok).
      assert (H1 : mailbox_ok (en_mailbox (with_mailbox (add_waiter n) e)) ms) by (by apply (mailbox_ok_same (en_mailbox e))).
      pose proof (represents_at s M (with_mailbox (add_waiter n)) addr e Hr El (conj (fun _ => eq_refl) (conj (fun _ => eq_refl) (fun _ => eq_refl)))
        ltac:(congruence) ms (fun _ => H1)) as Hres. rewrite Ea in Hres. cbn [with_mailbox add_waiter en_mailbox mb_inbox_limit] in Hres. by rewrite insert_id in Hres.
    + apply lookup_at_elem in El as El'.
      pose proof (represents_at s M (with_mailbox (add_waiter n)) addr e Hr El (conj (fun _ => eq_refl) (conj (fun _ => eq_refl) (fun _ => eq_refl)))
        (fun _ => rs_dead _ _ Hr e (proj1 El') Ea) [] ltac:(congruence)) as Hres. by rewrite Ea in Hres.
  - unfold update_at. assert (Hid : forall x, x ∈ entries (is_registry s) -> at_addr addr x = false).
    { intros x Hx. destruct (at_addr addr x) eqn:Ex; [|done]. unfold lookup_at in El.
      destruct (list_find _ _) eqn:Ef; [done|]. apply list_find_None in Ef. rewrite Forall_forall in Ef. by destruct (Ef x Hx Ex). }
    replace (table_map _ (is_registry s)) with (is_registry s); [exact (represents_same s (with_registry (is_registry s) s) M eq_refl Hr)|]. unfold table_map.
    apply list_eq. intros i. rewrite list_lookup_fmap. destruct (is_registry s !! i) as [c|] eqn:Ec; cbn; [|done]. f_equal.
    rewrite <-(map_id c) at 1. apply map_ext_in. intros x Hx%list_elem_of_In. rewrite Hid; [done|]. apply entries_elem. eauto.
Qed.

(** One look at a queue that represents [ms]. *)
Lemma poll_mailbox c mb ms pid limit (M : mail) :
  mailbox_ok mb ms -> M !! pid = Some (ms, limit) -> exists ms',
  mailbox_ok (take_message (poll_picker c) mb).2 ms' /\ mb_inbox_limit (take_message (poll_picker c) mb).2 = mb_inbox_limit mb /\
  mail_step M (match (take_message (poll_picker c) mb).1 with
               | Some m => match c with Some c => TakenFor pid c m | None => Taken pid m end
               | None => NothingFor pid c
               end) (<[pid := (ms', limit)]> M).
Proof.
  intros Hok HM. pose proof (ok_rep _ _ Hok) as Hrep. destruct c as [c|]; cbn [poll_picker].
  - pose proof (dequeue_if_rep (correlates c) _ _ Hrep) as Hd. destruct (dequeue_if (correlates c) (mb_inbox mb)) as [[m q]|] eqn:Ep.
    + destruct Hd as (q1 & q2 & -> & Hf & Hm & Hq). destruct (take_ok _ _ _ _ _ _ Hok Ep Hq) as (E1 & H1 & E2). exists (q1 ++ q2). rewrite E1.
      split_and!; [done|done|by eapply step_take_for].
    + destruct (take_none _ _ _ Hok Ep) as (E1 & H1 & E2). exists ms. rewrite E1, insert_id by done. split_and!; [done|done|by eapply step_nothing_for].
  - pose proof (dequeue_rep _ _ Hrep) as Hd. destruct (dequeue (mb_inbox mb)) as [[m q]|] eqn:Ep.
    + destruct Hd as (q2 & -> & Hq). destruct (take_ok _ _ [] _ _ _ Hok Ep Hq) as (E1 & H1 & E2). exists q2. rewrite E1. split_and!; [done|done|by eapply step_take].
    + subst ms. destruct (take_none _ _ _ Hok Ep) as (E1 & H1 & E2). exists []. rewrite E1, insert_id by done. split_and!; [done|done|by eapply step_nothing].
Qed.

(** An inbox without messages has none to give. *)
Lemma poll_dead c mb : rep (mb_inbox mb) [] -> (take_message (poll_picker c) mb).1 = None /\ mb_inbox (take_message (poll_picker c) mb).2 = mb_inbox mb.
Proof.
  intros Hrep. unfold take_message. destruct c as [c|]; cbn [poll_picker].
  - pose proof (dequeue_if_rep (correlates c) _ _ Hrep) as Hd. destruct (dequeue_if _ _) as [[m q]|]; [|done]. by destruct Hd as ([|] & ? & ? & _).
  - pose proof (dequeue_rep _ _ Hrep) as Hd. destruct (dequeue _) as [[m q]|]; [|done]. by destruct Hd as (? & ? & _).
Qed.

Lemma poll_spec w M c addr :
  represents (iw_ipc w) M ->
  match recv_poll (poll_picker c) addr (iw_ipc w) with
  | Ret (m, s') => exists evs M', op_meaning (OpPoll c addr) w M (RMessage m) evs M' /\ mail_trace M evs M' /\ represents s' M'
  | Oob => lookup_at (is_registry (iw_ipc w)) addr = None
  | Null => False
  end.
Proof.
  intros Hr. unfold recv_poll. destruct (lookup_at (is_registry (iw_ipc w)) addr) as [e|] eqn:El; [|done]. cbv zeta.
  assert (Hplace : same_place (with_mailbox (fun mb => (take_message (poll_picker c) mb).2))) by (by split_and!).
  assert (Hleave : forall s' M', represents s' M' ->
    represents (match (take_message (poll_picker c) (en_mailbox e)).1 with Some _ => recv_leave messages_received addr s' | None => s' end) M').
  { intros s' M' Hs. destruct (take_message _ _).1; [|done]. by apply represents_tally, represents_waiter. }
  destruct (lookup_at_elem _ _ _ El) as [Hin Haddr]. destruct (en_active e) eqn:Ea.
  - assert (Hl : lookup_entry (is_registry (iw_ipc w)) (en_pid e) = Some e) by (apply lookup_elem; [apply Hr|done]).
    destruct (view_lookup _ _ _ _ Hr Hl) as (ms & HM & Hok). destruct (poll_mailbox c _ _ _ _ _ Hok HM) as (ms' & Hok' & Elim & Hstep).
    eexists _, _. split; [exists e; split; [done|]; rewrite Ea; reflexivity|]. split; [by apply trace_one|].
    apply Hleave. pose proof (represents_at _ _ (with_mailbox (fun mb => (take_message (poll_picker c) mb).2)) addr e Hr El Hplace ltac:(congruence) ms' (fun _ => Hok')) as Hres.
    rewrite Ea in Hres. cbn [with_mailbox en_mailbox] in Hres. by rewrite Elim in Hres.
  - destruct (poll_dead c (en_mailbox e) (rs_dead _ _ Hr e Hin Ea)) as [E1 E2].
    exists [], M. split; [exists e; split; [done|]; by rewrite Ea|]. split; [constructor|]. apply Hleave.
    assert (Hd : rep (mb_inbox (en_mailbox (with_mailbox (fun mb => (take_message (poll_picker c) mb).2) e))) [])
      by (cbn [with_mailbox en_mailbox]; rewrite E2; by apply (rs_dead _ _ Hr)).
    pose proof (represents_at _ _ (with_mailbox (fun mb => (take_message (poll_picker c) mb).2)) addr e Hr El Hplace (fun _ => Hd) [] ltac:(congruence)) as Hres.
    by rewrite Ea in Hres.
Qed.

(** Calls of the registry: without a change, or with one event. *)
Lemma register_step env ctx name d w M :
  represents (iw_ipc w) M ->
  let '(v, s') := ak_agent_register env (iw_ipc w) ctx name d in
  exists evs M', op_meaning (OpRegister env ctx name d) w M (RCode v) evs M' /\ mail_trace M evs M' /\ represents s' M'.
Proof.
  intros Hr. unfold ak_agent_register.
  assert (Hno : forall v, v < 0 -> exists evs M', op_meaning (OpRegister env ctx name d) w M (RCode v) evs M' /\ mail_trace M evs M' /\ represents (iw_ipc w) M')
    by (intros v Hv; apply step_keep; [done|by left]).
  destruct (is_initialized (iw_ipc w)); cbn [negb]; [|by apply Hno]. destruct ctx as [c|]; [|by apply Hno]. destruct name as [name|]; [|by apply Hno]. cbv zeta.
  destruct (_ <=? _); [by apply Hno|]. destruct (_ =? 0); [by apply Hno|]. case_bool_decide as Hn; [by apply Hno|].
  destruct (d && _); [by apply Hno|]. destruct (rg_entry env); cbn [negb]; [|by apply Hno]. destruct (rg_mailbox env); cbn [negb]; [|by apply Hno].
  match goal with |- context [table_push _ _ ?e] => set (e0 := e) end.
  apply (step_event (Opened (agent_number c)) (<[agent_number c := ([], AK_IPC_DEFAULT_INBOX_LIMIT)]> M)).
  - constructor. pose proof (rs_view _ _ Hr (agent_number c)) as Hv. by destruct (lookup_entry _ (agent_number c)); [destruct Hn|].
  - do 2 apply represents_tally. apply (represents_register _ _ e0); [done|done| |unfold e0; cbn [en_addr]|].
    + cbn. destruct (lookup_entry _ _); [by destruct Hn|done].
    + pose proof (new_addr_fresh (used_addrs (is_registry (iw_ipc w)))) as Hf. unfold used_addrs in Hf at 2. by rewrite elem_of_list_to_set in Hf.
    + split; cbn; [apply rep_empty|done|done|lia|unfold AK_IPC_DEFAULT_INBOX_LIMIT; lia].
  - right. exists (agent_number c). split; [by exists c|done].
Qed.

(** Calls that leave the mailboxes alone. *)
Lemma add_child_keep grow s ctx child M : represents s M -> represents (ak_agent_add_child grow s ctx child).2 M.
Proof.
  intros Hr. unfold ak_agent_add_child. destruct (is_initialized s); [|done]. destruct ctx as [c|]; [|done]. cbn [negb].
  destruct (bool_decide _); [|done]. cbn [negb]. cbv zeta.
  assert (H1 : represents (on_entry (with_parent (agent_number c)) child s) M) by (by apply represents_keep).
  destruct (lookup_entry _ (agent_number c)); [|done]. destruct (_ && negb grow); [done|]. by apply represents_keep.
Qed.

Lemma remove_child_keep s ctx child M : represents s M -> represents (ak_agent_remove_child s ctx child).2 M.
Proof.
  intros Hr. unfold ak_agent_remove_child. destruct (is_initialized s); [|done]. destruct ctx as [c|]; [|done]. cbn [negb]. cbv zeta.
  destruct (lookup_entry (is_registry s) (agent_number c)) as [e|]; [|done].
  assert (H1 : represents (on_entry (with_children (remove_first child (en_children e)) (en_child_capacity e)) (agent_number c) s) M) by (by apply represents_keep).
  destruct (lookup_entry _ child); [|done]. destruct (_ =? _); [by apply represents_keep|done].
Qed.

Lemma grant_keep grow s ctx peers b M : represents s M -> represents (ak_ipc_grant_capability grow s ctx peers b).2 M.
Proof.
  intros Hr. unfold ak_ipc_grant_capability. destruct (is_initialized s); [|done]. destruct ctx as [c|]; [|done]. cbn [negb]. cbv zeta.
  destruct (lookup_entry _ _); [|done]. destruct peers as [[|x l]|]; [by apply represents_keep| |by apply represents_keep].
  destruct grow; by apply represents_keep.
Qed.

Lemma revoke_keep s ctx M : represents s M -> represents (ak_ipc_revoke_capability s ctx).2 M.
Proof.
  intros Hr. unfold ak_ipc_revoke_capability. destruct (is_initialized s); [|done]. destruct ctx as [c|]; [|done]. cbn [negb]. cbv zeta.
  destruct (lookup_entry _ _); [by apply represents_keep|done].
Qed.

(** A call on the mailbox of a registered agent. *)
Ltac on_registered w ctx Hr e ms HM Hok :=
  destruct (is_initialized (iw_ipc w)); cbn [negb]; [|by apply step_keep; [done|left]];
  destruct ctx as [c|]; [|by apply step_keep; [done|left]]; cbv zeta;
  destruct (lookup_entry (is_registry (iw_ipc w)) (agent_number c)) as [e|] eqn:He; [|by apply step_keep; [done|left]];
  destruct (view_lookup _ _ _ _ Hr He) as (ms & HM & Hok).

Lemma unregister_step ctx w M :
  represents (iw_ipc w) M ->
  let '(v, s') := ak_agent_unregister (iw_ipc w) ctx in
  exists evs M', op_meaning (OpUnregister ctx) w M (RCode v) evs M' /\ mail_trace M evs M' /\ represents s' M'.
Proof.
  intros Hr. unfold ak_agent_unregister. on_registered w ctx Hr e ms HM Hok.
  apply (step_event (Closed (agent_number c)) (delete (agent_number c) M)).
  - constructor. by rewrite HM.
  - do 2 apply represents_tally. by eapply represents_retire.
  - right. exists (agent_number c). split; [by exists c|done].
Qed.

Lemma limit_step ctx n w M :
  represents (iw_ipc w) M ->
  let '(v, s') := ak_ipc_set_inbox_limit (iw_ipc w) ctx n in
  exists evs M', op_meaning (OpLimit ctx n) w M (RCode v) evs M' /\ mail_trace M evs M' /\ represents s' M'.
Proof.
  intros Hr. unfold ak_ipc_set_inbox_limit. destruct (is_initialized (iw_ipc w)) eqn:Ei; cbn [negb]; [|by apply step_keep; [done|left]].
  destruct ctx as [c|]; [|by apply step_keep; [done|left]]. destruct (Z.ltb_spec n 1) as [|Hlo]; [by apply step_keep; [done|left]|].
  destruct (Z.ltb_spec 10000 n) as [|Hhi]; [by apply step_keep; [done|left]|]. cbn [orb]. cbv zeta.
  destruct (lookup_entry (is_registry (iw_ipc w)) (agent_number c)) as [e|] eqn:He; [|by apply step_keep; [done|left]].
  destruct (view_lookup _ _ _ _ Hr He) as (ms & HM & [H1 H2 H3 H4 H5]).
  apply (step_event (Limited (agent_number c) n) (<[agent_number c := (ms, n)]> M)).
  - eapply step_limit; [done|lia].
  - apply (represents_update _ _ (with_mailbox (with_limit n)) _ e); [done..|]. split; cbn; (done || lia).
  - right. exists (agent_number c). split; [by exists c|done].
Qed.

Lemma clear_step ctx w M :
  represents (iw_ipc w) M ->
  let '(v, s') := ak_ipc_clear_mailbox (iw_ipc w) ctx in
  exists evs M', op_meaning (OpClear ctx) w M (RCode v) evs M' /\ mail_trace M evs M' /\ represents s' M'.
Proof.
  intros Hr. unfold ak_ipc_clear_mailbox. on_registered w ctx Hr e ms HM Hok. rewrite (ok_count _ _ Hok).
  apply (step_event (Emptied (agent_number c) (Z.of_nat (length ms))) (<[agent_number c := ([], mb_inbox_limit (en_mailbox e))]> M)).
  - by constructor.
  - apply (represents_update _ _ (with_mailbox cleared) _ e); [done..|]. by eapply cleared_ok.
  - right. exists (agent_number c). split; [by exists c|done].
Qed.

Lemma broadcast_step env ctx ty fl p w M :
  represents (iw_ipc w) M ->
  let '(v, w') := ak_ipc_broadcast env w ctx ty fl p in
  exists evs M', op_meaning (OpBroadcast env ctx ty fl p) w M (RCode v) evs M' /\ mail_trace M evs M' /\ represents (iw_ipc w') M'.
Proof.
  intros Hr. unfold ak_ipc_broadcast. destruct (is_initialized (iw_ipc w)); cbn [negb]; [|by apply step_keep; [done|left]].
  destruct ctx as [c|]; [|by apply step_keep; [done|left]]. destruct (lookup_entry _ _) as [e|]; [|by apply step_keep; [done|left]].
  destruct (en_has_broadcast_cap e); cbn [negb]; [|by apply step_keep; [apply represents_tally|left]].
  pose proof (send_all_spec env w M c (broadcast_recipients (iw_ipc w) (agent_number c)) ty (Z.lor fl AK_IPC_FLAG_BROADCAST) p Hr) as Hs.
  destruct (send_all _ _ _ _ _ _ _) as [v w1]. destruct Hs as (evs & M' & Ht & Hr' & Hv & Hf).
  exists evs, M'. split_and!; [right; by exists c|done|by apply represents_tally].
Qed.

Lemma do_spec op w M :
  represents (iw_ipc w) M ->
  let '(r, w') := ipc_do op w in
  exists evs M', op_meaning op w M r evs M' /\ mail_trace M evs M' /\ represents (iw_ipc w') M'.
Proof.
  intros Hr. destruct op; cbn [ipc_do]; unfold code; cbn [fst snd with_ipc iw_ipc].
  - unfold ak_agent_ipc_init. destruct (is_initialized (iw_ipc w)) eqn:Ei; cbn [fst snd with_ipc iw_ipc].
    + apply step_keep; [done|]. split; [done|]. by rewrite Ei.
    + apply (step_event Reset ∅); [constructor|apply represents_empty|]. split; [done|]. by rewrite Ei.
  - unfold ak_agent_ipc_shutdown. destruct (is_initialized (iw_ipc w)) eqn:Ei; cbn [negb].
    + apply (step_event Reset ∅); [constructor|apply represents_empty|]. cbn. by rewrite Ei.
    + apply step_keep; [done|]. cbn. by rewrite Ei.
  - pose proof (register_step env ctx name discoverable w M Hr) as Hs. by destruct (ak_agent_register _ _ _ _ _).
  - pose proof (unregister_step ctx w M Hr) as Hs. by destruct (ak_agent_unregister _ _).
  - pose proof (send_spec env w M ctx receiver_pid type flags correlation payload Hr) as Hs. destruct (ipc_send_internal _ _ _ _ _ _ _ _) as [v w'].
    destruct Hs as (evs & M' & Hm & Hr'). exists evs, M'. split_and!; [done|by eapply send_trace|done].
  - pose proof (broadcast_step env ctx type flags payload w M Hr) as Hs. by destruct (ak_ipc_broadcast _ _ _ _ _ _).
  - apply step_keep; [by apply represents_waiter|done].
  - pose proof (poll_spec w M correlation addr Hr) as Hs. destruct (recv_poll _ _ _) as [[m s']| |]; [exact Hs|done|].
    exists [], M. split_and!; [done|constructor|done].
  - apply step_keep; [by apply represents_tally, represents_waiter|done].
  - apply step_keep; [by apply add_child_keep|done].
  - apply step_keep; [by apply remove_child_keep|done].
  - unfold ak_agent_discover. destruct (is_initialized (iw_ipc w)); cbn [negb]; [|by apply step_keep]. destruct pattern; [|by apply step_keep].
    destruct (max_pids =? 0); apply step_keep; cbn [with_ipc iw_ipc]; [done|done|by do 2 apply represents_tally|done].
  - pose proof (limit_step ctx limit w M Hr) as Hs. by destruct (ak_ipc_set_inbox_limit _ _ _).
  - pose proof (clear_step ctx w M Hr) as Hs. by destruct (ak_ipc_clear_mailbox _ _).
  - apply step_keep; [by apply grant_keep|done].
  - apply step_keep; [by apply revoke_keep|done].
  - by apply step_keep.
Qed.

(** ** Runs *)

Inductive mail_run (w : iworld) (M : mail) : list ipc_op -> list ipc_result -> list mail_event -> iworld -> mail -> Prop :=
| run_nil : mail_run w M [] [] [] w M
| run_cons op r w1 evs M1 ops rs evs' w2 M2 :
    ipc_do op w = (r, w1) -> op_meaning op w M r evs M1 -> mail_run w1 M1 ops rs evs' w2 M2 ->
    mail_run w M (op :: ops) (r :: rs) (evs ++ evs') w2 M2.

Lemma runs_explained ops w M :
  represents (iw_ipc w) M -> exists rs evs w' M', mail_run w M ops rs evs w' M' /\ mail_trace M evs M' /\ represents (iw_ipc w') M'.
Proof.
  revert w M. induction ops as [|op ops IH]; intros w M Hr.
  { exists [], [], w, M. split_and!; [constructor|constructor|done]. }
  pose proof (do_spec op w M Hr) as Hd. destruct (ipc_do op w) as [r w1] eqn:E. destruct Hd as (evs & M1 & Hm & Ht & Hr1).
  destruct (IH w1 M1 Hr1) as (rs & evs' & w2 & M2 & Hrun & Ht' & Hr2). exists (r :: rs), (evs ++ evs'), w2, M2.
  split_and!; [by econstructor|by eapply trace_app|done].
Qed.

Definition ipc_boot (m : ctx_module) (c : option ak_ctx) (e : effects_state) : iworld :=
  mk_iworld (mk_ipc_state false (empty_table REGISTRY_HASH_SIZE) 0 no_stats) m c e.

(** C32: the mailboxes refine bounded queues.  Along every sequence of calls, with
    the polls of waiting receivers in any order between them, each call acts on
    the queues as its result says: a message that is accepted is appended to the
    queue of its receiver, which has room; a receiver is given the first message
    (the first with its correlation), or nothing when there is none; nothing
    else changes a queue.  The counts that the module keeps are the lengths of
    the queues. *)
Theorem mailboxes_refine_queues m c e ops :
  exists rs evs w M, mail_run (ipc_boot m c e) ∅ ops rs evs w M /\ mail_trace ∅ evs M /\
    forall a, is_initialized (iw_ipc w) = true ->
      ak_ipc_peek (iw_ipc w) (Some a) = match M !! agent_number a with Some (q, _) => Z.of_nat (length q) | None => AK_E_IPC_NO_MAILBOX end /\
      ak_ipc_peek_urgent (iw_ipc w) (Some a) =
        match M !! agent_number a with Some (q, _) => Z.of_nat (length (List.filter urgent q)) | None => AK_E_IPC_NO_MAILBOX end.
Proof.
  destruct (runs_explained ops (ipc_boot m c e) ∅ (represents_empty _ _ _)) as (rs & evs & w & M & Hrun & Ht & Hr).
  exists rs, evs, w, M. split_and!; [done|done|]. intros a Hi. unfold ak_ipc_peek, ak_ipc_peek_urgent, of_mailbox. rewrite Hi. cbn [negb].
  pose proof (rs_view _ _ Hr (agent_number a)) as Hv. destruct (lookup_entry _ _) as [x|]; cbn in Hv; [|by rewrite Hv].
  destruct Hv as (ms & -> & Hok). split; [apply Hok|apply Hok].
Qed.

(** ** First in, first out *)

Definition delivered (pid : Z) (evs : list mail_event) : list ak_ipc_message :=
  omap (fun ev => match ev with Delivered p m => if decide (p = pid) then Some m else None | _ => None end) evs.
Definition taken (pid : Z) (evs : list mail_event) : list ak_ipc_message :=
  omap (fun ev => match ev with Taken p m => if decide (p = pid) then Some m else None | _ => None end) evs.
(** The agent stays registered, receives in order and does not empty its mailbox. *)
Definition plain_event (pid : Z) (ev : mail_event) : Prop :=
  match ev with Closed p | Opened p | Emptied p _ | TakenFor p _ _ => p <> pid | Reset => False | _ => True end.

Lemma trace_fifo pid M evs M' q limit :
  mail_trace M evs M' -> Forall (plain_event pid) evs -> M !! pid = Some (q, limit) ->
  exists q' limit', M' !! pid = Some (q', limit') /\ q ++ delivered pid evs = taken pid evs ++ q'.
Proof.
  intros Ht. induction Ht as [|evs M1 ev M2 Ht IH Hs]; intros Hp HM; [exists q, limit; split; [done|apply app_nil_r]|].
  apply Forall_app in Hp as [Hp Hev]. rewrite Forall_singleton in Hev. destruct (IH Hp HM) as (q1 & l1 & H1 & E1).
  unfold delivered, taken in *. rewrite !omap_app.
  destruct Hs as [p Hn|p Hsome|p q2 l2 m H2 Hroom|p q2 l2 H2 Hroom|p q2 l2 m H2|p qa m qb l2 c H2 Hf Hc|p l2 H2|p q2 l2 c H2 Hf|p q2 l2 H2|p q2 l2 l3 H2 Hl|];
    cbn [omap list_omap plain_event] in *; rewrite ?app_nil_r.
  - exists q1, l1. rewrite lookup_insert_ne by done. by split.
  - exists q1, l1. rewrite lookup_delete_ne by done. by split.
  - destruct (decide (p = pid)) as [->|Hne].
    + rewrite H1 in H2. injection H2 as <- <-. exists (q1 ++ [m]), l1. rewrite lookup_insert_eq. split; [done|]. by rewrite !app_assoc, E1.
    + exists q1, l1. rewrite lookup_insert_ne by done. split; [done|]. by rewrite ?app_nil_r.
  - by exists q1, l1.
  - destruct (decide (p = pid)) as [->|Hne].
    + rewrite H1 in H2. injection H2 as -> <-. exists q2, l1. rewrite lookup_insert_eq. split; [done|]. by rewrite E1, <-app_assoc.
    + exists q1, l1. rewrite lookup_insert_ne by done. split; [done|]. by rewrite ?app_nil_r.
  - exists q1, l1. rewrite lookup_insert_ne by done. by split.
  - by exists q1, l1.
  - by exists q1, l1.
  - exists q1, l1. rewrite lookup_insert_ne by done. by split.
  - destruct (decide (p = pid)) as [->|Hne].
    + rewrite H1 in H2. injection H2 as <- <-. exists q1, l3. by rewrite lookup_insert_eq.
    + exists q1, l1. rewrite lookup_insert_ne by done. by split.
  - done.
Qed.

(** Between two points of a run, an agent that stays registered and only takes
    the next message has received exactly the messages that were waiting and that
    were delivered, in this order, and the rest still waits. *)
Theorem messages_arrive_in_order w M ops pid q limit :
  represents (iw_ipc w) M -> M !! pid = Some (q, limit) ->
  exists rs evs w' M', mail_run w M ops rs evs w' M' /\
    (Forall (plain_event pid) evs -> exists q' limit', M' !! pid = Some (q', limit') /\ q ++ delivered pid evs = taken pid evs ++ q').
Proof.
  intros Hr HM. destruct (runs_explained ops w M Hr) as (rs & evs & w' & M' & Hrun & Ht & _). exists rs, evs, w', M'.
  split; [done|]. intros Hp. by eapply trace_fifo.
Qed.

(** ** Authorisation *)

Definition related (w : iworld) (c : agent_ref) (receiver_pid : Z) : Prop :=
  exists sender receiver,
    lookup_entry (is_registry (iw_ipc w)) (agent_number c) = Some sender /\ lookup_entry (is_registry (iw_ipc w)) receiver_pid = Some receiver /\
    (en_parent_pid receiver = agent_number c \/ en_parent_pid sender = receiver_pid).
Definition room (M : mail) (pid : Z) : Prop := exists q limit, M !! pid = Some (q, limit) /\ Z.of_nat (length q) < limit.

(** No policy has rules for messages. *)
Lemma peer_never_authorised env w ctx a b : iw_ctx w = Some ctx -> in_force ctx -> (authorize_peer env w a b).1 = false.
Proof.
  intros Hc (Hv & Hm & Hb). unfold authorize_peer. rewrite Hc.
  assert (Hoff : (cx_mode ctx =? AK_MODE_OFF) = false) by (rewrite !elem_of_cons, elem_of_nil in Hm; destruct Hm as [->|[->|[]]]; done).
  rewrite Hoff. unfold ak_trace_id_generate. rewrite Hv. cbn [negb].
  set (c1 := set_cx_counter _ ctx). set (req := send_request _ a b).
  assert (Hf : in_force c1) by done. rewrite (gate_in_force env (iw_eff w) c1 req Hf ltac:(split; [by vm_compute|cbn; lia])).
  pose proof (policy_gate_decides env (with_ef_stats (count_request (er_op req)) (iw_eff w)) c1 req) as Hd.
  destruct (policy_gate _ _ _ _) as [[[e' c'] d] r]. destruct Hd as [_ Hiff]. cbn [fst]. destruct (Z.eqb_spec r 0) as [Hr|]; [|done].
  apply Hiff in Hr as (p & _ & _ & Hg & _). exfalso. unfold grants in Hg. cbn [req send_request er_op] in Hg.
  destruct_or! Hg; destruct Hg as [Hop _]; try discriminate Hop; rewrite !elem_of_cons, elem_of_nil in Hop; destruct_or! Hop; (discriminate Hop || done).
Qed.

(** C33: deliveries are authorised.  In an initialised system and with memory for
    it, a message of at most 64 KiB is delivered exactly when the sender and the
    receiver are registered, one is the parent of the other or the sender holds
    the message capability and the policy of the current thread's context agrees,
    and the mailbox of the receiver has room; it is a copy that carries the
    identity of the sender.  Otherwise the call fails and no queue changes.
    When that policy is in force, only parents and children reach each other. *)
Theorem delivery_authorised env w M c rcv ty fl co p :
  represents (iw_ipc w) M -> is_initialized (iw_ipc w) = true -> Z.of_nat (length (default [] p)) <= AK_IPC_MAX_PAYLOAD_SIZE -> has_memory env p ->
  let '(r, w') := ipc_send_internal env w (Some c) rcv ty fl co p in
  (may_send env w c rcv -> room M rcv ->
     exists m q limit, M !! rcv = Some (q, limit) /\ carries c rcv ty fl co p m /\ r = s64 (msg_id m) /\
       represents (iw_ipc w') (<[rcv := (q ++ [m], limit)]> M)) /\
  (~ (may_send env w c rcv /\ room M rcv) -> r < 0 /\ represents (iw_ipc w') M) /\
  (forall ctx, iw_ctx w = Some ctx -> in_force ctx -> may_send env w c rcv -> related w c rcv).
Proof.
  intros Hr Hi Hlen Hmem. pose proof (send_spec env w M (Some c) rcv ty fl co p Hr) as Hs.
  destruct (ipc_send_internal _ _ _ _ _ _ _ _) as [r w']. destruct Hs as (evs & M' & Hm & Hr'). split_and!.
  - intros Hmay (q & l & HM & Hroom). destruct Hm as [c' m q' l' [= <-] _ HM' _ Hc|c' q' l' [= <-] _ HM' Hfull|r _ Hno].
    + by exists m, q', l'.
    + rewrite HM in HM'. injection HM' as <- <-. lia.
    + destruct Hno. split_and!; [done..|]. by exists c.
  - intros Hno. destruct Hm as [c' m q' l' [= <-] Hmay HM' Hroom Hc|c' q' l' [= <-] _ HM' Hfull|r Hin _].
    + destruct Hno. split; [done|]. by exists q', l'.
    + done.
    + split; [|done]. revert Hin. generalize r. apply Forall_forall. repeat (apply Forall_cons_2; [done|]). apply Forall_nil_2.
  - intros ctx Hc Hf (s & e & Hs & He & [?|[?|[_ Hg]]]); [exists s, e; auto..|]. by rewrite (peer_never_authorised _ _ ctx) in Hg.
Qed.

(** ** Receiving *)

Lemma recv_loop_ends n fuel clock others pick addr deadline s :
  deadline <= clock n -> (n < fuel)%nat -> exists r, recv_loop fuel clock others pick addr deadline s = Some r.
Proof.
  revert fuel clock others s. induction n as [|n IH]; intros [|fuel] clock others s Hd Hf; try lia; cbn [recv_loop].
  - destruct (recv_poll pick addr s) as [[[m|] s']| |]; try by eexists. destruct (Z.leb_spec deadline (clock 0%nat)); [by eexists|lia].
  - destruct (recv_poll pick addr s) as [[[m|] s']| |]; try by eexists. destruct (deadline <=? clock 0%nat); [by eexists|].
    apply (IH fuel (fun k => clock (S k))); [done|lia].
Qed.

Lemma lookup_at_some t e : NoDup (en_addr <$> entries t) -> e ∈ entries t -> lookup_at t (en_addr e) = Some e.
Proof.
  intros Hn He. destruct (lookup_at t (en_addr e)) as [e'|] eqn:El.
  - apply lookup_at_elem in El as [He' Ea]. f_equal. by apply (addr_unique t).
  - unfold lookup_at in El. destruct (list_find _ _) eqn:Ef; [done|]. apply list_find_None in Ef. rewrite Forall_forall in Ef.
    destruct (Ef e He). by apply Z.eqb_eq.
Qed.

(** The first poll of a receiver for whom a message waits. *)
Lemma poll_first s M pid e m q limit :
  represents s M -> lookup_entry (is_registry s) pid = Some e -> M !! pid = Some (m :: q, limit) ->
  exists s', recv_poll dequeue (en_addr e) (recv_enter (en_addr e) s) = Ret (Some m, s') /\ represents s' (<[pid := (q, limit)]> M).
Proof.
  intros Hr He HM. assert (Hr1 : represents (recv_enter (en_addr e) s) M) by (by apply represents_waiter).
  destruct (lookup_at_update (with_mailbox (add_waiter 1)) (en_addr e) _ pid (rs_wf _ _ Hr) ltac:(done) ltac:(done)) as [_ He1].
  rewrite He in He1. cbn [fmap option_fmap option_map] in He1. unfold at_addr in He1. rewrite Z.eqb_refl in He1.
  set (e1 := with_mailbox (add_waiter 1) e) in *. change (en_addr e) with (en_addr e1). change (en_addr e) with (en_addr e1) in Hr1, He1.
  assert (Hat : lookup_at (is_registry (recv_enter (en_addr e1) s)) (en_addr e1) = Some e1).
  { apply lookup_at_some; [apply Hr1|]. by apply lookup_elem in He1 as [? _]; [|apply Hr1]. }
  apply lookup_elem in He1 as (_ & Hact & Hpid); [|apply Hr1].
  pose proof (poll_spec (with_ipc (recv_enter (en_addr e1) s)
    (ipc_boot (mk_ctx_module false false 0 None zero_ctx_stats) None (mk_effects_state (mk_effects_stats 0 0 0 [] []) 0 [] false))) M None (en_addr e1) Hr1) as Hp.
  cbn [poll_picker with_ipc iw_ipc] in Hp. destruct (recv_poll dequeue (en_addr e1) _) as [[m' s']| |]; [|done|congruence].
  destruct Hp as (evs & M' & (e' & Hl & Hev) & Ht & Hr'). cbn [with_ipc iw_ipc] in Hl. rewrite Hat in Hl. injection Hl as <-. rewrite Hact, Hpid in Hev. subst evs.
  inversion Ht as [|evs0 M1 ev M2 Ht0 Hs Eevs]; subst. apply (app_inj_2 evs0 []) in Eevs as [-> [= ->]]; [|done].
  inversion Ht0 as [|x1 x2 x3 x4 x5 x6 Ex]; subst; [|by destruct x1].
  destruct m' as [m'|]; inversion Hs; simplify_map_eq; eauto.
Qed.

(** A receive returns: at once with the first message when one waits, and in any
    case by the poll at which the clock reaches the deadline, whatever happens
    meanwhile. *)
Theorem receive_returns s M c start clock others timeout n fuel :
  represents s M -> is_initialized s = true -> recv_deadline start timeout <= clock n -> (n < fuel)%nat ->
  (exists r, ak_ipc_recv fuel start clock others s (Some c) timeout = Some r) /\
  (forall m q limit, M !! agent_number c = Some (m :: q, limit) ->
     exists s', ak_ipc_recv fuel start clock others s (Some c) timeout = Some (Ret (Some m, s')) /\ represents s' (<[agent_number c := (q, limit)]> M)).
Proof.
  intros Hr Hi Hd Hf. unfold ak_ipc_recv, recv_with. rewrite Hi. cbn [negb]. cbv zeta. split.
  - destruct (lookup_entry _ _); [by eapply recv_loop_ends|by eexists].
  - intros m q limit HM. pose proof (rs_view _ _ Hr (agent_number c)) as Hv. destruct (lookup_entry (is_registry s) (agent_number c)) as [e|] eqn:He.
    2:{ cbn in Hv. congruence. }
    destruct (poll_first s M _ e m q limit Hr He HM) as (s' & Hp & Hr'). destruct fuel as [|fuel]; [lia|]. cbn [recv_loop]. rewrite Hp. by exists s'.
Qed.

End Runs.

(** ** Examples *)

Definition demo_agent (n : Z) (parent : option Z) : agent_ref := mk_agent (le_enc 16 n) (replicate 16 (n + 100)) (le_enc 16 <$> parent).
Definition mail_env : send_env := mk_senv (mk_gate_env 0 0 0 0 true) true true 7.
Definition mail_boot : iworld :=
  ipc_boot (mk_ctx_module true true 4 None zero_ctx_stats) None (mk_effects_state (mk_effects_stats 0 0 0 (zeros 16) (zeros 16)) 0 (zeros 16) false).
Definition ipc_exec (ops : list ipc_op) (w : iworld) : iworld := foldl (fun w op => (ipc_do op w).2) w ops.
Definition register_op (n : Z) (parent : option Z) : ipc_op :=
  OpRegister (mk_renv true true 5) (Some (demo_agent n parent)) (Some (65 + n :: B"gent")) true.

(** Agent 1 with its child 2, and the unrelated agents 3 and 4. *)
Definition three_agents : iworld := ipc_exec [OpInit 1000; register_op 1 None; register_op 2 (Some 1); register_op 3 None; register_op 4 None] mail_boot.
Definition sent_by (n : Z) (w : iworld) (receiver flags : Z) : Z * iworld := ak_ipc_send mail_env w (Some (demo_agent n None)) receiver 9 flags (Some B"hello").
Definition queue_length (w : iworld) (n : Z) : Z := ak_ipc_peek (iw_ipc w) (Some (demo_agent n None)).

Example family_talks :
  queue_length (sent_by 1 three_agents 2 0).2 2 = 1 /\ queue_length (sent_by 2 three_agents 1 0).2 1 = 1 /\
  (sent_by 3 three_agents 2 0).1 = AK_E_IPC_NO_CAPABILITY /\ (sent_by 1 three_agents 9 0).1 = AK_E_IPC_NO_RECIPIENT.
Proof. vm_compute. repeat split. Qed.

(** A capability for one peer lets the agent write to every other one, although
    the query for the capability says no. *)
Example peers_not_enforced :
  let w := (ipc_do (OpGrant true (Some (demo_agent 3 None)) (Some [4]) false) three_agents).2 in
  ak_ipc_has_capability (iw_ipc w) (Some (demo_agent 3 None)) 2 = false /\ queue_length (sent_by 3 w 2 0).2 2 = 1.
Proof. vm_compute. repeat split. Qed.

(** Without a capability, an agent adopts the receiver and writes to it; the
    message is marked as one of its parent. *)
Example adoption_bypasses_capability :
  let w := (ipc_do (OpAddChild true (Some (demo_agent 3 None)) 2) three_agents).2 in
  (sent_by 3 three_agents 2 0).1 = AK_E_IPC_NO_CAPABILITY /\ queue_length (sent_by 3 w 2 0).2 2 = 1 /\
  ak_agent_is_parent_of (iw_ipc w) 1 2 = false.
Proof. vm_compute. repeat split. Qed.

(** The adoption also takes effect when the array of children cannot grow. *)
Example failed_adoption_takes_effect :
  let '(r, w) := ipc_do (OpAddChild false (Some (demo_agent 3 None)) 2) three_agents in
  r = RCode (- ENOMEM) /\ queue_length (sent_by 3 w 2 0).2 2 = 1.
Proof. vm_compute. repeat split. Qed.

(** Where the list of peers cannot be stored, the agent is left without one,
    which means every peer. *)
Example failed_grant_is_unrestricted :
  let '(r, w) := ipc_do (OpGrant false (Some (demo_agent 3 None)) (Some [4]) false) three_agents in
  r = RCode (- ENOMEM) /\ ak_ipc_has_capability (iw_ipc w) (Some (demo_agent 3 None)) 2 = true.
Proof. vm_compute. repeat split. Qed.

(** The messages that wait, from the first. *)
Definition inbox_messages (w : iworld) (n : Z) : list ak_ipc_message :=
  match lookup_entry (is_registry (iw_ipc w)) n with
  | Some e =>
      (fix walk (fuel : nat) (cur : option Z) : list ak_ipc_message :=
         match fuel, cur with
         | S fuel, Some a => match ib_nodes (mb_inbox (en_mailbox e)) !! a with Some nd => nd_msg nd :: walk fuel (nd_next nd) | None => [] end
         | _, _ => []
         end) 100%nat (ib_head (mb_inbox (en_mailbox e)))
  | None => []
  end.

(** The marks of parent and child are also taken from the flags of the sender. *)
Example parent_flag_forged :
  let w := (ipc_do (OpGrant true (Some (demo_agent 3 None)) None false) three_agents).2 in
  ak_agent_is_parent_of (iw_ipc w) 3 2 = false /\
  (fun m => Z.land (msg_flags m) AK_IPC_FLAG_FROM_PARENT) <$> inbox_messages (sent_by 3 w 2 AK_IPC_FLAG_FROM_PARENT).2 2 = [AK_IPC_FLAG_FROM_PARENT].
Proof. vm_compute. repeat split. Qed.

(** A reply is recognised by its correlation alone: agent 3 answers the request
    that agent 2 made of agent 1. *)
Example response_forged :
  let '(_, correlation, w) := ak_ipc_send_request mail_env three_agents (Some (demo_agent 2 None)) 1 9 (Some B"ask") in
  let w := (ipc_do (OpGrant true (Some (demo_agent 3 None)) None false) w).2 in
  let w := (ak_ipc_send_response mail_env w (Some (demo_agent 3 None)) 2 (default 0 correlation) (Some B"lie")).2 in
  match ak_ipc_recv_correlated 1 0 (fun _ => 0) (fun _ s => s) (iw_ipc w) (Some (demo_agent 2 None)) (default 0 correlation) 0 with
  | Some (Ret (Some m, _)) => msg_sender_pid m = 3 /\ msg_payload m = Some B"lie"
  | _ => False
  end.
Proof. vm_compute. repeat split. Qed.

(** A receiver that waits while the module shuts down uses its freed mailbox. *)
Example shutdown_under_receiver :
  ak_ipc_recv 2 0 (fun _ => 0) (fun _ => ak_agent_ipc_shutdown) (iw_ipc three_agents) (Some (demo_agent 2 None)) 50 = Some Oob.
Proof. vm_compute. repeat split. Qed.

(** An unregistered agent keeps its entry: registering again adds another. *)
Example unregistered_entries_stay :
  let w := ipc_exec [OpUnregister (Some (demo_agent 4 None)); register_op 4 None; OpUnregister (Some (demo_agent 4 None)); register_op 4 None] three_agents in
  length (entries (is_registry (iw_ipc w))) = 6%nat.
Proof. vm_compute. repeat split. Qed.

(** ** Witnesses *)

Lemma three_represented : exists M, represents (iw_ipc three_agents) M.
Proof.
  assert (Hrun : forall ops w M, represents (iw_ipc w) M -> exists M', represents (iw_ipc (ipc_exec ops w)) M').
  { induction ops as [|op ops IH]; intros w M Hr; [by exists M|]. pose proof (do_spec op w M Hr) as Hd. cbn [ipc_exec foldl].
    destruct (ipc_do op w) as [r w1]. destruct Hd as (evs & M1 & _ & _ & Hr1). by eapply IH. }
  eapply Hrun. apply represents_empty.
Qed.

Lemma delivery_authorised_witness :
  (exists m, carries (demo_agent 1 None) 2 9 0 0 (Some B"hello") m /\ (sent_by 1 three_agents 2 0).1 = s64 (msg_id m)) /\ (sent_by 3 three_agents 2 0).1 < 0.
Proof.
  destruct three_represented as [M Hr]. assert (Hmem : has_memory mail_env (Some B"hello")) by done.
  assert (He : exists e, lookup_entry (is_registry (iw_ipc three_agents)) 2 = Some e /\ mb_inbox_count (en_mailbox e) = 0 /\ mb_inbox_limit (en_mailbox e) = 100 /\ en_parent_pid e = 1)
    by (eexists; split_and!; vm_compute; reflexivity).
  destruct He as (e & He & Hc & Hl & Hpar). destruct (view_lookup _ _ _ _ Hr He) as (q & HM & Hok).
  assert (Hroom : room M 2) by (exists q, 100; rewrite <-Hl; split; [done|]; rewrite <-(ok_count _ _ Hok), Hc, Hl; lia).
  split.
  - pose proof (delivery_authorised mail_env three_agents M (demo_agent 1 None) 2 9 0 0 (Some B"hello") Hr eq_refl ltac:(by vm_compute) Hmem) as H.
    unfold sent_by, ak_ipc_send. destruct (ipc_send_internal _ _ _ _ _ _ _ _) as [r w']. destruct H as [H _]. destruct H as (m & _ & _ & _ & Hcar & -> & _).
    + assert (Hs : exists s, lookup_entry (is_registry (iw_ipc three_agents)) (agent_number (demo_agent 1 None)) = Some s) by (eexists; vm_compute; reflexivity).
      destruct Hs as [s Hs]. exists s, e. split_and!; [done|done|]. left. exact Hpar.
    + done.
    + exists m. split; [exact Hcar|]. cbn [fst]. reflexivity.
  - pose proof (delivery_authorised mail_env three_agents M (demo_agent 3 None) 2 9 0 0 (Some B"hello") Hr eq_refl ltac:(by vm_compute) Hmem) as H.
    unfold sent_by, ak_ipc_send. destruct (ipc_send_internal _ _ _ _ _ _ _ _) as [r w'] eqn:E. destruct H as (_ & H & _).
    apply H. intros [(s & e' & Hs & He' & Hor) _]. clear H E. vm_compute in Hs. injection Hs as <-. rewrite He in He'. injection He' as <-.
    rewrite Hpar in Hor. destruct Hor as [?|[?|[? _]]]; discriminate.
Defined.
