(* ===== verification/HashTable.v ===== *)
(** * Hash tables of the runtime ([src/src/runtime/table.c])

    Tables with chained buckets that double when they fill up.  A table is a
    list of buckets; the value 0, which the code uses for absence, is [None].  The
    equality function is equality of keys, as for [pointer_equal].  A failed
    assertion or allocation halts the system: the operation is [None].

    The specification is a finite map.  Theorem: the table answers as the map
    along every sequence of operations, resizing included, and does not halt as
    long as memory lasts; its iterator visits every element once. *)

From stdpp Require Import gmap.
From S2P Require Import Prelude.
#[local] Open Scope Z_scope.

Definition TABLE_MAX_BUCKETS : Z := 131072.

Section Table.
Context {C V : Type} `{Countable C} (key_function : C -> Z).

Record entry := mk_entry { en_v : V; en_k : Z; en_c : C }.
(** [tb_own_heap]: entries come from the heap of the table ([h == eh]). *)
Record table := mk_table { tb_buckets : Z; tb_count : Z; tb_entries : list (list entry); tb_own_heap : bool }.

Definition set_entries (l : list (list entry)) (t : table) : table := mk_table (tb_buckets t) (tb_count t) l (tb_own_heap t).
Definition set_count (n : Z) (t : table) : table := mk_table (tb_buckets t) n (tb_entries t) (tb_own_heap t).

Definition allocate_table_internal (alloc_table alloc_entries alloc_cache : bool) (prealloc_count : Z) : option table :=
  if negb alloc_table then None
  else
    let buckets := if prealloc_count =? 0 then 4 else prealloc_count in
    if negb alloc_entries then None
    else if negb (prealloc_count =? 0) && negb alloc_cache then None
    else Some (mk_table buckets 0 (replicate (Z.to_nat buckets) []) (prealloc_count =? 0)).
Definition allocate_table (alloc_table alloc_entries : bool) : option table := allocate_table_internal alloc_table alloc_entries true 0.

Definition allocate_table_preallocated (alloc_table alloc_entries alloc_cache : bool) (prealloc_count : Z) : option table :=
  allocate_table_internal alloc_table alloc_entries alloc_cache prealloc_count.

Definition position (buckets x : Z) : Z := Z.land x (buckets - 1).
Definition slot (buckets x : Z) : nat := Z.to_nat (position buckets x).

Definition matches (c : C) (e : entry) : bool := (en_k e =? key_function c) && bool_decide (en_c e = c).

(** Each entry moves to the head of its new bucket. *)
Definition rehash (buckets : Z) (l : list entry) (nentries : list (list entry)) : list (list entry) :=
  foldl (fun n e => alter (cons e) (slot buckets (en_k e)) n) nentries l.

Definition resize_table (alloc : bool) (t : table) (buckets : Z) : option table :=
  if negb (Z.land buckets (buckets - 1) =? 0) then None
  else if negb (buckets <=? TABLE_MAX_BUCKETS) then None
  else if negb (tb_own_heap t) then None
  else if negb alloc then None
  else Some (mk_table buckets (tb_count t) (rehash buckets (concat (tb_entries t)) (replicate (Z.to_nat buckets) [])) (tb_own_heap t)).

(** The outcomes of the allocations of an entry and of a larger array. *)
Record table_env := mk_tenv { te_entry : bool; te_resize : bool }.

Definition table_insert_internal (env : table_env) (t : table) (k : Z) (c : C) (v : V) : option table :=
  if negb (te_entry env) then None
  else
    let t1 := set_count (tb_count t + 1) (set_entries (alter (fun b => b ++ [mk_entry v k c]) (slot (tb_buckets t) k) (tb_entries t)) t) in
    if (tb_buckets t <? tb_count t) && (tb_buckets t <=? TABLE_MAX_BUCKETS / 2) then resize_table (te_resize env) t1 (tb_buckets t * 2) else Some t1.

(** The chain without the first entry for the key, and its value. *)
Fixpoint cut (c : C) (b : list entry) : option (V * list entry) :=
  match b with
  | [] => None
  | e :: b' => if matches c e then Some (en_v e, b') else prod_map id (cons e) <$> cut c b'
  end.

Definition table_remove_internal (i : nat) (b : list entry) (t : table) : option table :=
  if negb (0 <? tb_count t) then None else Some (set_count (tb_count t - 1) (set_entries (<[i := b]> (tb_entries t)) t)).

Definition bucket_at (t : table) (c : C) : list entry := default [] (tb_entries t !! slot (tb_buckets t) (key_function c)).

Definition find_in (c : C) (b : list entry) : option V := en_v <$> (snd <$> list_find (fun e => matches c e = true) b).
Definition table_find (t : table) (c : C) : option V := find_in c (bucket_at t c).

(** The first entry for the key takes the value. *)
Fixpoint overwrite (c : C) (v : V) (b : list entry) : list entry :=
  match b with [] => [] | e :: b' => if matches c e then mk_entry v (en_k e) (en_c e) :: b' else e :: overwrite c v b' end.

Definition table_set (env : table_env) (t : table) (c : C) (v : option V) : option table :=
  let k := key_function c in
  let i := slot (tb_buckets t) k in
  match cut c (bucket_at t c), v with
  | Some (_, b), None => table_remove_internal i b t
  | Some _, Some v => Some (set_entries (<[i := overwrite c v (bucket_at t c)]> (tb_entries t)) t)
  | None, Some v => table_insert_internal env t k c v
  | None, None => Some t
  end.

Definition table_set_noreplace (env : table_env) (t : table) (c : C) (v : V) : option (bool * table) :=
  match cut c (bucket_at t c) with
  | Some _ => Some (false, t)
  | None => pair true <$> table_insert_internal env t (key_function c) c v
  end.

Definition table_remove (t : table) (c : C) : option (option V * table) :=
  match cut c (bucket_at t c) with
  | Some (v, b) => pair (Some v) <$> table_remove_internal (slot (tb_buckets t) (key_function c)) b t
  | None => Some (None, t)
  end.

Definition table_elements (t : table) : Z := tb_count t.
Definition table_clear (t : table) : table := set_count 0 (set_entries ((fun _ => []) <$> tb_entries t) t).
(** The elements in the order of [table_foreach]. *)
Definition table_foreach (t : table) : list (C * V) := (fun e => (en_c e, en_v e)) <$> concat (tb_entries t).

(** ** The map that a table represents *)

Record table_ok (t : table) (m : gmap C V) : Prop := {
  tk_positive : 0 < tb_buckets t;
  tk_length : length (tb_entries t) = Z.to_nat (tb_buckets t);
  tk_home : forall i b e, tb_entries t !! i = Some b -> e ∈ b -> i = slot (tb_buckets t) (en_k e) /\ en_k e = key_function (en_c e);
  tk_nodup : NoDup (en_c <$> concat (tb_entries t));
  tk_count : tb_count t = Z.of_nat (length (concat (tb_entries t)));
  tk_map : forall c v, m !! c = Some v <-> (c, v) ∈ table_foreach t }.

Context (Hkey : forall c, 0 <= key_function c).

Lemma position_bound buckets x : 0 < buckets -> 0 <= x -> 0 <= position buckets x < buckets.
Proof.
  intros Hb Hx. unfold position. assert (0 <= Z.land x (buckets - 1)) by (apply Z.land_nonneg; lia). split; [done|].
  assert (Hd : Z.ldiff (Z.land x (buckets - 1)) (buckets - 1) = 0).
  { apply Z.bits_inj'. intros n Hn. rewrite Z.ldiff_spec, Z.land_spec, Z.bits_0. by destruct (Z.testbit x n), (Z.testbit (buckets - 1) n). }
  apply Z.sub_nocarry_ldiff in Hd. assert (0 <= Z.ldiff (buckets - 1) (Z.land x (buckets - 1))) by (apply Z.ldiff_nonneg; lia). lia.
Qed.

Lemma slot_bound t c : 0 < tb_buckets t -> (slot (tb_buckets t) (key_function c) < Z.to_nat (tb_buckets t))%nat.
Proof. intros Hb. pose proof (position_bound (tb_buckets t) (key_function c) Hb (Hkey c)). unfold slot. lia. Qed.

Lemma in_concat (l : list (list entry)) e : e ∈ concat l <-> exists i b, l !! i = Some b /\ e ∈ b.
Proof.
  induction l as [|b l IH]; cbn [concat]; [split; [by intros ?%not_elem_of_nil|by intros (? & ? & ? & _)]|].
  rewrite elem_of_app, IH. split.
  - intros [He|(i & b' & Hi & He)]; [by exists 0%nat, b|by exists (S i), b'].
  - intros ([|i] & b' & Hi & He); [left; by injection Hi as ->|right; eauto].
Qed.

Lemma lookup_bucket t m c : table_ok t m -> exists b, tb_entries t !! slot (tb_buckets t) (key_function c) = Some b /\ bucket_at t c = b.
Proof.
  intros Ht. destruct (lookup_lt_is_Some_2 (tb_entries t) (slot (tb_buckets t) (key_function c))) as [b Hb].
  { rewrite (tk_length _ _ Ht). apply slot_bound, Ht. }
  exists b. unfold bucket_at. by rewrite Hb.
Qed.

Lemma matches_spec c e : en_k e = key_function (en_c e) -> matches c e = true <-> en_c e = c.
Proof.
  intros He. unfold matches. rewrite andb_true_iff, bool_decide_eq_true, Z.eqb_eq. split; [by intros [_ ?]|]. intros <-. by split.
Qed.

(** An entry for the key is in its bucket. *)
Lemma entry_in_bucket t m c e : table_ok t m -> e ∈ concat (tb_entries t) -> en_c e = c -> e ∈ bucket_at t c.
Proof.
  intros Ht (i & b & Hi & He)%in_concat Hc. destruct (tk_home _ _ Ht i b e Hi He) as [Ei Ek]. destruct (lookup_bucket t m c Ht) as (b' & Hb' & ->).
  rewrite Ek, Hc in Ei. subst i. congruence.
Qed.

Lemma bucket_in t m c e : table_ok t m -> e ∈ bucket_at t c -> e ∈ concat (tb_entries t) /\ en_k e = key_function (en_c e).
Proof.
  intros Ht He. destruct (lookup_bucket t m c Ht) as (b & Hb & E). rewrite E in He. split; [apply in_concat; eauto|]. by apply (tk_home _ _ Ht _ _ _ Hb).
Qed.

Lemma foreach_elem t c v : (c, v) ∈ table_foreach t <-> exists e, e ∈ concat (tb_entries t) /\ en_c e = c /\ en_v e = v.
Proof. unfold table_foreach. rewrite list_elem_of_fmap. split; [intros (e & [= -> ->] & He); eauto|intros (e & He & <- & <-); eauto]. Qed.

Lemma find_spec t m c : table_ok t m -> table_find t c = m !! c.
Proof.
  intros Ht. unfold table_find, find_in. apply option_eq. intros v. rewrite (tk_map _ _ Ht), foreach_elem.
  destruct (list_find _ _) as [[i e]|] eqn:El; cbn.
  - apply list_find_Some in El as (Hi & Hm & _). apply list_elem_of_lookup_2 in Hi. destruct (bucket_in t m c e Ht Hi) as [Hin Hk].
    apply matches_spec in Hm; [|done]. split; [intros [= <-]; eauto|]. intros (e' & He' & Hc & <-).
    assert (e' = e); [|congruence]. pose proof (tk_nodup _ _ Ht) as Hn. apply list_elem_of_lookup in He' as [a Ha]. apply list_elem_of_lookup in Hin as [b Hb].
    assert (a = b); [|congruence]. eapply (NoDup_lookup _ _ _ c Hn); rewrite list_lookup_fmap; [by rewrite Ha; cbn; rewrite Hc|by rewrite Hb; cbn; rewrite Hm].
  - apply list_find_None in El. split; [done|]. intros (e & He & Hc & _). rewrite Forall_forall in El. destruct (El e (entry_in_bucket t m c e Ht He Hc)).
    apply matches_spec; [|done]. by destruct (bucket_in t m c e Ht (entry_in_bucket t m c e Ht He Hc)).
Qed.

(** ** Operations *)

Definition homed (buckets : Z) (l : list (list entry)) : Prop :=
  forall i b e, l !! i = Some b -> e ∈ b -> i = slot buckets (en_k e) /\ en_k e = key_function (en_c e).

(** What has to be shown of a changed table. *)
Lemma table_ok_of t m l :
  0 < tb_buckets t -> length (tb_entries t) = Z.to_nat (tb_buckets t) -> homed (tb_buckets t) (tb_entries t) ->
  concat (tb_entries t) ≡ₚ l -> NoDup (en_c <$> l) -> tb_count t = Z.of_nat (length l) ->
  (forall c v, m !! c = Some v <-> exists e, e ∈ l /\ en_c e = c /\ en_v e = v) -> table_ok t m.
Proof.
  intros Hp Hl Hh Hperm Hn Hc Hm. split; [done|done|done|by rewrite Hperm|by rewrite Hperm|].
  intros c v. rewrite foreach_elem, Hm. by setoid_rewrite Hperm.
Qed.

Lemma map_entries t m : table_ok t m -> forall c v, m !! c = Some v <-> exists e, e ∈ concat (tb_entries t) /\ en_c e = c /\ en_v e = v.
Proof. intros Ht c v. by rewrite (tk_map _ _ Ht), foreach_elem. Qed.

Lemma alter_perm f x (l : list (list entry)) i :
  (forall b, f b ≡ₚ x :: b) -> (i < length l)%nat -> concat (alter f i l) ≡ₚ x :: concat l.
Proof.
  intros Hf. revert i. induction l as [|b l IH]; intros i Hi; [cbn in Hi; lia|]. destruct i as [|i]; cbn [alter list_alter concat].
  - by rewrite Hf.
  - change (list_alter f i l) with (alter f i l). rewrite IH by (cbn in Hi; lia). by rewrite Permutation_middle.
Qed.

Lemma homed_alter f x buckets l i :
  (forall b, f b ≡ₚ x :: b) -> homed buckets l -> i = slot buckets (en_k x) -> en_k x = key_function (en_c x) -> homed buckets (alter f i l).
Proof.
  intros Hf Hh Hi Hx j b e Hj He. destruct (decide (j = i)) as [->|Hne].
  - rewrite list_lookup_alter_eq in Hj. destruct (l !! i) as [b0|] eqn:Eb; [|done]. injection Hj as <-. rewrite Hf in He.
    apply elem_of_cons in He as [->|He]; [done|]. by eapply Hh.
  - rewrite list_lookup_alter_ne in Hj by done. by eapply Hh.
Qed.

Lemma length_rehash buckets l n : length (rehash buckets l n) = length n.
Proof. unfold rehash. revert n. induction l as [|e l IH]; intros n; cbn; [done|]. by rewrite IH, length_alter. Qed.

Lemma rehash_spec buckets l n :
  0 < buckets -> length n = Z.to_nat buckets -> Forall (fun e => 0 <= en_k e /\ en_k e = key_function (en_c e)) l -> homed buckets n ->
  homed buckets (rehash buckets l n) /\ concat (rehash buckets l n) ≡ₚ l ++ concat n.
Proof.
  intros Hb. unfold rehash. revert n. induction l as [|e l IH]; intros n Hn Hl Hh; cbn; [done|]. apply Forall_cons in Hl as [[He1 He2] Hl].
  destruct (IH (alter (cons e) (slot buckets (en_k e)) n)) as [H1 H2]; [by rewrite length_alter|done|by apply (homed_alter _ e)|].
  split; [done|]. rewrite H2, (alter_perm (cons e) e) by (done || (rewrite Hn; unfold slot; pose proof (position_bound buckets (en_k e) Hb He1); lia)).
  by rewrite Permutation_middle.
Qed.

Lemma homed_empty buckets n : homed buckets (replicate n []).
Proof. intros i b e Hi He. apply lookup_replicate in Hi as [-> _]. by apply not_elem_of_nil in He. Qed.

Lemma concat_empty n : concat (replicate n (@nil entry)) = [].
Proof. induction n; cbn; done. Qed.

Lemma resize_ok alloc t m buckets t' : 0 < buckets -> table_ok t m -> resize_table alloc t buckets = Some t' -> table_ok t' m /\ tb_buckets t' = buckets /\ tb_own_heap t' = tb_own_heap t.
Proof.
  intros Hb Ht. unfold resize_table. repeat (destruct (negb _); [done|]). intros [= <-]. split; [|done].
  assert (Hall : Forall (fun e => 0 <= en_k e /\ en_k e = key_function (en_c e)) (concat (tb_entries t))).
  { apply Forall_forall. intros e (i & b & Hi & He)%in_concat. destruct (tk_home _ _ Ht i b e Hi He) as [_ Ek]. rewrite Ek. by split; [apply Hkey|]. }
  destruct (rehash_spec buckets (concat (tb_entries t)) (replicate (Z.to_nat buckets) []) Hb (length_replicate _ _) Hall (homed_empty _ _)) as [H1 H2].
  rewrite concat_empty, app_nil_r in H2. apply (table_ok_of _ _ (concat (tb_entries t))); cbn [tb_buckets tb_entries tb_count];
    [done|by rewrite length_rehash, length_replicate|done|done|apply Ht|apply Ht|by apply map_entries].
Qed.

Lemma insert_ok env t m c v t' :
  table_ok t m -> m !! c = None -> table_insert_internal env t (key_function c) c v = Some t' -> table_ok t' (<[c := v]> m).
Proof.
  intros Ht Hn. unfold table_insert_internal. destruct (te_entry env); [|done]. cbn [negb]. set (e := mk_entry v (key_function c) c).
  set (t1 := set_count _ _). assert (H1 : table_ok t1 (<[c := v]> m)).
  { assert (Hf : forall b, b ++ [e] ≡ₚ e :: b) by (intros b; by rewrite Permutation_app_comm).
    apply (table_ok_of _ _ (e :: concat (tb_entries t))); cbn [t1 set_count set_entries tb_buckets tb_entries tb_count].
    - apply Ht.
    - rewrite length_alter. apply Ht.
    - apply (homed_alter _ e); [done|exact (tk_home _ _ Ht)|done|done].
    - apply alter_perm; [done|]. rewrite (tk_length _ _ Ht). apply slot_bound, Ht.
    - rewrite fmap_cons. constructor; [|apply Ht]. intros (e' & Ec & He')%list_elem_of_fmap. cbn in Ec.
      assert (Hs : m !! c = Some (en_v e')) by (apply (map_entries t m Ht); eauto). congruence.
    - rewrite (tk_count _ _ Ht). cbn [length]. lia.
    - intros c' v'. rewrite lookup_insert_Some, (map_entries t m Ht). setoid_rewrite elem_of_cons. split.
      + intros [[<- <-]|[Hne (e' & ? & ?)]]; eauto.
      + intros (e' & [->|He'] & <- & <-); [by left|]. right. split; [|eauto]. intros ->.
        assert (Hs : m !! en_c e' = Some (en_v e')) by (apply (map_entries t m Ht); eauto). congruence. }
  destruct (_ && _); [|by intros [= <-]]. intros Hr. eapply resize_ok; [|exact H1|exact Hr]. pose proof (tk_positive _ _ Ht). lia.
Qed.

Lemma cut_spec c b :
  match cut c b with
  | Some (v, b') => exists e, e ∈ b /\ matches c e = true /\ en_v e = v /\ b ≡ₚ e :: b' /\
      forall w, overwrite c w b ≡ₚ mk_entry w (en_k e) (en_c e) :: b'
  | None => forall e, e ∈ b -> matches c e = false
  end.
Proof.
  induction b as [|e b IH]; cbn [cut overwrite]; [by intros ? ?%not_elem_of_nil|]. destruct (matches c e) eqn:Em.
  { exists e. split_and!; [left|done..]. }
  destruct (cut c b) as [[v b']|]; cbn.
  - destruct IH as (e' & He' & Hm & Hv & Hp & Ho). exists e'. split_and!; [by right|done|done| |].
    + rewrite Hp. apply Permutation_swap.
    + intros w. rewrite Ho. apply Permutation_swap.
  - intros e' [->|He']%elem_of_cons; [done|by apply IH].
Qed.

Lemma insert_perm (l : list (list entry)) i b b' x :
  l !! i = Some b -> b ≡ₚ x ++ b' -> concat l ≡ₚ x ++ concat (<[i := b']> l).
Proof.
  revert i. induction l as [|b0 l IH]; intros [|i] Hi Hb; [done|done| |].
  - injection Hi as ->. cbn [insert list_insert concat]. by rewrite Hb, app_assoc.
  - change (<[S i := b']> (b0 :: l)) with (b0 :: <[i := b']> l). cbn [concat]. rewrite (IH i Hi Hb). rewrite !app_assoc. by rewrite (Permutation_app_comm b0 x).
Qed.

(** The bucket of a key, taken apart. *)
Lemma cut_table t m c v b' :
  table_ok t m -> cut c (bucket_at t c) = Some (v, b') ->
  let i := slot (tb_buckets t) (key_function c) in
  exists e, en_c e = c /\ en_k e = key_function c /\ m !! c = Some v /\ en_v e = v /\ concat (tb_entries t) ≡ₚ e :: concat (<[i := b']> (tb_entries t)) /\
    (forall w, concat (<[i := overwrite c w (bucket_at t c)]> (tb_entries t)) ≡ₚ mk_entry w (key_function c) c :: concat (<[i := b']> (tb_entries t))) /\
    homed (tb_buckets t) (<[i := b']> (tb_entries t)) /\ (forall w, homed (tb_buckets t) (<[i := overwrite c w (bucket_at t c)]> (tb_entries t))).
Proof.
  intros Ht Hc i. pose proof (cut_spec c (bucket_at t c)) as Hs. rewrite Hc in Hs. destruct Hs as (e & He & Hm & Hv & Hp & Ho).
  destruct (lookup_bucket t m c Ht) as (b & Hb & Eb). destruct (bucket_in t m c e Ht He) as [Hin Hk]. apply matches_spec in Hm; [|done].
  assert (Hsub : forall b2, (forall x, x ∈ b2 -> en_k x = key_function (en_c x) /\ slot (tb_buckets t) (en_k x) = i) -> homed (tb_buckets t) (<[i := b2]> (tb_entries t))).
  { intros b2 H2 j b0 x Hj Hx. destruct (decide (j = i)) as [->|Hne].
    - rewrite list_lookup_insert_eq in Hj by (by eapply lookup_lt_Some). injection Hj as <-. destruct (H2 x Hx). by split.
    - rewrite list_lookup_insert_ne in Hj by done. by eapply (tk_home _ _ Ht). }
  assert (Hold : forall x, x ∈ b' -> en_k x = key_function (en_c x) /\ slot (tb_buckets t) (en_k x) = i).
  { intros x Hx. destruct (tk_home _ _ Ht i b x Hb) as [E1 E2]; [|by split]. rewrite <-Eb, Hp. by right. }
  exists e. rewrite Hm in Hk. split_and!; [done|done| |done| | | |].
  - apply (map_entries t m Ht). eauto.
  - eapply (insert_perm _ _ _ _ [e]); [exact Hb|]. by rewrite <-Eb.
  - intros w. assert (Hl : (<[i := overwrite c w (bucket_at t c)]> (tb_entries t)) !! i = Some (overwrite c w (bucket_at t c)))
      by (apply list_lookup_insert_eq; by eapply lookup_lt_Some).
    pose proof (insert_perm _ i _ b' [mk_entry w (key_function c) c] Hl) as H1. rewrite list_insert_insert_eq in H1. apply H1. rewrite (Ho w), Hm, Hk. done.
  - by apply Hsub.
  - intros w. apply Hsub. intros x. rewrite (Ho w), Hm, Hk. intros [->|Hx]%elem_of_cons; [done|by apply Hold].
Qed.

Lemma cut_none t m c : table_ok t m -> cut c (bucket_at t c) = None <-> m !! c = None.
Proof.
  intros Ht. split.
  - intros Hc. pose proof (cut_spec c (bucket_at t c)) as Hs. rewrite Hc in Hs. destruct (m !! c) as [v|] eqn:Em; [|done].
    apply (map_entries t m Ht) in Em as (e & He & Ec & _). pose proof (entry_in_bucket t m c e Ht He Ec) as Hb. destruct (bucket_in t m c e Ht Hb) as [_ Hk].
    specialize (Hs e Hb). assert (matches c e = true) by (by apply matches_spec). congruence.
  - intros Hn. destruct (cut c (bucket_at t c)) as [[v b']|] eqn:Ec; [|done]. destruct (cut_table t m c v b' Ht Ec) as (e & _ & _ & Hm & _). congruence.
Qed.

Lemma remove_ok t m c v b' t' :
  table_ok t m -> cut c (bucket_at t c) = Some (v, b') -> table_remove_internal (slot (tb_buckets t) (key_function c)) b' t = Some t' ->
  table_ok t' (delete c m).
Proof.
  intros Ht Hc. unfold table_remove_internal. destruct (negb _); [done|]. intros [= <-].
  destruct (cut_table t m c v b' Ht Hc) as (e & Ec & Ek & Hm & Hv & Hp & _ & Hh & _). set (l := concat _) in Hp at 2.
  assert (Hn : NoDup (en_c <$> e :: l)) by (rewrite <-Hp; apply Ht). rewrite fmap_cons in Hn. apply NoDup_cons in Hn as [Hce Hn].
  apply (table_ok_of _ _ l); cbn [set_count set_entries tb_buckets tb_entries tb_count]; [apply Ht|rewrite length_insert; apply Ht|done|done|done| |].
  - rewrite (tk_count _ _ Ht), Hp. cbn [length]. lia.
  - intros c' v'. rewrite lookup_delete_Some, (map_entries t m Ht). setoid_rewrite Hp. setoid_rewrite elem_of_cons. split.
    + intros [Hne (x & [->|Hx] & E1 & E2)]; [congruence|eauto].
    + intros (x & Hx & <- & <-). split; [|eauto]. rewrite <-Ec. intros E. apply Hce. rewrite E. by apply list_elem_of_fmap_2.
Qed.

Lemma overwrite_ok t m c w v b' :
  table_ok t m -> cut c (bucket_at t c) = Some (v, b') ->
  table_ok (set_entries (<[slot (tb_buckets t) (key_function c) := overwrite c w (bucket_at t c)]> (tb_entries t)) t) (<[c := w]> m).
Proof.
  intros Ht Hc. destruct (cut_table t m c v b' Ht Hc) as (e & Ec & Ek & Hm & Hv & Hp & Ho & _ & Hh). set (l := concat _) in Hp at 2. fold l in Ho.
  assert (Hn : NoDup (en_c <$> e :: l)) by (rewrite <-Hp; apply Ht). rewrite fmap_cons in Hn. apply NoDup_cons in Hn as [Hce Hn].
  apply (table_ok_of _ _ (mk_entry w (key_function c) c :: l)); cbn [set_entries tb_buckets tb_entries tb_count];
    [apply Ht|rewrite length_insert; apply Ht|done|done| | |].
  - rewrite fmap_cons. cbn [en_c]. constructor; [by rewrite <-Ec|done].
  - rewrite (tk_count _ _ Ht), Hp. done.
  - intros c' v'. rewrite lookup_insert_Some, (map_entries t m Ht). setoid_rewrite Hp. setoid_rewrite elem_of_cons. split.
    + intros [[<- <-]|[Hne (x & [->|Hx] & E1 & E2)]]; [eauto|congruence|eauto].
    + intros (x & [->|Hx] & <- & <-); [by left|]. right. split; [|eauto]. rewrite <-Ec. intros E. apply Hce. rewrite E. by apply list_elem_of_fmap_2.
Qed.

Lemma clear_ok t m : table_ok t m -> table_ok (table_clear t) ∅.
Proof.
  intros Ht. assert (He : concat ((fun _ => []) <$> tb_entries t) = @nil entry) by (induction (tb_entries t); cbn; done).
  apply (table_ok_of _ _ []); cbn [table_clear set_count set_entries tb_buckets tb_entries tb_count]; [apply Ht|rewrite length_fmap; apply Ht| | |constructor|done|].
  - intros i b e Hi Hin. rewrite list_lookup_fmap in Hi. destruct (tb_entries t !! i); [|done]. injection Hi as <-. by apply not_elem_of_nil in Hin.
  - by rewrite He.
  - intros c v. rewrite lookup_empty. split; [done|]. by intros (e & ?%not_elem_of_nil & _).
Qed.

Lemma foreach_perm t m : table_ok t m -> table_foreach t ≡ₚ map_to_list m.
Proof.
  intros Ht. assert (Hn : NoDup (fst <$> table_foreach t)) by (unfold table_foreach; rewrite <-list_fmap_compose; apply Ht).
  assert (E : m = list_to_map (table_foreach t)).
  { apply map_eq. intros c. apply option_eq. intros v. rewrite (tk_map _ _ Ht). by apply elem_of_list_to_map. }
  rewrite E. symmetry. by apply map_to_list_to_map.
Qed.

Lemma elements_size t m : table_ok t m -> table_elements t = Z.of_nat (size m).
Proof.
  intros Ht. unfold table_elements. rewrite (tk_count _ _ Ht), <-length_map_to_list, <-(foreach_perm t m Ht). unfold table_foreach. by rewrite length_fmap.
Qed.

(** A key that is in the table is overwritten or removed without memory. *)
Lemma set_present env t m c v : table_ok t m -> is_Some (m !! c) ->
  exists t', table_set env t c (Some v) = Some t' /\ table_ok t' (<[c := v]> m) /\ tb_buckets t' = tb_buckets t /\ tb_own_heap t' = tb_own_heap t.
Proof.
  intros Ht [w Hw]. unfold table_set. destruct (cut c (bucket_at t c)) as [[v0 b']|] eqn:Ec.
  - eexists. split; [done|]. split; [by eapply overwrite_ok|done].
  - apply (cut_none t m c Ht) in Ec. congruence.
Qed.

Lemma set_absent env t m c : table_ok t m ->
  exists t', table_set env t c None = Some t' /\ table_ok t' (delete c m) /\ tb_buckets t' = tb_buckets t /\ tb_own_heap t' = tb_own_heap t.
Proof.
  intros Ht. unfold table_set. destruct (cut c (bucket_at t c)) as [[v0 b']|] eqn:Ec.
  - assert (Hpos : 0 < tb_count t).
    { destruct (cut_table t m c v0 b' Ht Ec) as (e & _ & _ & _ & _ & Hp & _). rewrite (tk_count _ _ Ht), Hp. cbn [length]. lia. }
    unfold table_remove_internal. apply Z.ltb_lt in Hpos as Hp. rewrite Hp. eexists. split; [done|]. split; [|done].
    eapply remove_ok; [done|exact Ec|]. unfold table_remove_internal. by rewrite Hp.
  - exists t. rewrite delete_id by (by apply (cut_none t)). done.
Qed.

(** A call that returns has set the value. *)
Lemma set_ok env t m c v t' : table_ok t m -> table_set env t c (Some v) = Some t' -> table_ok t' (<[c := v]> m).
Proof.
  intros Ht. unfold table_set. destruct (cut c (bucket_at t c)) as [[v0 b']|] eqn:Ec.
  - intros [= <-]. by eapply overwrite_ok.
  - intros E. eapply insert_ok; [done|by apply (cut_none t)|exact E].
Qed.

(** ** Sequences of operations *)

Inductive table_op := TFind (c : C) | TSet (c : C) (v : option V) | TSetNew (c : C) (v : V) | TRemove (c : C) | TCount | TClear.
Inductive table_result := RUnit | RValue (v : option V) | RBool (b : bool) | RCount (n : Z).

Definition table_do (env : table_env) (op : table_op) (t : table) : option (table_result * table) :=
  match op with
  | TFind c => Some (RValue (table_find t c), t)
  | TSet c v => pair RUnit <$> table_set env t c v
  | TSetNew c v => prod_map RBool id <$> table_set_noreplace env t c v
  | TRemove c => prod_map RValue id <$> table_remove t c
  | TCount => Some (RCount (table_elements t), t)
  | TClear => Some (RUnit, table_clear t)
  end.

Definition map_do (op : table_op) (m : gmap C V) : table_result * gmap C V :=
  match op with
  | TFind c => (RValue (m !! c), m)
  | TSet c v => (RUnit, partial_alter (fun _ => v) c m)
  | TSetNew c v => match m !! c with Some _ => (RBool false, m) | None => (RBool true, <[c := v]> m) end
  | TRemove c => (RValue (m !! c), delete c m)
  | TCount => (RCount (Z.of_nat (size m)), m)
  | TClear => (RUnit, ∅)
  end.

Fixpoint table_run (ops : list (table_env * table_op)) (t : table) : option (list table_result * table) :=
  match ops with
  | [] => Some ([], t)
  | (env, op) :: ops => match table_do env op t with Some (r, t) => prod_map (cons r) id <$> table_run ops t | None => None end
  end.
Fixpoint map_run (ops : list (table_env * table_op)) (m : gmap C V) : list table_result * gmap C V :=
  match ops with [] => ([], m) | (_, op) :: ops => let '(r, m) := map_do op m in prod_map (cons r) id (map_run ops m) end.

(** The number of buckets is a power of two within the limit. *)
Definition sized (t : table) : Prop := tb_own_heap t = true /\ tb_buckets t <= TABLE_MAX_BUCKETS /\ exists n, 0 <= n /\ tb_buckets t = 2 ^ n.
Definition in_memory (env : table_env) : Prop := te_entry env = true /\ te_resize env = true.

Lemma insert_runs env t k c v : sized t -> in_memory env -> exists t', table_insert_internal env t k c v = Some t' /\ sized t'.
Proof.
  intros (Ho & Hmax & n & Hn & Hb) [He Hr]. unfold table_insert_internal. rewrite He. cbn [negb]. destruct (Z.leb_spec (tb_buckets t) (TABLE_MAX_BUCKETS / 2)) as [Hle|].
  2:{ rewrite andb_false_r. eexists. split; [done|]. split_and!; [done|done|by exists n]. }
  destruct (_ <? _); cbn [andb]. 2:{ eexists. split; [done|]. split_and!; [done|done|by exists n]. }
  assert (E2 : tb_buckets t * 2 = 2 ^ (n + 1)) by (rewrite Hb, Z.pow_add_r by lia; lia).
  assert (Hle2 : tb_buckets t * 2 <= TABLE_MAX_BUCKETS) by (unfold TABLE_MAX_BUCKETS in *; change (131072 / 2) with 65536 in Hle; lia).
  unfold resize_table. replace (Z.land _ _ =? 0) with true.
  2:{ symmetry. apply Z.eqb_eq. rewrite E2. replace (2 ^ (n + 1) - 1) with (Z.ones (n + 1)) by (rewrite Z.ones_equiv; lia). rewrite Z.land_ones by lia.
      apply Z_mod_same_full. }
  cbn [negb]. apply Z.leb_le in Hle2 as Hb2. rewrite Hb2. cbn [negb set_count set_entries tb_own_heap]. rewrite Ho, Hr. cbn [negb]. eexists. split; [done|].
  split_and!; [done|done|]. exists (n + 1). split; [lia|done].
Qed.

Lemma count_positive t m c v b' : table_ok t m -> cut c (bucket_at t c) = Some (v, b') -> (0 <? tb_count t) = true.
Proof.
  intros Ht Hc. destruct (cut_table t m c v b' Ht Hc) as (e & _ & _ & _ & _ & Hp & _). apply Z.ltb_lt. rewrite (tk_count _ _ Ht), Hp. cbn [length]. lia.
Qed.

Lemma do_refines env op t m :
  table_ok t m -> sized t -> in_memory env ->
  exists t', table_do env op t = Some ((map_do op m).1, t') /\ table_ok t' (map_do op m).2 /\ sized t'.
Proof.
  intros Ht Hs Hm. destruct op as [c|c v|c v|c| |]; cbn [table_do map_do fst snd].
  - exists t. split_and!; [by rewrite (find_spec t m c Ht)|done..].
  - unfold table_set. destruct (cut c (bucket_at t c)) as [[v0 b']|] eqn:Ec; destruct v as [v|].
    + eexists. split; [done|]. split; [by eapply overwrite_ok|done].
    + unfold table_remove_internal. rewrite (count_positive t m c v0 b' Ht Ec). eexists. split; [done|]. split; [|done].
      eapply remove_ok; [done|exact Ec|]. unfold table_remove_internal. by rewrite (count_positive t m c v0 b' Ht Ec).
    + destruct (insert_runs env t (key_function c) c v Hs Hm) as (t' & E & Hs'). rewrite E. exists t'. split_and!; [done| |done].
      eapply insert_ok; [done|by apply (cut_none t)|exact E].
    + exists t. split_and!; [done| |done]. change (partial_alter (fun _ => None) c m) with (delete c m). rewrite delete_id; [done|by apply (cut_none t)].
  - unfold table_set_noreplace. destruct (cut c (bucket_at t c)) as [[v0 b']|] eqn:Ec.
    + destruct (cut_table t m c v0 b' Ht Ec) as (e & _ & _ & Hmc & _). rewrite Hmc. by exists t.
    + pose proof (proj1 (cut_none t m c Ht) Ec) as Hn. rewrite Hn. destruct (insert_runs env t (key_function c) c v Hs Hm) as (t' & E & Hs'). rewrite E.
      exists t'. split_and!; [done| |done]. by eapply insert_ok.
  - unfold table_remove. destruct (cut c (bucket_at t c)) as [[v0 b']|] eqn:Ec.
    + destruct (cut_table t m c v0 b' Ht Ec) as (e & _ & _ & Hmc & _). unfold table_remove_internal. rewrite (count_positive t m c v0 b' Ht Ec), Hmc.
      eexists. split; [done|]. split; [|done]. eapply remove_ok; [done|exact Ec|]. unfold table_remove_internal. by rewrite (count_positive t m c v0 b' Ht Ec).
    + pose proof (proj1 (cut_none t m c Ht) Ec) as Hn. rewrite Hn, delete_id by done. by exists t.
  - exists t. split_and!; [by rewrite (elements_size t m Ht)|done..].
  - eexists. split; [done|]. split; [by eapply clear_ok|done].
Qed.

Lemma new_table_ok : table_ok (mk_table 4 0 (replicate 4 []) true) ∅ /\ sized (mk_table 4 0 (replicate 4 []) true).
Proof.
  split; [|split_and!; [done|done|by exists 2]]. apply (table_ok_of _ _ []); cbn [tb_buckets tb_entries tb_count]; [lia|done|apply homed_empty|done|constructor|done|].
  intros c v. rewrite lookup_empty. split; [done|]. by intros (e & ?%not_elem_of_nil & _).
Qed.

(** a table answers as a finite map.  From a new table, with memory for
    entries and arrays, every sequence of operations runs without halting and
    returns what the map returns; in the end the iterator visits the elements of
    the map, each once. *)
Theorem table_refines_map ops :
  Forall (fun o => in_memory o.1) ops ->
  exists t t', allocate_table true true = Some t /\ table_run ops t = Some ((map_run ops ∅).1, t') /\ table_foreach t' ≡ₚ map_to_list (map_run ops ∅).2.
Proof.
  intros Hops. destruct new_table_ok as [Hok Hsz]. exists (mk_table 4 0 (replicate 4 []) true).
  enough (Hrun : forall t m, table_ok t m -> sized t -> exists t', table_run ops t = Some ((map_run ops m).1, t') /\ table_ok t' (map_run ops m).2).
  { destruct (Hrun _ _ Hok Hsz) as (t' & H1 & H2). exists t'. split_and!; [done|done|by apply foreach_perm]. }
  induction Hops as [|[env op] ops Ho Hops IH]; intros t m Ht Hs; [by exists t|]. cbn [table_run map_run].
  destruct (do_refines env op t m Ht Hs Ho) as (t1 & E & Ht1 & Hs1). rewrite E. destruct (map_do op m) as [r m1]. cbn [fst snd] in *.
  destruct (IH t1 m1 Ht1 Hs1) as (t' & E' & Ht'). rewrite E'. exists t'. by destruct (map_run ops m1).
Qed.
End Table.

Arguments entry : clear implicits.
Arguments table : clear implicits.

(** Numbers and pointers as keys. *)
Definition identity_key (id : Z) : Z := u64 id.
Lemma identity_key_nonneg id : 0 <= identity_key id.
Proof. apply Z.mod_pos_bound. done. Qed.

(** Six keys fill the four buckets, the table doubles, and nothing is lost. *)
Lemma table_refines_map_witness :
  exists t t', @allocate_table Z Z true true = Some t /\
    table_run Z.abs ((fun n => (mk_tenv true true, TSet n (Some (n * n)))) <$> [1; -1; 3; 4; 5; 6; 1]) t = Some (replicate 7 RUnit, t') /\
    length (table_foreach t') = 6%nat.
Proof.
  destruct (table_refines_map Z.abs Z.abs_nonneg ((fun n => (mk_tenv true true, TSet n (Some (n * n)))) <$> [1; -1; 3; 4; 5; 6; 1])) as (t & t' & H1 & H2 & H3).
  - repeat constructor.
  - exists t, t'. repeat split; [exact H1|exact H2|]. apply Permutation_length in H3. exact H3.
Defined.
