(* ===== verification/Approval.v ===== *)
(** * Approvals ([src/src/agentic/ak_approval.c])

    Requests that wait for the decision of a reviewer, in a table of
    [HashTable] under their number.  A write through the pointer to a request
    changes its value in the table.  Closures are not run: their invocations are
    recorded, the latest first.  The clock is a [timestamp]; allocations are
    arguments, and a table that runs out of memory halts the system ([None]).
    The table [by_run] is allocated and never used.

    Theorems: a decision is made once, by the call that may make it, and stays;
    a request is granted only by a reviewer. *)

From stdpp Require Import gmap.
From S2P Require Import Prelude HashTable.
#[local] Open Scope Z_scope.

Definition AK_APPROVAL_DEFAULT_TIMEOUT_MS : Z := 5 * 60 * 1000.
Definition AK_E_CAP_MISSING : Z := -4100.
Definition AK_E_POLICY_DENY : Z := -4201.
Definition REVIEWER_ID_SIZE : nat := 64.

Inductive ak_approval_status := AK_APPROVAL_PENDING | AK_APPROVAL_GRANTED | AK_APPROVAL_DENIED | AK_APPROVAL_TIMEOUT | AK_APPROVAL_CANCELLED.
#[global] Instance ak_approval_status_eq : EqDecision ak_approval_status.
Proof. solve_decision. Defined.

(** A buffer pointer: NULL, a buffer, or [INVALID_ADDRESS]. *)
Inductive buffer_ptr := NoBuffer | Buffer (b : bytes) | BadBuffer.

Record ak_approval_request := mk_approval {
  ar_id : Z; ar_run_id : bytes; ar_agent_id : bytes; ar_op : Z; ar_request_json : option bytes; ar_justification : option bytes;
  ar_requested_ms : Z; ar_timeout_ms : Z; ar_decided_ms : Z; ar_status : ak_approval_status; ar_reviewer_id : bytes; ar_reviewer_note : buffer_ptr;
  ar_on_decision : option Z }.

Inductive callback := Notified (id : Z) | Decided (id : Z) (status : ak_approval_status).

Record approval_state := mk_approvals {
  ap_pending : table Z ak_approval_request; ap_next_id : Z; ap_default_timeout_ms : Z; ap_notify : bool; ap_initialized : bool; ap_calls : list callback }.

Definition with_pending (t : table Z ak_approval_request) (s : approval_state) : approval_state :=
  mk_approvals t (ap_next_id s) (ap_default_timeout_ms s) (ap_notify s) (ap_initialized s) (ap_calls s).
Definition call (c : callback) (s : approval_state) : approval_state :=
  mk_approvals (ap_pending s) (ap_next_id s) (ap_default_timeout_ms s) (ap_notify s) (ap_initialized s) (c :: ap_calls s).

Definition millis (now : Z) : Z := now / 1000000.

Definition decide_request (status : ak_approval_status) (now_ms : Z) (r : ak_approval_request) : ak_approval_request :=
  mk_approval (ar_id r) (ar_run_id r) (ar_agent_id r) (ar_op r) (ar_request_json r) (ar_justification r) (ar_requested_ms r) (ar_timeout_ms r)
    now_ms status (ar_reviewer_id r) (ar_reviewer_note r) (ar_on_decision r).
Definition set_timeout (t : Z) (r : ak_approval_request) : ak_approval_request :=
  mk_approval (ar_id r) (ar_run_id r) (ar_agent_id r) (ar_op r) (ar_request_json r) (ar_justification r) (ar_requested_ms r) t
    (ar_decided_ms r) (ar_status r) (ar_reviewer_id r) (ar_reviewer_note r) (ar_on_decision r).
Definition set_handler (cb : option Z) (r : ak_approval_request) : ak_approval_request :=
  mk_approval (ar_id r) (ar_run_id r) (ar_agent_id r) (ar_op r) (ar_request_json r) (ar_justification r) (ar_requested_ms r) (ar_timeout_ms r)
    (ar_decided_ms r) (ar_status r) (ar_reviewer_id r) (ar_reviewer_note r) cb.
Definition set_review (id : bytes) (note : buffer_ptr) (r : ak_approval_request) : ak_approval_request :=
  mk_approval (ar_id r) (ar_run_id r) (ar_agent_id r) (ar_op r) (ar_request_json r) (ar_justification r) (ar_requested_ms r) (ar_timeout_ms r)
    (ar_decided_ms r) (ar_status r) id note (ar_on_decision r).

Definition lookup_request (s : approval_state) (id : Z) : option ak_approval_request := table_find identity_key (ap_pending s) id.

(** A write through the pointer to a request; its key is in the table, so that
    nothing is allocated. *)
Definition put_request (id : Z) (r : ak_approval_request) (s : approval_state) : approval_state :=
  match table_set identity_key (mk_tenv false false) (ap_pending s) id (Some r) with Some t => with_pending t s | None => s end.

(** ** Requests *)

(** At boot, before any other call. *)
Definition ak_approval_init (pending by_run : option (table Z ak_approval_request)) (s : approval_state) : approval_state :=
  match pending, by_run with
  | Some p, Some _ => mk_approvals p 1 AK_APPROVAL_DEFAULT_TIMEOUT_MS false true (ap_calls s)
  | _, _ => s
  end.

Record approval_env := mk_aenv { ae_request : bool; ae_json : bool; ae_justification : bool; ae_now : Z; ae_table : table_env }.

(** The identifier is the old value of the counter. *)
Definition ak_approval_request_new (env : approval_env) (s : approval_state) (ctx : option (bytes * bytes)) (req : option (Z * option bytes))
    (justification : option bytes) : option (option ak_approval_request * approval_state) :=
  if negb (ap_initialized s) then Some (None, s)
  else
    match ctx, req with
    | None, _ | _, None => Some (None, s)
    | Some (run_id, pid), Some (op, args) =>
        if negb (ae_request env) then Some (None, s)
        else
          let id := ap_next_id s in
          let s := mk_approvals (ap_pending s) (u64 (id + 1)) (ap_default_timeout_ms s) (ap_notify s) (ap_initialized s) (ap_calls s) in
          if bool_decide (is_Some args) && negb (ae_json env) then Some (None, s)
          else if bool_decide (is_Some justification) && negb (ae_justification env) then Some (None, s)
          else
            let r := mk_approval id (take 16 run_id) (take 16 pid) (u16 op) args justification (millis (ae_now env)) (ap_default_timeout_ms s)
                       0 AK_APPROVAL_PENDING [] NoBuffer None in
            match table_set identity_key (ae_table env) (ap_pending s) id (Some r) with
            | None => None
            | Some t => let s := with_pending t s in Some (Some r, if ap_notify s then call (Notified id) s else s)
            end
    end.

Definition ak_approval_set_callback (s : approval_state) (id : option Z) (cb : option Z) : approval_state :=
  match id with
  | None => s
  | Some id => match lookup_request s id with Some r => put_request id (set_handler cb r) s | None => s end
  end.

(** The closure of a request that has one. *)
Definition announce (r : ak_approval_request) (status : ak_approval_status) (s : approval_state) : approval_state :=
  match ar_on_decision r with Some _ => call (Decided (ar_id r) status) s | None => s end.

Definition expired (now_ms : Z) (r : ak_approval_request) : bool :=
  bool_decide (ar_status r = AK_APPROVAL_PENDING) && (0 <? ar_timeout_ms r) && (0 <? ar_requested_ms r) && (u64 (ar_requested_ms r + ar_timeout_ms r) <? now_ms).

Definition ak_approval_check (now : Z) (s : approval_state) (id : Z) : ak_approval_status * approval_state :=
  if negb (ap_initialized s) then (AK_APPROVAL_TIMEOUT, s)
  else
    match lookup_request s id with
    | None => (AK_APPROVAL_TIMEOUT, s)
    | Some r =>
        if expired (millis now) r then
          (AK_APPROVAL_TIMEOUT, announce r AK_APPROVAL_TIMEOUT (put_request id (decide_request AK_APPROVAL_TIMEOUT (millis now) r) s))
        else (ar_status r, s)
    end.

Definition ak_approval_wait (now : Z) (s : approval_state) (id timeout_ms : Z) : ak_approval_status * approval_state :=
  if negb (ap_initialized s) then (AK_APPROVAL_TIMEOUT, s)
  else
    match lookup_request s id with
    | None => (AK_APPROVAL_TIMEOUT, s)
    | Some r =>
        let s := if (0 <? timeout_ms) && negb (timeout_ms =? ar_timeout_ms r) then put_request id (set_timeout timeout_ms r) s else s in
        ak_approval_check now s id
    end.

Definition ak_approval_cancel (now : Z) (s : approval_state) (id : Z) : Z * approval_state :=
  if negb (ap_initialized s) then (-1, s)
  else
    match lookup_request s id with
    | None => (AK_E_CAP_MISSING, s)
    | Some r =>
        if negb (bool_decide (ar_status r = AK_APPROVAL_PENDING)) then (AK_E_POLICY_DENY, s)
        else (0, announce r AK_APPROVAL_CANCELLED (put_request id (decide_request AK_APPROVAL_CANCELLED (millis now) r) s))
    end.

(** ** Decisions *)

Definition make_decision (now : Z) (alloc_note : bool) (s : approval_state) (id : Z) (decision : ak_approval_status) (reviewer_id note : option bytes) :
    Z * approval_state :=
  if negb (ap_initialized s) then (-1, s)
  else
    match lookup_request s id with
    | None => (AK_E_CAP_MISSING, s)
    | Some r =>
        if negb (bool_decide (ar_status r = AK_APPROVAL_PENDING)) then (AK_E_POLICY_DENY, s)
        else
          let name := match reviewer_id with Some n => take (REVIEWER_ID_SIZE - 1) (cstr n) | None => ar_reviewer_id r end in
          let text := match note with Some b => if alloc_note then Buffer b else BadBuffer | None => ar_reviewer_note r end in
          (0, announce r decision (put_request id (set_review name text (decide_request decision (millis now) r)) s))
    end.
Definition ak_approval_grant (now : Z) (alloc_note : bool) (s : approval_state) (id : Z) (reviewer_id note : option bytes) : Z * approval_state :=
  make_decision now alloc_note s id AK_APPROVAL_GRANTED reviewer_id note.
Definition ak_approval_deny (now : Z) (alloc_note : bool) (s : approval_state) (id : Z) (reviewer_id note : option bytes) : Z * approval_state :=
  make_decision now alloc_note s id AK_APPROVAL_DENIED reviewer_id note.

(** ** Queries *)

Definition listed (run_id : option bytes) (r : ak_approval_request) : bool :=
  bool_decide (ar_status r = AK_APPROVAL_PENDING) && match run_id with Some b => bool_decide (ar_run_id r = take 16 b) | None => true end.

(** The requests that the iterator is given; it stops after one that it refuses. *)
Fixpoint visit (cb : ak_approval_request -> bool) (run_id : option bytes) (l : list ak_approval_request) : list ak_approval_request :=
  match l with
  | [] => []
  | r :: l' => if listed run_id r then (if cb r then r :: visit cb run_id l' else [r]) else visit cb run_id l'
  end.
Definition ak_approval_list_pending (s : approval_state) (run_id : option bytes) (cb : ak_approval_request -> bool) : list ak_approval_request :=
  if negb (ap_initialized s) then [] else visit cb run_id (snd <$> table_foreach (ap_pending s)).

Definition ak_approval_get (s : approval_state) (id : Z) : option ak_approval_request :=
  if negb (ap_initialized s) then None else lookup_request s id.
Definition ak_approval_pending_count (s : approval_state) : Z :=
  if negb (ap_initialized s) then 0 else Z.of_nat (length (List.filter (listed None) (snd <$> table_foreach (ap_pending s)))).

(** [Oob]: the invalid pointer of a failed allocation is freed. *)
Definition ak_approval_free (s : approval_state) (id : Z) : outcome approval_state :=
  if negb (ap_initialized s) then Ret s
  else
    match lookup_request s id with
    | None => Ret s
    | Some r =>
        match ar_reviewer_note r with
        | BadBuffer => Oob
        | _ => match table_set identity_key (mk_tenv false false) (ap_pending s) id None with Some t => Ret (with_pending t s) | None => Ret s end
        end
    end.

Definition ak_approval_set_default_timeout (s : approval_state) (t : Z) : approval_state :=
  if negb (ap_initialized s) then s else mk_approvals (ap_pending s) (ap_next_id s) t (ap_notify s) (ap_initialized s) (ap_calls s).
Definition ak_approval_set_notify_callback (s : approval_state) (cb : bool) : approval_state :=
  if negb (ap_initialized s) then s else mk_approvals (ap_pending s) (ap_next_id s) (ap_default_timeout_ms s) cb (ap_initialized s) (ap_calls s).

(** ** Runs *)

Inductive approval_op :=
| ApRequest (env : approval_env) (ctx : option (bytes * bytes)) (req : option (Z * option bytes)) (justification : option bytes)
| ApCallback (id : option Z) (cb : option Z)
| ApCheck (now id : Z)
| ApWait (now id timeout_ms : Z)
| ApCancel (now id : Z)
| ApGrant (now : Z) (alloc_note : bool) (id : Z) (reviewer_id note : option bytes)
| ApDeny (now : Z) (alloc_note : bool) (id : Z) (reviewer_id note : option bytes)
| ApFree (id : Z)
| ApDefaultTimeout (t : Z)
| ApNotify (cb : bool).

Inductive approval_result := ARequest (r : option ak_approval_request) | AStatus (st : ak_approval_status) | ACode (r : Z) | ADone | AFault.

(** [None]: the system halts. *)
Definition approval_do (op : approval_op) (s : approval_state) : option (approval_result * approval_state) :=
  match op with
  | ApRequest env ctx req j => prod_map ARequest id <$> ak_approval_request_new env s ctx req j
  | ApCallback i cb => Some (ADone, ak_approval_set_callback s i cb)
  | ApCheck now i => Some (prod_map AStatus id (ak_approval_check now s i))
  | ApWait now i t => Some (prod_map AStatus id (ak_approval_wait now s i t))
  | ApCancel now i => Some (prod_map ACode id (ak_approval_cancel now s i))
  | ApGrant now a i rv note => Some (prod_map ACode id (ak_approval_grant now a s i rv note))
  | ApDeny now a i rv note => Some (prod_map ACode id (ak_approval_deny now a s i rv note))
  | ApFree i => Some (match ak_approval_free s i with Ret s' => (ADone, s') | _ => (AFault, s) end)
  | ApDefaultTimeout t => Some (ADone, ak_approval_set_default_timeout s t)
  | ApNotify cb => Some (ADone, ak_approval_set_notify_callback s cb)
  end.

(** The calls that may decide a request, with their results. *)
Definition decides (op : approval_op) (res : approval_result) (i : Z) (st : ak_approval_status) : Prop :=
  match op with
  | ApGrant _ _ j _ _ => j = i /\ res = ACode 0 /\ st = AK_APPROVAL_GRANTED
  | ApDeny _ _ j _ _ => j = i /\ res = ACode 0 /\ st = AK_APPROVAL_DENIED
  | ApCancel _ j => j = i /\ res = ACode 0 /\ st = AK_APPROVAL_CANCELLED
  | ApCheck _ j | ApWait _ j _ => j = i /\ res = AStatus AK_APPROVAL_TIMEOUT /\ st = AK_APPROVAL_TIMEOUT
  | _ => False
  end.

Definition same_decision (r r' : ak_approval_request) : Prop :=
  ar_status r' = ar_status r /\ ar_decided_ms r' = ar_decided_ms r /\ ar_reviewer_id r' = ar_reviewer_id r /\ ar_reviewer_note r' = ar_reviewer_note r.

Definition decided_for (i : Z) (c : callback) : bool := match c with Decided j _ => j =? i | Notified _ => false end.
Definition decisions_told (i : Z) (l : list callback) : nat := length (List.filter (decided_for i) l).

Abbreviation requests := (gmap Z ak_approval_request).

Record ap_ok (s : approval_state) (m : requests) : Prop := {
  ao_table : table_ok identity_key (ap_pending s) m;
  ao_sized : sized (ap_pending s);
  ao_ids : forall i r, m !! i = Some r -> ar_id r = i /\ 0 <= i < ap_next_id s;
  ao_next : 0 <= ap_next_id s;
  ao_calls : forall i st, Decided i st ∈ ap_calls s -> i < ap_next_id s;
  ao_told : forall i r, m !! i = Some r -> (decisions_told i (ap_calls s) <= if decide (ar_status r = AK_APPROVAL_PENDING) then 0 else 1)%nat }.


Lemma lookup_spec s m i : ap_ok s m -> lookup_request s i = m !! i.
Proof. intros H. apply find_spec; [apply identity_key_nonneg|apply H]. Qed.

(** A request is rewritten without being decided. *)
Lemma put_keeps s m i r r' :
  ap_ok s m -> m !! i = Some r -> ar_id r' = ar_id r -> ar_status r' = ar_status r -> ap_ok (put_request i r' s) (<[i := r']> m).
Proof.
  intros [H1 H2 H3 H4 H5 H6] Hi Hid Hst.
  destruct (set_present identity_key identity_key_nonneg (mk_tenv false false) _ m i r' H1 (mk_is_Some _ _ Hi)) as (t' & E & Ht & Eb & Eo).
  unfold put_request. rewrite E. split; cbn [with_pending ap_pending ap_next_id ap_calls]; [done| | |done|done|].
  - destruct H2 as (? & ? & ?). split_and!; by rewrite ?Eo, ?Eb.
  - intros j x. rewrite lookup_insert_Some. intros [[<- <-]|[Hne Hj]]; [rewrite Hid; by apply H3|by apply H3].
  - intros j x. rewrite lookup_insert_Some. intros [[<- <-]|[Hne Hj]]; [rewrite Hst; by apply H6|by apply H6].
Qed.

(** A pending request is decided, and its closure told. *)
Lemma decide_ok s m i r r' st :
  ap_ok s m -> m !! i = Some r -> ar_status r = AK_APPROVAL_PENDING -> ar_id r' = ar_id r -> ar_status r' = st -> st <> AK_APPROVAL_PENDING ->
  ap_ok (announce r st (put_request i r' s)) (<[i := r']> m).
Proof.
  intros Hok Hi Hp Hid Hst Hne. pose proof Hok as [H1 H2 H3 H4 H5 H6].
  destruct (set_present identity_key identity_key_nonneg (mk_tenv false false) _ m i r' H1 (mk_is_Some _ _ Hi)) as (t' & E & Ht & Eb & Eo).
  destruct (H3 _ _ Hi) as [Ei Hlt]. assert (Htold : (decisions_told i (ap_calls s) = 0)%nat) by (specialize (H6 _ _ Hi); rewrite decide_True in H6 by done; lia).
  unfold announce, put_request. rewrite E.
  assert (Hs : sized t') by (destruct H2 as (? & ? & ?); split_and!; by rewrite ?Eo, ?Eb).
  assert (Hids : forall j x, <[i := r']> m !! j = Some x -> ar_id x = j /\ 0 <= j < ap_next_id s).
  { intros j x. rewrite lookup_insert_Some. intros [[<- <-]|[Hn Hj]]; [rewrite Hid; by apply H3|by apply H3]. }
  destruct (ar_on_decision r); split; cbn [call with_pending ap_pending ap_next_id ap_calls]; try done.
  - intros j st' [[= -> ->]|Hj]%elem_of_cons; [rewrite Ei; lia|by eapply H5].
  - intros j x. rewrite lookup_insert_Some. unfold decisions_told in *. cbn [List.filter decided_for]. rewrite Ei. intros [[<- <-]|[Hn Hj]].
    + rewrite Z.eqb_refl, Hst. cbn [length]. rewrite decide_False by done. lia.
    + destruct (Z.eqb_spec i j); [done|]. by apply H6.
  - intros j x. rewrite lookup_insert_Some. intros [[<- <-]|[Hn Hj]]; [rewrite Hst, decide_False by done; lia|by apply H6].
Qed.

(** What one call does to the requests: at most one is decided or rewritten. *)
Definition moves (op : approval_op) (res : approval_result) (s : approval_state) (m m' : requests) : Prop :=
  forall i r', m' !! i = Some r' ->
    match m !! i with
    | Some r => same_decision r r' \/ (ar_status r = AK_APPROVAL_PENDING /\ decides op res i (ar_status r'))
    | None => ap_next_id s <= i /\ ar_status r' = AK_APPROVAL_PENDING
    end.

Lemma moves_refl op res s m : moves op res s m m.
Proof. intros i r' Hi. rewrite Hi. by left. Qed.

Lemma moves_one op res s (m : requests) i r r' :
  m !! i = Some r -> same_decision r r' \/ (ar_status r = AK_APPROVAL_PENDING /\ decides op res i (ar_status r')) -> moves op res s m (<[i := r']> m).
Proof.
  intros Hi Hd j x. rewrite lookup_insert_Some. intros [[<- <-]|[Hne Hj]]; [by rewrite Hi|]. rewrite Hj. by left.
Qed.

Definition ap_step (op : approval_op) (s : approval_state) (m : requests) (o : option (approval_result * approval_state)) : Prop :=
  match o with
  | None => True
  | Some (res, s') => exists m', ap_ok s' m' /\ moves op res s m m' /\ ap_next_id s <= ap_next_id s' <= ap_next_id s + 1
  end.

Lemma step_same op s m res : ap_ok s m -> ap_step op s m (Some (res, s)).
Proof. intros H. exists m. split_and!; [done|apply moves_refl|lia|lia]. Qed.

Lemma step_next op s m s' res m' :
  ap_ok s' m' -> moves op res s m m' -> ap_next_id s' = ap_next_id s + 1 -> ap_step op s m (Some (res, s')).
Proof. intros H1 H2 H3. exists m'. split_and!; [done|done|lia|lia]. Qed.

Lemma notify_ok i s m : ap_ok s m -> ap_ok (call (Notified i) s) m.
Proof.
  intros [H1 H2 H3 H4 H5 H6]. split; cbn [call ap_pending ap_next_id ap_calls]; try done.
  intros j st [?|Hj]%elem_of_cons; [done|by eapply H5].
Qed.

Lemma next_put i r s : ap_next_id (put_request i r s) = ap_next_id s.
Proof. unfold put_request. by destruct (table_set _ _ _ _ _). Qed.
Lemma next_announce r st s : ap_next_id (announce r st s) = ap_next_id s.
Proof. unfold announce. by destruct (ar_on_decision r). Qed.
Lemma init_put i r s : ap_initialized (put_request i r s) = ap_initialized s.
Proof. unfold put_request. by destruct (table_set _ _ _ _ _). Qed.

Lemma request_step env ctx req j s m :
  ap_ok s m -> ap_next_id s + 1 < M64 -> ap_step (ApRequest env ctx req j) s m (prod_map ARequest id <$> ak_approval_request_new env s ctx req j).
Proof.
  intros Hok Hn. pose proof Hok as [H1 H2 H3 H4 H5 H6]. unfold ak_approval_request_new. destruct (ap_initialized s) eqn:Ei; cbn [negb]; [|by apply step_same].
  destruct ctx as [[run pid]|]; [|by apply step_same]. destruct req as [[op args]|]; [|by apply step_same].
  destruct (ae_request env); cbn [negb]; [|by apply step_same]. cbv zeta. set (s1 := mk_approvals _ (u64 _) _ _ _ _).
  assert (Enext : ap_next_id s1 = ap_next_id s + 1) by (apply Z.mod_small; lia).
  assert (Hok1 : ap_ok s1 m) by (split; rewrite ?Enext; cbn [s1 ap_pending ap_calls]; try done; [intros i r Hi; specialize (H3 i r Hi); lia|lia|intros i st Hi; specialize (H5 i st Hi); lia]).
  destruct (bool_decide (is_Some args) && _); [by apply (step_next _ _ _ s1 _ m); [|apply moves_refl|]|].
  destruct (bool_decide (is_Some j) && _); [by apply (step_next _ _ _ s1 _ m); [|apply moves_refl|]|].
  set (r := mk_approval _ _ _ _ _ _ _ _ _ _ _ _ _). set (i := ap_next_id s) in *.
  assert (Hni : m !! i = None) by (destruct (m !! i) eqn:E; [|done]; specialize (H3 _ _ E); unfold i in *; lia).
  destruct (table_set _ _ _ _ _) as [t|] eqn:Et; [|done].
  assert (Ht : table_ok identity_key t (<[i := r]> m) /\ sized t).
  { unfold table_set in Et. destruct (cut _ _ _) as [[v0 b']|] eqn:Ec.
    { destruct (cut_table identity_key identity_key_nonneg _ m i v0 b' H1 Ec) as (_ & _ & _ & Hm & _). congruence. }
    split; [by eapply (insert_ok identity_key identity_key_nonneg); [exact H1|done|exact Et]|].
    destruct (te_entry (ae_table env)) eqn:E1; [|by unfold table_insert_internal in Et; rewrite E1 in Et].
    destruct (te_resize (ae_table env)) eqn:E2.
    - destruct (insert_runs (ae_table env) (ap_pending s) (identity_key i) i r H2 (conj E1 E2)) as (t2 & E3 & Hs). cbn [s1 ap_pending] in Et. rewrite E3 in Et. by injection Et as <-.
    - unfold table_insert_internal in Et. rewrite E1 in Et. cbn [negb] in Et. destruct (_ && _) in Et; [|by injection Et as <-].
      unfold resize_table in Et. rewrite E2 in Et. cbn [negb] in Et. by repeat case_match. }
  destruct Ht as [Ht Hs].
  assert (Hnone : forall st, Decided i st ∉ ap_calls s) by (intros st Hin; specialize (H5 _ _ Hin); unfold i in *; lia).
  assert (Htold : decisions_told i (ap_calls s) = 0%nat).
  { unfold decisions_told. apply length_zero_iff_nil. destruct (List.filter _ _) as [|c l] eqn:Ef; [done|]. exfalso.
    assert (Hc : c ∈ c :: l) by left. rewrite <-Ef in Hc. apply list_elem_of_In, filter_In in Hc as [Hin Hd]. apply list_elem_of_In in Hin.
    destruct c as [|k st]; [done|]. apply Z.eqb_eq in Hd as ->. by apply (Hnone st). }
  assert (Hok2 : ap_ok (with_pending t s1) (<[i := r]> m)).
  { split; cbn [with_pending ap_pending ap_calls]; [done|done| | | |].
    - change (ap_next_id (with_pending t s1)) with (ap_next_id s1). rewrite Enext. intros k x. rewrite lookup_insert_Some.
      intros [[<- <-]|[Hne Hk]]; [split; [done|unfold i; lia]|]. specialize (H3 _ _ Hk). lia.
    - change (ap_next_id (with_pending t s1)) with (ap_next_id s1). rewrite Enext. unfold i in *. lia.
    - change (ap_next_id (with_pending t s1)) with (ap_next_id s1). rewrite Enext. intros k st Hk. specialize (H5 k st Hk). lia.
    - intros k x. rewrite lookup_insert_Some. intros [[<- <-]|[Hne Hk]]; [|by apply H6]. cbn [s1 ap_calls]. rewrite Htold. lia. }
  apply (step_next _ _ _ (if ap_notify (with_pending t s1) then call (Notified i) (with_pending t s1) else with_pending t s1) _ (<[i := r]> m)).
  - destruct (ap_notify _); [by apply notify_ok|done].
  - intros k x. rewrite lookup_insert_Some. intros [[<- <-]|[Hne Hk]]; [by rewrite Hni|]. rewrite Hk. by left.
  - destruct (ap_notify _); exact Enext.
Qed.

(** A request that is decided, or rewritten, by a call. *)
Lemma step_decide op s m i r r' st res :
  ap_ok s m -> m !! i = Some r -> ar_status r = AK_APPROVAL_PENDING -> ar_id r' = ar_id r -> ar_status r' = st -> st <> AK_APPROVAL_PENDING ->
  decides op res i st -> ap_step op s m (Some (res, announce r st (put_request i r' s))).
Proof.
  intros Hok Hi Hp Hid Hst Hne Hd. exists (<[i := r']> m). split_and!; [by apply decide_ok| |rewrite next_announce, next_put; lia..].
  apply (moves_one _ _ _ _ i r); [done|]. right. split; [done|]. by rewrite Hst.
Qed.

Lemma step_rewrite op s m i r r' res :
  ap_ok s m -> m !! i = Some r -> ar_id r' = ar_id r -> same_decision r r' -> ap_step op s m (Some (res, put_request i r' s)).
Proof.
  intros Hok Hi Hid Hs. exists (<[i := r']> m). split_and!; [by eapply put_keeps; [| | |apply Hs]| |rewrite next_put; lia..].
  apply (moves_one _ _ _ _ i r); [done|by left].
Qed.

Lemma check_step op now s m i :
  ap_ok s m -> (forall st, decides op (AStatus AK_APPROVAL_TIMEOUT) i st <-> st = AK_APPROVAL_TIMEOUT) ->
  ap_step op s m (Some (prod_map AStatus id (ak_approval_check now s i))).
Proof.
  intros Hok Hop. unfold ak_approval_check. destruct (ap_initialized s); cbn [negb]; [|by apply step_same].
  rewrite (lookup_spec s m i Hok). destruct (m !! i) as [r|] eqn:Hi; [|by apply step_same].
  destruct (expired (millis now) r) eqn:Ee; [|by apply step_same].
  eapply (step_decide op); [done|exact Hi| |done|done|done|by apply Hop].
  unfold expired in Ee. rewrite !andb_true_iff, bool_decide_eq_true in Ee. tauto.
Qed.

(** A call in two steps. *)
Lemma wait_step now s m i t :
  ap_ok s m -> ap_step (ApWait now i t) s m (Some (prod_map AStatus id (ak_approval_wait now s i t))).
Proof.
  intros Hok. assert (Hop : forall st, decides (ApWait now i t) (AStatus AK_APPROVAL_TIMEOUT) i st <-> st = AK_APPROVAL_TIMEOUT) by (intros st; cbn; tauto).
  unfold ak_approval_wait. destruct (ap_initialized s); cbn [negb]; [|by apply step_same].
  rewrite (lookup_spec s m i Hok). destruct (m !! i) as [r|] eqn:Hi; [|by apply step_same]. cbv zeta.
  destruct ((0 <? t) && negb (t =? ar_timeout_ms r)); [|by apply check_step].
  assert (Hok1 : ap_ok (put_request i (set_timeout t r) s) (<[i := set_timeout t r]> m)) by (by eapply put_keeps).
  pose proof (check_step (ApWait now i t) now _ _ i Hok1 Hop) as Hc.
  destruct (ak_approval_check now (put_request i (set_timeout t r) s) i) as [st s']. cbn [prod_map fst snd id] in *.
  destruct Hc as (m' & Hok' & Hm & Hn). exists m'. rewrite next_put in Hn. split_and!; [done| |lia|lia].
  intros j x Hj. specialize (Hm j x Hj). destruct (decide (j = i)) as [->|Hne].
  - rewrite lookup_insert_eq in Hm. by rewrite Hi.
  - rewrite lookup_insert_ne in Hm by done. destruct (m !! j) eqn:Em; [done|]. rewrite next_put in Hm. done.
Qed.

Lemma decision_step op now a s m i dec rv note :
  ap_ok s m -> dec <> AK_APPROVAL_PENDING -> decides op (ACode 0) i dec ->
  ap_step op s m (Some (prod_map ACode id (make_decision now a s i dec rv note))).
Proof.
  intros Hok Hne Hd. unfold make_decision. destruct (ap_initialized s); cbn [negb]; [|by apply step_same].
  rewrite (lookup_spec s m i Hok). destruct (m !! i) as [r|] eqn:Hi; [|by apply step_same].
  case_bool_decide as Hp; cbn [negb]; [|by apply step_same]. by eapply (step_decide op).
Qed.

Lemma step_config op s m res t b : ap_ok s m -> ap_step op s m (Some (res, mk_approvals (ap_pending s) (ap_next_id s) t b (ap_initialized s) (ap_calls s))).
Proof. intros [H1 H2 H3 H4 H5 H6]. exists m. split_and!; [by split|apply moves_refl|cbn; lia..]. Qed.

Lemma free_step s m i :
  ap_ok s m -> ap_step (ApFree i) s m (Some (match ak_approval_free s i with Ret s' => (ADone, s') | _ => (AFault, s) end)).
Proof.
  intros Hok. unfold ak_approval_free. destruct (ap_initialized s); cbn [negb]; [|by apply step_same].
  rewrite (lookup_spec s m i Hok). destruct (m !! i) as [r|] eqn:Hi; [|by apply step_same].
  pose proof Hok as [H1 H2 H3 H4 H5 H6].
  destruct (set_absent identity_key identity_key_nonneg (mk_tenv false false) _ m i H1) as (t' & E & Ht & Eb & Eo). rewrite E.
  assert (Hs : ap_step (ApFree i) s m (Some (ADone, with_pending t' s))).
  { exists (delete i m). split_and!; [|intros j x [_ Hj]%lookup_delete_Some; rewrite Hj; by left|cbn; lia..].
    split; cbn [with_pending ap_pending ap_next_id ap_calls]; [done| | |done|done|].
    - destruct H2 as (? & ? & ?). split_and!; by rewrite ?Eo, ?Eb.
    - intros j x [_ Hj]%lookup_delete_Some. by apply H3.
    - intros j x [_ Hj]%lookup_delete_Some. by apply H6. }
  destruct (ar_reviewer_note r); [done|done|by apply step_same].
Qed.

Lemma approval_do_spec op s m : ap_ok s m -> ap_next_id s + 1 < M64 -> ap_step op s m (approval_do op s).
Proof.
  intros Hok Hn. destruct op as [env ctx req j|oi cb|now i|now i t|now i|now a i rv note|now a i rv note|i|t|cb]; cbn [approval_do].
  - by apply request_step.
  - destruct oi as [i|]; [|by apply step_same]. cbn [ak_approval_set_callback]. rewrite (lookup_spec s m i Hok).
    destruct (m !! i) as [r|] eqn:Hi; [|by apply step_same]. by eapply step_rewrite.
  - apply check_step; [done|]. cbn. tauto.
  - by apply wait_step.
  - unfold ak_approval_cancel. destruct (ap_initialized s); cbn [negb]; [|by apply step_same].
    rewrite (lookup_spec s m _ Hok). destruct (m !! _) as [r|] eqn:Hi; [|by apply step_same].
    case_bool_decide as Hp; cbn [negb]; [|by apply step_same]. by eapply step_decide.
  - by apply decision_step.
  - by apply decision_step.
  - by apply free_step.
  - unfold ak_approval_set_default_timeout. destruct (ap_initialized s) eqn:E; cbn [negb]; [rewrite <-E; by apply step_config|by apply step_same].
  - unfold ak_approval_set_notify_callback. destruct (ap_initialized s) eqn:E; cbn [negb]; [rewrite <-E; by apply step_config|by apply step_same].
Qed.

Inductive approval_run : approval_state -> list (approval_op * approval_result) -> approval_state -> Prop :=
| ap_run_nil s : approval_run s [] s
| ap_run_cons s op res s1 tr s2 : approval_do op s = Some (res, s1) -> approval_run s1 tr s2 -> approval_run s ((op, res) :: tr) s2.

Definition decided_in (tr : list (approval_op * approval_result)) (i : Z) (st : ak_approval_status) : Prop := exists op res, (op, res) ∈ tr /\ decides op res i st.

(** How a request gets from its first to its second state. *)
Definition evolves (tr : list (approval_op * approval_result)) (i : Z) (r r' : ak_approval_request) : Prop :=
  same_decision r r' \/ (ar_status r = AK_APPROVAL_PENDING /\ decided_in tr i (ar_status r')).

Lemma decided_pending op res i st : decides op res i st -> st <> AK_APPROVAL_PENDING.
Proof. destruct op; cbn; intros Hd; try done; by destruct Hd as (_ & _ & ->). Qed.

Lemma approval_run_spec s m tr s' :
  approval_run s tr s' -> ap_ok s m -> ap_next_id s + Z.of_nat (length tr) < M64 ->
  exists m', ap_ok s' m' /\ forall i r', m' !! i = Some r' ->
    match m !! i with
    | Some r => evolves tr i r r'
    | None => ap_next_id s <= i /\ (ar_status r' <> AK_APPROVAL_PENDING -> decided_in tr i (ar_status r'))
    end.
Proof.
  intros Hrun. revert m. induction Hrun as [s|s op res s1 tr s2 Hdo Hrun IH]; intros m Hok Hn.
  { exists m. split; [done|]. intros i r' Hi. rewrite Hi. by left. }
  cbn [length] in Hn. pose proof (approval_do_spec op s m Hok ltac:(lia)) as Hs. rewrite Hdo in Hs. destruct Hs as (m1 & Hok1 & Hm & Hnext).
  destruct (IH m1 Hok1 ltac:(lia)) as (m2 & Hok2 & He). exists m2. split; [done|]. intros i r' Hi. specialize (He i r' Hi).
  assert (Hlater : forall st, decided_in tr i st -> decided_in ((op, res) :: tr) i st) by (intros st (o & x & Hin & Hd); exists o, x; split; [by right|done]).
  assert (Hnow : forall st, decides op res i st -> decided_in ((op, res) :: tr) i st) by (intros st Hd; exists op, res; split; [left|done]).
  destruct (m1 !! i) as [r1|] eqn:E1.
  - specialize (Hm i r1 E1). destruct (m !! i) as [r|] eqn:E0.
    + destruct Hm as [Hs|[Hp Hd]], He as [Hs'|[Hp' Hd']].
      * left. destruct Hs as (?&?&?&?), Hs' as (?&?&?&?). split_and!; congruence.
      * right. split; [destruct Hs; congruence|by apply Hlater].
      * right. split; [done|]. apply Hnow. destruct Hs' as [-> _]. done.
      * apply decided_pending in Hd. congruence.
    + destruct Hm as [Hlt Hp]. split; [done|]. intros Hne. destruct He as [Hs'|[_ Hd']]; [destruct Hs'; congruence|by apply Hlater].
  - destruct He as [Hlt Hd]. destruct (m !! i) as [r|] eqn:E0; [destruct (ao_ids _ _ Hok i r E0); lia|]. split; [lia|]. intros Hne. by apply Hlater, Hd.
Qed.

(** C34: a decision is final.  Along every run, of every request that is there at
    its beginning and at its end: if it was decided, its status, its time and its
    reviewer are the same; if it was pending and no longer is, a call of the run
    with a successful result made that decision; and its closure has been told of
    at most one decision, of none while the request is pending. *)
Theorem decision_is_final s m tr s' :
  approval_run s tr s' -> ap_ok s m -> ap_next_id s + Z.of_nat (length tr) < M64 ->
  forall i r r', ak_approval_get s i = Some r -> ak_approval_get s' i = Some r' ->
    (ar_status r <> AK_APPROVAL_PENDING -> same_decision r r') /\
    (ar_status r = AK_APPROVAL_PENDING -> ar_status r' <> AK_APPROVAL_PENDING -> decided_in tr i (ar_status r')) /\
    (decisions_told i (ap_calls s') <= if decide (ar_status r' = AK_APPROVAL_PENDING) then 0 else 1)%nat.
Proof.
  intros Hrun Hok Hn i r r'. unfold ak_approval_get. destruct (ap_initialized s), (ap_initialized s'); try done. cbn [negb]. rewrite (lookup_spec s m i Hok). intros Hr Hr'.
  destruct (approval_run_spec s m tr s' Hrun Hok Hn) as (m' & Hok' & He). rewrite (lookup_spec s' m' i Hok') in Hr'. specialize (He i r' Hr'). rewrite Hr in He.
  split_and!; [| |by eapply ao_told].
  - intros Hne. by destruct He as [Hs|[Hp _]].
  - intros Hp Hne. destruct He as [Hs|[_ Hd]]; [destruct Hs; congruence|done].
Qed.

(** A granted request was granted by a reviewer: in every run from an empty
    table, a call of [ak_approval_grant] for it succeeded. *)
Theorem granted_only_by_reviewer s tr s' i r :
  approval_run s tr s' -> ap_ok s ∅ -> ap_next_id s + Z.of_nat (length tr) < M64 ->
  ak_approval_get s' i = Some r -> ar_status r = AK_APPROVAL_GRANTED ->
  exists now a rv note, (ApGrant now a i rv note, ACode 0) ∈ tr.
Proof.
  intros Hrun Hok Hn Hg Hst. destruct (approval_run_spec s ∅ tr s' Hrun Hok Hn) as (m' & Hok' & He). unfold ak_approval_get in Hg.
  destruct (ap_initialized s'); [|done]. cbn [negb] in Hg. rewrite (lookup_spec s' m' i Hok') in Hg. specialize (He i r Hg). rewrite lookup_empty in He.
  destruct He as [_ He]. destruct (He ltac:(congruence)) as (op & res & Hin & Hd). rewrite Hst in Hd.
  destruct op; cbn in Hd; try done; destruct Hd as (-> & -> & Hd); try done. eauto 10.
Qed.

(** ** Examples *)

Definition approval_boot : approval_state := mk_approvals (mk_table 4 0 (replicate 4 []) true) 0 0 false false [].
Definition approvals : approval_state := ak_approval_init (allocate_table true true) (allocate_table true true) approval_boot.

Lemma approvals_ok : ap_ok approvals ∅.
Proof.
  split; cbn; [apply new_table_ok|by split_and!; [| |exists 2]|intros i r; by rewrite lookup_empty|lia|by intros ? ? ?%not_elem_of_nil|intros i r; by rewrite lookup_empty].
Qed.

(** A clock reading in seconds. *)
Definition at_second (n : Z) : Z := n * 2 ^ 32.
Definition ask (n : Z) : approval_op := ApRequest (mk_aenv true true true (at_second n) (mk_tenv true true)) (Some (replicate 16 1, replicate 16 2)) (Some (7, Some B"{}")) None.
Definition grant_op (n : Z) (a : bool) : approval_op := ApGrant (at_second n) a 1 (Some B"reviewer") (Some B"fine").
Fixpoint approval_exec (ops : list approval_op) (s : approval_state) : list approval_result * approval_state :=
  match ops with
  | [] => ([], s)
  | op :: ops => match approval_do op s with Some (r, s) => prod_map (cons r) id (approval_exec ops s) | None => ([], s) end
  end.
Definition results (ops : list approval_op) : list approval_result := (approval_exec ops approvals).1.
Definition status_of (s : approval_state) (i : Z) : option ak_approval_status := ar_status <$> ak_approval_get s i.

Example grant_then_deny :
  let s := (approval_exec [ask 1; ApCallback (Some 1) (Some 9); grant_op 2 true; ApDeny (at_second 3) true 1 None None; ApCancel (at_second 4) 1] approvals).2 in
  status_of s 1 = Some AK_APPROVAL_GRANTED /\ ap_calls s = [Decided 1 AK_APPROVAL_GRANTED] /\ ak_approval_pending_count s = 0.
Proof. vm_compute. repeat split. Qed.

(** The deadline is tested only by a query: a reviewer grants a request an hour
    after it has expired. *)
Example expired_request_granted :
  results [ask 1; ApCheck (at_second 3601) 1] = [ARequest (ak_approval_get (approval_exec [ask 1] approvals).2 1); AStatus AK_APPROVAL_TIMEOUT] /\
  status_of (approval_exec [ask 1; grant_op 3601 true] approvals).2 1 = Some AK_APPROVAL_GRANTED.
Proof. vm_compute. repeat split. Qed.

(** The clock is divided by a million as if it counted nanoseconds: the default
    of five minutes is over after seventy seconds. *)
Example default_timeout_early : status_of (approval_exec [ask 1; ApCheck (at_second 72) 1] approvals).2 1 = Some AK_APPROVAL_TIMEOUT.
Proof. vm_compute. reflexivity. Qed.

(** Waiting does not wait, and moves the deadline of the request. *)
Example waiting_moves_deadline :
  status_of (approval_exec [ask 1; ApWait (at_second 3601) 1 (10 ^ 9)] approvals).2 1 = Some AK_APPROVAL_PENDING.
Proof. vm_compute. reflexivity. Qed.

(** The note that could not be allocated is freed with its request. *)
Example failed_note_freed :
  results [ask 1; grant_op 2 false; ApFree 1] = results [ask 1; grant_op 2 false] ++ [AFault].
Proof. vm_compute. reflexivity. Qed.

Lemma exec_run ops s : length (approval_exec ops s).1 = length ops -> approval_run s (zip ops (approval_exec ops s).1) (approval_exec ops s).2.
Proof.
  revert s. induction ops as [|op ops IH]; intros s Hl; [constructor|]. cbn [approval_exec] in *. destruct (approval_do op s) as [[r s1]|] eqn:E; [|done].
  specialize (IH s1). destruct (approval_exec ops s1) as [rs s2]. cbn [prod_map fst snd id length] in *. cbn [zip_with]. econstructor; [exact E|]. apply IH. lia.
Qed.

Lemma decision_is_final_witness :
  let s := (approval_exec [ask 1; grant_op 2 true] approvals).2 in
  let ops := [ApDeny (at_second 3) true 1 None None; ask 4] in
  exists r r', ak_approval_get s 1 = Some r /\ ak_approval_get (approval_exec ops s).2 1 = Some r' /\ same_decision r r'.
Proof.
  intros s ops.
  assert (Hok : exists m, ap_ok s m).
  { destruct (approval_run_spec approvals ∅ (zip [ask 1; grant_op 2 true] (approval_exec [ask 1; grant_op 2 true] approvals).1) s
      (exec_run [ask 1; grant_op 2 true] approvals ltac:(vm_compute; reflexivity)) approvals_ok ltac:(vm_compute; reflexivity)) as (m & Hm & _). by exists m. }
  destruct Hok as [m Hok].
  assert (Hr : exists r, ak_approval_get s 1 = Some r /\ ar_status r = AK_APPROVAL_GRANTED) by (eexists; split; vm_compute; reflexivity).
  assert (Hr' : exists r', ak_approval_get (approval_exec ops s).2 1 = Some r') by (eexists; vm_compute; reflexivity).
  destruct Hr as (r & Hr & Hst), Hr' as (r' & Hr'). exists r, r'. split_and!; [done|done|].
  apply (decision_is_final s m _ _ (exec_run ops s ltac:(vm_compute; reflexivity)) Hok ltac:(vm_compute; reflexivity) 1 r r' Hr Hr'). congruence.
Defined.
