(* ===== verification/Secrets.v ===== *)
(** * Secrets ([src/src/agentic/ak_secrets.c])

    Secrets that were loaded at boot, and their resolution for tools.  The table
    of [HashTable] is keyed by the pointers to the name buffers; a key is here
    the pointer with the text it points to.  Every backend resolves from that
    table only.  Addresses of buffers and the outcomes of allocations are
    arguments; a table that runs out of memory halts the system.

    Theorem: a resolution under a capability releases exactly a value that was
    loaded under the name, and only for a name that the capability covers. *)

From stdpp Require Import gmap.
From S2P Require Import Prelude Pattern Capability HashTable.
#[local] Open Scope Z_scope.

Definition AK_CAP_SECRETS : Z := 4.

Inductive ak_secret_backend := AK_SECRET_BACKEND_ENV | AK_SECRET_BACKEND_FILE | AK_SECRET_BACKEND_VIRTIO | OTHER_BACKEND.

(** A pointer to a name, and its text. *)
Abbreviation name_ptr := (Z * bytes)%type.
Definition key_from_pointer (k : name_ptr) : Z := u64 (fst k).
Abbreviation secret_table := (table name_ptr bytes).

Record ak_secrets_config := mk_sconfig { sc_backend : ak_secret_backend; sc_file_path : option bytes; sc_virtio_fd : Z; sc_env_secrets : option secret_table }.
Record secrets_state := mk_secrets {
  ss_backend : ak_secret_backend; ss_file_path : bytes; ss_virtio_fd : Z; ss_secrets : secret_table; ss_initialized : bool; ss_last_error : option bytes }.

Definition with_secrets (t : secret_table) (s : secrets_state) : secrets_state :=
  mk_secrets (ss_backend s) (ss_file_path s) (ss_virtio_fd s) t (ss_initialized s) (ss_last_error s).
Definition set_error (e : bytes) (s : secrets_state) : secrets_state :=
  mk_secrets (ss_backend s) (ss_file_path s) (ss_virtio_fd s) (ss_secrets s) (ss_initialized s) (Some e).

Fixpoint copy_all (env : nat -> table_env) (l : list (name_ptr * bytes)) (t : secret_table) : option secret_table :=
  match l with
  | [] => Some t
  | (k, v) :: l' => match table_set key_from_pointer (env 0%nat) t k (Some v) with Some t => copy_all (fun n => env (S n)) l' t | None => None end
  end.

(** [fresh] is the new table. *)
Definition ak_secrets_init (env : nat -> table_env) (fresh : secret_table) (config : option ak_secrets_config) : option secrets_state :=
  let backend := match config with Some c => sc_backend c | None => AK_SECRET_BACKEND_ENV end in
  let path := match config with Some c => default B"/run/secrets" (sc_file_path c) | None => B"/run/secrets" end in
  let fd := match config with Some c => sc_virtio_fd c | None => -1 end in
  let loaded := match config with Some c => match sc_env_secrets c with Some t => table_foreach t | None => [] end | None => [] end in
  (fun t => mk_secrets backend path fd t true None) <$> copy_all env loaded fresh.

(** The addresses of the two buffers, where they can be allocated. *)
Definition ak_secrets_preload (env : table_env) (alloc_value : bool) (alloc_key : option Z) (s : secrets_state) (name value : bytes) : option secrets_state :=
  if negb (ss_initialized s) then Some s
  else if negb alloc_value then Some s
  else
    match alloc_key with
    | None => Some s
    | Some a => (fun t => with_secrets t s) <$> table_set key_from_pointer env (ss_secrets s) (a, cstr name ++ [0]) (Some value)
    end.

(** [runtime_strncmp (a, b, n) == 0] for arrays of at least [n] bytes. *)
Fixpoint strncmp_eq (a b : bytes) (n : nat) {struct n} : bool :=
  match n, a, b with
  | O, _, _ => true
  | S n, x :: a, y :: b => if negb (x =? y) then false else if x =? 0 then true else strncmp_eq a b n
  | S _, _, _ => true
  end.

(** The key is the reference, with or without a final NUL. *)
Definition names (ref : bytes) (key : bytes) : bool :=
  (length ref <=? length key)%nat && strncmp_eq key ref (length ref) &&
  ((length key =? length ref)%nat || bool_decide (key !! length ref = Some 0)).

Definition resolve_from_preloaded (s : secrets_state) (ref : bytes) : option bytes :=
  snd <$> List.find (fun kv => names ref (snd (fst kv))) (table_foreach (ss_secrets s)).

(** A buffer for the caller: NULL, a copy, or [INVALID_ADDRESS]. *)
Inductive secret := NoSecret | Secret (b : bytes) | BadSecret.
Definition clone (alloc : bool) (b : bytes) : secret := if alloc then Secret b else BadSecret.

Definition resolve_preloaded_or (alloc : bool) (error : bytes) (s : secrets_state) (ref : bytes) : secret * secrets_state :=
  match resolve_from_preloaded s ref with Some v => (clone alloc v, s) | None => (NoSecret, set_error error s) end.

Definition resolve_from_env (alloc : bool) (s : secrets_state) (ref : bytes) : secret * secrets_state :=
  resolve_preloaded_or alloc B"secret not found in environment" s ref.
Definition resolve_from_file (alloc : bool) (s : secrets_state) (ref : bytes) : secret * secrets_state :=
  resolve_preloaded_or alloc B"secret file not found" s ref.
Definition resolve_from_virtio (alloc : bool) (s : secrets_state) (ref : bytes) : secret * secrets_state :=
  if ss_virtio_fd s <? 0 then (NoSecret, set_error B"virtio secret backend not configured" s)
  else resolve_preloaded_or alloc B"virtio secret resolution not implemented" s ref.

Definition ak_secret_check_cap (cap : option ak_capability) (ref : bytes) : bool :=
  match cap with
  | None => false
  | Some cap => if negb (cap_type cap =? AK_CAP_SECRETS) then false else ak_pattern_match (resource cap) (take 256 ref)
  end.

Definition ak_secret_resolve (alloc : bool) (s : secrets_state) (ref : option bytes) (cap : option ak_capability) : secret * secrets_state :=
  if negb (ss_initialized s) then (NoSecret, set_error B"secrets subsystem not initialized" s)
  else
    match ref with
    | None | Some [] => (NoSecret, set_error B"invalid secret reference" s)
    | Some ref =>
        if match cap with Some _ => negb (ak_secret_check_cap cap ref) | None => false end
        then (NoSecret, set_error B"capability does not grant secret access" s)
        else
          match ss_backend s with
          | AK_SECRET_BACKEND_ENV => resolve_from_env alloc s ref
          | AK_SECRET_BACKEND_FILE => resolve_from_file alloc s ref
          | AK_SECRET_BACKEND_VIRTIO => resolve_from_virtio alloc s ref
          | OTHER_BACKEND => (NoSecret, set_error B"unknown secret backend" s)
          end
    end.

Definition ak_secret_clear (b : option bytes) : option bytes := (fun b => replicate (length b) 0) <$> b.
Definition ak_secrets_last_error (s : secrets_state) : option bytes := ss_last_error s.

(** ** Correctness *)

Definition text (b : bytes) : Prop := 0 ∉ b.

Lemma strncmp_text ref key : text ref -> (length ref <= length key)%nat -> strncmp_eq key ref (length ref) = true <-> take (length ref) key = ref.
Proof.
  revert key. induction ref as [|y ref IH]; intros key Ht Hl; [by split|]. destruct key as [|x key]; [cbn in Hl; lia|].
  apply not_elem_of_cons in Ht as [Hy Ht]. cbn [length strncmp_eq take]. destruct (Z.eqb_spec x y) as [->|Hne]; cbn [negb].
  - destruct (Z.eqb_spec y 0); [congruence|]. rewrite IH by (done || (cbn in Hl; lia)). split; [by intros ->|by intros [= ->]].
  - split; [done|]. by intros [= ->].
Qed.

(** A loaded name is recognised exactly. *)
Lemma names_spec ref name : text ref -> text name -> names ref (name ++ [0]) = true <-> ref = name.
Proof.
  intros Hr Hn. unfold names. rewrite !andb_true_iff, orb_true_iff, Nat.leb_le, Nat.eqb_eq, bool_decide_eq_true. rewrite length_app. cbn [length]. split.
  - intros [[Hl Hs] He]. apply strncmp_text in Hs; [|done|rewrite length_app; cbn; lia]. destruct He as [He|He].
    + exfalso. rewrite take_ge in Hs by (rewrite length_app; cbn; lia). apply Hr. rewrite <-Hs. set_solver.
    + destruct (decide (length ref = length name)) as [E|Hne].
      * rewrite E, take_app_length in Hs. done.
      * rewrite lookup_app_l in He; [by destruct Hn; eapply list_elem_of_lookup_2|].
        apply lookup_lt_Some in He. rewrite length_app in He. cbn in He. lia.
  - intros <-. split_and!; [lia| |].
    + apply strncmp_text; [done|rewrite length_app; lia|apply take_app_length].
    + right. by rewrite list_lookup_middle.
Qed.

(** The secrets that were loaded at boot: names without NUL, stored with one. *)
Definition loaded (s : secrets_state) (name value : bytes) : Prop := exists a, ((a, name ++ [0]), value) ∈ table_foreach (ss_secrets s).
Definition named_table (s : secrets_state) : Prop := forall k v, (k, v) ∈ table_foreach (ss_secrets s) -> exists name, text name /\ snd k = name ++ [0].

Lemma preloaded_spec s ref :
  named_table s -> text ref ->
  match resolve_from_preloaded s ref with Some v => loaded s ref v | None => forall v, ~ loaded s ref v end.
Proof.
  intros Hn Ht. unfold resolve_from_preloaded, loaded. destruct (List.find _ _) as [[[a k] v]|] eqn:Ef; cbn.
  - apply List.find_some in Ef as [Hin Hnm]. apply list_elem_of_In in Hin. destruct (Hn _ _ Hin) as (name & Htn & Ek). cbn in *. subst k.
    apply names_spec in Hnm; [|done..]. subst name. by exists a.
  - intros v (a & Hin). apply list_elem_of_In in Hin. pose proof (List.find_none _ _ Ef _ Hin) as Hf. cbn in Hf.
    assert (Hnm : names ref (ref ++ [0]) = true) by (by apply names_spec). congruence.
Qed.

(** Where a backend looks. *)
Definition configured (s : secrets_state) : Prop :=
  match ss_backend s with AK_SECRET_BACKEND_VIRTIO => 0 <= ss_virtio_fd s | OTHER_BACKEND => False | _ => True end.

(** What a resolution does, once the names are texts. *)
Lemma resolve_spec s ref cap :
  ss_initialized s = true -> named_table s -> text ref -> ref <> [] -> (length ref <= 256)%nat ->
  let '(r, s') := ak_secret_resolve true s (Some ref) (Some cap) in
  ss_secrets s' = ss_secrets s /\ r <> BadSecret /\
  (forall v, r = Secret v -> configured s /\ cap_type cap = AK_CAP_SECRETS /\ Glob (cstr (resource cap)) ref /\ loaded s ref v) /\
  (r = NoSecret -> ~ (configured s /\ cap_type cap = AK_CAP_SECRETS /\ Glob (cstr (resource cap)) ref /\ exists v, loaded s ref v) /\ is_Some (ak_secrets_last_error s')).
Proof.
  intros Hi Hn Ht Hne Hl. unfold ak_secret_resolve. rewrite Hi. cbn [negb]. destruct ref as [|c ref]; [done|]. set (rf := c :: ref) in *.
  assert (Hcs : cstr (take 256 rf) = rf) by (rewrite take_ge by lia; apply cstr_nonul_id, Forall_forall; intros ? ? ->; done).
  unfold ak_secret_check_cap. destruct (Z.eqb_spec (cap_type cap) AK_CAP_SECRETS) as [Hc|Hc]; cbn [negb]; [|split_and!; [done|done|done|by intros _; split; [intros (_ & ? & _)|eexists]]].
  pose proof (ak_pattern_matchP (resource cap) (take 256 rf)) as Hp. rewrite Hcs in Hp.
  destruct (ak_pattern_match _ _); cbn [negb]; [|split_and!; [done|done|done|intros _; split; [intros (_ & _ & Hg & _); by apply Hp in Hg|by eexists]]].
  assert (Hg : Glob (cstr (resource cap)) rf) by (by apply Hp). clear Hp.
  pose proof (preloaded_spec s rf Hn Ht) as Hf.
  assert (Hboth : forall e, configured s ->
    let '(r, s') := resolve_preloaded_or true e s rf in
    ss_secrets s' = ss_secrets s /\ r <> BadSecret /\
    (forall v, r = Secret v -> configured s /\ cap_type cap = AK_CAP_SECRETS /\ Glob (cstr (resource cap)) rf /\ loaded s rf v) /\
    (r = NoSecret -> ~ (configured s /\ cap_type cap = AK_CAP_SECRETS /\ Glob (cstr (resource cap)) rf /\ exists v, loaded s rf v) /\ is_Some (ak_secrets_last_error s'))).
  { intros e Hcf. unfold resolve_preloaded_or. destruct (resolve_from_preloaded s rf) as [v|].
    - split_and!; [done|done|by intros ? [= <-]|done].
    - split_and!; [done|done|done|]. intros _. split; [intros (_ & _ & _ & v & Hv); by apply (Hf v)|by eexists]. }
  unfold configured in Hboth at 1. destruct (ss_backend s) eqn:Eb; [by apply Hboth|by apply Hboth| |].
  - unfold resolve_from_virtio. destruct (Z.ltb_spec (ss_virtio_fd s) 0); [|by apply Hboth].
    split_and!; [done|done|done|]. intros _. split; [|by eexists]. unfold configured. rewrite Eb. intros [? _]. lia.
  - split_and!; [done|done|done|]. intros _. split; [|by eexists]. unfold configured. rewrite Eb. by intros [? _].
Qed.

(** ** Loading at boot *)

(** A secret to load: the address of its name buffer, its name and its value. *)
Abbreviation boot_secret := (Z * bytes * bytes)%type.
Definition boot_env : table_env := mk_tenv true true.

Fixpoint preload_all (l : list boot_secret) (s : secrets_state) : option secrets_state :=
  match l with
  | [] => Some s
  | (a, name, value) :: l => match ak_secrets_preload boot_env true (Some a) s name value with Some s => preload_all l s | None => None end
  end.
Definition boot (config : option ak_secrets_config) (l : list boot_secret) : option secrets_state :=
  match allocate_table true true with
  | Some fresh => match ak_secrets_init (fun _ => boot_env) fresh config with Some s => preload_all l s | None => None end
  | None => None
  end.

Definition name_key (x : boot_secret) : name_ptr := (x.1.1, x.1.2 ++ [0]).

Lemma key_from_pointer_nonneg k : 0 <= key_from_pointer k.
Proof. unfold key_from_pointer, u64. apply Z.mod_pos_bound. done. Qed.

Lemma preload_all_spec l : forall s m,
  ss_initialized s = true -> table_ok key_from_pointer (ss_secrets s) m -> sized (ss_secrets s) ->
  Forall (fun x => text x.1.2) l -> NoDup ((fun x => x.1.1) <$> l) -> (forall x, x ∈ l -> m !! name_key x = None) ->
  exists s' m', preload_all l s = Some s' /\ ss_initialized s' = true /\ ss_backend s' = ss_backend s /\ ss_virtio_fd s' = ss_virtio_fd s /\
    table_ok key_from_pointer (ss_secrets s') m' /\ (forall k v, m' !! k = Some v <-> m !! k = Some v \/ exists x, x ∈ l /\ k = name_key x /\ v = x.2).
Proof.
  induction l as [|[[a name] value] l IH]; intros s m Hi Ht Hs Hx Hn Hf; cbn [preload_all].
  { exists s, m. split_and!; [done..|]. intros k v. split; [by left|]. intros [?|(x & ?%not_elem_of_nil & _)]; done. }
  apply Forall_cons in Hx as [Hx Hxs]. cbn in Hx. rewrite fmap_cons in Hn. apply NoDup_cons in Hn as [Hna Hn]. cbn in Hna.
  unfold ak_secrets_preload. rewrite Hi. cbn [negb].
  assert (Ec : cstr name = name) by (apply cstr_nonul_id, Forall_forall; intros ? ? ->; done). rewrite Ec.
  assert (Hm0 : m !! (a, name ++ [0]) = None) by (apply (Hf (a, name, value)); by left).
  destruct (do_refines key_from_pointer key_from_pointer_nonneg boot_env (TSet (a, name ++ [0]) (Some value)) _ m Ht Hs) as (t1 & E & Ht1 & Hs1); [done|].
  cbn [table_do map_do fst snd] in E, Ht1. apply fmap_Some in E as (t & E & [= <-]). rewrite E. cbn [fmap option_fmap option_map].
  destruct (IH (with_secrets t1 s) (<[(a, name ++ [0]) := value]> m)) as (s' & m' & E' & H1 & H2 & H3 & H4 & H5); [done|done|done|done|done| |].
  { intros x Hxl. rewrite lookup_insert_ne; [by apply Hf; right|]. intros Ek. apply Hna. apply list_elem_of_fmap. exists x. split; [|done]. by injection Ek. }
  exists s', m'. split_and!; [done|done|done|done|done|]. intros k v. rewrite H5, lookup_insert_Some. split.
  - intros [[[<- <-]|[_ ?]]|(x & Hxl & Hk)]; [right; exists (a, name, value); split; [by left|done]|by left|right; exists x; split; [by right|done]].
  - intros [Hk|(x & [->|Hxl]%elem_of_cons & Hk & Hv)]; [|left; left; done|right; eauto].
    left. right. split; [|done]. intros <-. congruence.
Qed.

(** C35: secrets are released under their capability.  After the secrets of a
    list have been loaded at boot (texts as names, each in a buffer of its own),
    a resolution, of a text of at most 256 bytes under a capability and with
    memory for the copy, returns a value exactly when the backend is configured,
    the capability is one for secrets whose pattern covers the name, and a secret
    of that very name was loaded; the value is one that was loaded under the
    name.  Otherwise nothing is returned and an error is recorded.  (The
    configuration has no list of environment secrets; of a longer reference
    only the first 256 bytes are looked up, [long_reference_truncated].) *)
Theorem secret_released_by_capability config l ref cap :
  sc_env_secrets config = None -> Forall (fun x => text x.1.2) l -> NoDup ((fun x => x.1.1) <$> l) ->
  text ref -> ref <> [] -> (length ref <= 256)%nat ->
  let granted := (sc_backend config = AK_SECRET_BACKEND_VIRTIO -> 0 <= sc_virtio_fd config) /\ sc_backend config <> OTHER_BACKEND /\
                 cap_type cap = AK_CAP_SECRETS /\ Glob (cstr (resource cap)) ref in
  exists s r s', boot (Some config) l = Some s /\ ak_secret_resolve true s (Some ref) (Some cap) = (r, s') /\
    ss_secrets s' = ss_secrets s /\ r <> BadSecret /\
    (forall v, r = Secret v -> granted /\ exists a, (a, ref, v) ∈ l) /\
    (r = NoSecret -> ~ (granted /\ exists a v, (a, ref, v) ∈ l) /\ is_Some (ak_secrets_last_error s')).
Proof.
  intros Hc Hx Hn Ht Hne Hl granted. unfold boot, ak_secrets_init. rewrite Hc. cbn [allocate_table allocate_table_internal negb Z.eqb andb copy_all fmap option_fmap option_map].
  edestruct (preload_all_spec l) as (s & m & E & Hi & Hb & Hfd & Hm & Hk); [| | |exact Hx|exact Hn| |].
  5:{ rewrite E. exists s. pose proof (resolve_spec s ref cap Hi) as Hr. destruct (ak_secret_resolve _ _ _ _) as [r s']. exists r, s'. split; [done|]. split; [done|].
      assert (Hld : forall name v, loaded s name v <-> exists a, (a, name, v) ∈ l).
      { intros name v. unfold loaded. setoid_rewrite <-(tk_map _ _ _ Hm). split.
        - intros [a Ha]. apply Hk in Ha as [?|([[a' name'] v'] & Hin & [= -> En] & ->)]; [by rewrite lookup_empty in *|]. cbn in *. apply app_inj_tail in En as [-> _]. eauto.
        - intros [a Ha]. exists a. apply Hk. right. by exists (a, name, v). }
      destruct Hr as (H1 & H2 & H3 & H4); [|done|done|done|].
      { intros k v Hin. apply (tk_map _ _ _ Hm), Hk in Hin as [?|(x & Hin & -> & _)]; [by rewrite lookup_empty in *|]. exists x.1.2. split; [|done].
        rewrite Forall_forall in Hx. by apply Hx. }
      assert (Hcf : configured s <-> (sc_backend config = AK_SECRET_BACKEND_VIRTIO -> 0 <= sc_virtio_fd config) /\ sc_backend config <> OTHER_BACKEND).
      { unfold configured. rewrite Hb, Hfd. cbn. destruct (sc_backend config); naive_solver. }
      split_and!; [done|done| |].
      - intros v Hv. destruct (H3 v Hv) as (G1 & G2 & G3 & G4). apply Hcf in G1. apply Hld in G4. unfold granted. tauto.
      - intros Hv. destruct (H4 Hv) as [G1 G2]. split; [|done]. intros [(G & G' & Gc & Gg) (a & v & Ha)]. apply G1. split_and!; [by apply Hcf|done|done|].
        exists v. apply Hld. eauto. }
  - done.
  - apply new_table_ok.
  - apply (new_table_ok key_from_pointer).
  - intros x _. apply lookup_empty.
Qed.

Definition secrets_example : list boot_secret := [(4096, B"API_KEY", B"k1"); (4160, B"DB_PASS", B"p")].
Definition api_cap : ak_capability := mk_cap AK_CAP_SECRETS (B"API_*" ++ [0]) 5 [] 0 0 0 0 0 [] [] 0 [].
Definition env_config : ak_secrets_config := mk_sconfig AK_SECRET_BACKEND_ENV None (-1) None.

Lemma secret_released_by_capability_witness :
  exists s r s', boot (Some env_config) secrets_example = Some s /\ ak_secret_resolve true s (Some B"API_KEY") (Some api_cap) = (r, s') /\ r <> BadSecret.
Proof.
  destruct (secret_released_by_capability env_config secrets_example B"API_KEY" api_cap) as (s & r & s' & H1 & H2 & _ & H3 & _).
  - reflexivity.
  - repeat constructor; apply (bool_decide_unpack _); vm_compute; constructor.
  - apply (bool_decide_unpack _). vm_compute. constructor.
  - apply (bool_decide_unpack _). vm_compute. constructor.
  - discriminate.
  - cbn. lia.
  - exists s, r, s'. repeat split; assumption.
Defined.

Example api_key_released :
  (fun s => fst (ak_secret_resolve true s (Some B"API_KEY") (Some api_cap))) <$> boot (Some env_config) secrets_example = Some (Secret B"k1") /\
  (fun s => fst (ak_secret_resolve true s (Some B"DB_PASS") (Some api_cap))) <$> boot (Some env_config) secrets_example = Some NoSecret.
Proof. vm_compute. repeat split. Qed.

(** A secret that is loaded again under its name does not replace the first:
    the table compares the addresses of the names.  Which value is found
    depends on the addresses. *)
Example reloaded_secret_keeps_old_value :
  (fun s => fst (ak_secret_resolve true s (Some B"API_KEY") None)) <$> boot None [(4096, B"API_KEY", B"old"); (4097, B"API_KEY", B"new")] = Some (Secret B"old") /\
  (fun s => fst (ak_secret_resolve true s (Some B"API_KEY") None)) <$> boot None [(4097, B"API_KEY", B"old"); (4096, B"API_KEY", B"new")] = Some (Secret B"new").
Proof. vm_compute. repeat split. Qed.

(** A name of more than 256 bytes is authorised as its prefix of 256 bytes: a
    capability that covers the prefix but not the name releases the secret. *)
Definition long_name : bytes := replicate 256 65 ++ [66].
Definition prefix_cap : ak_capability := mk_cap AK_CAP_SECRETS (B"A*A" ++ [0]) 3 [] 0 0 0 0 0 [] [] 0 [].
Example long_reference_truncated :
  (fun s => fst (ak_secret_resolve true s (Some long_name) (Some prefix_cap))) <$> boot None [(4096, long_name, B"v")] = Some (Secret B"v") /\
  ak_pattern_match (resource prefix_cap) long_name = false.
Proof. vm_compute. repeat split. Qed.

(** The copy for the caller that cannot be allocated is [INVALID_ADDRESS], not
    NULL, and no error is recorded. *)
Example failed_copy_is_invalid :
  (fun s => let '(r, s') := ak_secret_resolve false s (Some B"API_KEY") None in (r, ak_secrets_last_error s')) <$> boot None secrets_example = Some (BadSecret, None).
Proof. by vm_compute. Qed.
