(* ===== verification/Field25519.v ===== *)
(** * Field arithmetic of Ed25519 ([src/src/agentic/ak_ed25519.c])

    Elements of the field of [2^255 - 19] elements as sixteen signed 64-bit
    limbs of 16 bits, as in TweetNaCl: addition, multiplication with carries,
    inversion and the square-root power, packing to the canonical 32 bytes.
    Arrays are lists, loops are folds over their indices, and every assignment
    wraps to 64 bits.  The one-letter names of the source are spelled out.

    The specification is arithmetic modulo the prime.  A value of limbs is
    represented ([rep]) when its limbs are small and its value is congruent;
    the theorems show that the operations compute on represented values without
    overflow and that [pack25519] gives the canonical encoding. *)

From stdpp Require Import list.
From S2P Require Import Prelude.
#[local] Open Scope Z_scope.

Abbreviation gf := (list Z) (only parsing).

Definition gf0 : gf := replicate 16 0.
Definition gf1 : gf := 1 :: replicate 15 0.

(** ** Operations *)

Definition set25519 (a : gf) : gf := a.

(** The limb that takes the carry of limb [i]: the next, or the first. *)
Definition next_limb (i : nat) : nat := if (i <? 15)%nat then S i else 0%nat.

Definition car_step (o : gf) (i : nat) : gf :=
  let o := <[i := s64 (o !!! i + 65536)]> o in
  let c := Z.shiftr (o !!! i) 16 in
  let j := next_limb i in
  let o := <[j := s64 (o !!! j + (c - 1 + 37 * (c - 1) * (if (i =? 15)%nat then 1 else 0)))]> o in
  <[i := s64 (o !!! i - Z.shiftl c 16)]> o.
Definition car25519 (o : gf) : gf := foldl car_step o (seq 0 16).

Definition sel25519 (p q : gf) (b : Z) : gf * gf :=
  let c := Z.lnot (b - 1) in
  let t := zip_with (fun x y => Z.land c (Z.lxor x y)) p q in
  (zip_with Z.lxor p t, zip_with Z.lxor q t).

(** One step of the subtraction of the prime: the borrow of the limb below. *)
Definition sub_step (t : gf) (m : gf) (i : nat) : gf :=
  let m := <[i := s64 (t !!! i - 65535 - Z.land (Z.shiftr (m !!! (i - 1)%nat) 16) 1)]> m in
  <[(i - 1)%nat := Z.land (m !!! (i - 1)%nat) 65535]> m.
(** Subtract the prime unless that goes below zero. *)
Definition sub_prime (t : gf) : gf :=
  let m := <[0%nat := s64 (t !!! 0%nat - 65517)]> gf0 in
  let m := foldl (sub_step t) m (seq 1 14) in
  let m := <[15%nat := s64 (t !!! 15%nat - 32767 - Z.land (Z.shiftr (m !!! 14%nat) 16) 1)]> m in
  let b := Z.land (Z.shiftr (m !!! 15%nat) 16) 1 in
  let m := <[14%nat := Z.land (m !!! 14%nat) 65535]> m in
  fst (sel25519 t m (1 - b)).

Definition limb_bytes (t : Z) : bytes := [Z.land t 255; u8 (Z.shiftr t 8)].
Definition pack25519 (n : gf) : bytes :=
  let t := car25519 (car25519 (car25519 (set25519 n))) in
  let t := sub_prime (sub_prime t) in
  concat (limb_bytes <$> t).

(** [vn (x, y, n)]: 0 for equal arrays, -1 otherwise. *)
Definition vn (x y : bytes) : Z :=
  let d := foldl Z.lor 0 (zip_with Z.lxor x y) in
  s32 (Z.land 1 (Z.shiftr (u32 (d - 1)) 8) - 1).

Definition neq25519 (a b : gf) : Z := vn (pack25519 a) (pack25519 b).
Definition par25519 (a : gf) : Z := Z.land (pack25519 a !!! 0%nat) 1.

Definition unpack25519 (n : bytes) : gf :=
  let o := (fun i => s64 (n !!! (2 * i)%nat + Z.shiftl (n !!! (2 * i + 1)%nat) 8)) <$> seq 0 16 in
  <[15%nat := Z.land (o !!! 15%nat) 32767]> o.

(** The functions [A], [Z], [M] and [S]. *)
Definition gf_add (a b : gf) : gf := zip_with (fun x y => s64 (x + y)) a b.
Definition gf_sub (a b : gf) : gf := zip_with (fun x y => s64 (x - y)) a b.

Definition mul_step (a b : gf) (i : nat) (t : list Z) (j : nat) : list Z :=
  <[(i + j)%nat := s64 (t !!! (i + j)%nat + a !!! i * b !!! j)]> t.
Definition fold_step (t : list Z) (i : nat) : list Z := <[i := s64 (t !!! i + 38 * t !!! (i + 16)%nat)]> t.
Definition gf_mul (a b : gf) : gf :=
  let t := foldl (fun t i => foldl (mul_step a b i) t (seq 0 16)) (replicate 31 0) (seq 0 16) in
  let t := foldl fold_step t (seq 0 15) in
  car25519 (car25519 (take 16 t)).
Definition gf_sq (a : gf) : gf := gf_mul a a.

Definition inv25519 (i : gf) : gf :=
  foldl (fun c a => let c := gf_sq c in if negb (a =? 2)%nat && negb (a =? 4)%nat then gf_mul c i else c) (set25519 i) (reverse (seq 0 254)).
Definition pow2523 (i : gf) : gf :=
  foldl (fun c a => let c := gf_sq c in if negb (a =? 1)%nat then gf_mul c i else c) (set25519 i) (reverse (seq 0 251)).

(** ** Specification *)

Definition gf_p : Z := 2 ^ 255 - 19.

(** Congruence modulo the prime. *)
Record eqp (x y : Z) : Prop := mk_eqp { eqp_eq : x mod gf_p = y mod gf_p }.
Infix "≡p" := eqp (at level 70).

#[global] Instance eqp_equiv : Equivalence eqp.
Proof. split; [done|by intros x y []|]. intros x y z [Hx] [Hy]. split. congruence. Qed.
#[global] Instance eqp_add : Proper (eqp ==> eqp ==> eqp) Z.add.
Proof. intros x x' [Hx] y y' [Hy]. split. rewrite (Zplus_mod x y), (Zplus_mod x' y'). congruence. Qed.
#[global] Instance eqp_sub : Proper (eqp ==> eqp ==> eqp) Z.sub.
Proof. intros x x' [Hx] y y' [Hy]. split. rewrite (Zminus_mod x y), (Zminus_mod x' y'). congruence. Qed.
#[global] Instance eqp_mul : Proper (eqp ==> eqp ==> eqp) Z.mul.
Proof. intros x x' [Hx] y y' [Hy]. split. rewrite (Zmult_mod x y), (Zmult_mod x' y'). congruence. Qed.
#[global] Instance eqp_opp : Proper (eqp ==> eqp) Z.opp.
Proof. intros x x' Hx. rewrite <-!Z.sub_0_l. by rewrite Hx. Qed.

Lemma eqp_modulo x : x mod gf_p ≡p x.
Proof. split. apply Zmod_mod. Qed.
Lemma eqp_pow x y n : 0 <= n -> x ≡p y -> x ^ n ≡p y ^ n.
Proof.
  intros Hn Hxy. revert n Hn. apply natlike_ind; [done|]. intros n Hn IH. rewrite !Z.pow_succ_r by done. by apply eqp_mul.
Qed.
Lemma eqp_multiple x y k : x = y + k * gf_p -> x ≡p y.
Proof. intros ->. split. apply Z_mod_plus_full. Qed.

(** The value of an array of limbs. *)
Fixpoint fval (l : list Z) : Z := match l with [] => 0 | x :: l => x + 65536 * fval l end.

Definition within (b : Z) (o : gf) : Prop := length o = 16%nat /\ Forall (fun x => - b <= x <= b) o.
(** Limbs within a bound, with a value congruent to [x]. *)
Record repb (b : Z) (o : gf) (x : Z) : Prop := mk_repb { rep_within : within b o; rep_val : fval o ≡p x }.
(** What multiplication returns. *)
Abbreviation tight := (within 65574).
Abbreviation rep := (repb 65574).

(** ** Limbs *)

Lemma s64_id z : - 2 ^ 63 <= z < 2 ^ 63 -> s64 z = z.
Proof.
  intros Hz. unfold s64. destruct (Z.le_gt_cases 0 z).
  - rewrite Z.mod_small by lia. case (Z.ltb_spec _ _); lia.
  - replace (z mod M64) with (z + M64) by (apply (Zmod_unique _ _ (-1)); lia). case (Z.ltb_spec _ _); lia.
Qed.

Lemma within_weaken b b' o : b <= b' -> within b o -> within b' o.
Proof. intros Hb [Hl Ho]. split; [done|]. eapply Forall_impl; [exact Ho|]. cbn. lia. Qed.

Lemma within_lookup b o i : within b o -> (i < 16)%nat -> - b <= o !!! i <= b.
Proof. intros [Hl Ho] Hi. rewrite Forall_lookup in Ho. apply (Ho i). apply list_lookup_lookup_total_lt. lia. Qed.

Lemma fval_app l l' : fval (l ++ l') = fval l + 2 ^ (16 * Z.of_nat (length l)) * fval l'.
Proof.
  induction l as [|x l IH]; cbn [app fval length]; [rewrite Z.mul_0_r, Z.pow_0_r; lia|].
  rewrite IH, Nat2Z.inj_succ. replace (16 * Z.succ (Z.of_nat (length l))) with (16 + 16 * Z.of_nat (length l)) by lia.
  rewrite Z.pow_add_r by lia. lia.
Qed.

Lemma fval_insert l i x : (i < length l)%nat -> fval (<[i := x]> l) = fval l + (x - l !!! i) * 2 ^ (16 * Z.of_nat i).
Proof.
  revert i. induction l as [|y l IH]; intros [|i] Hi; cbn [length] in Hi; try lia.
  - cbn. lia.
  - change (<[S i := x]> (y :: l)) with (y :: <[i := x]> l). cbn [fval]. rewrite IH by lia. rewrite lookup_total_cons_ne_0 by lia. cbn [pred].
    replace (16 * Z.of_nat (S i)) with (16 + 16 * Z.of_nat i) by lia. rewrite Z.pow_add_r by lia. lia.
Qed.

Lemma fval_replicate n : fval (replicate n 0) = 0.
Proof. induction n as [|n IH]; [done|]. cbn [replicate fval]. lia. Qed.

Lemma fval_digits l : Forall (fun x => 0 <= x < 65536) l -> 0 <= fval l < 2 ^ (16 * Z.of_nat (length l)).
Proof.
  induction 1 as [|x l Hx Hl IH]; [done|]. cbn [fval length]. replace (16 * Z.of_nat (S (length l))) with (16 + 16 * Z.of_nat (length l)) by lia.
  rewrite Z.pow_add_r by lia. change (2 ^ 16) with 65536. lia.
Qed.

Lemma fval_bound b l : Forall (fun x => - b <= x <= b) l -> 65535 * Z.abs (fval l) <= b * (2 ^ (16 * Z.of_nat (length l)) - 1).
Proof.
  induction 1 as [|x l Hx Hl IH]; [cbn; lia|]. cbn [fval length]. replace (16 * Z.of_nat (S (length l))) with (16 + 16 * Z.of_nat (length l)) by lia.
  rewrite Z.pow_add_r by lia. change (2 ^ 16) with 65536. lia.
Qed.

(** ** Carries *)

(** Propagation of a carry [d] from the first limb on: digits and final carry. *)
Fixpoint carry (d : Z) (l : list Z) : list Z * Z :=
  match l with
  | [] => ([], d)
  | x :: l => let '(ys, e) := carry ((x + d) / 65536) l in ((x + d) mod 65536 :: ys, e)
  end.

Lemma carry_val l : forall d, fval (carry d l).1 + (carry d l).2 * 2 ^ (16 * Z.of_nat (length l)) = fval l + d.
Proof.
  induction l as [|x l IH]; intros d; [cbn; lia|]. cbn [carry fval length]. specialize (IH ((x + d) / 65536)). destruct (carry _ l) as [ys e]. cbn [fst snd fval] in *.
  replace (16 * Z.of_nat (S (length l))) with (16 + 16 * Z.of_nat (length l)) by lia. rewrite Z.pow_add_r by lia. change (2 ^ 16) with 65536.
  pose proof (Z.div_mod (x + d) 65536). lia.
Qed.

Lemma carry_digits l : forall d, length (carry d l).1 = length l /\ Forall (fun x => 0 <= x < 65536) (carry d l).1.
Proof.
  induction l as [|x l IH]; intros d; [done|]. cbn [carry]. specialize (IH ((x + d) / 65536)). destruct (carry _ l) as [ys e]. cbn [fst length] in *. destruct IH as [-> IH].
  split; [done|]. constructor; [|done]. apply Z.mod_pos_bound. lia.
Qed.

(** The digits are those of the value, and the final carry the rest. *)
Lemma carry_div l : let n := 2 ^ (16 * Z.of_nat (length l)) in fval (carry 0 l).1 = fval l mod n /\ (carry 0 l).2 = fval l / n.
Proof.
  intros n. pose proof (carry_val l 0) as Hv. destruct (carry_digits l 0) as [Hl Hd]. apply fval_digits in Hd. rewrite Hl in Hd. fold n in Hd, Hv.
  split; [apply (Zmod_unique _ _ (carry 0 l).2)|apply (Zdiv_unique _ _ _ (fval (carry 0 l).1))]; lia.
Qed.

Lemma car_step_spec (i : nat) pre x y post : length pre = i -> (i < 15)%nat -> length (pre ++ x :: y :: post) = 16%nat ->
  - 2 ^ 62 <= x <= 2 ^ 62 -> - 2 ^ 62 <= y <= 2 ^ 62 ->
  car_step (pre ++ x :: y :: post) i = pre ++ x mod 65536 :: (y + x / 65536) :: post.
Proof.
  intros Hp Hi Hl Hx Hy. unfold car_step, next_limb. replace (i <? 15)%nat with true by (symmetry; apply Nat.ltb_lt; lia).
  replace (i =? 15)%nat with false by (symmetry; apply Nat.eqb_neq; lia).
  assert (E0 : forall u v, (pre ++ u :: v :: post) !!! i = u) by (intros; rewrite lookup_total_app_r by lia; by replace (i - length pre)%nat with 0%nat by lia).
  assert (E1 : forall u v, (pre ++ u :: v :: post) !!! S i = v) by (intros; rewrite lookup_total_app_r by lia; by replace (S i - length pre)%nat with 1%nat by lia).
  assert (I0 : forall u u' v, <[i := u']> (pre ++ u :: v :: post) = pre ++ u' :: v :: post) by (intros; rewrite insert_app_r_alt by lia; by replace (i - length pre)%nat with 0%nat by lia).
  assert (I1 : forall u v v', <[S i := v']> (pre ++ u :: v :: post) = pre ++ u :: v' :: post) by (intros; rewrite insert_app_r_alt by lia; by replace (S i - length pre)%nat with 1%nat by lia).
  rewrite E0, I0, E0, E1, I1, E0, I0. rewrite (s64_id (x + 65536)) by lia. rewrite Z.shiftr_div_pow2, Z.shiftl_mul_pow2 by lia. change (2 ^ 16) with 65536.
  replace ((x + 65536) / 65536) with (x / 65536 + 1) by (symmetry; apply (Z.div_add x 1 65536); lia).
  pose proof (Z.div_mod x 65536). pose proof (Z.mod_pos_bound x 65536). rewrite !s64_id by lia. do 2 f_equal; [lia|]. f_equal. lia.
Qed.

(** The loop up to the last limb. *)
Fixpoint spread (x : Z) (post : list Z) : list Z :=
  match post with [] => [x] | y :: post => x mod 65536 :: spread (y + x / 65536) post end.

Lemma spread_carry post : forall x, exists ys z, spread x post = ys ++ [z] /\ length ys = length post /\ carry 0 (x :: post) = (ys ++ [z mod 65536], z / 65536).
Proof.
  induction post as [|y post IH]; intros x; [exists [], x; cbn; by rewrite Z.add_0_r|]. destruct (IH (y + x / 65536)) as (ys & z & H1 & Hl & H2).
  exists (x mod 65536 :: ys), z. cbn [spread]. rewrite H1. split_and!; [done|cbn; lia|]. cbn [carry] in H2 |- *. rewrite Z.add_0_r in H2 |- *.
  destruct (carry _ post) as [zs e]. injection H2 as H3 ->. cbn [app]. by rewrite <-H3.
Qed.

Lemma div_small_bound x b : - b <= x <= b -> 0 <= b -> - (b / 65536 + 1) <= x / 65536 <= b / 65536.
Proof. intros Hx Hb. Z.div_mod_to_equations. lia. Qed.

Lemma car_loop post : forall pre x b, length (pre ++ x :: post) = 16%nat -> b <= 2 ^ 61 -> - (2 * b) <= x <= 2 * b -> 131072 <= b -> Forall (fun y => - b <= y <= b) post ->
  foldl car_step (pre ++ x :: post) (seq (length pre) (length post)) = pre ++ spread x post /\ (forall z, last (spread x post) = Some z -> - (2 * b) <= z <= 2 * b).
Proof.
  induction post as [|y post IH]; intros pre x b Hl Hb Hx Hm Hp.
  { split; [done|]. by intros z [= <-]. }
  apply Forall_cons in Hp as [Hy Hp]. cbn [length seq foldl]. rewrite length_app in Hl. cbn [length] in Hl.
  rewrite car_step_spec; [|done|lia|rewrite length_app; cbn; lia|lia|lia].
  pose proof (div_small_bound x (2 * b) Hx ltac:(lia)) as Hd. assert (2 * b / 65536 + 1 <= b) by (Z.div_mod_to_equations; lia).
  destruct (IH (pre ++ [x mod 65536]) (y + x / 65536) b) as [IH1 IH2]; [rewrite !length_app; cbn; lia|lia|lia|lia|done|].
  rewrite length_app in IH1. cbn [length] in IH1. rewrite Nat.add_1_r, <-!app_assoc in IH1. cbn [app] in IH1. split; [exact IH1|].
  intros z Hz. apply IH2. cbn [spread] in Hz. destruct post; cbn [spread] in *; done.
Qed.

(** One pass: the digits of the value, and 38 times the rest on the first. *)
Lemma car25519_carry o : within (2 ^ 61) o -> car25519 o = <[0%nat := (carry 0 o).1 !!! 0%nat + 38 * (carry 0 o).2]> (carry 0 o).1.
Proof.
  intros [Hl Ho]. destruct o as [|x post]; [done|]. apply Forall_cons in Ho as [Hx Ho]. cbn [length] in Hl. injection Hl as Hl.
  unfold car25519. change (seq 0 16) with (seq 0 15 ++ [15%nat]). rewrite foldl_app.
  destruct (car_loop post [] x (2 ^ 61)) as [E Hz]; [cbn; lia|lia|lia|lia|done|]. cbn [app length] in E. rewrite Hl in E. rewrite E.
  destruct (spread_carry post x) as (ys & z & Es & Hly & Ec). rewrite Ec, Es. cbn [fst snd foldl].
  assert (Hzb : - (2 * 2 ^ 61) <= z <= 2 * 2 ^ 61) by (apply Hz; rewrite Es; apply last_snoc).
  assert (Hlen : length ys = 15%nat) by lia. destruct ys as [|y ys]; [done|].
  assert (Hy : 0 <= y < 65536).
  { pose proof (carry_digits (x :: post) 0) as [_ Hd]. rewrite Ec in Hd. cbn [fst app] in Hd. by apply Forall_cons in Hd as [? _]. }
  assert (E0 : forall v, ((y :: ys) ++ [v]) !!! 15%nat = v) by (intros; rewrite lookup_total_app_r by lia; by replace (15 - length (y :: ys))%nat with 0%nat by lia).
  assert (I0 : forall a v v', <[15%nat := v']> ((a :: ys) ++ [v]) = (a :: ys) ++ [v'] :> list Z).
  { intros. rewrite insert_app_r_alt by (cbn [length] in Hlen |- *; lia). by replace (15 - length (a :: ys))%nat with 0%nat by (cbn [length] in Hlen |- *; lia). }
  assert (J0 : forall (a v : Z) l, <[0%nat := v]> (a :: l) = v :: l) by done.
  assert (H0 : forall (a : Z) l, (a :: l) !!! 0%nat = a) by done.
  assert (I1 : forall a v v', <[15%nat := v']> (a :: ys ++ [v]) = (a :: ys) ++ [v'] :> list Z) by (intros; apply I0).
  unfold car_step, next_limb. cbn [Nat.ltb Nat.leb Nat.eqb]. rewrite E0, I0, E0.
  rewrite (s64_id (z + 65536)) by lia. rewrite Z.shiftr_div_pow2, Z.shiftl_mul_pow2 by lia. change (2 ^ 16) with 65536.
  replace ((z + 65536) / 65536) with (z / 65536 + 1) by (symmetry; apply (Z.div_add z 1 65536); lia).
  pose proof (div_small_bound z (2 * 2 ^ 61) Hzb ltac:(lia)) as Hd. change (2 * 2 ^ 61 / 65536) with (2 ^ 46) in Hd.
  cbn [app]. rewrite J0, H0.
  rewrite (s64_id (y + _)) by lia.
  assert (E1 : forall a v, (a :: ys ++ [v]) !!! 15%nat = v).
  { intros. change (a :: ys ++ [v]) with ((a :: ys) ++ [v]). rewrite lookup_total_app_r by (cbn [length] in Hlen |- *; lia). by replace (15 - length (a :: ys))%nat with 0%nat by (cbn [length] in Hlen |- *; lia). }
  rewrite E1, I1. pose proof (Z.div_mod z 65536). pose proof (Z.mod_pos_bound z 65536). rewrite s64_id by lia.
  cbn [app]. rewrite J0, H0. f_equal; [lia|]. do 2 f_equal. lia.
Qed.

Lemma two256 : 2 ^ 256 = 38 + 2 * gf_p.
Proof. unfold gf_p. lia. Qed.

(** A pass keeps the value modulo the prime. *)
Lemma car_val o : within (2 ^ 61) o -> fval (car25519 o) = fval o - 2 * (fval o / 2 ^ 256) * gf_p.
Proof.
  intros Ho. rewrite (car25519_carry o Ho). destruct Ho as [Hl _]. destruct (carry_digits o 0) as [Hc _]. rewrite fval_insert by lia.
  destruct (carry_div o) as [E1 E2]. rewrite Hl in E1, E2. change (16 * Z.of_nat 16) with 256 in *. rewrite E1, E2. change (2 ^ (16 * Z.of_nat 0)) with 1.
  pose proof (Z.div_mod (fval o) (2 ^ 256)). pose proof two256. lia.
Qed.
Lemma car_eqp o : within (2 ^ 61) o -> fval (car25519 o) ≡p fval o.
Proof. intros Ho. apply (eqp_multiple _ _ (- 2 * (fval o / 2 ^ 256))). rewrite car_val by done. lia. Qed.

(** The limbs after a pass: the first is off by 38 times the overflow. *)
Lemma car_limbs o : within (2 ^ 61) o ->
  exists y ys, car25519 o = y + 38 * (fval o / 2 ^ 256) :: ys /\ Forall (fun x => 0 <= x < 65536) (y :: ys) /\ length ys = 15%nat /\ y + 65536 * fval ys = fval o mod 2 ^ 256.
Proof.
  intros Ho. rewrite (car25519_carry o Ho). destruct Ho as [Hl _]. destruct (carry_digits o 0) as [Hc Hd]. destruct (carry_div o) as [E1 E2]. rewrite Hl in E1, E2, Hc.
  change (16 * Z.of_nat 16) with 256 in *. rewrite E2. destruct (carry 0 o).1 as [|y ys]; [done|]. exists y, ys. split_and!; [done|done|cbn in Hc; lia|exact E1].
Qed.

Lemma overflow_bound b o : within b o -> 0 <= b -> Z.abs (fval o / 2 ^ 256) <= b / 65535 + 1.
Proof.
  intros [Hl Ho] Hb. pose proof (fval_bound b o Ho) as Hf. rewrite Hl in Hf. change (16 * Z.of_nat 16) with 256 in Hf.
  assert (Hq : 65535 * Z.abs (fval o / 2 ^ 256) <= b + 65535); [|Z.div_mod_to_equations; lia].
  pose proof (Z.div_mod (fval o) (2 ^ 256)). pose proof (Z.mod_pos_bound (fval o) (2 ^ 256)). nia.
Qed.

Definition digit (x : Z) : Prop := 0 <= x < 65536.

Lemma digits_within l b : Forall digit l -> 65535 <= b -> Forall (fun x => - b <= x <= b) l.
Proof. intros Hl Hb. eapply Forall_impl; [exact Hl|]. unfold digit. cbn. lia. Qed.

(** After one pass over limbs of moderate size the value is at most 38 times the
    overflow away from 256 bits. *)
Lemma car_once b o : within b o -> 65536 <= b <= 2 ^ 61 ->
  within (65536 + 38 * (b / 65535 + 1)) (car25519 o) /\ - (38 * (b / 65535 + 1)) <= fval (car25519 o) < 2 ^ 256 + 38 * (b / 65535 + 1).
Proof.
  intros Ho Hb. pose proof (overflow_bound b o Ho ltac:(lia)) as Hq. assert (Ho' : within (2 ^ 61) o) by (by apply (within_weaken b); [lia|]).
  destruct (car_limbs o Ho') as (y & ys & E & Hd & Hl & Hv). rewrite E. apply Forall_cons in Hd as [Hy Hd]. split.
  - split; [cbn; lia|]. constructor; [lia|]. apply digits_within; [done|]. pose proof (Z.div_pos b 65535). lia.
  - cbn [fval]. pose proof (Z.mod_pos_bound (fval o) (2 ^ 256)). lia.
Qed.

Lemma floor_near V k : - k <= V < 2 ^ 256 + k -> 0 <= k <= 2 ^ 60 ->
  V / 2 ^ 256 = 0 \/ (V / 2 ^ 256 = 1 /\ V mod 2 ^ 256 < k) \/ (V / 2 ^ 256 = -1 /\ 2 ^ 256 - k <= V mod 2 ^ 256).
Proof. intros HV Hk. Z.div_mod_to_equations. assert (q = 0 \/ q = 1 \/ q = -1) as [-> | [-> | ->]] by lia; lia. Qed.

Lemma car_twice o : within (2 ^ 60) o ->
  tight (car25519 (car25519 o)) /\ fval (car25519 (car25519 o)) ≡p fval o /\ - 38 <= fval (car25519 (car25519 o)) < 2 ^ 256 + 38.
Proof.
  intros Ho. destruct (car_once _ o Ho ltac:(lia)) as [H1 V1]. set (k := 38 * (2 ^ 60 / 65535 + 1)) in *. assert (Hk : 65536 <= k <= 2 ^ 51) by (split; vm_compute; congruence).
  assert (H1' : within (2 ^ 61) (car25519 o)) by (apply (within_weaken (65536 + k)); [lia|done]).
  split; [|split].
  - destruct (car_limbs _ H1') as (y & ys & E & Hd & Hl & _). rewrite E. apply Forall_cons in Hd as [Hy Hd].
    split; [cbn; lia|]. constructor; [|apply digits_within; [done|lia]]. destruct (floor_near _ k V1 ltac:(lia)) as [->|[[-> _]|[-> _]]]; lia.
  - rewrite car_eqp by done. apply car_eqp. by apply (within_weaken (2 ^ 60)); [lia|].
  - rewrite car_val by done. pose proof two256. pose proof (Z.div_mod (fval (car25519 o)) (2 ^ 256)). pose proof (Z.mod_pos_bound (fval (car25519 o)) (2 ^ 256)).
    destruct (floor_near _ k V1 ltac:(lia)) as [E|[[E _]|[E _]]]; rewrite E in *; lia.
Qed.

(** Three passes give digits. *)
Lemma car_thrice o : within (2 ^ 60) o ->
  let t := car25519 (car25519 (car25519 o)) in length t = 16%nat /\ Forall digit t /\ fval t ≡p fval o.
Proof.
  intros Ho. destruct (car_twice o Ho) as (H2 & V2 & R2). set (o2 := car25519 (car25519 o)) in *. intros t.
  assert (H2' : within (2 ^ 61) o2) by (by apply (within_weaken 65574); [lia|]).
  destruct (car_limbs o2 H2') as (y & ys & E & Hd & Hl & Hm). apply Forall_cons in Hd as [Hy Hd]. unfold t. split_and!; [rewrite E; cbn; lia| |].
  - rewrite E. constructor; [|done]. unfold digit. pose proof (fval_digits ys Hd) as Hf. rewrite Hl in Hf. change (2 ^ (16 * Z.of_nat 15)) with (2 ^ 240) in Hf.
    destruct (floor_near _ 38 R2 ltac:(lia)) as [->|[[-> Hs]|[-> Hs]]]; lia.
  - rewrite car_eqp by done. exact V2.
Qed.

(** ** Multiplication *)

Lemma lookup_total_insert_cases (l : list Z) i j x : (i < length l)%nat -> <[i := x]> l !!! j = if decide (i = j) then x else l !!! j.
Proof. intros Hi. case_decide as E; [subst; by rewrite list_lookup_total_insert_eq|by rewrite list_lookup_total_insert_ne]. Qed.

(** A partial value: the limbs of [b] below [j]. *)
Lemma fval_take b j : (j < length b)%nat -> fval (take (S j) b) = fval (take j b) + b !!! j * 2 ^ (16 * Z.of_nat j).
Proof.
  intros Hj. destruct (lookup_lt_is_Some_2 b j Hj) as [x Hx]. rewrite (take_S_r _ _ _ Hx), fval_app, length_take, (list_lookup_total_correct _ _ _ Hx). cbn [fval].
  rewrite Nat.min_l by lia. lia.
Qed.

Definition row_bound (i : nat) (c : Z) (k : nat) (t : list Z) : Prop :=
  forall x, (x < 31)%nat -> Z.abs (t !!! x) <= Z.of_nat i * c + (if decide (i <= x < i + k)%nat then c else 0).

Section Multiplication.
Context (a b : gf) (ba bb : Z) (Ha : within ba a) (Hb : within bb b) (Hba : 0 <= ba) (Hbb : 0 <= bb) (Hprod : ba * bb <= 2 ^ 50).

Lemma limb_product i j : (i < 16)%nat -> (j < 16)%nat -> Z.abs (a !!! i * b !!! j) <= ba * bb.
Proof. intros Hi Hj. pose proof (within_lookup _ _ i Ha Hi). pose proof (within_lookup _ _ j Hb Hj). rewrite Z.abs_mul. apply Z.mul_le_mono_nonneg; lia. Qed.

Lemma row_loop i t : (i < 16)%nat -> length t = 31%nat -> row_bound i (ba * bb) 0 t ->
  forall k, (k <= 16)%nat -> let t' := foldl (mul_step a b i) t (seq 0 k) in
    length t' = 31%nat /\ row_bound i (ba * bb) k t' /\ fval t' = fval t + a !!! i * 2 ^ (16 * Z.of_nat i) * fval (take k b).
Proof.
  intros Hi Hl Hrow. induction k as [|k IH]; intros Hk; cbn zeta; [cbn [seq foldl]; split_and!; [done|done|change (fval (take 0 b)) with 0; lia]|]. rewrite (seq_S k), foldl_app. cbn [foldl].
  destruct IH as (Hl' & Hr & Hv); [lia|]. cbn [Nat.add]. set (t' := foldl _ t (seq 0 k)) in *. unfold mul_step.
  pose proof (limb_product i k Hi ltac:(lia)) as Hp. pose proof (Hr (i + k)%nat ltac:(lia)) as Hx. rewrite decide_False in Hx by lia.
  assert (Hs : s64 (t' !!! (i + k)%nat + a !!! i * b !!! k) = t' !!! (i + k)%nat + a !!! i * b !!! k) by (apply s64_id; nia).
  rewrite Hs. split_and!; [by rewrite length_insert| |].
  - intros x Hx31. rewrite lookup_total_insert_cases by lia. destruct (decide (i + k = x)%nat) as [<-|Hne].
    + rewrite decide_True by lia. lia.
    + specialize (Hr x Hx31). destruct (decide (i <= x < i + k)%nat); [rewrite decide_True by lia|rewrite decide_False by lia]; lia.
  - rewrite fval_insert by lia. rewrite Hv, (fval_take b k) by (destruct Hb; lia). replace (16 * Z.of_nat (i + k)) with (16 * Z.of_nat i + 16 * Z.of_nat k) by lia.
    rewrite Z.pow_add_r by lia. lia.
Qed.

Lemma rows_loop k : (k <= 16)%nat -> let t := foldl (fun t i => foldl (mul_step a b i) t (seq 0 16)) (replicate 31 0) (seq 0 k) in
  length t = 31%nat /\ row_bound k (ba * bb) 0 t /\ fval t = fval (take k a) * fval b.
Proof.
  induction k as [|k IH]; intros Hk; cbn zeta.
  { split_and!; [done| |done]. intros x Hx. cbn [seq foldl]. rewrite lookup_total_replicate_2 by done. case_decide; lia. }
  rewrite (seq_S k), foldl_app. cbn [foldl Nat.add]. destruct IH as (Hl & Hr & Hv); [lia|]. set (t := foldl _ _ (seq 0 k)) in *.
  destruct (row_loop k t ltac:(lia) Hl Hr 16 ltac:(lia)) as (Hl' & Hr' & Hv'). split_and!; [done| |].
  - intros x Hx. specialize (Hr' x Hx). rewrite decide_False by lia. destruct (decide _); nia.
  - rewrite Hv', Hv, (fval_take a k) by (destruct Ha; lia). destruct Hb as [Hlb _]. rewrite (take_ge b) by lia. lia.
Qed.

Lemma fold_loop t : length t = 31%nat -> row_bound 16 (ba * bb) 0 t ->
  forall k, (k <= 15)%nat -> let t' := foldl fold_step t (seq 0 k) in
    length t' = 31%nat /\ (forall x, (x < 31)%nat -> t' !!! x = t !!! x + if decide (x < k)%nat then 38 * t !!! (x + 16)%nat else 0).
Proof.
  intros Hl Hr. induction k as [|k IH]; intros Hk; cbn zeta; [cbn; split; [done|]; intros x _; rewrite decide_False by lia; lia|].
  rewrite (seq_S k), foldl_app. cbn [foldl Nat.add]. destruct IH as (Hl' & Hx); [lia|]. set (t' := foldl _ t (seq 0 k)) in *. unfold fold_step. split; [by rewrite length_insert|].
  intros x Hx31. rewrite lookup_total_insert_cases by lia. destruct (decide (k = x)%nat) as [<-|Hne].
  - rewrite decide_True by lia. rewrite !Hx by lia. rewrite !decide_False by lia. rewrite !Z.add_0_r. apply s64_id.
    pose proof (Hr k ltac:(lia)) as R1. pose proof (Hr (k + 16)%nat ltac:(lia)) as R2. rewrite decide_False in R1 by lia. rewrite decide_False in R2 by lia. lia.
  - rewrite Hx by done. destruct (decide (x < k)%nat); [rewrite decide_True by lia|rewrite decide_False by lia]; done.
Qed.

(** Folding the upper limbs. *)
Lemma fval_linear c r : forall l m, length l = length r -> length m = length r -> (forall x, (x < length r)%nat -> r !!! x = l !!! x + c * m !!! x) -> fval r = fval l + c * fval m.
Proof.
  induction r as [|z r IH]; intros [|x l] [|y m] Hl Hm Hx; try done; [cbn; lia|]. cbn [fval length] in *.
  rewrite (IH l m); [|lia|lia|intros i Hi; apply (Hx (S i)); lia]. pose proof (Hx 0%nat ltac:(lia)) as E. cbn in E. lia.
Qed.

Lemma fold_value t t' : length t = 31%nat -> length t' = 31%nat ->
  (forall x, (x < 31)%nat -> t' !!! x = t !!! x + if decide (x < 15)%nat then 38 * t !!! (x + 16)%nat else 0) -> fval (take 16 t') ≡p fval t.
Proof.
  intros Hl Hl' Hx. rewrite (fval_linear 38 (take 16 t') (take 16 t) (drop 16 t ++ [0])).
  - rewrite <-(take_drop 16 t) at 3. rewrite !fval_app, length_take, Hl. change (2 ^ (16 * Z.of_nat (16 `min` 31))) with (2 ^ 256).
    apply (eqp_multiple _ _ (- 2 * fval (drop 16 t))). cbn [fval]. pose proof two256. lia.
  - rewrite !length_take. lia.
  - rewrite length_app, length_drop, length_take, Hl, Hl'. done.
  - intros x. rewrite length_take, Hl'. intros Hx16. rewrite !lookup_total_take_lt by lia. rewrite Hx by lia. f_equal. case_decide as Hc.
    + rewrite lookup_total_app_l by (rewrite length_drop; lia). rewrite lookup_total_drop. do 2 f_equal. lia.
    + rewrite lookup_total_app_r by (rewrite length_drop; lia). rewrite length_drop, Hl. by replace (x - (31 - 16))%nat with 0%nat by lia.
Qed.

Lemma gf_mul_spec : tight (gf_mul a b) /\ fval (gf_mul a b) ≡p fval a * fval b.
Proof.
  unfold gf_mul. destruct (rows_loop 16 ltac:(lia)) as (Hl & Hr & Hv). set (t := foldl _ (replicate 31 0) _) in *.
  destruct (fold_loop t Hl Hr 15 ltac:(lia)) as (Hl' & Hx). set (t' := foldl fold_step t _) in *.
  assert (Hw : within (2 ^ 60) (take 16 t')).
  { split; [rewrite length_take; lia|]. apply Forall_lookup. intros x v [Hv' Hx16]%lookup_take_Some.
    assert (Hx31 : (x < 31)%nat) by lia. apply list_lookup_total_correct in Hv' as <-. rewrite Hx by done.
    pose proof (Hr x Hx31) as R1. rewrite decide_False in R1 by lia. case_decide; [|lia]. pose proof (Hr (x + 16)%nat ltac:(lia)) as R2. rewrite decide_False in R2 by lia. lia. }
  destruct (car_twice _ Hw) as (H1 & H2 & _). split; [done|]. rewrite H2, (fold_value t t' Hl Hl' Hx), Hv. destruct Ha as [Hla _]. by rewrite take_ge by lia.
Qed.
End Multiplication.

(** ** Operations on represented values *)

Lemma within_zip f c a b ba bb : within ba a -> within bb b -> (forall x y, - ba <= x <= ba -> - bb <= y <= bb -> - c <= f x y <= c) -> within c (zip_with f a b).
Proof.
  intros [Hla Ha] [Hlb Hb] Hf. split; [rewrite length_zip_with; lia|]. apply Forall_lookup. intros i z (x & y & -> & Hx & Hy)%lookup_zip_with_Some.
  rewrite Forall_lookup in Ha, Hb. apply Hf; [by eapply Ha|by eapply Hb].
Qed.

Lemma fval_zip (g : Z -> Z -> Z) c a : forall b, length a = length b -> (forall i x y, a !! i = Some x -> b !! i = Some y -> g x y = x + c * y) -> fval (zip_with g a b) = fval a + c * fval b.
Proof.
  induction a as [|x a IH]; intros [|y b] Hl Hg; try done; [cbn; lia|]. cbn [zip_with fval]. rewrite (Hg 0%nat x y), (IH b) by (done || (cbn in Hl; lia) || (intros i; apply (Hg (S i)))). lia.
Qed.

Lemma gf_add_spec a b ba bb : within ba a -> within bb b -> ba <= 2 ^ 60 -> bb <= 2 ^ 60 -> within (ba + bb) (gf_add a b) /\ fval (gf_add a b) = fval a + fval b.
Proof.
  intros Ha Hb Hba Hbb. split.
  - eapply within_zip; [exact Ha|exact Hb|]. intros x y Hx Hy. rewrite s64_id; lia.
  - rewrite <-(Z.mul_1_l (fval b)). destruct Ha as [Hla Ha], Hb as [Hlb Hb]. apply fval_zip; [lia|]. intros i x y Hx Hy.
    rewrite Forall_lookup in Ha, Hb. specialize (Ha _ _ Hx). specialize (Hb _ _ Hy). cbn in Ha, Hb. rewrite s64_id; lia.
Qed.
Lemma gf_sub_spec a b ba bb : within ba a -> within bb b -> ba <= 2 ^ 60 -> bb <= 2 ^ 60 -> within (ba + bb) (gf_sub a b) /\ fval (gf_sub a b) = fval a - fval b.
Proof.
  intros Ha Hb Hba Hbb. split.
  - eapply within_zip; [exact Ha|exact Hb|]. intros x y Hx Hy. rewrite s64_id; lia.
  - replace (fval a - fval b) with (fval a + -1 * fval b) by lia. destruct Ha as [Hla Ha], Hb as [Hlb Hb]. apply fval_zip; [lia|]. intros i x y Hx Hy.
    rewrite Forall_lookup in Ha, Hb. specialize (Ha _ _ Hx). specialize (Hb _ _ Hy). cbn in Ha, Hb. rewrite s64_id; lia.
Qed.

Lemma repb_weaken b b' o x : b <= b' -> repb b o x -> repb b' o x.
Proof. intros Hb [Hw Hv]. split; [by apply (within_weaken b)|done]. Qed.
Lemma repb_eqp b o x y : repb b o x -> x ≡p y -> repb b o y.
Proof. intros [Hw Hv] Hxy. split; [done|]. by rewrite Hv. Qed.

Lemma repb_mul ba bb a b x y : repb ba a x -> repb bb b y -> 0 <= ba <= 2 ^ 25 -> 0 <= bb <= 2 ^ 25 -> rep (gf_mul a b) (x * y).
Proof.
  intros [Ha Hx] [Hb Hy] Hba Hbb. destruct (gf_mul_spec a b ba bb Ha Hb) as [H1 H2]; [lia|lia|nia|]. split; [done|]. by rewrite H2, Hx, Hy.
Qed.
Lemma repb_sq b a x : repb b a x -> 0 <= b <= 2 ^ 25 -> rep (gf_sq a) (x * x).
Proof. intros Ha Hb. unfold gf_sq. exact (repb_mul b b a a x x Ha Ha Hb Hb). Qed.
Lemma repb_add ba bb a b x y : repb ba a x -> repb bb b y -> ba <= 2 ^ 60 -> bb <= 2 ^ 60 -> repb (ba + bb) (gf_add a b) (x + y).
Proof. intros [Ha Hx] [Hb Hy] Hba Hbb. destruct (gf_add_spec a b ba bb Ha Hb Hba Hbb) as [H1 H2]. split; [done|]. by rewrite H2, Hx, Hy. Qed.
Lemma repb_sub ba bb a b x y : repb ba a x -> repb bb b y -> ba <= 2 ^ 60 -> bb <= 2 ^ 60 -> repb (ba + bb) (gf_sub a b) (x - y).
Proof. intros [Ha Hx] [Hb Hy] Hba Hbb. destruct (gf_sub_spec a b ba bb Ha Hb Hba Hbb) as [H1 H2]. split; [done|]. by rewrite H2, Hx, Hy. Qed.

Lemma repb_const l : length l = 16%nat -> Forall digit l -> rep l (fval l).
Proof. intros Hl Hd. split; [split; [done|apply digits_within; [done|lia]]|done]. Qed.
(** A list of constant limbs. *)
Ltac digits := repeat (apply Forall_cons_2; [unfold digit; lia|]); apply Forall_nil_2.

Lemma rep_gf0 : rep gf0 0.
Proof. apply (repb_const gf0); [done|digits]. Qed.
Lemma rep_gf1 : rep gf1 1.
Proof. apply (repb_const gf1); [done|digits]. Qed.

(** ** Powers *)

(** The exponent after the remaining steps: doubled, and one more where the code multiplies. *)
Definition exponent (skip : nat -> bool) (l : list nat) (e : Z) : Z := foldl (fun e a => 2 * e + if skip a then 0 else 1) e l.

Lemma power_loop (skip : nat -> bool) (i : gf) b x l : repb b i x -> 0 <= b <= 2 ^ 25 -> forall c e, repb b c (x ^ e) -> 65574 <= b -> 0 <= e ->
  repb b (foldl (fun c a => let c := gf_sq c in if skip a then c else gf_mul c i) c l) (x ^ exponent skip l e).
Proof.
  intros Hi Hb. induction l as [|a l IH]; intros c e Hc Hb' He; cbn [foldl exponent]; [done|].
  assert (Hs : rep (gf_sq c) (x ^ (2 * e))).
  { unfold gf_sq. apply (repb_eqp _ _ (x ^ e * x ^ e)); [apply (repb_mul b b); [exact Hc|exact Hc|lia|lia]|]. rewrite <-Z.pow_add_r by done. by replace (e + e) with (2 * e) by lia. }
  destruct (skip a); apply IH; try lia.
  - rewrite Z.add_0_r. by apply (repb_weaken 65574).
  - apply (repb_weaken 65574); [done|]. apply (repb_eqp _ _ (x ^ (2 * e) * x)); [apply (repb_mul 65574 b); [exact Hs|exact Hi|lia|lia]|]. rewrite <-(Z.pow_1_r x) at 2. by rewrite <-Z.pow_add_r by lia.
Qed.

Lemma foldl_ext_fun {T U : Type} (f g : T -> U -> T) (l : list U) : (forall a b, f a b = g a b) -> forall a, foldl f a l = foldl g a l.
Proof. intros Hfg. induction l as [|b l IH]; intros a; cbn; [done|]. by rewrite Hfg, IH. Qed.

Lemma power_rep (skip : nat -> bool) (i : gf) b x l n : repb b i x -> 0 <= b <= 2 ^ 25 -> 65574 <= b -> exponent skip l 1 = n ->
  repb b (foldl (fun c a => let c := gf_sq c in if skip a then c else gf_mul c i) i l) (x ^ n).
Proof. intros Hi Hb Hb' <-. apply power_loop; [done|done| |done|lia]. by rewrite Z.pow_1_r. Qed.

Lemma rep_inv25519 i x : rep i x -> rep (inv25519 i) (x ^ (gf_p - 2)).
Proof.
  intros Hi. unfold inv25519, set25519. rewrite (foldl_ext_fun _ (fun c a => let c := gf_sq c in if (a =? 2)%nat || (a =? 4)%nat then c else gf_mul c i)).
  - apply (power_rep (fun a => (a =? 2)%nat || (a =? 4)%nat)); [done|lia|lia|]. vm_compute. reflexivity.
  - intros c a. destruct (a =? 2)%nat, (a =? 4)%nat; cbn beta iota zeta delta [negb andb orb]; reflexivity.
Qed.
Lemma rep_pow2523 i x : rep i x -> rep (pow2523 i) (x ^ ((gf_p - 5) / 8)).
Proof.
  intros Hi. unfold pow2523, set25519. rewrite (foldl_ext_fun _ (fun c a => let c := gf_sq c in if (a =? 1)%nat then c else gf_mul c i)).
  - apply (power_rep (fun a => (a =? 1)%nat)); [done|lia|lia|]. vm_compute. reflexivity.
  - intros c a. destruct (a =? 1)%nat; cbn beta iota zeta delta [negb]; reflexivity.
Qed.

(** ** Packing *)

Definition prime_limbs : gf := 65517 :: replicate 14 65535 ++ [32767].
Lemma fval_prime_limbs : fval prime_limbs = gf_p.
Proof. by vm_compute. Qed.

Lemma borrow_bit m : - 65536 <= m <= 65535 -> Z.land (Z.shiftr m 16) 1 = if m <? 0 then 1 else 0.
Proof.
  intros Hm. rewrite Z.shiftr_div_pow2 by lia. change (2 ^ 16) with 65536. destruct (Z.ltb_spec m 0).
  - replace (m / 65536) with (-1) by (apply (Z.div_unique _ _ _ (m + 65536)); lia). done.
  - by rewrite Z.div_small by lia.
Qed.
Lemma low_limb m : - 65536 <= m <= 65535 -> Z.land m 65535 = m + 65536 * (if m <? 0 then 1 else 0).
Proof.
  intros Hm. change 65535 with (Z.ones 16). rewrite Z.land_ones by lia. change (2 ^ 16) with 65536. destruct (Z.ltb_spec m 0).
  - symmetry. apply (Z.mod_unique _ _ (-1)); lia.
  - rewrite Z.mod_small; lia.
Qed.

(** After [k] steps: digits below [k], the limb [k] with its sign, zeros above. *)
Definition sub_inv (t m : gf) (k : nat) : Prop :=
  length m = 16%nat /\ (forall x, (x < k)%nat -> digit (m !!! x)) /\ - 65536 <= m !!! k <= 65535 /\ (forall x, (k < x < 16)%nat -> m !!! x = 0) /\
  fval m = fval (take (S k) t) - fval (take (S k) prime_limbs).

Lemma sub_limb t m k c : length t = 16%nat -> Forall digit t -> sub_inv t m k -> (k < 15)%nat -> 0 <= c <= 65535 -> prime_limbs !!! S k = c ->
  let m1 := <[S k := s64 (t !!! S k - c - Z.land (Z.shiftr (m !!! k) 16) 1)]> m in
  sub_inv t (<[k := Z.land (m1 !!! k) 65535]> m1) (S k) /\ m1 !!! k = m !!! k.
Proof.
  intros Hlt Ht (Hl & Hd & Hk & Hz & Hv) Hk15 Hc Hp m1. pose proof (borrow_bit _ Hk) as Eb.
  assert (Htk : digit (t !!! S k)) by (rewrite Forall_lookup in Ht; apply (Ht (S k)); apply list_lookup_lookup_total_lt; lia). unfold digit in Htk.
  assert (E1 : m1 !!! k = m !!! k) by (unfold m1; rewrite lookup_total_insert_cases by lia; by rewrite decide_False by lia). split; [|done]. rewrite E1.
  pose proof (low_limb _ Hk) as El. set (bo := if m !!! k <? 0 then 1 else 0) in *. assert (Hbo : 0 <= bo <= 1) by (unfold bo; destruct (_ <? _); lia).
  assert (Em : m1 = <[S k := t !!! S k - c - bo]> m) by (unfold m1; rewrite Eb, s64_id by lia; reflexivity).
  assert (Hlow : digit (Z.land (m !!! k) 65535)) by (rewrite El; unfold digit, bo; destruct (Z.ltb_spec (m !!! k) 0); lia).
  assert (Hl1 : length m1 = 16%nat) by (unfold m1; by rewrite length_insert).
  assert (El1 : forall x, m1 !!! x = if decide (S k = x) then t !!! S k - c - bo else m !!! x) by (intros x; rewrite Em; apply lookup_total_insert_cases; lia).
  split; [by rewrite length_insert|]. split; [|split; [|split]].
  - intros x Hx. rewrite lookup_total_insert_cases by lia. case_decide; [done|]. rewrite El1, decide_False by lia. apply Hd. lia.
  - rewrite lookup_total_insert_cases by lia. rewrite decide_False by lia. rewrite El1, decide_True by done. lia.
  - intros x Hx. rewrite lookup_total_insert_cases by lia. rewrite decide_False by lia. rewrite El1, decide_False by lia. apply Hz. lia.
  - rewrite fval_insert by lia. rewrite E1, El, Em, fval_insert by lia. rewrite (Hz (S k)), Hv by lia. rewrite (fval_take t (S k)), (fval_take prime_limbs (S k)), Hp by (done || lia || (change (length prime_limbs) with 16%nat; lia)).
    replace (16 * Z.of_nat (S k)) with (16 + 16 * Z.of_nat k) by lia. rewrite Z.pow_add_r by lia. change (2 ^ 16) with 65536. lia.
Qed.

Lemma zip_lxor_cancel (p q : list Z) : length p = length q -> zip_with Z.lxor p (zip_with (fun x y => Z.land (-1) (Z.lxor x y)) p q) = q /\
  zip_with Z.lxor q (zip_with (fun x y => Z.land (-1) (Z.lxor x y)) p q) = p.
Proof.
  revert q. induction p as [|x p IH]; intros [|y q] Hl; try done. cbn [zip_with]. destruct (IH q) as [-> ->]; [by injection Hl|]. rewrite Z.land_m1_l. split; f_equal.
  - by rewrite <-Z.lxor_assoc, Z.lxor_nilpotent, Z.lxor_0_l.
  - by rewrite (Z.lxor_comm x y), <-Z.lxor_assoc, Z.lxor_nilpotent, Z.lxor_0_l.
Qed.
Lemma zip_lxor_keep (p q r : list Z) : length p = length q -> length r = length p -> zip_with Z.lxor r (zip_with (fun x y => Z.land 0 (Z.lxor x y)) p q) = r.
Proof.
  revert q r. induction p as [|x p IH]; intros [|y q] [|z r] Hl Hr; try done. cbn [zip_with]. cbn [length] in Hl, Hr. rewrite IH by lia. by rewrite Z.land_0_l, Z.lxor_0_r.
Qed.

(** A selection swaps the arrays or leaves them. *)
Lemma sel25519_spec p q b : length p = length q -> b = 0 \/ b = 1 -> sel25519 p q b = if b =? 1 then (q, p) else (p, q).
Proof.
  intros Hl [-> | ->]; unfold sel25519; cbn [Z.lnot Z.sub Z.eqb Z.pred Z.opp Z.add Pos.eqb].
  - change (Z.lnot (0 - 1)) with 0. by rewrite !zip_lxor_keep by done.
  - change (Z.lnot (1 - 1)) with (-1). by destruct (zip_lxor_cancel p q Hl) as [-> ->].
Qed.

Lemma sub_loop t k : length t = 16%nat -> Forall digit t -> (k <= 14)%nat -> sub_inv t (foldl (sub_step t) (<[0%nat := s64 (t !!! 0%nat - 65517)]> gf0) (seq 1 k)) k.
Proof.
  intros Hl Ht. induction k as [|k IH]; intros Hk.
  - cbn [seq foldl]. assert (H0 : digit (t !!! 0%nat)) by (rewrite Forall_lookup in Ht; apply (Ht 0%nat); apply list_lookup_lookup_total_lt; lia). unfold digit in H0.
    rewrite s64_id by lia. split; [by rewrite length_insert|]. split; [lia|]. split; [rewrite list_lookup_total_insert_eq by (cbn; lia); lia|]. split.
    + intros x Hx. rewrite list_lookup_total_insert_ne by lia. apply lookup_total_replicate_2. lia.
    + rewrite fval_insert by (cbn; lia). rewrite !(fval_take _ 0) by (rewrite ?Hl; cbn; lia). change (gf0 !!! 0%nat) with 0. change (fval gf0) with 0. change (prime_limbs !!! 0%nat) with 65517. change (fval (take 0 t)) with 0. change (fval (take 0 prime_limbs)) with 0. lia.
  - rewrite seq_S, foldl_app. cbn [foldl Nat.add]. specialize (IH ltac:(lia)). set (m := foldl _ _ (seq 1 k)) in *. unfold sub_step. rewrite Nat.sub_succ, Nat.sub_0_r.
    destruct (sub_limb t m k 65535 Hl Ht IH ltac:(lia) ltac:(lia)) as [H1 H2]; [|exact H1].
    unfold prime_limbs. change ((replicate 14 65535 ++ [32767]) !!! k = 65535). rewrite lookup_total_app_l by (rewrite length_replicate; lia). apply lookup_total_replicate_2. lia.
Qed.

Lemma fval_top m : length m = 16%nat -> (forall x, (x < 15)%nat -> digit (m !!! x)) -> m !!! 15%nat * 2 ^ 240 <= fval m < (m !!! 15%nat + 1) * 2 ^ 240.
Proof.
  intros Hl Hd. pose proof (fval_take m 15 ltac:(lia)) as E. rewrite take_ge in E by lia. rewrite E. change (16 * Z.of_nat 15) with 240.
  assert (Hf : Forall digit (take 15 m)).
  { apply Forall_lookup. intros i x [Hi Hlt]%lookup_take_Some. apply list_lookup_total_correct in Hi as <-. by apply Hd. }
  apply fval_digits in Hf. rewrite length_take, Hl in Hf. change (16 * Z.of_nat (15 `min` 16)) with 240 in Hf. lia.
Qed.

(** The conditional subtraction. *)
Lemma sub_prime_spec t : length t = 16%nat -> Forall digit t ->
  length (sub_prime t) = 16%nat /\ Forall digit (sub_prime t) /\ fval (sub_prime t) = if fval t <? gf_p then fval t else fval t - gf_p.
Proof.
  intros Hl Ht. unfold sub_prime. pose proof (sub_loop t 14 Hl Ht ltac:(lia)) as Hi. set (m := foldl _ _ (seq 1 14)) in *.
  destruct (sub_limb t m 14 32767 Hl Ht Hi ltac:(lia) ltac:(lia) eq_refl) as [(Hl2 & Hd & Hr & _ & Hv) _].
  set (m1 := <[15%nat := _]> m) in *. set (m2 := <[14%nat := _]> m1) in *.
  assert (E15 : m1 !!! 15%nat = m2 !!! 15%nat) by (unfold m2; rewrite list_lookup_total_insert_ne; [reflexivity|lia]). rewrite E15, borrow_bit by done.
  rewrite !(take_ge _ 16) in Hv by (rewrite ?Hl; cbn; lia). rewrite fval_prime_limbs in Hv. pose proof (fval_top m2 Hl2 Hd) as Htop.
  rewrite sel25519_spec; [|by rewrite Hl, Hl2|destruct (_ <? 0); lia]. destruct (Z.ltb_spec (m2 !!! 15%nat) 0).
  - change (1 - 1 =? 1) with false. cbn [fst]. split; [done|]. split; [done|]. destruct (Z.ltb_spec (fval t) gf_p); lia.
  - change (1 - 0 =? 1) with true. cbn [fst]. split; [done|]. split; [|destruct (Z.ltb_spec (fval t) gf_p); lia].
    apply Forall_lookup. intros i x Hx. assert (Hi16 : (i < 16)%nat) by (apply lookup_lt_Some in Hx; lia). apply list_lookup_total_correct in Hx as <-.
    destruct (decide (i = 15%nat)) as [->|]; [unfold digit; lia|apply Hd; lia].
Qed.

Lemma limb_bytes_enc x : digit x -> limb_bytes x = le_enc 2 x.
Proof.
  intros Hx. unfold digit in Hx. unfold limb_bytes, u8. cbn [le_enc]. change 255 with (Z.ones 8). rewrite Z.land_ones, Z.shiftr_div_pow2 by lia. done.
Qed.

Lemma le_enc_app n m z : le_enc (n + m) z = le_enc n z ++ le_enc m (z / 256 ^ Z.of_nat n).
Proof.
  revert z. induction n as [|n IH]; intros z; cbn [Nat.add le_enc app]; [by rewrite Z.pow_0_r, Z.div_1_r|]. rewrite IH. do 3 f_equal.
  rewrite Nat2Z.inj_succ, Z.pow_succ_r by lia. apply Z.div_div; lia.
Qed.

Lemma concat_limb_bytes t : Forall digit t -> concat (limb_bytes <$> t) = le_enc (2 * length t) (fval t).
Proof.
  induction 1 as [|x t Hx Ht IH]; [done|]. cbn [fmap list_fmap concat length]. replace (2 * S (length t))%nat with (2 + 2 * length t)%nat by lia.
  rewrite le_enc_app, IH, limb_bytes_enc by done. unfold digit in Hx. cbn [fval]. change (256 ^ Z.of_nat 2) with 65536. f_equal.
  - cbn [le_enc]. unfold u8. f_equal; [|f_equal]; Z.div_mod_to_equations; lia.
  - f_equal. apply (Z.div_unique _ _ _ x); lia.
Qed.

(** The canonical encoding. *)
Lemma pack25519_spec n : within (2 ^ 60) n -> pack25519 n = le_enc 32 (fval n mod gf_p).
Proof.
  intros Hn. unfold pack25519, set25519. destruct (car_thrice n Hn) as (Hl & Hd & Hv). set (t := car25519 _) in *.
  destruct (sub_prime_spec t Hl Hd) as (Hl1 & Hd1 & Hv1). destruct (sub_prime_spec _ Hl1 Hd1) as (Hl2 & Hd2 & Hv2).
  rewrite concat_limb_bytes, Hl2 by done. change (2 * 16)%nat with 32%nat. f_equal. destruct Hv as [<-].
  apply fval_digits in Hd. rewrite Hl in Hd. change (2 ^ (16 * Z.of_nat 16)) with (2 ^ 256) in Hd. pose proof two256 as E2. rewrite Hv2.
  assert (Hp : 38 < gf_p) by (unfold gf_p; lia).
  destruct (Z.ltb_spec (fval t) gf_p); rewrite Hv1.
  - destruct (Z.ltb_spec (fval t) gf_p); [|lia]. symmetry. apply Z.mod_small. lia.
  - destruct (Z.ltb_spec (fval t - gf_p) gf_p); [apply (Z.mod_unique _ _ 1)|apply (Z.mod_unique _ _ 2)]; lia.
Qed.

(** ** Comparison and unpacking *)

Lemma mod_lbits f x y n : 0 <= n -> (forall i, 0 <= i -> Z.testbit (f x y) i = Z.testbit x i || Z.testbit y i) \/ (forall i, 0 <= i -> Z.testbit (f x y) i = xorb (Z.testbit x i) (Z.testbit y i)) ->
  0 <= x < 2 ^ n -> 0 <= y < 2 ^ n -> 0 <= f x y < 2 ^ n.
Proof.
  intros Hn Hf Hx Hy. replace (f x y) with (f x y mod 2 ^ n); [apply Z.mod_pos_bound; lia|]. apply Z.bits_inj'. intros i Hi.
  destruct (Z.lt_ge_cases i n); [by rewrite Z.mod_pow2_bits_low|]. rewrite Z.mod_pow2_bits_high by lia.
  assert (Hb : forall z, 0 <= z < 2 ^ n -> Z.testbit z i = false) by (intros z Hz; rewrite <-(Z.mod_small z (2 ^ n)) by done; apply Z.mod_pow2_bits_high; lia).
  destruct Hf as [Hf|Hf]; rewrite Hf by done; by rewrite !Hb.
Qed.

Lemma lor_u8 a b : is_u8 a -> is_u8 b -> is_u8 (Z.lor a b).
Proof. intros Ha Hb. apply (mod_lbits Z.lor a b 8); [lia| |done|done]. left. intros i _. apply Z.lor_spec. Qed.
Lemma lxor_u8 a b : is_u8 a -> is_u8 b -> is_u8 (Z.lxor a b).
Proof. intros Ha Hb. apply (mod_lbits Z.lxor a b 8); [lia| |done|done]. right. intros i _. apply Z.lxor_spec. Qed.

Lemma or_differences x : forall y d, length x = length y -> wf_bytes x -> wf_bytes y -> is_u8 d ->
  let r := foldl Z.lor d (zip_with Z.lxor x y) in is_u8 r /\ (r = 0 <-> d = 0 /\ x = y).
Proof.
  induction x as [|a x IH]; intros [|b y] d Hl Hx Hy Hd; try done; cbn [zip_with foldl]; [split; [done|]; naive_solver|].
  apply Forall_cons in Hx as [Ha Hx], Hy as [Hb Hy]. destruct (IH y (Z.lor d (Z.lxor a b))) as [IH1 IH2]; [by injection Hl|done|done|by apply lor_u8; [|apply lxor_u8]|].
  split; [done|]. rewrite IH2, Z.lor_eq_0_iff, Z.lxor_eq_0_iff. naive_solver.
Qed.

Lemma vn_spec x y : length x = length y -> wf_bytes x -> wf_bytes y -> vn x y = if bool_decide (x = y) then 0 else -1.
Proof.
  intros Hl Hx Hy. unfold vn. destruct (or_differences x y 0 Hl Hx Hy ltac:(done)) as [Hu Hz]. set (d := foldl _ _ _) in *. unfold is_u8 in Hu.
  case_bool_decide as E.
  - replace d with 0 by (symmetry; by apply Hz). done.
  - assert (d <> 0) by (intros Hd; apply E; by apply Hz). unfold u32. rewrite (Z.mod_small (d - 1)) by lia. rewrite Z.shiftr_div_pow2 by lia. by rewrite Z.div_small by (change (2 ^ 8) with 256; lia).
Qed.

Lemma unpack25519_spec n : length n = 32%nat -> wf_bytes n -> length (unpack25519 n) = 16%nat /\ Forall digit (unpack25519 n) /\ fval (unpack25519 n) = le_dec n mod 2 ^ 255.
Proof.
  intros Hl Hn. pose (pair := fun i => n !!! (2 * i)%nat + 256 * n !!! (2 * i + 1)%nat).
  assert (Hb : forall i, (i < 32)%nat -> 0 <= n !!! i < 256) by (intros i Hi; unfold wf_bytes in Hn; rewrite Forall_lookup in Hn; apply (Hn i); apply list_lookup_lookup_total_lt; lia).
  assert (Hp : forall i, (i < 16)%nat -> digit (pair i)) by (intros i Hi; pose proof (Hb (2 * i)%nat ltac:(lia)); pose proof (Hb (2 * i + 1)%nat ltac:(lia)); unfold digit, pair; lia).
  assert (Eo : ((fun i => s64 (n !!! (2 * i)%nat + Z.shiftl (n !!! (2 * i + 1)%nat) 8)) <$> seq 0 16) = pair <$> seq 0 16).
  { apply list_fmap_ext. intros i k [-> Hk]%lookup_seq. specialize (Hp i Hk). unfold pair, digit in *. cbn [Nat.add]. rewrite Z.shiftl_mul_pow2 by lia. change (2 ^ 8) with 256. rewrite s64_id; lia. }
  unfold unpack25519. rewrite Eo. set (o := pair <$> seq 0 16).
  assert (Hlo : length o = 16%nat) by (unfold o; by rewrite length_fmap, length_seq).
  assert (H15 : o !!! 15%nat = pair 15%nat) by reflexivity.
  assert (Hm : Z.land (o !!! 15%nat) 32767 = pair 15%nat mod 32768) by (rewrite H15; change 32767 with (Z.ones 15); by rewrite Z.land_ones by lia).
  assert (Hd : Forall digit o) by (apply Forall_fmap, Forall_forall; intros i Hi%elem_of_seq; apply Hp; lia).
  rewrite Hm. split; [by rewrite length_insert|]. split.
  - apply Forall_insert; [done|]. unfold digit. pose proof (Z.mod_pos_bound (pair 15%nat) 32768). lia.
  - rewrite fval_insert by lia. rewrite H15. assert (Ef : fval o = le_dec n).
    { clear - Hl. unfold o, pair. do 32 (destruct n as [|? n]; [done|]). destruct n; [|done]. cbn [seq fmap list_fmap Nat.mul Nat.add fval le_dec].
      repeat match goal with |- context [?l !!! ?i] => let v := eval cbn in (l !!! i) in change (l !!! i) with v end. lia. }
    rewrite Ef. change (2 ^ (16 * Z.of_nat 15)) with (2 ^ 240). assert (Hv : le_dec n / 2 ^ 255 = pair 15%nat / 32768).
    { rewrite <-Ef. pose proof (fval_top o Hlo) as Ht. rewrite H15 in Ht. change (2 ^ 255) with (2 ^ 240 * 32768). rewrite <-Z.div_div by lia. f_equal.
      symmetry. apply (Z.div_unique _ _ _ (fval o - pair 15%nat * 2 ^ 240)); [|lia]. left. enough (pair 15%nat * 2 ^ 240 <= fval o < (pair 15%nat + 1) * 2 ^ 240) by lia. apply Ht.
      intros x Hx. rewrite Forall_lookup in Hd. apply (Hd x). apply list_lookup_lookup_total_lt. lia. }
    pose proof (Z.div_mod (le_dec n) (2 ^ 255)). pose proof (Z.div_mod (pair 15%nat) 32768). lia.
Qed.

(** ** The operations on encodings *)

Lemma rep_pack b o x : repb b o x -> b <= 2 ^ 60 -> pack25519 o = le_enc 32 (x mod gf_p).
Proof. intros [Hw [Hv]] Hb. rewrite pack25519_spec by (by apply (within_weaken b)). by rewrite Hv. Qed.

Lemma prime_fits x : 0 <= x mod gf_p < 256 ^ Z.of_nat 32.
Proof. pose proof (Z.mod_pos_bound x gf_p ltac:(done)). assert (gf_p < 256 ^ Z.of_nat 32) by done. lia. Qed.

Lemma rep_neq b b' o o' x y : repb b o x -> repb b' o' y -> b <= 2 ^ 60 -> b' <= 2 ^ 60 -> neq25519 o o' = if bool_decide (x mod gf_p = y mod gf_p) then 0 else -1.
Proof.
  intros Hx Hy Hb Hb'. unfold neq25519. rewrite (rep_pack _ _ _ Hx Hb), (rep_pack _ _ _ Hy Hb'). rewrite vn_spec by (rewrite ?length_le_enc; done || apply wf_le_enc).
  do 2 case_bool_decide; try congruence. exfalso. apply (f_equal le_dec) in H. by rewrite !le_dec_enc in H by apply prime_fits.
Qed.

Lemma rep_par b o x : repb b o x -> b <= 2 ^ 60 -> par25519 o = (x mod gf_p) mod 2.
Proof.
  intros Hx Hb. unfold par25519. rewrite (rep_pack _ _ _ Hx Hb). change (le_enc 32 ?z !!! 0%nat) with (z mod 256). change 1 with (Z.ones 1). rewrite Z.land_ones by lia. change (2 ^ 1) with 2.
  set (z := x mod gf_p). Z.div_mod_to_equations. lia.
Qed.
