(* ===== verification/Sha512.v ===== *)
(** * SHA-512 of the signature verifier ([src/src/agentic/ak_ed25519.c])

    The hash that Ed25519 uses: the block function and [crypto_hash], which
    hashes the whole blocks of a message in place and its rest in a padded block
    or two.  Theorem: it is the textbook function, the message padded with its
    length in 128 bits and the block function folded over it, for every message
    of fewer than [2^61] bytes. *)

From stdpp Require Import list.
From S2P Require Import Prelude.
#[local] Open Scope Z_scope.

Definition L64 (x c : Z) : Z := Z.lor (u64 (Z.shiftl x c)) (Z.shiftr (Z.land x 18446744073709551615) (64 - c)).

(** Eight bytes, the most significant first. *)
Definition dl64 (x : bytes) : Z := foldl (fun u b => Z.lor (u64 (Z.shiftl u 8)) b) 0 (take 8 x).
Fixpoint ts_bytes (n : nat) (u : Z) : bytes :=
  match n with O => [] | S n => ts_bytes n (Z.shiftr u 8) ++ [u8 u] end.
Definition ts64 (u : Z) : bytes := ts_bytes 8 u.

(** The round constants, in decimal. *)
Definition K512 : list Z :=
  [
   4794697086780616226; 8158064640168781261; 13096744586834688815; 16840607885511220156;
   4131703408338449720; 6480981068601479193; 10538285296894168987; 12329834152419229976;
   15566598209576043074; 1334009975649890238; 2608012711638119052; 6128411473006802146;
   8268148722764581231; 9286055187155687089; 11230858885718282805; 13951009754708518548;
   16472876342353939154; 17275323862435702243; 1135362057144423861; 2597628984639134821;
   3308224258029322869; 5365058923640841347; 6679025012923562964; 8573033837759648693;
   10970295158949994411; 12119686244451234320; 12683024718118986047; 13788192230050041572;
   14330467153632333762; 15395433587784984357; 489312712824947311; 1452737877330783856;
   2861767655752347644; 3322285676063803686; 5560940570517711597; 5996557281743188959;
   7280758554555802590; 8532644243296465576; 9350256976987008742; 10552545826968843579;
   11727347734174303076; 12113106623233404929; 14000437183269869457; 14369950271660146224;
   15101387698204529176; 15463397548674623760; 17586052441742319658; 1182934255886127544;
   1847814050463011016; 2177327727835720531; 2830643537854262169; 3796741975233480872;
   4115178125766777443; 5681478168544905931; 6601373596472566643; 7507060721942968483;
   8399075790359081724; 8693463985226723168; 9568029438360202098; 10144078919501101548;
   10430055236837252648; 11840083180663258601; 13761210420658862357; 14299343276471374635;
   14566680578165727644; 15097957966210449927; 16922976911328602910; 17689382322260857208;
   500013540394364858; 748580250866718886; 1242879168328830382; 1977374033974150939;
   2944078676154940804; 3659926193048069267; 4368137639120453308; 4836135668995329356;
   5532061633213252278; 6448918945643986474; 6902733635092675308; 7801388544844847127].

(** The word [w[i]] from those before it. *)
Definition next_word (w : list Z) (i : nat) : list Z :=
  let w15 := w !!! (i - 15)%nat in
  let w2 := w !!! (i - 2)%nat in
  let s0 := Z.lxor (Z.lxor (L64 w15 63) (L64 w15 56)) (Z.shiftr w15 7) in
  let s1 := Z.lxor (Z.lxor (L64 w2 45) (L64 w2 3)) (Z.shiftr w2 6) in
  w ++ [u64 (w !!! (i - 16)%nat + s0 + w !!! (i - 7)%nat + s1)].

Definition round512 (v : list Z) (kw : Z * Z) : list Z :=
  match v with
  | [a; b; c; d; e; f; g; h] =>
      let S1 := Z.lxor (Z.lxor (L64 e 50) (L64 e 46)) (L64 e 23) in
      let ch := Z.lxor (Z.land e f) (Z.land (18446744073709551615 - e) g) in
      let temp1 := u64 (h + S1 + ch + fst kw + snd kw) in
      let S0 := Z.lxor (Z.lxor (L64 a 36) (L64 a 30)) (L64 a 25) in
      let maj := Z.lxor (Z.lxor (Z.land a b) (Z.land a c)) (Z.land b c) in
      let temp2 := u64 (S0 + maj) in
      [u64 (temp1 + temp2); a; b; c; u64 (d + temp1); e; f; g]
  | _ => v
  end.

Definition hashblock (x : list Z) (m : bytes) : list Z :=
  let w := (fun i => dl64 (drop (8 * i) m)) <$> seq 0 16 in
  let w := foldl next_word w (seq 16 64) in
  zip_with (fun s y => u64 (s + y)) x (foldl round512 x (zip K512 w)).

Definition IV512 : list Z :=
  [7640891576956012808; 13503953896175478587; 4354685564936845355; 11912009170470909681; 5840696475078001361; 11170449401992604703; 2270897969802886507; 6620516959819538809].

Definition crypto_hash (m : bytes) : bytes :=
  let n := length m in
  let left := Z.to_nat (Z.land (Z.of_nat n) 127) in
  let x := foldl (fun x i => hashblock x (take 128 (drop (128 * i) m))) IV512 (seq 0 (n / 128)) in
  let b := <[left := 128]> (splice 0 (drop (n - left) m) (zeros 128)) in
  let '(x, b) := if (112 <=? left)%nat then (hashblock x b, zeros 128) else (x, b) in
  let b := splice 120 (ts64 (u64 (Z.shiftl (Z.of_nat n) 3))) b in
  concat (ts64 <$> hashblock x b).

(** ** Reference definition: pad, then fold over the blocks *)

Definition be128 (z : Z) : bytes := rev (le_enc 16 z).
Definition pad512 (n : nat) : bytes := 128 :: zeros (Z.to_nat ((111 - Z.of_nat n) mod 128)) ++ be128 (8 * Z.of_nat n).
Definition message512 (m : bytes) : bytes := m ++ pad512 (length m).
Definition hash_blocks (k : nat) (l : bytes) : list Z := foldl (fun x i => hashblock x (take 128 (drop (128 * i) l))) IV512 (seq 0 k).
Definition sha512 (m : bytes) : bytes := concat (ts64 <$> hash_blocks (length (message512 m) / 128) (message512 m)).

Example sha512_abc : crypto_hash B"abc" =
  [221;175;53;161;147;97;122;186;204;65;115;73;174;32;65;49;18;230;250;78;137;169;126;162;10;158;238;230;75;85;211;154;33;146;153;42;39;79;193;168;54;186;60;35;163;254;235;189;69;77;68;35;100;60;232;14;42;154;201;79;165;76;164;159].
Proof. vm_compute. reflexivity. Qed.

(** ** The code computes it *)

#[local] Opaque hashblock.

Lemma ts_bytes_enc n : forall u, ts_bytes n u = rev (le_enc n u).
Proof.
  induction n as [|n IH]; intros u; [done|]. cbn [ts_bytes le_enc rev]. rewrite IH, Z.shiftr_div_pow2 by lia. done.
Qed.
Lemma length_ts64 u : length (ts64 u) = 8%nat.
Proof. unfold ts64. by rewrite ts_bytes_enc, length_rev, length_le_enc. Qed.
Lemma wf_ts64 u : wf_bytes (ts64 u).
Proof. unfold ts64. rewrite ts_bytes_enc. apply Forall_rev, wf_le_enc. Qed.

Lemma le_enc_zero n : le_enc n 0 = zeros n.
Proof. induction n as [|n IH]; [done|]. cbn [le_enc]. change (0 / 256) with 0. by rewrite IH. Qed.

Lemma le_enc_split n m z : 0 <= z < 256 ^ Z.of_nat n -> le_enc (n + m) z = le_enc n z ++ zeros m.
Proof.
  revert z. induction n as [|n IH]; intros z Hz.
  { cbn [Nat.add le_enc app]. replace z with 0 by (cbn in Hz; lia). apply le_enc_zero. }
  cbn [Nat.add le_enc app]. rewrite IH; [done|]. rewrite Nat2Z.inj_succ, Z.pow_succ_r in Hz by lia. split; [apply Z.div_pos; lia|]. apply Z.div_lt_upper_bound; lia.
Qed.

(** The length field: eight zeros and the low word. *)
Lemma be128_short n : (Z.of_nat n < 2 ^ 61) -> be128 (8 * Z.of_nat n) = zeros 8 ++ ts64 (u64 (Z.shiftl (Z.of_nat n) 3)).
Proof.
  intros Hn. unfold be128, ts64. rewrite ts_bytes_enc, Z.shiftl_mul_pow2 by lia. change (2 ^ 3) with 8. rewrite (Z.mul_comm _ 8). unfold u64. rewrite Z.mod_small by lia.
  change 16%nat with (8 + 8)%nat. rewrite le_enc_split by (change (256 ^ Z.of_nat 8) with (2 ^ 64); lia). by rewrite rev_app_distr.
Qed.

Lemma hash_blocks_S k l : hash_blocks (S k) l = hashblock (hash_blocks k l) (take 128 (drop (128 * k) l)).
Proof. unfold hash_blocks. rewrite seq_S, foldl_app. done. Qed.
Lemma hash_blocks_app k l r : (128 * k <= length l)%nat -> hash_blocks k (l ++ r) = hash_blocks k l.
Proof.
  intros Hk. induction k as [|k IH]; [done|]. rewrite !hash_blocks_S, IH by lia. by rewrite drop_app_le, take_app_le by (rewrite ?length_drop; lia).
Qed.

Lemma pad512_short n q i : (n = 128 * q + i)%nat -> (i < 112)%nat -> pad512 n = 128 :: zeros (111 - i) ++ be128 (8 * Z.of_nat n).
Proof.
  intros -> Hi. unfold pad512. do 3 f_equal. replace (111 - Z.of_nat (128 * q + i)) with (Z.of_nat (111 - i) + (- Z.of_nat q) * 128) by lia. rewrite Z.mod_add, Z.mod_small by lia. lia.
Qed.
Lemma pad512_long n q i : (n = 128 * q + i)%nat -> (112 <= i < 128)%nat -> pad512 n = 128 :: zeros (127 - i) ++ zeros 112 ++ be128 (8 * Z.of_nat n).
Proof.
  intros -> Hi. unfold pad512. replace (111 - Z.of_nat (128 * q + i)) with (Z.of_nat (239 - i) + (- Z.of_nat (q + 1)) * 128) by lia. rewrite Z.mod_add, Z.mod_small, Nat2Z.id by lia.
  rewrite app_assoc. unfold zeros. rewrite <-replicate_add. do 3 f_equal. lia.
Qed.

(** The last bytes with the end mark, over zeros. *)
Lemma rest_block r : (length r < 128)%nat -> <[length r := 128]> (splice 0 r (zeros 128)) = r ++ 128 :: zeros (127 - length r).
Proof.
  intros Hr. change (splice 0 r (zeros 128)) with (r ++ drop (length r) (replicate 128 0)). rewrite drop_replicate. rewrite insert_app_r_alt by lia. rewrite Nat.sub_diag.
  replace (128 - length r)%nat with (S (127 - length r)) by lia. done.
Qed.

Lemma length_field r z : length z = 8%nat -> (length r < 112)%nat -> splice 120 z (r ++ 128 :: zeros (127 - length r)) = (r ++ 128 :: zeros (111 - length r)) ++ zeros 8 ++ z.
Proof.
  intros Hz Hr. unfold splice. rewrite Hz, (drop_ge _ 128) by (unfold zeros; rewrite length_app; cbn [length]; rewrite length_replicate; lia). rewrite app_nil_r.
  replace (127 - length r)%nat with (111 - length r + 16)%nat by lia. unfold zeros. rewrite replicate_add, (replicate_add 8 8), !app_comm_cons, !app_assoc.
  rewrite take_app_length'; [done|]. rewrite !length_app. cbn [length]. rewrite !length_replicate. lia.
Qed.

Lemma crypto_hash_spec m : Z.of_nat (length m) < 2 ^ 61 -> crypto_hash m = sha512 m.
Proof.
  intros Hn. unfold crypto_hash, sha512, message512. pose proof (Nat.div_mod_eq (length m) 128) as Hdm. pose proof (Nat.mod_upper_bound (length m) 128 ltac:(lia)) as Hub.
  replace (Z.to_nat (Z.land _ 127)) with (length m mod 128)%nat by (change 127 with (Z.ones 7); rewrite Z.land_ones by lia; change (2 ^ 7) with (Z.of_nat 128); rewrite <-Nat2Z.inj_mod, Nat2Z.id; done).
  set (q := (length m / 128)%nat) in *. set (i := (length m mod 128)%nat) in *. fold (hash_blocks q m). pose (r := drop (128 * q) m).
  assert (Hr : length r = i) by (unfold r; rewrite length_drop; lia). replace (length m - i)%nat with (128 * q)%nat by lia. fold r. rewrite <-Hr, rest_block by lia. rewrite Hr.
  pose proof (be128_short (length m) Hn) as Eb. set (z := ts64 (u64 _)) in *. assert (Hz : length z = 8%nat) by apply length_ts64.
  assert (Hlz : forall k, length (zeros k) = k) by (intros; apply length_replicate).
  destruct (Nat.leb_spec 112 i) as [Hi|Hi]; do 2 f_equal.
  - rewrite (pad512_long _ q i), Eb by lia. rewrite app_comm_cons, (app_assoc m).
    assert (Hl1 : length (m ++ 128 :: zeros (127 - i)) = (128 * S q)%nat) by (rewrite length_app; cbn [length]; rewrite Hlz; lia).
    replace (length _ / 128)%nat with (S (S q)) by (apply (Nat.div_unique _ _ _ 0); [lia|]; rewrite length_app, Hl1, !length_app, !Hlz, Hz; lia).
    rewrite (hash_blocks_S (S q)), hash_blocks_app, hash_blocks_S, hash_blocks_app by lia. f_equal; [f_equal|].
    + rewrite drop_app_le by lia. fold r. symmetry. apply take_ge. rewrite length_app. cbn [length]. rewrite Hlz. lia.
    + rewrite drop_app_length' by done. unfold splice. rewrite Hz. change (120 + 8)%nat with 128%nat. rewrite (drop_ge _ 128), app_nil_r by done. change (take 120 (zeros 128)) with (zeros 112 ++ zeros 8). rewrite <-app_assoc, take_ge; [done|]. rewrite !length_app, Hz, !Hlz. lia.
  - rewrite (pad512_short _ q i), Eb by lia.
    replace (length _ / 128)%nat with (S q) by (apply (Nat.div_unique _ _ _ 0); [lia|]; rewrite length_app; cbn [length]; rewrite !length_app, !Hlz, Hz; lia).
    rewrite hash_blocks_S, hash_blocks_app by lia. f_equal. rewrite drop_app_le by lia. fold r. rewrite <-Hr, length_field by lia. rewrite <-app_assoc, <-app_comm_cons.
    symmetry. apply take_ge. rewrite length_app. cbn [length]. rewrite !length_app, !Hlz, Hz. lia.
Qed.

Lemma length_round512 l : forall v, length v = 8%nat -> length (foldl round512 v l) = 8%nat.
Proof. induction l as [|x l IH]; intros v Hv; [done|]. cbn [foldl]. apply IH. do 9 (destruct v as [|? v]; try done). Qed.
#[local] Transparent hashblock.
Lemma length_hashblock x b : length x = 8%nat -> length (hashblock x b) = 8%nat.
Proof. intros Hx. unfold hashblock. rewrite length_zip_with, length_round512 by done. lia. Qed.
Lemma length_hash_blocks k l : length (hash_blocks k l) = 8%nat.
Proof. induction k as [|k IH]; [done|]. rewrite hash_blocks_S. by apply length_hashblock. Qed.

Lemma concat_ts64 l : length (concat (ts64 <$> l)) = (8 * length l)%nat /\ wf_bytes (concat (ts64 <$> l)).
Proof.
  induction l as [|z l [IH1 IH2]]; cbn [fmap list_fmap concat length]; [split; [done|constructor]|]. split; [rewrite length_app, IH1, length_ts64; lia|].
  apply Forall_app; split; [apply wf_ts64|done].
Qed.
Lemma length_sha512 m : length (sha512 m) = 64%nat.
Proof. unfold sha512. by rewrite (proj1 (concat_ts64 _)), length_hash_blocks. Qed.
Lemma wf_sha512 m : wf_bytes (sha512 m).
Proof. apply concat_ts64. Qed.
