(* ===== verification/Ed25519.v ===== *)
(** * Ed25519 signature verification ([src/src/agentic/ak_ed25519.c])

    The curve, the scalars and the verifier on top of [Field25519] and
    [Sha512], and the set of trusted keys.  The functions [add], [pack] and
    the constants [D], [X], [Y], [I], [L] of the source carry a prefix here.  An array that is
    passed to be written is a result; two arguments that are the same array are
    read before either is written.  The success of the allocation is an argument.

    The specification is the verification equation of RFC 8032 in arithmetic
    modulo the prime, with points in extended coordinates.  Theorems: the
    verifier accepts exactly the signatures that satisfy the equation; the points
    of the equation are on the curve; the trusted keys are a bounded set. *)

From stdpp Require Import gmap.
From S2P Require Import Prelude Field25519 Sha512.
#[local] Open Scope Z_scope.

Definition ed_D : gf := [30883; 4953; 19914; 30187; 55467; 16705; 2637; 112; 59544; 30585; 16505; 36039; 65139; 11119; 27886; 20995].
Definition ed_D2 : gf := [61785; 9906; 39828; 60374; 45398; 33411; 5274; 224; 53552; 61171; 33010; 6542; 64743; 22239; 55772; 9222].
Definition ed_X : gf := [54554; 36645; 11616; 51542; 42930; 38181; 51040; 26924; 56412; 64982; 57905; 49316; 21502; 52590; 14035; 8553].
Definition ed_Y : gf := [26200; 26214; 26214; 26214; 26214; 26214; 26214; 26214; 26214; 26214; 26214; 26214; 26214; 26214; 26214; 26214].
Definition ed_I : gf := [41136; 18958; 6951; 50414; 58488; 44335; 6150; 12099; 55207; 15867; 153; 11085; 57099; 20417; 9344; 11139].
Definition ed_L : list Z := [237; 211; 245; 92; 26; 99; 18; 88; 214; 156; 247; 162; 222; 249; 222; 20; 0; 0; 0; 0; 0; 0; 0; 0; 0; 0; 0; 0; 0; 0; 0; 16].

(** ** Points *)

(** [gf p[4]]: extended coordinates. *)
Record gfp := mk_gfp { p0 : gf; p1 : gf; p2 : gf; p3 : gf }.

Definition ed_add (p q : gfp) : gfp :=
  let a := gf_sub (p1 p) (p0 p) in
  let t := gf_sub (p1 q) (p0 q) in
  let a := gf_mul a t in
  let b := gf_add (p0 p) (p1 p) in
  let t := gf_add (p0 q) (p1 q) in
  let b := gf_mul b t in
  let c := gf_mul (p3 p) (p3 q) in
  let c := gf_mul c ed_D2 in
  let d := gf_mul (p2 p) (p2 q) in
  let d := gf_add d d in
  let e := gf_sub b a in
  let f := gf_sub d c in
  let g := gf_add d c in
  let h := gf_add b a in
  mk_gfp (gf_mul e f) (gf_mul h g) (gf_mul g f) (gf_mul e h).

Definition cswap (p q : gfp) (b : Z) : gfp * gfp :=
  let '(x, x') := sel25519 (p0 p) (p0 q) b in
  let '(y, y') := sel25519 (p1 p) (p1 q) b in
  let '(z, z') := sel25519 (p2 p) (p2 q) b in
  let '(t, t') := sel25519 (p3 p) (p3 q) b in
  (mk_gfp x y z t, mk_gfp x' y' z' t').

Definition ed_pack (p : gfp) : bytes :=
  let zi := inv25519 (p2 p) in
  let tx := gf_mul (p0 p) zi in
  let ty := gf_mul (p1 p) zi in
  let r := pack25519 ty in
  <[31%nat := Z.lxor (r !!! 31%nat) (u8 (Z.shiftl (par25519 tx) 7))]> r.

Definition scalar_step (s : bytes) (pq : gfp * gfp) (i : nat) : gfp * gfp :=
  let b := Z.land (Z.shiftr (s !!! (i / 8)%nat) (Z.land (Z.of_nat i) 7)) 1 in
  let '(p, q) := cswap pq.1 pq.2 b in
  let q := ed_add q p in
  let p := ed_add p p in
  cswap p q b.
Definition scalarmult (q : gfp) (s : bytes) : gfp :=
  let p := mk_gfp (set25519 gf0) (set25519 gf1) (set25519 gf1) (set25519 gf0) in
  (foldl (scalar_step s) (p, q) (reverse (seq 0 256))).1.
Definition scalarbase (s : bytes) : gfp :=
  scalarmult (mk_gfp (set25519 ed_X) (set25519 ed_Y) (set25519 gf1) (gf_mul ed_X ed_Y)) s.

(** ** Scalars *)

Definition elim_step (i : nat) (st : list Z * Z) (j : nat) : list Z * Z :=
  let '(x, carry) := st in
  let v := s64 (x !!! j + (carry - 16 * x !!! i * ed_L !!! (j - (i - 32))%nat)) in
  let carry := Z.shiftr (s64 (v + 128)) 8 in
  (<[j := s64 (v - Z.shiftl carry 8)]> x, carry).
Definition elim_digit (x : list Z) (i : nat) : list Z :=
  let '(x, carry) := foldl (elim_step i) (x, 0) (seq (i - 32) 20) in
  let x := <[(i - 12)%nat := s64 (x !!! (i - 12)%nat + carry)]> x in
  <[i := 0]> x.
Definition low_step (st : list Z * Z) (j : nat) : list Z * Z :=
  let '(x, carry) := st in
  let v := s64 (x !!! j + (carry - Z.shiftr (x !!! 31%nat) 4 * ed_L !!! j)) in
  (<[j := Z.land v 255]> x, Z.shiftr v 8).
Definition fix_step (carry : Z) (x : list Z) (j : nat) : list Z := <[j := s64 (x !!! j - carry * ed_L !!! j)]> x.
Definition out_step (st : list Z * bytes) (i : nat) : list Z * bytes :=
  let '(x, r) := st in
  (<[S i := s64 (x !!! S i + Z.shiftr (x !!! i) 8)]> x, r ++ [Z.land (x !!! i) 255]).
Definition modL (x : list Z) : bytes :=
  let x := foldl elim_digit x (reverse (seq 32 32)) in
  let '(x, carry) := foldl low_step (x, 0) (seq 0 32) in
  let x := foldl (fix_step carry) x (seq 0 32) in
  (foldl out_step (x, []) (seq 0 32)).2.

(** The 64 bytes in place: the result and zeros. *)
Definition ed_reduce (r : bytes) : bytes := modL (take 64 r) ++ zeros 32.

(** ** The public key *)

(** [None] for the result -1. *)
Definition unpackneg (p : bytes) : option gfp :=
  let r2 := set25519 gf1 in
  let r1 := unpack25519 p in
  let num := gf_sq r1 in
  let den := gf_mul num ed_D in
  let num := gf_sub num r2 in
  let den := gf_add r2 den in
  let den2 := gf_sq den in
  let den4 := gf_sq den2 in
  let den6 := gf_mul den4 den2 in
  let t := gf_mul den6 num in
  let t := gf_mul t den in
  let t := pow2523 t in
  let t := gf_mul t num in
  let t := gf_mul t den in
  let t := gf_mul t den in
  let r0 := gf_mul t den in
  let chk := gf_mul (gf_sq r0) den in
  let r0 := if negb (neq25519 chk num =? 0) then gf_mul r0 ed_I else r0 in
  let chk := gf_mul (gf_sq r0) den in
  if negb (neq25519 chk num =? 0) then None
  else
    let r0 := if par25519 r0 =? Z.shiftr (p !!! 31%nat) 7 then gf_sub gf0 r0 else r0 in
    Some (mk_gfp r0 r1 r2 (gf_mul r0 r1)).

(** ** The interface *)

Definition AK_ED25519_PUBLIC_KEY_SIZE : nat := 32.
Definition AK_ED25519_MAX_TRUSTED_KEYS : nat := 16.

(** The first [es_count] slots of the arrays are in use. *)
Record ed25519_state := mk_ed { es_heap : bool; es_keys : list bytes; es_names : list bytes; es_count : nat; es_initialized : bool }.

Definition ak_ed25519_init (h : bool) : ed25519_state :=
  mk_ed h (replicate AK_ED25519_MAX_TRUSTED_KEYS (zeros AK_ED25519_PUBLIC_KEY_SIZE)) (replicate AK_ED25519_MAX_TRUSTED_KEYS []) 0 true.

Definition ak_ed25519_verify (s : ed25519_state) (alloc : bool) (message signature public_key : option bytes) : bool :=
  if negb (es_initialized s) || negb (es_heap s) then false
  else
    match message, signature, public_key with
    | Some m, Some sig, Some pk =>
        if 18446744073709551615 - 64 <? Z.of_nat (length m) then false
        else
          match unpackneg pk with
          | None => false
          | Some q =>
              if negb alloc then false
              else
                let sm := take 32 sig ++ take 32 pk ++ m in
                let h := ed_reduce (crypto_hash sm) in
                let p := scalarmult q h in
                let q := scalarbase (drop 32 sig) in
                let t := ed_pack (ed_add p q) in
                vn (take 32 sig) t =? 0
          end
    | _, _, _ => false
    end.

Definition same_key (pk k : bytes) : bool := bool_decide (take AK_ED25519_PUBLIC_KEY_SIZE pk = k).
Definition used_keys (s : ed25519_state) : list bytes := take (es_count s) (es_keys s).

Definition ak_ed25519_add_trusted_key (s : ed25519_state) (public_key : option bytes) (name : bytes) : bool * ed25519_state :=
  if negb (es_initialized s) then (false, s)
  else
    match public_key with
    | None => (false, s)
    | Some pk =>
        if (AK_ED25519_MAX_TRUSTED_KEYS <=? es_count s)%nat then (false, s)
        else if existsb (same_key pk) (used_keys s) then (true, s)
        else (true, mk_ed (es_heap s) (<[es_count s := take AK_ED25519_PUBLIC_KEY_SIZE pk]> (es_keys s)) (<[es_count s := name]> (es_names s)) (S (es_count s)) (es_initialized s))
    end.

Definition ak_ed25519_is_trusted (s : ed25519_state) (public_key : option bytes) : bool :=
  match public_key with
  | None => false
  | Some pk => if negb (es_initialized s) then false else existsb (same_key pk) (used_keys s)
  end.

(** The last key moves to the slot of the removed one. *)
Definition ak_ed25519_remove_trusted_key (s : ed25519_state) (public_key : option bytes) : bool * ed25519_state :=
  match public_key with
  | None => (false, s)
  | Some pk =>
      if negb (es_initialized s) then (false, s)
      else
        match list_find (fun k => same_key pk k = true) (used_keys s) with
        | None => (false, s)
        | Some (i, _) =>
            let last := (es_count s - 1)%nat in
            let keys := if (i <? last)%nat then <[i := es_keys s !!! last]> (es_keys s) else es_keys s in
            let names := if (i <? last)%nat then <[i := es_names s !!! last]> (es_names s) else es_names s in
            (true, mk_ed (es_heap s) keys names last (es_initialized s))
        end
  end.

Definition ak_ed25519_trusted_key_count (s : ed25519_state) : Z := Z.of_nat (es_count s).

(** ** Specification: the verification equation modulo the prime *)

Definition ell : Z := 2 ^ 252 + 27742317777372353535851937790883648493.
Definition d_coeff : Z := fval ed_D.
Definition sqrt_m1 : Z := fval ed_I.

Record point := mk_point { px : Z; py : Z; pz : Z; pt : Z }.

Definition padd (P Q : point) : point :=
  let a := (py P - px P) * (py Q - px Q) in
  let b := (py P + px P) * (py Q + px Q) in
  let c := pt P * (2 * d_coeff) * pt Q in
  let d := 2 * pz P * pz Q in
  let e := b - a in let f := d - c in let g := d + c in let h := b + a in
  mk_point (e * f mod gf_p) (h * g mod gf_p) (g * f mod gf_p) (e * h mod gf_p).

Definition neutral : point := mk_point 0 1 1 0.
Definition base : point := mk_point (fval ed_X) (fval ed_Y) 1 (fval ed_X * fval ed_Y mod gf_p).

(** The ladder: the multiples [n P] and [(n + 1) P] for the leading bits [n]. *)
Definition ladder_step (s : Z) (PQ : point * point) (i : nat) : point * point :=
  if Z.testbit s (Z.of_nat i) then (padd PQ.1 PQ.2, padd PQ.2 PQ.2) else (padd PQ.1 PQ.1, padd PQ.2 PQ.1).
Definition pmul (s : Z) (P : point) : point := (foldl (ladder_step s) (neutral, P) (reverse (seq 0 256))).1.

(** 255 bits of [y] and the parity of [x]. *)
Definition encode (P : point) : bytes :=
  let zi := pz P ^ (gf_p - 2) in
  let x := px P * zi mod gf_p in
  let y := py P * zi mod gf_p in
  le_enc 32 (y + 2 ^ 255 * (x mod 2)).

(** A root of [u / v], for [v x^2 = u]. *)
Definition root (u v : Z) : option Z :=
  let x := u * v ^ 3 * (u * v ^ 7) ^ ((gf_p - 5) / 8) in
  let x := if bool_decide (v * x ^ 2 mod gf_p = u mod gf_p) then x else x * sqrt_m1 in
  if bool_decide (v * x ^ 2 mod gf_p = u mod gf_p) then Some (x mod gf_p) else None.

(** The negative of the encoded point. *)
Definition decode_neg (b : bytes) : option point :=
  let y := le_dec b mod 2 ^ 255 in
  let sign := le_dec b / 2 ^ 255 in
  match root (y ^ 2 - 1) (d_coeff * y ^ 2 + 1) with
  | None => None
  | Some x => let x := if x mod 2 =? sign then - x else x in Some (mk_point x y 1 (x * y))
  end.

Definition valid_signature (pk m sig : bytes) : Prop :=
  exists A, decode_neg pk = Some A /\
    let h := le_dec (sha512 (take 32 sig ++ pk ++ m)) mod ell in
    encode (padd (pmul h A) (pmul (le_dec (drop 32 sig)) base)) = take 32 sig.

(** ** Points refine *)

Record rep_pt (p : gfp) (P : point) : Prop := { rep_x : rep (p0 p) (px P); rep_y : rep (p1 p) (py P); rep_z : rep (p2 p) (pz P); rep_t : rep (p3 p) (pt P) }.

Lemma rep_D : rep ed_D d_coeff.
Proof. apply repb_const; [done|digits]. Qed.
Lemma rep_I : rep ed_I sqrt_m1.
Proof. apply repb_const; [done|digits]. Qed.
Lemma rep_D2 : rep ed_D2 (2 * d_coeff).
Proof. apply (repb_eqp _ _ (fval ed_D2)); [apply repb_const; [done|digits]|]. split. vm_compute. reflexivity. Qed.

Lemma rep_mod b o x : repb b o x -> repb b o (x mod gf_p).
Proof. intros Hx. apply (repb_eqp _ _ _ _ Hx). symmetry. apply eqp_modulo. Qed.

Lemma ed_add_spec p q P Q : rep_pt p P -> rep_pt q Q -> rep_pt (ed_add p q) (padd P Q).
Proof.
  intros [X1 Y1 Z1 T1] [X2 Y2 Z2 T2].
  pose proof (repb_mul _ _ _ _ _ _ (repb_sub _ _ _ _ _ _ Y1 X1 ltac:(lia) ltac:(lia)) (repb_sub _ _ _ _ _ _ Y2 X2 ltac:(lia) ltac:(lia)) ltac:(lia) ltac:(lia)) as Ra.
  pose proof (repb_mul _ _ _ _ _ _ (repb_add _ _ _ _ _ _ X1 Y1 ltac:(lia) ltac:(lia)) (repb_add _ _ _ _ _ _ X2 Y2 ltac:(lia) ltac:(lia)) ltac:(lia) ltac:(lia)) as Rb.
  pose proof (repb_mul _ _ _ _ _ _ (repb_mul _ _ _ _ _ _ T1 T2 ltac:(lia) ltac:(lia)) rep_D2 ltac:(lia) ltac:(lia)) as Rc.
  pose proof (repb_mul _ _ _ _ _ _ Z1 Z2 ltac:(lia) ltac:(lia)) as Rd0.
  pose proof (repb_add _ _ _ _ _ _ Rd0 Rd0 ltac:(lia) ltac:(lia)) as Rd.
  pose proof (repb_sub _ _ _ _ _ _ Rb Ra ltac:(lia) ltac:(lia)) as Re. pose proof (repb_sub _ _ _ _ _ _ Rd Rc ltac:(lia) ltac:(lia)) as Rf.
  pose proof (repb_add _ _ _ _ _ _ Rd Rc ltac:(lia) ltac:(lia)) as Rg. pose proof (repb_add _ _ _ _ _ _ Rb Ra ltac:(lia) ltac:(lia)) as Rh.
  unfold ed_add, padd.
  split; cbn [p0 p1 p2 p3 px py pz pt]; apply rep_mod;
    [eapply repb_eqp; [exact (repb_mul _ _ _ _ _ _ Re Rf ltac:(lia) ltac:(lia))|]
    |eapply repb_eqp; [exact (repb_mul _ _ _ _ _ _ Rh Rg ltac:(lia) ltac:(lia))|]
    |eapply repb_eqp; [exact (repb_mul _ _ _ _ _ _ Rg Rf ltac:(lia) ltac:(lia))|]
    |eapply repb_eqp; [exact (repb_mul _ _ _ _ _ _ Re Rh ltac:(lia) ltac:(lia))|]]; apply eq_subrelation; try typeclasses eauto; ring.
Qed.

Lemma cswap_spec p q P Q b : rep_pt p P -> rep_pt q Q -> b = 0 \/ b = 1 -> cswap p q b = if b =? 1 then (q, p) else (p, q).
Proof.
  intros [[[X1 _] _] [[Y1 _] _] [[Z1 _] _] [[T1 _] _]] [[[X2 _] _] [[Y2 _] _] [[Z2 _] _] [[T2 _] _]] Hb. unfold cswap. rewrite !sel25519_spec by (congruence || done).
  destruct (b =? 1), p, q; done.
Qed.

Lemma scalar_bit s i : wf_bytes s -> length s = 32%nat -> (i < 256)%nat ->
  Z.land (Z.shiftr (s !!! (i / 8)%nat) (Z.land (Z.of_nat i) 7)) 1 = Z.b2z (Z.testbit (le_dec s) (Z.of_nat i)).
Proof.
  intros Hs Hl Hi. change 1 with (Z.ones 1). rewrite Z.land_ones by lia. change 7 with (Z.ones 3). rewrite Z.land_ones by lia. change (2 ^ 1) with 2. rewrite <-Z.bit0_mod. change (2 ^ 3) with 8.
  rewrite Z.shiftr_spec, Z.add_0_l by lia. f_equal.
  assert (Hgen : forall l k n, wf_bytes l -> l !! k = Some n -> forall r, 0 <= r < 8 -> Z.testbit (le_dec l) (8 * Z.of_nat k + r) = Z.testbit n r).
  { clear. induction l as [|x l IH]; intros [|k] n Hw Hk r Hr; try done; apply Forall_cons in Hw as [Hx Hw]; unfold is_u8 in Hx; cbn [le_dec].
    - injection Hk as ->. rewrite Z.mul_0_r, Z.add_0_l. rewrite <-(Z.mod_pow2_bits_low (n + 256 * le_dec l) 8) by lia. f_equal. change (2 ^ 8) with 256.
      rewrite Z.mul_comm, Z_mod_plus_full. apply Z.mod_small. lia.
    - cbn in Hk. rewrite <-(IH k n Hw Hk r Hr). replace (8 * Z.of_nat (S k) + r) with (8 * Z.of_nat k + r + 8) by lia. rewrite <-Z.div_pow2_bits by lia. f_equal. change (2 ^ 8) with 256.
      rewrite Z.mul_comm, Z.div_add by lia. rewrite Z.div_small by lia. lia. }
  rewrite <-(Hgen s (i / 8)%nat (s !!! (i / 8)%nat) Hs).
  - f_equal. rewrite (Nat.div_mod_eq i 8) at 3. rewrite Nat2Z.inj_add, Nat2Z.inj_mul, Nat2Z.inj_mod. done.
  - apply list_lookup_lookup_total_lt. rewrite Hl. apply Nat.Div0.div_lt_upper_bound. lia.
  - apply Z.mod_pos_bound. lia.
Qed.

Lemma rep_neutral : rep_pt (mk_gfp (set25519 gf0) (set25519 gf1) (set25519 gf1) (set25519 gf0)) neutral.
Proof. split; apply rep_gf0 || apply rep_gf1. Qed.

Lemma scalarmult_spec q Q s : rep_pt q Q -> wf_bytes s -> length s = 32%nat -> rep_pt (scalarmult q s) (pmul (le_dec s) Q).
Proof.
  intros Hq Hs Hl. unfold scalarmult, pmul.
  assert (Hgen : forall l p P q Q, Forall (fun i => (i < 256)%nat) l -> rep_pt p P -> rep_pt q Q ->
    rep_pt (foldl (scalar_step s) (p, q) l).1 (foldl (ladder_step (le_dec s)) (P, Q) l).1).
  { clear q Q Hq. induction l as [|i l IH]; intros p P q Q Hi Hp Hq; [done|]. apply Forall_cons in Hi as [Hi Hls]. cbn [foldl].
    unfold scalar_step, ladder_step. cbn [fst snd]. rewrite scalar_bit by done. destruct (Z.testbit (le_dec s) (Z.of_nat i)); cbn [Z.b2z].
    - rewrite (cswap_spec p q P Q) by (done || by right). change (1 =? 1) with true. cbn beta iota zeta.
      rewrite (cswap_spec _ _ (padd Q Q) (padd P Q)) by (by apply ed_add_spec || by right). change (1 =? 1) with true. cbn beta iota. apply IH; [done|by apply ed_add_spec..].
    - rewrite (cswap_spec p q P Q) by (done || by left). change (0 =? 1) with false. cbn beta iota zeta.
      rewrite (cswap_spec _ _ (padd P P) (padd Q P)) by (by apply ed_add_spec || by left). change (0 =? 1) with false. cbn beta iota. apply IH; [done|by apply ed_add_spec..]. }
  apply Hgen; [|apply rep_neutral|done]. apply Forall_reverse, Forall_forall. intros i Hi%elem_of_seq. lia.
Qed.

Lemma le_enc_mod' n z : le_enc n (z mod 256 ^ Z.of_nat n) = le_enc n z.
Proof.
  revert z. induction n as [|n IH]; intros z; [done|]. cbn [le_enc]. rewrite Nat2Z.inj_succ, Z.pow_succ_r by lia. f_equal.
  - rewrite Z.rem_mul_r by lia. rewrite Z.mul_comm, Z_mod_plus_full. apply Zmod_mod.
  - rewrite <-(IH (z / 256)). f_equal. rewrite Z.rem_mul_r by lia. rewrite Z.mul_comm, Z.div_add by lia. by rewrite (Z.div_small (z mod 256)) by (apply Z.mod_pos_bound; lia).
Qed.
Lemma le_dec_app' a b : le_dec (a ++ b) = le_dec a + 256 ^ Z.of_nat (length a) * le_dec b.
Proof.
  induction a as [|x a IH]; [cbn [app le_dec length]; rewrite Z.pow_0_r; lia|]. cbn [app le_dec length]. rewrite IH, Nat2Z.inj_succ, Z.pow_succ_r by lia. lia.
Qed.

Lemma scalarbase_spec s : wf_bytes s -> length s = 32%nat -> rep_pt (scalarbase s) (pmul (le_dec s) base).
Proof.
  intros Hs Hl. unfold scalarbase. apply scalarmult_spec; [|done|done].
  assert (HX : rep ed_X (fval ed_X)) by (apply repb_const; [done|digits]). assert (HY : rep ed_Y (fval ed_Y)) by (apply repb_const; [done|digits]).
  split; cbn [p0 p1 p2 p3 px py pz pt base]; [done|done|apply rep_gf1|]. apply rep_mod. by apply (repb_mul 65574 65574).
Qed.

(** The top bit of the last byte. *)
Lemma le_enc_top y b : 0 <= y < 2 ^ 255 -> b = 0 \/ b = 1 -> <[31%nat := Z.lxor (le_enc 32 y !!! 31%nat) (u8 (Z.shiftl b 7))]> (le_enc 32 y) = le_enc 32 (y + 2 ^ 255 * b).
Proof.
  intros Hy Hb. change 32%nat with (31 + 1)%nat. rewrite !le_enc_app. change (256 ^ Z.of_nat 31) with (2 ^ 248). assert (E1 : forall z, le_enc 1 z = [z mod 256]) by done. rewrite !E1.
  rewrite insert_app_r_alt, lookup_total_app_r by (rewrite length_le_enc; lia). rewrite length_le_enc, Nat.sub_diag.
  assert (E31 : le_enc 31 (y + 2 ^ 255 * b) = le_enc 31 y).
  { rewrite <-(le_enc_mod' 31 y), <-(le_enc_mod' 31 (y + _)). f_equal. change (256 ^ Z.of_nat 31) with (2 ^ 248). replace (2 ^ 255 * b) with (128 * b * 2 ^ 248) by lia. apply Z_mod_plus_full. }
  rewrite E31. f_equal. change (<[0%nat := ?v]> [?x]) with [v]. change ([?x] !!! 0%nat) with x. f_equal.
  replace (y + 2 ^ 255 * b) with (y + 128 * b * 2 ^ 248) by lia. rewrite Z.div_add by lia. assert (Ht : 0 <= y / 2 ^ 248 < 128) by (Z.div_mod_to_equations; lia).
  set (t := y / 2 ^ 248) in *. rewrite !Z.mod_small by (destruct Hb as [-> | ->]; lia). destruct Hb as [-> | ->]; [change (u8 (Z.shiftl 0 7)) with 0; rewrite Z.lxor_0_r; lia|].
  change (u8 (Z.shiftl 1 7)) with (2 ^ 7). rewrite <-Z.add_nocarry_lxor; [lia|]. change (2 ^ 7) with (1 * 2 ^ 7). by apply land_shift_zero.
Qed.

Lemma ed_pack_spec p P : rep_pt p P -> ed_pack p = encode P.
Proof.
  intros [X Y Z T]. unfold ed_pack, encode. pose proof (rep_inv25519 _ _ Z) as Ri.
  pose proof (repb_mul _ _ _ _ _ _ X Ri ltac:(lia) ltac:(lia)) as Rx. pose proof (repb_mul _ _ _ _ _ _ Y Ri ltac:(lia) ltac:(lia)) as Ry.
  rewrite (rep_pack _ _ _ Ry), (rep_par _ _ _ Rx) by lia. apply le_enc_top.
  - pose proof (Z.mod_pos_bound (py P * pz P ^ (gf_p - 2)) gf_p ltac:(done)). assert (gf_p < 2 ^ 255) by done. lia.
  - pose proof (Z.mod_pos_bound ((px P * pz P ^ (gf_p - 2)) mod gf_p) 2). lia.
Qed.

(** ** The public key *)

Lemma neq_root chk num x y : rep chk x -> repb 131148 num y -> (neq25519 chk num =? 0) = bool_decide (x mod gf_p = y mod gf_p).
Proof. intros Hx Hy. rewrite (rep_neq _ _ _ _ _ _ Hx Hy) by lia. by case_bool_decide. Qed.

Lemma sign_bit p : wf_bytes p -> length p = 32%nat -> Z.shiftr (p !!! 31%nat) 7 = le_dec p / 2 ^ 255.
Proof.
  intros Hp Hl. assert (Hd : exists lo n, le_dec p = lo + 2 ^ 248 * n /\ 0 <= lo < 2 ^ 248 /\ p !!! 31%nat = n).
  { rewrite <-(take_drop 31 p). assert (Hlt : length (take 31 p) = 31%nat) by (rewrite length_take; lia). destruct (drop 31 p) as [|n [|? ?]] eqn:E; apply (f_equal length) in E as E'; rewrite length_drop, Hl in E'; try done.
    exists (le_dec (take 31 p)), n. rewrite lookup_total_app_r, Hlt by lia. split_and!; [|apply le_dec_bound; by apply Forall_take| |done].
    - rewrite le_dec_app', Hlt. cbn [le_dec]. change (256 ^ Z.of_nat 31) with (2 ^ 248). lia.
    - pose proof (le_dec_bound (take 31 p) (Forall_take _ _ _ Hp)) as Hb. rewrite Hlt in Hb. exact (proj2 Hb). }
  destruct Hd as (lo & n & -> & Hlo & ->). rewrite Z.shiftr_div_pow2 by lia. change (2 ^ 255) with (2 ^ 248 * 2 ^ 7). rewrite <-Z.div_div by lia. f_equal. apply (Z.div_unique _ _ _ lo); lia.
Qed.

Lemma zero_limbs : repb 0 gf0 0.
Proof. split; [|done]. split; [done|]. unfold gf0. apply Forall_replicate. lia. Qed.

#[local] Opaque gf_mul gf_sq gf_add gf_sub pow2523 neq25519 par25519 unpack25519 gf0 gf1 ed_D ed_I.

Lemma unpackneg_spec p : wf_bytes p -> length p = 32%nat ->
  match decode_neg p with Some P => exists q, unpackneg p = Some q /\ rep_pt q P | None => unpackneg p = None end.
Proof.
  intros Hp Hl. destruct (unpack25519_spec p Hl Hp) as (Hlu & Hdu & Hvu). pose proof (repb_const _ Hlu Hdu) as Ry. rewrite Hvu in Ry. unfold unpackneg, decode_neg, root.
  set (y := le_dec p mod 2 ^ 255) in *. set (r1 := unpack25519 p) in *. unfold set25519.
  pose proof (repb_sq _ _ _ Ry ltac:(lia)) as Ry2. set (sq := gf_sq r1) in *.
  pose proof (repb_sub _ _ _ _ _ _ Ry2 rep_gf1 ltac:(lia) ltac:(lia)) as Ru. set (num := gf_sub sq gf1) in *.
  pose proof (repb_add _ _ _ _ _ _ rep_gf1 (repb_mul _ _ _ _ _ _ Ry2 rep_D ltac:(lia) ltac:(lia)) ltac:(lia) ltac:(lia)) as Rv. set (den := gf_add gf1 _) in *.
  replace (y * y - 1) with (y ^ 2 - 1) in Ru by lia. replace (1 + y * y * d_coeff) with (d_coeff * y ^ 2 + 1) in Rv by ring. change (65574 + 65574) with 131148 in Ru, Rv.
  set (u := y ^ 2 - 1) in *. set (v := d_coeff * y ^ 2 + 1) in *.
  pose proof (repb_sq _ _ _ Rv ltac:(lia)) as R2. set (den2 := gf_sq den) in *.
  pose proof (repb_sq _ _ _ R2 ltac:(lia)) as R4. set (den4 := gf_sq den2) in *.
  pose proof (repb_mul _ _ _ _ _ _ R4 R2 ltac:(lia) ltac:(lia)) as R6. set (den6 := gf_mul den4 den2) in *.
  pose proof (repb_mul _ _ _ _ _ _ (repb_mul _ _ _ _ _ _ R6 Ru ltac:(lia) ltac:(lia)) Rv ltac:(lia) ltac:(lia)) as R7.
  pose proof (rep_pow2523 _ _ R7) as Rw. set (w := pow2523 _) in *.
  replace (v * v * (v * v) * (v * v) * u * v) with (u * v ^ 7) in Rw by ring. set (e := (gf_p - 5) / 8) in *.
  pose proof (repb_mul _ _ _ _ _ _ (repb_mul _ _ _ _ _ _ (repb_mul _ _ _ _ _ _ (repb_mul _ _ _ _ _ _ Rw Ru ltac:(lia) ltac:(lia)) Rv ltac:(lia) ltac:(lia)) Rv ltac:(lia) ltac:(lia)) Rv ltac:(lia) ltac:(lia)) as Rx.
  set (r0 := gf_mul _ den) in Rx. set (x := u * v ^ 3 * (u * v ^ 7) ^ e).
  assert (Rx' : rep r0 x) by (apply (repb_eqp _ _ _ _ Rx); unfold x; apply eq_subrelation; [typeclasses eauto|ring]). clear Rx. fold r0.
  assert (Hchk : forall r z, rep r z -> rep (gf_mul (gf_sq r) den) (v * z ^ 2)).
  { intros r z Hr. eapply repb_eqp; [exact (repb_mul _ _ _ _ _ _ (repb_sq _ _ _ Hr ltac:(lia)) Rv ltac:(lia) ltac:(lia))|]. apply eq_subrelation; [typeclasses eauto|ring]. }
  rewrite (neq_root _ _ _ _ (Hchk _ _ Rx') Ru).
  assert (Rr : rep (if negb (bool_decide (v * x ^ 2 mod gf_p = u mod gf_p)) then gf_mul r0 ed_I else r0) (if bool_decide (v * x ^ 2 mod gf_p = u mod gf_p) then x else x * sqrt_m1)).
  { case_bool_decide; cbn [negb]; [done|]. exact (repb_mul _ _ _ _ _ _ Rx' rep_I ltac:(lia) ltac:(lia)). }
  set (r := if negb _ then gf_mul r0 ed_I else r0) in *. set (z := if bool_decide _ then x else _) in *. rewrite (neq_root _ _ _ _ (Hchk _ _ Rr) Ru).
  case_bool_decide; cbn [negb]; [|reflexivity]. eexists. split; [reflexivity|]. rewrite (rep_par _ _ _ Rr), sign_bit by (done || lia).
  destruct (_ =? _).
  - pose proof (repb_sub _ _ _ _ _ _ zero_limbs (rep_mod _ _ _ Rr) ltac:(lia) ltac:(lia)) as Rn. rewrite Z.sub_0_l in Rn. change (0 + 65574) with 65574 in Rn.
    split; cbn [p0 p1 p2 p3 px py pz pt]; [exact Rn|done|apply rep_gf1|exact (repb_mul _ _ _ _ _ _ Rn Ry ltac:(lia) ltac:(lia))].
  - split; cbn [p0 p1 p2 p3 px py pz pt]; [by apply rep_mod|done|apply rep_gf1|exact (repb_mul _ _ _ _ _ _ (rep_mod _ _ _ Rr) Ry ltac:(lia) ltac:(lia))].
Qed.

(** ** Reduction of scalars *)

Lemma le_dec_insert l i x : (i < length l)%nat -> le_dec (<[i := x]> l) = le_dec l + (x - l !!! i) * 256 ^ Z.of_nat i.
Proof.
  revert i. induction l as [|y l IH]; intros [|i] Hi; cbn [length] in Hi; try lia.
  - cbn. lia.
  - change (<[S i := x]> (y :: l)) with (y :: <[i := x]> l). cbn [le_dec]. rewrite IH by lia. change ((y :: l) !!! S i) with (l !!! i).
    rewrite Nat2Z.inj_succ, Z.pow_succ_r by lia. lia.
Qed.
Lemma le_dec_take l k : (k < length l)%nat -> le_dec (take (S k) l) = le_dec (take k l) + l !!! k * 256 ^ Z.of_nat k.
Proof.
  intros Hk. destruct (lookup_lt_is_Some_2 l k Hk) as [x Hx]. rewrite (take_S_r _ _ _ Hx), le_dec_app', length_take, (list_lookup_total_correct _ _ _ Hx). cbn [le_dec].
  rewrite Nat.min_l by lia. lia.
Qed.
Lemma le_dec_zeros_above l n : (n <= length l)%nat -> (forall j, (n <= j < length l)%nat -> l !!! j = 0) -> le_dec l = le_dec (take n l).
Proof.
  intros Hn Hz. rewrite <-(take_drop n l) at 1. rewrite le_dec_app'. replace (le_dec (drop n l)) with 0; [lia|].
  assert (Hg : forall l, (forall j, (j < length l)%nat -> l !!! j = 0) -> le_dec l = 0).
  { clear. induction l as [|x l IH]; intros Hz; [done|]. cbn [le_dec]. rewrite IH by (intros j Hj; apply (Hz (S j)); cbn; lia). pose proof (Hz 0%nat ltac:(cbn; lia)) as E. cbn in E. lia. }
  symmetry. apply Hg. intros j. rewrite length_drop. intros Hj. rewrite lookup_total_drop. apply Hz. lia.
Qed.

Lemma ell_value : le_dec ed_L = ell.
Proof. by vm_compute. Qed.
Lemma ell_digit k : (k < 32)%nat -> 0 <= ed_L !!! k <= 249.
Proof. intros Hk. do 32 (destruct k as [|k]; [cbn; lia|]). lia. Qed.
Lemma ell_gap k : (16 <= k < 31)%nat -> ed_L !!! k = 0.
Proof. intros Hk. do 31 (destruct k as [|k]; [cbn; lia|]). lia. Qed.

(** *** Elimination of the upper digits *)

Definition carry_bound (k : nat) : Z := if (k <=? 16)%nat then 6500 else if (k =? 17)%nat then 28 else 2.

Lemma elim_loop x i : length x = 64%nat -> (32 <= i < 64)%nat -> (forall j, (j <= i)%nat -> - 257 <= x !!! j <= 257) ->
  forall k, (k <= 20)%nat -> let '(x', c) := foldl (elim_step i) (x, 0) (seq (i - 32) k) in
    length x' = 64%nat /\ (forall j, (j < i - 32 \/ i - 32 + k <= j)%nat -> x' !!! j = x !!! j) /\
    (forall j, (i - 32 <= j < i - 32 + k)%nat -> -128 <= x' !!! j <= 127) /\ Z.abs c <= carry_bound k /\
    le_dec x' + c * 256 ^ Z.of_nat (i - 32 + k) = le_dec x - 16 * x !!! i * 256 ^ Z.of_nat (i - 32) * le_dec (take k ed_L).
Proof.
  intros Hl Hi Hx. induction k as [|k IH]; intros Hk.
  { cbn [seq foldl]. split_and!; [done|done|lia|cbn; lia|]. change (le_dec (take 0 ed_L)) with 0. lia. }
  rewrite seq_S, foldl_app. specialize (IH ltac:(lia)). destruct (foldl _ _ (seq _ k)) as [x' c]. destruct IH as (Hl' & Hout & Hin & Hc & Hv). cbn [foldl].
  unfold elim_step. replace (i - 32 + k - (i - 32))%nat with k by lia. set (j := (i - 32 + k)%nat) in *.
  rewrite (Hout i), (Hout j) by lia. pose proof (Hx j ltac:(lia)) as Hj. pose proof (Hx i ltac:(lia)) as Hh. pose proof (ell_digit k ltac:(lia)) as Hd.
  set (h := x !!! i) in *. set (d := ed_L !!! k) in *.
  assert (Hc' : carry_bound k <= 6500) by (unfold carry_bound; destruct (k <=? 16)%nat, (k =? 17)%nat; lia).
  assert (Hhd : Z.abs (h * d) <= 257 * 249) by (rewrite Z.abs_mul; apply Z.mul_le_mono_nonneg; lia).
  set (v := x !!! j + (c - 16 * h * d)). assert (Hvb : Z.abs v <= 1100000) by (unfold v; lia).
  rewrite (s64_id v), (s64_id (v + 128)) by lia. rewrite Z.shiftr_div_pow2, Z.shiftl_mul_pow2 by lia. change (2 ^ 8) with 256.
  set (c' := (v + 128) / 256). pose proof (Z.div_mod (v + 128) 256 ltac:(lia)) as Hdm. pose proof (Z.mod_pos_bound (v + 128) 256 ltac:(lia)) as Hmb. fold c' in Hdm. rewrite s64_id by lia.
  split_and!.
  - by rewrite length_insert.
  - intros j' Hj'. rewrite list_lookup_total_insert_ne by lia. apply Hout. lia.
  - intros j' Hj'. destruct (decide (j' = j)) as [->|Hne]; [rewrite list_lookup_total_insert_eq by lia; lia|]. rewrite list_lookup_total_insert_ne by lia. apply Hin. lia.
  - unfold carry_bound in Hc |- *. destruct (Nat.leb_spec (S k) 16) as [|Hk16]; [lia|].
    assert (d = 0) as Hd0 by (unfold d; apply ell_gap; lia). assert (Hv0 : v = x !!! j + c) by (unfold v; rewrite Hd0; lia).
    destruct (Nat.eqb_spec (S k) 17) as [E17|E17]; destruct (Nat.leb_spec k 16), (Nat.eqb_spec k 17); lia.
  - rewrite le_dec_insert by lia. rewrite (Hout j) by lia. rewrite (le_dec_take ed_L k) by (cbn; lia). fold d.
    replace (Z.of_nat (i - 32 + S k)) with (Z.succ (Z.of_nat j)) by lia. rewrite Z.pow_succ_r by lia.
    replace (256 ^ Z.of_nat j) with (256 ^ Z.of_nat (i - 32) * 256 ^ Z.of_nat k) in * by (unfold j; rewrite Nat2Z.inj_add, Z.pow_add_r; lia). unfold v. lia.
Qed.

(** The digits while the loop runs down from 63: zero above [i], balanced below,
    and not yet touched further down. *)
Definition elim_inv (x0 x : list Z) (i : nat) : Prop :=
  length x = 64%nat /\ (forall j, (i < j < 64)%nat -> x !!! j = 0) /\ (forall j, (j <= i)%nat -> - 257 <= x !!! j <= 257) /\
  ((i < 63)%nat -> forall j, (i - 31 <= j <= i - 12)%nat -> -128 <= x !!! j <= 127) /\
  ((i < 63)%nat -> forall j, (i - 31 <= j <= i)%nat -> (j <= 50)%nat -> - 130 <= x !!! j <= 130) /\
  (forall j, (i = 63 \/ j < i - 31)%nat -> (j < 64)%nat -> 0 <= x !!! j <= 255) /\
  (le_dec x) mod ell = (le_dec x0) mod ell.

Lemma elim_digit_inv x0 x i : (32 <= i <= 63)%nat -> elim_inv x0 x i -> elim_inv x0 (elim_digit x i) (i - 1).
Proof.
  intros Hi (Hl & Hz & Hb & Hbal & Hsm & Hor & Hv). unfold elim_digit. pose proof (elim_loop x i Hl ltac:(lia) Hb 20 ltac:(lia)) as Hloop.
  destruct (foldl _ _ _) as [x' c]. destruct Hloop as (Hl' & Hout & Hin & Hc & Hval). change (carry_bound 20) with 2 in Hc.
  assert (E12 : x' !!! (i - 12)%nat = x !!! (i - 12)%nat) by (apply Hout; lia). assert (H12 : - 257 <= x !!! (i - 12)%nat <= 257) by (apply Hb; lia).
  rewrite E12, s64_id by lia.
  set (y := <[i := 0]> (<[(i - 12)%nat := x !!! (i - 12)%nat + c]> x')).
  assert (Hy : forall j, (j < 64)%nat -> y !!! j = if decide (j = i) then 0 else if decide (j = i - 12)%nat then x !!! (i - 12)%nat + c else x' !!! j).
  { intros j Hj. unfold y. destruct (decide (j = i)) as [->|]; [rewrite list_lookup_total_insert_eq by (rewrite length_insert; lia); done|]. rewrite list_lookup_total_insert_ne by lia.
    destruct (decide _) as [->|]; [by rewrite list_lookup_total_insert_eq by lia|by rewrite list_lookup_total_insert_ne by lia]. }
  assert (Hbal' : forall j, (i - 32 <= j <= i - 13)%nat -> -128 <= y !!! j <= 127) by (intros j Hj; rewrite Hy by lia; rewrite !decide_False by lia; apply Hin; lia).
  assert (Hsmall : forall j, (i - 32 <= j <= i - 1)%nat -> (j <= 50)%nat -> - 130 <= y !!! j <= 130).
  { intros j Hj Hj50. rewrite Hy by lia. rewrite decide_False by lia. case_decide as E.
    - assert (-128 <= x !!! (i - 12)%nat <= 127) by (apply Hbal; lia). lia.
    - destruct (decide (j < i - 12)%nat); [pose proof (Hin j ltac:(lia)); lia|]. rewrite Hout by lia. apply Hsm; lia. }
  split_and!.
  - unfold y. by rewrite !length_insert.
  - intros j Hj. rewrite Hy by lia. case_decide; [done|]. rewrite decide_False by lia. rewrite Hout by lia. apply Hz. lia.
  - intros j Hj. destruct (decide (i - 32 <= j <= 50)%nat); [pose proof (Hsmall j ltac:(lia) ltac:(lia)); lia|]. rewrite Hy by lia. rewrite decide_False by lia.
    case_decide as E; [|destruct (decide (i - 32 <= j < i - 12)%nat); [pose proof (Hin j ltac:(lia)); lia|rewrite Hout by lia; apply Hb; lia]].
    assert (0 <= x !!! (i - 12)%nat <= 255) by (apply Hor; lia). lia.
  - intros _ j Hj. apply Hbal'. lia.
  - intros _ j Hj Hj50. apply Hsmall; lia.
  - intros j Hj Hj64. rewrite Hy by lia. rewrite !decide_False by lia. rewrite Hout by lia. apply Hor; lia.
  - rewrite <-Hv. assert (Ey : le_dec y = le_dec x - 16 * x !!! i * 256 ^ Z.of_nat (i - 32) * ell); [|rewrite Ey; rewrite <-(Z_mod_plus_full _ (16 * x !!! i * 256 ^ Z.of_nat (i - 32))); f_equal; lia].
    unfold y. rewrite le_dec_insert by (rewrite length_insert; lia). rewrite list_lookup_total_insert_ne by lia. rewrite (Hout i), le_dec_insert, E12 by lia.
    replace (i - 32 + 20)%nat with (i - 12)%nat in Hval by lia. rewrite <-ell_value. change (le_dec ed_L) with (le_dec (take 20 ed_L) + 16 * 256 ^ 31).
    replace (256 ^ Z.of_nat i) with (256 ^ Z.of_nat (i - 32) * (256 * 256 ^ 31)); [lia|].
    replace (Z.of_nat i) with (Z.of_nat (i - 32) + 32) by lia. rewrite Z.pow_add_r by lia. done.
Qed.

Lemma elim_all x0 : length x0 = 64%nat -> wf_bytes x0 -> elim_inv x0 (foldl elim_digit x0 (reverse (seq 32 32))) 31.
Proof.
  intros Hl Hw. assert (Hd : forall j, (j < 64)%nat -> 0 <= x0 !!! j <= 255).
  { intros j Hj. unfold wf_bytes in Hw. rewrite Forall_lookup in Hw. assert (H : is_u8 (x0 !!! j)) by (apply (Hw j); apply list_lookup_lookup_total_lt; lia). unfold is_u8 in H. lia. }
  assert (H0 : elim_inv x0 x0 63).
  { split_and!; [done|intros j Hj; lia|intros j Hj; specialize (Hd j ltac:(lia)); lia|lia|lia|intros j _ Hj; by apply Hd|done]. }
  enough (Hgen : forall k, (k <= 32)%nat -> forall x, elim_inv x0 x (31 + k) -> elim_inv x0 (foldl elim_digit x (reverse (seq 32 k))) 31) by (by apply (Hgen 32%nat)).
  induction k as [|k IH]; intros Hk x Hx; [done|]. rewrite seq_S, reverse_app. cbn [reverse rev_append app foldl]. apply IH; [lia|].
  pose proof (elim_digit_inv x0 x (31 + S k) ltac:(lia) Hx) as H. by replace (31 + S k - 1)%nat with (31 + k)%nat in H by lia.
Qed.

(** *** The lower digits *)

Lemma low_loop x : length x = 64%nat -> (forall j, (j < 32)%nat -> - 130 <= x !!! j <= 130) ->
  let q := x !!! 31%nat / 16 in
  forall k, (k <= 32)%nat -> let '(x', c) := foldl low_step (x, 0) (seq 0 k) in
    length x' = 64%nat /\ (forall j, (k <= j < 64)%nat -> x' !!! j = x !!! j) /\ (forall j, (j < k)%nat -> 0 <= x' !!! j <= 255) /\ Z.abs c <= 20 /\
    le_dec (take k x') + c * 256 ^ Z.of_nat k = le_dec (take k x) - q * le_dec (take k ed_L).
Proof.
  intros Hl Hx q. assert (Hq : - 9 <= q <= 8) by (unfold q; pose proof (Hx 31%nat ltac:(lia)); Z.div_mod_to_equations; lia).
  induction k as [|k IH]; intros Hk; [cbn [seq foldl]; split_and!; [done|done|lia|lia|cbn; lia]|].
  rewrite seq_S, foldl_app. specialize (IH ltac:(lia)). destruct (foldl _ _ (seq _ k)) as [x' c]. destruct IH as (Hl' & Hout & Hin & Hc & Hv). cbn [foldl Nat.add].
  unfold low_step. rewrite (Hout 31%nat), (Hout k) by lia. rewrite (Z.shiftr_div_pow2 _ 4) by lia. change (2 ^ 4) with 16. fold q.
  pose proof (Hx k ltac:(lia)) as Hj. pose proof (ell_digit k ltac:(lia)) as Hd. set (d := ed_L !!! k) in *.
  set (v := x !!! k + (c - q * d)). assert (Hvb : Z.abs v <= 2500) by (unfold v; nia). rewrite (s64_id v) by lia.
  change (Z.land v 255) with (Z.land v (Z.ones 8)). rewrite Z.land_ones, Z.shiftr_div_pow2 by lia. change (2 ^ 8) with 256.
  pose proof (Z.div_mod v 256 ltac:(lia)) as Hdm. pose proof (Z.mod_pos_bound v 256 ltac:(lia)) as Hmb.
  split_and!.
  - by rewrite length_insert.
  - intros j Hjk. rewrite list_lookup_total_insert_ne by lia. apply Hout. lia.
  - intros j Hjk. destruct (decide (j = k)) as [->|]; [rewrite list_lookup_total_insert_eq by lia; lia|]. rewrite list_lookup_total_insert_ne by lia. apply Hin. lia.
  - lia.
  - rewrite !le_dec_take by (rewrite ?length_insert, ?Hl; cbn; lia). rewrite list_lookup_total_insert_eq, take_insert_ge by lia. fold d.
    rewrite Nat2Z.inj_succ, Z.pow_succ_r by lia. unfold v in *. lia.
Qed.

Lemma fix_loop carry x : length x = 64%nat -> (forall j, (j < 32)%nat -> 0 <= x !!! j <= 255) -> Z.abs carry <= 20 ->
  forall k, (k <= 32)%nat -> let x' := foldl (fix_step carry) x (seq 0 k) in
    length x' = 64%nat /\ (forall j, (k <= j < 64)%nat -> x' !!! j = x !!! j) /\ (forall j, (j < k)%nat -> Z.abs (x' !!! j) <= 6000) /\
    le_dec (take k x') = le_dec (take k x) - carry * le_dec (take k ed_L).
Proof.
  intros Hl Hx Hc. induction k as [|k IH]; intros Hk; cbn zeta; [cbn [seq foldl]; split_and!; [done|done|lia|cbn; lia]|].
  rewrite seq_S, foldl_app. specialize (IH ltac:(lia)). cbn zeta in IH. set (x' := foldl _ _ (seq _ k)) in *. destruct IH as (Hl' & Hout & Hin & Hv). cbn [foldl Nat.add].
  unfold fix_step. rewrite (Hout k) by lia. pose proof (Hx k ltac:(lia)) as Hj. pose proof (ell_digit k ltac:(lia)) as Hd. set (d := ed_L !!! k) in *.
  assert (Hcd : Z.abs (carry * d) <= 20 * 249) by (rewrite Z.abs_mul; apply Z.mul_le_mono_nonneg; lia). rewrite s64_id by lia.
  split_and!.
  - by rewrite length_insert.
  - intros j Hjk. rewrite list_lookup_total_insert_ne by lia. apply Hout. lia.
  - intros j Hjk. destruct (decide (j = k)) as [->|]; [rewrite list_lookup_total_insert_eq by lia; lia|]. rewrite list_lookup_total_insert_ne by lia. apply Hin. lia.
  - rewrite !le_dec_take by (rewrite ?length_insert, ?Hl; cbn; lia). rewrite list_lookup_total_insert_eq, take_insert_ge by lia. fold d. lia.
Qed.

Lemma out_loop x : length x = 64%nat -> (forall j, (j < 32)%nat -> Z.abs (x !!! j) <= 6000) -> Z.abs (x !!! 32%nat) <= 6000 ->
  forall k, (k <= 32)%nat -> let '(x', r) := foldl out_step (x, []) (seq 0 k) in
    length x' = 64%nat /\ (forall j, (k < j < 64)%nat -> x' !!! j = x !!! j) /\ Z.abs (x' !!! k - x !!! k) <= 30 /\ length r = k /\ wf_bytes r /\
    le_dec r + (x' !!! k - x !!! k) * 256 ^ Z.of_nat k = le_dec (take k x).
Proof.
  intros Hl Hx H32. induction k as [|k IH]; intros Hk; [cbn [seq foldl]; split_and!; [done|done|lia|done|by apply Forall_nil|rewrite Z.sub_diag; done]|].
  rewrite seq_S, foldl_app. specialize (IH ltac:(lia)). destruct (foldl _ _ (seq _ k)) as [x' r]. destruct IH as (Hl' & Hout & Hd & Hlr & Hw & Hv). cbn [foldl Nat.add].
  unfold out_step. rewrite (Hout (S k)) by lia. pose proof (Hx k ltac:(lia)) as Hk0. assert (HS : Z.abs (x !!! S k) <= 6000) by (destruct (decide (S k = 32)%nat) as [->|]; [done|apply Hx; lia]).
  set (v := x' !!! k) in *. assert (Hvb : Z.abs v <= 6030) by lia. rewrite Z.shiftr_div_pow2 by lia. change (2 ^ 8) with 256. change 255 with (Z.ones 8). rewrite Z.land_ones by lia. change (2 ^ 8) with 256.
  pose proof (Z.div_mod v 256 ltac:(lia)) as Hdm. pose proof (Z.mod_pos_bound v 256 ltac:(lia)) as Hmb. rewrite s64_id by lia.
  split_and!.
  - by rewrite length_insert.
  - intros j Hjk. rewrite list_lookup_total_insert_ne by lia. apply Hout. lia.
  - rewrite list_lookup_total_insert_eq by lia. lia.
  - rewrite length_app. cbn. lia.
  - apply Forall_app. split; [done|]. apply Forall_singleton. unfold is_u8. lia.
  - rewrite list_lookup_total_insert_eq by lia. rewrite le_dec_take by lia. rewrite le_dec_app', Hlr. cbn [le_dec]. rewrite Nat2Z.inj_succ, Z.pow_succ_r by lia. lia.
Qed.

Lemma le_dec_abs b l : Forall (fun x => - b <= x <= b) l -> 255 * Z.abs (le_dec l) <= b * (256 ^ Z.of_nat (length l) - 1).
Proof.
  induction 1 as [|x l Hx Hl IH]; [cbn; lia|]. cbn [le_dec length]. rewrite Nat2Z.inj_succ, Z.pow_succ_r by lia. lia.
Qed.

Lemma forall_take (P : Z -> Prop) l k : (k <= length l)%nat -> (forall j, (j < k)%nat -> P (l !!! j)) -> Forall P (take k l).
Proof.
  intros Hk HP. apply Forall_lookup. intros j x [Hj Hlt]%lookup_take_Some. apply list_lookup_total_correct in Hj as <-. by apply HP.
Qed.

(** After the elimination the value is within one multiple of the order. *)
Lemma reduced_range V x31 low q : V = low + x31 * 2 ^ 248 -> 255 * Z.abs low <= 130 * (2 ^ 248 - 1) -> - 130 <= x31 <= 130 -> q = x31 / 16 -> - ell < V - q * ell < 2 ^ 252.
Proof.
  intros -> Hlow Hx ->. pose proof (Z.div_mod x31 16 ltac:(lia)) as Hd. pose proof (Z.mod_pos_bound x31 16 ltac:(lia)) as Hm. set (q := x31 / 16) in *.
  assert (Hq : - 9 <= q <= 8) by lia. unfold ell. lia.
Qed.

Lemma modL_spec x : length x = 64%nat -> wf_bytes x -> modL x = le_enc 32 (le_dec x mod ell).
Proof.
  intros Hl Hw. unfold modL. destruct (elim_all x Hl Hw) as (Hl1 & Hz & _ & _ & Hsm & _ & Hv). set (x1 := foldl elim_digit x _) in *.
  assert (Hb : forall j, (j < 32)%nat -> - 130 <= x1 !!! j <= 130) by (intros j Hj; apply Hsm; lia).
  pose proof (low_loop x1 Hl1 Hb 32 ltac:(lia)) as H2. destruct (foldl low_step _ _) as [x2 c]. destruct H2 as (Hl2 & Ho2 & Hd2 & Hc & Hv2).
  destruct (fix_loop c x2 Hl2 (fun j Hj => Hd2 j Hj) Hc 32 ltac:(lia)) as (Hl3 & Ho3 & Hd3 & Hv3). set (x3 := foldl (fix_step c) _ _) in *.
  assert (E32 : x3 !!! 32%nat = 0) by (rewrite Ho3, Ho2, Hz by lia; done).
  pose proof (out_loop x3 Hl3 Hd3 ltac:(rewrite E32; lia) 32 ltac:(lia)) as H4. destruct (foldl out_step _ _) as [x4 r]. destruct H4 as (_ & _ & _ & Hlr & Hwr & Hv4). cbn [snd].
  set (q := x1 !!! 31%nat / 16) in *. rewrite (take_ge ed_L) in Hv2, Hv3 by (cbn; lia). rewrite ell_value in Hv2, Hv3. change (256 ^ Z.of_nat 32) with (2 ^ 256) in *.
  assert (EV : le_dec x1 = le_dec (take 32 x1)) by (apply le_dec_zeros_above; [lia|]; intros j Hj; apply Hz; lia).
  assert (Hr : - ell < le_dec (take 32 x1) - q * ell < 2 ^ 252).
  { apply (reduced_range _ (x1 !!! 31%nat) (le_dec (take 31 x1))); [apply (le_dec_take x1 31); lia| |apply Hb; lia|done].
    pose proof (le_dec_abs 130 (take 31 x1) (forall_take _ x1 31 ltac:(lia) (fun j Hj => Hb j ltac:(lia)))) as Ha. rewrite length_take, Hl1 in Ha. exact Ha. }
  assert (H2b : 0 <= le_dec (take 32 x2) < 2 ^ 256).
  { assert (Hw2 : wf_bytes (take 32 x2)) by (apply forall_take; [lia|]; intros j Hj; specialize (Hd2 j Hj); unfold is_u8; lia). apply le_dec_bound in Hw2. rewrite length_take, Hl2 in Hw2. exact Hw2. }
  pose proof (le_dec_bound r Hwr) as Hrb. rewrite Hlr in Hrb. change (256 ^ Z.of_nat 32) with (2 ^ 256) in Hrb.
  assert (Hell : 2 ^ 252 < ell < 2 ^ 253) by (split; vm_compute; reflexivity).
  assert (Hres : le_dec r = le_dec x mod ell).
  { rewrite <-Hv, EV. set (V := le_dec (take 32 x1)) in *. set (e := x4 !!! 32%nat - x3 !!! 32%nat) in *. assert (Hc01 : c = 0 \/ c = -1) by lia.
    destruct Hc01 as [-> | ->]; [apply (Z.mod_unique _ _ q)|apply (Z.mod_unique _ _ (q - 1))]; lia. }
  rewrite <-Hres, <-Hlr. symmetry. by apply le_enc_dec.
Qed.

Lemma ed_reduce_spec h : length h = 64%nat -> wf_bytes h -> exists r, ed_reduce h = r ++ zeros 32 /\ length r = 32%nat /\ wf_bytes r /\ le_dec r = le_dec h mod ell.
Proof.
  intros Hl Hw. unfold ed_reduce. rewrite take_ge, modL_spec by (done || lia). eexists. split; [done|]. split; [apply length_le_enc|]. split; [apply wf_le_enc|].
  apply le_dec_enc. pose proof (Z.mod_pos_bound (le_dec h) ell ltac:(done)). assert (ell < 256 ^ Z.of_nat 32) by (vm_compute; reflexivity). lia.
Qed.

(** Only the first 256 bits of a scalar are used. *)
Lemma scalar_loop_prefix s t l : length s = 32%nat -> Forall (fun i => (i < 256)%nat) l -> forall p, foldl (scalar_step (s ++ t)) p l = foldl (scalar_step s) p l.
Proof.
  intros Hl. induction l as [|i l IH]; intros Hi p; cbn [foldl]; [reflexivity|]. apply Forall_cons in Hi as [Hi Hil]. rewrite (IH Hil).
  assert (E : scalar_step (s ++ t) p i = scalar_step s p i); [|by rewrite E].
  assert (Eb : (s ++ t) !!! (i / 8)%nat = s !!! (i / 8)%nat) by (apply lookup_total_app_l; rewrite Hl; apply Nat.Div0.div_lt_upper_bound; lia).
  unfold scalar_step. rewrite Eb. reflexivity.
Qed.
Lemma scalarmult_prefix q s t : length s = 32%nat -> scalarmult q (s ++ t) = scalarmult q s.
Proof.
  intros Hl. unfold scalarmult. rewrite scalar_loop_prefix; [reflexivity|exact Hl|]. apply Forall_reverse, Forall_forall. intros i Hi%elem_of_seq. lia.
Qed.

(** What an acceptance means. *)
Lemma verify_equation s m sig pk :
  es_initialized s = true -> es_heap s = true -> Z.of_nat (length m) < 2 ^ 60 ->
  length sig = 64%nat -> wf_bytes sig -> length pk = 32%nat -> wf_bytes pk ->
  ak_ed25519_verify s true (Some m) (Some sig) (Some pk) = true <-> valid_signature pk m sig.
Proof.
  intros Hi Hh Hm Hls Hws Hlk Hwk. unfold ak_ed25519_verify, valid_signature. rewrite Hi, Hh. cbn [negb orb].
  destruct (Z.ltb_spec (18446744073709551615 - 64) (Z.of_nat (length m))); [lia|]. rewrite (take_ge pk) by lia.
  pose proof (unpackneg_spec pk Hwk Hlk) as Hu. destruct (decode_neg pk) as [A|]; [|rewrite Hu; split; [done|]; by intros (? & ? & _)].
  destruct Hu as (q & -> & Hq).
  assert (Hls1 : length (take 32 sig) = 32%nat) by (rewrite length_take; lia). assert (Hls2 : length (drop 32 sig) = 32%nat) by (rewrite length_drop; lia).
  rewrite crypto_hash_spec by (rewrite !length_app, Hls1, Hlk; lia). set (sm := take 32 sig ++ pk ++ m).
  destruct (ed_reduce_spec (sha512 sm) (length_sha512 sm) (wf_sha512 sm)) as (r & -> & Hlr & Hwr & Hvr). rewrite scalarmult_prefix by done.
  pose proof (scalarmult_spec q A r Hq Hwr Hlr) as R1. rewrite Hvr in R1.
  pose proof (scalarbase_spec (drop 32 sig) (Forall_drop _ _ _ Hws) Hls2) as R2. pose proof (ed_add_spec _ _ _ _ R1 R2) as R3. rewrite (ed_pack_spec _ _ R3).
  rewrite vn_spec; [|rewrite Hls1; unfold encode; by rewrite length_le_enc|by apply Forall_take|apply wf_le_enc].
  case_bool_decide as E.
  - split; [|done]. intros _. exists A. split; [done|]. by rewrite <-E.
  - split; [done|]. intros (A' & [= <-] & E'). by rewrite E' in E.
Qed.

(** C21: the verifier decides the verification equation.  On an initialised state
    with memory, for every key of 32 bytes, signature of 64 bytes and message of
    fewer than [2^60] bytes, it accepts exactly the signatures [R || S] for which
    the key decodes to a point [A] with [R] the encoding of [S B - h A], where
    [h] is the SHA-512 of [R], the key and the message, modulo the group order.
    The 64-bit limb arithmetic, the carries and the byte-wise reduction of
    scalars compute this without overflow. *)
Theorem verify_decides_equation s m sig pk :
  es_initialized s = true -> es_heap s = true -> Z.of_nat (length m) < 2 ^ 60 ->
  length sig = 64%nat -> wf_bytes sig -> length pk = 32%nat -> wf_bytes pk ->
  ak_ed25519_verify s true (Some m) (Some sig) (Some pk) = true <-> valid_signature pk m sig.
Proof. apply verify_equation. Qed.

Lemma verify_decides_equation_witness :
  ak_ed25519_verify (ak_ed25519_init true) true (Some B"message") (Some (zeros 64)) (Some (zeros 32)) = true <-> valid_signature (zeros 32) B"message" (zeros 64).
Proof. apply (verify_decides_equation (ak_ed25519_init true) B"message" (zeros 64) (zeros 32)); try reflexivity; apply wf_zeros. Defined.

(** ** The curve *)

(** The equation of the curve in extended coordinates. *)
Definition on_curve (P : point) : Prop :=
  py P * py P - px P * px P ≡p pz P * pz P + d_coeff * (pt P * pt P) /\ pt P * pz P ≡p px P * py P.

(** The defect of the sum, in terms of [n = y^2 - x^2] and [x y] of the summands. *)
Definition defect (d a b s1 s2 n1 n2 x1 x2 : Z) : Z :=
  (a * a + d * d * (b * b)) * (n1 * n2) + 2 * d * (a * b) * (s1 * s2 + 4 * (x1 * x2)) - (a * a - d * d * (b * b)) * (a * a - d * d * (b * b)) -
  d * (x1 * x1 * (n2 * n2 + 4 * (x2 * x2)) + x2 * x2 * (n1 * n1 + 4 * (x1 * x1)) + 2 * (x1 * x2) * (s1 * s2)).

#[global] Instance defect_proper d a b s1 s2 : Proper (eqp ==> eqp ==> eqp ==> eqp ==> eqp) (defect d a b s1 s2).
Proof. intros n1 n1' H1 n2 n2' H2 x1 x1' H3 x2 x2' H4. unfold defect. by rewrite H1, H2, H3, H4. Qed.

Lemma eqp_up_to x y k c : k ≡p 0 -> x = y + c * k -> x ≡p y.
Proof. intros Hk ->. rewrite Hk. by rewrite Z.mul_0_r, Z.add_0_r. Qed.

Lemma padd_on_curve P Q : on_curve P -> on_curve Q -> on_curve (padd P Q).
Proof.
  destruct P as [X1 Y1 Z1 T1], Q as [X2 Y2 Z2 T2]. intros [C1 E1] [C2 E2]. cbn [px py pz pt] in *. unfold on_curve, padd. cbn [px py pz pt]. rewrite !eqp_modulo.
  split; [|apply eq_subrelation; [typeclasses eauto|ring]].
  set (d := d_coeff) in *.
  assert (Hd : defect d (Z1 * Z2) (T1 * T2) (X1 * X1 + Y1 * Y1) (X2 * X2 + Y2 * Y2) (Y1 * Y1 - X1 * X1) (Y2 * Y2 - X2 * X2) (X1 * Y1) (X2 * Y2) ≡p 0).
  { rewrite C1, C2, <-E1, <-E2. apply eq_subrelation; [typeclasses eauto|]. unfold defect. ring. }
  apply (eqp_up_to _ _ _ 16 Hd). unfold defect. ring.
Qed.

Lemma pmul_on_curve s P : on_curve P -> on_curve (pmul s P).
Proof.
  intros HP. unfold pmul. assert (Hg : forall l PQ, on_curve PQ.1 -> on_curve PQ.2 -> on_curve (foldl (ladder_step s) PQ l).1).
  { induction l as [|i l IH]; intros PQ H1 H2; [done|]. cbn [foldl]. apply IH; unfold ladder_step; destruct (Z.testbit _ _); cbn [fst snd]; by apply padd_on_curve. }
  apply Hg; [|done]. by split.
Qed.

Lemma base_on_curve : on_curve base.
Proof. split; split; vm_compute; reflexivity. Qed.

Lemma root_spec u v x : root u v = Some x -> v * (x * x) ≡p u.
Proof.
  unfold root. set (x0 := u * v ^ 3 * _). set (z := if bool_decide (v * x0 ^ 2 mod gf_p = u mod gf_p) then x0 else x0 * sqrt_m1). case_bool_decide as E; [|done]. intros [= <-]. rewrite !eqp_modulo. split. rewrite <-E. f_equal. lia.
Qed.
Lemma decode_on_curve b A : decode_neg b = Some A -> on_curve A.
Proof.
  unfold decode_neg. set (y := le_dec b mod 2 ^ 255). destruct (root _ _) as [x|] eqn:Er; [|done]. intros [= <-]. apply root_spec in Er.
  set (x' := if _ =? _ then - x else x). assert (Hx : x' * x' = x * x) by (unfold x'; destruct (_ =? _); lia). split; cbn [px py pz pt]; [|by rewrite Z.mul_1_r].
  transitivity ((y ^ 2 - 1) - x' * x' + 1); [apply eq_subrelation; [typeclasses eauto|lia]|]. rewrite <-Er, Hx. apply eq_subrelation; [typeclasses eauto|].
  replace (x' * y * (x' * y)) with (x' * x' * (y * y)) by ring. rewrite Hx. ring.
Qed.

(** Whatever the key and the scalars, the point that is compared with the
    signature is on the curve. *)
Theorem verified_point_on_curve pk A h s : decode_neg pk = Some A -> on_curve (padd (pmul h A) (pmul s base)).
Proof. intros HA. apply padd_on_curve; apply pmul_on_curve; [by apply decode_on_curve in HA|apply base_on_curve]. Qed.

(** ** Trusted keys *)

Inductive key_op := KAdd (k : bytes) (name : bytes) | KTrusted (k : bytes) | KRemove (k : bytes) | KCount.
Inductive key_answer := KBool (b : bool) | KNumber (n : Z).

Definition key_do (op : key_op) (s : ed25519_state) : key_answer * ed25519_state :=
  match op with
  | KAdd k name => prod_map KBool id (ak_ed25519_add_trusted_key s (Some k) name)
  | KTrusted k => (KBool (ak_ed25519_is_trusted s (Some k)), s)
  | KRemove k => prod_map KBool id (ak_ed25519_remove_trusted_key s (Some k))
  | KCount => (KNumber (ak_ed25519_trusted_key_count s), s)
  end.
(** A set of at most sixteen keys; a full set refuses every key. *)
Definition key_spec (op : key_op) (m : gset bytes) : key_answer * gset bytes :=
  match op with
  | KAdd k _ => if (16 <=? size m)%nat then (KBool false, m) else (KBool true, {[k]} ∪ m)
  | KTrusted k => (KBool (bool_decide (k ∈ m)), m)
  | KRemove k => (KBool (bool_decide (k ∈ m)), m ∖ {[k]})
  | KCount => (KNumber (Z.of_nat (size m)), m)
  end.
Fixpoint key_run {S : Type} (f : key_op -> S -> key_answer * S) (ops : list key_op) (s : S) : list key_answer * S :=
  match ops with [] => ([], s) | op :: ops => let '(a, s) := f op s in prod_map (cons a) id (key_run f ops s) end.
Definition op_key (op : key_op) : option bytes := match op with KAdd k _ | KTrusted k | KRemove k => Some k | KCount => None end.
Definition key_sized (op : key_op) : Prop := forall k, op_key op = Some k -> length k = 32%nat.

Record keys_ok (s : ed25519_state) (m : gset bytes) : Prop := {
  ko_init : es_initialized s = true;
  ko_slots : length (es_keys s) = AK_ED25519_MAX_TRUSTED_KEYS;
  ko_names : length (es_names s) = AK_ED25519_MAX_TRUSTED_KEYS;
  ko_count : (es_count s <= AK_ED25519_MAX_TRUSTED_KEYS)%nat;
  ko_nodup : NoDup (used_keys s);
  ko_set : forall k, k ∈ used_keys s <-> k ∈ m }.

Lemma keys_length s m : keys_ok s m -> length (used_keys s) = es_count s.
Proof. intros Hk. unfold used_keys. rewrite length_take, (ko_slots _ _ Hk). pose proof (ko_count _ _ Hk). lia. Qed.
Lemma keys_size s m : keys_ok s m -> size m = es_count s.
Proof.
  intros Hk. rewrite <-(keys_length s m Hk). replace m with (list_to_set (used_keys s) : gset bytes); [apply size_list_to_set, Hk|].
  apply set_eq. intros k. rewrite elem_of_list_to_set. apply Hk.
Qed.
Lemma same_key_spec pk k : length pk = 32%nat -> same_key pk k = true <-> pk = k.
Proof. intros Hl. unfold same_key. rewrite bool_decide_eq_true, take_ge by (unfold AK_ED25519_PUBLIC_KEY_SIZE; lia). done. Qed.
Lemma has_key_spec s m pk : keys_ok s m -> length pk = 32%nat -> existsb (same_key pk) (used_keys s) = bool_decide (pk ∈ m).
Proof.
  intros Hk Hl. apply eq_bool_prop_intro. rewrite !Is_true_true, existsb_exists, bool_decide_eq_true, <-(ko_set _ _ Hk). split.
  - intros (k & Hin & ->%same_key_spec); [|done]. by apply list_elem_of_In.
  - intros Hin. exists pk. split; [by apply list_elem_of_In|]. by apply same_key_spec.
Qed.

(** Removal: the last used key takes the place of the removed one. *)
Lemma swap_remove {A} `{!Inhabited A} (l : list A) i x : NoDup l -> l !! i = Some x ->
  let l' := take (length l - 1) (if (i <? length l - 1)%nat then <[i := l !!! (length l - 1)%nat]> l else l) in NoDup l' /\ (forall y, y ∈ l' <-> y ∈ l /\ y <> x).
Proof.
  intros Hn Hi. assert (Hlt : (i < length l)%nat) by (by eapply lookup_lt_Some). cbn zeta.
  assert (Hmem : forall l' : list A, length l' = (length l - 1)%nat -> (forall j, (j < length l - 1)%nat -> l' !! j = if decide (j = i) then l !! (length l - 1)%nat else l !! j) ->
    NoDup l' /\ forall y, y ∈ l' <-> y ∈ l /\ y <> x).
  { intros l' Hl Hj. assert (Hat : forall j y, l' !! j = Some y -> exists a, l !! a = Some y /\ a <> i /\ (a = j \/ a = length l - 1 /\ j = i)%nat).
    { intros j y Hy. assert (j < length l - 1)%nat by (rewrite <-Hl; by eapply lookup_lt_Some). rewrite Hj in Hy by done. case_decide; [subst; exists (length l - 1)%nat; split_and!; [done|lia|by right]|exists j; split_and!; [done|done|by left]]. }
    split.
    - apply NoDup_alt. intros j1 j2 y H1 H2. destruct (Hat _ _ H1) as (a & Ha & Hai & Hca), (Hat _ _ H2) as (b & Hb & Hbi & Hcb).
      assert (a = b) by (by eapply NoDup_lookup). apply lookup_lt_Some in H1, H2. lia.
    - intros y. rewrite !list_elem_of_lookup. split.
      + intros [j Hy]. destruct (Hat _ _ Hy) as (a & Ha & Hai & _). split; [by exists a|]. intros ->. apply Hai. by eapply NoDup_lookup.
      + intros [[a Ha] Hyx]. assert (a <> i) by (intros ->; congruence). assert (a < length l)%nat by (by eapply lookup_lt_Some). destruct (decide (a = length l - 1)%nat) as [->|].
        * exists i. rewrite Hj by lia. by rewrite decide_True.
        * exists a. rewrite Hj by lia. by rewrite decide_False. }
  apply Hmem.
  - rewrite length_take. destruct (_ <? _)%nat; rewrite ?length_insert; lia.
  - intros j Hj. rewrite lookup_take_lt by done. destruct (Nat.ltb_spec i (length l - 1)).
    + rewrite list_lookup_insert. do 2 case_decide; try lia; try done. apply eq_sym, list_lookup_lookup_total_lt. lia.
    + by rewrite decide_False by lia.
Qed.

Lemma key_step_refines s m op : keys_ok s m -> key_sized op -> (key_do op s).1 = (key_spec op m).1 /\ keys_ok (key_do op s).2 (key_spec op m).2.
Proof.
  intros Hk Hsz. pose proof (keys_size s m Hk) as Hsize. pose proof (keys_length s m Hk) as Hlen. pose proof Hk as [Hi Hs Hn Hc Hd Hm].
  destruct op as [k name|k|k|]; cbn [key_do key_spec].
  - assert (Hl : length k = 32%nat) by (by apply Hsz). unfold ak_ed25519_add_trusted_key. rewrite Hi, Hsize. cbn [negb]. change 16%nat with AK_ED25519_MAX_TRUSTED_KEYS.
    destruct (Nat.leb_spec AK_ED25519_MAX_TRUSTED_KEYS (es_count s)); [done|]. rewrite (has_key_spec s m k Hk Hl), take_ge by (unfold AK_ED25519_PUBLIC_KEY_SIZE; lia).
    case_bool_decide as Hin; cbn [prod_map fst snd id].
    + split; [done|]. by replace ({[k]} ∪ m) with m by set_solver.
    + split; [done|].
      assert (Eu : take (S (es_count s)) (<[es_count s := k]> (es_keys s)) = used_keys s ++ [k]).
      { rewrite (take_S_r _ _ k) by (rewrite list_lookup_insert_eq by lia; done). unfold used_keys. by rewrite take_insert_ge by lia. }
      split; unfold used_keys in *; cbn [es_initialized es_keys es_names es_count]; [done|by rewrite length_insert..|lia| |].
      * rewrite Eu. apply NoDup_app. split_and!; [done| |apply NoDup_singleton]. intros x Hx ->%list_elem_of_singleton. apply Hin. by apply Hm.
      * intros x. rewrite Eu, elem_of_app, list_elem_of_singleton, Hm. set_solver.
  - assert (Hl : length k = 32%nat) by (by apply Hsz). unfold ak_ed25519_is_trusted. rewrite Hi. cbn [negb fst snd]. by rewrite (has_key_spec s m k Hk Hl).
  - assert (Hl : length k = 32%nat) by (by apply Hsz). unfold ak_ed25519_remove_trusted_key. rewrite Hi. cbn [negb]. destruct (list_find _ _) as [[i x]|] eqn:Ef.
    + apply list_find_Some in Ef as (Hix & ->%same_key_spec & _); [|done]. assert (Hin : x ∈ m) by (apply Hm; by eapply list_elem_of_lookup_2).
      rewrite bool_decide_eq_true_2 by done. cbn [prod_map fst snd id]. split; [done|].
      destruct (swap_remove (used_keys s) i x Hd Hix) as [Hd' Hm']. rewrite Hlen in Hd', Hm'. set (last := (es_count s - 1)%nat) in *.
      assert (Hlast : (last < es_count s)%nat) by (apply lookup_lt_Some in Hix; lia).
      assert (Eu : take last (if (i <? last)%nat then <[i := es_keys s !!! last]> (es_keys s) else es_keys s) = take last (if (i <? last)%nat then <[i := used_keys s !!! last]> (used_keys s) else used_keys s)).
      { unfold used_keys. rewrite lookup_total_take_lt by done. destruct (Nat.ltb_spec i last).
        - rewrite !take_insert_lt, take_take by done. by rewrite Nat.min_l by lia.
        - rewrite take_take. by rewrite Nat.min_l by lia. }
      split; cbn [es_initialized es_keys es_names es_count]; [done| | |lia| |].
      * destruct (_ <? _)%nat; rewrite ?length_insert; done.
      * destruct (_ <? _)%nat; rewrite ?length_insert; done.
      * unfold used_keys at 1. cbn [es_keys es_count]. by rewrite Eu.
      * intros y. unfold used_keys at 1. cbn [es_keys es_count]. rewrite Eu, Hm', Hm. set_solver.
    + assert (Hin : k ∉ m).
      { rewrite <-Hm. intros Hin. apply list_find_None in Ef. rewrite Forall_forall in Ef. apply (Ef k Hin). by apply same_key_spec. }
      rewrite bool_decide_eq_false_2 by done. cbn [prod_map fst snd id]. split; [done|]. by replace (m ∖ {[k]}) with m by set_solver.
  - unfold ak_ed25519_trusted_key_count. by rewrite Hsize.
Qed.

Lemma init_keys_ok h : keys_ok (ak_ed25519_init h) ∅.
Proof. split; cbn; [done|done|done|lia|constructor|]. set_solver. Qed.

(** The trusted keys are a bounded set: along every sequence of calls after the
    initialisation the array answers as a set of at most sixteen keys. *)
Theorem trusted_keys_refine_set h ops : Forall key_sized ops -> (key_run key_do ops (ak_ed25519_init h)).1 = (key_run key_spec ops ∅).1.
Proof.
  intros Hops. generalize (init_keys_ok h). generalize (ak_ed25519_init h), (∅ : gset bytes). induction Hops as [|op ops Ho Hops IH]; intros s m Hk; [done|]. cbn [key_run].
  destruct (key_step_refines s m op Hk Ho) as [E1 E2]. destruct (key_do op s) as [a s'], (key_spec op m) as [a' m']. cbn [fst snd] in *. subst a'. specialize (IH s' m' E2).
  destruct (key_run key_do ops s'), (key_run key_spec ops m'). cbn in *. by subst.
Qed.

(** A full set refuses a key that it already holds. *)
Example full_set_refuses_member :
  let keys := (fun n => Z.of_nat n :: zeros 31) <$> seq 0 16 in
  (key_run key_do ((fun k => KAdd k []) <$> (keys ++ [zeros 32])) (ak_ed25519_init true)).1 = replicate 16 (KBool true) ++ [KBool false].
Proof. vm_compute. reflexivity. Qed.
