(* ===== verification/WasmSigned.v ===== *)
(** * Signed modules: the module registry over the signature verifier

    [ak_wasm_module_load_verified] of [WasmTools] takes the trust test and the
    verifier as arguments.  Here they are those of [Ed25519], for a set of
    trusted keys that stays fixed during the run.  Theorem: a module that is
    marked verified carries a signature of its bytes that satisfies the
    verification equation, under a key of the trusted set. *)

From stdpp Require Import gmap.
From S2P Require Import Prelude Field25519 Sha512 Ed25519 WasmParse WasmExec WasmTools.
#[local] Open Scope Z_scope.

Section Signed.
Context {W : Type} (raw_s : bytes -> bytes) (host : bytes -> @host_fn W) (es : ed25519_state) (alloc : bool).

Definition key_trusted (key : bytes) : bool := ak_ed25519_is_trusted es (Some key).
Definition signature_verified (bytecode sig key : bytes) : bool := ak_ed25519_verify es alloc (Some bytecode) (Some sig) (Some key).

(** A verifier that accepts had its memory, its state and an equation that holds. *)
Lemma signature_verified_valid bc sig key :
  signature_verified bc sig key = true -> Z.of_nat (length bc) < 2 ^ 60 -> length sig = 64%nat -> wf_bytes sig -> length key = 32%nat -> wf_bytes key -> valid_signature key bc sig.
Proof.
  unfold signature_verified. intros Hv Hbc Hls Hws Hlk Hwk.
  assert (Hi : es_initialized es = true /\ es_heap es = true) by (unfold ak_ed25519_verify in Hv; by destruct (es_initialized es), (es_heap es)).
  assert (Ha : alloc = true).
  { unfold ak_ed25519_verify in Hv. destruct Hi as [E1 E2]. rewrite E1, E2 in Hv. cbn [negb orb] in Hv. destruct (_ <? _); [done|]. destruct (unpackneg key); [|done]. by destruct alloc. }
  rewrite Ha in Hv. by apply (verify_equation es) in Hv; [|by destruct Hi..|done|done|done|done|done].
Qed.

Theorem verified_module_signed s p m :
  steps (wstep raw_s host key_trusted signature_verified) (mk_ws false ∅ [] [] [] zero_stats) s ->
  Some p ∈ ws_modules s -> ws_store s !! p = Some m -> wm_verified m = true ->
  Z.of_nat (length (wm_bytecode m)) < 2 ^ 60 -> length (wm_signature m) = 64%nat -> wf_bytes (wm_signature m) -> length (wm_signing_key m) = 32%nat -> wf_bytes (wm_signing_key m) ->
  wm_signing_key m ∈ used_keys es /\ valid_signature (wm_signing_key m) (wm_bytecode m) (wm_signature m).
Proof.
  intros Hs Hp Hm Hv Hbc Hls Hws Hlk Hwk. destruct (module_registry_sound raw_s host key_trusted signature_verified s Hs) as (_ & _ & _ & _ & _ & Hall).
  destruct (Hall p m Hp Hm) as [_ Hsig]. destruct (Hsig Hv) as [Ht Hver]. split; [|by apply signature_verified_valid].
  unfold key_trusted, ak_ed25519_is_trusted in Ht. destruct (es_initialized es); [|done]. cbn [negb] in Ht. apply existsb_exists in Ht as (k & Hin & Hk%same_key_spec); [|done].
  subst k. by apply list_elem_of_In.
Qed.
End Signed.
