(* ===== verification/NetEnforce.v ===== *)
(** * Network enforcement ([src/src/agentic/ak_net_enforce.c])

    The access control in front of the socket calls: rules and the network
    capability of the root context, the budget and the scan of outgoing data,
    and the log of the decisions in the ring.  A rules table holds the list of
    rules under the key 0.  Hosts, patterns and events are C strings without
    their NUL.  The context, the time stamps of the log and the outcomes of
    allocations are arguments; a table that runs out of memory halts ([None]).

    The specification is a list of rules, the latest first, and a count of the
    bytes sent.  Theorems: along every run of calls the decisions are those of
    the specification, each is logged once, and the bytes sent stay within the
    limit; the text of an endpoint determines it. *)

From stdpp Require Import gmap.
From S2P Require Import Prelude Pattern Budget Capability Ring Sanitize HashTable.
#[local] Open Scope Z_scope.

Definition EACCES : Z := 13.
Definition AK_E_DLP_BLOCK : Z := -4204.
Definition AK_RING_FLAG_DENIED : Z := 1.
Definition AK_RING_FLAG_ERROR : Z := 4.

Inductive ak_net_rule_type := AK_NET_RULE_ALLOW | AK_NET_RULE_DENY.
#[global] Instance ak_net_rule_type_eq : EqDecision ak_net_rule_type.
Proof. solve_decision. Defined.

Record ak_net_rule := mk_nrule { nr_type : ak_net_rule_type; nr_host : bytes; nr_port : Z }.

(** The fields of the agent context that the code uses. *)
Record net_ctx := mk_nctx {
  nc_pid : bytes; nc_run_id : bytes; nc_heap : bool; nc_root_cap : option ak_capability; nc_rules : option (table Z (list ak_net_rule)); nc_budget : option ak_budget_tracker }.

Record net_world := mk_net { nw_heap : bool; nw_default_deny : bool; nw_ctx : option net_ctx; nw_ring : ring_state }.

Definition set_rules (t : option (table Z (list ak_net_rule))) (c : net_ctx) : net_ctx := mk_nctx (nc_pid c) (nc_run_id c) (nc_heap c) (nc_root_cap c) t (nc_budget c).
Definition set_tracker (b : ak_budget_tracker) (c : net_ctx) : net_ctx := mk_nctx (nc_pid c) (nc_run_id c) (nc_heap c) (nc_root_cap c) (nc_rules c) (Some b).
Definition with_ctx (c : net_ctx) (w : net_world) : net_world := mk_net (nw_heap w) (nw_default_deny w) (Some c) (nw_ring w).
Definition add_used (r : ak_resource_type) (n : Z) (t : ak_budget_tracker) : ak_budget_tracker :=
  mk_tracker (limits t) (<[rt r := u64 (used t !!! rt r + n)]> (used t)) (start_timestamp_ms t) (last_update_ms t) (last_snapshot_ms t) (snapshots t)
    (snapshot_head t) (snapshot_count t) (breakdown t).

Definition ak_net_init (h : bool) (w : net_world) : net_world := mk_net h true (nw_ctx w) (nw_ring w).

(** ** Texts of addresses *)

Definition digit_char (n : Z) : Z := 48 + n.
Definition ipv4_octet (b : Z) : bytes :=
  if 100 <=? b then [digit_char (b / 100); digit_char (b mod 100 / 10); digit_char (b mod 100 mod 10)]
  else if 10 <=? b then [digit_char (b / 10); digit_char (b mod 10)]
  else [digit_char b].
(** The address in network byte order: its bytes in memory. *)
Definition ak_net_format_ipv4 (ip : bytes) : bytes :=
  ipv4_octet (ip !!! 0%nat) ++ [46] ++ ipv4_octet (ip !!! 1%nat) ++ [46] ++ ipv4_octet (ip !!! 2%nat) ++ [46] ++ ipv4_octet (ip !!! 3%nat).

Definition net_hex : bytes := B"0123456789abcdef".
Definition hex_pair (b : Z) : bytes := [net_hex !!! Z.to_nat (Z.land (Z.shiftr b 4) 15); net_hex !!! Z.to_nat (Z.land b 15)].
Definition ak_net_format_ipv6 (ip : bytes) : bytes :=
  concat ((fun i => hex_pair (ip !!! (2 * i)%nat) ++ hex_pair (ip !!! (2 * i + 1)%nat) ++ if (i <? 7)%nat then [58] else []) <$> seq 0 8).

Definition port_text (port : Z) : bytes :=
  if 10000 <=? port then
    [digit_char (port / 10000); digit_char (port mod 10000 / 1000); digit_char (port mod 10000 mod 1000 / 100);
     digit_char (port mod 10000 mod 1000 mod 100 / 10); digit_char (port mod 10000 mod 1000 mod 100 mod 10)]
  else if 1000 <=? port then
    [digit_char (port / 1000); digit_char (port mod 1000 / 100); digit_char (port mod 1000 mod 100 / 10); digit_char (port mod 1000 mod 100 mod 10)]
  else if 100 <=? port then [digit_char (port / 100); digit_char (port mod 100 / 10); digit_char (port mod 100 mod 10)]
  else if 10 <=? port then [digit_char (port / 10); digit_char (port mod 10)]
  else [digit_char port].
Definition ak_net_format_endpoint (host : bytes) (port : Z) : bytes := take 300 host ++ [58] ++ port_text port.

(** ** Rules *)

Definition STAR : bytes := [42].
Definition STAR_DOT : bytes := [42; 46].
Definition ak_net_host_match (pattern host : bytes) : bool :=
  if bytes_eqb pattern STAR then true
  else if bytes_eqb (take 2 pattern) STAR_DOT then
    let suffix := drop 1 pattern in
    if (length host <? length suffix)%nat then false else bytes_eqb (drop (length host - length suffix) host) suffix
  else bytes_eqb pattern host.

Definition ak_net_policy_active (ctx : option net_ctx) : bool :=
  match ctx with
  | None => false
  | Some c =>
      if bool_decide (is_Some (nc_rules c)) then true
      else match nc_root_cap c with Some cap => cap_type cap =? AK_CAP_NET | None => false end
  end.

(** The list of rules of a table: the first match decides. *)
Fixpoint match_rules (host : bytes) (port : Z) (l : list ak_net_rule) : option ak_net_rule_type :=
  match l with
  | [] => None
  | r :: l' =>
      if negb (nr_port r =? 0) && negb (nr_port r =? port) then match_rules host port l'
      else if ak_net_host_match (nr_host r) host then Some (nr_type r)
      else match_rules host port l'
  end.
Definition rules_of (t : table Z (list ak_net_rule)) : list ak_net_rule := default [] (table_find identity_key t 0).

Definition ak_net_check_rules (default_deny : bool) (ctx : option net_ctx) (host : bytes) (port : Z) : bool :=
  match ctx with
  | None => false
  | Some c =>
      match match nc_rules c with Some t => match_rules host port (rules_of t) | None => None end with
      | Some ty => bool_decide (ty = AK_NET_RULE_ALLOW)
      | None =>
          if match nc_root_cap c with
             | Some cap => (cap_type cap =? AK_CAP_NET) && ak_pattern_match (resource cap) (ak_net_format_endpoint host port)
             | None => false
             end
          then true else negb default_deny
      end
  end.

(** ** The log *)

Definition AK_NET_OP_CONNECT : Z := 0x8001.
Definition AK_NET_OP_BIND : Z := 0x8002.
Definition AK_NET_OP_ACCEPT : Z := 0x8003.
Definition AK_NET_OP_SEND : Z := 0x8004.
Definition AK_NET_OP_RECV : Z := 0x8005.
Definition AK_NET_OP_DNS : Z := 0x8006.
Definition AK_NET_OP_SEND_BLOCKED : Z := 0x8007.
Definition AK_NET_OP_DLP_BLOCK : Z := 0x8008.

Definition ak_net_event_to_op (event : bytes) : Z :=
  match event with
  | 99 :: _ => if bytes_eqb event B"connect" then AK_NET_OP_CONNECT else 0
  | 98 :: _ => if bytes_eqb event B"bind" then AK_NET_OP_BIND else 0
  | 97 :: _ => if bytes_eqb event B"accept" then AK_NET_OP_ACCEPT else 0
  | 115 :: _ =>
      if bytes_eqb event B"send" then AK_NET_OP_SEND
      else if bytes_eqb event B"send_blocked" then AK_NET_OP_SEND_BLOCKED
      else if bytes_eqb event B"send_dlp_block" then AK_NET_OP_DLP_BLOCK
      else 0
  | 114 :: _ => if bytes_eqb event B"recv" then AK_NET_OP_RECV else 0
  | 100 :: _ => if bytes_eqb event B"dns" then AK_NET_OP_DNS else 0
  | _ => 0
  end.

Definition fnv64 (h b : Z) : Z := u64 (Z.lxor h b * 0x100000001b3).
Definition ak_net_compute_event_hash (event : bytes) (host : option bytes) (port bytes_count : Z) : bytes :=
  let start := 0xcbf29ce484222325 in
  let h0 := foldl fnv64 start event in
  let h1 := match host with Some h => foldl fnv64 start h | None => start end in
  let h2 := fnv64 (fnv64 start (Z.land port 255)) (Z.shiftr port 8) in
  let h3 := foldl (fun h i => fnv64 h (Z.land (Z.shiftr bytes_count (8 * Z.of_nat i)) 255)) start (seq 0 8) in
  le_enc 8 h0 ++ le_enc 8 h1 ++ le_enc 8 h2 ++ le_enc 8 h3.

Definition response_hash (allowed : bool) (port bytes_count : Z) : bytes :=
  let h := <[0%nat := if allowed then 1 else 0]> (zeros 32) in
  let h := if 0 <? bytes_count then splice 8 (le_enc 8 bytes_count) h else h in
  <[17%nat := Z.land (Z.shiftr port 8) 255]> (<[16%nat := Z.land port 255]> h).

(** [now] is the time stamp of the ring entry. *)
Definition ak_net_audit_log (now : Z) (event : bytes) (host : option bytes) (port : Z) (allowed : bool) (bytes_count : Z) (w : net_world) : net_world :=
  let op := ak_net_event_to_op event in
  let '(op, flags) := if op =? 0 then (AK_NET_OP_CONNECT, AK_RING_FLAG_ERROR) else (op, 0) in
  let '(flags, code) := if allowed then (flags, 0) else (Z.lor flags AK_RING_FLAG_DENIED, - EACCES) in
  let v := mk_ring_event (nc_pid <$> nw_ctx w) (nc_run_id <$> nw_ctx w) op (Some (ak_net_compute_event_hash event host port bytes_count))
             (Some (response_hash allowed port bytes_count)) code 0 flags now in
  mk_net (nw_heap w) (nw_default_deny w) (nw_ctx w) (ak_ring_push (nw_ring w) v).2.

(** ** Connections *)

Definition decide_access (now : Z) (event : bytes) (host : bytes) (port log_port : Z) (w : net_world) : Z * net_world :=
  let allowed := ak_net_check_rules (nw_default_deny w) (nw_ctx w) host port in
  let w := ak_net_audit_log now event (Some host) log_port allowed 0 w in
  (if negb allowed then - EACCES else 0, w).

Definition ak_net_check_connect (now : Z) (host : option bytes) (port : Z) (w : net_world) : Z * net_world :=
  match host with
  | None => (- EINVAL, w)
  | Some host => if negb (ak_net_policy_active (nw_ctx w)) then (0, w) else decide_access now B"connect" host port port w
  end.
Definition bind_host (is_ipv6 : bool) : bytes := if is_ipv6 then B"::" else B"0.0.0.0".
Definition ak_net_check_bind (now : Z) (port : Z) (is_ipv6 : bool) (w : net_world) : Z * net_world :=
  if negb (ak_net_policy_active (nw_ctx w)) then (0, w) else decide_access now B"bind" (bind_host is_ipv6) port port w.
Definition ak_net_check_accept (now : Z) (client_host : option bytes) (client_port : Z) (w : net_world) : Z * net_world :=
  if negb (ak_net_policy_active (nw_ctx w)) then (0, w) else decide_access now B"accept" (default B"unknown" client_host) client_port client_port w.
Definition ak_net_check_dns (now : Z) (domain : option bytes) (w : net_world) : Z * net_world :=
  match domain with
  | None => (- EINVAL, w)
  | Some domain => if negb (ak_net_policy_active (nw_ctx w)) then (0, w) else decide_access now B"dns" domain 0 53 w
  end.

(** ** Data *)

(** [None] in the first component: over budget. *)
Definition consume_out (len : Z) (w : net_world) : option net_world :=
  match nw_ctx w with
  | Some c =>
      match nc_budget c with
      | Some t =>
          let u := used t !!! rt AK_RESOURCE_NET_BYTES_OUT in
          let limit := limits t !!! rt AK_RESOURCE_NET_BYTES_OUT in
          if (0 <? limit) && (limit <? u64 (u + len)) then None else Some (with_ctx (set_tracker (add_used AK_RESOURCE_NET_BYTES_OUT len t) c) w)
      | None => Some w
      end
  | None => Some w
  end.

Definition ak_net_filter_send (now : Z) (data : option bytes) (len : Z) (dest_host : option bytes) (dest_port : Z) (w : net_world) : Z * net_world :=
  if negb (ak_net_policy_active (nw_ctx w)) then (0, w)
  else
    match consume_out len w with
    | None => (AK_E_BUDGET_EXCEEDED, ak_net_audit_log now B"send_blocked" dest_host dest_port false len w)
    | Some w =>
        if match data with
           | Some d => (0 <? len) && negb (ak_dlp_detect_secrets (Some (take (Z.to_nat len) d)) AK_DLP_PATTERN_ALL =? 0)
           | None => false
           end
        then (AK_E_DLP_BLOCK, ak_net_audit_log now B"send_dlp_block" dest_host dest_port false len w)
        else (0, ak_net_audit_log now B"send" dest_host dest_port true len w)
    end.

Definition ak_net_track_recv (now : Z) (len : Z) (src_host : option bytes) (src_port : Z) (w : net_world) : Z * net_world :=
  if negb (ak_net_policy_active (nw_ctx w)) then (0, w)
  else
    let w := match nw_ctx w with
             | Some c => match nc_budget c with Some t => with_ctx (set_tracker (add_used AK_RESOURCE_NETWORK_BYTES len t) c) w | None => w end
             | None => w
             end in
    (0, ak_net_audit_log now B"recv" src_host src_port true len w).

(** ** Changes of the rules *)

Record rule_env := mk_rule_env { re_rule : bool; re_table : bool; re_set : table_env }.

Definition ak_net_add_rule (env : rule_env) (type : ak_net_rule_type) (host : option bytes) (port : Z) (w : net_world) : option (Z * net_world) :=
  match host, nw_ctx w with
  | None, _ => Some (- EINVAL, w)
  | _, None => Some (- EINVAL, w)
  | Some host, Some c =>
      if negb (if nw_heap w then true else nc_heap c) then Some (- EINVAL, w)
      else if negb (re_rule env) then Some (- ENOMEM, w)
      else
        let rule := mk_nrule type (take 255 host) port in
        match match nc_rules c with Some t => Some t | None => allocate_table (re_table env) (re_table env) end with
        | None => Some (- ENOMEM, w)
        | Some t => (fun t => (0, with_ctx (set_rules (Some t) c) w)) <$> table_set identity_key (re_set env) t 0 (Some (rule :: rules_of t))
        end
  end.

Definition ak_net_clear_rules (w : net_world) : option net_world :=
  match nw_ctx w with
  | None => Some w
  | Some c =>
      match nc_rules c with
      | None => Some w
      | Some t =>
          if negb (if nw_heap w then true else nc_heap c) then Some w
          else (fun t => with_ctx (set_rules (Some t) c) w) <$> table_set identity_key (mk_tenv true true) t 0 None
      end
  end.

(** ** Runs *)

Inductive net_op :=
| NAdd (env : rule_env) (type : ak_net_rule_type) (host : option bytes) (port : Z)
| NClear
| NConnect (now : Z) (host : option bytes) (port : Z)
| NBind (now : Z) (port : Z) (is_ipv6 : bool)
| NAccept (now : Z) (host : option bytes) (port : Z)
| NDns (now : Z) (domain : option bytes)
| NSend (now : Z) (data : option bytes) (len : Z) (host : option bytes) (port : Z)
| NRecv (now : Z) (len : Z) (host : option bytes) (port : Z).

Definition net_do (op : net_op) (w : net_world) : option (Z * net_world) :=
  match op with
  | NAdd env ty host port => ak_net_add_rule env ty host port w
  | NClear => pair 0 <$> ak_net_clear_rules w
  | NConnect now host port => Some (ak_net_check_connect now host port w)
  | NBind now port v6 => Some (ak_net_check_bind now port v6 w)
  | NAccept now host port => Some (ak_net_check_accept now host port w)
  | NDns now domain => Some (ak_net_check_dns now domain w)
  | NSend now data len host port => Some (ak_net_filter_send now data len host port w)
  | NRecv now len host port => Some (ak_net_track_recv now len host port w)
  end.

Inductive net_run : net_world -> list (net_op * Z) -> net_world -> Prop :=
| net_nil w : net_run w [] w
| net_step w op r w1 tr w2 : net_do op w = Some (r, w1) -> net_run w1 tr w2 -> net_run w ((op, r) :: tr) w2.

(** ** Specification *)

(** The rules in force after a trace, the latest first; [None]: no table. *)
Definition install (l : option (list ak_net_rule)) (x : net_op * Z) : option (list ak_net_rule) :=
  match x with
  | (NAdd _ ty (Some host) port, 0) => Some (mk_nrule ty (take 255 host) port :: default [] l)
  | (NClear, _) => (fun _ => []) <$> l
  | _ => l
  end.
Definition installed (tr : list (net_op * Z)) : option (list ak_net_rule) := foldl install None tr.

(** [*] stands for every host and [*.d] for the hosts that end with [.d]. *)
Definition HostGlob (pattern host : bytes) : Prop :=
  pattern = STAR \/ (exists rest pre, pattern = STAR_DOT ++ rest /\ host = pre ++ [46] ++ rest) \/ pattern = host.
Definition applies (host : bytes) (port : Z) (r : ak_net_rule) : Prop := (nr_port r = 0 \/ nr_port r = port) /\ HostGlob (nr_host r) host.

Definition net_cap (cap : option ak_capability) : option ak_capability := match cap with Some c => if cap_type c =? AK_CAP_NET then Some c else None | None => None end.
(** The first rule that applies allows, or none applies and the capability covers the endpoint. *)
Definition permits (cap : option ak_capability) (l : list ak_net_rule) (host : bytes) (port : Z) : Prop :=
  (exists l1 r l2, l = l1 ++ r :: l2 /\ Forall (fun r => ~ applies host port r) l1 /\ applies host port r /\ nr_type r = AK_NET_RULE_ALLOW) \/
  (Forall (fun r => ~ applies host port r) l /\ exists c, net_cap cap = Some c /\ Glob (cstr (resource c)) (cstr (ak_net_format_endpoint host port))).
Definition configured (cap : option ak_capability) (l : option (list ak_net_rule)) : Prop := is_Some l \/ is_Some (net_cap cap).

(** ** Rules *)

Lemma host_matchP pattern host : ak_net_host_match pattern host = true <-> HostGlob pattern host.
Proof.
  unfold ak_net_host_match, HostGlob. destruct (bytes_eqb pattern STAR) eqn:E1; [apply bytes_eqb_eq in E1; naive_solver|].
  assert (H1 : pattern <> STAR) by (intros E; apply bytes_eqb_eq in E; congruence). destruct (bytes_eqb (take 2 pattern) STAR_DOT) eqn:E2.
  - apply bytes_eqb_eq in E2. assert (Hp : exists r, pattern = STAR_DOT ++ r) by (exists (drop 2 pattern); rewrite <-E2; by rewrite take_drop). destruct Hp as [r ->]. clear E1 E2.
    change (drop 1 (STAR_DOT ++ r)) with (46 :: r). destruct (Nat.ltb_spec (length host) (length (46 :: r))) as [Hl|Hl].
    + split; [done|]. cbn [length] in Hl. intros [?|[(rest & pre & [= <-] & ->)|<-]]; [done| |]; unfold STAR_DOT in Hl; repeat (rewrite length_app in Hl; cbn [length app] in Hl); cbn [length app] in Hl; lia.
    + rewrite bytes_eqb_eq. split.
      * intros E. right. left. exists r, (take (length host - length (46 :: r)) host). split; [done|]. rewrite <-(take_drop (length host - length (46 :: r)) host) at 1. by rewrite E.
      * intros [?|[(rest & pre & [= <-] & ->)|<-]]; [done| |].
        -- change ([46] ++ r) with (46 :: r). rewrite length_app. by rewrite Nat.add_sub, drop_app_length.
        -- change (STAR_DOT ++ r) with ([42] ++ 46 :: r). rewrite length_app, Nat.add_sub. done.
  - rewrite bytes_eqb_eq. split; [by right; right|]. intros [?|[(rest & pre & -> & _)|?]]; [done| |done]. by rewrite (proj2 (bytes_eqb_eq _ _)) in E2.
Qed.

Lemma appliesP host port r : (negb (nr_port r =? 0) && negb (nr_port r =? port)) = false /\ ak_net_host_match (nr_host r) host = true <-> applies host port r.
Proof. unfold applies. rewrite host_matchP, andb_false_iff, !negb_false_iff, !Z.eqb_eq. done. Qed.

(** The first rule that applies. *)
Lemma match_rulesP host port l :
  match match_rules host port l with
  | Some ty => exists l1 r l2, l = l1 ++ r :: l2 /\ Forall (fun r => ~ applies host port r) l1 /\ applies host port r /\ nr_type r = ty
  | None => Forall (fun r => ~ applies host port r) l
  end.
Proof.
  induction l as [|r l IH]; cbn [match_rules]; [by apply Forall_nil|]. pose proof (appliesP host port r) as Ha.
  assert (Hskip : ~ applies host port r -> match match_rules host port l with
    | Some ty => exists l1 r0 l2, r :: l = l1 ++ r0 :: l2 /\ Forall (fun r => ~ applies host port r) l1 /\ applies host port r0 /\ nr_type r0 = ty
    | None => Forall (fun r => ~ applies host port r) (r :: l) end).
  { intros Hn. destruct (match_rules host port l); [|by constructor]. destruct IH as (l1 & r0 & l2 & -> & H1 & H2 & H3). exists (r :: l1), r0, l2. split_and!; [done|by constructor|done|done]. }
  destruct (negb _ && _); [apply Hskip; naive_solver|]. destruct (ak_net_host_match _ _); [|apply Hskip; naive_solver].
  exists [], r, l. split_and!; [done|by apply Forall_nil|by apply Ha|done].
Qed.

Definition rules_in (c : net_ctx) : list ak_net_rule := match nc_rules c with Some t => rules_of t | None => [] end.

Lemma check_rulesP c host port : ak_net_check_rules true (Some c) host port = true <-> permits (nc_root_cap c) (rules_in c) host port.
Proof.
  unfold ak_net_check_rules, permits. replace (match nc_rules c with Some t => match_rules host port (rules_of t) | None => None end) with (match_rules host port (rules_in c)) by (unfold rules_in; by destruct (nc_rules c)).
  pose proof (match_rulesP host port (rules_in c)) as Hm. destruct (match_rules host port (rules_in c)) as [ty|].
  - rewrite bool_decide_eq_true. destruct Hm as (l1 & r & l2 & El & H1 & H2 & H3). split.
    + intros ->. left. by exists l1, r, l2.
    + intros [(l1' & r' & l2' & El' & H1' & H2' & H3')|[Hf _]].
      * rewrite El in El'. destruct (app_cut _ _ _ _ _ _ _ H1 H1' (fun H => H H2) (fun H => H H2') El') as (_ & -> & _). congruence.
      * exfalso. rewrite El, Forall_app, Forall_cons in Hf. naive_solver.
  - unfold net_cap. split.
    + destruct (nc_root_cap c) as [cap|]; [|done]. destruct (Z.eqb_spec (cap_type cap) AK_CAP_NET) as [E|E]; cbn [andb negb]; [|done].
      destruct (ak_pattern_match _ _) eqn:Ep; [|done]. intros _. right. split; [done|]. exists cap. split; [done|]. by apply ak_pattern_matchP.
    + intros [(l1 & r & l2 & El & _ & Ha & _)|[_ (cap & Ec & Hg)]].
      * exfalso. rewrite El, Forall_app, Forall_cons in Hm. naive_solver.
      * destruct (nc_root_cap c) as [cap'|]; [|done]. destruct (cap_type cap' =? AK_CAP_NET); [|done]. injection Ec as ->. cbn [andb]. by rewrite (proj2 (ak_pattern_matchP _ _) Hg).
Qed.

(** ** Worlds that hold a list of rules *)

Record net_ok (c0 : net_ctx) (l : option (list ak_net_rule)) (w : net_world) (c : net_ctx) : Prop := {
  no_deny_default : nw_default_deny w = true /\ ring_initialized (nw_ring w) = true;
  no_ctx : nw_ctx w = Some c;
  no_same : nc_root_cap c = nc_root_cap c0 /\ nc_pid c = nc_pid c0 /\ nc_run_id c = nc_run_id c0;
  no_rules : match l, nc_rules c with
             | None, None => True
             | Some rules, Some t => (if nw_heap w then true else nc_heap c) = true /\
                 exists m, table_ok identity_key t m /\ m !! 0 = match rules with [] => None | _ => Some rules end
             | _, _ => False
             end }.

Lemma rules_in_ok c0 l w c : net_ok c0 l w c -> rules_in c = default [] l /\ bool_decide (is_Some (nc_rules c)) = bool_decide (is_Some l).
Proof.
  intros [_ _ _ Hr]. unfold rules_in. destruct l as [rules|], (nc_rules c) as [t|]; try done. destruct Hr as (_ & m & Ht & Hm). split; [|by rewrite !bool_decide_eq_true_2].
  unfold rules_of. rewrite (find_spec identity_key identity_key_nonneg t m 0 Ht), Hm. by destruct rules.
Qed.

Lemma policy_activeP c0 l w c : net_ok c0 l w c -> ak_net_policy_active (nw_ctx w) = true <-> configured (nc_root_cap c0) l.
Proof.
  intros Hw. unfold ak_net_policy_active, configured. rewrite (no_ctx _ _ _ _ Hw). destruct (rules_in_ok _ _ _ _ Hw) as [_ ->]. destruct (no_same _ _ _ _ Hw) as (-> & _).
  unfold net_cap. case_bool_decide as E; [naive_solver|]. destruct (nc_root_cap c0) as [cap|]; [destruct (cap_type cap =? AK_CAP_NET)|]; split; try done; try (intros [?|[? ?]]; done). right. by eexists.
Qed.

(** The log: one entry, with the operation and the decision. *)
Definition logged (c0 : net_ctx) (op : Z) (allowed : bool) (w w' : net_world) : Prop :=
  exists v, nw_ring w' = (ak_ring_push (nw_ring w) v).2 /\ ring_head (nw_ring w') = u64 (ring_head (nw_ring w) + 1) /\ v_op v = op /\ v_pid v = Some (nc_pid c0) /\ v_run v = Some (nc_run_id c0) /\
    v_flags v = (if allowed then 0 else AK_RING_FLAG_DENIED) /\ v_code v = (if allowed then 0 else - EACCES).

Lemma audit_log_spec c0 l w c now event host port allowed n : net_ok c0 l w c -> ak_net_event_to_op event <> 0 ->
  net_ok c0 l (ak_net_audit_log now event host port allowed n w) c /\ logged c0 (ak_net_event_to_op event) allowed w (ak_net_audit_log now event host port allowed n w).
Proof.
  intros [H1 H2 (H3 & H4 & H5) H6] He. unfold ak_net_audit_log, logged. apply Z.eqb_neq in He. rewrite He, H2. cbn [fmap option_fmap option_map].
  destruct H1 as [H1 Hi].
  destruct allowed; (split; [split; [split; [done|by rewrite <-Hi; apply push_initialized]|done|done|exact H6]|]); eexists; (split; [reflexivity|]);
    (split; [by apply push_takes|]); split_and!; try reflexivity; cbn [v_pid v_run]; congruence.
Qed.

Definition access (c0 : net_ctx) (l : option (list ak_net_rule)) (op : Z) (P : Prop) (w : net_world) (x : Z * net_world) : Prop :=
  (~ configured (nc_root_cap c0) l -> x = (0, w)) /\
  (configured (nc_root_cap c0) l -> P -> x.1 = 0 /\ logged c0 op true w x.2) /\
  (configured (nc_root_cap c0) l -> ~ P -> x.1 = - EACCES /\ logged c0 op false w x.2).

Lemma decide_access_spec c0 l w c now event host port log_port : net_ok c0 l w c -> ak_net_event_to_op event <> 0 ->
  let x := if negb (ak_net_policy_active (nw_ctx w)) then (0, w) else decide_access now event host port log_port w in
  access c0 l (ak_net_event_to_op event) (permits (nc_root_cap c0) (default [] l) host port) w x /\ net_ok c0 l x.2 c.
Proof.
  intros Hw He x. pose proof (policy_activeP _ _ _ _ Hw) as Ha. unfold x, decide_access. clear x. rewrite (proj1 (no_deny_default _ _ _ _ Hw)), (no_ctx _ _ _ _ Hw) in *.
  pose proof (check_rulesP c host port) as Hc. destruct (rules_in_ok _ _ _ _ Hw) as [Er _]. rewrite Er in Hc. destruct (no_same _ _ _ _ Hw) as (Ec & _). rewrite Ec in Hc. unfold access.
  destruct (ak_net_policy_active (Some c)); cbn [negb].
  - destruct (audit_log_spec c0 l w c now event (Some host) log_port (ak_net_check_rules true (Some c) host port) 0 Hw He) as [Hok Hlog]. cbn [fst snd].
    split; [|done]. split; [intros Hn; exfalso; by apply Hn, Ha|]. destruct (ak_net_check_rules true (Some c) host port); cbn [negb]; naive_solver.
  - split; [|done]. split; [done|]. naive_solver.
Qed.

(** ** Rules and data *)

Lemma add_rule_ok c0 l w c env ty host port r w' : net_ok c0 l w c -> ak_net_add_rule env ty host port w = Some (r, w') -> exists c', net_ok c0 (install l (NAdd env ty host port, r)) w' c' /\ nc_budget c' = nc_budget c.
Proof.
  intros Hw E. pose proof Hw as [H1 H2 H3 H4]. unfold ak_net_add_rule in E. rewrite H2 in E. destruct host as [host|]; [|injection E as <- <-; exists c; by destruct l]. cbn [install].
  destruct (if nw_heap w then true else nc_heap c) eqn:Eh; cbn [negb] in E; [|injection E as <- <-; exists c; done].
  destruct (re_rule env); cbn [negb] in E; [|injection E as <- <-; exists c; done].
  set (rule := mk_nrule ty (take 255 host) port) in *.
  assert (Hset : forall t m rules, table_ok identity_key t m -> m !! 0 = (match rules with [] => None | _ => Some rules end) -> rules = default [] l ->
    (fun t => (0, with_ctx (set_rules (Some t) c) w)) <$> table_set identity_key (re_set env) t 0 (Some (rule :: rules_of t)) = Some (r, w') ->
    exists c', net_ok c0 (match r with 0 => Some (rule :: default [] l) | _ => l end) w' c' /\ nc_budget c' = nc_budget c).
  { intros t m rules Ht Hm Er Hs. apply fmap_Some in Hs as (t' & Hs & [= -> ->]). assert (Eo : rules_of t = default [] l).
    { unfold rules_of. rewrite (find_spec identity_key identity_key_nonneg t m 0 Ht), Hm, Er. by destruct (default [] l). }
    rewrite Eo in Hs. exists (set_rules (Some t') c). split; [|done]. split; cbn [with_ctx nw_default_deny nw_ctx set_rules nc_root_cap nc_pid nc_run_id nc_rules nw_heap nc_heap]; [done|done|done|].
    split; [done|]. exists (<[0 := rule :: default [] l]> m). split; [eapply (set_ok _ identity_key_nonneg); [exact Ht|exact Hs]|apply lookup_insert_eq]. }
  destruct l as [rules|], (nc_rules c) as [t|] eqn:Et; try done.
  - destruct H4 as (_ & m & Ht & Hm). by apply (Hset t m rules).
  - destruct (re_table env).
    + apply (Hset (mk_table 4 0 (replicate 4 []) true) ∅ []); [apply (new_table_ok identity_key)|apply lookup_empty|done|exact E].
    + cbn in E. injection E as <- <-. by exists c.
Qed.

Lemma clear_ok' c0 l w c w' : net_ok c0 l w c -> ak_net_clear_rules w = Some w' -> exists c', net_ok c0 ((fun _ => []) <$> l) w' c' /\ nc_budget c' = nc_budget c.
Proof.
  intros Hw E. pose proof Hw as [H1 H2 H3 H4]. unfold ak_net_clear_rules in E. rewrite H2 in E. destruct l as [rules|], (nc_rules c) as [t|] eqn:Et; try done.
  - destruct H4 as (Eh & m & Ht & Hm). rewrite Eh in E. cbn [negb] in E. apply fmap_Some in E as (t' & Hs & ->).
    destruct (set_absent _ identity_key_nonneg (mk_tenv true true) t m 0 Ht) as (t2 & Hs2 & Ht2 & _). rewrite Hs in Hs2. injection Hs2 as <-.
    exists (set_rules (Some t') c). split; [|done]. split; cbn [with_ctx nw_default_deny nw_ctx set_rules nc_root_cap nc_pid nc_run_id nc_rules nw_heap nc_heap fmap option_fmap option_map]; [done|done|done|].
    split; [done|]. exists (delete 0 m). split; [done|]. apply lookup_delete_eq.
  - injection E as <-. by exists c.
Qed.

Abbreviation OUT := (rt AK_RESOURCE_NET_BYTES_OUT).
Record budget_ok (c : net_ctx) : Prop := mk_budget_ok {
  bo_ok : forall t, nc_budget c = Some t ->
    length (used t) = AK_RESOURCE_COUNT /\ 0 <= used t !!! OUT /\ 0 <= limits t !!! OUT <= 2 ^ 63 /\ (0 < limits t !!! OUT -> used t !!! OUT <= limits t !!! OUT) }.

Definition fits (c : net_ctx) (len : Z) : Prop := forall t, nc_budget c = Some t -> limits t !!! OUT = 0 \/ used t !!! OUT + len <= limits t !!! OUT.
Definition clean (data : option bytes) (len : Z) : Prop :=
  match data with Some d => len = 0 \/ ak_dlp_detect_secrets (Some (take (Z.to_nat len) d)) AK_DLP_PATTERN_ALL = 0 | None => True end.

Lemma add_used_spec r n t : length (used t) = AK_RESOURCE_COUNT ->
  length (used (add_used r n t)) = AK_RESOURCE_COUNT /\ limits (add_used r n t) = limits t /\
  used (add_used r n t) !!! OUT = if decide (r = AK_RESOURCE_NET_BYTES_OUT) then u64 (used t !!! OUT + n) else used t !!! OUT.
Proof.
  intros Hl. unfold add_used. cbn [used limits]. rewrite length_insert. split_and!; [done|done|]. rewrite list_lookup_total_insert. unfold AK_RESOURCE_COUNT in Hl.
  destruct r; cbn [rt]; repeat case_decide; try done; lia.
Qed.

Lemma consume_spec c0 l w c len : net_ok c0 l w c -> budget_ok c -> 0 <= len < 2 ^ 63 ->
  match consume_out len w with
  | None => ~ fits c len
  | Some w' => fits c len /\ nw_ring w' = nw_ring w /\ exists c', net_ok c0 l w' c' /\ budget_ok c'
  end.
Proof.
  intros Hw Hb Hlen. pose proof Hw as [H1 H2 H3 H4]. unfold consume_out. rewrite H2. destruct (nc_budget c) as [t|] eqn:Et.
  2:{ split; [intros t Ht; congruence|]. split; [done|]. by exists c. }
  destruct (bo_ok c Hb t Et) as (Hl & Hu & Hlim & Hle). set (u := used t !!! OUT) in *. set (lim := limits t !!! OUT) in *.
  destruct (Z.ltb_spec 0 lim) as [Hp|Hp]; cbn [andb].
  - assert (Eu : u64 (u + len) = u + len) by (apply Z.mod_small; specialize (Hle Hp); lia). rewrite Eu. destruct (Z.ltb_spec lim (u + len)) as [Ho|Ho].
    + intros Hf. destruct (Hf t Et) as [E|E]; fold lim u in E; lia.
    + split; [intros t' Et'; assert (t' = t) as -> by congruence; right; fold u lim; lia|]. split; [done|]. eexists. split; [split; [done|reflexivity|done|exact H4]|].
      split. intros t' [= <-]. destruct (add_used_spec AK_RESOURCE_NET_BYTES_OUT len t Hl) as (A1 & A2 & A3). rewrite A1, A2, A3, decide_True by done. fold u lim. rewrite Eu. split_and!; [done|lia|lia|lia|lia].
  - split; [intros t' Et'; assert (t' = t) as -> by congruence; left; fold lim; lia|]. split; [done|]. eexists. split; [split; [done|reflexivity|done|exact H4]|].
    split. intros t' [= <-]. destruct (add_used_spec AK_RESOURCE_NET_BYTES_OUT len t Hl) as (A1 & A2 & A3). rewrite A1, A2, A3, decide_True by done. fold u lim.
    pose proof (Z.mod_pos_bound (u + len) M64 ltac:(done)) as Hm. unfold u64. split_and!; [done|lia|lia|lia|lia].
Qed.

Lemma filter_send_spec c0 l w c now data len host port : net_ok c0 l w c -> budget_ok c -> 0 <= len < 2 ^ 63 ->
  let x := ak_net_filter_send now data len host port w in
  (exists c', net_ok c0 l x.2 c' /\ budget_ok c') /\ (~ configured (nc_root_cap c0) l -> x = (0, w)) /\
  (configured (nc_root_cap c0) l -> fits c len /\ clean data len -> x.1 = 0 /\ logged c0 AK_NET_OP_SEND true w x.2) /\
  (configured (nc_root_cap c0) l -> ~ (fits c len /\ clean data len) -> x.1 <> 0 /\ exists op, logged c0 op false w x.2).
Proof.
  intros Hw Hb Hlen x. pose proof (policy_activeP _ _ _ _ Hw) as Ha. unfold x, ak_net_filter_send. clear x. destruct (ak_net_policy_active (nw_ctx w)); cbn [negb].
  2:{ split; [by exists c|]. split; [done|]. naive_solver. }
  assert (Hon : configured (nc_root_cap c0) l) by (by apply Ha). pose proof (consume_spec c0 l w c len Hw Hb Hlen) as Hc.
  assert (Hlog : forall ev op ok w1 c1, net_ok c0 l w1 c1 -> ak_net_event_to_op ev = op -> op <> 0 -> nw_ring w1 = nw_ring w ->
    net_ok c0 l (ak_net_audit_log now ev host port ok len w1) c1 /\ logged c0 op ok w (ak_net_audit_log now ev host port ok len w1)).
  { intros ev op ok w1 c1 Hok <- Hne Er. destruct (audit_log_spec c0 l w1 c1 now ev host port ok len Hok Hne) as [G1 G2]. split; [done|]. unfold logged in *. by rewrite Er in G2. }
  destruct (consume_out len w) as [w1|].
  - destruct Hc as (Hf & Er & c1 & Hok & Hb1).
    destruct (match data with Some d => _ | None => false end) eqn:Ed; cbn [fst snd].
    + destruct (Hlog B"send_dlp_block" AK_NET_OP_DLP_BLOCK false w1 c1 Hok eq_refl ltac:(done) Er) as [G1 G2]. split; [by exists c1|]. split; [done|]. split; [|intros _ _; split; [done|by eexists]].
      intros _ [_ Hcl]. exfalso. destruct data as [d|]; [|done]. apply andb_true_iff in Ed as [E1 E2]. apply Z.ltb_lt in E1. apply negb_true_iff, Z.eqb_neq in E2. destruct Hcl; [lia|done].
    + destruct (Hlog B"send" AK_NET_OP_SEND true w1 c1 Hok eq_refl ltac:(done) Er) as [G1 G2]. split; [by exists c1|]. split; [done|]. split; [done|].
      intros _ Hn. exfalso. apply Hn. split; [done|]. destruct data as [d|]; [|done]. cbn. apply andb_false_iff in Ed as [E1|E2]; [apply Z.ltb_ge in E1; left; lia|]. right. by apply negb_false_iff, Z.eqb_eq in E2.
  - destruct (Hlog B"send_blocked" AK_NET_OP_SEND_BLOCKED false w c Hw eq_refl ltac:(done) eq_refl) as [G1 G2]. cbn [fst snd]. split; [by exists c|]. split; [done|]. split; [by intros _ [? _]|].
    intros _ _. split; [done|by eexists].
Qed.

Lemma track_recv_spec c0 l w c now len host port : net_ok c0 l w c -> budget_ok c -> exists c', net_ok c0 l (ak_net_track_recv now len host port w).2 c' /\ budget_ok c'.
Proof.
  intros Hw Hb. unfold ak_net_track_recv. destruct (negb _); [by exists c|]. pose proof Hw as [H1 H2 H3 H4]. rewrite H2. cbn [snd].
  destruct (nc_budget c) as [t|] eqn:Et; [|exists c; split; [by apply audit_log_spec|done]].
  exists (set_tracker (add_used AK_RESOURCE_NETWORK_BYTES len t) c). split.
  - apply audit_log_spec; [|done]. split; [done|done|done|exact H4].
  - split. intros t' [= <-]. destruct (bo_ok c Hb t Et) as (Hl & Hu & Hlim & Hle). destruct (add_used_spec AK_RESOURCE_NETWORK_BYTES len t Hl) as (A1 & A2 & A3). rewrite A1, A2, A3, decide_False by done. done.
Qed.

(** ** Every run *)

Definition send_sized (op : net_op) : Prop := match op with NSend _ _ len _ _ => 0 <= len < 2 ^ 63 | _ => True end.

Lemma budget_ok_eq c c' : nc_budget c' = nc_budget c -> budget_ok c -> budget_ok c'.
Proof. intros E [H]. split. by rewrite E. Qed.

Lemma net_do_ok c0 l w c op r w' : net_ok c0 l w c -> budget_ok c -> send_sized op -> net_do op w = Some (r, w') -> exists c', net_ok c0 (install l (op, r)) w' c' /\ budget_ok c'.
Proof.
  intros Hw Hb Hs E.
  assert (Hacc : forall ev host port lp, ak_net_event_to_op ev <> 0 -> forall now x, x = (if negb (ak_net_policy_active (nw_ctx w)) then (0, w) else decide_access now ev host port lp w) -> x = (r, w') -> exists c', net_ok c0 l w' c' /\ budget_ok c').
  { intros ev host port lp He now x Ex ->. exists c. split; [|done]. destruct (decide_access_spec c0 l w c now ev host port lp Hw He) as [_ H]. by rewrite <-Ex in H. }
  destruct op as [env ty host port| |now host port|now port v6|now host port|now dom|now data len host port|now len host port]; cbn [net_do] in E.
  - destruct (add_rule_ok c0 l w c env ty host port r w' Hw E) as (c' & H1 & H2). exists c'. split; [done|by eapply budget_ok_eq].
  - apply fmap_Some in E as (w1 & E & [= -> ->]). destruct (clear_ok' c0 l w c w1 Hw E) as (c' & H1 & H2). exists c'. split; [done|by eapply budget_ok_eq].
  - injection E as E. destruct host as [host|]; [|injection E as <- <-; by exists c]. by eapply (Hacc B"connect").
  - injection E as E. by eapply (Hacc B"bind").
  - injection E as E. by eapply (Hacc B"accept").
  - injection E as E. destruct dom as [dom|]; [|injection E as <- <-; by exists c]. by eapply (Hacc B"dns").
  - injection E as E. destruct (filter_send_spec c0 l w c now data len host port Hw Hb Hs) as [H _]. by rewrite E in H.
  - injection E as E. pose proof (track_recv_spec c0 l w c now len host port Hw Hb) as H. by rewrite E in H.
Qed.

Lemma net_run_ok c0 w tr w' : net_run w tr w' -> forall l c, net_ok c0 l w c -> budget_ok c -> Forall (fun x => send_sized x.1) tr -> exists c', net_ok c0 (foldl install l tr) w' c' /\ budget_ok c'.
Proof.
  induction 1 as [w|w op r w1 tr w2 E Hrun IH]; intros l c Hw Hb Hs; [by exists c|]. apply Forall_cons in Hs as [Hs Hss]. cbn [foldl].
  destruct (net_do_ok c0 l w c op r w1 Hw Hb Hs E) as (c' & Hw' & Hb'). by eapply IH.
Qed.

(** C7: the network policy is enforced.  Take any run of rule changes, checks and
    transfers from a context without rules whose limit on outgoing bytes is at
    most 2^63 and not exceeded, in which no transfer is of 2^63 bytes or more
    ([budget_test_wraps] shows what happens then), the audit ring being
    initialised.  Afterwards, where neither rules nor a network capability are
    configured, every check and transfer is let through and changes nothing.
    Where one is, a connection, a bind, an accept and a lookup are let through
    exactly when the latest rule that applies to the endpoint allows it or, where
    none applies, the capability covers it; a lookup is an access to port 0, to
    which only rules for every port apply.  Data are sent exactly when they fit
    the limit (0 is none) and no known secret is found in them; the bytes sent
    never exceed the limit.  Every decision pushes one entry with the operation,
    the outcome and the identity of the agent to the ring. *)
Theorem network_policy_enforced w0 c0 tr w :
  net_run w0 tr w -> nw_ctx w0 = Some c0 -> nw_default_deny w0 = true -> ring_initialized (nw_ring w0) = true ->
  nc_rules c0 = None -> budget_ok c0 -> Forall (fun x => send_sized x.1) tr ->
  let l := installed tr in let permitted := permits (nc_root_cap c0) (default [] l) in
  (forall now host port, access c0 l AK_NET_OP_CONNECT (permitted host port) w (ak_net_check_connect now (Some host) port w)) /\
  (forall now port v6, access c0 l AK_NET_OP_BIND (permitted (bind_host v6) port) w (ak_net_check_bind now port v6 w)) /\
  (forall now host port, access c0 l AK_NET_OP_ACCEPT (permitted host port) w (ak_net_check_accept now (Some host) port w)) /\
  (forall now dom, access c0 l AK_NET_OP_DNS (permitted dom 0) w (ak_net_check_dns now (Some dom) w)) /\
  exists c, nw_ctx w = Some c /\ budget_ok c /\
    (forall now data len host port, 0 <= len < 2 ^ 63 -> let x := ak_net_filter_send now data len host port w in
       (~ configured (nc_root_cap c0) l -> x = (0, w)) /\
       (configured (nc_root_cap c0) l -> fits c len /\ clean data len -> x.1 = 0 /\ logged c0 AK_NET_OP_SEND true w x.2) /\
       (configured (nc_root_cap c0) l -> ~ (fits c len /\ clean data len) -> x.1 <> 0 /\ exists op, logged c0 op false w x.2)) /\
    (forall now len host port, ~ configured (nc_root_cap c0) l -> ak_net_track_recv now len host port w = (0, w)).
Proof.
  intros Hrun Hc Hd Hri Hr Hb Hs l permitted.
  destruct (net_run_ok c0 w0 tr w Hrun None c0) as (c & Hw & Hbc); [split; [done|done|done|by rewrite Hr]|done|done|]. fold (installed tr) in Hw. fold l in Hw.
  split_and!.
  - intros now host port. by apply (decide_access_spec c0 l w c now B"connect").
  - intros now port v6. by apply (decide_access_spec c0 l w c now B"bind").
  - intros now host port. by apply (decide_access_spec c0 l w c now B"accept").
  - intros now dom. by apply (decide_access_spec c0 l w c now B"dns").
  - exists c. split; [by destruct Hw|]. split; [done|]. split.
    + intros now data len host port Hlen x. by apply (filter_send_spec c0 l w c now data len host port Hw Hbc Hlen).
    + intros now len host port Hn. unfold ak_net_track_recv. pose proof (policy_activeP _ _ _ _ Hw) as Ha.
      destruct (ak_net_policy_active (nw_ctx w)); [|done]. by destruct Hn; apply Ha.
Qed.

(** ** Texts determine addresses *)

Definition read_number (l : bytes) : Z := foldl (fun n d => 10 * n + (d - 48)) 0 l.
Definition number_char (d : Z) : Prop := 48 <= d <= 57.

Ltac number_text := unfold digit_char; repeat case_match; cbn [read_number foldl]; (repeat (apply Forall_cons_2 || apply Forall_nil_2)); unfold number_char; Z.div_mod_to_equations; lia.

Lemma port_text_spec p : 0 <= p < 65536 -> read_number (port_text p) = p /\ Forall number_char (port_text p).
Proof. intros Hp. unfold port_text. repeat destruct (Z.leb_spec _ p); split; number_text. Qed.
Lemma octet_spec b : is_u8 b -> read_number (ipv4_octet b) = b /\ Forall number_char (ipv4_octet b).
Proof. unfold is_u8. intros Hb. unfold ipv4_octet. repeat destruct (Z.leb_spec _ b); split; number_text. Qed.

(** The text of an endpoint determines the host and the port, also where the host has colons. *)
Theorem endpoint_determined h h' p p' : (length h <= 300)%nat -> (length h' <= 300)%nat -> 0 <= p < 65536 -> 0 <= p' < 65536 ->
  ak_net_format_endpoint h p = ak_net_format_endpoint h' p' -> h = h' /\ p = p'.
Proof.
  intros Hh Hh' Hp Hp' E. unfold ak_net_format_endpoint in E. rewrite !take_ge in E by done. destruct (port_text_spec p Hp) as [R F], (port_text_spec p' Hp') as [R' F'].
  apply (f_equal reverse) in E. rewrite !reverse_app, <-!app_assoc in E. change (reverse [58]) with [58] in E. cbn [app] in E.
  destruct (app_cut number_char (reverse (port_text p)) (reverse (port_text p')) (reverse h) (reverse h') 58 58) as (E1 & _ & E2);
    [by apply Forall_reverse|by apply Forall_reverse|unfold number_char; lia|unfold number_char; lia|exact E|].
  split; [by apply (inj reverse)|]. apply (inj reverse) in E1. by rewrite <-R, E1.
Qed.

Theorem ipv4_determined a b : length a = 4%nat -> length b = 4%nat -> wf_bytes a -> wf_bytes b -> ak_net_format_ipv4 a = ak_net_format_ipv4 b -> a = b.
Proof.
  intros Ha Hb Wa Wb E. destruct a as [|a0 [|a1 [|a2 [|a3 [|? ?]]]]]; try done. destruct b as [|b0 [|b1 [|b2 [|b3 [|? ?]]]]]; try done.
  unfold wf_bytes in Wa, Wb. rewrite !Forall_cons in Wa, Wb. destruct Wa as (A0 & A1 & A2 & A3 & _), Wb as (B0 & B1 & B2 & B3 & _).
  unfold ak_net_format_ipv4 in E. cbn [lookup_total list_lookup_total] in E.
  assert (Hcut : forall x y r r', is_u8 x -> is_u8 y -> ipv4_octet x ++ [46] ++ r = ipv4_octet y ++ [46] ++ r' -> x = y /\ r = r').
  { intros x y r r' Hx Hy Ex. destruct (octet_spec x Hx) as [R F], (octet_spec y Hy) as [R' F']. destruct (app_cut number_char _ _ r r' 46 46 F F') as (E1 & _ & E2); [unfold number_char; lia|unfold number_char; lia|exact Ex|].
    split; [|done]. by rewrite <-R, E1. }
  apply Hcut in E as [-> E]; [|done..]. apply Hcut in E as [-> E]; [|done..]. apply Hcut in E as [-> E]; [|done..].
  destruct (octet_spec a3 A3) as [R _], (octet_spec b3 B3) as [R' _]. by rewrite <-R, E, R'.
Qed.

(** ** Examples *)

Definition plain_ctx : net_ctx := mk_nctx (zeros 16) (zeros 16) true None None None.
Definition plain_world : net_world := mk_net true true (Some plain_ctx) ak_ring_init.
Definition rule_ok : rule_env := mk_rule_env true true (mk_tenv true true).
Definition allow (host : bytes) (port : Z) : net_op := NAdd rule_ok AK_NET_RULE_ALLOW (Some host) port.
Definition deny (host : bytes) (port : Z) : net_op := NAdd rule_ok AK_NET_RULE_DENY (Some host) port.
Fixpoint net_exec (ops : list net_op) (w : net_world) : list Z * net_world :=
  match ops with
  | [] => ([], w)
  | op :: ops => match net_do op w with Some (r, w) => prod_map (cons r) id (net_exec ops w) | None => ([], w) end
  end.
Lemma net_exec_run ops w : length (net_exec ops w).1 = length ops -> net_run w (zip ops (net_exec ops w).1) (net_exec ops w).2.
Proof.
  revert w. induction ops as [|op ops IH]; intros w Hl; [constructor|]. cbn [net_exec] in *. destruct (net_do op w) as [[r w1]|] eqn:E; [|done].
  specialize (IH w1). destruct (net_exec ops w1) as [rs w2]. cbn [prod_map fst snd id length] in *. cbn [zip_with]. econstructor; [exact E|]. apply IH. lia.
Qed.

Definition demo_rules : list net_op := [allow B"*" 443; deny B"*.bad.org" 0].

Lemma network_policy_enforced_witness :
  let w := (net_exec demo_rules plain_world).2 in
  (ak_net_check_connect 0 (Some B"x.bad.org") 443 w).1 = - EACCES /\ (ak_net_check_connect 0 (Some B"10.0.0.1") 443 w).1 = 0 /\
  (exists c, nw_ctx w = Some c /\ budget_ok c).
Proof.
  intros w.
  destruct (network_policy_enforced plain_world plain_ctx (zip demo_rules (net_exec demo_rules plain_world).1) w) as (_ & _ & _ & _ & c & Hc & Hb & _).
  - apply net_exec_run. vm_compute. reflexivity.
  - reflexivity.
  - reflexivity.
  - reflexivity.
  - reflexivity.
  - split. intros t Ht. discriminate Ht.
  - repeat constructor.
  - split; [vm_compute; reflexivity|]. split; [vm_compute; reflexivity|]. exists c. split; assumption.
Defined.

(** A lookup is checked with port 0, which matches only the rules for every
    port: the name of a host that may be connected to is not resolved. *)
Example name_of_allowed_host_refused :
  (net_exec [allow B"api.example.com" 443; NConnect 0 (Some B"api.example.com") 443; NDns 0 (Some B"api.example.com")] plain_world).1 = [0; 0; - EACCES].
Proof. vm_compute. reflexivity. Qed.

(** The test of the budget wraps: a length close to [2^64] passes. *)
Definition small_budget : ak_budget_tracker := mk_tracker (<[OUT := 100]> (replicate 13 0)) (<[OUT := 50]> (replicate 13 0)) 0 0 0 [] 0 0 (mk_breakdown 0 0 [] [] 0).
Definition budget_world : net_world := mk_net true true (Some (mk_nctx (zeros 16) (zeros 16) true None None (Some small_budget))) ak_ring_init.
Example budget_test_wraps :
  (net_exec [allow B"*" 0; NSend 0 None 51 None 0; NSend 0 None (2 ^ 64 - 20) None 0] budget_world).1 = [0; AK_E_BUDGET_EXCEEDED; 0].
Proof. vm_compute. reflexivity. Qed.

(** Data that are held back because of a secret are counted as sent. *)
Example blocked_data_counted :
  let w := (net_exec [allow B"*" 0; NSend 0 (Some B"password=hunter2xx") 18 None 0] budget_world) in
  w.1 = [0; AK_E_DLP_BLOCK] /\ (match nw_ctx w.2 with Some c => (fun t => used t !!! OUT) <$> nc_budget c | None => None end) = Some 68.
Proof. vm_compute. repeat split. Qed.
